(* ===== verification/_CoqProject ===== *)
-Q . S2P
Prelude.v
Utils.v
Memory.v
Ssmem.v
SsmemProps.v
SsmemSpec.v
Clht.v
ClhtGc.v
ClhtRep.v
ClhtUpdate.v
ClhtCopy.v
ClhtResize.v
ClhtSpec.v
ClhtGcSpec.v
Pmem.v
ClhtCrash.v
ClhtConc.v
ClhtLin.v
Pptr.v
ByteMem.v
SizeClass.v
Regions.v
Ralloc.v
RallocInv.v
RallocRun.v
RallocMalloc.v
RallocFill.v
RallocFree.v
RallocInit.v
RallocClient.v
RallocSpec.v
RallocGc.v
RallocSweep.v
RallocRecover.v
RallocRestart.v
ArtNode.v
ArtSlots.v
ArtLayout.v
ArtClass.v
Epoche.v
EpocheSafe.v
ArtTree.v
ArtTrie.v
ArtTrieUpd.v
ArtRep.v
ArtPrefix.v
ArtState.v
ArtGrow.v
ArtInsert.v
ArtRemove.v
ArtSpec.v
ArtError.v
ArtCrash.v
ArtExample.v
ArtRange.v
ArtScan.v
ArtDelete.v
MakLog.v
MakPersist.v
MakFas.v
MakRecover.v
MakAtomic.v
MakHdr.v
MakBlock.v
MakLib.v
MakIndex.v
MakSegs.v
MakRuns.v
MakCoalesce.v
MakAlloc.v
MakHeap.v
MakOwn.v
MakStart.v
MakObj.v
MakPool.v
MakGive.v
MakFast.v
MakStock.v
MakMalloc.v
MakClient.v
