(* ===== verification/Prelude.v ===== *)
(** * P-CLHT, P-ART, Ralloc and Makalu: verification of persistent indexes and allocators

    The repository holds experiments with persistent memory. Four programs in it carry logic of
    their own, and this library verifies them:

    - P-CLHT ([src/RECIPE/P-CLHT]), a hash table whose buckets are one cache line, with locks
      in the buckets, cooperative resizing and explicit write-backs, so that its contents survive
      a power failure; with ssmem ([external/ssmem]), its allocator with epoch-based reclamation,
      and [clht_gc.c], which keeps track of the versions of a table threads still read;
    - P-ART ([src/RECIPE/P-ART]), an adaptive radix tree: nodes of four sizes, compressed
      prefixes, version locks, changes that become visible with one eight-byte store, and epochs
      for the nodes that were unlinked;
    - Ralloc ([src/ralloc/src]), an allocator for mapped files: size classes, superblocks with
      descriptors, per-thread caches, lists headed by counted pointers, position-independent
      pointers, and a mark-and-sweep collector that rebuilds the heap after a crash;
    - Makalu ([src/ralloc/ext/makalu_alloc]), an allocator Ralloc is compared with: here the undo
      log and the flush tables that make changes of its metadata failure-atomic, and the heap of
      4096-byte blocks its objects are made from.

    ** How code is modelled

    Every C or C++ function is a function in one state and error monad ([stM], in this file)
    whose results are a value and a new state, or an error: an invalid access, an invalid free, a
    failed [assert], a spin that no step of the running thread ends, an uncaught exception, or
    fuel used up. Integers are [Z] with the wrap of their C type written out ([u32], [u64],
    [i32], [u31]). Assertions are modelled as
    enabled: Ralloc is built that way, and where a release build of P-CLHT drops one, the
    theorems show that it holds or say when it fails.

    The operations are runs of one thread; what other threads can do is modelled where a
    property is about it: lookups, insertions and removals of P-CLHT on a chain (any number of
    threads, one memory access at a time), the epochs of ssmem (stamps of all registered threads),
    the epochs of P-ART (operations of any number of threads in any order), the expansion of a
    Ralloc region (a step relation over the load and the exchange of any number of threads).
    Spurious failures of weak exchanges are not modelled.

    ** P-CLHT

    - [Utils]: [is_power_of_two], [pow2roundup], [xorshf96], [__ac_Jenkins_hash_64].
    - [Memory]: the store of typed cells with byte addresses and cache lines, [memalign] and
      [free] (a parameter, the class [Malloc], with the documented behaviour), loads, stores,
      flushes and fences, which are also recorded in a trace; the x86 atomics.
    - [Ssmem], [SsmemProps], [SsmemSpec]: the operations of [ssmem.c]; no object is lost or
      handed out twice, and memory is reused only after every thread has left the epoch in which
      it was freed.
    - [Clht]: [clht_lb_res.c] and the lock protocol of its header; [ClhtGc]: [clht_gc.c].
    - [ClhtRep], [ClhtUpdate], [ClhtCopy], [ClhtResize]: what represents a table, and what
      insertion, removal, creation, copying and resizing do to it.
    - [ClhtSpec]: the index implements a finite map ([index_refines_map]; one theorem per
      operation with all its branches, the resizes it triggers included).
    - [ClhtGcSpec]: versions and the release of whole tables.
    - [Pmem]: which memory images a power failure may leave; [ClhtCrash]: at every point of
      every operation each of these images represents the map before or after it, and
      [clht_lock_initialization] makes it usable.
    - [ClhtConc], [ClhtLin]: threads on the chain of one bucket. Operations are linearizable if no
      value is put twice ([clht_linearizable]), lookups never wait ([get_wait_free]), and a value
      that comes back can deceive a lookup ([get_aba]).

    ** P-ART

    - [ArtNode]: [N.h], [N.cpp] and the four layouts [N4.cpp] to [N256.cpp]; a method runs on
      one node, and the contents of the node at every fence are recorded.
    - [ArtSlots], [ArtLayout], [ArtClass]: what a node maps key bytes to, and that insert, change,
      remove, the copy to another layout and the queries of every layout agree with it; the class
      [NodeClassSpec] is the interface the templates of [N.cpp] use.
    - [Epoche]: [Epoche.h/.cpp]; what waits is released once. [EpocheSafe]: no node is
      released while a thread that entered before it was unlinked is still inside.
    - [ArtTree]: [Tree.h/.cpp] and [Key.h]: construction, lookup, insert, remove, destruction.
    - [ArtTrie], [ArtTrieUpd]: the tree as paths of bytes in a heap of nodes, and what
      a changed link does to the paths; [ArtRep], [ArtState]: the heap represents a map, lookups find
      it, and the epochs hold the nodes that were unlinked.
    - [ArtPrefix], [ArtGrow], [ArtInsert], [ArtRemove]: the runs of the operations,
      prefix splits and merges, growing and shrinking of nodes included.
    - [ArtSpec]: the tree implements a map from byte strings to values ([art_refines_map]).
      [ArtError]: keys that are present or prefixes of others. [ArtCrash]: at each fence of an
      operation lookups find the map before it or after it, for keys of at most five bytes
      ([art_crash_lookup]); longer ones can be lost ([split_crash_loses_keys]).
    - [ArtExample]: integer keys and [example.cpp]. [ArtRange], [ArtScan]: [lookupRange], and when
      its answers are right ([lookupRange_between], [lookupRange_wrong]).
    - [ArtDelete]: the epochs stay below the number of operations, and the destructor
      deletes every node ([Tree_delete_frees_all]).

    ** Ralloc

    - [Pptr], [ByteMem]: constants, [pptr] and [atomic_pptr] ([pptr.hpp]), bytes.
    - [SizeClass]: [SizeClass.hpp/.cpp]; each request gets the least class that fits.
    - [Regions]: [RegionManager.hpp/.cpp], [CrossPtr] and [AtomicCrossPtrCnt]; the answers of
      [open], [lseek], [write] and [mmap] are arguments.
    - [Ralloc]: [BaseMeta.hpp/.cpp], [TCache.hpp/.cpp], [ralloc.cpp], without the collector.
    - [RallocInv], [RallocRun]: the address arithmetic of superblocks and
      descriptors, the invariant of a heap, and the runs of the list operations.
    - [RallocMalloc], [RallocFill], [RallocFree], [RallocInit]: every path of
      [do_malloc], [do_free], [flush_cache] and [_RP_init] returns and keeps the invariant.
    - [RallocClient], [RallocSpec]: Ralloc implements an abstract allocator of
      disjoint blocks with contents ([ralloc_refines]); programs that make legal requests only
      are safe forever ([client_safe]); [RP_realloc], [RP_calloc] and the roots.
    - [RallocGc]: [GarbageCollection], [restart], [RP_recover]; marking marks
      exactly what is reachable; [RallocSweep], [RallocRecover]: the sweep rebuilds the invariant
      superblock by superblock; [RallocRestart]: after a crash the heap implements the abstract
      allocator again, and holds the reachable blocks and no others ([crash_recovery]).

    ** Makalu

    - [MakLog]: bytes of persistent memory, what a failure leaves of each cache line, the flush
      tables, and [makalu_persistent.c].
    - [MakPersist]: which bytes are in memory after flushes and fences. [MakFas]: the log in the
      middle of a section. [MakRecover]: commit and recovery. [MakAtomic]: sections are all or
      nothing ([fas_atomic]), recovery can be interrupted ([recovery_restartable]), and of a range
      of several lines only the first is flushed ([async_range_first_line]).
    - [MakHdr]: [makalu_hdr.c], headers of blocks and the two-level index with forwarding counts
      that finds them; [MakBlock]: [makalu_block.c], free lists, allocation, freeing, expansion. The
      memory of the system is a parameter, the class [PersistentMem].
    - [MakLib]: conditions under which a program may only abort, and linked lists. [MakIndex]:
      the index is a function from block numbers, and the search for the header before an address.
      [MakSegs]: the invariant, a heap cut into allocated and free runs, and its free lists.
      [MakRuns]: headers and forwarding counts.
    - [MakCoalesce], [MakAlloc]: the runs of [MAK_freehblk] and [MAK_newfreehblk],
      of [MAK_allochblk], and of [MAK_try_expand_hp].
    - [MakHeap]: the block heap implements sets of allocated and free blocks
      ([block_heap_refines]), freeing always returns ([MAK_freehblk_total]), and any address leads to
      the run it is in ([MAK_prev_block_base]). [MakStart]: the first start of a heap, and a program
      run on a concrete memory.
    - [MakObj]: [makalu_malloc.c], [makalu_local_heap.c], [makalu_reclaim.c] and the header cache:
      objects of one size in a block with their mark bits, the arrays of free objects of the thread
      and of the process, the lists of blocks with objects to reclaim, and the table of sizes.
    - [MakOwn]: what the block heap promises to them (the class [BlockHeap], of which its invariant
      is an instance). [MakPool]: mark bits, the header cache and the reclaim lists over any block
      heap. [MakGive], [MakFast]: the arrays as rings, and the two ways to give objects back to
      their blocks. [MakStock]: the ways to get objects from blocks, large objects, and the object of a
      pointer. [MakMalloc]: the invariant of the allocator, [MAK_malloc] and [MAK_free].
    - [MakClient]: from [MAK_start] on, the allocator implements a map from the addresses of live
      objects to their sizes ([makalu_refines]); freeing always returns ([MAK_free_total]), and any
      pointer into an object leads to its size ([MAK_get_size_interior]).

    ** Bounds

    Loops whose recursion is not structural have fuel, and the theorems show that it suffices
    (they state that a result is returned). Walks over bucket chains get one more than the number
    of live cache lines. Exchange loops of Ralloc get two attempts ([CAS_FUEL]); alone, the
    first succeeds. Loops over superblocks get one more than the region has superblocks, the
    flush of a cache one more than its length, the free list of one superblock one more than it
    has eight-byte words ([SWEEP_FUEL]), and marking, where the caller chooses the fuel, needs
    more than the number of bytes of the region. The descents of P-ART get one more than the
    length of the key, a descent to any leaf one more than the number of nodes, and the retries
    of an operation are a parameter, of which one is enough. Versions of nodes are 60 bits wide
    beside the type and lock bits: the theorems about sequences of operations bound their length
    by the room they have. The log of Makalu has 64 entries, of which a section may use 63, since
    recovery stops at a stale one. Walks over its index blocks get one more than their number, the
    scan of an index block more than it has slots; the loops that take memory for headers get 1030,
    as there are at most 1024 spaces; operations on free lists and counts get more than the number
    of blocks of the heap. A program that allocates objects gets more than the blocks below the limit
    of memory (the class [MemLimit]); loops over the objects of a block get 257, the table of sizes
    2050, an expansion two attempts, of which the second is not needed.

    ** Not modelled

    - Other interleavings of threads: the resize protocol of P-CLHT with helpers is run by one
      thread, the lists of Ralloc are operated on by one thread, and the restarts of P-ART that
      another thread can cause are modelled but not taken.
    - The crash simulations inside the operations of P-ART, which fork the process. A crash of P-ART
      is modelled at fences with all earlier stores in memory; which lines a crash may lose is
      modelled for P-CLHT and Makalu.
    - Filter functions that a program specialises for its types; Ralloc's transient mode
      differs in the flags of [mmap] only. [pm_thread_create] is glue around [pthread_create].
    - Output and timing; the RTM, SPARC and Tilera variants of P-CLHT, and its simulated crashes,
      which are not compiled in.
    - The other indexes of RECIPE (P-BwTree, P-HOT, P-Masstree), the copies in its crash
      tests, the benchmarks, and sspfd, whose code is floating-point statistics.
    - Of Makalu: the collector and its marking; the rebuilding of headers and free lists after a
      crash (the branches of an offline restart are in the code, not in the theorems); more than one
      thread, so that the arrays of the process for small objects stay empty; the contents of
      objects, and objects without pointers in the theorems; the counters and checks of its debug
      build. *)

From Stdlib Require Export ZArith Lia.
From stdpp Require Export prelude gmap list numbers.
#[global] Open Scope Z_scope.

(** ** Machine integers

    A w-bit value is a [Z] in [0, 2^w); every operation that can leave the range
    is followed by the wrap of its type. *)

Definition u8 (x : Z) : Z := x mod 2 ^ 8.
Definition u32 (x : Z) : Z := x mod 2 ^ 32.
Definition u64 (x : Z) : Z := x mod 2 ^ 64.

(** Two's complement reading of a 32-bit pattern (gcc's conversion to [int]). *)
Definition i32 (x : Z) : Z := (x + 2 ^ 31) mod 2 ^ 32 - 2 ^ 31.

(** Bitwise complement of a 64-bit word. *)
Definition not64 (x : Z) : Z := u64 (Z.lnot x).

(** [C]'s truth value of a boolean test. *)
Definition bool_Z (b : bool) : Z := if b then 1 else 0.

(** ** Outcomes and the state monad of sequential C code

    [UB_access] is a load or store through a pointer that is not inside a live
    block, [UB_free] a free of something that is not a live block, [AssertFail] a
    failed [assert], [UB_div] a division by zero, [Hang] a spin loop no step of
    the single running thread can end, [OutOfFuel] a loop that used up the bound
    of the model, [Throw] an uncaught C++ exception or a call of [exit]. *)

Inductive err := UB_access | UB_free | UB_div | UB_overflow | AssertFail | Hang | OutOfFuel | Throw.

Inductive res (A : Type) :=
| Ok (a : A)
| Err (e : err).
Arguments Ok {A} a.
Arguments Err {A} e.

#[export] Instance err_eq_dec : EqDecision err.
Proof. solve_decision. Defined.

(** Computations over a state type [S]. *)
Definition stM (S A : Type) : Type := S -> res (A * S).

Definition cret {S A} (a : A) : stM S A := fun s => Ok (a, s).

Definition cbind {S A B} (m : stM S A) (k : A -> stM S B) : stM S B :=
  fun s => match m s with
           | Ok (a, s') => k a s'
           | Err e => Err e
           end.

Definition cfail {S A} (e : err) : stM S A := fun _ => Err e.

Definition cgets {S A} (f : S -> A) : stM S A := fun s => Ok (f s, s).

Definition cmod {S} (f : S -> S) : stM S unit := fun s => Ok (tt, f s).

Declare Scope cmd_scope.
Delimit Scope cmd_scope with cmd.
#[global] Open Scope cmd_scope.

Notation "x <- m ; k" := (cbind m (fun x => k))
  (at level 100, m at next level, right associativity) : cmd_scope.
Notation "' p <- m ; k" := (cbind m (fun x => match x with p => k end))
  (at level 20, p pattern, m at level 100, k at level 200) : cmd_scope.
Notation "m ;; k" := (cbind m (fun _ => k))
  (at level 100, right associativity) : cmd_scope.

(** [assert(b)] *)
Definition cassert {S} (b : bool) : stM S unit :=
  if b then cret tt else cfail AssertFail.

(** A [for] loop over a list of indices that may leave early with [Some r]. *)
Fixpoint cfor_ret {S A R} (l : list A) (body : A -> stM S (option R)) : stM S (option R) :=
  match l with
  | [] => cret None
  | a :: l' => r <- body a;
               match r with
               | Some x => cret (Some x)
               | None => cfor_ret l' body
               end
  end.

(** A [for] loop without early exit. *)
Fixpoint cfor {S A} (l : list A) (body : A -> stM S unit) : stM S unit :=
  match l with
  | [] => cret tt
  | a :: l' => body a;; cfor l' body
  end.

(** A [for] loop that threads a local variable. *)
Fixpoint cfold {S A L} (l : list A) (body : A -> L -> stM S L) (acc : L) : stM S L :=
  match l with
  | [] => cret acc
  | a :: l' => acc' <- body a acc; cfold l' body acc'
  end.

(** ** Tactics and hint databases *)

Create HintDb cmd.
Create HintDb bits.

(** One step of a computation whose head is known. *)
Ltac cred := unfold cbind, cret, cgets, cmod, cfail, cassert; simpl.

(** Rewrite the head computation of a run with a known outcome and reduce. *)
Ltac cstep H := rewrite H; cred.

(** Split conjunctions and existentials of the context. *)
Ltac destr :=
  repeat match goal with
         | H : _ ∧ _ |- _ => destruct H
         | H : exists _, _ |- _ => destruct H
         | H : Ok _ = Ok _ |- _ => injection H as H
         | H : (_, _) = (_, _) |- _ => injection H as H
         end; subst.

(** ** Monad laws (pointwise, so no extensionality is needed) *)

Lemma cbind_Ok {S A B} (m : stM S A) (k : A -> stM S B) s a s' :
  m s = Ok (a, s') -> cbind m k s = k a s'.
Proof. intros H. unfold cbind. now rewrite H. Qed.

Lemma cbind_Err {S A B} (m : stM S A) (k : A -> stM S B) s e :
  m s = Err e -> cbind m k s = Err e.
Proof. intros H. unfold cbind. now rewrite H. Qed.

Lemma cbind_eq {S A B} (m m' : stM S A) (k : A -> stM S B) s s' :
  m s = m' s' -> cbind m k s = cbind m' k s'.
Proof. intros H. unfold cbind. now rewrite H. Qed.

Lemma cbind_assoc {S A B C} (m : stM S A) (k : A -> stM S B) (h : B -> stM S C) s :
  cbind (cbind m k) h s = cbind m (fun a => cbind (k a) h) s.
Proof. unfold cbind. destruct (m s) as [[a s']|e]; reflexivity. Qed.

Lemma cbind_inv {S A B} (m : stM S A) (k : A -> stM S B) s b s'' :
  cbind m k s = Ok (b, s'') -> exists a s', m s = Ok (a, s') /\ k a s' = Ok (b, s'').
Proof. unfold cbind. destruct (m s) as [[a s']|e]; [eauto | discriminate]. Qed.

Lemma cfor_app {S A} (l1 l2 : list A) (body : A -> stM S unit) s :
  cfor (l1 ++ l2) body s = cbind (cfor l1 body) (fun _ => cfor l2 body) s.
Proof.
  revert s. induction l1 as [|a l1 IH]; intros s; [reflexivity|].
  simpl. rewrite cbind_assoc. destruct (body a s) as [[[] s']|e] eqn:E.
  - rewrite !(cbind_Ok _ _ _ _ _ E). apply IH.
  - now rewrite !(cbind_Err _ _ _ _ E).
Qed.

(** ** Integers *)

Lemma u64_range x : 0 <= u64 x < 2 ^ 64.
Proof. unfold u64. apply Z.mod_pos_bound. lia. Qed.

Lemma u64_small x : 0 <= x < 2 ^ 64 -> u64 x = x.
Proof. apply Z.mod_small. Qed.

Lemma u32_range x : 0 <= u32 x < 2 ^ 32.
Proof. unfold u32. apply Z.mod_pos_bound. lia. Qed.

Lemma u32_small x : 0 <= x < 2 ^ 32 -> u32 x = x.
Proof. apply Z.mod_small. Qed.

Lemma i32_small x : - 2 ^ 31 <= x < 2 ^ 31 -> i32 x = x.
Proof. intros H. unfold i32. rewrite Z.mod_small; lia. Qed.

Lemma i32_range x : - 2 ^ 31 <= i32 x < 2 ^ 31.
Proof. unfold i32. pose proof (Z.mod_pos_bound (x + 2 ^ 31) (2 ^ 32)). lia. Qed.

Lemma bits_above x w n : 0 <= x < 2 ^ w -> 0 <= w <= n -> Z.testbit x n = false.
Proof.
  intros Hx Hn. rewrite <- (Z.mod_small x (2 ^ w)) by lia.
  apply Z.mod_pow2_bits_high. lia.
Qed.

Lemma not64_eq x : not64 x = u64 (- x - 1).
Proof. unfold not64, Z.lnot. f_equal; lia. Qed.

Lemma land_pow2_pred x k : 0 <= k -> Z.land x (2 ^ k - 1) = x mod 2 ^ k.
Proof.
  intros Hk. rewrite <- Z.land_ones by lia. f_equal. rewrite Z.ones_equiv. lia.
Qed.

(** Rounding down to a multiple of a power of two. *)
Lemma land_not64 a k : 0 <= a < 2 ^ 64 -> 0 <= k -> Z.land a (not64 (2 ^ k - 1)) = a / 2 ^ k * 2 ^ k.
Proof.
  intros Ha Hk. rewrite <- Z.shiftr_div_pow2, <- Z.shiftl_mul_pow2, <- Z.ldiff_ones_r by lia. rewrite Z.ones_equiv, <- Z.sub_1_r.
  apply Z.bits_inj'. intros i Hi. rewrite Z.land_spec, Z.ldiff_spec. destruct (Z.lt_ge_cases i 64) as [Hlt|Hge].
  - unfold not64, u64. now rewrite Z.mod_pow2_bits_low, Z.lnot_spec by lia.
  - now rewrite (bits_above a 64 i) by lia.
Qed.

Lemma pow2_pos k : 0 <= k -> 0 < 2 ^ k.
Proof. intros. apply Z.pow_pos_nonneg; lia. Qed.
#[export] Hint Resolve pow2_pos : bits.

(** ** Lists *)

Lemma elem_of_concat {A} (x : A) (ls : list (list A)) :
  x ∈ concat ls <-> exists l, x ∈ l /\ l ∈ ls.
Proof.
  rewrite list_elem_of_In, in_concat. split; intros (l & H1 & H2); exists l.
  - now rewrite !list_elem_of_In.
  - now rewrite !list_elem_of_In in *.
Qed.

Lemma elem_of_concat_lookup {A} (x : A) (ls : list (list A)) i l :
  ls !! i = Some l -> x ∈ l -> x ∈ concat ls.
Proof. intros Hl Hx. apply elem_of_concat. eauto using list_elem_of_lookup_2. Qed.

Lemma fmap_bind_list {A B C} (f : B -> C) (g : A -> list B) (l : list A) :
  f <$> (l ≫= g) = l ≫= (fun a => f <$> g a).
Proof.
  induction l as [|a l IH]; [done|]. cbn. rewrite fmap_app. f_equal. exact IH.
Qed.

(** ** Loops whose body only reads *)

Fixpoint first_some {A R} (f : A -> option R) (l : list A) : option R :=
  match l with
  | [] => None
  | a :: l' => match f a with Some r => Some r | None => first_some f l' end
  end.

Lemma first_some_None {A R} (f : A -> option R) l : first_some f l = None <-> forall x, x ∈ l -> f x = None.
Proof.
  induction l as [|x l IH]; simpl.
  - split; [intros _ x Hx; now apply not_elem_of_nil in Hx|done].
  - destruct (f x) as [r|] eqn:E.
    + split; [done|]. intros Hf. now rewrite Hf in E by left.
    + rewrite IH. split; [intros Hf y Hy; apply elem_of_cons in Hy as [->|Hy]; auto|intros Hf y Hy; apply Hf; now right].
Qed.

Lemma cfor_ret_pure {S A R} (l : list A) (body : A -> stM S (option R)) f s :
  (forall a, a ∈ l -> body a s = Ok (f a, s)) -> cfor_ret l body s = Ok (first_some f l, s).
Proof.
  induction l as [|a l IH]; intros Hb; [done|]. simpl.
  rewrite (cbind_Ok _ _ _ _ _ (Hb a ltac:(left))). destruct (f a); [done|].
  apply IH. intros a' Ha'. apply Hb. now right.
Qed.

Lemma cfold_pure {S A L} (l : list A) (body : A -> L -> stM S L) f acc s :
  (forall a acc, a ∈ l -> body a acc s = Ok (f a acc, s)) ->
  cfold l body acc s = Ok (foldl (fun acc a => f a acc) acc l, s).
Proof.
  revert acc. induction l as [|a l IH]; intros acc Hb; [done|]. simpl.
  rewrite (cbind_Ok _ _ _ _ _ (Hb a acc ltac:(left))).
  apply IH. intros a' acc' Ha'. apply Hb. now right.
Qed.

Lemma foldl_ext_in {A L} (f g : L -> A -> L) (l : list A) acc :
  (forall acc a, a ∈ l -> f acc a = g acc a) -> foldl f acc l = foldl g acc l.
Proof.
  revert acc. induction l as [|a l IH]; intros acc E; [done|]. simpl.
  rewrite E by now left. apply IH. intros acc' a' Ha. apply E. now right.
Qed.

(** Folding over the indices of a list, or over the list. *)
Lemma foldl_seqZ_lookup {A L} (g : A -> L -> L) (l : list A) (d : A) acc m :
  foldl (fun acc i => g (default d (l !! Z.to_nat (i - m))) acc) acc (seqZ m (Z.of_nat (length l)))
  = foldl (fun acc a => g a acc) acc l.
Proof.
  revert acc m. induction l as [|a l IH]; intros acc m; [done|].
  rewrite seqZ_cons by (simpl; lia). cbn [foldl length].
  replace (Z.to_nat (m - m)) with 0%nat by lia. cbn [lookup list_lookup default from_option id].
  replace (Z.pred (Z.of_nat (S (length l)))) with (Z.of_nat (length l)) by lia.
  rewrite <- (IH (g a acc) (Z.succ m)).
  apply foldl_ext_in. intros acc' i Hi. apply elem_of_seqZ in Hi.
  replace (Z.to_nat (i - m)) with (S (Z.to_nat (i - Z.succ m))) by lia. done.
Qed.
