(* ===== verification/Utils.v ===== *)
(** * Bit-level helpers of P-CLHT

    [is_power_of_two], [is_odd] and [__ac_Jenkins_hash_64] of
    [P-CLHT/src/clht_lb_res.c], [pow2roundup] and [xorshf96] of
    [P-CLHT/external/include/utils.h], and the [clht_hash] mask, at their C widths. *)

From S2P Require Import Prelude.

(** ** Definitions *)

(** [return ((x != 0) && !(x & (x - 1)));] on [unsigned int]. *)
Definition is_power_of_two (x : Z) : Z :=
  bool_Z (negb (x =? 0) && (Z.land x (u32 (x - 1)) =? 0)).

Definition is_odd (x : Z) : Z := Z.land x 1.

(** [key += ~(key << s)], [key += (key << s)] and [key ^= (key >> s)] on [uint64_t]. *)
Definition add_not_shl (s key : Z) : Z := u64 (key + not64 (u64 (Z.shiftl key s))).
Definition add_shl (s key : Z) : Z := u64 (key + u64 (Z.shiftl key s)).
Definition xor_shr (s key : Z) : Z := Z.lxor key (Z.shiftr key s).

(** Jenkins' hash function for 64-bit integers. *)
Definition __ac_Jenkins_hash_64 (key : Z) : Z :=
  let key := add_not_shl 32 key in
  let key := xor_shr 22 key in
  let key := add_not_shl 13 key in
  let key := xor_shr 8 key in
  let key := add_shl 3 key in
  let key := xor_shr 15 key in
  let key := add_not_shl 27 key in
  let key := xor_shr 31 key in
  key.

(** [x |= x >> s] *)
Definition or_shr (s x : Z) : Z := Z.lor x (Z.shiftr x s).

(** Round up to the next power of two, on [uint64_t]. *)
Definition pow2roundup (x : Z) : Z :=
  if x =? 0 then 1
  else
    let x := u64 (x - 1) in
    let x := or_shr 1 x in
    let x := or_shr 2 x in
    let x := or_shr 4 x in
    let x := or_shr 8 x in
    let x := or_shr 16 x in
    let x := or_shr 32 x in
    u64 (x + 1).

(** Marsaglia's generator: the new ([x], [y], [z]); the returned value is [z]. *)
Definition xorshf96 (st : Z * Z * Z) : Z * Z * Z :=
  let '(x, y, z) := st in
  let x := Z.lxor x (u64 (Z.shiftl x 16)) in
  let x := Z.lxor x (Z.shiftr x 5) in
  let x := Z.lxor x (u64 (Z.shiftl x 1)) in
  let t := x in
  let x := y in
  let y := z in
  let z := Z.lxor (Z.lxor t x) y in
  (x, y, z).

(** ** Bit lemmas *)

(** A nonnegative number none of whose bits from [w] on is set is below [2^w]. *)
Lemma bits_range x w :
  0 <= w -> 0 <= x -> (forall n, w <= n -> Z.testbit x n = false) -> 0 <= x < 2 ^ w.
Proof.
  intros Hw Hx Hb. split; [lia|].
  destruct (Z.eq_dec x 0) as [->|E]; [auto with bits|].
  apply Z.log2_lt_pow2; [lia|].
  destruct (Z.lt_ge_cases (Z.log2 x) w) as [|Hge]; [assumption|exfalso].
  specialize (Hb _ Hge). rewrite Z.bit_log2 in Hb by lia. discriminate.
Qed.

Lemma lor_range x y w : 0 <= w -> 0 <= x < 2 ^ w -> 0 <= y < 2 ^ w -> 0 <= Z.lor x y < 2 ^ w.
Proof.
  intros Hw Hx Hy. apply bits_range; [lia|apply Z.lor_nonneg; lia|].
  intros n Hn. now rewrite Z.lor_spec, !(bits_above _ w) by lia.
Qed.

Lemma lxor_range x y w : 0 <= w -> 0 <= x < 2 ^ w -> 0 <= y < 2 ^ w -> 0 <= Z.lxor x y < 2 ^ w.
Proof.
  intros Hw Hx Hy. apply bits_range; [lia|apply Z.lxor_nonneg; lia|].
  intros n Hn. now rewrite Z.lxor_spec, !(bits_above _ w) by lia.
Qed.

Lemma shiftr_range x s w : 0 <= s -> 0 <= x < 2 ^ w -> 0 <= Z.shiftr x s < 2 ^ w.
Proof.
  intros Hs Hx. rewrite Z.shiftr_div_pow2 by lia.
  pose proof (pow2_pos s Hs). split.
  - apply Z.div_pos; lia.
  - apply Z.le_lt_trans with x; [|lia]. apply Z.div_le_upper_bound; nia.
Qed.

(** A xor with one's own right shift loses no information: the top bits are
    unchanged and determine the next ones. *)
Lemma xor_shr_inj s a b :
  0 < s -> 0 <= a < 2 ^ 64 -> 0 <= b < 2 ^ 64 -> xor_shr s a = xor_shr s b -> a = b.
Proof.
  intros Hs Ha Hb E. apply Z.bits_inj'. intros n Hn.
  remember (Z.to_nat (64 - n)) as d eqn:Hd. revert n Hn Hd.
  induction d as [d IH] using lt_wf_ind. intros n Hn Hd.
  destruct (Z.le_gt_cases 64 n) as [H64|H64].
  { now rewrite !(bits_above _ 64) by lia. }
  assert (Hx : Z.testbit (xor_shr s a) n = Z.testbit (xor_shr s b) n) by now rewrite E.
  unfold xor_shr in Hx. rewrite !Z.lxor_spec, !Z.shiftr_spec in Hx by lia.
  assert (Hhi : Z.testbit a (n + s) = Z.testbit b (n + s)).
  { apply (IH (Z.to_nat (64 - (n + s)))); lia. }
  rewrite Hhi in Hx. now destruct (Z.testbit a n), (Z.testbit b n), (Z.testbit b (n + s)).
Qed.

Lemma xor_shr_range s a : 0 <= s -> 0 <= a < 2 ^ 64 -> 0 <= xor_shr s a < 2 ^ 64.
Proof. intros. apply lxor_range; auto using shiftr_range with lia. Qed.

Lemma add_not_shl_eq s k : 0 <= s -> add_not_shl s k = u64 (k * (1 - 2 ^ s) - 1).
Proof.
  intros Hs. unfold add_not_shl. rewrite not64_eq, Z.shiftl_mul_pow2 by lia. unfold u64.
  rewrite Zplus_mod_idemp_r.
  replace (k + (- ((k * 2 ^ s) mod 2 ^ 64) - 1)) with (k - 1 - (k * 2 ^ s) mod 2 ^ 64) by lia.
  rewrite Zminus_mod_idemp_r. f_equal. lia.
Qed.

(** Multiplication by a unit of Z/2^64 followed by a translation is injective. *)
Lemma affine_inj c c' d a b :
  (c * c') mod 2 ^ 64 = 1 -> 0 <= a < 2 ^ 64 -> 0 <= b < 2 ^ 64 ->
  u64 (a * c + d) = u64 (b * c + d) -> a = b.
Proof.
  unfold u64. intros Hc Ha Hb E.
  assert (Hz : (a * c - b * c) mod 2 ^ 64 = 0).
  { replace (a * c - b * c) with ((a * c + d) - (b * c + d)) by lia.
    rewrite Zminus_mod, E, Z.sub_diag. reflexivity. }
  assert (H1 : ((a - b) * (c * c')) mod 2 ^ 64 = 0).
  { replace ((a - b) * (c * c')) with ((a * c - b * c) * c') by ring.
    rewrite Zmult_mod, Hz. reflexivity. }
  rewrite Zmult_mod, Hc, Z.mul_1_r, Zmod_mod in H1.
  apply Z.mod_divide in H1; [|lia]. destruct H1 as [q Hq].
  assert (q = 0) by nia. lia.
Qed.

Lemma add_not_shl_inj s c' a b :
  0 <= s -> ((1 - 2 ^ s) * c') mod 2 ^ 64 = 1 -> 0 <= a < 2 ^ 64 -> 0 <= b < 2 ^ 64 ->
  add_not_shl s a = add_not_shl s b -> a = b.
Proof.
  intros Hs Hc Ha Hb. rewrite !add_not_shl_eq by lia.
  replace (a * (1 - 2 ^ s) - 1) with (a * (1 - 2 ^ s) + (-1)) by lia.
  replace (b * (1 - 2 ^ s) - 1) with (b * (1 - 2 ^ s) + (-1)) by lia.
  now apply affine_inj with c'.
Qed.

Lemma add_shl_eq s k : 0 <= s -> add_shl s k = u64 (k * (1 + 2 ^ s) + 0).
Proof.
  intros Hs. unfold add_shl, u64. rewrite Z.shiftl_mul_pow2, Zplus_mod_idemp_r by lia.
  f_equal. lia.
Qed.

Lemma add_shl_inj s c' a b :
  0 <= s -> ((1 + 2 ^ s) * c') mod 2 ^ 64 = 1 -> 0 <= a < 2 ^ 64 -> 0 <= b < 2 ^ 64 ->
  add_shl s a = add_shl s b -> a = b.
Proof.
  intros Hs Hc Ha Hb. rewrite !add_shl_eq by lia. now apply affine_inj with c'.
Qed.

Lemma add_not_shl_range s k : 0 <= add_not_shl s k < 2 ^ 64.
Proof. apply u64_range. Qed.

Lemma xor_shr_range_lit s a : (0 <=? s) = true -> 0 <= a < 2 ^ 64 -> 0 <= xor_shr s a < 2 ^ 64.
Proof. intros Hs%Z.leb_le. now apply xor_shr_range. Qed.

Lemma add_shl_range s k : 0 <= add_shl s k < 2 ^ 64.
Proof. apply u64_range. Qed.

Create HintDb jenkins.
#[export] Hint Resolve add_shl_range add_not_shl_range xor_shr_range_lit : jenkins.

(** After [x |= x >> m] the "smeared width" of a bit pattern doubles. *)
Definition smeared (m x y : Z) : Prop :=
  0 <= y < 2 ^ 64 /\
  forall i, 0 <= i -> Z.testbit y i = true <-> exists d, 0 <= d < m /\ Z.testbit x (i + d) = true.

Lemma or_shr_smeared m m2 x y :
  0 < m -> m2 = 2 * m -> smeared m x y -> smeared m2 x (or_shr m y).
Proof.
  intros Hm -> [Hr Hy]. split; [apply lor_range; auto using shiftr_range with lia|].
  intros i Hi. unfold or_shr. rewrite Z.lor_spec, Z.shiftr_spec, orb_true_iff, !Hy by lia. split.
  - intros [[d [Hd Hx]]|[d [Hd Hx]]]; [exists d | exists (m + d)]; (split; [lia|]).
    + exact Hx.
    + now rewrite Z.add_assoc.
  - intros [d [Hd Hx]]. destruct (Z.lt_ge_cases d m); [left; exists d | right; exists (d - m)];
      (split; [lia|]); [exact Hx|]. now replace (i + m + (d - m)) with (i + d) by lia.
Qed.

Lemma smeared_64_ones x y : 0 < x < 2 ^ 64 -> smeared 64 x y -> y = Z.ones (Z.log2 x + 1).
Proof.
  intros Hx [_ Hy]. pose proof (Z.log2_nonneg x).
  assert (Z.log2 x < 64) by (apply Z.log2_lt_pow2; lia).
  apply Z.bits_inj'. intros i Hi. rewrite Z.testbit_ones_nonneg by lia.
  apply eq_bool_prop_intro. rewrite !Is_true_true, Hy, Z.ltb_lt by lia. split.
  - intros [d [Hd Hb]]. destruct (Z.lt_ge_cases i (Z.log2 x + 1)); [assumption|].
    rewrite Z.bits_above_log2 in Hb by lia. discriminate.
  - intros Hlt. exists (Z.log2 x - i). split; [lia|].
    replace (i + (Z.log2 x - i)) with (Z.log2 x) by lia. apply Z.bit_log2. lia.
Qed.

Lemma pow2roundup_gt1 x : 1 < x < 2 ^ 64 -> pow2roundup x = u64 (2 ^ (Z.log2 (x - 1) + 1)).
Proof.
  intros Hx. unfold pow2roundup. destruct (x =? 0) eqn:E; [lia|].
  cbv zeta. rewrite (u64_small (x - 1)) by lia.
  assert (S0 : smeared 1 (x - 1) (x - 1)).
  { split; [lia|]. intros i Hi. split.
    - intros. exists 0. rewrite Z.add_0_r. auto with lia.
    - intros [d [Hd Hb]]. now replace (i + d) with i in Hb by lia. }
  apply (or_shr_smeared 1 2) in S0; [|lia..]. apply (or_shr_smeared 2 4) in S0; [|lia..].
  apply (or_shr_smeared 4 8) in S0; [|lia..]. apply (or_shr_smeared 8 16) in S0; [|lia..].
  apply (or_shr_smeared 16 32) in S0; [|lia..]. apply (or_shr_smeared 32 64) in S0; [|lia..].
  rewrite (smeared_64_ones (x - 1) _ ltac:(lia) S0), Z.ones_equiv. f_equal. lia.
Qed.

(** ** Properties *)

Lemma pow2roundup_is x :
  1 <= x <= 2 ^ 63 ->
  exists k, 0 <= k <= 63 /\ pow2roundup x = 2 ^ k /\ x <= 2 ^ k < 2 * x.
Proof.
  intros Hx. destruct (Z.eq_dec x 1) as [->|Hne].
  { exists 0. vm_compute. repeat split; congruence. }
  assert (Hl : Z.log2 (x - 1) < 63) by (apply Z.log2_lt_pow2; lia).
  pose proof (Z.log2_nonneg (x - 1)). pose proof (Z.log2_spec (x - 1) ltac:(lia)) as [Hlo Hhi].
  rewrite pow2roundup_gt1 by lia.
  assert (2 ^ (Z.log2 (x - 1) + 1) <= 2 ^ 63) by (apply Z.pow_le_mono_r; lia).
  exists (Z.log2 (x - 1) + 1). rewrite u64_small by lia.
  replace (Z.succ (Z.log2 (x - 1))) with (Z.log2 (x - 1) + 1) in Hhi by lia.
  rewrite Z.pow_add_r in * by lia. repeat split; lia.
Qed.

(** for every 64-bit argument, [pow2roundup] is the least power of two
    that is not smaller, truncated to 64 bits: 1 for 0, and 0 above 2^63, where the
    power of two does not fit. *)
Theorem pow2roundup_spec x : 0 <= x < 2 ^ 64 -> pow2roundup x = u64 (2 ^ Z.log2_up x).
Proof.
  intros Hx. destruct (Z.le_gt_cases x 1) as [H1|H1].
  { assert (x = 0 \/ x = 1) as [->| ->] by lia; reflexivity. }
  rewrite pow2roundup_gt1 by lia. rewrite Z.log2_up_eqn by lia.
  now replace (Z.pred x) with (x - 1) by lia.
Qed.

Lemma Jenkins_steps k :
  __ac_Jenkins_hash_64 k =
  xor_shr 31 (add_not_shl 27 (xor_shr 15 (add_shl 3
    (xor_shr 8 (add_not_shl 13 (xor_shr 22 (add_not_shl 32 k))))))).
Proof. reflexivity. Qed.

Lemma Jenkins_range k : 0 <= __ac_Jenkins_hash_64 k < 2 ^ 64.
Proof.
  rewrite Jenkins_steps. auto with jenkins.
Qed.

(** Jenkins' 64-bit hash never maps two different keys to the same word: it
    is a permutation of the 64-bit words, so collisions come from the mask alone. *)
Theorem Jenkins_injective a b :
  0 <= a < 2 ^ 64 -> 0 <= b < 2 ^ 64 ->
  __ac_Jenkins_hash_64 a = __ac_Jenkins_hash_64 b -> a = b.
Proof.
  intros Ha Hb E. rewrite !Jenkins_steps in E.
  apply xor_shr_inj in E; [|lia|auto with jenkins..].
  apply (add_not_shl_inj 27 (1 + 2 ^ 27 + 2 ^ 54)) in E;
    [|lia|vm_compute; reflexivity|auto with jenkins..].
  apply xor_shr_inj in E; [|lia|auto with jenkins..].
  apply (add_shl_inj 3 10248191152060862009) in E;
    [|lia|vm_compute; reflexivity|auto with jenkins..].
  apply xor_shr_inj in E; [|lia|auto with jenkins..].
  apply (add_not_shl_inj 13 (1 + 2 ^ 13 + 2 ^ 26 + 2 ^ 39 + 2 ^ 52)) in E;
    [|lia|vm_compute; reflexivity|auto with jenkins..].
  apply xor_shr_inj in E; [|lia|auto with jenkins..].
  apply (add_not_shl_inj 32 (1 + 2 ^ 32)) in E; [exact E|lia|vm_compute; reflexivity|exact Ha|exact Hb].
Qed.

(** [is_power_of_two] decides whether an [unsigned int] is a power of two; 0 is
    none. *)
Theorem is_power_of_two_spec x :
  0 <= x < 2 ^ 32 -> is_power_of_two x = 1 <-> exists k, 0 <= k /\ x = 2 ^ k.
Proof.
  intros Hx. unfold is_power_of_two. destruct (Z.eqb_spec x 0) as [->|Hne]; simpl.
  { split; [discriminate|]. intros [k [Hk E]]. pose proof (pow2_pos k Hk). lia. }
  rewrite u32_small by lia. split.
  - intros E. exists (Z.log2 x). pose proof (Z.log2_nonneg x). split; [lia|].
    pose proof (Z.log2_spec x ltac:(lia)) as [Hlo Hhi].
    destruct (Z.eq_dec x (2 ^ Z.log2 x)) as [|Hn]; [assumption|exfalso].
    assert (Hl : Z.log2 (x - 1) = Z.log2 x) by (apply Z.log2_unique; lia).
    assert (Hb : Z.testbit (Z.land x (x - 1)) (Z.log2 x) = true).
    { rewrite Z.land_spec, Z.bit_log2 by lia. rewrite <- Hl at 1. apply Z.bit_log2.
      assert (0 < 2 ^ Z.log2 x) by auto with bits. lia. }
    destruct (Z.land x (x - 1) =? 0) eqn:E0; [|discriminate].
    apply Z.eqb_eq in E0. rewrite E0, Z.bits_0 in Hb. discriminate.
  - intros [k [Hk ->]]. rewrite land_pow2_pred by lia. now rewrite Z_mod_same_full.
Qed.

(** ** Witnesses *)

Lemma pow2roundup_spec_witness : pow2roundup 100 = 128 /\ pow2roundup (2 ^ 63 + 1) = 0.
Proof.
  split.
  - rewrite (pow2roundup_spec 100 ltac:(lia)). reflexivity.
  - rewrite (pow2roundup_spec (2 ^ 63 + 1) ltac:(lia)). reflexivity.
Defined.

Lemma Jenkins_injective_witness : __ac_Jenkins_hash_64 5 = __ac_Jenkins_hash_64 (2 + 3) /\ 5 = 2 + 3.
Proof. split; [reflexivity|]. apply (Jenkins_injective 5 (2 + 3)); [lia|lia|reflexivity]. Defined.

Lemma is_power_of_two_spec_witness : is_power_of_two 64 = 1 <-> exists k, 0 <= k /\ 64 = 2 ^ k.
Proof. apply (is_power_of_two_spec 64). lia. Defined.
