(* ===== verification/Memory.v ===== *)
(** * Memory, processor and process state

    The C objects of P-CLHT live in a store of typed scalar cells: a cell is the
    base address of a struct together with one of its fields, so that two fields
    never overlap (C's effective types) while every cell still has the byte address,
    and hence the 64-byte cache line, that the struct layout of
    [P-CLHT/include/clht_lb_res.h] and [P-CLHT/external/include/ssmem.h] gives it.
    Blocks come from [memalign] and go with [free]; every load, store and flush
    checks that its line belongs to a live block. Each store, non-temporal store,
    flush and fence is also recorded, newest first, in [trace], which the
    persistence model reads.

    The [ssmem] allocator objects are records and lists (their nodes are private to
    the allocator and never aliased). Thread-local variables are kept per thread. *)

From S2P Require Import Prelude.

(** ** Cells *)

Definition CACHE_LINE_SIZE : Z := 64.
Definition NULL : Z := 0.

Inductive fld :=
(* bucket_t *)
| B_lock | B_hops | B_key (j : Z) | B_val (j : Z) | B_next
(* clht_hashtable_t *)
| H_num_buckets | H_table | H_hash | H_version | H_table_tmp | H_table_prev | H_table_new
| H_num_expands | H_num_expands_threshold | H_is_helper | H_helper_done | H_version_min
(* clht_t *)
| W_ht | W_ht_oldest | W_version_list | W_version_min | W_resize_lock | W_gc_lock | W_status_lock
(* ht_ts_t *)
| T_version | T_versionp | T_id | T_next
(* ssmem_ts_t *)
| S_version | S_id | S_next.

Definition cell : Type := Z * fld.

(** The byte offset of a field inside its struct. *)
Definition fld_off (f : fld) : Z :=
  match f with
  | B_lock => 0 | B_hops => 4 | B_key j => 8 + 8 * j | B_val j => 32 + 8 * j | B_next => 56
  | H_num_buckets => 0 | H_table => 8 | H_hash => 16 | H_version => 24
  | H_table_tmp => 64 | H_table_prev => 72 | H_table_new => 80
  | H_num_expands => 88 | H_num_expands_threshold => 92
  | H_is_helper => 96 | H_helper_done => 100 | H_version_min => 104
  | W_ht => 0 | W_ht_oldest => 64 | W_version_list => 72 | W_version_min => 80
  | W_resize_lock => 88 | W_gc_lock => 89 | W_status_lock => 90
  | T_version => 0 | T_versionp => 8 | T_id => 16 | T_next => 24
  | S_version => 0 | S_id => 8 | S_next => 16
  end.

Definition sizeof_bucket_t : Z := 64.
Definition sizeof_clht_hashtable_t : Z := 128.
Definition sizeof_clht_t : Z := 128.
Definition sizeof_ht_ts_t : Z := 64.
Definition sizeof_ssmem_ts_t : Z := 128.

Definition addr_of (c : cell) : Z := c.1 + fld_off c.2.

(** The cache line of a byte address. *)
Definition line (a : Z) : Z := a / CACHE_LINE_SIZE.

(** *** Cells are countable, so that they can key a [gmap] *)

Definition fld_tag (f : fld) : Z * Z :=
  match f with
  | B_lock => (0, 0) | B_hops => (1, 0) | B_key j => (2, j) | B_val j => (3, j) | B_next => (4, 0)
  | H_num_buckets => (5, 0) | H_table => (6, 0) | H_hash => (7, 0) | H_version => (8, 0)
  | H_table_tmp => (9, 0) | H_table_prev => (10, 0) | H_table_new => (11, 0)
  | H_num_expands => (12, 0) | H_num_expands_threshold => (13, 0)
  | H_is_helper => (14, 0) | H_helper_done => (15, 0) | H_version_min => (16, 0)
  | W_ht => (17, 0) | W_ht_oldest => (18, 0) | W_version_list => (19, 0) | W_version_min => (20, 0)
  | W_resize_lock => (21, 0) | W_gc_lock => (22, 0) | W_status_lock => (23, 0)
  | T_version => (24, 0) | T_versionp => (25, 0) | T_id => (26, 0) | T_next => (27, 0)
  | S_version => (28, 0) | S_id => (29, 0) | S_next => (30, 0)
  end.

Definition tag_fld (t : Z * Z) : fld :=
  match t with
  | (0, _) => B_lock | (1, _) => B_hops | (2, j) => B_key j | (3, j) => B_val j | (4, _) => B_next
  | (5, _) => H_num_buckets | (6, _) => H_table | (7, _) => H_hash | (8, _) => H_version
  | (9, _) => H_table_tmp | (10, _) => H_table_prev | (11, _) => H_table_new
  | (12, _) => H_num_expands | (13, _) => H_num_expands_threshold
  | (14, _) => H_is_helper | (15, _) => H_helper_done | (16, _) => H_version_min
  | (17, _) => W_ht | (18, _) => W_ht_oldest | (19, _) => W_version_list | (20, _) => W_version_min
  | (21, _) => W_resize_lock | (22, _) => W_gc_lock | (23, _) => W_status_lock
  | (24, _) => T_version | (25, _) => T_versionp | (26, _) => T_id | (27, _) => T_next
  | (28, _) => S_version | (29, _) => S_id | (_, _) => S_next
  end.

#[export] Instance fld_eq_dec : EqDecision fld.
Proof. solve_decision. Defined.

#[export] Instance fld_countable : Countable fld.
Proof. apply (inj_countable' fld_tag tag_fld). now intros []. Defined.

(** ** ssmem objects *)

Record ssmem_free_set_t := mkFreeSet {
  fs_ts_set : option (list Z);
  fs_size : Z;
  fs_curr : Z;
  fs_set : list Z;
}.

Record ssmem_released_t := mkReleased {
  rel_ts_set : list Z;
  rel_mem : Z;
}.

Record ssmem_allocator_t := mkAllocator {
  a_mem : Z;
  a_mem_curr : Z;
  a_mem_size : Z;
  a_tot_size : Z;
  a_fs_size : Z;
  a_mem_chunks : list Z;
  a_ts : Z;
  a_free_set_list : list ssmem_free_set_t;
  a_free_set_num : Z;
  a_collected_set_list : list ssmem_free_set_t;
  a_collected_set_num : Z;
  a_available_set_list : list ssmem_free_set_t;
  a_released_num : Z;
  a_released_mem_list : list ssmem_released_t;
}.

(** ** Process state *)

(** Thread-local variables of [ssmem.c], [clht_lb_res.c] and [clht_gc.c]. *)
Record tls_t := mkTls {
  ssmem_ts_local : Z;
  ssmem_num_allocators : Z;
  ssmem_allocator_list : list Z;
  clht_alloc : Z;
  clht_ts_thread : Z;
  check_ht_status_steps : Z;
}.

(** Globals: the running thread, every thread's locals, the [ssmem] timestamp list
    head and length, and the allocator objects by address. *)
Record globals := mkGlobals {
  me : Z;
  tlss : gmap Z tls_t;
  ssmem_ts_list : Z;
  ssmem_ts_list_len : Z;
  allocs : gmap Z ssmem_allocator_t;
}.

(** What a thread does to memory, in program order of one thread. *)
Inductive ev :=
| ESt (c : cell) (v : Z)        (* ordinary store *)
| ENt (c : cell) (v : Z)        (* non-temporal store *)
| EFl (l : Z)                   (* write back of a cache line *)
| EFence.                       (* sfence *)

Record state := mkState {
  cells : gmap cell Z;
  owner : gmap Z Z;
  trace : list ev;
  glob : globals;
}.

Definition M (A : Type) : Type := stM state A.

Definition rd (s : state) (c : cell) : Z := default 0 (cells s !! c).

Definition ev_cells (e : ev) (m : gmap cell Z) : gmap cell Z :=
  match e with
  | ESt c v | ENt c v => <[c := v]> m
  | EFl _ | EFence => m
  end.

Definition do_ev (e : ev) (s : state) : state :=
  mkState (ev_cells e (cells s)) (owner s) (e :: trace s) (glob s).

(** Events in program order. *)
Definition do_evs (l : list ev) (s : state) : state := foldl (fun s e => do_ev e s) s l.

Definition set_owner (o : gmap Z Z) (s : state) : state :=
  mkState (cells s) o (trace s) (glob s).
Definition set_glob (g : globals) (s : state) : state :=
  mkState (cells s) (owner s) (trace s) g.

(** Every line owned in [s] is still owned in [s']. *)
Definition owner_grows (s s' : state) : Prop :=
  forall l, is_Some (owner s !! l) -> is_Some (owner s' !! l).

(** *** Loads, stores and read-modify-writes *)

Definition live (o : gmap Z Z) (a : Z) : bool := bool_decide (is_Some (o !! line a)).

Definition load (c : cell) : M Z := fun s =>
  if live (owner s) (addr_of c) then Ok (rd s c, s) else Err UB_access.

Definition store (c : cell) (v : Z) : M unit := fun s =>
  if live (owner s) (addr_of c) then Ok (tt, do_ev (ESt c v) s) else Err UB_access.

(** [CAS_U8], [CAS_U64]: [__sync_val_compare_and_swap], returns the old value. *)
Definition cas (c : cell) (old new : Z) : M Z :=
  v <- load c; (if v =? old then store c new else cret tt);; cret v.

(** [TAS_U8]: [xchgb] with [0xff], returns the old value. *)
Definition tas_uint8 (c : cell) : M Z :=
  v <- load c; store c 255;; cret v.

(** [FAD_U32]: [__sync_fetch_and_sub(a, 1)]. *)
Definition FAD_U32 (c : cell) : M Z :=
  v <- load c; store c (u32 (v - 1));; cret v.

(** [IAF_U32]: [__sync_add_and_fetch(a, 1)]. *)
Definition IAF_U32 (c : cell) : M Z :=
  v <- load c; store c (u32 (v + 1));; cret (u32 (v + 1)).

(** [FAI_U32]: [__sync_fetch_and_add(a, 1)]; the only use is the global
    [ssmem_ts_list_len], which is not a cell. *)
Definition FAI_ts_list_len : M Z := fun s =>
  let g := glob s in
  Ok (ssmem_ts_list_len g,
      set_glob (mkGlobals (me g) (tlss g) (ssmem_ts_list g) (u32 (ssmem_ts_list_len g + 1)) (allocs g)) s).

(** *** Cache-line write-back, fences and non-temporal stores
        ([clht_lb_res.c]; the busy-wait on [write_latency], which is 0, has no
        effect on memory) *)

(** [asm volatile("sfence")] *)
Definition mfence : M unit := fun s => Ok (tt, do_ev EFence s).

Definition flush_line (a : Z) : M unit := fun s =>
  if live (owner s) a then Ok (tt, do_ev (EFl (line a)) s) else Err UB_access.

(** The iterations of [for(; ptr<data+len; ptr+=CACHE_LINE_SIZE)] from
    [ptr = data & ~(CACHE_LINE_SIZE-1)]. *)
Definition flush_ptrs (data len : Z) : list Z :=
  let ptr := Z.land data (not64 (CACHE_LINE_SIZE - 1)) in
  (fun i => ptr + CACHE_LINE_SIZE * i)
    <$> seqZ 0 ((data + len - ptr + CACHE_LINE_SIZE - 1) / CACHE_LINE_SIZE).

(** [len] is an [int]: the callers' [size_t] arguments are converted. *)
Definition clflush (data len : Z) (front back : bool) : M unit :=
  (if front then mfence else cret tt);;
  cfor (flush_ptrs data (i32 len)) flush_line;;
  (if back then mfence else cret tt).

Definition movnt64 (dest : cell) (src : Z) (front back : bool) : M unit :=
  cassert (Z.land (addr_of dest) 7 =? 0);;
  (if front then mfence else cret tt);;
  (fun s => if live (owner s) (addr_of dest) then Ok (tt, do_ev (ENt dest src) s)
            else Err UB_access);;
  (if back then mfence else cret tt).

(** *** Block allocation

    [memalign] and [free] of the C library. What the code relies on: a block it
    hands out is non-null, aligned to the cache line and disjoint from every live
    block. The requested alignment is always [CACHE_LINE_SIZE]; the content of a
    new block is whatever the cells held before. *)

(** The lines of a block of [sz] bytes at [p]. *)
Definition block_lines (p sz : Z) : list Z :=
  seqZ (line p) ((sz + CACHE_LINE_SIZE - 1) / CACHE_LINE_SIZE).

Class Malloc := {
  pick : gmap Z Z -> Z -> option Z;
  pick_spec : forall o sz p, pick o sz = Some p ->
    0 < p /\ p mod CACHE_LINE_SIZE = 0 /\ p + sz < 2 ^ 64 /\
    Forall (fun l => o !! l = None) (block_lines p sz);
}.

Definition claim_lines (p sz : Z) (o : gmap Z Z) : gmap Z Z :=
  foldr (fun l o => <[l := p]> o) o (block_lines p sz).

Definition memalign `{Malloc} (sz : Z) : M Z := fun s =>
  match pick (owner s) sz with
  | Some p => Ok (p, set_owner (claim_lines p sz (owner s)) s)
  | None => Ok (NULL, s)
  end.

(** [free(NULL)] does nothing; any other argument must be the start of a live block. *)
Definition free (p : Z) : M unit := fun s =>
  if p =? NULL then Ok (tt, s)
  else if bool_decide (owner s !! line p = Some p)
       then Ok (tt, set_owner (filter (fun '(_, b) => b ≠ p) (owner s)) s)
       else Err UB_free.

(** A bound for pointer walks: no chain of distinct live lines is longer. *)
Definition walk_bound : M nat := cgets (fun s => S (size (owner s))).

(** *** Globals and thread-local variables *)

Definition tls_init : tls_t := mkTls NULL 0 [] NULL NULL 500000.

Definition my_tls (s : state) : tls_t := default tls_init (tlss (glob s) !! me (glob s)).

Definition set_my_tls (t : tls_t) (s : state) : state :=
  let g := glob s in
  set_glob (mkGlobals (me g) (<[me g := t]> (tlss g)) (ssmem_ts_list g)
                      (ssmem_ts_list_len g) (allocs g)) s.

Definition globals_init (tid : Z) : globals := mkGlobals tid ∅ NULL 0 ∅.

Definition state_init (tid : Z) : state := mkState ∅ ∅ [] (globals_init tid).

(** *** A concrete allocator: bump allocation below a limit *)

Definition top_line (o : gmap Z Z) : Z := map_fold (fun l _ m => Z.max l m) 0 o.

Definition bump_pick (limit : Z) (o : gmap Z Z) (sz : Z) : option Z :=
  let p := CACHE_LINE_SIZE * (top_line o + 1) in
  if (0 <=? sz) && (p + sz <? Z.min limit (2 ^ 64)) then Some p else None.

(** ** Lemmas *)

Lemma rd_cells s s' c : cells s = cells s' -> rd s c = rd s' c.
Proof. unfold rd. now intros ->. Qed.

Lemma top_line_spec o : 0 <= top_line o /\ forall l b, o !! l = Some b -> l <= top_line o.
Proof.
  unfold top_line. induction o as [|l b o Hl Hfirst [IH0 IH]] using map_first_key_ind.
  { rewrite map_fold_empty. split; [lia|]. intros l b. now rewrite lookup_empty. }
  rewrite map_fold_insert_first_key by done. split; [lia|].
  intros l' b'. rewrite lookup_insert_Some. intros [[-> _]|[_ H]]; [lia|].
  apply IH in H. lia.
Qed.

#[export, refine] Instance bump_malloc (limit : Z) : Malloc := {| pick := bump_pick limit |}.
Proof.
  intros o sz p H. unfold bump_pick, CACHE_LINE_SIZE in *. destruct (top_line_spec o) as [H0 Ht].
  destruct (0 <=? sz) eqn:E0; [|discriminate]; simpl in H.
  destruct (_ <? _) eqn:E; [|discriminate]. injection H as <-.
  split; [lia|]. split; [now rewrite Z.mul_comm, Z_mod_mult|]. split; [lia|].
  apply list.Forall_forall. intros l. unfold block_lines, line, CACHE_LINE_SIZE.
  rewrite elem_of_seqZ. intros Hl.
  destruct (o !! l) as [b|] eqn:El; [|reflexivity]. apply Ht in El.
  rewrite (Z.mul_comm 64), Z.div_mul in Hl by lia. lia.
Defined.

(** *** Running one memory operation *)

Lemma do_evs_cons e l s : do_evs (e :: l) s = do_evs l (do_ev e s).
Proof. reflexivity. Qed.

Lemma do_evs_app l1 l2 s : do_evs (l1 ++ l2) s = do_evs l2 (do_evs l1 s).
Proof. apply foldl_app. Qed.

Lemma owner_do_evs l s : owner (do_evs l s) = owner s.
Proof. revert s. induction l as [|e l IH]; intros s; [reflexivity|]. simpl. now rewrite IH. Qed.

Lemma glob_do_evs l s : glob (do_evs l s) = glob s.
Proof. revert s. induction l as [|e l IH]; intros s; [reflexivity|]. simpl. now rewrite IH. Qed.

Lemma trace_do_evs l s : trace (do_evs l s) = rev l ++ trace s.
Proof.
  revert s. induction l as [|e l IH]; intros s; [reflexivity|].
  simpl. rewrite IH. simpl. now rewrite <- app_assoc.
Qed.

Lemma rd_ESt c v s c' : rd (do_ev (ESt c v) s) c' = if decide (c = c') then v else rd s c'.
Proof. unfold rd. simpl. rewrite lookup_insert. now case_decide. Qed.

Lemma rd_ENt c v s c' : rd (do_ev (ENt c v) s) c' = if decide (c = c') then v else rd s c'.
Proof. unfold rd. simpl. rewrite lookup_insert. now case_decide. Qed.

Lemma rd_ESt_ne c v s c' : c ≠ c' -> rd (do_ev (ESt c v) s) c' = rd s c'.
Proof. intros. rewrite rd_ESt. now case_decide. Qed.

Lemma rd_ESt_eq c v s : rd (do_ev (ESt c v) s) c = v.
Proof. rewrite rd_ESt. now case_decide. Qed.

(** The cells an event writes. *)
Definition ev_writes (e : ev) : list cell :=
  match e with ESt c _ | ENt c _ => [c] | EFl _ | EFence => [] end.

Lemma rd_do_evs_frame l s c : c ∉ (l ≫= ev_writes) -> rd (do_evs l s) c = rd s c.
Proof.
  revert s. induction l as [|e l IH]; intros s Hc; [reflexivity|].
  rewrite do_evs_cons, IH by set_solver.
  destruct e; try reflexivity; [apply rd_ESt_ne | rewrite rd_ENt; case_decide]; set_solver.
Qed.

Lemma load_ok s c : live (owner s) (addr_of c) = true -> load c s = Ok (rd s c, s).
Proof. unfold load. now intros ->. Qed.

Lemma store_ok s c v :
  live (owner s) (addr_of c) = true -> store c v s = Ok (tt, do_ev (ESt c v) s).
Proof. unfold store. now intros ->. Qed.

Lemma cas_success s c old new :
  live (owner s) (addr_of c) = true -> rd s c = old ->
  cas c old new s = Ok (old, do_ev (ESt c new) s).
Proof.
  intros Hl Hr. unfold cas. rewrite (cbind_Ok _ _ _ _ _ (load_ok _ _ Hl)), Hr, Z.eqb_refl.
  now rewrite (cbind_Ok _ _ _ _ _ (store_ok _ _ _ Hl)).
Qed.

Lemma cas_failure s c old new :
  live (owner s) (addr_of c) = true -> rd s c ≠ old ->
  cas c old new s = Ok (rd s c, s).
Proof.
  intros Hl Hr. unfold cas. rewrite (cbind_Ok _ _ _ _ _ (load_ok _ _ Hl)).
  now destruct (Z.eqb_spec (rd s c) old).
Qed.

Lemma tas_ok s c :
  live (owner s) (addr_of c) = true -> tas_uint8 c s = Ok (rd s c, do_ev (ESt c 255) s).
Proof.
  intros Hl. unfold tas_uint8. rewrite (cbind_Ok _ _ _ _ _ (load_ok _ _ Hl)).
  now rewrite (cbind_Ok _ _ _ _ _ (store_ok _ _ _ Hl)).
Qed.

Lemma IAF_ok s c :
  live (owner s) (addr_of c) = true ->
  IAF_U32 c s = Ok (u32 (rd s c + 1), do_ev (ESt c (u32 (rd s c + 1))) s).
Proof.
  intros Hl. unfold IAF_U32. rewrite (cbind_Ok _ _ _ _ _ (load_ok _ _ Hl)).
  now rewrite (cbind_Ok _ _ _ _ _ (store_ok _ _ _ Hl)).
Qed.

Lemma FAD_ok s c :
  live (owner s) (addr_of c) = true ->
  FAD_U32 c s = Ok (rd s c, do_ev (ESt c (u32 (rd s c - 1))) s).
Proof.
  intros Hl. unfold FAD_U32. rewrite (cbind_Ok _ _ _ _ _ (load_ok _ _ Hl)).
  now rewrite (cbind_Ok _ _ _ _ _ (store_ok _ _ _ Hl)).
Qed.

(** *** Addresses and lines *)

(** A struct base: non-null and aligned to the cache line. *)
Definition aligned (p : Z) : Prop := 0 < p /\ p mod CACHE_LINE_SIZE = 0.

Lemma line_add p off : p mod CACHE_LINE_SIZE = 0 -> line (p + off) = line p + line off.
Proof.
  intros Hp. unfold line, CACHE_LINE_SIZE in *.
  pose proof (Z.div_mod p 64 ltac:(lia)).
  replace (p + off) with (off + (p / 64) * 64) by lia. rewrite Z.div_add by lia. lia.
Qed.

Lemma line_base p off : p mod CACHE_LINE_SIZE = 0 -> 0 <= off < 64 -> line (p + off) = line p.
Proof.
  intros Hp Ho. rewrite line_add by done. unfold line, CACHE_LINE_SIZE.
  rewrite (Z.div_small off 64) by lia. lia.
Qed.

Lemma line_inj p q : p mod CACHE_LINE_SIZE = 0 -> q mod CACHE_LINE_SIZE = 0 -> line p = line q -> p = q.
Proof. unfold line, CACHE_LINE_SIZE. intros. Z.div_mod_to_equations. lia. Qed.

Lemma live_spec o a : live o a = true <-> is_Some (o !! line a).
Proof. apply bool_decide_eq_true. Qed.

Lemma claim_lines_lookup p sz o l :
  claim_lines p sz o !! l = if decide (l ∈ block_lines p sz) then Some p else o !! l.
Proof.
  unfold claim_lines. induction (block_lines p sz) as [|l' ls IH].
  { rewrite decide_False by set_solver. reflexivity. }
  cbn [foldr]. rewrite lookup_insert, IH.
  destruct (decide (l' = l)), (decide (l ∈ ls)), (decide (l ∈ l' :: ls)); set_solver.
Qed.

Lemma live_claim p sz o a : live o a = true -> live (claim_lines p sz o) a = true.
Proof. rewrite !live_spec, claim_lines_lookup. case_decide; eauto. Qed.

Lemma live_claimed p sz o a :
  p mod CACHE_LINE_SIZE = 0 -> p <= a < p + sz -> live (claim_lines p sz o) a = true.
Proof.
  intros Hp Ha. rewrite live_spec, claim_lines_lookup, decide_True; [eauto|].
  unfold block_lines, line, CACHE_LINE_SIZE in *. rewrite elem_of_seqZ.
  Z.div_mod_to_equations. lia.
Qed.

(** Rounding an address inside a line down gives the start of the line. *)
Lemma land_line_mask p off :
  0 <= p < 2 ^ 64 -> p mod CACHE_LINE_SIZE = 0 -> 0 <= off < CACHE_LINE_SIZE ->
  Z.land (p + off) (not64 (CACHE_LINE_SIZE - 1)) = p.
Proof.
  intros Hr Hal Ho. change (not64 (CACHE_LINE_SIZE - 1)) with (Z.shiftl (Z.ones 58) 6).
  unfold CACHE_LINE_SIZE in *.
  assert (E : p = Z.shiftl (Z.shiftr (p + off) 6) 6).
  { rewrite Z.shiftl_mul_pow2, Z.shiftr_div_pow2 by lia. change (2 ^ 6) with 64.
    Z.div_mod_to_equations. lia. }
  rewrite E at 2. apply Z.bits_inj'. intros n Hn.
  rewrite Z.land_spec, !Z.shiftl_spec by lia.
  destruct (Z.lt_ge_cases n 6) as [H6|H6].
  { rewrite (Z.testbit_neg_r (Z.ones 58)), (Z.testbit_neg_r (Z.shiftr (p + off) 6)) by lia.
    apply andb_false_r. }
  rewrite Z.testbit_ones_nonneg, Z.shiftr_spec by lia. replace (n - 6 + 6) with n by lia.
  destruct (Z.lt_ge_cases n 64) as [H64|H64].
  - replace (n - 6 <? 58) with true by lia. apply andb_true_r.
  - rewrite (bits_above (p + off) 64) by (Z.div_mod_to_equations; lia). reflexivity.
Qed.

Lemma flush_ptrs_base p off len :
  aligned p -> p < 2 ^ 64 -> 0 <= off < CACHE_LINE_SIZE ->
  flush_ptrs (p + off) len = (fun i => p + CACHE_LINE_SIZE * i)
    <$> seqZ 0 ((off + len + CACHE_LINE_SIZE - 1) / CACHE_LINE_SIZE).
Proof.
  intros [Hpos Hal] Hlt Ho. unfold flush_ptrs. rewrite land_line_mask by (done || lia).
  do 3 f_equal. lia.
Qed.

Lemma movnt64_ok s c v front back :
  aligned c.1 -> fld_off c.2 mod 8 = 0 -> live (owner s) (addr_of c) = true ->
  movnt64 c v front back s =
  Ok (tt, do_evs ((if front then [EFence] else []) ++ [ENt c v] ++ (if back then [EFence] else [])) s).
Proof.
  intros [Hp Ha] Hf Hl. unfold movnt64.
  assert (E : Z.land (addr_of c) 7 = 0).
  { change 7 with (Z.ones 3). rewrite Z.land_ones by lia. unfold addr_of, CACHE_LINE_SIZE in *.
    change (2 ^ 3) with 8. Z.div_mod_to_equations. lia. }
  rewrite E. simpl. unfold cbind, cret, mfence.
  destruct front; simpl; rewrite Hl; destruct back; reflexivity.
Qed.

(** Only the lines of the block at [p] are no longer owned. *)
Lemma claim_fresh p sz o l b :
  Forall (fun l => o !! l = None) (block_lines p sz) -> o !! l = Some b ->
  claim_lines p sz o !! l = Some b.
Proof.
  intros Hf Hl. rewrite claim_lines_lookup. case_decide as Hin; [|done].
  rewrite list.Forall_forall in Hf. apply Hf in Hin. congruence.
Qed.
