(* ===== verification/Ssmem.v ===== *)
(** * ssmem: the timestamp-based memory reclamation of P-CLHT

    The operations of [P-CLHT/external/ssmem/src/ssmem.c]. An allocator hands out
    memory from bump-allocated chunks and from recycled free sets; freed objects are
    collected in free sets that are stamped with every thread's activity counter when
    they are full, and a set is recycled once a later stamp is larger in every entry.
    [ssmem_release] gives memory back to the C library under the same rule.

    The nodes of the allocator's private lists ([ssmem_list_t], [ssmem_released_t],
    [ssmem_free_set_t]) are list elements here: their own [malloc] is taken to
    succeed. Memory handed in or out, and the [ssmem_ts_t] nodes, which all threads
    share, are in the common store. *)

From S2P Require Import Prelude Memory.

(** ** Parameters ([ssmem.h]) *)

Definition SSMEM_GC_FREE_SET_SIZE : Z := 507.
Definition SSMEM_GC_RLSE_SET_SIZE : Z := 3.
Definition SSMEM_DEFAULT_MEM_SIZE : Z := 32 * 1024 * 1024.
Definition SSMEM_MEM_SIZE_MAX : Z := 4 * 1024 * 1024 * 1024.

(** ** Access to allocator objects and thread-local variables *)

Definition get_alloc (a : Z) : M ssmem_allocator_t := fun s =>
  match allocs (glob s) !! a with
  | Some r => Ok (r, s)
  | None => Err UB_access
  end.

Definition set_alloc (a : Z) (r : ssmem_allocator_t) : M unit := fun s =>
  let g := glob s in
  Ok (tt, set_glob (mkGlobals (me g) (tlss g) (ssmem_ts_list g) (ssmem_ts_list_len g)
                              (<[a := r]> (allocs g))) s).

Definition set_ts_list (p : Z) : M unit := fun s =>
  let g := glob s in
  Ok (tt, set_glob (mkGlobals (me g) (tlss g) p (ssmem_ts_list_len g) (allocs g)) s).

Definition get_tls : M tls_t := cgets my_tls.
Definition set_tls (t : tls_t) : M unit := cmod (set_my_tls t).

Definition set_ssmem_ts_local (p : Z) (t : tls_t) : tls_t :=
  mkTls p (ssmem_num_allocators t) (ssmem_allocator_list t) (clht_alloc t)
        (clht_ts_thread t) (check_ht_status_steps t).
Definition set_ssmem_allocators (n : Z) (l : list Z) (t : tls_t) : tls_t :=
  mkTls (ssmem_ts_local t) n l (clht_alloc t) (clht_ts_thread t) (check_ht_status_steps t).

(** Array access: outside of the array is an invalid access. *)
Definition array_get (l : list Z) (i : Z) : M Z :=
  if (0 <=? i) && (i <? Z.of_nat (length l))
  then cret (nth (Z.to_nat i) l 0) else cfail UB_access.
Definition array_set (l : list Z) (i v : Z) : M (list Z) :=
  if (0 <=? i) && (i <? Z.of_nat (length l))
  then cret (<[Z.to_nat i := v]> l) else cfail UB_access.

(** ** Field updates of an allocator *)

Definition with_chunk (mem curr size tot : Z) (chunks : list Z) (a : ssmem_allocator_t) :=
  mkAllocator mem curr size tot (a_fs_size a) chunks (a_ts a)
    (a_free_set_list a) (a_free_set_num a) (a_collected_set_list a) (a_collected_set_num a)
    (a_available_set_list a) (a_released_num a) (a_released_mem_list a).
Definition with_mem_curr (curr : Z) (a : ssmem_allocator_t) :=
  with_chunk (a_mem a) curr (a_mem_size a) (a_tot_size a) (a_mem_chunks a) a.
Definition with_ts (ts : Z) (a : ssmem_allocator_t) :=
  mkAllocator (a_mem a) (a_mem_curr a) (a_mem_size a) (a_tot_size a) (a_fs_size a) (a_mem_chunks a) ts
    (a_free_set_list a) (a_free_set_num a) (a_collected_set_list a) (a_collected_set_num a)
    (a_available_set_list a) (a_released_num a) (a_released_mem_list a).
Definition with_free (l : list ssmem_free_set_t) (n : Z) (a : ssmem_allocator_t) :=
  mkAllocator (a_mem a) (a_mem_curr a) (a_mem_size a) (a_tot_size a) (a_fs_size a) (a_mem_chunks a) (a_ts a)
    l n (a_collected_set_list a) (a_collected_set_num a)
    (a_available_set_list a) (a_released_num a) (a_released_mem_list a).
Definition with_collected (l : list ssmem_free_set_t) (n : Z) (a : ssmem_allocator_t) :=
  mkAllocator (a_mem a) (a_mem_curr a) (a_mem_size a) (a_tot_size a) (a_fs_size a) (a_mem_chunks a) (a_ts a)
    (a_free_set_list a) (a_free_set_num a) l n
    (a_available_set_list a) (a_released_num a) (a_released_mem_list a).
Definition with_available (l : list ssmem_free_set_t) (a : ssmem_allocator_t) :=
  mkAllocator (a_mem a) (a_mem_curr a) (a_mem_size a) (a_tot_size a) (a_fs_size a) (a_mem_chunks a) (a_ts a)
    (a_free_set_list a) (a_free_set_num a) (a_collected_set_list a) (a_collected_set_num a)
    l (a_released_num a) (a_released_mem_list a).
Definition with_released (n : Z) (l : list ssmem_released_t) (a : ssmem_allocator_t) :=
  mkAllocator (a_mem a) (a_mem_curr a) (a_mem_size a) (a_tot_size a) (a_fs_size a) (a_mem_chunks a) (a_ts a)
    (a_free_set_list a) (a_free_set_num a) (a_collected_set_list a) (a_collected_set_num a)
    (a_available_set_list a) n l.

(** ** Timestamps *)

(** [ssmem_get_id] *)
Definition ssmem_get_id : M Z :=
  t <- get_tls;
  if ssmem_ts_local t =? NULL then cret (-1) else load (ssmem_ts_local t, S_id).

(** [ssmem_ts_next]: [ssmem_ts_local->version++] *)
Definition ssmem_ts_next : M unit :=
  t <- get_tls;
  v <- load (ssmem_ts_local t, S_version);
  store (ssmem_ts_local t, S_version) (u64 (v + 1)).

(** The walk of [ssmem_ts_set_collect]: [ts_set[cur->id] = cur->version]. *)
Fixpoint ts_set_walk (n : nat) (cur : Z) (ts_set : list Z) : M (list Z) :=
  if cur =? NULL then cret ts_set
  else match n with
       | O => cfail OutOfFuel
       | S n' =>
         id <- load (cur, S_id);
         v <- load (cur, S_version);
         ts_set' <- array_set ts_set id v;
         nxt <- load (cur, S_next);
         ts_set_walk n' nxt ts_set'
       end.

(** An array of [ssmem_ts_list_len] counters as [malloc] returns it. *)
Definition new_ts_set : M (list Z) :=
  cgets (fun s => replicate (Z.to_nat (ssmem_ts_list_len (glob s))) 0).

Definition ssmem_ts_set_collect (ts_set : option (list Z)) : M (list Z) :=
  ts_set' <- match ts_set with None => new_ts_set | Some l => cret l end;
  hd <- cgets (fun s => ssmem_ts_list (glob s));
  n <- walk_bound;
  ts_set_walk n hd ts_set'.

(** [ssmem_ts_compare]: 1 iff [s_new] exceeds [s_old] in every one of the first
    [ssmem_ts_list_len] entries. *)
Definition ssmem_ts_compare (s_new s_old : list Z) : M Z :=
  len <- cgets (fun s => ssmem_ts_list_len (glob s));
  r <- cfor_ret (seqZ 0 len) (fun i =>
         x <- array_get s_new i;
         y <- array_get s_old i;
         cret (if x <=? y then Some 0 else None));
  cret (default 1 r).

(** [ssmem_ts_compare_3] *)
Definition ssmem_ts_compare_3 (s_1 s_2 s_3 : list Z) : M Z :=
  len <- cgets (fun s => ssmem_ts_list_len (glob s));
  r <- cfor_ret (seqZ 0 len) (fun i =>
         x <- array_get s_1 i;
         y <- array_get s_2 i;
         if x <=? y then cret (Some 0)
         else y' <- array_get s_2 i;
              z <- array_get s_3 i;
              cret (if y' <=? z then Some 0 else None));
  cret (default 1 r).

(** ** Free sets *)

Definition ssmem_free_set_new (size : Z) : ssmem_free_set_t :=
  mkFreeSet None size 0 (replicate (Z.to_nat size) 0).

(** Takes a set from the available list if there is one, else a new one. *)
Definition ssmem_free_set_get_avail (a : ssmem_allocator_t) (size : Z)
  : ssmem_free_set_t * ssmem_allocator_t :=
  match a_available_set_list a with
  | fs :: rest => (mkFreeSet (fs_ts_set fs) (fs_size fs) 0 (fs_set fs), with_available rest a)
  | [] => (ssmem_free_set_new size, a)
  end.

Definition ssmem_free_set_make_avail (a : ssmem_allocator_t) (set : ssmem_free_set_t)
  : ssmem_allocator_t :=
  with_available (mkFreeSet (fs_ts_set set) (fs_size set) 0 (fs_set set) :: a_available_set_list a) a.

(** ** Initialisation *)

Section Operations.
Context `{Malloc}.

Definition ssmem_gc_thread_init (a id : Z) : M unit :=
  t <- get_tls;
  al <- get_alloc a;
  if negb (ssmem_ts_local t =? NULL) then set_alloc a (with_ts (ssmem_ts_local t) al)
  else
    ts <- memalign sizeof_ssmem_ts_t;
    cassert (negb (ts =? NULL));;
    set_alloc a (with_ts ts al);;
    set_tls (set_ssmem_ts_local ts t);;
    store (ts, S_id) id;;
    store (ts, S_version) 0;;
    (* do a->ts->next = ssmem_ts_list; while (CAS(&ssmem_ts_list, next, ts) != next) *)
    hd <- cgets (fun s => ssmem_ts_list (glob s));
    store (ts, S_next) hd;;
    set_ts_list ts;;
    _ <- FAI_ts_list_len;
    cret tt.

Definition ssmem_alloc_init_fs_size (a size free_set_size id : Z) : M unit :=
  t <- get_tls;
  set_tls (set_ssmem_allocators (ssmem_num_allocators t + 1) (a :: ssmem_allocator_list t) t);;
  mem <- memalign size;
  cassert (negb (mem =? NULL));;
  set_alloc a (mkAllocator mem 0 size size free_set_size [mem] NULL [] 0 [] 0 [] 0 []);;
  ssmem_gc_thread_init a id;;
  al <- get_alloc a;
  set_alloc a
    (with_released 0 []
      (with_available []
        (with_collected [] 0
          (with_free [ssmem_free_set_new (a_fs_size al)] 1 al)))).

Definition ssmem_alloc_init (a size id : Z) : M unit :=
  ssmem_alloc_init_fs_size a size SSMEM_GC_FREE_SET_SIZE id.

(** ** Termination *)

(** The unlinking of [a] from [ssmem_allocator_list] (unchanged when absent). *)
Fixpoint unlink_allocator (a : Z) (l : list Z) : list Z :=
  match l with
  | [] => []
  | x :: l' => if x =? a then l' else x :: unlink_allocator a l'
  end.

Definition ssmem_alloc_term (a : Z) : M unit :=
  al <- get_alloc a;
  cfor (a_mem_chunks al) free;;
  t <- get_tls;
  let n := ssmem_num_allocators t - 1 in
  set_tls (set_ssmem_allocators n (unlink_allocator a (ssmem_allocator_list t)) t);;
  (if n =? 0 then free (a_ts al) else cret tt);;
  (* the free, collected and available sets are list elements of the allocator *)
  cfor (a_released_mem_list al) (fun rel => free (rel_mem rel)).

(** [while (ssmem_allocator_list != NULL) ssmem_alloc_term(ssmem_allocator_list->obj)] *)
Fixpoint ssmem_term_loop (n : nat) : M unit :=
  t <- get_tls;
  match ssmem_allocator_list t with
  | [] => cret tt
  | a :: _ => match n with
              | O => cfail OutOfFuel
              | S n' => ssmem_alloc_term a;; ssmem_term_loop n'
              end
  end.

Definition ssmem_term : M unit :=
  t <- get_tls; ssmem_term_loop (length (ssmem_allocator_list t)).

(** ** Reclamation *)

(** The first half of [ssmem_mem_reclaim]: memory handed to [ssmem_release]. *)
Definition reclaim_released (a : Z) : M unit :=
  al <- get_alloc a;
  if 0 <? a_released_num al then
    match a_released_mem_list al with
    | [] => cfail UB_access
    | rel_cur :: rest =>
      match rest with
      | [] => cret tt
      | rel_nxt :: _ =>
        newer <- ssmem_ts_compare (rel_ts_set rel_cur) (rel_ts_set rel_nxt);
        if newer =? 0 then cret tt
        else set_alloc a (with_released 1 [rel_cur] al);;
             cfor rest (fun rel => free (rel_mem rel))
      end
    end
  else cret tt.

(** The second half: free sets whose stamp is older in every entry. *)
Definition reclaim_free_sets (a : Z) : M Z :=
  al <- get_alloc a;
  match a_free_set_list al with
  | [] => cfail UB_access
  | fs_cur :: rest =>
    match fs_ts_set fs_cur, rest with
    | None, _ | _, [] => cret 0
    | Some ts_cur, fs_nxt :: _ =>
      match fs_ts_set fs_nxt with
      | None => cret 0
      | Some ts_nxt =>
        newer <- ssmem_ts_compare ts_cur ts_nxt;
        if newer =? 0 then cret 0
        else
          let gced_num := a_free_set_num al - 1 in
          set_alloc a
            (with_collected (a_collected_set_list al ++ rest) (a_collected_set_num al + gced_num)
              (with_free [fs_cur] 1 al));;
          cret gced_num
      end
    end
  end.

Definition ssmem_mem_reclaim (a : Z) : M Z :=
  reclaim_released a;; reclaim_free_sets a.

(** ** Allocation, free and release *)

(** [while (a->mem_size < size) { if (a->mem_size > MAX) assert(..); a->mem_size <<= 1; }] *)
Fixpoint grow_mem_size (n : nat) (mem_size size : Z) : M Z :=
  if mem_size <? size then
    match n with
    | O => cfail OutOfFuel
    | S n' =>
      cassert (mem_size <=? SSMEM_MEM_SIZE_MAX);;
      grow_mem_size n' (u64 (Z.shiftl mem_size 1)) size
    end
  else cret mem_size.

(** The new chunk's size when the current chunk is used up. *)
Definition next_mem_size (mem_size size : Z) : M Z :=
  let m := u64 (Z.shiftl mem_size 1) in
  let m := if SSMEM_MEM_SIZE_MAX <? m then SSMEM_MEM_SIZE_MAX else m in
  if m <? size then grow_mem_size 65 m size else cret m.

Definition ssmem_alloc (a size : Z) : M Z :=
  al <- get_alloc a;
  match a_collected_set_list al with
  | cs :: rest =>
    (* 1st try to use from the collected memory *)
    let curr := fs_curr cs - 1 in
    m <- array_get (fs_set cs) curr;
    let cs' := mkFreeSet (fs_ts_set cs) (fs_size cs) curr (fs_set cs) in
    (if curr <=? 0
     then set_alloc a (ssmem_free_set_make_avail
                         (with_collected rest (a_collected_set_num al - 1) al) cs')
     else set_alloc a (with_collected (cs' :: rest) (a_collected_set_num al) al));;
    cret m
  | [] =>
    (if a_mem_size al <=? u64 (a_mem_curr al + size) then
       mem_size <- next_mem_size (a_mem_size al) size;
       mem <- memalign mem_size;
       cassert (negb (mem =? NULL));;
       set_alloc a (with_chunk mem 0 mem_size (u64 (a_tot_size al + mem_size))
                               (mem :: a_mem_chunks al) al)
     else cret tt);;
    al <- get_alloc a;
    let m := a_mem al + a_mem_curr al in
    set_alloc a (with_mem_curr (u64 (a_mem_curr al + size)) al);;
    cret m
  end.

(** [fs->set[fs->curr++] = obj] on the head of the free-set list. *)
Definition push_obj (a obj : Z) : M unit :=
  al <- get_alloc a;
  match a_free_set_list al with
  | [] => cfail UB_access
  | fs :: rest =>
    set' <- array_set (fs_set fs) (fs_curr fs) obj;
    set_alloc a (with_free (mkFreeSet (fs_ts_set fs) (fs_size fs) (fs_curr fs + 1) set' :: rest)
                           (a_free_set_num al) al)
  end.

(** A full head set is stamped, older sets are reclaimed and a fresh set is pushed. *)
Definition rotate_free_set (a : Z) : M unit :=
  al <- get_alloc a;
  match a_free_set_list al with
  | [] => cfail UB_access
  | fs :: rest =>
    if fs_curr fs =? fs_size fs then
      ts_set <- ssmem_ts_set_collect (fs_ts_set fs);
      set_alloc a (with_free (mkFreeSet (Some ts_set) (fs_size fs) (fs_curr fs) (fs_set fs) :: rest)
                             (a_free_set_num al) al);;
      ssmem_mem_reclaim a;;
      al <- get_alloc a;
      let '(fs_new, al) := ssmem_free_set_get_avail al (a_fs_size al) in
      set_alloc a (with_free (fs_new :: a_free_set_list al) (a_free_set_num al + 1) al)
    else cret tt
  end.

(** [SSMEM_TS_INCR_ON] is [SSMEM_TS_INCR_ON_FREE]. *)
Definition ssmem_free (a obj : Z) : M unit :=
  rotate_free_set a;; push_obj a obj;; ssmem_ts_next.

Definition ssmem_release (a obj : Z) : M unit :=
  al <- get_alloc a;
  arr <- new_ts_set;
  ts_set <- ssmem_ts_set_collect (Some arr);
  let rn := a_released_num al + 1 in
  set_alloc a (with_released rn (mkReleased ts_set obj :: a_released_mem_list al) al);;
  if SSMEM_GC_RLSE_SET_SIZE <=? rn then _ <- ssmem_mem_reclaim a; cret tt else cret tt.

End Operations.
