(* ===== verification/SsmemProps.v ===== *)
(** * ssmem: stamps, reclamation and the memory it hands out

    The timestamp protocol: what a collected stamp contains, when one stamp is newer
    than another, and that only sets whose stamp is older in every thread's entry are
    recycled. The bump allocation inside a chunk stays inside it. *)

From S2P Require Import Prelude Memory Ssmem.

(** ** The list of registered threads *)

(** A one-line object. *)
Definition ok_line (o : gmap Z Z) (p : Z) : Prop := aligned p /\ p < 2 ^ 64 /\ is_Some (o !! line p).

Fixpoint ts_chain (s : state) (cur : Z) (L : list Z) : Prop :=
  match L with
  | [] => cur = NULL
  | p :: L' => cur = p /\ ts_chain s (rd s (p, S_next)) L'
  end.

(** The nodes [L] reached from [ssmem_ts_list]: every thread has an id below the
    number of threads. *)
Record ts_rep (s : state) (L : list Z) : Prop := {
  ts_reach : ts_chain s (ssmem_ts_list (glob s)) L;
  ts_nodup : NoDup L;
  ts_ok : Forall (ok_line (owner s)) L;
  ts_ids : Forall (fun p => 0 <= rd s (p, S_id) < ssmem_ts_list_len (glob s)) L;
}.

(** The array [ssmem_ts_set_collect] fills. *)
Definition stamp (s : state) (L : list Z) (arr : list Z) : list Z :=
  foldl (fun arr p => <[Z.to_nat (rd s (p, S_id)) := rd s (p, S_version)]> arr) arr L.

(** A newer stamp: strictly larger in every entry. *)
Definition newer (len : Z) (s_new s_old : list Z) : Prop :=
  forall i, 0 <= i < len -> nth (Z.to_nat i) s_old 0 < nth (Z.to_nat i) s_new 0.

(** ** Collecting a stamp *)

Lemma ok_line_live o p f : ok_line o p -> 0 <= fld_off f < 64 -> live o (addr_of (p, f)) = true.
Proof.
  intros ([_ Ha] & _ & Hl) Hf. rewrite live_spec. unfold addr_of. simpl. now rewrite line_base.
Qed.

Lemma lines_bound o l : NoDup l -> Forall (ok_line o) l -> (length l <= size o)%nat.
Proof.
  intros Hnd Hok. rewrite <- size_dom.
  assert (Hnl : NoDup (line <$> l)).
  { apply NoDup_fmap_2_strong; [|done]. intros x y Hx Hy E.
    rewrite list.Forall_forall in Hok. apply Hok in Hx as ([_ ?] & _), Hy as ([_ ?] & _).
    now apply line_inj. }
  rewrite <- (length_fmap line), <- (size_list_to_set (C := gset Z)) by done.
  apply subseteq_size. intros x Hx. apply elem_of_list_to_set, list_elem_of_fmap in Hx.
  destruct Hx as (b & -> & Hb). apply elem_of_dom.
  rewrite list.Forall_forall in Hok. now apply Hok.
Qed.

Lemma array_set_ok l i v s :
  0 <= i < Z.of_nat (length l) -> array_set l i v s = Ok (<[Z.to_nat i := v]> l, s).
Proof. intros Hi. unfold array_set. replace (_ && _) with true by lia. done. Qed.

Lemma array_get_ok l i s :
  0 <= i < Z.of_nat (length l) -> array_get l i s = Ok (nth (Z.to_nat i) l 0, s).
Proof. intros Hi. unfold array_get. replace (_ && _) with true by lia. done. Qed.

Lemma ts_set_walk_ok n s cur L arr len :
  ts_chain s cur L -> Forall (ok_line (owner s)) L -> (length L <= n)%nat ->
  Forall (fun p => 0 <= rd s (p, S_id) < len) L -> Z.of_nat (length arr) = len ->
  ts_set_walk n cur arr s = Ok (stamp s L arr, s).
Proof.
  revert cur L arr. induction n as [|n IH]; intros cur L arr Hc Hok Hlen Hid Harr.
  { destruct L; [|simpl in Hlen; lia]. simpl in Hc. now subst. }
  destruct L as [|p L]; [simpl in Hc; now subst|]. destruct Hc as [-> Hc].
  apply list.Forall_cons in Hok as [Hp Hok]. apply list.Forall_cons in Hid as [Hi Hid].
  assert (Hnz : p ≠ NULL) by (destruct Hp as [[Hpos _] _]; unfold NULL; lia).
  cbn [ts_set_walk]. rewrite (proj2 (Z.eqb_neq p NULL) Hnz).
  rewrite (cbind_Ok _ _ _ _ _ (load_ok s (p, S_id) (ok_line_live _ p S_id Hp ltac:(simpl; lia)))).
  rewrite (cbind_Ok _ _ _ _ _ (load_ok s (p, S_version) (ok_line_live _ p S_version Hp ltac:(simpl; lia)))).
  rewrite (cbind_Ok _ _ _ _ _ (array_set_ok arr (rd s (p, S_id)) (rd s (p, S_version)) s ltac:(lia))).
  rewrite (cbind_Ok _ _ _ _ _ (load_ok s (p, S_next) (ok_line_live _ p S_next Hp ltac:(simpl; lia)))).
  rewrite (IH _ L); try done; [simpl in Hlen; lia|]. now rewrite length_insert.
Qed.

Lemma collect_ok s L arr :
  ts_rep s L -> Z.of_nat (length arr) = ssmem_ts_list_len (glob s) ->
  ssmem_ts_set_collect (Some arr) s = Ok (stamp s L arr, s).
Proof.
  intros [Hr Hnd Hok Hid] Harr. unfold ssmem_ts_set_collect, walk_bound, cgets. unfold cbind, cret.
  apply ts_set_walk_ok with (len := ssmem_ts_list_len (glob s)); try done.
  apply Nat.le_le_succ_r. now apply lines_bound.
Qed.

Lemma length_stamp s L arr : length (stamp s L arr) = length arr.
Proof.
  unfold stamp. revert arr. induction L as [|p L IH]; intros arr; [done|]. simpl. now rewrite IH, length_insert.
Qed.

(** ** Comparing stamps *)

Lemma compare_ok s s_new s_old :
  let len := ssmem_ts_list_len (glob s) in
  len <= Z.of_nat (length s_new) -> len <= Z.of_nat (length s_old) ->
  ssmem_ts_compare s_new s_old s =
  Ok (default 1 (first_some (fun i => if nth (Z.to_nat i) s_new 0 <=? nth (Z.to_nat i) s_old 0 then Some 0 else None)
                            (seqZ 0 len)), s).
Proof.
  intros len H1 H2. unfold ssmem_ts_compare. unfold cgets at 1. unfold cbind at 1. fold len.
  erewrite cbind_Ok; [reflexivity|]. apply cfor_ret_pure. intros i Hi. rewrite elem_of_seqZ in Hi.
  rewrite (cbind_Ok _ _ _ _ _ (array_get_ok s_new i s ltac:(lia))).
  now rewrite (cbind_Ok _ _ _ _ _ (array_get_ok s_old i s ltac:(lia))).
Qed.

Lemma compare_newer s v1 v2 :
  ssmem_ts_list_len (glob s) <= Z.of_nat (length v1) -> ssmem_ts_list_len (glob s) <= Z.of_nat (length v2) ->
  exists r, ssmem_ts_compare v1 v2 s = Ok (r, s) /\
    ((r = 1 /\ newer (ssmem_ts_list_len (glob s)) v1 v2) \/ (r = 0 /\ ~ newer (ssmem_ts_list_len (glob s)) v1 v2)).
Proof.
  intros H1 H2. eexists. split; [now apply compare_ok|]. set (f := fun i => _). set (len := ssmem_ts_list_len _).
  assert (Hf : first_some f (seqZ 0 len) = None <-> newer len v1 v2).
  { rewrite first_some_None. unfold newer. split.
    - intros Hi i Hr. specialize (Hi i ltac:(apply elem_of_seqZ; lia)). unfold f in Hi.
      destruct (Z.leb_spec (nth (Z.to_nat i) v1 0) (nth (Z.to_nat i) v2 0)); [done|lia].
    - intros Hn i Hr. apply elem_of_seqZ in Hr. specialize (Hn i ltac:(lia)). unfold f.
      destruct (Z.leb_spec (nth (Z.to_nat i) v1 0) (nth (Z.to_nat i) v2 0)); [lia|done]. }
  destruct (first_some f (seqZ 0 len)) as [r|] eqn:E.
  - right. split; [|now rewrite <- Hf]. cbn. clear Hf. revert E. generalize (seqZ 0 len). clear.
    induction l as [|i l IH]; [done|]. simpl. unfold f at 1. destruct (_ <=? _); [now intros [= <-]|done].
  - left. split; [done|]. now apply Hf.
Qed.

(** A stamp is not newer than itself. *)
Lemma compare_same s arr :
  0 < ssmem_ts_list_len (glob s) <= Z.of_nat (length arr) -> ssmem_ts_compare arr arr s = Ok (0, s).
Proof.
  intros Hl. rewrite compare_ok by lia. rewrite seqZ_cons by lia. cbn [first_some].
  replace (_ <=? _) with true by lia. done.
Qed.

(** [ssmem_ts_compare] returns 1 exactly if the first stamp is strictly larger in
    the entry of every thread, else 0, and changes nothing. *)
Theorem ssmem_ts_compare_spec s s_new s_old :
  ssmem_ts_list_len (glob s) <= Z.of_nat (length s_new) -> ssmem_ts_list_len (glob s) <= Z.of_nat (length s_old) ->
  exists r, ssmem_ts_compare s_new s_old s = Ok (r, s) /\
    ((r = 1 /\ newer (ssmem_ts_list_len (glob s)) s_new s_old) \/ (r = 0 /\ ~ newer (ssmem_ts_list_len (glob s)) s_new s_old)).
Proof. apply compare_newer. Qed.

(** ** Releasing while no thread advances its counter *)

(** The allocator [a] of a program that only releases memory: one free set, never
    stamped, and released blocks that carry the present counters. *)
Record release_only (s : state) (a : Z) (L : list Z) (al : ssmem_allocator_t) : Prop := {
  ro_alloc : allocs (glob s) !! a = Some al;
  ro_threads : ts_rep s L;
  ro_some : L ≠ [];
  ro_sets : exists fs, a_free_set_list al = [fs];
  ro_num : a_released_num al = Z.of_nat (length (a_released_mem_list al));
  ro_stamps : Forall (fun r => rel_ts_set r =
     stamp s L (replicate (Z.to_nat (ssmem_ts_list_len (glob s))) 0)) (a_released_mem_list al);
}.

(** The same memory, another allocator record. *)
Definition put_alloc (a : Z) (r : ssmem_allocator_t) (s : state) : state :=
  let g := glob s in
  set_glob (mkGlobals (me g) (tlss g) (ssmem_ts_list g) (ssmem_ts_list_len g) (<[a := r]> (allocs g))) s.

Lemma ts_rep_pos s L : ts_rep s L -> L ≠ [] -> 0 < ssmem_ts_list_len (glob s).
Proof.
  intros R Hne. destruct L as [|p L]; [done|]. pose proof (ts_ids _ _ R) as Hi.
  apply list.Forall_cons in Hi as [Hi _]. lia.
Qed.

Lemma stamp_put_alloc a r s L arr : stamp (put_alloc a r s) L arr = stamp s L arr.
Proof. reflexivity. Qed.

Lemma ts_rep_put_alloc a r s L : ts_rep s L -> ts_rep (put_alloc a r s) L.
Proof. intros [R N O I]. split; try done. clear -R. revert R. cbn. generalize (ssmem_ts_list (glob s)).
  induction L as [|p L IH]; intros cur; [done|]. simpl. intros [-> R]. split; [done|]. now apply IH.
Qed.

Lemma reclaim_nothing s a L al : release_only s a L al -> ssmem_mem_reclaim a s = Ok (0, s).
Proof.
  intros [Ha R Hne [fs Hfs] Hnum Hst]. pose proof (ts_rep_pos _ _ R Hne) as Hpos.
  assert (H1 : reclaim_released a s = Ok (tt, s)).
  { unfold reclaim_released, get_alloc. unfold cbind at 1. rewrite Ha.
    destruct (0 <? a_released_num al) eqn:E; [|done].
    destruct (a_released_mem_list al) as [|r1 [|r2 rest]]; [simpl in Hnum; lia|done|].
    apply list.Forall_cons in Hst as [-> Hst]. apply list.Forall_cons in Hst as [-> _].
    set (st := stamp s L _).
    assert (Hst' : 0 < ssmem_ts_list_len (glob s) <= Z.of_nat (length st))
      by (subst st; rewrite length_stamp, length_replicate; lia).
    now rewrite (cbind_Ok _ _ _ _ _ (compare_same s st Hst')). }
  assert (H2 : reclaim_free_sets a s = Ok (0, s)).
  { unfold reclaim_free_sets, get_alloc. unfold cbind at 1. rewrite Ha, Hfs. now destruct (fs_ts_set fs). }
  unfold ssmem_mem_reclaim. now rewrite (cbind_Ok _ _ _ _ _ H1).
Qed.

(** The record [ssmem_release] leaves. *)
Definition released (s : state) (L : list Z) (obj : Z) (al : ssmem_allocator_t) : ssmem_allocator_t :=
  with_released (a_released_num al + 1)
    (mkReleased (stamp s L (replicate (Z.to_nat (ssmem_ts_list_len (glob s))) 0)) obj
       :: a_released_mem_list al) al.

(** Nothing released is ever given back. *)
Lemma release_keeps s a L al obj :
  release_only s a L al ->
  ssmem_release a obj s = Ok (tt, put_alloc a (released s L obj al) s) /\
  release_only (put_alloc a (released s L obj al) s) a L (released s L obj al).
Proof.
  intros [Ha R Hne [fs Hfs] Hnum Hst]. pose proof (ts_rep_pos _ _ R Hne) as Hpos.
  set (al' := released s L obj al). set (s' := put_alloc a al' s).
  assert (Hinv : release_only s' a L al').
  { split; [cbn; apply lookup_insert_eq|now apply ts_rep_put_alloc|done|now exists fs| |].
    - cbn. rewrite Hnum. lia.
    - cbn. constructor; [done|]. eapply list.Forall_impl; [exact Hst|]. done. }
  split; [|exact Hinv].
  unfold ssmem_release, get_alloc. unfold cbind at 1. rewrite Ha. unfold new_ts_set, cgets. unfold cbind at 1.
  rewrite (cbind_Ok _ _ _ _ _ (collect_ok s L (replicate (Z.to_nat (ssmem_ts_list_len (glob s))) 0) R ltac:(rewrite length_replicate; lia))).
  unfold set_alloc. unfold cbind at 1. fold (put_alloc a al' s). change (set_glob _ s) with s'.
  destruct (_ <=? _); [|done]. now rewrite (cbind_Ok _ _ _ _ _ (reclaim_nothing _ _ _ _ Hinv)).
Qed.

(** ** Setting up an allocator *)

(** Execute accesses to thread-local variables and allocator records. *)
Ltac run_step :=
  match goal with
  | |- context [cbind get_tls ?k ?x] => change (cbind get_tls k x) with (k (my_tls x) x)
  | |- context [cbind (set_tls ?t) ?k ?x] => change (cbind (set_tls t) k x) with (k tt (set_my_tls t x))
  | |- context [cbind (set_alloc ?a ?r) ?k ?x] => change (cbind (set_alloc a r) k x) with (k tt (put_alloc a r x))
  | |- context [cbind (cassert true) ?k ?x] => change (cbind (cassert true) k x) with (k tt x)
  | |- context [cbind (cret ?r) ?k ?x] => change (cbind (cret r) k x) with (k r x)
  end; cbv beta.

Lemma my_tls_set t s : my_tls (set_my_tls t s) = t.
Proof. unfold my_tls, set_my_tls. cbn. now rewrite lookup_insert_eq. Qed.

Lemma my_tls_put a r s : my_tls (put_alloc a r s) = my_tls s.
Proof. reflexivity. Qed.

Lemma get_alloc_put a r s : get_alloc a (put_alloc a r s) = Ok (r, put_alloc a r s).
Proof. unfold get_alloc, put_alloc. cbn. now rewrite lookup_insert_eq. Qed.

Section Init.
Context `{Malloc}.

Lemma memalign_ok s sz p :
  pick (owner s) sz = Some p -> memalign sz s = Ok (p, set_owner (claim_lines p sz (owner s)) s).
Proof. intros Hp. unfold memalign. now rewrite Hp. Qed.

Definition ts_evs (ts id hd : Z) : list ev :=
  [ESt (ts, S_id) id; ESt (ts, S_version) 0; ESt (ts, S_next) hd].

(** What a registration leaves: the stores, the new blocks, the allocator record [r]
    at [a], the list head and length, and the thread's variables. *)
Record registered (s s' : state) (evs : list ev) (o : gmap Z Z) (a : Z) (r : ssmem_allocator_t)
    (ts : Z) (t : tls_t) : Prop := {
  rg_cells : cells s' = cells (do_evs evs s);
  rg_trace : trace s' = rev evs ++ trace s;
  rg_owner : owner s' = o;
  rg_alloc : allocs (glob s') !! a = Some r;
  rg_list : ssmem_ts_list (glob s') = ts;
  rg_len : ssmem_ts_list_len (glob s') = u32 (ssmem_ts_list_len (glob s) + 1);
  rg_tls : my_tls s' = t;
}.

Lemma gc_thread_init_ok s a al id ts :
  allocs (glob s) !! a = Some al -> ssmem_ts_local (my_tls s) = NULL ->
  pick (owner s) sizeof_ssmem_ts_t = Some ts ->
  exists s', ssmem_gc_thread_init a id s = Ok (tt, s') /\
    registered s s' (ts_evs ts id (ssmem_ts_list (glob s))) (claim_lines ts sizeof_ssmem_ts_t (owner s))
               a (with_ts ts al) ts (set_ssmem_ts_local ts (my_tls s)).
Proof.
  intros Ha Hl Hp. apply pick_spec in Hp as Hs. destruct Hs as (Hpos & Hal & Hlt & _).
  assert (Hok : forall o, ok_line (claim_lines ts sizeof_ssmem_ts_t o) ts).
  { intros o. split; [done|]. split; [unfold sizeof_ssmem_ts_t in *; lia|].
    apply live_spec, live_claimed; [done|]. unfold sizeof_ssmem_ts_t. lia. }
  unfold ssmem_gc_thread_init. run_step. unfold get_alloc. unfold cbind at 1. rewrite Ha, Hl. cbn [negb Z.eqb NULL].
  rewrite (cbind_Ok _ _ _ _ _ (memalign_ok s _ _ Hp)).
  replace (negb (ts =? NULL)) with true by (unfold NULL; lia). run_step. run_step. run_step.
  match goal with |- context [cbind (store ?c ?v) _ ?x] =>
    rewrite (cbind_Ok _ _ _ _ _ (store_ok x c v (ok_line_live _ ts S_id (Hok _) ltac:(simpl; lia)))) end.
  match goal with |- context [cbind (store ?c ?v) _ ?x] =>
    rewrite (cbind_Ok _ _ _ _ _ (store_ok x c v (ok_line_live _ ts S_version (Hok _) ltac:(simpl; lia)))) end.
  unfold cgets. unfold cbind at 1.
  match goal with |- context [cbind (store ?c ?v) _ ?x] =>
    rewrite (cbind_Ok _ _ _ _ _ (store_ok x c v (ok_line_live _ ts S_next (Hok _) ltac:(simpl; lia)))) end.
  eexists. split; [reflexivity|]. split; try done.
  - cbn. apply lookup_insert_eq.
  - unfold my_tls. cbn. now rewrite lookup_insert_eq.
Qed.

(** The record [ssmem_alloc_init_fs_size] builds. *)
Definition first_allocator (mem size fs_size ts : Z) : ssmem_allocator_t :=
  mkAllocator mem 0 size size fs_size [mem] ts [ssmem_free_set_new fs_size] 1 [] 0 [] 0 [].

Lemma alloc_init_ok s a size fs_size id mem ts :
  ssmem_ts_local (my_tls s) = NULL -> pick (owner s) size = Some mem ->
  pick (claim_lines mem size (owner s)) sizeof_ssmem_ts_t = Some ts ->
  exists s', ssmem_alloc_init_fs_size a size fs_size id s = Ok (tt, s') /\
    registered s s' (ts_evs ts id (ssmem_ts_list (glob s)))
      (claim_lines ts sizeof_ssmem_ts_t (claim_lines mem size (owner s)))
      a (first_allocator mem size fs_size ts) ts
      (set_ssmem_ts_local ts (set_ssmem_allocators (ssmem_num_allocators (my_tls s) + 1)
         (a :: ssmem_allocator_list (my_tls s)) (my_tls s))).
Proof.
  intros Hl Hp1 Hp2. apply pick_spec in Hp1 as Hs. destruct Hs as (Hpos & _).
  unfold ssmem_alloc_init_fs_size. run_step. run_step. set (t1 := set_ssmem_allocators _ _ _).
  set (s1 := set_my_tls t1 s).
  rewrite (cbind_Ok _ _ _ _ _ (memalign_ok s1 _ _ Hp1)).
  replace (negb (mem =? NULL)) with true by (unfold NULL; lia). run_step. run_step.
  set (al0 := mkAllocator _ _ _ _ _ _ _ _ _ _ _ _ _ _). set (s2 := put_alloc a al0 _).
  assert (Ht2 : my_tls s2 = t1) by apply my_tls_set.
  destruct (gc_thread_init_ok s2 a al0 id ts) as (s3 & Hrun & [Rc Rt Ro Ra Rl Rn Rtl]).
  - cbn. apply lookup_insert_eq.
  - now rewrite Ht2.
  - exact Hp2.
  - rewrite (cbind_Ok _ _ _ _ _ Hrun). unfold get_alloc. unfold cbind at 1. rewrite Ra.
    eexists. split; [reflexivity|]. split.
    + exact Rc.
    + exact Rt.
    + exact Ro.
    + cbn. apply lookup_insert_eq.
    + exact Rl.
    + exact Rn.
    + unfold my_tls in *. cbn. rewrite Rtl. unfold s2. cbn. now rewrite lookup_insert_eq.
Qed.

(** Registering a thread extends the thread list. *)
Lemma ts_rep_register s s' evs o a r ts t L id :
  ts_rep s L -> registered s s' (ts_evs ts id (ssmem_ts_list (glob s)) ++ evs) o a r ts t ->
  Forall (fun c : cell => c.2 ≠ S_id /\ c.2 ≠ S_version /\ c.2 ≠ S_next) (evs ≫= ev_writes) ->
  owner_grows s s' -> ok_line o ts -> owner s !! line ts = None ->
  id = ssmem_ts_list_len (glob s) -> 0 <= id < 2 ^ 32 - 1 -> ts_rep s' (ts :: L).
Proof.
  intros [Tr Tn To Ti] [Rc _ Ro _ Rl Rn _] F Hg Hts Hfr Hid Hb. rewrite list.Forall_forall in F. rewrite list.Forall_forall in To. rewrite list.Forall_forall in Ti.
  assert (Hrd : forall p f, f = S_id \/ f = S_version \/ f = S_next ->
            rd s' (p, f) = if decide (p = ts) then rd (do_evs (ts_evs ts id (ssmem_ts_list (glob s))) s) (p, f) else rd s (p, f)).
  { intros p f Hf. unfold rd at 1. rewrite Rc, do_evs_app. fold (rd (do_evs evs (do_evs (ts_evs ts id (ssmem_ts_list (glob s))) s)) (p, f)).
    rewrite rd_do_evs_frame by (intros Hc; apply F in Hc as (? & ? & ?); naive_solver).
    case_decide as Hp; [done|]. apply rd_do_evs_frame. cbn. set_solver. }
  assert (Hne : forall p, p ∈ L -> p ≠ ts).
  { intros p Hp ->. destruct (To ts Hp) as (_ & _ & [x Hx]). congruence. }
  split.
  - rewrite Rl. split; [done|]. fold (ts_chain s'). rewrite Hrd by auto. rewrite decide_True by done.
    replace (rd (do_evs _ s) (ts, S_next)) with (ssmem_ts_list (glob s)).
    2:{ cbn. unfold rd. cbn. now rewrite lookup_insert_eq. }
    clear -Tr Hrd Hne. revert Tr Hne. generalize (ssmem_ts_list (glob s)) at 1 2.
    induction L as [|p L IH]; intros cur Tr Hne; [done|]. destruct Tr as [-> Tr]. split; [done|].
    fold (ts_chain s'). rewrite Hrd by auto. rewrite decide_False by (apply Hne; left). apply IH; [done|].
    intros q Hq. apply Hne. now right.
  - constructor; [|done]. intros Hin. now apply (Hne ts).
  - rewrite Ro in *. apply list.Forall_forall. intros p Hp. apply elem_of_cons in Hp as [->|Hp]; [done|].
    destruct (To p Hp) as (? & ? & Hl). split; [done|]. split; [done|]. rewrite <- Ro. now apply Hg.
  - rewrite Rn, u32_small by lia. apply list.Forall_forall. intros p Hp. apply elem_of_cons in Hp as [->|Hp].
    + rewrite Hrd by auto. rewrite decide_True by done. cbn. unfold rd. cbn.
      rewrite !lookup_insert_ne by congruence. rewrite lookup_insert_eq. cbn. lia.
    + rewrite Hrd by auto. rewrite decide_False by auto. specialize (Ti p Hp). cbn in Ti. lia.
Qed.

End Init.
