(* ===== verification/SsmemSpec.v ===== *)
(** * ssmem: epochs, reuse and allocation

    [ssmem_free] does not make an object available again at once. It stamps every
    full set of freed objects with the counters of all registered threads, and recycles
    a set only when a later stamp exceeds its stamp in every entry: every thread has
    then called [ssmem_free] since, and, by the rule of the library, holds no
    reference from before. This file proves that contract for [ssmem_free] and
    [ssmem_alloc]: objects are neither lost nor duplicated between the free and the
    collected sets, and an object that is handed out again was freed before the
    present epoch of every thread. It also gives the bounds of fresh allocations. *)

From Stdlib Require Import Sorting.Sorted.
From S2P Require Import Prelude Memory Ssmem SsmemProps.

(** ** Definitions *)

(** A thread's counter, and the entry of a stamp that belongs to a thread. *)
Definition ver (s : state) (p : Z) : Z := rd s (p, S_version).
Definition entry (s : state) (v : list Z) (p : Z) : Z := nth (Z.to_nat (rd s (p, S_id))) v 0.

(** The objects a set holds, the objects waiting and the objects ready for reuse. *)
Definition set_objs (fs : ssmem_free_set_t) : list Z := take (Z.to_nat (fs_curr fs)) (fs_set fs).
Definition pending (al : ssmem_allocator_t) : list Z := concat (set_objs <$> a_free_set_list al).
Definition reusable (al : ssmem_allocator_t) : list Z := concat (set_objs <$> a_collected_set_list al).

Definition fs_wf (s : state) (L : list Z) (fs : ssmem_free_set_t) : Prop :=
  0 <= fs_curr fs <= fs_size fs /\ Z.of_nat (length (fs_set fs)) = fs_size fs /\ 0 < fs_size fs /\
  forall v, fs_ts_set fs = Some v ->
    Z.of_nat (length v) = ssmem_ts_list_len (glob s) /\ forall p, p ∈ L -> entry s v p <= ver s p.

(** When objects were freed: for every object the counters of all threads at that time. *)
#[local] Abbreviation log := (gmap Z (Z -> Z)).
Definition freed_le (G : log) (L : list Z) (f : Z -> Z) (o : Z) : Prop :=
  exists g, G !! o = Some g /\ forall p, p ∈ L -> g p <= f p.
Definition freed_lt (G : log) (L : list Z) (f : Z -> Z) (o : Z) : Prop :=
  exists g, G !! o = Some g /\ forall p, p ∈ L -> g p < f p.

(** The set being filled; a full, stamped one; one whose objects may be reused. *)
Definition head_set (s : state) (L : list Z) (G : log) (fs : ssmem_free_set_t) : Prop :=
  fs_wf s L fs /\ forall o, o ∈ set_objs fs -> freed_le G L (ver s) o.
Definition old_set (s : state) (L : list Z) (G : log) (fs : ssmem_free_set_t) : Prop :=
  fs_wf s L fs /\ 0 < fs_curr fs /\
  exists v, fs_ts_set fs = Some v /\ forall o, o ∈ set_objs fs -> freed_le G L (entry s v) o.
Definition ready_set (s : state) (L : list Z) (G : log) (fs : ssmem_free_set_t) : Prop :=
  fs_wf s L fs /\ 0 < fs_curr fs /\ forall o, o ∈ set_objs fs -> freed_lt G L (ver s) o.

(** The first set was stamped no earlier than the second. *)
Definition later (s : state) (L : list Z) (fs1 fs2 : ssmem_free_set_t) : Prop :=
  forall v1 v2, fs_ts_set fs1 = Some v1 -> fs_ts_set fs2 = Some v2 ->
    forall p, p ∈ L -> entry s v2 p <= entry s v1 p.

(** The memory the allocator carves objects from. *)
Definition same_chunk (al al' : ssmem_allocator_t) : Prop :=
  a_mem al' = a_mem al /\ a_mem_curr al' = a_mem_curr al /\ a_mem_size al' = a_mem_size al.

(** The allocator [a] of the running thread; [L] are the counters of all threads. *)
Record epoch_inv (s : state) (a : Z) (L : list Z) (al : ssmem_allocator_t) (G : log) : Prop := {
  ei_alloc : allocs (glob s) !! a = Some al;
  ei_threads : ts_rep s L;
  ei_ids : NoDup ((fun p => rd s (p, S_id)) <$> L);
  ei_self : ssmem_ts_local (my_tls s) ∈ L;
  ei_size : 0 < a_fs_size al;
  ei_free : exists hd rest, a_free_set_list al = hd :: rest /\ head_set s L G hd /\
    Forall (old_set s L G) rest /\ StronglySorted (later s L) rest;
  ei_num : a_free_set_num al = Z.of_nat (length (a_free_set_list al));
  ei_collected : Forall (ready_set s L G) (a_collected_set_list al);
  ei_cnum : a_collected_set_num al = Z.of_nat (length (a_collected_set_list al));
  ei_avail : Forall (fs_wf s L) (a_available_set_list al);
  ei_rel : a_released_num al = 0;
}.

(** ** Stamps *)

Lemma stamp_other s L arr j :
  (forall p, p ∈ L -> Z.to_nat (rd s (p, S_id)) ≠ j) -> nth j (stamp s L arr) 0 = nth j arr 0.
Proof.
  unfold stamp. revert arr. induction L as [|p L IH]; intros arr Hj; [done|]. simpl.
  rewrite IH by (intros q Hq; apply Hj; now right). rewrite !nth_lookup, list_lookup_insert_ne; [done|].
  apply Hj. left.
Qed.

(** The stamp holds every thread's counter at the thread's id. *)
Lemma stamp_entry s L arr p :
  ts_rep s L -> NoDup ((fun p => rd s (p, S_id)) <$> L) ->
  Z.of_nat (length arr) = ssmem_ts_list_len (glob s) -> p ∈ L -> entry s (stamp s L arr) p = ver s p.
Proof.
  intros R Hnd Harr Hp. pose proof (ts_ids _ _ R) as Hid. clear R. unfold entry, ver. revert arr Harr Hnd Hid Hp.
  induction L as [|q L IH]; intros arr Harr Hnd Hid Hp; [now apply not_elem_of_nil in Hp|].
  cbn [fmap list_fmap] in Hnd. apply list.NoDup_cons in Hnd as [Hq Hnd]. apply list.Forall_cons in Hid as [Hi Hid].
  destruct (decide (p ∈ L)) as [Hin|Hin].
  - cbn [stamp foldl]. fold (stamp s L (<[Z.to_nat (rd s (q, S_id)) := rd s (q, S_version)]> arr)).
    apply IH; try done. now rewrite length_insert.
  - apply elem_of_cons in Hp as [->|Hp]; [|done]. cbn [stamp foldl].
    fold (stamp s L (<[Z.to_nat (rd s (q, S_id)) := rd s (q, S_version)]> arr)). rewrite stamp_other.
    + rewrite nth_lookup, list_lookup_insert_eq; [done|]. lia.
    + intros r Hr E. apply Hq. apply list_elem_of_fmap. exists r. split; [|done].
      rewrite list.Forall_forall in Hid. specialize (Hid r Hr). cbn in Hid. lia.
Qed.

Lemma collect_any s L ts :
  ts_rep s L -> L ≠ [] -> (forall v, ts = Some v -> Z.of_nat (length v) = ssmem_ts_list_len (glob s)) ->
  exists arr, Z.of_nat (length arr) = ssmem_ts_list_len (glob s) /\
    ssmem_ts_set_collect ts s = Ok (stamp s L arr, s).
Proof.
  intros R Hne Hv. pose proof (ts_rep_pos _ _ R Hne) as Hpos. destruct ts as [v|].
  - exists v. split; [auto|]. apply collect_ok; auto.
  - exists (replicate (Z.to_nat (ssmem_ts_list_len (glob s))) 0). rewrite length_replicate. split; [lia|].
    apply (collect_ok s L); [done|]. rewrite length_replicate. lia.
Qed.

Lemma newer_entry s L v1 v2 p :
  ts_rep s L -> newer (ssmem_ts_list_len (glob s)) v1 v2 -> p ∈ L -> entry s v2 p < entry s v1 p.
Proof.
  intros R Hn Hp. pose proof (ts_ids _ _ R) as Hid. rewrite list.Forall_forall in Hid. apply Hn. now apply Hid.
Qed.

(** ** The invariant is stable while counters grow *)

(** [s'] differs from [s] only by larger counters (of this or of other threads). *)
Definition advance (s s' : state) (L : list Z) : Prop :=
  glob s' = glob s /\ owner s' = owner s /\
  (forall p, rd s' (p, S_id) = rd s (p, S_id) /\ rd s' (p, S_next) = rd s (p, S_next)) /\
  forall p, p ∈ L -> ver s p <= ver s' p.

Section Advance.
Context (s s' : state) (L : list Z).
Hypothesis A : advance s s' L.

Lemma advance_entry v p : entry s' v p = entry s v p.
Proof. unfold entry. destruct A as (_ & _ & Hr & _). now destruct (Hr p) as [-> _]. Qed.

Lemma advance_wf fs : fs_wf s L fs -> fs_wf s' L fs.
Proof.
  intros (H1 & H2 & H3 & H4). do 3 (split; [done|]). intros v Hv. destruct (H4 v Hv) as [Hl Hp].
  destruct A as (-> & _ & _ & Hv'). split; [done|]. intros p Hin. rewrite advance_entry.
  etransitivity; [now apply Hp|auto].
Qed.

Lemma advance_threads : ts_rep s L -> ts_rep s' L.
Proof.
  destruct A as (Eg & Eo & Er & _). intros [R N O I]. split; [| done | now rewrite Eo |].
  - rewrite Eg. clear -R Er. revert R. generalize (ssmem_ts_list (glob s)).
    induction L as [|p l IH]; intros cur; [done|]. simpl. intros [-> R]. split; [done|]. rewrite (proj2 (Er p)). auto.
  - rewrite Eg. eapply list.Forall_impl; [exact I|]. intros p. cbn. now rewrite (proj1 (Er p)).
Qed.

Lemma advance_inv a al G : epoch_inv s a L al G -> epoch_inv s' a L al G.
Proof.
  intros [H1 H2 H3 H4 H5 (hd & rest & Hl & [Hw Ho] & Hr & Hs) H7 H8 H9 H10 H11].
  pose proof A as (Eg & Eo & Er & Ev).
  assert (Hle : forall (G : log) o, freed_le G L (ver s) o -> freed_le G L (ver s') o).
  { intros G' o (g & Hg & Hp). exists g. split; [done|]. intros p Hin. etransitivity; [now apply Hp|auto]. }
  split; try done.
  - now rewrite Eg.
  - now apply advance_threads.
  - erewrite list_fmap_ext; [exact H3|]. intros i p _. apply Er.
  - unfold my_tls. rewrite Eg. exact H4.
  - exists hd, rest. split; [done|]. split; [|split].
    + split; [now apply advance_wf|auto].
    + eapply list.Forall_impl; [exact Hr|]. intros fs (Hf & Hc & v & Hv & Hob). split; [now apply advance_wf|].
      split; [done|]. exists v. split; [done|]. intros o Hin. destruct (Hob o Hin) as (g & Hg & Hp). exists g.
      split; [done|]. intros p Hp'. rewrite advance_entry. auto.
    + clear -Hs A. induction Hs as [|x l Hs IH Hf]; constructor; [done|]. eapply list.Forall_impl; [exact Hf|].
      intros y Hy v1 v2 E1 E2 p Hp. rewrite !advance_entry. eapply Hy; eauto.
  - eapply list.Forall_impl; [exact H8|]. intros fs (Hf & Hc & Hob). split; [now apply advance_wf|].
    split; [done|]. intros o Hin. destruct (Hob o Hin) as (g & Hg & Hp). exists g. split; [done|].
    intros p Hp'. eapply Z.lt_le_trans; [now apply Hp|auto].
  - eapply list.Forall_impl; [exact H10|]. intros fs. apply advance_wf.
Qed.

End Advance.

(** Any thread may advance its counter, at any time. *)
Lemma version_advance s L p v : ver s p <= v -> advance s (do_ev (ESt (p, S_version) v) s) L.
Proof.
  intros Hv. split; [done|]. split; [done|]. split.
  - intros q. rewrite !rd_ESt_ne by congruence. done.
  - intros q _. unfold ver in *. rewrite rd_ESt. case_decide as E; [|done]. injection E as <-. done.
Qed.

Lemma ts_next_ok s L : ts_rep s L -> ssmem_ts_local (my_tls s) ∈ L ->
  let p := ssmem_ts_local (my_tls s) in 0 <= ver s p < 2 ^ 64 - 1 ->
  ssmem_ts_next s = Ok (tt, do_ev (ESt (p, S_version) (ver s p + 1)) s).
Proof.
  intros R Hp p Hv. pose proof (ts_ok _ _ R) as Hok. rewrite list.Forall_forall in Hok. specialize (Hok p Hp).
  unfold ssmem_ts_next. run_step. fold p.
  rewrite (cbind_Ok _ _ _ _ _ (load_ok s (p, S_version) (ok_line_live _ p S_version Hok ltac:(simpl; lia)))).
  change (rd s (p, S_version)) with (ver s p). rewrite u64_small by lia.
  exact (store_ok s (p, S_version) _ (ok_line_live _ p S_version Hok ltac:(simpl; lia))).
Qed.

(** ** Reclaiming free sets *)

Lemma put_alloc_id s a al : allocs (glob s) !! a = Some al -> put_alloc a al s = s.
Proof.
  intros Ha. unfold put_alloc, set_glob. destruct s as [c o t g]. cbn in *. rewrite insert_id by done. now destruct g.
Qed.

Lemma put_alloc_twice s a x y : put_alloc a y (put_alloc a x s) = put_alloc a y s.
Proof. unfold put_alloc, set_glob. cbn. now rewrite insert_insert_eq. Qed.

Lemma set_alloc_eq a r s : set_alloc a r s = Ok (tt, put_alloc a r s).
Proof. reflexivity. Qed.

(** The invariant of another record over the same memory. *)
Lemma epoch_put s a L al al' G hd rest :
  epoch_inv s a L al G -> a_fs_size al' = a_fs_size al -> a_released_num al' = 0 ->
  a_free_set_list al' = hd :: rest -> head_set s L G hd -> Forall (old_set s L G) rest ->
  StronglySorted (later s L) rest -> a_free_set_num al' = Z.of_nat (length (hd :: rest)) ->
  Forall (ready_set s L G) (a_collected_set_list al') ->
  a_collected_set_num al' = Z.of_nat (length (a_collected_set_list al')) ->
  Forall (fs_wf s L) (a_available_set_list al') -> epoch_inv (put_alloc a al' s) a L al' G.
Proof.
  intros [H1 H2 H3 H4 H5 _ _ _ _ _ _] Hs Hr Hl Hh Ho Hst Hn Hc Hcn Ha. split; try done.
  - cbn. apply lookup_insert_eq.
  - now apply ts_rep_put_alloc.
  - now rewrite Hs.
  - exists hd, rest. auto.
  - now rewrite Hl.
Qed.

(** What reclamation leaves: nothing changed, or every set but the newest collected. *)
Definition reclaimed (al : ssmem_allocator_t) (hd : ssmem_free_set_t) (rest : list ssmem_free_set_t) : ssmem_allocator_t :=
  with_collected (a_collected_set_list al ++ rest) (a_collected_set_num al + (a_free_set_num al - 1))
                 (with_free [hd] 1 al).

Lemma ready_of_old s L G hd v r0 rs fs :
  ts_rep s L -> fs_wf s L hd -> fs_ts_set hd = Some v -> Forall (old_set s L G) (r0 :: rs) ->
  StronglySorted (later s L) (r0 :: rs) ->
  (forall v0, fs_ts_set r0 = Some v0 -> newer (ssmem_ts_list_len (glob s)) v v0) ->
  fs ∈ r0 :: rs -> ready_set s L G fs.
Proof.
  intros R (_ & _ & _ & Hv) Ev Ho Hs Hn Hin. apply StronglySorted_inv in Hs as [_ Hs].
  rewrite list.Forall_forall in Ho. destruct (Ho fs Hin) as (Hw & Hc & u & Eu & Hob).
  destruct (Ho r0 ltac:(left)) as (_ & _ & v0 & E0 & _). split; [done|]. split; [done|].
  intros o Hin'. destruct (Hob o Hin') as (g & Hg & Hp). exists g. split; [done|]. intros p Hpl.
  assert (Hle : entry s u p <= entry s v0 p).
  { apply elem_of_cons in Hin as [->|Hin]; [rewrite E0 in Eu; injection Eu as ->; done|].
    rewrite list.Forall_forall in Hs. exact (Hs fs Hin v0 u E0 Eu p Hpl). }
  pose proof (newer_entry s L v v0 p R (Hn v0 E0) Hpl). specialize (Hp p Hpl). specialize (proj2 (Hv v Ev) p Hpl). lia.
Qed.

Lemma reclaim_sets_ok s a L al G hd rest :
  epoch_inv s a L al G -> a_free_set_list al = hd :: rest ->
  (ssmem_mem_reclaim a s = Ok (0, s)) \/
  (ssmem_mem_reclaim a s = Ok (a_free_set_num al - 1, put_alloc a (reclaimed al hd rest) s) /\
   epoch_inv (put_alloc a (reclaimed al hd rest) s) a L (reclaimed al hd rest) G).
Proof.
  intros I Hl. pose proof I as [H1 H2 H3 H4 H5 (hd' & rest' & Hl' & [Hw Hho] & Hr & Hs) H7 H8 H9 H10 H11].
  rewrite Hl in Hl'. injection Hl' as <- <-.
  assert (Hrel : reclaim_released a s = Ok (tt, s)).
  { unfold reclaim_released, get_alloc. unfold cbind at 1. now rewrite H1, H11. }
  remember (ssmem_mem_reclaim a s) as r eqn:Er. unfold ssmem_mem_reclaim in Er. rewrite (cbind_Ok _ _ _ _ _ Hrel) in Er.
  unfold reclaim_free_sets, get_alloc in Er. unfold cbind at 1 in Er. rewrite H1, Hl in Er.
  destruct (fs_ts_set hd) as [v|] eqn:Ev; [|now left]. destruct rest as [|r0 rs]; [now left|].
  pose proof Hr as Hr'. apply list.Forall_cons in Hr' as [(Hw0 & _ & v0 & E0 & _) _]. rewrite E0 in Er.
  pose proof (proj1 (proj2 (proj2 (proj2 Hw)) v Ev)) as L1. pose proof (proj1 (proj2 (proj2 (proj2 Hw0)) v0 E0)) as L0.
  destruct (compare_newer s v v0 ltac:(lia) ltac:(lia)) as (c & Hc & [[-> Hn]|[-> _]]); rewrite (cbind_Ok _ _ _ _ _ Hc) in Er;
    [right|now left]. split; [exact Er|].
  apply (epoch_put s a L al _ G hd []); try done.
  - constructor.
  - cbn. apply Forall_app. split; [done|]. apply list.Forall_forall. intros fs Hin.
    apply (ready_of_old s L G hd v r0 rs fs); try done. intros w Ew. rewrite E0 in Ew. injection Ew as <-. done.
  - cbn. rewrite H9, H7, Hl, length_app. cbn. lia.
Qed.

(** Objects move from waiting to reusable, none is lost. *)
Lemma reclaimed_objs al hd rest :
  a_free_set_list al = hd :: rest ->
  pending (reclaimed al hd rest) ++ reusable (reclaimed al hd rest) ≡ₚ pending al ++ reusable al.
Proof.
  intros Hl. unfold pending, reusable, reclaimed. rewrite Hl. cbn. rewrite fmap_app, concat_app. solve_Permutation.
Qed.

(** ** Freeing *)

Definition stamped (hd : ssmem_free_set_t) (v : list Z) : ssmem_free_set_t :=
  mkFreeSet (Some v) (fs_size hd) (fs_curr hd) (fs_set hd).

Definition room_head (al : ssmem_allocator_t) : Prop :=
  exists hd rest, a_free_set_list al = hd :: rest /\ fs_curr hd < fs_size hd.

(** The push of a fresh or recycled empty set. *)
Lemma fresh_head s a L al G v hd rest :
  epoch_inv s a L al G -> a_free_set_list al = stamped hd v :: rest -> fs_curr hd = fs_size hd ->
  (forall p, p ∈ L -> entry s v p = ver s p) ->
  let '(fs_new, al1) := ssmem_free_set_get_avail al (a_fs_size al) in
  let al' := with_free (fs_new :: a_free_set_list al1) (a_free_set_num al1 + 1) al1 in
  epoch_inv (put_alloc a al' s) a L al' G /\ room_head al' /\
  pending al' = pending al /\ reusable al' = reusable al /\ same_chunk al al'.
Proof.
  intros I Hl Hf Hv. pose proof I as [H1 H2 H3 H4 H5 (hd' & rest' & Hl' & [Hw Hho] & Hr & Hs) H7 H8 H9 H10 H11].
  rewrite Hl in Hl'. injection Hl' as <- <-.
  assert (Hold : Forall (old_set s L G) (stamped hd v :: rest)).
  { constructor; [|done]. split; [done|]. destruct Hw as (? & ? & ? & _). cbn in *. split; [lia|].
    exists v. split; [done|]. intros o Ho. destruct (Hho o Ho) as (g & Hg & Hp). exists g. split; [done|].
    intros p Hin. rewrite Hv by done. auto. }
  assert (Hsrt : StronglySorted (later s L) (stamped hd v :: rest)).
  { constructor; [done|]. eapply list.Forall_impl; [exact Hr|]. intros fs (Hwf & _) v1 v2 E1 E2 p Hp.
    injection E1 as <-. rewrite Hv by done. apply (proj2 (proj2 (proj2 (proj2 Hwf)) v2 E2)), Hp. }
  unfold ssmem_free_set_get_avail. destruct (a_available_set_list al) as [|fs av] eqn:Eav.
  - cbn. rewrite Hl. split; [|split; [|split]]; try (repeat split; done).
    + apply (epoch_put s a L al _ G (ssmem_free_set_new (a_fs_size al)) (stamped hd v :: rest)); try done.
      * split; [|intros o Ho; now apply not_elem_of_nil in Ho]. unfold fs_wf, ssmem_free_set_new. cbn [fs_curr fs_set fs_size fs_ts_set]. rewrite length_replicate.
        split; [lia|]. split; [lia|]. split; [lia|done].
      * cbn. rewrite H7, Hl. cbn. lia.
      * cbn. rewrite Eav. constructor.
    + eexists _, _. split; [done|]. cbn. lia.
    + unfold pending. cbn. now rewrite Hl.
  - apply list.Forall_cons in H10 as [Hfs H10].
    set (fs0 := mkFreeSet (fs_ts_set fs) (fs_size fs) 0 (fs_set fs)).
    cbn [a_free_set_list with_available with_free a_free_set_num]. rewrite Hl.
    destruct Hfs as (F1 & F2 & F3 & F4). split; [|split; [|split]]; try (repeat split; done).
    + apply (epoch_put s a L al _ G fs0 (stamped hd v :: rest)); try done.
      * split; [|intros o Ho; now apply not_elem_of_nil in Ho]. unfold fs_wf, fs0. cbn [fs_curr fs_set fs_size fs_ts_set]. split; [lia|]. auto.
      * cbn. rewrite H7, Hl. cbn. lia.
    + eexists _, _. split; [done|]. unfold fs0; cbn [fs_curr fs_size]; lia.
    + unfold pending. cbn. now rewrite Hl.
Qed.

Lemma epoch_ne s a L al G : epoch_inv s a L al G -> L ≠ [].
Proof. intros I ->. now apply (not_elem_of_nil _ (ei_self _ _ _ _ _ I)). Qed.

Lemma rotate_ok s a L al G :
  epoch_inv s a L al G ->
  exists al', rotate_free_set a s = Ok (tt, put_alloc a al' s) /\ epoch_inv (put_alloc a al' s) a L al' G /\
    room_head al' /\ pending al' ++ reusable al' ≡ₚ pending al ++ reusable al /\ reusable al ⊆ reusable al' /\
    same_chunk al al'.
Proof.
  intros I. pose proof I as [H1 H2 H3 H4 H5 (hd & rest & Hl & [Hw Hho] & Hr & Hs) H7 H8 H9 H10 H11].
  unfold rotate_free_set, get_alloc. unfold cbind at 1. rewrite H1, Hl.
  destruct (Z.eqb_spec (fs_curr hd) (fs_size hd)) as [Hf|Hf].
  2:{ exists al. rewrite put_alloc_id by done. split; [done|]. split; [done|]. split; [|done].
      exists hd, rest. split; [done|]. destruct Hw. lia. }
  destruct (collect_any s L (fs_ts_set hd) H2 (epoch_ne _ _ _ _ _ I)) as (arr & Harr & Hcol).
  { intros v Hv. apply (proj2 (proj2 (proj2 Hw)) v Hv). }
  rewrite (cbind_Ok _ _ _ _ _ Hcol). run_step. fold (stamped hd (stamp s L arr)).
  set (al1 := with_free _ _ al). set (s1 := put_alloc a al1 s).
  assert (Hent : forall p, p ∈ L -> entry s (stamp s L arr) p = ver s p) by (intros; now apply stamp_entry).
  assert (I1 : epoch_inv s1 a L al1 G).
  { apply (epoch_put s a L al _ G (stamped hd (stamp s L arr)) rest); try done.
    - split; [|done]. destruct Hw as (? & ? & ? & _). do 3 (split; [done|]). intros v [= <-].
      rewrite length_stamp. split; [done|]. intros p Hp. rewrite Hent by done. done.
    - cbn. now rewrite H7, Hl. }
  assert (Hobj : pending al1 = pending al) by (unfold pending; cbn; now rewrite Hl).
  destruct (reclaim_sets_ok s1 a L al1 G (stamped hd (stamp s L arr)) rest I1 eq_refl) as [Hrun|[Hrun I2]];
    rewrite (cbind_Ok _ _ _ _ _ Hrun).
  - unfold get_alloc. unfold cbind at 1. rewrite (ei_alloc _ _ _ _ _ I1).
    pose proof (fresh_head s1 a L al1 G _ hd rest I1 eq_refl Hf Hent) as F.
    destruct (ssmem_free_set_get_avail al1 (a_fs_size al1)) as [fs_new al2]. destruct F as (I3 & Hroom & Hp & Hr3 & Hch).
    set (al' := with_free (fs_new :: _) _ _) in *. exists al'. unfold s1 in *. rewrite put_alloc_twice in *.
    split; [now rewrite set_alloc_eq, put_alloc_twice|].
    do 2 (split; [done|]). rewrite Hp, Hr3, Hobj. do 2 (split; [done|]). exact Hch.
  - unfold s1 in *. rewrite put_alloc_twice in *. set (al2 := reclaimed al1 _ rest) in *. set (s2 := put_alloc a al2 s) in *.
    unfold get_alloc. unfold cbind at 1. rewrite (ei_alloc _ _ _ _ _ I2).
    pose proof (fresh_head s2 a L al2 G _ hd [] I2 eq_refl Hf Hent) as F.
    destruct (ssmem_free_set_get_avail al2 (a_fs_size al2)) as [fs_new al3]. destruct F as (I3 & Hroom & Hp & Hr3 & Hch).
    set (al' := with_free (fs_new :: _) _ _) in *. exists al'. unfold s2 in *. rewrite put_alloc_twice in *.
    split; [now rewrite set_alloc_eq, put_alloc_twice|].
    do 2 (split; [done|]). rewrite Hp, Hr3. split.
    + unfold al2. rewrite (reclaimed_objs al1 _ rest eq_refl), Hobj. done.
    + split; [|exact Hch]. unfold reusable, al2. cbn. rewrite fmap_app, concat_app. set_solver.
Qed.

(** A new object does not disturb what is known of the others. *)
Lemma freed_le_insert G L f o obj g : o ≠ obj -> freed_le G L f o -> freed_le (<[obj := g]> G) L f o.
Proof. intros Hne (g' & Hg & Hp). exists g'. now rewrite lookup_insert_ne. Qed.

Lemma freed_lt_insert G L f o obj g : o ≠ obj -> freed_lt G L f o -> freed_lt (<[obj := g]> G) L f o.
Proof. intros Hne (g' & Hg & Hp). exists g'. now rewrite lookup_insert_ne. Qed.

Lemma elem_of_objs o fs (l : list ssmem_free_set_t) : fs ∈ l -> o ∈ set_objs fs -> o ∈ concat (set_objs <$> l).
Proof. intros Hfs Ho. apply elem_of_concat. exists (set_objs fs). split; [done|]. now apply list_elem_of_fmap_2. Qed.

Lemma push_objs fs obj : 0 <= fs_curr fs < fs_size fs -> Z.of_nat (length (fs_set fs)) = fs_size fs ->
  set_objs (mkFreeSet (fs_ts_set fs) (fs_size fs) (fs_curr fs + 1) (<[Z.to_nat (fs_curr fs) := obj]> (fs_set fs)))
  = set_objs fs ++ [obj].
Proof.
  intros H1 H2. unfold set_objs. cbn. replace (Z.to_nat (fs_curr fs + 1)) with (S (Z.to_nat (fs_curr fs))) by lia.
  rewrite (take_S_r _ _ obj); [now rewrite take_insert_ge by lia|]. apply list_lookup_insert_eq. lia.
Qed.

Lemma epoch_log s a L al G obj g :
  epoch_inv s a L al G -> obj ∉ pending al ++ reusable al -> epoch_inv s a L al (<[obj := g]> G).
Proof.
  intros [H1 H2 H3 H4 H5 (hd & rest & Hl & [Hw Hho] & Hr & Hs) H7 H8 H9 H10 H11] Hobj.
  assert (Hne : forall fs o, fs ∈ a_free_set_list al ++ a_collected_set_list al -> o ∈ set_objs fs -> o ≠ obj).
  { intros fs o Hfs Ho ->. apply Hobj. unfold pending, reusable. rewrite <- concat_app, <- fmap_app. now apply (elem_of_objs _ fs). }
  split; try done.
  - exists hd, rest. split; [done|]. split; [|split; [|done]].
    + split; [done|]. intros o Ho. apply freed_le_insert; [|auto]. apply (Hne hd); [rewrite Hl; left|done].
    + rewrite list.Forall_forall in Hr |- *. intros fs Hfs. destruct (Hr fs Hfs) as (? & ? & v & Ev & Hin).
      split; [done|]. split; [done|]. exists v. split; [done|]. intros o Ho. apply freed_le_insert; [|auto].
      apply (Hne fs); [rewrite Hl; set_solver|done].
  - rewrite list.Forall_forall in H8 |- *. intros fs Hfs. destruct (H8 fs Hfs) as (? & ? & Hin). split; [done|].
    split; [done|]. intros o Ho. apply freed_lt_insert; [|auto]. apply (Hne fs); [set_solver|done].
Qed.

Lemma push_ok s a L al G obj :
  epoch_inv s a L al G -> room_head al -> obj ∉ pending al ++ reusable al ->
  exists al', push_obj a obj s = Ok (tt, put_alloc a al' s) /\
    epoch_inv (put_alloc a al' s) a L al' (<[obj := ver s]> G) /\
    pending al' ++ reusable al' ≡ₚ obj :: pending al ++ reusable al /\ reusable al' = reusable al /\ same_chunk al al'.
Proof.
  intros I (hd & rest & Hl & Hc) Hobj. apply (epoch_log _ _ _ _ _ obj (ver s)) in I; [|done].
  pose proof I as [H1 H2 H3 H4 H5 (hd' & rest' & Hl' & [Hw Hho] & Hr & Hs) H7 H8 H9 H10 H11].
  rewrite Hl in Hl'. injection Hl' as <- <-. destruct Hw as (W1 & W2 & W3 & W4).
  unfold push_obj, get_alloc. unfold cbind at 1. rewrite H1, Hl.
  rewrite (cbind_Ok _ _ _ _ _ (array_set_ok (fs_set hd) (fs_curr hd) obj s ltac:(lia))).
  set (hd' := mkFreeSet _ _ _ _). set (al' := with_free _ _ _). exists al'. split; [done|].
  assert (Ho : set_objs hd' = set_objs hd ++ [obj]) by (apply push_objs; lia).
  split; [|split; [|done]].
  - apply (epoch_put s a L al al' _ hd' rest); try done.
    + split.
      * unfold fs_wf, hd'. cbn [fs_curr fs_set fs_size fs_ts_set]. rewrite length_insert. split; [lia|]. auto.
      * intros o. rewrite Ho, elem_of_app. intros [Hin|Hin]; [auto|].
        apply list_elem_of_singleton in Hin as ->. exists (ver s). now rewrite lookup_insert_eq.
    + cbn. now rewrite H7, Hl.
  - unfold pending, al'. cbn [a_free_set_list with_free fmap list_fmap concat]. rewrite Hl. cbn [fmap list_fmap concat].
    rewrite Ho. change (reusable (with_free _ _ al)) with (reusable al). solve_Permutation.
Qed.

Lemma free_ok s a L al G obj :
  epoch_inv s a L al G -> 0 <= ver s (ssmem_ts_local (my_tls s)) < 2 ^ 64 - 1 ->
  obj ∉ pending al ++ reusable al ->
  exists s' al', ssmem_free a obj s = Ok (tt, s') /\ epoch_inv s' a L al' (<[obj := ver s]> G) /\
    pending al' ++ reusable al' ≡ₚ obj :: pending al ++ reusable al /\ reusable al ⊆ reusable al' /\
    same_chunk al al' /\ owner s' = owner s /\ my_tls s' = my_tls s /\
    forall p, ver s' p = ver s p + (if decide (p = ssmem_ts_local (my_tls s)) then 1 else 0).
Proof.
  intros I Hv Hobj. destruct (rotate_ok s a L al G I) as (al1 & Hr & I1 & Hroom & P1 & S1 & Ch1).
  destruct (push_ok _ a L al1 G obj I1 Hroom) as (al2 & Hp & I2 & P2 & S2 & Ch2); [now rewrite P1|].
  unfold ssmem_free. rewrite (cbind_Ok _ _ _ _ _ Hr), (cbind_Ok _ _ _ _ _ Hp). rewrite put_alloc_twice in *.
  set (s2 := put_alloc a al2 s) in *. change (ver (put_alloc a al1 s)) with (ver s) in I2.
  rewrite (ts_next_ok s2 L (ei_threads _ _ _ _ _ I2) (ei_self _ _ _ _ _ I2) Hv).
  eexists _, al2. split; [reflexivity|]. split; [|split; [|split; [|split; [|split; [|split]]]]].
  - eapply advance_inv; [|exact I2]. apply version_advance. lia.
  - rewrite P2. now constructor.
  - now rewrite S2.
  - destruct Ch1 as (E1 & E2 & E3), Ch2 as (F1 & F2 & F3). repeat split; congruence.
  - done.
  - done.
  - intros p. unfold ver. rewrite rd_ESt. change (my_tls s2) with (my_tls s). change (rd s2) with (rd s).
    case_decide as E; [injection E as <-; now rewrite decide_True|]. rewrite decide_False by congruence. lia.
Qed.

(** ** Allocating *)

(** *** From the collected sets *)

Lemma pop_objs fs : 0 < fs_curr fs <= Z.of_nat (length (fs_set fs)) ->
  set_objs fs = set_objs (mkFreeSet (fs_ts_set fs) (fs_size fs) (fs_curr fs - 1) (fs_set fs)) ++
                [nth (Z.to_nat (fs_curr fs - 1)) (fs_set fs) 0].
Proof.
  intros Hc. unfold set_objs. cbn. replace (Z.to_nat (fs_curr fs)) with (S (Z.to_nat (fs_curr fs - 1))) by lia.
  apply take_S_r. destruct (lookup_lt_is_Some_2 (fs_set fs) (Z.to_nat (fs_curr fs - 1)) ltac:(lia)) as [x Hx].
  rewrite Hx. f_equal. symmetry. now apply nth_lookup_Some.
Qed.

Section Alloc.
Context `{Malloc}.

Lemma alloc_reuse s a L al G size cs rest :
  epoch_inv s a L al G -> a_collected_set_list al = cs :: rest ->
  exists m al', ssmem_alloc a size s = Ok (m, put_alloc a al' s) /\ epoch_inv (put_alloc a al' s) a L al' G /\
    reusable al ≡ₚ m :: reusable al' /\ pending al' = pending al /\ freed_lt G L (ver s) m /\
    same_chunk al al'.
Proof.
  intros I Hl. pose proof I as [H1 H2 H3 H4 H5 (hd & tl & Hf & Hh & Hr & Hs) H7 H8 H9 H10 H11].
  rewrite Hl in H8. apply list.Forall_cons in H8 as [(Hw & Hc & Hobj) H8]. pose proof Hw as (W1 & W2 & W3 & W4).
  unfold ssmem_alloc, get_alloc. unfold cbind at 1. rewrite H1, Hl.
  rewrite (cbind_Ok _ _ _ _ _ (array_get_ok (fs_set cs) (fs_curr cs - 1) s ltac:(lia))).
  pose proof (pop_objs cs ltac:(lia)) as Hpop. set (m := nth _ _ 0) in *. set (cs' := mkFreeSet _ _ _ _) in *.
  assert (Hm : freed_lt G L (ver s) m) by (apply Hobj; rewrite Hpop; set_solver).
  assert (Hw' : fs_wf s L cs').
  { unfold fs_wf, cs'. cbn [fs_curr fs_set fs_size fs_ts_set]. split; [lia|]. auto. }
  destruct (Z.leb_spec (fs_curr cs - 1) 0) as [Hz|Hz]; rewrite (cbind_Ok _ _ _ _ _ (set_alloc_eq _ _ _)).
  - assert (Hnil : set_objs cs' = []) by (unfold set_objs, cs'; cbn; now replace (Z.to_nat (fs_curr cs - 1)) with 0%nat by lia).
    eexists m, _. split; [reflexivity|]. split; [|split; [|split; [|split]]]; try done.
    + apply (epoch_put s a L al _ G hd tl); try done.
      * cbn. now rewrite H7, Hf.
      * cbn. rewrite H9, Hl. cbn. lia.
      * cbn. constructor; [|done]. unfold fs_wf. cbn [fs_curr fs_set fs_size fs_ts_set]. split; [lia|]. auto.
    + unfold reusable. cbn. rewrite Hl. cbn. rewrite Hpop, Hnil. done.
  - eexists m, _. split; [reflexivity|]. split; [|split; [|split; [|split]]]; try done.
    + apply (epoch_put s a L al _ G hd tl); try done.
      * cbn. now rewrite H7, Hf.
      * cbn. constructor; [|done]. split; [done|]. split; [cbn; lia|]. intros o Ho. apply Hobj. rewrite Hpop. set_solver.
      * cbn. now rewrite H9, Hl.
    + unfold reusable. cbn. rewrite Hl. cbn. rewrite Hpop. solve_Permutation.
Qed.

(** *** From the current chunk, or a new one *)

(** The unused part of the current chunk is the allocator's. *)
Definition chunk_inv (s : state) (al : ssmem_allocator_t) : Prop :=
  0 <= a_mem_curr al <= a_mem_size al /\ 0 < a_mem_size al <= 2 * SSMEM_MEM_SIZE_MAX /\
  a_mem al + a_mem_size al < 2 ^ 64 /\
  forall x, 0 <= x < a_mem_size al -> owner s !! line (a_mem al + x) = Some (a_mem al).

Lemma grow_ok n m size s :
  0 < m <= 2 * SSMEM_MEM_SIZE_MAX -> size <= SSMEM_MEM_SIZE_MAX -> size <= m * 2 ^ Z.of_nat n ->
  exists r, grow_mem_size n m size s = Ok (r, s) /\ size <= r <= 2 * SSMEM_MEM_SIZE_MAX.
Proof.
  revert m. induction n as [|n IH]; intros m Hm Hs Hf.
  - cbn [grow_mem_size]. replace (m <? size) with false by lia. exists m. split; [done|lia].
  - cbn [grow_mem_size]. destruct (Z.ltb_spec m size) as [Hlt|Hge]; [|exists m; split; [done|lia]].
    replace (m <=? SSMEM_MEM_SIZE_MAX) with true by lia. run_step.
    rewrite Z.shiftl_mul_pow2 by lia. rewrite u64_small by (unfold SSMEM_MEM_SIZE_MAX in *; lia).
    apply IH; [lia|done|]. rewrite Nat2Z.inj_succ, Z.pow_succ_r in Hf by lia. lia.
Qed.

Lemma grow_fail n m size s :
  0 < m <= 2 * SSMEM_MEM_SIZE_MAX -> 2 * SSMEM_MEM_SIZE_MAX < size -> SSMEM_MEM_SIZE_MAX < m * 2 ^ Z.of_nat n ->
  grow_mem_size (S n) m size s = Err AssertFail.
Proof.
  revert m. induction n as [|n IH]; intros m Hm Hs Hf; cbn [grow_mem_size]; replace (m <? size) with true by lia.
  - replace (m <=? SSMEM_MEM_SIZE_MAX) with false by lia. done.
  - destruct (Z.leb_spec m SSMEM_MEM_SIZE_MAX); [|done]. run_step. rewrite Z.shiftl_mul_pow2 by lia.
    rewrite u64_small by (unfold SSMEM_MEM_SIZE_MAX in *; lia).
    apply IH; [lia|done|]. rewrite Nat2Z.inj_succ, Z.pow_succ_r in Hf by lia. lia.
Qed.

Lemma next_size_ok m size s :
  0 < m <= 2 * SSMEM_MEM_SIZE_MAX -> 0 < size <= SSMEM_MEM_SIZE_MAX ->
  exists r, next_mem_size m size s = Ok (r, s) /\ size <= r <= 2 * SSMEM_MEM_SIZE_MAX.
Proof.
  intros Hm Hs. unfold next_mem_size. rewrite Z.shiftl_mul_pow2, u64_small by (unfold SSMEM_MEM_SIZE_MAX in *; lia).
  change (2 ^ 1) with 2. set (m' := if SSMEM_MEM_SIZE_MAX <? _ then _ else _).
  assert (Hm' : 0 < m' <= SSMEM_MEM_SIZE_MAX) by (unfold m'; destruct (Z.ltb_spec SSMEM_MEM_SIZE_MAX (m * 2)); lia).
  destruct (Z.ltb_spec m' size); [|exists m'; split; [done|lia]].
  apply grow_ok; [lia|lia|]. change (2 ^ Z.of_nat 65) with (2 ^ 65). unfold SSMEM_MEM_SIZE_MAX in *. lia.
Qed.

Lemma claimed_owner p sz o x :
  p mod CACHE_LINE_SIZE = 0 -> 0 <= x < sz -> claim_lines p sz o !! line (p + x) = Some p.
Proof.
  intros Hp Hx. rewrite claim_lines_lookup, decide_True; [done|].
  unfold block_lines, line, CACHE_LINE_SIZE in *. rewrite elem_of_seqZ.
  pose proof (Z.div_mod p 64 ltac:(lia)). pose proof (Z.div_mod (p + x) 64 ltac:(lia)).
  pose proof (Z.mod_pos_bound (p + x) 64 ltac:(lia)).
  pose proof (Z.div_mod (sz + 64 - 1) 64 ltac:(lia)). pose proof (Z.mod_pos_bound (sz + 64 - 1) 64 ltac:(lia)). lia.
Qed.

(** More memory, the same epoch. *)
Lemma epoch_owner s a L al G o :
  epoch_inv s a L al G -> (forall l, is_Some (owner s !! l) -> is_Some (o !! l)) ->
  epoch_inv (set_owner o s) a L al G.
Proof.
  intros [H1 [R N O I] H3 H4 H5 H6 H7 H8 H9 H10 H11] Ho. split; try done. split; try done.
  - clear -R. revert R. cbn. generalize (ssmem_ts_list (glob s)).
    induction L as [|p L IH]; intros cur; [done|]. simpl. intros [-> R]. split; [done|]. now apply IH.
  - eapply list.Forall_impl; [exact O|]. intros p (? & ? & ?). split; [done|]. split; [done|]. now apply Ho.
Qed.

Lemma epoch_same s a L al al' G :
  epoch_inv s a L al G -> a_fs_size al' = a_fs_size al -> a_released_num al' = a_released_num al ->
  a_free_set_list al' = a_free_set_list al -> a_free_set_num al' = a_free_set_num al ->
  a_collected_set_list al' = a_collected_set_list al -> a_collected_set_num al' = a_collected_set_num al ->
  a_available_set_list al' = a_available_set_list al -> epoch_inv (put_alloc a al' s) a L al' G.
Proof.
  intros I E1 E2 E3 E4 E5 E6 E7. pose proof I as [H1 H2 H3 H4 H5 (hd & tl & Hf & Hh & Hr & Hs) H7 H8 H9 H10 H11].
  apply (epoch_put s a L al al' G hd tl); try done; congruence.
Qed.

(** What a fresh allocation gives: the object ends at the bump pointer and starts where
    the pointer was, or at the start of a chunk of memory that was not in use. *)
Definition fresh_object (s : state) (al al' : ssmem_allocator_t) (m size : Z) : Prop :=
  a_mem al' <= m /\ m + size = a_mem al' + a_mem_curr al' /\
  ((a_mem al' = a_mem al /\ m = a_mem al + a_mem_curr al) \/
   (m = a_mem al' /\ Forall (fun l => owner s !! l = None) (block_lines m (a_mem_size al')))).

(** The memory the allocator asks for, if it does, is available. *)
Definition chunk_room (s : state) (al : ssmem_allocator_t) (size : Z) : Prop :=
  match next_mem_size (a_mem_size al) size s with
  | Ok (n, _) => is_Some (pick (owner s) n)
  | Err _ => False
  end.

Lemma alloc_fresh s a L al G size :
  epoch_inv s a L al G -> a_collected_set_list al = [] -> chunk_inv s al ->
  0 < size <= SSMEM_MEM_SIZE_MAX -> chunk_room s al size ->
  exists m s' al', ssmem_alloc a size s = Ok (m, s') /\ epoch_inv s' a L al' G /\ chunk_inv s' al' /\
    fresh_object s al al' m size /\ reusable al' = reusable al /\ pending al' = pending al /\
    cells s' = cells s /\ my_tls s' = my_tls s.
Proof.
  intros I Hl (C1 & C2 & C3 & C4) Hs Hroom. pose proof (ei_alloc _ _ _ _ _ I) as H1.
  assert (Hmax : SSMEM_MEM_SIZE_MAX = 2 ^ 32) by reflexivity.
  assert (Hg : get_alloc a s = Ok (al, s)) by (unfold get_alloc; now rewrite H1).
  unfold ssmem_alloc. rewrite (cbind_Ok _ _ _ _ _ Hg), Hl, u64_small by lia.
  destruct (Z.leb_spec (a_mem_size al) (a_mem_curr al + size)) as [Hfull|Hfit].
  - destruct (next_size_ok (a_mem_size al) size s C2 Hs) as (n & Hn & Hb). unfold chunk_room in Hroom. rewrite Hn in Hroom.
    destruct Hroom as [mem Hp]. pose proof (pick_spec _ _ _ Hp) as (P1 & P2 & P3 & P4).
    rewrite cbind_assoc, (cbind_Ok _ _ _ _ _ Hn), cbind_assoc, (cbind_Ok _ _ _ _ _ (memalign_ok s _ _ Hp)).
    replace (negb (mem =? NULL)) with true by (unfold NULL; lia). rewrite cbind_assoc. run_step. run_step.
    rewrite (cbind_Ok _ _ _ _ _ (get_alloc_put _ _ _)). run_step. rewrite put_alloc_twice.
    cbn [a_mem a_mem_curr with_chunk with_mem_curr]. rewrite Z.add_0_r, Z.add_0_l, u64_small by lia.
    eexists mem, _, _. split; [reflexivity|]. split; [|split; [|split]].
    + apply (epoch_same _ a L al); try done. apply epoch_owner; [done|]. intros l Hl'. rewrite claim_lines_lookup. case_decide; eauto.
    + repeat split; cbn; try lia. intros x Hx. now apply claimed_owner.
    + unfold fresh_object. cbn. split; [lia|]. split; [lia|]. right. done.
    + done.
  - run_step. rewrite (cbind_Ok _ _ _ _ _ Hg). run_step. rewrite u64_small by lia. eexists _, _, _. split; [reflexivity|]. split; [|split; [|split]].
    + now apply (epoch_same _ a L al).
    + repeat split; cbn; try lia. exact C4.
    + unfold fresh_object. cbn. split; [lia|]. split; [lia|]. left. done.
    + done.
Qed.

End Alloc.

(** ** Interleavings

    The allocator's owner frees and allocates, the other threads free with their own
    allocators, which advances their counters. *)

Inductive epoch_ev :=
| EvFree (obj : Z)      (* the owner frees an object *)
| EvReuse (obj : Z)     (* the owner is given a recycled object *)
| EvFresh (obj : Z)     (* the owner is given new memory *)
| EvTick (p : Z).       (* the thread with the counter [p] frees something *)

Section Interleaving.
Context `{Malloc} (a : Z) (L : list Z).

Inductive epoch_step : state * log -> epoch_ev -> state * log -> Prop :=
| step_free s G al obj s' :
    allocs (glob s) !! a = Some al -> obj ∉ pending al ++ reusable al ->
    0 <= ver s (ssmem_ts_local (my_tls s)) < 2 ^ 64 - 1 -> ssmem_free a obj s = Ok (tt, s') ->
    epoch_step (s, G) (EvFree obj) (s', <[obj := ver s]> G)
| step_reuse s G al size obj s' :
    allocs (glob s) !! a = Some al -> a_collected_set_list al ≠ [] -> ssmem_alloc a size s = Ok (obj, s') ->
    epoch_step (s, G) (EvReuse obj) (s', G)
| step_fresh s G al size obj s' :
    allocs (glob s) !! a = Some al -> a_collected_set_list al = [] -> 0 < size <= SSMEM_MEM_SIZE_MAX ->
    chunk_room s al size -> ssmem_alloc a size s = Ok (obj, s') -> epoch_step (s, G) (EvFresh obj) (s', G)
| step_tick s G p :
    p ∈ L -> p ≠ ssmem_ts_local (my_tls s) -> 0 <= ver s p < 2 ^ 64 - 1 ->
    epoch_step (s, G) (EvTick p) (do_ev (ESt (p, S_version) (ver s p + 1)) s, G).

Inductive epoch_run : state * log -> list epoch_ev -> state * log -> Prop :=
| run_nil x : epoch_run x [] x
| run_cons x e y es z : epoch_step x e y -> epoch_run y es z -> epoch_run x (e :: es) z.

Definition epoch_ok (x : state * log) : Prop :=
  exists al, epoch_inv x.1 a L al x.2 /\ chunk_inv x.1 al.

Definition me_ts (x : state * log) : Z := ssmem_ts_local (my_tls x.1).

(** The events that advance a thread's counter. *)
Definition ticks (me p : Z) (e : epoch_ev) : bool :=
  match e with EvTick q => bool_decide (q = p) | EvFree _ => bool_decide (me = p) | _ => false end.

Lemma step_ok x e y :
  epoch_ok x -> epoch_step x e y ->
  epoch_ok y /\ me_ts y = me_ts x /\
  forall p, ver y.1 p = ver x.1 p + (if ticks (me_ts x) p e then 1 else 0).
Proof.
  intros (al & I & C) St. destruct St as [s G al' obj s' Ha Hobj Hv Hrun|s G al' size obj s' Ha Hne Hrun
    |s G al' size obj s' Ha Hnil Hsz Hroom Hrun|s G p Hp Hne Hv]; cbn [fst snd] in *.
  - rewrite (ei_alloc _ _ _ _ _ I) in Ha. injection Ha as <-.
    destruct (free_ok s a L al G obj I Hv Hobj) as (s2 & al2 & Hrun2 & I2 & _ & _ & Ch & Ho & Ht & Hver).
    rewrite Hrun in Hrun2. injection Hrun2 as <-. split; [|split].
    + exists al2. split; [done|]. destruct C as (C1 & C2 & C3 & C4), Ch as (E1 & E2 & E3). cbn.
      unfold chunk_inv. rewrite E1, E2, E3, Ho. auto.
    + unfold me_ts. cbn. now rewrite Ht.
    + intros p. rewrite Hver. unfold me_ts. cbn. case_decide as E.
      * now rewrite bool_decide_true by congruence.
      * now rewrite bool_decide_false by congruence.
  - rewrite (ei_alloc _ _ _ _ _ I) in Ha. injection Ha as <-. destruct (a_collected_set_list al) as [|cs rest] eqn:El; [done|].
    destruct (alloc_reuse s a L al G size cs rest I El) as (m & al2 & Hrun2 & I2 & _ & _ & _ & E1 & E2 & E3).
    rewrite Hrun in Hrun2. injection Hrun2 as -> ->. split; [|split; [done|]].
    + exists al2. split; [done|]. destruct C as (C1 & C2 & C3 & C4). cbn. unfold chunk_inv. rewrite E1, E2, E3. auto.
    + intros p. cbn. unfold ver. change (rd (put_alloc a al2 s)) with (rd s). lia.
  - rewrite (ei_alloc _ _ _ _ _ I) in Ha. injection Ha as <-.
    destruct (alloc_fresh s a L al G size I Hnil C Hsz Hroom) as (m & s2 & al2 & Hrun2 & I2 & C2 & _ & _ & _ & Ec & Et).
    rewrite Hrun in Hrun2. injection Hrun2 as -> ->. split; [now exists al2|]. split; [unfold me_ts; cbn; now rewrite Et|].
    intros p. cbn. unfold ver, rd. rewrite Ec. lia.
  - split; [|split; [done|]].
    + exists al. split; [|done]. eapply advance_inv; [apply version_advance|exact I]. lia.
    + intros q. cbn. unfold ver. rewrite rd_ESt. case_decide as E.
      * injection E as <-. rewrite bool_decide_true by done. done.
      * rewrite bool_decide_false by congruence. lia.
Qed.

(** What a recycled object says about the log. *)
Lemma reuse_log s G obj y :
  epoch_ok (s, G) -> epoch_step (s, G) (EvReuse obj) y -> freed_lt G L (ver s) obj.
Proof.
  intros (al & I & _) St. inversion St as [|s' G' al' size obj' s2 Ha Hne Hrun| |]; subst.
  cbn [fst snd] in *. rewrite (ei_alloc _ _ _ _ _ I) in Ha. injection Ha as <-.
  destruct (a_collected_set_list al) as [|cs rest] eqn:El; [done|].
  destruct (alloc_reuse s a L al G size cs rest I El) as (m & al2 & Hrun2 & _ & _ & _ & Hf & _).
  rewrite Hrun in Hrun2. now injection Hrun2 as <- _.
Qed.

Lemma run_ok x es z :
  epoch_ok x -> epoch_run x es z ->
  epoch_ok z /\ me_ts z = me_ts x /\
  (forall p, ver z.1 p = ver x.1 p + Z.of_nat (length (List.filter (ticks (me_ts x) p) es))) /\
  (forall obj, EvFree obj ∉ es -> z.2 !! obj = x.2 !! obj).
Proof.
  intros Hx Hr. revert Hx. induction Hr as [x|x e y es z St Hr IH]; intros Hx.
  - split; [done|]. split; [done|]. split; [intros p; cbn; lia|done].
  - destruct (step_ok x e y Hx St) as (Hy & Hm & Hv). destruct (IH Hy) as (Hz & Hm' & Hv' & Hg).
    split; [done|]. split; [congruence|]. split.
    + intros p. rewrite Hv', Hv, Hm. cbn [List.filter]. destruct (ticks (me_ts x) p e); cbn [length]; lia.
    + intros obj Hn. rewrite Hg by set_solver. inversion St; subst; cbn; try done.
      rewrite lookup_insert_ne; [done|]. intros ->. apply Hn. left.
Qed.
End Interleaving.

(** ** A new allocator *)

Lemma alloc_init_epoch `{Malloc} s a L id size free_set_size mem ts :
  ts_rep s L -> NoDup ((fun p => rd s (p, S_id)) <$> L) -> ssmem_ts_local (my_tls s) = NULL ->
  id = ssmem_ts_list_len (glob s) -> 0 <= id < 2 ^ 32 - 1 -> 0 < free_set_size ->
  0 < size <= 2 * SSMEM_MEM_SIZE_MAX -> pick (owner s) size = Some mem ->
  pick (claim_lines mem size (owner s)) sizeof_ssmem_ts_t = Some ts ->
  exists s' al, ssmem_alloc_init_fs_size a size free_set_size id s = Ok (tt, s') /\
    epoch_inv s' a (ts :: L) al ∅ /\ chunk_inv s' al /\ pending al = [] /\ reusable al = [].
Proof.
  intros R Nd Hl Hid Hb Hfs Hsz Hp1 Hp2. pose proof (pick_spec _ _ _ Hp1) as (M1 & M2 & M3 & M4).
  pose proof (pick_spec _ _ _ Hp2) as (T1 & T2 & T3 & T4). unfold sizeof_ssmem_ts_t in T3.
  destruct (alloc_init_ok s a size free_set_size id mem ts Hl Hp1 Hp2) as (s' & Hrun & RG).
  pose proof RG as [Rc Rt Ro Ra Rl Rn Rtl].
  set (al := first_allocator mem size free_set_size ts) in *. exists s', al. split; [exact Hrun|].
  assert (Hts : line ts ∈ block_lines ts sizeof_ssmem_ts_t).
  { unfold block_lines. rewrite elem_of_seqZ. change ((sizeof_ssmem_ts_t + CACHE_LINE_SIZE - 1) / CACHE_LINE_SIZE) with 2. lia. }
  rewrite list.Forall_forall in T4. pose proof (T4 _ Hts) as Hfree. cbn beta in Hfree.
  assert (Hnew : owner s !! line ts = None).
  { rewrite claim_lines_lookup in Hfree. case_decide; [done|exact Hfree]. }
  assert (R' : ts_rep s' (ts :: L)).
  { apply (ts_rep_register s s' [] (owner s') a al ts (my_tls s') L id R); try done.
    - intros l Hsome. rewrite Ro, !claim_lines_lookup. repeat case_decide; eauto.
    - rewrite Ro. split; [done|]. split; [lia|]. rewrite claim_lines_lookup, decide_True by done. eauto. }
  assert (Hids : forall p, p ∈ L -> rd s' (p, S_id) = rd s (p, S_id)).
  { intros p Hp. rewrite (rd_cells _ _ _ Rc). apply rd_do_evs_frame. cbn.
    assert (p ≠ ts); [|set_solver]. intros ->. pose proof (ts_ok _ _ R) as Hok. rewrite list.Forall_forall in Hok.
    destruct (Hok ts Hp) as (_ & _ & [x Hx]). congruence. }
  assert (Hown : rd s' (ts, S_id) = id).
  { rewrite (rd_cells _ _ _ Rc). cbn. unfold rd. cbn. rewrite !lookup_insert_ne by congruence. now rewrite lookup_insert_eq. }
  split; [|split; [|done]].
  - split; try done.
    + cbn [fmap list_fmap]. constructor.
      * rewrite Hown, list_elem_of_fmap. intros (p & Hpe & Hp). rewrite Hids in Hpe by done.
        pose proof (ts_ids _ _ R) as Hi. rewrite list.Forall_forall in Hi. specialize (Hi p Hp). cbn in Hi. lia.
      * erewrite list_fmap_ext; [exact Nd|]. intros i p Hp. apply Hids. now apply list_elem_of_lookup_2 in Hp.
    + rewrite Rtl. left.
    + exists (ssmem_free_set_new free_set_size), []. split; [done|]. split; [|split; constructor].
      split; [|intros o Ho; now apply not_elem_of_nil in Ho].
      unfold fs_wf, ssmem_free_set_new. cbn [fs_curr fs_set fs_size fs_ts_set]. rewrite length_replicate.
      split; [lia|]. split; [lia|]. split; [lia|done].
  - unfold chunk_inv. cbn. split; [lia|]. split; [lia|]. split; [lia|]. intros x Hx. rewrite Ro, claim_lines_lookup.
    pose proof (claimed_owner mem size (owner s) x M2 Hx) as Hc. case_decide as Hd; [|exact Hc].
    apply T4 in Hd. congruence.
Qed.

(** ** Properties *)

(** C33: [ssmem_free] always returns, keeps the allocator well formed, and moves objects
    only from waiting to reusable: the freed object joins the others, none is lost or
    duplicated, and the calling thread's counter advances by one. *)
Theorem ssmem_free_spec s a L al (G : gmap Z (Z -> Z)) obj :
  epoch_inv s a L al G -> 0 <= ver s (ssmem_ts_local (my_tls s)) < 2 ^ 64 - 1 ->
  obj ∉ pending al ++ reusable al ->
  exists s' al', ssmem_free a obj s = Ok (tt, s') /\ epoch_inv s' a L al' (<[obj := ver s]> G) /\
    pending al' ++ reusable al' ≡ₚ obj :: pending al ++ reusable al /\ reusable al ⊆ reusable al' /\
    forall p, ver s' p = ver s p + (if decide (p = ssmem_ts_local (my_tls s)) then 1 else 0).
Proof.
  intros I Hv Ho. destruct (free_ok _ _ _ _ _ _ I Hv Ho) as (s' & al' & H1 & H2 & H3 & H4 & _ & _ & _ & H5).
  exists s', al'. auto.
Qed.

(** C34: [ssmem_alloc] returns a recycled object if there is one, which every thread's
    counter has passed since it was freed, and otherwise new memory inside a chunk of
    the allocator, behind everything carved from the chunk so far. *)
Theorem ssmem_alloc_spec `{Malloc} s a L al (G : gmap Z (Z -> Z)) size :
  epoch_inv s a L al G -> chunk_inv s al -> 0 < size <= SSMEM_MEM_SIZE_MAX -> chunk_room s al size ->
  exists m s' al', ssmem_alloc a size s = Ok (m, s') /\ epoch_inv s' a L al' G /\ chunk_inv s' al' /\
    pending al' = pending al /\
    ((reusable al ≡ₚ m :: reusable al' /\ freed_lt G L (ver s) m) \/
     (reusable al = [] /\ reusable al' = [] /\ fresh_object s al al' m size)).
Proof.
  intros I C Hs Hr. destruct (a_collected_set_list al) as [|cs rest] eqn:El.
  - destruct (alloc_fresh s a L al G size I El C Hs Hr) as (m & s' & al' & Hrun & I' & C' & F & E1 & E2 & _).
    assert (E0 : reusable al = []) by (unfold reusable; now rewrite El).
    exists m, s', al'. do 4 (split; [done|]). right. rewrite E1, E0. auto.
  - destruct (alloc_reuse s a L al G size cs rest I El) as (m & al' & Hrun & I' & P & E & F & E1 & E2 & E3).
    exists m, (put_alloc a al' s), al'. do 2 (split; [done|]). split; [|auto].
    destruct C as (C1 & C2 & C3 & C4). unfold chunk_inv. rewrite E1, E2, E3. auto.
Qed.

(** a request of more than twice the largest chunk size is refused: the
    assertion fails. *)
Theorem ssmem_alloc_oversize `{Malloc} s a al size :
  allocs (glob s) !! a = Some al -> a_collected_set_list al = [] -> chunk_inv s al ->
  2 * SSMEM_MEM_SIZE_MAX < size < 2 ^ 63 -> ssmem_alloc a size s = Err AssertFail.
Proof.
  intros Ha Hl (C1 & C2 & C3 & C4) Hs. assert (Hmax : SSMEM_MEM_SIZE_MAX = 2 ^ 32) by reflexivity.
  assert (Hg : get_alloc a s = Ok (al, s)) by (unfold get_alloc; now rewrite Ha).
  unfold ssmem_alloc. rewrite (cbind_Ok _ _ _ _ _ Hg), Hl, u64_small by lia.
  replace (a_mem_size al <=? a_mem_curr al + size) with true by lia. apply cbind_Err. rewrite cbind_Err with (e := AssertFail); [done|].
  unfold next_mem_size. rewrite Z.shiftl_mul_pow2, u64_small by lia. change (2 ^ 1) with 2.
  set (m' := if SSMEM_MEM_SIZE_MAX <? _ then _ else _).
  assert (Hm' : 0 < m' <= SSMEM_MEM_SIZE_MAX) by (unfold m'; destruct (Z.ltb_spec SSMEM_MEM_SIZE_MAX (a_mem_size al * 2)); lia).
  replace (m' <? size) with true by lia. apply (grow_fail 64); [lia|lia|]. change (Z.of_nat 64) with 64. lia.
Qed.

(** C16: the grace period of ssmem. Whatever the owner of an allocator and the other
    threads do between the last time an object was freed and the time it is handed out
    again, every registered thread has freed something in between, that is, has passed
    a point at which it holds no reference from before. *)
Theorem reuse_after_grace `{Malloc} a L x obj y es z w :
  epoch_ok a L x -> epoch_step a L x (EvFree obj) y -> epoch_run a L y es z -> EvFree obj ∉ es ->
  epoch_step a L z (EvReuse obj) w ->
  forall p, p ∈ L -> exists e, e ∈ EvFree obj :: es /\ ticks (me_ts x) p e = true.
Proof.
  intros Hx Sf Hr Hno Sr p Hp. pose proof (step_ok a L x _ y Hx Sf) as (Hy & Hm & Hv).
  destruct (run_ok a L y es z Hy Hr) as (Hz & Hm' & Hv' & Hg). destruct z as [s G].
  destruct (reuse_log a L s G obj w Hz Sr) as (g & Eg & Hlt). cbn [fst snd] in *. rewrite Hg in Eg by done.
  assert (Ey : y.2 !! obj = Some (ver x.1)) by (inversion Sf; subst; cbn; apply lookup_insert_eq).
  rewrite Ey in Eg. injection Eg as <-. specialize (Hlt p Hp). rewrite Hv', Hv, Hm in Hlt.
  destruct (ticks (me_ts x) p (EvFree obj)) eqn:Et; [exists (EvFree obj); split; [left|done]|].
  destruct (List.filter (ticks (me_ts x) p) es) as [|e l] eqn:Ef; [cbn in Hlt; lia|].
  assert (Hin : In e (List.filter (ticks (me_ts x) p) es)) by (rewrite Ef; left; done).
  apply filter_In in Hin as [Hin Ht]. exists e. split; [right; now apply list_elem_of_In|done].
Qed.

(** [ssmem_alloc_init_fs_size] registers the thread and leaves an allocator with no
    freed objects that satisfies the invariant of the other operations. *)
Theorem ssmem_alloc_init_spec `{Malloc} s a L id size free_set_size mem ts :
  ts_rep s L -> NoDup ((fun p => rd s (p, S_id)) <$> L) -> ssmem_ts_local (my_tls s) = NULL ->
  id = ssmem_ts_list_len (glob s) -> 0 <= id < 2 ^ 32 - 1 -> 0 < free_set_size ->
  0 < size <= 2 * SSMEM_MEM_SIZE_MAX -> pick (owner s) size = Some mem ->
  pick (claim_lines mem size (owner s)) sizeof_ssmem_ts_t = Some ts ->
  exists s' al, ssmem_alloc_init_fs_size a size free_set_size id s = Ok (tt, s') /\
    epoch_inv s' a (ts :: L) al ∅ /\ chunk_inv s' al /\ pending al = [] /\ reusable al = [].
Proof. apply alloc_init_epoch. Qed.

(** ** Witnesses *)

(** One thread, an allocator at address 64 with chunks of 256 bytes and free sets of two. *)
Definition ss_malloc : Malloc := bump_malloc (2 ^ 40).
Definition ss_run {A} (m : M A) (s : state) : state := match m s with Ok (_, s') => s' | Err _ => s end.
Definition ss_boot : state := ss_run (@ssmem_alloc_init_fs_size ss_malloc 64 256 2 0) (state_init 0).
Definition ss_ts : Z := ssmem_ts_list (glob ss_boot).
Definition ss_al (s : state) : ssmem_allocator_t :=
  default (first_allocator 0 0 0 0) (allocs (glob s) !! 64).

Lemma ssmem_alloc_init_spec_witness :
  exists s' al, @ssmem_alloc_init_fs_size ss_malloc 64 256 2 0 (state_init 0) = Ok (tt, s') /\
    epoch_inv s' 64 [ss_ts] al ∅ /\ chunk_inv s' al /\ pending al = [] /\ reusable al = [].
Proof.
  apply (@ssmem_alloc_init_spec ss_malloc (state_init 0) 64 [] 0 256 2 64 ss_ts);
    [split; constructor|constructor|vm_compute; reflexivity|vm_compute; reflexivity|lia|lia|unfold SSMEM_MEM_SIZE_MAX; lia
    |vm_compute; reflexivity|vm_compute; reflexivity].
Defined.

Lemma ss_boot_ok : @epoch_ok 64 [ss_ts] (ss_boot, ∅).
Proof.
  destruct (@alloc_init_epoch ss_malloc (state_init 0) 64 [] 0 256 2 64 ss_ts) as (s' & al & Hrun & I & C & _);
    [split; constructor|constructor|vm_compute; reflexivity|vm_compute; reflexivity|lia|lia|unfold SSMEM_MEM_SIZE_MAX; lia
    |vm_compute; reflexivity|vm_compute; reflexivity|].
  exists al. cbn. unfold ss_boot, ss_run. rewrite Hrun. done.
Qed.

(** Five frees; the last one recycles the first two objects. *)
Definition ss_free (obj : Z) (s : state) : state := ss_run (ssmem_free 64 obj) s.

Lemma ss_step_free s G obj :
  (match ssmem_free 64 obj s with Ok _ => true | Err _ => false end) = true ->
  bool_decide (is_Some (allocs (glob s) !! 64)) = true ->
  bool_decide (obj ∉ pending (ss_al s) ++ reusable (ss_al s)) = true ->
  bool_decide (0 <= ver s (ssmem_ts_local (my_tls s)) < 2 ^ 64 - 1) = true ->
  @epoch_step ss_malloc 64 [ss_ts] (s, G) (EvFree obj) (ss_free obj s, <[obj := ver s]> G).
Proof.
  intros H1 H2 H3 H4. apply bool_decide_eq_true in H2 as [al Ha]. apply bool_decide_eq_true in H3.
  apply bool_decide_eq_true in H4. unfold ss_al in H3. rewrite Ha in H3. cbn in H3.
  apply (step_free 64 [ss_ts] s G al obj); try done. unfold ss_free, ss_run.
  destruct (ssmem_free 64 obj s) as [[[] s']|e]; done.
Qed.

(** The states after the frees. *)
Definition ss1 : state := ss_free 1000 ss_boot.
Definition ss2 : state := ss_free 2000 ss1.
Definition ss3 : state := ss_free 3000 ss2.
Definition ss4 : state := ss_free 4000 ss3.
Definition ss5 : state := ss_free 5000 ss4.

Ltac ss_step := apply ss_step_free; vm_compute; reflexivity.

Definition G1 : gmap Z (Z -> Z) := <[1000 := ver ss_boot]> ∅.
Definition G5 : gmap Z (Z -> Z) :=
  <[5000 := ver ss4]> (<[4000 := ver ss3]> (<[3000 := ver ss2]> (<[2000 := ver ss1]> G1))).

Lemma ss1_ok : @epoch_ok 64 [ss_ts] (ss1, G1).
Proof. apply (@step_ok ss_malloc 64 [ss_ts] (ss_boot, ∅) (EvFree 1000)); [exact ss_boot_ok|ss_step]. Qed.

Lemma ss_runs : @epoch_run ss_malloc 64 [ss_ts] (ss2, <[2000 := ver ss1]> G1) [EvFree 3000; EvFree 4000; EvFree 5000] (ss5, G5).
Proof. repeat (eapply run_cons; [ss_step|]). apply run_nil. Qed.

Lemma ss5_ok : @epoch_ok 64 [ss_ts] (ss5, G5).
Proof.
  eapply (@run_ok ss_malloc); [|exact ss_runs]. eapply (@step_ok ss_malloc); [exact ss1_ok|ss_step].
Qed.

Lemma ss_reuse_2000 : exists w, @epoch_step ss_malloc 64 [ss_ts] (ss5, G5) (EvReuse 2000) w.
Proof.
  destruct (@ssmem_alloc ss_malloc 64 16 ss5) as [[m s']|e] eqn:E.
  - assert (Hm : match @ssmem_alloc ss_malloc 64 16 ss5 with Ok (m, _) => m =? 2000 | Err _ => false end = true)
      by (vm_compute; reflexivity). rewrite E in Hm. apply Z.eqb_eq in Hm as ->.
    assert (Ha : bool_decide (is_Some (allocs (glob ss5) !! 64)) = true) by (vm_compute; reflexivity).
    apply bool_decide_eq_true in Ha as [al Ha].
    exists (s', G5). apply (step_reuse 64 [ss_ts] ss5 G5 al 16); [done| |done].
    assert (Hn : match allocs (glob ss5) !! 64 with Some al => negb (Nat.eqb (length (a_collected_set_list al)) 0) | None => false end = true)
      by (vm_compute; reflexivity). rewrite Ha in Hn. intros En. now rewrite En in Hn.
  - assert (Hm : match @ssmem_alloc ss_malloc 64 16 ss5 with Ok _ => true | Err _ => false end = true)
      by (vm_compute; reflexivity). now rewrite E in Hm.
Qed.

Lemma reuse_after_grace_witness :
  exists e, e ∈ [EvFree 2000; EvFree 3000; EvFree 4000; EvFree 5000] /\ ticks ss_ts ss_ts e = true.
Proof.
  destruct ss_reuse_2000 as [w Hw].
  exact (@reuse_after_grace ss_malloc 64 [ss_ts] (ss1, G1) 2000 (ss2, <[2000 := ver ss1]> G1)
           [EvFree 3000; EvFree 4000; EvFree 5000] (ss5, G5) w ss1_ok ltac:(ss_step) ss_runs
           ltac:(vm_compute; set_solver) Hw ss_ts ltac:(left)).
Defined.

Lemma ssmem_ts_compare_spec_witness :
  exists r, ssmem_ts_compare [4] [2] ss_boot = Ok (r, ss_boot) /\
    ((r = 1 /\ newer (ssmem_ts_list_len (glob ss_boot)) [4] [2]) \/ (r = 0 /\ ~ newer (ssmem_ts_list_len (glob ss_boot)) [4] [2])).
Proof. apply ssmem_ts_compare_spec; vm_compute; congruence. Defined.

Lemma ssmem_free_spec_witness :
  exists al s' al', ssmem_free 64 2000 ss1 = Ok (tt, s') /\ epoch_inv s' 64 [ss_ts] al' (<[2000 := ver ss1]> G1) /\
    pending al' ++ reusable al' ≡ₚ 2000 :: pending al ++ reusable al.
Proof.
  destruct ss1_ok as (al & I & _). cbn [fst snd] in I. exists al.
  assert (Hal : al = ss_al ss1) by (unfold ss_al; now rewrite (ei_alloc _ _ _ _ _ I)).
  destruct (ssmem_free_spec ss1 64 [ss_ts] al G1 2000 I) as (s' & al' & H1 & H2 & H3 & _).
  - vm_compute. split; congruence.
  - rewrite Hal. apply (bool_decide_eq_true_1 _). vm_compute. reflexivity.
  - exists s', al'. auto.
Defined.

Lemma ssmem_alloc_spec_witness :
  exists al m s' al', @ssmem_alloc ss_malloc 64 16 ss5 = Ok (m, s') /\ epoch_inv s' 64 [ss_ts] al' G5 /\
    ((reusable al ≡ₚ m :: reusable al' /\ freed_lt G5 [ss_ts] (ver ss5) m) \/
     (reusable al = [] /\ reusable al' = [] /\ fresh_object ss5 al al' m 16)).
Proof.
  destruct ss5_ok as (al & I & C). cbn [fst snd] in *. exists al.
  assert (Hal : al = ss_al ss5) by (unfold ss_al; now rewrite (ei_alloc _ _ _ _ _ I)).
  destruct (@ssmem_alloc_spec ss_malloc ss5 64 [ss_ts] al G5 16 I C) as (m & s' & al' & H1 & H2 & _ & _ & H3).
  - unfold SSMEM_MEM_SIZE_MAX. lia.
  - rewrite Hal. vm_compute. eauto.
  - exists m, s', al'. auto.
Defined.

Lemma ssmem_alloc_oversize_witness : @ssmem_alloc ss_malloc 64 (2 ^ 34) ss_boot = Err AssertFail.
Proof.
  destruct ss_boot_ok as (al & I & C). cbn [fst snd] in *.
  assert (Hal : al = ss_al ss_boot) by (unfold ss_al; now rewrite (ei_alloc _ _ _ _ _ I)).
  apply (@ssmem_alloc_oversize ss_malloc ss_boot 64 al (2 ^ 34) (ei_alloc _ _ _ _ _ I)); [|exact C|unfold SSMEM_MEM_SIZE_MAX; lia].
  rewrite Hal. vm_compute. reflexivity.
Defined.
