(* ===== verification/Clht.v ===== *)
(** * P-CLHT: the cache-line hash table with resizing

    The operations of [P-CLHT/src/clht_lb_res.c] and the lock and resize protocol of
    [P-CLHT/include/clht_lb_res.h], run by one thread: a spin loop that only another
    thread could end is [Hang]. The configuration is the one the header sets:
    [CLHT_READ_ONLY_FAIL] and [CLHT_HELP_RESIZE] on, [CLHT_DO_CHECK_STATUS] and
    [CLHT_DO_GC] off, no RTM, no debug or simulated crash. *)

From S2P Require Import Prelude Utils Memory Ssmem.

(** ** Parameters *)

Definition CLHT_PERC_EXPANSIONS : Z := 1.
Definition CLHT_MAX_EXPANSIONS : Z := 24.
Definition CLHT_PERC_FULL_DOUBLE : Z := 50.
Definition CLHT_OCCUP_AFTER_RES : Z := 40.
Definition CLHT_PERC_FULL_HALVE : Z := 5.
Definition CLHT_RATIO_HALVE : Z := 8.
Definition CLHT_STATUS_INVOK : Z := 500000.
Definition ENTRIES_PER_BUCKET : Z := 3.

Definition LOCK_FREE : Z := 0.
Definition LOCK_UPDATE : Z := 1.
Definition LOCK_RESIZE : Z := 2.

(** [for (j = 0; j < ENTRIES_PER_BUCKET; j++)] *)
Definition entries : list Z := [0; 1; 2].

(** [hashtable->table + bin] *)
Definition bucket_at (table bin : Z) : Z := table + sizeof_bucket_t * bin.

Section Clht.
Context `{Malloc}.

(** ** Creation *)

Definition clht_bucket_create : M Z :=
  bucket <- memalign sizeof_bucket_t;
  if bucket =? NULL then cret NULL
  else
    store (bucket, B_lock) 0;;
    cfor entries (fun j => store (bucket, B_key j) 0);;
    store (bucket, B_next) NULL;;
    cret bucket.

(** The bucket, and whether [*resize = 1] was executed. *)
Definition clht_bucket_create_stats (h : Z) : M (Z * bool) :=
  b <- clht_bucket_create;
  n <- IAF_U32 (h, H_num_expands);
  t <- load (h, H_num_expands_threshold);
  cret (b, t <=? n).

(** [memset(bucket, 0, sizeof(bucket_t))] *)
Definition zero_bucket (b : Z) : M unit :=
  store (b, B_lock) 0;; store (b, B_hops) 0;;
  cfor entries (fun j => store (b, B_key j) 0);;
  cfor entries (fun j => store (b, B_val j) 0);;
  store (b, B_next) NULL.

Definition clht_hashtable_create (num_buckets : Z) : M Z :=
  if num_buckets =? 0 then cret NULL
  else
    hashtable <- memalign sizeof_clht_hashtable_t;
    if hashtable =? NULL then cret NULL
    else
      table <- memalign (u64 (num_buckets * sizeof_bucket_t));
      store (hashtable, H_table) table;;
      if table =? NULL then free hashtable;; cret NULL
      else
        cfor (seqZ 0 (u64 (num_buckets * sizeof_bucket_t) / sizeof_bucket_t))
             (fun i => zero_bucket (bucket_at table i));;
        cfor (seqZ 0 num_buckets) (fun i =>
          store (bucket_at table i, B_lock) LOCK_FREE;;
          cfor entries (fun j => store (bucket_at table i, B_key j) 0));;
        store (hashtable, H_num_buckets) num_buckets;;
        store (hashtable, H_hash) (u64 (num_buckets - 1));;
        store (hashtable, H_version) 0;;
        store (hashtable, H_table_tmp) NULL;;
        store (hashtable, H_table_new) NULL;;
        store (hashtable, H_table_prev) NULL;;
        store (hashtable, H_num_expands) 0;;
        store (hashtable, H_num_expands_threshold) (u32 (CLHT_PERC_EXPANSIONS * num_buckets));;
        thr <- load (hashtable, H_num_expands_threshold);
        (if thr =? 0 then store (hashtable, H_num_expands_threshold) 1 else cret tt);;
        store (hashtable, H_is_helper) 1;;
        store (hashtable, H_helper_done) 0;;
        cret hashtable.

Definition clht_create (num_buckets : Z) : M Z :=
  w <- memalign sizeof_clht_t;
  if w =? NULL then cret NULL
  else
    ht <- clht_hashtable_create num_buckets;
    store (w, W_ht) ht;;
    if ht =? NULL then free w;; cret NULL
    else
      store (w, W_resize_lock) LOCK_FREE;;
      store (w, W_gc_lock) LOCK_FREE;;
      store (w, W_status_lock) LOCK_FREE;;
      store (w, W_version_list) NULL;;
      store (w, W_version_min) 0;;
      store (w, W_ht_oldest) ht;;
      table <- load (ht, H_table);
      clflush table (u64 (num_buckets * sizeof_bucket_t)) false true;;
      clflush ht sizeof_clht_hashtable_t false true;;
      clflush w sizeof_clht_t false true;;
      cret w.

(** ** Lookup *)

(** Hash a key for a particular hash table. *)
Definition clht_hash (hashtable key : Z) : M Z :=
  hash <- load (hashtable, H_hash);
  cret (Z.land key hash).

(** [hashtable->table + clht_hash(hashtable, key)] *)
Definition key_bucket (hashtable key : Z) : M Z :=
  bin <- clht_hash hashtable key;
  table <- load (hashtable, H_table);
  cret (bucket_at table bin).

(** The scan of one bucket by [clht_get]. *)
Definition get_entry (bucket key j : Z) : M (option Z) :=
  val <- load (bucket, B_val j);
  k <- load (bucket, B_key j);
  if k =? key then
    val' <- load (bucket, B_val j);
    cret (Some (if val' =? val then val else 0))
  else cret None.

Fixpoint clht_get_loop (n : nat) (bucket key : Z) : M Z :=
  match n with
  | O => cfail OutOfFuel
  | S n' =>
    r <- cfor_ret entries (get_entry bucket key);
    match r with
    | Some v => cret v
    | None =>
      next <- load (bucket, B_next);
      if next =? NULL then cret 0 else clht_get_loop n' next key
    end
  end.

(** Retrieve a key-value entry from a hash table. *)
Definition clht_get (hashtable key : Z) : M Z :=
  bucket <- key_bucket hashtable key;
  n <- walk_bound;
  clht_get_loop n bucket key.

Definition key_match (bucket key j : Z) : M (option unit) :=
  k <- load (bucket, B_key j);
  cret (if k =? key then Some tt else None).

Fixpoint bucket_exists_loop (n : nat) (bucket key : Z) : M bool :=
  match n with
  | O => cfail OutOfFuel
  | S n' =>
    r <- cfor_ret entries (key_match bucket key);
    match r with
    | Some _ => cret true
    | None =>
      next <- load (bucket, B_next);
      if next =? NULL then cret false else bucket_exists_loop n' next key
    end
  end.

Definition bucket_exists (bucket key : Z) : M bool :=
  n <- walk_bound; bucket_exists_loop n bucket key.

(** ** Copying a bucket chain into a new table *)

(** Insertion into a table nobody else sees yet: the first empty slot of the chain. *)
Definition put_seq_entry (bucket key val j : Z) : M (option unit) :=
  k <- load (bucket, B_key j);
  if k =? 0 then
    store (bucket, B_val j) val;; store (bucket, B_key j) key;; cret (Some tt)
  else cret None.

Fixpoint clht_put_seq_loop (n : nat) (hashtable bucket key val : Z) : M unit :=
  match n with
  | O => cfail OutOfFuel
  | S n' =>
    r <- cfor_ret entries (put_seq_entry bucket key val);
    match r with
    | Some _ => cret tt
    | None =>
      next <- load (bucket, B_next);
      if next =? NULL then
        '(b, _) <- clht_bucket_create_stats hashtable;
        store (bucket, B_next) b;;
        next <- load (bucket, B_next);
        store (next, B_val 0) val;;
        next <- load (bucket, B_next);
        store (next, B_key 0) key
      else clht_put_seq_loop n' hashtable next key val
    end
  end.

Definition clht_put_seq (hashtable key val bin : Z) : M unit :=
  table <- load (hashtable, H_table);
  n <- walk_bound;
  clht_put_seq_loop n hashtable (bucket_at table bin) key val.

(** [LOCK_ACQ_RES]: a bucket held for an update is waited for. *)
Definition lock_acq_resize (lock : cell) : M Z :=
  l <- cas lock LOCK_FREE LOCK_RESIZE;
  if l =? LOCK_UPDATE then cfail Hang
  else if l =? LOCK_RESIZE then cret 0
  else cret 1.

Definition cpy_entry (bucket ht_new j : Z) : M unit :=
  key <- load (bucket, B_key j);
  if key =? 0 then cret tt
  else
    bin <- clht_hash ht_new key;
    val <- load (bucket, B_val j);
    clht_put_seq ht_new key val bin.

Fixpoint bucket_cpy_loop (n : nat) (bucket ht_new : Z) : M unit :=
  match n with
  | O => cfail OutOfFuel
  | S n' =>
    cfor entries (cpy_entry bucket ht_new);;
    next <- load (bucket, B_next);
    if next =? NULL then cret tt else bucket_cpy_loop n' next ht_new
  end.

Definition bucket_cpy (bucket ht_new : Z) : M Z :=
  r <- lock_acq_resize (bucket, B_lock);
  if r =? 0 then cret 0
  else n <- walk_bound; bucket_cpy_loop n bucket ht_new;; cret 1.

(** ** Locks *)

(** A thread that meets a resize copies buckets from the end of the table. *)
Definition ht_resize_help (h : Z) : M unit :=
  v <- FAD_U32 (h, H_is_helper);
  if i32 v <=? 0 then cret tt
  else
    hash <- load (h, H_hash);
    _ <- cfor_ret (rev (seqZ 0 (i32 hash + 1))) (fun b =>
           table <- load (h, H_table);
           tmp <- load (h, H_table_tmp);
           r <- bucket_cpy (bucket_at table b) tmp;
           cret (if r =? 0 then Some tt else None));
    store (h, H_helper_done) 1.

(** [LOCK_ACQ]: 1 with the bucket locked, 0 when the caller must start again with
    the new table. *)
Definition lock_acq_chk_resize (lock : cell) (h : Z) : M Z :=
  l <- cas lock LOCK_FREE LOCK_UPDATE;
  if l =? LOCK_UPDATE then cfail Hang
  else if l =? LOCK_RESIZE then
    ht_resize_help h;;
    tn <- load (h, H_table_new);
    if tn =? NULL then cfail Hang else cret 0
  else cret 1.

Definition LOCK_RLS (lock : cell) : M unit := store lock LOCK_FREE.
Definition TRYLOCK_ACQ (lock : cell) : M Z := tas_uint8 lock.
Definition TRYLOCK_RLS (lock : cell) : M unit := store lock LOCK_FREE.

(** The retry loop of [clht_put] and [clht_remove]: the locked bucket and its table. *)
Fixpoint lock_bucket_loop (n : nat) (h hashtable bucket key : Z) : M (Z * Z) :=
  match n with
  | O => cfail OutOfFuel
  | S n' =>
    r <- lock_acq_chk_resize (bucket, B_lock) hashtable;
    if r =? 0 then
      hashtable <- load (h, W_ht);
      bucket <- key_bucket hashtable key;
      lock_bucket_loop n' h hashtable bucket key
    else cret (hashtable, bucket)
  end.

(** ** Flushing a table with its overflow buckets *)

Fixpoint clflush_next_check (n : nat) (data len : Z) (fence : bool) : M unit :=
  match n with
  | O => cfail OutOfFuel
  | S n' =>
    (if fence then mfence else cret tt);;
    cfor (flush_ptrs data (i32 len)) (fun ptr =>
      flush_line ptr;;
      next <- load (ptr, B_next);
      if next =? NULL then cret tt
      else next <- load (ptr, B_next);
           clflush_next_check n' next sizeof_bucket_t false);;
    (if fence then mfence else cret tt)
  end.

(** ** Release of an old table ([clht_gc.c]) *)

Fixpoint release_chain (n : nat) (bucket : Z) : M unit :=
  if bucket =? NULL then cret tt
  else match n with
       | O => cfail OutOfFuel
       | S n' =>
         let cur := bucket in
         next <- load (bucket, B_next);
         t <- get_tls;
         ssmem_release (clht_alloc t) cur;;
         release_chain n' next
       end.

Definition clht_gc_release (hashtable : Z) : M Z :=
  num_buckets <- load (hashtable, H_num_buckets);
  cfor (seqZ 0 num_buckets) (fun bin =>
    table <- load (hashtable, H_table);
    next <- load (bucket_at table bin, B_next);
    n <- walk_bound;
    release_chain n next);;
  t <- get_tls;
  table <- load (hashtable, H_table);
  ssmem_release (clht_alloc t) table;;
  ssmem_release (clht_alloc t) hashtable;;
  cret 1.

(** ** Resizing *)

Definition set_check_ht_status_steps (v : Z) : M unit :=
  t <- get_tls;
  set_tls (mkTls (ssmem_ts_local t) (ssmem_num_allocators t) (ssmem_allocator_list t)
                 (clht_alloc t) (clht_ts_thread t) v).

(** The copying of all buckets, up to one the helper already holds. *)
Definition copy_buckets (ht_old ht_new : Z) : M unit :=
  num_buckets <- load (ht_old, H_num_buckets);
  _ <- cfor_ret (seqZ 0 num_buckets) (fun b =>
         table <- load (ht_old, H_table);
         ret <- bucket_cpy (bucket_at table b) ht_new;
         cret (if ret =? 0 then Some tt else None));
  cret tt.

(** The end of [ht_resize_pes]: the copied table is written back and published, the
    old one handed to the garbage collector. [status] is the [ht_status] called when
    the new table has already reached its own expansion threshold. *)
Definition resize_switch (status : Z -> Z -> bool -> M Z) (h ht_old ht_new num_buckets_new : Z) : M Z :=
  store (ht_new, H_table_prev) ht_old;;
  num_expands <- load (ht_new, H_num_expands);
  threshold <- load (ht_new, H_num_expands_threshold);
  let ht_resize_again := threshold <=? num_expands in
  mfence;;
  clflush ht_new sizeof_clht_hashtable_t false false;;
  table_new <- load (ht_new, H_table);
  n <- walk_bound;
  clflush_next_check n table_new (u64 (num_buckets_new * sizeof_bucket_t)) false;;
  mfence;;
  movnt64 (h, W_ht) ht_new false true;;
  store (ht_old, H_table_new) ht_new;;
  TRYLOCK_RLS (h, W_resize_lock);;
  clht_gc_release ht_old;;
  (if ht_resize_again then _ <- status h 1 false; cret tt else cret tt);;
  cret 1.

(** [ht_resize_pes]: allocation of the new table, the copying, and the switch. *)
Definition ht_resize_pes_with (status : Z -> Z -> bool -> M Z)
    (h : Z) (is_increase : bool) (by_ : Z) : M Z :=
  set_check_ht_status_steps CLHT_STATUS_INVOK;;
  ht_old <- load (h, W_ht);
  busy <- TRYLOCK_ACQ (h, W_resize_lock);
  if negb (busy =? 0) then cret 0
  else
    num_buckets <- load (ht_old, H_num_buckets);
    num_buckets_new <-
      (if is_increase then cret (u64 (by_ * num_buckets))
       else store (ht_old, H_is_helper) 0;; cret (num_buckets / CLHT_RATIO_HALVE));
    ht_new <- clht_hashtable_create num_buckets_new;
    version <- load (ht_old, H_version);
    store (ht_new, H_version) (u64 (version + 1));;
    store (ht_old, H_table_tmp) ht_new;;
    copy_buckets ht_old ht_new;;
    is_helper <- load (ht_old, H_is_helper);
    (if is_increase && negb (is_helper =? 1) then
       helper_done <- load (ht_old, H_helper_done);
       if helper_done =? 1 then cret tt else cfail Hang
     else cret tt);;
    resize_switch status h ht_old ht_new num_buckets_new.

(** ** Size and status *)

(** One chain: the number of used slots and of buckets. *)
Definition count_entry (bucket j size : Z) : M Z :=
  k <- load (bucket, B_key j);
  cret (if 0 <? k then size + 1 else size).

Fixpoint count_chain (n : nat) (bucket size len : Z) : M (Z * Z) :=
  match n with
  | O => cfail OutOfFuel
  | S n' =>
    size <- cfold entries (count_entry bucket) size;
    next <- load (bucket, B_next);
    if next =? NULL then cret (size, len + 1) else count_chain n' next size (len + 1)
  end.

Definition clht_size (hashtable : Z) : M Z :=
  num_buckets <- load (hashtable, H_num_buckets);
  cfold (seqZ 0 num_buckets) (fun bin size =>
    table <- load (hashtable, H_table);
    n <- walk_bound;
    '(size, _) <- count_chain n (bucket_at table bin) size 0;
    cret size) 0.

(** The counting loop of [ht_status]: elements, total and longest overflow. *)
Definition status_counts (hashtable : Z) : M (Z * Z * Z) :=
  num_buckets <- load (hashtable, H_num_buckets);
  cfold (seqZ 0 num_buckets) (fun bin acc =>
    let '(size, expands, expands_max) := acc in
    table <- load (hashtable, H_table);
    n <- walk_bound;
    '(size, len) <- count_chain n (bucket_at table bin) size 0;
    let expands_cont := len - 1 in
    cret (size, expands + len - 1, if expands_max <? expands_cont then expands_cont else expands_max))
    (0, 0, 0).

(** [full_ratio = 100.0 * size / (num_buckets * ENTRIES_PER_BUCKET)], a [double],
    is compared with small integers and divided by one. It is kept as the exact
    fraction 100 size / (3 num_buckets): for sizes and bucket counts below 2^40 the
    rounding error of the quotient is smaller than its distance to any integer it is
    compared with, so the tests and the truncated quotient below agree with the
    floating-point ones. *)
Definition ratio_num (size : Z) : Z := 100 * size.
Definition ratio_den (num_buckets : Z) : Z := num_buckets * ENTRIES_PER_BUCKET.

Definition should_halve (size num_buckets : Z) : bool :=
  (0 <? ratio_num size) && (ratio_num size <? CLHT_PERC_FULL_HALVE * ratio_den num_buckets).

Definition should_grow (size num_buckets expands_max resize_increase : Z) : bool :=
  ((0 <? ratio_num size) && (CLHT_PERC_FULL_DOUBLE * ratio_den num_buckets <? ratio_num size))
  || (CLHT_MAX_EXPANSIONS <? expands_max)
  || negb (resize_increase =? 0).

(** [inc_by = full_ratio / CLHT_OCCUP_AFTER_RES], rounded up to a power of two, at least 2. *)
Definition inc_by_pow2 (size num_buckets : Z) : Z :=
  let inc_by := i32 (ratio_num size / (CLHT_OCCUP_AFTER_RES * ratio_den num_buckets)) in
  let p := i32 (pow2roundup (u64 inc_by)) in
  if p =? 1 then 2 else p.

(** [clht_gc_collect] with [CLHT_DO_GC == 0]. *)
Definition clht_gc_collect (h : Z) : M Z := cret 0.

(** [depth] bounds the nesting of resizes started by a resize. *)
Fixpoint ht_status (depth : nat) (h resize_increase : Z) (just_print : bool) : M Z :=
  match depth with
  | O => cfail OutOfFuel
  | S depth' =>
    busy <- TRYLOCK_ACQ (h, W_status_lock);
    if negb (busy =? 0) && (resize_increase =? 0) then cret 0
    else
      hashtable <- load (h, W_ht);
      num_buckets <- load (hashtable, H_num_buckets);
      '(size, _, expands_max) <- status_counts hashtable;
      (if just_print then cret tt
       else
         (if should_halve size num_buckets then
            _ <- ht_resize_pes_with (ht_status depth') h false 33; cret tt
          else if should_grow size num_buckets expands_max resize_increase then
            _ <- ht_resize_pes_with (ht_status depth') h true (inc_by_pow2 size num_buckets); cret tt
          else cret tt);;
         _ <- clht_gc_collect h; cret tt);;
      TRYLOCK_RLS (h, W_status_lock);;
      cret size
  end.

Definition ht_resize_pes (depth : nat) (h : Z) (is_increase : bool) (by_ : Z) : M Z :=
  ht_resize_pes_with (ht_status depth) h is_increase by_.

(** ** Insertion and removal *)

(** One bucket of the insertion scan: [None] if the key was found, else the first
    empty slot seen so far. *)
Definition put_entry (bucket key j : Z) (acc : option (option (Z * Z))) : M (option (option (Z * Z))) :=
  match acc with
  | None => cret None
  | Some empty =>
    k <- load (bucket, B_key j);
    if k =? key then cret None
    else
      match empty with
      | Some _ => cret (Some empty)
      | None => k <- load (bucket, B_key j);
                cret (Some (if k =? 0 then Some (bucket, j) else None))
      end
  end.

(** Writing the entry: into a new bucket linked at the end, or into the empty slot.
    The value is persistent before the key or the link that publishes it. *)
Definition put_write (hashtable bucket : Z) (empty : option (Z * Z)) (key val : Z) : M bool :=
  match empty with
  | None =>
    '(b, resize) <- clht_bucket_create_stats hashtable;
    store (b, B_val 0) val;;
    store (b, B_key 0) key;;
    clflush b sizeof_bucket_t false true;;
    movnt64 (bucket, B_next) b false true;;
    cret resize
  | Some (eb, ej) =>
    store (eb, B_val ej) val;;
    clflush (addr_of (eb, B_val ej)) 8 false true;;
    movnt64 (eb, B_key ej) key false true;;
    cret false
  end.

(** The insertion loop: [None] if the key is present, else whether to resize. *)
Fixpoint put_loop (n : nat) (hashtable bucket : Z) (empty : option (Z * Z)) (key val : Z)
  : M (option bool) :=
  match n with
  | O => cfail OutOfFuel
  | S n' =>
    acc <- cfold entries (put_entry bucket key) (Some empty);
    match acc with
    | None => cret None
    | Some empty =>
      next <- load (bucket, B_next);
      if next =? NULL then r <- put_write hashtable bucket empty key val; cret (Some r)
      else next <- load (bucket, B_next); put_loop n' hashtable next empty key val
    end
  end.

(** Nested resizes allowed from one insertion; the theorems on resizing show that
    none is ever nested. *)
Definition status_depth : nat := 3.

(** Insert a key-value entry into a hash table. *)
Definition clht_put (h key val : Z) : M bool :=
  hashtable <- load (h, W_ht);
  bucket <- key_bucket hashtable key;
  exists_ <- bucket_exists bucket key;
  if exists_ : bool then cret false
  else
    n <- walk_bound;
    '(hashtable, bucket) <- lock_bucket_loop n h hashtable bucket key;
    n <- walk_bound;
    r <- put_loop n hashtable bucket None key val;
    LOCK_RLS (bucket, B_lock);;
    match r with
    | None => cret false
    | Some resize =>
      (if resize : bool then _ <- ht_status status_depth h 1 false; cret tt else cret tt);;
      cret true
    end.

Definition remove_entry (bucket key j : Z) : M (option Z) :=
  k <- load (bucket, B_key j);
  if k =? key then
    val <- load (bucket, B_val j);
    movnt64 (bucket, B_key j) 0 true true;;
    cret (Some val)
  else cret None.

Fixpoint remove_loop (n : nat) (bucket key : Z) : M Z :=
  match n with
  | O => cfail OutOfFuel
  | S n' =>
    r <- cfor_ret entries (remove_entry bucket key);
    match r with
    | Some val => cret val
    | None =>
      next <- load (bucket, B_next);
      if next =? NULL then cret 0 else remove_loop n' next key
    end
  end.

(** Remove a key-value entry from a hash table. *)
Definition clht_remove (h key : Z) : M Z :=
  hashtable <- load (h, W_ht);
  bucket <- key_bucket hashtable key;
  exists_ <- bucket_exists bucket key;
  if negb exists_ then cret 0
  else
    n <- walk_bound;
    '(_, bucket) <- lock_bucket_loop n h hashtable bucket key;
    n <- walk_bound;
    val <- remove_loop n bucket key;
    LOCK_RLS (bucket, B_lock);;
    cret val.

(** ** Memory footprint and recovery *)

(** The size of a pointer, 8 bytes, plus the buckets. *)
Definition clht_size_mem (h : Z) : M Z :=
  if h =? NULL then cret 0
  else
    num_buckets <- load (h, H_num_buckets);
    num_expands <- load (h, H_num_expands);
    cret (u64 (8 + (num_buckets + num_expands) * sizeof_bucket_t)).

Fixpoint size_mem_garbage_loop (n : nat) (cur size_tot : Z) : M Z :=
  if cur =? NULL then cret size_tot
  else match n with
       | O => cfail OutOfFuel
       | S n' =>
         sz <- clht_size_mem cur;
         prev <- load (cur, H_table_prev);
         size_mem_garbage_loop n' prev (u64 (size_tot + sz))
       end.

Definition clht_size_mem_garbage (h : Z) : M Z :=
  if h =? NULL then cret 0
  else cur <- load (h, H_table_prev); n <- walk_bound; size_mem_garbage_loop n cur 0.

Fixpoint unlock_chain (n : nat) (next : Z) : M unit :=
  if next =? NULL then cret tt
  else match n with
       | O => cfail OutOfFuel
       | S n' => store (next, B_lock) LOCK_FREE;;
                 nn <- load (next, B_next);
                 unlock_chain n' nn
       end.

(** Run after a crash: every lock of the current table is reset. The counter of the buckets is an
    [int], which overflows behind the bucket 2^31 - 1. *)
Definition clht_lock_initialization (h : Z) : M unit :=
  ht <- load (h, W_ht);
  store (h, W_resize_lock) LOCK_FREE;;
  store (h, W_status_lock) LOCK_FREE;;
  store (h, W_gc_lock) LOCK_FREE;;
  num_buckets <- load (ht, H_num_buckets);
  cfor (seqZ 0 (Z.min num_buckets (2 ^ 31))) (fun i =>
    table <- load (ht, H_table);
    store (bucket_at table i, B_lock) LOCK_FREE;;
    next <- load (bucket_at table i, B_next);
    n <- walk_bound;
    unlock_chain n next);;
  if num_buckets <? 2 ^ 31 then cret tt else cfail UB_overflow.

End Clht.
