(* ===== verification/ClhtGc.v ===== *)
(** * Version lists and reclamation of old tables ([P-CLHT/src/clht_gc.c])

    Threads register the table version they use; a collection frees every version
    older than all of them. [clht_gc_release], which [ht_resize_pes] calls, is in
    [Clht.v]. *)

From S2P Require Import Prelude Memory Ssmem Clht.

Section Gc.
Context `{Malloc}.

Definition set_clht_alloc (a : Z) : M unit :=
  t <- get_tls;
  set_tls (mkTls (ssmem_ts_local t) (ssmem_num_allocators t) (ssmem_allocator_list t)
                 a (clht_ts_thread t) (check_ht_status_steps t)).

Definition set_clht_ts_thread (ts : Z) : M unit :=
  t <- get_tls;
  set_tls (mkTls (ssmem_ts_local t) (ssmem_num_allocators t) (ssmem_allocator_list t)
                 (clht_alloc t) ts (check_ht_status_steps t)).

(** [sizeof(ssmem_allocator_t)] *)
Definition sizeof_ssmem_allocator_t : Z := 128.

(** Initialize thread metadata for GC. *)
Definition clht_gc_thread_init (h id : Z) : M unit :=
  a <- memalign sizeof_ssmem_allocator_t;
  set_clht_alloc a;;
  cassert (negb (a =? NULL));;
  ssmem_alloc_init_fs_size a SSMEM_DEFAULT_MEM_SIZE SSMEM_GC_FREE_SET_SIZE id;;
  ts <- memalign sizeof_ht_ts_t;
  cassert (negb (ts =? NULL));;
  ht <- load (h, W_ht);
  version <- load (ht, H_version);
  store (ts, T_version) version;;
  store (ts, T_id) id;;
  hd <- load (h, W_version_list);
  store (ts, T_next) hd;;
  old <- cas (h, W_version_list) hd ts;
  (* a failed CAS would retry; no other thread runs *)
  (if old =? hd then cret tt else cfail Hang);;
  set_clht_ts_thread ts.

(** Set the version currently used by the current thread. *)
Definition clht_gc_thread_version (h : Z) : M unit :=
  t <- get_tls;
  version <- load (h, H_version);
  store (clht_ts_thread t, T_version) version.

(** No ongoing update operation: the largest [size_t]. *)
Definition clht_gc_thread_version_max : M unit :=
  t <- get_tls;
  store (clht_ts_thread t, T_version) (u64 (-1)).

Definition clht_gc_get_id : M Z :=
  t <- get_tls;
  load (clht_ts_thread t, T_id).

(** The smallest version used by any registered thread. *)
Fixpoint min_version_loop (n : nat) (cur min : Z) : M Z :=
  if cur =? NULL then cret min
  else match n with
       | O => cfail OutOfFuel
       | S n' =>
         v <- load (cur, T_version);
         nxt <- load (cur, T_next);
         min_version_loop n' nxt (if v <? min then v else min)
       end.

Definition clht_gc_min_version_used (h : Z) : M Z :=
  cur <- load (h, W_version_list);
  ht <- load (h, W_ht);
  min <- load (ht, H_version);
  n <- walk_bound;
  min_version_loop n cur min.

(** Free the overflow buckets of one bin. *)
Fixpoint free_chain (n : nat) (bucket : Z) : M unit :=
  if bucket =? NULL then cret tt
  else match n with
       | O => cfail OutOfFuel
       | S n' =>
         next <- load (bucket, B_next);
         free bucket;;
         free_chain n' next
       end.

(** Free the given hashtable. *)
Definition clht_gc_free (hashtable : Z) : M Z :=
  num_buckets <- load (hashtable, H_num_buckets);
  cfor (seqZ 0 num_buckets) (fun bin =>
    table <- load (hashtable, H_table);
    next <- load (bucket_at table bin, B_next);
    n <- walk_bound;
    free_chain n next);;
  table <- load (hashtable, H_table);
  free table;;
  free hashtable;;
  cret 1.

(** Free the versions from [cur] up to [version_min]; the first one kept and the
    number freed. *)
Fixpoint collect_loop (n : nat) (cur version_min gced_num : Z) : M (Z * Z) :=
  if cur =? NULL then cret (cur, gced_num)
  else
    v <- load (cur, H_version);
    if v <? version_min then
      match n with
      | O => cfail OutOfFuel
      | S n' =>
        nxt <- load (cur, H_table_new);
        store (nxt, H_table_prev) NULL;;
        _ <- clht_gc_free cur;
        collect_loop n' nxt version_min (gced_num + 1)
      end
    else cret (cur, gced_num).

Definition clht_gc_collect_cond (h : Z) (collect_not_referenced_only : bool) : M Z :=
  version_min0 <- load (h, W_version_min);
  ht <- load (h, W_ht);
  version <- load (ht, H_version);
  nothing <- (if version <=? version_min0 then cret true
              else busy <- TRYLOCK_ACQ (h, W_gc_lock); cret (negb (busy =? 0)));
  if nothing : bool then cret 0
  else
    version_min <- (if collect_not_referenced_only then clht_gc_min_version_used h else cret version);
    if version_min <=? version_min0 then
      TRYLOCK_RLS (h, W_gc_lock);; cret 0
    else
      cur <- load (h, W_ht_oldest);
      n <- walk_bound;
      '(cur, gced_num) <- collect_loop n cur version_min 0;
      v <- load (cur, H_version);
      store (h, W_version_min) v;;
      store (h, W_ht_oldest) cur;;
      TRYLOCK_RLS (h, W_gc_lock);;
      cret gced_num.

Definition clht_gc_collect_all (h : Z) : M Z := clht_gc_collect_cond h false.

(** Free all versions, including the latest. *)
Definition clht_gc_destroy (h : Z) : M unit :=
  _ <- clht_gc_collect_all h;
  ht <- load (h, W_ht);
  _ <- clht_gc_free ht;
  free h;;
  t <- get_tls;
  free (clht_alloc t).

End Gc.
