(* ===== verification/ClhtRep.v ===== *)
(** * Representation of a P-CLHT table

    A table is a power-of-two array of bucket chains. [table_rep s ht t n lay] says
    that the object at [ht] describes such a table in state [s]: [t] is the bucket
    array, [n] its length and [lay] the addresses of the buckets of every chain.
    The used slots of all chains are its [content]; as a finite map this is the
    abstract value [amap] the operations are specified against. The read-only
    operations are shown to return what the map says. *)

From S2P Require Import Prelude Memory Ssmem Clht.

(** ** Slots, chains and content *)

Definition slot (s : state) (b j : Z) : Z * Z := (rd s (b, B_key j), rd s (b, B_val j)).
Definition bslots (s : state) (b : Z) : list (Z * Z) := slot s b <$> entries.
Definition cslots (s : state) (l : list Z) : list (Z * Z) := l ≫= bslots s.

(** The buckets reached from [b] by [next] are those of [l]. *)
Fixpoint chain (s : state) (b : Z) (l : list Z) : Prop :=
  match l with
  | [] => b = NULL
  | a :: l' => b = a /\ chain s (rd s (a, B_next)) l'
  end.

(** An entry in use has a non-zero key. *)
Definition used (kv : Z * Z) : Prop := kv.1 ≠ 0.
#[export] Instance used_dec kv : Decision (used kv).
Proof. unfold used. apply _. Defined.

Definition ccontent (s : state) (l : list Z) : list (Z * Z) := filter used (cslots s l).
Definition content (s : state) (lay : list (list Z)) : list (Z * Z) := lay ≫= ccontent s.
Definition amap (s : state) (lay : list (list Z)) : gmap Z Z := list_to_map (content s lay).

(** The first slot holding a key. *)
Fixpoint find_key (k : Z) (l : list (Z * Z)) : option Z :=
  match l with
  | [] => None
  | (k', v) :: l' => if k' =? k then Some v else find_key k l'
  end.

(** ** Well-formedness *)

Definition ok_bucket (o : gmap Z Z) (b : Z) : Prop :=
  aligned b /\ b < 2 ^ 64 /\ is_Some (o !! line b).

(** A two-line object (a [clht_hashtable_t] or a [clht_t]). *)
Definition ok_obj (o : gmap Z Z) (p : Z) : Prop :=
  aligned p /\ p < 2 ^ 64 /\ is_Some (o !! line p) /\ is_Some (o !! (line p + 1)).

Definition placed (n : Z) (i : nat) (kv : Z * Z) : Prop :=
  used kv -> 0 < kv.1 < 2 ^ 64 /\ Z.land kv.1 (n - 1) = Z.of_nat i.

Record table_rep (s : state) (ht t n : Z) (lay : list (list Z)) : Prop := {
  tr_ht : ok_obj (owner s) ht;
  tr_n : exists k, 0 <= k < 58 /\ n = 2 ^ k;
  tr_num : rd s (ht, H_num_buckets) = n;
  tr_table : rd s (ht, H_table) = t;
  tr_hash : rd s (ht, H_hash) = n - 1;
  tr_len : length lay = Z.to_nat n;
  tr_chain : forall i l, lay !! i = Some l ->
    hd_error l = Some (bucket_at t (Z.of_nat i)) /\ chain s (bucket_at t (Z.of_nat i)) l;
  tr_nodup : NoDup (concat lay);
  tr_ok : Forall (ok_bucket (owner s)) (concat lay);
  tr_place : forall i l, lay !! i = Some l -> Forall (placed n i) (cslots s l);
  tr_keys : NoDup (content s lay).*1;
}.

(** The bucket locks of a table nobody is updating or resizing. *)
Definition unlocked (s : state) (lay : list (list Z)) : Prop :=
  Forall (fun l => match l with b :: _ => rd s (b, B_lock) = LOCK_FREE | [] => True end) lay.

(** ** Liveness of fields *)

Definition bucket_fld (f : fld) : bool :=
  match f with
  | B_lock | B_hops | B_next => true
  | B_key j | B_val j => (0 <=? j) && (j <=? 2)
  | _ => false
  end.

Lemma ok_live o b f : ok_bucket o b -> bucket_fld f = true -> live o (addr_of (b, f)) = true.
Proof.
  intros ([_ Ha] & _ & Hl) Hf. rewrite live_spec. unfold addr_of. simpl.
  rewrite line_base; [done..|]. destruct f; simpl in *; try discriminate; lia.
Qed.

Lemma ok_obj_live o p f :
  ok_obj o p -> 0 <= fld_off f < 128 -> live o (addr_of (p, f)) = true.
Proof.
  intros ([_ Ha] & _ & H1 & H2) Hf. rewrite live_spec. unfold addr_of. simpl.
  rewrite line_add by done. destruct (Z.lt_ge_cases (fld_off f) 64).
  - replace (line (fld_off f)) with 0; [now rewrite Z.add_0_r|].
    unfold line, CACHE_LINE_SIZE. rewrite Z.div_small; lia.
  - replace (line (fld_off f)) with 1; [done|].
    unfold line, CACHE_LINE_SIZE. Z.div_mod_to_equations. lia.
Qed.

(** Close the goal that a field of a known object is live. *)
Ltac field_live :=
  first [ eapply ok_live; [eassumption | first [reflexivity | eassumption]]
        | eapply ok_obj_live; [eassumption | simpl; lia] ].

(** Execute the load or store of a live field at the head of a computation. *)
Ltac do_load :=
  match goal with
  | |- context [cbind (load ?c) _ ?s] =>
    rewrite (cbind_Ok (load c) _ s _ _ (load_ok s c ltac:(field_live)))
  end.
Ltac do_store :=
  match goal with
  | |- context [cbind (store ?c ?v) _ ?s] =>
    rewrite (cbind_Ok (store c v) _ s _ _ (store_ok s c v ltac:(field_live)))
  end.

Ltac do_ret :=
  match goal with
  | |- context [cbind (cret ?a) _ ?s] => rewrite (cbind_Ok (cret a) _ s a s eq_refl)
  | |- context [cbind walk_bound _ ?s] => rewrite (cbind_Ok walk_bound _ s _ s eq_refl)
  | |- context [cbind (cbind ?m ?k) ?h ?s] => rewrite (cbind_assoc m k h s)
  end.

(** Fences and 8-byte non-temporal stores. *)
Ltac base_aligned :=
  cbn [fst];
  match goal with
  | H : ok_bucket _ ?b |- aligned ?b => exact (proj1 H)
  | H : ok_obj _ ?b |- aligned ?b => exact (proj1 H)
  end.
Ltac do_movnt :=
  match goal with
  | |- context [cbind mfence _ ?s] => rewrite (cbind_Ok mfence _ s tt _ eq_refl)
  | |- context [cbind (movnt64 ?c ?v ?f ?b) _ ?s] =>
    rewrite (cbind_Ok _ _ s _ _ (movnt64_ok s c v f b ltac:(base_aligned)
               ltac:(simpl; Z.div_mod_to_equations; lia) ltac:(field_live)));
    cbn [app]
  end.

(** Execute loads, stores and returns as far as they go. *)
Ltac run := repeat first [do_ret | do_load | do_store | do_movnt].

(** ** Lists of slots *)

Lemma find_key_app k l1 l2 :
  find_key k (l1 ++ l2) = match find_key k l1 with Some v => Some v | None => find_key k l2 end.
Proof.
  induction l1 as [|[k' v] l1 IH]; [reflexivity|]. simpl. now destruct (k' =? k).
Qed.

Lemma find_key_None k l : find_key k l = None <-> k ∉ l.*1.
Proof.
  induction l as [|[k' v] l IH]; simpl; [set_solver|].
  destruct (Z.eqb_spec k' k) as [->|Hn]; [split; [discriminate|set_solver]|].
  rewrite IH. set_solver.
Qed.

Lemma find_key_elem k v l : find_key k l = Some v -> (k, v) ∈ l.
Proof.
  induction l as [|[k' v'] l IH]; simpl; [discriminate|].
  destruct (Z.eqb_spec k' k) as [->|Hn]; [intros [= ->]|]; set_solver.
Qed.

Lemma find_key_list_to_map k l : (list_to_map l : gmap Z Z) !! k = find_key k l.
Proof.
  induction l as [|[k' v'] l IH]; simpl; [done|].
  rewrite lookup_insert, IH. destruct (Z.eqb_spec k' k); case_decide; congruence.
Qed.

Lemma find_key_filter k l : k ≠ 0 -> find_key k (filter used l) = find_key k l.
Proof.
  intros Hk. induction l as [|[k' v'] l IH]; [done|].
  destruct (decide (used (k', v'))) as [Hu|Hu].
  - rewrite filter_cons_True by done. simpl. now rewrite IH.
  - rewrite filter_cons_False by done. simpl.
    assert (k' = 0) by (unfold used in Hu; simpl in Hu; lia).
    destruct (Z.eqb_spec k' k); [lia|done].
Qed.

Lemma cslots_cons s b l : cslots s (b :: l) = bslots s b ++ cslots s l.
Proof. reflexivity. Qed.

Lemma cslots_app s l1 l2 : cslots s (l1 ++ l2) = cslots s l1 ++ cslots s l2.
Proof. apply bind_app. Qed.

Lemma content_app s l1 l2 : content s (l1 ++ l2) = content s l1 ++ content s l2.
Proof. apply bind_app. Qed.

Lemma content_cons s l lay : content s (l :: lay) = ccontent s l ++ content s lay.
Proof. reflexivity. Qed.

Lemma content_middle s lay1 l lay2 :
  content s (lay1 ++ l :: lay2) ≡ₚ ccontent s l ++ content s (lay1 ++ lay2).
Proof.
  rewrite !content_app, content_cons. rewrite !(Permutation_app_comm (content s lay1)).
  now rewrite app_assoc.
Qed.

(** ** Frames: states that agree on the cells of some buckets *)

Definition same_bucket (s s' : state) (b : Z) : Prop :=
  bslots s' b = bslots s b /\ rd s' (b, B_next) = rd s (b, B_next).

Lemma same_bucket_refl s b : same_bucket s s b.
Proof. done. Qed.

Lemma same_bucket_trans s1 s2 s3 b :
  same_bucket s1 s2 b -> same_bucket s2 s3 b -> same_bucket s1 s3 b.
Proof. intros [H1 H2] [H3 H4]. split; congruence. Qed.

Lemma same_bucket_rd s s' b :
  (forall f, bucket_fld f = true -> f ≠ B_lock -> rd s' (b, f) = rd s (b, f)) -> same_bucket s s' b.
Proof.
  intros Hrd. split; [|now apply Hrd].
  unfold bslots, entries, slot. simpl. now rewrite !Hrd by done.
Qed.

Lemma cslots_frame s s' l :
  (forall b, b ∈ l -> same_bucket s s' b) -> cslots s' l = cslots s l.
Proof.
  induction l as [|b l IH]; intros Hs; [done|]. rewrite !cslots_cons.
  rewrite IH by set_solver. f_equal. apply Hs. set_solver.
Qed.

Lemma chain_frame s s' b l :
  (forall b, b ∈ l -> same_bucket s s' b) -> chain s b l -> chain s' b l.
Proof.
  revert b. induction l as [|a l IH]; intros b Hs; [done|]. simpl. intros [-> Hc].
  split; [done|]. destruct (Hs a) as [_ ->]; [set_solver|]. apply IH; set_solver.
Qed.

Lemma content_frame s s' lay :
  (forall b, b ∈ concat lay -> same_bucket s s' b) -> content s' lay = content s lay.
Proof.
  induction lay as [|l lay IH]; intros Hs; [done|]. rewrite !content_cons, IH by set_solver.
  unfold ccontent. rewrite (cslots_frame s s'); [done|set_solver].
Qed.

Lemma ok_bucket_mono (o o' : gmap Z Z) b :
  (forall l, is_Some (o !! l) -> is_Some (o' !! l)) -> ok_bucket o b -> ok_bucket o' b.
Proof. intros Ho (? & ? & ?). repeat split; try apply H; eauto. Qed.

Lemma ok_obj_mono (o o' : gmap Z Z) p :
  (forall l, is_Some (o !! l) -> is_Some (o' !! l)) -> ok_obj o p -> ok_obj o' p.
Proof. intros Ho ([? ?] & ? & ? & ?). repeat split; eauto. Qed.

(** The header fields the representation reads. *)
Definition same_header (s s' : state) (ht : Z) : Prop :=
  rd s' (ht, H_num_buckets) = rd s (ht, H_num_buckets) /\
  rd s' (ht, H_table) = rd s (ht, H_table) /\ rd s' (ht, H_hash) = rd s (ht, H_hash).

Lemma table_rep_frame s s' ht t n lay :
  table_rep s ht t n lay -> same_header s s' ht -> owner_grows s s' ->
  (forall b, b ∈ concat lay -> same_bucket s s' b) -> table_rep s' ht t n lay.
Proof.
  intros [] (Hh1 & Hh2 & Hh3) Ho Hs. split; try done; try congruence.
  - eauto using ok_obj_mono.
  - intros i l Hl. destruct (tr_chain0 i l Hl) as [? ?]. split; [done|].
    apply chain_frame with s; [|done]. intros b Hb. eauto using elem_of_concat_lookup.
  - eapply list.Forall_impl; [exact tr_ok0|]. eauto using ok_bucket_mono.
  - intros i l Hl. rewrite (cslots_frame s s'); [eauto|]. intros b Hb. eauto using elem_of_concat_lookup.
  - now rewrite (content_frame s s').
Qed.

(** ** Consequences of [table_rep] *)

Lemma chain_head s b l : chain s b l -> b ≠ NULL -> exists l', l = b :: l'.
Proof. destruct l as [|a l]; simpl; [done|]. intros [-> _] _. eauto. Qed.

Lemma table_rep_pos s ht t n lay : table_rep s ht t n lay -> 0 < n < 2 ^ 58.
Proof.
  intros [_ (k & Hk & ->) _ _ _ _ _ _ _ _ _].
  split; [apply pow2_pos; lia|apply Z.pow_lt_mono_r; lia].
Qed.

Lemma table_rep_bin s ht t n lay key :
  table_rep s ht t n lay -> 0 <= Z.land key (n - 1) < n.
Proof.
  intros [_ (k & Hk & ->) _ _ _ _ _ _ _ _ _]. rewrite land_pow2_pred by lia.
  apply Z.mod_pos_bound. auto using pow2_pos with lia.
Qed.

(** The chain of a key's bin. *)
Lemma table_rep_key_chain s ht t n lay key :
  table_rep s ht t n lay ->
  exists i l, i = Z.to_nat (Z.land key (n - 1)) /\ lay !! i = Some l /\
    bucket_at t (Z.land key (n - 1)) = bucket_at t (Z.of_nat i) /\
    chain s (bucket_at t (Z.of_nat i)) l /\
    hd_error l = Some (bucket_at t (Z.of_nat i)) /\
    Forall (ok_bucket (owner s)) l /\ NoDup l.
Proof.
  intros R. pose proof (table_rep_bin s ht t n lay key R) as Hb. destruct R.
  set (i := Z.to_nat (Z.land key (n - 1))).
  destruct (lookup_lt_is_Some_2 lay i) as [l Hl]; [subst i; lia|].
  exists i, l. destruct (tr_chain0 i l Hl) as [Hh Hc].
  assert (Hsub : exists l1 l2, concat lay = l1 ++ l ++ l2).
  { exists (concat (take i lay)), (concat (drop (S i) lay)).
    rewrite <- (take_drop_middle lay i l Hl) at 1. now rewrite concat_app. }
  destruct Hsub as (l1 & l2 & E). rewrite E in *.
  repeat split; try done.
  - subst i. rewrite Z2Nat.id; [done|lia].
  - rewrite !Forall_app in tr_ok0. tauto.
  - apply list.NoDup_app in tr_nodup0 as (_ & _ & H1). apply list.NoDup_app in H1. tauto.
Qed.

(** A bin's chain is what a key is looked up in. *)
Lemma table_rep_find s ht t n lay key i l :
  table_rep s ht t n lay -> key ≠ 0 -> i = Z.to_nat (Z.land key (n - 1)) -> lay !! i = Some l ->
  find_key key (cslots s l) = amap s lay !! key.
Proof.
  intros R Hk Hi Hl. unfold amap. rewrite find_key_list_to_map.
  rewrite <- (find_key_filter key (cslots s l)) by done. fold (ccontent s l).
  rewrite <- (take_drop_middle lay i l Hl) at 1.
  rewrite content_app, content_cons, !find_key_app.
  assert (Hother : forall j l', lay !! j = Some l' -> j ≠ i -> key ∉ (ccontent s l').*1).
  { intros j l' Hj Hji Hin. apply list_elem_of_fmap in Hin as [[k v] [-> Hin]].
    apply list_elem_of_filter in Hin as [Hu Hin].
    pose proof (tr_place _ _ _ _ _ R j l' Hj) as Hp. rewrite list.Forall_forall in Hp.
    destruct (Hp _ Hin Hu) as [_ Hp']. simpl in *. pose proof (table_rep_bin _ _ _ _ _ k R). lia. }
  assert (Hnone : forall ls, (forall l', l' ∈ ls -> key ∉ (ccontent s l').*1) ->
                             find_key key (content s ls) = None).
  { intros ls Hls. apply find_key_None. unfold content. rewrite fmap_bind_list.
    rewrite list_elem_of_bind. intros (l' & Hin & Hl'). exact (Hls _ Hl' Hin). }
  rewrite (Hnone (take i lay)), (Hnone (drop (S i) lay)).
  - now destruct (find_key key (ccontent s l)).
  - intros l' Hl'. apply list_elem_of_lookup in Hl' as [j Hj]. rewrite lookup_drop in Hj.
    apply (Hother (S i + j)%nat); [done|lia].
  - intros l' Hl'. apply list_elem_of_lookup in Hl' as [j Hj].
    apply lookup_take_Some in Hj as [Hj Hlt]. apply (Hother j); [done|lia].
Qed.

(** No chain is longer than the bound the walks use. *)
Lemma chain_bound o l : NoDup l -> Forall (ok_bucket o) l -> (length l <= size o)%nat.
Proof.
  intros Hnd Hok. rewrite <- size_dom.
  assert (Hnl : NoDup (line <$> l)).
  { apply NoDup_fmap_2_strong; [|done]. intros x y Hx Hy E.
    rewrite list.Forall_forall in Hok. apply Hok in Hx as ([_ ?] & _), Hy as ([_ ?] & _).
    now apply line_inj. }
  rewrite <- (length_fmap line), <- (size_list_to_set (C := gset Z)) by done.
  apply subseteq_size. intros x Hx. apply elem_of_list_to_set, list_elem_of_fmap in Hx.
  destruct Hx as (b & -> & Hb). apply elem_of_dom.
  rewrite list.Forall_forall in Hok. now apply Hok.
Qed.

(** ** Reading a chain *)

Lemma first_some_slots {R} (f : Z -> Z -> option R) s b :
  first_some (fun j => f (rd s (b, B_key j)) (rd s (b, B_val j))) entries =
  first_some (fun kv => f kv.1 kv.2) (bslots s b).
Proof. reflexivity. Qed.

Lemma first_some_find key l :
  first_some (fun kv : Z * Z => if kv.1 =? key then Some kv.2 else None) l = find_key key l.
Proof. induction l as [|[k v] l IH]; [done|]. simpl. rewrite IH. now destruct (k =? key). Qed.

Lemma entries_fld j : j ∈ entries -> bucket_fld (B_key j) = true /\ bucket_fld (B_val j) = true.
Proof. unfold entries. intros H. set_unfold in H. now destruct H as [->|[->|[->|[]]]]. Qed.

Lemma get_bucket_ok s b key :
  ok_bucket (owner s) b ->
  cfor_ret entries (get_entry b key) s = Ok (find_key key (bslots s b), s).
Proof.
  intros Hb. rewrite <- first_some_find,
    <- (first_some_slots (fun k v => if k =? key then Some v else None)).
  apply cfor_ret_pure. intros j Hj. apply entries_fld in Hj as [Hk Hv].
  unfold get_entry. rewrite (cbind_Ok _ _ _ _ _ (load_ok _ _ (ok_live _ _ _ Hb Hv))).
  rewrite (cbind_Ok _ _ _ _ _ (load_ok _ _ (ok_live _ _ _ Hb Hk))).
  destruct (_ =? key); [|done].
  rewrite (cbind_Ok _ _ _ _ _ (load_ok _ _ (ok_live _ _ _ Hb Hv))). now rewrite Z.eqb_refl.
Qed.

Lemma exists_bucket_ok s b key :
  ok_bucket (owner s) b ->
  cfor_ret entries (key_match b key) s = Ok (match find_key key (bslots s b) with Some _ => Some tt | None => None end, s).
Proof.
  intros Hb. erewrite cfor_ret_pure with
    (f := fun j => if rd s (b, B_key j) =? key then Some tt else None).
  - do 2 f_equal. unfold bslots, entries, slot. simpl.
    destruct (_ =? key); [done|]. destruct (_ =? key); [done|]. now destruct (_ =? key).
  - intros j Hj. apply entries_fld in Hj as [Hk _]. unfold key_match.
    now rewrite (cbind_Ok _ _ _ _ _ (load_ok _ _ (ok_live _ _ _ Hb Hk))).
Qed.

Lemma ok_bucket_nonnull o b : ok_bucket o b -> (b =? NULL) = false.
Proof. intros ([? _] & _). unfold NULL. lia. Qed.

(** The head of a non-empty chain in a live state: its bucket, and the rest. *)
Lemma chain_next s b l :
  chain s b l -> l ≠ [] -> Forall (ok_bucket (owner s)) l ->
  exists l', l = b :: l' /\ ok_bucket (owner s) b /\ chain s (rd s (b, B_next)) l' /\
    Forall (ok_bucket (owner s)) l' /\
    (rd s (b, B_next) =? NULL) = bool_decide (l' = []).
Proof.
  destruct l as [|a l]; [done|]. simpl. intros [-> Hc] _ Hok.
  apply Forall_cons_1 in Hok as [Ha Hl]. exists l. repeat split; try apply Ha; try done.
  destruct l as [|a' l]; simpl in Hc.
  - now rewrite Hc.
  - destruct Hc as [-> _]. apply Forall_cons_1 in Hl as [Ha' _].
    now rewrite (ok_bucket_nonnull _ _ Ha').
Qed.

Lemma get_loop_ok n s b l key :
  chain s b l -> l ≠ [] -> Forall (ok_bucket (owner s)) l -> (length l <= n)%nat ->
  clht_get_loop n b key s = Ok (default 0 (find_key key (cslots s l)), s).
Proof.
  revert b l. induction n as [|n IH]; intros b l Hc Hne Hok Hlen.
  { destruct l; [done|simpl in Hlen; lia]. }
  destruct (chain_next _ _ _ Hc Hne Hok) as (l' & -> & Hb & Hc' & Hok' & Hnull).
  cbn [clht_get_loop]. rewrite (cbind_Ok _ _ _ _ _ (get_bucket_ok _ _ _ Hb)), cslots_cons, find_key_app.
  destruct (find_key key (bslots s b)); [done|]. do_load. rewrite Hnull. case_bool_decide as Hn.
  - now subst.
  - apply IH; [done..|]. simpl in Hlen. lia.
Qed.

Lemma exists_loop_ok n s b l key :
  chain s b l -> l ≠ [] -> Forall (ok_bucket (owner s)) l -> (length l <= n)%nat ->
  bucket_exists_loop n b key s = Ok (bool_decide (is_Some (find_key key (cslots s l))), s).
Proof.
  revert b l. induction n as [|n IH]; intros b l Hc Hne Hok Hlen.
  { destruct l; [done|simpl in Hlen; lia]. }
  destruct (chain_next _ _ _ Hc Hne Hok) as (l' & -> & Hb & Hc' & Hok' & Hnull).
  cbn [bucket_exists_loop]. rewrite (cbind_Ok _ _ _ _ _ (exists_bucket_ok _ _ _ Hb)), cslots_cons, find_key_app.
  destruct (find_key key (bslots s b)); [done|]. do_load. rewrite Hnull. case_bool_decide as Hn.
  - now subst.
  - apply IH; [done..|]. simpl in Hlen. lia.
Qed.

(** The bucket of a key, in a represented table. *)
Lemma key_bucket_ok s ht t n lay key :
  table_rep s ht t n lay ->
  key_bucket ht key s = Ok (bucket_at t (Z.land key (n - 1)), s).
Proof.
  intros R. pose proof (tr_ht _ _ _ _ _ R) as Hht. unfold key_bucket, clht_hash.
  run. now rewrite (tr_hash _ _ _ _ _ R), (tr_table _ _ _ _ _ R).
Qed.

Lemma hd_error_ne {A} (l : list A) x : hd_error l = Some x -> l ≠ [].
Proof. now destruct l. Qed.

Lemma get_ok s ht t n lay key :
  table_rep s ht t n lay -> key ≠ 0 ->
  clht_get ht key s = Ok (default 0 (amap s lay !! key), s).
Proof.
  intros R Hk. unfold clht_get. rewrite (cbind_Ok _ _ _ _ _ (key_bucket_ok _ _ _ _ _ key R)).
  destruct (table_rep_key_chain _ _ _ _ _ key R) as (i & l & Hi & Hl & -> & Hc & Hh & Hok & Hnd).
  run. rewrite (get_loop_ok _ s _ l) by eauto using hd_error_ne, chain_bound, Nat.le_le_succ_r.
  now rewrite (table_rep_find _ _ _ _ _ key i l R).
Qed.

Lemma bucket_exists_ok s ht t n lay key :
  table_rep s ht t n lay -> key ≠ 0 ->
  bucket_exists (bucket_at t (Z.land key (n - 1))) key s =
  Ok (bool_decide (is_Some (amap s lay !! key)), s).
Proof.
  intros R Hk.
  destruct (table_rep_key_chain _ _ _ _ _ key R) as (i & l & Hi & Hl & -> & Hc & Hh & Hok & Hnd).
  unfold bucket_exists. run.
  rewrite (exists_loop_ok _ s _ l) by eauto using hd_error_ne, chain_bound, Nat.le_le_succ_r.
  now rewrite (table_rep_find _ _ _ _ _ key i l R).
Qed.

(** ** Counting *)

Lemma count_slots n i l acc :
  Forall (placed n i) l ->
  foldl (fun acc kv => if 0 <? kv.1 then acc + 1 else acc) acc l
  = acc + Z.of_nat (length (filter used l)).
Proof.
  revert acc. induction l as [|[k v] l IH]; intros acc Hp; [simpl; lia|].
  apply Forall_cons_1 in Hp as [Hkv Hp]. simpl foldl. rewrite IH by done.
  unfold placed, used in Hkv. simpl in Hkv. rewrite filter_cons. unfold used at 2. simpl fst.
  destruct (Z.ltb_spec 0 k); case_decide; simpl length; lia.
Qed.

Lemma count_bucket_ok s b i n size :
  ok_bucket (owner s) b -> Forall (placed n i) (bslots s b) ->
  cfold entries (count_entry b) size s = Ok (size + Z.of_nat (length (filter used (bslots s b))), s).
Proof.
  intros Hb Hp. rewrite (cfold_pure _ _ (fun j size => if 0 <? rd s (b, B_key j) then size + 1 else size)).
  - do 2 f_equal. rewrite <- (count_slots n i) by done. reflexivity.
  - intros j acc Hj. apply entries_fld in Hj as [Hk _]. unfold count_entry.
    now rewrite (cbind_Ok _ _ _ _ _ (load_ok _ _ (ok_live _ _ _ Hb Hk))).
Qed.

Lemma count_chain_ok k s b l i n size len :
  chain s b l -> l ≠ [] -> Forall (ok_bucket (owner s)) l -> Forall (placed n i) (cslots s l) ->
  (length l <= k)%nat ->
  count_chain k b size len s =
  Ok ((size + Z.of_nat (length (ccontent s l)), len + Z.of_nat (length l)), s).
Proof.
  revert b l size len. induction k as [|k IH]; intros b l size len Hc Hne Hok Hp Hlen.
  { destruct l; [done|simpl in Hlen; lia]. }
  destruct (chain_next _ _ _ Hc Hne Hok) as (l' & -> & Hb & Hc' & Hok' & Hnull).
  unfold ccontent. rewrite cslots_cons, list.filter_app, length_app. rewrite cslots_cons, Forall_app in Hp.
  destruct Hp as [Hp1 Hp2]. cbn [count_chain].
  rewrite (cbind_Ok _ _ _ _ _ (count_bucket_ok _ _ _ _ _ Hb Hp1)). do_load. rewrite Hnull.
  case_bool_decide as Hn.
  - subst. change (filter used (cslots s [])) with (@nil (Z * Z)). cbn [length].
    unfold cret. do 3 f_equal; lia.
  - rewrite (IH _ l'); [|simpl in Hlen; auto with lia..]. unfold ccontent. simpl length. do 3 f_equal; lia.
Qed.

(** Sums over the chains of a table. *)
Lemma foldl_content_length s lay acc :
  foldl (fun acc l => acc + Z.of_nat (length (ccontent s l))) acc lay
  = acc + Z.of_nat (length (content s lay)).
Proof.
  revert acc. induction lay as [|l lay IH]; intros acc; simpl; [lia|].
  rewrite IH, length_app. lia.
Qed.

Lemma amap_size s ht t n lay :
  table_rep s ht t n lay -> size (amap s lay) = length (content s lay).
Proof.
  intros R. unfold amap.
  rewrite <- (length_fmap fst (content s lay)), <- (size_list_to_set (C := gset Z)) by apply R.
  rewrite <- dom_list_to_map_L, size_dom. done.
Qed.

(** A bin of a represented table. *)
Lemma table_rep_bin_chain s ht t n lay i :
  table_rep s ht t n lay -> i ∈ seqZ 0 n ->
  exists l, lay !! Z.to_nat i = Some l /\ chain s (bucket_at t i) l /\ l ≠ [] /\
    Forall (ok_bucket (owner s)) l /\ NoDup l /\ Forall (placed n (Z.to_nat i)) (cslots s l).
Proof.
  intros R Hi. apply elem_of_seqZ in Hi.
  destruct (table_rep_key_chain _ _ _ _ _ i R) as (j & l & Hj & Hl & E & Hc & Hh & Hok & Hnd).
  assert (Ei : Z.land i (n - 1) = i).
  { destruct (tr_n _ _ _ _ _ R) as (k & Hk & ->). rewrite land_pow2_pred by lia.
    apply Z.mod_small. lia. }
  rewrite Ei in *. subst j. rewrite <- E in *. exists l.
  eauto 10 using hd_error_ne, tr_place.
Qed.

Lemma table_rep_seqZ s ht t n lay :
  table_rep s ht t n lay -> seqZ 0 n = seqZ 0 (Z.of_nat (length lay)).
Proof.
  intros R. rewrite (tr_len _ _ _ _ _ R). pose proof (table_rep_pos _ _ _ _ _ R).
  now rewrite Z2Nat.id by lia.
Qed.

Lemma size_ok s ht t n lay :
  table_rep s ht t n lay -> clht_size ht s = Ok (Z.of_nat (size (amap s lay)), s).
Proof.
  intros R. pose proof (tr_ht _ _ _ _ _ R) as Hht. unfold clht_size. do_load.
  rewrite (tr_num _ _ _ _ _ R), (amap_size _ _ _ _ _ R).
  rewrite (cfold_pure _ _ (fun i acc => acc + Z.of_nat (length (ccontent s (default [] (lay !! Z.to_nat (i - 0))))))).
  - rewrite (table_rep_seqZ _ _ _ _ _ R).
    rewrite (foldl_seqZ_lookup (fun l acc => acc + Z.of_nat (length (ccontent s l)))).
    now rewrite foldl_content_length.
  - intros i acc Hi.
    destruct (table_rep_bin_chain _ _ _ _ _ i R Hi) as (l & Hl & Hc & Hne & Hok & Hnd & Hp).
    rewrite Z.sub_0_r, Hl. simpl. run. rewrite (tr_table _ _ _ _ _ R).
    now rewrite (cbind_Ok _ _ _ _ _ (count_chain_ok _ s _ l _ n _ _ Hc Hne Hok Hp
                   (Nat.le_le_succ_r _ _ (chain_bound _ _ Hnd Hok)))).
Qed.
