(* ===== verification/ClhtUpdate.v ===== *)
(** * Insertion and removal

    What [clht_put] and [clht_remove] do to a represented table: the exact sequence of
    memory events of every path, and the resulting abstract map. *)

From S2P Require Import Prelude Memory Ssmem Clht ClhtRep.

(** ** The index object *)

(** A quiescent index: its current table is represented and no lock is held. *)
Record clht_rep (s : state) (h ht t n : Z) (lay : list (list Z)) : Prop := {
  cr_h : ok_obj (owner s) h;
  cr_ht : rd s (h, W_ht) = ht;
  cr_table : table_rep s ht t n lay;
  cr_unlocked : unlocked s lay;
}.

(** ** Changing one chain *)

Lemma NoDup_concat_middle {A} (l1 l2 : list (list A)) (l : list A) :
  NoDup (concat (l1 ++ l :: l2)) <->
  NoDup l /\ NoDup (concat (l1 ++ l2)) /\ forall x, x ∈ l -> x ∉ concat (l1 ++ l2).
Proof.
  rewrite !concat_app. cbn [concat].
  assert (E : concat l1 ++ l ++ concat l2 ≡ₚ l ++ (concat l1 ++ concat l2)).
  { rewrite !app_assoc. now rewrite (Permutation_app_comm (concat l1) l). }
  rewrite E, list.NoDup_app. naive_solver.
Qed.

Lemma elem_of_concat_middle {A} (l1 l2 : list (list A)) (l : list A) x :
  x ∈ concat (l1 ++ l :: l2) <-> x ∈ l \/ x ∈ concat (l1 ++ l2).
Proof. rewrite !concat_app. cbn [concat]. rewrite !elem_of_app. tauto. Qed.

Lemma table_rep_update s s' ht t n lay1 l lay2 l' :
  table_rep s ht t n (lay1 ++ l :: lay2) ->
  same_header s s' ht -> owner_grows s s' ->
  (forall b, b ∈ concat (lay1 ++ lay2) -> same_bucket s s' b) ->
  hd_error l' = Some (bucket_at t (Z.of_nat (length lay1))) ->
  chain s' (bucket_at t (Z.of_nat (length lay1))) l' ->
  NoDup l' -> (forall b, b ∈ l' -> b ∉ concat (lay1 ++ lay2)) ->
  Forall (ok_bucket (owner s')) l' ->
  Forall (placed n (length lay1)) (cslots s' l') ->
  NoDup (ccontent s' l' ++ content s (lay1 ++ lay2)).*1 ->
  table_rep s' ht t n (lay1 ++ l' :: lay2) /\
  content s' (lay1 ++ l' :: lay2) ≡ₚ ccontent s' l' ++ content s (lay1 ++ lay2).
Proof.
  intros R (Hh1 & Hh2 & Hh3) Ho Hs Hhd Hc Hnd Hfresh Hok Hpl Hkeys.
  assert (Hcont : content s' (lay1 ++ l' :: lay2) ≡ₚ ccontent s' l' ++ content s (lay1 ++ lay2)).
  { rewrite content_middle. now rewrite (content_frame s s' (lay1 ++ lay2)). }
  split; [|done]. destruct R.
  assert (Hold : forall i x, (lay1 ++ l' :: lay2) !! i = Some x ->
            i = length lay1 /\ x = l' \/
            i ≠ length lay1 /\ (lay1 ++ l :: lay2) !! i = Some x /\
            forall b, b ∈ x -> b ∈ concat (lay1 ++ lay2)).
  { intros i x Hi. destruct (decide (i = length lay1)) as [->|Hne].
    - left. rewrite lookup_app_r, Nat.sub_diag in Hi by lia. now injection Hi.
    - right. split; [done|]. rewrite lookup_app in Hi |- *.
      destruct (lay1 !! i) eqn:E1.
      + injection Hi as ->. split; [done|]. intros b Hb. rewrite concat_app, elem_of_app. left.
        eauto using elem_of_concat_lookup.
      + apply lookup_ge_None in E1. destruct (i - length lay1)%nat eqn:E2; [lia|].
        simpl in *. split; [done|]. intros b Hb. rewrite concat_app, elem_of_app. right.
        eauto using elem_of_concat_lookup. }
  split; try done; try congruence.
  - eauto using ok_obj_mono.
  - rewrite length_app in *. done.
  - intros i x Hi. destruct (Hold i x Hi) as [[-> ->]|(_ & Hi' & Hin)]; [done|].
    destruct (tr_chain i x Hi') as [? ?]. split; [done|]. eauto using chain_frame.
  - apply NoDup_concat_middle. apply NoDup_concat_middle in tr_nodup. naive_solver.
  - apply list.Forall_forall. intros b. rewrite elem_of_concat_middle. intros [Hb|Hb].
    + rewrite list.Forall_forall in Hok. auto.
    + rewrite list.Forall_forall in tr_ok. eapply ok_bucket_mono; [exact Ho|].
      apply tr_ok. rewrite elem_of_concat_middle. auto.
  - intros i x Hi. destruct (Hold i x Hi) as [[-> ->]|(_ & Hi' & Hin)]; [done|].
    rewrite (cslots_frame s s'); auto.
  - now rewrite Hcont.
Qed.

(** ** Empty slots *)

Definition bucket_empty (s : state) (b : Z) : option (Z * Z) :=
  first_some (fun j => if rd s (b, B_key j) =? 0 then Some (b, j) else None) entries.

Definition chain_empty (s : state) (l : list Z) : option (Z * Z) := first_some (bucket_empty s) l.

Lemma first_some_Some {A R} (f : A -> option R) l r :
  first_some f l = Some r -> exists a, a ∈ l /\ f a = Some r.
Proof.
  induction l as [|a l IH]; simpl; [done|]. destruct (f a) eqn:E.
  - intros [= ->]. exists a. split; [left|done].
  - intros H. destruct (IH H) as (a' & ? & ?). exists a'. split; [now right|done].
Qed.

Lemma chain_empty_Some s l b j :
  chain_empty s l = Some (b, j) -> b ∈ l /\ j ∈ entries /\ rd s (b, B_key j) = 0.
Proof.
  intros H. apply first_some_Some in H as (b' & Hb & H). apply first_some_Some in H as (j' & Hj & H).
  destruct (Z.eqb_spec (rd s (b', B_key j')) 0); [|done]. injection H as -> ->. done.
Qed.

Lemma filter_used_all l : Forall used l -> filter used l = l.
Proof.
  induction 1 as [|x l Hx _ IH]; [done|]. now rewrite filter_cons_True, IH.
Qed.

(** Without an empty slot every slot of the chain is in use. *)
Lemma chain_empty_None s l : chain_empty s l = None -> ccontent s l = cslots s l.
Proof.
  intros H. apply filter_used_all. apply list.Forall_forall. intros [k v] Hkv.
  apply list_elem_of_bind in Hkv as (b & Hkv & Hb).
  apply list_elem_of_fmap in Hkv as (j & [= -> ->] & Hj).
  pose proof (proj1 (first_some_None _ _) H b Hb) as H1. pose proof (proj1 (first_some_None _ _) H1 j Hj) as H2.
  simpl in H2. unfold used. simpl. now destruct (Z.eqb_spec (rd s (b, B_key j)) 0).
Qed.

(** ** The insertion scan *)

Lemma put_bucket_ok s b key e :
  ok_bucket (owner s) b -> key ≠ 0 -> find_key key (bslots s b) = None ->
  cfold entries (put_entry b key) (Some e) s =
  Ok (Some (match e with Some _ => e | None => bucket_empty s b end), s).
Proof.
  intros Hb Hk Hf. rewrite (cfold_pure _ _ (fun j acc =>
    match acc with
    | None => None
    | Some e => if rd s (b, B_key j) =? key then None
                else match e with
                     | Some _ => Some e
                     | None => Some (if rd s (b, B_key j) =? 0 then Some (b, j) else None)
                     end
    end)).
  - unfold bucket_empty, bslots, entries, slot in *. simpl in *.
    destruct (rd s (b, B_key 0) =? key); [done|]. destruct (rd s (b, B_key 1) =? key); [done|].
    destruct (rd s (b, B_key 2) =? key); [done|].
    destruct e; [done|]. destruct (rd s (b, B_key 0) =? 0); [done|].
    destruct (rd s (b, B_key 1) =? 0); [done|]. now destruct (rd s (b, B_key 2) =? 0).
  - intros j [e'|] Hj; [|done]. apply entries_fld in Hj as [Hkl _]. unfold put_entry.
    rewrite (cbind_Ok _ _ _ _ _ (load_ok _ _ (ok_live _ _ _ Hb Hkl))).
    destruct (_ =? key); [done|]. destruct e'; [done|].
    now rewrite (cbind_Ok _ _ _ _ _ (load_ok _ _ (ok_live _ _ _ Hb Hkl))).
Qed.

Lemma put_loop_ok `{Malloc} n s ht b l e key val :
  chain s b l -> l ≠ [] -> Forall (ok_bucket (owner s)) l -> (length l <= n)%nat ->
  key ≠ 0 -> find_key key (cslots s l) = None ->
  put_loop n ht b e key val s =
  cbind (put_write ht (List.last l NULL) (match e with Some _ => e | None => chain_empty s l end) key val)
        (fun r => cret (Some r)) s.
Proof.
  revert b l e. induction n as [|n IH]; intros b l e Hc Hne Hok Hlen Hk Hf.
  { destruct l; [done|simpl in Hlen; lia]. }
  destruct (chain_next _ _ _ Hc Hne Hok) as (l' & -> & Hb & Hc' & Hok' & Hnull).
  rewrite cslots_cons, find_key_app in Hf. destruct (find_key key (bslots s b)) eqn:Hf1; [done|].
  cbn [put_loop]. rewrite (cbind_Ok _ _ _ _ _ (put_bucket_ok _ _ _ e Hb Hk Hf1)).
  do_load. rewrite Hnull. case_bool_decide as Hn.
  - subst. unfold chain_empty. cbn [first_some List.last]. destruct e; [done|].
    now destruct (bucket_empty s b).
  - do_load. rewrite (IH _ l'); [|simpl in Hlen; auto with lia..].
    unfold chain_empty. cbn [first_some]. replace (List.last (b :: l') NULL) with (List.last l' NULL)
      by now destruct l'.
    destruct e; [done|]. now destruct (bucket_empty s b).
Qed.

(** ** Events of the write paths *)

Definition put_slot_evs (b j key val : Z) : list ev :=
  [ESt (b, B_val j) val; EFl (line b); EFence; ENt (b, B_key j) key; EFence].

(** [clht_bucket_create] of a block at [nb]. *)
Definition bucket_create_evs (nb : Z) : list ev :=
  [ESt (nb, B_lock) 0; ESt (nb, B_key 0) 0; ESt (nb, B_key 1) 0; ESt (nb, B_key 2) 0;
   ESt (nb, B_next) NULL].

Definition put_new_evs (ht expands last nb key val : Z) : list ev :=
  bucket_create_evs nb ++
  [ESt (ht, H_num_expands) (u32 (expands + 1)); ESt (nb, B_val 0) val; ESt (nb, B_key 0) key;
   EFl (line nb); EFence; ENt (last, B_next) nb; EFence].

Definition lock_evs (b : Z) (l : list ev) : list ev :=
  ESt (b, B_lock) LOCK_UPDATE :: l ++ [ESt (b, B_lock) LOCK_FREE].

Definition remove_evs (b j : Z) : list ev := [EFence; ENt (b, B_key j) 0; EFence].

Lemma flush_one_line s b off len :
  ok_bucket (owner s) b -> 0 <= off -> 0 < len -> off + len <= CACHE_LINE_SIZE ->
  cfor (flush_ptrs (b + off) (i32 len)) flush_line s = Ok (tt, do_ev (EFl (line b)) s).
Proof.
  intros Hb Ho Hl Hsum. unfold CACHE_LINE_SIZE in *. rewrite i32_small by lia.
  destruct Hb as (Ha & Hlt & Hs). rewrite flush_ptrs_base; [|done..|unfold CACHE_LINE_SIZE; lia].
  replace ((off + len + CACHE_LINE_SIZE - 1) / CACHE_LINE_SIZE) with 1
    by (unfold CACHE_LINE_SIZE; Z.div_mod_to_equations; lia).
  change (seqZ 0 1) with [0]. cbn. rewrite Z.add_0_r. unfold cbind, flush_line, live. rewrite bool_decide_true by done. done.
Qed.

Lemma flush_bucket s b :
  ok_bucket (owner s) b ->
  cfor (flush_ptrs b (i32 sizeof_bucket_t)) flush_line s = Ok (tt, do_ev (EFl (line b)) s).
Proof.
  intros Hb. replace b with (b + 0) at 1 by lia.
  apply flush_one_line; unfold sizeof_bucket_t, CACHE_LINE_SIZE; (done || lia).
Qed.

Lemma put_write_slot `{Malloc} s ht last b j key val :
  ok_bucket (owner s) b -> j ∈ entries ->
  put_write ht last (Some (b, j)) key val s = Ok (false, do_evs (put_slot_evs b j key val) s).
Proof.
  intros Hb Hj. pose proof (entries_fld _ Hj) as [Hk Hv]. cbn [put_write].
  rewrite (cbind_Ok _ _ _ _ _ (store_ok _ _ _ (ok_live _ _ _ Hb Hv))).
  unfold clflush. run.
  assert (Hr : 0 <= j <= 2) by (simpl in Hk; lia).
  rewrite (cbind_Ok _ _ _ _ _ (flush_one_line (do_ev (ESt (b, B_val j) val) s) b (32 + 8 * j) 8 Hb
             ltac:(lia) ltac:(lia) ltac:(unfold CACHE_LINE_SIZE; lia))).
  run.
  reflexivity.
Qed.

(** ** Reading back after a sequence of events *)

Lemma same_bucket_evs l s b :
  Forall (fun c : cell => c.1 ≠ b \/ c.2 = B_lock \/ bucket_fld c.2 = false) (l ≫= ev_writes) ->
  same_bucket s (do_evs l s) b.
Proof.
  intros Hl. apply same_bucket_rd. intros f Hf Hlock. apply rd_do_evs_frame. intros Hin.
  rewrite list.Forall_forall in Hl. apply Hl in Hin. simpl in Hin. naive_solver congruence.
Qed.

Definition header_fld (f : fld) : bool :=
  match f with H_num_buckets | H_table | H_hash => true | _ => false end.

Lemma same_header_evs l s ht :
  Forall (fun c : cell => header_fld c.2 = false) (l ≫= ev_writes) -> same_header s (do_evs l s) ht.
Proof.
  intros Hl. rewrite list.Forall_forall in Hl.
  repeat split; apply rd_do_evs_frame; intros Hin; now apply Hl in Hin.
Qed.

(** Evaluate the reads of a state reached by explicit events. *)
Ltac read_evs :=
  unfold do_evs in *; cbn [foldl] in *;
  repeat first [rewrite rd_ESt | rewrite rd_ENt | progress change (rd (do_ev (EFl ?l) ?s)) with (rd s)
               | progress change (rd (do_ev EFence ?s)) with (rd s)];
  repeat (case_decide; simplify_eq); try done.

(** ** Changing one slot *)

Lemma entries_split j : j ∈ entries -> exists js, entries ≡ₚ j :: js /\ j ∉ js.
Proof.
  intros Hj. unfold entries in *. repeat (apply elem_of_cons in Hj as [->|Hj]).
  - exists [1; 2]. split; [done|]. set_solver.
  - exists [0; 2]. split; [apply Permutation_swap|]. set_solver.
  - exists [0; 1]. split; [symmetry; exact (Permutation_cons_append [0; 1] 2)|]. set_solver.
  - set_solver.
Qed.

Lemma bslots_split s s' b j :
  j ∈ entries -> (forall j', j' ∈ entries -> j' ≠ j -> slot s' b j' = slot s b j') ->
  exists rest, bslots s b ≡ₚ slot s b j :: rest /\ bslots s' b ≡ₚ slot s' b j :: rest.
Proof.
  intros Hj Hs. destruct (entries_split j Hj) as (js & E & Hnin).
  exists (slot s b <$> js). unfold bslots. rewrite !E. split; [done|]. rewrite fmap_cons.
  apply perm_skip. erewrite list_fmap_ext; [reflexivity|]. intros k j' Hj'.
  apply list_elem_of_lookup_2 in Hj'. apply Hs; [rewrite E; set_solver|set_solver].
Qed.

Lemma cslots_split s s' l b j :
  NoDup l -> b ∈ l -> j ∈ entries ->
  (forall b', b' ∈ l -> b' ≠ b -> bslots s' b' = bslots s b') ->
  (forall j', j' ∈ entries -> j' ≠ j -> slot s' b j' = slot s b j') ->
  exists rest, cslots s l ≡ₚ slot s b j :: rest /\ cslots s' l ≡ₚ slot s' b j :: rest.
Proof.
  intros Hnd Hb Hj Hother Hs. destruct (bslots_split s s' b j Hj Hs) as (r & E1 & E2).
  apply list_elem_of_split in Hb as (l1 & l2 & ->).
  apply list.NoDup_app in Hnd as (_ & Hd & Hnd). apply list.NoDup_cons in Hnd as [Hb2 _].
  assert (F : forall l', (forall x, x ∈ l' -> x ∈ l1 ++ b :: l2 /\ x ≠ b) -> cslots s' l' = cslots s l').
  { intros l'. induction l' as [|x l' IH]; intros Hl'; [done|]. rewrite !cslots_cons, IH by set_solver.
    f_equal. apply Hother; apply Hl'; left. }
  exists (r ++ cslots s l2 ++ cslots s l1). rewrite !cslots_app, !cslots_cons.
  rewrite (F l1), (F l2) by set_solver. rewrite E1, E2.
  split; rewrite Permutation_app_comm; cbn; now rewrite <- app_assoc.
Qed.

Lemma Forall_perm {A} (P : A -> Prop) l l' : l ≡ₚ l' -> Forall P l -> Forall P l'.
Proof. intros E H. now rewrite <- E. Qed.

Lemma chain_slot_frame s s' b a l :
  (forall b', b' ∈ l -> b' ≠ b -> same_bucket s s' b') -> rd s' (b, B_next) = rd s (b, B_next) ->
  chain s a l -> chain s' a l.
Proof.
  revert a. induction l as [|x l IH]; intros a Hs Hn; [done|]. simpl. intros [-> Hc].
  split; [done|]. assert (E : rd s' (x, B_next) = rd s (x, B_next)).
  { destruct (decide (x = b)) as [->|Hne]; [done|]. apply Hs; [left|done]. }
  rewrite E. apply IH; [set_solver|done..].
Qed.

(** Overwriting one slot of a chain with a well-placed or unused pair. *)
Lemma slot_update s s' ht t n lay i l b j :
  table_rep s ht t n lay -> lay !! i = Some l -> b ∈ l -> j ∈ entries ->
  same_header s s' ht -> owner_grows s s' ->
  (forall b', b' ∈ concat lay -> b' ≠ b -> same_bucket s s' b') ->
  rd s' (b, B_next) = rd s (b, B_next) ->
  (forall j', j' ∈ entries -> j' ≠ j -> slot s' b j' = slot s b j') ->
  placed n i (slot s' b j) ->
  (used (slot s' b j) -> (slot s' b j).1 ∉ (content s lay).*1) ->
  table_rep s' ht t n lay /\
  exists rest, content s lay ≡ₚ filter used [slot s b j] ++ rest /\
               content s' lay ≡ₚ filter used [slot s' b j] ++ rest.
Proof.
  intros R Hl Hb Hj Hh Ho Hs Hnext Hslot Hpl Hfresh.
  assert (Elay : lay = take i lay ++ l :: drop (S i) lay) by now rewrite take_drop_middle.
  assert (Hlen : length (take i lay) = i).
  { apply lookup_lt_Some in Hl. rewrite length_take. lia. }
  assert (Hin : forall x, x ∈ l -> x ∈ concat lay) by eauto using elem_of_concat_lookup.
  pose proof (tr_nodup _ _ _ _ _ R) as Hnd. rewrite Elay, NoDup_concat_middle in Hnd.
  destruct Hnd as (Hndl & _ & Hdisj).
  destruct (cslots_split s s' l b j Hndl Hb Hj) as (r & E1 & E2).
  { intros b' Hb' Hne. apply Hs; auto. }
  { done. }
  set (out := content s (take i lay ++ drop (S i) lay)) in *.
  assert (Ec : content s lay ≡ₚ filter used [slot s b j] ++ (filter used r ++ out)).
  { rewrite Elay at 1. rewrite content_middle. unfold ccontent. rewrite E1.
    change (slot s b j :: r) with ([slot s b j] ++ r). rewrite list.filter_app, app_assoc. done. }
  assert (Ec' : ccontent s' l ≡ₚ filter used [slot s' b j] ++ filter used r).
  { unfold ccontent. rewrite E2. change (slot s' b j :: r) with ([slot s' b j] ++ r).
    now rewrite list.filter_app. }
  destruct (tr_chain _ _ _ _ _ R i l Hl) as [Hhd Hc].
  pose proof R as R0. rewrite Elay in R.
  destruct (table_rep_update s s' ht t n (take i lay) l (drop (S i) lay) l) as [R' C'];
    rewrite ?Hlen; try done.
  - intros b' Hb'. apply Hs; [|set_solver]. rewrite Elay, elem_of_concat_middle. now right.
  - apply (chain_slot_frame s s' b); [|done..]. auto.
  - pose proof (tr_ok _ _ _ _ _ R0) as Hok. rewrite list.Forall_forall in Hok |- *.
    intros x Hx. eapply ok_bucket_mono; [exact Ho|]. auto.
  - pose proof (tr_place _ _ _ _ _ R0 i l Hl) as Hp. apply (Forall_perm _ _ _ E1) in Hp.
    apply list.Forall_cons in Hp as [_ Hp]. eapply Forall_perm; [symmetry; exact E2|].
    now constructor.
  - pose proof (tr_keys _ _ _ _ _ R0) as Hk. rewrite Ec in Hk, Hfresh. rewrite Ec'. fold out.
    rewrite <- app_assoc. rewrite fmap_app in *. apply list.NoDup_app in Hk as (_ & _ & Hk).
    rewrite list.NoDup_app. split; [|split; [|done]].
    + destruct (decide (used (slot s' b j))).
      * rewrite filter_cons_True by done. cbn. apply NoDup_singleton.
      * rewrite filter_cons_False by done. constructor.
    + destruct (decide (used (slot s' b j))) as [Hu|Hu].
      * rewrite filter_cons_True by done. cbn. specialize (Hfresh Hu). set_solver.
      * rewrite filter_cons_False by done. set_solver.
  - rewrite <- Elay in R', C'. split; [done|]. exists (filter used r ++ out). split; [done|].
    rewrite C', Ec'. fold out. now rewrite <- app_assoc.
Qed.

(** ** Locking and the exact effect of insertion *)

Lemma lock_bucket_ok `{Malloc} n s h ht b key :
  ok_bucket (owner s) b -> rd s (b, B_lock) = LOCK_FREE ->
  lock_bucket_loop (S n) h ht b key s = Ok ((ht, b), do_ev (ESt (b, B_lock) LOCK_UPDATE) s).
Proof.
  intros Hb Hl. cbn [lock_bucket_loop]. unfold lock_acq_chk_resize.
  rewrite cbind_assoc, (cbind_Ok _ _ _ _ _ (cas_success s (b, B_lock) LOCK_FREE LOCK_UPDATE
                                              ltac:(field_live) Hl)).
  reflexivity.
Qed.

(** A fresh 64-byte block is a bucket, disjoint from every live one. *)
Lemma fresh_bucket `{Malloc} o nb :
  pick o sizeof_bucket_t = Some nb ->
  ok_bucket (claim_lines nb sizeof_bucket_t o) nb /\ forall b, ok_bucket o b -> b ≠ nb.
Proof.
  intros Hp. apply pick_spec in Hp as (H0 & Hal & Hlt & Hf). split.
  - split; [done|]. split; [unfold sizeof_bucket_t in *; lia|].
    apply live_spec, live_claimed; [done|]. unfold sizeof_bucket_t. lia.
  - intros b (_ & _ & [x Hb]) ->. rewrite list.Forall_forall in Hf.
    rewrite (Hf (line nb)) in Hb; [discriminate|]. unfold block_lines, sizeof_bucket_t, CACHE_LINE_SIZE.
    change ((64 + 64 - 1) / 64) with 1. rewrite elem_of_seqZ. lia.
Qed.

(** The state after allocating a bucket at [nb]. *)
Definition with_bucket (nb : Z) (s : state) : state :=
  set_owner (claim_lines nb sizeof_bucket_t (owner s)) s.

Lemma owner_grows_claim p sz s : owner_grows s (set_owner (claim_lines p sz (owner s)) s).
Proof. intros l Hl. simpl. rewrite claim_lines_lookup. case_decide; eauto. Qed.

Lemma bucket_create_ok `{Malloc} s nb :
  pick (owner s) sizeof_bucket_t = Some nb ->
  clht_bucket_create s = Ok (nb, do_evs (bucket_create_evs nb) (with_bucket nb s)).
Proof.
  intros Hp. destruct (fresh_bucket _ _ Hp) as [Hb _]. apply pick_spec in Hp as Hs. destruct Hs as [Hpos _].
  unfold clht_bucket_create, memalign. unfold cbind at 1. rewrite Hp.
  replace (nb =? NULL) with false by (unfold NULL; lia). fold (with_bucket nb s).
  change (owner (with_bucket nb s)) with (claim_lines nb sizeof_bucket_t (owner s)) in *.
  assert (Hb' : ok_bucket (owner (with_bucket nb s)) nb) by exact Hb.
  run. unfold entries. cbn [cfor]. run. reflexivity.
Qed.

Lemma bucket_create_frame nb s p f :
  bucket_fld f = false -> rd (do_evs (bucket_create_evs nb) (with_bucket nb s)) (p, f) = rd s (p, f).
Proof.
  intros Hf. rewrite rd_do_evs_frame; [done|]. cbn. intros Hin.
  repeat (apply elem_of_cons in Hin as [Hin|Hin]; [now simplify_eq|]). now apply not_elem_of_nil in Hin.
Qed.

Lemma put_write_new `{Malloc} s ht last nb key val :
  ok_obj (owner s) ht -> ok_bucket (owner s) last -> pick (owner s) sizeof_bucket_t = Some nb ->
  put_write ht last None key val s =
  Ok (rd s (ht, H_num_expands_threshold) <=? u32 (rd s (ht, H_num_expands) + 1),
      do_evs (put_new_evs ht (rd s (ht, H_num_expands)) last nb key val) (with_bucket nb s)).
Proof.
  intros Hht Hl Hp. destruct (fresh_bucket _ _ Hp) as [Hb _]. cbn [put_write].
  pose proof (owner_grows_claim nb sizeof_bucket_t s) as Hg.
  apply (ok_obj_mono _ _ _ Hg) in Hht. apply (ok_bucket_mono _ _ _ Hg) in Hl.
  unfold clht_bucket_create_stats. run.
  rewrite (cbind_Ok _ _ _ _ _ (bucket_create_ok _ _ Hp)).
  set (s1 := do_evs (bucket_create_evs nb) (with_bucket nb s)).
  assert (Hht1 : ok_obj (owner s1) ht) by exact Hht.
  assert (Hl1 : ok_bucket (owner s1) last) by exact Hl.
  assert (Hb1 : ok_bucket (owner s1) nb) by exact Hb.
  rewrite cbind_assoc. rewrite (cbind_Ok _ _ _ _ _ (IAF_ok s1 (ht, H_num_expands) ltac:(field_live))). run.
  unfold clflush. run.
  match goal with |- context [cbind (cfor _ flush_line) _ ?s'] =>
    rewrite (cbind_Ok _ _ s' tt _ (flush_bucket s' nb Hb1)) end.
  run. rewrite rd_ESt_ne by congruence. subst s1. now rewrite !bucket_create_frame.
Qed.

(** The scan and the write under the bucket lock run on the state with the lock
    taken, which has the same chains. *)
Lemma lock_same_bucket s b v x : same_bucket s (do_ev (ESt (b, B_lock) v) s) x.
Proof. apply (same_bucket_evs [ESt (b, B_lock) v]). cbn. constructor; [auto|constructor]. Qed.

Lemma chain_empty_frame s s' l :
  (forall b, b ∈ l -> same_bucket s s' b) -> chain_empty s' l = chain_empty s l.
Proof.
  intros Hs. unfold chain_empty. induction l as [|b l IH]; [done|]. simpl.
  rewrite IH by set_solver. destruct (Hs b) as [Hb _]; [left|].
  unfold bslots, entries, slot in Hb. simpl in Hb. unfold bucket_empty, entries. simpl.
  injection Hb as -> _ -> _ -> _. done.
Qed.

(** ** The abstract map *)

Lemma amap_insert s s' lay lay' key val :
  NoDup (content s' lay').*1 -> content s' lay' ≡ₚ (key, val) :: content s lay ->
  amap s' lay' = <[key := val]> (amap s lay).
Proof. intros Hnd E. unfold amap. now rewrite (list_to_map_proper _ _ Hnd E). Qed.

Lemma amap_delete s s' lay lay' key val :
  NoDup (content s lay).*1 -> content s lay ≡ₚ (key, val) :: content s' lay' ->
  amap s' lay' = delete key (amap s lay).
Proof.
  intros Hnd E. unfold amap. rewrite (list_to_map_proper _ _ Hnd E). cbn [list_to_map foldr].
  rewrite E in Hnd. apply list.NoDup_cons in Hnd as [Hk _].
  symmetry. apply delete_insert_id. now apply not_elem_of_list_to_map_1.
Qed.

Lemma amap_None s lay key : amap s lay !! key = None -> key ∉ (content s lay).*1.
Proof. unfold amap. apply not_elem_of_list_to_map_2. Qed.

Lemma unlocked_frame s s' lay :
  (forall x, rd s (x, B_lock) = LOCK_FREE -> rd s' (x, B_lock) = LOCK_FREE) ->
  unlocked s lay -> unlocked s' lay.
Proof. intros Hx U. eapply list.Forall_impl; [exact U|]. intros [|b l]; [done|]. apply Hx. Qed.

Lemma put_slot_rep s h ht t n lay key val b l eb ej :
  clht_rep s h ht t n lay -> 0 < key < 2 ^ 64 -> amap s lay !! key = None ->
  lay !! Z.to_nat (Z.land key (n - 1)) = Some (b :: l) -> chain_empty s (b :: l) = Some (eb, ej) ->
  let s' := do_evs (lock_evs b (put_slot_evs eb ej key val)) s in
  clht_rep s' h ht t n lay /\ content s' lay ≡ₚ (key, val) :: content s lay.
Proof.
  intros [Hh Hht R U] Hk Hm Hl He s'. apply chain_empty_Some in He as (Hin & Hj & H0).
  pose proof (table_rep_bin _ _ _ _ _ key R) as Hbin.
  assert (Es : slot s' eb ej = (key, val)) by (subst s'; unfold slot; f_equal; cbn; read_evs).
  destruct (slot_update s s' ht t n lay _ _ eb ej R Hl Hin Hj) as [R' (rest & C1 & C2)].
  - apply same_header_evs. cbn. repeat constructor.
  - intros x Hx. exact Hx.
  - intros b' _ Hne. apply same_bucket_evs. cbn. repeat (constructor; [simpl; auto|]). constructor.
  - apply rd_do_evs_frame. cbn. set_solver.
  - intros j' _ Hne. unfold slot. f_equal; apply rd_do_evs_frame; cbn; set_solver.
  - rewrite Es. intros _. simpl. split; [done|]. lia.
  - intros _. rewrite Es. now apply amap_None.
  - rewrite Es in C2. unfold slot in C1. rewrite H0 in C1. split.
    + split; [exact Hh| |exact R'|].
      * rewrite <- Hht. apply rd_do_evs_frame. cbn. set_solver.
      * apply (unlocked_frame s); [|done]. intros x Hx. subst s'. cbn. read_evs.
    + rewrite C1, C2. rewrite filter_cons_True by (unfold used; simpl; lia).
      rewrite filter_cons_False by (unfold used; simpl; lia). done.
Qed.

Lemma chain_snoc s s' b l nb :
  chain s b l -> l ≠ [] -> NoDup l -> nb ≠ NULL ->
  (forall x, x ∈ l -> x ≠ List.last l NULL -> rd s' (x, B_next) = rd s (x, B_next)) ->
  rd s' (List.last l NULL, B_next) = nb -> rd s' (nb, B_next) = NULL -> chain s' b (l ++ [nb]).
Proof.
  revert b. induction l as [|a l IH]; intros b Hc Hne Hnd Hnb Hs Hlast Hend; [done|].
  destruct Hc as [-> Hc]. apply list.NoDup_cons in Hnd as [Ha Hnd].
  split; [done|]. fold (chain s'). destruct l as [|a' l]; [simpl in *; now rewrite Hlast|].
  change (List.last (a :: a' :: l) NULL) with (List.last (a' :: l) NULL) in *.
  rewrite Hs; [apply IH; try done; set_solver|left|].
  intros ->. apply Ha. pose proof (app_removelast_last NULL (l := a' :: l) ltac:(done)) as E.
  rewrite E. apply elem_of_app. right. rewrite <- E. left.
Qed.

(** The key's chain and its head bucket in a quiescent index. *)
Lemma clht_rep_chain s h ht t n lay key :
  clht_rep s h ht t n lay ->
  exists b l, lay !! Z.to_nat (Z.land key (n - 1)) = Some (b :: l) /\
    bucket_at t (Z.land key (n - 1)) = b /\ chain s b (b :: l) /\
    Forall (ok_bucket (owner s)) (b :: l) /\ NoDup (b :: l) /\ rd s (b, B_lock) = LOCK_FREE.
Proof.
  intros [_ _ R U]. destruct (table_rep_key_chain _ _ _ _ _ key R) as (i & l & -> & Hl & E & Hc & Hh & Hok & Hnd).
  rewrite <- E in Hc, Hh. destruct l as [|b l]; [done|]. injection Hh as ->.
  exists (bucket_at t (Z.land key (n - 1))), l. repeat split; try done; [now destruct Hc|].
  unfold unlocked in U. rewrite list.Forall_forall in U.
  exact (U _ (list_elem_of_lookup_2 _ _ _ Hl)).
Qed.

(** A freshly created bucket holding one entry. *)
Lemma new_bucket_slots s nb key val :
  rd s (nb, B_key 0) = key -> rd s (nb, B_val 0) = val -> rd s (nb, B_key 1) = 0 ->
  rd s (nb, B_key 2) = 0 -> key ≠ 0 -> filter used (bslots s nb) = [(key, val)].
Proof.
  intros E1 E2 E3 E4 Hk. change (bslots s nb) with [slot s nb 0; slot s nb 1; slot s nb 2].
  unfold slot. rewrite E1, E2, E3, E4.
  rewrite filter_cons_True by done. now rewrite !filter_cons_False by (unfold used; simpl; lia).
Qed.

Lemma last_in (l : list Z) d : l ≠ [] -> List.last l d ∈ l.
Proof.
  intros Hl. pose proof (app_removelast_last d Hl) as E. rewrite E at 2. apply elem_of_app. right. left.
Qed.

(** Linking a new bucket, already filled with [kvs], at the end of a chain. *)
Lemma chain_append s s' ht t n lay i l nb kvs :
  table_rep s ht t n lay -> lay !! i = Some l ->
  same_header s s' ht -> owner_grows s s' -> ok_bucket (owner s') nb -> nb ∉ concat lay ->
  (forall x, x ≠ nb -> bslots s' x = bslots s x) ->
  (forall x, x ≠ nb -> x ≠ List.last l NULL -> rd s' (x, B_next) = rd s (x, B_next)) ->
  rd s' (List.last l NULL, B_next) = nb -> rd s' (nb, B_next) = NULL ->
  filter used (bslots s' nb) = kvs -> Forall (placed n i) kvs -> NoDup (kvs ++ content s lay).*1 ->
  table_rep s' ht t n (<[i := l ++ [nb]]> lay) /\
  content s' (<[i := l ++ [nb]]> lay) ≡ₚ kvs ++ content s lay.
Proof.
  intros R Hl Hh Ho Hnb Hfresh Hbs Hnx Hn1 Hn2 Hnew Hpk Hkeys.
  destruct (tr_chain _ _ _ _ _ R i l Hl) as [Hhd Hc].
  pose proof (tr_ok _ _ _ _ _ R) as Hok. rewrite list.Forall_forall in Hok.
  pose proof (tr_place _ _ _ _ _ R i l Hl) as Hpl.
  assert (Hin : forall x, x ∈ l -> x ∈ concat lay) by eauto using elem_of_concat_lookup.
  assert (Hlt : (i < length lay)%nat) by now apply lookup_lt_Some in Hl.
  assert (Elay : lay = take i lay ++ l :: drop (S i) lay) by now rewrite take_drop_middle.
  rewrite insert_take_drop by done.
  assert (Hlen : length (take i lay) = i) by (rewrite length_take; lia).
  pose proof (tr_nodup _ _ _ _ _ R) as Hnd. rewrite Elay in Hnd, Hin, Hfresh. rewrite NoDup_concat_middle in Hnd.
  rewrite elem_of_concat_middle in Hfresh.
  destruct Hnd as (Hndl & _ & Hdisj). pose proof (hd_error_ne _ _ Hhd) as Hne.
  assert (Hcs : cslots s' l = cslots s l).
  { assert (Hnl : nb ∉ l) by tauto. clear -Hbs Hnl. induction l as [|x l IH]; [done|].
    rewrite !cslots_cons, Hbs, IH by set_solver. done. }
  assert (Hcc : ccontent s' (l ++ [nb]) ≡ₚ kvs ++ ccontent s l).
  { unfold ccontent. rewrite cslots_app, list.filter_app, Hcs, Permutation_app_comm. f_equiv.
    rewrite <- Hnew, cslots_cons. cbn [cslots mbind list_bind]. now rewrite app_nil_r. }
  assert (Ec : content s lay ≡ₚ ccontent s l ++ content s (take i lay ++ drop (S i) lay))
    by (rewrite Elay at 1; apply content_middle).
  destruct (table_rep_update s s' ht t n (take i lay) l (drop (S i) lay) (l ++ [nb])) as [R' C'];
    rewrite ?Hlen; try done.
  - now rewrite <- Elay.
  - intros x Hx. assert (x ≠ nb) by set_solver. split; [auto|]. apply Hnx; [done|].
    intros ->. apply (Hdisj (List.last l NULL)); [now apply last_in|done].
  - now destruct l.
  - apply (chain_snoc s); auto; [destruct Hnb as [[? ?] _]; unfold NULL; lia|].
    intros x Hx Hxl. apply Hnx; [set_solver|done].
  - apply list.NoDup_app. split; [done|]. split; [set_solver|apply NoDup_singleton].
  - set_solver.
  - apply Forall_app. split; [|now constructor]. apply list.Forall_forall. intros x Hx.
    eapply ok_bucket_mono; [exact Ho|]. apply Hok. rewrite Elay. auto.
  - rewrite cslots_app, Hcs. apply Forall_app. split; [done|].
    rewrite cslots_cons, app_nil_r. subst kvs. rewrite list.Forall_forall in Hpk |- *.
    intros kv Hkv Hu. apply Hpk; [|done]. apply list_elem_of_filter. done.
  - rewrite Hcc. now rewrite <- app_assoc, <- Ec.
  - split; [done|]. rewrite C', Hcc, Ec. now rewrite <- app_assoc.
Qed.

Section Operations.
Context `{Malloc}.

(** What linking a new bucket at the end of a chain leaves and changes. *)
Lemma put_new_reads s ht b last nb key val :
  last ≠ nb ->
  let s' := do_evs (lock_evs b (put_new_evs ht (rd s (ht, H_num_expands)) last nb key val))
                   (with_bucket nb s) in
  (forall x, x ≠ nb -> bslots s' x = bslots s x) /\
  (forall x, x ≠ nb -> x ≠ last -> rd s' (x, B_next) = rd s (x, B_next)) /\
  rd s' (last, B_next) = nb /\ rd s' (nb, B_next) = NULL /\
  (key ≠ 0 -> filter used (bslots s' nb) = [(key, val)]) /\
  (forall x, rd s (x, B_lock) = LOCK_FREE -> rd s' (x, B_lock) = LOCK_FREE).
Proof.
  intros Hne s'. split; [|split; [|split; [|split; [|split]]]].
  - intros x Hx. unfold bslots. apply list_fmap_ext. intros _ j _. unfold slot.
    f_equal; apply (rd_do_evs_frame _ (with_bucket nb s)); cbn; set_solver.
  - intros x Hx Hx'. apply (rd_do_evs_frame _ (with_bucket nb s)). cbn. set_solver.
  - subst s'. cbn. read_evs.
  - subst s'. cbn. read_evs.
  - intros Hk. apply new_bucket_slots; [..|done]; subst s'; cbn; read_evs.
  - intros x Hx. subst s'. cbn. read_evs.
Qed.

Lemma put_new_rep s h ht t n lay key val b l nb :
  clht_rep s h ht t n lay -> 0 < key < 2 ^ 64 -> amap s lay !! key = None ->
  lay !! Z.to_nat (Z.land key (n - 1)) = Some (b :: l) -> pick (owner s) sizeof_bucket_t = Some nb ->
  let s' := do_evs (lock_evs b (put_new_evs ht (rd s (ht, H_num_expands)) (List.last (b :: l) NULL) nb key val))
                   (with_bucket nb s) in
  let lay' := <[Z.to_nat (Z.land key (n - 1)) := (b :: l) ++ [nb]]> lay in
  clht_rep s' h ht t n lay' /\ content s' lay' ≡ₚ (key, val) :: content s lay.
Proof.
  intros [Hh Hht R U] Hk Hm Hl Hp s' lay'.
  destruct (fresh_bucket _ _ Hp) as [Hnb Hfresh].
  pose proof (table_rep_bin _ _ _ _ _ key R) as Hbin.
  pose proof (tr_ok _ _ _ _ _ R) as Hall. rewrite list.Forall_forall in Hall.
  assert (Hne : forall x, x ∈ concat lay -> x ≠ nb) by eauto.
  assert (Hlast : List.last (b :: l) NULL ∈ concat lay).
  { eapply elem_of_concat_lookup; [exact Hl|]. now apply last_in. }
  destruct (put_new_reads s ht b (List.last (b :: l) NULL) nb key val (Hne _ Hlast))
    as (Hbs & Hsame & Hn1 & Hn2 & Hnew & Hlocks). fold s' in Hbs, Hsame, Hn1, Hn2, Hnew, Hlocks.
  destruct (chain_append s s' ht t n lay _ _ nb [(key, val)] R Hl) as [R' Hc']; auto.
  - apply (same_header_evs _ (with_bucket nb s)). cbn. repeat constructor.
  - exact (owner_grows_claim nb sizeof_bucket_t s).
  - intros Hin. now apply (Hne nb).
  - apply Hnew. lia.
  - constructor; [|constructor]. intros _. simpl. split; [done|]. lia.
  - cbn. constructor; [now apply amap_None|]. exact (tr_keys _ _ _ _ _ R).
  - split; [|exact Hc']. split; [| |exact R'|].
    + eapply ok_obj_mono; [|exact Hh]. exact (owner_grows_claim nb sizeof_bucket_t s).
    + rewrite <- Hht. apply (rd_do_evs_frame _ (with_bucket nb s)). cbn. set_solver.
    + apply (unlocked_frame s); [done|]. unfold unlocked, lay'. apply Forall_insert; [done|].
      unfold unlocked in U. rewrite list.Forall_forall in U.
      exact (U _ (list_elem_of_lookup_2 _ _ _ Hl)).
Qed.

(** Up to the scan, an insertion only takes the bucket lock. *)
Lemma clht_put_enter s h ht t n lay key val b l :
  clht_rep s h ht t n lay -> 0 < key -> amap s lay !! key = None ->
  lay !! Z.to_nat (Z.land key (n - 1)) = Some (b :: l) ->
  let s1 := do_ev (ESt (b, B_lock) LOCK_UPDATE) s in
  clht_put h key val s =
  cbind (put_write ht (List.last (b :: l) NULL) (chain_empty s (b :: l)) key val) (fun resize =>
    LOCK_RLS (b, B_lock);;
    (if resize : bool then _ <- ht_status status_depth h 1 false; cret tt else cret tt);;
    cret true) s1.
Proof.
  intros C Hk Hm Hl s1. destruct (clht_rep_chain _ _ _ _ _ _ key C) as (b' & l' & Hl' & Eb & Hc & Hok & Hnd & Hlock).
  rewrite Hl in Hl'. injection Hl' as <- <-. destruct C as [Hh Hht R _].
  apply list.Forall_cons in Hok as Hb. destruct Hb as [Hb _].
  unfold clht_put. run. rewrite Hht.
  rewrite (cbind_Ok _ _ _ _ _ (key_bucket_ok _ _ _ _ _ key R)).
  rewrite (cbind_Ok _ _ _ _ _ (bucket_exists_ok _ _ _ _ _ key R ltac:(lia))), Hm, Eb.
  rewrite bool_decide_false by (now intros []). run.
  rewrite (cbind_Ok _ _ _ _ _ (lock_bucket_ok _ s h ht b key Hb Hlock)). run. fold s1.
  assert (Hs : forall x, x ∈ b :: l -> same_bucket s s1 x) by (intros; apply lock_same_bucket).
  assert (Hf : find_key key (cslots s1 (b :: l)) = None).
  { rewrite (cslots_frame s s1) by done.
    now rewrite (table_rep_find _ _ _ _ _ key _ _ R ltac:(lia) eq_refl Hl). }
  rewrite (cbind_eq _ _ _ s1 s1 (put_loop_ok _ s1 ht b (b :: l) None key val
             (chain_frame s s1 _ _ Hs Hc) ltac:(done) Hok (Nat.le_le_succ_r _ _ (chain_bound _ _ Hnd Hok))
             ltac:(lia) Hf)).
  rewrite (chain_empty_frame s s1) by done. rewrite cbind_assoc. reflexivity.
Qed.

(** Insertion of a key that is present changes nothing. *)
Lemma clht_put_found s h ht t n lay key val v :
  clht_rep s h ht t n lay -> 0 < key -> amap s lay !! key = Some v ->
  clht_put h key val s = Ok (false, s).
Proof.
  intros [Hh Hht R _] Hk Hm. unfold clht_put. run. rewrite Hht.
  rewrite (cbind_Ok _ _ _ _ _ (key_bucket_ok _ _ _ _ _ key R)).
  rewrite (cbind_Ok _ _ _ _ _ (bucket_exists_ok _ _ _ _ _ key R ltac:(lia))), Hm.
  now rewrite bool_decide_true by eauto.
Qed.

(** Insertion into the first empty slot of the chain. *)
Lemma clht_put_slot s h ht t n lay key val b l eb ej :
  clht_rep s h ht t n lay -> 0 < key -> amap s lay !! key = None ->
  lay !! Z.to_nat (Z.land key (n - 1)) = Some (b :: l) -> chain_empty s (b :: l) = Some (eb, ej) ->
  clht_put h key val s = Ok (true, do_evs (lock_evs b (put_slot_evs eb ej key val)) s).
Proof.
  intros C Hk Hm Hl He. rewrite (clht_put_enter _ _ _ _ _ _ _ _ _ _ C Hk Hm Hl), He.
  destruct (chain_empty_Some _ _ _ _ He) as (Hin & Hj & _).
  destruct (clht_rep_chain _ _ _ _ _ _ key C) as (b' & l' & Hl' & _ & _ & Hok & _).
  rewrite Hl in Hl'. injection Hl' as <- <-. rewrite list.Forall_forall in Hok.
  assert (Hb : ok_bucket (owner s) b) by (apply Hok; left). apply Hok in Hin.
  set (s1 := do_ev (ESt (b, B_lock) LOCK_UPDATE) s).
  rewrite (cbind_Ok _ _ _ _ _ (put_write_slot s1 ht _ eb ej key val Hin Hj)).
  unfold LOCK_RLS. run. reflexivity.
Qed.

(** Insertion into a chain without an empty slot: a new bucket, and a resize when the
    overflow threshold is reached. *)
Lemma clht_put_new s h ht t n lay key val b l nb :
  clht_rep s h ht t n lay -> 0 < key -> amap s lay !! key = None ->
  lay !! Z.to_nat (Z.land key (n - 1)) = Some (b :: l) -> chain_empty s (b :: l) = None ->
  pick (owner s) sizeof_bucket_t = Some nb ->
  let s' := do_evs (lock_evs b (put_new_evs ht (rd s (ht, H_num_expands)) (List.last (b :: l) NULL) nb key val))
                   (with_bucket nb s) in
  clht_put h key val s =
  (if rd s (ht, H_num_expands_threshold) <=? u32 (rd s (ht, H_num_expands) + 1)
   then cbind (ht_status status_depth h 1 false) (fun _ => cret true) s'
   else Ok (true, s')).
Proof.
  intros C Hk Hm Hl He Hp s'. rewrite (clht_put_enter _ _ _ _ _ _ _ _ _ _ C Hk Hm Hl), He.
  destruct (clht_rep_chain _ _ _ _ _ _ key C) as (b' & l' & Hl' & _ & _ & Hok & _).
  rewrite Hl in Hl'. injection Hl' as <- <-. rewrite list.Forall_forall in Hok.
  assert (Hb : ok_bucket (owner s) b) by (apply Hok; left).
  assert (Hlast : ok_bucket (owner s) (List.last (b :: l) NULL)) by (apply Hok; now apply last_in).
  pose proof (tr_ht _ _ _ _ _ (cr_table _ _ _ _ _ _ C)) as Hht.
  set (s1 := do_ev (ESt (b, B_lock) LOCK_UPDATE) s).
  rewrite (cbind_Ok _ _ _ _ _ (put_write_new s1 ht _ nb key val Hht Hlast Hp)).
  apply (ok_bucket_mono _ _ _ (owner_grows_claim nb sizeof_bucket_t s)) in Hb.
  change (rd s1 (ht, H_num_expands)) with (rd (do_evs [ESt (b, B_lock) LOCK_UPDATE] s) (ht, H_num_expands)).
  change (rd s1 (ht, H_num_expands_threshold))
    with (rd (do_evs [ESt (b, B_lock) LOCK_UPDATE] s) (ht, H_num_expands_threshold)).
  rewrite !rd_do_evs_frame by (cbn; set_solver). unfold LOCK_RLS. run.
  destruct (_ <=? _); [|reflexivity]. rewrite cbind_assoc. reflexivity.
Qed.

(** ** Removal *)

Lemma remove_entry_ok s b key j :
  ok_bucket (owner s) b -> j ∈ entries ->
  remove_entry b key j s =
  if rd s (b, B_key j) =? key then Ok (Some (rd s (b, B_val j)), do_evs (remove_evs b j) s)
  else Ok (None, s).
Proof.
  intros Hb Hj. apply entries_fld in Hj as [Hk Hv]. unfold remove_entry. run.
  destruct (_ =? key); [|done]. run. reflexivity.
Qed.

Lemma remove_bucket_ok s b key js :
  ok_bucket (owner s) b -> (forall j, j ∈ js -> j ∈ entries) ->
  match find_key key (slot s b <$> js) with
  | None => cfor_ret js (remove_entry b key) s = Ok (None, s)
  | Some v => exists j, j ∈ js /\ slot s b j = (key, v) /\
      cfor_ret js (remove_entry b key) s = Ok (Some v, do_evs (remove_evs b j) s)
  end.
Proof.
  intros Hb. induction js as [|j js IH]; intros Hjs; [done|].
  rewrite fmap_cons. unfold slot at 1. cbn [find_key cfor_ret].
  pose proof (remove_entry_ok s b key j Hb (Hjs j ltac:(left))) as Hr.
  destruct (Z.eqb_spec (rd s (b, B_key j)) key) as [E|E].
  - exists j. split; [left|]. split; [unfold slot; now rewrite E|].
    now rewrite (cbind_Ok _ _ _ _ _ Hr).
  - rewrite (cbind_Ok _ _ _ _ _ Hr). assert (Hjs' : forall j, j ∈ js -> j ∈ entries) by set_solver. specialize (IH Hjs').
    destruct (find_key key (slot s b <$> js)); [|exact IH].
    destruct IH as (j' & Hj' & IH). exists j'. split; [now right|exact IH].
Qed.

Lemma remove_loop_ok n s b l key v :
  chain s b l -> l ≠ [] -> Forall (ok_bucket (owner s)) l -> (length l <= n)%nat ->
  find_key key (cslots s l) = Some v ->
  exists eb ej, eb ∈ l /\ ej ∈ entries /\ slot s eb ej = (key, v) /\
    remove_loop n b key s = Ok (v, do_evs (remove_evs eb ej) s).
Proof.
  revert b l. induction n as [|n IH]; intros b l Hc Hne Hok Hlen Hf.
  { destruct l; [done|simpl in Hlen; lia]. }
  destruct (chain_next _ _ _ Hc Hne Hok) as (l' & -> & Hb & Hc' & Hok' & Hnull).
  rewrite cslots_cons, find_key_app in Hf. cbn [remove_loop].
  pose proof (remove_bucket_ok s b key entries Hb (fun _ H => H)) as Hr. fold (bslots s b) in Hr.
  destruct (find_key key (bslots s b)) as [v'|] eqn:E.
  - injection Hf as ->. destruct Hr as (j & Hj & Hs & Hr). exists b, j.
    split; [left|]. rewrite (cbind_Ok _ _ _ _ _ Hr). done.
  - rewrite (cbind_Ok _ _ _ _ _ Hr). do_load. rewrite Hnull. case_bool_decide as Hn; [now subst|].
    destruct (IH _ l' Hc' Hn Hok' ltac:(simpl in Hlen; lia) Hf) as (eb & ej & Hin & Hrest).
    exists eb, ej. split; [now right|exact Hrest].
Qed.

Lemma remove_rep s h ht t n lay i b l eb ej key v :
  clht_rep s h ht t n lay -> lay !! i = Some l -> eb ∈ l -> ej ∈ entries ->
  slot s eb ej = (key, v) -> 0 < key ->
  let s' := do_evs (lock_evs b (remove_evs eb ej)) s in
  clht_rep s' h ht t n lay /\ content s lay ≡ₚ (key, v) :: content s' lay.
Proof.
  intros [Hh Hht R U] Hl Hin Hj Hsl Hk s'.
  assert (Es : (slot s' eb ej).1 = 0) by (subst s'; unfold slot; cbn; read_evs).
  destruct (slot_update s s' ht t n lay _ _ eb ej R Hl Hin Hj) as [R' (rest & C1 & C2)].
  - apply same_header_evs. cbn. repeat constructor.
  - intros x Hx. exact Hx.
  - intros b' _ Hne. apply same_bucket_evs. cbn. repeat (constructor; [simpl; auto|]). constructor.
  - apply rd_do_evs_frame. cbn. set_solver.
  - intros j' _ Hne. unfold slot. f_equal; apply rd_do_evs_frame; cbn; set_solver.
  - unfold placed, used. now rewrite Es.
  - unfold used. now rewrite Es.
  - split.
    + split; [exact Hh| |exact R'|].
      * rewrite <- Hht. apply rd_do_evs_frame. cbn. set_solver.
      * apply (unlocked_frame s); [|done]. intros x Hx. subst s'. cbn. read_evs.
    + rewrite C1, C2, Hsl. rewrite filter_cons_True by (unfold used; simpl; lia).
      now rewrite filter_cons_False by (unfold used; rewrite Es; lia).
Qed.

Lemma clht_remove_absent s h ht t n lay key :
  clht_rep s h ht t n lay -> 0 < key -> amap s lay !! key = None -> clht_remove h key s = Ok (0, s).
Proof.
  intros [Hh Hht R _] Hk Hm. unfold clht_remove. run. rewrite Hht.
  rewrite (cbind_Ok _ _ _ _ _ (key_bucket_ok _ _ _ _ _ key R)).
  rewrite (cbind_Ok _ _ _ _ _ (bucket_exists_ok _ _ _ _ _ key R ltac:(lia))), Hm.
  now rewrite bool_decide_false by (now intros []).
Qed.

Lemma clht_remove_found s h ht t n lay key v :
  clht_rep s h ht t n lay -> 0 < key -> amap s lay !! key = Some v ->
  exists b l eb ej, lay !! Z.to_nat (Z.land key (n - 1)) = Some (b :: l) /\
    eb ∈ b :: l /\ ej ∈ entries /\ slot s eb ej = (key, v) /\
    clht_remove h key s = Ok (v, do_evs (lock_evs b (remove_evs eb ej)) s).
Proof.
  intros C Hk Hm. destruct (clht_rep_chain _ _ _ _ _ _ key C) as (b & l & Hl & Eb & Hc & Hok & Hnd & Hlock).
  destruct C as [Hh Hht R _]. apply list.Forall_cons in Hok as Hb. destruct Hb as [Hb _].
  set (s1 := do_ev (ESt (b, B_lock) LOCK_UPDATE) s).
  assert (Hs : forall x, x ∈ b :: l -> same_bucket s s1 x) by (intros; apply lock_same_bucket).
  assert (Hf : find_key key (cslots s1 (b :: l)) = Some v).
  { rewrite (cslots_frame s s1) by done.
    now rewrite (table_rep_find _ _ _ _ _ key _ _ R ltac:(lia) eq_refl Hl). }
  destruct (remove_loop_ok (S (size (owner s))) s1 b (b :: l) key v (chain_frame s s1 _ _ Hs Hc)
              ltac:(done) Hok (Nat.le_le_succ_r _ _ (chain_bound _ _ Hnd Hok)) Hf)
    as (eb & ej & Hin & Hj & Hsl & Hr).
  exists b, l, eb, ej. repeat split; try done.
  - rewrite <- Hsl. unfold slot. subst s1. now rewrite !rd_ESt_ne by congruence.
  - unfold clht_remove. run. rewrite Hht.
    rewrite (cbind_Ok _ _ _ _ _ (key_bucket_ok _ _ _ _ _ key R)).
    rewrite (cbind_Ok _ _ _ _ _ (bucket_exists_ok _ _ _ _ _ key R ltac:(lia))), Hm, Eb.
    rewrite bool_decide_true by eauto. cbn [negb]. run.
    rewrite (cbind_Ok _ _ _ _ _ (lock_bucket_ok _ s h ht b key Hb Hlock)). run. fold s1.
    rewrite (cbind_Ok _ _ _ _ _ Hr). unfold LOCK_RLS. run. reflexivity.
Qed.

End Operations.
