(* ===== verification/ClhtCopy.v ===== *)
(** * Creating a table and copying into it

    [clht_hashtable_create] gives an empty table in fresh memory; [clht_put_seq] and
    [bucket_cpy] fill it with the entries of the old one. Copying writes nothing but
    fresh memory and bucket locks, and gives the new table no more overflow buckets
    than its entries need. *)

From S2P Require Import Prelude Memory Ssmem Clht ClhtRep ClhtUpdate.

(** ** States reached by writing some cells only *)

Definition writes_only (P : cell -> Prop) (s s' : state) : Prop :=
  owner_grows s s' /\
  exists evs, cells s' = cells (do_evs evs s) /\ trace s' = rev evs ++ trace s /\
              Forall P (evs ≫= ev_writes).

(** Lines not owned in [s0]. *)
Definition fresh (s0 : state) (p : Z) : Prop := owner s0 !! line p = None.

(** What copying may write: new memory and the locks of the buckets [D]. *)
Definition copy_writes (s0 : state) (D : list Z) (c : cell) : Prop :=
  fresh s0 c.1 \/ c.2 = B_lock /\ c.1 ∈ D.

(** The allocator can serve these requests one after the other. *)
Fixpoint allocs_ok `{Malloc} (szs : list Z) (o : gmap Z Z) : Prop :=
  match szs with
  | [] => True
  | sz :: szs' => match pick o sz with
                  | Some p => allocs_ok szs' (claim_lines p sz o)
                  | None => False
                  end
  end.

(** ** A table under construction *)

(** No chain has more overflow buckets than its entries need. *)
Definition dense (s : state) (l : list Z) : Prop := (3 * (length l - 1) <= length (ccontent s l))%nat.

Record new_rep (s0 s : state) (ht t n : Z) (lay : list (list Z)) : Prop := {
  nr_rep : table_rep s ht t n lay;
  nr_fresh_ht : fresh s0 ht;
  nr_fresh : Forall (fresh s0) (concat lay);
  nr_dense : Forall (dense s) lay;
  nr_expands : rd s (ht, H_num_expands) = Z.of_nat (length (concat lay)) - n;
  nr_small : Z.of_nat (length (content s lay)) < 2 ^ 31;
  nr_unlocked : Forall (fun b => rd s (b, B_lock) = LOCK_FREE) (concat lay);
}.

(** ** Lemmas on [writes_only] *)

Lemma cells_do_evs evs s s' : cells s = cells s' -> cells (do_evs evs s) = cells (do_evs evs s').
Proof.
  revert s s'. induction evs as [|e evs IH]; intros s s' E; [done|].
  rewrite !do_evs_cons. apply IH. simpl. now rewrite E.
Qed.

Lemma writes_only_refl P s : writes_only P s s.
Proof. split; [now intros l|]. exists []. done. Qed.

Lemma writes_only_trans P s1 s2 s3 :
  writes_only P s1 s2 -> writes_only P s2 s3 -> writes_only P s1 s3.
Proof.
  intros [O1 (e1 & C1 & T1 & F1)] [O2 (e2 & C2 & T2 & F2)]. split; [intros l Hl; auto|].
  exists (e1 ++ e2). rewrite do_evs_app, bind_app, Forall_app, T2, T1, rev_app_distr, app_assoc.
  split; [|done]. rewrite C2. now apply cells_do_evs.
Qed.

Lemma writes_only_mono P Q s s' :
  (forall c, P c -> Q c) -> writes_only P s s' -> writes_only Q s s'.
Proof.
  intros HPQ [O (e & C & T & F)]. split; [done|]. exists e. split; [done|]. split; [done|].
  eapply list.Forall_impl; eauto.
Qed.

Lemma writes_only_rd P s s' c : writes_only P s s' -> ~ P c -> rd s' c = rd s c.
Proof.
  intros [_ (e & C & _ & F)] Hc. rewrite (rd_cells _ _ c C). apply rd_do_evs_frame.
  intros Hin. rewrite list.Forall_forall in F. auto.
Qed.

Lemma writes_only_evs P evs s : Forall P (evs ≫= ev_writes) -> writes_only P s (do_evs evs s).
Proof.
  intros F. split; [intros l; now rewrite owner_do_evs|]. exists evs. now rewrite trace_do_evs.
Qed.

Lemma writes_only_claim P p sz evs s :
  Forall P (evs ≫= ev_writes) ->
  writes_only P s (do_evs evs (set_owner (claim_lines p sz (owner s)) s)).
Proof.
  intros F. split.
  - intros l. rewrite owner_do_evs. apply owner_grows_claim.
  - exists evs. split; [now apply cells_do_evs|]. now rewrite trace_do_evs.
Qed.

(** ** Loops that emit events *)

Lemma cfor_evs {A} (l : list A) (body : A -> M unit) (f : A -> list ev) (o : gmap Z Z) s :
  owner s = o -> (forall a s, a ∈ l -> owner s = o -> body a s = Ok (tt, do_evs (f a) s)) ->
  cfor l body s = Ok (tt, do_evs (l ≫= f) s).
Proof.
  revert s. induction l as [|a l IH]; intros s Ho Hb; [done|]. cbn [cfor].
  rewrite (cbind_Ok _ _ _ _ _ (Hb a s ltac:(left) Ho)), IH.
  - now rewrite bind_cons, do_evs_app.
  - now rewrite owner_do_evs.
  - intros a' s' Ha'. apply Hb. now right.
Qed.

(** Events that only ever write zero. *)
Definition ev_zero (e : ev) : Prop := match e with ESt _ v | ENt _ v => v = 0 | _ => True end.

Lemma rd_zero_evs evs s c :
  Forall ev_zero evs -> (c ∈ evs ≫= ev_writes \/ rd s c = 0) -> rd (do_evs evs s) c = 0.
Proof.
  revert s. induction evs as [|e evs IH]; intros s F Hc; [set_solver|].
  apply list.Forall_cons in F as [He F]. rewrite do_evs_cons. apply IH; [done|].
  destruct (decide (c ∈ evs ≫= ev_writes)) as [|Hn]; [now left|]. right.
  destruct e as [c' v|c' v| |]; simpl in He; subst; rewrite ?rd_ESt, ?rd_ENt; try case_decide; set_solver.
Qed.

(** ** Creating a table *)

Definition zero_evs (b : Z) : list ev :=
  [ESt (b, B_lock) 0; ESt (b, B_hops) 0; ESt (b, B_key 0) 0; ESt (b, B_key 1) 0; ESt (b, B_key 2) 0;
   ESt (b, B_val 0) 0; ESt (b, B_val 1) 0; ESt (b, B_val 2) 0; ESt (b, B_next) NULL].

Definition init_evs (b : Z) : list ev :=
  [ESt (b, B_lock) LOCK_FREE; ESt (b, B_key 0) 0; ESt (b, B_key 1) 0; ESt (b, B_key 2) 0].

Definition header_evs (ht n : Z) : list ev :=
  [ESt (ht, H_num_buckets) n; ESt (ht, H_hash) (u64 (n - 1)); ESt (ht, H_version) 0;
   ESt (ht, H_table_tmp) NULL; ESt (ht, H_table_new) NULL; ESt (ht, H_table_prev) NULL;
   ESt (ht, H_num_expands) 0; ESt (ht, H_num_expands_threshold) n; ESt (ht, H_is_helper) 1;
   ESt (ht, H_helper_done) 0].

Definition create_evs (ht t n : Z) : list ev :=
  ESt (ht, H_table) t ::
  (seqZ 0 n ≫= fun i => zero_evs (bucket_at t i)) ++
  (seqZ 0 n ≫= fun i => init_evs (bucket_at t i)) ++ header_evs ht n.

(** The layout of a new table: one bucket per chain. *)
Definition flat_layout (t n : Z) : list (list Z) := (fun i => [bucket_at t i]) <$> seqZ 0 n.

(** The state after the two allocations. *)
Definition with_table (ht t n : Z) (s : state) : state :=
  let s1 := set_owner (claim_lines ht sizeof_clht_hashtable_t (owner s)) s in
  set_owner (claim_lines t (n * sizeof_bucket_t) (owner s1)) s1.

Lemma fresh_obj `{Malloc} o p :
  pick o sizeof_clht_hashtable_t = Some p -> ok_obj (claim_lines p sizeof_clht_hashtable_t o) p.
Proof.
  intros Hp. apply pick_spec in Hp as (H0 & Hal & Hlt & Hf). unfold sizeof_clht_hashtable_t in *.
  split; [done|]. split; [lia|]. rewrite !claim_lines_lookup, !decide_True; eauto.
  all: unfold block_lines, CACHE_LINE_SIZE; change ((128 + 64 - 1) / 64) with 2; rewrite elem_of_seqZ; lia.
Qed.

Lemma line_bucket_at t i : t mod CACHE_LINE_SIZE = 0 -> line (bucket_at t i) = line t + i.
Proof.
  intros Ht. unfold bucket_at. rewrite line_add by done. f_equal.
  unfold line, sizeof_bucket_t, CACHE_LINE_SIZE. rewrite Z.mul_comm. apply Z.div_mul. lia.
Qed.

(** Every bucket of a fresh array is a bucket of its own. *)
Lemma fresh_array `{Malloc} o t n i :
  pick o (n * sizeof_bucket_t) = Some t -> 0 <= i < n ->
  ok_bucket (claim_lines t (n * sizeof_bucket_t) o) (bucket_at t i) /\ o !! line (bucket_at t i) = None.
Proof.
  intros Hp Hi. apply pick_spec in Hp as (H0 & Hal & Hlt & Hf).
  rewrite list.Forall_forall in Hf.
  assert (Hin : line (bucket_at t i) ∈ block_lines t (n * sizeof_bucket_t)).
  { rewrite line_bucket_at by done. unfold block_lines, sizeof_bucket_t, CACHE_LINE_SIZE.
    rewrite elem_of_seqZ. Z.div_mod_to_equations. lia. }
  split; [|now apply Hf]. split; [|split].
  - unfold bucket_at, sizeof_bucket_t, CACHE_LINE_SIZE, aligned in *. split; [lia|].
    unfold CACHE_LINE_SIZE in *. rewrite Z.mul_comm, Z_mod_plus_full. done.
  - unfold bucket_at, sizeof_bucket_t in *. lia.
  - rewrite claim_lines_lookup, decide_True; eauto.
Qed.

Lemma zero_bucket_ok s b :
  ok_bucket (owner s) b -> zero_bucket b s = Ok (tt, do_evs (zero_evs b) s).
Proof. intros Hb. unfold zero_bucket, entries. cbn [cfor]. run. apply store_ok. field_live. Qed.

Lemma init_bucket_ok s b :
  ok_bucket (owner s) b ->
  (store (b, B_lock) LOCK_FREE;; cfor entries (fun j => store (b, B_key j) 0)) s
  = Ok (tt, do_evs (init_evs b) s).
Proof. intros Hb. unfold entries. cbn [cfor]. run. reflexivity. Qed.

Section Copy.
Context `{Malloc}.

Lemma hashtable_create_ok s ht t n :
  0 < n < 2 ^ 32 -> pick (owner s) sizeof_clht_hashtable_t = Some ht ->
  pick (claim_lines ht sizeof_clht_hashtable_t (owner s)) (n * sizeof_bucket_t) = Some t ->
  clht_hashtable_create n s = Ok (ht, do_evs (create_evs ht t n) (with_table ht t n s)).
Proof.
  intros Hn Hp1 Hp2. pose proof (fresh_obj _ _ Hp1) as Hht.
  apply pick_spec in Hp1 as Hs1. destruct Hs1 as [Hpos1 _].
  apply pick_spec in Hp2 as Hs2. destruct Hs2 as [Hpos2 _].
  assert (Hbk : forall i, i ∈ seqZ 0 n -> ok_bucket (owner (with_table ht t n s)) (bucket_at t i)).
  { intros i Hi. rewrite elem_of_seqZ in Hi. now apply fresh_array. }
  assert (Hht' : ok_obj (owner (with_table ht t n s)) ht).
  { eapply ok_obj_mono; [|exact Hht]. intros l Hl. cbn. rewrite claim_lines_lookup. case_decide; eauto. }
  unfold clht_hashtable_create. replace (n =? 0) with false by lia.
  unfold memalign. unfold cbind at 1. rewrite Hp1. replace (ht =? NULL) with false by (unfold NULL; lia).
  rewrite (u64_small (n * _)) by (unfold sizeof_bucket_t; lia).
  rewrite Z.div_mul by (unfold sizeof_bucket_t; lia).
  unfold cbind at 1. cbn [owner set_owner]. rewrite Hp2.
  replace (t =? NULL) with false by (unfold NULL; lia).
  fold (with_table ht t n s).
  change (mkState _ _ _ _) with (with_table ht t n s).
  do_store.
  set (s1 := do_ev (ESt (ht, H_table) t) (with_table ht t n s)).
  rewrite (cbind_Ok _ _ s1 _ _ (cfor_evs (seqZ 0 n) (fun i => zero_bucket (bucket_at t i))
             (fun i => zero_evs (bucket_at t i)) _ s1 eq_refl
             (fun i s' Hi Ho => zero_bucket_ok s' _ (eq_ind_r (fun o => ok_bucket o _) (Hbk i Hi) Ho)))).
  set (s2 := do_evs _ s1).
  assert (Ho2 : owner s2 = owner (with_table ht t n s)) by (etrans; [apply owner_do_evs|reflexivity]).
  rewrite (cbind_Ok _ _ s2 _ _ (cfor_evs (seqZ 0 n) _ (fun i => init_evs (bucket_at t i)) _ s2 Ho2
             (fun i s' Hi Ho => init_bucket_ok s' _ (eq_ind_r (fun o => ok_bucket o _) (Hbk i Hi) Ho)))).
  set (s3 := do_evs _ s2).
  assert (Ho3 : owner s3 = owner (with_table ht t n s)) by (etrans; [apply owner_do_evs|exact Ho2]).
  rewrite <- Ho3 in Hht'. unfold CLHT_PERC_EXPANSIONS. rewrite Z.mul_1_l, (u32_small n) by lia.
  run. rewrite rd_ESt_eq. replace (n =? 0) with false by lia. run.
  unfold create_evs. subst s3 s2 s1. rewrite do_evs_cons, !do_evs_app. reflexivity.
Qed.

(** *** The new table in memory *)

Lemma seqZ_evs_writes (f : Z -> list ev) t n c :
  c ∈ (seqZ 0 n ≫= fun i => f (bucket_at t i)) ≫= ev_writes <->
  exists i, 0 <= i < n /\ c ∈ f (bucket_at t i) ≫= ev_writes.
Proof.
  rewrite list_elem_of_bind. split.
  - intros (e & Hc & He). apply list_elem_of_bind in He as (i & He & Hi). rewrite elem_of_seqZ in Hi.
    exists i. split; [lia|]. apply list_elem_of_bind. eauto.
  - intros (i & Hi & Hc). apply list_elem_of_bind in Hc as (e & Hc & He). exists e. split; [done|].
    apply list_elem_of_bind. exists i. split; [done|]. rewrite elem_of_seqZ. lia.
Qed.

Lemma zero_evs_writes b c :
  c ∈ zero_evs b ≫= ev_writes -> c.1 = b /\ bucket_fld c.2 = true.
Proof. cbn. intros Hc. repeat (apply elem_of_cons in Hc as [->|Hc]; [done|]). set_solver. Qed.

Lemma init_evs_writes b c :
  c ∈ init_evs b ≫= ev_writes -> c.1 = b /\ bucket_fld c.2 = true.
Proof. cbn. intros Hc. repeat (apply elem_of_cons in Hc as [->|Hc]; [done|]). set_solver. Qed.

(** The two passes over the new array. *)
Definition array_evs (t n : Z) : list ev :=
  (seqZ 0 n ≫= fun i => zero_evs (bucket_at t i)) ++ (seqZ 0 n ≫= fun i => init_evs (bucket_at t i)).

Lemma array_evs_writes t n c :
  c ∈ array_evs t n ≫= ev_writes ->
  bucket_fld c.2 = true /\ exists i, 0 <= i < n /\ c.1 = bucket_at t i.
Proof.
  unfold array_evs. rewrite bind_app, elem_of_app, !seqZ_evs_writes.
  intros [(i & Hi & Hc)|(i & Hi & Hc)];
    [apply zero_evs_writes in Hc as [? ?]|apply init_evs_writes in Hc as [? ?]]; eauto.
Qed.

Lemma create_evs_array ht t n :
  create_evs ht t n = ESt (ht, H_table) t :: array_evs t n ++ header_evs ht n.
Proof. unfold create_evs, array_evs. now rewrite <- app_assoc. Qed.

Lemma create_reads s ht t n :
  let s' := do_evs (create_evs ht t n) s in
  rd s' (ht, H_num_buckets) = n /\ rd s' (ht, H_table) = t /\ rd s' (ht, H_hash) = u64 (n - 1) /\
  rd s' (ht, H_num_expands) = 0 /\ rd s' (ht, H_num_expands_threshold) = n /\
  rd s' (ht, H_is_helper) = 1 /\ rd s' (ht, H_helper_done) = 0.
Proof.
  intros s'. subst s'. rewrite create_evs_array, do_evs_cons, do_evs_app.
  repeat split; try (unfold header_evs; cbn; read_evs; done).
  cbn -[rd array_evs]. read_evs. fold (do_evs (array_evs t n) (do_ev (ESt (ht, H_table) t) s)).
  rewrite rd_do_evs_frame; [apply rd_ESt_eq|]. intros Hc. apply array_evs_writes in Hc as [Hc _]. done.
Qed.
Lemma array_evs_zero t n : Forall ev_zero (array_evs t n).
Proof.
  unfold array_evs. apply Forall_app. split; apply list.Forall_forall; intros e He;
    apply list_elem_of_bind in He as (i & He & _); cbn in He;
    repeat (apply elem_of_cons in He as [->|He]; [done|]); set_solver.
Qed.

Lemma zero_evs_covers b f : bucket_fld f = true -> (b, f) ∈ zero_evs b ≫= ev_writes.
Proof.
  intros Hf. cbn. destruct f; try discriminate Hf; try set_solver.
  all: simpl in Hf; assert (j = 0 \/ j = 1 \/ j = 2) as [->|[->| ->]] by lia; set_solver.
Qed.

Lemma create_bucket_zero s ht t n i f :
  0 <= i < n -> bucket_fld f = true -> rd (do_evs (create_evs ht t n) s) (bucket_at t i, f) = 0.
Proof.
  intros Hi Hf. rewrite create_evs_array, do_evs_cons, do_evs_app, rd_do_evs_frame.
  - apply rd_zero_evs; [apply array_evs_zero|]. left. unfold array_evs.
    rewrite bind_app, elem_of_app, seqZ_evs_writes. left. eauto using zero_evs_covers.
  - cbn. intros Hc. repeat (apply elem_of_cons in Hc as [Hc|Hc]; [now simplify_eq|]). set_solver.
Qed.

Lemma flat_layout_concat t n : concat (flat_layout t n) = bucket_at t <$> seqZ 0 n.
Proof. unfold flat_layout. induction (seqZ 0 n) as [|i l IH]; [done|]. cbn. now f_equal. Qed.

Lemma flat_layout_lookup t n i l :
  flat_layout t n !! i = Some l -> l = [bucket_at t (Z.of_nat i)] /\ Z.of_nat i < n.
Proof.
  unfold flat_layout. rewrite list_lookup_fmap. intros Hl. apply fmap_Some in Hl as (j & Hj & ->).
  apply lookup_seqZ in Hj as [-> Hj]. split; [now rewrite Z.add_0_l|lia].
Qed.

Lemma zero_content s l :
  (forall b f, b ∈ l -> bucket_fld f = true -> rd s (b, f) = 0) ->
  ccontent s l = [] /\ forall n i, Forall (placed n i) (cslots s l).
Proof.
  intros Hz. assert (Hs : forall kv, kv ∈ cslots s l -> kv = (0, 0)).
  { intros kv Hkv. apply list_elem_of_bind in Hkv as (b & Hkv & Hb).
    apply list_elem_of_fmap in Hkv as (j & -> & Hj). apply entries_fld in Hj as [? ?].
    unfold slot. now rewrite !Hz. }
  split.
  - unfold ccontent. destruct (filter used (cslots s l)) as [|kv r] eqn:E; [done|].
    assert (Hin : kv ∈ filter used (cslots s l)) by (rewrite E; left).
    apply list_elem_of_filter in Hin as [Hu Hin]. apply Hs in Hin. now subst.
  - intros n i. apply list.Forall_forall. intros kv Hkv Hu. apply Hs in Hkv. now subst.
Qed.
Lemma bucket_at_inj t i j : bucket_at t i = bucket_at t j -> i = j.
Proof. unfold bucket_at, sizeof_bucket_t. lia. Qed.

(** The new table is an empty represented table in fresh memory. *)
Lemma create_rep s ht t k :
  let n := 2 ^ k in
  0 <= k < 32 -> pick (owner s) sizeof_clht_hashtable_t = Some ht ->
  pick (claim_lines ht sizeof_clht_hashtable_t (owner s)) (n * sizeof_bucket_t) = Some t ->
  let s' := do_evs (create_evs ht t n) (with_table ht t n s) in
  table_rep s' ht t n (flat_layout t n) /\ content s' (flat_layout t n) = [].
Proof.
  intros n Hk Hp1 Hp2 s'. assert (Hn : 0 < n < 2 ^ 32).
  { subst n. split; [apply pow2_pos; lia|apply Z.pow_lt_mono_r; lia]. }
  destruct (create_reads (with_table ht t n s) ht t n) as (R1 & R2 & R3 & R4 & _).
  fold s' in R1, R2, R3, R4.
  assert (Hz : forall i l, flat_layout t n !! i = Some l ->
                 ccontent s' l = [] /\ forall m i, Forall (placed m i) (cslots s' l)).
  { intros i l Hl. apply flat_layout_lookup in Hl as [-> Hi]. apply zero_content.
    intros b f Hb Hf. apply list_elem_of_singleton in Hb as ->. apply create_bucket_zero; [lia|done]. }
  assert (Hc : content s' (flat_layout t n) = []).
  { clearbody s'. revert Hz. generalize (flat_layout t n). intros lay Hz. induction lay as [|l lay IH]; [done|].
    rewrite content_cons. destruct (Hz 0%nat l eq_refl) as [-> _]. apply IH. intros i. apply (Hz (S i)). }
  split; [|done]. split; try done.
  - subst s'. rewrite owner_do_evs. eapply ok_obj_mono; [|exact (fresh_obj _ _ Hp1)].
    intros l Hl. cbn. rewrite claim_lines_lookup. case_decide; eauto.
  - exists k. split; [lia|done].
  - rewrite R3. apply u64_small. lia.
  - unfold flat_layout. rewrite length_fmap, length_seqZ. done.
  - intros i l Hl. apply flat_layout_lookup in Hl as [-> Hi]. split; [done|]. split; [done|].
    cbn. apply create_bucket_zero; [lia|done].
  - rewrite flat_layout_concat. apply NoDup_fmap_2; [exact (bucket_at_inj t)|apply NoDup_seqZ].
  - rewrite flat_layout_concat. apply list.Forall_forall. intros b Hb.
    apply list_elem_of_fmap in Hb as (i & -> & Hi). rewrite elem_of_seqZ in Hi.
    subst s'. rewrite owner_do_evs. now apply fresh_array.
  - intros i l Hl. now apply Hz with i.
  - rewrite Hc. constructor.
Qed.

Lemma create_fresh s ht t n :
  pick (owner s) sizeof_clht_hashtable_t = Some ht ->
  pick (claim_lines ht sizeof_clht_hashtable_t (owner s)) (n * sizeof_bucket_t) = Some t ->
  fresh s ht /\ Forall (fresh s) (concat (flat_layout t n)) /\
  writes_only (fun c => fresh s c.1) s (do_evs (create_evs ht t n) (with_table ht t n s)).
Proof.
  intros Hp1 Hp2. assert (Hf : fresh s ht).
  { apply pick_spec in Hp1 as (_ & _ & _ & Hf). rewrite list.Forall_forall in Hf. apply Hf.
    unfold block_lines, sizeof_clht_hashtable_t, CACHE_LINE_SIZE. change ((128 + 64 - 1) / 64) with 2.
    rewrite elem_of_seqZ. lia. }
  assert (Hb : forall i, 0 <= i < n -> fresh s (bucket_at t i)).
  { intros i Hi. destruct (fresh_array _ _ _ _ Hp2 Hi) as [_ Hn]. unfold fresh.
    rewrite claim_lines_lookup in Hn. case_decide; [discriminate|done]. }
  split; [done|]. split.
  - rewrite flat_layout_concat. apply list.Forall_forall. intros b Hin.
    apply list_elem_of_fmap in Hin as (i & -> & Hi). rewrite elem_of_seqZ in Hi. apply Hb. lia.
  - split.
    + intros l Hl. rewrite owner_do_evs. unfold with_table. cbn. rewrite !claim_lines_lookup.
      repeat case_decide; eauto.
    + exists (create_evs ht t n). split; [now apply cells_do_evs|]. split; [now rewrite trace_do_evs|].
      rewrite create_evs_array. apply list.Forall_forall. intros c Hc.
      rewrite bind_cons, bind_app, !elem_of_app in Hc. destruct Hc as [Hc|[Hc|Hc]].
      * cbn in Hc. apply list_elem_of_singleton in Hc as ->. done.
      * apply array_evs_writes in Hc as [_ (i & Hi & ->)]. auto.
      * cbn in Hc. repeat (apply elem_of_cons in Hc as [->|Hc]; [done|]). set_solver.
Qed.
(** ** Sequential insertion *)

Definition seq_slot_evs (b j key val : Z) : list ev := [ESt (b, B_val j) val; ESt (b, B_key j) key].

Definition seq_new_evs (ht expands last nb key val : Z) : list ev :=
  bucket_create_evs nb ++
  [ESt (ht, H_num_expands) (u32 (expands + 1)); ESt (last, B_next) nb;
   ESt (nb, B_val 0) val; ESt (nb, B_key 0) key].

Lemma put_seq_bucket_ok s b key val js :
  ok_bucket (owner s) b -> (forall j, j ∈ js -> j ∈ entries) ->
  cfor_ret js (put_seq_entry b key val) s =
  match first_some (fun j => if rd s (b, B_key j) =? 0 then Some (b, j) else None) js with
  | Some (eb, ej) => Ok (Some tt, do_evs (seq_slot_evs eb ej key val) s)
  | None => Ok (None, s)
  end.
Proof.
  intros Hb. induction js as [|j js IH]; intros Hjs; [done|].
  destruct (entries_fld _ (Hjs j ltac:(left))) as [Hk Hv].
  cbn [cfor_ret first_some]. unfold put_seq_entry at 1. run.
  destruct (rd s (b, B_key j) =? 0); run; [done|]. apply IH. set_solver.
Qed.

Lemma put_seq_loop_ok n s ht b l key val :
  chain s b l -> l ≠ [] -> Forall (ok_bucket (owner s)) l -> (length l <= n)%nat -> ok_obj (owner s) ht ->
  match chain_empty s l with
  | Some (eb, ej) =>
    clht_put_seq_loop n ht b key val s = Ok (tt, do_evs (seq_slot_evs eb ej key val) s)
  | None => forall nb, pick (owner s) sizeof_bucket_t = Some nb ->
    clht_put_seq_loop n ht b key val s =
    Ok (tt, do_evs (seq_new_evs ht (rd s (ht, H_num_expands)) (List.last l NULL) nb key val) (with_bucket nb s))
  end.
Proof.
  revert b l. induction n as [|n IH]; intros b l Hc Hne Hok Hlen Hht.
  { destruct l; [done|simpl in Hlen; lia]. }
  destruct (chain_next _ _ _ Hc Hne Hok) as (l' & -> & Hb & Hc' & Hok' & Hnull).
  pose proof (put_seq_bucket_ok s b key val entries Hb (fun _ H => H)) as Hp.
  unfold chain_empty. cbn [first_some]. fold (chain_empty s l'). fold (bucket_empty s b) in Hp.
  cbn [clht_put_seq_loop]. destruct (bucket_empty s b) as [[eb ej]|].
  { now rewrite (cbind_Ok _ _ _ _ _ Hp). }
  rewrite (cbind_Ok _ _ _ _ _ Hp). do_load. rewrite Hnull. case_bool_decide as Hn.
  - subst l'. cbn [chain_empty first_some List.last]. intros nb Hpk.
    destruct (fresh_bucket _ _ Hpk) as [Hnb _]. pose proof (owner_grows_claim nb sizeof_bucket_t s) as Hg.
    apply (ok_obj_mono _ _ _ Hg) in Hht. apply (ok_bucket_mono _ _ _ Hg) in Hb.
    unfold clht_bucket_create_stats. run. rewrite (cbind_Ok _ _ _ _ _ (bucket_create_ok _ _ Hpk)).
    set (s1 := do_evs (bucket_create_evs nb) (with_bucket nb s)).
    assert (Hht1 : ok_obj (owner s1) ht) by exact Hht. assert (Hb1 : ok_bucket (owner s1) b) by exact Hb.
    assert (Hnb1 : ok_bucket (owner s1) nb) by exact Hnb. run.
    rewrite (cbind_Ok _ _ _ _ _ (IAF_ok s1 (ht, H_num_expands) ltac:(field_live))). run.
    rewrite rd_ESt_eq. run. rewrite (rd_ESt_ne (nb, B_val 0)) by congruence. rewrite rd_ESt_eq.
    rewrite store_ok by field_live. subst s1. now rewrite bucket_create_frame.
  - specialize (IH _ l' Hc' Hn Hok' ltac:(simpl in Hlen; lia) Hht).
    replace (List.last (b :: l') NULL) with (List.last l' NULL) by now destruct l'. exact IH.
Qed.
Lemma allocs_ok_prefix l1 l2 o : allocs_ok (l1 ++ l2) o -> allocs_ok l1 o.
Proof.
  revert o. induction l1 as [|sz l1 IH]; intros o; [done|]. simpl. destruct (pick o sz); [|done]. apply IH.
Qed.

Lemma allocs_ok_fewer m m' o :
  (m' <= m)%nat -> allocs_ok (replicate m sizeof_bucket_t) o -> allocs_ok (replicate m' sizeof_bucket_t) o.
Proof.
  intros Hm Ha. replace m with (m' + (m - m'))%nat in Ha by lia. rewrite replicate_add in Ha.
  eauto using allocs_ok_prefix.
Qed.

Lemma dense_total s lay :
  Forall (dense s) lay -> (forall l, l ∈ lay -> l ≠ []) ->
  (3 * (length (concat lay) - length lay) <= length (content s lay))%nat /\
  (length lay <= length (concat lay))%nat.
Proof.
  induction lay as [|l lay IH]; intros Hd Hne; [simpl; lia|].
  apply list.Forall_cons in Hd as [Hl Hd]. destruct IH as [IH1 IH2]; [done|set_solver|].
  rewrite content_cons. cbn [concat]. rewrite !length_app. cbn [length]. unfold dense in Hl.
  assert (length l ≠ 0%nat) by (destruct l; [now specialize (Hne [] ltac:(left))|done]). lia.
Qed.

Lemma table_rep_ne s ht t n lay l : table_rep s ht t n lay -> l ∈ lay -> l ≠ [].
Proof.
  intros R Hl. apply list_elem_of_lookup in Hl as [i Hi].
  destruct (tr_chain _ _ _ _ _ R i l Hi) as [Hh _]. now destruct l.
Qed.

(** Overflow buckets of a table under construction. *)
Lemma new_rep_expands s0 s ht t n lay :
  new_rep s0 s ht t n lay ->
  0 <= rd s (ht, H_num_expands) /\ 3 * rd s (ht, H_num_expands) <= Z.of_nat (length (content s lay)).
Proof.
  intros [R _ _ D E _ _]. destruct (dense_total s lay D (fun l Hl => table_rep_ne _ _ _ _ _ l R Hl)) as [H1 H2].
  pose proof (tr_len _ _ _ _ _ R). pose proof (table_rep_pos _ _ _ _ _ R). lia.
Qed.

Lemma filter_used_cons x (l : list (Z * Z)) : filter used (x :: l) = filter used [x] ++ filter used l.
Proof. apply (list.filter_app used [x]). Qed.

(** A slot that becomes used keeps a chain dense. *)
Lemma dense_slot s s' l b j :
  NoDup l -> b ∈ l -> j ∈ entries ->
  (forall b', b' ∈ l -> b' ≠ b -> bslots s' b' = bslots s b') ->
  (forall j', j' ∈ entries -> j' ≠ j -> slot s' b j' = slot s b j') ->
  used (slot s' b j) -> dense s l -> dense s' l.
Proof.
  intros Hnd Hb Hj Ho Hs Hu. destruct (cslots_split s s' l b j Hnd Hb Hj Ho Hs) as (r & E1 & E2).
  unfold dense, ccontent. rewrite E1, E2.
  rewrite (filter_used_cons (slot s b j) r), (filter_used_cons (slot s' b j) r), !length_app.
  rewrite (filter_cons_True _ (slot s' b j)) by done.
  destruct (decide (used (slot s b j))); [rewrite (filter_cons_True _ (slot s b j)) by done
                                         |rewrite (filter_cons_False _ (slot s b j)) by done]; simpl; lia.
Qed.

Lemma dense_frame s s' l : (forall b, b ∈ l -> bslots s' b = bslots s b) -> dense s l -> dense s' l.
Proof.
  intros Hb. unfold dense, ccontent. replace (cslots s' l) with (cslots s l); [done|].
  induction l as [|b l IH]; [done|]. rewrite !cslots_cons, Hb, IH by set_solver. done.
Qed.
(** What every step of the copying keeps. *)
Definition other_fields (s s' : state) : Prop :=
  forall p f, bucket_fld f = false -> f ≠ H_num_expands -> rd s' (p, f) = rd s (p, f).

Lemma put_seq_slot_rep s0 s ht t n lay key val l eb ej :
  new_rep s0 s ht t n lay -> 0 < key < 2 ^ 64 -> key ∉ (content s lay).*1 ->
  Z.of_nat (S (length (content s lay))) < 2 ^ 31 ->
  lay !! Z.to_nat (Z.land key (n - 1)) = Some l -> chain_empty s l = Some (eb, ej) ->
  let s' := do_evs (seq_slot_evs eb ej key val) s in
  new_rep s0 s' ht t n lay /\ content s' lay ≡ₚ (key, val) :: content s lay /\
  writes_only (fun c => fresh s0 c.1) s s' /\ other_fields s s'.
Proof.
  intros [R Hf1 Hf2 D E Hsm Hul] Hk Hm Hcnt Hl He s'. apply chain_empty_Some in He as (Hin & Hj & H0).
  pose proof (table_rep_bin _ _ _ _ _ key R) as Hbin.
  assert (Hinc : eb ∈ concat lay) by eauto using elem_of_concat_lookup.
  assert (Es : slot s' eb ej = (key, val)) by (subst s'; unfold slot; f_equal; cbn; read_evs).
  assert (Hb' : forall b', b' ≠ eb -> same_bucket s s' b').
  { intros b' Hne. apply same_bucket_evs. cbn. repeat (constructor; [simpl; auto|]). constructor. }
  assert (Hj' : forall j', j' ∈ entries -> j' ≠ ej -> slot s' eb j' = slot s eb j').
  { intros j' _ Hne. unfold slot. f_equal; apply rd_do_evs_frame; cbn; set_solver. }
  destruct (slot_update s s' ht t n lay _ _ eb ej R Hl Hin Hj) as [R' (rest & C1 & C2)]; auto.
  - apply same_header_evs. cbn. repeat constructor.
  - intros x Hx. exact Hx.
  - apply rd_do_evs_frame. cbn. set_solver.
  - rewrite Es. intros _. simpl. split; [done|]. lia.
  - intros _. now rewrite Es.
  - assert (Hc : content s' lay ≡ₚ (key, val) :: content s lay).
    { rewrite C1, C2, Es. unfold slot. rewrite H0.
      rewrite filter_cons_True by (unfold used; simpl; lia).
      now rewrite filter_cons_False by (unfold used; simpl; lia). }
    split; [|split; [done|split]].
    + split; try done.
      * apply list.Forall_forall. intros l' Hl'. rewrite list.Forall_forall in D. specialize (D l' Hl').
        destruct (decide (eb ∈ l')) as [Hi|Hi].
        -- apply (dense_slot s s' l' eb ej); auto; [|intros; now apply Hb'|rewrite Es; unfold used; simpl; lia].
           pose proof (tr_nodup _ _ _ _ _ R) as Hnd. apply list_elem_of_split in Hl' as (l1 & l2 & ->).
           apply NoDup_concat_middle in Hnd. tauto.
        -- apply (dense_frame s s'); [|done]. intros b Hb. apply Hb'. set_solver.
      * rewrite <- E. apply rd_do_evs_frame. cbn. set_solver.
      * rewrite Hc. exact Hcnt.
      * eapply list.Forall_impl; [exact Hul|]. intros x <-. apply rd_do_evs_frame. cbn. set_solver.
    + apply writes_only_evs. cbn. rewrite list.Forall_forall in Hf2. repeat constructor; cbn; auto.
    + intros p f Hf _. apply rd_do_evs_frame. cbn. intros Hc'.
      repeat (apply elem_of_cons in Hc' as [Hc'|Hc']; [simplify_eq; apply entries_fld in Hj; naive_solver congruence|]).
      set_solver.
Qed.
Lemma seq_new_reads s ht e last nb key val :
  last ≠ nb ->
  let s' := do_evs (seq_new_evs ht e last nb key val) (with_bucket nb s) in
  (forall x, x ≠ nb -> bslots s' x = bslots s x) /\
  (forall x, x ≠ nb -> x ≠ last -> rd s' (x, B_next) = rd s (x, B_next)) /\
  rd s' (last, B_next) = nb /\ rd s' (nb, B_next) = NULL /\
  (key ≠ 0 -> filter used (bslots s' nb) = [(key, val)]) /\
  rd s' (ht, H_num_expands) = u32 (e + 1) /\ other_fields s s'.
Proof.
  intros Hne s'. split; [|split; [|split; [|split; [|split; [|split]]]]].
  - intros x Hx. unfold bslots. apply list_fmap_ext. intros _ j _. unfold slot.
    f_equal; apply (rd_do_evs_frame _ (with_bucket nb s)); cbn; set_solver.
  - intros x Hx Hx'. apply (rd_do_evs_frame _ (with_bucket nb s)). cbn. set_solver.
  - subst s'. cbn. read_evs.
  - subst s'. cbn. read_evs.
  - intros Hk. apply new_bucket_slots; [..|done]; subst s'; cbn; read_evs.
  - subst s'. cbn -[u32]. read_evs.
  - intros p f Hf Hx. apply (rd_do_evs_frame _ (with_bucket nb s)). cbn. intros Hc.
    repeat (apply elem_of_cons in Hc as [Hc|Hc]; [now simplify_eq|]). set_solver.
Qed.

Lemma fresh_mono s0 s p : owner_grows s0 s -> fresh s p -> fresh s0 p.
Proof.
  intros Hg Hf. unfold fresh in *. destruct (owner s0 !! line p) eqn:E; [|done].
  destruct (Hg (line p)) as [x Hx]; [eauto|]. congruence.
Qed.

Lemma pick_fresh s p : pick (owner s) sizeof_bucket_t = Some p -> fresh s p.
Proof.
  intros Hp. apply pick_spec in Hp as (_ & _ & _ & Hf). rewrite list.Forall_forall in Hf. apply Hf.
  unfold block_lines, sizeof_bucket_t, CACHE_LINE_SIZE. change ((64 + 64 - 1) / 64) with 1.
  rewrite elem_of_seqZ. lia.
Qed.

Lemma length_concat_insert (lay : list (list Z)) i l l' :
  lay !! i = Some l ->
  (length (concat (<[i := l']> lay)) + length l = length (concat lay) + length l')%nat.
Proof.
  revert i. induction lay as [|x lay IH]; intros i Hl; [done|]. destruct i as [|i]; simpl in *.
  - injection Hl as ->. rewrite !length_app. lia.
  - rewrite !length_app. specialize (IH i Hl). lia.
Qed.

Lemma length_cslots s l : length (cslots s l) = (3 * length l)%nat.
Proof. induction l as [|b l IH]; [done|]. rewrite cslots_cons, length_app, IH. simpl. lia. Qed.

Lemma dense_append s s' l nb :
  chain_empty s l = None -> (forall b, b ∈ l -> bslots s' b = bslots s b) ->
  length (filter used (bslots s' nb)) = 1%nat -> dense s' (l ++ [nb]).
Proof.
  intros He Hb Hn. unfold dense, ccontent. rewrite cslots_app, list.filter_app, !length_app.
  assert (E : cslots s' l = cslots s l).
  { clear He. induction l as [|b l IH]; [done|]. rewrite !cslots_cons, Hb, IH by set_solver. done. }
  rewrite E. fold (ccontent s l). rewrite (chain_empty_None _ _ He), length_cslots.
  rewrite cslots_cons, app_nil_r, Hn. simpl. lia.
Qed.

Lemma put_seq_new_rep s0 s ht t n lay key val l nb :
  new_rep s0 s ht t n lay -> owner_grows s0 s -> 0 < key < 2 ^ 64 -> key ∉ (content s lay).*1 ->
  Z.of_nat (S (length (content s lay))) < 2 ^ 31 ->
  lay !! Z.to_nat (Z.land key (n - 1)) = Some l -> chain_empty s l = None ->
  pick (owner s) sizeof_bucket_t = Some nb ->
  let s' := do_evs (seq_new_evs ht (rd s (ht, H_num_expands)) (List.last l NULL) nb key val) (with_bucket nb s) in
  let lay' := <[Z.to_nat (Z.land key (n - 1)) := l ++ [nb]]> lay in
  new_rep s0 s' ht t n lay' /\ content s' lay' ≡ₚ (key, val) :: content s lay /\
  writes_only (fun c => fresh s0 c.1) s s' /\ other_fields s s'.
Proof.
  intros NR Hg Hk Hm Hcnt Hl He Hp s' lay'. pose proof (new_rep_expands _ _ _ _ _ _ NR) as [HE0 HE3].
  destruct NR as [R Hf1 Hf2 D E Hsm Hul]. destruct (fresh_bucket _ _ Hp) as [Hnb Hfresh].
  pose proof (table_rep_bin _ _ _ _ _ key R) as Hbin.
  pose proof (tr_ok _ _ _ _ _ R) as Hall. rewrite list.Forall_forall in Hall.
  assert (Hne : forall x, x ∈ concat lay -> x ≠ nb) by eauto.
  pose proof (table_rep_ne _ _ _ _ _ l R (list_elem_of_lookup_2 _ _ _ Hl)) as Hlne.
  assert (Hlast : List.last l NULL ∈ concat lay) by (eapply elem_of_concat_lookup; [exact Hl|now apply last_in]).
  destruct (seq_new_reads s ht (rd s (ht, H_num_expands)) (List.last l NULL) nb key val (Hne _ Hlast))
    as (Hbs & Hnx & Hn1 & Hn2 & Hnew & Hex & Hof). fold s' in Hbs, Hnx, Hn1, Hn2, Hnew, Hex, Hof.
  assert (Hfn : fresh s0 nb) by (eapply fresh_mono, pick_fresh; eauto).
  destruct (chain_append s s' ht t n lay _ _ nb [(key, val)] R Hl) as [R' Hc']; auto.
  - apply (same_header_evs _ (with_bucket nb s)). cbn. repeat constructor.
  - exact (owner_grows_claim nb sizeof_bucket_t s).
  - intros Hin. now apply (Hne nb).
  - apply Hnew. lia.
  - constructor; [|constructor]. intros _. simpl. split; [done|]. lia.
  - cbn. constructor; [done|]. exact (tr_keys _ _ _ _ _ R).
  - fold lay' in R', Hc'. split; [|split; [exact Hc'|split]].
    + assert (Hlen := length_concat_insert lay _ l (l ++ [nb]) Hl). fold lay' in Hlen.
      rewrite length_app in Hlen. cbn in Hlen.
      assert (Hold : forall b, b ∈ concat lay' -> b ≠ nb -> b ∈ concat lay).
      { intros b Hb Hbn. unfold lay' in Hb. rewrite insert_take_drop in Hb by (now apply lookup_lt_Some in Hl).
        rewrite <- (take_drop_middle lay _ l Hl). rewrite elem_of_concat_middle in Hb |- *. set_solver. }
      split; [exact R'|done| | | | |].
      * apply list.Forall_forall. intros b Hb. rewrite list.Forall_forall in Hf2.
        destruct (decide (b = nb)) as [->|Hbn]; [done|]. auto.
      * apply Forall_insert.
        -- apply list.Forall_forall. intros x Hx. rewrite list.Forall_forall in D.
           apply (dense_frame s s'); [|auto]. intros b Hb. apply Hbs, Hne.
           apply list_elem_of_lookup in Hx as [? ?]. eauto using elem_of_concat_lookup.
        -- apply (dense_append s s'); [done| |rewrite Hnew by lia; done].
           intros b Hb. apply Hbs, Hne. eauto using elem_of_concat_lookup.
      * rewrite Hex, u32_small by lia. lia.
      * rewrite Hc'. exact Hcnt.
      * apply list.Forall_forall. intros b Hb. rewrite list.Forall_forall in Hul.
        destruct (decide (b = nb)) as [->|Hbn]; [subst s'; cbn; read_evs|].
        rewrite <- (Hul b) by auto. apply (rd_do_evs_frame _ (with_bucket nb s)). cbn. set_solver.
    + apply writes_only_claim. rewrite list.Forall_forall in Hf2. cbn. repeat constructor; cbn; auto.
    + done.
Qed.
(** ** Copying

    [s0] is the state before the new table existed, [s1] the one where copying
    starts, [D] the buckets locked so far, [m] the number of allocations the
    allocator can still serve and [acc] the entries copied so far. *)

Record copy_inv (s0 s1 : state) (D : list Z) (ht t n : Z) (m : nat) (acc : list (Z * Z)) (s : state) : Prop := {
  ci_rep : exists lay, new_rep s0 s ht t n lay /\ content s lay ≡ₚ acc;
  ci_writes : writes_only (copy_writes s0 D) s1 s;
  ci_fields : other_fields s1 s;
  ci_glob : glob s = glob s1;
  ci_allocs : allocs_ok (replicate m sizeof_bucket_t) (owner s);
}.

(** Entries that can be added to those copied so far. *)
Definition addable (kvs acc : list (Z * Z)) : Prop :=
  NoDup (kvs ++ acc).*1 /\ Forall (fun kv => 0 < kv.1 < 2 ^ 64) kvs /\
  Z.of_nat (length (kvs ++ acc)) < 2 ^ 31.

Lemma copy_inv_perm s0 s1 D ht t n m acc acc' s :
  acc ≡ₚ acc' -> copy_inv s0 s1 D ht t n m acc s -> copy_inv s0 s1 D ht t n m acc' s.
Proof. intros E [(lay & NR & C) ? ? ? ?]. split; eauto. exists lay. now rewrite C. Qed.

Lemma addable_perm kvs kvs' acc acc' :
  kvs ≡ₚ kvs' -> acc ≡ₚ acc' -> addable kvs acc -> addable kvs' acc'.
Proof. intros E1 E2 (A1 & A2 & A3). unfold addable. now rewrite <- E1, <- E2. Qed.

Lemma addable_app k1 k2 acc : addable (k1 ++ k2) acc -> addable k1 acc /\ addable k2 (k1 ++ acc).
Proof.
  intros (A1 & A2 & A3). apply Forall_app in A2 as [A21 A22].
  assert (E : (k1 ++ k2) ++ acc ≡ₚ k2 ++ k1 ++ acc).
  { rewrite (Permutation_app_comm k1 k2). now rewrite <- app_assoc. }
  unfold addable. rewrite E in A1, A3. repeat split; try done.
  - rewrite fmap_app in A1. apply list.NoDup_app in A1. tauto.
  - rewrite !length_app in *. lia.
Qed.

Lemma put_seq_ok s0 s1 D ht t n m acc s key val :
  copy_inv s0 s1 D ht t n (S m) acc s -> owner_grows s0 s1 -> addable [(key, val)] acc ->
  exists s', clht_put_seq ht key val (Z.land key (n - 1)) s = Ok (tt, s') /\
             copy_inv s0 s1 D ht t n m ((key, val) :: acc) s'.
Proof.
  intros [(lay & NR & Hc) W F G A] Hg0 (A1 & A2 & A3).
  assert (Hg : owner_grows s0 s) by (intros x Hx; apply W; auto).
  assert (Hk : key ∉ (content s lay).*1).
  { rewrite Hc. cbn in A1. now apply list.NoDup_cons in A1 as [? _]. }
  assert (Hcnt : Z.of_nat (S (length (content s lay))) < 2 ^ 31) by (rewrite Hc; exact A3).
  apply list.Forall_cons in A2 as [A2 _]. cbn [fst] in A2.
  pose proof (nr_rep _ _ _ _ _ _ NR) as R. pose proof (tr_ht _ _ _ _ _ R) as Hht.
  destruct (table_rep_key_chain _ _ _ _ _ key R) as (i & l & Hi & Hl & E & Hch & Hhd & Hok & Hnd). subst i.
  pose proof (put_seq_loop_ok (S (size (owner s))) s ht _ l key val Hch (hd_error_ne _ _ Hhd) Hok
                (Nat.le_le_succ_r _ _ (chain_bound _ _ Hnd Hok)) Hht) as Hrun.
  assert (Hmono : forall c, fresh s0 c.1 -> copy_writes s0 D c) by (now left).
  assert (Hres : forall s' lay', new_rep s0 s' ht t n lay' -> content s' lay' ≡ₚ (key, val) :: content s lay ->
            writes_only (fun c => fresh s0 c.1) s s' -> other_fields s s' -> glob s' = glob s ->
            allocs_ok (replicate m sizeof_bucket_t) (owner s') ->
            copy_inv s0 s1 D ht t n m ((key, val) :: acc) s').
  { intros s' lay' N1 C1 W1 F1 G1 A4. split; [exists lay'; now rewrite C1, Hc| | |congruence|done].
    - apply (writes_only_trans _ _ s); [done|]. exact (writes_only_mono _ _ _ _ Hmono W1).
    - intros p f Hf Hx. now rewrite F1, F by done. }
  unfold clht_put_seq. run. rewrite (tr_table _ _ _ _ _ R), E. run.
  destruct (chain_empty s l) as [[eb ej]|] eqn:He.
  - eexists. split; [exact Hrun|].
    destruct (put_seq_slot_rep s0 s ht t n lay key val l eb ej) as (N1 & C1 & W1 & F1); try done.
    apply (Hres _ lay); try done. apply (allocs_ok_fewer (S m)); [lia|done].
  - cbn in A. destruct (pick (owner s) sizeof_bucket_t) as [nb|] eqn:Hp; [|done].
    eexists. split; [exact (Hrun nb eq_refl)|].
    destruct (put_seq_new_rep s0 s ht t n lay key val l nb) as (N1 & C1 & W1 & F1); try done.
    eapply Hres; try done.
Qed.
(** Old buckets, their locks aside, are not written while copying. *)
Lemma copy_old_rd s0 s1 D ht t n m acc s b f :
  copy_inv s0 s1 D ht t n m acc s -> ok_bucket (owner s0) b -> (f ≠ B_lock \/ b ∉ D) ->
  rd s (b, f) = rd s1 (b, f).
Proof.
  intros CI (_ & _ & [x Hb]) Hf. apply (writes_only_rd _ _ _ _ (ci_writes _ _ _ _ _ _ _ _ _ CI)).
  intros [Hfr|[E Hin]]; [|naive_solver]. unfold fresh in Hfr. cbn in Hfr. congruence.
Qed.

Lemma copy_old_ok s0 s1 D ht t n m acc s b :
  copy_inv s0 s1 D ht t n m acc s -> owner_grows s0 s1 -> ok_bucket (owner s0) b -> ok_bucket (owner s) b.
Proof.
  intros [_ [Ho _] _ _ _] Hg. apply ok_bucket_mono. intros x Hx. apply Ho. auto.
Qed.

Lemma cpy_entries_ok s0 s1 D ht t n m b js acc s :
  copy_inv s0 s1 D ht t n (length (filter used (slot s1 b <$> js)) + m) acc s ->
  owner_grows s0 s1 -> ok_bucket (owner s0) b -> (forall j, j ∈ js -> j ∈ entries) ->
  addable (filter used (slot s1 b <$> js)) acc ->
  exists s', cfor js (cpy_entry b ht) s = Ok (tt, s') /\
             copy_inv s0 s1 D ht t n m (filter used (slot s1 b <$> js) ++ acc) s'.
Proof.
  revert acc s. induction js as [|j js IH]; intros acc s CI Hg Hb Hjs Ha.
  { exists s. done. }
  pose proof (copy_old_ok _ _ _ _ _ _ _ _ _ _ CI Hg Hb) as Hb'.
  destruct (entries_fld _ (Hjs j ltac:(left))) as [Hk Hv].
  rewrite fmap_cons, filter_used_cons in CI, Ha |- *. cbn [cfor]. unfold cpy_entry at 1. run.
  rewrite (copy_old_rd _ _ _ _ _ _ _ _ _ b (B_key j) CI Hb) by now left.
  assert (Hjs' : forall j, j ∈ js -> j ∈ entries) by set_solver.
  destruct (Z.eqb_spec (rd s1 (b, B_key j)) 0) as [E|E].
  - rewrite (filter_cons_False used (slot s1 b j)) in CI, Ha |- * by (unfold used, slot; simpl; lia).
    run. apply IH; done.
  - rewrite (filter_cons_True used (slot s1 b j)) in CI, Ha |- * by (unfold used, slot; simpl; lia).
    change (filter used []) with (@nil (Z * Z)) in *. cbn [length app] in *.
    apply (addable_app [slot s1 b j]) in Ha as [Ha1 Ha2].
    destruct (ci_rep _ _ _ _ _ _ _ _ _ CI) as (lay & NR & _). pose proof (nr_rep _ _ _ _ _ _ NR) as R.
    pose proof (tr_ht _ _ _ _ _ R) as Hht. unfold clht_hash. run.
    rewrite (tr_hash _ _ _ _ _ R), (copy_old_rd _ _ _ _ _ _ _ _ _ b (B_val j) CI Hb) by now left.
    destruct (put_seq_ok _ _ _ _ _ _ _ _ _ _ _ CI Hg Ha1) as (s' & Hrun & CI').
    rewrite (cbind_Ok _ _ _ _ _ Hrun).
    destruct (IH ((rd s1 (b, B_key j), rd s1 (b, B_val j)) :: acc) s' CI' Hg Hb Hjs' Ha2) as (s'' & Hrun' & CI'').
    exists s''. split; [exact Hrun'|]. eapply copy_inv_perm; [|exact CI''].
    unfold slot at 2. symmetry. apply Permutation_middle.
Qed.

Lemma bucket_cpy_loop_ok s0 s1 D ht t n m fuel b l acc s :
  copy_inv s0 s1 D ht t n (length (ccontent s1 l) + m) acc s -> owner_grows s0 s1 ->
  chain s1 b l -> l ≠ [] -> Forall (ok_bucket (owner s0)) l -> (length l <= fuel)%nat ->
  addable (ccontent s1 l) acc ->
  exists s', bucket_cpy_loop fuel b ht s = Ok (tt, s') /\
             copy_inv s0 s1 D ht t n m (ccontent s1 l ++ acc) s'.
Proof.
  revert b l acc s. induction fuel as [|fuel IH]; intros b l acc s CI Hg Hc Hne Hok Hlen Ha.
  { destruct l; [done|simpl in Hlen; lia]. }
  assert (Hok1 : Forall (ok_bucket (owner s1)) l).
  { eapply list.Forall_impl; [exact Hok|]. intros x. now apply ok_bucket_mono. }
  destruct (chain_next _ _ _ Hc Hne Hok1) as (l' & -> & _ & Hc' & _ & Hnull).
  apply list.Forall_cons in Hok as [Hb Hok].
  unfold ccontent in CI, Ha |- *. rewrite cslots_cons, list.filter_app in CI, Ha |- *.
  fold (ccontent s1 l') in CI, Ha |- *. rewrite length_app, <- Nat.add_assoc in CI.
  apply addable_app in Ha as [Ha1 Ha2]. cbn [bucket_cpy_loop].
  destruct (cpy_entries_ok _ _ _ _ _ _ _ b entries _ _ CI Hg Hb (fun _ H => H) Ha1) as (s' & Hrun & CI').
  fold (bslots s1 b) in CI'. rewrite (cbind_Ok _ _ _ _ _ Hrun).
  pose proof (copy_old_ok _ _ _ _ _ _ _ _ _ _ CI' Hg Hb) as Hb'. do_load.
  rewrite (copy_old_rd _ _ _ _ _ _ _ _ _ b B_next CI' Hb) by now left.
  rewrite Hnull. case_bool_decide as Hn.
  - subst l'. exists s'. split; [done|]. now rewrite app_nil_r.
  - destruct (IH _ l' _ s' CI' Hg Hc' Hn Hok ltac:(simpl in Hlen; lia) Ha2) as (s'' & Hrun' & CI'').
    exists s''. split; [exact Hrun'|]. eapply copy_inv_perm; [|exact CI''].
    rewrite app_assoc. now rewrite (Permutation_app_comm (ccontent s1 l')).
Qed.
(** Locking an old bucket for the resize. *)
Lemma copy_inv_lock s0 s1 D ht t n m acc s b v :
  copy_inv s0 s1 D ht t n m acc s -> ok_bucket (owner s0) b ->
  copy_inv s0 s1 (b :: D) ht t n m acc (do_ev (ESt (b, B_lock) v) s).
Proof.
  intros [(lay & [R F1 F2 Dn E Sm Ul] & C) W F G A] Hb. set (s' := do_ev (ESt (b, B_lock) v) s).
  assert (Hs : forall x, same_bucket s s' x) by (intros; apply lock_same_bucket).
  assert (Hc : content s' lay = content s lay) by (apply content_frame; auto).
  split; try done.
  - exists lay. rewrite Hc. split; [|done]. split; try done; [| |rewrite <- E; now apply rd_ESt_ne|now rewrite Hc|].
    + apply (table_rep_frame s); auto; [|now intros x]. repeat split; now apply rd_ESt_ne.
    + eapply list.Forall_impl; [exact Dn|]. intros l. apply dense_frame. intros x _. apply Hs.
    + rewrite list.Forall_forall in Ul, F2 |- *. intros x Hx. rewrite <- (Ul x Hx). apply rd_ESt_ne.
      intros [= ->]. specialize (F2 x Hx). destruct Hb as (_ & _ & [? ?]). unfold fresh in F2. congruence.
  - apply (writes_only_trans _ _ s).
    + eapply writes_only_mono; [|exact W]. intros c [Hc'|[? ?]]; [now left|right; set_solver].
    + apply (writes_only_evs _ [ESt (b, B_lock) v]). cbn. constructor; [|constructor]. right. set_solver.
  - intros p f Hf Hx. rewrite <- F by done. apply rd_ESt_ne. intros [= -> <-]. done.
Qed.

Lemma bucket_cpy_ok s0 s1 D ht t n m b l acc s :
  copy_inv s0 s1 D ht t n (length (ccontent s1 l) + m) acc s -> owner_grows s0 s1 ->
  chain s1 b l -> l ≠ [] -> Forall (ok_bucket (owner s0)) l -> NoDup l ->
  rd s1 (b, B_lock) = LOCK_FREE -> b ∉ D -> addable (ccontent s1 l) acc ->
  exists s', bucket_cpy b ht s = Ok (1, s') /\
             copy_inv s0 s1 (b :: D) ht t n m (ccontent s1 l ++ acc) s'.
Proof.
  intros CI Hg Hc Hne Hok Hnd Hl HD Ha.
  assert (Hb : ok_bucket (owner s0) b).
  { destruct l; [done|]. destruct Hc as [-> _]. now apply list.Forall_cons in Hok as [? _]. }
  pose proof (copy_old_ok _ _ _ _ _ _ _ _ _ _ CI Hg Hb) as Hb'.
  rewrite <- (copy_old_rd _ _ _ _ _ _ _ _ _ b B_lock CI Hb ltac:(now right)) in Hl.
  unfold bucket_cpy, lock_acq_resize.
  rewrite cbind_assoc, (cbind_Ok _ _ _ _ _ (cas_success s (b, B_lock) LOCK_FREE LOCK_RESIZE ltac:(field_live) Hl)).
  change (LOCK_FREE =? LOCK_UPDATE) with false. change (LOCK_FREE =? LOCK_RESIZE) with false.
  cbn match. run. change (1 =? 0) with false. cbn match.
  apply (copy_inv_lock _ _ _ _ _ _ _ _ _ b LOCK_RESIZE) in CI; [|done].
  assert (Hlen : (length l <= size (owner s))%nat).
  { apply chain_bound; [done|]. eapply list.Forall_impl; [exact Hok|]. intros x Hx.
    exact (copy_old_ok _ _ _ _ _ _ _ _ _ _ CI Hg Hx). }
  destruct (bucket_cpy_loop_ok _ _ _ _ _ _ _ (S (size (owner s))) b l _ _ CI Hg Hc Hne Hok
              (Nat.le_le_succ_r _ _ Hlen) Ha) as (s' & Hrun & CI').
  exists s'. split; [|done]. run. now rewrite (cbind_Ok _ _ _ _ _ Hrun).
Qed.

Lemma copy_loop_ok s0 s1 ht t n m ht0 t0 lays k D acc s :
  copy_inv s0 s1 D ht t n (length (content s1 lays) + m) acc s -> owner_grows s0 s1 ->
  ok_obj (owner s0) ht0 -> rd s1 (ht0, H_table) = t0 -> 0 <= k ->
  (forall i l, lays !! i = Some l ->
     hd_error l = Some (bucket_at t0 (k + Z.of_nat i)) /\ chain s1 (bucket_at t0 (k + Z.of_nat i)) l /\
     Forall (ok_bucket (owner s0)) l /\ NoDup l /\ rd s1 (bucket_at t0 (k + Z.of_nat i), B_lock) = LOCK_FREE) ->
  (forall b, b ∈ D -> exists j, 0 <= j < k /\ b = bucket_at t0 j) ->
  addable (content s1 lays) acc ->
  exists s' D', cfor_ret (seqZ k (Z.of_nat (length lays))) (fun b =>
      table <- load (ht0, H_table);
      ret <- bucket_cpy (bucket_at table b) ht;
      cret (if ret =? 0 then Some tt else None)) s = Ok (None, s') /\
    copy_inv s0 s1 D' ht t n m (content s1 lays ++ acc) s' /\
    (forall b, b ∈ D' -> exists j, 0 <= j < k + Z.of_nat (length lays) /\ b = bucket_at t0 j).
Proof.
  revert k D acc s. induction lays as [|l lays IH]; intros k D acc s CI Hg Hht0 Ht0 Hk Hlays HD Ha.
  { exists s, D. split; [done|]. split; [done|]. intros b Hb. destruct (HD b Hb) as (j & ? & ?). exists j. simpl. lia. }
  destruct (Hlays 0%nat l eq_refl) as (Hhd & Hc & Hok & Hnd & Hlock). rewrite Z.add_0_r in Hhd, Hc, Hlock.
  rewrite content_cons in CI, Ha |- *. rewrite length_app, <- Nat.add_assoc in CI.
  apply addable_app in Ha as [Ha1 Ha2].
  rewrite seqZ_cons by (simpl; lia). cbn [cfor_ret].
  assert (Hht : ok_obj (owner s) ht0).
  { eapply ok_obj_mono; [|exact Hht0]. intros x Hx. apply (ci_writes _ _ _ _ _ _ _ _ _ CI). auto. }
  run. rewrite (ci_fields _ _ _ _ _ _ _ _ _ CI) by done. rewrite Ht0.
  assert (Hnin : bucket_at t0 k ∉ D).
  { intros Hin. destruct (HD _ Hin) as (j & Hj & E). apply bucket_at_inj in E. lia. }
  destruct (bucket_cpy_ok _ _ _ _ _ _ _ (bucket_at t0 k) l _ _ CI Hg Hc (hd_error_ne _ _ Hhd) Hok Hnd Hlock Hnin Ha1)
    as (s' & Hrun & CI'). rewrite (cbind_Ok _ _ _ _ _ Hrun). cbn [Z.eqb]. run.
  destruct (IH (Z.succ k) _ _ s' CI' Hg Hht0 Ht0) as (s'' & D' & Hrun' & CI'' & HD'); [lia| | |done|].
  - intros i l' Hl'. destruct (Hlays (S i) l' Hl') as (? & ? & ? & ? & ?).
    replace (Z.succ k + Z.of_nat i) with (k + Z.of_nat (S i)) by lia. done.
  - intros b Hb. apply elem_of_cons in Hb as [->|Hb]; [exists k; split; [lia|done]|].
    destruct (HD b Hb) as (j & ? & ?). exists j. split; [lia|done].
  - exists s'', D'. replace (Z.pred (Z.of_nat (length (l :: lays)))) with (Z.of_nat (length lays)) by (simpl; lia).
    split; [exact Hrun'|]. split.
    + eapply copy_inv_perm; [|exact CI'']. rewrite app_assoc. now rewrite (Permutation_app_comm (content s1 lays)).
    + intros b Hb. destruct (HD' b Hb) as (j & ? & ?). exists j. cbn [length]. split; [lia|done].
Qed.

End Copy.
