(* ===== verification/ClhtResize.v ===== *)
(** * Resizing

    [ht_resize_pes] creates and fills a table of the new size, makes it persistent,
    switches the index to it and hands the old one to ssmem; [ht_status] decides when.
    A resize preserves the abstract map, before the switch it writes nothing but new
    memory, bucket locks and bookkeeping words, and it never makes another resize
    necessary, so that [clht_put] always returns. *)

From S2P Require Import Prelude Utils Memory Ssmem SsmemProps Clht ClhtRep ClhtUpdate ClhtCopy.

Section Resize.
Context `{Malloc}.

(** ** Flushing the new table *)

Definition flush_evs (l : list Z) : list ev := (fun b => EFl (line b)) <$> l.

(** The body of the flushing loop. *)
Definition flush_body (fuel : nat) (ptr : Z) : M unit :=
  flush_line ptr;;
  next <- load (ptr, B_next);
  if next =? NULL then cret tt
  else next <- load (ptr, B_next); clflush_next_check fuel next sizeof_bucket_t false.

Lemma flush_ptrs_buckets t n :
  aligned t -> t < 2 ^ 64 -> 0 < n -> n * sizeof_bucket_t < 2 ^ 31 ->
  flush_ptrs t (i32 (n * sizeof_bucket_t)) = bucket_at t <$> seqZ 0 n.
Proof.
  intros Ha Ht Hn Hs. unfold sizeof_bucket_t in *. rewrite i32_small by lia.
  replace t with (t + 0) at 1 by lia. rewrite flush_ptrs_base; [|done..|unfold CACHE_LINE_SIZE; lia].
  replace ((0 + n * 64 + CACHE_LINE_SIZE - 1) / CACHE_LINE_SIZE) with n; [done|].
  unfold CACHE_LINE_SIZE. Z.div_mod_to_equations. lia.
Qed.

Lemma flush_line_ok s b : ok_bucket (owner s) b -> flush_line b s = Ok (tt, do_ev (EFl (line b)) s).
Proof. intros (_ & _ & Hb). unfold flush_line, live. now rewrite bool_decide_true. Qed.

Lemma clflush_next_unfold fuel data len s :
  clflush_next_check (S fuel) data len false s = cfor (flush_ptrs data (i32 len)) (flush_body fuel) s.
Proof.
  cbn [clflush_next_check]. run. unfold flush_body, cbind at 1.
  destruct (cfor _ _ s) as [[[] s']|e]; reflexivity.
Qed.

Lemma flush_chain_ok fuel s b l :
  chain s b l -> l ≠ [] -> Forall (ok_bucket (owner s)) l -> (length l <= S fuel)%nat ->
  flush_body fuel b s = Ok (tt, do_evs (flush_evs l) s).
Proof.
  revert fuel s b. induction l as [|a l IH]; intros fuel s b Hc Hne Hok Hlen; [done|].
  destruct (chain_next _ _ _ Hc Hne Hok) as (l' & [= -> <-] & Hb & Hc' & Hok' & Hnull).
  unfold flush_body. rewrite (cbind_Ok _ _ _ _ _ (flush_line_ok s b Hb)).
  set (s1 := do_ev (EFl (line b)) s).
  assert (Hb1 : ok_bucket (owner s1) b) by exact Hb. do_load.
  change (rd s1 (b, B_next)) with (rd s (b, B_next)). rewrite Hnull. case_bool_decide as Hn.
  { subst l. done. }
  do_load. change (rd s1 (b, B_next)) with (rd s (b, B_next)).
  destruct fuel as [|fuel]; [destruct l; [done|simpl in Hlen; lia]|].
  destruct (chain_next _ _ _ Hc' Hn Hok') as (l2 & El & Hb2 & _).
  rewrite clflush_next_unfold. change sizeof_bucket_t with (1 * sizeof_bucket_t).
  destruct Hb2 as (Ha2 & Hlt2 & _). rewrite flush_ptrs_buckets; [|done..|unfold sizeof_bucket_t; lia].
  change (seqZ 0 1) with [0]. rewrite fmap_cons. unfold bucket_at at 1. rewrite Z.mul_0_r, Z.add_0_r.
  cbn [cfor fmap list_fmap].
  rewrite (cbind_Ok _ _ _ _ _ (IH fuel s1 _ (chain_frame s s1 _ _ (fun _ _ => conj eq_refl eq_refl) Hc')
             Hn Hok' ltac:(simpl in Hlen; lia))). reflexivity.
Qed.

Lemma cells_flush l s : cells (do_evs (flush_evs l) s) = cells s.
Proof. revert s. induction l as [|x l IH]; intros s; [done|]. exact (IH (do_ev (EFl (line x)) s)). Qed.

Lemma flush_loop_ok fuel t lays k s :
  0 <= k ->
  (forall i l, lays !! i = Some l ->
     hd_error l = Some (bucket_at t (k + Z.of_nat i)) /\ chain s (bucket_at t (k + Z.of_nat i)) l /\
     Forall (ok_bucket (owner s)) l /\ (length l <= S fuel)%nat) ->
  cfor (bucket_at t <$> seqZ k (Z.of_nat (length lays))) (flush_body fuel) s
  = Ok (tt, do_evs (flush_evs (concat lays)) s).
Proof.
  revert k s. induction lays as [|l lays IH]; intros k s Hk Hl; [done|].
  destruct (Hl 0%nat l eq_refl) as (Hhd & Hc & Hok & Hlen). rewrite Z.add_0_r in Hhd, Hc.
  rewrite seqZ_cons by (simpl; lia). rewrite fmap_cons. cbn [cfor].
  rewrite (cbind_Ok _ _ _ _ _ (flush_chain_ok fuel s _ l Hc (hd_error_ne _ _ Hhd) Hok Hlen)).
  replace (Z.pred (Z.of_nat (length (l :: lays)))) with (Z.of_nat (length lays)) by (simpl; lia).
  assert (Hs : forall b, same_bucket s (do_evs (flush_evs l) s) b).
  { intros b. apply same_bucket_rd. intros f _ _. apply rd_cells, cells_flush. }
  rewrite IH; [|lia|].
  - cbn [concat]. unfold flush_evs. now rewrite fmap_app, do_evs_app.
  - intros i l' Hl'. destruct (Hl (S i) l' Hl') as (? & ? & ? & ?). rewrite owner_do_evs.
    replace (Z.succ k + Z.of_nat i) with (k + Z.of_nat (S i)) by lia.
    split; [done|]. split; [|done]. apply (chain_frame s); auto.
Qed.

Lemma flush_table_ok s ht t n lay :
  table_rep s ht t n lay -> n * sizeof_bucket_t < 2 ^ 31 ->
  clflush_next_check (S (size (owner s))) t (u64 (n * sizeof_bucket_t)) false s
  = Ok (tt, do_evs (flush_evs (concat lay)) s).
Proof.
  intros R Hs. pose proof (table_rep_pos _ _ _ _ _ R) as Hn. rewrite clflush_next_unfold.
  rewrite u64_small by (unfold sizeof_bucket_t in *; lia).
  assert (Hch : forall i l, lay !! i = Some l -> NoDup l /\ Forall (ok_bucket (owner s)) l).
  { intros i l Hl. pose proof (tr_nodup _ _ _ _ _ R) as Hnd. pose proof (tr_ok _ _ _ _ _ R) as Hok.
    rewrite <- (take_drop_middle lay i l Hl), NoDup_concat_middle in Hnd. split; [tauto|].
    rewrite list.Forall_forall in Hok |- *. eauto using elem_of_concat_lookup. }
  destruct (lay !! 0%nat) as [l0|] eqn:H0.
  2:{ apply lookup_ge_None in H0. rewrite (tr_len _ _ _ _ _ R) in H0. lia. }
  destruct (tr_chain _ _ _ _ _ R _ _ H0) as [Hhd _]. destruct (Hch _ _ H0) as [_ Hok0].
  destruct l0 as [|b0 l0]; [done|]. injection Hhd as ->. apply list.Forall_cons in Hok0 as [(Ha & Hlt & _) _].
  unfold bucket_at in Ha, Hlt. rewrite Z.mul_0_r, Z.add_0_r in Ha, Hlt.
  rewrite flush_ptrs_buckets by (done || lia).
  replace n with (Z.of_nat (length lay)) at 1 by (rewrite (tr_len _ _ _ _ _ R); lia).
  apply flush_loop_ok; [lia|]. intros i l Hl. rewrite Z.add_0_l.
  destruct (tr_chain _ _ _ _ _ R _ _ Hl) as [? ?]. destruct (Hch _ _ Hl) as [? ?].
  repeat split; try done. apply Nat.le_le_succ_r. now apply chain_bound.
Qed.

(** ** Handing the old table to ssmem *)

Definition same_mem (s s' : state) : Prop :=
  cells s' = cells s /\ owner s' = owner s /\ trace s' = trace s /\ my_tls s' = my_tls s.

(** The blocks waiting to be given back, newest first. *)
Definition released_blocks (al : ssmem_allocator_t) : list Z := rel_mem <$> a_released_mem_list al.

(** The calling thread's allocator when [clht] is the only user of ssmem. *)
Definition gc_inv (s : state) (L : list Z) (al : ssmem_allocator_t) : Prop :=
  release_only s (clht_alloc (my_tls s)) L al.

Lemma same_mem_refl s : same_mem s s.
Proof. done. Qed.

Lemma same_mem_trans s1 s2 s3 : same_mem s1 s2 -> same_mem s2 s3 -> same_mem s1 s3.
Proof. intros (? & ? & ? & ?) (? & ? & ? & ?). repeat split; congruence. Qed.

Lemma same_mem_rd s s' c : same_mem s s' -> rd s' c = rd s c.
Proof. intros (E & _). now apply rd_cells. Qed.

Lemma same_mem_bucket s s' b : same_mem s s' -> same_bucket s s' b.
Proof. intros E. apply same_bucket_rd. intros f _ _. now apply same_mem_rd. Qed.

Lemma release_one s L al obj :
  gc_inv s L al ->
  exists s' al', ssmem_release (clht_alloc (my_tls s)) obj s = Ok (tt, s') /\ same_mem s s' /\
    gc_inv s' L al' /\ released_blocks al' = obj :: released_blocks al.
Proof.
  intros I. destruct (release_keeps _ _ _ _ obj I) as [Hrun Hinv].
  eexists _, _. split; [exact Hrun|]. done.
Qed.

Lemma release_chain_ok n s b l L al :
  gc_inv s L al -> chain s b l -> Forall (ok_bucket (owner s)) l -> (length l <= n)%nat ->
  exists s' al', release_chain n b s = Ok (tt, s') /\ same_mem s s' /\ gc_inv s' L al' /\
    released_blocks al' = rev l ++ released_blocks al.
Proof.
  revert s b l al. induction n as [|n IH]; intros s b l al I Hc Hok Hlen.
  { destruct l; [|simpl in Hlen; lia]. simpl in Hc. subst. exists s, al. done. }
  destruct l as [|a l]; [simpl in Hc; subst; exists s, al; done|].
  destruct Hc as [-> Hc]. apply list.Forall_cons in Hok as [Ha Hok].
  assert (Hnz : a ≠ NULL) by (destruct Ha as [[Hpos _] _]; unfold NULL; lia).
  cbn [release_chain]. rewrite (proj2 (Z.eqb_neq a NULL) Hnz). run.
  unfold get_tls, cgets. unfold cbind at 1.
  destruct (release_one s L al a I) as (s1 & al1 & Hrun & Hm & I1 & Hr).
  rewrite (cbind_Ok _ _ _ _ _ Hrun).
  destruct (IH s1 (rd s (a, B_next)) l al1 I1) as (s2 & al2 & Hrun2 & Hm2 & I2 & Hr2).
  - apply (chain_frame s); [|done]. intros x _. now apply same_mem_bucket.
  - destruct Hm as (_ & -> & _). done.
  - simpl in Hlen. lia.
  - exists s2, al2. split; [exact Hrun2|]. split; [eauto using same_mem_trans|]. split; [done|].
    rewrite Hr2, Hr. cbn. now rewrite <- app_assoc.
Qed.

Lemma release_bins_ok s ht t n lay k lays L al :
  gc_inv s L al -> table_rep s ht t n lay -> 0 <= k ->
  (forall i l, lays !! i = Some l -> lay !! (Z.to_nat k + i)%nat = Some l) ->
  exists s' al', cfor (seqZ k (Z.of_nat (length lays))) (fun bin =>
      table <- load (ht, H_table);
      next <- load (bucket_at table bin, B_next);
      n <- walk_bound;
      release_chain n next) s = Ok (tt, s') /\ same_mem s s' /\ gc_inv s' L al' /\
    released_blocks al' = rev (lays ≫= tail) ++ released_blocks al.
Proof.
  revert k s al. induction lays as [|l lays IH]; intros k s al I R Hk Hlays.
  { exists s, al. done. }
  pose proof (Hlays 0%nat l eq_refl) as Hl. rewrite Nat.add_0_r in Hl.
  destruct (tr_chain _ _ _ _ _ R _ _ Hl) as [Hhd Hc]. rewrite Z2Nat.id in Hhd, Hc by lia.
  pose proof (tr_ok _ _ _ _ _ R) as Hok. pose proof (tr_nodup _ _ _ _ _ R) as Hnd.
  rewrite <- (take_drop_middle lay _ l Hl), NoDup_concat_middle in Hnd. destruct Hnd as [Hnd _].
  assert (Hokl : Forall (ok_bucket (owner s)) l).
  { rewrite list.Forall_forall in Hok |- *. eauto using elem_of_concat_lookup. }
  destruct (chain_next _ _ _ Hc (hd_error_ne _ _ Hhd) Hokl) as (l' & -> & Hb & Hc' & Hok' & _).
  pose proof (tr_ht _ _ _ _ _ R) as Hht.
  rewrite seqZ_cons by (simpl; lia). cbn [cfor]. run. rewrite (tr_table _ _ _ _ _ R). run.
  apply list.NoDup_cons in Hnd as [_ Hnd'].
  destruct (release_chain_ok (S (size (owner s))) s _ l' L al I Hc' Hok'
              (Nat.le_le_succ_r _ _ (chain_bound _ _ Hnd' Hok'))) as (s1 & al1 & Hrun & Hm & I1 & Hr).
  rewrite (cbind_Ok _ _ _ _ _ Hrun).
  destruct (IH (Z.succ k) s1 al1 I1) as (s2 & al2 & Hrun2 & Hm2 & I2 & Hr2).
  - apply (table_rep_frame s); [done| | |].
    + repeat split; now apply same_mem_rd.
    + intros x. destruct Hm as (_ & -> & _). done.
    + intros b _. now apply same_mem_bucket.
  - lia.
  - intros i x Hx. specialize (Hlays (S i) x Hx).
    replace (Z.to_nat (Z.succ k) + i)%nat with (Z.to_nat k + S i)%nat by lia. done.
  - exists s2, al2. replace (Z.pred (Z.of_nat (length ((bucket_at t k :: l') :: lays)))) with (Z.of_nat (length lays)) by (simpl; lia).
    split; [exact Hrun2|]. split; [eauto using same_mem_trans|]. split; [done|].
    rewrite bind_cons, rev_app_distr, Hr2, Hr. cbn. now rewrite <- app_assoc.
Qed.

(** [clht_gc_release] hands every overflow bucket, the array and the table object to
    ssmem, once each. *)
Lemma gc_release_ok s ht t n lay L al :
  gc_inv s L al -> table_rep s ht t n lay ->
  exists s' al', clht_gc_release ht s = Ok (1, s') /\ same_mem s s' /\ gc_inv s' L al' /\
    released_blocks al' = ht :: t :: rev (lay ≫= tail) ++ released_blocks al.
Proof.
  intros I R. pose proof (tr_ht _ _ _ _ _ R) as Hht. unfold clht_gc_release. run.
  rewrite (tr_num _ _ _ _ _ R).
  destruct (release_bins_ok s ht t n lay 0 lay L al I R ltac:(lia) (fun i l Hl => Hl))
    as (s1 & al1 & Hrun & Hm & I1 & Hr).
  replace (Z.of_nat (length lay)) with n in Hrun
    by (rewrite (tr_len _ _ _ _ _ R); pose proof (table_rep_pos _ _ _ _ _ R); lia).
  rewrite (cbind_Ok _ _ _ _ _ Hrun). unfold get_tls, cgets. unfold cbind at 1.
  assert (Hht1 : ok_obj (owner s1) ht) by (destruct Hm as (_ & -> & _); done). run.
  rewrite (same_mem_rd _ _ _ Hm), (tr_table _ _ _ _ _ R).
  destruct (release_one s1 L al1 t I1) as (s2 & al2 & Hrun2 & Hm2 & I2 & Hr2).
  rewrite (cbind_Ok _ _ _ _ _ Hrun2).
  destruct (release_one s2 L al2 ht I2) as (s3 & al3 & Hrun3 & Hm3 & I3 & Hr3).
  replace (my_tls s1) with (my_tls s2) by apply Hm2. rewrite (cbind_Ok _ _ _ _ _ Hrun3).
  exists s3, al3. split; [done|]. split; [eauto using same_mem_trans|]. split; [done|]. now rewrite Hr3, Hr2, Hr.
Qed.
(** ** Creating the new table *)

Definition start_evs (ht ht' version : Z) : list ev :=
  [ESt (ht', H_version) version; ESt (ht, H_table_tmp) ht'].

Lemma do_evs_same_bucket evs s b :
  Forall (fun c : cell => bucket_fld c.2 = false) (evs ≫= ev_writes) -> same_bucket s (do_evs evs s) b.
Proof.
  intros F. apply same_bucket_evs. eapply list.Forall_impl; [exact F|]. auto.
Qed.

(** Events on header words the representation does not read keep a new table. *)
Lemma new_rep_evs s0 s evs ht t n lay :
  new_rep s0 s ht t n lay ->
  Forall (fun c : cell => bucket_fld c.2 = false /\ header_fld c.2 = false /\ c.2 ≠ H_num_expands)
         (evs ≫= ev_writes) ->
  new_rep s0 (do_evs evs s) ht t n lay /\ content (do_evs evs s) lay = content s lay.
Proof.
  intros [R F1 F2 D E Sm U] F. rewrite list.Forall_forall in F.
  assert (Hb : forall b, same_bucket s (do_evs evs s) b).
  { intros b. apply do_evs_same_bucket. apply list.Forall_forall. intros c Hc. now apply F in Hc. }
  assert (Hc : content (do_evs evs s) lay = content s lay) by (apply content_frame; auto).
  split; [|done]. split; try done; [| | |now rewrite Hc|].
  - apply (table_rep_frame s); auto; [|intros x; now rewrite owner_do_evs].
    apply same_header_evs. apply list.Forall_forall. intros c Hc'. now apply F in Hc'.
  - eapply list.Forall_impl; [exact D|]. intros l. apply dense_frame. intros b _. apply Hb.
  - rewrite <- E. apply rd_do_evs_frame. intros Hc'. now apply F in Hc' as (_ & _ & ?).
  - eapply list.Forall_impl; [exact U|]. intros b <-. apply rd_do_evs_frame. intros Hc'.
    now apply F in Hc' as [? _].
Qed.

Lemma copy_start s0 ht ht' t' k m version :
  let n' := 2 ^ k in
  0 <= k < 32 -> pick (owner s0) sizeof_clht_hashtable_t = Some ht' ->
  pick (claim_lines ht' sizeof_clht_hashtable_t (owner s0)) (n' * sizeof_bucket_t) = Some t' ->
  allocs_ok (replicate m sizeof_bucket_t) (owner (with_table ht' t' n' s0)) ->
  let s1 := do_evs (create_evs ht' t' n' ++ start_evs ht ht' version) (with_table ht' t' n' s0) in
  copy_inv s0 s1 [] ht' t' n' m [] s1 /\
  writes_only (fun c => fresh s0 c.1 \/ c = (ht, H_table_tmp)) s0 s1 /\
  rd s1 (ht', H_num_expands_threshold) = n' /\ rd s1 (ht', H_is_helper) = 1.
Proof.
  intros n' Hk Hp1 Hp2 Ha s1. set (sc := do_evs (create_evs ht' t' n') (with_table ht' t' n' s0)).
  destruct (create_rep s0 ht' t' k Hk Hp1 Hp2) as [R C]. fold n' sc in R, C.
  destruct (create_fresh s0 ht' t' n' Hp1 Hp2) as (Fh & Ft & W). fold sc in W.
  destruct (create_reads (with_table ht' t' n' s0) ht' t' n') as (_ & _ & _ & Re & Rt & Ri & _).
  fold sc in Re, Rt, Ri.
  assert (Es1 : s1 = do_evs (start_evs ht ht' version) sc) by apply do_evs_app.
  assert (NR : new_rep s0 sc ht' t' n' (flat_layout t' n')).
  { split; try done.
    - apply list.Forall_forall. intros l Hl. apply list_elem_of_fmap in Hl as (i & -> & _). unfold dense. simpl. lia.
    - rewrite flat_layout_concat, length_fmap, length_seqZ, Re. subst n'. pose proof (pow2_pos k ltac:(lia)). lia.
    - now rewrite C.
    - rewrite flat_layout_concat. apply list.Forall_forall. intros b Hb.
      apply list_elem_of_fmap in Hb as (i & -> & Hi). rewrite elem_of_seqZ in Hi.
      apply create_bucket_zero; [lia|done]. }
  destruct (new_rep_evs _ _ (start_evs ht ht' version) _ _ _ _ NR) as [NR' C'].
  { cbn. repeat constructor; done. }
  rewrite <- Es1 in NR', C'. split; [|split; [|split]].
  - split; try done; [|apply writes_only_refl|].
    + exists (flat_layout t' n'). rewrite C', C. done.
    + rewrite Es1, owner_do_evs. unfold sc. now rewrite owner_do_evs.
  - apply (writes_only_trans _ _ sc); [eapply writes_only_mono; [|exact W]; now left|].
    rewrite Es1. apply writes_only_evs. cbn.
    constructor; [now left|]. constructor; [now right|constructor].
  - rewrite Es1, rd_do_evs_frame; [done|]. cbn. set_solver.
  - rewrite Es1, rd_do_evs_frame; [done|]. cbn. set_solver.
Qed.
(** ** The resize *)

(** What a resize writes before it switches the index to the new table. *)
Definition resize_writes (s : state) (h ht : Z) (c : cell) : Prop :=
  fresh s c.1 \/ c.2 = B_lock \/ c = (h, W_resize_lock) \/ c = (ht, H_is_helper) \/ c = (ht, H_table_tmp).

(** Words a quiescent index has between operations. *)
Definition resize_ready (s : state) (h ht : Z) : Prop :=
  rd s (h, W_resize_lock) = LOCK_FREE /\ rd s (ht, H_is_helper) = 1.
Definition clht_quiet (s : state) (h ht : Z) : Prop :=
  resize_ready s h ht /\ rd s (h, W_status_lock) = LOCK_FREE.

(** Cells of objects that existed before the resize. *)
Lemma resize_old_rd s s' h ht p f :
  writes_only (resize_writes s h ht) s s' -> is_Some (owner s !! line p) ->
  f ≠ B_lock -> f ≠ W_resize_lock -> f ≠ H_is_helper -> f ≠ H_table_tmp -> rd s' (p, f) = rd s (p, f).
Proof.
  intros W [x Hp] H1 H2 H3 H4. apply (writes_only_rd _ _ _ _ W). unfold resize_writes, fresh. cbn.
  intros [E|[E|[E|[E|E]]]]; simplify_eq.
Qed.

Lemma resize_old_bucket s s' h ht t n lay b :
  writes_only (resize_writes s h ht) s s' -> table_rep s ht t n lay -> b ∈ concat lay -> same_bucket s s' b.
Proof.
  intros W R Hb. pose proof (tr_ok _ _ _ _ _ R) as Hok. rewrite list.Forall_forall in Hok.
  destruct (Hok b Hb) as (_ & _ & Hl'). apply same_bucket_rd. intros f Hf Hne.
  apply (resize_old_rd _ _ _ _ _ _ W); try done; intros ->; done.
Qed.

Lemma resize_old_rep s s' h ht t n lay :
  writes_only (resize_writes s h ht) s s' -> table_rep s ht t n lay ->
  table_rep s' ht t n lay /\ content s' lay = content s lay.
Proof.
  intros W R. destruct (tr_ht _ _ _ _ _ R) as (_ & _ & Hl & _). split.
  - apply (table_rep_frame s); [done| |apply W|eauto using resize_old_bucket].
    repeat split; now apply (resize_old_rd _ _ _ _ _ _ W).
  - apply content_frame. eauto using resize_old_bucket.
Qed.

Lemma gc_inv_frame s s' L al :
  gc_inv s L al -> owner_grows s s' -> clht_alloc (my_tls s') = clht_alloc (my_tls s) ->
  allocs (glob s') = allocs (glob s) -> ssmem_ts_list (glob s') = ssmem_ts_list (glob s) ->
  ssmem_ts_list_len (glob s') = ssmem_ts_list_len (glob s) ->
  (forall p f, p ∈ L -> f = S_id \/ f = S_version \/ f = S_next -> rd s' (p, f) = rd s (p, f)) ->
  gc_inv s' L al.
Proof.
  unfold gc_inv. intros [A T N S Nm St] Hg Ht Ea El En Hrd. rewrite Ht.
  assert (Hst : forall arr, stamp s' L arr = stamp s L arr).
  { intros arr. unfold stamp. apply foldl_ext_in. intros p acc Hp. rewrite !Hrd by auto. done. }
  split; try done; [now rewrite Ea| |].
  - destruct T as [R Nd O I]. split; [|done| |].
    + rewrite El. clear -R Hrd. revert R. generalize (ssmem_ts_list (glob s)).
      induction L as [|p L IH]; intros cur; [done|]. simpl. intros [-> R]. split; [done|].
      rewrite Hrd by (auto; left). apply IH; [|done]. intros. apply Hrd; [now right|done].
    + eapply list.Forall_impl; [exact O|]. intros p (? & ? & ?). split; [done|]. auto.
    + rewrite list.Forall_forall in I |- *. intros p Hp. rewrite Hrd, En by auto. auto.
  - rewrite En. eapply list.Forall_impl; [exact St|]. intros r ->. now rewrite Hst.
Qed.
Definition resize_lock_evs (h ht : Z) (is_increase : bool) : list ev :=
  ESt (h, W_resize_lock) 255 :: if is_increase then [] else [ESt (ht, H_is_helper) 0].

(** The state in which the new table is created. *)
Definition resize_locked (h ht : Z) (is_increase : bool) (s : state) : state :=
  let t := my_tls s in
  do_evs (resize_lock_evs h ht is_increase)
    (set_my_tls (mkTls (ssmem_ts_local t) (ssmem_num_allocators t) (ssmem_allocator_list t)
                       (clht_alloc t) (clht_ts_thread t) CLHT_STATUS_INVOK) s).

Lemma resize_locked_writes h ht inc s : writes_only (resize_writes s h ht) s (resize_locked h ht inc s).
Proof.
  split; [intros l; unfold resize_locked; rewrite owner_do_evs; done|].
  exists (resize_lock_evs h ht inc). split; [now apply cells_do_evs|]. split; [unfold resize_locked; now rewrite trace_do_evs|].
  unfold resize_writes. destruct inc; cbn; repeat (constructor; [auto|]); constructor.
Qed.

(** The entries of a represented table can be copied into an empty one. *)
Lemma table_rep_addable s ht t n lay :
  table_rep s ht t n lay -> Z.of_nat (length (content s lay)) < 2 ^ 31 -> addable (content s lay) [].
Proof.
  intros R Hs. unfold addable. rewrite app_nil_r. split; [exact (tr_keys _ _ _ _ _ R)|]. split; [|done].
  apply list.Forall_forall. intros kv Hkv. apply list_elem_of_bind in Hkv as (l & Hkv & Hl).
  apply list_elem_of_filter in Hkv as [Hu Hkv]. apply list_elem_of_lookup in Hl as [i Hi].
  pose proof (tr_place _ _ _ _ _ R i l Hi) as Hp. rewrite list.Forall_forall in Hp.
  now destruct (Hp kv Hkv Hu).
Qed.

Lemma copy_buckets_ok s0 s1 ht t n lay ht' t' n' :
  copy_inv s0 s1 [] ht' t' n' (length (content s1 lay)) [] s1 -> owner_grows s0 s1 ->
  table_rep s1 ht t n lay -> ok_obj (owner s0) ht -> Forall (ok_bucket (owner s0)) (concat lay) ->
  unlocked s1 lay -> Z.of_nat (length (content s1 lay)) < 2 ^ 31 ->
  exists s2 D, copy_buckets ht ht' s1 = Ok (tt, s2) /\
    copy_inv s0 s1 D ht' t' n' 0 (content s1 lay) s2.
Proof.
  intros CI Hg R Hht Hok U Hs. pose proof (tr_nodup _ _ _ _ _ R) as Hnd.
  destruct (copy_loop_ok s0 s1 ht' t' n' 0 ht t lay 0 [] [] s1) as (s2 & D & Hrun & CI' & _); try done.
  - now rewrite Nat.add_0_r.
  - exact (tr_table _ _ _ _ _ R).
  - intros i l Hl. rewrite Z.add_0_l. destruct (tr_chain _ _ _ _ _ R i l Hl) as [Hh Hc].
    split; [done|]. split; [done|]. split; [|split].
    + rewrite list.Forall_forall in Hok |- *. eauto using elem_of_concat_lookup.
    + rewrite <- (take_drop_middle lay i l Hl), NoDup_concat_middle in Hnd. tauto.
    + unfold unlocked in U. rewrite list.Forall_forall in U. apply list_elem_of_lookup_2, U in Hl.
      destruct l as [|b l]; [done|]. injection Hh as ->. done.
  - set_solver.
  - eapply table_rep_addable; eauto.
  - exists s2, D. rewrite app_nil_r in CI'. split; [|done].
    unfold copy_buckets. pose proof (tr_ht _ _ _ _ _ R) as Hht1. run. rewrite (tr_num _ _ _ _ _ R).
    replace (Z.of_nat (length lay)) with n in Hrun
      by (rewrite (tr_len _ _ _ _ _ R); pose proof (table_rep_pos _ _ _ _ _ R); lia).
    now rewrite (cbind_Ok _ _ _ _ _ Hrun).
Qed.
(** The size of the new table. *)
Definition resize_size (is_increase : bool) (by_ n : Z) : Z :=
  if is_increase then u64 (by_ * n) else n / CLHT_RATIO_HALVE.

(** What the allocator must be able to serve during a resize to [n'] buckets. *)
Definition resize_allocs (n' : Z) (entries : nat) : list Z :=
  sizeof_clht_hashtable_t :: n' * sizeof_bucket_t :: replicate entries sizeof_bucket_t.

(** Up to the switch: the new table holds the old entries, the old one is intact. *)
Record resized (s : state) (h ht n' : Z) (old : list (Z * Z)) (is_increase : bool)
    (s1 : state) (ht' t' : Z) (lay' : list (list Z)) : Prop := {
  rz_writes : writes_only (resize_writes s h ht) s s1;
  rz_new : new_rep s s1 ht' t' n' lay';
  rz_content : content s1 lay' ≡ₚ old;
  rz_threshold : rd s1 (ht', H_num_expands_threshold) = n';
  rz_helper_new : rd s1 (ht', H_is_helper) = 1;
  rz_glob : glob s1 = glob (resize_locked h ht is_increase s);
}.

Lemma new_rep_base s0 s0' s ht t n lay :
  owner s0 = owner s0' -> new_rep s0 s ht t n lay -> new_rep s0' s ht t n lay.
Proof.
  intros E [R F1 F2 D Ex Sm U]. unfold fresh in *. rewrite E in F1. split; try done.
  eapply list.Forall_impl; [exact F2|]. intros b. unfold fresh. now rewrite E.
Qed.

Lemma resize_enter status s h ht t n lay inc by_ :
  clht_rep s h ht t n lay -> rd s (h, W_resize_lock) = LOCK_FREE ->
  ht_resize_pes_with status h inc by_ s =
  (ht_new <- clht_hashtable_create (resize_size inc by_ n);
   version <- load (ht, H_version);
   store (ht_new, H_version) (u64 (version + 1));;
   store (ht, H_table_tmp) ht_new;;
   copy_buckets ht ht_new;;
   is_helper <- load (ht, H_is_helper);
   (if inc && negb (is_helper =? 1) then
      helper_done <- load (ht, H_helper_done);
      if helper_done =? 1 then cret tt else cfail Hang
    else cret tt);;
   resize_switch status h ht ht_new (resize_size inc by_ n)) (resize_locked h ht inc s).
Proof.
  intros [Hh Hht R U] Q. pose proof (tr_ht _ _ _ _ _ R) as Hhto.
  unfold ht_resize_pes_with, set_check_ht_status_steps, get_tls, set_tls, cgets, cmod. run.
  unfold cbind at 1. unfold cbind at 1. set (sa := set_my_tls _ s).
  assert (Hh' : ok_obj (owner sa) h) by exact Hh. assert (Hht' : ok_obj (owner sa) ht) by exact Hhto.
  run. change (rd sa (h, W_ht)) with (rd s (h, W_ht)). rewrite Hht. unfold TRYLOCK_ACQ.
  rewrite (cbind_Ok _ _ _ _ _ (tas_ok sa (h, W_resize_lock) ltac:(field_live))).
  change (rd sa (h, W_resize_lock)) with (rd s (h, W_resize_lock)). rewrite Q.
  change (negb (LOCK_FREE =? 0)) with false. cbn match. run.
  rewrite rd_ESt_ne by congruence. change (rd sa (ht, H_num_buckets)) with (rd s (ht, H_num_buckets)).
  rewrite (tr_num _ _ _ _ _ R). destruct inc; run; reflexivity.
Qed.

(** Taking the resize lock leaves these fields alone. *)
Lemma owner_locked h ht inc s : owner (resize_locked h ht inc s) = owner s.
Proof. unfold resize_locked. now rewrite owner_do_evs. Qed.
Lemma rd_locked h ht inc s p f : f = B_lock \/ f = H_version \/ f = H_is_helper /\ inc = true ->
  rd (resize_locked h ht inc s) (p, f) = rd s (p, f).
Proof.
  intros Hf. unfold resize_locked. rewrite rd_do_evs_frame; [done|].
  destruct Hf as [->|[->|[-> ->]]]; [destruct inc; cbn; set_solver..|cbn; set_solver].
Qed.
Lemma old_not_fresh h ht inc s : ok_obj (owner s) ht -> ~ fresh (resize_locked h ht inc s) ht.
Proof. unfold fresh. rewrite owner_locked. intros (_ & _ & [x Hx] & _). congruence. Qed.

Lemma start_unlocked h ht inc s s1 t n lay : table_rep s ht t n lay -> unlocked s lay ->
  let s0 := resize_locked h ht inc s in
  writes_only (fun c => fresh s0 c.1 \/ c = (ht, H_table_tmp)) s0 s1 -> unlocked s1 lay.
Proof.
  intros R U s0 W1. pose proof (tr_ok _ _ _ _ _ R) as Hok. unfold unlocked in *. rewrite list.Forall_forall in U. rewrite list.Forall_forall in Hok. apply list.Forall_forall. intros l Hl.
  specialize (U l Hl). destruct l as [|b l]; [done|]. rewrite <- U. clear U. destruct (Hok b) as (_ & _ & [x Hb]).
  { apply list_elem_of_lookup in Hl as [i Hi]. eapply elem_of_concat_lookup; [exact Hi|left]. }
  rewrite (writes_only_rd _ _ _ _ W1).
  - apply rd_locked. now left.
  - unfold fresh, s0. rewrite owner_locked. cbn. intros [?|?]; congruence.
Qed.

Lemma created_version h ht inc s ht' t' n' : ok_obj (owner s) ht ->
  pick (owner s) sizeof_clht_hashtable_t = Some ht' ->
  pick (claim_lines ht' sizeof_clht_hashtable_t (owner s)) (n' * sizeof_bucket_t) = Some t' ->
  let s0 := resize_locked h ht inc s in
  rd (do_evs (create_evs ht' t' n') (with_table ht' t' n' s0)) (ht, H_version) = rd s (ht, H_version).
Proof.
  intros Hht Hp1 Hp2 s0. rewrite <- (owner_locked h ht inc s) in Hp1, Hp2. destruct (create_fresh s0 ht' t' n' Hp1 Hp2) as (_ & _ & Wc).
  rewrite (writes_only_rd _ _ _ (ht, H_version) Wc (old_not_fresh h ht inc s Hht)). apply rd_locked. auto.
Qed.

Lemma resize_copied s h ht t n lay inc by_ k :
  let n' := 2 ^ k in
  clht_rep s h ht t n lay -> resize_ready s h ht -> 0 <= k < 32 -> resize_size inc by_ n = n' ->
  Z.of_nat (length (content s lay)) < 2 ^ 31 ->
  allocs_ok (resize_allocs n' (length (content s lay))) (owner s) ->
  exists s1 ht' t' lay', resized s h ht n' (content s lay) inc s1 ht' t' lay' /\
    forall status, ht_resize_pes_with status h inc by_ s = resize_switch status h ht ht' n' s1.
Proof.
  intros n' [Hh Hht R U] [Q1 Q3] Hk Hn' Hsz Ha.
  assert (Hn0 : 0 < n' < 2 ^ 32).
  { subst n'. split; [apply pow2_pos; lia|apply Z.pow_lt_mono_r; lia]. }
  unfold resize_allocs in Ha. cbn [allocs_ok] in Ha.
  destruct (pick (owner s) sizeof_clht_hashtable_t) as [ht'|] eqn:Hp1; [|done].
  destruct (pick _ (n' * sizeof_bucket_t)) as [t'|] eqn:Hp2; [|done].
  set (s0 := resize_locked h ht inc s) in *.
  pose proof (resize_locked_writes h ht inc s) as W0. fold s0 in W0.
  pose proof (owner_locked h ht inc s) as Ho0. fold s0 in Ho0.
  assert (Hfr : forall p, fresh s0 p <-> fresh s p) by (intros p; unfold fresh; now rewrite Ho0).
  destruct (copy_start s0 ht ht' t' k (length (content s lay)) (u64 (rd s (ht, H_version) + 1)) Hk)
    as (CI & W1 & Rt & Ri); [now rewrite Ho0..| |].
  { unfold with_table. cbn [owner set_owner]. now rewrite Ho0. }
  set (s1 := do_evs _ (with_table ht' t' _ s0)) in *. fold n' in CI, Rt.
  assert (W : writes_only (resize_writes s h ht) s s1).
  { apply (writes_only_trans _ _ s0); [done|]. eapply writes_only_mono; [|exact W1].
    intros c [Hc| ->]; [left; now apply Hfr|unfold resize_writes; auto 6]. }
  destruct (resize_old_rep _ _ _ _ _ _ _ W R) as [R1 C1].
  pose proof (tr_ht _ _ _ _ _ R) as Hhto.
  destruct (copy_buckets_ok s0 s1 ht t n lay ht' t' n') as (s2 & D & Hrun & [(lay' & NR & C2) W2 F2 G2 A2]);
    rewrite ?C1; try done.
  { apply W1. }
  { now rewrite Ho0. }
  { rewrite Ho0. now apply R. }
  { exact (start_unlocked h ht inc s s1 t n lay R U W1). }
  exists s2, ht', t', lay'. split.
  - split.
    + apply (writes_only_trans _ _ s1); [done|]. eapply writes_only_mono; [|exact W2].
      intros c [Hc|[Hc _]]; [left; now apply Hfr|right; now left].
    + exact (new_rep_base _ _ _ _ _ _ _ Ho0 NR).
    + now rewrite C2, C1.
    + now rewrite F2.
    + now rewrite F2.
    + rewrite G2. unfold s1. now rewrite glob_do_evs.
  - intros status. rewrite (resize_enter _ _ _ _ _ _ _ inc by_ (Build_clht_rep _ _ _ _ _ _ Hh Hht R U) Q1). fold s0.
    rewrite Hn'. rewrite <- Ho0 in Hp1, Hp2.
    rewrite (cbind_Ok _ _ _ _ _ (hashtable_create_ok s0 ht' t' n' Hn0 Hp1 Hp2)).
    set (sc := do_evs _ (with_table ht' t' n' s0)).
    pose proof (ci_rep _ _ _ _ _ _ _ _ _ CI) as (layc & NRc & _).
    assert (Hhc : ok_obj (owner sc) ht').
    { pose proof (tr_ht _ _ _ _ _ (nr_rep _ _ _ _ _ _ NRc)) as X. unfold s1 in X. rewrite owner_do_evs in X.
      unfold sc. now rewrite owner_do_evs. }
    assert (Hoc : ok_obj (owner sc) ht).
    { pose proof (tr_ht _ _ _ _ _ R1) as X. unfold s1 in X. rewrite owner_do_evs in X.
      unfold sc. now rewrite owner_do_evs. }
    pose proof (created_version h ht inc s ht' t' n' Hhto ltac:(now rewrite <- Ho0) ltac:(now rewrite <- Ho0)) as Ev. cbv zeta in Ev. fold s0 sc in Ev. run.
    rewrite Ev. replace (do_ev _ (do_ev _ sc)) with s1 by (unfold s1; now rewrite do_evs_app).
    rewrite (cbind_Ok _ _ _ _ _ Hrun). assert (Hh2 : ok_obj (owner s2) ht).
    { eapply ok_obj_mono; [apply W2|exact (tr_ht _ _ _ _ _ R1)]. }
    run. destruct inc; [|run; done]. rewrite F2 by done.
    rewrite (writes_only_rd _ _ _ _ W1) by (intros [Hx|[=]]; now apply (old_not_fresh h ht true s Hhto)).
    replace (rd s0 (ht, H_is_helper)) with 1; [run; done|]. rewrite <- Q3. symmetry. apply rd_locked. auto.
Qed.

(** ** The switch *)

Definition switch_evs (h ht ht' : Z) (lay' : list (list Z)) : list ev :=
  [ESt (ht', H_table_prev) ht; EFence; EFl (line ht'); EFl (line ht' + 1)] ++
  flush_evs (concat lay') ++
  [EFence; ENt (h, W_ht) ht'; EFence; ESt (ht, H_table_new) ht'; ESt (h, W_resize_lock) LOCK_FREE].

Lemma flush_obj_ok s p :
  ok_obj (owner s) p ->
  clflush p sizeof_clht_hashtable_t false false s = Ok (tt, do_evs [EFl (line p); EFl (line p + 1)] s).
Proof.
  intros ([Hpos Hal] & Hlt & H1 & H2). unfold clflush. run.
  change sizeof_clht_hashtable_t with (2 * sizeof_bucket_t).
  rewrite flush_ptrs_buckets; [|split; done|done|lia|unfold sizeof_bucket_t; lia].
  change (seqZ 0 2) with [0; 1]. cbn [fmap list_fmap cfor].
  unfold flush_line, live, cbind, cret. rewrite !line_bucket_at, Z.add_0_r by done.
  rewrite !bool_decide_true by done. reflexivity.
Qed.

Lemma switch_writes h ht ht' lay' :
  switch_evs h ht ht' lay' ≫= ev_writes
  = [(ht', H_table_prev); (h, W_ht); (ht, H_table_new); (h, W_resize_lock)].
Proof.
  unfold switch_evs. rewrite !bind_app.
  assert (E : flush_evs (concat lay') ≫= ev_writes = []) by (induction (concat lay'); done).
  now rewrite E.
Qed.

Lemma resize_gc s h ht inc s1 L al :
  writes_only (resize_writes s h ht) s s1 -> gc_inv s L al ->
  glob s1 = glob (resize_locked h ht inc s) -> gc_inv s1 L al.
Proof.
  intros W I G. assert (Ht : clht_alloc (my_tls s1) = clht_alloc (my_tls s)).
  { unfold my_tls at 1. rewrite G. unfold resize_locked. rewrite glob_do_evs.
    unfold set_my_tls. cbn. now rewrite lookup_insert_eq. }
  apply (gc_inv_frame s); try done; [apply W| | | |].
  1-3: rewrite G; unfold resize_locked; now rewrite glob_do_evs.
  intros p f Hp Hf. pose proof (ts_ok _ _ (ro_threads _ _ _ _ I)) as Hok. rewrite list.Forall_forall in Hok.
  destruct (Hok p Hp) as (_ & _ & Hl). apply (resize_old_rd _ _ _ _ _ _ W); [done|..]; naive_solver.
Qed.

Lemma resize_switch_ok status s h ht t n lay n' inc s1 ht' t' lay' L al :
  clht_rep s h ht t n lay -> gc_inv s L al -> resized s h ht n' (content s lay) inc s1 ht' t' lay' ->
  n' * sizeof_bucket_t < 2 ^ 31 -> Z.of_nat (length (content s lay)) < 3 * n' ->
  exists s' al', resize_switch status h ht ht' n' s1 = Ok (1, s') /\
    same_mem (do_evs (switch_evs h ht ht' lay') s1) s' /\ gc_inv s' L al' /\
    released_blocks al' = ht :: t :: rev (lay ≫= tail) ++ released_blocks al.
Proof.
  intros [Hh Hht R U] I [W NR C Rt Ri G] Hn' Hsz.
  destruct (resize_old_rep _ _ _ _ _ _ _ W R) as [R1 C1].
  pose proof (nr_rep _ _ _ _ _ _ NR) as R'. pose proof (new_rep_expands _ _ _ _ _ _ NR) as [E0 E3].
  rewrite C in E3.
  pose proof (tr_ht _ _ _ _ _ R1) as Hht1. pose proof (tr_ht _ _ _ _ _ R') as Hht'.
  assert (Hh1 : ok_obj (owner s1) h) by (eapply ok_obj_mono; [apply W|exact Hh]).
  unfold resize_switch. run. rewrite !rd_ESt_ne by congruence. rewrite Rt.
  replace (n' <=? rd s1 (ht', H_num_expands)) with false by lia.
  set (s2 := do_ev EFence (do_ev (ESt (ht', H_table_prev) ht) s1)).
  assert (Hht2 : ok_obj (owner s2) ht') by exact Hht'.
  rewrite (cbind_Ok _ _ _ _ _ (flush_obj_ok s2 ht' Hht2)). set (s3 := do_evs _ s2).
  assert (Hht3 : ok_obj (owner s3) ht') by exact Hht'. run.
  assert (NR3 : new_rep s s3 ht' t' n' lay').
  { apply (new_rep_evs _ s1 [ESt (ht', H_table_prev) ht; EFence; EFl (line ht'); EFl (line ht' + 1)] _ _ _ _ NR).
    cbn. repeat constructor; done. }
  pose proof (nr_rep _ _ _ _ _ _ NR3) as R3.
  rewrite (tr_table _ _ _ _ _ R3), (cbind_Ok _ _ _ _ _ (flush_table_ok s3 ht' t' n' lay' R3 Hn')).
  set (s4 := do_evs _ s3). assert (Ho4 : owner s4 = owner s1) by (unfold s4; now rewrite owner_do_evs).
  rewrite <- Ho4 in Hh1, Hht1. unfold TRYLOCK_RLS. run. set (s5 := do_ev _ _).
  assert (Es5 : s5 = do_evs (switch_evs h ht ht' lay') s1).
  { unfold switch_evs. now rewrite !do_evs_app. }
  assert (W5 : writes_only (fun c => c ∈ [(ht', H_table_prev); (h, W_ht); (ht, H_table_new); (h, W_resize_lock)]) s1 s5).
  { rewrite Es5. apply writes_only_evs. rewrite switch_writes. apply list.Forall_forall. done. }
  assert (R5 : table_rep s5 ht t n lay).
  { apply (table_rep_frame s1); [done| |apply W5|].
    - repeat split; apply (writes_only_rd _ _ _ _ W5); set_solver.
    - intros b _. apply same_bucket_rd. intros f Hf _. apply (writes_only_rd _ _ _ _ W5).
      intros Hc. repeat (apply elem_of_cons in Hc as [Hc|Hc]; [now simplify_eq|]). set_solver. }
  assert (I5 : gc_inv s5 L al).
  { pose proof (resize_gc _ _ _ _ _ _ _ W I G) as I1. assert (G5 : glob s5 = glob s1) by now rewrite Es5, glob_do_evs.
    apply (gc_inv_frame s1); try (unfold my_tls; now rewrite ?G5); [apply W5|].
    intros p f _ Hf. apply (writes_only_rd _ _ _ _ W5). set_solver. }
  destruct (gc_release_ok s5 ht t n lay L al I5 R5) as (s6 & al6 & Hrel & Hm & I6 & Hr).
  rewrite (cbind_Ok _ _ _ _ _ Hrel). run. exists s6, al6. rewrite <- Es5. done.
Qed.
(** A whole resize of a quiescent index. *)
Lemma resize_ok status s h ht t n lay inc by_ k L al :
  let n' := 2 ^ k in
  clht_rep s h ht t n lay -> resize_ready s h ht -> gc_inv s L al ->
  0 <= k < 25 -> resize_size inc by_ n = n' ->
  Z.of_nat (length (content s lay)) < 2 ^ 31 -> Z.of_nat (length (content s lay)) < 3 * n' ->
  allocs_ok (resize_allocs n' (length (content s lay))) (owner s) ->
  exists s1 s' ht' t' lay' al',
    ht_resize_pes_with status h inc by_ s = Ok (1, s') /\
    resized s h ht n' (content s lay) inc s1 ht' t' lay' /\
    same_mem (do_evs (switch_evs h ht ht' lay') s1) s' /\
    clht_rep s' h ht' t' n' lay' /\ content s' lay' ≡ₚ content s lay /\
    resize_ready s' h ht' /\
    rd s' (h, W_status_lock) = rd s (h, W_status_lock) /\
    gc_inv s' L al' /\ released_blocks al' = ht :: t :: rev (lay ≫= tail) ++ released_blocks al.
Proof.
  intros n' C Q I Hk Hn' Hs1 Hs2 Ha.
  destruct (resize_copied s h ht t n lay inc by_ k C Q ltac:(lia) Hn' Hs1 Ha)
    as (s1 & ht' & t' & lay' & Z1 & Hrun). specialize (Hrun status). fold n' in Z1, Hrun.
  assert (Hn64 : n' * sizeof_bucket_t < 2 ^ 31).
  { assert (n' < 2 ^ 25) by (apply Z.pow_lt_mono_r; lia). unfold sizeof_bucket_t. lia. }
  destruct (resize_switch_ok status s h ht t n lay n' inc s1 ht' t' lay' L al C I Z1 Hn64 Hs2)
    as (s' & al' & Hsw & Hm & I' & Hr). rewrite Hsw in Hrun.
  destruct C as [Hh Hht R U]. pose proof Z1 as Z1'. destruct Z1' as [W NR Cn Rt Ri G].
  pose proof (nr_rep _ _ _ _ _ _ NR) as R'.
  set (s5 := do_evs (switch_evs h ht ht' lay') s1) in *.
  assert (W5 : writes_only (fun c => c ∈ [(ht', H_table_prev); (h, W_ht); (ht, H_table_new); (h, W_resize_lock)]) s1 s5).
  { apply writes_only_evs. rewrite switch_writes. apply list.Forall_forall. done. }
  assert (Hb5 : forall b, same_bucket s1 s' b).
  { intros b. apply (same_bucket_trans _ s5); [|now apply same_mem_bucket].
    apply do_evs_same_bucket. rewrite switch_writes. repeat constructor. }
  assert (Ho : owner s' = owner s1) by (destruct Hm as (_ & -> & _); unfold s5; now rewrite owner_do_evs).
  assert (Rrd : forall c, c ∉ [(ht', H_table_prev); (h, W_ht); (ht, H_table_new); (h, W_resize_lock)] -> rd s' c = rd s1 c).
  { intros c Hc. rewrite (same_mem_rd _ _ _ Hm). exact (writes_only_rd _ _ _ _ W5 Hc). }
  exists s1, s', ht', t', lay', al'. split; [done|]. split; [done|]. split; [done|]. split; [|split; [|split; [split|split]]]; [| | | | |done].
  - split.
    + rewrite Ho. eapply ok_obj_mono; [apply W|exact Hh].
    + rewrite (same_mem_rd _ _ _ Hm). unfold s5, switch_evs. rewrite !do_evs_app. cbn. read_evs.
    + apply (table_rep_frame s1); [done| |intros x; now rewrite Ho|auto].
      repeat split; apply Rrd; set_solver.
    + apply list.Forall_forall. intros l Hl. destruct l as [|b l]; [done|].
      pose proof (nr_unlocked _ _ _ _ _ _ NR) as Ul. rewrite list.Forall_forall in Ul.
      rewrite Rrd by set_solver. apply Ul. apply list_elem_of_lookup in Hl as [i Hi].
      eapply elem_of_concat_lookup; [exact Hi|left].
  - rewrite (content_frame s1); [done|auto].
  - rewrite (same_mem_rd _ _ _ Hm). unfold s5, switch_evs. rewrite !do_evs_app. cbn. read_evs.
  - now rewrite Rrd by set_solver.
  - rewrite Rrd by set_solver. destruct Hh as (_ & _ & Hl & _). now apply (resize_old_rd _ _ _ _ _ _ W).
Qed.
(** ** [ht_status] *)

(** Entries, overflow buckets and the longest overflow of a layout. *)
Definition stats_step (s : state) (acc : Z * Z * Z) (l : list Z) : Z * Z * Z :=
  let '(size, expands, mx) := acc in
  let e := Z.of_nat (length l) - 1 in
  (size + Z.of_nat (length (ccontent s l)), expands + e, if mx <? e then e else mx).

Definition chain_stats (s : state) (lay : list (list Z)) : Z * Z * Z := foldl (stats_step s) (0, 0, 0) lay.

Lemma stats_fold s lay z e m :
  exists m', foldl (stats_step s) (z, e, m) lay
  = (z + Z.of_nat (length (content s lay)), e + Z.of_nat (length (concat lay)) - Z.of_nat (length lay), m') /\
    m <= m' /\ forall l, l ∈ lay -> Z.of_nat (length l) - 1 <= m'.
Proof.
  revert z e m. induction lay as [|l lay IH]; intros z e m.
  { exists m. split; [simpl; f_equal; f_equal; lia|]. split; [lia|set_solver]. }
  destruct (IH (z + Z.of_nat (length (ccontent s l))) (e + (Z.of_nat (length l) - 1))
    (if m <? Z.of_nat (length l) - 1 then Z.of_nat (length l) - 1 else m)) as (m' & E & Hm & Hall).
  exists m'. split.
  - etrans; [exact E|]. rewrite content_cons. cbn [concat length]. rewrite !length_app. f_equal. f_equal; lia.
  - split; [destruct (_ <? _) eqn:E'; lia|]. intros x Hx. apply elem_of_cons in Hx as [->|Hx]; [|auto].
    destruct (_ <? _) eqn:E'; lia.
Qed.

Lemma status_counts_ok s ht t n lay :
  table_rep s ht t n lay -> status_counts ht s = Ok (chain_stats s lay, s).
Proof.
  intros R. pose proof (tr_ht _ _ _ _ _ R) as Hht. unfold status_counts. do_load.
  rewrite (tr_num _ _ _ _ _ R).
  rewrite (cfold_pure _ _ (fun i acc => stats_step s acc (default [] (lay !! Z.to_nat (i - 0))))).
  - rewrite (table_rep_seqZ _ _ _ _ _ R).
    now rewrite (foldl_seqZ_lookup (fun l acc => stats_step s acc l)).
  - intros i [[z e] m] Hi.
    destruct (table_rep_bin_chain _ _ _ _ _ i R Hi) as (l & Hl & Hc & Hne & Hok & Hnd & Hp).
    rewrite Z.sub_0_r, Hl. cbn [default from_option id]. run. rewrite (tr_table _ _ _ _ _ R).
    rewrite (cbind_Ok _ _ _ _ _ (count_chain_ok _ s _ l _ n _ _ Hc Hne Hok Hp
               (Nat.le_le_succ_r _ _ (chain_bound _ _ Hnd Hok)))).
    unfold cret, stats_step. cbn zeta. rewrite !Z.add_0_l. f_equal. f_equal. f_equal. f_equal. lia.
Qed.

(** The size [ht_status] chooses for the new table. *)
Definition status_size (size n : Z) : Z :=
  if should_halve size n then n / CLHT_RATIO_HALVE else inc_by_pow2 size n * n.

Lemma inc_by_pow2_ok size n :
  0 <= size < 2 ^ 30 -> 0 < n ->
  exists j, 1 <= j <= 30 /\ inc_by_pow2 size n = 2 ^ j /\ size < 3 * (2 ^ j * n).
Proof.
  intros Hs Hn. unfold inc_by_pow2, ratio_num, ratio_den, CLHT_OCCUP_AFTER_RES, ENTRIES_PER_BUCKET.
  set (q := 100 * size / (40 * (n * 3))).
  assert (Hq : 40 * (n * 3) * q <= 100 * size < 40 * (n * 3) * (q + 1)).
  { subst q. pose proof (Z.div_mod (100 * size) (40 * (n * 3)) ltac:(lia)).
    pose proof (Z.mod_pos_bound (100 * size) (40 * (n * 3)) ltac:(lia)). nia. }
  assert (Hq2 : 0 <= q < 2 ^ 30) by nia. clearbody q.
  rewrite (i32_small q) by lia. rewrite (u64_small q) by lia.
  destruct (Z.le_gt_cases q 1) as [Hq1|Hq1].
  - exists 1. split; [lia|]. assert (q = 0 \/ q = 1) as [->| ->] by lia; (split; [reflexivity|]); lia.
  - destruct (pow2roundup_is q ltac:(lia)) as (k & Hk & -> & Hb).
    assert (Hk1 : 1 <= k). { destruct (Z.eq_dec k 0); [subst; simpl in Hb; lia|lia]. }
    assert (Hk2 : k <= 30). { destruct (Z.le_gt_cases k 30); [done|]. assert (2 ^ 31 <= 2 ^ k) by (apply Z.pow_le_mono_r; lia). lia. }
    assert (2 ^ k <= 2 ^ 30) by (apply Z.pow_le_mono_r; lia). rewrite i32_small by lia.
    exists k. replace (2 ^ k =? 1) with false by lia. split; [done|]. split; [done|]. nia.
Qed.
(** Both choices give a power of two with room to spare. *)
Lemma status_size_ok size n k :
  0 <= size < 2 ^ 30 -> 0 <= k < 58 -> n = 2 ^ k -> status_size size n * sizeof_bucket_t < 2 ^ 31 ->
  exists k', 0 <= k' < 25 /\ status_size size n = 2 ^ k' /\ size < 3 * 2 ^ k' /\
    resize_size (negb (should_halve size n)) (if should_halve size n then 33 else inc_by_pow2 size n) n = 2 ^ k'.
Proof.
  intros Hs Hk En Hb. assert (Hn : 0 < n < 2 ^ 58).
  { subst n. split; [apply pow2_pos; lia|apply Z.pow_lt_mono_r; lia]. }
  assert (Hlt : forall k', 0 <= k' -> 2 ^ k' * sizeof_bucket_t < 2 ^ 31 -> k' < 25).
  { intros k' H0 H1. destruct (Z.lt_ge_cases k' 25); [done|].
    assert (2 ^ 25 <= 2 ^ k') by (apply Z.pow_le_mono_r; lia). unfold sizeof_bucket_t in *. lia. }
  unfold status_size, resize_size in *. destruct (should_halve size n) eqn:E.
  - unfold should_halve, ratio_num, ratio_den, CLHT_PERC_FULL_HALVE, ENTRIES_PER_BUCKET, CLHT_RATIO_HALVE in *.
    assert (Hk3 : 3 <= k).
    { destruct (Z.le_gt_cases 3 k); [done|]. assert (2 ^ k <= 2 ^ 2) by (apply Z.pow_le_mono_r; lia). lia. }
    assert (Eq : n / 8 = 2 ^ (k - 3)).
    { subst n. change 8 with (2 ^ 3). rewrite <- Z.pow_sub_r by lia. done. }
    rewrite Eq in *. exists (k - 3). repeat split; try done; [lia|apply Hlt; [lia|done]|].
    assert (n = 2 ^ (k - 3) * 8) by (subst n; change 8 with (2 ^ 3); rewrite <- Z.pow_add_r by lia; f_equal; lia).
    lia.
  - destruct (inc_by_pow2_ok size n Hs ltac:(lia)) as (j & Hj & Ej & Hsz). rewrite Ej in *.
    assert (Ep : 2 ^ j * n = 2 ^ (j + k)) by (subst n; now rewrite Z.pow_add_r by lia).
    rewrite Ep in *. exists (j + k). repeat split; try done; [lia|apply Hlt; [lia|done]|].
    cbn [negb]. apply u64_small. split; [apply Z.lt_le_incl, pow2_pos; lia|].
    unfold sizeof_bucket_t in *. lia.
Qed.

(** What an insertion may need when it triggers a resize. *)
Definition status_room (s : state) (size : nat) (n : Z) : Prop :=
  Z.of_nat size < 2 ^ 30 /\ status_size (Z.of_nat size) n * sizeof_bucket_t < 2 ^ 31 /\
  allocs_ok (resize_allocs (status_size (Z.of_nat size) n) size) (owner s).

(** The status lock is not part of the representation. *)
Lemma status_lock_frame s h ht t n lay L al v :
  clht_rep s h ht t n lay -> resize_ready s h ht -> gc_inv s L al ->
  let s' := do_ev (ESt (h, W_status_lock) v) s in
  clht_rep s' h ht t n lay /\ resize_ready s' h ht /\ gc_inv s' L al /\ content s' lay = content s lay.
Proof.
  intros [Hh Hht R U] [Q1 Q3] I s'.
  assert (Hb1 : forall b, same_bucket s s' b)
    by (intros b; apply (do_evs_same_bucket [ESt (h, W_status_lock) v]); repeat constructor).
  assert (Hrd1 : forall c, c.2 ≠ W_status_lock -> rd s' c = rd s c) by (intros c Hc; apply rd_ESt_ne; naive_solver).
  split; [|split; [|split]].
  - split; [exact Hh|now rewrite Hrd1| |].
    + apply (table_rep_frame s); auto; [|now intros x]. repeat split; now apply Hrd1.
    + apply (unlocked_frame s); [|done]. intros x Hx. now rewrite Hrd1.
  - split; now rewrite Hrd1.
  - apply (gc_inv_frame s); try done; [now intros x|]. intros p f _ Hf. apply Hrd1. naive_solver.
  - apply content_frame; auto.
Qed.

Lemma ht_status_ok depth s h ht t n lay L al :
  clht_rep s h ht t n lay -> clht_quiet s h ht -> gc_inv s L al ->
  status_room s (length (content s lay)) n ->
  exists s' ht' t' n' lay' al',
    ht_status (S depth) h 1 false s = Ok (Z.of_nat (length (content s lay)), s') /\
    clht_rep s' h ht' t' n' lay' /\ clht_quiet s' h ht' /\ gc_inv s' L al' /\
    content s' lay' ≡ₚ content s lay /\ n' = status_size (Z.of_nat (length (content s lay))) n /\
    exists inc s1 s2,
      resized (do_ev (ESt (h, W_status_lock) 255) s) h ht n' (content s lay) inc s1 ht' t' lay' /\
      same_mem (do_evs (switch_evs h ht ht' lay') s1) s2 /\ clht_rep s2 h ht' t' n' lay' /\
      content s2 lay' ≡ₚ content s lay /\ s' = do_ev (ESt (h, W_status_lock) LOCK_FREE) s2.
Proof.
  intros C [Q Q2] I (Hs & Hsz & Ha).
  set (s1 := do_ev (ESt (h, W_status_lock) 255) s).
  destruct (status_lock_frame s h ht t n lay L al 255 C Q I) as (CR1 & QR1 & I1 & C1). fold s1 in CR1, QR1, I1, C1.
  pose proof (cr_table _ _ _ _ _ _ CR1) as R1. pose proof (cr_h _ _ _ _ _ _ C) as Hh.
  destruct (tr_n _ _ _ _ _ R1) as (k & Hk & En). set (size := Z.of_nat (length (content s lay))) in *.
  destruct (status_size_ok size n k ltac:(lia) Hk En Hsz) as (k' & Hk' & E1 & Hroom & E2).
  destruct (resize_ok (ht_status depth) s1 h ht t n lay (negb (should_halve size n))
              (if should_halve size n then 33 else inc_by_pow2 size n) k' L al CR1 QR1 I1 Hk' E2)
    as (sz & s2 & ht' & t' & lay' & al' & Hrun & RZ & SM & CR2 & C2 & QR2 & _ & I2 & _);
    [rewrite C1; fold size; lia..|rewrite C1; now rewrite <- E1|].
  destruct (status_lock_frame s2 h ht' t' _ lay' L al' LOCK_FREE CR2 QR2 I2) as (CR3 & QR3 & I3 & C3).
  exists (do_ev (ESt (h, W_status_lock) LOCK_FREE) s2), ht', t', (2 ^ k'), lay', al'.
  split; [|rewrite C3, C2, C1; split; [done|]; split; [split; [done|apply rd_ESt_eq]|]; do 3 (split; [done|]);
           rewrite C1 in RZ, C2; exists (negb (should_halve size n)), sz, s2; auto].
  cbn [ht_status]. unfold TRYLOCK_ACQ.
  rewrite (cbind_Ok _ _ _ _ _ (tas_ok s (h, W_status_lock) ltac:(field_live))). rewrite Q2.
  fold s1. change (negb (LOCK_FREE =? 0) && (1 =? 0)) with false. cbn match.
  assert (Hh1 : ok_obj (owner s1) h) by exact Hh. pose proof (tr_ht _ _ _ _ _ R1) as Hht1.
  pose proof (cr_h _ _ _ _ _ _ CR2) as Hh2.
  run. rewrite (cr_ht _ _ _ _ _ _ CR1). run. rewrite (tr_num _ _ _ _ _ R1).
  rewrite (cbind_Ok _ _ _ _ _ (status_counts_ok _ _ _ _ _ R1)).
  unfold chain_stats. destruct (stats_fold s1 lay 0 0 0) as (mx & -> & _ & _). rewrite Z.add_0_l, C1.
  fold size. replace (should_grow size n mx 1) with true by (unfold should_grow; simpl; lia).
  destruct (should_halve size n); cbn [negb] in Hrun; run; rewrite (cbind_Ok _ _ _ _ _ Hrun); run;
    unfold clht_gc_collect, TRYLOCK_RLS; run; reflexivity.
Qed.
(** ** Properties *)

(** C14: a resize of a quiescent index, growing or halving, terminates with the
    index switched to a table of the requested power-of-two size that holds the same
    map, releases the resize lock, and hands every overflow bucket, the array and the
    object of the old table to ssmem, once each. *)
Theorem resize_preserves_map status s h ht t n lay inc by_ k L al :
  clht_rep s h ht t n lay -> resize_ready s h ht -> gc_inv s L al ->
  0 <= k < 25 -> resize_size inc by_ n = 2 ^ k ->
  Z.of_nat (size (amap s lay)) < 2 ^ 31 -> Z.of_nat (size (amap s lay)) < 3 * 2 ^ k ->
  allocs_ok (resize_allocs (2 ^ k) (size (amap s lay))) (owner s) ->
  exists s' ht' t' lay' al',
    ht_resize_pes_with status h inc by_ s = Ok (1, s') /\
    clht_rep s' h ht' t' (2 ^ k) lay' /\ amap s' lay' = amap s lay /\ resize_ready s' h ht' /\
    gc_inv s' L al' /\ released_blocks al' = ht :: t :: rev (lay ≫= tail) ++ released_blocks al.
Proof.
  intros C Q I Hk Hn Hs1 Hs2 Ha. rewrite (amap_size _ _ _ _ _ (cr_table _ _ _ _ _ _ C)) in *.
  destruct (resize_ok status s h ht t n lay inc by_ k L al C Q I Hk Hn Hs1 Hs2 Ha)
    as (s1 & s' & ht' & t' & lay' & al' & Hrun & _ & _ & C' & P & Q' & _ & I' & Hr).
  exists s', ht', t', lay', al'. split; [done|]. split; [done|]. split; [|done].
  apply list_to_map_proper; [|done]. exact (tr_keys _ _ _ _ _ (cr_table _ _ _ _ _ _ C')).
Qed.

Lemma resize_switch_indep st1 st2 h ht ht' n' s :
  ok_obj (owner s) ht' -> rd s (ht', H_num_expands) < rd s (ht', H_num_expands_threshold) ->
  resize_switch st1 h ht ht' n' s = resize_switch st2 h ht ht' n' s.
Proof.
  intros Hht Hlt. unfold resize_switch. run. rewrite !rd_ESt_ne by congruence.
  replace (_ <=? _) with false by lia. reflexivity.
Qed.

(** the table a resize builds never reaches its own expansion threshold, so
    the call [ht_status(h, 1, 0)] at the end of [ht_resize_pes] is never made: what the
    resize does is independent of that function. *)
Theorem resize_never_nested st1 st2 s h ht t n lay inc by_ k :
  clht_rep s h ht t n lay -> resize_ready s h ht -> 0 <= k < 32 -> resize_size inc by_ n = 2 ^ k ->
  Z.of_nat (size (amap s lay)) < 2 ^ 31 -> Z.of_nat (size (amap s lay)) < 3 * 2 ^ k ->
  allocs_ok (resize_allocs (2 ^ k) (size (amap s lay))) (owner s) ->
  ht_resize_pes_with st1 h inc by_ s = ht_resize_pes_with st2 h inc by_ s.
Proof.
  intros C Q Hk Hn Hs1 Hs2 Ha. rewrite (amap_size _ _ _ _ _ (cr_table _ _ _ _ _ _ C)) in *.
  destruct (resize_copied s h ht t n lay inc by_ k C Q Hk Hn Hs1 Ha)
    as (s1 & ht' & t' & lay' & [W NR P Rt Ri G] & Hrun). rewrite !Hrun.
  apply resize_switch_indep; [exact (tr_ht _ _ _ _ _ (nr_rep _ _ _ _ _ _ NR))|].
  pose proof (new_rep_expands _ _ _ _ _ _ NR) as [_ E3]. rewrite P in E3. lia.
Qed.

(** called by an insertion that reached the expansion threshold, [ht_status]
    counts the entries, chooses the new size (an eighth if the table is nearly empty,
    else the present size times a power of two of at least two), resizes once, and
    leaves an index with the same entries and no lock held. *)
Theorem ht_status_spec depth s h ht t n lay L al :
  clht_rep s h ht t n lay -> clht_quiet s h ht -> gc_inv s L al -> status_room s (size (amap s lay)) n ->
  exists s' ht' t' lay' al',
    ht_status (S depth) h 1 false s = Ok (Z.of_nat (size (amap s lay)), s') /\
    clht_rep s' h ht' t' (status_size (Z.of_nat (size (amap s lay))) n) lay' /\
    clht_quiet s' h ht' /\ gc_inv s' L al' /\ amap s' lay' = amap s lay.
Proof.
  intros C Q I Hr. rewrite (amap_size _ _ _ _ _ (cr_table _ _ _ _ _ _ C)) in *.
  destruct (ht_status_ok depth s h ht t n lay L al C Q I Hr)
    as (s' & ht' & t' & n' & lay' & al' & Hrun & C' & Q' & I' & P & -> & _).
  exists s', ht', t', lay', al'. do 4 (split; [done|]). apply list_to_map_proper; [|done].
  exact (tr_keys _ _ _ _ _ (cr_table _ _ _ _ _ _ C')).
Qed.

End Resize.
