(* ===== verification/ClhtSpec.v ===== *)
(** * P-CLHT as a map

    The abstract specification of the index, a finite map from keys to values, and
    the refinement: every operation of [clht_lb_res.c], the resizes it triggers
    included, returns what the map says and leaves an index that represents the
    updated map. [Index] is the interface a client of the hash table relies on. *)

From S2P Require Import Prelude Utils Memory Ssmem SsmemProps Clht ClhtGc ClhtRep ClhtUpdate ClhtCopy ClhtResize.

(** ** The abstract index *)

Inductive op :=
| OpGet (key : Z)
| OpPut (key val : Z)
| OpRemove (key : Z)
| OpSize.

(** Keys are non-zero 64-bit words: zero marks an empty slot. *)
Definition valid_key (key : Z) : Prop := 0 < key < 2 ^ 64.

Definition valid_op (o : op) : Prop :=
  match o with
  | OpGet key | OpPut key _ | OpRemove key => valid_key key
  | OpSize => True
  end.

(** The result of an operation and the new map. *)
Definition spec_op (o : op) (m : gmap Z Z) : Z * gmap Z Z :=
  match o with
  | OpGet key => (default 0 (m !! key), m)
  | OpPut key val => match m !! key with
                     | Some _ => (0, m)
                     | None => (1, <[key := val]> m)
                     end
  | OpRemove key => (default 0 (m !! key), delete key m)
  | OpSize => (Z.of_nat (size m), m)
  end.

Fixpoint spec_ops (os : list op) (m : gmap Z Z) : list Z * gmap Z Z :=
  match os with
  | [] => ([], m)
  | o :: os' => let '(r, m1) := spec_op o m in
                let '(rs, m2) := spec_ops os' m1 in (r :: rs, m2)
  end.

Section Spec.
Context `{Malloc}.

(** The index at [h] holds the map [m]. *)
Definition map_rep (s : state) (h : Z) (m : gmap Z Z) : Prop :=
  exists ht t n lay, clht_rep s h ht t n lay /\ clht_quiet s h ht /\ amap s lay = m.

(** The same, and the running thread has its allocator set up: it can run operations. *)
Definition index_rep (s : state) (h : Z) (m : gmap Z Z) : Prop :=
  exists ht t n lay L al,
    clht_rep s h ht t n lay /\ clht_quiet s h ht /\ gc_inv s L al /\ amap s lay = m.

(** The operations as the programs call them: lookups and sizes take [h->ht]. *)
Definition run_op (h : Z) (o : op) : M Z :=
  match o with
  | OpGet key => ht <- load (h, W_ht); clht_get ht key
  | OpPut key val => b <- clht_put h key val; cret (bool_Z b)
  | OpRemove key => clht_remove h key
  | OpSize => ht <- load (h, W_ht); clht_size ht
  end.

Fixpoint run_ops (h : Z) (os : list op) : M (list Z) :=
  match os with
  | [] => cret []
  | o :: os' => r <- run_op h o; rs <- run_ops h os'; cret (r :: rs)
  end.

(** Memory for one insertion: a bucket, and a new table if the insertion resizes.
    [n] is the present number of buckets. *)
Definition put_room (s : state) (h : Z) (m : gmap Z Z) : Prop :=
  let n := rd s (rd s (h, W_ht), H_num_buckets) in
  let z := S (size m) in
  Z.of_nat z < 2 ^ 30 /\ status_size (Z.of_nat z) n * sizeof_bucket_t < 2 ^ 31 /\
  allocs_ok (sizeof_bucket_t :: resize_allocs (status_size (Z.of_nat z) n) z) (owner s).

Definition op_room (s : state) (h : Z) (m : gmap Z Z) (o : op) : Prop :=
  match o with OpPut _ _ => put_room s h m | _ => True end.

(** Room for every operation of a sequence, at the state it runs in. *)
Fixpoint ops_room (s : state) (h : Z) (m : gmap Z Z) (os : list op) : Prop :=
  match os with
  | [] => True
  | o :: os' => op_room s h m o /\
                match run_op h o s with
                | Ok (_, s') => ops_room s' h (spec_op o m).2 os'
                | Err _ => True
                end
  end.

(** ** Insertion *)

(** Frame: what the two write paths of an insertion leave alone. *)
Lemma put_quiet evs s s0 h ht L al :
  cells s0 = cells s -> glob s0 = glob s -> owner_grows s s0 ->
  clht_quiet s h ht -> gc_inv s L al ->
  Forall (fun c : cell => bucket_fld c.2 = true \/ c.2 = H_num_expands) (evs ≫= ev_writes) ->
  clht_quiet (do_evs evs s0) h ht /\ gc_inv (do_evs evs s0) L al.
Proof.
  intros Ec Eg Ho [[Q1 Q2] Q3] I F. rewrite list.Forall_forall in F.
  assert (Hrd : forall c, bucket_fld c.2 = false -> c.2 ≠ H_num_expands -> rd (do_evs evs s0) c = rd s c).
  { intros c Hc1 Hc2. rewrite rd_do_evs_frame; [now apply rd_cells|]. intros Hc. apply F in Hc as [?|?]; congruence. }
  split.
  - split; [split|]; now rewrite Hrd.
  - assert (Eg' : glob (do_evs evs s0) = glob s) by now rewrite glob_do_evs.
    apply (gc_inv_frame s); unfold my_tls; rewrite ?Eg'; try done.
    + intros l Hl. rewrite owner_do_evs. auto.
    + intros p f _ Hf. apply Hrd; naive_solver.
Qed.

Lemma put_absent s h key val m :
  index_rep s h m -> valid_key key -> m !! key = None -> put_room s h m ->
  exists s', clht_put h key val s = Ok (true, s') /\ index_rep s' h (<[key := val]> m).
Proof.
  intros (ht & t & n & lay & L & al & C & Q & I & <-) Hk Hm (Hz1 & Hz2 & Hz3).
  rewrite (cr_ht _ _ _ _ _ _ C), (tr_num _ _ _ _ _ (cr_table _ _ _ _ _ _ C)) in *.
  rewrite (amap_size _ _ _ _ _ (cr_table _ _ _ _ _ _ C)) in Hz1, Hz2, Hz3.
  destruct (clht_rep_chain _ _ _ _ _ _ key C) as (b & l & Hl & _).
  destruct (chain_empty s (b :: l)) as [[eb ej]|] eqn:He.
  - exists (do_evs (lock_evs b (put_slot_evs eb ej key val)) s).
    split; [exact (clht_put_slot _ _ _ _ _ _ _ _ _ _ _ _ C (proj1 Hk) Hm Hl He)|].
    destruct (put_slot_rep _ _ _ _ _ _ _ val _ _ _ _ C Hk Hm Hl He) as [C' P'].
    destruct (put_quiet (lock_evs b (put_slot_evs eb ej key val)) s s h ht L al) as [Q' I']; try done.
    { now intros x. }
    { destruct (chain_empty_Some _ _ _ _ He) as (_ & Hj & _). apply entries_fld in Hj as [? ?].
      cbn. repeat (constructor; [simpl; auto|]). constructor. }
    exists ht, t, n, lay, L, al. do 3 (split; [done|]).
    exact (amap_insert _ _ _ _ _ _ (tr_keys _ _ _ _ _ (cr_table _ _ _ _ _ _ C')) P').
  - cbn [allocs_ok] in Hz3. destruct (pick (owner s) sizeof_bucket_t) as [nb|] eqn:Hp; [|done].
    destruct (put_new_rep _ _ _ _ _ _ _ val _ _ _ C Hk Hm Hl Hp) as [C' P'].
    rewrite (clht_put_new _ _ _ _ _ _ _ val _ _ _ C (proj1 Hk) Hm Hl He Hp).
    set (evs := lock_evs b _) in *. set (s' := do_evs evs (with_bucket nb s)) in *.
    set (lay' := <[_ := _]> lay) in *.
    destruct (put_quiet evs s (with_bucket nb s) h ht L al) as [Q' I']; try done.
    { apply owner_grows_claim. }
    { unfold evs. cbn. repeat (constructor; [simpl; auto|]). constructor. }
    fold s' in Q', I'.
    assert (Hmap : amap s' lay' = <[key := val]> (amap s lay))
      by exact (amap_insert _ _ _ _ _ _ (tr_keys _ _ _ _ _ (cr_table _ _ _ _ _ _ C')) P').
    assert (Hlen : length (content s' lay') = S (length (content s lay))) by now rewrite P'.
    destruct (_ <=? _).
    + destruct (ht_status_ok 2 s' h ht t n lay' L al C' Q' I') as (s2 & ht2 & t2 & n2 & lay2 & al2 & Hst & C2 & Q2 & I2 & P2 & _).
      { rewrite Hlen. split; [done|]. split; [done|]. unfold s'. rewrite owner_do_evs. exact Hz3. }
      exists s2. rewrite (cbind_Ok _ _ _ _ _ Hst). split; [done|].
      exists ht2, t2, n2, lay2, L, al2. do 3 (split; [done|]). rewrite <- Hmap. unfold amap.
      apply list_to_map_proper; [|done]. exact (tr_keys _ _ _ _ _ (cr_table _ _ _ _ _ _ C2)).
    + exists s'. split; [done|]. exists ht, t, n, lay', L, al. done.
Qed.

Lemma put_present s h key val m v :
  index_rep s h m -> valid_key key -> m !! key = Some v -> clht_put h key val s = Ok (false, s).
Proof.
  intros (ht & t & n & lay & L & al & C & Q & I & <-) Hk Hm. eapply clht_put_found; eauto. apply Hk.
Qed.

(** ** Removal *)

Lemma remove_any s h key m :
  index_rep s h m -> valid_key key ->
  exists s', clht_remove h key s = Ok (default 0 (m !! key), s') /\ index_rep s' h (delete key m).
Proof.
  intros IR Hk. pose proof IR as (ht & t & n & lay & L & al & C & Q & I & <-).
  destruct (amap s lay !! key) as [v|] eqn:Hm.
  - destruct (clht_remove_found _ _ _ _ _ _ key v C (proj1 Hk) Hm) as (b & l & eb & ej & Hl & Hin & Hj & Hs & Hrun).
    destruct (remove_rep _ _ _ _ _ _ _ b _ _ _ _ _ C Hl Hin Hj Hs (proj1 Hk)) as [C' P'].
    eexists. split; [exact Hrun|].
    destruct (put_quiet (lock_evs b (remove_evs eb ej)) s s h ht L al) as [Q' I']; try done.
    { now intros x. }
    { apply entries_fld in Hj as [? ?]. cbn. repeat (constructor; [simpl; auto|]). constructor. }
    exists ht, t, n, lay, L, al. do 3 (split; [done|]).
    exact (amap_delete _ _ _ _ _ _ (tr_keys _ _ _ _ _ (cr_table _ _ _ _ _ _ C)) P').
  - exists s. split; [exact (clht_remove_absent _ _ _ _ _ _ key C (proj1 Hk) Hm)|].
    now rewrite delete_id.
Qed.

(** ** Lookup and size *)

Lemma get_any s h key m :
  index_rep s h m -> valid_key key ->
  (ht <- load (h, W_ht); clht_get ht key) s = Ok (default 0 (m !! key), s).
Proof.
  intros (ht & t & n & lay & L & al & C & Q & I & <-) Hk. pose proof (cr_h _ _ _ _ _ _ C) as Hh.
  run. rewrite (cr_ht _ _ _ _ _ _ C). apply (get_ok _ _ t n); [apply C|]. unfold valid_key in Hk. lia.
Qed.

Lemma size_any s h m :
  index_rep s h m -> (ht <- load (h, W_ht); clht_size ht) s = Ok (Z.of_nat (size m), s).
Proof.
  intros (ht & t & n & lay & L & al & C & Q & I & <-). pose proof (cr_h _ _ _ _ _ _ C) as Hh.
  run. rewrite (cr_ht _ _ _ _ _ _ C). apply (size_ok _ _ t n). apply C.
Qed.

(** ** Refinement *)

Lemma op_refines s h m o :
  index_rep s h m -> valid_op o -> op_room s h m o ->
  exists s', run_op h o s = Ok ((spec_op o m).1, s') /\ index_rep s' h (spec_op o m).2.
Proof.
  intros IR Hv Hr. destruct o as [key|key val|key|]; cbn [run_op spec_op valid_op op_room] in *.
  - exists s. split; [exact (get_any _ _ _ _ IR Hv)|done].
  - destruct (m !! key) as [v|] eqn:Hm.
    + exists s. rewrite (cbind_Ok _ _ _ _ _ (put_present _ _ _ val _ _ IR Hv Hm)). done.
    + destruct (put_absent _ _ _ val _ IR Hv Hm Hr) as (s' & Hrun & IR').
      exists s'. rewrite (cbind_Ok _ _ _ _ _ Hrun). done.
  - exact (remove_any _ _ _ _ IR Hv).
  - exists s. split; [exact (size_any _ _ _ IR)|done].
Qed.

Lemma ops_refine os s h m :
  index_rep s h m -> Forall valid_op os -> ops_room s h m os ->
  exists s', run_ops h os s = Ok ((spec_ops os m).1, s') /\ index_rep s' h (spec_ops os m).2.
Proof.
  revert s m. induction os as [|o os IH]; intros s m IR Hv Hr; [exists s; done|].
  apply list.Forall_cons in Hv as [Ho Hv]. destruct Hr as [Hr1 Hr2].
  destruct (op_refines s h m o IR Ho Hr1) as (s1 & Hrun & IR1). rewrite Hrun in Hr2.
  destruct (IH s1 _ IR1 Hv Hr2) as (s2 & Hrun2 & IR2). exists s2. cbn [run_ops spec_ops].
  rewrite (cbind_Ok _ _ _ _ _ Hrun), (cbind_Ok _ _ _ _ _ Hrun2).
  destruct (spec_op o m) as [r m1]. cbn [fst snd] in *. now destruct (spec_ops os m1) as [rs m2].
Qed.

(** ** Creation *)

(** Flushing the array of a new table line by line. *)
Lemma flush_array_ok s t n :
  aligned t -> t < 2 ^ 64 -> 0 < n -> n * sizeof_bucket_t < 2 ^ 31 ->
  (forall i, 0 <= i < n -> ok_bucket (owner s) (bucket_at t i)) ->
  clflush t (n * sizeof_bucket_t) false true s
  = Ok (tt, do_evs (flush_evs (bucket_at t <$> seqZ 0 n) ++ [EFence]) s).
Proof.
  intros Ha Ht Hn Hs Hb. unfold clflush. run. rewrite flush_ptrs_buckets by done.
  rewrite (cbind_Ok _ _ _ _ _ (cfor_evs (bucket_at t <$> seqZ 0 n) flush_line (fun b => [EFl (line b)]) _ s eq_refl
    ltac:(intros b s' Hin Ho; apply list_elem_of_fmap in Hin as (i & -> & Hi); rewrite elem_of_seqZ in Hi;
          apply flush_line_ok; rewrite Ho; apply Hb; lia))).
  unfold mfence. rewrite do_evs_app. do 3 f_equal.
Qed.

Lemma flush_obj_fence_ok s p :
  ok_obj (owner s) p ->
  clflush p sizeof_clht_hashtable_t false true s
  = Ok (tt, do_evs [EFl (line p); EFl (line p + 1); EFence] s).
Proof.
  intros Hp. pose proof (flush_obj_ok s p Hp) as E. unfold clflush in *. revert E. run. unfold cbind.
  destruct (cfor _ _ s) as [[[] s']|e]; [|discriminate]. intros [= ->]. reflexivity.
Qed.

Definition index_evs (w ht t n : Z) : list ev :=
  [ESt (w, W_ht) ht; ESt (w, W_resize_lock) LOCK_FREE; ESt (w, W_gc_lock) LOCK_FREE;
   ESt (w, W_status_lock) LOCK_FREE; ESt (w, W_version_list) NULL; ESt (w, W_version_min) 0;
   ESt (w, W_ht_oldest) ht] ++
  (flush_evs (bucket_at t <$> seqZ 0 n) ++ [EFence]) ++
  [EFl (line ht); EFl (line ht + 1); EFence] ++ [EFl (line w); EFl (line w + 1); EFence].

Lemma index_evs_writes w ht t n :
  index_evs w ht t n ≫= ev_writes =
  [(w, W_ht); (w, W_resize_lock); (w, W_gc_lock); (w, W_status_lock); (w, W_version_list);
   (w, W_version_min); (w, W_ht_oldest)].
Proof.
  unfold index_evs. rewrite !bind_app.
  assert (E : flush_evs (bucket_at t <$> seqZ 0 n) ≫= ev_writes = []) by (induction (bucket_at t <$> seqZ 0 n); done).
  now rewrite E.
Qed.

(** What [clht_create] allocates. *)
Definition create_requests (n : Z) : list Z :=
  [sizeof_clht_t; sizeof_clht_hashtable_t; n * sizeof_bucket_t].

(** The state after the allocation of the index object, and after its creation. *)
Definition with_index (w : Z) (s : state) : state := set_owner (claim_lines w sizeof_clht_t (owner s)) s.
Definition created (w ht t n : Z) (s : state) : state :=
  do_evs (index_evs w ht t n) (do_evs (create_evs ht t n) (with_table ht t n (with_index w s))).

Section Create.
Context (s : state) (w ht t k : Z).
Let n := 2 ^ k.
Hypothesis Hk : 0 <= k < 25.
Hypothesis Hp0 : pick (owner s) sizeof_clht_t = Some w.
Hypothesis Hp1 : pick (owner (with_index w s)) sizeof_clht_hashtable_t = Some ht.
Hypothesis Hp2 : pick (claim_lines ht sizeof_clht_hashtable_t (owner (with_index w s)))
                      (n * sizeof_bucket_t) = Some t.
Let s2 := do_evs (create_evs ht t n) (with_table ht t n (with_index w s)).

Lemma create_objects :
  0 < n < 2 ^ 25 /\ 0 < w /\ 0 < ht /\ ok_obj (owner s2) w /\ ok_obj (owner s2) ht /\
  forall i, 0 <= i < n -> ok_bucket (owner s2) (bucket_at t i).
Proof.
  assert (Hn : 0 < n < 2 ^ 25) by (split; [apply pow2_pos; lia|apply Z.pow_lt_mono_r; lia]).
  split; [done|]. apply pick_spec in Hp0 as Hw0. apply pick_spec in Hp1 as Hh0.
  split; [apply Hw0|]. split; [apply Hh0|].
  destruct (create_rep (with_index w s) ht t k ltac:(lia) Hp1 Hp2) as [R _]. fold n s2 in R.
  split; [|split; [apply R|]].
  - eapply ok_obj_mono; [|exact (fresh_obj _ _ Hp0)]. intros l Hl. unfold s2. rewrite owner_do_evs.
    unfold with_table. cbn. rewrite claim_lines_lookup. case_decide; [eauto|].
    rewrite claim_lines_lookup. case_decide; [eauto|]. exact Hl.
  - intros i Hi. pose proof (tr_ok _ _ _ _ _ R) as Hok. rewrite flat_layout_concat, list.Forall_forall in Hok.
    apply Hok, list_elem_of_fmap. exists i. split; [done|]. rewrite elem_of_seqZ. lia.
Qed.

Lemma create_run : clht_create n s = Ok (w, created w ht t n s).
Proof.
  destruct create_objects as (Hn & Hw0 & Hh0 & Hw & Hht & Hb).
  destruct (create_reads (with_table ht t n (with_index w s)) ht t n) as (_ & Rt & _). fold s2 in Rt.
  unfold clht_create, memalign. unfold cbind at 1. rewrite Hp0.
  replace (w =? NULL) with false by (unfold NULL; lia). fold (with_index w s).
  rewrite (cbind_Ok _ _ _ _ _ (hashtable_create_ok (with_index w s) ht t n ltac:(lia) Hp1 Hp2)). fold s2.
  do_store. replace (ht =? NULL) with false by (unfold NULL; lia). run. rewrite !rd_ESt_ne by congruence.
  rewrite Rt, u64_small by (unfold sizeof_bucket_t; lia).
  destruct (Hb 0 ltac:(lia)) as (Ha & Hlt & _). unfold bucket_at in Ha, Hlt. rewrite Z.mul_0_r, Z.add_0_r in Ha, Hlt.
  match goal with |- context [cbind (clflush t _ _ _) _ ?x] =>
    rewrite (cbind_Ok _ _ _ _ _ (flush_array_ok x t n Ha Hlt ltac:(lia) ltac:(unfold sizeof_bucket_t; lia) Hb)) end.
  match goal with |- context [cbind (clflush ht _ _ _) _ ?x] =>
    rewrite (cbind_Ok _ _ _ _ _ (flush_obj_fence_ok x ht ltac:(rewrite owner_do_evs; exact Hht))) end.
  match goal with |- context [cbind (clflush w _ _ _) _ ?x] =>
    rewrite (cbind_Ok _ _ _ _ _ (flush_obj_fence_ok x w ltac:(rewrite !owner_do_evs; exact Hw))) end.
  unfold created, index_evs. fold s2. rewrite !(do_evs_app (flush_evs _)), !do_evs_app. reflexivity.
Qed.

Lemma create_map_rep :
  clht_rep (created w ht t n s) w ht t n (flat_layout t n) /\ clht_quiet (created w ht t n s) w ht /\
  amap (created w ht t n s) (flat_layout t n) = ∅.
Proof.
  destruct create_objects as (Hn & Hw0 & Hh0 & Hw & Hht & Hb).
  destruct (create_reads (with_table ht t n (with_index w s)) ht t n) as (_ & _ & _ & _ & _ & Ri & _). fold s2 in Ri.
  destruct (create_rep (with_index w s) ht t k ltac:(lia) Hp1 Hp2) as [R C]. fold n s2 in R, C.
  set (s3 := created w ht t n s). assert (E3 : s3 = do_evs (index_evs w ht t n) s2) by done.
  assert (Ho3 : owner s3 = owner s2) by now rewrite E3, owner_do_evs.
  assert (W3 : writes_only (fun c => c ∈ index_evs w ht t n ≫= ev_writes) s2 s3).
  { rewrite E3. apply writes_only_evs. now apply list.Forall_forall. }
  rewrite index_evs_writes in W3.
  assert (Hbk : forall b, same_bucket s2 s3 b).
  { intros b. rewrite E3. apply do_evs_same_bucket. rewrite index_evs_writes. repeat constructor. }
  assert (Hfinal : forall f v, ESt (w, f) v ∈ take 4 (index_evs w ht t n) -> rd s3 (w, f) = v).
  { intros f v Hin. rewrite E3. unfold index_evs. rewrite do_evs_app.
    rewrite (rd_do_evs_frame (_ ++ _)).
    - cbn in Hin. cbn. read_evs; set_solver.
    - rewrite !bind_app. assert (E : flush_evs (bucket_at t <$> seqZ 0 n) ≫= ev_writes = []) by (induction (bucket_at t <$> seqZ 0 n); done).
      rewrite E. set_solver. }
  fold s3. split; [|split].
  - split; [now rewrite Ho3|apply Hfinal; cbn; set_solver| |].
    + apply (table_rep_frame s2); [done| |intros x; now rewrite Ho3|auto].
      repeat split; apply (writes_only_rd _ _ _ _ W3); set_solver.
    + apply list.Forall_forall. intros l Hl. apply list_elem_of_fmap in Hl as (i & -> & Hi).
      rewrite elem_of_seqZ in Hi. rewrite (writes_only_rd _ _ _ _ W3) by set_solver.
      apply create_bucket_zero; [lia|done].
  - split; [split|]; [apply Hfinal; cbn; set_solver| |apply Hfinal; cbn; set_solver].
    now rewrite (writes_only_rd _ _ _ _ W3) by set_solver.
  - unfold amap. rewrite (content_frame s2); [now rewrite C|auto].
Qed.

End Create.

Lemma create_index s k :
  0 <= k < 25 -> allocs_ok (create_requests (2 ^ k)) (owner s) ->
  exists w s', clht_create (2 ^ k) s = Ok (w, s') /\ w ≠ NULL /\ map_rep s' w ∅ /\ glob s' = glob s.
Proof.
  intros Hk Ha. unfold create_requests in Ha. cbn [allocs_ok] in Ha.
  destruct (pick (owner s) sizeof_clht_t) as [w|] eqn:Hp0; [|done].
  destruct (pick _ sizeof_clht_hashtable_t) as [ht|] eqn:Hp1; [|done].
  destruct (pick _ (2 ^ k * sizeof_bucket_t)) as [t|] eqn:Hp2; [|done].
  exists w, (created w ht t (2 ^ k) s).
  destruct (create_objects s w ht t k Hk Hp0 Hp1 Hp2) as (_ & Hw0 & _).
  split; [exact (create_run s w ht t k Hk Hp0 Hp1 Hp2)|]. split; [unfold NULL; lia|].
  split; [exists ht, t, (2 ^ k), (flat_layout t (2 ^ k)); exact (create_map_rep s w ht t k Hk Hp0 Hp1 Hp2)|]. unfold created. now rewrite !glob_do_evs.
Qed.

(** ** Registering a thread *)

(** What the registration allocates: the allocator object, its first chunk, the
    thread's counter and its version record. *)
Definition thread_requests : list Z :=
  [sizeof_ssmem_allocator_t; SSMEM_DEFAULT_MEM_SIZE; sizeof_ssmem_ts_t; sizeof_ht_ts_t].

Definition version_evs (h ts id version hd : Z) : list ev :=
  [ESt (ts, T_version) version; ESt (ts, T_id) id; ESt (ts, T_next) hd; ESt (h, W_version_list) ts].

Lemma register_run s h ht a mem ts ts2 id chunk :
  chunk = SSMEM_DEFAULT_MEM_SIZE ->
  ok_obj (owner s) h -> rd s (h, W_ht) = ht -> ok_obj (owner s) ht ->
  ssmem_ts_local (my_tls s) = NULL ->
  let o1 := claim_lines a sizeof_ssmem_allocator_t (owner s) in
  let o2 := claim_lines mem chunk o1 in
  let o3 := claim_lines ts sizeof_ssmem_ts_t o2 in
  let o4 := claim_lines ts2 sizeof_ht_ts_t o3 in
  pick (owner s) sizeof_ssmem_allocator_t = Some a -> pick o1 chunk = Some mem ->
  pick o2 sizeof_ssmem_ts_t = Some ts -> pick o3 sizeof_ht_ts_t = Some ts2 ->
  exists s', clht_gc_thread_init h id s = Ok (tt, s') /\ clht_alloc (my_tls s') = a /\
    registered s s' (ts_evs ts id (ssmem_ts_list (glob s)) ++
                     version_evs h ts2 id (rd s (ht, H_version)) (rd s (h, W_version_list))) o4
      a (first_allocator mem chunk SSMEM_GC_FREE_SET_SIZE ts) ts (my_tls s').
Proof.
  intros Hchunk Hh Hht Hhto Hl o1 o2 o3 o4 Hp1 Hp2 Hp3 Hp4.
  unfold clht_gc_thread_init. rewrite <- Hchunk. clear Hchunk.
  assert (Hpos : 0 < a /\ 0 < ts2).
  { apply pick_spec in Hp1 as [? _]. apply pick_spec in Hp4 as [? _]. done. }
  rewrite (cbind_Ok _ _ _ _ _ (memalign_ok s _ _ Hp1)).
  unfold set_clht_alloc. do_ret. run_step.
  match goal with |- context [cbind (set_tls ?t) ?k ?x] => change (cbind (set_tls t) k x) with (k tt (set_my_tls t x)) end.
  cbv beta. set (t1 := mkTls _ _ _ a _ _). set (s1 := set_my_tls t1 _).
  replace (negb (a =? NULL)) with true by (unfold NULL; lia). run_step.
  assert (Ht1 : my_tls s1 = t1) by apply my_tls_set.
  destruct (alloc_init_ok s1 a chunk SSMEM_GC_FREE_SET_SIZE id mem ts) as (s2 & Hrun & [Rc Rt Ro Ra Rl Rn Rtl]);
    [now rewrite Ht1|exact Hp2|exact Hp3|].
  rewrite (cbind_Ok _ _ _ _ _ Hrun). change (owner s1) with o1 in Ro. fold o2 o3 in Ro.
  assert (Hp4' : pick (owner s2) sizeof_ht_ts_t = Some ts2) by now rewrite Ro.
  rewrite (cbind_Ok _ _ _ _ _ (memalign_ok s2 _ _ Hp4')).
  replace (negb (ts2 =? NULL)) with true by (unfold NULL; lia). run_step.
  set (s3 := set_owner _ s2). assert (Ho3 : owner s3 = o4) by (unfold s3; cbn [owner set_owner]; now rewrite Ro).
  assert (Hg : forall l, is_Some (owner s !! l) -> is_Some (owner s3 !! l)).
  { intros l Hl'. rewrite Ho3. unfold o4, o3, o2, o1. rewrite !claim_lines_lookup. repeat case_decide; eauto. }
  assert (Hh3 : ok_obj (owner s3) h) by (eapply ok_obj_mono; eauto).
  assert (Hht3 : ok_obj (owner s3) ht) by (eapply ok_obj_mono; eauto).
  assert (Hts3 : ok_bucket (owner s3) ts2).
  { rewrite Ho3. apply pick_spec in Hp4 as (? & ? & ? & _). split; [done|]. unfold sizeof_ht_ts_t in *. split; [lia|].
    apply live_spec, live_claimed; [done|]. lia. }
  assert (Hrd : forall c, c.2 ≠ S_id -> c.2 ≠ S_version -> c.2 ≠ S_next -> rd s3 c = rd s c).
  { intros [p f] H1 H2 H3. unfold rd at 1. unfold s3. cbn [cells set_owner]. rewrite Rc.
    fold (rd (do_evs (ts_evs ts id (ssmem_ts_list (glob s1))) s1) (p, f)). cbn in H1, H2, H3.
    etrans; [apply rd_do_evs_frame; cbn; clear -H1 H2 H3; set_solver|reflexivity]. }
  run. rewrite Hrd, Hht by done. run.
  rewrite !Hrd by done.
  do 2 match goal with |- context [cbind (store (ts2, ?f) ?v) _ ?x] =>
    rewrite (cbind_Ok _ _ _ _ _ (store_ok x (ts2, f) v (ok_line_live _ ts2 f Hts3 ltac:(simpl; lia)))) end.
  run. rewrite !rd_ESt_ne by congruence. rewrite Hrd by done.
  match goal with |- context [cbind (store (ts2, ?f) ?v) _ ?x] =>
    rewrite (cbind_Ok _ _ _ _ _ (store_ok x (ts2, f) v (ok_line_live _ ts2 f Hts3 ltac:(simpl; lia)))) end.
  match goal with |- context [cbind (cas ?c ?v ?v') _ ?x] =>
    rewrite (cbind_Ok _ _ _ _ _ (cas_success x c v v' ltac:(field_live) ltac:(rewrite !rd_ESt_ne by congruence; now apply Hrd))) end.
  rewrite Z.eqb_refl. run. unfold set_clht_ts_thread. run_step.
  set (s4 := do_ev (ESt (h, W_version_list) ts2) _).
  assert (Es4 : s4 = do_evs (version_evs h ts2 id (rd s (ht, H_version)) (rd s (h, W_version_list))) s3) by done.
  assert (Ht4 : my_tls s4 = my_tls s2) by done.
  eexists. split; [reflexivity|]. split; [|split].
  - rewrite my_tls_set, Ht4, Rtl, Ht1. done.
  - cbn [cells set_my_tls set_glob]. rewrite Es4, do_evs_app. apply cells_do_evs. exact Rc.
  - cbn [trace set_my_tls set_glob]. rewrite Es4, trace_do_evs, rev_app_distr, <- app_assoc. f_equal. exact Rt.
  - exact Ho3.
  - exact Ra.
  - exact Rl.
  - exact Rn.
  - done.
Qed.

(** An index does not depend on the words a registration writes. *)
Lemma map_rep_frame s s' h ht t n lay :
  clht_rep s h ht t n lay -> clht_quiet s h ht -> owner_grows s s' ->
  (forall p f, bucket_fld f = true \/ header_fld f = true \/ f ∈ [W_ht; W_resize_lock; W_status_lock; H_is_helper] ->
     rd s' (p, f) = rd s (p, f)) ->
  clht_rep s' h ht t n lay /\ clht_quiet s' h ht /\ amap s' lay = amap s lay.
Proof.
  intros [Hh Hht R U] [[Q1 Q2] Q3] Ho Hrd.
  assert (Hb : forall b, same_bucket s s' b) by (intros b; apply same_bucket_rd; auto).
  split; [|split].
  - split; [eauto using ok_obj_mono|rewrite Hrd; [done|set_solver]| |].
    + apply (table_rep_frame s); auto. repeat split; apply Hrd; auto.
    + apply (unlocked_frame s); [|done]. intros x Hx. rewrite Hrd; [done|auto].
  - split; [split|]; (rewrite Hrd; [done|set_solver]).
  - unfold amap. rewrite (content_frame s); auto.
Qed.

Lemma thread_init_ok s h m L id :
  map_rep s h m -> ts_rep s L -> ssmem_ts_local (my_tls s) = NULL ->
  id = ssmem_ts_list_len (glob s) -> 0 <= id < 2 ^ 32 - 1 -> allocs_ok thread_requests (owner s) ->
  exists s' ts, clht_gc_thread_init h id s = Ok (tt, s') /\ index_rep s' h m /\ ts_rep s' (ts :: L).
Proof.
  intros (ht & t & n & lay & C & Q & <-) T Hl Hid Hb Ha. unfold thread_requests in Ha.
  remember SSMEM_DEFAULT_MEM_SIZE as chunk eqn:Hchunk. cbn [allocs_ok] in Ha.
  destruct (pick (owner s) _) as [a|] eqn:Hp1; [|done].
  destruct (pick _ chunk) as [mem|] eqn:Hp2; [|done].
  destruct (pick _ sizeof_ssmem_ts_t) as [ts|] eqn:Hp3; [|done].
  destruct (pick _ sizeof_ht_ts_t) as [ts2|] eqn:Hp4; [|done].
  destruct (register_run s h ht a mem ts ts2 id chunk Hchunk (cr_h _ _ _ _ _ _ C) (cr_ht _ _ _ _ _ _ C)
              (tr_ht _ _ _ _ _ (cr_table _ _ _ _ _ _ C)) Hl Hp1 Hp2 Hp3 Hp4) as (s' & Hrun & Halloc & RG).
  assert (Hg : owner_grows s s').
  { intros x Hx. rewrite (rg_owner _ _ _ _ _ _ _ _ RG), !claim_lines_lookup. repeat case_decide; eauto. }
  assert (Hfr : owner s !! line ts = None /\ ok_line (owner s') ts).
  { apply pick_spec in Hp3 as (H0 & Hal & Hlt & Hf). rewrite list.Forall_forall in Hf. split.
    - specialize (Hf (line ts)). rewrite !claim_lines_lookup in Hf.
      repeat case_decide; try discriminate Hf; try (apply Hf); unfold block_lines, sizeof_ssmem_ts_t, CACHE_LINE_SIZE;
        change ((128 + 64 - 1) / 64) with 2; rewrite elem_of_seqZ; lia.
    - rewrite (rg_owner _ _ _ _ _ _ _ _ RG). split; [done|]. split; [unfold sizeof_ssmem_ts_t in *; lia|].
      apply live_spec, live_claim, live_claimed; [done|]. unfold sizeof_ssmem_ts_t. lia. }
  destruct Hfr as [Hfr Hok].
  assert (T' : ts_rep s' (ts :: L)).
  { apply (ts_rep_register s s' _ _ _ _ ts _ L id T RG); try done.
    - cbn. repeat constructor; done.
    - now rewrite <- (rg_owner _ _ _ _ _ _ _ _ RG). }
  destruct (map_rep_frame s s' h ht t n lay C Q Hg) as (C' & Q' & M').
  { intros p f Hf. rewrite (rd_cells _ _ _ (rg_cells _ _ _ _ _ _ _ _ RG)).
    apply rd_do_evs_frame. clear -Hf. intros Hc. cbn in Hc.
    repeat (apply elem_of_cons in Hc as [Hc|Hc];
            [simplify_eq; destruct Hf as [Hf|[Hf|Hf]]; [done..|clear -Hf; set_solver]|]).
    now apply not_elem_of_nil in Hc. }
  exists s', ts. split; [done|]. split; [|done].
  exists ht, t, n, lay, (ts :: L), (first_allocator mem chunk SSMEM_GC_FREE_SET_SIZE ts).
  do 2 (split; [done|]). split; [|done]. unfold gc_inv. rewrite Halloc. split; try done.
  - exact (rg_alloc _ _ _ _ _ _ _ _ RG).
  - now eexists.
Qed.

(** ** Properties *)

(** [clht_put] of a valid key inserts the pair and returns true if the key is
    absent, and otherwise returns false and changes nothing; if the insertion makes
    the table resize, the resize is part of the call and the map is still the updated
    one. The call always returns: no walk runs out of bounds, no lock is left held. *)
Theorem clht_put_spec s h m key val :
  index_rep s h m -> valid_key key -> put_room s h m ->
  exists s', clht_put h key val s = Ok (bool_decide (m !! key = None), s') /\
    index_rep s' h (match m !! key with Some _ => m | None => <[key := val]> m end).
Proof.
  intros IR Hk Hr. destruct (m !! key) as [v|] eqn:Hm.
  - exists s. rewrite bool_decide_false by done. split; [exact (put_present _ _ _ _ _ _ IR Hk Hm)|done].
  - rewrite bool_decide_true by done. exact (put_absent _ _ _ _ _ IR Hk Hm Hr).
Qed.

(** [clht_remove] of a valid key returns the value the map held (0 if none)
    and leaves an index without the key. *)
Theorem clht_remove_spec s h m key :
  index_rep s h m -> valid_key key ->
  exists s', clht_remove h key s = Ok (default 0 (m !! key), s') /\ index_rep s' h (delete key m).
Proof. apply remove_any. Qed.

(** [clht_get] on the current table returns the value of a valid key, 0 if it
    is absent, and changes nothing. *)
Theorem clht_get_spec s h m key :
  index_rep s h m -> valid_key key -> clht_get (rd s (h, W_ht)) key s = Ok (default 0 (m !! key), s).
Proof.
  intros (ht & t & n & lay & L & al & C & Q & I & <-) Hk. rewrite (cr_ht _ _ _ _ _ _ C).
  apply (get_ok _ _ t n); [apply C|]. unfold valid_key in Hk. lia.
Qed.

(** [clht_size] on the current table returns the number of keys. *)
Theorem clht_size_spec s h m :
  index_rep s h m -> clht_size (rd s (h, W_ht)) s = Ok (Z.of_nat (size m), s).
Proof.
  intros (ht & t & n & lay & L & al & C & Q & I & <-). rewrite (cr_ht _ _ _ _ _ _ C).
  apply (size_ok _ _ t n). apply C.
Qed.

(** [clht_create] of a power of two below 2^25 buckets gives an index that
    holds the empty map. *)
Theorem clht_create_spec s k :
  0 <= k < 25 -> allocs_ok (create_requests (2 ^ k)) (owner s) ->
  exists w s', clht_create (2 ^ k) s = Ok (w, s') /\ w ≠ NULL /\ map_rep s' w ∅ /\ glob s' = glob s.
Proof. apply create_index. Qed.

(** [clht_gc_thread_init] registers the calling thread under the next free id:
    the map is unchanged, the thread's ssmem allocator is set up and its counter heads
    the list of all threads' counters. *)
Theorem clht_gc_thread_init_spec s h m L id :
  map_rep s h m -> ts_rep s L -> ssmem_ts_local (my_tls s) = NULL ->
  id = ssmem_ts_list_len (glob s) -> 0 <= id < 2 ^ 32 - 1 -> allocs_ok thread_requests (owner s) ->
  exists s' ts, clht_gc_thread_init h id s = Ok (tt, s') /\ index_rep s' h m /\ ts_rep s' (ts :: L).
Proof. apply thread_init_ok. Qed.

(** C1: any sequence of lookups, insertions, removals and size queries with
    valid keys, run on an index that represents a map, returns exactly the results of
    the same sequence on the map, and leaves an index representing the final map. *)
Theorem index_refines_map s h m os :
  index_rep s h m -> Forall valid_op os -> ops_room s h m os ->
  exists s', run_ops h os s = Ok ((spec_ops os m).1, s') /\ index_rep s' h (spec_ops os m).2.
Proof. apply ops_refine. Qed.

(** an inserted pair is found again, and every other key keeps its value. *)
Theorem put_then_get s h m key val :
  index_rep s h m -> valid_key key -> m !! key = None -> put_room s h m ->
  exists s', clht_put h key val s = Ok (true, s') /\
    clht_get (rd s' (h, W_ht)) key s' = Ok (val, s') /\
    forall key', valid_key key' -> key' ≠ key ->
      clht_get (rd s' (h, W_ht)) key' s' = Ok (default 0 (m !! key'), s').
Proof.
  intros IR Hk Hm Hr. destruct (put_absent _ _ _ val _ IR Hk Hm Hr) as (s' & Hrun & IR').
  assert (G : forall k', valid_key k' -> clht_get (rd s' (h, W_ht)) k' s' = Ok (default 0 (<[key := val]> m !! k'), s')).
  { intros k' Hk'. pose proof (get_any _ _ _ _ IR' Hk') as G.
    destruct IR' as (ht & t & n & lay & L & al & C & _). pose proof (cr_h _ _ _ _ _ _ C) as Hh.
    revert G. run. done. }
  exists s'. split; [done|]. split; [now rewrite G, lookup_insert_eq|].
  intros k' Hk' Hne. now rewrite G, lookup_insert_ne.
Qed.

End Spec.


(** ** A concrete index *)

(** The calling thread's set-up, as [clht_gc_thread_init] does it, with a small chunk. *)
Definition boot `{Malloc} : M unit :=
  a <- memalign sizeof_ssmem_allocator_t;
  set_clht_alloc a;;
  ssmem_alloc_init a 256 0.

Definition run_state {A} (m : M A) (s : state) : state :=
  match m s with Ok (_, s') => s' | Err _ => s end.

Definition demo_malloc : Malloc := bump_malloc (2 ^ 30).

Definition demo_boot : state := run_state (@boot demo_malloc) (state_init 0).
Definition demo_h : Z :=
  match @clht_create demo_malloc (2 ^ 1) demo_boot with Ok (w, _) => w | Err _ => 0 end.
Definition demo : state := run_state (@clht_create demo_malloc (2 ^ 1)) demo_boot.
Definition demo_ts : Z := ssmem_ts_list (glob demo).
Definition demo_al : ssmem_allocator_t :=
  default (mkAllocator 0 0 0 0 0 [] 0 [] 0 [] 0 [] 0 []) (allocs (glob demo) !! clht_alloc (my_tls demo)).

Lemma demo_gc : gc_inv demo [demo_ts] demo_al.
Proof.
  split.
  - vm_compute. reflexivity.
  - split.
    + vm_compute. done.
    + apply NoDup_singleton.
    + constructor; [|constructor]. split; [split; vm_compute; done|]. split; [vm_compute; done|].
      vm_compute. eauto.
    + constructor; [|constructor]. vm_compute. split; congruence.
  - done.
  - eexists. vm_compute. reflexivity.
  - vm_compute. reflexivity.
  - vm_compute. constructor.
Qed.

Lemma demo_index : index_rep demo demo_h ∅.
Proof.
  destruct (@create_index demo_malloc demo_boot 1) as (w & s' & E & _ & (ht & t & n & lay & C & Q & M) & _).
  - lia.
  - vm_compute. exact I.
  - replace demo_h with w by (unfold demo_h; now rewrite E).
    replace demo with s' in * by (unfold demo, run_state; now rewrite E).
    exists ht, t, n, lay, [demo_ts], demo_al. pose proof demo_gc as G.
    replace demo with s' in G by (unfold demo, run_state; now rewrite E). auto.
Qed.

(** Discharge a room condition by evaluation. *)
Ltac eval_room := vm_compute; repeat split; done.

Lemma demo_room : @put_room demo_malloc demo demo_h ∅.
Proof. eval_room. Qed.

Lemma clht_put_spec_witness :
  exists s', @clht_put demo_malloc demo_h 5 50 demo = Ok (true, s') /\ index_rep s' demo_h (<[5 := 50]> ∅).
Proof. exact (@clht_put_spec demo_malloc demo demo_h ∅ 5 50 demo_index ltac:(split; lia) demo_room). Defined.

Lemma clht_remove_spec_witness :
  exists s', @clht_remove demo_malloc demo_h 5 demo = Ok (0, s') /\ index_rep s' demo_h (delete 5 ∅).
Proof. exact (@clht_remove_spec demo_malloc demo demo_h ∅ 5 demo_index ltac:(split; lia)). Defined.

Lemma clht_get_spec_witness : clht_get (rd demo (demo_h, W_ht)) 7 demo = Ok (0, demo).
Proof. exact (clht_get_spec demo demo_h ∅ 7 demo_index ltac:(split; lia)). Defined.

Lemma clht_size_spec_witness : clht_size (rd demo (demo_h, W_ht)) demo = Ok (0, demo).
Proof. exact (clht_size_spec demo demo_h ∅ demo_index). Defined.

Lemma clht_create_spec_witness :
  exists w s', @clht_create demo_malloc (2 ^ 4) (state_init 0) = Ok (w, s') /\ w ≠ NULL /\
    map_rep s' w ∅ /\ glob s' = glob (state_init 0).
Proof. exact (@clht_create_spec demo_malloc (state_init 0) 4 ltac:(lia) ltac:(vm_compute; exact I)). Defined.

Definition demo_ops : list op :=
  [OpPut 2 20; OpPut 4 40; OpPut 6 60; OpPut 8 80; OpPut 10 100; OpPut 12 120; OpPut 14 140;
   OpGet 14; OpPut 2 21; OpRemove 6; OpGet 6; OpSize].

Lemma index_refines_map_witness :
  exists s', @run_ops demo_malloc demo_h demo_ops demo = Ok ([1; 1; 1; 1; 1; 1; 1; 140; 0; 60; 0; 6], s') /\
    index_rep s' demo_h (spec_ops demo_ops ∅).2.
Proof.
  exact (@index_refines_map demo_malloc demo demo_h ∅ demo_ops demo_index
           ltac:(repeat (constructor; [vm_compute; done|]); constructor) ltac:(eval_room)).
Defined.

Lemma put_then_get_witness :
  exists s', @clht_put demo_malloc demo_h 5 50 demo = Ok (true, s') /\
    clht_get (rd s' (demo_h, W_ht)) 5 s' = Ok (50, s') /\
    forall key', valid_key key' -> key' ≠ 5 ->
      clht_get (rd s' (demo_h, W_ht)) key' s' = Ok (default 0 ((∅ : gmap Z Z) !! key'), s').
Proof. exact (@put_then_get demo_malloc demo demo_h ∅ 5 50 demo_index ltac:(split; lia) eq_refl demo_room). Defined.

(** The demo index in parts. *)
Lemma demo_parts :
  exists ht t lay L al, clht_rep demo demo_h ht t 2 lay /\ clht_quiet demo demo_h ht /\
    gc_inv demo L al /\ amap demo lay = ∅.
Proof.
  destruct demo_index as (ht & t & n & lay & L & al & C & Q & G & M).
  assert (n = 2).
  { rewrite <- (tr_num _ _ _ _ _ (cr_table _ _ _ _ _ _ C)), <- (cr_ht _ _ _ _ _ _ C). vm_compute. reflexivity. }
  subst n. exists ht, t, lay, L, al. auto.
Qed.

Lemma resize_preserves_map_witness :
  exists ht t lay, clht_rep demo demo_h ht t 2 lay /\
  exists s' ht' t' lay', @ht_resize_pes_with demo_malloc (fun _ _ _ => cfail Hang) demo_h true 8 demo = Ok (1, s') /\
    clht_rep s' demo_h ht' t' (2 ^ 4) lay' /\ amap s' lay' = amap demo lay.
Proof.
  destruct demo_parts as (ht & t & lay & L & al & C & [Q _] & G & M). exists ht, t, lay. split; [exact C|].
  destruct (@resize_preserves_map demo_malloc (fun _ _ _ => cfail Hang) demo demo_h ht t 2 lay true 8 4 L al C Q G
              ltac:(lia) eq_refl ltac:(rewrite M; vm_compute; done) ltac:(rewrite M; vm_compute; done)
              ltac:(rewrite M; vm_compute; exact I)) as (s' & ht' & t' & lay' & al' & Hrun & C' & M' & _).
  exists s', ht', t', lay'. auto.
Defined.

Lemma resize_never_nested_witness :
  @ht_resize_pes_with demo_malloc (fun _ _ _ => cfail Hang) demo_h true 8 demo =
  @ht_resize_pes_with demo_malloc (fun _ _ _ => cret 0) demo_h true 8 demo.
Proof.
  destruct demo_parts as (ht & t & lay & L & al & C & [Q _] & G & M).
  exact (@resize_never_nested demo_malloc (fun _ _ _ => cfail Hang) (fun _ _ _ => cret 0) demo demo_h ht t 2 lay true 8 4 C Q
           ltac:(lia) eq_refl ltac:(rewrite M; vm_compute; done) ltac:(rewrite M; vm_compute; done)
           ltac:(rewrite M; vm_compute; exact I)).
Defined.

Lemma ht_status_spec_witness :
  exists s' ht' t' lay', @ht_status demo_malloc 1 demo_h 1 false demo = Ok (0, s') /\
    clht_rep s' demo_h ht' t' 4 lay' /\ amap s' lay' = ∅.
Proof.
  destruct demo_parts as (ht & t & lay & L & al & C & Q & G & M).
  destruct (@ht_status_spec demo_malloc 0 demo demo_h ht t 2 lay L al C Q G ltac:(rewrite M; eval_room))
    as (s' & ht' & t' & lay' & al' & Hrun & C' & _ & _ & M'). rewrite M in *.
  exists s', ht', t', lay'. auto.
Defined.

(** *** Room for large requests *)

Lemma top_line_le o z : 0 <= z -> (forall l b, o !! l = Some b -> l <= z) -> top_line o <= z.
Proof.
  intros Hz. unfold top_line. induction o as [|l b o Hl Hfirst IH] using map_first_key_ind; intros Ho.
  { rewrite map_fold_empty. done. }
  rewrite map_fold_insert_first_key by done. apply Z.max_lub.
  - apply (Ho l b), lookup_insert_eq.
  - apply IH. intros l' b' Hl'. apply (Ho l' b'). rewrite lookup_insert_ne; [done|]. congruence.
Qed.

(** The lines a list of requests takes at most. *)
Definition request_lines (szs : list Z) : Z := foldr (fun sz z => (sz + 63) / 64 + z) 0 szs.

Lemma bump_allocs_ok limit szs o :
  Forall (fun sz => 0 <= sz) szs -> 64 * (top_line o + 1 + request_lines szs + 1) < Z.min limit (2 ^ 64) ->
  @allocs_ok (bump_malloc limit) szs o.
Proof.
  intros Hs. revert o. induction Hs as [|sz szs Hsz Hs IH]; intros o Hb; [done|]. cbn [allocs_ok request_lines foldr] in *.
  fold (request_lines szs) in Hb.
  assert (Hr : 0 <= request_lines szs).
  { clear -Hs. induction Hs as [|x l Hx Hl IHl]; [done|]. cbn. fold (request_lines l).
    pose proof (Z.div_pos (x + 63) 64). lia. }
  destruct (top_line_spec o) as [H0 Ht]. pose proof (Z.div_mod (sz + 63) 64 ltac:(lia)) as Hd.
  pose proof (Z.mod_pos_bound (sz + 63) 64 ltac:(lia)) as Hm.
  unfold pick, bump_malloc at 1, bump_pick, CACHE_LINE_SIZE.
  replace ((0 <=? sz) && _) with true by lia. apply IH.
  assert (Htop : top_line (claim_lines (64 * (top_line o + 1)) sz o) <= top_line o + (sz + 63) / 64); [|lia].
  apply top_line_le; [lia|]. intros l b. rewrite claim_lines_lookup. case_decide as Hin.
  - intros _. unfold block_lines, line, CACHE_LINE_SIZE in Hin. rewrite elem_of_seqZ in Hin.
    replace (sz + 64 - 1) with (sz + 63) in Hin by lia. rewrite (Z.mul_comm 64), Z.div_mul in Hin by lia. lia.
  - intros Hl. apply Ht in Hl. lia.
Qed.

Lemma clht_gc_thread_init_spec_witness :
  exists w s1 s' ts, @clht_create demo_malloc (2 ^ 1) (state_init 0) = Ok (w, s1) /\
    @clht_gc_thread_init demo_malloc w 0 s1 = Ok (tt, s') /\ index_rep s' w ∅ /\ ts_rep s' [ts].
Proof.
  destruct (@create_index demo_malloc (state_init 0) 1 ltac:(lia) ltac:(vm_compute; exact I))
    as (w & s1 & Hrun & _ & M & G).
  assert (T : ts_rep s1 []).
  { split; [|constructor..]. rewrite G. vm_compute. reflexivity. }
  assert (Htop : top_line (owner s1) = top_line (owner (run_state (@clht_create demo_malloc (2 ^ 1)) (state_init 0))))
    by (unfold run_state; now rewrite Hrun).
  destruct (@clht_gc_thread_init_spec demo_malloc s1 w ∅ [] 0 M T) as (s' & ts & Hi & R & T').
  - unfold my_tls. rewrite G. reflexivity.
  - rewrite G. reflexivity.
  - lia.
  - apply bump_allocs_ok; [repeat constructor; vm_compute; congruence|]. rewrite Htop. vm_compute. reflexivity.
  - exists w, s1, s', ts. auto.
Defined.
