(* ===== verification/ClhtGcSpec.v ===== *)
(** * P-CLHT: versions and the release of tables

    [clht_gc_min_version_used] gives the oldest version any thread may still read, and
    [clht_gc_free] gives back exactly the blocks of one table: every overflow bucket,
    the bucket array and the header, each once, and nothing else. *)

From S2P Require Import Prelude Memory Ssmem SsmemProps Clht ClhtGc ClhtRep ClhtUpdate ClhtCopy ClhtResize ClhtSpec.

(** ** Freed blocks *)

(** Memory without the blocks [B]. *)
Definition drop_blocks (B : list Z) (o : gmap Z Z) : gmap Z Z := filter (fun '(_, b) => b ∉ B) o.
Definition without (B : list Z) (s : state) : state := set_owner (drop_blocks B (owner s)) s.

Lemma drop_lookup B o l b : drop_blocks B o !! l = Some b <-> o !! l = Some b /\ b ∉ B.
Proof. unfold drop_blocks. apply map_lookup_filter_Some. Qed.

Lemma drop_live B o l b : o !! l = Some b -> b ∉ B -> is_Some (drop_blocks B o !! l).
Proof. intros Hl Hb. exists b. now apply drop_lookup. Qed.

Lemma drop_ext B B' o : (forall b, b ∈ B <-> b ∈ B') -> drop_blocks B o = drop_blocks B' o.
Proof. intros E. apply map_filter_ext. intros l b _. now rewrite E. Qed.

Lemma without_nil s : without [] s = s.
Proof.
  unfold without, set_owner, drop_blocks. destruct s as [c o t g]. cbn. f_equal. apply map_filter_id.
  intros l b _. apply not_elem_of_nil.
Qed.

Lemma elem_of_rev {A} (x : A) l : x ∈ rev l <-> x ∈ l.
Proof. rewrite !list_elem_of_In. symmetry. apply in_rev. Qed.

Lemma free_ok_block B s p :
  p ≠ NULL -> p ∉ B -> owner s !! line p = Some p -> free p (without B s) = Ok (tt, without (p :: B) s).
Proof.
  intros Hp Hb Ho. unfold free. rewrite (proj2 (Z.eqb_neq p NULL) Hp).
  rewrite bool_decide_true by (cbn; now apply drop_lookup). f_equal. f_equal. unfold without, set_owner. cbn. f_equal.
  unfold drop_blocks. rewrite map_filter_filter. apply map_filter_ext. intros l b _. cbn. set_solver.
Qed.

(** ** Freeing one table *)

(** The blocks of a table: [memalign] gave each overflow bucket, the array and the header. *)
Record table_blocks (s : state) (ht t n : Z) (lay : list (list Z)) : Prop := {
  tb_ht : owner s !! line ht = Some ht /\ owner s !! (line ht + 1) = Some ht;
  tb_array : forall i, 0 <= i < n -> owner s !! line (bucket_at t i) = Some t;
  tb_over : forall b l, b :: l ∈ lay -> forall x, x ∈ l -> owner s !! line x = Some x;
  tb_diff : NoDup (ht :: t :: concat (tail <$> lay));
}.

Definition overflow (lay : list (list Z)) : list Z := concat (tail <$> lay).

Lemma overflow_bind lay : overflow lay = lay ≫= tail.
Proof. unfold overflow. induction lay as [|l lay IH]; [done|]. cbn. now rewrite IH. Qed.

Lemma without_chain B s b l : chain (without B s) b l <-> chain s b l.
Proof. revert b. induction l as [|x l IH]; intros b; [done|]. simpl. now rewrite IH. Qed.

Lemma without_ok B s b x : ok_bucket (owner s) x -> owner s !! line x = Some b -> b ∉ B -> ok_bucket (owner (without B s)) x.
Proof. intros (H1 & H2 & _) Ho Hb. split; [done|]. split; [done|]. cbn. eapply drop_live; eauto. Qed.

Lemma free_chain_ok n B s b l :
  chain s b l -> NoDup l -> (forall x, x ∈ l -> ok_bucket (owner s) x /\ owner s !! line x = Some x /\ x ∉ B) ->
  (length l <= n)%nat -> free_chain n b (without B s) = Ok (tt, without (rev l ++ B) s).
Proof.
  revert B b l. induction n as [|n IH]; intros B b l Hc Hnd Hl Hlen.
  { destruct l; [|simpl in Hlen; lia]. simpl in Hc. now subst. }
  destruct l as [|a l]; [simpl in Hc; now subst|]. destruct Hc as [-> Hc]. apply list.NoDup_cons in Hnd as [Hna Hnd].
  destruct (Hl a ltac:(left)) as (Hok & Hown & HaB).
  assert (Hnz : a ≠ NULL) by (destruct Hok as [[Hpos _] _]; unfold NULL; lia).
  cbn [free_chain]. rewrite (proj2 (Z.eqb_neq a NULL) Hnz). pose proof (without_ok B s a a Hok Hown HaB) as Hok'. do_load.
  rewrite (cbind_Ok _ _ _ _ _ (free_ok_block B s a Hnz HaB Hown)). change (rd (without B s)) with (rd s).
  rewrite (IH (a :: B) _ l); [|done|done| |simpl in Hlen; lia].
  - cbn [rev]. now rewrite <- app_assoc.
  - intros x Hx. destruct (Hl x ltac:(now right)) as (? & ? & ?). split; [done|]. split; [done|].
    rewrite elem_of_cons. intros [->|?]; done.
Qed.

Lemma free_loop_ok s ht t n lay k lays B :
  table_rep s ht t n lay -> table_blocks s ht t n lay -> 0 <= k ->
  (forall i l, lays !! i = Some l -> lay !! (Z.to_nat k + i)%nat = Some l) ->
  ht ∉ B -> t ∉ B -> (forall x, x ∈ overflow lays -> x ∉ B) -> NoDup (concat lays) ->
  ht ∉ overflow lays -> t ∉ overflow lays ->
  exists B', cfor (seqZ k (Z.of_nat (length lays))) (fun bin =>
    table <- load (ht, H_table);
    next <- load (bucket_at table bin, B_next);
    n <- walk_bound;
    free_chain n next) (without B s) = Ok (tt, without B' s) /\
    (forall x, x ∈ B' <-> x ∈ overflow lays \/ x ∈ B).
Proof.
  intros R T. revert k B. induction lays as [|l lays IH]; intros k B Hk Hlays HhB HtB HoB Hnd Hho Hto.
  { exists B. split; [done|]. intros x. unfold overflow. cbn. set_solver. }
  pose proof (Hlays 0%nat l eq_refl) as Hl. rewrite Nat.add_0_r in Hl.
  destruct (tr_chain _ _ _ _ _ R _ _ Hl) as [Hhd Hc]. rewrite Z2Nat.id in Hhd, Hc by lia.
  pose proof (tr_ok _ _ _ _ _ R) as Hok. rewrite list.Forall_forall in Hok.
  assert (Hokl : Forall (ok_bucket (owner s)) l) by (apply list.Forall_forall; eauto using elem_of_concat_lookup).
  destruct (chain_next _ _ _ Hc (hd_error_ne _ _ Hhd) Hokl) as (l' & -> & Hb & Hc' & Hok' & _).
  cbn [concat] in Hnd. apply list.NoDup_app in Hnd as (Hnd1 & Hnd2 & Hnd3).
  cbn [app] in *. apply list.NoDup_cons in Hnd1 as [_ Hnd1].
  assert (Hkn : 0 <= k < n).
  { apply lookup_lt_Some in Hl. rewrite (tr_len _ _ _ _ _ R) in Hl. lia. }
  assert (Hov : overflow ((bucket_at t k :: l') :: lays) = l' ++ overflow lays) by done. rewrite Hov in *.
  assert (Hobj : ok_obj (owner (without B s)) ht).
  { destruct (tr_ht _ _ _ _ _ R) as (? & ? & _). destruct (tb_ht _ _ _ _ _ T) as [T1 T2].
    split; [done|]. split; [done|]. cbn. split; eapply drop_live; eauto. }
  pose proof (without_ok B s t _ Hb (tb_array _ _ _ _ _ T k Hkn) HtB) as Hb'.
  rewrite seqZ_cons by (simpl; lia). cbn [cfor]. run. change (rd (without B s)) with (rd s).
  rewrite (tr_table _ _ _ _ _ R). run. change (rd (without B s)) with (rd s).
  assert (Hall : forall x, x ∈ l' -> ok_bucket (owner s) x /\ owner s !! line x = Some x /\ x ∉ B).
  { intros x Hx. rewrite list.Forall_forall in Hok'. split; [auto|]. split; [|apply HoB; set_solver].
    apply (tb_over _ _ _ _ _ T (bucket_at t k) l'); [now apply list_elem_of_lookup_2 in Hl|done]. }
  rewrite (cbind_Ok _ _ _ _ _ (free_chain_ok (S (size (owner (without B s)))) B s _ l' Hc' Hnd1 Hall
    ltac:(apply Nat.le_le_succ_r, chain_bound; [done|]; apply list.Forall_forall; intros x Hx;
          destruct (Hall x Hx) as (? & ? & ?); eapply without_ok; eauto))).
  replace (Z.pred (Z.of_nat (length ((bucket_at t k :: l') :: lays)))) with (Z.of_nat (length lays)) by (simpl; lia).
  rewrite elem_of_app in Hho, Hto.
  destruct (IH (Z.succ k) (rev l' ++ B)) as (B' & Hrun & HB'); [lia| | | | |done|tauto|tauto|].
  - intros i x Hx. specialize (Hlays (S i) x Hx).
    replace (Z.to_nat (Z.succ k) + i)%nat with (Z.to_nat k + S i)%nat by lia. done.
  - rewrite elem_of_app, elem_of_rev. tauto.
  - rewrite elem_of_app, elem_of_rev. tauto.
  - intros x Hx. rewrite elem_of_app, elem_of_rev. intros [Hin|Hin]; [|apply (HoB x); [apply elem_of_app; now right|done]].
    apply (Hnd2 x); [now right|]. unfold overflow in Hx. apply elem_of_concat in Hx as (y & Hxy & Hy).
    apply list_elem_of_fmap in Hy as (z & -> & Hz). apply elem_of_concat. exists z. split; [|done].
    destruct z; [done|]. now right.
  - exists B'. split; [exact Hrun|]. intros x. rewrite HB', elem_of_app, elem_of_app, elem_of_rev. tauto.
Qed.

(** ** Properties *)

(** [clht_gc_free] of a table returns and gives back exactly its blocks, each once:
    the overflow buckets, the bucket array and the header; memory is otherwise
    unchanged. *)
Theorem clht_gc_free_spec s ht t n lay :
  table_rep s ht t n lay -> table_blocks s ht t n lay ->
  clht_gc_free ht s = Ok (1, without (ht :: t :: overflow lay) s).
Proof.
  intros R T. pose proof (tb_diff _ _ _ _ _ T) as Hd. fold (overflow lay) in Hd.
  apply list.NoDup_cons in Hd as [Hd1 Hd]. apply list.NoDup_cons in Hd as [Hd2 _]. rewrite elem_of_cons in Hd1.
  pose proof (tr_ht _ _ _ _ _ R) as Hht. destruct (tb_ht _ _ _ _ _ T) as [T1 T2].
  destruct (free_loop_ok s ht t n lay 0 lay [] R T) as (B & Hrun & HB); [lia|done|..|apply R|tauto|done|].
  { apply not_elem_of_nil. }
  { apply not_elem_of_nil. }
  { intros x _. apply not_elem_of_nil. }
  rewrite without_nil in Hrun. unfold clht_gc_free. run. rewrite (tr_num _ _ _ _ _ R), (table_rep_seqZ _ _ _ _ _ R).
  rewrite (cbind_Ok _ _ _ _ _ Hrun).
  assert (HhB : ht ∉ B) by (rewrite HB; intros [?|Hn]; [tauto|now apply not_elem_of_nil in Hn]).
  assert (HtB : t ∉ B) by (rewrite HB; intros [?|Hn]; [tauto|now apply not_elem_of_nil in Hn]).
  assert (Hobj : ok_obj (owner (without B s)) ht).
  { destruct Hht as (? & ? & _). split; [done|]. split; [done|]. cbn. split; eapply drop_live; eauto. }
  run. change (rd (without B s)) with (rd s). rewrite (tr_table _ _ _ _ _ R).
  pose proof (table_rep_pos _ _ _ _ _ R) as Hn.
  assert (Ht0 : bucket_at t 0 = t) by (unfold bucket_at; lia).
  pose proof (tb_array _ _ _ _ _ T 0 ltac:(lia)) as Hta. rewrite Ht0 in Hta.
  assert (Htz : t ≠ NULL).
  { destruct lay as [|l lay]; [pose proof (tr_len _ _ _ _ _ R); cbn in *; lia|].
    destruct (tr_chain _ _ _ _ _ R 0%nat l eq_refl) as [Hhd Hc]. pose proof (tr_ok _ _ _ _ _ R) as Hok.
    destruct l as [|b l]; [done|]. cbn in Hhd. injection Hhd as ->. apply list.Forall_cons in Hok as [[[Hp _] _] _].
    change (Z.of_nat 0) with 0 in Hp. rewrite Ht0 in Hp. unfold NULL. lia. }
  assert (Hhz : ht ≠ NULL) by (destruct Hht as [[? _] _]; unfold NULL; lia).
  rewrite (cbind_Ok _ _ _ _ _ (free_ok_block B s t Htz HtB Hta)).
  rewrite (cbind_Ok _ _ _ _ _ (free_ok_block (t :: B) s ht Hhz ltac:(rewrite elem_of_cons; tauto) T1)).
  unfold cret. f_equal. f_equal. unfold without. f_equal. apply drop_ext. intros b.
  rewrite !elem_of_cons, HB. pose proof (not_elem_of_nil b). tauto.
Qed.

(** ** Versions in use *)

(** The version records [T] of the registered threads, from [cur]. *)
Fixpoint version_chain (s : state) (cur : Z) (T : list Z) : Prop :=
  match T with
  | [] => cur = NULL
  | p :: T' => cur = p /\ version_chain s (rd s (p, T_next)) T'
  end.

Lemma min_version_loop_ok n s cur T m :
  version_chain s cur T -> Forall (ok_line (owner s)) T -> (length T <= n)%nat ->
  min_version_loop n cur m s = Ok (foldl (fun m p => Z.min m (rd s (p, T_version))) m T, s).
Proof.
  revert cur T m. induction n as [|n IH]; intros cur T m Hc Hok Hlen.
  { destruct T; [|simpl in Hlen; lia]. simpl in Hc. now subst. }
  destruct T as [|p T]; [simpl in Hc; now subst|]. destruct Hc as [-> Hc]. apply list.Forall_cons in Hok as [Hp Hok].
  assert (Hnz : p ≠ NULL) by (destruct Hp as [[Hpos _] _]; unfold NULL; lia).
  cbn [min_version_loop]. rewrite (proj2 (Z.eqb_neq p NULL) Hnz).
  rewrite (cbind_Ok _ _ _ _ _ (load_ok s (p, T_version) (ok_line_live _ p T_version Hp ltac:(simpl; lia)))).
  rewrite (cbind_Ok _ _ _ _ _ (load_ok s (p, T_next) (ok_line_live _ p T_next Hp ltac:(simpl; lia)))).
  rewrite (IH _ T); [|done|done|simpl in Hlen; lia]. cbn [foldl]. do 2 f_equal. f_equal.
  destruct (Z.ltb_spec (rd s (p, T_version)) m); lia.
Qed.

Lemma foldl_min s T m :
  let r := foldl (fun m p => Z.min m (rd s (p, T_version))) m T in
  r <= m /\ (forall p, p ∈ T -> r <= rd s (p, T_version)) /\ (r = m \/ exists p, p ∈ T /\ r = rd s (p, T_version)).
Proof.
  revert m. induction T as [|q T IH]; intros m; cbn [foldl].
  - split; [lia|]. split; [intros p Hp; now apply not_elem_of_nil in Hp|auto].
  - destruct (IH (Z.min m (rd s (q, T_version)))) as (H1 & H2 & H3). cbn zeta in *. split; [lia|]. split.
    + intros p Hp. apply elem_of_cons in Hp as [->|Hp]; [lia|auto].
    + destruct H3 as [->|(p & Hp & ->)]; [|right; exists p; split; [now right|done]].
      destruct (Z.min_spec m (rd s (q, T_version))) as [[_ ->]|[_ ->]]; [now left|]. right. exists q. split; [left|done].
Qed.

(** [clht_gc_min_version_used] returns the smallest of the current table's
    version and the versions recorded by the registered threads, so no version below
    the result is in use. *)
Theorem clht_gc_min_version_used_spec s h ht T :
  ok_obj (owner s) h -> rd s (h, W_ht) = ht -> ok_obj (owner s) ht ->
  version_chain s (rd s (h, W_version_list)) T -> NoDup T -> Forall (ok_line (owner s)) T ->
  exists m, clht_gc_min_version_used h s = Ok (m, s) /\
    m <= rd s (ht, H_version) /\ (forall p, p ∈ T -> m <= rd s (p, T_version)) /\
    (m = rd s (ht, H_version) \/ exists p, p ∈ T /\ m = rd s (p, T_version)).
Proof.
  intros Hh Hht Hok Hc Hnd HT. unfold clht_gc_min_version_used. run. rewrite Hht. run.
  rewrite (min_version_loop_ok _ s _ T); [|done|done|apply Nat.le_le_succ_r; now apply lines_bound].
  eexists. split; [reflexivity|]. apply foldl_min.
Qed.

(** ** Witnesses *)

Definition demo_ht : Z := rd demo (demo_h, W_ht).
Definition demo_t : Z := rd demo (demo_ht, H_table).

Lemma demo_table : table_rep demo demo_ht demo_t 2 (flat_layout demo_t 2).
Proof.
  assert (Hp0 : @pick demo_malloc (owner demo_boot) sizeof_clht_t = Some demo_h) by (vm_compute; reflexivity).
  assert (Hp1 : @pick demo_malloc (owner (with_index demo_h demo_boot)) sizeof_clht_hashtable_t = Some demo_ht)
    by (vm_compute; reflexivity).
  assert (Hp2 : @pick demo_malloc (claim_lines demo_ht sizeof_clht_hashtable_t (owner (with_index demo_h demo_boot)))
                  (2 ^ 1 * sizeof_bucket_t) = Some demo_t) by (vm_compute; reflexivity).
  destruct (@create_map_rep demo_malloc demo_boot demo_h demo_ht demo_t 1 ltac:(lia) Hp0 Hp1 Hp2) as (C & _).
  assert (E : demo = created demo_h demo_ht demo_t (2 ^ 1) demo_boot).
  { unfold demo, run_state. now rewrite (@create_run demo_malloc demo_boot demo_h demo_ht demo_t 1 ltac:(lia) Hp0 Hp1 Hp2). }
  rewrite E. exact (cr_table _ _ _ _ _ _ C).
Qed.

Lemma flat_layout_tail t n b l : b :: l ∈ flat_layout t n -> l = [].
Proof. intros Hin. apply list_elem_of_fmap in Hin as (i & E & _). now injection E. Qed.

Lemma demo_blocks : table_blocks demo demo_ht demo_t 2 (flat_layout demo_t 2).
Proof.
  split.
  - split; vm_compute; reflexivity.
  - intros i Hi. assert (i = 0 \/ i = 1) as [->| ->] by lia; vm_compute; reflexivity.
  - intros b l Hin x Hx. rewrite (flat_layout_tail _ _ _ _ Hin) in Hx. now apply not_elem_of_nil in Hx.
  - apply (bool_decide_eq_true_1 _). vm_compute. reflexivity.
Qed.

Lemma clht_gc_free_spec_witness :
  clht_gc_free demo_ht demo = Ok (1, without (demo_ht :: demo_t :: overflow (flat_layout demo_t 2)) demo).
Proof. exact (clht_gc_free_spec demo demo_ht demo_t 2 (flat_layout demo_t 2) demo_table demo_blocks). Defined.

Lemma clht_gc_min_version_used_spec_witness :
  exists m, clht_gc_min_version_used demo_h demo = Ok (m, demo) /\ m <= rd demo (demo_ht, H_version).
Proof.
  destruct (clht_gc_min_version_used_spec demo demo_h demo_ht []) as (m & H1 & H2 & _).
  - destruct demo_parts as (ht & t & lay & L & al & C & _). apply C.
  - reflexivity.
  - apply demo_table.
  - vm_compute. reflexivity.
  - constructor.
  - constructor.
  - exists m. auto.
Defined.

(** ** Released tables stay allocated *)

(** [clht_gc_release] queues the blocks of a table in ssmem and gives none of them
    back: P-CLHT never advances a thread's counter, so no stamp is ever newer than
    another and the queue only grows. *)
Theorem clht_gc_release_retains s ht t n lay L al :
  gc_inv s L al -> table_rep s ht t n lay ->
  exists s' al', clht_gc_release ht s = Ok (1, s') /\ cells s' = cells s /\ owner s' = owner s /\
    gc_inv s' L al' /\ released_blocks al' = ht :: t :: rev (overflow lay) ++ released_blocks al.
Proof.
  intros I R. destruct (gc_release_ok s ht t n lay L al I R) as (s' & al' & Hrun & (Ec & Eo & _) & I' & Hr).
  exists s', al'. rewrite overflow_bind. auto.
Qed.

Lemma clht_gc_release_retains_witness :
  exists s' al', clht_gc_release demo_ht demo = Ok (1, s') /\ cells s' = cells demo /\ owner s' = owner demo /\
    gc_inv s' [demo_ts] al' /\
    released_blocks al' = demo_ht :: demo_t :: rev (overflow (flat_layout demo_t 2)) ++ released_blocks demo_al.
Proof. exact (clht_gc_release_retains demo demo_ht demo_t 2 _ [demo_ts] demo_al demo_gc demo_table). Defined.
