(* ===== verification/Pmem.v ===== *)
(** * Persistent memory

    What survives a power failure. The trace of a state lists the stores, cache-line
    write-backs and fences executed so far. Every cell has a persisted value and the
    values stored since, which may or may not have left the cache: an ordinary store is
    guaranteed to be persistent once its line has been written back after it and a
    fence has followed; a non-temporal store once a fence has followed. Until then a
    power failure may keep the persisted value or any of the later ones, for each cell
    independently, so stores may become persistent in any order, also the stores of
    one line. This allows at least the behaviours of the processors the program is
    written for. *)

From S2P Require Import Prelude Memory.

(** ** One cell *)

Record pcell := mkPcell {
  p_base : Z;           (* the persisted value *)
  p_pend : list Z;      (* the values stored since, newest first *)
  p_flushed : bool;     (* the next fence makes the newest one persistent *)
}.

Definition pcell_step (c : cell) (x : pcell) (e : ev) : pcell :=
  match e with
  | ESt c' v => if decide (c' = c) then mkPcell (p_base x) (v :: p_pend x) false else x
  | ENt c' v => if decide (c' = c) then mkPcell (p_base x) (v :: p_pend x) true else x
  | EFl l => if l =? line (addr_of c) then mkPcell (p_base x) (p_pend x) true else x
  | EFence => if p_flushed x then mkPcell (hd (p_base x) (p_pend x)) [] true else x
  end.

Definition prun (c : cell) (evs : list ev) (x : pcell) : pcell := foldl (pcell_step c) x evs.

(** What the cell may hold after a failure, and what it holds without one. *)
Definition possible (x : pcell) : list Z := p_base x :: p_pend x.
Definition newest (x : pcell) : Z := hd (p_base x) (p_pend x).

(** ** Memory *)

(** Memory starts zeroed; [tr] is a trace, newest event first. *)
Definition pst (tr : list ev) (c : cell) : pcell := prun c (rev tr) (mkPcell 0 [] true).

(** [i] is a memory image that a failure after the trace [tr] may leave. *)
Definition crash_image (tr : list ev) (i : gmap cell Z) : Prop :=
  forall c, default 0 (i !! c) ∈ possible (pst tr c).

(** The cell has the value [v] in every image. *)
Definition settled (tr : list ev) (c : cell) (v : Z) : Prop := p_pend (pst tr c) = [] /\ p_base (pst tr c) = v.

(** The trace accounts for the contents of memory. *)
Definition coherent (s : state) : Prop := forall c, newest (pst (trace s) c) = rd s c.

(** What the program reads after a restart: the image, with every block that was
    allocated still allocated. *)
Definition restart (o : gmap Z Z) (g : globals) (i : gmap cell Z) : state := mkState i o [] g.

(** ** Lemmas *)

Lemma prun_app c l1 l2 x : prun c (l1 ++ l2) x = prun c l2 (prun c l1 x).
Proof. apply foldl_app. Qed.

Lemma prun_cons c e l x : prun c (e :: l) x = prun c l (pcell_step c x e).
Proof. reflexivity. Qed.

Lemma pst_app evs tr c : pst (rev evs ++ tr) c = prun c evs (pst tr c).
Proof. unfold pst. now rewrite rev_app_distr, rev_involutive, prun_app. Qed.

Lemma newest_step c x e :
  newest (pcell_step c x e) =
  match e with ESt c' v | ENt c' v => if decide (c' = c) then v else newest x | _ => newest x end.
Proof.
  unfold newest. destruct e as [c' v|c' v|l|]; simpl; try (now case_decide).
  - now destruct (_ =? _).
  - now destruct (p_flushed x).
Qed.

Lemma coherent_do_ev e s : coherent s -> coherent (do_ev e s).
Proof.
  intros Hc c. change (trace (do_ev e s)) with (rev [e] ++ trace s). rewrite pst_app. cbn [prun foldl].
  rewrite newest_step, Hc. destruct e; [now rewrite rd_ESt|now rewrite rd_ENt|done..].
Qed.

Lemma coherent_do_evs evs s : coherent s -> coherent (do_evs evs s).
Proof. revert s. induction evs as [|e evs IH]; intros s Hs; [done|]. apply IH. now apply coherent_do_ev. Qed.

Lemma coherent_mem s s' : cells s' = cells s -> trace s' = trace s -> coherent s -> coherent s'.
Proof. intros Ec Et Hs c. unfold rd. rewrite Ec, Et. apply Hs. Qed.

Lemma coherent_init tid : coherent (state_init tid).
Proof. intros c. reflexivity. Qed.

(** *** Cells that are not written *)

Definition writes (c : cell) (e : ev) : bool :=
  match e with ESt c' _ | ENt c' _ => bool_decide (c' = c) | _ => false end.

Lemma settled_step c x e :
  p_pend x = [] -> writes c e = false ->
  p_pend (pcell_step c x e) = [] /\ p_base (pcell_step c x e) = p_base x.
Proof.
  intros Hp Hw. destruct e as [c' v|c' v|l|]; simpl in *.
  - apply bool_decide_eq_false in Hw. now rewrite decide_False.
  - apply bool_decide_eq_false in Hw. now rewrite decide_False.
  - now destruct (_ =? _).
  - destruct (p_flushed x); simpl; [|done]. now rewrite Hp.
Qed.

Lemma settled_prun c evs x :
  p_pend x = [] -> c ∉ evs ≫= ev_writes -> p_pend (prun c evs x) = [] /\ p_base (prun c evs x) = p_base x.
Proof.
  revert x. induction evs as [|e evs IH]; intros x Hp Hc; [done|].
  rewrite bind_cons, elem_of_app in Hc.
  assert (Hw : writes c e = false).
  { destruct e; simpl in *; try done; apply bool_decide_eq_false; set_solver. }
  destruct (settled_step c x e Hp Hw) as [H1 H2]. cbn [prun foldl].
  destruct (IH (pcell_step c x e) H1 ltac:(tauto)) as [H3 H4]. split; [done|]. now rewrite <- H2.
Qed.

Lemma settled_evs evs tr c v :
  settled tr c v -> c ∉ evs ≫= ev_writes -> settled (rev evs ++ tr) c v.
Proof.
  intros [H1 H2] Hc. unfold settled. rewrite pst_app.
  destruct (settled_prun c evs (pst tr c) H1 Hc) as [-> ->]. done.
Qed.

Lemma settled_image tr c v i : settled tr c v -> crash_image tr i -> default 0 (i !! c) = v.
Proof.
  intros [H1 H2] Hi. specialize (Hi c). unfold possible in Hi. rewrite H1, H2 in Hi.
  now apply list_elem_of_singleton in Hi.
Qed.

Lemma settled_coherent s c v : coherent s -> settled (trace s) c v -> rd s c = v.
Proof. intros Hs [H1 H2]. rewrite <- (Hs c). unfold newest. now rewrite H1. Qed.

(** *** Written, written back, fenced *)

Lemma flushed_prun c evs x :
  p_flushed x = true -> c ∉ evs ≫= ev_writes ->
  p_flushed (prun c evs x) = true /\ newest (prun c evs x) = newest x.
Proof.
  revert x. induction evs as [|e evs IH]; intros x Hf Hc; [done|].
  rewrite bind_cons, elem_of_app in Hc. cbn [prun foldl]. fold (prun c evs (pcell_step c x e)).
  assert (Hs : p_flushed (pcell_step c x e) = true /\ newest (pcell_step c x e) = newest x).
  { rewrite newest_step. destruct e as [c' v|c' v|l|]; simpl in *.
    - rewrite !decide_False by set_solver. done.
    - rewrite !decide_False by set_solver. done.
    - now destruct (_ =? _).
    - now rewrite Hf. }
  destruct Hs as [Hs1 Hs2]. destruct (IH _ Hs1 ltac:(tauto)) as [IH1 IH2]. now rewrite IH2, Hs2.
Qed.

Lemma settle_fence c y evs2 evs3 :
  p_flushed y = true -> c ∉ evs2 ≫= ev_writes -> c ∉ evs3 ≫= ev_writes ->
  p_pend (prun c (evs2 ++ EFence :: evs3) y) = [] /\ p_base (prun c (evs2 ++ EFence :: evs3) y) = newest y.
Proof.
  intros Hy H2 H3. rewrite prun_app, prun_cons. destruct (flushed_prun c evs2 y Hy H2) as [F N].
  unfold pcell_step. rewrite F. rewrite <- N.
  apply (settled_prun c evs3 (mkPcell (newest (prun c evs2 y)) [] true)); done.
Qed.

(** A write-back of the line and a later fence settle a cell at its newest value. *)
Lemma settle_flush c evs1 evs2 evs3 tr :
  c ∉ evs2 ≫= ev_writes -> c ∉ evs3 ≫= ev_writes ->
  settled (rev (evs1 ++ EFl (line (addr_of c)) :: evs2 ++ EFence :: evs3) ++ tr) c
          (newest (prun c evs1 (pst tr c))).
Proof.
  intros H2 H3. unfold settled. rewrite pst_app, prun_app, prun_cons. cbn [pcell_step].
  rewrite Z.eqb_refl. exact (settle_fence c (mkPcell _ _ true) evs2 evs3 eq_refl H2 H3).
Qed.

(** A fence settles a non-temporal store. *)
Lemma settle_nt c v evs1 evs2 evs3 tr :
  c ∉ evs2 ≫= ev_writes -> c ∉ evs3 ≫= ev_writes ->
  settled (rev (evs1 ++ ENt c v :: evs2 ++ EFence :: evs3) ++ tr) c v.
Proof.
  intros H2 H3. unfold settled. rewrite pst_app, prun_app, prun_cons. cbn [pcell_step].
  rewrite decide_True by done. exact (settle_fence c (mkPcell _ (v :: _) true) evs2 evs3 eq_refl H2 H3).
Qed.

(** A cell written once, after it was settled, holds the old or the new value. *)
Lemma possible_prun c (vs : list Z) es x :
  p_base x ∈ vs -> (forall w, w ∈ p_pend x -> w ∈ vs) -> c ∉ es ≫= ev_writes ->
  forall w, w ∈ possible (prun c es x) -> w ∈ vs.
Proof.
  revert x. induction es as [|e es IH]; intros x Hb Hp Hc w Hw.
  - unfold possible in Hw. apply elem_of_cons in Hw as [->|Hw]; auto.
  - rewrite bind_cons, elem_of_app in Hc. rewrite prun_cons in Hw. apply (IH (pcell_step c x e)); [| |tauto|done].
    + destruct e as [c' u|c' u|l|]; simpl in *; try (case_decide; done); [now destruct (_ =? _)|].
      destruct (p_flushed x); [|done]. simpl. destruct (p_pend x); [done|]. apply Hp. left.
    + destruct e as [c' u|c' u|l|]; simpl in *; try (rewrite decide_False by set_solver; done);
        [now destruct (_ =? _)|]. destruct (p_flushed x); [|done]. simpl. set_solver.
Qed.

Lemma possible_nt c v tr v0 evs1 evs2 i :
  settled tr c v0 -> c ∉ evs1 ≫= ev_writes -> c ∉ evs2 ≫= ev_writes ->
  crash_image (rev (evs1 ++ ENt c v :: evs2) ++ tr) i ->
  default 0 (i !! c) = v0 \/ default 0 (i !! c) = v.
Proof.
  intros [H1 H2] Hc1 Hc2 Hi. specialize (Hi c). rewrite pst_app, prun_app, prun_cons in Hi.
  destruct (settled_prun c evs1 (pst tr c) H1 Hc1) as [E1 E2]. cbn [pcell_step] in Hi.
  rewrite decide_True, E1, E2, H2 in Hi by done.
  apply (possible_prun c [v0; v]) in Hi; [set_solver|left|simpl; set_solver|done].
Qed.

(** *** Write-backs at the end *)

Lemma no_writes_bind evs : (forall e, e ∈ evs -> ev_writes e = []) -> evs ≫= ev_writes = [].
Proof.
  induction evs as [|e evs IH]; intros Hn; [done|]. rewrite bind_cons, IH by (intros; apply Hn; now right).
  now rewrite (Hn e) by left.
Qed.

(** Whatever was stored before, a cell whose line is written back by [F] is settled
    after the fence that follows. *)
Lemma settled_at_flush s evs F c :
  coherent s -> (forall e, e ∈ F -> ev_writes e = []) -> EFl (line (addr_of c)) ∈ F ->
  settled (trace (do_evs (evs ++ F ++ [EFence]) s)) c (rd (do_evs (evs ++ F ++ [EFence]) s) c).
Proof.
  intros Hs Hn HF. apply list_elem_of_split in HF as (F1 & F2 & ->).
  assert (H2 : c ∉ F2 ≫= ev_writes).
  { rewrite no_writes_bind; [apply not_elem_of_nil|]. intros e He. apply Hn. set_solver. }
  replace (evs ++ (F1 ++ EFl (line (addr_of c)) :: F2) ++ [EFence])
    with ((evs ++ F1) ++ EFl (line (addr_of c)) :: F2 ++ [EFence]) by (rewrite <- !app_assoc; done).
  assert (E : rd (do_evs ((evs ++ F1) ++ EFl (line (addr_of c)) :: F2 ++ [EFence]) s) c =
              newest (prun c (evs ++ F1) (pst (trace s) c))).
  { rewrite do_evs_app, rd_do_evs_frame.
    - rewrite <- (coherent_do_evs (evs ++ F1) s Hs c), trace_do_evs, pst_app. done.
    - rewrite bind_cons, bind_app, !elem_of_app. cbn. set_solver. }
  rewrite E, trace_do_evs. apply settle_flush; [done|apply not_elem_of_nil].
Qed.
