(* ===== verification/ClhtCrash.v ===== *)
(** * Crash consistency of P-CLHT

    At every point of an insertion, a removal or a resize, whatever memory image a
    power failure leaves, the index found in it represents the map from before or the
    map from after the operation; once the operation has returned, the map from after.
    The operations share one pattern: everything the new state adds is made persistent
    first, then one 8-byte non-temporal store publishes it. *)

From S2P Require Import Prelude Utils Memory Ssmem SsmemProps Clht ClhtGc ClhtRep ClhtUpdate ClhtCopy ClhtResize ClhtSpec Pmem.

(** ** The cells the abstract map depends on *)

(** Keys and links of all buckets, values of used slots, the header, the root. *)
Inductive index_cell (s : state) (h ht : Z) (lay : list (list Z)) : cell -> Prop :=
| ic_root : index_cell s h ht lay (h, W_ht)
| ic_header f : header_fld f = true -> index_cell s h ht lay (ht, f)
| ic_next b : b ∈ concat lay -> index_cell s h ht lay (b, B_next)
| ic_key b j : b ∈ concat lay -> j ∈ entries -> index_cell s h ht lay (b, B_key j)
| ic_val b j : b ∈ concat lay -> j ∈ entries -> used (slot s b j) -> index_cell s h ht lay (b, B_val j).

Definition agrees (s r : state) (h ht : Z) (lay : list (list Z)) : Prop :=
  forall c, index_cell s h ht lay c -> rd r c = rd s c.

(** Every such cell has its value in every crash image. *)
Definition durable_index (s : state) (h ht : Z) (lay : list (list Z)) : Prop :=
  forall c, index_cell s h ht lay c -> settled (trace s) c (rd s c).

(** The map read from memory after a restart; the locks are left to
    [clht_lock_initialization]. *)
Definition recovered (r : state) (h : Z) (m : gmap Z Z) : Prop :=
  exists ht t n lay, ok_obj (owner r) h /\ rd r (h, W_ht) = ht /\ table_rep r ht t n lay /\ amap r lay = m.

(** Every failure during the events [evs], which follow the trace [tr], leaves the
    map [m] or the map [m']. *)
Definition crash_safe (tr : list ev) (evs : list ev) (o : gmap Z Z) (h : Z) (m m' : gmap Z Z) : Prop :=
  forall k i g, crash_image (rev (take k evs) ++ tr) i ->
    recovered (restart o g i) h m \/ recovered (restart o g i) h m'.

(** ** Agreement on the index cells is enough *)

Lemma filter_agree (l1 l2 : list (Z * Z)) :
  Forall2 (fun a b => a.1 = b.1 /\ (used b -> a = b)) l1 l2 -> filter used l1 = filter used l2.
Proof.
  induction 1 as [|a b l1 l2 [H1 H2] _ IH]; [done|].
  destruct (decide (used b)) as [Hu|Hu].
  - rewrite (H2 Hu). now rewrite !filter_cons_True, IH.
  - rewrite !filter_cons_False; [done|done|]. unfold used in *. now rewrite H1.
Qed.

Section Agree.
Context (s r : state) (h ht t n : Z) (lay : list (list Z)).
Hypothesis C : clht_rep s h ht t n lay.
Hypothesis Ho : owner_grows s r.
Hypothesis A : agrees s r h ht lay.

Lemma agree_slots b : b ∈ concat lay ->
  Forall2 (fun x y => x.1 = y.1 /\ (used y -> x = y)) (bslots r b) (bslots s b).
Proof.
  intros Hb. unfold bslots. apply Forall2_fmap_2. apply Forall_Forall2_diag. apply list.Forall_forall.
  intros j Hj. unfold slot. cbn [fst]. split; [apply A; now constructor|].
  intros Hu. rewrite !A; [done|now constructor|now constructor].
Qed.

Lemma agree_chain b l : (forall x, x ∈ l -> x ∈ concat lay) -> chain s b l -> chain r b l.
Proof.
  revert b. induction l as [|x l IH]; intros b Hl; [done|]. simpl. intros [-> Hc]. split; [done|].
  rewrite (A (x, B_next)) by (constructor; apply Hl; left). apply IH; [set_solver|done].
Qed.

Lemma agree_cslots l : (forall x, x ∈ l -> x ∈ concat lay) ->
  Forall2 (fun x y => x.1 = y.1 /\ (used y -> x = y)) (cslots r l) (cslots s l).
Proof.
  induction l as [|x l IH]; intros Hl; [constructor|]. rewrite !cslots_cons. apply Forall2_app.
  - apply agree_slots, Hl. left.
  - apply IH. set_solver.
Qed.

Lemma agree_content : content r lay = content s lay.
Proof.
  assert (G : forall lays, (forall l, l ∈ lays -> l ∈ lay) -> content r lays = content s lays).
  { intros lays. induction lays as [|l lays IH]; intros Hl; [done|]. rewrite !content_cons, IH by set_solver.
    f_equal. apply filter_agree, agree_cslots. intros x Hx.
    assert (Hin : l ∈ lay) by (apply Hl; left). apply list_elem_of_lookup in Hin as [i Hi].
    eauto using elem_of_concat_lookup. }
  now apply G.
Qed.

Lemma agree_recovered : recovered r h (amap s lay).
Proof.
  destruct C as [Hh Hht R U]. destruct R.
  exists ht, t, n, lay. split; [eauto using ok_obj_mono|]. split; [rewrite <- Hht; apply A; constructor|].
  split; [|unfold amap; now rewrite agree_content]. split; try done.
  - eauto using ok_obj_mono.
  - rewrite A; [done|now constructor].
  - rewrite A; [done|now constructor].
  - rewrite A; [done|now constructor].
  - intros i l Hl. destruct (tr_chain i l Hl) as [? ?]. split; [done|].
    apply agree_chain; [|done]. eauto using elem_of_concat_lookup.
  - eapply list.Forall_impl; [exact tr_ok|]. eauto using ok_bucket_mono.
  - intros i l Hl. pose proof (agree_cslots l ltac:(eauto using elem_of_concat_lookup)) as F.
    specialize (tr_place i l Hl). clear -F tr_place. induction F as [|x y l1 l2 [H1 H2] _ IH]; [constructor|].
    apply list.Forall_cons in tr_place as [Hp Hps]. constructor; [|auto].
    intros Hu. assert (Hu' : used y) by (unfold used in *; now rewrite <- H1). rewrite (H2 Hu'). now apply Hp.
  - now rewrite agree_content.
Qed.

End Agree.

(** ** Publication by one non-temporal store *)

Section Publish.
Context (s s' : state) (h ht ht' t t' n n' : Z) (lay lay' : list (list Z)).
Context (evs1 evs2 : list ev) (c : cell) (v : Z) (o : gmap Z Z).
Hypothesis C : clht_rep s h ht t n lay.
Hypothesis C' : clht_rep s' h ht' t' n' lay'.
Hypothesis D : durable_index s h ht lay.
Hypothesis Ho : forall l, is_Some (owner s !! l) -> is_Some (o !! l).
Hypothesis Ho' : forall l, is_Some (owner s' !! l) -> is_Some (o !! l).
(** The published cell belongs to the old state; the other writes do not touch it. *)
Hypothesis Hc : index_cell s h ht lay c.
Hypothesis Hv : rd s' c = v.
Hypothesis H1 : forall c', index_cell s h ht lay c' -> c' ∉ evs1 ≫= ev_writes.
Hypothesis H2 : forall c', index_cell s h ht lay c' -> c' ∉ evs2 ≫= ev_writes.
(** Everything else of the new state is persistent before the publication. *)
Hypothesis H3 : forall c', index_cell s' h ht' lay' c' -> c' ≠ c ->
  settled (rev evs1 ++ trace s) c' (rd s' c') /\ c' ∉ evs2 ≫= ev_writes.
Lemma publish_settled evs c' : index_cell s' h ht' lay' c' -> c' ≠ c -> (forall e, e ∈ evs -> e ∈ evs2) ->
  settled (rev (evs1 ++ ENt c v :: evs) ++ trace s) c' (rd s' c').
Proof.
  intros Hi Hne He. destruct (H3 c' Hi Hne) as [Hs Hw].
  rewrite rev_app_distr, <- app_assoc. apply settled_evs; [done|].
  rewrite bind_cons, elem_of_app. intros [Hin|Hin]; [cbn in Hin; set_solver|].
  apply Hw. apply list_elem_of_bind in Hin as (e & Hin & Hin'). apply list_elem_of_bind. eauto.
Qed.

Lemma publish_crash : crash_safe (trace s) (evs1 ++ ENt c v :: evs2) o h (amap s lay) (amap s' lay').
Proof.
  intros k i g Hi. destruct (Nat.le_gt_cases k (length evs1)) as [Hk|Hk].
  - left. rewrite take_app_le in Hi by done. apply (agree_recovered s _ h ht t n lay C); [exact Ho|].
    intros c' Hc'. apply (settled_image _ _ _ _ (settled_evs (take k evs1) _ _ _ (D c' Hc')
      ltac:(intros Hin; apply (H1 c' Hc'); apply list_elem_of_bind in Hin as (e & ? & He);
            apply list_elem_of_bind; exists e; split; [done|]; now apply subseteq_take in He)) Hi).
  - rewrite take_app_ge in Hi by lia.
    destruct (k - length evs1)%nat as [|k'] eqn:Ek; [lia|]. cbn [take] in Hi.
    assert (Htake : forall e, e ∈ take k' evs2 -> e ∈ evs2) by (intros e; apply subseteq_take).
    assert (Hw2 : forall x, x ∉ evs2 ≫= ev_writes -> x ∉ take k' evs2 ≫= ev_writes).
    { intros x Hx Hin. apply Hx. apply list_elem_of_bind in Hin as (e & ? & He). apply list_elem_of_bind. eauto. }
    destruct (possible_nt c v (trace s) (rd s c) evs1 (take k' evs2) i (D c Hc) (H1 c Hc) (Hw2 _ (H2 c Hc)) Hi) as [E|E].
    + left. apply (agree_recovered s _ h ht t n lay C); [exact Ho|]. intros c' Hc'.
      destruct (decide (c' = c)) as [->|Hne]; [exact E|].
      refine (settled_image _ _ _ _ (settled_evs _ _ _ _ (D c' Hc') _) Hi).
      rewrite bind_app, bind_cons, !elem_of_app. intros [Hin|[Hin|Hin]].
      * exact (H1 c' Hc' Hin).
      * cbn in Hin. set_solver.
      * exact (Hw2 c' (H2 c' Hc') Hin).
    + right. apply (agree_recovered s' _ h ht' t' n' lay' C'); [exact Ho'|]. intros c' Hc'.
      destruct (decide (c' = c)) as [->|Hne]; [now rewrite Hv|].
      exact (settled_image _ _ _ _ (publish_settled _ c' Hc' Hne Htake) Hi).
Qed.

Lemma publish_durable evs3 :
  evs2 = EFence :: evs3 -> trace s' = rev (evs1 ++ ENt c v :: evs2) ++ trace s -> durable_index s' h ht' lay'.
Proof.
  intros E Et c' Hc'. rewrite Et. destruct (decide (c' = c)) as [->|Hne].
  - rewrite Hv, E. apply (settle_nt c v evs1 [] evs3); [set_solver|].
    intros Hin. apply (H2 c Hc). rewrite E. exact Hin.
  - now apply publish_settled.
Qed.

Lemma publish evs3 :
  evs2 = EFence :: evs3 -> trace s' = rev (evs1 ++ ENt c v :: evs2) ++ trace s ->
  crash_safe (trace s) (evs1 ++ ENt c v :: evs2) o h (amap s lay) (amap s' lay') /\
  durable_index s' h ht' lay'.
Proof. intros E Et. split; [exact publish_crash|exact (publish_durable evs3 E Et)]. Qed.

End Publish.

(** ** Insertion into an empty slot *)

(** Which index cell a given cell can be. *)
Ltac cell_inv H := inversion H; simplify_eq; try done.

Section PutSlot.
Context (s : state) (h ht t n : Z) (lay : list (list Z)) (key val b : Z) (l : list Z) (eb ej : Z).
Hypothesis C : clht_rep s h ht t n lay.
Hypothesis D : durable_index s h ht lay.
Hypothesis Hk : valid_key key.
Hypothesis Hm : amap s lay !! key = None.
Hypothesis Hl : lay !! Z.to_nat (Z.land key (n - 1)) = Some (b :: l).
Hypothesis He : chain_empty s (b :: l) = Some (eb, ej).
Let evs := lock_evs b (put_slot_evs eb ej key val).
Let s' := do_evs evs s.
Let evs1 := [ESt (b, B_lock) LOCK_UPDATE; ESt (eb, B_val ej) val; EFl (line eb); EFence].
Let evs2 := [EFence; ESt (b, B_lock) LOCK_FREE].

Lemma slot_facts : eb ∈ concat lay /\ ej ∈ entries /\ rd s (eb, B_key ej) = 0 /\ aligned eb.
Proof.
  destruct (chain_empty_Some _ _ _ _ He) as (Hin & Hj & H0).
  assert (Hc : eb ∈ concat lay) by eauto using elem_of_concat_lookup.
  pose proof (tr_ok _ _ _ _ _ (cr_table _ _ _ _ _ _ C)) as Hok. rewrite list.Forall_forall in Hok.
  split; [done|]. split; [done|]. split; [done|]. apply (Hok eb Hc).
Qed.

Lemma slot_unwritten c : index_cell s h ht lay c -> (c ∉ evs1 ≫= ev_writes) /\ (c ∉ evs2 ≫= ev_writes).
Proof.
  destruct slot_facts as (Hc & Hj & H0 & _). intros Hi. cbn. split; intros Hin.
  - apply elem_of_cons in Hin as [->|Hin]; [cell_inv Hi|]. apply list_elem_of_singleton in Hin as ->.
    cell_inv Hi.
  - apply list_elem_of_singleton in Hin as ->. cell_inv Hi.
Qed.

Lemma slot_ready c : index_cell s' h ht lay c -> c ≠ (eb, B_key ej) ->
  settled (rev evs1 ++ trace s) c (rd s' c) /\ c ∉ evs2 ≫= ev_writes.
Proof.
  destruct slot_facts as (Hc & Hj & H0 & Ha). intros Hi Hne.
  assert (Hw2 : c ∉ evs2 ≫= ev_writes).
  { cbn. intros Hin. apply list_elem_of_singleton in Hin as ->. cell_inv Hi. }
  split; [|done]. destruct (decide (c = (eb, B_val ej))) as [->|Hv].
  - assert (Ea : line (addr_of (eb, B_val ej)) = line eb).
    { apply line_base; [apply Ha|]. apply entries_fld in Hj as [Hb _]. simpl in *. lia. }
    replace (rd s' (eb, B_val ej)) with val by (subst s' evs; cbn; read_evs).
    unfold evs1. rewrite <- Ea.
    pose proof (settle_flush (eb, B_val ej) [ESt (b, B_lock) LOCK_UPDATE; ESt (eb, B_val ej) val] [] [] (trace s)) as S.
    cbn in S. rewrite decide_True in S by done. unfold newest in S. cbn in S. apply S; set_solver.
  - assert (Hw1 : c ∉ evs ≫= ev_writes).
    { cbn. intros Hin. repeat (apply elem_of_cons in Hin as [->|Hin]; [first [done|cell_inv Hi]|]).
      now apply not_elem_of_nil in Hin. }
    assert (Hi0 : index_cell s h ht lay c).
    { inversion Hi as [|f Hf|x Hx|x j Hx Hj'|x j Hx Hj' Hu]; subst; try (now constructor). constructor; try done.
      unfold used, slot, s' in Hu |- *. cbn [fst] in Hu |- *. rewrite rd_do_evs_frame in Hu; [done|].
      cbn. clear -Hv. set_solver. }
    subst s'. rewrite rd_do_evs_frame by done. apply settled_evs; [now apply D|].
    cbn in Hw1 |- *. set_solver.
Qed.

Lemma slot_crash o :
  (forall x, is_Some (owner s !! x) -> is_Some (o !! x)) ->
  crash_safe (trace s) evs o h (amap s lay) (<[key := val]> (amap s lay)) /\ durable_index s' h ht lay.
Proof.
  intros Ho. destruct slot_facts as (Hc & Hj & H0 & Ha).
  destruct (put_slot_rep _ _ _ _ _ _ _ val _ _ _ _ C Hk Hm Hl He) as [C' P']. fold evs s' in C', P'.
  rewrite <- (amap_insert _ _ _ _ _ _ (tr_keys _ _ _ _ _ (cr_table _ _ _ _ _ _ C')) P').
  assert (Hv : rd s' (eb, B_key ej) = key) by (subst s' evs; cbn; read_evs).
  assert (Hi : index_cell s h ht lay (eb, B_key ej)) by now constructor.
  refine (publish s s' h ht ht t t n n lay lay evs1 evs2 (eb, B_key ej) key o C C' D Ho Ho Hi Hv _ _ slot_ready
            [ESt (b, B_lock) LOCK_FREE] eq_refl _).
  - intros c Hc'. now apply slot_unwritten.
  - intros c Hc'. now apply slot_unwritten.
  - unfold s'. now rewrite trace_do_evs.
Qed.

End PutSlot.

(** ** Removal *)

Section Remove.
Context (s : state) (h ht t n : Z) (lay : list (list Z)) (i : nat) (b : Z) (l : list Z) (eb ej key v : Z).
Hypothesis C : clht_rep s h ht t n lay.
Hypothesis D : durable_index s h ht lay.
Hypothesis Hl : lay !! i = Some l.
Hypothesis Hin : eb ∈ l.
Hypothesis Hj : ej ∈ entries.
Hypothesis Hs : slot s eb ej = (key, v).
Hypothesis Hk : 0 < key.
Let evs := lock_evs b (remove_evs eb ej).
Let s' := do_evs evs s.
Let evs1 := [ESt (b, B_lock) LOCK_UPDATE; EFence].
Let evs2 := [EFence; ESt (b, B_lock) LOCK_FREE].

Lemma remove_unwritten c : index_cell s h ht lay c -> (c ∉ evs1 ≫= ev_writes) /\ (c ∉ evs2 ≫= ev_writes).
Proof.
  intros Hi. cbn. split; intros Hc; apply list_elem_of_singleton in Hc as ->; cell_inv Hi.
Qed.

Lemma remove_ready c : index_cell s' h ht lay c -> c ≠ (eb, B_key ej) ->
  settled (rev evs1 ++ trace s) c (rd s' c) /\ c ∉ evs2 ≫= ev_writes.
Proof.
  intros Hi Hne. assert (Hw : c ∉ evs ≫= ev_writes).
  { cbn. intros Hc. repeat (apply elem_of_cons in Hc as [->|Hc]; [first [done|cell_inv Hi]|]).
    now apply not_elem_of_nil in Hc. }
  assert (Hi0 : index_cell s h ht lay c).
  { inversion Hi as [|f Hf|x Hx|x j Hx Hj'|x j Hx Hj' Hu]; subst; try (now constructor). constructor; try done.
    unfold used, slot, s' in Hu |- *. cbn [fst] in Hu |- *.
    destruct (decide ((x, B_key j) = (eb, B_key ej))) as [E|E].
    - injection E as -> ->. exfalso. apply Hu. subst evs. cbn. read_evs.
    - rewrite rd_do_evs_frame in Hu; [done|]. cbn. clear -E. set_solver. }
  unfold s'. rewrite rd_do_evs_frame by done. split; [|now apply remove_unwritten].
  apply settled_evs; [now apply D|now apply remove_unwritten].
Qed.

Lemma remove_crash o :
  (forall x, is_Some (owner s !! x) -> is_Some (o !! x)) ->
  crash_safe (trace s) evs o h (amap s lay) (delete key (amap s lay)) /\ durable_index s' h ht lay.
Proof.
  intros Ho. assert (Hc : eb ∈ concat lay) by eauto using elem_of_concat_lookup.
  destruct (remove_rep _ _ _ _ _ _ _ b _ _ _ _ _ C Hl Hin Hj Hs Hk) as [C' P']. fold evs s' in C', P'.
  rewrite <- (amap_delete _ _ _ _ _ _ (tr_keys _ _ _ _ _ (cr_table _ _ _ _ _ _ C)) P').
  assert (Hv : rd s' (eb, B_key ej) = 0) by (subst s' evs; cbn; read_evs).
  assert (Hi : index_cell s h ht lay (eb, B_key ej)) by now constructor.
  refine (publish s s' h ht ht t t n n lay lay evs1 evs2 (eb, B_key ej) 0 o C C' D Ho Ho Hi Hv _ _ remove_ready
            [ESt (b, B_lock) LOCK_FREE] eq_refl _).
  - intros c Hc'. now apply remove_unwritten.
  - intros c Hc'. now apply remove_unwritten.
  - unfold s'. now rewrite trace_do_evs.
Qed.

End Remove.

(** ** Insertion of a new bucket *)

Section PutNew.
Context `{Malloc}.
Context (s : state) (h ht t n : Z) (lay : list (list Z)) (key val b : Z) (l : list Z) (nb : Z).
Hypothesis C : clht_rep s h ht t n lay.
Hypothesis Co : coherent s.
Hypothesis D : durable_index s h ht lay.
Hypothesis Hk : valid_key key.
Hypothesis Hm : amap s lay !! key = None.
Hypothesis Hl : lay !! Z.to_nat (Z.land key (n - 1)) = Some (b :: l).
Hypothesis Hp : pick (owner s) sizeof_bucket_t = Some nb.
Let lst := List.last (b :: l) NULL.
Let evs := lock_evs b (put_new_evs ht (rd s (ht, H_num_expands)) lst nb key val).
Let s' := do_evs evs (with_bucket nb s).
Let lay' := <[Z.to_nat (Z.land key (n - 1)) := (b :: l) ++ [nb]]> lay.
Let fill := (ESt (b, B_lock) LOCK_UPDATE :: bucket_create_evs nb) ++
  [ESt (ht, H_num_expands) (u32 (rd s (ht, H_num_expands) + 1)); ESt (nb, B_val 0) val; ESt (nb, B_key 0) key].
Let evs1 := fill ++ (EFl (line nb) :: ([] ++ [EFence])).
Let evs2 := [EFence; ESt (b, B_lock) LOCK_FREE].

Lemma new_facts : lst ∈ concat lay /\ (nb ∉ concat lay) /\ aligned nb.
Proof.
  destruct (fresh_bucket _ _ Hp) as [(Ha & _) Hf].
  pose proof (tr_ok _ _ _ _ _ (cr_table _ _ _ _ _ _ C)) as Hok. rewrite list.Forall_forall in Hok.
  split; [|split; [|done]].
  - eapply elem_of_concat_lookup; [exact Hl|]. now apply last_in.
  - intros Hin. now apply (Hf nb (Hok nb Hin)).
Qed.

Lemma new_unwritten c : index_cell s h ht lay c -> (c ∉ evs1 ≫= ev_writes) /\ (c ∉ evs2 ≫= ev_writes).
Proof.
  destruct new_facts as (Hlst & Hnb & _). intros Hi. cbn. split; intros Hin.
  - repeat (apply elem_of_cons in Hin as [->|Hin]; [cell_inv Hi|]). now apply not_elem_of_nil in Hin.
  - apply list_elem_of_singleton in Hin as ->. cell_inv Hi.
Qed.

Lemma new_layout x : x ∈ concat lay' -> x = nb \/ x ∈ concat lay.
Proof.
  unfold lay'. rewrite insert_take_drop by (now apply lookup_lt_Some in Hl).
  rewrite <- (take_drop_middle lay _ _ Hl) at 3. rewrite !elem_of_concat_middle. set_solver.
Qed.

Lemma new_evs :
  evs = fill ++ [EFl (line nb); EFence; ENt (lst, B_next) nb; EFence; ESt (b, B_lock) LOCK_FREE].
Proof. reflexivity. Qed.

(** The cells of the new bucket are persistent before it is linked. *)
Lemma new_bucket_settled f :
  bucket_fld f = true -> settled (rev evs1 ++ trace s) (nb, f) (rd s' (nb, f)).
Proof.
  destruct new_facts as (Hlst & Hnb & Ha). intros Hf.
  assert (Hb : b ∈ concat lay) by (eapply elem_of_concat_lookup; [exact Hl|left]).
  assert (Ea : line (addr_of (nb, f)) = line nb).
  { apply line_base; [apply Ha|]. destruct f; simpl in *; try discriminate; lia. }
  pose proof (settle_flush (nb, f) fill [] [] (trace s) ltac:(set_solver) ltac:(set_solver)) as S.
  rewrite Ea in S. fold evs1 in S.
  replace (rd s' (nb, f)) with (newest (prun (nb, f) fill (pst (trace s) (nb, f)))); [done|].
  rewrite <- pst_app. change (rev fill ++ trace s) with (rev fill ++ trace (with_bucket nb s)).
  rewrite <- trace_do_evs, (coherent_do_evs fill (with_bucket nb s) Co (nb, f)).
  unfold s'. rewrite new_evs, do_evs_app. symmetry. apply rd_do_evs_frame. cbn. clear -Hlst Hnb Hb.
  rewrite !not_elem_of_cons. split; [|split]; [intros E..|apply not_elem_of_nil];
    injection E as E _; apply Hnb; now rewrite E.
Qed.

Lemma new_ready c : index_cell s' h ht lay' c -> c ≠ (lst, B_next) ->
  settled (rev evs1 ++ trace s) c (rd s' c) /\ c ∉ evs2 ≫= ev_writes.
Proof.
  destruct new_facts as (Hlst & Hnb & Ha). intros Hi Hne.
  assert (Hw2 : c ∉ evs2 ≫= ev_writes).
  { cbn. intros Hin. apply list_elem_of_singleton in Hin as ->. cell_inv Hi. }
  split; [|done]. destruct (decide (c.1 = nb /\ bucket_fld c.2 = true)) as [[E Hf]|Hold].
  { destruct c as [p f]. cbn in E. subst p. now apply new_bucket_settled. }
  assert (Hw : c ∉ evs ≫= ev_writes).
  { rewrite new_evs. cbn. intros Hin.
    repeat (apply elem_of_cons in Hin as [->|Hin]; [first [done|now destruct Hold|cell_inv Hi]|]).
    now apply not_elem_of_nil in Hin. }
  assert (Hrd : forall c', c' ∉ evs ≫= ev_writes -> rd s' c' = rd s c')
    by (intros c'; apply (rd_do_evs_frame evs (with_bucket nb s))).
  assert (Hi0 : index_cell s h ht lay c).
  { inversion Hi as [|f Hf|x Hx|x j Hx Hj'|x j Hx Hj' Hu]; subst; try (now constructor);
      apply new_layout in Hx as [->|Hx]; try (now constructor); try (now destruct Hold);
      try (apply entries_fld in Hj' as Hj2; now destruct Hold).
    constructor; try done. unfold used, slot in *. cbn [fst] in *. rewrite Hrd in Hu; [done|].
    rewrite new_evs. cbn. clear -Hx Hnb. set_solver. }
  rewrite Hrd by done. apply settled_evs; [now apply D|now apply new_unwritten].
Qed.

Lemma new_crash o :
  (forall x, is_Some (owner s' !! x) -> is_Some (o !! x)) ->
  crash_safe (trace s) evs o h (amap s lay) (<[key := val]> (amap s lay)) /\ durable_index s' h ht lay'.
Proof.
  intros Ho. destruct new_facts as (Hlst & Hnb & Ha).
  assert (Hb : b ∈ concat lay) by (eapply elem_of_concat_lookup; [exact Hl|left]).
  assert (Ho0 : forall x, is_Some (owner s !! x) -> is_Some (o !! x)).
  { intros x Hx. apply Ho. unfold s'. rewrite owner_do_evs. now apply owner_grows_claim. }
  destruct (put_new_rep _ _ _ _ _ _ _ val _ _ _ C Hk Hm Hl Hp) as [C' P']. fold lst in C', P'. fold evs s' lay' in C', P'.
  rewrite <- (amap_insert _ _ _ _ _ _ (tr_keys _ _ _ _ _ (cr_table _ _ _ _ _ _ C')) P').
  assert (Hv : rd s' (lst, B_next) = nb) by (unfold s'; rewrite new_evs, do_evs_app; cbn; read_evs).
  assert (Hi : index_cell s h ht lay (lst, B_next)) by now constructor.
  refine (publish s s' h ht ht t t n n lay lay' evs1 evs2 (lst, B_next) nb o C C' D Ho0 Ho Hi Hv _ _ new_ready
            [ESt (b, B_lock) LOCK_FREE] eq_refl _).
  - intros c Hc'. now apply new_unwritten.
  - intros c Hc'. now apply new_unwritten.
  - unfold s'. now rewrite trace_do_evs.
Qed.

End PutNew.

(** ** Resizing *)

Section ResizeCrash.
Context (s s1 s' : state) (h ht ht' t t' n n' : Z) (lay lay' : list (list Z)) (inc : bool) (pre : list ev).
Hypothesis C : clht_rep s h ht t n lay.
Hypothesis Co : coherent s.
Hypothesis D : durable_index s h ht lay.
Hypothesis RZ : resized s h ht n' (content s lay) inc s1 ht' t' lay'.
Hypothesis Hcells : cells s1 = cells (do_evs pre s).
Hypothesis Htrace : trace s1 = rev pre ++ trace s.
Hypothesis Hpre : Forall (resize_writes s h ht) (pre ≫= ev_writes).
Hypothesis Hm : same_mem (do_evs (switch_evs h ht ht' lay') s1) s'.
Hypothesis C' : clht_rep s' h ht' t' n' lay'.
Hypothesis Hcont : content s' lay' ≡ₚ content s lay.
Let X := pre ++ [ESt (ht', H_table_prev) ht; EFence].
Let F := EFl (line ht') :: EFl (line ht' + 1) :: flush_evs (concat lay').
Let evs1 := X ++ F ++ [EFence].
Let evs2 := [EFence; ESt (ht, H_table_new) ht'; ESt (h, W_resize_lock) LOCK_FREE].

Lemma flush_no_writes l : flush_evs l ≫= ev_writes = [].
Proof. induction l; done. Qed.

Lemma resize_evs : pre ++ switch_evs h ht ht' lay' = evs1 ++ ENt (h, W_ht) ht' :: evs2.
Proof. unfold evs1, X, F, evs2, switch_evs. cbn. rewrite <- !app_assoc. cbn. now rewrite <- !app_assoc. Qed.

Lemma resize_unwritten c : index_cell s h ht lay c -> (c ∉ evs1 ≫= ev_writes) /\ (c ∉ evs2 ≫= ev_writes).
Proof.
  destruct C as [Hh _ R _]. pose proof (tr_ok _ _ _ _ _ R) as Hok. rewrite list.Forall_forall in Hok.
  pose proof (tr_ht _ _ _ _ _ R) as Hht. intros Hi.
  assert (Hlive : is_Some (owner s !! line c.1)).
  { inversion Hi as [|f Hf|x Hx|x j Hx Hj'|x j Hx Hj' Hu]; subst; cbn; [apply Hh|apply Hht|apply (Hok x Hx)..]. }
  split; intros Hin.
  - unfold evs1, X, F in Hin. rewrite !bind_app, !elem_of_app in Hin. cbn in Hin.
    rewrite flush_no_writes in Hin. destruct Hin as [[Hin|Hin]|[Hin|Hin]]; [| |now apply not_elem_of_nil in Hin..].
    + rewrite list.Forall_forall in Hpre. apply Hpre in Hin. destruct Hlive as [x Hx].
      destruct Hin as [Hin|[Hin|[->|[->| ->]]]]; [unfold fresh in Hin; congruence| |cell_inv Hi..].
      destruct c as [p f]. cbn in Hin. subst f. cell_inv Hi.
    + apply list_elem_of_singleton in Hin as ->. cell_inv Hi.
  - cbn in Hin. repeat (apply elem_of_cons in Hin as [->|Hin]; [cell_inv Hi|]). now apply not_elem_of_nil in Hin.
Qed.

(** A line of the new table that is written back is persistent at the second fence. *)
Lemma resize_settled c :
  EFl (line (addr_of c)) ∈ F -> c ≠ (ht', H_table_prev) -> c ≠ (h, W_ht) -> c ≠ (ht, H_table_new) ->
  c ≠ (h, W_resize_lock) -> settled (rev evs1 ++ trace s) c (rd s' c).
Proof.
  intros HF N1 N2 N3 N4. apply list_elem_of_split in HF as (F1 & F2 & EF).
  assert (Hno : forall e, e ∈ F -> ev_writes e = []).
  { intros e He. unfold F in He. repeat (apply elem_of_cons in He as [->|He]; [done|]).
    apply list_elem_of_fmap in He as (y & -> & _). done. }
  assert (Hw : forall E, (forall e, e ∈ E -> e ∈ F) -> E ≫= ev_writes = []).
  { intros E HE. induction E as [|e E IH]; [done|]. rewrite bind_cons, IH by set_solver. now rewrite Hno by (apply HE; left). }
  pose proof (settle_flush c (X ++ F1) F2 [] (trace s)) as S.
  replace ((X ++ F1) ++ EFl (line (addr_of c)) :: F2 ++ [EFence]) with evs1 in S
    by (unfold evs1; rewrite EF, <- !app_assoc; done).
  rewrite (Hw F2) in S by (intros e He; rewrite EF; set_solver).
  specialize (S (not_elem_of_nil _) (not_elem_of_nil _)).
  replace (rd s' c) with (newest (prun c (X ++ F1) (pst (trace s) c))); [exact S|].
  rewrite <- pst_app, <- trace_do_evs, (coherent_do_evs (X ++ F1) s Co c), do_evs_app.
  rewrite rd_do_evs_frame by (rewrite (Hw F1); [apply not_elem_of_nil|intros e He; rewrite EF; set_solver]).
  unfold X. rewrite do_evs_app, rd_do_evs_frame by (cbn; set_solver). rewrite <- (rd_cells _ _ c Hcells).
  rewrite (same_mem_rd _ _ _ Hm). symmetry. apply rd_do_evs_frame. rewrite switch_writes. set_solver.
Qed.

Lemma resize_ready_cells c : index_cell s' h ht' lay' c -> c ≠ (h, W_ht) ->
  settled (rev evs1 ++ trace s) c (rd s' c) /\ c ∉ evs2 ≫= ev_writes.
Proof.
  intros Hi Hne. pose proof (cr_table _ _ _ _ _ _ C') as R'. pose proof (tr_ok _ _ _ _ _ R') as Hok.
  rewrite list.Forall_forall in Hok. destruct (tr_ht _ _ _ _ _ R') as [[_ Hal] _].
  split.
  - apply resize_settled; try done; try (intros ->; cell_inv Hi).
    inversion Hi as [|f Hf|x Hx|x j Hx Hj'|x j Hx Hj' Hu]; subst; [done| | | |].
    + assert (E : line (addr_of (ht', f)) = line ht')
        by (apply line_base; [done|]; destruct f; simpl in *; try discriminate; lia).
      rewrite E. left.
    + right. right. apply list_elem_of_fmap. exists x. split; [|done]. f_equal.
      destruct (Hok x Hx) as [[_ ?] _]. apply line_base; [done|simpl; lia].
    + right. right. apply list_elem_of_fmap. exists x. split; [|done]. f_equal.
      destruct (Hok x Hx) as [[_ ?] _]. apply entries_fld in Hj' as [? ?]. apply line_base; [done|simpl in *; lia].
    + right. right. apply list_elem_of_fmap. exists x. split; [|done]. f_equal.
      destruct (Hok x Hx) as [[_ ?] _]. apply entries_fld in Hj' as [? ?]. apply line_base; [done|simpl in *; lia].
  - cbn. intros Hin. repeat (apply elem_of_cons in Hin as [->|Hin]; [cell_inv Hi|]). now apply not_elem_of_nil in Hin.
Qed.

Lemma resize_crash o :
  (forall x, is_Some (owner s' !! x) -> is_Some (o !! x)) ->
  crash_safe (trace s) (pre ++ switch_evs h ht ht' lay') o h (amap s lay) (amap s lay) /\
  durable_index s' h ht' lay'.
Proof.
  intros Ho. assert (Ho0 : forall x, is_Some (owner s !! x) -> is_Some (o !! x)).
  { intros x Hx. apply Ho. destruct Hm as (_ & -> & _). rewrite owner_do_evs. now apply (rz_writes _ _ _ _ _ _ _ _ _ _ RZ). }
  assert (Em : amap s' lay' = amap s lay).
  { apply list_to_map_proper; [|done]. exact (tr_keys _ _ _ _ _ (cr_table _ _ _ _ _ _ C')). }
  rewrite <- Em at 2. rewrite resize_evs.
  assert (Hv : rd s' (h, W_ht) = ht') by apply C'.
  refine (publish s s' h ht ht' t t' n n' lay lay' evs1 evs2 (h, W_ht) ht' o C C' D Ho0 Ho (ic_root _ _ _ _) Hv _ _
            resize_ready_cells [ESt (ht, H_table_new) ht'; ESt (h, W_resize_lock) LOCK_FREE] eq_refl _).
  - intros c Hc'. now apply resize_unwritten.
  - intros c Hc'. now apply resize_unwritten.
  - destruct Hm as (_ & _ & -> & _). rewrite <- resize_evs, trace_do_evs, Htrace, rev_app_distr. now rewrite app_assoc.
Qed.

End ResizeCrash.

(** ** Whole operations *)

(** An index all of whose map is persistent. *)
Definition durable_rep (s : state) (h : Z) (m : gmap Z Z) : Prop :=
  coherent s /\ exists ht t n lay L al,
    clht_rep s h ht t n lay /\ clht_quiet s h ht /\ gc_inv s L al /\ amap s lay = m /\ durable_index s h ht lay.

Lemma durable_index_rep s h m : durable_rep s h m -> index_rep s h m.
Proof. intros (_ & ht & t & n & lay & L & al & ? & ? & ? & ? & _). exists ht, t, n, lay, L, al. auto. Qed.

Lemma crash_safe_app tr e1 e2 o h m m' :
  crash_safe tr e1 o h m m' -> crash_safe (rev e1 ++ tr) e2 o h m' m' -> crash_safe tr (e1 ++ e2) o h m m'.
Proof.
  intros S1 S2 k i g Hi. destruct (Nat.le_gt_cases k (length e1)) as [Hk|Hk].
  - rewrite take_app_le in Hi by done. exact (S1 k i g Hi).
  - rewrite take_app_ge, rev_app_distr, <- app_assoc in Hi by lia.
    right. destruct (S2 _ i g Hi); done.
Qed.

(** Events that do not touch the index. *)
Lemma quiet_crash s h ht t n lay evs o :
  clht_rep s h ht t n lay -> durable_index s h ht lay ->
  (forall x, is_Some (owner s !! x) -> is_Some (o !! x)) ->
  (forall c, index_cell s h ht lay c -> c ∉ evs ≫= ev_writes) ->
  crash_safe (trace s) evs o h (amap s lay) (amap s lay) /\
  durable_index (do_evs evs s) h ht lay.
Proof.
  intros C D Ho Hw. assert (Hrd : forall c, index_cell s h ht lay c -> rd (do_evs evs s) c = rd s c)
    by (intros c Hc; apply rd_do_evs_frame; auto).
  split.
  - intros k i g Hi. left. apply (agree_recovered s _ h ht t n lay C); [exact Ho|]. intros c Hc.
    refine (settled_image _ _ _ _ (settled_evs (take k evs) _ _ _ (D c Hc) _) Hi).
    intros Hin. apply (Hw c Hc). apply list_elem_of_bind in Hin as (e & ? & He).
    apply list_elem_of_bind. exists e. split; [done|]. now apply subseteq_take in He.
  - assert (Hic : forall c, index_cell (do_evs evs s) h ht lay c -> index_cell s h ht lay c).
    { intros c Hc. inversion Hc as [|f Hf|x Hx|x j Hx Hj'|x j Hx Hj' Hu]; subst; try (now constructor).
      constructor; try done. unfold used, slot in *. cbn [fst] in *. rewrite Hrd in Hu; [done|now constructor]. }
    intros c Hc. rewrite trace_do_evs, Hrd by auto. apply settled_evs; auto.
Qed.

Section Operations.
Context `{Malloc}.

(** The insertion that resizes: insertion, status lock, resize, status lock. *)
Lemma status_crash s h ht t n lay L al o :
  clht_rep s h ht t n lay -> clht_quiet s h ht -> gc_inv s L al -> coherent s -> durable_index s h ht lay ->
  status_room s (length (content s lay)) n ->
  (forall r s', ht_status 3 h 1 false s = Ok (r, s') -> forall x, is_Some (owner s' !! x) -> is_Some (o !! x)) ->
  exists s' r evs ht' t' n' lay' al',
    ht_status 3 h 1 false s = Ok (r, s') /\ trace s' = rev evs ++ trace s /\
    crash_safe (trace s) evs o h (amap s lay) (amap s lay) /\ coherent s' /\
    clht_rep s' h ht' t' n' lay' /\ clht_quiet s' h ht' /\ gc_inv s' L al' /\
    amap s' lay' = amap s lay /\ durable_index s' h ht' lay'.
Proof.
  intros C Q I Co D Hr Ho.
  destruct (ht_status_ok 2 s h ht t n lay L al C Q I Hr)
    as (s' & ht' & t' & n' & lay' & al' & Hrun & C' & Q' & I' & P & _ & inc & s1 & s2 & RZ & SM & C2 & P2 & ->).
  specialize (Ho _ _ Hrun). set (sl := do_ev (ESt (h, W_status_lock) 255) s) in *.
  assert (Hold : forall x, is_Some (owner s !! x) -> is_Some (o !! x)).
  { intros x Hx. apply Ho. cbn. destruct SM as (_ & -> & _). rewrite owner_do_evs.
    apply (rz_writes _ _ _ _ _ _ _ _ _ _ RZ). exact Hx. }
  destruct (status_lock_frame s h ht t n lay L al 255 C (proj1 Q) I) as (Cl & _ & _ & El). fold sl in Cl, El.
  assert (Hlk : forall c v, index_cell s h ht lay c -> c ∉ [ESt (h, W_status_lock) v] ≫= ev_writes).
  { intros c v Hc. cbn. intros Hin. apply list_elem_of_singleton in Hin as ->. cell_inv Hc. }
  destruct (quiet_crash s h ht t n lay [ESt (h, W_status_lock) 255] o C D Hold (fun c Hc => Hlk c 255 Hc)) as [S1 D1].
  change (do_evs [ESt (h, W_status_lock) 255] s) with sl in D1.
  assert (Col : coherent sl) by now apply coherent_do_ev.
  destruct (rz_writes _ _ _ _ _ _ _ _ _ _ RZ) as [_ (pre & Ec & Et & Fp)].
  rewrite <- El in RZ, P2.
  destruct (resize_crash sl s1 s2 h ht ht' t t' n n' lay lay' inc pre Cl Col D1 RZ Ec Et Fp SM C2 P2 o Ho) as [S2 D2].
  assert (Em1 : amap sl lay = amap s lay) by (unfold amap; now rewrite El). rewrite Em1 in S2.
  assert (Et2 : trace s2 = rev (pre ++ switch_evs h ht ht' lay') ++ trace sl).
  { destruct SM as (_ & _ & -> & _). rewrite trace_do_evs, Et, rev_app_distr. now rewrite app_assoc. }
  assert (Co2 : coherent s2).
  { destruct SM as (Ec2 & _ & Etr & _). apply (coherent_mem (do_evs (switch_evs h ht ht' lay') s1)); [done..|].
    apply coherent_do_evs. apply (coherent_mem (do_evs pre sl)); [done|now rewrite trace_do_evs|]. now apply coherent_do_evs. }
  assert (Em2 : amap s2 lay' = amap s lay).
  { rewrite <- Em1. apply list_to_map_proper; [|done]. exact (tr_keys _ _ _ _ _ (cr_table _ _ _ _ _ _ C2)). }
  destruct (quiet_crash s2 h ht' t' n' lay' [ESt (h, W_status_lock) LOCK_FREE] o C2 D2 Ho) as [S3 D3].
  { intros c Hc. cbn. intros Hin. apply list_elem_of_singleton in Hin as ->. cell_inv Hc. }
  rewrite Em2 in S3. change (do_evs [_] s2) with (do_ev (ESt (h, W_status_lock) LOCK_FREE) s2) in D3.
  exists (do_ev (ESt (h, W_status_lock) LOCK_FREE) s2), (Z.of_nat (length (content s lay))).
  exists ([ESt (h, W_status_lock) 255] ++ (pre ++ switch_evs h ht ht' lay') ++ [ESt (h, W_status_lock) LOCK_FREE]).
  exists ht', t', n', lay', al'. split; [exact Hrun|]. split.
  { cbn [trace do_ev]. rewrite Et2, !rev_app_distr. cbn. now rewrite <- !app_assoc. }
  split.
  { apply crash_safe_app; [exact S1|]. apply crash_safe_app; [exact S2|]. change (rev [_] ++ trace s) with (trace sl).
    now rewrite <- Et2. }
  split; [now apply coherent_do_ev|]. do 3 (split; [done|]). split; [|exact D3].
  apply list_to_map_proper; [|done]. exact (tr_keys _ _ _ _ _ (cr_table _ _ _ _ _ _ C')).
Qed.

Lemma status_owner s h ht t n lay L al s2 r :
  clht_rep s h ht t n lay -> clht_quiet s h ht -> gc_inv s L al ->
  status_room s (length (content s lay)) n -> ht_status 3 h 1 false s = Ok (r, s2) -> owner_grows s s2.
Proof.
  intros C Q I Hr Hrun. destruct (ht_status_ok 2 s h ht t n lay L al C Q I Hr)
    as (s' & ht' & t' & n' & lay' & al' & Hrun' & _ & _ & _ & _ & _ & inc & s1 & s3 & RZ & SM & _ & _ & ->).
  rewrite Hrun in Hrun'. injection Hrun' as _ ->. intros x Hx. cbn. destruct SM as (_ & -> & _). rewrite owner_do_evs.
  apply (rz_writes _ _ _ _ _ _ _ _ _ _ RZ). exact Hx.
Qed.

(** Nothing happened: every image has the map. *)
Lemma rest_crash s h m : durable_rep s h m -> crash_safe (trace s) [] (owner s) h m m.
Proof.
  intros (Co & ht & t & n & lay & L & al & C & _ & _ & <- & D).
  apply (quiet_crash s h ht t n lay [] (owner s) C D); [done|]. intros c _. apply not_elem_of_nil.
Qed.

(** What an insertion of an absent key must do to a durable index. *)
Definition put_durable (s : state) (h : Z) (m : gmap Z Z) (key val : Z) : Prop :=
  exists s' evs, clht_put h key val s = Ok (true, s') /\ trace s' = rev evs ++ trace s /\
    crash_safe (trace s) evs (owner s') h m (<[key := val]> m) /\ durable_rep s' h (<[key := val]> m).

Section PutAbsent.
Context (s : state) (h ht t n : Z) (lay : list (list Z)) (L : list Z) (al : ssmem_allocator_t) (key val b : Z) (l : list Z).
Context (Co : coherent s) (C : clht_rep s h ht t n lay) (Q : clht_quiet s h ht) (I : gc_inv s L al) (D : durable_index s h ht lay).
Context (Hk : valid_key key) (Hm : amap s lay !! key = None) (Hl : lay !! Z.to_nat (Z.land key (n - 1)) = Some (b :: l)).

Lemma put_slot_durable eb ej : chain_empty s (b :: l) = Some (eb, ej) -> put_durable s h (amap s lay) key val.
Proof.
  intros He. destruct (put_slot_rep _ _ _ _ _ _ _ val _ _ _ _ C Hk Hm Hl He) as [C' P'].
  destruct (slot_crash s h ht t n lay key val b l eb ej C D Hk Hm Hl He (owner s) (fun x Hx => Hx)) as [S D'].
  set (evs := lock_evs b (put_slot_evs eb ej key val)) in *.
  destruct (put_quiet evs s s h ht L al) as [Q' I']; try done.
  { now intros x. }
  { destruct (chain_empty_Some _ _ _ _ He) as (_ & Hj & _). apply entries_fld in Hj as [? ?].
    unfold evs. cbn. repeat (constructor; [simpl; auto|]). constructor. }
  exists (do_evs evs s), evs. split; [exact (clht_put_slot _ _ _ _ _ _ _ _ _ _ _ _ C (proj1 Hk) Hm Hl He)|].
  split; [apply trace_do_evs|]. split; [now rewrite owner_do_evs|]. split; [now apply coherent_do_evs|].
  exists ht, t, n, lay, L, al. do 3 (split; [done|]). split; [|done].
  exact (amap_insert _ _ _ _ _ _ (tr_keys _ _ _ _ _ (cr_table _ _ _ _ _ _ C')) P').
Qed.

Lemma put_new_durable : chain_empty s (b :: l) = None -> put_room s h (amap s lay) -> put_durable s h (amap s lay) key val.
Proof.
  intros He (Hz1 & Hz2 & Hz3). rewrite (cr_ht _ _ _ _ _ _ C), (tr_num _ _ _ _ _ (cr_table _ _ _ _ _ _ C)) in *.
  rewrite (amap_size _ _ _ _ _ (cr_table _ _ _ _ _ _ C)) in Hz1, Hz2, Hz3.
  cbn [allocs_ok] in Hz3. destruct (pick (owner s) sizeof_bucket_t) as [nb|] eqn:Hp; [|done].
  destruct (put_new_rep _ _ _ _ _ _ _ val _ _ _ C Hk Hm Hl Hp) as [C' P'].
  pose proof (new_crash s h ht t n lay key val b l nb C Co D Hk Hm Hl Hp) as NC. unfold put_durable.
  rewrite (clht_put_new _ _ _ _ _ _ _ val _ _ _ C (proj1 Hk) Hm Hl He Hp).
  set (evs := lock_evs b _) in *. set (s' := do_evs evs (with_bucket nb s)) in *. set (lay' := <[_ := _]> lay) in *.
  destruct (put_quiet evs s (with_bucket nb s) h ht L al) as [Q' I']; try done.
  { apply owner_grows_claim. }
  { unfold evs. cbn. repeat (constructor; [simpl; auto|]). constructor. }
  fold s' in Q', I'.
  assert (Hmap : amap s' lay' = <[key := val]> (amap s lay))
    by exact (amap_insert _ _ _ _ _ _ (tr_keys _ _ _ _ _ (cr_table _ _ _ _ _ _ C')) P').
  assert (Et : trace s' = rev evs ++ trace s) by (unfold s'; now rewrite trace_do_evs).
  assert (Co' : coherent s') by (apply coherent_do_evs; exact Co).
  destruct (_ <=? _).
  - assert (Hroom : status_room s' (length (content s' lay')) n).
    { rewrite P'. cbn [length]. split; [done|]. split; [done|]. unfold s'. rewrite owner_do_evs. exact Hz3. }
    destruct (ht_status_ok 2 s' h ht t n lay' L al C' Q' I' Hroom) as (s2 & _ & _ & _ & _ & _ & Hrun & _).
    destruct (NC (owner s2)) as [S D'].
    { intros x Hx. exact (status_owner _ _ _ _ _ _ _ _ _ _ C' Q' I' Hroom Hrun x Hx). }
    fold s' in S, D'. fold lay' in D'.
    destruct (status_crash s' h ht t n lay' L al (owner s2) C' Q' I' Co' D' Hroom)
      as (s3 & r & evs2 & ht2 & t2 & n2 & lay2 & al2 & Hrun2 & Et2 & S2 & Co2 & C2 & Q2 & I2 & M2 & D2).
    { intros r s3 E x Hx. rewrite Hrun in E. injection E as _ <-. exact Hx. }
    rewrite Hrun in Hrun2. injection Hrun2 as <- <-. rewrite Hmap in S2, M2.
    exists s2, (evs ++ evs2). rewrite (cbind_Ok _ _ _ _ _ Hrun). split; [done|].
    split; [now rewrite Et2, Et, rev_app_distr, <- app_assoc|].
    split; [apply crash_safe_app; [exact S|now rewrite <- Et]|]. split; [done|].
    exists ht2, t2, n2, lay2, L, al2. auto.
  - destruct (NC (owner s') (fun x Hx => Hx)) as [S D'].
    exists s', evs. split; [done|]. split; [done|]. split; [done|]. split; [done|].
    exists ht, t, n, lay', L, al. auto.
Qed.

End PutAbsent.

Lemma put_crash s h m key val :
  durable_rep s h m -> valid_key key -> put_room s h m ->
  exists s' evs, clht_put h key val s = Ok (bool_decide (m !! key = None), s') /\
    trace s' = rev evs ++ trace s /\
    crash_safe (trace s) evs (owner s') h m (match m !! key with Some _ => m | None => <[key := val]> m end) /\
    durable_rep s' h (match m !! key with Some _ => m | None => <[key := val]> m end).
Proof.
  intros DR Hk Hr. pose proof (durable_index_rep _ _ _ DR) as IR. pose proof DR as (Co & ht & t & n & lay & L & al & C & Q & I & <- & D).
  destruct (amap s lay !! key) as [v|] eqn:Hm.
  - exists s, []. rewrite bool_decide_false by done. split; [exact (put_present _ _ _ _ _ _ IR Hk Hm)|].
    split; [done|]. split; [exact (rest_crash _ _ _ DR)|done].
  - rewrite bool_decide_true by done. destruct (clht_rep_chain _ _ _ _ _ _ key C) as (b & l & Hl & _).
    destruct (chain_empty s (b :: l)) as [[eb ej]|] eqn:He.
    + exact (put_slot_durable s h ht t n lay L al key val b l Co C Q I D Hk Hm Hl eb ej He).
    + exact (put_new_durable s h ht t n lay L al key val b l Co C Q I D Hk Hm Hl He Hr).
Qed.

Lemma remove_crash_op s h m key :
  durable_rep s h m -> valid_key key ->
  exists s' evs, clht_remove h key s = Ok (default 0 (m !! key), s') /\ trace s' = rev evs ++ trace s /\
    crash_safe (trace s) evs (owner s') h m (delete key m) /\ durable_rep s' h (delete key m).
Proof.
  intros DR Hk. pose proof DR as (Co & ht & t & n & lay & L & al & C & Q & I & <- & D).
  destruct (amap s lay !! key) as [v|] eqn:Hm.
  - destruct (clht_remove_found _ _ _ _ _ _ key v C (proj1 Hk) Hm) as (b & l & eb & ej & Hl & Hin & Hj & Hs & Hrun).
    destruct (remove_rep _ _ _ _ _ _ _ b _ _ _ _ _ C Hl Hin Hj Hs (proj1 Hk)) as [C' P'].
    destruct (remove_crash s h ht t n lay _ b _ eb ej key v C D Hl Hin Hj Hs (proj1 Hk) (owner s) (fun x Hx => Hx)) as [S D'].
    set (evs := lock_evs b (remove_evs eb ej)) in *.
    destruct (put_quiet evs s s h ht L al) as [Q' I']; try done.
    { now intros x. }
    { apply entries_fld in Hj as [? ?]. unfold evs. cbn. repeat (constructor; [simpl; auto|]). constructor. }
    exists (do_evs evs s), evs. split; [exact Hrun|]. split; [apply trace_do_evs|].
    split; [now rewrite owner_do_evs|]. split; [now apply coherent_do_evs|].
    exists ht, t, n, lay, L, al. do 3 (split; [done|]). split; [|done].
    exact (amap_delete _ _ _ _ _ _ (tr_keys _ _ _ _ _ (cr_table _ _ _ _ _ _ C)) P').
  - rewrite delete_id by done. exists s, []. split; [exact (clht_remove_absent _ _ _ _ _ _ key C (proj1 Hk) Hm)|].
    split; [done|]. split; [exact (rest_crash _ _ _ DR)|done].
Qed.

End Operations.

(** ** Recovery *)

Definition unlock_evs (l : list Z) : list ev := (fun b => ESt (b, B_lock) LOCK_FREE) <$> l.

Lemma unlock_writes l : unlock_evs l ≫= ev_writes = (fun b => (b, B_lock)) <$> l.
Proof. induction l as [|b l IH]; [done|]. cbn. f_equal. exact IH. Qed.

Lemma unlock_same_bucket l s b : same_bucket s (do_evs (unlock_evs l) s) b.
Proof.
  apply same_bucket_evs. rewrite unlock_writes. apply list.Forall_forall. intros c Hc.
  apply list_elem_of_fmap in Hc as (x & -> & _). auto.
Qed.

Lemma unlock_chain_ok n s b l :
  chain s b l -> Forall (ok_bucket (owner s)) l -> (length l <= n)%nat ->
  unlock_chain n b s = Ok (tt, do_evs (unlock_evs l) s).
Proof.
  revert s b l. induction n as [|n IH]; intros s b l Hc Hok Hlen.
  { destruct l; [|simpl in Hlen; lia]. simpl in Hc. now subst. }
  destruct l as [|a l]; [simpl in Hc; now subst|]. destruct Hc as [-> Hc]. apply list.Forall_cons in Hok as [Ha Hok].
  assert (Hnz : a ≠ NULL) by (destruct Ha as [[Hpos _] _]; unfold NULL; lia).
  cbn [unlock_chain]. rewrite (proj2 (Z.eqb_neq a NULL) Hnz). run. rewrite rd_ESt_ne by congruence.
  rewrite (IH _ _ l); [done| |exact Hok|simpl in Hlen; lia].
  apply (chain_frame s); [|done]. intros x _. apply lock_same_bucket.
Qed.

Lemma unlock_loop_ok s ht t n lay k lays :
  table_rep s ht t n lay -> 0 <= k ->
  (forall i l, lays !! i = Some l -> lay !! (Z.to_nat k + i)%nat = Some l) ->
  cfor (seqZ k (Z.of_nat (length lays))) (fun i =>
    table <- load (ht, H_table);
    store (bucket_at table i, B_lock) LOCK_FREE;;
    next <- load (bucket_at table i, B_next);
    n <- walk_bound;
    unlock_chain n next) s = Ok (tt, do_evs (unlock_evs (concat lays)) s).
Proof.
  revert k s. induction lays as [|l lays IH]; intros k s R Hk Hlays; [done|].
  pose proof (Hlays 0%nat l eq_refl) as Hl. rewrite Nat.add_0_r in Hl.
  destruct (tr_chain _ _ _ _ _ R _ _ Hl) as [Hhd Hc]. rewrite Z2Nat.id in Hhd, Hc by lia.
  pose proof (tr_ok _ _ _ _ _ R) as Hok. pose proof (tr_nodup _ _ _ _ _ R) as Hnd.
  rewrite <- (take_drop_middle lay _ l Hl), NoDup_concat_middle in Hnd. destruct Hnd as [Hnd _].
  assert (Hokl : Forall (ok_bucket (owner s)) l).
  { rewrite list.Forall_forall in Hok |- *. eauto using elem_of_concat_lookup. }
  destruct (chain_next _ _ _ Hc (hd_error_ne _ _ Hhd) Hokl) as (l' & -> & Hb & Hc' & Hok' & _).
  pose proof (tr_ht _ _ _ _ _ R) as Hht. apply list.NoDup_cons in Hnd as [_ Hnd'].
  rewrite seqZ_cons by (simpl; lia). cbn [cfor]. run. rewrite (tr_table _ _ _ _ _ R). run.
  rewrite rd_ESt_ne by congruence. set (s1 := do_ev (ESt (bucket_at t k, B_lock) LOCK_FREE) s).
  rewrite (cbind_Ok _ _ _ _ _ (unlock_chain_ok (S (size (owner s1))) s1 _ l'
    (chain_frame s s1 _ _ (fun x _ => lock_same_bucket _ _ _ _) Hc') Hok' (Nat.le_le_succ_r _ _ (chain_bound _ _ Hnd' Hok')))).
  change (do_evs (unlock_evs l') s1) with (do_evs (unlock_evs (bucket_at t k :: l')) s).
  replace (Z.pred (Z.of_nat (length ((bucket_at t k :: l') :: lays)))) with (Z.of_nat (length lays)) by (simpl; lia).
  cbn [concat]. unfold unlock_evs at 2. rewrite fmap_app, do_evs_app. apply IH.
  - apply (table_rep_frame s); [done| |intros x; now rewrite owner_do_evs|intros; apply unlock_same_bucket].
    apply same_header_evs. rewrite unlock_writes. apply list.Forall_forall. intros c Hc2.
    apply list_elem_of_fmap in Hc2 as (x & -> & _). done.
  - lia.
  - intros i x Hx. specialize (Hlays (S i) x Hx).
    replace (Z.to_nat (Z.succ k) + i)%nat with (Z.to_nat k + S i)%nat by lia. done.
Qed.

(** [clht_lock_initialization] turns what a crash leaves into an index with all locks free. *)
Lemma recover_ok r h m :
  recovered r h m -> rd r (rd r (h, W_ht), H_num_buckets) < 2 ^ 31 ->
  exists s' ht t n lay, clht_lock_initialization h r = Ok (tt, s') /\ clht_rep s' h ht t n lay /\
    amap s' lay = m /\ rd s' (h, W_resize_lock) = LOCK_FREE /\ rd s' (h, W_status_lock) = LOCK_FREE /\
    rd s' (ht, H_is_helper) = rd r (ht, H_is_helper).
Proof.
  intros (ht & t & n & lay & Hh & Hht & R & <-) Hnum. rewrite Hht, (tr_num _ _ _ _ _ R) in Hnum. pose proof (tr_ht _ _ _ _ _ R) as Hhto.
  set (locks := [ESt (h, W_resize_lock) LOCK_FREE; ESt (h, W_status_lock) LOCK_FREE; ESt (h, W_gc_lock) LOCK_FREE]).
  set (s1 := do_evs locks r). set (s' := do_evs (unlock_evs (concat lay)) s1).
  assert (R1 : table_rep s1 ht t n lay).
  { apply (table_rep_frame r); [done| |intros x; unfold s1; now rewrite owner_do_evs|].
    - apply same_header_evs. cbn. repeat constructor.
    - intros b _. apply do_evs_same_bucket. cbn. repeat constructor. }
  assert (Hu : forall c, c.2 ≠ B_lock -> rd s' c = rd s1 c).
  { intros c Hc. apply rd_do_evs_frame. rewrite unlock_writes. intros Hin.
    apply list_elem_of_fmap in Hin as (x & -> & _). done. }
  exists s', ht, t, n, lay. split.
  - unfold clht_lock_initialization. run. rewrite Hht. run. rewrite !rd_ESt_ne by congruence.
    rewrite (tr_num _ _ _ _ _ R). destruct (Z.ltb_spec n (2 ^ 31)); [|lia]. rewrite Z.min_l, (table_rep_seqZ _ _ _ _ _ R) by lia.
    exact (cbind_Ok _ _ _ _ _ (unlock_loop_ok s1 ht t n lay 0 lay R1 ltac:(lia) (fun i l Hl => Hl))).
  - split; [|split; [|split; [|split]]].
    + split.
      * unfold s', s1. now rewrite !owner_do_evs.
      * rewrite Hu by done. rewrite <- Hht. apply rd_do_evs_frame. cbn. set_solver.
      * apply (table_rep_frame s1); [done| |intros x; unfold s'; now rewrite owner_do_evs|intros; apply unlock_same_bucket].
        repeat split; now apply Hu.
      * apply list.Forall_forall. intros l Hl. destruct l as [|b l]; [done|]. apply rd_zero_evs.
        -- apply list.Forall_forall. intros e He. apply list_elem_of_fmap in He as (x & -> & _). done.
        -- left. rewrite unlock_writes. apply list_elem_of_fmap. exists b. split; [done|].
           apply list_elem_of_lookup in Hl as [i Hi]. eapply elem_of_concat_lookup; [exact Hi|left].
    + unfold amap. rewrite (content_frame s1) by (intros; apply unlock_same_bucket).
      rewrite (content_frame r); [done|]. intros b _. apply do_evs_same_bucket. cbn. repeat constructor.
    + rewrite Hu by done. unfold s1, locks. cbn. read_evs.
    + rewrite Hu by done. unfold s1, locks. cbn. read_evs.
    + rewrite Hu by done. apply rd_do_evs_frame. cbn. set_solver.
Qed.

(** ** Creation *)

Section CreateCrash.
Context `{Malloc}.
Context (s : state) (w ht t k : Z).
Let n := 2 ^ k.
Hypothesis Co : coherent s.
Hypothesis Hk : 0 <= k < 25.
Hypothesis Hp0 : pick (owner s) sizeof_clht_t = Some w.
Hypothesis Hp1 : pick (owner (with_index w s)) sizeof_clht_hashtable_t = Some ht.
Hypothesis Hp2 : pick (claim_lines ht sizeof_clht_hashtable_t (owner (with_index w s)))
                      (n * sizeof_bucket_t) = Some t.
Let s2 := do_evs (create_evs ht t n) (with_table ht t n (with_index w s)).
Let s3 := created w ht t n s.
Let stores := [ESt (w, W_ht) ht; ESt (w, W_resize_lock) LOCK_FREE; ESt (w, W_gc_lock) LOCK_FREE;
   ESt (w, W_status_lock) LOCK_FREE; ESt (w, W_version_list) NULL; ESt (w, W_version_min) 0; ESt (w, W_ht_oldest) ht].
Let flushes := (flush_evs (bucket_at t <$> seqZ 0 n) ++ [EFence]) ++
  [EFl (line ht); EFl (line ht + 1); EFence] ++ [EFl (line w); EFl (line w + 1)].

Lemma with_table_coherent : coherent s2.
Proof. apply coherent_do_evs. apply (coherent_mem s); [done|done|exact Co]. Qed.

Lemma created_events : s3 = do_evs (stores ++ flushes ++ [EFence]) s2.
Proof.
  unfold s3, created. fold s2. generalize s2 as x. intros x. f_equal.
  unfold index_evs, stores, flushes. rewrite <- !app_assoc. done.
Qed.

Lemma created_settled c : EFl (line (addr_of c)) ∈ flushes -> settled (trace s3) c (rd s3 c).
Proof.
  rewrite created_events. intros HF. apply settled_at_flush; [exact with_table_coherent| |exact HF].
  intros e He. unfold flushes in He. rewrite !elem_of_app in He.
  destruct He as [[He|He]|[He|He]]; [apply list_elem_of_fmap in He as (y & -> & _); done|..];
    repeat (apply elem_of_cons in He as [->|He]; [done|]); now apply not_elem_of_nil in He.
Qed.

Lemma created_coherent : coherent s3.
Proof. rewrite created_events. apply coherent_do_evs, with_table_coherent. Qed.

Lemma created_durable : durable_index s3 w ht (flat_layout t n).
Proof.
  destruct (create_objects s w ht t k Hk Hp0 Hp1 Hp2) as (Hn & _ & _ & [[_ Hw] _] & [[_ Hht] _] & Hb).
  intros c Hc. apply created_settled. unfold flushes. rewrite !elem_of_app.
  assert (Hbk : forall x f, x ∈ concat (flat_layout t n) -> bucket_fld f = true ->
            EFl (line (addr_of (x, f))) ∈ flush_evs (bucket_at t <$> seqZ 0 n)).
  { intros x f Hx Hf. rewrite flat_layout_concat in Hx. apply list_elem_of_fmap. exists x. split; [|done]. f_equal.
    apply list_elem_of_fmap in Hx as (i & -> & Hi). rewrite elem_of_seqZ in Hi.
    destruct (Hb i ltac:(lia)) as [[_ ?] _]. apply line_base; [done|]. destruct f; simpl in *; try discriminate; lia. }
  inversion Hc as [|f Hf|x Hx|x j Hx Hj'|x j Hx Hj' Hu]; subst.
  - right. right. replace (line (addr_of (w, W_ht))) with (line w); [left|]. symmetry. apply line_base; [done|simpl; lia].
  - right. left. replace (line (addr_of (ht, f))) with (line ht); [left|]. symmetry.
    apply line_base; [done|]. destruct f; simpl in *; try discriminate; lia.
  - left. left. now apply Hbk.
  - left. left. apply entries_fld in Hj' as [? ?]. now apply Hbk.
  - left. left. apply entries_fld in Hj' as [? ?]. now apply Hbk.
Qed.

End CreateCrash.

(** The newest values are one of the images: every store may have reached memory. *)
Lemma newest_image s : coherent s -> crash_image (trace s) (cells s).
Proof.
  intros Hs c. specialize (Hs c). unfold rd in Hs. rewrite <- Hs. unfold newest, possible.
  destruct (p_pend _); [left|right; left].
Qed.

Lemma create_durable `{Malloc} s k :
  coherent s -> 0 <= k < 25 -> allocs_ok (create_requests (2 ^ k)) (owner s) ->
  exists w s' ht t lay, clht_create (2 ^ k) s = Ok (w, s') /\ coherent s' /\ clht_rep s' w ht t (2 ^ k) lay /\
    clht_quiet s' w ht /\ amap s' lay = ∅ /\ durable_index s' w ht lay.
Proof.
  intros Co Hk Ha. unfold create_requests in Ha. cbn [allocs_ok] in Ha.
  destruct (pick (owner s) sizeof_clht_t) as [w|] eqn:Hp0; [|done].
  destruct (pick _ sizeof_clht_hashtable_t) as [ht|] eqn:Hp1; [|done].
  destruct (pick _ (2 ^ k * sizeof_bucket_t)) as [t|] eqn:Hp2; [|done].
  destruct (create_map_rep s w ht t k Hk Hp0 Hp1 Hp2) as (C & Q & M).
  exists w, (created w ht t (2 ^ k) s), ht, t, (flat_layout t (2 ^ k)).
  split; [exact (create_run s w ht t k Hk Hp0 Hp1 Hp2)|]. split; [exact (created_coherent s w ht t k Co)|].
  do 3 (split; [done|]). exact (created_durable s w ht t k Co Hk Hp0 Hp1 Hp2).
Qed.

(** ** Properties *)

Section CrashProperties.
Context `{Malloc}.

(** C2: at every point of a [clht_put], resize included, every memory image a power
    failure may leave holds the map from before or the map from after the call; when
    the call has returned the map from after is durable. *)
Theorem clht_put_crash_consistent s h m key val :
  durable_rep s h m -> valid_key key -> put_room s h m ->
  exists s' evs, clht_put h key val s = Ok (bool_decide (m !! key = None), s') /\
    trace s' = rev evs ++ trace s /\
    crash_safe (trace s) evs (owner s') h m (match m !! key with Some _ => m | None => <[key := val]> m end) /\
    durable_rep s' h (match m !! key with Some _ => m | None => <[key := val]> m end).
Proof. apply put_crash. Qed.

(** C13: the same for [clht_remove]. *)
Theorem clht_remove_crash_consistent s h m key :
  durable_rep s h m -> valid_key key ->
  exists s' evs, clht_remove h key s = Ok (default 0 (m !! key), s') /\ trace s' = rev evs ++ trace s /\
    crash_safe (trace s) evs (owner s') h m (delete key m) /\ durable_rep s' h (delete key m).
Proof. apply remove_crash_op. Qed.

(** C30: on a memory image that holds a map in a table of fewer than 2^31 buckets (the counter is an
    [int]), [clht_lock_initialization] returns, frees
    the resize, status and bucket locks and leaves an index holding the same map, in
    which every lookup answers. *)
Theorem clht_lock_initialization_recovers r h m :
  recovered r h m -> rd r (rd r (h, W_ht), H_num_buckets) < 2 ^ 31 ->
  exists s' ht t n lay, clht_lock_initialization h r = Ok (tt, s') /\ clht_rep s' h ht t n lay /\
    amap s' lay = m /\ rd s' (h, W_resize_lock) = LOCK_FREE /\ rd s' (h, W_status_lock) = LOCK_FREE /\
    forall key, valid_key key -> clht_get ht key s' = Ok (default 0 (m !! key), s').
Proof.
  intros R Hnum. destruct (recover_ok _ _ _ R Hnum) as (s' & ht & t & n & lay & Hrun & C & M & L1 & L2 & _).
  exists s', ht, t, n, lay. do 5 (split; [done|]). intros key Hk. rewrite <- M.
  apply (get_ok _ _ t n); [apply C|]. unfold valid_key in Hk. lia.
Qed.

(** Once [clht_create] has returned, every memory image a power failure may
    leave holds the new index, with the empty map. *)
Theorem clht_create_durable s k :
  coherent s -> 0 <= k < 25 -> allocs_ok (create_requests (2 ^ k)) (owner s) ->
  exists w s', clht_create (2 ^ k) s = Ok (w, s') /\
    forall i g, crash_image (trace s') i -> recovered (restart (owner s') g i) w ∅.
Proof.
  intros Co Hk Ha. destruct (create_durable s k Co Hk Ha) as (w & s' & ht & t & lay & Hrun & _ & C & _ & <- & D).
  exists w, s'. split; [done|]. intros i g Hi. apply (agree_recovered s' _ w ht t (2 ^ k) lay C); [now intros x|].
  intros c Hc. exact (settled_image _ _ _ _ (D c Hc) Hi).
Qed.

End CrashProperties.

(** ** The concrete index *)

Lemma boot_coherent `{Malloc} s :
  coherent s -> ssmem_ts_local (my_tls s) = NULL ->
  allocs_ok [sizeof_ssmem_allocator_t; 256; sizeof_ssmem_ts_t] (owner s) -> coherent (run_state boot s).
Proof.
  intros Co Hl Ha. cbn [allocs_ok] in Ha.
  destruct (pick (owner s) _) as [a|] eqn:Hp0; [|done]. destruct (pick _ 256) as [mem|] eqn:Hp1; [|done].
  destruct (pick _ sizeof_ssmem_ts_t) as [ts|] eqn:Hp2; [|done]. unfold run_state, boot.
  rewrite (cbind_Ok _ _ _ _ _ (memalign_ok s _ _ Hp0)). unfold set_clht_alloc. rewrite cbind_assoc. run_step.
  match goal with |- context [cbind (set_tls ?t) ?k ?x] => change (cbind (set_tls t) k x) with (k tt (set_my_tls t x)) end.
  cbv beta. set (s1 := set_my_tls _ _).
  destruct (alloc_init_ok s1 a 256 SSMEM_GC_FREE_SET_SIZE 0 mem ts) as (s2 & Hrun & RG);
    [unfold s1; now rewrite my_tls_set|done|done|].
  unfold ssmem_alloc_init. rewrite Hrun. apply (coherent_mem (do_evs (ts_evs ts 0 (ssmem_ts_list (glob s1))) s1)).
  - apply RG.
  - rewrite trace_do_evs. apply RG.
  - apply coherent_do_evs. exact Co.
Qed.

Lemma demo_durable : durable_rep demo demo_h ∅.
Proof.
  assert (Co : coherent demo_boot).
  { apply boot_coherent; [apply coherent_init|done|vm_compute; exact I]. }
  destruct (@create_durable demo_malloc demo_boot 1 Co) as (w & s' & ht & t & lay & E & Co' & C & Q & M & D).
  - lia.
  - vm_compute. exact I.
  - replace demo_h with w by (unfold demo_h; now rewrite E).
    pose proof demo_gc as G.
    replace demo with s' in * by (unfold demo, run_state; now rewrite E).
    split; [done|]. exists ht, t, (2 ^ 1), lay, [demo_ts], demo_al. auto.
Qed.

Lemma clht_put_crash_consistent_witness :
  exists s' evs, @clht_put demo_malloc demo_h 5 50 demo = Ok (true, s') /\ trace s' = rev evs ++ trace demo /\
    crash_safe (trace demo) evs (owner s') demo_h ∅ (<[5 := 50]> ∅) /\ durable_rep s' demo_h (<[5 := 50]> ∅).
Proof.
  exact (@clht_put_crash_consistent demo_malloc demo demo_h ∅ 5 50 demo_durable ltac:(split; lia) demo_room).
Defined.

Lemma clht_remove_crash_consistent_witness :
  exists s5 s' evs, @clht_put demo_malloc demo_h 5 50 demo = Ok (true, s5) /\
    @clht_remove demo_malloc demo_h 5 s5 = Ok (50, s') /\ trace s' = rev evs ++ trace s5 /\
    crash_safe (trace s5) evs (owner s') demo_h (<[5 := 50]> ∅) (delete 5 (<[5 := 50]> ∅)) /\
    durable_rep s' demo_h (delete 5 (<[5 := 50]> ∅)).
Proof.
  destruct (@put_crash demo_malloc demo demo_h ∅ 5 50 demo_durable ltac:(split; lia) demo_room)
    as (s5 & _ & Hrun & _ & _ & D).
  destruct (@clht_remove_crash_consistent demo_malloc s5 demo_h (<[5 := 50]> ∅) 5 D ltac:(split; lia)) as (s' & evs & Hr & Hs).
  exists s5, s', evs. auto.
Defined.

Lemma clht_lock_initialization_recovers_witness :
  exists s' ht t n lay, clht_lock_initialization demo_h (restart (owner demo) (glob demo) (cells demo)) = Ok (tt, s') /\
    clht_rep s' demo_h ht t n lay /\ amap s' lay = ∅ /\
    rd s' (demo_h, W_resize_lock) = LOCK_FREE /\ rd s' (demo_h, W_status_lock) = LOCK_FREE /\
    forall key, valid_key key -> clht_get ht key s' = Ok (default 0 ((∅ : gmap Z Z) !! key), s').
Proof.
  apply clht_lock_initialization_recovers; [|vm_compute; reflexivity].
  destruct (rest_crash demo demo_h ∅ demo_durable 0%nat (cells demo) (glob demo)) as [R|R]; [|exact R..].
  apply newest_image. apply demo_durable.
Defined.

Lemma clht_create_durable_witness :
  exists w s', @clht_create demo_malloc (2 ^ 3) (state_init 0) = Ok (w, s') /\
    forall i g, crash_image (trace s') i -> recovered (restart (owner s') g i) w ∅.
Proof.
  exact (@clht_create_durable demo_malloc (state_init 0) 3 (coherent_init 0) ltac:(lia) ltac:(vm_compute; exact I)).
Defined.

(** ** What recovery does not restore *)

(** An index of 16 buckets, the shrinking resize of it, and its events. *)
Definition big : state := run_state (@clht_create demo_malloc (2 ^ 4)) demo_boot.
Definition big_h : Z := match @clht_create demo_malloc (2 ^ 4) demo_boot with Ok (w, _) => w | Err _ => 0 end.
Definition shrunk : state := run_state (@ht_resize_pes demo_malloc 3 big_h false 33) big.
Definition shrink_evs : list ev := rev (take (length (trace shrunk) - length (trace big)) (trace shrunk)).

(** The failure comes after the second store; the image has all stores so far. *)
Definition shrink_cut : state := do_evs (take 2 shrink_evs) big.
Definition shrink_image : state := restart (owner big) (glob big) (cells shrink_cut).

Lemma run_state_ok {A} (m : M A) (s : state) (P : A -> bool) :
  match m s with Ok (a, _) => P a | Err _ => false end = true ->
  exists a, m s = Ok (a, run_state m s) /\ P a = true.
Proof. unfold run_state. destruct (m s) as [[a s']|e]; [eauto|done]. Qed.

Lemma big_coherent : coherent big.
Proof.
  assert (Co : coherent demo_boot) by (apply boot_coherent; [apply coherent_init|done|vm_compute; exact I]).
  destruct (@create_durable demo_malloc demo_boot 4 Co) as (w & s' & _ & _ & _ & E & Co' & _).
  - lia.
  - vm_compute. exact I.
  - unfold big, run_state. now rewrite E.
Qed.

(** C39: a power failure just after a shrinking resize has started can leave a memory
    image in which the [is_helper] field of the table is 0. [clht_lock_initialization]
    runs on it and does not set the field back, and the next growing resize waits
    forever for a helper: [ht_resize_help] refuses to help such a table. *)
Theorem shrink_crash_stops_growth :
  exists s' evs k i s1,
    @ht_resize_pes demo_malloc 3 big_h false 33 big = Ok (1, s') /\ trace s' = rev evs ++ trace big /\
    crash_image (rev (take k evs) ++ trace big) i /\
    clht_lock_initialization big_h (restart (owner big) (glob big) i) = Ok (tt, s1) /\
    @ht_resize_pes demo_malloc 3 big_h true 2 s1 = Err Hang.
Proof.
  exists shrunk, shrink_evs, 2%nat, (cells shrink_cut), (run_state (clht_lock_initialization big_h) shrink_image).
  split; [|split; [|split; [|split]]].
  - destruct (run_state_ok (@ht_resize_pes demo_malloc 3 big_h false 33) big (Z.eqb 1)) as (r & E & Hr);
      [vm_compute; reflexivity|]. apply Z.eqb_eq in Hr as <-. exact E.
  - vm_compute. reflexivity.
  - rewrite <- trace_do_evs. apply newest_image, coherent_do_evs, big_coherent.
  - destruct (run_state_ok (clht_lock_initialization big_h) shrink_image (fun _ => true)) as ([] & E & _);
      [vm_compute; reflexivity|]. exact E.
  - vm_compute. reflexivity.
Qed.
