(* ===== verification/ClhtConc.v ===== *)
(** * P-CLHT: threads that share a bucket chain

    [clht_get], [clht_put] and [clht_remove] of [clht_lb_res.c] as programs of any number of
    threads whose loads and stores interleave. Keys of different bins live in different chains
    with different locks, so the machine has one chain: [lck] is the lock of its first bucket and
    [slots] are the entries of its buckets, three per bucket, in the order of the chain. A bucket
    is never unlinked; a new one becomes part of the chain with the store to [next]. Memory is
    sequentially consistent. The runs are those in which no resize is going on. A new bucket has its
    keys cleared and one entry filled in; its other values are whatever the memory it is made of
    contained, [raw i] for the entry [i] of the chain.

    The control point of a thread is the access to shared memory it makes next. [past] is the
    history of what the chain maps keys to, one entry per step, and no thread reads it. *)

From S2P Require Import Prelude Memory Clht.
#[local] Open Scope Z_scope.

(** ** Programs *)

Inductive cop := CGet (key : Z) | CPut (key val : Z) | CRemove (key : Z).

Record shared := mkShared { lck : Z; slots : list (Z * Z) }.

(** [i] is the entry, or the number of entries before [next], the access is about. *)
Inductive pc :=
(* clht_get *)
| GVal (i : nat) | GKey (i : nat) (val : Z) | GVal2 (i : nat) (val : Z) | GNext (i : nat)
(* bucket_exists *)
| EKey (i : nat) | ENext (i : nat)
(* LOCK_ACQ *)
| Lock
(* clht_put *)
| SKey (i : nat) (empty : option nat) | SKey0 (i : nat) | SNext (i : nat) (empty : option nat)
| SNext2 (i : nat) (empty : option nat) | WVal (e : nat) | WKey (e : nat) | WNew
(* clht_remove *)
| RKey (i : nat) | RVal (i : nat) | RClear (i : nat) (val : Z) | RNext (i : nat)
(* LOCK_RLS, return *)
| Unlock (r : Z) | Done (r : Z).

Definition op_key (o : cop) : Z := match o with CGet k | CPut k _ | CRemove k => k end.

Definition op_start (o : cop) : pc := match o with CGet _ => GVal 0 | _ => EKey 0 end.

(** The access after the one to entry [i]: the next entry, or [next] behind the third one. *)
Definition after (entry next : nat -> pc) (i : nat) : pc :=
  if Nat.eqb (S i mod 3) 0 then next (S i) else entry (S i).

(** [next] of the bucket that ends before entry [i]. *)
Definition next_null (m : shared) (i : nat) : bool := Nat.eqb i (length (slots m)).

Definition set_slot (m : shared) (i : nat) (kv : Z * Z) : shared := mkShared (lck m) (<[i := kv]> (slots m)).

(** ** Threads *)

Inductive label := Invoke (t : nat) (o : cop) | Step (t : nat).

#[export] Instance cop_eq_dec : EqDecision cop.
Proof. solve_decision. Defined.
#[export] Instance label_eq_dec : EqDecision label.
Proof. solve_decision. Defined.

(** [th_start] is the number of steps before the operation began. *)
Record thread := mkTh { th_op : cop; th_pc : pc; th_start : nat }.

Record sys := mkSys { mem : shared; threads : gmap nat thread; past : list (gmap Z Z) }.

(** What a chain maps keys to; key 0 marks an empty entry. *)
Definition contents (l : list (Z * Z)) : gmap Z Z := list_to_map (filter (fun kv => kv.1 <> 0) l).

Definition idle (s : sys) (t : nat) : bool :=
  match threads s !! t with
  | None => true
  | Some th => match th_pc th with Done _ => true | _ => false end
  end.

(** ** Steps *)

Section machine.
Context (raw : nat -> Z).

(** One access; [None] is an access to no entry, or a control point the operation has not. *)
Definition tstep (o : cop) (p : pc) (m : shared) : option (shared * pc) :=
  let key := op_key o in
  match p with
  | GVal i => kv ← slots m !! i; Some (m, GKey i kv.2)
  | GKey i v => kv ← slots m !! i; Some (m, if kv.1 =? key then GVal2 i v else after GVal GNext i)
  | GVal2 i v => kv ← slots m !! i; Some (m, Done (if kv.2 =? v then v else 0))
  | GNext i => Some (m, if next_null m i then Done 0 else GVal i)
  | EKey i =>
      kv ← slots m !! i;
      if kv.1 =? key then
        match o with CPut _ _ => Some (m, Done 0) | CRemove _ => Some (m, Lock) | CGet _ => None end
      else Some (m, after EKey ENext i)
  | ENext i =>
      if next_null m i then
        match o with CPut _ _ => Some (m, Lock) | CRemove _ => Some (m, Done 0) | CGet _ => None end
      else Some (m, EKey i)
  | Lock =>
      if lck m =? LOCK_FREE then
        match o with
        | CPut _ _ => Some (mkShared LOCK_UPDATE (slots m), SKey 0 None)
        | CRemove _ => Some (mkShared LOCK_UPDATE (slots m), RKey 0)
        | CGet _ => None
        end
      else Some (m, Lock)
  | SKey i empty =>
      kv ← slots m !! i;
      Some (m, if kv.1 =? key then Unlock 0
               else match empty with None => SKey0 i | Some e => after (fun i => SKey i empty) (fun i => SNext i empty) i end)
  | SKey0 i =>
      kv ← slots m !! i;
      let empty := if kv.1 =? 0 then Some i else None in
      Some (m, after (fun i => SKey i empty) (fun i => SNext i empty) i)
  | SNext i empty =>
      Some (m, if next_null m i then match empty with None => WNew | Some e => WVal e end else SNext2 i empty)
  | SNext2 i empty => Some (m, SKey i empty)
  | WVal e =>
      match o with
      | CPut _ val => kv ← slots m !! e; Some (set_slot m e (kv.1, val), WKey e)
      | _ => None
      end
  | WKey e => kv ← slots m !! e; Some (set_slot m e (key, kv.2), Unlock 1)
  | WNew =>
      match o with
      | CPut _ val => 
          let n := length (slots m) in
          Some (mkShared (lck m) (slots m ++ [(key, val); (0, raw (n + 1)%nat); (0, raw (n + 2)%nat)]), Unlock 1)
      | _ => None
      end
  | RKey i => kv ← slots m !! i; Some (m, if kv.1 =? key then RVal i else after RKey RNext i)
  | RVal i => kv ← slots m !! i; Some (m, RClear i kv.2)
  | RClear i v => kv ← slots m !! i; Some (set_slot m i (0, kv.2), Unlock v)
  | RNext i => Some (m, if next_null m i then Unlock 0 else RKey i)
  | Unlock r => Some (mkShared LOCK_FREE (slots m), Done r)
  | Done _ => None
  end.

Definition sys_step (l : label) (s : sys) : option sys :=
  match l with
  | Invoke t o =>
      if idle s t then
        Some (mkSys (mem s) (<[t := mkTh o (op_start o) (pred (length (past s)))]> (threads s))
                    (past s ++ [contents (slots (mem s))]))
      else None
  | Step t =>
      th ← threads s !! t;
      '(m, p) ← tstep (th_op th) (th_pc th) (mem s);
      Some (mkSys m (<[t := mkTh (th_op th) p (th_start th)]> (threads s)) (past s ++ [contents (slots m)]))
  end.

Fixpoint sys_run (ls : list label) (s : sys) : option sys :=
  match ls with [] => Some s | l :: ls' => s' ← sys_step l s; sys_run ls' s' end.

End machine.

(** The first bucket of a chain, as [clht_hashtable_create] leaves it. *)
Definition sys_start : sys :=
  mkSys (mkShared LOCK_FREE (replicate 3 (0, 0))) ∅ [∅].

(** ** What is promised *)

(** The operation [o] of thread [t], which began before step [start], took effect at one moment
    [k] since: its result [r] is what the operation gives on what the chain maps keys to then, and if it changes this, the change is what step [k], one of
    its own, does. *)
Definition linearized (ls : list label) (past : list (gmap Z Z)) (t : nat) (o : cop) (start : nat) (r : Z) : Prop :=
  exists k M, (start <= k)%nat /\ past !! k = Some M /\
  match o with
  | CGet key => r = default 0 (M !! key)
  | CPut key val =>
      match M !! key with
      | Some _ => r = 0
      | None => r = 1 /\ ls !! k = Some (Step t) /\ past !! S k = Some (<[key := val]> M)
      end
  | CRemove key =>
      match M !! key with
      | None => r = 0
      | Some v => r = v /\ ls !! k = Some (Step t) /\ past !! S k = Some (delete key M)
      end
  end.

(** The operation thread [t] runs at step [k]. *)
Definition runs_op (ls : list label) (t : nat) (o : cop) (k : nat) : Prop :=
  exists i, (i < k)%nat /\ ls !! i = Some (Invoke t o) /\ forall j o', (i < j < k)%nat -> ls !! j <> Some (Invoke t o').

(** What an operation makes of the contents. *)
Definition effect (o : cop) (M : gmap Z Z) : gmap Z Z :=
  match o with CGet _ => M | CPut key val => <[key := val]> M | CRemove key => delete key M end.

(** The steps thread [t] has made since [start]. *)
Definition own_steps (t start : nat) (ls : list label) : nat := length (filter (fun l => l = Step t) (drop start ls)).

(** Keys are not 0; the values put are not 0, never put twice, and not in the memory that buckets
    are made of. *)
Definition label_key (l : label) : option Z := match l with Invoke _ o => Some (op_key o) | Step _ => None end.
Definition put_value (l : label) : option Z := match l with Invoke _ (CPut _ val) => Some val | _ => None end.

Definition distinct_values (raw : nat -> Z) (ls : list label) : Prop :=
  (0 ∉ omap label_key ls) /\ (0 ∉ omap put_value ls) /\ NoDup (omap put_value ls) /\ forall n, raw n ∉ omap put_value ls.

(** ** Contents *)

Definition uniq (l : list (Z * Z)) : Prop :=
  forall i j k v w, k <> 0 -> l !! i = Some (k, v) -> l !! j = Some (k, w) -> i = j.

Definition absent (l : list (Z * Z)) (k : Z) : Prop := forall j w, l !! j <> Some (k, w).

Lemma contents_lookup l k v : uniq l -> k <> 0 -> contents l !! k = Some v <-> exists i, l !! i = Some (k, v).
Proof.
  intros Hu Hk. unfold contents. split.
  - intros H%elem_of_list_to_map_2. apply list_elem_of_filter in H as [_ H]. by apply list_elem_of_lookup in H.
  - intros (i & Hi). apply elem_of_list_to_map_1'.
    + intros w Hw. apply list_elem_of_filter in Hw as [_ Hw]. apply list_elem_of_lookup in Hw as (j & Hj).
      rewrite (Hu i j k v w Hk Hi Hj) in Hi. congruence.
    + apply list_elem_of_filter. split; [done|]. by eapply list_elem_of_lookup_2.
Qed.

Lemma contents_zero l : contents l !! 0 = None.
Proof.
  apply not_elem_of_list_to_map_1. intros H. apply list_elem_of_fmap in H as ([k v] & Hk & H).
  apply list_elem_of_filter in H as [H _]. cbn in *. congruence.
Qed.

Lemma contents_absent l k : uniq l -> k <> 0 -> contents l !! k = None <-> absent l k.
Proof.
  intros Hu Hk. split.
  - intros H j w Hj. assert (contents l !! k = Some w) by (apply contents_lookup; [done..|by exists j]). congruence.
  - intros H. destruct (contents l !! k) as [v|] eqn:E; [|done]. apply contents_lookup in E as (i & Hi); [|done..]. by apply H in Hi.
Qed.

(** A map is the contents of a chain if it has its entries. *)
Lemma contents_eq l' (M : gmap Z Z) :
  uniq l' -> M !! 0 = None ->
  (forall k v, k <> 0 -> (exists i, l' !! i = Some (k, v)) <-> M !! k = Some v) -> contents l' = M.
Proof.
  intros Hu H0 H. apply map_eq. intros k. destruct (decide (k = 0)) as [->|Hk]; [by rewrite contents_zero|].
  apply option_eq. intros v. rewrite <- H by done. by apply contents_lookup.
Qed.

(** ** The changes of a chain

    [nv] is the value that is stored, if one is. *)

Inductive change : option Z -> list (Z * Z) -> list (Z * Z) -> Prop :=
| ch_id l : change None l l
| ch_val l e w v : l !! e = Some (0, w) -> change (Some v) l (<[e := (0, v)]> l)
| ch_key l e k v : l !! e = Some (0, v) -> k <> 0 -> absent l k -> change None l (<[e := (k, v)]> l)
| ch_new l k v a b : k <> 0 -> absent l k -> change None l (l ++ [(k, v); (0, a); (0, b)])
| ch_clear l i k v : l !! i = Some (k, v) -> k <> 0 -> change None l (<[i := (0, v)]> l).

Lemma insert_inv (l : list (Z * Z)) e kv i x :
  <[e := kv]> l !! i = Some x -> (i = e /\ x = kv) \/ (i <> e /\ l !! i = Some x).
Proof. intros H. apply list_lookup_insert_Some in H as [(-> & <- & _)|[? ?]]; auto. Qed.

Lemma app_new_inv (l : list (Z * Z)) k v a b i x :
  (l ++ [(k, v); (0, a); (0, b)]) !! i = Some x -> l !! i = Some x \/ (i = length l /\ x = (k, v)) \/ (x.1 = 0 /\ (x.2 = a \/ x.2 = b)).
Proof.
  intros H. apply lookup_app_Some in H as [H|[Hi H]]; [auto|]. right.
  destruct (i - length l)%nat as [|[|[|?]]] eqn:E; cbn in H; simplify_eq; [left; split; [lia|done]|right; auto..].
Qed.

Lemma change_uniq nv l l' : change nv l l' -> uniq l -> uniq l'.
Proof.
  intros Hc Hu i j k v w Hk Hi Hj. destruct Hc.
  - by eapply Hu.
  - apply insert_inv in Hi as [[-> ?]|[? Hi]], Hj as [[-> ?]|[? Hj]]; simplify_eq; try done. by eapply Hu.
  - apply insert_inv in Hi as [[-> ?]|[? Hi]], Hj as [[-> ?]|[? Hj]]; simplify_eq; try done.
    + by apply H1 in Hj.
    + by apply H1 in Hi.
    + by eapply Hu.
  - apply app_new_inv in Hi as [Hi|[[-> ?]|[? ?]]], Hj as [Hj|[[-> ?]|[? ?]]]; cbn in *; simplify_eq; try done.
    + by eapply Hu.
    + by apply H0 in Hi.
    + by apply H0 in Hj.
  - apply insert_inv in Hi as [[-> ?]|[? Hi]], Hj as [[-> ?]|[? Hj]]; simplify_eq; try done. by eapply Hu.
Qed.

(** An entry of a key stays, unless the key is removed. *)
Lemma change_keeps nv l l' p k v :
  change nv l l' -> uniq l -> k <> 0 -> l !! p = Some (k, v) -> l' !! p = Some (k, v) \/ absent l' k.
Proof.
  intros Hc Hu Hk Hp. destruct Hc.
  - by left.
  - left. rewrite list_lookup_insert_ne; [done|]. intros ->. congruence.
  - left. rewrite list_lookup_insert_ne; [done|]. intros ->. congruence.
  - left. by apply lookup_app_l_Some.
  - destruct (decide (i = p)) as [->|Hne]; [|left; by rewrite list_lookup_insert_ne].
    rewrite Hp in H. simplify_eq. right. intros j w Hj. apply insert_inv in Hj as [[-> ?]|[? Hj]]; simplify_eq.
    match goal with Hne : j <> p |- _ => apply Hne; by eapply Hu end.
Qed.

(** The value of an entry stays, unless a value is stored there. *)
Lemma change_val nv l l' i kv :
  change nv l l' -> l !! i = Some kv -> exists kv', l' !! i = Some kv' /\ (kv'.2 = kv.2 \/ Some kv'.2 = nv).
Proof.
  intros Hc Hi. destruct kv as [k0 v0]. destruct Hc.
  - eauto.
  - destruct (decide (e = i)) as [->|Hne].
    + eexists. rewrite list_lookup_insert_eq by (by eapply lookup_lt_Some). eauto.
    + eexists. rewrite list_lookup_insert_ne by done. eauto.
  - destruct (decide (e = i)) as [->|Hne].
    + eexists. rewrite list_lookup_insert_eq by (by eapply lookup_lt_Some). simplify_eq. eauto.
    + eexists. rewrite list_lookup_insert_ne by done. eauto.
  - eexists. split; [by apply lookup_app_l_Some|]. auto.
  - destruct (decide (i0 = i)) as [->|Hne].
    + eexists. rewrite list_lookup_insert_eq by (by eapply lookup_lt_Some). simplify_eq. eauto.
    + eexists. rewrite list_lookup_insert_ne by done. eauto.
Qed.

Lemma change_length nv l l' : change nv l l' -> (length l <= length l')%nat /\ (length l mod 3 = 0 -> length l' mod 3 = 0)%nat.
Proof.
  intros Hc. destruct Hc; rewrite ?length_insert; try done. rewrite length_app. cbn [length]. split; [lia|].
  intros H1. rewrite Nat.Div0.add_mod, H1. done.
Qed.

(** What each change does to the contents. *)

Lemma contents_val l e w v : uniq l -> l !! e = Some (0, w) -> contents (<[e := (0, v)]> l) = contents l.
Proof.
  intros Hu He. apply contents_eq; [by eapply change_uniq; [econstructor|]|apply contents_zero|].
  intros k x Hk. rewrite contents_lookup by done. split; intros (i & Hi); exists i.
  - apply insert_inv in Hi as [[-> ?]|[? Hi]]; simplify_eq. done.
  - rewrite list_lookup_insert_ne; [done|]. intros ->. congruence.
Qed.

Lemma contents_key l e k v : uniq l -> l !! e = Some (0, v) -> k <> 0 -> absent l k -> contents (<[e := (k, v)]> l) = <[k := v]> (contents l).
Proof.
  intros Hu He Hk Ha. apply contents_eq; [by eapply change_uniq; [econstructor|]|by rewrite lookup_insert_ne, contents_zero|].
  intros k' x Hk'. rewrite lookup_insert_Some, contents_lookup by done. split.
  - intros (i & Hi). apply insert_inv in Hi as [[-> ?]|[? Hi]]; simplify_eq; [by left|]. right. split; [|by exists i]. intros <-. by apply Ha in Hi.
  - intros [[-> ->]|[Hne (i & Hi)]]; [exists e|exists i].
    + apply list_lookup_insert_eq. by eapply lookup_lt_Some.
    + rewrite list_lookup_insert_ne; [done|]. intros ->. congruence.
Qed.

Lemma contents_new l k v a b : uniq l -> k <> 0 -> absent l k -> contents (l ++ [(k, v); (0, a); (0, b)]) = <[k := v]> (contents l).
Proof.
  intros Hu Hk Ha. apply contents_eq; [by eapply change_uniq; [econstructor|]|by rewrite lookup_insert_ne, contents_zero|].
  intros k' x Hk'. rewrite lookup_insert_Some, contents_lookup by done. split.
  - intros (i & Hi). apply app_new_inv in Hi as [Hi|[[-> ?]|[? ?]]]; cbn in *; simplify_eq; [|by left]. right. split; [|by exists i]. intros <-. by apply Ha in Hi.
  - intros [[-> ->]|[Hne (i & Hi)]]; [exists (length l)|exists i].
    + by rewrite lookup_app_r, Nat.sub_diag by lia.
    + by apply lookup_app_l_Some.
Qed.

Lemma contents_clear l i k v : uniq l -> l !! i = Some (k, v) -> k <> 0 -> contents (<[i := (0, v)]> l) = delete k (contents l).
Proof.
  intros Hu Hi Hk. apply contents_eq; [by eapply change_uniq; [econstructor|]|by rewrite lookup_delete_ne, contents_zero|].
  intros k' x Hk'. rewrite lookup_delete_Some, contents_lookup by done. split.
  - intros (j & Hj). apply insert_inv in Hj as [[-> ?]|[? Hj]]; simplify_eq. split; [|by exists j].
    intros <-. specialize (Hu i j k v x Hk Hi Hj). congruence.
  - intros [Hne (j & Hj)]. exists j. rewrite list_lookup_insert_ne; [done|]. intros ->. congruence.
Qed.
