(* ===== verification/ClhtLin.v ===== *)
(** * P-CLHT: the operations of threads are linearizable

    In every interleaving of lookups, insertions and removals on a chain each operation takes
    effect at one moment between its invocation and its return, if no value is put twice
    or left over in the memory of a new bucket: a lookup reads a value, the key, and the value again, and takes equal values for a sign that
    nothing happened in between. When values come back, it may return a value its key never had. *)

From S2P Require Import Prelude Memory Clht ClhtConc.
#[local] Open Scope Z_scope.

(** ** The moments since an operation began *)

Definition since (past : list (gmap Z Z)) (start : nat) (P : gmap Z Z -> Prop) : Prop :=
  exists k M, (start <= k)%nat /\ past !! k = Some M /\ P M.

Definition gone past start key : Prop := since past start (fun M => M !! key = None).
Definition had past start key v : Prop := since past start (fun M => M !! key = Some v).

Lemma since_mono past start P N : since past start P -> since (past ++ [N]) start P.
Proof. intros (k & M & Hk & Hp & HP). exists k, M. split; [done|]. split; [by apply lookup_app_l_Some|done]. Qed.

Lemma since_now past start (P : gmap Z Z -> Prop) N : (start <= length past)%nat -> P N -> since (past ++ [N]) start P.
Proof. intros Hs HP. exists (length past), N. split; [done|]. split; [by apply list_lookup_middle|done]. Qed.

Lemma linearized_mono ls past t o start r lb N : linearized ls past t o start r -> linearized (ls ++ [lb]) (past ++ [N]) t o start r.
Proof.
  intros (k & M & Hk & Hp & H). exists k, M. split; [done|]. split; [by apply lookup_app_l_Some|]. destruct o as [key|key val|key]; [done|..].
  all: destruct (M !! key); [|]; first [done | destruct H as (-> & ? & ?); split; [done|]; split; by apply lookup_app_l_Some].
Qed.

Section lin.
Context (raw : nat -> Z).

(** ** The invariant *)

Definition is_get (o : cop) : bool := match o with CGet _ => true | _ => false end.
Definition is_put (o : cop) : bool := match o with CPut _ _ => true | _ => false end.
Definition is_remove (o : cop) : bool := match o with CRemove _ => true | _ => false end.

(** The lock is held. *)
Definition crit (p : pc) : bool :=
  match p with
  | SKey _ _ | SKey0 _ | SNext _ _ | SNext2 _ _ | WVal _ | WKey _ | WNew
  | RKey _ | RVal _ | RClear _ _ | RNext _ | Unlock _ => true
  | _ => false
  end.

(** The value has not been stored. *)
Definition pending (th : thread) : bool :=
  is_put (th_op th) &&
  match th_pc th with
  | EKey _ | ENext _ | Lock | SKey _ _ | SKey0 _ | SNext _ _ | SNext2 _ _ | WVal _ | WNew => true
  | _ => false
  end.

(** The value a lookup has read. *)
Definition local (p : pc) : option Z := match p with GKey _ v | GVal2 _ v => Some v | _ => None end.

Definition from (l : list (Z * Z)) (key : Z) (i : nat) : Prop := exists p v, (i <= p)%nat /\ l !! p = Some (key, v).
Definition not_below (l : list (Z * Z)) (key : Z) (i : nat) : Prop := forall j v, l !! j = Some (key, v) -> (i <= j)%nat.
Definition empty_ok (l : list (Z * Z)) (e : option nat) : Prop :=
  match e with Some e => exists v, l !! e = Some (0, v) | None => True end.

Definition pc_ok (ls : list label) (past : list (gmap Z Z)) (l : list (Z * Z)) (t : nat) (o : cop) (start : nat) (p : pc) : Prop :=
  let key := op_key o in
  match p with
  | GVal i => is_get o /\ (i < length l)%nat /\ (gone past start key \/ from l key i)
  | GKey i v => is_get o /\ (i < length l)%nat /\
      (gone past start key \/ exists p w, (i <= p)%nat /\ l !! p = Some (key, w) /\ (p = i -> w = v))
  | GVal2 i v => is_get o /\ (i < length l)%nat /\ (gone past start key \/ l !! i = Some (key, v)) /\
      (had past start key v \/ exists kv, l !! i = Some kv /\ kv.2 <> v)
  | GNext i => is_get o /\ (i <= length l)%nat /\ (gone past start key \/ from l key i)
  | EKey i => negb (is_get o) /\ (i < length l)%nat /\ (gone past start key \/ from l key i)
  | ENext i => negb (is_get o) /\ (i <= length l)%nat /\ (gone past start key \/ from l key i)
  | Lock => Is_true (negb (is_get o))
  | SKey i e => is_put o /\ (i < length l)%nat /\ not_below l key i /\ empty_ok l e
  | SKey0 i => is_put o /\ (i < length l)%nat /\ not_below l key (S i)
  | SNext i e => is_put o /\ (i <= length l)%nat /\ not_below l key i /\ empty_ok l e
  | SNext2 i e => is_put o /\ (i < length l)%nat /\ not_below l key i /\ empty_ok l e
  | WVal e => is_put o /\ absent l key /\ exists v, l !! e = Some (0, v)
  | WKey e => absent l key /\ match o with CPut _ val => l !! e = Some (0, val) | _ => False end
  | WNew => is_put o /\ absent l key
  | RKey i => is_remove o /\ (i < length l)%nat /\ not_below l key i
  | RVal i => is_remove o /\ exists v, l !! i = Some (key, v)
  | RClear i v => is_remove o /\ l !! i = Some (key, v)
  | RNext i => is_remove o /\ (i <= length l)%nat /\ not_below l key i
  | Unlock r | Done r => linearized ls past t o start r
  end.

(** A value that no insertion still has to store. *)
Definition spent (ls : list label) (ths : gmap nat thread) (v : Z) : Prop :=
  v = 0 \/ (exists n, v = raw n) \/ exists i t k, ls !! i = Some (Invoke t (CPut k v)) /\
    forall u th, ths !! u = Some th -> pending th -> th_start th <> i.

Record inv (ls : list label) (s : sys) : Prop := {
  inv_past : length (past s) = S (length ls);
  inv_last : past s !! length ls = Some (contents (slots (mem s)));
  inv_mod : (length (slots (mem s)) mod 3 = 0)%nat;
  inv_pos : (0 < length (slots (mem s)))%nat;
  inv_uniq : uniq (slots (mem s));
  inv_lock : forall t th, threads s !! t = Some th -> crit (th_pc th) -> lck (mem s) <> LOCK_FREE;
  inv_mutex : forall t u th uh, threads s !! t = Some th -> threads s !! u = Some uh -> crit (th_pc th) -> crit (th_pc uh) -> t = u;
  inv_start : forall t th, threads s !! t = Some th -> ls !! th_start th = Some (Invoke t (th_op th));
  inv_only : forall t th j o, threads s !! t = Some th -> (th_start th < j)%nat -> ls !! j <> Some (Invoke t o);
  inv_pc : forall t th, threads s !! t = Some th -> pc_ok ls (past s) (slots (mem s)) t (th_op th) (th_start th) (th_pc th);
  inv_slots : forall i kv, slots (mem s) !! i = Some kv -> spent ls (threads s) kv.2;
  inv_local : forall t th v, threads s !! t = Some th -> local (th_pc th) = Some v -> spent ls (threads s) v;
  inv_changes : forall k M M', past s !! k = Some M -> past s !! S k = Some M' -> M <> M' ->
    exists t o, ls !! k = Some (Step t) /\ runs_op ls t o k /\ M' = effect o M }.

(** ** The steps of others *)

Lemma from_step nv l l' past start key i : change nv l l' -> uniq l -> key <> 0 -> (start <= length past)%nat ->
  gone past start key \/ from l key i -> gone (past ++ [contents l']) start key \/ from l' key i.
Proof.
  intros Hc Hu Hk Hs [H|(p & v & Hi & Hp)]; [left; by apply since_mono|].
  destruct (change_keeps _ _ _ _ _ _ Hc Hu Hk Hp) as [H|H]; [right; by exists p, v|].
  left. apply since_now; [done|]. apply contents_absent; [by eapply change_uniq|done|done].
Qed.

Lemma pc_ok_stable nv ls past l l' t o start p lb :
  pc_ok ls past l t o start p -> change nv l l' -> uniq l -> op_key o <> 0 -> (start <= length past)%nat ->
  l' = l \/ crit p = false -> (forall v, local p = Some v -> nv <> Some v) ->
  pc_ok (ls ++ [lb]) (past ++ [contents l']) l' t o start p.
Proof.
  intros Hok Hc Hu Hk Hs Hx Hl. pose proof (proj1 (change_length _ _ _ Hc)) as Hlen.
  destruct (decide (crit p = true)) as [E|E%not_true_is_false].
  { destruct Hx as [->|Hx]; [|congruence]. destruct p; try done; cbn in Hok |- *; by apply linearized_mono. }
  destruct p; try done; cbn in Hok, Hl |- *.
  - destruct Hok as (Hg & Hlt & H). split; [done|]. split; [lia|]. by eapply from_step.
  - destruct Hok as (Hg & Hlt & H). split; [done|]. split; [lia|]. destruct H as [H|(p & w & Hi & Hp & Hw)]; [left; by apply since_mono|].
    destruct (change_keeps _ _ _ _ _ _ Hc Hu Hk Hp) as [H|H]; [right; by exists p, w|].
    left. apply since_now; [done|]. apply contents_absent; [by eapply change_uniq|done|done].
  - destruct Hok as (Hg & Hlt & H1 & H2). split; [done|]. split; [lia|]. split.
    + destruct H1 as [H|Hp]; [left; by apply since_mono|].
      destruct (change_keeps _ _ _ _ _ _ Hc Hu Hk Hp) as [H|H]; [by right|].
      left. apply since_now; [done|]. apply contents_absent; [by eapply change_uniq|done|done].
    + destruct H2 as [H|(kv & Hi & Hne)]; [left; by apply since_mono|]. right.
      destruct (change_val _ _ _ _ _ Hc Hi) as (kv' & Hi' & [E'|E']); exists kv'; [by rewrite E'|]. split; [done|].
      intros Hv. apply (Hl val); [done|]. congruence.
  - destruct Hok as (Hg & Hlt & H). split; [done|]. split; [lia|]. by eapply from_step.
  - destruct Hok as (Hg & Hlt & H). split; [done|]. split; [lia|]. by eapply from_step.
  - destruct Hok as (Hg & Hlt & H). split; [done|]. split; [lia|]. by eapply from_step.
  - by apply linearized_mono.
Qed.

(** ** The steps of a thread itself *)

(** The facts about a step that the other threads need. *)
Record own (o : cop) (p p' : pc) (m m' : shared) (nv : option Z) : Prop := {
  own_change : change nv (slots m) (slots m');
  own_effect : contents (slots m') = contents (slots m) \/ contents (slots m') = effect o (contents (slots m));
  own_crit : slots m' = slots m \/ crit p;
  own_lck : lck m' = lck m \/ lck m' <> LOCK_FREE \/ crit p;
  own_held : crit p' -> lck m' <> LOCK_FREE \/ (lck m' = lck m /\ crit p);
  own_mutex : crit p' -> crit p \/ lck m = LOCK_FREE;
  own_nv : forall v, nv = Some v -> exists k, o = CPut k v /\ pending (mkTh o p 0);
  own_pending : pending (mkTh o p' 0) -> pending (mkTh o p 0);
  own_local : forall v, local p' = Some v -> local p = Some v \/ exists i kv, slots m !! i = Some kv /\ kv.2 = v;
  own_vals : forall i kv, slots m' !! i = Some kv ->
    (exists n, kv.2 = raw n) \/ (exists j kv0, slots m !! j = Some kv0 /\ kv0.2 = kv.2) \/ (pending (mkTh o p' 0) = false /\ exists k, o = CPut k kv.2) }.

(** A step that changes nothing but the control point. *)
Lemma own_quiet o p p' m :
  (crit p' -> crit p) -> (pending (mkTh o p' 0) -> pending (mkTh o p 0)) ->
  (forall v, local p' = Some v -> local p = Some v \/ exists i kv, slots m !! i = Some kv /\ kv.2 = v) -> own o p p' m m None.
Proof.
  intros Hc Hp Hl. split; auto; try done; [constructor|].
  intros i kv Hi. right. left. eauto.
Qed.

Lemma after_crit f g i : (forall j, crit (f j) = crit (g j)) -> crit (after f g i) = crit (f (S i)).
Proof. intros H. unfold after. by case_match. Qed.

Ltac quiet := apply own_quiet; unfold after; repeat case_match; cbn; unfold pending; cbn; try done; rewrite ?andb_true_r, ?andb_false_r; try done.

Lemma own_step o p p' m m' ls past t start :
  pc_ok ls past (slots m) t o start p -> uniq (slots m) -> op_key o <> 0 -> tstep raw o p m = Some (m', p') -> exists nv, own o p p' m m' nv.
Proof.
  intros Hok Hu Hk Hst. destruct p; cbn in Hst; try done.
  - destruct (slots m !! i) as [kv|] eqn:Ei; [|done]. injection Hst as <- <-. exists None. quiet. intros v [= <-]. eauto.
  - destruct (slots m !! i) as [kv|] eqn:Ei; [|done]. injection Hst as <- <-. exists None. quiet. intros v [= <-]. eauto.
  - destruct (slots m !! i) as [kv|] eqn:Ei; [|done]. injection Hst as <- <-. exists None. quiet.
  - injection Hst as <- <-. exists None. quiet.
  - destruct (slots m !! i) as [kv|] eqn:Ei; [|done]. cbn in Hst. exists None. repeat case_match; simplify_eq; quiet.
  - exists None. repeat case_match; simplify_eq; quiet.
  - destruct (Z.eqb_spec (lck m) LOCK_FREE) as [El|El]; [|injection Hst as <- <-; exists None; quiet].
    destruct o; try done; injection Hst as <- <-; exists None; split; cbn; auto; try done; try (by constructor); right; left; eauto.
  - destruct (slots m !! i) as [kv|] eqn:Ei; [|done]. injection Hst as <- <-. exists None. quiet.
  - destruct (slots m !! i) as [kv|] eqn:Ei; [|done]. injection Hst as <- <-. exists None. quiet.
  - injection Hst as <- <-. exists None. quiet.
  - injection Hst as <- <-. exists None. quiet.
  - destruct o as [|key val|]; try done. destruct (slots m !! e) as [kv|] eqn:Ei; [|done]. injection Hst as <- <-. exists (Some val).
    destruct Hok as (_ & Ha & w & He). rewrite He in Ei. injection Ei as <-. split; cbn; auto; try done.
    + by econstructor.
    + left. by eapply contents_val.
    + intros v [= <-]. by exists key.
    + intros i kv Hi. apply insert_inv in Hi as [[-> ->]|[_ Hi]]; [right; right; split; [done|by exists key]|right; left; eauto].
  - destruct (slots m !! e) as [kv|] eqn:Ei; [|done]. injection Hst as <- <-. exists None.
    destruct Hok as (Ha & He). destruct o as [|key val|]; try done. rewrite He in Ei. injection Ei as <-. split; cbn; auto; try done.
    + by constructor.
    + right. by apply contents_key.
    + intros i kv Hi. apply insert_inv in Hi as [[-> ->]|[_ Hi]]; right; left; eauto.
  - destruct o as [|key val|]; try done. injection Hst as <- <-. exists None. destruct Hok as (_ & Ha). split; cbn; auto; try done.
    + by constructor.
    + right. by apply contents_new.
    + intros i kv Hi. apply app_new_inv in Hi as [Hi|[[-> ->]|[_ Hv]]]; [right; left; eauto| |]; [right; right; split; [done|]; by exists key|left; destruct Hv; eauto].
  - destruct (slots m !! i) as [kv|] eqn:Ei; [|done]. injection Hst as <- <-. exists None. quiet.
  - destruct (slots m !! i) as [kv|] eqn:Ei; [|done]. injection Hst as <- <-. exists None. quiet.
  - destruct (slots m !! i) as [kv|] eqn:Ei; [|done]. injection Hst as <- <-. exists None.
    destruct Hok as (Hr & He). destruct o as [| |key]; try done. rewrite He in Ei. injection Ei as <-. split; cbn; auto; try done.
    + by econstructor.
    + right. by eapply contents_clear.
    + intros j kv Hj. apply insert_inv in Hj as [[-> ->]|[_ Hj]]; right; left; eauto.
  - injection Hst as <- <-. exists None. quiet.
  - injection Hst as <- <-. exists None. split; cbn; auto; try done; [by constructor|]. intros i kv Hi. right. left. eauto.
Qed.

Lemma after_ok (P : pc -> Prop) f g i n :
  (i < n)%nat -> (n mod 3 = 0)%nat -> P (g (S i)) -> ((S i < n)%nat -> P (f (S i))) -> P (after f g i).
Proof.
  intros Hi Hn Hg Hf. unfold after. destruct (Nat.eqb_spec (S i mod 3) 0) as [E|E]; [done|]. apply Hf.
  destruct (decide (S i = n)) as [<-|]; [done|lia].
Qed.

Section pc_step.
Context (ls : list label) (past : list (gmap Z Z)) (m : shared) (t : nat) (start : nat).
Hypothesis Hlast : past !! length ls = Some (contents (slots m)).
Hypothesis Hstart : (start <= length ls)%nat.
Hypothesis Huniq : uniq (slots m).
Hypothesis Hmod : (length (slots m) mod 3 = 0)%nat.
Hypothesis Hplen : length past = S (length ls).

#[local] Abbreviation ls' := (ls ++ [Step t]).

Lemma start_past : (start <= length past)%nat.
Proof. lia. Qed.

Lemma from_next o kv i : slots m !! i = Some kv -> kv.1 <> op_key o ->
  gone past start (op_key o) \/ from (slots m) (op_key o) i ->
  gone (past ++ [contents (slots m)]) start (op_key o) \/ from (slots m) (op_key o) (S i).
Proof.
  intros Hi Hne [H|(p & v & Hp & Hl)]; [left; by apply since_mono|]. right. exists p, v. split; [|done].
  destruct (decide (p = i)) as [->|]; [|lia]. rewrite Hi in Hl. by simplify_eq.
Qed.

Lemma from_end o i : i = length (slots m) -> gone past start (op_key o) \/ from (slots m) (op_key o) i -> gone past start (op_key o).
Proof. intros -> [H|(p & v & Hp & Hl)]; [done|]. apply lookup_lt_Some in Hl. lia. Qed.

Lemma not_below_next o kv i : slots m !! i = Some kv -> kv.1 <> op_key o -> not_below (slots m) (op_key o) i -> not_below (slots m) (op_key o) (S i).
Proof.
  intros Hi Hne H j v Hj. specialize (H j v Hj). destruct (decide (j = i)) as [->|]; [|lia]. rewrite Hi in Hj. by simplify_eq.
Qed.

Lemma not_below_end o i : i = length (slots m) -> not_below (slots m) (op_key o) i -> absent (slots m) (op_key o).
Proof. intros -> H j v Hj. pose proof (H j v Hj). apply lookup_lt_Some in Hj. lia. Qed.

Lemma lin_gone o r N : gone past start (op_key o) -> is_put o = false -> r = 0 -> linearized ls' (past ++ [N]) t o start r.
Proof.
  intros (k & M & Hk & Hp & HM) Hput ->. exists k, M. split; [done|]. split; [by apply lookup_app_l_Some|].
  destruct o as [key|key val|key]; cbn in *; [by rewrite HM|done|by rewrite HM].
Qed.

(** The operation takes effect now. *)
Lemma lin_now o r l' :
  match o with
  | CGet key => r = default 0 (contents (slots m) !! key)
  | CPut key val =>
      match contents (slots m) !! key with
      | Some _ => r = 0
      | None => r = 1 /\ contents l' = <[key := val]> (contents (slots m))
      end
  | CRemove key =>
      match contents (slots m) !! key with
      | None => r = 0
      | Some v => r = v /\ contents l' = delete key (contents (slots m))
      end
  end -> linearized ls' (past ++ [contents l']) t o start r.
Proof.
  intros H. exists (length ls), (contents (slots m)). split; [done|]. split; [by apply lookup_app_l_Some|].
  assert (H1 : ls' !! length ls = Some (Step t)) by (by apply list_lookup_middle).
  assert (H2 : (past ++ [contents l']) !! S (length ls) = Some (contents l')) by (rewrite <- Hplen; by apply list_lookup_middle).
  destruct o as [key|key val|key]; [done|..]; destruct (contents (slots m) !! key); try done; destruct H as [-> H]; by rewrite <- H.
Qed.

Lemma present o i v : op_key o <> 0 -> slots m !! i = Some (op_key o, v) -> contents (slots m) !! op_key o = Some v.
Proof. intros Hk Hi. apply contents_lookup; [done..|]. by exists i. Qed.

Lemma not_there o : op_key o <> 0 -> absent (slots m) (op_key o) -> contents (slots m) !! op_key o = None.
Proof. intros Hk Ha. by apply contents_absent. Qed.

Lemma get_step o p p' m' :
  op_key o <> 0 ->
  match p with GVal _ | GKey _ _ | GVal2 _ _ | GNext _ => true | _ => false end = true ->
  pc_ok ls past (slots m) t o start p -> tstep raw o p m = Some (m', p') -> pc_ok ls' (past ++ [contents (slots m')]) (slots m') t o start p'.
Proof.
  intros Hkey Hp Hok Hst. pose proof start_past as Hsp. destruct p; try done; cbn in Hok, Hst.
  - destruct Hok as (Hg & Hi & H). destruct (slots m !! i) as [kv|] eqn:Ei; [|done]. injection Hst as <- <-. cbn. split; [done|]. split; [done|].
    destruct H as [H|(p & v & Hle & Hl)]; [left; by apply since_mono|]. right. exists p, v. split; [done|]. split; [done|]. intros ->. rewrite Ei in Hl. by simplify_eq.
  - destruct Hok as (Hg & Hi & H). destruct (slots m !! i) as [kv|] eqn:Ei; [|done]. injection Hst as <- <-.
    destruct (Z.eqb_spec kv.1 (op_key o)) as [Ek|Ek].
    + cbn. destruct kv as [k w]. cbn in Ek. subst k. split; [done|]. split; [done|]. split.
      * destruct H as [H|(p & w' & Hle & Hl & Hw)]; [left; by apply since_mono|]. right. assert (p = i) as -> by (by eapply Huniq). rewrite Hl. by rewrite Hw.
      * destruct (decide (w = val)) as [->|Hne]; [|right; by eexists]. left. apply since_now; [done|]. by eapply present.
    + assert (H' : gone past start (op_key o) \/ from (slots m) (op_key o) i).
      { destruct H as [H|(p & w' & Hle & Hl & Hw)]; [by left|]. right. by exists p, w'. }
      apply (from_next o kv) in H'; [|done..].
      eapply (after_ok (pc_ok _ _ _ _ _ _)); [exact Hi|done|cbn; split; [done|]; split; [lia|done]|intros ?; cbn; done].
  - destruct Hok as (Hg & Hi & H1 & H2). destruct (slots m !! i) as [kv|] eqn:Ei; [|done]. injection Hst as <- <-.
    destruct (Z.eqb_spec kv.2 val) as [Ev|Ev]; cbn.
    + destruct H2 as [H|(kv' & Hkv & Hne)]; [|simplify_eq; done]. destruct H as (k & M & Hk & HpM & HM).
      exists k, M. split; [done|]. split; [by apply lookup_app_l_Some|]. destruct o; try done. cbn in HM. by rewrite HM.
    + apply lin_gone; [|by destruct o|done]. destruct H1 as [H|H]; [done|]. by simplify_eq.
  - destruct Hok as (Hg & Hi & H). injection Hst as <- <-. unfold next_null. destruct (Nat.eqb_spec i (length (slots m))) as [E|E]; cbn.
    + apply lin_gone; [by eapply from_end|by destruct o|done].
    + split; [done|]. split; [lia|]. destruct H as [H|H]; [left; by apply since_mono|by right].
Qed.

Lemma exists_step o p p' m' :
  op_key o <> 0 ->
  match p with EKey _ | ENext _ | Lock => true | _ => false end = true ->
  pc_ok ls past (slots m) t o start p -> (0 < length (slots m))%nat ->
  tstep raw o p m = Some (m', p') -> pc_ok ls' (past ++ [contents (slots m')]) (slots m') t o start p'.
Proof.
  intros Hkey Hp Hok Hpos Hst. destruct p; try done; cbn in Hok, Hst.
  - destruct Hok as (Hg & Hi & H). destruct (slots m !! i) as [kv|] eqn:Ei; [|done]. cbn in Hst. destruct (Z.eqb_spec kv.1 (op_key o)) as [Ek|Ek].
    + destruct kv as [k w]. cbn in Ek. subst k. apply present in Ei; [|done]. destruct o; try done; injection Hst as <- <-; [|done].
      apply lin_now. cbn in Ei. by rewrite Ei.
    + injection Hst as <- <-. apply (from_next o kv) in H; [|done..].
      eapply (after_ok (pc_ok _ _ _ _ _ _)); [exact Hi|done|cbn; split; [done|]; split; [lia|done]|intros ?; cbn; done].
  - destruct Hok as (Hg & Hi & H). unfold next_null in Hst. destruct (Nat.eqb_spec i (length (slots m))) as [E|E].
    + destruct o; try done; injection Hst as <- <-; [done|]. cbn. apply lin_gone; [by eapply from_end|done|done].
    + injection Hst as <- <-. cbn. split; [done|]. split; [lia|]. destruct H as [H|H]; [left; by apply since_mono|by right].
  - destruct (lck m =? LOCK_FREE); [|injection Hst as <- <-; done].
    destruct o; try done; injection Hst as <- <-; cbn; (split; [done|]); (split; [done|]); [split; [|done]|]; intros j v _; lia.
Qed.

Lemma put_step o p p' m' :
  op_key o <> 0 ->
  match p with SKey _ _ | SKey0 _ | SNext _ _ | SNext2 _ _ | WVal _ | WKey _ | WNew => true | _ => false end = true ->
  pc_ok ls past (slots m) t o start p -> tstep raw o p m = Some (m', p') -> pc_ok ls' (past ++ [contents (slots m')]) (slots m') t o start p'.
Proof.
  intros Hkey Hp Hok Hst. destruct p; try done; cbn in Hok, Hst.
  - destruct Hok as (Hg & Hi & H & He). destruct (slots m !! i) as [kv|] eqn:Ei; [|done]. injection Hst as <- <-.
    destruct (Z.eqb_spec kv.1 (op_key o)) as [Ek|Ek].
    + destruct kv as [k w]. cbn in Ek. subst k. apply present in Ei; [|done]. destruct o; try done. apply lin_now. cbn in Ei. by rewrite Ei.
    + apply (not_below_next o kv) in H; [|done..]. destruct empty as [e|]; [|done].
      eapply (after_ok (pc_ok _ _ _ _ _ _)); [exact Hi|done|cbn; split; [done|]; split; [lia|done]|intros ?; cbn; done].
  - destruct Hok as (Hg & Hi & H). destruct (slots m !! i) as [[k w]|] eqn:Ei; [|done]. injection Hst as <- <-. cbn.
    assert (He : empty_ok (slots m) (if k =? 0 then Some i else None)).
    { destruct (Z.eqb_spec k 0) as [->|]; [|done]. by exists w. }
    eapply (after_ok (pc_ok _ _ _ _ _ _)); [exact Hi|done|cbn; split; [done|]; split; [lia|done]|intros ?; cbn; done].
  - destruct Hok as (Hg & Hi & H & He). injection Hst as <- <-. unfold next_null. destruct (Nat.eqb_spec i (length (slots m))) as [E|E]; cbn.
    + assert (Ha : absent (slots m) (op_key o)) by (by eapply not_below_end). destruct empty; done.
    + split; [done|]. split; [lia|]. done.
  - by injection Hst as <- <-.
  - destruct Hok as (Hg & Ha & w & He). destruct o as [|key val|]; try done. rewrite He in Hst. injection Hst as <- <-. cbn. split.
    + intros j v Hj. apply insert_inv in Hj as [[-> ?]|[_ Hj]]; [by simplify_eq|]. by apply Ha in Hj.
    + apply list_lookup_insert_eq. by eapply lookup_lt_Some.
  - destruct Hok as (Ha & He). pose proof (not_there o Hkey Ha) as Hn. destruct o as [|key val|]; try done. rewrite He in Hst. injection Hst as <- <-. cbn in Hn |- *.
    apply lin_now. rewrite Hn. split; [done|]. by apply contents_key.
  - destruct Hok as (Hg & Ha). pose proof (not_there o Hkey Ha) as Hn. destruct o as [|key val|]; try done. injection Hst as <- <-. cbn in Hn |- *.
    apply lin_now. rewrite Hn. split; [done|]. by apply contents_new.
Qed.

Lemma remove_step o p p' m' :
  op_key o <> 0 ->
  match p with RKey _ | RVal _ | RClear _ _ | RNext _ => true | _ => false end = true ->
  pc_ok ls past (slots m) t o start p -> tstep raw o p m = Some (m', p') -> pc_ok ls' (past ++ [contents (slots m')]) (slots m') t o start p'.
Proof.
  intros Hkey Hp Hok Hst. destruct p; try done; cbn in Hok, Hst.
  - destruct Hok as (Hg & Hi & H). destruct (slots m !! i) as [kv|] eqn:Ei; [|done]. injection Hst as <- <-.
    destruct (Z.eqb_spec kv.1 (op_key o)) as [Ek|Ek].
    + cbn. split; [done|]. destruct kv as [k w]. cbn in Ek. subst k. by exists w.
    + apply (not_below_next o kv) in H; [|done..].
      eapply (after_ok (pc_ok _ _ _ _ _ _)); [exact Hi|done|cbn; split; [done|]; split; [lia|done]|intros ?; cbn; done].
  - destruct Hok as (Hg & w & Hw). rewrite Hw in Hst. injection Hst as <- <-. done.
  - destruct Hok as (Hg & Hw). rewrite Hw in Hst. injection Hst as <- <-. cbn. apply lin_now. pose proof (present o i val Hkey Hw) as Hn. destruct o as [| |key]; try done.
    cbn in Hn. rewrite Hn. split; [done|]. by apply contents_clear.
  - destruct Hok as (Hg & Hi & H). injection Hst as <- <-. unfold next_null. destruct (Nat.eqb_spec i (length (slots m))) as [E|E]; cbn.
    + apply lin_now. assert (Ha : absent (slots m) (op_key o)) by (by eapply not_below_end). pose proof (not_there o Hkey Ha) as Hn. destruct o; try done. cbn in Hn. by rewrite Hn.
    + split; [done|]. split; [lia|]. done.
Qed.

Lemma pc_step o p p' m' :
  op_key o <> 0 ->
  pc_ok ls past (slots m) t o start p -> (0 < length (slots m))%nat ->
  tstep raw o p m = Some (m', p') -> pc_ok ls' (past ++ [contents (slots m')]) (slots m') t o start p'.
Proof.
  intros Hkey Hok Hpos Hst.
  destruct p; first [eapply get_step; [exact Hkey| |exact Hok|exact Hst]; done | eapply exists_step; [exact Hkey| |exact Hok|done|exact Hst]; done
    | eapply put_step; [exact Hkey| |exact Hok|exact Hst]; done | eapply remove_step; [exact Hkey| |exact Hok|exact Hst]; done | idtac].
  cbn in Hst. injection Hst as <- <-. cbn in *. by apply linearized_mono.
Qed.

End pc_step.

(** ** The invariant is kept *)

Lemma spent_mono ls ths ths' lb v :
  spent ls ths v ->
  (forall u th, ths' !! u = Some th -> pending th -> (exists th0, ths !! u = Some th0 /\ pending th0 /\ th_start th0 = th_start th) \/ th_start th = length ls) ->
  spent (ls ++ [lb]) ths' v.
Proof.
  intros [->|[Hraw|(i & t & k & Hi & Hp)]] H; [by left|by right; left|]. right. right. exists i, t, k. split; [by apply lookup_app_l_Some|].
  intros u th Hu Hpend. destruct (H u th Hu Hpend) as [(th0 & H0 & Hp0 & E)|E]; rewrite <- E || rewrite E; [by eapply Hp|]. apply lookup_lt_Some in Hi. lia.
Qed.

(** The assumption on values, by positions. *)
Definition separate (ls : list label) : Prop :=
  (forall i t o, ls !! i = Some (Invoke t o) -> op_key o <> 0) /\
  (forall i t key val, ls !! i = Some (Invoke t (CPut key val)) -> val <> 0) /\
  (forall i j t u k k' val, ls !! i = Some (Invoke t (CPut k val)) -> ls !! j = Some (Invoke u (CPut k' val)) -> i = j) /\
  (forall i t key val n, ls !! i = Some (Invoke t (CPut key val)) -> raw n <> val).

Lemma omap_NoDup_inj {A} (f : A -> option Z) (l : list A) i j x y v :
  NoDup (omap f l) -> l !! i = Some x -> l !! j = Some y -> f x = Some v -> f y = Some v -> i = j.
Proof.
  assert (Hin : forall (l : list A) i x, l !! i = Some x -> f x = Some v -> v ∈ omap f l).
  { intros l' i' x' Hx Hv. apply list_elem_of_omap. exists x'. split; [by eapply list_elem_of_lookup_2|done]. }
  revert i j. induction l as [|a l IH]; intros i j Hnd Hi Hj Hx Hy; [done|].
  assert (Htl : NoDup (omap f l)) by (cbn in Hnd; destruct (f a); [by apply list.NoDup_cons in Hnd as [_ ?]|done]).
  destruct i as [|i], j as [|j]; cbn in Hi, Hj; [done|..].
  - simplify_eq. cbn in Hnd. rewrite Hx in Hnd. apply list.NoDup_cons in Hnd as [Hn _]. destruct Hn. by eapply Hin.
  - simplify_eq. cbn in Hnd. rewrite Hy in Hnd. apply list.NoDup_cons in Hnd as [Hn _]. destruct Hn. by eapply Hin.
  - f_equal. by apply IH.
Qed.

Lemma distinct_separate ls : distinct_values raw ls -> separate ls.
Proof.
  intros (H1 & H2 & H3 & H4). split; [|split; [|split]].
  - intros i t o Hi E. apply H1, list_elem_of_omap. exists (Invoke t o). split; [by eapply list_elem_of_lookup_2|]. cbn. by rewrite E.
  - intros i t key val Hi ->. apply H2, list_elem_of_omap. exists (Invoke t (CPut key 0)). split; [by eapply list_elem_of_lookup_2|done].
  - intros i j t u k k' val Hi Hj. by eapply (omap_NoDup_inj put_value).
  - intros i t key val n Hi <-. apply (H4 n), list_elem_of_omap. eexists. split; [by eapply list_elem_of_lookup_2|done].
Qed.

(** A value that is still to be stored is not spent. *)
Lemma pending_fresh ls ths t th k val v :
  separate ls -> ths !! t = Some th -> ls !! th_start th = Some (Invoke t (CPut k val)) -> pending th ->
  spent ls ths v -> v <> val.
Proof.
  intros (_ & Hnz & Hd & Hraw) Ht Hs Hp [->|[(n & ->)|(i & u & k' & Hi & Hno)]] E; [symmetry in E; by apply Hnz in Hs|by apply (Hraw _ _ _ _ n) in Hs|].
  subst v. specialize (Hno t th Ht Hp). rewrite (Hd _ _ _ _ _ _ _ Hi Hs) in Hno. done.
Qed.

Lemma separate_prefix ls lb : separate (ls ++ [lb]) -> separate ls.
Proof.
  intros (H1 & H2 & H3 & H4). split; [|split; [|split]].
  - intros i t o Hi. by eapply H1, lookup_app_l_Some.
  - intros i t key val Hi. by eapply H2, lookup_app_l_Some.
  - intros i j t u k k' val Hi Hj. eapply H3; by apply lookup_app_l_Some.
  - intros i t key val n Hi. by eapply H4, lookup_app_l_Some.
Qed.

Lemma thread_key ls s t th : inv ls s -> separate ls -> threads s !! t = Some th -> op_key (th_op th) <> 0.
Proof. intros HI (H1 & _) Ht. eapply H1, (inv_start _ _ HI), Ht. Qed.

Lemma thread_start ls s t th : inv ls s -> threads s !! t = Some th -> (th_start th < length ls)%nat.
Proof. intros HI Ht. eapply lookup_lt_Some, (inv_start _ _ HI), Ht. Qed.

Lemma changes_snoc ls past lb N :
  length past = S (length ls) ->
  (forall k M M', past !! k = Some M -> past !! S k = Some M' -> M <> M' -> exists t o, ls !! k = Some (Step t) /\ runs_op ls t o k /\ M' = effect o M) ->
  (forall M, past !! length ls = Some M -> M <> N -> exists t o, lb = Step t /\ runs_op ls t o (length ls) /\ N = effect o M) ->
  forall k M M', (past ++ [N]) !! k = Some M -> (past ++ [N]) !! S k = Some M' -> M <> M' ->
  exists t o, (ls ++ [lb]) !! k = Some (Step t) /\ runs_op (ls ++ [lb]) t o k /\ M' = effect o M.
Proof.
  intros Hlen Hold Hnew k M M' Hk Hk' Hne. assert (Hr : forall t o j, (j <= length ls)%nat -> runs_op ls t o j -> runs_op (ls ++ [lb]) t o j).
  { intros t o j Hj (i & Hi & Hl & Hno). exists i. split; [done|]. split; [by apply lookup_app_l_Some|]. intros x o' Hx. rewrite lookup_app_l by lia. by apply Hno. }
  apply lookup_app_Some in Hk' as [Hk'|[Hle Hk']].
  - rewrite lookup_app_l in Hk by (apply lookup_lt_Some in Hk'; lia). destruct (Hold k M M' Hk Hk' Hne) as (t & o & Hl & Hro & HM).
    exists t, o. split; [by apply lookup_app_l_Some|]. split; [|done]. apply Hr; [|done]. apply lookup_lt_Some in Hl. lia.
  - destruct (S k - length past)%nat as [|x] eqn:Ex; [|done]. injection Hk' as <-. assert (k = length ls) as -> by lia.
    rewrite lookup_app_l in Hk by lia. destruct (Hnew M Hk Hne) as (t & o & -> & Hro & HM). exists t, o. split; [by apply list_lookup_middle|]. split; [|done]. by apply Hr.
Qed.

Lemma inv_begin : inv [] sys_start.
Proof.
  split; cbn; try done; [lia|..].
  - intros i j k v w Hk Hi. destruct i as [|[|[|?]]]; cbn in Hi; simplify_eq.
  - intros i kv Hi. destruct i as [|[|[|?]]]; cbn in Hi; simplify_eq; by left.
Qed.

Lemma inv_invoke ls s s' t o : inv ls s -> separate (ls ++ [Invoke t o]) -> sys_step raw (Invoke t o) s = Some s' -> inv (ls ++ [Invoke t o]) s'.
Proof.
  intros HI Hd Hst. assert (Hk : op_key o <> 0) by (eapply (proj1 Hd); by apply list_lookup_middle). cbn in Hst. destruct (idle s t) eqn:Eid; [|done]. injection Hst as <-.
  pose proof (inv_past _ _ HI) as Hplen. rewrite Hplen. cbn [pred].
  assert (Hcrit : crit (op_start o) = false) by (by destruct o).
  assert (Hmono : forall v, spent ls (threads s) v -> spent (ls ++ [Invoke t o]) (<[t := mkTh o (op_start o) (length ls)]> (threads s)) v).
  { intros v Hv. eapply spent_mono; [exact Hv|]. intros u th Hu Hp. apply lookup_insert_Some in Hu as [[<- <-]|[Hne Hu]]; [by right|left; by exists th]. }
  split; cbn.
  - rewrite !length_app, Hplen. cbn. lia.
  - rewrite length_app. cbn. rewrite Nat.add_1_r, <- Hplen. by apply list_lookup_middle.
  - apply (inv_mod _ _ HI).
  - apply (inv_pos _ _ HI).
  - apply (inv_uniq _ _ HI).
  - intros u th Hu Hc. apply lookup_insert_Some in Hu as [[<- <-]|[Hne Hu]]; [cbn in Hc; by rewrite Hcrit in Hc|]. by eapply (inv_lock _ _ HI).
  - intros u u' th th' Hu Hu' Hc Hc'. apply lookup_insert_Some in Hu as [[<- <-]|[Hne Hu]]; [cbn in Hc; by rewrite Hcrit in Hc|].
    apply lookup_insert_Some in Hu' as [[<- <-]|[Hne' Hu']]; [cbn in Hc'; by rewrite Hcrit in Hc'|]. by eapply (inv_mutex _ _ HI).
  - intros u th Hu. apply lookup_insert_Some in Hu as [[<- <-]|[Hne Hu]]; cbn; [by apply list_lookup_middle|]. apply lookup_app_l_Some. by apply (inv_start _ _ HI).
  - intros u th j o' Hu Hj Hl. apply lookup_app_Some in Hl as [Hl|[Hle Hl]].
    + apply lookup_insert_Some in Hu as [[<- <-]|[Hne Hu]]; cbn in Hj; [apply lookup_lt_Some in Hl; lia|]. by eapply (inv_only _ _ HI).
    + apply lookup_insert_Some in Hu as [[<- <-]|[Hne Hu]]; cbn in Hj.
      * destruct (j - length ls)%nat eqn:E; [lia|done].
      * destruct (j - length ls)%nat eqn:E; [|done]. cbn in Hl. congruence.
  - intros u th Hu. apply lookup_insert_Some in Hu as [[<- <-]|[Hne Hu]]; cbn.
    + assert (Hgo : gone (past s ++ [contents (slots (mem s))]) (length ls) (op_key o) \/ from (slots (mem s)) (op_key o) 0).
      { destruct (contents (slots (mem s)) !! op_key o) as [v|] eqn:E; [|left; apply since_now; [lia|done]].
        right. apply contents_lookup in E as (i & Hi); [|apply (inv_uniq _ _ HI)|done]. exists i, v. split; [lia|done]. }
      pose proof (inv_pos _ _ HI). destruct o; cbn; (split; [done|]); (split; [done|]); done.
    + eapply pc_ok_stable; [by apply (inv_pc _ _ HI)|constructor|apply (inv_uniq _ _ HI)|..]; [|apply (thread_start _ _ _ _ HI) in Hu; lia|by left|done].
      eapply thread_key; [done|by eapply separate_prefix|done].
  - intros i kv Hi. apply Hmono. by eapply (inv_slots _ _ HI).
  - intros u th v Hu Hl. apply Hmono. apply lookup_insert_Some in Hu as [[<- <-]|[Hne Hu]]; [by destruct o|]. by eapply (inv_local _ _ HI).
  - apply changes_snoc; [done|apply (inv_changes _ _ HI)|]. intros M HM Hne. rewrite (inv_last _ _ HI) in HM. congruence.
Qed.

Lemma inv_own ls s t th m p :
  inv ls s -> separate ls -> threads s !! t = Some th -> tstep raw (th_op th) (th_pc th) (mem s) = Some (m, p) ->
  (exists nv, own (th_op th) (th_pc th) p (mem s) m nv) /\
  pc_ok (ls ++ [Step t]) (past s ++ [contents (slots m)]) (slots m) t (th_op th) (th_start th) p.
Proof.
  intros HI Hd Ht Hst. pose proof (thread_key _ _ _ _ HI Hd Ht) as Hk. pose proof (inv_pc _ _ HI _ _ Ht) as Hok.
  split; [eapply own_step; [exact Hok|apply (inv_uniq _ _ HI)|done..]|].
  eapply pc_step; [apply (inv_last _ _ HI)|apply (thread_start _ _ _ _ HI) in Ht; lia|apply (inv_uniq _ _ HI)|apply (inv_mod _ _ HI)|apply (inv_past _ _ HI)|done|exact Hok|apply (inv_pos _ _ HI)|done].
Qed.

Lemma pending_start o p a b : pending (mkTh o p a) = pending (mkTh o p b).
Proof. done. Qed.

Section inv_step.
Context (ls : list label) (s : sys) (t : nat) (th : thread) (m : shared) (p : pc) (nv : option Z).
Hypothesis HI : inv ls s.
Hypothesis Hd : separate ls.
Hypothesis Ht : threads s !! t = Some th.
Hypothesis Hown : own (th_op th) (th_pc th) p (mem s) m nv.

Let ths' := <[t := mkTh (th_op th) p (th_start th)]> (threads s).

Lemma step_spent_mono v : spent ls (threads s) v -> spent (ls ++ [Step t]) ths' v.
Proof.
  intros Hv. eapply spent_mono; [exact Hv|]. intros u uh Hu Hp. left. apply lookup_insert_Some in Hu as [[<- <-]|[Hne Hu]]; [|by exists uh].
  exists th. split; [done|]. split; [|done]. by apply (own_pending _ _ _ _ _ _ Hown).
Qed.

Lemma step_slots i kv : slots m !! i = Some kv -> spent (ls ++ [Step t]) ths' kv.2.
Proof.
  intros Hi. destruct (own_vals _ _ _ _ _ _ Hown i kv Hi) as [Hraw|[(j & kv0 & Hj & <-)|[Hnp (k & Ho)]]]; [by right; left| |].
  - apply step_spent_mono. by eapply (inv_slots _ _ HI).
  - right. right. exists (th_start th), t, k. split.
    + apply lookup_app_l_Some. rewrite <- Ho. by apply (inv_start _ _ HI).
    + intros u uh Hu Hp. apply lookup_insert_Some in Hu as [[<- <-]|[Hne Hu]].
      * rewrite (pending_start _ _ _ 0), Hnp in Hp. done.
      * intros E. pose proof (inv_start _ _ HI _ _ Hu) as H1. pose proof (inv_start _ _ HI _ _ Ht) as H2. rewrite E in H1. congruence.
Qed.

Lemma step_local u uh v : ths' !! u = Some uh -> local (th_pc uh) = Some v -> spent (ls ++ [Step t]) ths' v.
Proof.
  intros Hu Hl. apply step_spent_mono. apply lookup_insert_Some in Hu as [[<- <-]|[Hne Hu]]; [|by eapply (inv_local _ _ HI)].
  destruct (own_local _ _ _ _ _ _ Hown v Hl) as [H|(i & kv & Hi & <-)]; [by eapply (inv_local _ _ HI)|by eapply (inv_slots _ _ HI)].
Qed.

(** The value stored, if any, is no value a lookup has in hand. *)
Lemma step_fresh u uh v : threads s !! u = Some uh -> local (th_pc uh) = Some v -> nv <> Some v.
Proof.
  intros Hu Hl E. destruct (own_nv _ _ _ _ _ _ Hown v E) as (k & Ho & Hp).
  eapply pending_fresh; [exact Hd|exact Ht|rewrite <- Ho; by apply (inv_start _ _ HI)|by destruct th|by eapply (inv_local _ _ HI)|done].
Qed.

Lemma step_others u uh : u <> t -> threads s !! u = Some uh ->
  pc_ok (ls ++ [Step t]) (past s ++ [contents (slots m)]) (slots m) u (th_op uh) (th_start uh) (th_pc uh).
Proof.
  intros Hne Hu. eapply pc_ok_stable; [by apply (inv_pc _ _ HI)|apply (own_change _ _ _ _ _ _ Hown)|apply (inv_uniq _ _ HI)|by eapply thread_key| | |].
  - apply (thread_start _ _ _ _ HI) in Hu. rewrite (inv_past _ _ HI). lia.
  - destruct (own_crit _ _ _ _ _ _ Hown) as [->|Hc]; [by left|]. right. apply not_true_is_false. intros Hc'. apply Hne.
    eapply (inv_mutex _ _ HI); [exact Hu|exact Ht| |done]. by rewrite Hc'.
  - intros v Hl. by eapply step_fresh.
Qed.

Lemma step_lock u uh : ths' !! u = Some uh -> crit (th_pc uh) -> lck m <> LOCK_FREE.
Proof.
  intros Hu Hc. apply lookup_insert_Some in Hu as [[<- <-]|[Hne Hu]]; cbn in Hc.
  - destruct (own_held _ _ _ _ _ _ Hown Hc) as [H|[-> Hc']]; [done|]. by eapply (inv_lock _ _ HI).
  - destruct (own_lck _ _ _ _ _ _ Hown) as [->|[H|Hc']]; [by eapply (inv_lock _ _ HI)|done|]. exfalso. apply Hne. by eapply (inv_mutex _ _ HI).
Qed.

Lemma step_mutex u u' uh uh' : ths' !! u = Some uh -> ths' !! u' = Some uh' -> crit (th_pc uh) -> crit (th_pc uh') -> u = u'.
Proof.
  assert (H : forall x xh, threads s !! x = Some xh -> crit p -> crit (th_pc xh) -> t = x).
  { intros x xh Hx Hc Hc'. destruct (own_mutex _ _ _ _ _ _ Hown Hc) as [Hc0|Hf]; [by eapply (inv_mutex _ _ HI)|]. by apply (inv_lock _ _ HI) in Hx. }
  intros Hu Hu' Hc Hc'. apply lookup_insert_Some in Hu as [[<- <-]|[Hne Hu]], Hu' as [[<- <-]|[Hne' Hu']]; cbn in Hc, Hc'.
  - done.
  - by eapply H.
  - symmetry. by eapply H.
  - by eapply (inv_mutex _ _ HI).
Qed.

Lemma inv_step_kept : pc_ok (ls ++ [Step t]) (past s ++ [contents (slots m)]) (slots m) t (th_op th) (th_start th) p ->
  inv (ls ++ [Step t]) (mkSys m ths' (past s ++ [contents (slots m)])).
Proof.
  intros Hok. pose proof (inv_past _ _ HI) as Hplen. pose proof (change_length _ _ _ (own_change _ _ _ _ _ _ Hown)) as [Hl1 Hl2]. split; cbn.
  - rewrite !length_app, Hplen. cbn. lia.
  - rewrite length_app. cbn. rewrite Nat.add_1_r, <- Hplen. by apply list_lookup_middle.
  - apply Hl2, (inv_mod _ _ HI).
  - pose proof (inv_pos _ _ HI). lia.
  - eapply change_uniq; [apply (own_change _ _ _ _ _ _ Hown)|apply (inv_uniq _ _ HI)].
  - exact step_lock.
  - exact step_mutex.
  - intros u uh Hu. apply lookup_app_l_Some. apply lookup_insert_Some in Hu as [[<- <-]|[Hne Hu]]; [exact (inv_start _ _ HI _ _ Ht)|by apply (inv_start _ _ HI)].
  - intros u uh j o' Hu Hj Hl. apply lookup_app_Some in Hl as [Hl|[Hle Hl]].
    + apply lookup_insert_Some in Hu as [[<- <-]|[Hne Hu]]; cbn in Hj; by eapply (inv_only _ _ HI).
    + by destruct (j - length ls)%nat.
  - intros u uh Hu. apply lookup_insert_Some in Hu as [[<- <-]|[Hne Hu]]; [done|]. by apply step_others.
  - exact step_slots.
  - exact step_local.
  - apply changes_snoc; [done|apply (inv_changes _ _ HI)|]. intros M HM Hne. rewrite (inv_last _ _ HI) in HM. injection HM as <-. exists t, (th_op th). split; [done|]. split.
    + exists (th_start th). split; [by eapply thread_start|]. split; [by apply (inv_start _ _ HI)|]. intros j o' Hj. eapply (inv_only _ _ HI); [done|lia].
    + destruct (own_effect _ _ _ _ _ _ Hown); congruence.
Qed.

End inv_step.

Lemma inv_next ls s lb s' : inv ls s -> separate (ls ++ [lb]) -> sys_step raw lb s = Some s' -> inv (ls ++ [lb]) s'.
Proof.
  intros HI Hd Hst. destruct lb as [t o|t]; [by eapply inv_invoke|]. cbn in Hst. destruct (threads s !! t) as [th|] eqn:Ht; [|done].
  cbn in Hst. destruct (tstep raw (th_op th) (th_pc th) (mem s)) as [[m p]|] eqn:E; [|done]. injection Hst as <-.
  apply separate_prefix in Hd. destruct (inv_own _ _ _ _ _ _ HI Hd Ht E) as [(nv & Hown) Hok]. by eapply inv_step_kept.
Qed.

Lemma sys_run_snoc ls lb s s' : sys_run raw (ls ++ [lb]) s = Some s' -> exists s1, sys_run raw ls s = Some s1 /\ sys_step raw lb s1 = Some s'.
Proof.
  revert s. induction ls as [|l ls IH]; intros s; cbn [sys_run app].
  - intros H. exists s. split; [done|]. by destruct (sys_step raw lb s).
  - destruct (sys_step raw l s) as [s1|]; [|done]. apply IH.
Qed.

Lemma inv_run ls s : separate ls -> sys_run raw ls sys_start = Some s -> inv ls s.
Proof.
  revert s. induction ls as [|lb ls IH] using rev_ind; intros s Hd Hr.
  - injection Hr as <-. apply inv_begin.
  - apply sys_run_snoc in Hr as (s1 & Hr & Hst). eapply inv_next; [|done|done]. apply IH; [by eapply separate_prefix|done].
Qed.

(** ** The theorems *)

Lemma past_first ls s s' : sys_run raw ls s = Some s' -> exists l, past s' = past s ++ l.
Proof.
  revert s. induction ls as [|lb ls IH]; intros s Hr; cbn in Hr; [injection Hr as <-; exists []; by rewrite app_nil_r|].
  destruct (sys_step raw lb s) as [s1|] eqn:E; [|done]. destruct (IH s1 Hr) as (l & ->).
  assert (exists N, past s1 = past s ++ [N]) as (N & ->); [|exists (N :: l); by rewrite <- app_assoc].
  destruct lb as [t o|t]; cbn in E; [destruct (idle s t); [injection E as <-; eauto|done]|].
  destruct (threads s !! t) as [th|]; [|done]. cbn in E. destruct (tstep raw _ _ _) as [[m p]|]; [|done]. injection E as <-. eauto.
Qed.

(** A thread that has not returned can go on. *)
Lemma not_stuck ls s t th : inv ls s -> threads s !! t = Some th ->
  (exists r, th_pc th = Done r) \/ is_Some (tstep raw (th_op th) (th_pc th) (mem s)).
Proof.
  intros HI Ht. pose proof (inv_pc _ _ HI _ _ Ht) as Hok. destruct th as [o p st]. cbn in *.
  assert (Hlt : forall i, (i < length (slots (mem s)))%nat -> exists kv, slots (mem s) !! i = Some kv) by (intros i Hi; by apply lookup_lt_is_Some_2).
  destruct p; cbn in Hok |- *; try (right; by eexists); try (left; by eexists); right.
  all: first [destruct Hok as (Hg & Hi & _); destruct (Hlt i Hi) as (kv & ->); cbn; repeat case_match; first [contradiction | by eexists]
    | destruct Hok as (Hg & Hi & H); repeat case_match; first [contradiction | by eexists]
    | destruct o; try done; repeat case_match; first [contradiction | by eexists]
    | destruct Hok as (Hg & Ha & w & He); rewrite He; destruct o; try done; by eexists
    | destruct Hok as (Ha & He); destruct o; try done; rewrite He; by eexists
    | destruct Hok as (Hg & He); destruct o; try done; by eexists
    | destruct Hok as (Hg & w & He); rewrite He; by eexists
    | destruct Hok as (Hg & He); rewrite He; by eexists].
Qed.

(** C4: Lookups, insertions and removals of any number of threads on a chain are linearizable, if
    no value is put twice or was in the memory that buckets are made of ([raw]). In every interleaving of their loads and stores, an operation that has
    returned took effect at one moment since it was invoked: its result is right for the contents
    of the chain at that moment, and a change it reports is made by one step of its own. Every
    change of the contents is the effect of an operation that is running, and no thread ever makes
    an access outside of the chain. *)
Theorem clht_linearizable (ls : list label) (s : sys) :
  distinct_values raw ls -> sys_run raw ls sys_start = Some s ->
  past s !! 0%nat = Some ∅ /\ past s !! length ls = Some (contents (slots (mem s))) /\
  (forall t th r, threads s !! t = Some th -> th_pc th = Done r ->
    ls !! th_start th = Some (Invoke t (th_op th)) /\ linearized ls (past s) t (th_op th) (th_start th) r) /\
  (forall k M M', past s !! k = Some M -> past s !! S k = Some M' -> M <> M' ->
    exists t o, ls !! k = Some (Step t) /\ runs_op ls t o k /\ M' = effect o M) /\
  (forall t th, threads s !! t = Some th -> (exists r, th_pc th = Done r) \/ is_Some (sys_step raw (Step t) s)).
Proof.
  intros Hd%distinct_separate Hr. pose proof (inv_run _ _ Hd Hr) as HI. split; [|split; [|split; [|split]]].
  - destruct (past_first _ _ _ Hr) as (l & ->). done.
  - apply (inv_last _ _ HI).
  - intros t th r Ht Hp. split; [by apply (inv_start _ _ HI)|]. pose proof (inv_pc _ _ HI _ _ Ht) as Hok. by rewrite Hp in Hok.
  - apply (inv_changes _ _ HI).
  - intros t th Ht. destruct (not_stuck _ _ _ _ HI Ht) as [H|([m p] & Hst)]; [by left|]. right. cbn. rewrite Ht. cbn. rewrite Hst. by eexists.
Qed.

(** ** Lookups do not wait *)

Lemma own_steps_snoc t start ls lb : (start <= length ls)%nat ->
  own_steps t start (ls ++ [lb]) = (own_steps t start ls + if decide (lb = Step t) then 1 else 0)%nat.
Proof.
  intros Hs. unfold own_steps. rewrite drop_app_le by done. rewrite list.filter_app, length_app. f_equal.
  destruct (decide (lb = Step t)) as [E|E]; [by rewrite filter_cons_True|by rewrite filter_cons_False].
Qed.

Lemma own_steps_end t ls : own_steps t (length ls) ls = 0%nat.
Proof. unfold own_steps. by rewrite drop_all. Qed.


(** Where a lookup is after [n] steps of its own, on a chain of [len] entries. *)
Definition get_at (len n : nat) (p : pc) : Prop :=
  match p with
  | GVal i => (i < len /\ n <= 3 * i)%nat
  | GKey i _ => (i < len /\ n <= 3 * i + 1)%nat
  | GVal2 i _ => (i < len /\ n <= 3 * i + 2)%nat
  | GNext i => (i <= len /\ S n <= 3 * i)%nat
  | Done _ => True
  | _ => False
  end.

Lemma get_at_mono len len' n p : (len <= len')%nat -> get_at len n p -> get_at len' n p.
Proof. intros Hl. destruct p; cbn; lia. Qed.

(** The chain grows by whole buckets. *)
Lemma tstep_length o p m m' p' : tstep raw o p m = Some (m', p') ->
  (length (slots m) <= length (slots m'))%nat /\ (length (slots m) mod 3 = 0 -> length (slots m') mod 3 = 0)%nat.
Proof.
  intros Hst. assert (Hc : length (slots m') = length (slots m) \/ length (slots m') = (length (slots m) + 3)%nat).
  { destruct p; cbn in Hst; repeat match type of Hst with
      | context [slots m !! ?i] => destruct (slots m !! i) as [kv|]; cbn in Hst
      | context [match ?x with _ => _ end] => destruct x
      end; simplify_eq; cbn; rewrite ?length_insert, ?length_app; cbn; auto. }
  destruct Hc as [->| ->]; [lia|]. split; [lia|]. intros Hm. rewrite Nat.Div0.add_mod, Hm. done.
Qed.

(** One step of a lookup. *)
Lemma get_at_step key p p' m m' n : (length (slots m) mod 3 = 0)%nat -> get_at (length (slots m)) n p -> tstep raw (CGet key) p m = Some (m', p') -> get_at (length (slots m')) (S n) p'.
Proof.
  intros Hm Hat Hst. destruct p; try done; cbn in Hst, Hat.
  - destruct (slots m !! i) as [kv|]; [|done]. injection Hst as <- <-. cbn. lia.
  - destruct (slots m !! i) as [kv|]; [|done]. injection Hst as <- <-. destruct (kv.1 =? key); cbn; [lia|].
    apply (after_ok (get_at _ _) _ _ i (length (slots m))); [lia|done|cbn; lia|cbn; lia].
  - destruct (slots m !! i) as [kv|]; [|done]. by injection Hst as <- <-.
  - injection Hst as <- <-. unfold next_null. destruct (Nat.eqb_spec i (length (slots m))); cbn; [done|lia].
Qed.

(** A lookup that has not returned can go on. *)
Lemma get_at_can key p m n : get_at (length (slots m)) n p -> (exists r, p = Done r) \/ ((n < 3 * length (slots m))%nat /\ is_Some (tstep raw (CGet key) p m)).
Proof.
  intros Hat. destruct p; try done; cbn in Hat |- *; [right..|by left; eexists]; (split; [lia|]); try by eexists.
  all: destruct Hat as [Hi _]; apply lookup_lt_is_Some_2 in Hi as [kv ->]; by eexists.
Qed.

Record walk (ls : list label) (s : sys) : Prop := {
  wk_past : length (past s) = S (length ls);
  wk_mod : (length (slots (mem s)) mod 3 = 0)%nat;
  wk_pos : (0 < length (slots (mem s)))%nat;
  wk_start : forall t th, threads s !! t = Some th -> (th_start th < length ls)%nat;
  wk_get : forall t th key, threads s !! t = Some th -> th_op th = CGet key -> get_at (length (slots (mem s))) (own_steps t (th_start th) ls) (th_pc th) }.

Lemma walk_next ls s lb s' : walk ls s -> sys_step raw lb s = Some s' -> walk (ls ++ [lb]) s'.
Proof.
  intros [W1 W2 W3 W4 W5] Hst. destruct lb as [u o|u]; cbn in Hst.
  - destruct (idle s u); [|done]. injection Hst as <-. split; cbn [mem past threads]; rewrite ?length_app; cbn [length]; try done; [lia| |].
    + intros t th [[<- <-]|[_ Ht]]%lookup_insert_Some; cbn; [lia|]. apply W4 in Ht. lia.
    + intros t th key [[<- <-]|[_ Ht]]%lookup_insert_Some Ho; cbn [th_op th_pc th_start mem] in Ho |- *.
      * rewrite W1. cbn [pred]. rewrite own_steps_snoc, own_steps_end by done. rewrite decide_False by done. subst o. cbn [op_start get_at]. lia.
      * rewrite own_steps_snoc by (apply W4 in Ht; lia). rewrite decide_False, Nat.add_0_r by done. by eapply W5.
  - destruct (threads s !! u) as [uh|] eqn:Hu; [|done]. cbn in Hst. destruct (tstep _ _ _ _) as [[m p]|] eqn:E; [|done]. injection Hst as <-.
    destruct (tstep_length _ _ _ _ _ E) as [Hl Hm]. split; cbn [mem past threads]; rewrite ?length_app; cbn [length]; [lia|by apply Hm|lia| |].
    + intros t th [[<- <-]|[_ Ht]]%lookup_insert_Some; cbn; [apply W4 in Hu; lia|]. apply W4 in Ht. lia.
    + intros t th key [[<- <-]|[Hne Ht]]%lookup_insert_Some Ho; cbn [th_op th_pc th_start mem] in Ho |- *.
      * rewrite own_steps_snoc by (apply W4 in Hu; lia). rewrite decide_True, Nat.add_1_r by done. rewrite Ho in E. eapply get_at_step; [done|by eapply W5|exact E].
      * rewrite own_steps_snoc by (apply W4 in Ht; lia). rewrite decide_False, Nat.add_0_r by congruence. eapply get_at_mono; [exact Hl|by eapply W5].
Qed.

Lemma walk_run ls s : sys_run raw ls sys_start = Some s -> walk ls s.
Proof.
  revert s. induction ls as [|lb ls IH] using rev_ind; intros s Hr; [injection Hr as <-; split; cbn; try done; lia|].
  apply sys_run_snoc in Hr as (s1 & Hr & Hst). eapply walk_next; [by apply IH|exact Hst].
Qed.

(** C24: Lookups never wait. Whatever the other threads do, and also when the thread that
    holds the lock has stopped, a lookup that has not returned can make its next step, and it
    returns within three steps per entry of the chain. *)
Theorem get_wait_free (ls : list label) (s : sys) (t : nat) (th : thread) (key : Z) :
  sys_run raw ls sys_start = Some s -> threads s !! t = Some th -> th_op th = CGet key ->
  (exists r, th_pc th = Done r) \/
  ((own_steps t (th_start th) ls < 3 * length (slots (mem s)))%nat /\ is_Some (sys_step raw (Step t) s)).
Proof.
  intros Hr Ht Ho. pose proof (wk_get _ _ (walk_run _ _ Hr) _ _ _ Ht Ho) as Hat. destruct (get_at_can key _ _ _ Hat) as [?|[Hn [[m p] Hst]]]; [by left|right].
  split; [done|]. cbn. rewrite Ht. cbn. rewrite Ho, Hst. by eexists.
Qed.

End lin.

(** Memory that was zero. *)
Definition no_raw (n : nat) : Z := 0.

(** [n] steps of one thread. *)
Definition solo (t n : nat) : list label := replicate n (Step t).

(** A lookup of key 1 that reads its first value before an insertion of key 1 and the rest after it. *)
Definition overlap : list label :=
  [Invoke 0 (CGet 1); Invoke 1 (CPut 1 5)] ++ solo 0 1 ++ solo 1 13 ++ solo 0 2.

(** In it the lookup finds that the value has changed and returns 0, which is right for the moment
    it began. *)
Lemma clht_linearizable_witness :
  exists s, sys_run no_raw overlap sys_start = Some s /\ threads s !! 0%nat = Some (mkTh (CGet 1) (Done 0) 0) /\
    linearized overlap (past s) 0 (CGet 1) 0 0.
Proof.
  destruct (sys_run no_raw overlap sys_start) as [s|] eqn:E; [|vm_compute in E; discriminate]. exists s. split; [done|].
  assert (Ht : threads s !! 0%nat = Some (mkTh (CGet 1) (Done 0) 0)) by (vm_compute in E; injection E as <-; reflexivity).
  split; [exact Ht|]. assert (Hd : distinct_values no_raw overlap) by (split; [|split; [|split]]; [apply (bool_decide_unpack _); vm_compute; exact I..|]; intros n; apply (bool_decide_unpack _); vm_compute; exact I).
  destruct (clht_linearizable no_raw overlap s Hd E) as (_ & _ & H & _). exact (proj2 (H _ _ _ Ht eq_refl)).
Defined.

(** C25: Without that assumption a lookup can return a value its key never had. Key 2 with value 7
    has been removed again; a lookup of key 1 reads the value 7 that is left in the entry; key 1 is
    inserted there with value 5, and the lookup reads the key; key 1 is removed and key 3 inserted,
    with value 7 again, which the lookup takes for the value of key 1. *)
Theorem get_aba (raw : nat -> Z) :
  let ls := [Invoke 1 (CPut 2 7)] ++ solo 1 13 ++ [Invoke 1 (CRemove 2)] ++ solo 1 6 ++
            [Invoke 0 (CGet 1)] ++ solo 0 1 ++ [Invoke 1 (CPut 1 5)] ++ solo 1 13 ++ solo 0 1 ++
            [Invoke 1 (CRemove 1)] ++ solo 1 6 ++ [Invoke 1 (CPut 3 7)] ++ solo 1 13 ++ solo 0 1 in
  exists s, sys_run raw ls sys_start = Some s /\ (th_pc <$> threads s !! 0%nat) = Some (Done 7) /\
    Forall (fun M => M !! 1 = None \/ M !! 1 = Some 5) (past s).
Proof.
  cbv zeta. match goal with |- exists s, ?r = Some s /\ _ => destruct r as [s|] eqn:E; [|vm_compute in E; discriminate] end.
  exists s. split; [done|]. vm_compute in E. injection E as <-. split; [reflexivity|].
  apply (bool_decide_unpack _). vm_compute. done.
Qed.


(** An insertion that holds the lock does not move; the lookup goes on. *)
Definition stalled : list label := [Invoke 1 (CPut 1 5)] ++ solo 1 8 ++ [Invoke 0 (CGet 1)] ++ solo 0 4.

Lemma get_wait_free_witness :
  exists s, sys_run no_raw stalled sys_start = Some s /\ lck (mem s) <> LOCK_FREE /\ is_Some (sys_step no_raw (Step 0) s).
Proof.
  destruct (sys_run no_raw stalled sys_start) as [s|] eqn:E; [|vm_compute in E; discriminate].
  exists s. split; [done|]. assert (Ht : threads s !! 0%nat = Some (mkTh (CGet 1) (GVal 2) 9)) by (vm_compute in E; injection E as <-; reflexivity).
  split; [vm_compute in E; injection E as <-; discriminate|].
  destruct (get_wait_free no_raw stalled s 0 _ 1 E Ht eq_refl) as [(r & Hp)|[_ H]]; [discriminate|exact H].
Defined.
