(* ===== verification/Pptr.v ===== *)
(** * Configuration and position-independent pointers of Ralloc

    [src/ralloc/src/pm_config.hpp] and [src/ralloc/src/pptr.hpp]: the constants of the
    allocator, the encoding of a pointer as a signed distance from the word that holds it
    ([pptr], [atomic_pptr]), and the byte-addressed memory the encoded words live in. An
    address is a [Z]; a [pptr] word is a 64-bit [Z]. *)

From S2P Require Import Prelude.

(** ** [pm_config.hpp] *)

(** [enum RegionIndex] *)
Inductive RegionIndex := DESC_IDX | SB_IDX | META_IDX.

#[export] Instance RegionIndex_eq_dec : EqDecision RegionIndex.
Proof. solve_decision. Defined.

Definition MAX_DESC_AMOUNT_BITS : Z := 24.
Definition MIN_SB_REGION_SIZE : Z := 1 * 1024 * 1024 * 1024.
Definition SB_REGION_EXPAND_SIZE : Z := MIN_SB_REGION_SIZE.
Definition MAX_ROOTS : Z := 1024.

Definition CACHELINE_SIZE : Z := 64.
Definition PAGESIZE : Z := 4096.

Definition MAX_SZ_IDX : Z := 40.
Definition MAX_SZ : Z := Z.shiftl 1 13 + Z.shiftl 1 11 * 3.
Definition SBSIZE : Z := 16 * PAGESIZE.
Definition DESCSIZE : Z := CACHELINE_SIZE.
Definition SB_SHIFT : Z := 16.
Definition DESC_SHIFT : Z := 6.

Definition MAX_DESC_AMOUNT : Z := Z.shiftl 1 MAX_DESC_AMOUNT_BITS.
Definition MAX_DESC_OFFSET_BITS : Z := MAX_DESC_AMOUNT_BITS + 6.
Definition MAX_DESC_OFFSET_MASK : Z := Z.shiftl 1 MAX_DESC_OFFSET_BITS - 1.
Definition MAX_SB_AMOUNT : Z := MAX_DESC_AMOUNT.
Definition MAX_SB_REGION_SIZE : Z := SBSIZE * MAX_SB_AMOUNT.

Definition PPTR_PATTERN_POS : Z := 0x52b0.
Definition PPTR_PATTERN_NEG : Z := 0x52b1.
Definition PPTR_PATTERN_SHIFT : Z := 16.
Definition PPTR_PATTERN_MASK : Z := Z.shiftl 1 PPTR_PATTERN_SHIFT - 2.

(** ** [pptr.hpp] *)

Definition is_null_pptr (off : Z) : bool := off =? PPTR_PATTERN_POS.

Definition is_valid_pptr (off : Z) : bool :=
  Z.land off PPTR_PATTERN_MASK =? PPTR_PATTERN_POS.

(** [to_pptr_off(v, p)]: the word stored at address [p] for the pointer [v]. *)
Definition to_pptr_off (v p : Z) : Z :=
  if v =? 0 then PPTR_PATTERN_POS
  else if p <? v then
    Z.lor (u64 (Z.shiftl (u64 (v - p)) PPTR_PATTERN_SHIFT)) PPTR_PATTERN_POS
  else
    Z.lor (u64 (Z.shiftl (u64 (p - v)) PPTR_PATTERN_SHIFT)) PPTR_PATTERN_NEG.

(** [from_pptr_off(off, p)]: the pointer meant by the word [off] held at address [p]. *)
Definition from_pptr_off (off p : Z) : Z :=
  if negb (is_valid_pptr off) || is_null_pptr off then 0
  else if Z.land off 1 =? 1 then u64 (p - Z.shiftr off PPTR_PATTERN_SHIFT)
  else u64 (p + Z.shiftr off PPTR_PATTERN_SHIFT).

(** [pptr] and [atomic_pptr] keep one word; an object is the pair of its address and word.
    The copy constructor and the copy assignment re-encode the target for the new place. *)
Definition pptr_copy (off_src src dst : Z) : Z := to_pptr_off (from_pptr_off off_src src) dst.

(** [operator==] of two [pptr]s, and against [nullptr] *)
Definition pptr_eq (off1 p1 off2 p2 : Z) : bool := from_pptr_off off1 p1 =? from_pptr_off off2 p2.
Definition pptr_eq_null (off : Z) : bool := is_null_pptr off.

(** [atomic_pptr::compare_exchange_strong/weak]: the outcome, the updated [expected] and
    the new word. A weak exchange may also fail spuriously; its callers loop. *)
Definition atomic_pptr_cas (off p expected desired : Z) : bool * Z * Z :=
  let old_off := to_pptr_off expected p in
  let new_off := to_pptr_off desired p in
  if off =? old_off then (true, expected, new_off)
  else (false, if is_null_pptr off then 0 else from_pptr_off off p, off).

(** ** The encoding is a round trip *)

(** A word whose low 16 bits are a tag, as a sum. *)
Lemma lor_tag a t : 0 <= a -> 0 <= t < 2 ^ 16 -> Z.lor (Z.shiftl a 16) t = a * 2 ^ 16 + t.
Proof.
  intros Ha Ht.
  assert (D : Z.land (Z.shiftl a 16) t = 0).
  { apply Z.bits_inj'. intros n Hn. rewrite Z.land_spec, Z.bits_0.
    destruct (Z.lt_ge_cases n 16).
    - now rewrite Z.shiftl_spec_low by lia.
    - rewrite (bits_above t 16 n) by lia. apply andb_false_r. }
  rewrite <- Z.lxor_lor, <- Z.add_nocarry_lxor, Z.shiftl_mul_pow2 by (assumption || lia). lia.
Qed.

Lemma shiftr_tag a t : 0 <= t < 2 ^ 16 -> Z.shiftr (a * 2 ^ 16 + t) 16 = a.
Proof. intros Ht. rewrite Z.shiftr_div_pow2 by lia. rewrite Z.div_add_l, Z.div_small; lia. Qed.

Lemma land_tag a t m : 0 <= t < 2 ^ 16 -> 0 <= m < 2 ^ 16 ->
  Z.land (a * 2 ^ 16 + t) m = Z.land t m.
Proof.
  intros Ht Hm. apply Z.bits_inj'. intros n Hn. rewrite !Z.land_spec.
  destruct (Z.lt_ge_cases n 16).
  - f_equal. rewrite <- (Z.mod_pow2_bits_low (a * 2 ^ 16 + t) 16 n) by lia.
    rewrite Z.add_comm, Z.mod_add, Z.mod_small by lia. done.
  - rewrite (bits_above m 16 n) by lia. now rewrite !andb_false_r.
Qed.

Lemma to_pptr_off_pos v p : 0 <= p < v -> v < 2 ^ 48 ->
  to_pptr_off v p = (v - p) * 2 ^ 16 + PPTR_PATTERN_POS.
Proof.
  intros Hv Hp. unfold to_pptr_off, PPTR_PATTERN_SHIFT.
  rewrite (proj2 (Z.eqb_neq v 0)), (proj2 (Z.ltb_lt p v)) by lia.
  rewrite (u64_small (v - p)), (u64_small (Z.shiftl _ _)), lor_tag;
    try (unfold PPTR_PATTERN_POS; lia); rewrite ?Z.shiftl_mul_pow2; lia.
Qed.

Lemma to_pptr_off_neg v p : 0 < v <= p -> p < 2 ^ 48 ->
  to_pptr_off v p = (p - v) * 2 ^ 16 + PPTR_PATTERN_NEG.
Proof.
  intros Hv Hp. unfold to_pptr_off, PPTR_PATTERN_SHIFT.
  rewrite (proj2 (Z.eqb_neq v 0)), (proj2 (Z.ltb_ge p v)) by lia.
  rewrite (u64_small (p - v)), (u64_small (Z.shiftl _ _)), lor_tag;
    try (unfold PPTR_PATTERN_NEG; lia); rewrite ?Z.shiftl_mul_pow2; lia.
Qed.

Lemma is_valid_tag a t : 0 <= t < 2 ^ 16 -> is_valid_pptr (a * 2 ^ 16 + t) = is_valid_pptr t.
Proof.
  intros Ht. unfold is_valid_pptr. rewrite land_tag; [done|lia|].
  unfold PPTR_PATTERN_MASK, PPTR_PATTERN_SHIFT. rewrite Z.shiftl_mul_pow2; lia.
Qed.

Lemma from_to_pptr v p : 0 <= v < 2 ^ 48 -> 0 <= p < 2 ^ 48 ->
  from_pptr_off (to_pptr_off v p) p = v.
Proof.
  intros Hv Hp. destruct (decide (v = 0)) as [->|N]; [done|].
  destruct (Z.lt_ge_cases p v) as [L|L]; unfold from_pptr_off.
  - rewrite to_pptr_off_pos by lia. change PPTR_PATTERN_SHIFT with 16.
    rewrite is_valid_tag, shiftr_tag, land_tag by (unfold PPTR_PATTERN_POS; lia).
    change (Z.land PPTR_PATTERN_POS 1 =? 1) with false.
    change (is_valid_pptr PPTR_PATTERN_POS) with true.
    replace (is_null_pptr _) with false; cbn [negb orb].
    + rewrite u64_small; lia.
    + symmetry. apply Z.eqb_neq. lia.
  - rewrite to_pptr_off_neg by lia. change PPTR_PATTERN_SHIFT with 16.
    rewrite is_valid_tag, shiftr_tag, land_tag by (unfold PPTR_PATTERN_NEG; lia).
    change (Z.land PPTR_PATTERN_NEG 1 =? 1) with true.
    change (is_valid_pptr PPTR_PATTERN_NEG) with true.
    replace (is_null_pptr _) with false; cbn [negb orb].
    + rewrite u64_small; lia.
    + symmetry. apply Z.eqb_neq. unfold PPTR_PATTERN_POS, PPTR_PATTERN_NEG. lia.
Qed.

Lemma to_pptr_off_range v p : 0 <= v < 2 ^ 48 -> 0 <= p < 2 ^ 48 ->
  0 <= to_pptr_off v p < 2 ^ 64.
Proof.
  intros Hv Hp. destruct (decide (v = 0)) as [->|N]; [done|].
  destruct (Z.lt_ge_cases p v).
  - rewrite to_pptr_off_pos by lia. unfold PPTR_PATTERN_POS. lia.
  - rewrite to_pptr_off_neg by lia. unfold PPTR_PATTERN_NEG. lia.
Qed.

Lemma to_pptr_off_inj p v1 v2 : 0 <= v1 < 2 ^ 48 -> 0 <= v2 < 2 ^ 48 -> 0 <= p < 2 ^ 48 ->
  to_pptr_off v1 p = to_pptr_off v2 p -> v1 = v2.
Proof.
  intros H1 H2 Hp E. rewrite <- (from_to_pptr v1 p), <- (from_to_pptr v2 p), E; lia.
Qed.

Lemma is_null_to_pptr v p : 0 <= v < 2 ^ 48 -> 0 <= p < 2 ^ 48 ->
  is_null_pptr (to_pptr_off v p) = (v =? 0).
Proof.
  intros Hv Hp. destruct (Z.eqb_spec v 0) as [->|N]; [done|]. apply Z.eqb_neq. intros E.
  apply N. apply (to_pptr_off_inj p); [lia..|]. now rewrite E.
Qed.

(** A word stored by [to_pptr_off] is exchanged exactly when it means the expected pointer. *)
Lemma atomic_pptr_cas_spec p cur expected desired :
  0 <= p < 2 ^ 48 -> 0 <= cur < 2 ^ 48 -> 0 <= expected < 2 ^ 48 ->
  atomic_pptr_cas (to_pptr_off cur p) p expected desired =
  if cur =? expected then (true, expected, to_pptr_off desired p)
  else (false, cur, to_pptr_off cur p).
Proof.
  intros Hp Hc He. unfold atomic_pptr_cas. destruct (Z.eqb_spec cur expected) as [->|N].
  - now rewrite Z.eqb_refl.
  - rewrite (proj2 (Z.eqb_neq _ _)) by (intros E; apply N; now apply (to_pptr_off_inj p)).
    rewrite is_null_to_pptr, from_to_pptr by lia.
    destruct (Z.eqb_spec cur 0) as [->|]; done.
Qed.

(** ** Claims *)

(** C35: a [pptr] survives relocation. A pointer [v] stored in a
    word at [p] (both below 2^48, the assumption [pm_config.hpp] states about x86-64
    addresses) is read back as [v]; the stored word is a 64-bit value, null exactly for the
    null pointer; after the whole region moved by [d], the unchanged word read at its new
    place means the moved target, and a null stays null; and copying the [pptr] to another
    place [q] re-encodes it so that the copy means the same target. *)
Theorem pptr_position_independent v p q d :
  0 <= v < 2 ^ 48 -> 0 <= p < 2 ^ 48 -> 0 <= q < 2 ^ 48 ->
  0 <= p + d < 2 ^ 48 -> (v <> 0 -> 0 < v + d < 2 ^ 48) ->
  let w := to_pptr_off v p in
  0 <= w < 2 ^ 64 /\
  from_pptr_off w p = v /\
  (is_null_pptr w = true <-> v = 0) /\
  from_pptr_off w (p + d) = (if v =? 0 then 0 else v + d) /\
  from_pptr_off (pptr_copy w p q) q = v.
Proof.
  intros Hv Hp Hq Hpd Hvd w. subst w. repeat split; try now apply to_pptr_off_range.
  - now apply from_to_pptr.
  - rewrite is_null_to_pptr by lia. apply Z.eqb_eq.
  - rewrite is_null_to_pptr by lia. apply Z.eqb_eq.
  - destruct (Z.eqb_spec v 0) as [->|N]; [done|].
    transitivity (from_pptr_off (to_pptr_off (v + d) (p + d)) (p + d)).
    + f_equal. destruct (Z.lt_ge_cases p v).
      * rewrite !to_pptr_off_pos by lia. lia.
      * rewrite !to_pptr_off_neg by lia. lia.
    + apply from_to_pptr; lia.
  - unfold pptr_copy. rewrite (from_to_pptr v p), (from_to_pptr v q) by lia. done.
Qed.

Lemma pptr_position_independent_witness :
  from_pptr_off (to_pptr_off 0x7f0000010000 0x7f0000020000) 0x7f0000020000 = 0x7f0000010000 /\
  from_pptr_off (to_pptr_off 0x7f0000010000 0x7f0000020000) 0x7f1000020000 = 0x7f1000010000.
Proof.
  split.
  - apply (pptr_position_independent 0x7f0000010000 0x7f0000020000 0 0x1000000000); lia.
  - pose proof (pptr_position_independent 0x7f0000010000 0x7f0000020000 0 0x1000000000
      ltac:(lia) ltac:(lia) ltac:(lia) ltac:(lia) ltac:(lia)) as (_ & _ & _ & E & _).
    exact E.
Defined.
