(* ===== verification/ByteMem.v ===== *)
(** * Byte-addressed memory

    The superblock region of Ralloc is a zero-filled mapping in which the allocator links free
    blocks through their first eight bytes and the collector reads eight bytes at any offset.
    It is a finite map from addresses to bytes, absent bytes being zero. *)

From S2P Require Import Prelude Pptr.

Abbreviation bmem := (gmap Z Z).

Definition rd8 (m : bmem) (a : Z) : Z := default 0 (m !! a).

(** Little-endian reads and writes of [n] bytes. *)
Fixpoint rd (n : nat) (m : bmem) (a : Z) : Z :=
  match n with
  | O => 0
  | S n => rd8 m a + 256 * rd n m (a + 1)
  end.

Fixpoint wr (n : nat) (a v : Z) (m : bmem) : bmem :=
  match n with
  | O => m
  | S n => wr n (a + 1) (v / 256) (<[a := v mod 256]> m)
  end.

Definition rd64 (m : bmem) (a : Z) : Z := rd 8 m a.
Definition wr64 (a v : Z) (m : bmem) : bmem := wr 8 a v m.

(** [*(pptr<char>* )block] as a pointer, and [*(pptr<char>* )block = v]. *)
Definition ld_pptr (m : bmem) (p : Z) : Z := from_pptr_off (rd64 m p) p.
Definition st_pptr (p v : Z) (m : bmem) : bmem := wr64 p (to_pptr_off v p) m.

#[global] Arguments ld_pptr : simpl never.
#[global] Arguments st_pptr : simpl never.
#[global] Arguments rd64 : simpl never.
#[global] Arguments wr64 : simpl never.

(** [memcpy] and [memset] byte by byte *)
Definition cp_bytes (dst src n : Z) (m : bmem) : bmem :=
  foldl (fun m' i => <[dst + i := rd8 m (src + i)]> m') m (seqZ 0 n).
Definition set_bytes (dst c n : Z) (m : bmem) : bmem :=
  foldl (fun m' i => <[dst + i := c]> m') m (seqZ 0 n).

(** Every byte is in range. *)
Definition bmem_ok (m : bmem) : Prop := forall a, 0 <= rd8 m a < 256.

Lemma rd8_insert m a v b : rd8 (<[a := v]> m) b = if decide (a = b) then v else rd8 m b.
Proof. unfold rd8. case_decide; [subst; now rewrite lookup_insert_eq|now rewrite lookup_insert_ne]. Qed.

Lemma rd8_wr n a v m b : (b < a \/ a + Z.of_nat n <= b) -> rd8 (wr n a v m) b = rd8 m b.
Proof.
  revert a v m. induction n as [|n IH]; intros a v m Hb; [done|]. cbn [wr].
  rewrite IH by lia. rewrite rd8_insert. case_decide; [lia|done].
Qed.

Lemma rd_wr_ne n k a v m b : (b + Z.of_nat k <= a \/ a + Z.of_nat n <= b) -> rd k (wr n a v m) b = rd k m b.
Proof.
  revert b. induction k as [|k IH]; intros b Hb; [done|]. cbn [rd].
  rewrite rd8_wr, IH by lia. done.
Qed.

Lemma rd_wr_eq n a v m : 0 <= v < 256 ^ Z.of_nat n -> rd n (wr n a v m) a = v.
Proof.
  revert a v m. induction n as [|n IH]; intros a v m Hv.
  - change (256 ^ Z.of_nat 0) with 1 in Hv. cbn. lia.
  - cbn [wr rd]. rewrite rd8_wr by lia. rewrite rd8_insert. case_decide; [|done].
    rewrite Nat2Z.inj_succ, Z.pow_succ_r in Hv by lia.
    rewrite IH.
    + pose proof (Z.div_mod v 256). lia.
    + split; [apply Z.div_pos; lia|apply Z.div_lt_upper_bound; lia].
Qed.

Lemma rd64_wr64_eq a v m : 0 <= v < 2 ^ 64 -> rd64 (wr64 a v m) a = v.
Proof. intros Hv. apply rd_wr_eq. exact Hv. Qed.

Lemma rd64_wr64_ne a v m b : (b + 8 <= a \/ a + 8 <= b) -> rd64 (wr64 a v m) b = rd64 m b.
Proof. intros H. apply rd_wr_ne. lia. Qed.

Lemma ld_st_pptr_eq p v m : 0 <= p < 2 ^ 48 -> 0 <= v < 2 ^ 48 -> ld_pptr (st_pptr p v m) p = v.
Proof.
  intros Hp Hv. unfold ld_pptr, st_pptr. rewrite rd64_wr64_eq by now apply to_pptr_off_range.
  now apply from_to_pptr.
Qed.

Lemma ld_st_pptr_ne p v m q : (q + 8 <= p \/ p + 8 <= q) -> ld_pptr (st_pptr p v m) q = ld_pptr m q.
Proof. intros H. unfold ld_pptr, st_pptr. now rewrite rd64_wr64_ne. Qed.

Lemma rd8_wr_range n a v m b : (forall x, 0 <= rd8 m x < 256) -> 0 <= rd8 (wr n a v m) b < 256.
Proof.
  revert a v m. induction n as [|n IH]; intros a v m Hm; [apply Hm|]. cbn [wr]. apply IH.
  intros x. rewrite rd8_insert. case_decide; [apply Z.mod_pos_bound; lia|apply Hm].
Qed.

(** ** Singly linked lists of blocks *)

(** From [p] the links visit exactly the blocks [l]; nothing is said of the last link. *)
Fixpoint chain (m : bmem) (p : Z) (l : list Z) : Prop :=
  match l with
  | [] => True
  | x :: l' => p = x /\ chain m (ld_pptr m x) l'
  end.

Lemma chain_ext m m' p l : (forall x, x ∈ l -> ld_pptr m' x = ld_pptr m x) -> chain m p l -> chain m' p l.
Proof.
  revert p. induction l as [|x l IH]; intros p E; [done|]. cbn. intros [-> C]. split; [done|].
  rewrite E by left. apply IH; [|done]. intros y Hy. apply E. now right.
Qed.

(** Blocks two of which are never less than eight bytes apart. *)
Definition apart (x y : Z) : Prop := x + 8 <= y \/ y + 8 <= x.

Lemma chain_st m p l q v : (forall x, x ∈ l -> apart x q) -> chain m p l -> chain (st_pptr q v m) p l.
Proof. intros A. apply chain_ext. intros x Hx. apply ld_st_pptr_ne. destruct (A x Hx); lia. Qed.

(** A store at the last block leaves the list of visited blocks as it is. *)
Lemma chain_st_last m p l q v : (forall x, x ∈ l -> apart x q) -> chain m p (l ++ [q]) ->
  chain (st_pptr q v m) p (l ++ [q]).
Proof.
  revert p. induction l as [|x l IH]; intros p A; cbn; [done|]. intros [-> C]. split; [done|].
  rewrite ld_st_pptr_ne by (destruct (A x ltac:(left)); lia).
  apply IH; [|done]. intros y Hy. apply A. now right.
Qed.

Lemma chain_app m p l1 x l2 : chain m p (l1 ++ x :: l2) <-> chain m p (l1 ++ [x]) /\ chain m (ld_pptr m x) l2.
Proof.
  revert p. induction l1 as [|y l1 IH]; intros p; cbn.
  - tauto.
  - rewrite IH. tauto.
Qed.
