(* ===== verification/SizeClass.v ===== *)
(** * Size classes of Ralloc

    [src/ralloc/src/SizeClass.hpp] and [SizeClass.cpp]: the table of block sizes taken from
    jemalloc, the classes it defines and the lookup array from a request to its class. *)

From S2P Require Import Prelude Pptr.

(** ** The table *)

(** One [SC(...)] line of [SIZE_CLASSES]. *)
Record SC_row := SC {
  index : Z; lg_grp : Z; lg_delta : Z; ndelta : Z;
  psz : bool; bin : bool; pgs : Z; lg_delta_lookup : option Z }.

(** [(1U << lg_grp) + (ndelta << lg_delta)] *)
Definition SC_block_size (r : SC_row) : Z := Z.shiftl 1 (lg_grp r) + Z.shiftl (ndelta r) (lg_delta r).

(** [SIZE_CLASSES] *)
Definition SIZE_CLASSES : list SC_row :=
  [ SC 0 3 3 0 false true 1 (Some 3);
    SC 1 3 3 1 false true 1 (Some 3);
    SC 2 3 3 2 false true 3 (Some 3);
    SC 3 3 3 3 false true 1 (Some 3);
    SC 4 5 3 1 false true 5 (Some 3);
    SC 5 5 3 2 false true 3 (Some 3);
    SC 6 5 3 3 false true 7 (Some 3);
    SC 7 5 3 4 false true 1 (Some 3);
    SC 8 6 4 1 false true 5 (Some 4);
    SC 9 6 4 2 false true 3 (Some 4);
    SC 10 6 4 3 false true 7 (Some 4);
    SC 11 6 4 4 false true 1 (Some 4);
    SC 12 7 5 1 false true 5 (Some 5);
    SC 13 7 5 2 false true 3 (Some 5);
    SC 14 7 5 3 false true 7 (Some 5);
    SC 15 7 5 4 false true 1 (Some 5);
    SC 16 8 6 1 false true 5 (Some 6);
    SC 17 8 6 2 false true 3 (Some 6);
    SC 18 8 6 3 false true 7 (Some 6);
    SC 19 8 6 4 false true 1 (Some 6);
    SC 20 9 7 1 false true 5 (Some 7);
    SC 21 9 7 2 false true 3 (Some 7);
    SC 22 9 7 3 false true 7 (Some 7);
    SC 23 9 7 4 false true 1 (Some 7);
    SC 24 10 8 1 false true 5 (Some 8);
    SC 25 10 8 2 false true 3 (Some 8);
    SC 26 10 8 3 false true 7 (Some 8);
    SC 27 10 8 4 false true 1 (Some 8);
    SC 28 11 9 1 false true 5 (Some 9);
    SC 29 11 9 2 false true 3 (Some 9);
    SC 30 11 9 3 false true 7 (Some 9);
    SC 31 11 9 4 true true 1 (Some 9);
    SC 32 12 10 1 false true 5 None;
    SC 33 12 10 2 false true 3 None;
    SC 34 12 10 3 false true 7 None;
    SC 35 12 10 4 true true 2 None;
    SC 36 13 11 1 false true 5 None;
    SC 37 13 11 2 true true 3 None;
    SC 38 13 11 3 false true 7 None;
    SC 39 13 11 4 true false 0 None;
    SC 40 14 12 1 true false 0 None;
    SC 41 14 12 2 true false 0 None;
    SC 42 14 12 3 true false 0 None;
    SC 43 14 12 4 true false 0 None;
    SC 44 15 13 1 true false 0 None;
    SC 45 15 13 2 true false 0 None;
    SC 46 15 13 3 true false 0 None;
    SC 47 15 13 4 true false 0 None;
    SC 48 16 14 1 true false 0 None;
    SC 49 16 14 2 true false 0 None;
    SC 50 16 14 3 true false 0 None;
    SC 51 16 14 4 true false 0 None;
    SC 52 17 15 1 true false 0 None;
    SC 53 17 15 2 true false 0 None;
    SC 54 17 15 3 true false 0 None;
    SC 55 17 15 4 true false 0 None;
    SC 56 18 16 1 true false 0 None;
    SC 57 18 16 2 true false 0 None;
    SC 58 18 16 3 true false 0 None;
    SC 59 18 16 4 true false 0 None;
    SC 60 19 17 1 true false 0 None;
    SC 61 19 17 2 true false 0 None;
    SC 62 19 17 3 true false 0 None;
    SC 63 19 17 4 true false 0 None;
    SC 64 20 18 1 true false 0 None;
    SC 65 20 18 2 true false 0 None;
    SC 66 20 18 3 true false 0 None;
    SC 67 20 18 4 true false 0 None;
    SC 68 21 19 1 true false 0 None;
    SC 69 21 19 2 true false 0 None;
    SC 70 21 19 3 true false 0 None;
    SC 71 21 19 4 true false 0 None;
    SC 72 22 20 1 true false 0 None;
    SC 73 22 20 2 true false 0 None;
    SC 74 22 20 3 true false 0 None;
    SC 75 22 20 4 true false 0 None;
    SC 76 23 21 1 true false 0 None;
    SC 77 23 21 2 true false 0 None;
    SC 78 23 21 3 true false 0 None;
    SC 79 23 21 4 true false 0 None;
    SC 80 24 22 1 true false 0 None;
    SC 81 24 22 2 true false 0 None;
    SC 82 24 22 3 true false 0 None;
    SC 83 24 22 4 true false 0 None;
    SC 84 25 23 1 true false 0 None;
    SC 85 25 23 2 true false 0 None;
    SC 86 25 23 3 true false 0 None;
    SC 87 25 23 4 true false 0 None;
    SC 88 26 24 1 true false 0 None;
    SC 89 26 24 2 true false 0 None;
    SC 90 26 24 3 true false 0 None;
    SC 91 26 24 4 true false 0 None;
    SC 92 27 25 1 true false 0 None;
    SC 93 27 25 2 true false 0 None;
    SC 94 27 25 3 true false 0 None;
    SC 95 27 25 4 true false 0 None;
    SC 96 28 26 1 true false 0 None;
    SC 97 28 26 2 true false 0 None;
    SC 98 28 26 3 true false 0 None;
    SC 99 28 26 4 true false 0 None;
    SC 100 29 27 1 true false 0 None;
    SC 101 29 27 2 true false 0 None;
    SC 102 29 27 3 true false 0 None;
    SC 103 29 27 4 true false 0 None;
    SC 104 30 28 1 true false 0 None;
    SC 105 30 28 2 true false 0 None;
    SC 106 30 28 3 true false 0 None;
    SC 107 30 28 4 true false 0 None;
    SC 108 31 29 1 true false 0 None;
    SC 109 31 29 2 true false 0 None;
    SC 110 31 29 3 true false 0 None;
    SC 111 31 29 4 true false 0 None;
    SC 112 32 30 1 true false 0 None;
    SC 113 32 30 2 true false 0 None;
    SC 114 32 30 3 true false 0 None;
    SC 115 32 30 4 true false 0 None;
    SC 116 33 31 1 true false 0 None;
    SC 117 33 31 2 true false 0 None;
    SC 118 33 31 3 true false 0 None;
    SC 119 33 31 4 true false 0 None;
    SC 120 34 32 1 true false 0 None;
    SC 121 34 32 2 true false 0 None;
    SC 122 34 32 3 true false 0 None;
    SC 123 34 32 4 true false 0 None;
    SC 124 35 33 1 true false 0 None;
    SC 125 35 33 2 true false 0 None;
    SC 126 35 33 3 true false 0 None;
    SC 127 35 33 4 true false 0 None;
    SC 128 36 34 1 true false 0 None;
    SC 129 36 34 2 true false 0 None;
    SC 130 36 34 3 true false 0 None;
    SC 131 36 34 4 true false 0 None;
    SC 132 37 35 1 true false 0 None;
    SC 133 37 35 2 true false 0 None;
    SC 134 37 35 3 true false 0 None;
    SC 135 37 35 4 true false 0 None;
    SC 136 38 36 1 true false 0 None;
    SC 137 38 36 2 true false 0 None;
    SC 138 38 36 3 true false 0 None;
    SC 139 38 36 4 true false 0 None;
    SC 140 39 37 1 true false 0 None;
    SC 141 39 37 2 true false 0 None;
    SC 142 39 37 3 true false 0 None;
    SC 143 39 37 4 true false 0 None;
    SC 144 40 38 1 true false 0 None;
    SC 145 40 38 2 true false 0 None;
    SC 146 40 38 3 true false 0 None;
    SC 147 40 38 4 true false 0 None;
    SC 148 41 39 1 true false 0 None;
    SC 149 41 39 2 true false 0 None;
    SC 150 41 39 3 true false 0 None;
    SC 151 41 39 4 true false 0 None;
    SC 152 42 40 1 true false 0 None;
    SC 153 42 40 2 true false 0 None;
    SC 154 42 40 3 true false 0 None;
    SC 155 42 40 4 true false 0 None;
    SC 156 43 41 1 true false 0 None;
    SC 157 43 41 2 true false 0 None;
    SC 158 43 41 3 true false 0 None;
    SC 159 43 41 4 true false 0 None;
    SC 160 44 42 1 true false 0 None;
    SC 161 44 42 2 true false 0 None;
    SC 162 44 42 3 true false 0 None;
    SC 163 44 42 4 true false 0 None;
    SC 164 45 43 1 true false 0 None;
    SC 165 45 43 2 true false 0 None;
    SC 166 45 43 3 true false 0 None;
    SC 167 45 43 4 true false 0 None;
    SC 168 46 44 1 true false 0 None;
    SC 169 46 44 2 true false 0 None;
    SC 170 46 44 3 true false 0 None;
    SC 171 46 44 4 true false 0 None;
    SC 172 47 45 1 true false 0 None;
    SC 173 47 45 2 true false 0 None;
    SC 174 47 45 3 true false 0 None;
    SC 175 47 45 4 true false 0 None;
    SC 176 48 46 1 true false 0 None;
    SC 177 48 46 2 true false 0 None;
    SC 178 48 46 3 true false 0 None;
    SC 179 48 46 4 true false 0 None;
    SC 180 49 47 1 true false 0 None;
    SC 181 49 47 2 true false 0 None;
    SC 182 49 47 3 true false 0 None;
    SC 183 49 47 4 true false 0 None;
    SC 184 50 48 1 true false 0 None;
    SC 185 50 48 2 true false 0 None;
    SC 186 50 48 3 true false 0 None;
    SC 187 50 48 4 true false 0 None;
    SC 188 51 49 1 true false 0 None;
    SC 189 51 49 2 true false 0 None;
    SC 190 51 49 3 true false 0 None;
    SC 191 51 49 4 true false 0 None;
    SC 192 52 50 1 true false 0 None;
    SC 193 52 50 2 true false 0 None;
    SC 194 52 50 3 true false 0 None;
    SC 195 52 50 4 true false 0 None;
    SC 196 53 51 1 true false 0 None;
    SC 197 53 51 2 true false 0 None;
    SC 198 53 51 3 true false 0 None;
    SC 199 53 51 4 true false 0 None;
    SC 200 54 52 1 true false 0 None;
    SC 201 54 52 2 true false 0 None;
    SC 202 54 52 3 true false 0 None;
    SC 203 54 52 4 true false 0 None;
    SC 204 55 53 1 true false 0 None;
    SC 205 55 53 2 true false 0 None;
    SC 206 55 53 3 true false 0 None;
    SC 207 55 53 4 true false 0 None;
    SC 208 56 54 1 true false 0 None;
    SC 209 56 54 2 true false 0 None;
    SC 210 56 54 3 true false 0 None;
    SC 211 56 54 4 true false 0 None;
    SC 212 57 55 1 true false 0 None;
    SC 213 57 55 2 true false 0 None;
    SC 214 57 55 3 true false 0 None;
    SC 215 57 55 4 true false 0 None;
    SC 216 58 56 1 true false 0 None;
    SC 217 58 56 2 true false 0 None;
    SC 218 58 56 3 true false 0 None;
    SC 219 58 56 4 true false 0 None;
    SC 220 59 57 1 true false 0 None;
    SC 221 59 57 2 true false 0 None;
    SC 222 59 57 3 true false 0 None;
    SC 223 59 57 4 true false 0 None;
    SC 224 60 58 1 true false 0 None;
    SC 225 60 58 2 true false 0 None;
    SC 226 60 58 3 true false 0 None;
    SC 227 60 58 4 true false 0 None;
    SC 228 61 59 1 true false 0 None;
    SC 229 61 59 2 true false 0 None;
    SC 230 61 59 3 true false 0 None;
    SC 231 61 59 4 true false 0 None;
    SC 232 62 60 1 true false 0 None;
    SC 233 62 60 2 true false 0 None;
    SC 234 62 60 3 true false 0 None ].

Record SizeClassData := mkSizeClassData {
  sc_block_size : Z;      (* block_size *)
  sc_sb_size : Z;         (* sb_size *)
  sc_block_num : Z;       (* block_num *)
  sc_cache_block_num : Z  (* cache_block_num *) }.

(** [SIZE_CLASS_bin_yes(block_size, pages)] of [SizeClass.cpp]; [bin_no] expands to nothing. *)
Definition SIZE_CLASS_bin (r : SC_row) : list SizeClassData :=
  if bin r then
    let bs := SC_block_size r in
    [mkSizeClassData bs SBSIZE (SBSIZE / bs) (SBSIZE / bs)]
  else [].

(** The member initialiser of [sizeclasses]: class 0 is reserved for large blocks. *)
Definition sizeclasses : list SizeClassData :=
  mkSizeClassData 0 0 0 0 :: (SIZE_CLASSES ≫= SIZE_CLASS_bin).

Definition get_sizeclass_by_idx (idx : Z) : SizeClassData :=
  default (mkSizeClassData 0 0 0 0) (sizeclasses !! Z.to_nat idx).

(** [while (lookupIdx <= block_size) sizeclass_lookup[lookupIdx++] = sc_idx;] as the number
    of entries it appends. *)
Definition lookup_fill (lookup : list Z) (sc_idx block_size : Z) : list Z :=
  lookup ++ replicate (Z.to_nat (block_size + 1 - Z.of_nat (length lookup))) sc_idx.

(** The body of the constructor [SizeClass::SizeClass()]: the lookup array, filled from index
    0 upwards by the classes 1 to [MAX_SZ_IDX - 1]. *)
Definition sizeclass_lookup : list Z :=
  foldl (fun lookup sc_idx => lookup_fill lookup sc_idx (sc_block_size (get_sizeclass_by_idx sc_idx)))
    [] (seqZ 1 (MAX_SZ_IDX - 1)).

Definition get_sizeclass (size : Z) : option Z := sizeclass_lookup !! Z.to_nat size.

(** ** Facts about the finite tables, established by evaluation *)

(** What every small class satisfies. *)
Definition class_ok (sc : Z) : bool :=
  let d := get_sizeclass_by_idx sc in
  let prev := get_sizeclass_by_idx (sc - 1) in
  (sc_block_size prev <? sc_block_size d) && (8 <=? sc_block_size d) &&
  (sc_block_size d mod 8 =? 0) && (sc_block_size d <=? MAX_SZ) && (sc_sb_size d =? SBSIZE) &&
  (sc_block_num d =? SBSIZE / sc_block_size d) && (sc_cache_block_num d =? sc_block_num d) &&
  (4 <=? sc_block_num d) && (sc_block_num d <=? 8192).

(** What every entry of the lookup array satisfies. *)
Definition entry_ok (e : Z * Z) : bool :=
  let '(size, sc) := e in
  let bs := sc_block_size (get_sizeclass_by_idx sc) in
  (1 <=? sc) && (sc <? MAX_SZ_IDX) && (size <=? bs) && (4 * bs <=? 5 * size + 32) &&
  ((sc =? 1) || (sc_block_size (get_sizeclass_by_idx (sc - 1)) <? size)).

(** The last size of the class below, plus one, is not much smaller than a block. *)
Definition waste_ok (sc : Z) : bool :=
  4 * sc_block_size (get_sizeclass_by_idx sc) <=?
  (if sc =? 1 then 32 else 5 * (sc_block_size (get_sizeclass_by_idx (sc - 1)) + 1) + 32).

Lemma all_classes_ok : forallb class_ok (seqZ 1 (MAX_SZ_IDX - 1)) = true /\
  forallb waste_ok (seqZ 1 (MAX_SZ_IDX - 1)) = true /\ sc_block_size (get_sizeclass_by_idx (MAX_SZ_IDX - 1)) = MAX_SZ.
Proof. vm_compute. repeat split. Qed.

Record small_class (sc : Z) (bs n : Z) : Prop := {
  scl_range : 1 <= sc < MAX_SZ_IDX;
  scl_bs : sc_block_size (get_sizeclass_by_idx sc) = bs;
  scl_num : sc_block_num (get_sizeclass_by_idx sc) = n;
  scl_cache : sc_cache_block_num (get_sizeclass_by_idx sc) = n;
  scl_sb : sc_sb_size (get_sizeclass_by_idx sc) = SBSIZE;
  scl_min : 8 <= bs <= MAX_SZ;
  scl_align : bs mod 8 = 0;
  scl_n : n = SBSIZE / bs;
  scl_n_range : 4 <= n <= 8192;
  scl_prev : sc_block_size (get_sizeclass_by_idx (sc - 1)) < bs }.

Lemma small_class_intro sc : 1 <= sc < MAX_SZ_IDX ->
  small_class sc (sc_block_size (get_sizeclass_by_idx sc)) (sc_block_num (get_sizeclass_by_idx sc)).
Proof.
  intros Hsc. destruct all_classes_ok as [A _]. rewrite forallb_forall in A.
  specialize (A sc). rewrite <- list_elem_of_In, elem_of_seqZ in A. specialize (A ltac:(lia)).
  unfold class_ok in A. repeat rewrite andb_true_iff in A. destr.
  repeat match goal with
         | H : (_ <? _) = true |- _ => apply Z.ltb_lt in H
         | H : (_ <=? _) = true |- _ => apply Z.leb_le in H
         | H : (_ =? _) = true |- _ => apply Z.eqb_eq in H
         end.
  constructor; auto; lia.
Qed.

(** The blocks of a class fit in a superblock. *)
Lemma small_class_fits sc bs n : small_class sc bs n -> n * bs <= SBSIZE.
Proof. intros C. rewrite (scl_n _ _ _ C). pose proof (scl_min _ _ _ C). rewrite Z.mul_comm. apply Z.mul_div_le. lia. Qed.

Lemma block_size_increasing a b : 1 <= a -> a <= b -> b < MAX_SZ_IDX ->
  sc_block_size (get_sizeclass_by_idx a) <= sc_block_size (get_sizeclass_by_idx b).
Proof.
  intros Ha Hab. pattern b. apply Zlt_lower_bound_ind with (z := a); [|done].
  clear b Hab. intros b IH Hab Hb. destruct (decide (a = b)) as [->|N]; [lia|].
  specialize (IH (b - 1) ltac:(lia) ltac:(lia)).
  pose proof (scl_prev _ _ _ (small_class_intro b ltac:(lia))). lia.
Qed.

(** The array after the first [k] classes: it ends with the blocks of class [k], and an entry is
    the least class that is large enough. *)
Lemma lookup_prefix k : (Z.of_nat k < MAX_SZ_IDX) ->
  let bs sc := sc_block_size (get_sizeclass_by_idx sc) in
  let l := foldl (fun lookup sc_idx => lookup_fill lookup sc_idx (bs sc_idx)) [] (seqZ 1 (Z.of_nat k)) in
  Z.of_nat (length l) = (match k with O => 0 | S _ => bs (Z.of_nat k) + 1 end) /\
  (forall i sc, l !! i = Some sc -> 1 <= sc <= Z.of_nat k /\ Z.of_nat i <= bs sc /\ (sc = 1 \/ bs (sc - 1) < Z.of_nat i)).
Proof.
  intros Hk bs. induction k as [|k IH]; [split; [done|]; intros i sc E; now destruct i|].
  destruct IH as [L E]; [lia|]. rewrite Nat2Z.inj_succ in *. unfold Z.succ in *.
  replace (seqZ 1 (Z.of_nat k + 1)) with (seqZ 1 (Z.of_nat k) ++ [1 + Z.of_nat k]) by (rewrite <- seqZ_S; f_equal; lia).
  rewrite foldl_app. cbn [foldl]. set (l := foldl _ _ _) in *. pose proof (small_class_intro (1 + Z.of_nat k) ltac:(lia)) as C.
  pose proof (scl_min _ _ _ C). pose proof (scl_prev _ _ _ C) as P. fold (bs (1 + Z.of_nat k)) (bs (1 + Z.of_nat k - 1)) in *.
  replace (1 + Z.of_nat k - 1) with (Z.of_nat k) in P by lia. rewrite Z.add_comm in P.
  unfold lookup_fill. rewrite length_app, length_replicate. rewrite (Z.add_comm 1 (Z.of_nat k)) in *.
  assert (Lk : Z.of_nat (length l) <= bs (Z.of_nat k + 1)) by (destruct k; lia).
  split; [rewrite Nat2Z.inj_add, Z2Nat.id by lia; lia|].
  intros i sc Hi. apply lookup_app_Some in Hi as [Hi|[Hi1 Hi2]].
  - destruct (E i sc Hi) as (? & ? & ?). split; [lia|done].
  - apply lookup_replicate in Hi2 as [-> Hi2]. split; [lia|]. split; [lia|].
    destruct k; [now left|right]. replace (Z.of_nat (S k) + 1 - 1) with (Z.of_nat (S k)) by lia. lia.
Qed.

Lemma sizeclass_lookup_prefix :
  Z.of_nat (length sizeclass_lookup) = MAX_SZ + 1 /\
  (forall i sc, sizeclass_lookup !! i = Some sc -> 1 <= sc <= MAX_SZ_IDX - 1 /\ Z.of_nat i <= sc_block_size (get_sizeclass_by_idx sc) /\
     (sc = 1 \/ sc_block_size (get_sizeclass_by_idx (sc - 1)) < Z.of_nat i)).
Proof.
  destruct all_classes_ok as (_ & _ & <-). unfold sizeclass_lookup.
  replace (MAX_SZ_IDX - 1) with (Z.of_nat (Z.to_nat (MAX_SZ_IDX - 1))) by reflexivity.
  exact (lookup_prefix (Z.to_nat (MAX_SZ_IDX - 1)) eq_refl).
Qed.

Lemma sizeclass_lookup_length : length sizeclass_lookup = Z.to_nat (MAX_SZ + 1).
Proof. destruct sizeclass_lookup_prefix as [L _]. lia. Qed.

Lemma get_sizeclass_entry size : 0 <= size <= MAX_SZ ->
  exists sc, get_sizeclass size = Some sc /\ entry_ok (size, sc) = true.
Proof.
  intros Hs. unfold get_sizeclass.
  destruct (lookup_lt_is_Some_2 sizeclass_lookup (Z.to_nat size)) as [sc E]; [rewrite sizeclass_lookup_length; lia|].
  exists sc. split; [done|]. destruct sizeclass_lookup_prefix as [_ P].
  destruct (P (Z.to_nat size) sc E) as (H1 & H2 & H3).
  rewrite Z2Nat.id in H2, H3 by lia. destruct all_classes_ok as (_ & A & _). rewrite forallb_forall in A. specialize (A sc).
  rewrite <- list_elem_of_In, elem_of_seqZ in A. specialize (A ltac:(lia)). apply Z.leb_le in A.
  unfold entry_ok. rewrite !andb_true_iff, orb_true_iff, !Z.leb_le, !Z.ltb_lt, Z.eqb_eq. split_and!; try lia.
  destruct (Z.eqb_spec sc 1) as [->|N]; [lia|]. destruct H3 as [?|H3]; [done|]. lia.
Qed.

(** ** Claims *)

(** C36: for every request of at most [MAX_SZ] bytes the lookup array built by
    the constructor holds a class [sc] in 1..39 whose blocks are large enough, no smaller
    class is, and rounding up wastes at most a quarter of the request plus 8 bytes. Every
    class's blocks are multiples of 8 bytes, at least 4 and at most 8192 of them fill a
    64 KiB superblock without overlapping its end, and the thread cache holds at most one
    superblock's worth. Requests above [MAX_SZ] are outside the array. *)
Theorem sizeclass_least size :
  0 <= size ->
  (size <= MAX_SZ ->
   exists sc bs n, get_sizeclass size = Some sc /\ small_class sc bs n /\
     size <= bs /\ 4 * bs <= 5 * size + 32 /\ n * bs <= SBSIZE < (n + 1) * bs /\
     forall sc', 1 <= sc' < MAX_SZ_IDX ->
       size <= sc_block_size (get_sizeclass_by_idx sc') -> sc <= sc') /\
  (MAX_SZ < size -> get_sizeclass size = None).
Proof.
  intros H0. split; intros Hs.
  - destruct (get_sizeclass_entry size) as (sc & E & K); [lia|].
    unfold entry_ok in K. rewrite !andb_true_iff, orb_true_iff, !Z.leb_le, !Z.ltb_lt, Z.eqb_eq in K. destr.
    pose proof (small_class_intro sc ltac:(lia)) as C. do 3 eexists.
    split; [exact E|]. split; [exact C|]. split; [assumption|]. split; [assumption|]. split.
    + split; [now apply small_class_fits in C|].
      rewrite (scl_n _ _ _ C) at 1. pose proof (scl_min _ _ _ C).
      set (b := sc_block_size _) in *. pose proof (Z.mul_succ_div_gt SBSIZE b ltac:(lia)). lia.
    + intros sc' Hsc' Hle. destruct (Z.lt_ge_cases sc' sc) as [L|]; [|lia].
      pose proof (block_size_increasing sc' (sc - 1) ltac:(lia) ltac:(lia) ltac:(lia)). lia.
  - unfold get_sizeclass. apply lookup_ge_None. rewrite sizeclass_lookup_length. lia.
Qed.

Lemma sizeclass_least_witness :
  get_sizeclass 100 = Some 11 /\ sc_block_size (get_sizeclass_by_idx 11) = 112 /\
  get_sizeclass 14337 = None.
Proof.
  split; [vm_compute; reflexivity|]. split; [vm_compute; reflexivity|].
  apply (sizeclass_least 14337); [lia|unfold MAX_SZ; rewrite !Z.shiftl_mul_pow2; lia].
Defined.
