(* ===== verification/Regions.v ===== *)
(** * Regions of Ralloc: mapped files, region pointers and counted pointers

    [src/ralloc/src/RegionManager.hpp/.cpp], and the pointer classes of [BaseMeta.hpp/.cpp]
    that are relative to a region ([CrossPtr], [AtomicCrossPtrCnt]). The header words of a
    region file are kept as the file has them; what [open], [lseek], [write] and [mmap] answer
    is an argument of the operations that call them. The write-backs an operation issues are
    the list of events it returns. *)

From S2P Require Import Prelude Pptr.

(** ** Write-backs *)

(** [FLUSH(a)] (one cache line), a loop of [FLUSH] over [n] consecutive lines from [a],
    [FLUSHFENCE], a [FLUSH] of a stack variable, a store to the object at [a], and the zero byte
    [write] puts at an offset of the region file that is then mapped at [base]. *)
Inductive pev := Flush (a : Z) | FlushLines (a n : Z) | Fence | FlushLocal | Wrote (a : Z)
  | FileByte (base off : Z).

#[export] Instance pev_eq_dec : EqDecision pev.
Proof. solve_decision. Defined.

(** ** [RegionManager] *)

(** The first three words of a region file. *)
Record region_file := mkFile {
  f_curr : Z;        (* atomic_pptr<char> curr_addr, at offset 0 *)
  f_heap_start : Z;  (* heap_start, at offset 8 *)
  f_size : Z         (* size, at offset 16 *) }.

Record RegionManager := mkRM {
  FILESIZE : Z; base_addr : Z; persist : bool; file : region_file }.

Definition set_file (r : RegionManager) (f : region_file) : RegionManager :=
  mkRM (FILESIZE r) (base_addr r) (persist r) f.

(** What the operating system answers to the calls of one mapping. *)
Record os_answer := mkOS { os_lseek : Z; os_write : Z; os_lseek0 : Z; os_mmap : Z }.

Definition MAP_FAILED : Z := 2 ^ 64 - 1.

(** [curr_addr_ptr->load()]; the word is at [base_addr] *)
Definition curr_addr (r : RegionManager) : Z := from_pptr_off (f_curr (file r)) (base_addr r).

(** [__map_persistent_region], [__map_transient_region]: they differ in the flags of [mmap]. *)
Definition map_region (FILESIZE : Z) (p : bool) (os : os_answer) : res (RegionManager * list pev) :=
  if os_lseek os =? -1 then Err AssertFail
  else if os_write os =? -1 then Err AssertFail
  else if os_mmap os =? MAP_FAILED then Err AssertFail
  else
    let addr := os_mmap os in
    Ok (mkRM FILESIZE addr p (mkFile (to_pptr_off (u64 (addr + PAGESIZE)) addr) 0 FILESIZE),
        [FileByte addr (FILESIZE - 1); Flush addr; Flush (addr + 16); Fence]).

(** [__remap_persistent_region], [__remap_transient_region]: the file is extended to its size
    by writing a zero byte at its last offset, also when it already has that size. *)
Definition remap_region (f : region_file) (FILESIZE : Z) (p : bool) (os : os_answer)
  : res (RegionManager * list pev) :=
  if os_lseek os =? -1 then Err AssertFail
  else if os_write os =? -1 then Err AssertFail
  else if negb (os_lseek0 os =? 0) then Err AssertFail
  else if os_mmap os =? MAP_FAILED then Err AssertFail
  else if negb (f_size f =? FILESIZE) then Err AssertFail
  else Ok (mkRM FILESIZE (os_mmap os) p f, [FileByte (os_mmap os) (FILESIZE - 1)]).

(** [__close_persistent_region], [__close_transient_region]: the file stays behind. *)
Definition close_region (r : RegionManager) : region_file * list pev :=
  (file r, [Fence; Flush (base_addr r); Fence]).

(** [__store_heap_start] and [__fetch_heap_start] *)
Definition store_heap_start (r : RegionManager) (root : Z) : RegionManager * list pev :=
  (set_file r (mkFile (f_curr (file r)) (u64 (root - base_addr r)) (f_size (file r))),
   [Flush (base_addr r + 8); Fence]).

Definition fetch_heap_start (r : RegionManager) : Z := u64 (f_heap_start (file r) + base_addr r).

(** The part of [__nvm_region_allocator] before the exchange: checks, load, alignment, bound.
    [None] is the return of -1; otherwise the loaded address, the result and the new end. *)
Definition nvm_prepare (r : RegionManager) (alignment size : Z) : option (Z * Z * Z) :=
  if size <=? 0 then None
  else if negb (Z.land alignment (u64 (not64 alignment + 1)) =? alignment) || (alignment <? 8) then None
  else
    let old_curr_addr := curr_addr r in
    let aln_adj := Z.land old_curr_addr (alignment - 1) in
    let new_curr_addr :=
      if negb (aln_adj =? 0) then u64 (old_curr_addr + (alignment - aln_adj)) else old_curr_addr in
    let res := new_curr_addr in
    let next := u64 (new_curr_addr + size) in
    if base_addr r + FILESIZE r <? next then None
    else Some (old_curr_addr, res, next).

(** The exchange and what follows it. *)
Definition nvm_commit (r : RegionManager) (old next : Z) : bool * RegionManager * list pev :=
  let '(ok, _, w) := atomic_pptr_cas (f_curr (file r)) (base_addr r) old next in
  (ok, set_file r (mkFile w (f_heap_start (file r)) (f_size (file r))),
   [Flush (base_addr r); Fence] ++
   if ok then [Wrote (base_addr r); Flush (base_addr r); Fence] else []).

(** [__nvm_region_allocator]: the return value, the result pointer if it is written, the
    region afterwards and the write-backs *)
Definition nvm_region_allocator (r : RegionManager) (alignment size : Z)
  : Z * option Z * RegionManager * list pev :=
  match nvm_prepare r alignment size with
  | None => (-1, None, r, [])
  | Some (old, res, next) =>
      let '(ok, r', tr) := nvm_commit r old next in
      if ok then (1, Some res, r', tr) else (0, None, r', tr)
  end.

(** [__try_nvm_region_allocator]: the same with other return codes *)
Definition try_nvm_region_allocator (r : RegionManager) (alignment size : Z)
  : Z * option Z * RegionManager * list pev :=
  match nvm_prepare r alignment size with
  | None => (-1, None, r, [])
  | Some (old, res, next) =>
      let '(ok, r', tr) := nvm_commit r old next in
      if ok then (0, Some res, r', tr) else (1, None, r', tr)
  end.

(** [__within_range]; the comparison is on signed words, all addresses are positive there *)
Definition within_range (r : RegionManager) (ptr : Z) : bool :=
  (base_addr r <? ptr) && (ptr <? curr_addr r).

(** The constructor. [bool res = __nvm_region_allocator(...)] turns the error code -1 into
    [true], and then an uninitialised pointer is stored. *)
Definition RegionManager_new (f : option region_file) (size : Z) (p imm_expand : bool)
  (os : os_answer) : res (RegionManager * list pev) :=
  let FILESIZE := u64 ((size / PAGESIZE + 2) * PAGESIZE) in
  if negb (size mod CACHELINE_SIZE =? 0) then Err AssertFail
  else match f with
  | Some f => remap_region f FILESIZE p os
  | None =>
      match map_region FILESIZE p os with
      | Err e => Err e
      | Ok (r, tr) =>
          if imm_expand then
            let '(res, t, r1, tr1) := nvm_region_allocator r CACHELINE_SIZE size in
            if res =? 0 then Err AssertFail
            else match t with
                 | None => Err UB_access
                 | Some t => let '(r2, tr2) := store_heap_start r1 t in Ok (r2, tr ++ tr1 ++ tr2)
                 end
          else Ok (r, tr)
      end
  end.

(** ** [Regions] *)

Record Regions := mkRegions {
  regions : list (option RegionManager);
  regions_address : list Z;
  cur_idx : Z }.

Definition LAST_IDX : Z := 3.
Definition idx_nat (i : RegionIndex) : nat :=
  match i with DESC_IDX => 0 | SB_IDX => 1 | META_IDX => 2 end.

(** [Regions::Regions()] *)
Definition Regions_new : Regions :=
  mkRegions (replicate (Z.to_nat LAST_IDX) None) (replicate (Z.to_nat LAST_IDX) 0) 0.

Definition set_region (g : Regions) (i : nat) (r : RegionManager) : Regions :=
  mkRegions (<[i := Some r]> (regions g)) (regions_address g) (cur_idx g).

Definition set_address (g : Regions) (i : nat) (a : Z) : Regions :=
  mkRegions (regions g) (<[i := a]> (regions_address g)) (cur_idx g).

Definition get_region (g : Regions) (i : RegionIndex) : option RegionManager :=
  default None (regions g !! idx_nat i).

(** [create] *)
Definition create (g : Regions) (f : option region_file) (size : Z) (p imm_expand : bool)
  (os : os_answer) : res (Regions * list pev) :=
  match RegionManager_new f size p imm_expand os with
  | Err e => Err e
  | Ok (mgr, tr) =>
      let i := Z.to_nat (cur_idx g) in
      let restart := bool_decide (is_Some f) in
      let g1 := set_region g i mgr in
      let g2 := set_address g1 i (if imm_expand || restart then fetch_heap_start mgr else 0) in
      Ok (mkRegions (regions g2) (regions_address g2) (cur_idx g + 1), tr)
  end.

(** [~Regions] and [destroy]: every manager is closed; the files that stay, and write-backs *)
Definition destroy (g : Regions) : list (option region_file) * list pev * Regions :=
  let closed := (fun r => match r with Some r => Some (close_region r) | None => None end)
                  <$> take (Z.to_nat (cur_idx g)) (regions g) in
  ((fun c => fst <$> c) <$> closed,
   closed ≫= (fun c => match c with Some c => snd c | None => [] end),
   mkRegions (imap (fun i r => if bool_decide (Z.of_nat i < cur_idx g) then None else r) (regions g))
             (imap (fun i a => if bool_decide (Z.of_nat i < cur_idx g) then 0 else a) (regions_address g)) 0).

(** [lookup], [translate], [untranslate] *)
Definition rg_lookup (g : Regions) (i : RegionIndex) : Z := default 0 (regions_address g !! idx_nat i).
Definition translate (g : Regions) (i : RegionIndex) (rel : Z) : Z := u64 (rg_lookup g i + rel).
Definition untranslate (g : Regions) (i : RegionIndex) (abs : Z) : Z := u64 (abs - rg_lookup g i).

(** [expand] *)
Definition expand (g : Regions) (i : RegionIndex) (alignment size : Z)
  : res (Z * option Z * Regions * list pev) :=
  match get_region g i with
  | None => Err UB_access
  | Some r => let '(ret, p, r', tr) := nvm_region_allocator r alignment size in
              Ok (ret, p, set_region g (idx_nat i) r', tr)
  end.

(** [in_range] *)
Definition in_range (g : Regions) (i : RegionIndex) (ptr : Z) : bool :=
  (rg_lookup g i <=? ptr) &&
  match get_region g i with Some r => ptr <? curr_addr r | None => false end.

(** [flush_region]: one [FLUSH] per line from the region's address to its end *)
Definition flush_region (g : Regions) (i : RegionIndex) : list pev :=
  match get_region g i with
  | Some r => [FlushLines (rg_lookup g i) (Z.max 0 ((curr_addr r - rg_lookup g i + CACHELINE_SIZE - 1) / CACHELINE_SIZE)); Fence]
  | None => []
  end.

(** ** [CrossPtr] *)

(** The constructor from a pointer, the cast back, and the assignment of a pointer, which
    does not treat the null pointer apart. *)
Definition CrossPtr_new (g : Regions) (i : RegionIndex) (ptr : Z) : Z :=
  if ptr =? 0 then 0 else untranslate g i ptr.
Definition CrossPtr_get (g : Regions) (i : RegionIndex) (off : Z) : Z :=
  if off =? 0 then 0 else translate g i off.
Definition CrossPtr_assign (g : Regions) (i : RegionIndex) (ptr : Z) : Z := untranslate g i ptr.
Definition CrossPtr_is_null (off : Z) : bool := off =? 0.

(** ** [ptr_cnt] and [AtomicCrossPtrCnt] *)

Record ptr_cnt := mkPC { ptr : Z; cnt : Z }.

#[export] Instance ptr_cnt_eq_dec : EqDecision ptr_cnt.
Proof. solve_decision. Defined.

(** The word made of a pointer and a counter, in the constructor, [store] and the exchanges. *)
Definition cnt_word (g : Regions) (i : RegionIndex) (d : ptr_cnt) : Z :=
  let cnt_prefix := u64 (Z.shiftl (cnt d) MAX_DESC_OFFSET_BITS) in
  if ptr d =? 0 then cnt_prefix else Z.lor (untranslate g i (ptr d)) cnt_prefix.

(** [load], also the reading of a failed exchange *)
Definition cnt_load (g : Regions) (i : RegionIndex) (off : Z) : ptr_cnt :=
  let cur_off := Z.land off MAX_DESC_OFFSET_MASK in
  mkPC (if cur_off =? 0 then 0 else translate g i cur_off) (Z.shiftr off MAX_DESC_OFFSET_BITS).

(** [compare_exchange_strong/weak]: the outcome, the updated [expected] and the new word *)
Definition cnt_cas (g : Regions) (i : RegionIndex) (off : Z) (expected desired : ptr_cnt)
  : bool * ptr_cnt * Z :=
  let old_off := cnt_word g i expected in
  let new_off := cnt_word g i desired in
  if off =? old_off then (true, expected, new_off) else (false, cnt_load g i off, off).

(** ** Counted pointers *)

Section Counted.
Context (g : Regions) (i : RegionIndex).
Implicit Types (p c w : Z).

(** A pointer a counted word can carry: null, or strictly inside the first 2^30 bytes. *)
Definition cnt_fits (p : Z) : Prop :=
  p = 0 \/ 0 <= rg_lookup g i /\ rg_lookup g i < p < rg_lookup g i + 2 ^ 30 /\ p < 2 ^ 64.

Lemma cnt_mask_eq : MAX_DESC_OFFSET_MASK = 2 ^ 30 - 1.
Proof. reflexivity. Qed.

Lemma cnt_prefix_eq c : u64 (Z.shiftl c MAX_DESC_OFFSET_BITS) = c mod 2 ^ 34 * 2 ^ 30.
Proof.
  change MAX_DESC_OFFSET_BITS with 30. rewrite Z.shiftl_mul_pow2 by lia. unfold u64.
  change (2 ^ 64) with (2 ^ 34 * 2 ^ 30). now rewrite Z.mul_mod_distr_r.
Qed.

Lemma lor_offset o c : 0 <= o < 2 ^ 30 -> Z.lor o (c * 2 ^ 30) = c * 2 ^ 30 + o.
Proof.
  intros Ho. assert (D : Z.land o (c * 2 ^ 30) = 0).
  { rewrite <- Z.shiftl_mul_pow2 by lia. apply Z.bits_inj'. intros n Hn.
    rewrite Z.land_spec, Z.bits_0. destruct (Z.lt_ge_cases n 30).
    - rewrite Z.shiftl_spec_low by lia. apply andb_false_r.
    - now rewrite (bits_above o 30 n) by lia. }
  rewrite <- Z.lxor_lor, <- Z.add_nocarry_lxor by assumption. lia.
Qed.

Lemma cnt_word_eq p c : cnt_fits p ->
  cnt_word g i (mkPC p c) = c mod 2 ^ 34 * 2 ^ 30 + (if p =? 0 then 0 else p - rg_lookup g i).
Proof.
  intros Hp. unfold cnt_word. cbn [ptr cnt]. rewrite cnt_prefix_eq.
  destruct (Z.eqb_spec p 0); [lia|]. destruct Hp as [|Hp]; [done|].
  unfold untranslate. rewrite u64_small by lia. apply lor_offset. lia.
Qed.

Lemma cnt_load_eq w : cnt_load g i w =
  mkPC (if w mod 2 ^ 30 =? 0 then 0 else u64 (rg_lookup g i + w mod 2 ^ 30)) (w / 2 ^ 30).
Proof.
  unfold cnt_load. rewrite cnt_mask_eq, land_pow2_pred by lia.
  change MAX_DESC_OFFSET_BITS with 30. now rewrite Z.shiftr_div_pow2 by lia.
Qed.

Lemma cnt_load_word p c : cnt_fits p -> cnt_load g i (cnt_word g i (mkPC p c)) = mkPC p (c mod 2 ^ 34).
Proof.
  intros Hp. rewrite cnt_word_eq, cnt_load_eq by done.
  assert (Hr : 0 <= (if p =? 0 then 0 else p - rg_lookup g i) < 2 ^ 30)
    by (destruct (Z.eqb_spec p 0), Hp; lia).
  rewrite Z.add_comm, Z.mod_add, Z.div_add, Z.mod_small, Z.div_small by lia.
  f_equal. destruct (Z.eqb_spec p 0) as [->|N]; [done|]. destruct Hp as [|Hp]; [done|].
  rewrite (proj2 (Z.eqb_neq _ _)) by lia. rewrite u64_small; lia.
Qed.

Lemma cnt_fits_load w : 0 <= rg_lookup g i < 2 ^ 63 -> cnt_fits (ptr (cnt_load g i w)).
Proof.
  intros Hb. rewrite cnt_load_eq. cbn [ptr]. pose proof (Z.mod_pos_bound w (2 ^ 30) ltac:(lia)).
  destruct (Z.eqb_spec (w mod 2 ^ 30) 0); [now left|right]. rewrite u64_small; lia.
Qed.

Lemma cnt_word_load w : 0 <= rg_lookup g i < 2 ^ 63 -> 0 <= w < 2 ^ 64 ->
  cnt_word g i (cnt_load g i w) = w.
Proof.
  intros Hb Hw. pose proof (cnt_fits_load w Hb) as F. rewrite cnt_load_eq in *. cbn [ptr] in F.
  rewrite cnt_word_eq by done. pose proof (Z.mod_pos_bound w (2 ^ 30) ltac:(lia)).
  rewrite (Z.mod_small (w / 2 ^ 30)).
  2: { split; [apply Z.div_pos; lia|]. apply Z.div_lt_upper_bound; lia. }
  pose proof (Z.div_mod w (2 ^ 30) ltac:(lia)).
  destruct (Z.eqb_spec (w mod 2 ^ 30) 0) as [E|N]; [cbn [Z.eqb]; lia|].
  rewrite u64_small in * by lia. destruct (Z.eqb_spec (rg_lookup g i + w mod 2 ^ 30) 0); lia.
Qed.

(** An exchange right after the load of the same word succeeds. *)
Lemma cnt_cas_load w d : 0 <= rg_lookup g i < 2 ^ 63 -> 0 <= w < 2 ^ 64 ->
  cnt_cas g i w (cnt_load g i w) d = (true, cnt_load g i w, cnt_word g i d).
Proof. intros Hb Hw. unfold cnt_cas. now rewrite cnt_word_load, Z.eqb_refl. Qed.

Lemma cnt_word_range d : cnt_fits (ptr d) -> 0 <= cnt_word g i d < 2 ^ 64.
Proof.
  destruct d as [p c]. cbn [ptr]. intros Hp. rewrite cnt_word_eq by done.
  pose proof (Z.mod_pos_bound c (2 ^ 34) ltac:(lia)).
  destruct (Z.eqb_spec p 0), Hp; lia.
Qed.

End Counted.

(** ** Region expansion *)

(** A mapped region with its end at [c]: below 2^47, the end inside the file. *)
Record region_wf (r : RegionManager) (c : Z) : Prop := {
  rwf_base : 0 < base_addr r;
  rwf_c : base_addr r < c <= base_addr r + FILESIZE r;
  rwf_end : base_addr r + FILESIZE r < 2 ^ 47;
  rwf_word : f_curr (file r) = to_pptr_off c (base_addr r) }.

Lemma curr_addr_wf r c : region_wf r c -> curr_addr r = c.
Proof.
  intros [? ? ? E]. unfold curr_addr. rewrite E. apply from_to_pptr; lia.
Qed.

(** The smallest multiple of [a] that is at least [c]. *)
Definition align_up (c a : Z) : Z := (c + a - 1) / a * a.

Lemma align_up_spec c a : 0 < a -> c <= align_up c a < c + a /\ align_up c a mod a = 0.
Proof.
  intros Ha. unfold align_up. split; [|apply Z.mod_mul; lia].
  pose proof (Z.div_mod (c + a - 1) a ltac:(lia)). pose proof (Z.mod_pos_bound (c + a - 1) a Ha). lia.
Qed.

Lemma align_up_unique c a x : 0 < a -> c <= x < c + a -> x mod a = 0 -> align_up c a = x.
Proof.
  intros Ha Hx E. destruct (align_up_spec c a Ha) as [Hb Eb].
  apply Z.mod_divide in E as [q Eq], Eb as [q' Eq']; try lia.
  assert (q = q') by nia. lia.
Qed.

(** The mask test of the code accepts the powers of two of at least 8. *)
Lemma alignment_ok k : 3 <= k < 64 ->
  negb (Z.land (2 ^ k) (u64 (not64 (2 ^ k) + 1)) =? 2 ^ k) || (2 ^ k <? 8) = false.
Proof.
  intros Hk. assert (P : 0 < 2 ^ k < 2 ^ 64) by (split; [apply pow2_pos; lia|apply Z.pow_lt_mono_r; lia]).
  assert (8 <= 2 ^ k) by (change 8 with (2 ^ 3); apply Z.pow_le_mono_r; lia).
  assert (E : u64 (not64 (2 ^ k) + 1) = 2 ^ 64 - 2 ^ k).
  { rewrite not64_eq. unfold u64. rewrite Zplus_mod_idemp_l.
    replace (- 2 ^ k - 1 + 1) with (- 2 ^ k) by lia. rewrite Z.mod_opp_l_nz, Z.mod_small; rewrite ?Z.mod_small; lia. }
  rewrite E. apply orb_false_iff. split; [|apply Z.ltb_ge; lia]. apply negb_false_iff, Z.eqb_eq.
  replace (2 ^ 64 - 2 ^ k) with (Z.shiftl (Z.ones (64 - k)) k).
  - apply Z.bits_inj'. intros n Hn. rewrite Z.land_spec.
    destruct (decide (n = k)) as [->|N].
    + rewrite Z.shiftl_spec, Z.ones_spec_low, andb_true_r by lia. done.
    + rewrite Z.pow2_bits_false by lia. done.
  - rewrite Z.shiftl_mul_pow2, Z.ones_equiv by lia.
    replace (Z.pred (2 ^ (64 - k)) * 2 ^ k) with (2 ^ (64 - k) * 2 ^ k - 2 ^ k) by lia.
    rewrite <- Z.pow_add_r by lia. f_equal. f_equal. lia.
Qed.

(** The word [2^64 - a] has the bits of [a - 1] inverted. *)
Lemma neg64_testbit a k : 0 < a -> 0 <= k < 64 ->
  Z.testbit (u64 (not64 a + 1)) k = negb (Z.testbit (a - 1) k).
Proof.
  intros Ha Hk. rewrite not64_eq. unfold u64. rewrite Zplus_mod_idemp_l.
  rewrite Z.mod_pow2_bits_low by lia. replace (- a - 1 + 1) with (Z.lnot (a - 1)) by (unfold Z.lnot; lia).
  now apply Z.lnot_spec.
Qed.

(** The mask test rejects every other word: a second bit set below the highest one of [a]
    leaves the highest bit of [a - 1] set. *)
Lemma alignment_pow2 a : 0 <= a < 2 ^ 64 ->
  negb (Z.land a (u64 (not64 a + 1)) =? a) || (a <? 8) = false ->
  exists k, 3 <= k < 64 /\ a = 2 ^ k.
Proof.
  intros Ha [E H8]%orb_false_iff. apply negb_false_iff, Z.eqb_eq in E. apply Z.ltb_ge in H8.
  pose proof (Z.log2_spec a ltac:(lia)) as [Hlo Hhi]. set (k := Z.log2 a) in *.
  assert (Hk : 3 <= k < 64).
  { split; [apply (Z.log2_le_mono 8 a); lia|apply Z.log2_lt_pow2; lia]. }
  exists k. split; [done|]. destruct (decide (a = 2 ^ k)) as [|N]; [done|exfalso].
  assert (B : Z.testbit (a - 1) k = true).
  { apply Z.testbit_true; [lia|]. rewrite <- (Z.div_unique (a - 1) (2 ^ k) 1 (a - 1 - 2 ^ k)); [done| |lia].
    rewrite Z.pow_succ_r in Hhi by lia. lia. }
  apply (f_equal (fun x => Z.testbit x k)) in E.
  rewrite Z.land_spec, neg64_testbit, B, andb_false_r in E by lia.
  unfold k in E. now rewrite Z.bit_log2 in E by lia.
Qed.

Lemma align_code c k : 3 <= k < 64 -> 0 <= c < 2 ^ 47 ->
  (let adj := Z.land c (2 ^ k - 1) in
   if negb (adj =? 0) then u64 (c + (2 ^ k - adj)) else c) = align_up c (2 ^ k).
Proof.
  intros Hk Hc. cbv zeta. rewrite land_pow2_pred by lia.
  assert (P : 0 < 2 ^ k <= 2 ^ 63) by (split; [apply pow2_pos; lia|apply Z.pow_le_mono_r; lia]).
  pose proof (Z.mod_pos_bound c (2 ^ k) ltac:(lia)). symmetry.
  destruct (Z.eqb_spec (c mod 2 ^ k) 0) as [E|N]; cbn [negb].
  - apply align_up_unique; lia.
  - rewrite u64_small by lia. apply align_up_unique; [lia..|].
    replace (c + (2 ^ k - c mod 2 ^ k)) with ((c / 2 ^ k + 1) * 2 ^ k).
    + apply Z.mod_mul. lia.
    + pose proof (Z.div_mod c (2 ^ k) ltac:(lia)). lia.
Qed.

(** Rounding up an address below 2^47 gives at most 2^63. *)
Lemma align_up_le c k : 3 <= k < 64 -> 0 <= c < 2 ^ 47 -> 0 <= align_up c (2 ^ k) <= 2 ^ 63.
Proof.
  intros Hk Hc. destruct (align_up_spec c (2 ^ k)) as [Hb _]; [apply pow2_pos; lia|].
  destruct (Z.lt_ge_cases k 62) as [S|S].
  { assert (2 ^ k <= 2 ^ 61) by (apply Z.pow_le_mono_r; lia). lia. }
  assert (P : 2 ^ 62 <= 2 ^ k <= 2 ^ 63) by (split; apply Z.pow_le_mono_r; lia).
  destruct (decide (c = 0)) as [->|N].
  - rewrite (align_up_unique 0 (2 ^ k) 0); [lia|lia|lia|done].
  - rewrite (align_up_unique c (2 ^ k) (2 ^ k)); [lia|lia|lia|]. apply Z.mod_same. lia.
Qed.

Lemma nvm_prepare_spec r c k size : region_wf r c -> 3 <= k < 64 -> 0 < size < 2 ^ 63 ->
  nvm_prepare r (2 ^ k) size =
  (let res := align_up c (2 ^ k) in
   if base_addr r + FILESIZE r <? res + size then None else Some (c, res, res + size)).
Proof.
  intros W Hk Hs. unfold nvm_prepare. rewrite (proj2 (Z.leb_gt size 0)) by lia.
  rewrite alignment_ok by lia. rewrite (curr_addr_wf r c W).
  destruct W as [? ? ? ?]. cbv zeta. rewrite align_code by lia.
  pose proof (align_up_le c k ltac:(lia) ltac:(lia)).
  rewrite (u64_small (_ + size)) by lia. done.
Qed.

(** What a successful preparation says, whatever was asked for: the loaded address is the end
    of the region, and the new end passes the bound check. It is the end of the prepared range
    unless the size is 2^63 or more, in which case the sum may have wrapped. *)
Lemma nvm_prepare_some r c a size old res next : region_wf r c -> 0 <= a < 2 ^ 64 -> 0 <= size ->
  nvm_prepare r a size = Some (old, res, next) ->
  old = c /\ 0 <= next <= base_addr r + FILESIZE r /\ 0 < size /\
  (size < 2 ^ 63 -> c <= res /\ next = res + size).
Proof.
  intros W Ha Hs E. pose proof E as E'. unfold nvm_prepare in E.
  destruct (Z.leb_spec size 0); [done|].
  destruct (negb (Z.land a (u64 (not64 a + 1)) =? a) || (a <? 8)) eqn:Et; [done|].
  destruct (alignment_pow2 a Ha Et) as (k & Hk & ->). cbv zeta in E.
  destruct (Z.ltb_spec (base_addr r + FILESIZE r)
    (u64 ((if negb (Z.land (curr_addr r) (2 ^ k - 1) =? 0)
           then u64 (curr_addr r + (2 ^ k - Z.land (curr_addr r) (2 ^ k - 1))) else curr_addr r) + size)));
    [done|]. injection E as <- Er <-. pose proof (curr_addr_wf r c W) as Ec.
  split; [done|]. split; [split; [apply u64_range|done]|]. split; [done|]. intros Hs'.
  rewrite (nvm_prepare_spec r c) in E' by (done || lia). cbv zeta in E'.
  destruct (_ <? _); [done|]. injection E' as _ <- <-.
  split; [|done]. apply align_up_spec. apply pow2_pos. lia.
Qed.

Lemma nvm_commit_ok r c next : region_wf r c -> 0 <= next < 2 ^ 47 ->
  exists r' tr, nvm_commit r c next = (true, r', tr) /\ base_addr r' = base_addr r /\
    FILESIZE r' = FILESIZE r /\ persist r' = persist r /\
    file r' = mkFile (to_pptr_off next (base_addr r)) (f_heap_start (file r)) (f_size (file r)).
Proof.
  intros [? ? ? E] Hn. unfold nvm_commit. rewrite E, atomic_pptr_cas_spec, Z.eqb_refl by lia.
  do 2 eexists. done.
Qed.

Lemma nvm_region_allocator_ok r c k size : region_wf r c -> 3 <= k < 64 -> 0 < size < 2 ^ 63 ->
  let res := align_up c (2 ^ k) in
  res + size <= base_addr r + FILESIZE r ->
  exists r' tr, nvm_region_allocator r (2 ^ k) size = (1, Some res, r', tr) /\
    region_wf r' (res + size) /\ base_addr r' = base_addr r /\ FILESIZE r' = FILESIZE r /\
    f_heap_start (file r') = f_heap_start (file r) /\ f_size (file r') = f_size (file r).
Proof.
  intros W Hk Hs res Hfit. unfold nvm_region_allocator. rewrite (nvm_prepare_spec r c) by done.
  cbv zeta. fold res. rewrite (proj2 (Z.ltb_ge _ _)) by lia.
  pose proof (align_up_spec c (2 ^ k) ltac:(apply pow2_pos; lia)) as [? _]. destruct W as [? ? ? ?] eqn:EW.
  destruct (nvm_commit_ok r c (res + size) W) as (r' & tr & -> & Eb & EF & _ & Ef); [lia|].
  do 2 eexists. split; [done|]. rewrite Ef, Eb, EF. repeat split; try done; rewrite ?Eb, ?EF, ?Ef; cbn; try done; lia.
Qed.

Lemma nvm_region_allocator_full r c k size : region_wf r c -> 3 <= k < 64 -> 0 < size < 2 ^ 63 ->
  base_addr r + FILESIZE r < align_up c (2 ^ k) + size ->
  nvm_region_allocator r (2 ^ k) size = (-1, None, r, []).
Proof.
  intros W Hk Hs Hfull. unfold nvm_region_allocator. rewrite (nvm_prepare_spec r c) by done.
  cbv zeta. now rewrite (proj2 (Z.ltb_lt _ _)) by lia.
Qed.

(** ** Concurrent expansion

    Threads run [__nvm_region_allocator] on one region: each loads and computes
    ([nvm_prepare]) and later exchanges ([nvm_commit]); the steps of different threads
    interleave. A pending entry also remembers how many expansions had been granted when the
    thread loaded the end of the region. *)

Record pending := mkPend { pd_old : Z; pd_res : Z; pd_size : Z; pd_next : Z; pd_seen : nat }.

Record xstate := mkX {
  x_region : RegionManager;
  x_pending : gmap nat pending;
  x_granted : list (Z * Z)  (* start and size, latest first *) }.

Inductive expand_step : xstate -> xstate -> Prop :=
| X_prepare s t alignment size old res next :
    0 <= alignment < 2 ^ 64 -> 0 <= size < 2 ^ 64 -> x_pending s !! t = None ->
    nvm_prepare (x_region s) alignment size = Some (old, res, next) ->
    expand_step s (mkX (x_region s)
      (<[t := mkPend old res size next (length (x_granted s))]> (x_pending s)) (x_granted s))
| X_commit s t pd r' tr :
    x_pending s !! t = Some pd ->
    nvm_commit (x_region s) (pd_old pd) (pd_next pd) = (true, r', tr) ->
    expand_step s (mkX r' (delete t (x_pending s)) ((pd_res pd, pd_size pd) :: x_granted s))
| X_retry s t pd r' tr :
    x_pending s !! t = Some pd ->
    nvm_commit (x_region s) (pd_old pd) (pd_next pd) = (false, r', tr) ->
    expand_step s (mkX r' (delete t (x_pending s)) (x_granted s)).

(** No range granted so far is of 2^63 bytes or more. *)
Definition granted_small (s : xstate) : Prop := Forall (fun x => x.2 < 2 ^ 63) (x_granted s).

(** Granted ranges, latest first, lie one below the other under the current end. *)
Fixpoint stacked (lo hi : Z) (l : list (Z * Z)) : Prop :=
  match l with
  | [] => lo <= hi
  | (a, n) :: l' => 0 < n /\ a + n <= hi /\ stacked lo a l'
  end.

Definition disjoint_ranges (x y : Z * Z) : Prop := x.1 + x.2 <= y.1 \/ y.1 + y.2 <= x.1.

Lemma stacked_mono lo hi hi' l : stacked lo hi l -> hi <= hi' -> stacked lo hi' l.
Proof. destruct l as [|[a n] l]; cbn; [lia|]. intros (? & ? & ?) ?. repeat split; auto; lia. Qed.

Lemma stacked_bounds lo hi l x : stacked lo hi l -> x ∈ l -> lo <= x.1 /\ x.1 + x.2 <= hi /\ 0 < x.2.
Proof.
  revert hi. induction l as [|[a n] l IH]; intros hi S Hx; [now apply not_elem_of_nil in Hx|].
  cbn in S. destruct S as (Hn & Ha & S). apply elem_of_cons in Hx as [->|Hx].
  - cbn. assert (lo <= a); [|lia].
    clear - S. revert a S. induction l as [|[b m] l IH]; cbn; [lia|]. intros a (? & ? & S).
    specialize (IH b S). lia.
  - destruct (IH a S Hx). lia.
Qed.

Lemma stacked_pairwise lo hi l i j x y : stacked lo hi l ->
  l !! i = Some x -> l !! j = Some y -> i <> j -> disjoint_ranges x y.
Proof.
  assert (A : forall l lo hi i j x y, stacked lo hi l -> l !! i = Some x -> l !! j = Some y ->
             (i < j)%nat -> y.1 + y.2 <= x.1).
  { clear. induction l as [|[a n] l IH]; intros lo hi i j x y S Hi Hj Hij; [done|].
    cbn in S. destruct S as (Hn & Ha & S). destruct j as [|j]; [lia|]. cbn in Hj.
    destruct i as [|i].
    - injection Hi as <-. cbn. apply list_elem_of_lookup_2 in Hj. apply (stacked_bounds _ _ _ _ S Hj).
    - cbn in Hi. eapply (IH lo a i j); eauto. lia. }
  intros S Hi Hj N. destruct (decide (i < j)%nat).
  - right. eapply A; eauto.
  - left. eapply (A l lo hi j i); eauto. lia.
Qed.

(** The invariant of the interleaving. *)
Definition expand_inv (s0 s : xstate) : Prop :=
  exists c, region_wf (x_region s) c /\
    base_addr (x_region s) = base_addr (x_region s0) /\ FILESIZE (x_region s) = FILESIZE (x_region s0) /\
    stacked (base_addr (x_region s)) c (x_granted s) /\
    forall t pd, x_pending s !! t = Some pd ->
      0 <= pd_old pd <= c /\ (pd_seen pd <= length (x_granted s))%nat /\
      (length (x_granted s) = pd_seen pd -> pd_old pd = c) /\
      0 <= pd_next pd <= base_addr (x_region s) + FILESIZE (x_region s) /\ 0 < pd_size pd /\
      (pd_size pd < 2 ^ 63 -> pd_old pd <= pd_res pd /\ pd_next pd = pd_res pd + pd_size pd).

(** With the end at [c], the exchange of a thread that loaded [old] is decided by [old = c]. *)
Lemma nvm_commit_cases r c old next ok r' tr :
  region_wf r c -> 0 <= old < 2 ^ 47 -> 0 <= next < 2 ^ 47 -> nvm_commit r old next = (ok, r', tr) ->
  base_addr r' = base_addr r /\ FILESIZE r' = FILESIZE r /\
  (ok = true /\ old = c /\ f_curr (file r') = to_pptr_off next (base_addr r) \/
   ok = false /\ old <> c /\ f_curr (file r') = f_curr (file r)).
Proof.
  intros [? ? ? E] Ho Hn. unfold nvm_commit. rewrite E, atomic_pptr_cas_spec by lia.
  destruct (Z.eqb_spec c old) as [<-|N]; intros H; injection H as <- <- _; cbn;
    (split; [done|]); (split; [done|]); [left|right]; auto.
Qed.

Lemma expand_inv_step s0 s s' :
  expand_inv s0 s -> expand_step s s' -> granted_small s' -> expand_inv s0 s'.
Proof.
  intros (c & W & Eb & EF & St & P) Step Sm.
  destruct Step as [s t a size old res next Ha Hs Ht Hp|s t pd r' tr Ht Hc|s t pd r' tr Ht Hc].
  - exists c. split; [done|]. split; [done|]. split; [done|]. split; [done|]. cbn.
    destruct (nvm_prepare_some _ c _ _ _ _ _ W Ha (proj1 Hs) Hp) as (-> & ? & ? & ?).
    destruct W. intros t' pd. destruct (decide (t' = t)) as [->|N].
    + rewrite lookup_insert_eq. intros E. injection E as <-. cbn. lia.
    + rewrite lookup_insert_ne by done. apply P.
  - destruct (P t pd Ht) as (? & ? & ? & ? & ? & Hb). pose proof W as [? ? ? ?].
    apply list.Forall_cons in Sm as [Sz _]. cbn in Sz. destruct (Hb Sz) as [? En].
    apply (nvm_commit_cases _ c) in Hc as (Eb' & EF' & [(_ & E & Ec)|(? & _)]); [|done..|lia|lia].
    exists (pd_next pd). cbn. rewrite Eb', EF'. split.
    { constructor; rewrite ?Eb', ?EF'; try done; lia. }
    split; [done|]. split; [done|]. split.
    { split; [done|]. split; [lia|]. eapply stacked_mono; [exact St|lia]. }
    intros t' pd' Ht'. apply lookup_delete_Some in Ht' as [N Ht'].
    destruct (P t' pd' Ht') as (? & ? & ? & ? & ? & ?). repeat split; try lia; try done.
  - destruct (P t pd Ht) as (? & ? & ? & ? & ? & _). pose proof W as [? ? ? ?].
    apply (nvm_commit_cases _ c) in Hc as (Eb' & EF' & [(? & _)|(_ & _ & Ec)]); [done| |done|lia|lia].
    exists c. cbn. rewrite Eb', EF'. split.
    { constructor; rewrite ?Eb', ?EF'; try congruence; lia. }
    split; [done|]. split; [done|]. split; [done|].
    intros t' pd' Ht'. apply lookup_delete_Some in Ht' as [N Ht']. exact (P t' pd' Ht').
Qed.

(** Ranges are only ever added. *)
Lemma granted_small_back s s' : expand_step s s' -> granted_small s' -> granted_small s.
Proof.
  destruct 1; unfold granted_small; cbn; [done| |done]. now intros [_ ?]%list.Forall_cons.
Qed.

Lemma expand_inv_reach s0 s :
  expand_inv s0 s0 -> rtc expand_step s0 s -> granted_small s -> expand_inv s0 s.
Proof.
  intros I0. revert s. apply (rtc_ind_r (R := expand_step) (fun s => granted_small s -> expand_inv s0 s) s0); [done|].
  intros y z _ St IH Sm. apply (expand_inv_step s0 y); [|done..]. now apply IH, (granted_small_back y z).
Qed.

Lemma expand_inv_start r c : region_wf r c -> expand_inv (mkX r ∅ []) (mkX r ∅ []).
Proof.
  intros W. exists c. cbn. split; [done|]. split; [done|]. split; [done|]. destruct W.
  split; [lia|]. intros t pd Ht. now rewrite lookup_empty in Ht.
Qed.

(** ** Claims *)

(** C31: however the expansions of any number of threads interleave, with any alignments and
    sizes, as long as no granted range is of 2^63 bytes or more the ranges handed out are
    pairwise disjoint, lie inside the file behind the region's first byte, and the end of the
    region never leaves the file. (A larger size can wrap around the bound check, see
    [expand_wraps].) *)
Theorem expand_disjoint r c s :
  region_wf r c -> rtc expand_step (mkX r ∅ []) s -> granted_small s ->
  (forall i j x y, x_granted s !! i = Some x -> x_granted s !! j = Some y -> i <> j ->
     disjoint_ranges x y) /\
  (forall x, x ∈ x_granted s ->
     base_addr r <= x.1 /\ 0 < x.2 /\ x.1 + x.2 <= curr_addr (x_region s)) /\
  base_addr r < curr_addr (x_region s) <= base_addr r + FILESIZE r.
Proof.
  intros W R Sm. destruct (expand_inv_reach _ _ (expand_inv_start r c W) R Sm) as (c' & W' & Eb & EF & St & _).
  rewrite (curr_addr_wf _ _ W'). cbn in Eb, EF. split; [|split].
  - intros i j x y Hi Hj N. eapply stacked_pairwise; eauto.
  - intros x Hx. rewrite <- Eb. pose proof (stacked_bounds _ _ _ _ St Hx). lia.
  - destruct W'. rewrite Eb, EF in *. done.
Qed.

Definition demo_region : RegionManager :=
  mkRM (2 ^ 30 + 8192) (2 ^ 40) true (mkFile (to_pptr_off (2 ^ 40 + 4096) (2 ^ 40)) 0 (2 ^ 30 + 8192)).

Lemma demo_region_wf : region_wf demo_region (2 ^ 40 + 4096).
Proof. constructor; cbn; lia. Qed.

Definition commit_region (r : RegionManager) (old next : Z) : RegionManager :=
  (nvm_commit r old next).1.2.

(** Two threads load the same end; one is granted 8192 bytes, the other has to retry. *)
Definition demo_expand : xstate :=
  mkX (commit_region demo_region (2 ^ 40 + 4096) (2 ^ 40 + 12288))
      (delete 0%nat (<[1%nat := mkPend (2 ^ 40 + 4096) (2 ^ 40 + 4096) 4096 (2 ^ 40 + 8192) 0]>
        (<[0%nat := mkPend (2 ^ 40 + 4096) (2 ^ 40 + 4096) 8192 (2 ^ 40 + 12288) 0]> ∅)))
      [(2 ^ 40 + 4096, 8192)].

Lemma demo_expand_reach : rtc expand_step (mkX demo_region ∅ []) demo_expand.
Proof.
  eapply rtc_l; [eapply (X_prepare _ 0%nat 4096 8192); [lia|lia|done|vm_compute; reflexivity]|].
  eapply rtc_l; [eapply (X_prepare _ 1%nat 4096 4096); [lia|lia|done|vm_compute; reflexivity]|].
  eapply rtc_l; [|apply rtc_refl]. cbn [x_region x_pending x_granted length].
  refine (X_commit _ 0%nat (mkPend (2 ^ 40 + 4096) (2 ^ 40 + 4096) 8192 (2 ^ 40 + 12288) 0) _
            ((nvm_commit demo_region (2 ^ 40 + 4096) (2 ^ 40 + 12288)).2) _ _); reflexivity.
Qed.

(** The other thread fails, prepares again and is granted its 4096 bytes behind. *)
Definition demo_expand2 : xstate :=
  let r1 := commit_region (x_region demo_expand) (2 ^ 40 + 4096) (2 ^ 40 + 8192) in
  mkX (commit_region r1 (2 ^ 40 + 12288) (2 ^ 40 + 16384))
      (delete 1%nat (<[1%nat := mkPend (2 ^ 40 + 12288) (2 ^ 40 + 12288) 4096 (2 ^ 40 + 16384) 1]>
        (delete 1%nat (x_pending demo_expand))))
      [(2 ^ 40 + 12288, 4096); (2 ^ 40 + 4096, 8192)].

Lemma demo_expand2_reach : rtc expand_step (mkX demo_region ∅ []) demo_expand2.
Proof.
  transitivity demo_expand; [apply demo_expand_reach|].
  eapply rtc_l.
  { refine (X_retry _ 1%nat (mkPend (2 ^ 40 + 4096) (2 ^ 40 + 4096) 4096 (2 ^ 40 + 8192) 0) _
      ((nvm_commit (x_region demo_expand) (2 ^ 40 + 4096) (2 ^ 40 + 8192)).2) _ _); reflexivity. }
  eapply rtc_l; [eapply (X_prepare _ 1%nat 4096 4096); [lia|lia|done|vm_compute; reflexivity]|].
  eapply rtc_l; [|apply rtc_refl].
  refine (X_commit _ 1%nat (mkPend (2 ^ 40 + 12288) (2 ^ 40 + 12288) 4096 (2 ^ 40 + 16384) 1) _
      ((nvm_commit (commit_region (x_region demo_expand) (2 ^ 40 + 4096) (2 ^ 40 + 8192))
          (2 ^ 40 + 12288) (2 ^ 40 + 16384)).2) _ _); reflexivity.
Qed.

Lemma demo_expand_small : granted_small demo_expand /\ granted_small demo_expand2.
Proof. split; unfold granted_small, demo_expand, demo_expand2; cbn [x_granted]; repeat constructor; cbn; lia. Qed.

Lemma expand_disjoint_witness :
  disjoint_ranges (2 ^ 40 + 12288, 4096) (2 ^ 40 + 4096, 8192) /\
  base_addr demo_region < curr_addr (x_region demo_expand2) <= base_addr demo_region + FILESIZE demo_region.
Proof.
  destruct (expand_disjoint _ _ _ demo_region_wf demo_expand2_reach (proj2 demo_expand_small)) as (D & _ & B).
  split; [|exact B]. now apply (D 0%nat 1%nat).
Defined.

(** A request of 2^64 - 4096 bytes passes the bound check and the exchange: the new end is one
    page below the old one, here the region's own header. *)
Example expand_wraps :
  nvm_prepare demo_region 4096 (2 ^ 64 - 4096) = Some (2 ^ 40 + 4096, 2 ^ 40 + 4096, 2 ^ 40) /\
  curr_addr (commit_region demo_region (2 ^ 40 + 4096) (2 ^ 40)) = 2 ^ 40.
Proof. split; vm_compute; reflexivity. Qed.

(** C32: the retry loops around [expand] cannot starve together. If the exchange
    of a thread fails, the number of granted expansions has grown since that thread loaded the
    end of the region: a failed attempt is paid for by a success of another thread. And a
    thread that is not interleaved with a success does not fail. As in the claim on disjointness,
    no range of 2^63 bytes or more has been granted. *)
Theorem expand_lock_free r c s t pd :
  region_wf r c -> rtc expand_step (mkX r ∅ []) s -> granted_small s -> x_pending s !! t = Some pd ->
  let '(ok, _, _) := nvm_commit (x_region s) (pd_old pd) (pd_next pd) in
  (ok = false -> (pd_seen pd < length (x_granted s))%nat) /\
  (length (x_granted s) = pd_seen pd -> ok = true).
Proof.
  intros W R Sm Ht.
  destruct (expand_inv_reach _ _ (expand_inv_start r c W) R Sm) as (c' & W' & Eb & EF & St & P).
  destruct (P t pd Ht) as (? & ? & A & ? & ? & ?). destruct (nvm_commit _ _ _) as [[ok r'] tr] eqn:Hc.
  pose proof W' as [? ? ? ?].
  apply (nvm_commit_cases _ c') in Hc as (_ & _ & [(-> & _ & _)|(-> & N & _)]); [split; [done|done]| |done|lia|lia].
  assert (length (x_granted s) <> pd_seen pd) by (intros E; apply N, A, E).
  split; [lia|]. intros E. now exfalso.
Qed.

Lemma expand_lock_free_witness :
  (nvm_commit (x_region demo_expand) (2 ^ 40 + 4096) (2 ^ 40 + 8192)).1.1 = false /\ (0 < length (x_granted demo_expand))%nat.
Proof.
  assert (E : (nvm_commit (x_region demo_expand) (2 ^ 40 + 4096) (2 ^ 40 + 8192)).1.1 = false) by (vm_compute; reflexivity).
  split; [exact E|].
  pose proof (expand_lock_free _ _ _ 1%nat (mkPend (2 ^ 40 + 4096) (2 ^ 40 + 4096) 4096 (2 ^ 40 + 8192) 0)
    demo_region_wf demo_expand_reach (proj1 demo_expand_small) eq_refl) as H.
  cbn [pd_old pd_next pd_seen] in H. destruct (nvm_commit _ _ _) as [[ok r'] tr]. exact (proj1 H E).
Defined.

(** [AtomicCrossPtrCnt] is a round trip and its exchange is an exchange
    of (pointer, counter) pairs. Storing null or a pointer strictly inside the first 2^30 bytes
    of the region and loading it gives the pointer and the counter modulo 2^34; a pointer to the
    region's very start is read back as null (the reason the first superblock is never used);
    every 64-bit word is the encoding of what it loads as; and the exchange succeeds exactly
    when the stored pair equals the expected pair. *)
Theorem counted_ptr_roundtrip g i p c q d w des :
  0 <= rg_lookup g i < 2 ^ 63 -> cnt_fits g i p -> cnt_fits g i q -> 0 <= d < 2 ^ 34 ->
  0 <= w < 2 ^ 64 ->
  cnt_load g i (cnt_word g i (mkPC p c)) = mkPC p (c mod 2 ^ 34) /\
  ptr (cnt_load g i (cnt_word g i (mkPC (rg_lookup g i) c))) = 0 /\
  cnt_word g i (cnt_load g i w) = w /\
  (cnt_cas g i (cnt_word g i (mkPC p c)) (mkPC q d) des).1.1 =
    bool_decide (mkPC p (c mod 2 ^ 34) = mkPC q d).
Proof.
  intros Hb Fp Fq Hd Hw. split; [now apply cnt_load_word|]. split; [|split; [now apply cnt_word_load|]].
  - assert (E : cnt_word g i (mkPC (rg_lookup g i) c) = c mod 2 ^ 34 * 2 ^ 30).
    { unfold cnt_word, untranslate. cbn [ptr cnt]. rewrite cnt_prefix_eq, Z.sub_diag, Z.lor_0_l.
      now destruct (_ =? 0). }
    rewrite E, cnt_load_eq. cbn [ptr]. now rewrite Z.mod_mul.
  - unfold cnt_cas. destruct (Z.eqb_spec (cnt_word g i (mkPC p c)) (cnt_word g i (mkPC q d))) as [E|N]; cbn;
      symmetry; [apply bool_decide_eq_true|apply bool_decide_eq_false].
    + apply (f_equal (cnt_load g i)) in E. rewrite !cnt_load_word in E by done.
      now rewrite (Z.mod_small d) in E.
    + intros E. apply N. injection E as -> <-. rewrite !cnt_word_eq by done. now rewrite Z.mod_mod.
Qed.

Lemma counted_ptr_roundtrip_witness :
  cnt_load (mkRegions [] [4096; 0; 0] 0) DESC_IDX
    (cnt_word (mkRegions [] [4096; 0; 0] 0) DESC_IDX (mkPC (4096 + 64) (2 ^ 34 + 5))) = mkPC (4096 + 64) 5.
Proof.
  pose proof (counted_ptr_roundtrip (mkRegions [] [4096; 0; 0] 0) DESC_IDX (4096 + 64) (2 ^ 34 + 5)
    0 0 0 (mkPC 0 0)) as H.
  destruct H as [E _]; [cbn; lia|right; cbn; lia|left; done|lia|lia|]. exact E.
Defined.
