(* ===== verification/Ralloc.v ===== *)
(** * The Ralloc allocator: descriptors, thread caches, allocation and free

    [src/ralloc/src/BaseMeta.hpp/.cpp] without the collector, [TCache.hpp/.cpp] and the API of
    [ralloc.cpp], as one thread runs them. The state is the three mapped regions: the bytes of
    the superblock region, the descriptors by address, the metadata object; the thread's caches;
    and the stores and write-backs issued so far, latest first. The libraries are compiled
    without [NDEBUG], so a failed [assert] stops the program. *)

From S2P Require Import Prelude Pptr ByteMem SizeClass Regions.

(** ** Data *)

Inductive SuperblockState := SB_ERROR | SB_FULL | SB_PARTIAL | SB_EMPTY.

#[export] Instance SuperblockState_eq_dec : EqDecision SuperblockState.
Proof. solve_decision. Defined.

(** [struct Anchor]: two 31-bit fields and a 2-bit state *)
Record Anchor := mkAnchor { avail : Z; count : Z; state : SuperblockState }.

#[export] Instance Anchor_eq_dec : EqDecision Anchor.
Proof. solve_decision. Defined.

Definition u31 (x : Z) : Z := x mod 2 ^ 31.

(** [struct Descriptor]; [next_free] is the word at offset 0, [next_partial] at offset 8 *)
Record Descriptor := mkDesc {
  next_free : Z; next_partial : Z; anchor : Anchor;
  superblock : Z; heap : Z; block_size : Z; maxcount : Z }.

(** [Descriptor()]: null links, the zero anchor, null region pointers *)
Definition Descriptor_new : Descriptor :=
  mkDesc (to_pptr_off 0 0) (to_pptr_off 0 0) (mkAnchor 0 0 SB_ERROR) 0 0 0 0.

(** A descriptor of the zero-filled file *)
Definition Descriptor_zero : Descriptor := mkDesc 0 0 (mkAnchor 0 0 SB_ERROR) 0 0 0 0.

Definition set_next_free (w : Z) (d : Descriptor) : Descriptor :=
  mkDesc w (next_partial d) (anchor d) (superblock d) (heap d) (block_size d) (maxcount d).
Definition set_next_partial (w : Z) (d : Descriptor) : Descriptor :=
  mkDesc (next_free d) w (anchor d) (superblock d) (heap d) (block_size d) (maxcount d).
Definition set_anchor (a : Anchor) (d : Descriptor) : Descriptor :=
  mkDesc (next_free d) (next_partial d) a (superblock d) (heap d) (block_size d) (maxcount d).
Definition set_superblock (o : Z) (d : Descriptor) : Descriptor :=
  mkDesc (next_free d) (next_partial d) (anchor d) o (heap d) (block_size d) (maxcount d).
Definition set_heap (o : Z) (d : Descriptor) : Descriptor :=
  mkDesc (next_free d) (next_partial d) (anchor d) (superblock d) o (block_size d) (maxcount d).
Definition set_block_size (n : Z) (d : Descriptor) : Descriptor :=
  mkDesc (next_free d) (next_partial d) (anchor d) (superblock d) (heap d) n (maxcount d).
Definition set_maxcount (n : Z) (d : Descriptor) : Descriptor :=
  mkDesc (next_free d) (next_partial d) (anchor d) (superblock d) (heap d) (block_size d) n.

Record ProcHeap := mkHeap { partial_list : Z; sc_idx : Z }.

Record TCacheBin := mkBin { _block : Z; _block_num : Z }.

(** The robust mutex that marks a heap as in use: free, held by a live process, left behind by
    a process that died holding it, or not a mutex. *)
Inductive mutex := Unlocked | Locked | OwnerDead | Invalid.

Record BaseMeta := mkMeta {
  avail_sb : Z; dirty_mtx : mutex; heaps : list ProcHeap; roots : list Z }.

(** Offsets of the members of [BaseMeta], and its size. *)
Definition HEAPS_OFF : Z := 64.
Definition ROOTS_OFF : Z := HEAPS_OFF + 64 * MAX_SZ_IDX.
Definition sizeof_BaseMeta : Z := ROOTS_OFF + 8 * MAX_ROOTS.

Record rst := mkR {
  r_rgs : Regions;
  r_mem : bmem;
  r_desc : gmap Z Descriptor;
  r_md : BaseMeta;
  r_tc : list TCacheBin;
  r_filters : list bool;   (* which entries of roots_filter_func are set *)
  r_init : bool;           (* initialized *)
  r_trace : list pev }.

Definition with_rgs (g : Regions) (s : rst) : rst :=
  mkR g (r_mem s) (r_desc s) (r_md s) (r_tc s) (r_filters s) (r_init s) (r_trace s).
Definition with_mem (m : bmem) (s : rst) : rst :=
  mkR (r_rgs s) m (r_desc s) (r_md s) (r_tc s) (r_filters s) (r_init s) (r_trace s).
Definition with_desc (d : gmap Z Descriptor) (s : rst) : rst :=
  mkR (r_rgs s) (r_mem s) d (r_md s) (r_tc s) (r_filters s) (r_init s) (r_trace s).
Definition with_md (b : BaseMeta) (s : rst) : rst :=
  mkR (r_rgs s) (r_mem s) (r_desc s) b (r_tc s) (r_filters s) (r_init s) (r_trace s).
Definition with_tc (t : list TCacheBin) (s : rst) : rst :=
  mkR (r_rgs s) (r_mem s) (r_desc s) (r_md s) t (r_filters s) (r_init s) (r_trace s).
Definition with_filters (f : list bool) (s : rst) : rst :=
  mkR (r_rgs s) (r_mem s) (r_desc s) (r_md s) (r_tc s) f (r_init s) (r_trace s).
Definition with_init (b : bool) (s : rst) : rst :=
  mkR (r_rgs s) (r_mem s) (r_desc s) (r_md s) (r_tc s) (r_filters s) b (r_trace s).
Definition emit (l : list pev) (s : rst) : rst :=
  mkR (r_rgs s) (r_mem s) (r_desc s) (r_md s) (r_tc s) (r_filters s) (r_init s) (rev_append l (r_trace s)).

Definition set_avail_sb (w : Z) (b : BaseMeta) : BaseMeta := mkMeta w (dirty_mtx b) (heaps b) (roots b).
Definition set_mtx (x : mutex) (b : BaseMeta) : BaseMeta := mkMeta (avail_sb b) x (heaps b) (roots b).
Definition set_heaps (h : list ProcHeap) (b : BaseMeta) : BaseMeta := mkMeta (avail_sb b) (dirty_mtx b) h (roots b).
Definition set_roots (r : list Z) (b : BaseMeta) : BaseMeta := mkMeta (avail_sb b) (dirty_mtx b) (heaps b) r.

(** ** Accesses *)

(** [n] bytes at [a] lie inside the mapping of region [i]. *)
Definition mapped (s : rst) (i : RegionIndex) (a n : Z) : bool :=
  match get_region (r_rgs s) i with
  | Some r => (base_addr r <=? a) && (a + n <=? base_addr r + FILESIZE r)
  | None => false
  end.

Definition descr (s : rst) (a : Z) : Descriptor := default Descriptor_zero (r_desc s !! a).

Definition ld_link (p : Z) : stM rst Z := fun s =>
  if mapped s SB_IDX p 8 then Ok (ld_pptr (r_mem s) p, s) else Err UB_access.
Definition st_link (p v : Z) : stM rst unit := fun s =>
  if mapped s SB_IDX p 8 then Ok (tt, with_mem (st_pptr p v (r_mem s)) s) else Err UB_access.

Definition get_d (a : Z) : stM rst Descriptor := fun s =>
  if mapped s DESC_IDX a DESCSIZE then Ok (descr s a, s) else Err UB_access.
Definition put_d (a : Z) (d : Descriptor) : stM rst unit := fun s =>
  if mapped s DESC_IDX a DESCSIZE
  then Ok (tt, emit [Wrote a] (with_desc (<[a := d]> (r_desc s)) s)) else Err UB_access.
Definition upd_d (a : Z) (f : Descriptor -> Descriptor) : stM rst unit :=
  d <- get_d a; put_d a (f d).

(** [new (desc) Descriptor()] *)
Definition construct (a : Z) : stM rst unit := put_d a Descriptor_new;; cmod (emit [Flush a; Fence]).

Definition get_bin (sc : Z) : stM rst TCacheBin := fun s =>
  match r_tc s !! Z.to_nat sc with Some b => Ok (b, s) | None => Err UB_access end.
Definition put_bin (sc : Z) (b : TCacheBin) : stM rst unit :=
  cmod (fun s => with_tc (<[Z.to_nat sc := b]> (r_tc s)) s).

(** [&heaps[i]], and the index of the heap a pointer points to *)
Definition heap_addr (s : rst) (i : Z) : Z := rg_lookup (r_rgs s) META_IDX + HEAPS_OFF + 64 * i.
Definition heap_index (p : Z) : stM rst Z := fun s =>
  let o := p - rg_lookup (r_rgs s) META_IDX - HEAPS_OFF in
  if (0 <=? o) && (o <? 64 * MAX_SZ_IDX) && (o mod 64 =? 0) then Ok (o / 64, s) else Err UB_access.
Definition get_heap (i : Z) : stM rst ProcHeap := fun s =>
  match heaps (r_md s) !! Z.to_nat i with Some h => Ok (h, s) | None => Err UB_access end.

(** Runs of an exchange loop: alone, the first exchange succeeds. *)
Definition CAS_FUEL : nat := 2.

(** ** Thread cache ([TCache.cpp]) *)

Definition push_block (sc block : Z) : stM rst unit :=
  b <- get_bin sc;
  st_link block (_block b);;
  put_bin sc (mkBin block (u32 (_block_num b + 1))).

Definition push_list (sc block length : Z) : stM rst unit :=
  b <- get_bin sc;
  cassert (_block_num b =? 0);;
  put_bin sc (mkBin block length).

Definition pop_block (sc : Z) : stM rst Z :=
  b <- get_bin sc;
  cassert (0 <? _block_num b);;
  let ret := _block b in
  next <- ld_link ret;
  put_bin sc (mkBin next (u32 (_block_num b - 1)));;
  cret ret.

Definition pop_list (sc block length : Z) : stM rst unit :=
  b <- get_bin sc;
  cassert (length <=? _block_num b);;
  put_bin sc (mkBin block (u32 (_block_num b - length))).

(** ** Lookups ([BaseMeta.cpp]) *)

Definition desc_lookup (g : Regions) (ptr : Z) : Z :=
  let sb_index := u64 (Z.shiftr ptr SB_SHIFT - Z.shiftr (rg_lookup g SB_IDX) SB_SHIFT) in
  u64 (rg_lookup g DESC_IDX + DESCSIZE * sb_index).

Definition sb_lookup (g : Regions) (desc : Z) : Z :=
  let desc_index := u64 (Z.shiftr desc DESC_SHIFT - Z.shiftr (rg_lookup g DESC_IDX) DESC_SHIFT) in
  u64 (rg_lookup g SB_IDX + u64 (Z.shiftl desc_index SB_SHIFT)).

Definition round_up (numToRound multiple : Z) : Z :=
  Z.land (u64 (numToRound + multiple - 1)) (not64 (multiple - 1)).

(** [compute_idx]: the [switch] has one case per table row that is a class *)
Definition compute_idx (superblock block sc_idx : Z) : stM rst Z :=
  let sc := get_sizeclass_by_idx sc_idx in
  cassert (superblock <=? block);;
  cassert (block <? superblock + sc_sb_size sc);;
  let diff := u32 (block - superblock) in
  match List.find (fun r => bin r && (index r + 1 =? sc_idx)) SIZE_CLASSES with
  | Some r =>
      cassert (sc_block_size sc =? SC_block_size r);;
      let idx := diff / SC_block_size r in
      cassert (diff / sc_block_size sc =? idx);;
      cret idx
  | None => cfail AssertFail
  end.

(** ** Partial lists *)

Definition heap_cas (i : Z) (expected desired : ptr_cnt) : stM rst (bool * ptr_cnt) := fun s =>
  match heaps (r_md s) !! Z.to_nat i with
  | None => Err UB_access
  | Some h =>
      let '(ok, e, w) := cnt_cas (r_rgs s) DESC_IDX (partial_list h) expected desired in
      Ok ((ok, e), with_md (set_heaps (<[Z.to_nat i := mkHeap w (sc_idx h)]> (heaps (r_md s))) (r_md s)) s)
  end.

Fixpoint heap_push_partial_loop (fuel : nat) (i desc : Z) (oldhead : ptr_cnt) : stM rst unit :=
  match fuel with
  | O => cfail OutOfFuel
  | S fuel =>
      let newhead := mkPC desc (u64 (cnt oldhead + 1)) in
      cassert (negb (ptr oldhead =? ptr newhead));;
      upd_d desc (set_next_partial (to_pptr_off (ptr oldhead) (desc + 8)));;
      '(ok, e) <- heap_cas i oldhead newhead;
      if (ok : bool) then cret tt else heap_push_partial_loop fuel i desc e
  end.

Definition heap_push_partial (desc : Z) : stM rst unit :=
  d <- get_d desc;
  g <- cgets r_rgs;
  i <- heap_index (CrossPtr_get g META_IDX (heap d));
  h <- get_heap i;
  heap_push_partial_loop CAS_FUEL i desc (cnt_load g DESC_IDX (partial_list h)).

Fixpoint heap_pop_partial_loop (fuel : nat) (i : Z) (oldhead : ptr_cnt) : stM rst Z :=
  match fuel with
  | O => cfail OutOfFuel
  | S fuel =>
      let olddesc := ptr oldhead in
      if olddesc =? 0 then cret 0
      else
        d <- get_d olddesc;
        let desc := from_pptr_off (next_partial d) (olddesc + 8) in
        '(ok, e) <- heap_cas i oldhead (mkPC desc (cnt oldhead));
        if (ok : bool) then cret olddesc else heap_pop_partial_loop fuel i e
  end.

Definition heap_pop_partial (i : Z) : stM rst Z :=
  g <- cgets r_rgs;
  h <- get_heap i;
  heap_pop_partial_loop CAS_FUEL i (cnt_load g DESC_IDX (partial_list h)).

(** ** The list of free superblocks *)

Definition avail_cas (expected desired : ptr_cnt) : stM rst (bool * ptr_cnt) := fun s =>
  let '(ok, e, w) := cnt_cas (r_rgs s) DESC_IDX (avail_sb (r_md s)) expected desired in
  Ok ((ok, e), with_md (set_avail_sb w (r_md s)) s).

Definition avail_load : stM rst ptr_cnt :=
  cgets (fun s => cnt_load (r_rgs s) DESC_IDX (avail_sb (r_md s))).

(** The push of the chain [first..last] of descriptors, in [organize_sb_list] and
    [small_sb_retire]. *)
Fixpoint avail_push_loop (fuel : nat) (first last : Z) (oldhead : ptr_cnt) : stM rst unit :=
  match fuel with
  | O => cfail OutOfFuel
  | S fuel =>
      upd_d last (set_next_free (to_pptr_off (ptr oldhead) last));;
      '(ok, e) <- avail_cas oldhead (mkPC first (u64 (cnt oldhead + 1)));
      if (ok : bool) then cret tt else avail_push_loop fuel first last e
  end.

Definition organize_sb_list (start count : Z) : stM rst unit :=
  g <- cgets r_rgs;
  let desc_start := desc_lookup g start in
  construct desc_start;;
  cfor (seqZ 1 (count - 1)) (fun i =>
    let desc := desc_start + DESCSIZE * (i - 1) in
    upd_d desc (set_next_free (to_pptr_off (desc + DESCSIZE) desc));;
    construct (desc + DESCSIZE));;
  let desc := desc_start + DESCSIZE * (Z.max count 1 - 1) in
  oldhead <- avail_load;
  avail_push_loop CAS_FUEL desc_start desc oldhead.

Definition small_sb_retire (sb size : Z) : stM rst unit :=
  cassert (size =? SBSIZE);;
  g <- cgets r_rgs;
  let desc := desc_lookup g sb in
  construct desc;;
  oldhead <- avail_load;
  avail_push_loop CAS_FUEL desc desc oldhead.

Definition with_region (i : RegionIndex) (r : RegionManager) (s : rst) : rst :=
  with_rgs (set_region (r_rgs s) (idx_nat i) r) s.

Definition sb_region : stM rst RegionManager := fun s =>
  match get_region (r_rgs s) SB_IDX with Some r => Ok (r, s) | None => Err UB_access end.

(** The branch of [small_sb_alloc] for an empty list: [None] is a [continue] or a lost
    exchange, after which the loop runs again with the same [oldhead]. *)
Definition small_sb_expand : stM rst (option Z) :=
  r <- sb_region;
  let old_curr_addr := curr_addr r in
  let aln_adj := Z.land old_curr_addr (PAGESIZE - 1) in
  let res := if negb (aln_adj =? 0) then u64 (old_curr_addr + (PAGESIZE - aln_adj)) else old_curr_addr in
  let next := u64 (res + SB_REGION_EXPAND_SIZE) in
  h <- avail_load;
  if negb (ptr h =? 0) then cret None
  else
    cassert (next <=? base_addr r + FILESIZE r);;
    let '(ok, r', tr) := nvm_commit r old_curr_addr next in
    cmod (fun s => emit tr (with_region SB_IDX r' s));;
    if (ok : bool) then
      organize_sb_list (u64 (res + SBSIZE)) (SB_REGION_EXPAND_SIZE / SBSIZE - 1);;
      g <- cgets r_rgs;
      construct (desc_lookup g res);;
      cret (Some res)
    else cret None.

Fixpoint small_sb_alloc_loop (fuel : nat) (oldhead : ptr_cnt) : stM rst Z :=
  match fuel with
  | O => cfail OutOfFuel
  | S fuel =>
      let oldptr := ptr oldhead in
      if negb (oldptr =? 0) then
        d <- get_d oldptr;
        '(ok, e) <- avail_cas oldhead (mkPC (from_pptr_off (next_free d) oldptr) (cnt oldhead));
        g <- cgets r_rgs;
        if (ok : bool) then cret (sb_lookup g oldptr) else small_sb_alloc_loop fuel e
      else
        o <- small_sb_expand;
        match o with
        | Some res => cret res
        | None => small_sb_alloc_loop fuel oldhead
        end
  end.

Definition small_sb_alloc (size : Z) : stM rst Z :=
  cassert (size =? SBSIZE);;
  oldhead <- avail_load;
  small_sb_alloc_loop CAS_FUEL oldhead.

(** ** Large blocks *)

Fixpoint expand_loop (fuel : nat) (i : RegionIndex) (alignment sz : Z) : stM rst Z :=
  match fuel with
  | O => cfail OutOfFuel
  | S fuel =>
      g <- cgets r_rgs;
      match expand g i alignment sz with
      | Err e => cfail e
      | Ok (res, p, g', tr) =>
          cmod (fun s => emit tr (with_rgs g' s));;
          cassert (negb (res =? -1));;
          match p with
          | Some p => if res =? 0 then expand_loop fuel i alignment sz else cret p
          | None => expand_loop fuel i alignment sz
          end
      end
  end.

Definition expand_get_large_sb (sz : Z) : stM rst Z :=
  ret <- expand_loop CAS_FUEL SB_IDX PAGESIZE sz;
  g <- cgets r_rgs;
  construct (desc_lookup g ret);;
  cret ret.

Definition large_sb_retire (sb size : Z) : stM rst unit :=
  cassert (size mod SBSIZE =? 0);;
  organize_sb_list sb (size / SBSIZE).

(** ** Filling and flushing a cache *)

(** Exchange loops on an anchor: the anchor is replaced if it is still the expected one. *)
Definition anchor_cas (desc : Z) (old new : Anchor) : stM rst (bool * Anchor) :=
  d <- get_d desc;
  if bool_decide (anchor d = old) then put_d desc (set_anchor new d);; cret (true, old)
  else cret (false, anchor d).

(** The reservation loop of [malloc_from_partial]: [None] if the superblock was empty and has
    been retired, otherwise the anchor that was replaced. *)
Fixpoint reserve_loop (fuel : nat) (i desc superblock maxcount : Z) (oldanchor : Anchor)
  : stM rst (option Anchor) :=
  match fuel with
  | O => cfail OutOfFuel
  | S fuel =>
      if bool_decide (state oldanchor = SB_EMPTY) then
        h <- get_heap i;
        small_sb_retire superblock (sc_sb_size (get_sizeclass_by_idx (sc_idx h)));;
        cret None
      else
        cassert (bool_decide (state oldanchor = SB_PARTIAL));;
        '(ok, e) <- anchor_cas desc oldanchor (mkAnchor (u31 maxcount) 0 SB_FULL);
        if (ok : bool) then cret (Some oldanchor)
        else reserve_loop fuel i desc superblock maxcount e
  end.

(** [malloc_from_partial]; the result is what is added to [block_num] *)
Fixpoint malloc_from_partial (fuel : nat) (sc_idx : Z) : stM rst Z :=
  match fuel with
  | O => cfail OutOfFuel
  | S fuel =>
      desc <- heap_pop_partial sc_idx;
      if desc =? 0 then cret 0
      else
        d <- get_d desc;
        g <- cgets r_rgs;
        let sb := CrossPtr_get g SB_IDX (superblock d) in
        o <- reserve_loop CAS_FUEL sc_idx desc sb (maxcount d) (anchor d);
        match o with
        | None => malloc_from_partial fuel sc_idx
        | Some oldanchor =>
            let block_take := count oldanchor in
            cassert (avail oldanchor <? maxcount d);;
            let block := u64 (sb + u32 (avail oldanchor * block_size d)) in
            b <- get_bin sc_idx;
            cassert (_block_num b =? 0);;
            push_list sc_idx block block_take;;
            cret block_take
        end
  end.

Definition malloc_from_newsb (sc_idx : Z) : stM rst Z :=
  let sc := get_sizeclass_by_idx sc_idx in
  let bsize := sc_block_size sc in
  let maxcnt := sc_block_num sc in
  sb <- small_sb_alloc (sc_sb_size sc);
  cassert (negb (sb =? 0));;
  g <- cgets r_rgs;
  hp <- cgets (fun s => heap_addr s sc_idx);
  let desc := desc_lookup g sb in
  upd_d desc (set_heap (CrossPtr_assign g META_IDX hp));;
  upd_d desc (set_block_size bsize);;
  upd_d desc (set_maxcount maxcnt);;
  upd_d desc (set_superblock (CrossPtr_assign g SB_IDX sb));;
  cfor (seqZ 0 (maxcnt - 1)) (fun idx =>
    st_link (u64 (sb + u32 (idx * bsize))) (u64 (sb + u32 ((idx + 1) * bsize))));;
  push_list sc_idx sb maxcnt;;
  let a := mkAnchor (u31 maxcnt) 0 SB_FULL in
  upd_d desc (set_anchor a);;
  cmod (emit [Flush desc; Fence]);;
  cassert ((avail a <? maxcnt) || bool_decide (state a = SB_FULL));;
  cassert (count a <? maxcnt);;
  cassert (bool_decide (state a = SB_FULL));;
  cret maxcnt.

(** A bound on the retries of [malloc_from_partial]: one more than there are superblocks. *)
Definition sb_count (s : rst) : Z :=
  match get_region (r_rgs s) SB_IDX with
  | Some r => (curr_addr r - rg_lookup (r_rgs s) SB_IDX) / SBSIZE
  | None => 0
  end.

Definition fill_cache (sc_idx : Z) : stM rst unit :=
  n <- cgets sb_count;
  block_num <- malloc_from_partial (S (Z.to_nat n)) sc_idx;
  block_num' <- (if block_num =? 0 then k <- malloc_from_newsb sc_idx; cret (block_num + k) else cret block_num);
  cassert (0 <? block_num');;
  cassert (block_num' <=? sc_cache_block_num (get_sizeclass_by_idx sc_idx)).

(** The inner [while] of [flush_cache]: the last block and the number of leading cached blocks
    that lie in the superblock. *)
Fixpoint flush_scan (fuel : nat) (n sb sb_size tail block_count : Z) : stM rst (Z * Z) :=
  match fuel with
  | O => cfail OutOfFuel
  | S fuel =>
      if block_count <? n then
        ptr <- ld_link tail;
        if (ptr <? sb) || (sb + sb_size <=? ptr) then cret (tail, block_count)
        else flush_scan fuel n sb sb_size ptr (u32 (block_count + 1))
      else cret (tail, block_count)
  end.

(** The anchor a flush of [block_count] blocks headed by block [idx] installs. *)
Definition flush_anchor (old : Anchor) (idx block_count maxcount : Z) : Anchor :=
  let st := if bool_decide (state old = SB_FULL) then SB_PARTIAL else state old in
  if u32 (count old + block_count) =? maxcount then mkAnchor (u31 idx) (u31 (maxcount - 1)) SB_EMPTY
  else mkAnchor (u31 idx) (u31 (count old + block_count)) st.

(** The exchange loop of [flush_cache]: the anchor replaced and the one installed. *)
Fixpoint flush_anchor_loop (fuel : nat) (desc sb tail idx block_count bsize : Z) (old : Anchor)
  : stM rst (Anchor * Anchor) :=
  match fuel with
  | O => cfail OutOfFuel
  | S fuel =>
      st_link tail (u64 (sb + u32 (avail old * bsize)));;
      d <- get_d desc;
      cassert (count old <? maxcount d);;
      let new := flush_anchor old idx block_count (maxcount d) in
      '(ok, e) <- anchor_cas desc old new;
      if (ok : bool) then cret (old, new) else flush_anchor_loop fuel desc sb tail idx block_count bsize e
  end.

(** One turn of the outer [while] of [flush_cache]. *)
Definition flush_one (sc_idx : Z) : stM rst unit :=
  let sc := get_sizeclass_by_idx sc_idx in
  b <- get_bin sc_idx;
  let head := _block b in
  g <- cgets r_rgs;
  let desc := desc_lookup g head in
  d <- get_d desc;
  let sb := CrossPtr_get g SB_IDX (superblock d) in
  '(tail, block_count) <- flush_scan (Z.to_nat (_block_num b) + 1) (_block_num b) sb (sc_sb_size sc) head 1;
  next <- ld_link tail;
  pop_list sc_idx next block_count;;
  idx <- compute_idx sb head sc_idx;
  d <- get_d desc;
  '(old, new) <- flush_anchor_loop CAS_FUEL desc sb tail idx block_count (sc_block_size sc) (anchor d);
  let maxcount := sc_block_num sc in
  cassert ((avail old <? maxcount) || bool_decide (state old = SB_FULL));;
  cassert (avail new <? maxcount);;
  cassert (count new <? maxcount);;
  if bool_decide (state old = SB_FULL) then
    if bool_decide (state new = SB_EMPTY) then small_sb_retire sb SBSIZE
    else heap_push_partial desc
  else cret tt.

Fixpoint flush_loop (fuel : nat) (sc_idx : Z) : stM rst unit :=
  match fuel with
  | O => cfail OutOfFuel
  | S fuel =>
      b <- get_bin sc_idx;
      if 0 <? _block_num b then flush_one sc_idx;; flush_loop fuel sc_idx else cret tt
  end.

(** [flush_cache]: every turn takes at least one block out of the cache *)
Definition flush_cache (sc_idx : Z) : stM rst unit :=
  b <- get_bin sc_idx;
  flush_loop (Z.to_nat (_block_num b) + 1) sc_idx.

(** ** Allocation and free *)

Definition do_malloc (size : Z) : stM rst Z :=
  if MAX_SZ <? size then
    let sbs := round_up size SBSIZE in
    ptr <- expand_get_large_sb sbs;
    cassert (negb (ptr =? 0));;
    g <- cgets r_rgs;
    hp <- cgets (fun s => heap_addr s 0);
    let desc := desc_lookup g ptr in
    upd_d desc (set_heap (CrossPtr_assign g META_IDX hp));;
    upd_d desc (set_block_size (u32 sbs));;
    upd_d desc (set_maxcount 1);;
    upd_d desc (set_superblock (CrossPtr_assign g SB_IDX ptr));;
    upd_d desc (set_anchor (mkAnchor 0 0 SB_FULL));;
    cmod (emit [FlushLocal; Fence]);;
    cret ptr
  else
    match get_sizeclass size with
    | None => cfail UB_access
    | Some sc_idx =>
        b <- get_bin sc_idx;
        (if _block_num b =? 0 then fill_cache sc_idx else cret tt);;
        pop_block sc_idx
    end.

Definition do_free (ptr : Z) : stM rst unit :=
  if ptr =? 0 then cret tt
  else
    g <- cgets r_rgs;
    cassert (in_range g SB_IDX ptr);;
    let desc := desc_lookup g ptr in
    d <- get_d desc;
    i <- heap_index (translate g META_IDX (heap d));
    h <- get_heap i;
    let sc := sc_idx h in
    if sc =? 0 then large_sb_retire (CrossPtr_get g SB_IDX (superblock d)) (block_size d)
    else
      b <- get_bin sc;
      (if sc_cache_block_num (get_sizeclass_by_idx sc) <=? _block_num b then flush_cache sc else cret tt);;
      push_block sc ptr.

(** [public_flush_cache] *)
Definition public_flush_cache : stM rst unit :=
  i <- cgets r_init;
  if (i : bool) then cfor (seqZ 1 (MAX_SZ_IDX - 1)) flush_cache else cret tt.

(** ** Roots *)

Definition set_root (ptr i : Z) : stM rst Z :=
  cassert (i <? MAX_ROOTS);;
  g <- cgets r_rgs;
  b <- cgets r_md;
  match roots b !! Z.to_nat i with
  | None => cfail UB_access
  | Some old =>
      let res := if CrossPtr_is_null old then 0 else CrossPtr_get g SB_IDX old in
      cmod (fun s => with_md (set_roots (<[Z.to_nat i := CrossPtr_assign g SB_IDX ptr]> (roots b)) b) s);;
      let a := rg_lookup g META_IDX + ROOTS_OFF + 8 * i in
      cmod (emit [Wrote a; Flush a; Fence]);;
      cret res
  end.

Definition get_root (i : Z) : stM rst Z :=
  cassert (i <? MAX_ROOTS);;
  cmod (fun s => with_filters (<[Z.to_nat i := true]> (r_filters s)) s);;
  g <- cgets r_rgs;
  b <- cgets r_md;
  match roots b !! Z.to_nat i with
  | None => cfail UB_access
  | Some off => cret (CrossPtr_get g SB_IDX off)
  end.

(** ** The dirty flag *)

(** [pthread_mutex_trylock] on a robust mutex, as POSIX documents it: the result code and the
    mutex afterwards. *)
Inductive trylock_code := LOCK_OK | EOWNERDEAD | EBUSY | EINVAL.

#[export] Instance trylock_code_eq_dec : EqDecision trylock_code.
Proof. solve_decision. Defined.

Definition trylock (m : mutex) : trylock_code * mutex :=
  match m with
  | Unlocked => (LOCK_OK, Locked)
  | Locked => (EBUSY, Locked)
  | OwnerDead => (EOWNERDEAD, Locked)
  | Invalid => (EINVAL, Invalid)
  end.

Definition set_dirty : stM rst unit :=
  b <- cgets r_md;
  let '(c, m) := trylock (dirty_mtx b) in
  cmod (with_md (set_mtx m b));;
  cassert (negb (bool_decide (c = EOWNERDEAD))).

Definition is_dirty : stM rst bool :=
  b <- cgets r_md;
  let '(c, m) := trylock (dirty_mtx b) in
  match c with
  | EOWNERDEAD => cmod (with_md (set_mtx m b));; cret true
  | LOCK_OK => cmod (with_md (set_mtx Unlocked b));; cret false
  | EBUSY => cret false
  | EINVAL => cmod (with_md (set_mtx Unlocked b));; cret true
  end.

Definition set_clean : stM rst unit := cmod (fun s => with_md (set_mtx Unlocked (r_md s)) s).

(** [writeback]: the address is advanced before the first [FLUSH] *)
Definition writeback : stM rst unit :=
  cmod (fun s => emit [FlushLines (rg_lookup (r_rgs s) META_IDX + CACHELINE_SIZE)
                         ((sizeof_BaseMeta + CACHELINE_SIZE - 1) / CACHELINE_SIZE); Fence] s);;
  set_clean.

(** ** Construction *)

(** [BaseMeta::BaseMeta()]; the object is at [t], the metadata region's address being set only
    after the constructor *)
Definition BaseMeta_ctor (t : Z) : stM rst unit :=
  cmod (with_md (mkMeta 0 Unlocked (replicate (Z.to_nat MAX_SZ_IDX) (mkHeap 0 0)) (replicate (Z.to_nat MAX_ROOTS) 0)));;
  set_dirty;;
  cmod (emit [Flush (t + 8); Flush (t + 16)]);;
  cfor (seqZ 0 MAX_SZ_IDX) (fun idx =>
    cmod (fun s => with_md (set_heaps (<[Z.to_nat idx := mkHeap 0 idx]> (heaps (r_md s))) (r_md s)) s);;
    cmod (emit [Flush (t + HEAPS_OFF + 64 * idx)]));;
  cfor (seqZ 0 MAX_ROOTS) (fun i =>
    cmod (fun s => with_md (set_roots (<[Z.to_nat i := 0]> (roots (r_md s))) (r_md s)) s);;
    cmod (emit [Flush (t + ROOTS_OFF + 8 * i)]));;
  tmp <- expand_loop CAS_FUEL SB_IDX SBSIZE SB_REGION_EXPAND_SIZE;
  r <- sb_region;
  let '(r', tr) := store_heap_start r tmp in
  cmod (fun s => emit tr (with_region SB_IDX r' s));;
  cmod (fun s => with_rgs (set_address (r_rgs s) (idx_nat SB_IDX) tmp) s);;
  organize_sb_list (u64 (tmp + SBSIZE)) (SB_REGION_EXPAND_SIZE / SBSIZE - 1);;
  cmod (emit [Fence]).

(** The three files of a heap: headers, and contents by offset from the start of the file. *)
Record disk := mkDisk {
  k_desc : option region_file; k_sb : option region_file; k_meta : option region_file;
  k_descs : gmap Z Descriptor; k_bytes : bmem; k_md : BaseMeta }.

Definition BaseMeta_zero : BaseMeta := mkMeta 0 Invalid [] [].
Definition disk_empty : disk := mkDisk None None None ∅ ∅ BaseMeta_zero.

Definition base_of (g : Regions) (i : RegionIndex) : Z :=
  match get_region g i with Some r => base_addr r | None => 0 end.

(** The zero byte [__remap_persistent_region] writes at the end of an existing superblock file.
    In a new file, all zero, the write changes no byte; in the descriptor and metadata files the
    last byte lies in a page behind the objects. *)
Definition remapped_bytes (k : disk) (g : Regions) (m : bmem) : bmem :=
  match k_sb k, get_region g SB_IDX with
  | Some _, Some r => <[base_addr r + (FILESIZE r - 1) := 0]> m
  | _, _ => m
  end.

(** [_RP_init]: the three regions in the order of [RegionIndex]; [create_for] constructs the
    metadata if its file is new. The contents are seen through the new mappings. *)
Definition _RP_init (k : disk) (size : Z) (os : os_answer * os_answer * os_answer) : res (Z * rst) :=
  let '(os_d, os_s, os_m) := os in
  if negb ((size <? MAX_SB_REGION_SIZE) && (MIN_SB_REGION_SIZE <=? size)) then Err AssertFail
  else
    let num_sb := size / SBSIZE in
    let restart := bool_decide (is_Some (k_meta k)) in
    match create Regions_new (k_desc k) (num_sb * DESCSIZE) true true os_d with
    | Err e => Err e
    | Ok (g1, tr1) =>
    match create g1 (k_sb k) (num_sb * SBSIZE) true false os_s with
    | Err e => Err e
    | Ok (g2, tr2) =>
    match RegionManager_new (k_meta k) sizeof_BaseMeta true true os_m with
    | Err e => Err e
    | Ok (mgr, tr3) =>
        let g3 := set_region g2 (idx_nat META_IDX) mgr in
        let t := fetch_heap_start mgr in
        let s0 := mkR g3 (remapped_bytes k g3 (kmap (Z.add (base_of g3 SB_IDX)) (k_bytes k)))
                    (kmap (Z.add (base_of g3 DESC_IDX)) (k_descs k)) (k_md k)
                    (replicate (Z.to_nat MAX_SZ_IDX) (mkBin 0 0))
                    (replicate (Z.to_nat MAX_ROOTS) false) false (rev (tr1 ++ tr2 ++ tr3)) in
        match (if restart then cret tt else BaseMeta_ctor t) s0 with
        | Err e => Err e
        | Ok (_, s1) =>
            let g4 := set_address (r_rgs s1) (idx_nat META_IDX) t in
            let g5 := mkRegions (regions g4) (regions_address g4) (cur_idx g4 + 1) in
            Ok (bool_Z restart, with_init true (with_rgs g5 s1))
        end
    end end end.

(** [~RallocHolder] after the thread's caches were flushed: the files left behind *)
Definition RallocHolder_destroy : stM rst disk :=
  cmod (fun s => emit (flush_region (r_rgs s) DESC_IDX) s);;
  cmod (fun s => emit (flush_region (r_rgs s) SB_IDX) s);;
  writeback;;
  cmod (with_init false);;
  s <- cgets (fun s => s);
  let '(files, tr, g') := destroy (r_rgs s) in
  cmod (fun s => emit tr (with_rgs g' s));;
  cret (mkDisk (default None (files !! 0%nat)) (default None (files !! 1%nat)) (default None (files !! 2%nat))
          (kmap (fun a => a - base_of (r_rgs s) DESC_IDX) (r_desc s))
          (kmap (fun a => a - base_of (r_rgs s) SB_IDX) (r_mem s)) (r_md s)).

(** ** The C interface ([ralloc.cpp]) *)

Definition RP_malloc (sz : Z) : stM rst Z := i <- cgets r_init; cassert i;; do_malloc sz.
Definition RP_free (ptr : Z) : stM rst unit := i <- cgets r_init; cassert i;; do_free ptr.
(** An uninitialised heap is first opened under the name "no_explicit_init" with the default
    size of [RP_init]; [k] and [os] are that heap's files and the answers to its mappings. *)
Definition RP_INIT_DEFAULT_SIZE : Z := 5 * 1024 * 1024 * 1024.
Definition RP_set_root (k : disk) (os : os_answer * os_answer * os_answer) (ptr i : Z) : stM rst Z := fun s =>
  if r_init s then set_root ptr i s
  else match _RP_init k RP_INIT_DEFAULT_SIZE os with
       | Ok (_, s') => set_root ptr i s'
       | Err e => Err e
       end.
Definition RP_get_root_c (i : Z) : stM rst Z := b <- cgets r_init; cassert b;; get_root i.

Definition RP_malloc_size (ptr : Z) : stM rst Z :=
  g <- cgets r_rgs; d <- get_d (desc_lookup g ptr); cret (block_size d).

Definition copy_mem (dst src n : Z) : stM rst unit := fun s =>
  if mapped s SB_IDX dst n && mapped s SB_IDX src n
  then Ok (tt, with_mem (cp_bytes dst src n (r_mem s)) s) else Err UB_access.
Definition fill_mem (dst c n : Z) : stM rst unit := fun s =>
  if mapped s SB_IDX dst n then Ok (tt, with_mem (set_bytes dst c n (r_mem s)) s) else Err UB_access.

Definition RP_realloc (ptr new_size : Z) : stM rst Z :=
  if ptr =? 0 then RP_malloc new_size
  else
    g <- cgets r_rgs;
    if negb (in_range g SB_IDX ptr) then cret 0
    else
      old_size <- RP_malloc_size ptr;
      if old_size =? new_size then cret ptr
      else
        new_ptr <- RP_malloc new_size;
        if new_ptr =? 0 then cret 0
        else
          copy_mem new_ptr ptr old_size;;
          cmod (emit [Flush new_ptr; Fence]);;
          RP_free ptr;;
          cret new_ptr.

Definition RP_calloc (num size : Z) : stM rst Z :=
  ptr <- RP_malloc (u64 (num * size));
  if ptr =? 0 then cret 0
  else
    real_size <- RP_malloc_size ptr;
    fill_mem ptr 0 real_size;;
    cmod (emit [Flush ptr; Fence]);;
    cret ptr.

Definition RP_in_prange (ptr : Z) : stM rst Z :=
  g <- cgets r_rgs; cret (bool_Z (in_range g SB_IDX ptr)).

(** [RP_region_range]: the return code and the two addresses if they are written *)
Definition RP_region_range (idx : Z) (null_args : bool) : stM rst (Z * option (Z * Z)) :=
  g <- cgets r_rgs;
  if null_args || (cur_idx g <=? idx) then cret (1, None)
  else
    match regions g !! Z.to_nat idx, regions_address g !! Z.to_nat idx with
    | Some (Some r), Some a => cret (0, Some (a, u64 (a + FILESIZE r)))
    | _, _ => cfail UB_access
    end.
