(* ===== verification/RallocInv.v ===== *)
(** * Geometry and invariant of a Ralloc heap

    The superblock region starts at a multiple of the superblock size and its descriptors are
    an array in the descriptor region; [desc_lookup] and [sb_lookup] are inverse to each other,
    every descriptor of a superblock is mapped, and the counted pointers can carry it. *)

From S2P Require Import Prelude Pptr ByteMem SizeClass Regions Ralloc.

(** The address of superblock [i] and of its descriptor. *)
Definition sbA (g : Regions) (i : Z) : Z := rg_lookup g SB_IDX + SBSIZE * i.
Definition daA (g : Regions) (i : Z) : Z := rg_lookup g DESC_IDX + DESCSIZE * i.

(** How many superblocks the superblock file can hold from the region's start. *)
Definition sb_capacity (g : Regions) (rs : RegionManager) : Z :=
  (base_addr rs + FILESIZE rs - rg_lookup g SB_IDX) / SBSIZE.

(** A heap whose superblock region holds [n] superblocks. *)
Record geo (g : Regions) (n : Z) (rd rs : RegionManager) : Prop := {
  geo_rd : get_region g DESC_IDX = Some rd;
  geo_rs : get_region g SB_IDX = Some rs;
  geo_lens : length (regions g) = 3%nat /\ length (regions_address g) = 3%nat;
  geo_D : 0 < rg_lookup g DESC_IDX /\ rg_lookup g DESC_IDX mod DESCSIZE = 0;
  geo_S : 0 < rg_lookup g SB_IDX /\ rg_lookup g SB_IDX mod SBSIZE = 0;
  geo_M : 0 <= rg_lookup g META_IDX < 2 ^ 47;
  geo_n : 1 <= n;
  geo_wf : region_wf rs (sbA g n);
  geo_base : base_addr rs <= rg_lookup g SB_IDX;
  geo_desc : base_addr rd <= rg_lookup g DESC_IDX /\
             daA g (sb_capacity g rs) <= base_addr rd + FILESIZE rd < 2 ^ 47;
  geo_cap : sb_capacity g rs < MAX_DESC_AMOUNT }.

Ltac unfold_cfg :=
  unfold sbA, daA, SBSIZE, PAGESIZE, DESCSIZE, CACHELINE_SIZE in *;
  change (16 * 4096) with 65536 in *.

Section Geo.
Context {g : Regions} {n : Z} {rd rs : RegionManager} (G : geo g n rd rs).
Implicit Types i o : Z.

Lemma geo_n_cap : n <= sb_capacity g rs.
Proof.
  destruct G as [_ _ _ _ _ _ ? [_ ? ? _] ? _ _]. unfold sb_capacity. unfold_cfg.
  apply Z.div_le_lower_bound; lia.
Qed.

Lemma geo_n_lt : n < 2 ^ 24.
Proof. pose proof geo_n_cap. pose proof (geo_cap _ _ _ _ G). unfold MAX_DESC_AMOUNT, MAX_DESC_AMOUNT_BITS in *. rewrite Z.shiftl_1_l in *. lia. Qed.

Lemma geo_daA i : i < n -> daA g i + 64 <= base_addr rd + FILESIZE rd.
Proof. intros Hi. pose proof geo_n_cap. destruct G as [_ _ _ _ _ _ _ _ _ [_ [? _]] _]. unfold_cfg. lia. Qed.

Lemma geo_addr_range i : 0 <= i < n -> 0 < daA g i < 2 ^ 47 - 64 /\ 0 < sbA g i < 2 ^ 47 - 65536.
Proof.
  intros Hi. pose proof (geo_daA i ltac:(lia)). destruct G as [_ _ _ [? _] [? _] _ _ [? ? ? _] _ [? [_ ?]] _].
  unfold_cfg. lia.
Qed.

Lemma mapped_desc s i : r_rgs s = g -> 0 <= i < n -> mapped s DESC_IDX (daA g i) DESCSIZE = true.
Proof.
  intros Es Hi. unfold mapped. rewrite Es, (geo_rd _ _ _ _ G). pose proof (geo_daA i ltac:(lia)).
  destruct G as [_ _ _ [? _] _ _ _ _ _ [? _] _]. unfold_cfg. apply andb_true_intro. split; apply Z.leb_le; lia.
Qed.

Lemma mapped_sb s i o k : r_rgs s = g -> 0 <= i < n -> 0 <= o -> 0 <= k -> o + k <= SBSIZE -> mapped s SB_IDX (sbA g i + o) k = true.
Proof.
  intros Es Hi Ho Hk Hok. unfold mapped. rewrite Es, (geo_rs _ _ _ _ G).
  destruct G as [_ _ _ _ _ _ _ [? ? ? _] ? _ _]. unfold_cfg. apply andb_true_intro. split; apply Z.leb_le; lia.
Qed.

Lemma desc_lookup_sb i o : 0 <= i < n -> 0 <= o < SBSIZE -> desc_lookup g (sbA g i + o) = daA g i.
Proof.
  intros Hi Ho. pose proof (geo_addr_range i Hi). destruct (geo_S _ _ _ _ G) as [? E]. unfold desc_lookup.
  unfold SB_SHIFT. rewrite !Z.shiftr_div_pow2 by lia. unfold_cfg.
  apply Z.mod_divide in E as [q E]; [|lia]. rewrite E. change (2 ^ 16) with 65536.
  replace (q * 65536 + 65536 * i + o) with ((q + i) * 65536 + o) by lia.
  rewrite Z.div_add_l, (Z.div_small o), Z.div_mul by lia. pose proof geo_n_lt.
  replace (q + i + 0 - q) with i by lia. rewrite (u64_small i), u64_small; lia.
Qed.

Lemma sb_lookup_da i : 0 <= i < n -> sb_lookup g (daA g i) = sbA g i.
Proof.
  intros Hi. pose proof (geo_addr_range i Hi). destruct (geo_D _ _ _ _ G) as [? E]. unfold sb_lookup.
  unfold DESC_SHIFT, SB_SHIFT. rewrite !Z.shiftr_div_pow2, Z.shiftl_mul_pow2 by lia. unfold_cfg.
  apply Z.mod_divide in E as [q E]; [|lia]. rewrite E in *. change (2 ^ 6) with 64. change (2 ^ 16) with 65536.
  replace (q * 64 + 64 * i) with ((q + i) * 64) by lia. rewrite !Z.div_mul by lia.
  pose proof geo_n_lt. replace (q + i - q) with i by lia.
  rewrite (u64_small i), (u64_small (i * _)), u64_small; lia.
Qed.

Lemma cnt_fits_da i : 1 <= i < n -> cnt_fits g DESC_IDX (daA g i).
Proof.
  intros Hi. right. pose proof (geo_addr_range i ltac:(lia)). pose proof geo_n_lt.
  destruct (geo_D _ _ _ _ G). unfold_cfg. lia.
Qed.

Lemma geo_D_bound : 0 <= rg_lookup g DESC_IDX < 2 ^ 63.
Proof. pose proof (geo_addr_range 0). pose proof (geo_n _ _ _ _ G). unfold_cfg. lia. Qed.

Lemma daA_inj i j : daA g i = daA g j -> i = j.
Proof. unfold_cfg. lia. Qed.

Lemma curr_addr_sb : curr_addr rs = sbA g n.
Proof. apply curr_addr_wf, (geo_wf _ _ _ _ G). Qed.

Lemma in_range_sb i o : 0 <= i < n -> 0 <= o < SBSIZE -> in_range g SB_IDX (sbA g i + o) = true.
Proof.
  intros Hi Ho. unfold in_range. rewrite (geo_rs _ _ _ _ G), curr_addr_sb. unfold_cfg.
  apply andb_true_intro. split; [apply Z.leb_le; lia|apply Z.ltb_lt; lia].
Qed.

Lemma desc_lookup_sb0 i : 0 <= i < n -> desc_lookup g (sbA g i) = daA g i.
Proof. intros Hi. rewrite <- (Z.add_0_r (sbA g i)). apply desc_lookup_sb; unfold_cfg; lia. Qed.

Lemma in_range_sb0 i : 0 <= i < n -> in_range g SB_IDX (sbA g i) = true.
Proof. intros Hi. rewrite <- (Z.add_0_r (sbA g i)). apply in_range_sb; unfold_cfg; lia. Qed.

Lemma untranslate_sb i : 0 <= i < n -> CrossPtr_assign g SB_IDX (sbA g i) = SBSIZE * i.
Proof.
  intros Hi. unfold CrossPtr_assign, untranslate. pose proof geo_n_lt. unfold_cfg. rewrite u64_small; lia.
Qed.

Lemma translate_sb i : 1 <= i < n -> CrossPtr_get g SB_IDX (SBSIZE * i) = sbA g i.
Proof.
  intros Hi. pose proof (geo_addr_range i ltac:(lia)). unfold CrossPtr_get, translate.
  rewrite (proj2 (Z.eqb_neq _ _)) by (unfold_cfg; lia). unfold_cfg. rewrite u64_small; lia.
Qed.

Lemma heap_off_assign s i : r_rgs s = g -> 0 <= i < MAX_SZ_IDX ->
  CrossPtr_assign g META_IDX (heap_addr s i) = HEAPS_OFF + 64 * i.
Proof.
  intros Es Hi. unfold CrossPtr_assign, untranslate, heap_addr. rewrite Es. unfold HEAPS_OFF, MAX_SZ_IDX in *.
  rewrite u64_small; lia.
Qed.

Lemma heap_index_off s i : r_rgs s = g -> 0 <= i < MAX_SZ_IDX ->
  heap_index (translate g META_IDX (HEAPS_OFF + 64 * i)) s = Ok (i, s).
Proof.
  intros Es Hi. pose proof (geo_M _ _ _ _ G). unfold heap_index, translate, HEAPS_OFF, MAX_SZ_IDX in *.
  rewrite Es, u64_small by lia.
  replace (rg_lookup g META_IDX + (64 + 64 * i) - rg_lookup g META_IDX - 64) with (i * 64) by lia.
  rewrite (proj2 (Z.leb_le _ _)), (proj2 (Z.ltb_lt _ _)), Z.mod_mul, Z.div_mul by lia. done.
Qed.

Lemma heap_ptr_off i : 0 <= i -> CrossPtr_get g META_IDX (HEAPS_OFF + 64 * i) = translate g META_IDX (HEAPS_OFF + 64 * i).
Proof. intros Hi. unfold CrossPtr_get, HEAPS_OFF. now rewrite (proj2 (Z.eqb_neq _ _)) by lia. Qed.

End Geo.

(** ** Claims *)

(** For every superblock of a well-formed heap, whatever address inside it
    is looked up, [desc_lookup] finds the same descriptor, [sb_lookup] leads from it back to the
    superblock, the descriptor is inside the mapped descriptor file, different superblocks have
    different descriptors, and the descriptor's counted pointer is read back unchanged. *)
Theorem desc_sb_roundtrip g n rd rs i o c :
  geo g n rd rs -> 1 <= i < n -> 0 <= o < SBSIZE -> 0 <= c < 2 ^ 34 ->
  desc_lookup g (sbA g i + o) = daA g i /\
  sb_lookup g (desc_lookup g (sbA g i + o)) = sbA g i /\
  base_addr rd <= daA g i /\ daA g i + DESCSIZE <= base_addr rd + FILESIZE rd /\
  (forall j, 1 <= j < n -> desc_lookup g (sbA g j) = daA g i -> j = i) /\
  cnt_load g DESC_IDX (cnt_word g DESC_IDX (mkPC (daA g i) c)) = mkPC (daA g i) c.
Proof.
  intros G Hi Ho Hc. rewrite (desc_lookup_sb G), (sb_lookup_da G) by lia. repeat split.
  - destruct (geo_desc _ _ _ _ G), (geo_D _ _ _ _ G). unfold_cfg. lia.
  - pose proof (geo_daA G i). unfold_cfg. lia.
  - intros j Hj E. rewrite <- (Z.add_0_r (sbA g j)), (desc_lookup_sb G) in E by (unfold_cfg; lia).
    now apply (daA_inj (g := g)) in E.
  - rewrite cnt_load_word by now apply (cnt_fits_da G). now rewrite Z.mod_small.
Qed.

(** A heap file mapped at an address whose superblock region starts 4 KiB above a multiple of
    the superblock size. *)
Definition misaligned : Regions := mkRegions [None; None; None] [2 ^ 40; 2 ^ 41 + 4096; 2 ^ 42] 3.

(** Position independence needs more than the pointers. If the superblock
    file is mapped again at an address that is a multiple of the page size but not of the
    superblock size (all that [mmap] promises), the last bytes of a superblock are looked up in
    the descriptor of the next one: [desc_lookup] works on absolute addresses. *)
Theorem remap_misaligned i : 0 <= i < 2 ^ 20 ->
  desc_lookup misaligned (sbA misaligned i) = daA misaligned i /\
  desc_lookup misaligned (sbA misaligned i + (SBSIZE - 4096)) = daA misaligned (i + 1).
Proof.
  intros Hi. unfold desc_lookup, SB_SHIFT. rewrite !Z.shiftr_div_pow2 by lia.
  unfold_cfg. change (rg_lookup misaligned SB_IDX) with (2 ^ 41 + 4096). change (rg_lookup misaligned DESC_IDX) with (2 ^ 40).
  change (2 ^ 16) with 65536. change ((2 ^ 41 + 4096) / 65536) with (2 ^ 25).
  replace (2 ^ 41 + 4096 + 65536 * i) with ((2 ^ 25 + i) * 65536 + 4096) by lia.
  replace ((2 ^ 25 + i) * 65536 + 4096 + (65536 - 4096)) with ((2 ^ 25 + i + 1) * 65536 + 0) by lia.
  rewrite !Z.div_add_l, !(Z.div_small) by lia.
  replace (2 ^ 25 + i + 0 - 2 ^ 25) with i by lia. replace (2 ^ 25 + i + 1 + 0 - 2 ^ 25) with (i + 1) by lia.
  rewrite (u64_small i), (u64_small (i + 1)), !u64_small by lia. done.
Qed.

Lemma remap_misaligned_witness :
  desc_lookup misaligned (sbA misaligned 7 + (SBSIZE - 4096)) = daA misaligned 8.
Proof. apply (remap_misaligned 7). lia. Defined.

(** A heap of one superblock to try the claims on. *)
Definition demo_geo : Regions :=
  mkRegions
    [Some (mkRM (2 ^ 20 + 8192) (2 ^ 40) true (mkFile 0 4096 (2 ^ 20 + 8192)));
     Some (mkRM (2 ^ 30 + 65536) (2 ^ 41 - 4096) true (mkFile (to_pptr_off (2 ^ 41 + 5 * 65536) (2 ^ 41 - 4096)) 4096 (2 ^ 30 + 65536)));
     None]
    [2 ^ 40 + 4096; 2 ^ 41; 2 ^ 42] 3.

Lemma demo_geo_ok : exists rd rs, geo demo_geo 5 rd rs.
Proof.
  do 2 eexists. constructor; try reflexivity; try (split; reflexivity).
  - vm_compute. split; [discriminate|reflexivity].
  - cbn. lia.
  - constructor; vm_compute; try split; (reflexivity || discriminate).
  - vm_compute. discriminate.
  - vm_compute. repeat split; discriminate.
Qed.

Lemma desc_sb_roundtrip_witness : sb_lookup demo_geo (desc_lookup demo_geo (sbA demo_geo 3 + 1000)) = sbA demo_geo 3.
Proof.
  destruct demo_geo_ok as (rd & rs & H).
  apply (desc_sb_roundtrip demo_geo 5 rd rs 3 1000 0 H); unfold_cfg; lia.
Defined.

(** ** The invariant of a Ralloc heap

    A ghost description says of each superblock whether it is free, holds small blocks of a
    class (and which of them are on its free list), heads or belongs to a large block; which
    descriptors are on the list of free superblocks and on each partial list; and which blocks
    each thread cache holds. [inv] relates it to the state. The blocks that are neither on a
    free list nor cached are the ones in the program's hands ([live]). *)

(** ** Descriptors as a total map *)

Definition dget (dm : gmap Z Descriptor) (a : Z) : Descriptor := default Descriptor_zero (dm !! a).

Lemma dget_eq dm a d : dget (<[a := d]> dm) a = d.
Proof. unfold dget. now rewrite lookup_insert_eq. Qed.
Lemma dget_ne dm a d b : a <> b -> dget (<[a := d]> dm) b = dget dm b.
Proof. intros. unfold dget. now rewrite lookup_insert_ne. Qed.

(** The successor of descriptor [i] on the free list and on its partial list. *)
Definition nextf (g : Regions) (dm : gmap Z Descriptor) (i : Z) : Z :=
  from_pptr_off (next_free (dget dm (daA g i))) (daA g i).
Definition nextp (g : Regions) (dm : gmap Z Descriptor) (i : Z) : Z :=
  from_pptr_off (next_partial (dget dm (daA g i))) (daA g i + 8).

(** A null-terminated list of descriptors, given by superblock index. *)
Fixpoint dlist (g : Regions) (nx : Z -> Z) (p : Z) (l : list Z) : Prop :=
  match l with
  | [] => p = 0
  | i :: l' => p = daA g i /\ dlist g nx (nx i) l'
  end.

Lemma dlist_ext g nx nx' p l : (forall i, i ∈ l -> nx' i = nx i) -> dlist g nx p l -> dlist g nx' p l.
Proof.
  revert p. induction l as [|i l IH]; intros p E; [done|]. cbn. intros [-> D]. split; [done|].
  rewrite E by left. apply IH; [|done]. intros j Hj. apply E. now right.
Qed.

(** ** Ghost state *)

Inductive kind := KFree | KSmall (sc : Z) (fl : list Z) | KLarge (c : Z) | KBody.

Record ghost := mkG {
  gn : Z;                (* number of superblocks, the unused first one included *)
  gk : Z -> kind;        (* what each superblock 1 <= i < gn is *)
  gav : list Z;          (* the list of free superblocks *)
  gpt : Z -> list Z;     (* the partial list of each class *)
  gca : Z -> list Z;     (* the blocks in each cache *)
  gow : option Z         (* a superblock taken off its list *) }.

Definition bsz (sc : Z) : Z := sc_block_size (get_sizeclass_by_idx sc).
Definition mcn (sc : Z) : Z := sc_block_num (get_sizeclass_by_idx sc).
Definition class_idx (sc : Z) : Prop := 1 <= sc < MAX_SZ_IDX.

(** Block [j] of superblock [i] in class [sc]. *)
Definition blk (g : Regions) (sc i j : Z) : Z := sbA g i + j * bsz sc.

Definition anchor_ok (a : Anchor) (mc : Z) (fl : list Z) : Prop :=
  match fl with
  | [] => a = mkAnchor mc 0 SB_FULL
  | j :: _ => avail a = j /\
      if decide (Z.of_nat (length fl) = mc) then count a = mc - 1 /\ state a = SB_EMPTY
      else count a = Z.of_nat (length fl) /\ state a = SB_PARTIAL
  end.

(** ** Relation to the state *)

Section Rel.
Context (g : Regions).
Implicit Types (dm : gmap Z Descriptor) (m : bmem).

Definition list_head (w p : Z) : Prop := 0 <= w < 2 ^ 64 /\ ptr (cnt_load g DESC_IDX w) = p.

Definition avail_ok dm (w : Z) (l : list Z) : Prop :=
  exists p, list_head w p /\ dlist g (nextf g dm) p l.

Definition part_ok dm (hs : list ProcHeap) (sc : Z) (l : list Z) : Prop :=
  exists w p, hs !! Z.to_nat sc = Some (mkHeap w sc) /\ list_head w p /\ dlist g (nextp g dm) p l.

Definition small_ok dm m (i sc : Z) (fl : list Z) : Prop :=
  let d := dget dm (daA g i) in
  heap d = HEAPS_OFF + 64 * sc /\ block_size d = bsz sc /\ maxcount d = mcn sc /\
  superblock d = SBSIZE * i /\
  NoDup fl /\ (forall j, j ∈ fl -> 0 <= j < mcn sc) /\ anchor_ok (anchor d) (mcn sc) fl /\
  chain m (blk g sc i (avail (anchor d))) (map (blk g sc i) fl).

Definition cache_ok m (tc : list TCacheBin) (sc : Z) (l : list Z) : Prop :=
  exists p, tc !! Z.to_nat sc = Some (mkBin p (Z.of_nat (length l))) /\ chain m p l.

Definition large_ok dm (i c : Z) : Prop :=
  let d := dget dm (daA g i) in
  heap d = HEAPS_OFF /\ block_size d = SBSIZE * c /\ superblock d = SBSIZE * i /\ maxcount d = 1.

End Rel.

(** [b] is a block of class [sc] that is not on its superblock's free list. *)
Definition taken (g : Regions) (n : Z) (k : Z -> kind) (sc b : Z) : Prop :=
  exists i fl j, 1 <= i < n /\ k i = KSmall sc fl /\ 0 <= j < mcn sc /\ ~ (j ∈ fl) /\ b = blk g sc i j.

Record inv (s : rst) (G : ghost) : Prop := {
  inv_geo : exists rd rs, geo (r_rgs s) (gn G) rd rs;
  inv_lens : length (r_tc s) = Z.to_nat MAX_SZ_IDX /\ length (heaps (r_md s)) = Z.to_nat MAX_SZ_IDX;
  inv_heap0 : exists w, heaps (r_md s) !! 0%nat = Some (mkHeap w 0);
  inv_avail : avail_ok (r_rgs s) (r_desc s) (avail_sb (r_md s)) (gav G);
  inv_av_nodup : NoDup (gav G);
  inv_av_kind : forall i, i ∈ gav G <-> 1 <= i < gn G /\ gow G <> Some i /\ gk G i = KFree;
  inv_part : forall sc, class_idx sc -> part_ok (r_rgs s) (r_desc s) (heaps (r_md s)) sc (gpt G sc);
  inv_pt_nodup : forall sc, class_idx sc -> NoDup (gpt G sc);
  inv_pt_kind : forall sc i, class_idx sc ->
    i ∈ gpt G sc <-> 1 <= i < gn G /\ gow G <> Some i /\ exists fl, gk G i = KSmall sc fl /\ fl <> [];
  inv_small : forall i sc fl, 1 <= i < gn G -> gk G i = KSmall sc fl ->
    class_idx sc /\ small_ok (r_rgs s) (r_desc s) (r_mem s) i sc fl;
  inv_cache : forall sc, class_idx sc -> cache_ok (r_mem s) (r_tc s) sc (gca G sc);
  inv_ca_nodup : forall sc, class_idx sc -> NoDup (gca G sc) /\ Z.of_nat (length (gca G sc)) <= mcn sc;
  inv_ca_kind : forall sc b, class_idx sc -> b ∈ gca G sc -> taken (r_rgs s) (gn G) (gk G) sc b;
  inv_large : forall i c, 1 <= i < gn G -> gk G i = KLarge c ->
    1 <= c < 2 ^ 16 /\ i + c <= gn G /\ large_ok (r_rgs s) (r_desc s) i c /\
    (forall j, i < j < i + c -> gk G j = KBody);
  inv_body : forall j, 1 <= j < gn G -> gk G j = KBody ->
    exists i c, 1 <= i < j /\ j < i + c /\ gk G i = KLarge c }.

(** A block of [sz] bytes at [b] in the hands of the program. *)
Inductive live (g : Regions) (G : ghost) : Z -> Z -> Prop :=
| live_small i sc fl j : 1 <= i < gn G -> gk G i = KSmall sc fl -> 0 <= j < mcn sc -> j ∉ fl ->
    blk g sc i j ∉ gca G sc -> live g G (blk g sc i j) (bsz sc)
| live_large i c : 1 <= i < gn G -> gk G i = KLarge c -> live g G (sbA g i) (SBSIZE * c).

(** ** Arithmetic of blocks *)

Lemma class_facts sc : class_idx sc ->
  8 <= bsz sc <= 14336 /\ bsz sc mod 8 = 0 /\ 4 <= mcn sc <= 8192 /\ mcn sc * bsz sc <= 65536.
Proof.
  intros Hc. pose proof (small_class_intro sc Hc) as C. pose proof (small_class_fits _ _ _ C).
  destruct C as [_ _ _ _ _ Hm Ha _ Hn _]. unfold bsz, mcn. change MAX_SZ with 14336 in Hm.
  change SBSIZE with 65536 in *. lia.
Qed.

Lemma class_data sc : class_idx sc ->
  sc_sb_size (get_sizeclass_by_idx sc) = SBSIZE /\ sc_cache_block_num (get_sizeclass_by_idx sc) = mcn sc.
Proof. intros Hc. pose proof (small_class_intro sc Hc) as C. split; apply C. Qed.

Lemma blk_offset g sc i j : class_idx sc -> 0 <= j < mcn sc ->
  blk g sc i j = sbA g i + j * bsz sc /\ 0 <= j * bsz sc /\ j * bsz sc + bsz sc <= 65536.
Proof. intros Hc Hj. pose proof (class_facts sc Hc). split; [done|]. nia. Qed.

(** Blocks of a class: the same superblock and index, or disjoint. *)
Lemma blk_apart g sc i j i' j' : class_idx sc -> 0 <= j < mcn sc -> 0 <= j' < mcn sc ->
  (i = i' /\ j = j') \/ blk g sc i j + bsz sc <= blk g sc i' j' \/ blk g sc i' j' + bsz sc <= blk g sc i j.
Proof.
  intros Hc Hj Hj'. pose proof (class_facts sc Hc). unfold blk, sbA, SBSIZE, PAGESIZE.
  destruct (Z.lt_total i i') as [?|[<-|?]]; [right; left; nia| |right; right; nia].
  destruct (Z.lt_total j j') as [?|[<-|?]]; [right; left; nia|now left|right; right; nia].
Qed.

Lemma blk_inj g sc i j i' j' : class_idx sc -> 0 <= j < mcn sc -> 0 <= j' < mcn sc ->
  blk g sc i j = blk g sc i' j' -> i = i' /\ j = j'.
Proof. intros Hc Hj Hj' E. pose proof (class_facts sc Hc). destruct (blk_apart g sc i j i' j' Hc Hj Hj') as [?|?]; [done|lia]. Qed.

Lemma blk_apart8 g sc sc' i j i' j' : class_idx sc -> class_idx sc' -> 0 <= j < mcn sc -> 0 <= j' < mcn sc' ->
  (i = i' -> sc = sc') -> (i, j) <> (i', j') -> apart (blk g sc i j) (blk g sc' i' j').
Proof.
  intros Hc Hc' Hj Hj' Hsc N. pose proof (class_facts sc Hc). pose proof (class_facts sc' Hc'). unfold apart.
  destruct (decide (i = i')) as [<-|Ni].
  - rewrite <- Hsc in * by done. destruct (blk_apart g sc i j i j' Hc Hj Hj') as [[_ ->]|]; [done|lia].
  - unfold blk, sbA, SBSIZE, PAGESIZE. destruct (Z.lt_ge_cases i i'); [left|right]; nia.
Qed.

Lemma blk_range g n rd rs sc i j : geo g n rd rs -> class_idx sc -> 1 <= i < n -> 0 <= j < mcn sc ->
  0 < blk g sc i j < 2 ^ 47.
Proof.
  intros G Hc Hi Hj. pose proof (geo_addr_range G i ltac:(lia)). pose proof (blk_offset g sc i j Hc Hj).
  pose proof (class_facts sc Hc). lia.
Qed.

Lemma mapped_blk s n rd rs sc i j : geo (r_rgs s) n rd rs -> class_idx sc -> 1 <= i < n -> 0 <= j < mcn sc ->
  mapped s SB_IDX (blk (r_rgs s) sc i j) 8 = true.
Proof.
  intros G Hc Hi Hj. destruct (blk_offset (r_rgs s) sc i j Hc Hj) as (-> & ? & ?). pose proof (class_facts sc Hc).
  apply (mapped_sb G); [done|lia|lia|lia|]. unfold SBSIZE, PAGESIZE. lia.
Qed.

Lemma desc_lookup_blk g n rd rs sc i j : geo g n rd rs -> class_idx sc -> 1 <= i < n -> 0 <= j < mcn sc ->
  desc_lookup g (blk g sc i j) = daA g i.
Proof.
  intros G Hc Hi Hj. destruct (blk_offset g sc i j Hc Hj) as (-> & ? & ?). pose proof (class_facts sc Hc).
  apply (desc_lookup_sb G); unfold SBSIZE, PAGESIZE; lia.
Qed.

(** The address computed as [superblock + uint32(j * block_size)]. *)
Lemma blk_code g n rd rs sc i j : geo g n rd rs -> class_idx sc -> 1 <= i < n -> 0 <= j <= mcn sc ->
  u64 (sbA g i + u32 (j * bsz sc)) = blk g sc i j.
Proof.
  intros G Hc Hi Hj. pose proof (geo_addr_range G i ltac:(lia)). pose proof (class_facts sc Hc). unfold blk.
  rewrite (u32_small (j * bsz sc)), u64_small; nia.
Qed.

Lemma taken_in g n k sc b : taken g n k sc b -> exists i fl, 1 <= i < n /\ k i = KSmall sc fl.
Proof. intros (i & fl & j & H1 & H2 & _). eauto. Qed.
