(* ===== verification/RallocRun.v ===== *)
(** * Runs of the list operations of Ralloc

    What the accesses, the partial-list and free-list operations do to a state that is
    well-formed as far as they look: each lemma gives the state after the run. *)

From S2P Require Import Prelude Pptr ByteMem SizeClass Regions Ralloc RallocInv.

(** ** Accesses *)

Lemma emit_eq l s : emit l s =
  mkR (r_rgs s) (r_mem s) (r_desc s) (r_md s) (r_tc s) (r_filters s) (r_init s) (rev_append l (r_trace s)).
Proof. reflexivity. Qed.

Lemma get_heap_ok s i h : heaps (r_md s) !! Z.to_nat i = Some h -> get_heap i s = Ok (h, s).
Proof. intros E. unfold get_heap. now rewrite E. Qed.

Lemma get_bin_ok s i b : r_tc s !! Z.to_nat i = Some b -> get_bin i s = Ok (b, s).
Proof. intros E. unfold get_bin. now rewrite E. Qed.

(** Normal form of a run that changes some parts of a state. *)
Definition upd (s : rst) (m : bmem) (dm : gmap Z Descriptor) (md : BaseMeta) (tc : list TCacheBin) (tr : list pev) : rst :=
  mkR (r_rgs s) m dm md tc (r_filters s) (r_init s) tr.

(** Reduce projections of a state in normal form. *)
Ltac rproj := cbn [upd with_tc with_md with_mem with_desc with_rgs with_region emit r_rgs r_mem r_desc r_md r_tc r_filters r_init r_trace].
Tactic Notation "rproj" "in" hyp_list(H) := cbn [upd with_tc with_md with_mem with_desc with_rgs with_region emit r_rgs r_mem r_desc r_md r_tc r_filters r_init r_trace] in H.

(** Flatten the run and take its first step, which is pure ([cret], [cgets], a true
    [cassert]) or given by the equation. *)
Ltac cpure := repeat rewrite !cbind_assoc; rewrite (cbind_Ok _ _ _ _ _ eq_refl).
Ltac crun H := repeat rewrite !cbind_assoc; rewrite (cbind_Ok _ _ _ _ _ H).

Section Run.
Context {n : Z} {rd rs : RegionManager}.
Implicit Types (s : rst) (i : Z).

Lemma get_d_ok s i : geo (r_rgs s) n rd rs -> 0 <= i < n ->
  get_d (daA (r_rgs s) i) s = Ok (dget (r_desc s) (daA (r_rgs s) i), s).
Proof. intros G Hi. unfold get_d. now rewrite (mapped_desc G). Qed.

Lemma put_d_ok s i d : geo (r_rgs s) n rd rs -> 0 <= i < n ->
  put_d (daA (r_rgs s) i) d s =
  Ok (tt, upd s (r_mem s) (<[daA (r_rgs s) i := d]> (r_desc s)) (r_md s) (r_tc s) (Wrote (daA (r_rgs s) i) :: r_trace s)).
Proof. intros G Hi. unfold put_d. now rewrite (mapped_desc G). Qed.

Lemma upd_d_ok s i f : geo (r_rgs s) n rd rs -> 0 <= i < n ->
  upd_d (daA (r_rgs s) i) f s =
  Ok (tt, upd s (r_mem s) (<[daA (r_rgs s) i := f (dget (r_desc s) (daA (r_rgs s) i))]> (r_desc s))
            (r_md s) (r_tc s) (Wrote (daA (r_rgs s) i) :: r_trace s)).
Proof.
  intros G Hi. unfold upd_d. rewrite (cbind_Ok _ _ _ _ _ (get_d_ok s i G Hi)). now apply put_d_ok.
Qed.

Lemma construct_ok s i : geo (r_rgs s) n rd rs -> 0 <= i < n ->
  construct (daA (r_rgs s) i) s =
  Ok (tt, upd s (r_mem s) (<[daA (r_rgs s) i := Descriptor_new]> (r_desc s)) (r_md s) (r_tc s)
            (Fence :: Flush (daA (r_rgs s) i) :: Wrote (daA (r_rgs s) i) :: r_trace s)).
Proof. intros G Hi. unfold construct. now rewrite (cbind_Ok _ _ _ _ _ (put_d_ok s i _ G Hi)). Qed.

(** ** Pointers to descriptors *)

Lemma dlist_fits g nx p l : geo g n rd rs -> (forall i, i ∈ l -> 1 <= i < n) ->
  dlist g nx p l -> cnt_fits g DESC_IDX p /\ 0 <= p < 2 ^ 47.
Proof.
  intros G Hl D. destruct l as [|i l]; cbn in D.
  - subst p. split; [now left|lia].
  - destruct D as [-> _]. pose proof (Hl i ltac:(left)). split; [now apply (cnt_fits_da G)|].
    pose proof (geo_addr_range G i ltac:(lia)). lia.
Qed.

Lemma list_head_word g d : geo g n rd rs -> cnt_fits g DESC_IDX (ptr d) -> list_head g (cnt_word g DESC_IDX d) (ptr d).
Proof.
  intros G F. split; [now apply cnt_word_range|]. destruct d as [p c]. now rewrite cnt_load_word.
Qed.

Lemma next_roundtrip g p i o : geo g n rd rs -> 1 <= i < n -> 0 <= o <= 8 -> 0 <= p < 2 ^ 47 ->
  from_pptr_off (to_pptr_off p (daA g i + o)) (daA g i + o) = p.
Proof. intros G Hi Ho Hp. pose proof (geo_addr_range G i ltac:(lia)). apply from_to_pptr; lia. Qed.

(** ** Partial lists *)

Lemma heap_pop_partial_nil s sc : geo (r_rgs s) n rd rs ->
  part_ok (r_rgs s) (r_desc s) (heaps (r_md s)) sc [] -> heap_pop_partial sc s = Ok (0, s).
Proof.
  intros G (w & p & Eh & [Hw Ep] & D). cbn in D. rewrite D in Ep. unfold heap_pop_partial.
  rewrite (cbind_Ok _ _ s (r_rgs s) s eq_refl).
  rewrite (cbind_Ok _ _ _ _ _ (get_heap_ok s _ _ Eh)).
  cbn [partial_list heap_pop_partial_loop CAS_FUEL]. now rewrite Ep.
Qed.

Definition upd_heap (md : BaseMeta) (sc w : Z) : BaseMeta :=
  set_heaps (<[Z.to_nat sc := mkHeap w sc]> (heaps md)) md.

Lemma heap_cas_load s sc w d : geo (r_rgs s) n rd rs -> 0 <= w < 2 ^ 64 ->
  heaps (r_md s) !! Z.to_nat sc = Some (mkHeap w sc) ->
  heap_cas sc (cnt_load (r_rgs s) DESC_IDX w) d s =
  Ok ((true, cnt_load (r_rgs s) DESC_IDX w),
      upd s (r_mem s) (r_desc s) (upd_heap (r_md s) sc (cnt_word (r_rgs s) DESC_IDX d)) (r_tc s) (r_trace s)).
Proof.
  intros G Hw Eh. unfold heap_cas. rewrite Eh. cbn [partial_list sc_idx].
  rewrite cnt_cas_load; [done|exact (geo_D_bound G)|done].
Qed.

Lemma heap_pop_partial_cons s sc i l : geo (r_rgs s) n rd rs -> (forall j, j ∈ i :: l -> 1 <= j < n) ->
  part_ok (r_rgs s) (r_desc s) (heaps (r_md s)) sc (i :: l) ->
  exists w, heap_pop_partial sc s =
    Ok (daA (r_rgs s) i, upd s (r_mem s) (r_desc s) (upd_heap (r_md s) sc w) (r_tc s) (r_trace s)) /\
    exists p, list_head (r_rgs s) w p /\ dlist (r_rgs s) (nextp (r_rgs s) (r_desc s)) p l.
Proof.
  intros G Hl (w & p & Eh & [Hw Ep] & D). cbn in D. destruct D as [D1 D2]. pose proof (Hl i ltac:(left)) as Hi.
  set (g := r_rgs s) in *.
  exists (cnt_word g DESC_IDX (mkPC (nextp g (r_desc s) i) (cnt (cnt_load g DESC_IDX w)))). split.
  - unfold heap_pop_partial. rewrite (cbind_Ok _ _ s g s eq_refl).
    rewrite (cbind_Ok _ _ _ _ _ (get_heap_ok s _ _ Eh)).
    cbn [partial_list heap_pop_partial_loop CAS_FUEL]. rewrite Ep, D1.
    pose proof (geo_addr_range G i ltac:(lia)). rewrite (proj2 (Z.eqb_neq _ _)) by lia.
    rewrite (cbind_Ok _ _ _ _ _ (get_d_ok s i G ltac:(lia))).
    now rewrite (cbind_Ok _ _ _ _ _ (heap_cas_load s sc w _ G Hw Eh)).
  - exists (nextp g (r_desc s) i). split; [|done].
    apply (list_head_word g (mkPC _ _) G). cbn [ptr].
    apply (dlist_fits g (nextp g (r_desc s)) _ l G); [|done]. intros j Hj. apply Hl. now right.
Qed.

Lemma heap_push_partial_ok s sc i l : geo (r_rgs s) n rd rs -> class_idx sc -> 1 <= i < n ->
  (forall j, j ∈ l -> 1 <= j < n) -> i ∉ l ->
  heap (dget (r_desc s) (daA (r_rgs s) i)) = HEAPS_OFF + 64 * sc ->
  part_ok (r_rgs s) (r_desc s) (heaps (r_md s)) sc l ->
  exists w q tr, heap_push_partial (daA (r_rgs s) i) s =
    Ok (tt, upd s (r_mem s)
       (<[daA (r_rgs s) i := set_next_partial q (dget (r_desc s) (daA (r_rgs s) i))]> (r_desc s))
       (upd_heap (r_md s) sc w) (r_tc s) tr) /\
    list_head (r_rgs s) w (daA (r_rgs s) i) /\
    dlist (r_rgs s) (nextp (r_rgs s) (r_desc s)) (from_pptr_off q (daA (r_rgs s) i + 8)) l.
Proof.
  intros G Hc Hi Hl Hn Hh (w & p & Eh & [Hw Ep] & D). set (g := r_rgs s) in *. unfold class_idx in Hc.
  destruct (dlist_fits g _ p l G Hl D) as [Fp Rp].
  assert (Np : p <> daA g i).
  { destruct l as [|j l]; cbn in D; [pose proof (geo_addr_range G i ltac:(lia)); lia|].
    destruct D as [-> _]. intros E. apply (daA_inj (g := g)) in E as ->. apply Hn. left. }
  do 3 eexists. split; [|split].
  - unfold heap_push_partial. rewrite (cbind_Ok _ _ _ _ _ (get_d_ok s i G ltac:(lia))). fold g.
    rewrite (cbind_Ok _ _ s g s eq_refl), Hh, (heap_ptr_off (g := g)) by lia.
    rewrite (cbind_Ok _ _ s sc s (heap_index_off G s sc eq_refl ltac:(lia))).
    rewrite (cbind_Ok _ _ _ _ _ (get_heap_ok s _ _ Eh)).
    cbn [partial_list heap_push_partial_loop CAS_FUEL ptr]. rewrite Ep.
    rewrite (proj2 (Z.eqb_neq _ _)) by done. cbn [negb cassert].
    rewrite (cbind_Ok _ _ s tt s eq_refl).
    rewrite (cbind_Ok _ _ _ _ _ (upd_d_ok s i _ G ltac:(lia))). fold g.
    rewrite (cbind_Ok _ _ _ _ _ (heap_cas_load (upd s _ _ _ _ _) sc w _ G Hw Eh)). reflexivity.
  - apply (list_head_word g (mkPC _ _) G). cbn [ptr]. now apply (cnt_fits_da G).
  - rewrite (next_roundtrip g p i 8 G) by lia. done.
Qed.

(** ** The list of free superblocks *)

Lemma avail_cas_load s d : geo (r_rgs s) n rd rs -> 0 <= avail_sb (r_md s) < 2 ^ 64 ->
  avail_cas (cnt_load (r_rgs s) DESC_IDX (avail_sb (r_md s))) d s =
  Ok ((true, cnt_load (r_rgs s) DESC_IDX (avail_sb (r_md s))),
      upd s (r_mem s) (r_desc s) (set_avail_sb (cnt_word (r_rgs s) DESC_IDX d) (r_md s)) (r_tc s) (r_trace s)).
Proof.
  intros G Hw. unfold avail_cas. rewrite cnt_cas_load; [done|exact (geo_D_bound G)|done].
Qed.

(** The push of a chain whose last descriptor is [k]: its link gets the old head. *)
Lemma avail_push_ok s i k l : geo (r_rgs s) n rd rs -> 1 <= i < n -> 1 <= k < n ->
  (forall j, j ∈ l -> 1 <= j < n) -> avail_ok (r_rgs s) (r_desc s) (avail_sb (r_md s)) l ->
  exists w q tr,
    (oldhead <- avail_load; avail_push_loop CAS_FUEL (daA (r_rgs s) i) (daA (r_rgs s) k) oldhead) s =
    Ok (tt, upd s (r_mem s)
       (<[daA (r_rgs s) k := set_next_free q (dget (r_desc s) (daA (r_rgs s) k))]> (r_desc s))
       (set_avail_sb w (r_md s)) (r_tc s) tr) /\
    list_head (r_rgs s) w (daA (r_rgs s) i) /\
    dlist (r_rgs s) (nextf (r_rgs s) (r_desc s)) (from_pptr_off q (daA (r_rgs s) k)) l.
Proof.
  intros G Hi Hk Hl (p & [Hw Ep] & D). set (g := r_rgs s) in *.
  destruct (dlist_fits g _ p l G Hl D) as [Fp Rp].
  do 3 eexists. split; [|split].
  - unfold avail_load. rewrite (cbind_Ok _ _ s _ s eq_refl). cbn [avail_push_loop CAS_FUEL]. fold g. rewrite Ep.
    rewrite (cbind_Ok _ _ _ _ _ (upd_d_ok s k _ G ltac:(lia))). fold g.
    rewrite (cbind_Ok _ _ _ _ _ (avail_cas_load (upd s _ _ _ _ _) _ G Hw)). reflexivity.
  - apply (list_head_word g (mkPC _ _) G). cbn [ptr]. now apply (cnt_fits_da G).
  - pose proof (next_roundtrip g p k 0 G ltac:(lia) ltac:(lia) ltac:(lia)) as E. rewrite Z.add_0_r in E. now rewrite E.
Qed.

Lemma small_sb_retire_ok s i l : geo (r_rgs s) n rd rs -> 1 <= i < n -> i ∉ l ->
  (forall j, j ∈ l -> 1 <= j < n) -> avail_ok (r_rgs s) (r_desc s) (avail_sb (r_md s)) l ->
  exists w q tr,
    small_sb_retire (sbA (r_rgs s) i) SBSIZE s =
    Ok (tt, upd s (r_mem s) (<[daA (r_rgs s) i := set_next_free q Descriptor_new]> (r_desc s))
       (set_avail_sb w (r_md s)) (r_tc s) tr) /\
    list_head (r_rgs s) w (daA (r_rgs s) i) /\
    dlist (r_rgs s) (nextf (r_rgs s) (r_desc s)) (from_pptr_off q (daA (r_rgs s) i)) l.
Proof.
  intros G Hi Hn Hl A. unfold small_sb_retire. rewrite Z.eqb_refl. cbn [cassert].
  rewrite (cbind_Ok _ _ s tt s eq_refl), (cbind_Ok _ _ s (r_rgs s) s eq_refl).
  rewrite (desc_lookup_sb0 G) by lia.
  rewrite (cbind_Ok _ _ _ _ _ (construct_ok s i G ltac:(lia))).
  destruct (avail_push_ok (upd s (r_mem s) (<[daA (r_rgs s) i := Descriptor_new]> (r_desc s)) (r_md s) (r_tc s)
            (Fence :: Flush (daA (r_rgs s) i) :: Wrote (daA (r_rgs s) i) :: r_trace s)) i i l G Hi Hi Hl)
    as (w & q & tr & E & Hw & D).
  { destruct A as (p & Hp & D). exists p. split; [done|]. rproj. eapply dlist_ext; [|exact D].
    intros j Hj. unfold nextf. rewrite dget_ne; [done|]. intros E. apply (daA_inj (g := r_rgs s)) in E as ->. done. }
  exists w, q, tr. rproj in E Hw D. split; [|split; [done|]].
  - rewrite E. rewrite dget_eq, insert_insert_eq. reflexivity.
  - eapply dlist_ext; [|exact D]. intros j Hj. unfold nextf. rewrite dget_ne; [done|].
    intros E'. apply (daA_inj (g := r_rgs s)) in E' as ->. done.
Qed.

Lemma small_sb_alloc_cons s i l : geo (r_rgs s) n rd rs -> (forall j, j ∈ i :: l -> 1 <= j < n) ->
  avail_ok (r_rgs s) (r_desc s) (avail_sb (r_md s)) (i :: l) ->
  exists w, small_sb_alloc SBSIZE s =
    Ok (sbA (r_rgs s) i, upd s (r_mem s) (r_desc s) (set_avail_sb w (r_md s)) (r_tc s) (r_trace s)) /\
    avail_ok (r_rgs s) (r_desc s) w l.
Proof.
  intros G Hl (p & [Hw Ep] & D). cbn in D. destruct D as [D1 D2]. pose proof (Hl i ltac:(left)) as Hi.
  set (g := r_rgs s) in *. pose proof (geo_addr_range G i ltac:(lia)).
  exists (cnt_word g DESC_IDX (mkPC (nextf g (r_desc s) i) (cnt (cnt_load g DESC_IDX (avail_sb (r_md s)))))). split.
  - unfold small_sb_alloc. rewrite Z.eqb_refl. cbn [cassert]. rewrite (cbind_Ok _ _ s tt s eq_refl).
    unfold avail_load. rewrite (cbind_Ok _ _ s _ s eq_refl). fold g. cbn [small_sb_alloc_loop CAS_FUEL]. rewrite Ep, D1.
    rewrite (proj2 (Z.eqb_neq _ _)) by lia. cbn [negb].
    rewrite (cbind_Ok _ _ _ _ _ (get_d_ok s i G ltac:(lia))).
    rewrite (cbind_Ok _ _ _ _ _ (avail_cas_load s _ G Hw)). fold g.
    unfold cgets at 1, cbind at 1. cbn. fold g. now rewrite (sb_lookup_da G) by lia.
  - exists (nextf g (r_desc s) i). split; [|done]. apply (list_head_word g (mkPC _ _) G). cbn [ptr].
    apply (dlist_fits g (nextf g (r_desc s)) _ l G); [|done]. intros j Hj. apply Hl. now right.
Qed.

End Run.

(** ** Chaining a range of free superblocks *)

Section Organize.
Context {n : Z} {rd rs : RegionManager}.

Lemma organize_loop_ok i0 k : forall m s, geo (r_rgs s) n rd rs -> 1 <= i0 -> 1 <= m -> i0 + m + Z.of_nat k <= n ->
  exists dm tr,
    cfor (seqZ m (Z.of_nat k)) (fun i =>
      let desc := daA (r_rgs s) i0 + DESCSIZE * (i - 1) in
      upd_d desc (set_next_free (to_pptr_off (desc + DESCSIZE) desc));; construct (desc + DESCSIZE)) s =
    Ok (tt, upd s (r_mem s) dm (r_md s) (r_tc s) tr) /\
    (forall j, m - 1 <= j < m + Z.of_nat k - 1 -> nextf (r_rgs s) dm (i0 + j) = daA (r_rgs s) (i0 + j + 1)) /\
    (forall j, (j < i0 + m - 1 \/ i0 + m + Z.of_nat k - 1 < j) -> dget dm (daA (r_rgs s) j) = dget (r_desc s) (daA (r_rgs s) j)).
Proof.
  induction k as [|k IH]; intros m s G Hi Hm Hn.
  - exists (r_desc s), (r_trace s). split; [destruct s; reflexivity|]. split; [intros; lia|done].
  - set (g := r_rgs s) in *. rewrite seqZ_cons by lia. cbn [cfor]. cbv zeta.
    replace (daA g i0 + DESCSIZE * (m - 1)) with (daA g (i0 + m - 1)) by (unfold_cfg; lia).
    replace (daA g (i0 + m - 1) + DESCSIZE) with (daA g (i0 + m)) by (unfold_cfg; lia).
    crun (upd_d_ok s (i0 + m - 1) (set_next_free (to_pptr_off (daA g (i0 + m)) (daA g (i0 + m - 1)))) G ltac:(lia)).
    fold g. set (d1 := set_next_free _ _).
    match goal with |- context [cbind (construct _) _ ?st] => set (s1 := st) end.
    crun (construct_ok s1 (i0 + m) G ltac:(lia)). subst s1. rproj. fold g.
    replace (Z.pred (Z.of_nat (S k))) with (Z.of_nat k) by lia.
    match goal with |- context [cfor _ _ ?st] => set (s2 := st) end.
    destruct (IH (m + 1) s2 G Hi ltac:(lia) ltac:(lia)) as (dm & tr & E & Hin & Hout). subst s2. rproj in E Hin Hout. fold g in E, Hin, Hout.
    exists dm, tr. change (Z.succ m) with (m + 1). split; [exact E|]. split.
    + intros j Hj. destruct (decide (j = m - 1)) as [->|]; [|apply Hin; lia].
      unfold nextf. rewrite Hout by lia. replace (i0 + (m - 1)) with (i0 + m - 1) by lia.
      rewrite dget_ne by (intros Eq; apply (daA_inj (g := g)) in Eq; lia). rewrite dget_eq. subst d1. cbn [next_free set_next_free].
      replace (i0 + m - 1 + 1) with (i0 + m) by lia. rewrite from_to_pptr; [done|..].
      * pose proof (geo_addr_range G (i0 + m) ltac:(lia)). fold g in H. lia.
      * pose proof (geo_addr_range G (i0 + m - 1) ltac:(lia)). fold g in H. lia.
    + intros j Hj. rewrite Hout by lia. rewrite !dget_ne; [done|..]; intros Eq; apply (daA_inj (g := g)) in Eq; lia.
Qed.

(** A range of descriptors linked one to the next. *)
Lemma dlist_range g nx i0 c l p : 0 <= c -> (forall j, i0 <= j < i0 + c -> nx j = daA g (j + 1)) ->
  p = daA g i0 -> dlist g nx (nx (i0 + c)) l -> dlist g nx p (seqZ i0 (c + 1) ++ l).
Proof.
  intros Hc. revert i0 p. pattern c. apply natlike_ind; [| |done]; clear c Hc.
  - intros i0 p _ -> D. rewrite seqZ_cons by lia. cbn. split; [done|]. now rewrite Z.add_0_r in D.
  - intros c Hc IH i0 p Hnx -> D. rewrite seqZ_cons by lia. cbn [app dlist]. split; [done|].
    replace (Z.pred (Z.succ c + 1)) with (c + 1) by lia. change (Z.succ i0) with (i0 + 1). apply IH.
    + intros j Hj. apply Hnx. lia.
    + apply Hnx. lia.
    + now replace (i0 + 1 + c) with (i0 + Z.succ c) by lia.
Qed.

Lemma organize_sb_list_ok s i0 c l : geo (r_rgs s) n rd rs -> 1 <= i0 -> 1 <= c -> i0 + c <= n ->
  (forall j, j ∈ l -> 1 <= j < n /\ ~ (i0 <= j < i0 + c)) ->
  avail_ok (r_rgs s) (r_desc s) (avail_sb (r_md s)) l ->
  exists dm w tr,
    organize_sb_list (sbA (r_rgs s) i0) c s = Ok (tt, upd s (r_mem s) dm (set_avail_sb w (r_md s)) (r_tc s) tr) /\
    avail_ok (r_rgs s) dm w (seqZ i0 c ++ l) /\
    (forall j, (j < i0 \/ i0 + c <= j) -> dget dm (daA (r_rgs s) j) = dget (r_desc s) (daA (r_rgs s) j)).
Proof.
  intros G Hi Hc Hn Hl A. set (g := r_rgs s) in *. unfold organize_sb_list. cpure. fold g. cbv zeta.
  rewrite (desc_lookup_sb0 G) by lia.
  crun (construct_ok s i0 G ltac:(lia)). fold g.
  match goal with |- context [cbind (cfor _ _) _ ?st] => set (s1 := st) end.
  destruct (organize_loop_ok i0 (Z.to_nat (c - 1)) 1 s1 G Hi ltac:(lia) ltac:(lia)) as (dm & tr & E & Hin & Hout).
  rewrite Z2Nat.id in E, Hin, Hout by lia. subst s1. rproj in E Hin Hout. fold g in E, Hin, Hout.
  crun E. match goal with |- context [cbind avail_load _ ?st] => set (s2 := st) end. replace (Z.max c 1) with c by lia.
  replace (daA g i0 + DESCSIZE * (c - 1)) with (daA g (i0 + (c - 1))) by (unfold_cfg; lia).
  destruct (avail_push_ok s2 i0 (i0 + (c - 1)) l G) as (w & q & tr' & E' & Hw & D); [lia|lia|intros j Hj; now apply Hl| |].
  { destruct A as (p & Hp & D). exists p. split; [done|]. eapply dlist_ext; [|exact D]. intros j Hj. subst s2. rproj. fold g.
    pose proof (Hl j Hj). unfold nextf. rewrite Hout by lia. rewrite dget_ne; [done|]. intros Eq. apply (daA_inj (g := g)) in Eq. lia. }
  subst s2. rproj in E' Hw D. fold g in E', Hw, D. do 3 eexists. split; [exact E'|]. split.
  - exists (daA g i0). split; [done|]. replace (seqZ i0 c) with (seqZ i0 ((c - 1) + 1)) by (f_equal; lia). apply dlist_range; [lia| |done|].
    + intros j Hj. unfold nextf. rewrite dget_ne by (intros Eq; apply (daA_inj (g := g)) in Eq; lia).
      specialize (Hin (j - i0) ltac:(lia)). unfold nextf in Hin. replace (i0 + (j - i0)) with j in Hin by lia. done.
    + unfold nextf at 2. rewrite dget_eq. cbn [next_free set_next_free]. eapply dlist_ext; [|exact D].
      intros j Hj. pose proof (Hl j Hj). unfold nextf. rewrite dget_ne; [done|]. intros Eq. apply (daA_inj (g := g)) in Eq. lia.
  - intros j Hj. rewrite dget_ne by (intros Eq; apply (daA_inj (g := g)) in Eq; lia). rewrite Hout by lia.
    apply dget_ne. intros Eq. apply (daA_inj (g := g)) in Eq. lia.
Qed.

End Organize.
