(* ===== verification/RallocMalloc.v ===== *)
(** * Allocation from a Ralloc heap keeps its invariant

    The steps of [do_malloc]: a block popped from the cache, the cache filled from a partial
    superblock or from a free one, the region expanded when there is none. *)

From stdpp Require Import functions.
From S2P Require Import Prelude Pptr ByteMem SizeClass Regions Ralloc RallocInv RallocRun.

(** ** Ghost updates *)

Definition set_cache (G : ghost) (sc : Z) (l : list Z) : ghost :=
  mkG (gn G) (gk G) (gav G) (gpt G) (<[sc := l]> (gca G)) (gow G).
Definition set_part (G : ghost) (sc : Z) (l : list Z) : ghost :=
  mkG (gn G) (gk G) (gav G) (<[sc := l]> (gpt G)) (gca G) (gow G).
Definition set_owner (G : ghost) (o : option Z) : ghost :=
  mkG (gn G) (gk G) (gav G) (gpt G) (gca G) o.
Definition set_kind (G : ghost) (i : Z) (k : kind) : ghost :=
  mkG (gn G) (<[i := k]> (gk G)) (gav G) (gpt G) (gca G) (gow G).
Definition set_av (G : ghost) (l : list Z) : ghost :=
  mkG (gn G) (gk G) l (gpt G) (gca G) (gow G).

Ltac gproj := cbn [gn gk gav gpt gca gow set_cache set_part set_owner set_kind set_av].

(** A function updated at one point. *)
Ltac fins :=
  repeat match goal with
  | |- context [<[?a := ?b]> ?f ?a] => rewrite (fn_lookup_insert f a b)
  | N : ?a <> ?c |- context [<[?a := ?b]> ?f ?c] => rewrite (fn_lookup_insert_ne f a c b N)
  end.

(** ** What a change of part of the state preserves *)

Lemma small_ok_ext g dm dm' m m' i sc fl :
  (let d := dget dm (daA g i) in let d' := dget dm' (daA g i) in
   anchor d' = anchor d /\ superblock d' = superblock d /\ heap d' = heap d /\
   block_size d' = block_size d /\ maxcount d' = maxcount d) ->
  (forall j, j ∈ fl -> ld_pptr m' (blk g sc i j) = ld_pptr m (blk g sc i j)) ->
  small_ok g dm m i sc fl -> small_ok g dm' m' i sc fl.
Proof.
  intros (Ea & Es & Eh & Eb & Em) Hm (H1 & H2 & H3 & H4 & H5 & H6 & H7 & H8). unfold small_ok.
  rewrite Ea, Es, Eh, Eb, Em. do 7 (split; [done|]).
  eapply chain_ext; [|exact H8]. intros x Hx. apply list_elem_of_In, in_map_iff in Hx as (j & <- & Hj).
  apply Hm. now apply list_elem_of_In.
Qed.

Lemma small_ok_same g dm dm' m i sc fl : dget dm' (daA g i) = dget dm (daA g i) ->
  small_ok g dm m i sc fl -> small_ok g dm' m i sc fl.
Proof. intros E. apply small_ok_ext; [now rewrite E|done]. Qed.

Lemma large_ok_same g dm dm' i c : dget dm' (daA g i) = dget dm (daA g i) ->
  large_ok g dm i c -> large_ok g dm' i c.
Proof. intros E. unfold large_ok. now rewrite E. Qed.

Lemma avail_ok_ext g dm dm' w l : (forall i, i ∈ l -> nextf g dm' i = nextf g dm i) ->
  avail_ok g dm w l -> avail_ok g dm' w l.
Proof. intros E (p & Hp & D). exists p. split; [done|]. now apply (dlist_ext g (nextf g dm)). Qed.

Lemma part_ok_ext g dm dm' hs hs' sc l : (forall i, i ∈ l -> nextp g dm' i = nextp g dm i) ->
  hs' !! Z.to_nat sc = hs !! Z.to_nat sc -> part_ok g dm hs sc l -> part_ok g dm' hs' sc l.
Proof.
  intros E Eh (w & p & Hw & Hp & D). exists w, p. rewrite Eh. split; [done|]. split; [done|].
  now apply (dlist_ext g (nextp g dm)).
Qed.

Lemma cache_ok_ext m m' tc tc' sc l : (forall x, x ∈ l -> ld_pptr m' x = ld_pptr m x) ->
  tc' !! Z.to_nat sc = tc !! Z.to_nat sc -> cache_ok m tc sc l -> cache_ok m' tc' sc l.
Proof.
  intros E Et (p & Hp & C). exists p. rewrite Et. split; [done|]. now apply (chain_ext m).
Qed.

(** Different classes have different slots. *)
Lemma class_slot a b : class_idx a -> class_idx b -> a <> b -> Z.to_nat a <> Z.to_nat b.
Proof. unfold class_idx. lia. Qed.

Lemma taken_ext g n k k' sc b : (forall i fl, k i = KSmall sc fl -> k' i = k i) ->
  taken g n k sc b -> taken g n k' sc b.
Proof.
  intros E (i & fl & j & Hi & Hk & H). exists i, fl, j. split; [done|]. split; [now rewrite (E i fl)|done].
Qed.

(** ** The cache *)

Section Cache.
Context (s : rst) (G : ghost) (I : inv s G).
#[local] Abbreviation g := (r_rgs s).

Lemma inv_slot sc : class_idx sc -> (Z.to_nat sc < length (r_tc s))%nat.
Proof. intros Hc. destruct (inv_lens _ _ I) as [-> _]. unfold class_idx, MAX_SZ_IDX in *. lia. Qed.

(** A change of the caches only, seen as a change of the list one class holds. *)
Lemma inv_set_cache sc l p m' : class_idx sc ->
  (forall sc' i fl j, 1 <= i < gn G -> gk G i = KSmall sc' fl -> j ∈ fl -> ld_pptr m' (blk g sc' i j) = ld_pptr (r_mem s) (blk g sc' i j)) ->
  (forall sc' b, class_idx sc' -> sc <> sc' -> b ∈ gca G sc' -> ld_pptr m' b = ld_pptr (r_mem s) b) ->
  chain m' p l -> NoDup l -> Z.of_nat (length l) <= mcn sc ->
  (forall b, b ∈ l -> taken g (gn G) (gk G) sc b) ->
  forall tr, inv (upd s m' (r_desc s) (r_md s) (<[Z.to_nat sc := mkBin p (Z.of_nat (length l))]> (r_tc s)) tr)
    (set_cache G sc l).
Proof.
  intros Hc Hfl Hca C N L T tr. constructor; rproj; gproj; try solve [apply I].
  - rewrite length_insert. apply I.
  - intros i sc' fl Hi Hk. destruct (inv_small _ _ I i sc' fl Hi Hk) as [? Sm]. split; [done|].
    revert Sm. apply small_ok_ext; [done|]. intros j Hj. now apply (Hfl sc' i fl).
  - intros sc' Hc'. destruct (decide (sc = sc')) as [<-|Ne]; fins.
    + exists p. split; [|done]. apply list_lookup_insert_eq. now apply inv_slot.
    + apply (cache_ok_ext (r_mem s) _ (r_tc s)); [intros x Hx; now apply (Hca sc')| |now apply I].
      rewrite list_lookup_insert_ne; [done|]. now apply class_slot.
  - intros sc' Hc'. destruct (decide (sc = sc')) as [<-|Ne]; fins; [done|now apply I].
  - intros sc' b Hc'. destruct (decide (sc = sc')) as [<-|Ne]; fins; [apply T|now apply I].
Qed.

Lemma taken_apart sc sc' b b' : class_idx sc -> class_idx sc' ->
  taken g (gn G) (gk G) sc b -> taken g (gn G) (gk G) sc' b' -> (sc, b) <> (sc', b') -> apart b b'.
Proof.
  intros Hc Hc' (i & fl & j & Hi & Hk & Hj & _ & ->) (i' & fl' & j' & Hi' & Hk' & Hj' & _ & ->) N.
  apply blk_apart8; try done.
  - intros <-. congruence.
  - intros E. injection E as <- <-. assert (sc = sc') as <- by congruence. done.
Qed.

Lemma taken_apart_free sc b sc' i fl j : class_idx sc -> 1 <= i < gn G -> gk G i = KSmall sc' fl -> j ∈ fl ->
  taken g (gn G) (gk G) sc b -> apart (blk g sc' i j) b.
Proof.
  intros Hc Hi Hk Hj (i' & fl' & j' & Hi' & Hk' & Hj' & Nj & ->).
  destruct (inv_small _ _ I i sc' fl Hi Hk) as [Hc' (_ & _ & _ & _ & _ & Hr & _)].
  apply blk_apart8; auto.
  - intros <-. congruence.
  - intros E. injection E as <- <-. rewrite Hk in Hk'. injection Hk' as _ <-. done.
Qed.

Lemma pop_block_inv sc b l : class_idx sc -> gca G sc = b :: l ->
  exists s', pop_block sc s = Ok (b, s') /\ inv s' (set_cache G sc l) /\
    r_mem s' = r_mem s /\ r_rgs s' = r_rgs s /\ r_desc s' = r_desc s.
Proof.
  intros Hc E. destruct (inv_cache _ _ I sc Hc) as (p & Hp & C). rewrite E in Hp, C.
  cbn in C. destruct C as [-> C]. destruct (inv_geo _ _ I) as (rd & rs & Gg).
  destruct (inv_ca_nodup _ _ I sc Hc) as [N L]. rewrite E in N, L. apply list.NoDup_cons in N as [Nb N].
  cbn [length] in L, Hp. pose proof (class_facts sc Hc).
  destruct (inv_ca_kind _ _ I sc b Hc ltac:(rewrite E; left)) as (i & fl & j & Hi & Hk & Hj & _ & Eb).
  eexists. split; [|split; [apply (inv_set_cache sc l (ld_pptr (r_mem s) b) (r_mem s)); try done|]].
  - unfold pop_block. rewrite (cbind_Ok _ _ _ _ _ (get_bin_ok s _ _ Hp)). cbn [_block _block_num].
    rewrite (proj2 (Z.ltb_lt _ _)) by lia. cbn [cassert]. rewrite (cbind_Ok _ _ s tt s eq_refl).
    unfold ld_link at 1. unfold cbind at 1. rewrite Eb at 1. rewrite (mapped_blk s (gn G) rd rs sc i j) by done.
    replace (u32 (Z.of_nat (S (length l)) - 1)) with (Z.of_nat (length l)) by (rewrite u32_small; lia).
    reflexivity.
  - lia.
  - intros x Hx. apply (inv_ca_kind _ _ I sc x Hc). rewrite E. now right.
  - repeat split.
Qed.

Lemma push_block_inv sc b : class_idx sc -> taken g (gn G) (gk G) sc b -> b ∉ gca G sc ->
  Z.of_nat (length (gca G sc)) < mcn sc ->
  exists s', push_block sc b s = Ok (tt, s') /\ inv s' (set_cache G sc (b :: gca G sc)) /\
    r_rgs s' = r_rgs s /\ r_desc s' = r_desc s /\ (exists v, r_mem s' = st_pptr b v (r_mem s)).
Proof.
  intros Hc T Nb L. destruct (inv_cache _ _ I sc Hc) as (p & Hp & C). destruct (inv_geo _ _ I) as (rd & rs & Gg).
  destruct (inv_ca_nodup _ _ I sc Hc) as [N _]. pose proof (class_facts sc Hc).
  destruct T as (i & fl & j & Hi & Hk & Hj & Hjf & Eb) eqn:ET.
  assert (Rb : 0 <= b < 2 ^ 48) by (rewrite Eb; pose proof (blk_range _ _ _ _ sc i j Gg Hc Hi Hj); lia).
  assert (Cut : forall x, x ∈ gca G sc -> apart x b).
  { intros x Hx. apply (taken_apart sc sc); try done; [now apply (inv_ca_kind _ _ I)|]. intros Eq. injection Eq as ->. done. }
  assert (Rp : gca G sc = [] \/ 0 <= p < 2 ^ 48).
  { destruct (gca G sc) as [|x l] eqn:Ex; [now left|right]. cbn in C. destruct C as [-> _].
    destruct (inv_ca_kind _ _ I sc x Hc ltac:(rewrite Ex; left)) as (i' & fl' & j' & ? & ? & ? & _ & ->).
    pose proof (blk_range _ _ _ _ sc i' j' Gg Hc). lia. }
  eexists. split; [|split].
  - unfold push_block. rewrite (cbind_Ok _ _ _ _ _ (get_bin_ok s _ _ Hp)). cbn [_block _block_num].
    unfold st_link at 1. unfold cbind at 1. rewrite Eb at 1. rewrite (mapped_blk s (gn G) rd rs sc i j) by done.
    replace (u32 (Z.of_nat (length (gca G sc)) + 1)) with (Z.of_nat (length (b :: gca G sc)))
      by (rewrite u32_small; cbn [length]; lia).
    reflexivity.
  - apply (inv_set_cache sc (b :: gca G sc) b (st_pptr b p (r_mem s))); try done.
    + intros sc' i' fl' j' Hi' Hk' Hj'. apply ld_st_pptr_ne.
      destruct (taken_apart_free sc b sc' i' fl' j' Hc Hi' Hk' Hj' T); lia.
    + intros sc' b' Hc' Ne Hb'. apply ld_st_pptr_ne.
      destruct (taken_apart sc sc' b b' Hc Hc' T (inv_ca_kind _ _ I sc' b' Hc' Hb')); [congruence|lia..].
    + split; [done|]. destruct Rp as [->|Rp]; [done|]. rewrite ld_st_pptr_eq by done. now apply chain_st.
    + now apply list.NoDup_cons.
    + cbn [length]. lia.
    + intros x [->|Hx]%elem_of_cons; [done|now apply (inv_ca_kind _ _ I)].
  - repeat split. now exists p.
Qed.

End Cache.

(** ** Steps on one descriptor *)

Lemma nextf_ne g dm i j d : i <> j -> nextf g (<[daA g i := d]> dm) j = nextf g dm j.
Proof. intros N. unfold nextf. rewrite dget_ne; [done|]. intros E. now apply (daA_inj (g := g)) in E. Qed.
Lemma nextp_ne g dm i j d : i <> j -> nextp g (<[daA g i := d]> dm) j = nextp g dm j.
Proof. intros N. unfold nextp. rewrite dget_ne; [done|]. intros E. now apply (daA_inj (g := g)) in E. Qed.
Lemma dget_daA_ne g dm i j d : i <> j -> dget (<[daA g i := d]> dm) (daA g j) = dget dm (daA g j).
Proof. intros N. apply dget_ne. intros E. now apply (daA_inj (g := g)) in E. Qed.

(** A free list with as many blocks as the superblock has contains them all. *)
Lemma full_list fl mc : NoDup fl -> (forall j, j ∈ fl -> 0 <= j < mc) -> Z.of_nat (length fl) = mc ->
  forall j, 0 <= j < mc -> j ∈ fl.
Proof.
  intros N R L j Hj. apply list_elem_of_In.
  apply (NoDup_length_incl (l := fl) (l' := seqZ 0 mc)).
  - now apply NoDup_ListNoDup.
  - rewrite length_seqZ. lia.
  - intros x Hx. apply list_elem_of_In, elem_of_seqZ. apply list_elem_of_In, R in Hx. lia.
  - apply list_elem_of_In, elem_of_seqZ. lia.
Qed.

Section Steps.
Context (s : rst) (G : ghost) (I : inv s G).
#[local] Abbreviation g := (r_rgs s).

Lemma av_range i : i ∈ gav G -> 1 <= i < gn G.
Proof. intros Hi. now apply (inv_av_kind _ _ I) in Hi. Qed.
Lemma pt_range sc i : class_idx sc -> i ∈ gpt G sc -> 1 <= i < gn G.
Proof. intros Hc Hi. now apply (inv_pt_kind _ _ I) in Hi. Qed.

Lemma heap_slot sc : class_idx sc -> (Z.to_nat sc < length (heaps (r_md s)))%nat.
Proof. intros Hc. destruct (inv_lens _ _ I) as [_ ->]. unfold class_idx, MAX_SZ_IDX in *. lia. Qed.

(** Taking the head off a partial list. *)
Lemma inv_pop_partial sc i l : class_idx sc -> gow G = None -> gpt G sc = i :: l ->
  exists s', heap_pop_partial sc s = Ok (daA g i, s') /\ inv s' (set_owner (set_part G sc l) (Some i)) /\
    r_rgs s' = r_rgs s /\ r_mem s' = r_mem s /\ r_desc s' = r_desc s /\ r_tc s' = r_tc s.
Proof.
  intros Hc Ho E. destruct (inv_geo _ _ I) as (rd & rs & Gg). pose proof (inv_part _ _ I sc Hc) as P. rewrite E in P.
  pose proof (inv_pt_nodup _ _ I sc Hc) as N. rewrite E in N. apply list.NoDup_cons in N as [Ni N].
  destruct (heap_pop_partial_cons s sc i l Gg) as (w & Er & p & Hp & D); [|done|].
  { intros j Hj. apply (pt_range sc); [done|]. now rewrite E. }
  eexists. split; [exact Er|]. split; [|done].
  pose proof (proj1 (inv_pt_kind _ _ I sc i Hc) ltac:(rewrite E; left)) as (_ & _ & fli & Hki & _).
  constructor; rproj; gproj; try solve [apply I].
  - cbn. rewrite length_insert. apply I.
  - cbn. destruct (inv_heap0 _ _ I) as [w0 H0]. exists w0. rewrite list_lookup_insert_ne; [done|]. unfold class_idx in Hc. lia.
  - intros j. rewrite (inv_av_kind _ _ I), Ho. split; intros (? & ? & ?); repeat split; try done; try lia; congruence.
  - intros sc' Hc'. destruct (decide (sc = sc')) as [<-|Ne]; fins.
    + exists w, p. split; [|done]. apply list_lookup_insert_eq. now apply heap_slot.
    + apply (part_ok_ext _ (r_desc s) _ (heaps (r_md s))); [done| |now apply I].
      cbn. rewrite list_lookup_insert_ne; [done|]. now apply class_slot.
  - intros sc' Hc'. destruct (decide (sc = sc')) as [<-|Ne]; fins; [done|now apply I].
  - intros sc' j Hc'. destruct (decide (sc = sc')) as [<-|Ne]; fins.
    + pose proof (inv_pt_kind _ _ I sc j Hc) as K. rewrite E, elem_of_cons, Ho in K.
      split.
      * intros Hj. destruct (proj1 K ltac:(now right)) as (? & _ & ?). repeat split; try done; try lia.
        intros Ej. injection Ej as ->. done.
      * intros (Hj & Nj & Hk). assert (None <> Some j) by done. destruct (proj2 K) as [->|?]; [tauto|congruence|done].
    + rewrite (inv_pt_kind _ _ I sc' j Hc'), Ho. split; intros (Hj & Nj & fl & Hk & Nf).
      * repeat split; try lia; eauto. intros Ej. injection Ej as ->.
        pose proof (proj1 (inv_pt_kind _ _ I sc j Hc) ltac:(rewrite E; left)) as (_ & _ & fl' & Hk' & _). congruence.
      * repeat split; try lia; eauto. 
Qed.

(** Returning an owned superblock all of whose blocks are free. *)
Lemma inv_retire sc i fl : class_idx sc -> gow G = Some i -> 1 <= i < gn G -> gk G i = KSmall sc fl ->
  Z.of_nat (length fl) = mcn sc ->
  exists s', small_sb_retire (sbA g i) SBSIZE s = Ok (tt, s') /\
    inv s' (set_owner (set_av (set_kind G i KFree) (i :: gav G)) None) /\
    r_rgs s' = r_rgs s /\ r_mem s' = r_mem s /\ r_tc s' = r_tc s.
Proof.
  intros Hc Ho Hi Hk Hfull. destruct (inv_geo _ _ I) as (rd & rs & Gg).
  assert (Nav : i ∉ gav G) by (intros Ha; apply (inv_av_kind _ _ I) in Ha as (_ & _ & Ha); congruence).
  destruct (inv_small _ _ I i sc fl Hi Hk) as [_ (_ & _ & _ & _ & Nd & Rg & _)].
  assert (Nt : forall sc' b, taken g (gn G) (gk G) sc' b -> taken g (gn G) (<[i := KFree]> (gk G)) sc' b).
  { intros sc' b (i' & fl' & j' & H1 & H2 & H3 & H4 & H5). exists i', fl', j'.
    destruct (decide (i = i')) as [<-|Ne]; fins; [|done]. exfalso. apply H4.
    rewrite Hk in H2. injection H2 as <- <-. now apply (full_list fl (mcn sc)). }
  destruct (small_sb_retire_ok s i (gav G) Gg Hi Nav av_range (inv_avail _ _ I)) as (w & q & tr & Er & Hw & D).
  eexists. split; [exact Er|]. split; [|done].
  constructor; rproj; gproj; try solve [apply I].
  - exists (daA g i). split; [done|]. cbn [dlist]. split; [done|]. unfold nextf at 2. rewrite dget_eq. cbn [next_free set_next_free].
    eapply dlist_ext; [|exact D]. intros j Hj. apply nextf_ne. congruence.
  - apply list.NoDup_cons. split; [done|apply I].
  - intros j. rewrite elem_of_cons, (inv_av_kind _ _ I), Ho. destruct (decide (i = j)) as [<-|Ne]; fins.
    { split; [done|]. now left. }
    split; [intros [?|(? & ? & ?)]; [congruence|done]|intros (? & _ & ?); right; repeat split; try done; try lia; congruence].
  - intros sc' Hc'. apply (part_ok_ext _ (r_desc s) _ (heaps (r_md s))); [|done|now apply I].
    intros j Hj. apply nextp_ne. intros <-. apply (inv_pt_kind _ _ I) in Hj as (_ & Hj & _); [congruence|done].
  - intros sc' j Hc'. rewrite (inv_pt_kind _ _ I sc' j Hc'), Ho. destruct (decide (i = j)) as [<-|Ne]; fins.
    + split; [intros (_ & ? & _); congruence|intros (_ & _ & ? & ? & _); congruence].
    + split; intros (? & ? & ?); repeat split; try done; try lia; congruence.
  - intros j sc' fl' Hj. destruct (decide (i = j)) as [<-|Ne]; fins; [done|]. intros Hk'.
    destruct (inv_small _ _ I j sc' fl' Hj Hk') as [? Sm]. split; [done|]. revert Sm.
    apply small_ok_same. now apply dget_daA_ne.
  - intros sc' b Hc' Hb. apply Nt. now apply I.
  - intros j c Hj. destruct (decide (i = j)) as [<-|Ne]; fins; [done|]. intros Hk'.
    destruct (inv_large _ _ I j c Hj Hk') as (? & ? & La & Bd). split; [done|]. split; [done|]. split.
    + revert La. apply large_ok_same. now apply dget_daA_ne.
    + intros j' Hj'. destruct (decide (i = j')) as [<-|Ne']; fins; [|now apply Bd]. specialize (Bd i Hj'). congruence.
  - intros j Hj. destruct (decide (i = j)) as [<-|Ne]; fins; [done|]. intros Hk'.
    destruct (inv_body _ _ I j Hj Hk') as (i' & c & ? & ? & ?). exists i', c. split; [done|]. split; [done|].
    destruct (decide (i = i')) as [<-|Ne']; fins; congruence.
Qed.

(** Putting an owned superblock on the partial list of its class. *)
Lemma inv_push_partial sc i fl : class_idx sc -> gow G = Some i -> 1 <= i < gn G -> gk G i = KSmall sc fl -> fl <> [] ->
  exists s', heap_push_partial (daA g i) s = Ok (tt, s') /\
    inv s' (set_owner (set_part G sc (i :: gpt G sc)) None) /\
    r_rgs s' = r_rgs s /\ r_mem s' = r_mem s /\ r_tc s' = r_tc s.
Proof.
  intros Hc Ho Hi Hk Hne. destruct (inv_geo _ _ I) as (rd & rs & Gg).
  assert (Npt : forall sc', class_idx sc' -> i ∉ gpt G sc').
  { intros sc' Hc' Hin. apply (inv_pt_kind _ _ I) in Hin as (_ & ? & _); congruence. }
  destruct (inv_small _ _ I i sc fl Hi Hk) as [_ (Hh & _)].
  destruct (heap_push_partial_ok s sc i (gpt G sc) Gg Hc Hi) as (w & q & tr & Er & Hw & D);
    [intros j; now apply pt_range|now apply Npt|done|now apply I|].
  eexists. split; [exact Er|]. split; [|done].
  set (d' := set_next_partial q (dget (r_desc s) (daA g i))).
  constructor; rproj; gproj; try solve [apply I].
  - cbn. rewrite length_insert. apply I.
  - cbn. destruct (inv_heap0 _ _ I) as [w0 H0]. exists w0. rewrite list_lookup_insert_ne; [done|]. unfold class_idx in Hc. lia.
  - apply (avail_ok_ext _ (r_desc s)); [|apply I]. intros j Hj. apply nextf_ne. intros <-.
    apply (inv_av_kind _ _ I) in Hj as (_ & _ & ?). congruence.
  - intros j. rewrite (inv_av_kind _ _ I), Ho. split; intros (? & ? & ?); repeat split; try done; try lia; congruence.
  - intros sc' Hc'. destruct (decide (sc = sc')) as [<-|Ne]; fins.
    + exists w, (daA g i). split; [apply list_lookup_insert_eq; now apply heap_slot|]. split; [done|].
      cbn [dlist]. split; [done|]. unfold nextp at 2. rewrite dget_eq.
      eapply dlist_ext; [|exact D]. intros j Hj. apply nextp_ne. intros <-. now apply (Npt sc).
    + apply (part_ok_ext _ (r_desc s) _ (heaps (r_md s))); [| |now apply I].
      * intros j Hj. apply nextp_ne. intros <-. now apply (Npt sc').
      * cbn. rewrite list_lookup_insert_ne; [done|]. now apply class_slot.
  - intros sc' Hc'. destruct (decide (sc = sc')) as [<-|Ne]; fins; [|now apply I].
    apply list.NoDup_cons. split; [now apply Npt|now apply I].
  - intros sc' j Hc'. destruct (decide (sc = sc')) as [<-|Ne]; fins.
    + rewrite elem_of_cons, (inv_pt_kind _ _ I sc j Hc), Ho. split.
      * intros [->|(? & ? & ?)]; repeat split; try done; try lia; eauto.
      * intros (? & _ & ?). destruct (decide (j = i)) as [->|]; [now left|right]. repeat split; try done; try lia; congruence.
    + rewrite (inv_pt_kind _ _ I sc' j Hc'), Ho. split; intros (? & ? & fl' & Hk' & ?); repeat split; try lia; eauto.
      intros Ej. injection Ej as <-. congruence.
  - intros j sc' fl' Hj Hk'. destruct (inv_small _ _ I j sc' fl' Hj Hk') as [? Sm]. split; [done|]. revert Sm.
    destruct (decide (i = j)) as [<-|Ne].
    + apply small_ok_ext; [|done]. now rewrite dget_eq.
    + apply small_ok_same. now apply dget_daA_ne.
  - intros j c Hj Hk'. destruct (inv_large _ _ I j c Hj Hk') as (? & ? & La & Bd). split; [done|]. split; [done|].
    split; [|done]. revert La. apply large_ok_same. apply dget_daA_ne. congruence.
Qed.

End Steps.

(** ** Filling the cache from a partial superblock *)

Lemma elem_of_blks g sc i fl b : b ∈ map (blk g sc i) fl <-> exists j, b = blk g sc i j /\ j ∈ fl.
Proof.
  rewrite list_elem_of_In, in_map_iff. split; intros (j & E & Hj); exists j; (split; [now symmetry|]); now apply list_elem_of_In.
Qed.

Lemma NoDup_blks g sc i fl : class_idx sc -> (forall j, j ∈ fl -> 0 <= j < mcn sc) -> NoDup fl -> NoDup (map (blk g sc i) fl).
Proof.
  intros Hc R N. induction N as [|j l Nj N IH]; cbn; [constructor|]. apply list.NoDup_cons. split.
  - rewrite elem_of_blks. intros (j' & E & Hj'). apply blk_inj in E as [_ <-]; try done; apply R; [left|now right].
  - apply IH. intros j' Hj'. apply R. now right.
Qed.

(** A superblock taken off its list gives its free blocks [bl] to the empty cache of its class
    and becomes full. *)
Definition filled (g : Regions) (G : ghost) (sc i : Z) (bl : list Z) : ghost :=
  set_owner (set_cache (set_kind G i (KSmall sc [])) sc (map (blk g sc i) bl)) None.

Definition free_in (k : kind) (j : Z) : Prop := match k with KSmall _ fl => j ∈ fl | _ => True end.

Section Fill.
Context (s : rst) (G : ghost) (I : inv s G) (sc i : Z) (bl : list Z).
Context (Hc : class_idx sc) (Ho : gow G = Some i) (Hi : 1 <= i < gn G).
Context (Hk : gk G i = KFree \/ exists fl, gk G i = KSmall sc fl).
Context (Hca : gca G sc = []).
Context (Nbl : NoDup bl) (Rbl : forall j, j ∈ bl -> 0 <= j < mcn sc) (Lbl : Z.of_nat (length bl) <= mcn sc).
#[local] Abbreviation g := (r_rgs s).

Lemma inv_fill m' d' p :
  heap d' = HEAPS_OFF + 64 * sc -> block_size d' = bsz sc -> maxcount d' = mcn sc -> superblock d' = SBSIZE * i ->
  anchor d' = mkAnchor (mcn sc) 0 SB_FULL ->
  (forall sc' i' fl j, i <> i' -> 1 <= i' < gn G -> gk G i' = KSmall sc' fl -> j ∈ fl ->
     ld_pptr m' (blk g sc' i' j) = ld_pptr (r_mem s) (blk g sc' i' j)) ->
  (forall sc' b, class_idx sc' -> b ∈ gca G sc' -> ld_pptr m' b = ld_pptr (r_mem s) b) ->
  chain m' p (map (blk g sc i) bl) ->
  forall tr, inv (upd s m' (<[daA g i := d']> (r_desc s)) (r_md s)
     (<[Z.to_nat sc := mkBin p (Z.of_nat (length bl))]> (r_tc s)) tr) (filled g G sc i bl).
Proof.
  intros D1 D2 D3 D4 D5 Hfl Hch C tr.
  assert (Kl : gk G i <> KBody /\ forall c, gk G i <> KLarge c) by (destruct Hk as [->|[fl ->]]; done).
  assert (Nt : forall sc' b, taken g (gn G) (gk G) sc' b -> taken g (gn G) (<[i := KSmall sc []]> (gk G)) sc' b).
  { intros sc' b (i' & fl' & j' & H1 & H2 & H3 & H4 & H5). destruct (decide (i = i')) as [<-|Ne].
    - destruct Hk as [E|[fl E]]; rewrite E in H2; [done|]. injection H2 as <- <-. exists i, [], j'. fins.
      repeat split; try done; try lia. apply not_elem_of_nil.
    - exists i', fl', j'. fins. done. }
  constructor; rproj; unfold filled; gproj; try solve [apply I].
  - rewrite length_insert. apply I.
  - apply (avail_ok_ext _ (r_desc s)); [|apply I]. intros j Hj. apply nextf_ne. intros <-.
    apply (inv_av_kind _ _ I) in Hj as (_ & ? & _). congruence.
  - intros j. rewrite (inv_av_kind _ _ I), Ho. destruct (decide (i = j)) as [<-|Ne]; fins.
    + split; intros (_ & ? & ?); congruence.
    + split; intros (? & _ & ?); repeat split; try done; try lia; congruence.
  - intros sc' Hc'. apply (part_ok_ext _ (r_desc s) _ (heaps (r_md s))); [|done|now apply I].
    intros j Hj. apply nextp_ne. intros <-. apply (inv_pt_kind _ _ I) in Hj as (_ & Hj & _); [congruence|done].
  - intros sc' j Hc'. rewrite (inv_pt_kind _ _ I sc' j Hc'), Ho. destruct (decide (i = j)) as [<-|Ne]; fins.
    + split; [intros (_ & ? & _); congruence|]. intros (_ & _ & ? & E & ?). congruence.
    + split; intros (? & ? & ?); repeat split; try done; try lia; congruence.
  - intros j sc' fl' Hj. destruct (decide (i = j)) as [<-|Ne]; fins; intros Hk'.
    + injection Hk' as <- <-. split; [done|]. unfold small_ok. rewrite dget_eq, D5.
      do 4 (split; [done|]). split; [constructor|]. split; [intros j Hj'; now apply not_elem_of_nil in Hj'|]. done.
    + destruct (inv_small _ _ I j sc' fl' Hj Hk') as [? Sm]. split; [done|]. revert Sm.
      apply small_ok_ext; [now rewrite dget_daA_ne|]. intros j' Hj'. now apply (Hfl sc' j fl').
  - intros sc' Hc'. destruct (decide (sc = sc')) as [<-|Ne]; fins.
    + eexists. rewrite length_map. split; [apply list_lookup_insert_eq; now apply (inv_slot s G)|]. done.
    + apply (cache_ok_ext (r_mem s) _ (r_tc s)); [intros x; now apply Hch| |now apply I].
      rewrite list_lookup_insert_ne; [done|]. now apply class_slot.
  - intros sc' Hc'. destruct (decide (sc = sc')) as [<-|Ne]; fins; [|now apply I].
    split; [now apply NoDup_blks|]. now rewrite length_map.
  - intros sc' b Hc'. destruct (decide (sc = sc')) as [<-|Ne]; fins; [|intros Hb; apply Nt; now apply I].
    rewrite elem_of_blks. intros (j & -> & Hj). exists i, [], j. fins. split; [done|]. split; [done|].
    split; [now apply Rbl|]. split; [apply not_elem_of_nil|done].
  - intros j c Hj. destruct (decide (i = j)) as [<-|Ne]; fins; [done|]. intros Hk'.
    destruct (inv_large _ _ I j c Hj Hk') as (? & ? & La & Bd). split; [done|]. split; [done|]. split.
    + revert La. apply large_ok_same. now apply dget_daA_ne.
    + intros j' Hj'. destruct (decide (i = j')) as [<-|Ne']; fins; [|now apply Bd]. specialize (Bd i Hj'). tauto.
  - intros j Hj. destruct (decide (i = j)) as [<-|Ne]; fins; [done|]. intros Hk'.
    destruct (inv_body _ _ I j Hj Hk') as (i' & c & ? & ? & E). exists i', c. split; [done|]. split; [done|].
    destruct (decide (i = i')) as [<-|Ne']; fins; [|done]. now apply Kl in E.
Qed.

Lemma live_fill b sz : (forall j, 0 <= j < mcn sc -> j ∈ bl <-> free_in (gk G i) j) ->
  live g (filled g G sc i bl) b sz <-> live g G b sz.
Proof.
  intros Hbl. unfold filled.
  split; intros L; destruct L as [i' sc' fl' j H1 H2 H3 H4 H5|i' c H1 H2]; gproj.
  - cbn in H1, H2, H5. destruct (decide (i = i')) as [<-|Ne].
    + rewrite fn_lookup_insert in H2. injection H2 as <- <-. rewrite fn_lookup_insert in H5.
      assert (Nj : ~ free_in (gk G i) j) by (rewrite <- Hbl by done; intros Hj; apply H5, elem_of_blks; eauto).
      destruct Hk as [E|[fl E]]; rewrite E in Nj; [now destruct (Nj Logic.I)|]. cbn in Nj.
      apply (live_small _ _ i sc fl); try done. rewrite Hca. apply not_elem_of_nil.
    + rewrite fn_lookup_insert_ne in H2 by done. apply (live_small _ _ i' sc' fl'); try done.
      destruct (decide (sc = sc')) as [<-|Ns]; [rewrite Hca; apply not_elem_of_nil|].
      now rewrite fn_lookup_insert_ne in H5 by done.
  - cbn in H1, H2. destruct (decide (i = i')) as [<-|Ne]; [now rewrite fn_lookup_insert in H2|].
    rewrite fn_lookup_insert_ne in H2 by done. now apply live_large.
  - destruct (decide (i = i')) as [<-|Ne].
    + destruct Hk as [E|[fl E]]; rewrite E in H2; [done|]. injection H2 as <- <-.
      apply (live_small _ _ i sc []); gproj; fins; try done; try apply not_elem_of_nil.
      rewrite elem_of_blks. intros (j' & E' & Hj'). apply blk_inj in E' as [_ <-]; try done; [|now apply Rbl].
      apply Hbl in Hj'; [|done]. now rewrite E in Hj'.
    + apply (live_small _ _ i' sc' fl'); gproj; fins; try done.
      destruct (decide (sc = sc')) as [<-|Ns]; fins; [|done].
      rewrite elem_of_blks. intros (j' & E & Hj'). apply blk_inj in E as [E _]; try done. now apply Rbl.
  - destruct (decide (i = i')) as [<-|Ne]; [destruct Hk as [E|[fl E]]; congruence|]. apply live_large; gproj; fins; done.
Qed.

End Fill.

(** The program has the same blocks in its hands. *)
Definition same_live (s s' : rst) (G G' : ghost) : Prop :=
  forall b sz, live (r_rgs s') G' b sz <-> live (r_rgs s) G b sz.

Lemma live_retire s G sc i fl : inv s G -> class_idx sc -> 1 <= i < gn G -> gk G i = KSmall sc fl ->
  Z.of_nat (length fl) = mcn sc ->
  forall b sz, live (r_rgs s) (set_owner (set_av (set_kind G i KFree) (i :: gav G)) None) b sz <-> live (r_rgs s) G b sz.
Proof.
  intros I Hc Hi Hk Hf b sz. destruct (inv_small _ _ I i sc fl Hi Hk) as [_ (_ & _ & _ & _ & Nd & Rg & _)].
  split; intros L; destruct L as [i' sc' fl' j H1 H2 H3 H4 H5|i' c H1 H2].
  - cbn in H1, H2, H5. destruct (decide (i = i')) as [<-|Ne]; [now rewrite fn_lookup_insert in H2|].
    rewrite fn_lookup_insert_ne in H2 by done. now apply (live_small _ _ i' sc' fl').
  - cbn in H1, H2. destruct (decide (i = i')) as [<-|Ne]; [now rewrite fn_lookup_insert in H2|].
    rewrite fn_lookup_insert_ne in H2 by done. now apply live_large.
  - destruct (decide (i = i')) as [<-|Ne].
    + exfalso. rewrite Hk in H2. injection H2 as <- <-. apply H4. now apply (full_list fl (mcn sc)).
    + apply (live_small _ _ i' sc' fl'); gproj; fins; done.
  - destruct (decide (i = i')) as [<-|Ne]; [congruence|]. apply live_large; gproj; fins; done.
Qed.

Lemma live_ghost_same g G G' : gn G' = gn G -> gk G' = gk G -> gca G' = gca G ->
  forall b sz, live g G' b sz <-> live g G b sz.
Proof.
  intros E1 E2 E3 b sz. split; intros L; destruct L as [i sc fl j H1 H2 H3 H4 H5|i c H1 H2];
    first [apply (live_small _ _ i sc fl)|apply live_large]; congruence.
Qed.

(** [small_ok] of a superblock with a free block, as the values the code reads. *)
Lemma small_ok_anchor g dm m i sc fl : class_idx sc -> small_ok g dm m i sc fl -> fl <> [] ->
  let a := anchor (dget dm (daA g i)) in
  0 <= avail a < mcn sc /\
  (Z.of_nat (length fl) = mcn sc /\ state a = SB_EMPTY \/
   0 < Z.of_nat (length fl) < mcn sc /\ state a = SB_PARTIAL /\ count a = Z.of_nat (length fl)).
Proof.
  intros Hc (_ & _ & _ & _ & N & R & A & _) Hne. cbv zeta. destruct fl as [|j fl]; [done|]. cbn [anchor_ok] in A. destruct A as [-> A].
  split; [apply R; left|]. case_decide as E; [left|right]; destruct A; try done.
  split; [|done]. split; [cbn; lia|].
  enough (Z.of_nat (length (j :: fl)) <= mcn sc) by lia.
  pose proof (class_facts sc Hc) as Hm. assert (length (j :: fl) <= length (seqZ 0 (mcn sc)))%nat as L; [|rewrite length_seqZ in L; lia].
  apply NoDup_incl_length; [now apply NoDup_ListNoDup|].
  intros x Hx. apply list_elem_of_In, elem_of_seqZ. apply list_elem_of_In, R in Hx. lia.
Qed.

(** The free blocks of a partial superblock, just taken off its list, become the cache. *)
Lemma partial_take s G sc i fl (next : stM rst Z) : inv s G -> gow G = Some i -> class_idx sc -> gca G sc = [] -> 1 <= i < gn G -> gk G i = KSmall sc fl ->
  let d := dget (r_desc s) (daA (r_rgs s) i) in
  0 <= avail (anchor d) < mcn sc -> Z.of_nat (length fl) < mcn sc -> state (anchor d) = SB_PARTIAL -> count (anchor d) = Z.of_nat (length fl) ->
  exists s', (o <- reserve_loop CAS_FUEL sc (daA (r_rgs s) i) (sbA (r_rgs s) i) (mcn sc) (anchor d);
      match o with
      | None => next
      | Some oldanchor =>
          cassert (avail oldanchor <? mcn sc);;
          b <- get_bin sc;
          cassert (_block_num b =? 0);;
          push_list sc (u64 (sbA (r_rgs s) i + u32 (avail oldanchor * bsz sc))) (count oldanchor);;
          cret (count oldanchor)
      end) s = Ok (Z.of_nat (length fl), s') /\
    inv s' (filled (r_rgs s) G sc i fl) /\ r_rgs s' = r_rgs s /\ r_mem s' = r_mem s /\ same_live s s' G (filled (r_rgs s) G sc i fl).
Proof.
  intros I Ho Hc Hca Hi Hk d Av Hlen Est Ecn. destruct (inv_geo _ _ I) as (rd & rs & Gg). pose proof (class_facts sc Hc) as Cf.
  destruct (inv_small _ _ I i sc fl Hi Hk) as [_ Sm]. cbn [reserve_loop CAS_FUEL].
  rewrite bool_decide_eq_false_2 by congruence. rewrite (bool_decide_eq_true_2 _ Est). cbn [cassert].
  cpure. unfold anchor_cas. crun (get_d_ok s i Gg ltac:(lia)). fold d.
  rewrite bool_decide_eq_true_2 by done. crun (put_d_ok s i (set_anchor (mkAnchor (u31 (mcn sc)) 0 SB_FULL) d) Gg ltac:(lia)).
  set (s1 := upd s _ _ _ _ _). do 2 cpure. rewrite Ecn, (proj2 (Z.ltb_lt _ _)) by lia. cpure.
  destruct (inv_cache _ _ I sc Hc) as (p & Hp & _). rewrite Hca in Hp. change (Z.of_nat (length [])) with 0 in Hp.
  crun (get_bin_ok s1 _ _ Hp). cpure. unfold push_list. crun (get_bin_ok s1 _ _ Hp). cpure. rewrite (blk_code _ _ _ _ sc i _ Gg Hc Hi) by lia.
  eexists. split; [reflexivity|]. unfold s1. replace (u31 (mcn sc)) with (mcn sc) by (unfold u31; rewrite Z.mod_small; lia).
  assert (Hk1 : gk G i = KFree \/ exists fl, gk G i = KSmall sc fl) by (right; eauto). destruct Sm as (S1 & S2 & S3 & S4 & Nfl & Rfl & _ & Cfl).
  split; [apply (inv_fill s _ I sc i fl Hc Ho Hi Hk1 Nfl Rfl ltac:(lia)); done|]. split; [done|]. split; [done|].
  intros b sz. rproj. apply (live_fill s G sc i fl Hc Hi Hk1); [done..|]. now rewrite Hk.
Qed.

Lemma malloc_from_partial_inv sc l : class_idx sc -> forall fuel s G, inv s G -> gow G = None ->
  gca G sc = [] -> gpt G sc = l -> (length l < fuel)%nat ->
  exists r s' G', malloc_from_partial fuel sc s = Ok (r, s') /\ inv s' G' /\ gow G' = None /\
    r_rgs s' = r_rgs s /\ same_live s s' G G' /\ r_mem s' = r_mem s /\ gn G' = gn G /\ r = Z.of_nat (length (gca G' sc)).
Proof.
  intros Hc. induction l as [|i l IH]; intros fuel s G I Ho Hca Hpt Hf; (destruct fuel as [|fuel]; [cbn in Hf; lia|]);
    destruct (inv_geo _ _ I) as (rd & rs & Gg); cbn [malloc_from_partial].
  - pose proof (inv_part _ _ I sc Hc) as P. rewrite Hpt in P.
    rewrite (cbind_Ok _ _ _ _ _ (heap_pop_partial_nil s sc Gg P)). exists 0, s, G. rewrite Hca.
    do 4 (split; [done|]). split; [intros b sz; reflexivity|]. auto.
  - destruct (inv_pop_partial s G I sc i l Hc Ho Hpt) as (s1 & E1 & I1 & Er & Em & Ed & Et).
    rewrite (cbind_Ok _ _ _ _ _ E1).
    assert (Hi : 1 <= i < gn G) by (apply (pt_range s G I sc); [done|rewrite Hpt; left]).
    pose proof (proj1 (inv_pt_kind _ _ I sc i Hc) ltac:(rewrite Hpt; left)) as (_ & _ & fl & Hk & Hne).
    pose proof (geo_addr_range Gg i ltac:(lia)). rewrite (proj2 (Z.eqb_neq _ _)) by lia.
    assert (Gg1 : geo (r_rgs s1) (gn G) rd rs) by now rewrite Er.
    destruct (inv_small _ _ I1 i sc fl Hi Hk) as [_ Sm]. pose proof (small_ok_anchor _ _ _ _ _ _ Hc Sm Hne) as An. cbv zeta in An.
    pose proof Sm as (Sh & Sb & Smx & Ssb & _).
    rewrite <- Er. rewrite (cbind_Ok _ _ _ _ _ (get_d_ok s1 i Gg1 ltac:(lia))).
    rewrite (cbind_Ok _ _ s1 _ s1 eq_refl), Ssb, Smx, Sb, (translate_sb Gg1) by lia.
    set (d := dget (r_desc s1) (daA (r_rgs s1) i)) in *. destruct An as [Av [[Hfull Est]|(Hlen & Est & Ecn)]].
    + (* the superblock is empty: it is retired and the next one is tried *)
      cbn [reserve_loop CAS_FUEL]. rewrite (bool_decide_eq_true_2 _ Est).
      destruct (inv_part _ _ I1 sc Hc) as (w & p & Eh & _). rewrite !cbind_assoc, (cbind_Ok _ _ _ _ _ (get_heap_ok s1 sc _ Eh)).
      cbn [sc_idx]. rewrite (proj1 (class_data sc Hc)).
      destruct (inv_retire s1 _ I1 sc i fl Hc eq_refl Hi Hk Hfull) as (s2 & E2 & I2 & Er2 & Em2 & Et2).
      rewrite !cbind_assoc, (cbind_Ok _ _ _ _ _ E2). unfold cret at 1, cbind at 1.
      destruct (IH fuel s2 _ I2) as (r & s' & G' & E3 & I3 & Ho3 & Er3 & Lv3 & Em3 & En3 & Hr);
        [done|done|gproj; now fins|cbn in Hf; lia|].
      exists r, s', G'. rewrite E3. do 3 (split; [done|]). split; [congruence|]. split; [|split; [congruence|done]].
      intros b sz. rewrite (Lv3 b sz), Er2, (live_retire s1 _ sc i fl I1 Hc Hi Hk Hfull), Er. now apply live_ghost_same.
    + (* its free blocks become the cache *)
      destruct (partial_take s1 _ sc i fl (malloc_from_partial fuel sc) I1 eq_refl Hc Hca Hi Hk Av (proj2 Hlen) Est Ecn) as (s2 & E2 & I2 & Er2 & Em2 & Lv2).
      exists (Z.of_nat (length fl)), s2. eexists. split; [exact E2|]. split; [exact I2|]. split; [done|]. split; [congruence|]. split; [|split; [congruence|]].
      * intros b sz. rewrite (Lv2 b sz), Er. now apply live_ghost_same.
      * split; [done|]. unfold filled. gproj. fins. now rewrite length_map.
Qed.

(** ** A free superblock becomes a superblock of a class *)

(** The lists depend on a region's address only, not on its end. *)
Lemma dlist_region g k r nx p l : dlist g nx p l -> dlist (set_region g k r) nx p l.
Proof. revert p. induction l as [|i l IH]; intros p; [done|]. cbn. intros [-> D]. split; [done|]. now apply IH. Qed.

Lemma avail_ok_region g k r dm w l : avail_ok g dm w l -> avail_ok (set_region g k r) dm w l.
Proof. intros (p & Hp & D). exists p. split; [exact Hp|]. now apply dlist_region. Qed.

Lemma part_ok_region g k r dm hs sc l : part_ok g dm hs sc l -> part_ok (set_region g k r) dm hs sc l.
Proof. intros (w & p & E & Hp & D). exists w, p. split; [exact E|]. split; [exact Hp|]. now apply dlist_region. Qed.

Section Grow.
Context (s : rst) (G : ghost) (I : inv s G) (Ho : gow G = None).
#[local] Abbreviation g := (r_rgs s).

Lemma inv_alloc_cons i l : gav G = i :: l ->
  exists s', small_sb_alloc SBSIZE s = Ok (sbA g i, s') /\ inv s' (set_owner (set_av G l) (Some i)) /\
    r_rgs s' = r_rgs s /\ r_mem s' = r_mem s.
Proof.
  intros E. destruct (inv_geo _ _ I) as (rd & rs & Gg). pose proof (inv_avail _ _ I) as A. rewrite E in A.
  pose proof (inv_av_nodup _ _ I) as N. rewrite E in N. apply list.NoDup_cons in N as [Ni N].
  pose proof (proj1 (inv_av_kind _ _ I i) ltac:(rewrite E; left)) as (Hi & _ & Hk).
  destruct (small_sb_alloc_cons s i l Gg) as (w & Er & A'); [intros j Hj; apply (av_range s G I); now rewrite E|done|].
  eexists. split; [exact Er|]. split; [|done].
  constructor; rproj; gproj; try solve [apply I]; try done.
  - intros j. pose proof (inv_av_kind _ _ I j) as K. rewrite E, elem_of_cons, Ho in K. split.
    + intros Hj. destruct (proj1 K ltac:(now right)) as (? & _ & ?). repeat split; try done; try lia.
      intros Ej. injection Ej as ->. done.
    + intros (Hj & Nj & Hkj). assert (None <> Some j) by done. destruct (proj2 K) as [->|?]; [tauto|congruence|done].
  - intros sc j Hc. rewrite (inv_pt_kind _ _ I sc j Hc), Ho. split; intros (? & ? & fl & Hk' & ?); repeat split; try lia; eauto.
    intros Ej. injection Ej as ->. congruence.
Qed.

(** More superblocks behind the old end. *)
Lemma inv_grow n' k' rd rs r' dm w av ow tr :
  geo g (gn G) rd rs -> gn G < n' -> geo (set_region g 1 r') n' rd r' ->
  (forall j, 1 <= j < gn G -> k' j = gk G j) ->
  (forall j, j < gn G -> dget dm (daA g j) = dget (r_desc s) (daA g j)) ->
  avail_ok g dm w av -> NoDup av -> (forall j, j ∈ av <-> 1 <= j < n' /\ ow <> Some j /\ k' j = KFree) ->
  (forall j, ow = Some j -> gn G <= j) ->
  (forall j, gn G <= j < n' -> match k' j with
     | KFree => True
     | KSmall _ _ => False
     | KLarge c => 1 <= c < 2 ^ 16 /\ j + c <= n' /\ large_ok g dm j c /\ (forall j', j < j' < j + c -> k' j' = KBody)
     | KBody => exists i c, 1 <= i < j /\ j < i + c /\ k' i = KLarge c
     end) ->
  inv (mkR (set_region g 1 r') (r_mem s) dm (set_avail_sb w (r_md s)) (r_tc s) (r_filters s) (r_init s) tr)
      (mkG n' k' av (gpt G) (gca G) ow).
Proof.
  intros Gg Hn Gg' Hk Hd A N Ka Hw Hnew.
  assert (Hs : forall j sc fl, 1 <= j < n' -> k' j = KSmall sc fl -> 1 <= j < gn G /\ gk G j = KSmall sc fl).
  { intros j sc fl Hj E. destruct (Z.lt_ge_cases j (gn G)) as [L|L]; [rewrite <- Hk by lia; split; [lia|done]|].
    specialize (Hnew j ltac:(lia)). now rewrite E in Hnew. }
  constructor; rproj; gproj; cbn [set_avail_sb avail_sb heaps]; try solve [apply I]; try done.
  - now exists rd, r'.
  - now apply avail_ok_region.
  - intros sc Hc. apply part_ok_region, (part_ok_ext g (r_desc s) _ (heaps (r_md s))); [|done|now apply I].
    intros j Hj. unfold nextp. rewrite Hd; [done|]. now apply (pt_range s G I sc j Hc) in Hj.
  - intros sc j Hc. rewrite (inv_pt_kind _ _ I sc j Hc), Ho. split.
    + intros (Hj & _ & fl & E & ?). split; [lia|]. split; [intros Ej; apply Hw in Ej; lia|]. exists fl. now rewrite Hk.
    + intros (Hj & _ & fl & E & ?). destruct (Hs j sc fl Hj E). split; [done|]. split; [done|]. eauto.
  - intros j sc fl Hj E. destruct (Hs j sc fl Hj E) as [Hj' E']. destruct (inv_small _ _ I j sc fl Hj' E') as [? Sm].
    split; [done|]. revert Sm. apply (small_ok_same g). apply Hd. lia.
  - intros sc b Hc Hb. destruct (inv_ca_kind _ _ I sc b Hc Hb) as (i & fl & j & Hi & E & H). exists i, fl, j.
    split; [lia|]. split; [now rewrite Hk|done].
  - intros j c Hj E. destruct (Z.lt_ge_cases j (gn G)) as [L|L].
    + rewrite Hk in E by lia. destruct (inv_large _ _ I j c ltac:(lia) E) as (? & ? & La & Bd). split; [done|]. split; [lia|].
      split; [revert La; apply (large_ok_same g); apply Hd; lia|]. intros j' Hj'. rewrite Hk by lia. now apply Bd.
    + specialize (Hnew j ltac:(lia)). now rewrite E in Hnew.
  - intros j Hj E. destruct (Z.lt_ge_cases j (gn G)) as [L|L].
    + rewrite Hk in E by lia. destruct (inv_body _ _ I j ltac:(lia) E) as (i & c & ? & ? & ?). exists i, c. rewrite Hk by lia. done.
    + specialize (Hnew j ltac:(lia)). now rewrite E in Hnew.
Qed.

End Grow.

Lemma geo_grow g n n' rd rs r' : geo g n rd rs -> region_wf r' (sbA g n') -> base_addr r' = base_addr rs ->
  FILESIZE r' = FILESIZE rs -> 1 <= n' -> geo (set_region g 1 r') n' rd r'.
Proof.
  intros G W Eb Ef Hn. destruct G as [Hd Hs [L1 L2] HD HS HM _ _ Hb Hds Hc]. unfold sb_capacity in *.
  destruct g as [rgs ad ci]. cbn in L1, L2. destruct rgs as [|r0 [|r1 [|r2 [|]]]]; try discriminate L1.
  constructor; cbn [set_region regions regions_address]; try done.
  - now rewrite Eb.
  - unfold sb_capacity. now rewrite Eb, Ef.
  - unfold sb_capacity. now rewrite Eb, Ef.
Qed.

(** Room for [bytes] more behind the end of the superblock region. *)
Definition room (s : rst) (bytes : Z) : bool :=
  match get_region (r_rgs s) SB_IDX with
  | Some r => curr_addr r + bytes <=? base_addr r + FILESIZE r
  | None => false
  end.

Definition expanded (G : ghost) : ghost :=
  mkG (gn G + 16384) (fun j => if decide (gn G <= j) then KFree else gk G j)
      (seqZ (gn G + 1) 16383) (gpt G) (gca G) (Some (gn G)).

Lemma sbA_page g n rd rs i : geo g n rd rs -> Z.land (sbA g i) (PAGESIZE - 1) = 0.
Proof.
  intros G. destruct (geo_S _ _ _ _ G) as [_ E]. change (PAGESIZE - 1) with (2 ^ 12 - 1). rewrite land_pow2_pred by lia.
  unfold_cfg. apply Z.mod_divide in E as [q E]; [|lia]. rewrite E.
  replace (q * 65536 + 65536 * i) with ((q + i) * 16 * 2 ^ 12) by lia. now rewrite Z.mod_mul.
Qed.

Lemma avail_load_nil s n rd rs : geo (r_rgs s) n rd rs -> avail_ok (r_rgs s) (r_desc s) (avail_sb (r_md s)) [] ->
  exists c, avail_load s = Ok (mkPC 0 c, s).
Proof.
  intros G (p & [Hw Ep] & D). cbn in D. rewrite D in Ep. unfold avail_load, cgets.
  destruct (cnt_load _ _ _) as [q c]. cbn in Ep. rewrite Ep. now exists c.
Qed.

Section Expand.
Context (s : rst) (G : ghost) (I : inv s G) (Ho : gow G = None) (Hav : gav G = []).
Context (rd rs : RegionManager) (Gg : geo (r_rgs s) (gn G) rd rs).
#[local] Abbreviation g := (r_rgs s).

Lemma room_eq c : room s (SBSIZE * c) = (sbA g (gn G + c) <=? base_addr rs + FILESIZE rs).
Proof. unfold room. rewrite (geo_rs _ _ _ _ Gg), (curr_addr_sb Gg). f_equal. unfold_cfg. lia. Qed.

(** The start of [small_sb_alloc] when there is no free superblock. *)
Lemma small_sb_alloc_empty : exists c,
  small_sb_alloc SBSIZE s =
  (o <- small_sb_expand; match o with Some res => cret res | None => small_sb_alloc_loop 1 (mkPC 0 c) end) s.
Proof.
  pose proof (inv_avail _ _ I) as A. rewrite Hav in A. destruct (avail_load_nil s _ _ _ Gg A) as [c Ec]. exists c.
  unfold small_sb_alloc. rewrite Z.eqb_refl. cpure. crun Ec. reflexivity.
Qed.

Lemma small_sb_expand_start {B} (k : option Z -> stM rst B) :
  cbind small_sb_expand k s =
  (if sbA g (gn G + 16384) <=? base_addr rs + FILESIZE rs then
     let '(ok, r', tr) := nvm_commit rs (sbA g (gn G)) (sbA g (gn G + 16384)) in
     cbind (cmod (fun s => emit tr (with_region SB_IDX r' s));;
       if (ok : bool) then
         organize_sb_list (sbA g (gn G + 1)) 16383;;
         g0 <- cgets r_rgs;
         construct (desc_lookup g0 (sbA (r_rgs s) (gn G)));;
         cret (Some (sbA (r_rgs s) (gn G)))
       else cret None) k s
   else Err AssertFail).
Proof.
  pose proof (inv_avail _ _ I) as A. rewrite Hav in A. destruct (avail_load_nil s _ _ _ Gg A) as [c Ec].
  unfold small_sb_expand.
  assert (Es : sb_region s = Ok (rs, s)) by (unfold sb_region; now rewrite (geo_rs _ _ _ _ Gg)).
  crun Es. rewrite (curr_addr_sb Gg), (sbA_page _ _ _ _ _ Gg). cbn [Z.eqb negb]. crun Ec. cbn [ptr Z.eqb negb].
  pose proof (geo_wf _ _ _ _ Gg) as [? ? ? _]. pose proof (geo_S _ _ _ _ Gg).
  replace (u64 (sbA g (gn G) + SB_REGION_EXPAND_SIZE)) with (sbA g (gn G + 16384)).
  2: { rewrite u64_small; unfold SB_REGION_EXPAND_SIZE, MIN_SB_REGION_SIZE; unfold_cfg; lia. }
  replace (u64 (sbA g (gn G) + SBSIZE)) with (sbA g (gn G + 1)).
  2: { rewrite u64_small; unfold_cfg; lia. }
  destruct (sbA g (gn G + 16384) <=? base_addr rs + FILESIZE rs); [|reflexivity].
  cpure. change (SB_REGION_EXPAND_SIZE / SBSIZE - 1) with 16383.
  now destruct (nvm_commit rs (sbA g (gn G)) (sbA g (gn G + 16384))) as [[ok r'] tr].
Qed.

Lemma small_sb_alloc_no_room : room s SB_REGION_EXPAND_SIZE = false -> small_sb_alloc SBSIZE s = Err AssertFail.
Proof.
  change SB_REGION_EXPAND_SIZE with (SBSIZE * 16384). rewrite room_eq. intros R. destruct small_sb_alloc_empty as [c ->].
  rewrite small_sb_expand_start. now rewrite R.
Qed.

Lemma inv_alloc_expand : room s SB_REGION_EXPAND_SIZE = true ->
  exists s' r', small_sb_alloc SBSIZE s = Ok (sbA g (gn G), s') /\ inv s' (expanded G) /\
    r_rgs s' = set_region g 1 r' /\ r_mem s' = r_mem s.
Proof.
  change SB_REGION_EXPAND_SIZE with (SBSIZE * 16384). rewrite room_eq. intros R. apply Z.leb_le in R as R'.
  pose proof (geo_wf _ _ _ _ Gg) as [? ? ? ?]. pose proof (geo_S _ _ _ _ Gg). pose proof (geo_n _ _ _ _ Gg).
  destruct small_sb_alloc_empty as [c ->]. rewrite small_sb_expand_start, R.
  destruct (nvm_commit_ok rs (sbA g (gn G)) (sbA g (gn G + 16384)) (geo_wf _ _ _ _ Gg)) as (r' & tr & -> & Eb & EF & _ & Ef);
    [unfold_cfg; lia|].
  assert (Gg' : geo (set_region g 1 r') (gn G + 16384) rd r').
  { apply (geo_grow g (gn G) _ rd rs); try done; [|lia]. constructor; rewrite ?Eb, ?EF, ?Ef; try done; unfold_cfg; lia. }
  cpure. set (s1 := emit _ _).
  destruct (organize_sb_list_ok s1 (gn G + 1) 16383 [] Gg') as (dm & w & tr' & E1 & A1 & D1);
    [lia|lia|lia|intros j Hj; now apply not_elem_of_nil in Hj| |].
  { apply avail_ok_region. pose proof (inv_avail _ _ I) as A. now rewrite Hav in A. }
  change (sbA (r_rgs s1) (gn G + 1)) with (sbA g (gn G + 1)) in E1. crun E1.
  cpure. set (s2 := upd s1 _ _ _ _ _).
  assert (Edl : desc_lookup (r_rgs s2) (sbA g (gn G)) = daA (r_rgs s2) (gn G)).
  { apply (desc_lookup_sb0 Gg'). lia. }
  rewrite Edl. crun (construct_ok s2 (gn G) Gg' ltac:(lia)). cpure. cbn [cret].
  do 2 eexists. split; [reflexivity|]. split; [|split; reflexivity].
  eapply (inv_grow s G I Ho (gn G + 16384) _ rd rs r'); [exact Gg| |exact Gg'|..].
  - lia.
  - intros j Hj. now rewrite decide_False by lia.
  - intros j Hj. rewrite dget_ne by (intros E; apply (daA_inj (g := g)) in E; lia). apply D1. lia.
  - rewrite app_nil_r in A1. destruct A1 as (p & Hp & D). exists p. split; [exact Hp|].
    assert (Dl : forall p l, dlist (set_region g 1 r') (nextf g dm) p l -> dlist g (nextf g dm) p l).
    { clear. intros p l. revert p. induction l as [|i l IH]; intros p; [done|]. cbn. intros [-> D]. split; [done|]. now apply IH. }
    apply Dl in D. eapply dlist_ext; [|exact D]. intros j Hj. apply elem_of_seqZ in Hj. exact (nextf_ne g dm (gn G) j _ ltac:(lia)).
  - apply NoDup_seqZ.
  - intros j. rewrite elem_of_seqZ. split.
    + intros Hj. split; [lia|]. split; [intros E; injection E; lia|]. now rewrite decide_True by lia.
    + intros (Hj & Nj & Hk). case_decide as L; [assert (j <> gn G) by congruence; lia|].
      assert (Hj' : j ∈ gav G) by (apply (inv_av_kind _ _ I); rewrite Ho; split; [lia|done]).
      rewrite Hav in Hj'. now apply not_elem_of_nil in Hj'.
  - intros j E. injection E as <-. lia.
  - intros j Hj. now rewrite decide_True by lia.
Qed.

End Expand.
