(* ===== verification/RallocFill.v ===== *)
(** * Filling a cache, small allocations as a whole, and large blocks

    A free superblock is formatted for a class and its blocks go to the cache
    ([malloc_from_newsb]); [fill_cache] tries the partial list first; [do_malloc] of a small
    size then takes the first block of the cache. *)

From stdpp Require Import functions.
From S2P Require Import Prelude Pptr ByteMem SizeClass Regions Ralloc RallocInv RallocRun RallocMalloc.

(** ** Live bytes *)

Definition in_live (g : Regions) (G : ghost) (a : Z) : Prop := exists b sz, live g G b sz /\ b <= a < b + sz.

(** The bytes of the program's blocks are as before. *)
Definition frame (s s' : rst) (G : ghost) : Prop :=
  forall a, in_live (r_rgs s) G a -> rd8 (r_mem s') a = rd8 (r_mem s) a.

Lemma frame_mem s s' G : r_mem s' = r_mem s -> frame s s' G.
Proof. intros E a _. now rewrite E. Qed.

Lemma live_not_free s G i a : inv s G -> 1 <= i < gn G -> gk G i = KFree -> in_live (r_rgs s) G a ->
  a < sbA (r_rgs s) i \/ sbA (r_rgs s) i + SBSIZE <= a.
Proof.
  intros I Hi Hk (b & sz & L & Ha). destruct L as [i' sc fl j H1 H2 H3 H4 H5|i' c H1 H2].
  - destruct (inv_small _ _ I i' sc fl H1 H2) as [Hc _]. pose proof (blk_offset (r_rgs s) sc i' j Hc H3).
    assert (i' <> i) by congruence. unfold_cfg. lia.
  - destruct (inv_large _ _ I i' c H1 H2) as (? & ? & _ & Bd). assert (i' <> i) by congruence.
    destruct (Z.lt_ge_cases i' i) as [L|L].
    + destruct (Z.lt_ge_cases i (i' + c)) as [L'|L']; [rewrite (Bd i) in Hk by lia; discriminate|]. unfold_cfg. lia.
    + unfold_cfg. lia.
Qed.

(** ** Formatting a superblock *)

Section Format.
Context {n : Z} {rd rs : RegionManager}.

Lemma format_loop_ok sc i k : class_idx sc -> 1 <= i < n -> forall m s, geo (r_rgs s) n rd rs -> 0 <= m -> m + Z.of_nat k < mcn sc ->
  exists m',
    cfor (seqZ m (Z.of_nat k)) (fun idx =>
      st_link (u64 (sbA (r_rgs s) i + u32 (idx * bsz sc))) (u64 (sbA (r_rgs s) i + u32 ((idx + 1) * bsz sc)))) s =
    Ok (tt, upd s m' (r_desc s) (r_md s) (r_tc s) (r_trace s)) /\
    (forall j, m <= j < m + Z.of_nat k -> ld_pptr m' (blk (r_rgs s) sc i j) = blk (r_rgs s) sc i (j + 1)) /\
    (forall x, (x + 8 <= blk (r_rgs s) sc i m \/ sbA (r_rgs s) i + SBSIZE <= x) -> ld_pptr m' x = ld_pptr (r_mem s) x) /\
    (forall a, (a < sbA (r_rgs s) i \/ sbA (r_rgs s) i + SBSIZE <= a) -> rd8 m' a = rd8 (r_mem s) a).
Proof.
  intros Hc Hi. pose proof (class_facts sc Hc) as Cf. induction k as [|k IH]; intros m s G Hm Hk.
  - exists (r_mem s). split; [destruct s; reflexivity|]. split; [intros; lia|]. done.
  - rewrite seqZ_cons by lia. cbn [cfor]. set (g := r_rgs s) in *.
    rewrite !(blk_code _ _ _ _ sc i _ G Hc Hi) by lia.
    assert (E : st_link (blk g sc i m) (blk g sc i (m + 1)) s =
      Ok (tt, upd s (st_pptr (blk g sc i m) (blk g sc i (m + 1)) (r_mem s)) (r_desc s) (r_md s) (r_tc s) (r_trace s))).
    { unfold st_link. pose proof (mapped_blk s n rd rs sc i m G Hc Hi ltac:(lia)) as Em. fold g in Em. now rewrite Em. }
    crun E. replace (Z.pred (Z.of_nat (S k))) with (Z.of_nat k) by lia. change (Z.succ m) with (m + 1).
    match goal with |- context [cfor _ _ ?st] => set (s2 := st) end.
    destruct (IH (m + 1) s2 G ltac:(lia) ltac:(lia)) as (m' & E' & H1 & H2 & H3). subst s2. rproj in E' H1 H2 H3. fold g in E', H1, H2, H3.
    exists m'. split; [exact E'|].
    pose proof (blk_range _ _ _ _ sc i m G Hc Hi ltac:(lia)) as R1. pose proof (blk_range _ _ _ _ sc i (m + 1) G Hc Hi ltac:(lia)) as R2. fold g in R1, R2.
    assert (Eb : blk g sc i (m + 1) = blk g sc i m + bsz sc) by (unfold blk; lia).
    pose proof (blk_offset g sc i m Hc ltac:(lia)).
    split; [|split].
    + intros j Hj. destruct (decide (j = m)) as [->|]; [|apply H1; lia].
      rewrite H2 by lia. rewrite ld_st_pptr_eq by lia. done.
    + intros x Hx. rewrite H2 by lia. apply ld_st_pptr_ne. unfold_cfg. lia.
    + intros a Ha. rewrite H3 by lia. apply rd8_wr. change (Z.of_nat 8) with 8. unfold_cfg. lia.
Qed.

End Format.

Lemma chain_seq m g sc i c : forall j0, (forall j, j0 <= j < j0 + Z.of_nat c - 1 -> ld_pptr m (blk g sc i j) = blk g sc i (j + 1)) ->
  chain m (blk g sc i j0) (map (blk g sc i) (seqZ j0 (Z.of_nat c))).
Proof.
  induction c as [|c IH]; intros j0 H; [done|]. rewrite seqZ_cons by lia. cbn [map chain]. split; [done|].
  replace (Z.pred (Z.of_nat (S c))) with (Z.of_nat c) by lia. destruct c as [|c]; [done|].
  rewrite H by lia. change (Z.succ j0) with (j0 + 1). apply IH. intros j Hj. apply H. lia.
Qed.

(** The part of [malloc_from_newsb] behind [small_sb_alloc]. *)
Definition format_sb (sc_idx sb : Z) : stM rst Z :=
  let sc := get_sizeclass_by_idx sc_idx in
  cassert (negb (sb =? 0));;
  g <- cgets r_rgs;
  hp <- cgets (fun s => heap_addr s sc_idx);
  let desc := desc_lookup g sb in
  upd_d desc (set_heap (CrossPtr_assign g META_IDX hp));;
  upd_d desc (set_block_size (sc_block_size sc));;
  upd_d desc (set_maxcount (sc_block_num sc));;
  upd_d desc (set_superblock (CrossPtr_assign g SB_IDX sb));;
  cfor (seqZ 0 (sc_block_num sc - 1)) (fun idx =>
    st_link (u64 (sb + u32 (idx * sc_block_size sc))) (u64 (sb + u32 ((idx + 1) * sc_block_size sc))));;
  push_list sc_idx sb (sc_block_num sc);;
  let a := mkAnchor (u31 (sc_block_num sc)) 0 SB_FULL in
  upd_d desc (set_anchor a);;
  cmod (emit [Flush desc; Fence]);;
  cassert ((avail a <? sc_block_num sc) || bool_decide (state a = SB_FULL));;
  cassert (count a <? sc_block_num sc);;
  cassert (bool_decide (state a = SB_FULL));;
  cret (sc_block_num sc).

Lemma malloc_from_newsb_split sc s : class_idx sc ->
  malloc_from_newsb sc s = cbind (small_sb_alloc SBSIZE) (format_sb sc) s.
Proof. intros Hc. unfold malloc_from_newsb, format_sb. now rewrite (proj1 (class_data sc Hc)). Qed.

Lemma format_sb_inv s G sc i : inv s G -> class_idx sc -> gow G = Some i -> 1 <= i < gn G -> gk G i = KFree -> gca G sc = [] ->
  exists s', format_sb sc (sbA (r_rgs s) i) s = Ok (mcn sc, s') /\
    inv s' (filled (r_rgs s) G sc i (seqZ 0 (mcn sc))) /\ r_rgs s' = r_rgs s /\
    same_live s s' G (filled (r_rgs s) G sc i (seqZ 0 (mcn sc))) /\ frame s s' G.
Proof.
  intros I Hc Ho Hi Hk Hca. destruct (inv_geo _ _ I) as (rd & rs & G0). pose proof (class_facts sc Hc) as Cf.
  set (g := r_rgs s) in *. pose proof (geo_addr_range G0 i ltac:(lia)) as R. unfold class_idx in Hc.
  destruct (inv_cache _ _ I sc Hc) as (p & Hp & _). rewrite Hca in Hp. change (Z.of_nat (length [])) with 0 in Hp.
  unfold format_sb. fold (bsz sc) (mcn sc). rewrite (proj2 (Z.eqb_neq _ _)) by lia. do 3 cpure. fold g. cbv zeta.
  rewrite (heap_off_assign (g := g) s sc eq_refl ltac:(lia)), (untranslate_sb G0) by lia.
  replace (desc_lookup g (sbA g i)) with (daA g i)
    by (symmetry; apply (desc_lookup_sb0 G0); lia).
  do 4 (match goal with |- context [cbind (upd_d _ ?f) _ ?st] => crun (upd_d_ok st i f G0 ltac:(lia)); rproj; fold g end).
  repeat rewrite dget_eq, insert_insert_eq. cbn [set_heap set_block_size set_maxcount set_superblock next_free next_partial anchor superblock heap block_size maxcount].
  match goal with |- context [cbind (cfor _ _) _ ?st] => set (s1 := st) end.
  destruct (format_loop_ok sc i (Z.to_nat (mcn sc - 1)) Hc Hi 0 s1 G0 ltac:(lia) ltac:(lia)) as (m' & E & H1 & H2 & H3).
  rewrite Z2Nat.id in E, H1 by lia. subst s1. rproj in E H1 H2 H3. fold g in E, H1, H2, H3. crun E. rproj.
  unfold push_list. repeat rewrite !cbind_assoc. match goal with |- context [cbind (get_bin sc) _ ?st] => crun (get_bin_ok st sc _ Hp) end. cpure. cpure. rproj.
  match goal with |- context [cbind (upd_d _ ?f) _ ?st] => crun (upd_d_ok st i f G0 ltac:(lia)); rproj; fold g end.
  rewrite dget_eq, insert_insert_eq. cbn [set_anchor next_free next_partial anchor superblock heap block_size maxcount].
  cpure. replace (u31 (mcn sc)) with (mcn sc) by (unfold u31; rewrite Z.mod_small; lia). cbn [avail count state].
  rewrite bool_decide_eq_true_2, orb_true_r by done. cpure. rewrite (proj2 (Z.ltb_lt _ _)) by lia. do 2 cpure.
  assert (Fr : forall x i' j' sc', class_idx sc' -> 0 <= j' < mcn sc' -> i <> i' -> x = blk g sc' i' j' -> ld_pptr m' x = ld_pptr (r_mem s) x).
  { intros x i' j' sc' Hc' Hj' N ->. apply H2. pose proof (blk_offset g sc' i' j' Hc' Hj'). pose proof (class_facts sc' Hc').
    replace (blk g sc i 0) with (sbA g i) by (unfold blk; lia). unfold_cfg. lia. }
  eexists. split; [reflexivity|]. split; [|split; [done|split]].
  - pose proof (inv_fill s G I sc i (seqZ 0 (mcn sc)) Hc Ho Hi (or_introl Hk)) as F. rewrite length_seqZ, Z2Nat.id in F by lia.
    eapply F; try done; clear F.
    + apply NoDup_seqZ.
    + intros j Hj. apply elem_of_seqZ in Hj. lia.
    + intros sc' i' fl j N Hi' Hk' Hj. destruct (inv_small _ _ I i' sc' fl Hi' Hk') as [Hc' (_ & _ & _ & _ & _ & Rg & _)].
      apply (Fr _ i' j sc'); auto.
    + intros sc' b Hc' Hb. destruct (inv_ca_kind _ _ I sc' b Hc' Hb) as (i' & fl & j & ? & Hk' & ? & _ & ->).
      apply (Fr _ i' j sc'); auto. congruence.
    + replace (sbA g i) with (blk g sc i 0) by (unfold blk; lia).
      replace (mcn sc) with (Z.of_nat (Z.to_nat (mcn sc))) by lia. apply chain_seq. intros j Hj. apply H1. lia.
  - intros b sz. apply (live_fill s G sc i (seqZ 0 (mcn sc)) Hc Hi (or_introl Hk) Hca).
    + intros j Hj. apply elem_of_seqZ in Hj. lia.
    + intros j Hj. rewrite Hk, elem_of_seqZ. cbn. split; [done|lia].
  - intros a La. apply H3. now apply (live_not_free s G i).
Qed.

(** ** Live blocks are disjoint *)

Lemma live_disjoint s G b sz b' sz' : inv s G -> live (r_rgs s) G b sz -> live (r_rgs s) G b' sz' ->
  (b = b' /\ sz = sz') \/ b + sz <= b' \/ b' + sz' <= b.
Proof.
  intros I L L'. destruct L as [i sc fl j H1 H2 H3 H4 H5|i c H1 H2]; destruct L' as [i' sc' fl' j' K1 K2 K3 K4 K5|i' c' K1 K2].
  - destruct (inv_small _ _ I i sc fl H1 H2) as [Hc _]. destruct (inv_small _ _ I i' sc' fl' K1 K2) as [Hc' _].
    destruct (decide (i = i')) as [<-|N].
    + rewrite H2 in K2. injection K2 as <- <-. destruct (blk_apart (r_rgs s) sc i j i j' Hc H3 K3) as [[_ <-]|?]; tauto.
    + right. pose proof (blk_offset (r_rgs s) sc i j Hc H3). pose proof (blk_offset (r_rgs s) sc' i' j' Hc' K3). unfold_cfg. lia.
  - destruct (inv_small _ _ I i sc fl H1 H2) as [Hc _]. destruct (inv_large _ _ I i' c' K1 K2) as (? & ? & _ & Bd).
    pose proof (blk_offset (r_rgs s) sc i j Hc H3). right. assert (i <> i') by congruence.
    destruct (decide (i' < i < i' + c')) as [L|L]; [rewrite (Bd i L) in H2; discriminate|]. unfold_cfg. lia.
  - destruct (inv_small _ _ I i' sc' fl' K1 K2) as [Hc _]. destruct (inv_large _ _ I i c H1 H2) as (? & ? & _ & Bd).
    pose proof (blk_offset (r_rgs s) sc' i' j' Hc K3). right. assert (i <> i') by congruence.
    destruct (decide (i < i' < i + c)) as [L|L]; [rewrite (Bd i' L) in K2; discriminate|]. unfold_cfg. lia.
  - destruct (inv_large _ _ I i c H1 H2) as (? & ? & _ & Bd). destruct (inv_large _ _ I i' c' K1 K2) as (? & ? & _ & Bd').
    destruct (decide (i = i')) as [<-|N]; [left; split; congruence|right].
    destruct (decide (i < i' < i + c)) as [L|L]; [rewrite (Bd i' L) in K2; discriminate|].
    destruct (decide (i' < i < i' + c')) as [L'|L']; [rewrite (Bd' i L') in H2; discriminate|]. unfold_cfg. lia.
Qed.

(** ** [malloc_from_newsb] and [fill_cache] *)

(** A step that leaves the program's blocks alone. *)
Record quiet (s s' : rst) (G G' : ghost) : Prop := {
  q_inv : inv s' G';
  q_own : gow G' = None;
  q_addr : regions_address (r_rgs s') = regions_address (r_rgs s);
  q_live : same_live s s' G G';
  q_frame : frame s s' G }.

Lemma quiet_trans s1 s2 s3 G1 G2 G3 : quiet s1 s2 G1 G2 -> quiet s2 s3 G2 G3 -> quiet s1 s3 G1 G3.
Proof.
  intros [? ? A L F] [I O A' L' F']. constructor; try done.
  - congruence.
  - intros b sz. rewrite (L' b sz). apply L.
  - intros a Ha. rewrite F'; [now apply F|]. destruct Ha as (b & sz & Lb & Hb). exists b, sz. split; [now apply L|done].
Qed.

(** The superblock obtained, from the list or by expansion, is free and off the list. *)
Lemma small_sb_alloc_inv s G : inv s G -> gow G = None ->
  (exists s' G' i, small_sb_alloc SBSIZE s = Ok (sbA (r_rgs s') i, s') /\ inv s' G' /\ gow G' = Some i /\ 1 <= i < gn G' /\
     gk G' i = KFree /\ gca G' = gca G /\ regions_address (r_rgs s') = regions_address (r_rgs s) /\
     same_live s s' G G' /\ r_mem s' = r_mem s) \/
  (small_sb_alloc SBSIZE s = Err AssertFail /\ room s SB_REGION_EXPAND_SIZE = false).
Proof.
  intros I Ho. destruct (inv_geo _ _ I) as (rd & rs & Gg). destruct (gav G) as [|i l] eqn:Ea.
  - destruct (room s SB_REGION_EXPAND_SIZE) eqn:R; [left|right; split; [now apply (small_sb_alloc_no_room s G I Ea rd rs)|done]].
    destruct (inv_alloc_expand s G I Ho Ea rd rs Gg R) as (s' & r' & E & I' & Er & Em). exists s', (expanded G), (gn G).
    pose proof (geo_n _ _ _ _ Gg). rewrite Er. split; [exact E|]. split; [done|]. split; [done|]. cbn. split; [lia|].
    rewrite decide_True by lia. do 3 (split; [done|]). split; [|done]. intros b sz. rewrite Er.
    split; intros L; destruct L as [i sc fl j H1 H2 H3 H4 H5|i c H1 H2]; cbn in H1, H2.
    + case_decide; [done|]. apply (live_small (r_rgs s) G i sc fl); try done. lia.
    + case_decide; [done|]. apply (live_large (r_rgs s) G i c); [lia|done].
    + apply (live_small (set_region (r_rgs s) 1 r') (expanded G) i sc fl); cbn; try done; [lia|]. now rewrite decide_False by lia.
    + apply (live_large (set_region (r_rgs s) 1 r') (expanded G) i c); cbn; [lia|]. now rewrite decide_False by lia.
  - left. destruct (inv_alloc_cons s G I Ho i l Ea) as (s' & E & I' & Er & Em). exists s', (set_owner (set_av G l) (Some i)), i.
    rewrite Er. pose proof (proj1 (inv_av_kind _ _ I i) ltac:(rewrite Ea; left)) as (Hi & _ & Hk).
    do 7 (split; [done|]). split; [|done]. intros b sz. rewrite Er. now apply live_ghost_same.
Qed.

Lemma malloc_from_newsb_inv s G sc : inv s G -> gow G = None -> class_idx sc -> gca G sc = [] ->
  (exists s' G', malloc_from_newsb sc s = Ok (mcn sc, s') /\ quiet s s' G G' /\ Z.of_nat (length (gca G' sc)) = mcn sc) \/
  (malloc_from_newsb sc s = Err AssertFail /\ room s SB_REGION_EXPAND_SIZE = false).
Proof.
  intros I Ho Hc Hca. rewrite malloc_from_newsb_split by done.
  destruct (small_sb_alloc_inv s G I Ho) as [(s1 & G1 & i & E & I1 & Ho1 & Hi & Hk & Eca & Ea & L1 & Em)|[E R]];
    [left|right; split; [now rewrite (cbind_Err _ _ _ _ E)|done]].
  rewrite (cbind_Ok _ _ _ _ _ E).
  destruct (format_sb_inv s1 G1 sc i I1 Hc Ho1 Hi Hk) as (s2 & E2 & I2 & Er2 & L2 & F2); [now rewrite Eca|].
  exists s2. eexists. split; [exact E2|]. split.
  - constructor; [exact I2|done|congruence|..].
    + intros b sz. rewrite (L2 b sz). apply L1.
    + intros a (b & sz & Lb & Hb). rewrite <- Em. apply F2. exists b, sz. split; [now apply L1|done].
  - unfold filled. gproj. fins. rewrite length_map, length_seqZ. pose proof (class_facts sc Hc). lia.
Qed.

Lemma fill_cache_inv s G sc : inv s G -> gow G = None -> class_idx sc -> gca G sc = [] ->
  (exists s' G', fill_cache sc s = Ok (tt, s') /\ quiet s s' G G' /\ gca G' sc <> []) \/
  (fill_cache sc s = Err AssertFail /\ room s SB_REGION_EXPAND_SIZE = false).
Proof.
  intros I Ho Hc Hca. destruct (inv_geo _ _ I) as (rd & rs & Gg). pose proof (class_facts sc Hc) as Cf.
  assert (Hn : (length (gpt G sc) < S (Z.to_nat (sb_count s)))%nat).
  { unfold sb_count. rewrite (geo_rs _ _ _ _ Gg), (curr_addr_sb Gg).
    replace (sbA (r_rgs s) (gn G) - rg_lookup (r_rgs s) SB_IDX) with (gn G * SBSIZE) by (unfold_cfg; lia).
    rewrite Z.div_mul by done. assert (length (gpt G sc) <= length (seqZ 1 (gn G)))%nat as L; [|rewrite length_seqZ in L; lia].
    apply NoDup_incl_length; [apply NoDup_ListNoDup; now apply I|].
    intros j Hj. apply list_elem_of_In, elem_of_seqZ. apply list_elem_of_In, (pt_range s G I sc j Hc) in Hj. lia. }
  destruct (malloc_from_partial_inv sc (gpt G sc) Hc (S (Z.to_nat (sb_count s))) s G I Ho Hca eq_refl Hn)
    as (r & s1 & G1 & E1 & I1 & Ho1 & Er1 & L1 & Em1 & En1 & Hr).
  assert (Q1 : quiet s s1 G G1) by (constructor; try done; [now rewrite Er1|now apply frame_mem]).
  unfold fill_cache. cpure. crun E1. rewrite (proj2 (class_data sc Hc)).
  destruct (inv_ca_nodup _ _ I1 sc Hc) as [_ Hlen].
  destruct (Z.eqb_spec r 0) as [Hr0|Hr0].
  - assert (Hca1 : gca G1 sc = []) by (destruct (gca G1 sc); [done|cbn in Hr; lia]).
    destruct (malloc_from_newsb_inv s1 G1 sc I1 Ho1 Hc Hca1) as [(s2 & G2 & E2 & Q2 & L2)|[E2 R]].
    + left. crun E2. cpure. rewrite Hr0, Z.add_0_l, (proj2 (Z.ltb_lt _ _)), (proj2 (Z.leb_le _ _)) by lia. cpure.
      exists s2, G2. split; [done|]. split; [now apply (quiet_trans _ s1 _ _ G1)|]. intros E. rewrite E in L2. cbn in L2. lia.
    + right. rewrite cbind_assoc, (cbind_Err _ _ _ _ E2). split; [done|].
      unfold room in *. now rewrite Er1 in R.
  - left. cpure. rewrite (proj2 (Z.ltb_lt _ _)), (proj2 (Z.leb_le _ _)) by lia. cpure.
    exists s1, G1. split; [done|]. split; [done|]. intros E. rewrite E in Hr. cbn in Hr. lia.
Qed.

(** ** Small allocations *)

(** The outcome of an allocation: one more live block, of [bs] bytes at [p]. *)
Record allocated (s s' : rst) (G G' : ghost) (p bs : Z) : Prop := {
  al_inv : inv s' G';
  al_own : gow G' = None;
  al_addr : regions_address (r_rgs s') = regions_address (r_rgs s);
  al_live : forall b sz, live (r_rgs s') G' b sz <-> live (r_rgs s) G b sz \/ (b = p /\ sz = bs);
  al_new : forall sz, ~ live (r_rgs s) G p sz;
  al_frame : frame s s' G }.

Lemma pop_block_allocated s G sc p l : inv s G -> gow G = None -> class_idx sc -> gca G sc = p :: l ->
  exists s', pop_block sc s = Ok (p, s') /\ allocated s s' G (set_cache G sc l) p (bsz sc).
Proof.
  intros I Ho Hc E. destruct (pop_block_inv s G I sc p l Hc E) as (s' & Er & I' & Em & Eg & _).
  exists s'. split; [done|]. destruct (inv_ca_kind _ _ I sc p Hc ltac:(rewrite E; left)) as (i & fl & j & Hi & Hk & Hj & Nj & Ep).
  destruct (inv_ca_nodup _ _ I sc Hc) as [N _]. rewrite E in N. apply list.NoDup_cons in N as [Np N].
  constructor; try done; [now rewrite Eg| | |now apply frame_mem]; rewrite ?Eg.
  - intros b sz. split.
    + intros L. destruct L as [i' sc' fl' j' H1 H2 H3 H4 H5|i' c H1 H2]; cbn in H1, H2.
      * cbn in H5. destruct (decide (sc = sc')) as [<-|Ns].
        -- rewrite fn_lookup_insert in H5. destruct (decide (blk (r_rgs s) sc i' j' = p)) as [Eq|Nq]; [right; done|left].
           apply (live_small _ _ i' sc fl'); try done. rewrite E. intros [?|?]%elem_of_cons; done.
        -- rewrite fn_lookup_insert_ne in H5 by done. left. now apply (live_small _ _ i' sc' fl').
      * left. now apply live_large.
    + intros [L|[-> ->]].
      * destruct L as [i' sc' fl' j' H1 H2 H3 H4 H5|i' c H1 H2]; [|now apply live_large].
        apply (live_small _ _ i' sc' fl'); try done. cbn. destruct (decide (sc = sc')) as [<-|Ns]; fins; [|done].
        intros Hl. apply H5. rewrite E. now right.
      * rewrite Ep. apply (live_small _ _ i sc fl); try done. cbn. fins. now rewrite <- Ep.
  - intros sz L. remember (r_rgs s) as g eqn:Eqg. inversion L as [i' sc' fl' j' H1 H2 H3 H4 H5 H6 H7|i' c H1 H2 H6 H7]; subst g.
    + destruct (inv_small _ _ I i' sc' fl' H1 H2) as [Hc' _].
      pose proof (blk_offset (r_rgs s) sc i j Hc Hj). pose proof (blk_offset (r_rgs s) sc' i' j' Hc' H3).
      pose proof (class_facts sc Hc). pose proof (class_facts sc' Hc').
      assert (i' = i) as -> by (unfold_cfg; lia). rewrite Hk in H2. injection H2 as <- <-.
      rewrite H6 in H5. apply H5. rewrite E. left.
    + pose proof (blk_offset (r_rgs s) sc i j Hc Hj). pose proof (class_facts sc Hc). destruct (inv_large _ _ I i' c H1 H2) as (? & _).
      assert (i' = i) as -> by (unfold_cfg; lia). congruence.
Qed.

Lemma do_malloc_small s G size : inv s G -> gow G = None -> 0 <= size <= MAX_SZ ->
  (exists p s' G' bs, do_malloc size s = Ok (p, s') /\ allocated s s' G G' p bs /\ size <= bs /\ 4 * bs <= 5 * size + 32 /\ p mod 8 = 0) \/
  (do_malloc size s = Err AssertFail /\ room s SB_REGION_EXPAND_SIZE = false).
Proof.
  intros I Ho Hs. unfold do_malloc. rewrite (proj2 (Z.ltb_ge _ _)) by lia.
  destruct (get_sizeclass_entry size Hs) as (sc & E & K). rewrite E.
  unfold entry_ok in K. rewrite !andb_true_iff, orb_true_iff, !Z.leb_le, !Z.ltb_lt, Z.eqb_eq in K. destruct K as [[[[K1 K2] K3] K4] _].
  fold (bsz sc) in K3, K4. assert (Hc : class_idx sc) by (split; done).
  destruct (inv_cache _ _ I sc Hc) as (p & Hp & _). crun (get_bin_ok s sc _ Hp). cbn [_block_num].
  assert (Hmod : forall s' G' q, inv s' G' -> q ∈ gca G' sc -> q mod 8 = 0).
  { intros s' G' q I' Hq. destruct (inv_ca_kind _ _ I' sc q Hc Hq) as (i & fl & j & Hi & _ & _ & _ & ->).
    destruct (inv_geo _ _ I') as (rd & rs & Gg). destruct (geo_S _ _ _ _ Gg) as [_ Es]. pose proof (class_facts sc Hc) as (_ & Eb & _).
    unfold blk. unfold_cfg. apply Z.mod_divide in Es as [q1 ->], Eb as [q2 ->]; try lia.
    replace (q1 * 65536 + 65536 * i + j * (q2 * 8)) with ((q1 * 8192 + 8192 * i + j * q2) * 8) by lia. now rewrite Z.mod_mul. }
  destruct (Z.eqb_spec (Z.of_nat (length (gca G sc))) 0) as [Z0|Z0].
  - assert (Hca : gca G sc = []) by (destruct (gca G sc); [done|cbn in Z0; lia]).
    destruct (fill_cache_inv s G sc I Ho Hc Hca) as [(s1 & G1 & E1 & [I1 Ho1 A1 L1 F1] & Ne)|[E1 R]].
    + left. crun E1. destruct (gca G1 sc) as [|q l] eqn:Eq; [done|].
      destruct (pop_block_allocated s1 G1 sc q l I1 Ho1 Hc Eq) as (s2 & E2 & [I2 O2 A2 L2 N2 F2]).
      exists q, s2, (set_cache G1 sc l), (bsz sc). split; [done|]. split; [|split; [done|split; [done|]]].
      * constructor; try done; [congruence|intros b sz; now rewrite (L2 b sz), (L1 b sz)|intros sz L; now apply (N2 sz), L1|].
        intros a Ha. rewrite F2; [now apply F1|]. destruct Ha as (b & sz & Lb & Hb). exists b, sz. split; [now apply L1|done].
      * apply (Hmod s1 G1); [done|]. rewrite Eq. left.
    + right. rewrite (cbind_Err _ _ _ _ E1). done.
  - left. cpure. destruct (gca G sc) as [|q l] eqn:Eq; [done|].
    destruct (pop_block_allocated s G sc q l I Ho Hc Eq) as (s2 & E2 & A).
    exists q, s2, (set_cache G sc l), (bsz sc). split; [done|]. split; [done|]. split; [done|]. split; [done|].
    apply (Hmod s G); [done|]. rewrite Eq. left.
Qed.

(** ** Large blocks of a Ralloc heap

    [do_malloc] above the largest class: the region grows by the rounded size and the first
    new descriptor heads the block; [do_free] of such a block chains its superblocks on the
    free list. *)

(** ** Rounding *)

Lemma round_up_eq size : 0 <= size -> size + 65535 < 2 ^ 64 -> round_up size SBSIZE = align_up size SBSIZE.
Proof.
  intros H0 H1. unfold round_up, align_up. unfold_cfg. rewrite u64_small by lia.
  set (x := size + 65536 - 1). assert (Hx : 0 <= x < 2 ^ 64) by lia. clearbody x.
  change (not64 (65536 - 1)) with (Z.shiftl (Z.ones 48) 16). change 65536 with (2 ^ 16).
  rewrite <- Z.shiftl_mul_pow2, <- Z.shiftr_div_pow2 by lia. apply Z.bits_inj'. intros k Hk.
  rewrite Z.land_spec. destruct (Z.lt_ge_cases k 16).
  - rewrite !Z.shiftl_spec_low by lia. apply andb_false_r.
  - rewrite !Z.shiftl_spec, Z.shiftr_spec by lia. replace (k - 16 + 16) with k by lia.
    destruct (Z.lt_ge_cases k 64).
    + rewrite Z.ones_spec_low by lia. apply andb_true_r.
    + rewrite Z.ones_spec_high by lia. rewrite (bits_above x 64 k) by lia. done.
Qed.

(** The number of superblocks of a large block. *)
Definition sb_needed (size : Z) : Z := (size + SBSIZE - 1) / SBSIZE.

Lemma round_up_sb size : 0 <= size -> size + 65535 < 2 ^ 64 -> round_up size SBSIZE = SBSIZE * sb_needed size.
Proof. intros H0 H1. rewrite round_up_eq by done. unfold align_up, sb_needed. lia. Qed.

Lemma sb_needed_range size : MAX_SZ < size -> size <= SBSIZE * 65535 -> 1 <= sb_needed size < 2 ^ 16 /\ size <= SBSIZE * sb_needed size < size + SBSIZE.
Proof.
  unfold sb_needed, MAX_SZ, SBSIZE, PAGESIZE. rewrite !Z.shiftl_mul_pow2 by lia. intros H1 H2.
  pose proof (Z.div_mod (size + 16 * 4096 - 1) (16 * 4096) ltac:(lia)).
  pose proof (Z.mod_pos_bound (size + 16 * 4096 - 1) (16 * 4096) ltac:(lia)). lia.
Qed.

(** ** Allocation *)

Definition grown_large (G : ghost) (c : Z) : ghost :=
  mkG (gn G + c) (fun j => if decide (j < gn G) then gk G j else if decide (j = gn G) then KLarge c else KBody)
      (gav G) (gpt G) (gca G) None.

Lemma set_avail_same b : set_avail_sb (avail_sb b) b = b.
Proof. now destruct b. Qed.

Section LargeAlloc.
Context (s : rst) (G : ghost) (I : inv s G) (Ho : gow G = None).
Context (rd rs : RegionManager) (Gg : geo (r_rgs s) (gn G) rd rs).
#[local] Abbreviation g := (r_rgs s).

Lemma expand_large c : 1 <= c < 2 ^ 16 ->
  if room s (SBSIZE * c) then
    exists r' tr, expand_loop CAS_FUEL SB_IDX PAGESIZE (SBSIZE * c) s = Ok (sbA g (gn G), emit tr (with_rgs (set_region g 1 r') s)) /\
      geo (set_region g 1 r') (gn G + c) rd r'
  else expand_loop CAS_FUEL SB_IDX PAGESIZE (SBSIZE * c) s = Err AssertFail.
Proof.
  intros Hc. pose proof (geo_wf _ _ _ _ Gg) as W. pose proof (geo_S _ _ _ _ Gg). pose proof (geo_n _ _ _ _ Gg).
  rewrite (room_eq s G rd rs Gg).
  assert (Ea : align_up (sbA g (gn G)) (2 ^ 12) = sbA g (gn G)).
  { apply align_up_unique; [lia|lia|]. rewrite <- land_pow2_pred by lia. apply (sbA_page g (gn G) rd rs _ Gg). }
  cbn [expand_loop CAS_FUEL].
  destruct (Z.leb_spec (sbA g (gn G + c)) (base_addr rs + FILESIZE rs)) as [L|L].
  - destruct (nvm_region_allocator_ok rs _ 12 (SBSIZE * c) W) as (r' & tr & E & W' & Eb & EF & _); [lia|unfold_cfg; lia|rewrite Ea; unfold_cfg; lia|].
    rewrite Ea in E, W'. exists r', tr. split.
    + cpure. unfold expand at 1. rewrite (geo_rs _ _ _ _ Gg). change PAGESIZE with (2 ^ 12). rewrite E. do 2 cpure. reflexivity.
    + apply (geo_grow g (gn G) _ rd rs); try done; [|lia]. replace (sbA g (gn G + c)) with (sbA g (gn G) + SBSIZE * c); [done|unfold_cfg; lia].
  - cpure. unfold expand at 1. rewrite (geo_rs _ _ _ _ Gg). change PAGESIZE with (2 ^ 12).
    rewrite (nvm_region_allocator_full rs _ 12 _ W); [|lia|unfold_cfg; lia|rewrite Ea; unfold_cfg; lia].
    cpure. reflexivity.
Qed.

Lemma live_grown_large c r' b sz : 1 <= c ->
  live (set_region g 1 r') (grown_large G c) b sz <-> live g G b sz \/ (b = sbA g (gn G) /\ sz = SBSIZE * c).
Proof.
  intros Hc. pose proof (geo_n _ _ _ _ Gg). split.
  - intros L. destruct L as [i sc fl j H1 H2 H3 H4 H5|i c' H1 H2]; cbn in H1, H2.
    + case_decide; [|case_decide; done]. left. apply (live_small g G i sc fl); try done. lia.
    + case_decide; [left; apply (live_large g G i c'); [lia|done]|]. case_decide; [|done]. right. subst i. injection H2 as <-. done.
  - intros [L|[-> ->]].
    + destruct L as [i sc fl j H1 H2 H3 H4 H5|i c' H1 H2].
      * apply (live_small (set_region g 1 r') (grown_large G c) i sc fl); cbn; try done; [lia|]. now rewrite decide_True by lia.
      * apply (live_large (set_region g 1 r') (grown_large G c) i c'); cbn; [lia|]. now rewrite decide_True by lia.
    + apply (live_large (set_region g 1 r') (grown_large G c) (gn G) c); cbn; [lia|].
      rewrite decide_False by lia. now rewrite decide_True by done.
Qed.

Lemma do_malloc_large size : MAX_SZ < size -> size <= SBSIZE * 65535 ->
  let c := sb_needed size in
  if room s (SBSIZE * c) then
    exists s', do_malloc size s = Ok (sbA g (gn G), s') /\ allocated s s' G (grown_large G c) (sbA g (gn G)) (SBSIZE * c) /\
      hd Fence (tl (r_trace s')) = FlushLocal /\
      exists r', r_rgs s' = set_region g 1 r'
  else do_malloc size s = Err AssertFail.
Proof.
  intros Hs1 Hs2 c. destruct (sb_needed_range size Hs1 Hs2) as [Hc Hsz]. fold c in Hc, Hsz.
  pose proof (geo_n _ _ _ _ Gg) as Hn. pose proof (geo_S _ _ _ _ Gg). pose proof (expand_large c Hc) as X.
  unfold do_malloc. rewrite (proj2 (Z.ltb_lt _ _)) by lia.
  rewrite round_up_sb; [fold c|unfold_cfg; change MAX_SZ with 14336 in *; lia|unfold_cfg; lia]. unfold expand_get_large_sb.
  destruct (room s (SBSIZE * c)).
  2: { rewrite cbind_assoc. now rewrite (cbind_Err _ _ _ _ X). }
  destruct X as (r' & tr & E & Gg'). crun E. set (s1 := emit _ _). cpure.
  assert (Edl : desc_lookup (set_region g 1 r') (sbA g (gn G)) = daA g (gn G)).
  { apply (desc_lookup_sb0 Gg' (gn G)). lia. }
  change (r_rgs s1) with (set_region g 1 r'). rewrite Edl. crun (construct_ok s1 (gn G) Gg' ltac:(lia)).
  pose proof (geo_addr_range Gg' (gn G) ltac:(lia)) as [_ R]. change (sbA (set_region g 1 r') (gn G)) with (sbA g (gn G)) in R.
  cpure. rewrite (proj2 (Z.eqb_neq _ _)) by lia. do 3 cpure. cbv zeta.
  subst s1. rproj. rewrite Edl.
  match goal with |- context [heap_addr ?st 0] => rewrite (heap_off_assign (g := set_region g 1 r') st 0 eq_refl ltac:(done)) end.
  replace (CrossPtr_assign (set_region g 1 r') SB_IDX (sbA g (gn G))) with (SBSIZE * gn G)
    by (symmetry; apply (untranslate_sb Gg' (gn G)); lia).
  do 5 (repeat rewrite !cbind_assoc; match goal with |- context [cbind (upd_d _ ?f) _ ?st] => crun (upd_d_ok st (gn G) f Gg' ltac:(lia)); rproj end).
  change (daA (set_region g 1 r') (gn G)) with (daA g (gn G)).
  repeat rewrite dget_eq, insert_insert_eq. cpure.
  eexists. split; [reflexivity|]. split; [|split; [reflexivity|now exists r']].
  constructor; [| | |intros b sz; apply live_grown_large; lia| |now apply frame_mem].
  - rproj. rewrite <- (set_avail_same (r_md s)). refine (inv_grow s G I Ho (gn G + c) _ rd rs r' _ _ _ None _ Gg _ Gg' _ _ _ _ _ _ _); try done.
    + lia.
    + intros j Hj. now rewrite decide_True by lia.
    + intros j Hj. apply dget_ne. intros Eq. apply (daA_inj (g := g)) in Eq. lia.
    + apply (avail_ok_ext _ (r_desc s)); [|apply I]. intros j Hj. apply nextf_ne. apply (av_range s G I) in Hj. lia.
    + apply I.
    + intros j. rewrite (inv_av_kind _ _ I), Ho. split.
      * intros (Hj & _ & Hk). split; [lia|]. split; [done|]. now rewrite decide_True by lia.
      * intros (Hj & _ & Hk). case_decide; [split; [lia|done]|]. now case_decide.
    + intros j Hj. rewrite decide_False by lia. case_decide as Ej.
      * subst j. split; [done|]. split; [lia|]. split; [|intros j' Hj'; rewrite !decide_False by lia; done].
        rproj. unfold large_ok. rewrite dget_eq. cbn.
        rewrite u32_small by (unfold_cfg; lia). repeat split.
      * exists (gn G), c. split; [lia|]. split; [lia|]. rewrite decide_False by lia. now rewrite decide_True by done.
  - done.
  - done.
  - intros sz L. remember (r_rgs s) as g0 eqn:Eg. remember (sbA g0 (gn G)) as p eqn:Ep.
    destruct L as [i sc fl j H1 H2 H3 H4 H5|i c' H1 H2]; subst g0.
    + destruct (inv_small _ _ I i sc fl H1 H2) as [Hcl _]. pose proof (blk_offset g sc i j Hcl H3). pose proof (class_facts sc Hcl). unfold_cfg. lia.
    + unfold_cfg. lia.
Qed.

End LargeAlloc.

(** ** Free *)

(** The outcome of freeing the block at [p]: it is no longer live, the others are untouched. *)
Record freed (s s' : rst) (G G' : ghost) (p : Z) : Prop := {
  fr_inv : inv s' G';
  fr_own : gow G' = None;
  fr_rgs : r_rgs s' = r_rgs s;
  fr_live : forall b sz, live (r_rgs s) G' b sz <-> live (r_rgs s) G b sz /\ b <> p;
  fr_frame : forall a, in_live (r_rgs s) G' a -> rd8 (r_mem s') a = rd8 (r_mem s) a }.

Definition freed_large (G : ghost) (i c : Z) : ghost :=
  mkG (gn G) (fun j => if decide (i <= j < i + c) then KFree else gk G j) (seqZ i c ++ gav G) (gpt G) (gca G) (gow G).

Section LargeFree.
Context (s : rst) (G : ghost) (I : inv s G) (Ho : gow G = None).
Context (i c : Z) (Hi : 1 <= i < gn G) (Hk : gk G i = KLarge c).
#[local] Abbreviation g := (r_rgs s).

(** What was there before the superblocks became free. *)
Lemma large_range j : i <= j < i + c -> gk G j = KLarge c \/ gk G j = KBody.
Proof.
  intros Hj. destruct (inv_large _ _ I i c Hi Hk) as (_ & _ & _ & Bd).
  destruct (decide (j = i)) as [->|]; [now left|right; apply Bd; lia].
Qed.

Lemma large_overlap i' c' : 1 <= i' < gn G -> gk G i' = KLarge c' -> i' <> i -> i' + c' <= i \/ i + c <= i'.
Proof.
  intros Hi' Hk' N. destruct (inv_large _ _ I i c Hi Hk) as (_ & _ & _ & Bd). destruct (inv_large _ _ I i' c' Hi' Hk') as (_ & _ & _ & Bd').
  destruct (decide (i < i' < i + c)) as [L|L]; [rewrite (Bd i' L) in Hk'; discriminate|].
  destruct (decide (i' < i < i' + c')) as [L'|L']; [rewrite (Bd' i L') in Hk; discriminate|]. lia.
Qed.

Lemma inv_freed_large dm w tr :
  avail_ok g dm w (seqZ i c ++ gav G) ->
  (forall j, (j < i \/ i + c <= j) -> dget dm (daA g j) = dget (r_desc s) (daA g j)) ->
  inv (upd s (r_mem s) dm (set_avail_sb w (r_md s)) (r_tc s) tr) (freed_large G i c).
Proof.
  intros A D. destruct (inv_large _ _ I i c Hi Hk) as (Hc & Hn & _ & Bd).
  assert (Ns : forall j sc fl, gk G j = KSmall sc fl -> j < i \/ i + c <= j).
  { intros j sc fl E. destruct (decide (i <= j < i + c)) as [L|]; [|lia]. destruct (large_range j L); congruence. }
  constructor; rproj; cbn [freed_large gn gk gav gpt gca gow]; try solve [apply I]; try done.
  - apply list.NoDup_app. split; [apply NoDup_seqZ|]. split; [|apply I]. intros j Hj Ha. apply elem_of_seqZ in Hj.
    apply (inv_av_kind _ _ I) in Ha as (_ & _ & E). destruct (large_range j Hj); congruence.
  - intros j. rewrite elem_of_app, elem_of_seqZ, (inv_av_kind _ _ I), Ho. case_decide as L.
    + split; [intros _; split; [lia|done]|]. tauto.
    + split; [intros [?|?]; [lia|done]|]. tauto.
  - intros sc Hsc. apply (part_ok_ext g (r_desc s) _ (heaps (r_md s))); [|done|now apply I].
    intros j Hj. unfold nextp. rewrite D; [done|]. apply (inv_pt_kind _ _ I) in Hj as (_ & _ & fl & E & _); [|done]. now apply (Ns j sc fl).
  - intros sc j Hsc. rewrite (inv_pt_kind _ _ I sc j Hsc). case_decide as L; [|done].
    split; [intros (_ & _ & fl & E & _); apply Ns in E; lia|]. intros (_ & _ & fl & E & _). discriminate.
  - intros j sc fl Hj E. case_decide as L; [done|]. destruct (inv_small _ _ I j sc fl Hj E) as [? Sm]. split; [done|].
    revert Sm. apply small_ok_same. apply D. lia.
  - intros sc b Hsc Hb. destruct (inv_ca_kind _ _ I sc b Hsc Hb) as (i' & fl & j & ? & E & ?). exists i', fl, j.
    split; [done|]. split; [|done]. apply Ns in E as L. now rewrite decide_False by lia.
  - intros j c' Hj E. case_decide as L; [done|]. destruct (inv_large _ _ I j c' Hj E) as (? & ? & La & Bd').
    split; [done|]. split; [done|]. split; [revert La; apply large_ok_same, D; lia|].
    intros j' Hj'. destruct (large_overlap j c' Hj E) as [?|?]; [lia|..]; rewrite decide_False by lia; now apply Bd'.
  - intros j Hj E. case_decide as L; [done|]. destruct (inv_body _ _ I j Hj E) as (i' & c' & ? & ? & E').
    exists i', c'. split; [done|]. split; [done|]. rewrite decide_False; [done|]. intros L'.
    destruct (decide (i' = i)) as [->|N]; [assert (c' = c) as -> by congruence; lia|].
    destruct (large_overlap i' c' ltac:(lia) E' N); lia.
Qed.

Lemma live_freed_large b sz : live g (freed_large G i c) b sz <-> live g G b sz /\ b <> sbA g i.
Proof.
  destruct (inv_large _ _ I i c Hi Hk) as (Hc & Hn & _ & Bd). split.
  - intros L. destruct L as [i' sc fl j H1 H2 H3 H4 H5|i' c' H1 H2]; cbn in H1, H2; (case_decide as L; [done|]).
    + split; [now apply (live_small g G i' sc fl)|]. destruct (inv_small _ _ I i' sc fl H1 H2) as [Hsc _].
      pose proof (blk_offset g sc i' j Hsc H3). pose proof (class_facts sc Hsc). assert (i' <> i) by congruence. unfold_cfg. lia.
    + split; [now apply (live_large g G i' c')|]. intros E. assert (i' = i) by (unfold_cfg; lia). lia.
  - intros [L N]. destruct L as [i' sc fl j H1 H2 H3 H4 H5|i' c' H1 H2].
    + apply (live_small g (freed_large G i c) i' sc fl); cbn; try done. rewrite decide_False; [done|]. intros L. destruct (large_range i' L); congruence.
    + apply (live_large g (freed_large G i c) i' c'); cbn; [done|]. rewrite decide_False; [done|]. intros L.
      assert (i' <> i) by congruence. destruct (inv_large _ _ I i' c' H1 H2) as (? & _).
      destruct (large_overlap i' c' H1 H2); [done|lia..].
Qed.

Lemma do_free_large : exists s', do_free (sbA g i) s = Ok (tt, s') /\ freed s s' G (freed_large G i c) (sbA g i).
Proof.
  destruct (inv_geo _ _ I) as (rd & rs & Gg). destruct (inv_large _ _ I i c Hi Hk) as (Hc & Hn & (L1 & L2 & L3 & L4) & Bd).
  pose proof (geo_addr_range Gg i ltac:(lia)) as [_ R]. unfold do_free. rewrite (proj2 (Z.eqb_neq _ _)) by lia. cpure.
  rewrite (in_range_sb0 Gg), (desc_lookup_sb0 Gg) by lia. cpure.
  crun (get_d_ok s i Gg ltac:(lia)). rewrite L1, L2, L3.
  replace HEAPS_OFF with (HEAPS_OFF + 64 * 0) by lia. crun (heap_index_off Gg s 0 eq_refl ltac:(done)).
  destruct (inv_heap0 _ _ I) as [w0 H0]. crun (get_heap_ok s 0 _ H0). cbn [sc_idx Z.eqb].
  rewrite (translate_sb Gg) by lia. unfold large_sb_retire.
  rewrite (Z.mul_comm SBSIZE c), Z.mod_mul, Z.div_mul by done. cpure.
  destruct (organize_sb_list_ok s i c (gav G) Gg) as (dm & w & tr & E & A & D); [lia|lia|lia| |apply I|].
  { intros j Hj. split; [now apply (av_range s G I)|]. intros L. apply (inv_av_kind _ _ I) in Hj as (_ & _ & E). destruct (large_range j L); congruence. }
  eexists. split; [exact E|]. constructor; try done.
  - now apply inv_freed_large.
  - intros b sz. apply live_freed_large.
Qed.

End LargeFree.
