(* ===== verification/RallocFree.v ===== *)
(** * Freeing small blocks of a Ralloc heap

    [flush_cache] returns cached blocks to the free lists of their superblocks, in runs of
    blocks of the same superblock; [do_free] flushes a full cache and pushes the freed block. *)

From stdpp Require Import functions.
From S2P Require Import Prelude Pptr ByteMem SizeClass Regions Ralloc RallocInv RallocRun RallocMalloc RallocFill.

(** ** [compute_idx] *)

Definition row_ok (sc : Z) : bool :=
  match List.find (fun r => bin r && (index r + 1 =? sc)) SIZE_CLASSES with
  | Some r => SC_block_size r =? bsz sc
  | None => false
  end.

Lemma all_rows_ok : forallb row_ok (seqZ 1 (MAX_SZ_IDX - 1)) = true.
Proof. vm_compute. reflexivity. Qed.

Lemma compute_idx_ok s g sc i j : class_idx sc -> 0 <= j < mcn sc ->
  compute_idx (sbA g i) (blk g sc i j) sc s = Ok (j, s).
Proof.
  intros Hc Hj. pose proof (class_facts sc Hc) as Cf. pose proof (blk_offset g sc i j Hc Hj) as (Eb & ? & ?).
  pose proof all_rows_ok as A. rewrite forallb_forall in A. specialize (A sc).
  rewrite <- list_elem_of_In, elem_of_seqZ in A. unfold class_idx in Hc. specialize (A ltac:(lia)). unfold row_ok in A.
  unfold compute_idx. rewrite (proj1 (class_data sc Hc)). fold (bsz sc). cbv zeta.
  rewrite (proj2 (Z.leb_le _ _)) by lia. cpure. rewrite (proj2 (Z.ltb_lt _ _)) by (unfold_cfg; lia). cpure.
  destruct (List.find _ SIZE_CLASSES) as [r|]; [|discriminate]. apply Z.eqb_eq in A. rewrite A, Z.eqb_refl. cpure.
  rewrite Eb. replace (sbA g i + j * bsz sc - sbA g i) with (j * bsz sc) by lia. rewrite (u32_small (j * bsz sc)) by lia.
  rewrite Z.div_mul, Z.eqb_refl by lia. cpure. reflexivity.
Qed.

(** ** A run of cached blocks of one superblock *)

Lemma flush_scan_ok s n rd rs sc i : geo (r_rgs s) n rd rs -> class_idx sc ->
  forall r fuel tail bc, (length r < fuel)%nat -> 1 <= bc -> bc + Z.of_nat (length r) < 2 ^ 32 ->
  chain (r_mem s) tail (tail :: r) -> mapped s SB_IDX tail 8 = true ->
  (forall x, x ∈ r -> exists i' j', 1 <= i' < n /\ 0 <= j' < mcn sc /\ x = blk (r_rgs s) sc i' j') ->
  exists js rest tail', r = map (blk (r_rgs s) sc i) js ++ rest /\ (forall j, j ∈ js -> 0 <= j < mcn sc) /\
    list.last (tail :: map (blk (r_rgs s) sc i) js) = Some tail' /\
    flush_scan fuel (bc + Z.of_nat (length r)) (sbA (r_rgs s) i) SBSIZE tail bc s =
    Ok ((tail', bc + Z.of_nat (length js)), s).
Proof.
  intros G Hc. induction r as [|x r IH]; intros fuel tail bc Hf Hbc Hb C Hm Hr; (destruct fuel as [|fuel]; [cbn in Hf; lia|]); cbn [flush_scan].
  - exists [], [], tail. rewrite (proj2 (Z.ltb_ge _ _)) by (cbn; lia). split; [done|].
    split; [intros j Hj; now apply not_elem_of_nil in Hj|]. split; [done|]. cbn. now rewrite Z.add_0_r.
  - rewrite (proj2 (Z.ltb_lt _ _)) by (cbn [length]; lia). cbn in C. destruct C as [_ [Ex C]].
    assert (El : ld_link tail s = Ok (x, s)) by (unfold ld_link; rewrite Hm; now rewrite Ex). crun El.
    destruct (Hr x ltac:(left)) as (i' & j' & Hi' & Hj' & Exb). pose proof (blk_offset (r_rgs s) sc i' j' Hc Hj') as (Eb & ? & ?).
    pose proof (class_facts sc Hc). rewrite <- Exb in Eb.
    destruct (decide (i' = i)) as [->|N].
    + rewrite (proj2 (Z.ltb_ge _ _)), (proj2 (Z.leb_gt _ _)) by (unfold_cfg; lia). cbn [orb].
      replace (u32 (bc + 1)) with (bc + 1) by (rewrite u32_small; cbn [length] in Hb; lia).
      destruct (IH fuel x (bc + 1)) as (js & rest & tail' & Er & Hjs & El' & Es).
      * cbn in Hf. lia. * lia. * cbn [length] in Hb. lia. * split; done.
      * rewrite Exb. now apply (mapped_blk s n rd rs).
      * intros y Hy. apply Hr. now right.
      * exists (j' :: js), rest, tail'. split; [cbn; now rewrite <- Exb, <- Er|]. split.
        { intros j [->|Hj]%elem_of_cons; auto. }
        split; [cbn [map]; now rewrite <- Exb|].
        replace (bc + Z.of_nat (length (x :: r))) with (bc + 1 + Z.of_nat (length r)) by (cbn [length]; lia). rewrite Es.
        do 3 f_equal. cbn [length]. lia.
    + exists [], (x :: r), tail. split; [done|]. split; [intros j Hj; now apply not_elem_of_nil in Hj|]. split; [done|].
      replace ((x <? sbA (r_rgs s) i) || (sbA (r_rgs s) i + SBSIZE <=? x)) with true.
      * cbn. now rewrite Z.add_0_r.
      * symmetry. apply orb_true_iff. rewrite Z.ltb_lt, Z.leb_le. unfold_cfg. lia.
Qed.

Lemma cached_not_live s G sc b a : inv s G -> class_idx sc -> b ∈ gca G sc -> in_live (r_rgs s) G a -> a < b \/ b + bsz sc <= a.
Proof.
  intros I Hc Hb (b' & sz & L & Ha). destruct (inv_ca_kind _ _ I sc b Hc Hb) as (i & fl & j & Hi & Hk & Hj & Nj & Eb).
  destruct L as [i' sc' fl' j' H1 H2 H3 H4 H5|i' c H1 H2].
  - destruct (inv_small _ _ I i' sc' fl' H1 H2) as [Hc' _]. destruct (decide (i = i')) as [<-|N].
    + rewrite Hk in H2. injection H2 as <- <-. destruct (blk_apart (r_rgs s) sc i j i j' Hc Hj H3) as [[_ <-]|?]; [|lia].
      now rewrite <- Eb in H5.
    + pose proof (blk_offset (r_rgs s) sc i j Hc Hj). pose proof (blk_offset (r_rgs s) sc' i' j' Hc' H3). unfold_cfg. lia.
  - destruct (inv_large _ _ I i' c H1 H2) as (? & ? & _ & Bd). pose proof (blk_offset (r_rgs s) sc i j Hc Hj). assert (i <> i') by congruence.
    destruct (decide (i' < i < i' + c)) as [L|L]; [rewrite (Bd i L) in Hk; discriminate|]. unfold_cfg. lia.
Qed.

(** The anchor a flush installs, from the one it finds. *)
Lemma flush_anchor_eq old mc fl j0 k : anchor_ok old mc fl -> 4 <= mc <= 8192 -> 0 <= j0 < mc ->
  Z.of_nat (length fl) < mc -> 1 <= k -> k + Z.of_nat (length fl) <= mc ->
  flush_anchor old j0 k mc =
    mkAnchor j0 (if decide (k + Z.of_nat (length fl) = mc) then mc - 1 else k + Z.of_nat (length fl))
                (if decide (k + Z.of_nat (length fl) = mc) then SB_EMPTY else SB_PARTIAL) /\
  count old = Z.of_nat (length fl) /\ (state old = SB_FULL <-> fl = []) /\ (fl = [] -> avail old = mc).
Proof.
  intros A Hmc Hj Hl Hk Hs. unfold flush_anchor, u31.
  assert (B : count old = Z.of_nat (length fl) /\ (fl = [] /\ state old = SB_FULL /\ avail old = mc \/ fl <> [] /\ state old = SB_PARTIAL)).
  { destruct fl as [|j fl]; cbn [anchor_ok] in A; [subst old; cbn; tauto|]. destruct A as [_ A]. rewrite decide_False in A by lia.
    destruct A. split; [done|]. right. done. }
  destruct B as [Ec B]. rewrite Ec, u32_small by lia. rewrite (Z.add_comm (Z.of_nat (length fl)) k).
  split; [|destruct B as [(-> & Es & ->)|(? & Es)]; rewrite Es; repeat split; try done; congruence].
  rewrite !(Z.mod_small j0) by lia. destruct (decide (k + Z.of_nat (length fl) = mc)) as [E|N].
  - rewrite (proj2 (Z.eqb_eq _ _) E). rewrite Z.mod_small by lia. done.
  - rewrite (proj2 (Z.eqb_neq _ _) N). rewrite Z.mod_small by lia. f_equal.
    destruct B as [(_ & -> & _)|(_ & ->)]; [now rewrite bool_decide_eq_true_2|now rewrite bool_decide_eq_false_2].
Qed.

(** ** The blocks of a run join the free list of their superblock *)

Section Flush.
Context (s : rst) (G : ghost) (I : inv s G) (Ho : gow G = None) (sc i : Z) (fl js rest : list Z) (jt : Z).
Context (Hc : class_idx sc) (Hi : 1 <= i < gn G) (Hk : gk G i = KSmall sc fl).
Context (Hca : gca G sc = map (blk (r_rgs s) sc i) (js ++ [jt]) ++ rest).
Context (Rjs : forall j, j ∈ js ++ [jt] -> 0 <= j < mcn sc).
#[local] Abbreviation g := (r_rgs s).
#[local] Abbreviation fl' := ((js ++ [jt]) ++ fl).

Definition flushed : ghost :=
  set_owner (set_cache (set_kind G i (KSmall sc fl')) sc rest) (if decide (fl = []) then Some i else None).

(** A cached block of the superblock is not on its free list. *)
Lemma run_not_free j : j ∈ js ++ [jt] -> j ∉ fl.
Proof.
  intros Hj. destruct (inv_ca_kind _ _ I sc (blk g sc i j) Hc) as (i' & f & j' & ? & Hk' & Hj' & Nj & E).
  { rewrite Hca. apply elem_of_app. left. apply elem_of_blks. eauto. }
  apply blk_inj in E as [<- <-]; auto. rewrite Hk in Hk'. now injection Hk' as <-.
Qed.

Lemma run_nodup : NoDup (js ++ [jt]) /\ NoDup rest /\ (forall j, j ∈ js ++ [jt] -> blk g sc i j ∉ rest).
Proof.
  destruct (inv_ca_nodup _ _ I sc Hc) as [N _]. rewrite Hca in N. apply list.NoDup_app in N as (N1 & N2 & N3). split; [|split; [done|]].
  - clear - N1. induction (js ++ [jt]) as [|j l IH]; [constructor|]. cbn in N1. apply list.NoDup_cons in N1 as [A B].
    apply list.NoDup_cons. split; [|now apply IH]. intros Hj. apply A, elem_of_blks. eauto.
  - intros j Hj. apply N2. apply elem_of_blks. eauto.
Qed.

Lemma fl'_nodup : NoDup fl'.
Proof.
  destruct (inv_small _ _ I i sc fl Hi Hk) as [_ (_ & _ & _ & _ & Nf & _)]. apply list.NoDup_app. split; [apply run_nodup|].
  split; [|done]. intros j Hj. now apply run_not_free.
Qed.

Lemma fl'_range j : j ∈ fl' -> 0 <= j < mcn sc.
Proof.
  destruct (inv_small _ _ I i sc fl Hi Hk) as [_ (_ & _ & _ & _ & _ & Rf & _)]. intros [Hj|Hj]%elem_of_app; auto.
Qed.

Lemma fl'_length : Z.of_nat (length fl') <= mcn sc.
Proof.
  assert (length fl' <= length (seqZ 0 (mcn sc)))%nat as L; [|rewrite length_seqZ in L; pose proof (class_facts sc Hc); lia].
  apply NoDup_incl_length; [apply NoDup_ListNoDup, fl'_nodup|].
  intros x Hx. apply list_elem_of_In, elem_of_seqZ. apply list_elem_of_In, fl'_range in Hx. lia.
Qed.

Lemma tail_taken : taken g (gn G) (gk G) sc (blk g sc i jt).
Proof.
  apply (inv_ca_kind _ _ I sc _ Hc). rewrite Hca. apply elem_of_app. left. apply elem_of_blks. exists jt. split; [done|].
  apply elem_of_app. right. left.
Qed.

Lemma taken_flushed sc' b : class_idx sc' -> b ∈ <[sc := rest]> (gca G) sc' -> taken g (gn G) (<[i := KSmall sc fl']> (gk G)) sc' b.
Proof.
  intros Hc' Hb. destruct run_nodup as (_ & _ & Nr). destruct (decide (sc = sc')) as [<-|Ne].
  - rewrite fn_lookup_insert in Hb. destruct (inv_ca_kind _ _ I sc b Hc) as (i' & f & j & H1 & H2 & H3 & H4 & H5).
    { rewrite Hca. apply elem_of_app. now right. }
    destruct (decide (i = i')) as [<-|N].
    + rewrite Hk in H2. injection H2 as <-. exists i, fl', j. fins. split; [done|]. split; [done|]. split; [done|]. split; [|done].
      intros [Hj|Hj]%elem_of_app; [|done]. apply (Nr j Hj). now rewrite <- H5.
    + exists i', f, j. fins. done.
  - rewrite fn_lookup_insert_ne in Hb by done. destruct (inv_ca_kind _ _ I sc' b Hc' Hb) as (i' & f & j & H1 & H2 & H3).
    exists i', f, j. assert (i <> i') by congruence. fins. done.
Qed.

(** The state after the run has been linked in front of the free list and taken off the cache. *)
Definition flush_mem : bmem := st_pptr (blk g sc i jt) (blk g sc i (avail (anchor (dget (r_desc s) (daA g i))))) (r_mem s).
Definition flush_desc : Descriptor :=
  set_anchor (mkAnchor (hd jt js) (if decide (Z.of_nat (length fl') = mcn sc) then mcn sc - 1 else Z.of_nat (length fl'))
    (if decide (Z.of_nat (length fl') = mcn sc) then SB_EMPTY else SB_PARTIAL)) (dget (r_desc s) (daA g i)).
Definition flush_state (tr : list pev) : rst :=
  upd s flush_mem (<[daA g i := flush_desc]> (r_desc s)) (r_md s)
    (<[Z.to_nat sc := mkBin (ld_pptr (r_mem s) (blk g sc i jt)) (Z.of_nat (length rest))]> (r_tc s)) tr.

Lemma tail_range : 0 <= jt < mcn sc.
Proof. apply Rjs, elem_of_app. right. left. Qed.

Lemma flush_mem_apart x : apart x (blk g sc i jt) -> ld_pptr flush_mem x = ld_pptr (r_mem s) x.
Proof. intros Hx. apply ld_st_pptr_ne. destruct Hx; lia. Qed.

Lemma flush_nextf j : nextf g (<[daA g i := flush_desc]> (r_desc s)) j = nextf g (r_desc s) j.
Proof. unfold nextf. destruct (decide (i = j)) as [<-|N]; [now rewrite dget_eq|now rewrite dget_daA_ne]. Qed.
Lemma flush_nextp j : nextp g (<[daA g i := flush_desc]> (r_desc s)) j = nextp g (r_desc s) j.
Proof. unfold nextp. destruct (decide (i = j)) as [<-|N]; [now rewrite dget_eq|now rewrite dget_daA_ne]. Qed.

(** The cached run and what follows it. *)
Lemma cache_run : exists p, r_tc s !! Z.to_nat sc = Some (mkBin p (Z.of_nat (length (js ++ [jt])) + Z.of_nat (length rest))) /\
  p = blk g sc i (hd jt js) /\ chain (r_mem s) p (map (blk g sc i) js ++ [blk g sc i jt]) /\ chain (r_mem s) (ld_pptr (r_mem s) (blk g sc i jt)) rest.
Proof.
  destruct (inv_cache _ _ I sc Hc) as (p & Hp & C). rewrite Hca in Hp, C. rewrite length_app, length_map, Nat2Z.inj_add in Hp.
  rewrite map_app, <- app_assoc in C. cbn [map app] in C. apply chain_app in C as [C1 C2]. exists p. split; [done|]. split; [|done].
  destruct js; cbn in C1; tauto.
Qed.

(** The anchor's index never points past the superblock. *)
Lemma flush_small : 0 <= avail (anchor (dget (r_desc s) (daA g i))) <= mcn sc ->
  small_ok g (<[daA g i := flush_desc]> (r_desc s)) flush_mem i sc fl'.
Proof.
  intros Hav. destruct (inv_geo _ _ I) as (rd & rs & Gg). destruct (inv_small _ _ I i sc fl Hi Hk) as [_ (S1 & S2 & S3 & S4 & S5 & S6 & S7 & S8)].
  pose proof tail_range as Rt. pose proof (blk_range g _ _ _ sc i jt Gg Hc Hi Rt) as R1. pose proof (geo_addr_range Gg i ltac:(lia)) as R2. pose proof (class_facts sc Hc) as Cf.
  destruct cache_run as (p & _ & Ep & C1 & _). destruct run_nodup as (Nr1 & _). unfold small_ok. rewrite dget_eq. unfold flush_desc at 1 2 3 4 5 6.
  cbn [set_anchor heap block_size maxcount superblock anchor avail]. do 4 (split; [done|]). split; [apply fl'_nodup|]. split; [apply fl'_range|]. split.
  - assert (Eh : exists l, fl' = hd jt js :: l) by (destruct js; cbn; eauto). destruct Eh as [l El].
    unfold anchor_ok. rewrite El. split; [done|]. cbn [count state]. destruct (decide (Z.of_nat (length (hd jt js :: l)) = mcn sc)); done.
  - rewrite map_app, (map_app _ js [jt]), <- app_assoc. cbn [map app]. apply chain_app. split.
    + apply chain_st_last; [|cbn [flush_desc set_anchor anchor avail]; now rewrite <- Ep].
      intros x Hx. apply elem_of_blks in Hx as (j & -> & Hj). apply blk_apart8; try done; [apply Rjs, elem_of_app; now left|]. intros E. injection E as ->.
      apply list.NoDup_app in Nr1 as (_ & N & _). apply (N jt Hj). left.
    + unfold flush_mem. rewrite ld_st_pptr_eq; [|lia|unfold blk; nia]. apply chain_st; [|done].
      intros x Hx. apply elem_of_blks in Hx as (j & -> & Hj). now apply (taken_apart_free s G I sc _ sc i fl j Hc Hi Hk Hj tail_taken).
Qed.

Lemma flush_caches sc' : class_idx sc' -> cache_ok flush_mem (<[Z.to_nat sc := mkBin (ld_pptr (r_mem s) (blk g sc i jt)) (Z.of_nat (length rest))]> (r_tc s))
  sc' (<[sc := rest]> (gca G) sc').
Proof.
  intros Hc'. destruct cache_run as (p & _ & _ & _ & C2). destruct run_nodup as (_ & _ & Nr3). destruct (decide (sc = sc')) as [<-|Ne]; fins.
  - eexists. split; [apply list_lookup_insert_eq; now apply (inv_slot s G)|].
    apply (chain_ext (r_mem s)); [|exact C2]. intros x Hx. apply flush_mem_apart.
    apply (taken_apart s G sc sc); [done|done|apply (inv_ca_kind _ _ I sc x Hc); rewrite Hca; apply elem_of_app; now right|apply tail_taken|].
    intros E. injection E as ->. apply (Nr3 jt); [apply elem_of_app; right; left|done].
  - apply (cache_ok_ext (r_mem s) _ (r_tc s)); [| |now apply I].
    + intros x Hx. apply flush_mem_apart. apply (taken_apart s G sc' sc); [done|done|now apply (inv_ca_kind _ _ I)|apply tail_taken|congruence].
    + rewrite list_lookup_insert_ne; [done|]. now apply class_slot.
Qed.

(** Only superblock [i] may change its owner. *)
Lemma flush_owner j : i <> j -> (if decide (fl = []) then Some i else None) <> Some j.
Proof. intros Ne. destruct (decide (fl = [])); [|done]. intros E. now injection E as ->. Qed.

Lemma flush_part_kind sc' j : class_idx sc' -> j ∈ gpt G sc' <-> 1 <= j < gn G /\ (if decide (fl = []) then Some i else None) <> Some j /\
  exists f, <[i := KSmall sc fl']> (gk G) j = KSmall sc' f /\ f <> [].
Proof.
  intros Hc'. rewrite (inv_pt_kind _ _ I sc' j Hc'), Ho. destruct (decide (i = j)) as [<-|Ne]; fins.
  - destruct (decide (fl = [])) as [Ef|Ef].
    + split; [intros (_ & _ & f & E & ?); rewrite Hk in E; now injection E as <- <-|]. now intros (_ & ? & _).
    + split; intros (? & _ & f & E & ?); (split; [done|]); (split; [done|]).
      * rewrite Hk in E. injection E as <- <-. exists fl'. split; [done|]. destruct js; done.
      * injection E as <- <-. eauto.
  - split; intros (? & _ & ?); (split; [done|]); (split; [|done]); [now apply flush_owner|done].
Qed.

Lemma inv_flush tr : 0 <= avail (anchor (dget (r_desc s) (daA g i))) <= mcn sc -> inv (flush_state tr) flushed.
Proof.
  intros Hav. constructor; unfold flush_state; rproj; unfold flushed; gproj; try solve [apply I].
  - rewrite length_insert. apply I.
  - apply (avail_ok_ext _ (r_desc s)); [|apply I]. intros j Hj. apply flush_nextf.
  - intros j. rewrite (inv_av_kind _ _ I), Ho. destruct (decide (i = j)) as [<-|Ne]; fins.
    + split; intros (_ & _ & ?); congruence.
    + split; intros (? & _ & ?); (split; [done|]); (split; [|done]); [now apply flush_owner|done].
  - intros sc' Hc'. apply (part_ok_ext _ (r_desc s) _ (heaps (r_md s))); [|done|now apply I]. intros j Hj. apply flush_nextp.
  - exact flush_part_kind.
  - intros j sc' f Hj. destruct (decide (i = j)) as [<-|Ne]; fins; intros Hk'.
    + injection Hk' as <- <-. split; [done|]. now apply flush_small.
    + destruct (inv_small _ _ I j sc' f Hj Hk') as [? Sm]. split; [done|]. revert Sm.
      apply small_ok_ext; [now rewrite dget_daA_ne|]. intros j' Hj'. apply flush_mem_apart.
      now apply (taken_apart_free s G I sc _ sc' j f j' Hc Hj Hk' Hj' tail_taken).
  - exact flush_caches.
  - intros sc' Hc'. destruct (decide (sc = sc')) as [<-|Ne]; fins; [|now apply I]. split; [apply run_nodup|].
    destruct (inv_ca_nodup _ _ I sc Hc) as [_ L]. rewrite Hca, length_app in L. lia.
  - exact taken_flushed.
  - intros j c Hj. destruct (decide (i = j)) as [<-|Ne]; fins; [done|]. intros Hk'.
    destruct (inv_large _ _ I j c Hj Hk') as (? & ? & La & Bd). split; [done|]. split; [done|]. split.
    + revert La. apply large_ok_same. now apply dget_daA_ne.
    + intros j' Hj'. destruct (decide (i = j')) as [<-|Ne']; fins; [|now apply Bd]. specialize (Bd i Hj'). congruence.
  - intros j Hj. destruct (decide (i = j)) as [<-|Ne]; fins; [done|]. intros Hk'.
    destruct (inv_body _ _ I j Hj Hk') as (i' & c & ? & ? & E). exists i', c. split; [done|]. split; [done|].
    destruct (decide (i = i')) as [<-|Ne']; fins; congruence.
Qed.

Lemma live_flushed b sz : live g flushed b sz <-> live g G b sz.
Proof.
  destruct run_nodup as (_ & _ & Nr). unfold flushed.
  split; intros L; destruct L as [i' sc' f j H1 H2 H3 H4 H5|i' c H1 H2].
  - cbn in H1, H2, H5. destruct (decide (i = i')) as [<-|Ne].
    + rewrite fn_lookup_insert in H2. injection H2 as <- <-. rewrite fn_lookup_insert in H5.
      apply (live_small _ _ i sc fl); try done; [intros Hj; apply H4, elem_of_app; now right|].
      rewrite Hca. intros [Hj|Hj]%elem_of_app; [|done]. apply elem_of_blks in Hj as (j' & E & Hj').
      apply blk_inj in E as [_ ->]; auto. apply H4, elem_of_app. now left.
    + rewrite fn_lookup_insert_ne in H2 by done. apply (live_small _ _ i' sc' f); try done.
      destruct (decide (sc = sc')) as [<-|Ns]; [|now rewrite fn_lookup_insert_ne in H5 by done].
      rewrite fn_lookup_insert in H5. rewrite Hca. intros [Hj|Hj]%elem_of_app; [|done].
      apply elem_of_blks in Hj as (j' & E & Hj'). apply blk_inj in E as [E _]; auto.
  - cbn in H1, H2. destruct (decide (i = i')) as [<-|Ne]; [now rewrite fn_lookup_insert in H2|].
    rewrite fn_lookup_insert_ne in H2 by done. now apply live_large.
  - destruct (decide (i = i')) as [<-|Ne].
    + rewrite Hk in H2. injection H2 as <- <-. apply (live_small _ _ i sc fl'); gproj; fins; try done.
      * intros [Hj|Hj]%elem_of_app; [|done]. apply H5. rewrite Hca. apply elem_of_app. left. apply elem_of_blks. eauto.
      * intros Hr. apply H5. rewrite Hca. apply elem_of_app. now right.
    + apply (live_small _ _ i' sc' f); gproj; fins; try done.
      destruct (decide (sc = sc')) as [<-|Ns]; fins; [|done]. intros Hr. apply H5. rewrite Hca. apply elem_of_app. now right.
  - destruct (decide (i = i')) as [<-|Ne]; [congruence|]. apply live_large; gproj; fins; done.
Qed.

Lemma flush_frame tr : frame s (flush_state tr) G.
Proof.
  intros a Ha. apply rd8_wr. change (Z.of_nat 8) with 8.
  destruct (cached_not_live s G sc (blk g sc i jt) a I Hc) as [?|?]; [|done|lia|pose proof (class_facts sc Hc); lia].
  rewrite Hca. apply elem_of_app. left. apply elem_of_blks. exists jt. split; [done|]. apply elem_of_app. right. left.
Qed.

(** What is done with the superblock after the exchange. *)
Definition settle (old new : Anchor) : stM rst unit :=
  if bool_decide (state old = SB_FULL) then
    if bool_decide (state new = SB_EMPTY) then small_sb_retire (sbA g i) SBSIZE else heap_push_partial (daA g i)
  else cret tt.

Definition settled (s' : rst) (G' : ghost) : Prop :=
  quiet s s' G G' /\ r_rgs s' = g /\ gca G' sc = rest /\ (forall k, k <> sc -> gca G' k = gca G k).

Lemma flush_settle tr old new : 0 <= avail (anchor (dget (r_desc s) (daA g i))) <= mcn sc -> (state old = SB_FULL <-> fl = []) ->
  (state new = SB_EMPTY <-> Z.of_nat (length fl') = mcn sc) ->
  exists s' G', settle old new (flush_state tr) = Ok (tt, s') /\ settled s' G'.
Proof.
  intros Hav Efull Eemp. pose proof (inv_flush tr Hav) as I1. pose proof (flush_frame tr) as F1. set (s1 := flush_state tr) in *.
  assert (L1 : same_live s s1 G flushed) by (intros b sz; apply live_flushed).
  assert (Kf : gk flushed i = KSmall sc fl') by (unfold flushed; gproj; now fins).
  assert (Cf' : gca flushed sc = rest) by (unfold flushed; gproj; now fins).
  assert (Co : forall k, k <> sc -> gca flushed k = gca G k) by (intros k Hk'; assert (sc <> k) by congruence; unfold flushed; gproj; now fins).
  unfold settle. destruct (decide (fl = [])) as [Ef|Nf].
  - rewrite (bool_decide_eq_true_2 _ (proj2 Efull Ef)). assert (Ow : gow flushed = Some i) by (unfold flushed; gproj; now rewrite decide_True).
    destruct (bool_decide_reflect (state new = SB_EMPTY)) as [Em|Em].
    + apply Eemp in Em. destruct (inv_retire s1 _ I1 sc i _ Hc Ow Hi Kf Em) as (s2 & E2 & I2 & Er2 & Em2 & _).
      match type of I2 with inv _ ?G2 => exists s2, G2 end. split; [exact E2|]. split; [|split; [now rewrite Er2|split; [gproj; now rewrite Cf'|exact Co]]].
      constructor; [exact I2|done|now rewrite Er2|..].
      * intros b sz. rewrite Er2, (live_retire s1 _ sc i _ I1 Hc Hi Kf Em). apply L1.
      * intros a Ha. rewrite Em2. now apply F1.
    + destruct (inv_push_partial s1 _ I1 sc i _ Hc Ow Hi Kf) as (s2 & E2 & I2 & Er2 & Em2 & _); [now destruct js|].
      match type of I2 with inv _ ?G2 => exists s2, G2 end. split; [exact E2|]. split; [|split; [now rewrite Er2|split; [gproj; now rewrite Cf'|exact Co]]].
      constructor; [exact I2|done|now rewrite Er2|..].
      * intros b sz. rewrite Er2, <- (L1 b sz). now apply live_ghost_same.
      * intros a Ha. rewrite Em2. now apply F1.
  - rewrite bool_decide_eq_false_2 by (intros E; now apply Nf, Efull).
    exists s1. eexists. split; [reflexivity|]. split; [|split; [done|split; [exact Cf'|exact Co]]].
    constructor; [exact I1| |done|done|done]. unfold flushed. gproj. now rewrite decide_False.
Qed.

(** The anchors of a flush: the one found and the one installed. *)
Lemma flush_anchors : let old := anchor (dget (r_desc s) (daA g i)) in
  let new := flush_anchor old (hd jt js) (Z.of_nat (length (js ++ [jt]))) (mcn sc) in
  0 <= avail old <= mcn sc /\ count old < mcn sc /\ (avail old <? mcn sc) || bool_decide (state old = SB_FULL) = true /\
  new = anchor flush_desc /\ avail new < mcn sc /\ count new < mcn sc /\ (state old = SB_FULL <-> fl = []) /\
  (state new = SB_EMPTY <-> Z.of_nat (length fl') = mcn sc).
Proof.
  cbv zeta. destruct (inv_small _ _ I i sc fl Hi Hk) as [_ Sm]. pose proof Sm as (_ & _ & _ & _ & _ & _ & Anc & _). pose proof (class_facts sc Hc) as Cf.
  pose proof fl'_length as Lfl. assert (El : Z.of_nat (length fl') = Z.of_nat (length (js ++ [jt])) + Z.of_nat (length fl)) by (rewrite (length_app (js ++ [jt])); lia).
  assert (Lj : 1 <= Z.of_nat (length (js ++ [jt]))) by (rewrite length_app; cbn [length]; lia).
  assert (Rh : 0 <= hd jt js < mcn sc) by (apply Rjs; destruct js; left).
  destruct (flush_anchor_eq _ (mcn sc) fl (hd jt js) (Z.of_nat (length (js ++ [jt]))) Anc) as (Ean & Ecn & Efull & Eav); [lia|done|lia|lia|lia|].
  assert (Hav : 0 <= avail (anchor (dget (r_desc s) (daA g i))) <= mcn sc /\ (fl <> [] -> avail (anchor (dget (r_desc s) (daA g i))) < mcn sc)).
  { destruct (decide (fl = [])) as [E|Nf]; [rewrite Eav by done; split; [lia|done]|]. pose proof (small_ok_anchor _ _ _ _ _ _ Hc Sm Nf) as [? _]. lia. }
  rewrite Ean, Ecn. unfold flush_desc. cbn [set_anchor anchor avail count state]. rewrite El.
  split; [apply Hav|]. split; [lia|]. split.
  { destruct (decide (fl = [])) as [E|Nf]; [rewrite (bool_decide_eq_true_2 _ (proj2 Efull E)); apply orb_true_r|].
    rewrite (proj2 (Z.ltb_lt _ _)) by (now apply Hav). done. }
  split; [done|]. split; [lia|]. destruct (decide _) as [E|N]; (split; [lia|]); (split; [exact Efull|]); [tauto|]. split; [discriminate|lia].
Qed.

Lemma ld_link_blk (t : rst) j : r_rgs t = g -> 0 <= j < mcn sc -> ld_link (blk g sc i j) t = Ok (ld_pptr (r_mem t) (blk g sc i j), t).
Proof.
  intros Et Hj. destruct (inv_geo _ _ I) as (rd & rs & Gg). rewrite <- Et in Gg. unfold ld_link. pose proof (mapped_blk t (gn G) rd rs sc i j Gg Hc Hi Hj) as Mb.
  rewrite Et in Mb. now rewrite Mb.
Qed.
Lemma st_link_blk (t : rst) j v : r_rgs t = g -> 0 <= j < mcn sc -> st_link (blk g sc i j) v t = Ok (tt, with_mem (st_pptr (blk g sc i j) v (r_mem t)) t).
Proof.
  intros Et Hj. destruct (inv_geo _ _ I) as (rd & rs & Gg). rewrite <- Et in Gg. unfold st_link. pose proof (mapped_blk t (gn G) rd rs sc i j Gg Hc Hi Hj) as Mb.
  rewrite Et in Mb. now rewrite Mb.
Qed.

(** The exchange loop succeeds at once. *)
Lemma flush_anchor_run tc tr :
  let old := anchor (dget (r_desc s) (daA g i)) in
  let new := flush_anchor old (hd jt js) (Z.of_nat (length (js ++ [jt]))) (mcn sc) in
  exists tr', flush_anchor_loop CAS_FUEL (daA g i) (sbA g i) (blk g sc i jt) (hd jt js) (Z.of_nat (length (js ++ [jt]))) (bsz sc) old
    (upd s (r_mem s) (r_desc s) (r_md s) tc tr) =
  Ok ((old, new), upd s flush_mem (<[daA g i := flush_desc]> (r_desc s)) (r_md s) tc tr').
Proof.
  cbv zeta. destruct flush_anchors as (Hav & Hcn & _ & En & _). cbv zeta in En. destruct (inv_geo _ _ I) as (rd & rs & Gg).
  destruct (inv_small _ _ I i sc fl Hi Hk) as [_ (_ & _ & Smx & _)].
  eexists. cbn [flush_anchor_loop CAS_FUEL]. rewrite (blk_code g (gn G) rd rs sc i _ Gg Hc Hi Hav).
  crun (st_link_blk (upd s (r_mem s) (r_desc s) (r_md s) tc tr) jt (blk g sc i (avail (anchor (dget (r_desc s) (daA g i))))) eq_refl tail_range).
  repeat rewrite !cbind_assoc. match goal with |- context [cbind (get_d _) _ ?st] => crun (get_d_ok (n := gn G) st i Gg ltac:(lia)) end. rproj.
  rewrite Smx, (proj2 (Z.ltb_lt _ _)) by lia. cpure. unfold anchor_cas.
  repeat rewrite !cbind_assoc. match goal with |- context [cbind (get_d _) _ ?st] => crun (get_d_ok (n := gn G) st i Gg ltac:(lia)) end. rproj. rewrite bool_decide_eq_true_2 by done.
  repeat rewrite !cbind_assoc. match goal with |- context [cbind (put_d _ ?d) _ ?st] => crun (put_d_ok (n := gn G) st i d Gg ltac:(lia)) end. rproj. cpure. rewrite En. reflexivity.
Qed.

(** The run up to the exchange. *)
Lemma flush_one_run : (exists fuel, fuel = (Z.to_nat (Z.of_nat (length (js ++ [jt])) + Z.of_nat (length rest)) + 1)%nat /\
    flush_scan fuel (Z.of_nat (length (js ++ [jt])) + Z.of_nat (length rest)) (sbA g i) SBSIZE (blk g sc i (hd jt js)) 1 s =
    Ok ((blk g sc i jt, Z.of_nat (length (js ++ [jt]))), s)) ->
  let old := anchor (dget (r_desc s) (daA g i)) in
  let new := flush_anchor old (hd jt js) (Z.of_nat (length (js ++ [jt]))) (mcn sc) in
  exists tr, flush_one sc s = settle old new (flush_state tr).
Proof.
  intros (fuel & -> & Es). cbv zeta. destruct flush_anchors as (_ & _ & As & _ & Hna & Hnc & _). cbv zeta in Hna, Hnc.
  destruct (inv_geo _ _ I) as (rd & rs & Gg). destruct (inv_small _ _ I i sc fl Hi Hk) as [_ (_ & _ & _ & Ssb & _)].
  destruct cache_run as (p & Hp & Ep & _). rewrite Ep in Hp. assert (Rh : 0 <= hd jt js < mcn sc) by (apply Rjs; destruct js; left).
  destruct (inv_ca_nodup _ _ I sc Hc) as [_ Lca]. rewrite Hca, length_app, length_map in Lca. pose proof (class_facts sc Hc) as Cf.
  set (tc' := <[Z.to_nat sc := mkBin (ld_pptr (r_mem s) (blk g sc i jt)) (Z.of_nat (length rest))]> (r_tc s)).
  destruct (flush_anchor_run tc' (r_trace s)) as [tr Er]. exists tr.
  unfold flush_one. crun (get_bin_ok s sc _ Hp). cbn [_block _block_num]. cpure.
  rewrite (desc_lookup_blk g (gn G) rd rs sc i _ Gg Hc Hi Rh). crun (get_d_ok s i Gg ltac:(lia)).
  rewrite Ssb, (translate_sb Gg) by lia. rewrite (proj1 (class_data sc Hc)). crun Es. crun (ld_link_blk s jt eq_refl tail_range).
  unfold pop_list. crun (get_bin_ok s sc _ Hp). cbn [_block_num]. rewrite (proj2 (Z.leb_le _ _)) by lia. cpure. cpure.
  replace (u32 (Z.of_nat (length (js ++ [jt])) + Z.of_nat (length rest) - Z.of_nat (length (js ++ [jt])))) with (Z.of_nat (length rest)) by (rewrite u32_small; lia).
  match goal with |- context [cbind (compute_idx _ _ _) _ ?st] => change st with (upd s (r_mem s) (r_desc s) (r_md s) tc' (r_trace s)) end.
  crun (compute_idx_ok (upd s (r_mem s) (r_desc s) (r_md s) tc' (r_trace s)) g sc i (hd jt js) Hc Rh).
  crun (get_d_ok (n := gn G) (upd s (r_mem s) (r_desc s) (r_md s) tc' (r_trace s)) i Gg ltac:(lia)). rproj. fold (bsz sc). crun Er. fold (mcn sc).
  rewrite As. cpure. rewrite (proj2 (Z.ltb_lt _ _) Hna). cpure. rewrite (proj2 (Z.ltb_lt _ _) Hnc). cpure. reflexivity.
Qed.

End Flush.

Lemma last_snoc_blk g sc i j0 js t : list.last (blk g sc i j0 :: map (blk g sc i) js) = Some t ->
  exists js1 jt, j0 :: js = js1 ++ [jt] /\ t = blk g sc i jt.
Proof.
  change (blk g sc i j0 :: map (blk g sc i) js) with (map (blk g sc i) (j0 :: js)).
  destruct (exists_last (l := j0 :: js)) as (js1 & jt & E); [done|]. rewrite E, map_app. cbn [map]. rewrite last_snoc.
  intros Et. injection Et as <-. eauto.
Qed.

(** One turn of [flush_cache]: the cache gets shorter, the program does not notice. *)
Lemma flush_one_inv s G sc : inv s G -> gow G = None -> class_idx sc -> gca G sc <> [] ->
  exists s' G', flush_one sc s = Ok (tt, s') /\ quiet s s' G G' /\ r_rgs s' = r_rgs s /\
    (length (gca G' sc) < length (gca G sc))%nat /\ (forall k, k <> sc -> gca G' k = gca G k).
Proof.
  intros I Ho Hc Hne. destruct (inv_geo _ _ I) as (rd & rs & Gg). pose proof (class_facts sc Hc) as Cf.
  destruct (gca G sc) as [|x r] eqn:Eca; [done|]. clear Hne.
  destruct (inv_cache _ _ I sc Hc) as (p & Hp & C). rewrite Eca in Hp, C. pose proof C as [-> _].
  destruct (inv_ca_kind _ _ I sc x Hc ltac:(rewrite Eca; left)) as (i & fl & j0 & Hi & Hk & Hj0 & Nj0 & ->).
  destruct (inv_ca_nodup _ _ I sc Hc) as [_ Lca]. rewrite Eca in Lca. cbn [length] in Lca.
  destruct (flush_scan_ok s (gn G) rd rs sc i Gg Hc r (Z.to_nat (Z.of_nat (S (length r))) + 1) (blk (r_rgs s) sc i j0) 1) as (js' & rest & tail & Er & Rjs' & Et & Es);
    [lia|lia|lia|exact C|now apply (mapped_blk s (gn G) rd rs)| |].
  { intros y Hy. destruct (inv_ca_kind _ _ I sc y Hc ltac:(rewrite Eca; now right)) as (i' & f & j' & ? & _ & ? & _ & ->). eauto. }
  destruct (last_snoc_blk (r_rgs s) sc i j0 js' tail Et) as (js & jt & Ejs & ->).
  assert (Hca : gca G sc = map (blk (r_rgs s) sc i) (js ++ [jt]) ++ rest) by (rewrite Eca, Er, <- Ejs; done).
  assert (Rjs : forall j, j ∈ js ++ [jt] -> 0 <= j < mcn sc) by (rewrite <- Ejs; intros j [->|Hj]%elem_of_cons; auto).
  assert (Ej0 : hd jt js = j0) by (destruct js; cbn in Ejs |- *; congruence).
  assert (Ljs : Z.of_nat (length (js ++ [jt])) = 1 + Z.of_nat (length js')) by (rewrite <- Ejs; cbn [length]; lia).
  assert (Lr : length r = (length js' + length rest)%nat) by (rewrite Er, length_app, length_map; done).
  destruct (flush_one_run s G I sc i fl js rest jt Hc Hi Hk Hca Rjs) as [tr Erun].
  { eexists. split; [reflexivity|]. rewrite Ej0, Ljs. replace (1 + Z.of_nat (length js') + Z.of_nat (length rest)) with (1 + Z.of_nat (length r)) by lia.
    rewrite <- Es. f_equal; lia. }
  destruct (flush_anchors s G I sc i fl js rest jt Hc Hi Hk Hca Rjs) as (Hav & _ & _ & _ & _ & _ & Efull & Eemp). cbv zeta in Erun, Eemp.
  destruct (flush_settle s G I Ho sc i fl js rest jt Hc Hi Hk Hca Rjs tr _ _ Hav Efull Eemp) as (s' & G' & E & Q & Eg & Cr & Co).
  exists s', G'. rewrite Erun. split; [exact E|]. split; [exact Q|]. split; [exact Eg|]. split; [|exact Co]. rewrite Cr. cbn [length]. lia.
Qed.

(** ** The loops of [flush_cache] *)

Lemma flush_loop_inv sc : class_idx sc -> forall fuel s G, inv s G -> gow G = None -> (length (gca G sc) < fuel)%nat ->
  exists s' G', flush_loop fuel sc s = Ok (tt, s') /\ quiet s s' G G' /\ r_rgs s' = r_rgs s /\ gca G' sc = [] /\
    (forall k, k <> sc -> gca G' k = gca G k).
Proof.
  intros Hc. induction fuel as [|fuel IH]; intros s G I Ho Hf; [lia|]. cbn [flush_loop].
  destruct (inv_cache _ _ I sc Hc) as (p & Hp & _). crun (get_bin_ok s sc _ Hp). cbn [_block_num].
  destruct (gca G sc) as [|x l] eqn:E; cbn [length] in *.
  - rewrite (proj2 (Z.ltb_ge _ _)) by lia. exists s, G. split; [done|]. split; [|done]. now constructor.
  - rewrite (proj2 (Z.ltb_lt _ _)) by lia.
    destruct (flush_one_inv s G sc I Ho Hc) as (s1 & G1 & E1 & Q1 & Er & Hl & Co1); [now rewrite E|]. crun E1. rewrite E in Hl. cbn [length] in Hl.
    destruct (IH s1 G1 (q_inv _ _ _ _ Q1) (q_own _ _ _ _ Q1)) as (s2 & G2 & E2 & Q2 & Er2 & C2 & Co2); [lia|].
    exists s2, G2. split; [done|]. split; [now apply (quiet_trans _ s1 _ _ G1)|]. split; [congruence|].
    split; [done|]. intros k Hk. now rewrite Co2, Co1.
Qed.

Lemma flush_cache_inv s G sc : inv s G -> gow G = None -> class_idx sc ->
  exists s' G', flush_cache sc s = Ok (tt, s') /\ quiet s s' G G' /\ r_rgs s' = r_rgs s /\ gca G' sc = [] /\
    (forall k, k <> sc -> gca G' k = gca G k).
Proof.
  intros I Ho Hc. destruct (inv_cache _ _ I sc Hc) as (p & Hp & _). unfold flush_cache. crun (get_bin_ok s sc _ Hp). cbn [_block_num].
  apply flush_loop_inv; try done. lia.
Qed.

(** ** Free *)

Definition class_unique (sc : Z) : bool :=
  match List.find (fun k => bsz k =? bsz sc) (seqZ 1 (MAX_SZ_IDX - 1)) with Some k => k =? sc | None => false end.

Lemma all_classes_unique : forallb class_unique (seqZ 1 (MAX_SZ_IDX - 1)) = true.
Proof. vm_compute. reflexivity. Qed.

Lemma bsz_inj sc sc' : class_idx sc -> class_idx sc' -> bsz sc = bsz sc' -> sc = sc'.
Proof.
  intros Hc Hc' E. pose proof all_classes_unique as A. rewrite forallb_forall in A.
  assert (forall k, class_idx k -> class_unique k = true) as U.
  { intros k Hk. apply A. apply list_elem_of_In, elem_of_seqZ. unfold class_idx in Hk. lia. }
  pose proof (U sc Hc) as U1. pose proof (U sc' Hc') as U2. unfold class_unique in U1, U2. rewrite E in U1.
  destruct (List.find _ _) as [k|]; [|done]. apply Z.eqb_eq in U1, U2. congruence.
Qed.

Lemma live_small_inv s G b sc : inv s G -> class_idx sc -> live (r_rgs s) G b (bsz sc) ->
  taken (r_rgs s) (gn G) (gk G) sc b /\ b ∉ gca G sc.
Proof.
  intros I Hc L. remember (bsz sc) as z eqn:E. destruct L as [i sc' fl j H1 H2 H3 H4 H5|i c H1 H2].
  - destruct (inv_small _ _ I i sc' fl H1 H2) as [Hc' _]. apply bsz_inj in E; [|done..]. subst sc'. split; [|done]. exists i, fl, j. tauto.
  - exfalso. destruct (inv_large _ _ I i c H1 H2) as (? & _). pose proof (class_facts sc Hc). unfold_cfg. lia.
Qed.

Lemma live_pushed s G b sc b' sz : inv s G -> class_idx sc -> live (r_rgs s) G b (bsz sc) ->
  live (r_rgs s) (set_cache G sc (b :: gca G sc)) b' sz <-> live (r_rgs s) G b' sz /\ b' <> b.
Proof.
  intros I Hc Lb. destruct (live_small_inv s G b sc I Hc Lb) as [(i & fl & j & Hi & Hk & Hj & Nj & Eb) Nb]. split.
  - intros L. destruct L as [i' sc' fl' j' H1 H2 H3 H4 H5|i' c H1 H2]; cbn in H1, H2.
    + cbn in H5. destruct (inv_small _ _ I i' sc' fl' H1 H2) as [Hc' _]. destruct (decide (sc = sc')) as [<-|Ns].
      * rewrite fn_lookup_insert in H5. apply not_elem_of_cons in H5 as [Ne H5]. split; [now apply (live_small _ _ i' sc fl')|done].
      * rewrite fn_lookup_insert_ne in H5 by done. split; [now apply (live_small _ _ i' sc' fl')|]. intros E.
        destruct (live_disjoint s G _ (bsz sc') _ (bsz sc) I (live_small _ _ i' sc' fl' j' H1 H2 H3 H4 H5) Lb) as [[_ E']|L].
        -- apply Ns. symmetry. now apply bsz_inj.
        -- pose proof (class_facts sc Hc). pose proof (class_facts sc' Hc'). lia.
    + split; [now apply live_large|]. intros E. destruct (inv_large _ _ I i' c H1 H2) as (? & _).
      destruct (live_disjoint s G _ _ _ _ I (live_large (r_rgs s) G i' c H1 H2) Lb) as [[_ E']|L]; pose proof (class_facts sc Hc); unfold_cfg; lia.
  - intros [L N]. destruct L as [i' sc' fl' j' H1 H2 H3 H4 H5|i' c H1 H2]; [|now apply live_large].
    apply (live_small _ _ i' sc' fl'); gproj; try done. destruct (decide (sc = sc')) as [<-|Ns]; fins; [|done].
    now apply not_elem_of_cons.
Qed.

Lemma live_bytes_apart s G b sz a : inv s G -> live (r_rgs s) G b sz -> forall b' sz', live (r_rgs s) G b' sz' -> b' <> b -> b' <= a < b' + sz' -> a < b \/ b + sz <= a.
Proof. intros I L b' sz' L' N Ha. destruct (live_disjoint s G b sz b' sz' I L L') as [[? _]|?]; [congruence|lia]. Qed.

(** The block joins the cache of its class. *)
Lemma push_block_freed s G sc b : inv s G -> gow G = None -> class_idx sc -> live (r_rgs s) G b (bsz sc) ->
  Z.of_nat (length (gca G sc)) < mcn sc ->
  exists s' G', push_block sc b s = Ok (tt, s') /\ freed s s' G G' b.
Proof.
  intros I Ho Hc L Hl. destruct (live_small_inv s G b sc I Hc L) as [T Nb]. pose proof (class_facts sc Hc) as Cf.
  destruct (push_block_inv s G I sc b Hc T Nb Hl) as (s' & E & I' & Er & _ & v & Em). eexists s', _. split; [done|].
  constructor; [exact I'|done|done|intros b' sz; now apply live_pushed|].
  intros a (b' & sz & Lb & Ha). apply live_pushed in Lb as [Lb Ne]; [|done..]. rewrite Em. apply rd8_wr. change (Z.of_nat 8) with 8.
  pose proof (live_bytes_apart s G b _ a I L b' sz Lb Ne Ha). lia.
Qed.

Lemma quiet_freed s s1 s2 G G1 G2 p : quiet s s1 G G1 -> r_rgs s1 = r_rgs s -> freed s1 s2 G1 G2 p -> freed s s2 G G2 p.
Proof.
  intros Q Er F. pose proof (fr_rgs _ _ _ _ _ F) as Er2. constructor; try apply F; [congruence|..].
  - intros b sz. rewrite <- (q_live _ _ _ _ Q b sz), Er, <- Er. apply F.
  - intros a Ha. rewrite (fr_frame _ _ _ _ _ F) by now rewrite Er. apply (q_frame _ _ _ _ Q). destruct Ha as (b & sz & L & Hb).
    exists b, sz. split; [|done]. rewrite <- Er in L. apply (fr_live _ _ _ _ _ F) in L as [L _]. now apply (q_live _ _ _ _ Q).
Qed.

Lemma do_free_small s G sc b : inv s G -> gow G = None -> class_idx sc -> live (r_rgs s) G b (bsz sc) ->
  exists s' G', do_free b s = Ok (tt, s') /\ freed s s' G G' b.
Proof.
  intros I Ho Hc L. destruct (live_small_inv s G b sc I Hc L) as [(i & fl & j & Hi & Hk & Hj & Nj & Eb) Nb].
  destruct (inv_geo _ _ I) as (rd & rs & Gg). pose proof (blk_range _ _ _ _ sc i j Gg Hc Hi Hj) as R. rewrite <- Eb in R.
  destruct (inv_small _ _ I i sc fl Hi Hk) as [_ (Sh & _)]. pose proof (class_facts sc Hc) as Cf. pose proof (blk_offset (r_rgs s) sc i j Hc Hj) as Of.
  unfold do_free. rewrite (proj2 (Z.eqb_neq _ _)) by lia. cpure.
  assert (In : in_range (r_rgs s) SB_IDX b = true).
  { rewrite Eb, (proj1 Of). apply (in_range_sb Gg); unfold_cfg; lia. }
  rewrite In. cpure.
  assert (Ed : desc_lookup (r_rgs s) b = daA (r_rgs s) i) by (rewrite Eb; now apply (desc_lookup_blk _ _ _ _ _ _ _ Gg)).
  rewrite Ed. crun (get_d_ok s i Gg ltac:(lia)). rewrite Sh. pose proof Hc as [Hc1 Hc2].
  crun (heap_index_off Gg s sc eq_refl ltac:(lia)).
  destruct (inv_part _ _ I sc Hc) as (w & q & Hh & _). crun (get_heap_ok s sc _ Hh). cbn [sc_idx].
  rewrite (proj2 (Z.eqb_neq _ _)) by lia. destruct (inv_cache _ _ I sc Hc) as (p & Hp & _). crun (get_bin_ok s sc _ Hp). cbn [_block_num].
  rewrite (proj2 (class_data sc Hc)). destruct (Z.leb_spec (mcn sc) (Z.of_nat (length (gca G sc)))) as [Le|Lt].
  - destruct (flush_cache_inv s G sc I Ho Hc) as (s1 & G1 & E1 & Q1 & Er1 & C1 & _). crun E1.
    destruct (push_block_freed s1 G1 sc b) as (s2 & G2 & E2 & F2); [apply Q1|apply Q1|done| |rewrite C1; cbn; lia|].
    + now apply (q_live _ _ _ _ Q1).
    + exists s2, G2. split; [done|]. now apply (quiet_freed s s1 s2 G G1 G2).
  - cpure. now apply push_block_freed.
Qed.

(** Freeing any block the program holds succeeds. *)
Lemma do_free_live s G b sz : inv s G -> gow G = None -> live (r_rgs s) G b sz ->
  exists s' G', do_free b s = Ok (tt, s') /\ freed s s' G G' b.
Proof.
  intros I Ho L. pose proof L as L0. destruct L as [i sc fl j H1 H2 H3 H4 H5|i c H1 H2].
  - destruct (inv_small _ _ I i sc fl H1 H2) as [Hc _]. now apply (do_free_small s G sc).
  - destruct (do_free_large s G I Ho i c H1 H2) as (s' & E & F). eauto.
Qed.
