(* ===== verification/RallocInit.v ===== *)
(** * Opening a new Ralloc heap

    [_RP_init] on files that do not exist yet: the three regions are mapped, the metadata is
    constructed, the first gigabyte of the superblock region is claimed and its superblocks
    (but the first) are chained on the free list. The result satisfies [inv] with no block in
    the program's hands. *)

From S2P Require Import Prelude Pptr ByteMem SizeClass Regions Ralloc RallocInv RallocRun RallocMalloc.

(** The file for a region of [size] bytes. *)
Definition file_size (size : Z) : Z := (size / PAGESIZE + 2) * PAGESIZE.

(** The system creates the file and maps all of it at the page [b]. *)
Record maps_at (os : os_answer) (b size : Z) : Prop := {
  ma_lseek : os_lseek os <> -1;
  ma_write : os_write os <> -1;
  ma_addr : os_mmap os = b;
  ma_pos : 0 < b;
  ma_page : b mod PAGESIZE = 0;
  ma_end : b + file_size size < 2 ^ 47 }.

(** ** The region manager *)

Section New.
Context (os : os_answer) (b size : Z) (M : maps_at os b size) (Hs : 0 < size < 2 ^ 46) (H64 : size mod CACHELINE_SIZE = 0).

Lemma file_size_bounds : size + PAGESIZE < file_size size <= size + 2 * PAGESIZE.
Proof. unfold file_size, PAGESIZE in *. pose proof (Z.div_mod size 4096 ltac:(lia)). pose proof (Z.mod_pos_bound size 4096 ltac:(lia)). lia. Qed.

Lemma map_region_ok p : exists r, map_region (file_size size) p os = Ok (r, [FileByte b (file_size size - 1); Flush b; Flush (b + 16); Fence]) /\
  region_wf r (b + PAGESIZE) /\ base_addr r = b /\ FILESIZE r = file_size size.
Proof.
  destruct M as [Hl Hw Ea ? ? ?]. pose proof file_size_bounds. unfold PAGESIZE in *. unfold map_region. rewrite Ea.
  rewrite (proj2 (Z.eqb_neq _ _) Hl), (proj2 (Z.eqb_neq _ _) Hw), (proj2 (Z.eqb_neq _ _)) by (unfold MAP_FAILED; lia).
  eexists. split; [reflexivity|]. split; [|done]. constructor; cbn [base_addr FILESIZE file f_curr]; try lia.
  unfold PAGESIZE. now rewrite u64_small by lia.
Qed.

Lemma RegionManager_new_ok (imm : bool) : exists r tr, RegionManager_new None size true imm os = Ok (r, tr) /\
  base_addr r = b /\ FILESIZE r = file_size size /\
  (if imm then fetch_heap_start r = b + PAGESIZE else region_wf r (b + PAGESIZE)).
Proof.
  destruct (map_region_ok true) as (r & E & W & Eb & EF). pose proof file_size_bounds as B. pose proof M as [_ _ _ ? Hp ?].
  unfold RegionManager_new. rewrite H64. cbn [Z.eqb negb].
  assert (U : u64 ((size / PAGESIZE + 2) * PAGESIZE) = file_size size) by (fold (file_size size); apply u64_small; unfold PAGESIZE in *; lia).
  rewrite U, E. destruct imm; [|eauto 10].
  assert (A : align_up (b + PAGESIZE) (2 ^ 6) = b + PAGESIZE).
  { apply align_up_unique; [lia|lia|]. unfold PAGESIZE in *. apply Z.mod_divide in Hp as [q ->]; [|lia].
    replace (q * 4096 + 4096) with ((q + 1) * 64 * 2 ^ 6) by lia. now apply Z.mod_mul. }
  destruct (nvm_region_allocator_ok r _ 6 size W) as (r1 & tr1 & E1 & W1 & Eb1 & EF1 & _); [lia|lia|rewrite A, Eb, EF; lia|].
  change CACHELINE_SIZE with (2 ^ 6). rewrite E1, A. cbn [Z.eqb store_heap_start]. do 2 eexists. split; [reflexivity|].
  cbn [set_file base_addr FILESIZE]. split; [congruence|]. split; [congruence|].
  unfold fetch_heap_start. cbn [set_file file f_heap_start base_addr]. rewrite Eb1, Eb. unfold PAGESIZE in *.
  rewrite (u64_small (b + 4096 - b)), u64_small; lia.
Qed.

End New.

(** ** The metadata *)

Lemma heaps_loop t : forall k m s, 0 <= m -> length (heaps (r_md s)) = Z.to_nat (m + Z.of_nat k) ->
  exists hs tr,
    cfor (seqZ m (Z.of_nat k)) (fun idx =>
      cmod (fun s => with_md (set_heaps (<[Z.to_nat idx := mkHeap 0 idx]> (heaps (r_md s))) (r_md s)) s);;
      cmod (emit [Flush (t + HEAPS_OFF + 64 * idx)])) s =
    Ok (tt, upd s (r_mem s) (r_desc s) (set_heaps hs (r_md s)) (r_tc s) tr) /\
    length hs = length (heaps (r_md s)) /\
    (forall j, m <= j < m + Z.of_nat k -> hs !! Z.to_nat j = Some (mkHeap 0 j)) /\
    (forall j, 0 <= j < m -> hs !! Z.to_nat j = heaps (r_md s) !! Z.to_nat j).
Proof.
  induction k as [|k IH]; intros m s Hm Hl.
  - exists (heaps (r_md s)), (r_trace s). split; [destruct s as [? ? ? [? ? ? ?] ? ? ? ?]; reflexivity|]. split; [done|]. split; [intros; lia|done].
  - rewrite seqZ_cons by lia. cbn [cfor]. do 2 cpure. replace (Z.pred (Z.of_nat (S k))) with (Z.of_nat k) by lia.
    match goal with |- context [cfor _ _ ?st] => set (s1 := st) end.
    destruct (IH (Z.succ m) s1) as (hs & tr & E & L & Hin & Hlo); [lia|subst s1; cbn; rewrite length_insert; lia|].
    subst s1. rproj in E L Hin Hlo. cbn [heaps set_heaps] in E, L, Hin, Hlo. rewrite length_insert in L.
    exists hs, tr. split; [exact E|]. split; [done|]. split.
    + intros j Hj. destruct (decide (j = m)) as [->|N]; [|apply Hin; lia]. rewrite Hlo by lia. apply list_lookup_insert_eq. lia.
    + intros j Hj. rewrite Hlo by lia. apply list_lookup_insert_ne. lia.
Qed.

Lemma roots_loop t : forall l s, exists rt tr,
    cfor l (fun i =>
      cmod (fun s => with_md (set_roots (<[Z.to_nat i := 0]> (roots (r_md s))) (r_md s)) s);;
      cmod (emit [Flush (t + ROOTS_OFF + 8 * i)])) s =
    Ok (tt, upd s (r_mem s) (r_desc s) (set_roots rt (r_md s)) (r_tc s) tr) /\
    length rt = length (roots (r_md s)) /\ (Forall (eq 0) (roots (r_md s)) -> Forall (eq 0) rt).
Proof.
  induction l as [|i l IH]; intros s.
  - exists (roots (r_md s)), (r_trace s). split; [destruct s as [? ? ? [? ? ? ?] ? ? ? ?]; reflexivity|]. done.
  - cbn [cfor]. do 2 cpure. match goal with |- context [cfor _ _ ?st] => set (s1 := st) end.
    destruct (IH s1) as (rt & tr & E & L & F). subst s1. rproj in E L F. cbn [roots set_roots] in E, L, F. rewrite length_insert in L.
    exists rt, tr. split; [exact E|]. split; [done|]. intros H. apply F. now apply Forall_insert.
Qed.

(** ** The first superblocks *)

(** The superblocks of a new heap: the first is never used, the others are free. *)
Definition fresh_ghost : ghost := mkG 16384 (fun _ => KFree) (seqZ 1 16383) (fun _ => []) (fun _ => []) None.

(** Nothing is cached yet. *)
Definition empty_caches : list TCacheBin := replicate (Z.to_nat MAX_SZ_IDX) (mkBin 0 0).

Lemma dlist_desc g g' nx p l : rg_lookup g' DESC_IDX = rg_lookup g DESC_IDX -> dlist g nx p l -> dlist g' nx p l.
Proof.
  intros E. revert p. induction l as [|i l IH]; intros p; [done|]. cbn. unfold daA at 1. intros [-> D]. unfold daA. rewrite E. split; [done|]. now apply IH.
Qed.

Lemma avail_ok_desc g g' dm w l : rg_lookup g' DESC_IDX = rg_lookup g DESC_IDX -> avail_ok g dm w l -> avail_ok g' dm w l.
Proof.
  intros E (p & [Hw Hp] & D). exists p. split; [split; [done|]|].
  - unfold cnt_load, translate in *. now rewrite E.
  - apply (dlist_desc g); [done|]. eapply dlist_ext; [|exact D]. intros i _. unfold nextf, daA. now rewrite E.
Qed.

Lemma inv_fresh s rd rs w : geo (r_rgs s) 16384 rd rs -> r_tc s = empty_caches ->
  length (heaps (r_md s)) = Z.to_nat MAX_SZ_IDX ->
  (forall j, 0 <= j < MAX_SZ_IDX -> heaps (r_md s) !! Z.to_nat j = Some (mkHeap 0 j)) ->
  avail_sb (r_md s) = w -> avail_ok (r_rgs s) (r_desc s) w (seqZ 1 16383) -> inv s fresh_ghost.
Proof.
  intros Gg Et Lh Hh Ew A. constructor; cbn [fresh_ghost gn gk gav gpt gca gow].
  - eauto.
  - rewrite Et. unfold empty_caches. now rewrite length_replicate.
  - exists 0. apply (Hh 0). unfold MAX_SZ_IDX. lia.
  - now rewrite Ew.
  - apply NoDup_seqZ.
  - intros i. rewrite elem_of_seqZ. split; [intros; split; [lia|]; split; done|lia].
  - intros sc Hc. exists 0, 0. split; [apply Hh; unfold class_idx in Hc; lia|]. split; [split; [lia|reflexivity]|done].
  - intros. constructor.
  - intros sc i _. split; [intros H; now apply not_elem_of_nil in H|]. intros (_ & _ & fl & E & _). discriminate.
  - discriminate.
  - intros sc Hc. exists 0. split; [|done]. rewrite Et. apply lookup_replicate_2. unfold class_idx in Hc. lia.
  - intros sc Hc. split; [constructor|]. pose proof (class_facts sc Hc). cbn. lia.
  - intros sc b _ Hb. now apply not_elem_of_nil in Hb.
  - discriminate.
  - discriminate.
Qed.

(** ** The three regions together *)

Section Init.
Context (size : Z) (os_d os_s os_m : os_answer) (bd bs bm : Z).
Context (Hsz : MIN_SB_REGION_SIZE <= size < MAX_SB_REGION_SIZE).
#[local] Abbreviation n := (size / SBSIZE).
Context (Md : maps_at os_d bd (n * DESCSIZE)) (Ms : maps_at os_s bs (n * SBSIZE)) (Mm : maps_at os_m bm sizeof_BaseMeta).

(** Where the superblock region starts. *)
Definition sb_start : Z := align_up (bs + PAGESIZE) SBSIZE.

(** The warm-up gigabyte fits the file. *)
Definition warm_room : bool := sb_start + SB_REGION_EXPAND_SIZE <=? bs + file_size (n * SBSIZE).

Lemma num_sb_range : 16384 <= n < 2 ^ 24.
Proof.
  unfold MIN_SB_REGION_SIZE, MAX_SB_REGION_SIZE, MAX_SB_AMOUNT in Hsz. unfold_cfg.
  split; [apply Z.div_le_lower_bound; lia|apply Z.div_lt_upper_bound; [lia|]].
  change MAX_DESC_AMOUNT with (2 ^ 24) in Hsz. lia.
Qed.

Lemma sb_start_range : bs + PAGESIZE <= sb_start <= bs + SBSIZE /\ sb_start mod SBSIZE = 0.
Proof.
  destruct Ms as [_ _ _ ? Hp _]. destruct (align_up_spec (bs + PAGESIZE) SBSIZE) as [B E]; [done|]. fold sb_start in B, E. split; [|done].
  unfold_cfg. apply Z.mod_divide in Hp as [q Eq]; [|lia]. apply Z.mod_divide in E as [q' E]; [|lia]. lia.
Qed.

Lemma sb_file_size : file_size (n * SBSIZE) = n * SBSIZE + 2 * PAGESIZE.
Proof. unfold file_size. unfold_cfg. replace (size / 65536 * 65536) with (size / 65536 * 16 * 4096) by lia. rewrite Z.div_mul by lia. lia. Qed.

(** Some superblocks more than the minimum leave room for the alignment. *)
Lemma warm_room_enough : MIN_SB_REGION_SIZE + SBSIZE <= size -> warm_room = true.
Proof.
  intros H. apply Z.leb_le. rewrite sb_file_size. pose proof sb_start_range. unfold SB_REGION_EXPAND_SIZE, MIN_SB_REGION_SIZE in *. unfold_cfg.
  assert (16385 <= size / 65536) by (apply Z.div_le_lower_bound; lia). lia.
Qed.


(** The regions once the superblock region is claimed up to superblock [16384]. *)
Lemma geo_fresh rd rs rm am ci : base_addr rd = bd -> FILESIZE rd = file_size (n * DESCSIZE) ->
  base_addr rs = bs -> FILESIZE rs = file_size (n * SBSIZE) -> region_wf rs (sb_start + SB_REGION_EXPAND_SIZE) ->
  0 <= am < 2 ^ 47 ->
  geo (mkRegions [Some rd; Some rs; rm] [bd + PAGESIZE; sb_start; am] ci) 16384 rd rs.
Proof.
  intros Ebd Efd Ebs Efs W Ha. pose proof num_sb_range as Hn. pose proof sb_start_range as [Hst Hal]. pose proof sb_file_size as Fs.
  destruct Md as [_ _ _ ? Hp Hend]. pose proof Ms as [_ _ _ ? _ ?].
  pose proof (file_size_bounds (n * DESCSIZE)) as Fd.
  assert (Cap : sb_capacity (mkRegions [Some rd; Some rs; rm] [bd + PAGESIZE; sb_start; am] ci) rs <= n).
  { unfold sb_capacity. rewrite Ebs, Efs, Fs. change (rg_lookup _ SB_IDX) with sb_start.
    apply Z.lt_succ_r, Z.div_lt_upper_bound; [done|]. unfold_cfg. lia. }
  constructor; try done; change (rg_lookup _ SB_IDX) with sb_start; change (rg_lookup _ DESC_IDX) with (bd + PAGESIZE).
  - unfold_cfg. split; [lia|]. apply Z.mod_divide in Hp as [q ->]; [|lia]. replace (q * 4096 + 4096) with ((q + 1) * 64 * 64) by lia. now apply Z.mod_mul.
  - split; [|done]. unfold_cfg. lia.
  - rewrite Ebs. unfold_cfg. lia.
  - rewrite Ebd, Efd. split; [unfold_cfg; lia|]. unfold daA. change (rg_lookup _ DESC_IDX) with (bd + PAGESIZE). unfold_cfg. lia.
  - change MAX_DESC_AMOUNT with (2 ^ 24). lia.
Qed.

(** The expansion of the constructor. *)
Lemma warm_expand s rs : base_addr rs = bs -> FILESIZE rs = file_size (n * SBSIZE) -> region_wf rs (bs + PAGESIZE) ->
  get_region (r_rgs s) SB_IDX = Some rs ->
  if warm_room then exists rs1 tr, expand_loop CAS_FUEL SB_IDX SBSIZE SB_REGION_EXPAND_SIZE s =
      Ok (sb_start, emit tr (with_rgs (set_region (r_rgs s) 1 rs1) s)) /\
      base_addr rs1 = bs /\ FILESIZE rs1 = file_size (n * SBSIZE) /\ region_wf rs1 (sb_start + SB_REGION_EXPAND_SIZE)
  else expand_loop CAS_FUEL SB_IDX SBSIZE SB_REGION_EXPAND_SIZE s = Err AssertFail.
Proof.
  intros Ebs Efs W Eg. assert (Hx : 0 < SB_REGION_EXPAND_SIZE < 2 ^ 63) by (unfold SB_REGION_EXPAND_SIZE, MIN_SB_REGION_SIZE; lia).
  cbn [expand_loop CAS_FUEL]. cpure. unfold expand. rewrite Eg. unfold warm_room, sb_start. rewrite <- Efs, <- Ebs. rewrite <- Ebs in W.
  change SBSIZE with (2 ^ 16). set (X := SB_REGION_EXPAND_SIZE) in *. clearbody X.
  destruct (Z.leb_spec (align_up (base_addr rs + PAGESIZE) (2 ^ 16) + X) (base_addr rs + FILESIZE rs)) as [L|L].
  - destruct (nvm_region_allocator_ok rs _ 16 X W) as (r1 & tr & E & W' & Eb' & EF' & _); [lia|done|exact L|].
    exists r1, tr. rewrite E. do 2 cpure. split; [reflexivity|]. split; [done|]. split; [done|exact W'].
  - rewrite (nvm_region_allocator_full rs _ 16 _ W); [|lia|done|exact L]. cpure. reflexivity.
Qed.

(** The rest of the constructor. *)
Lemma warm_organize s rd rs rm ci : r_rgs s = mkRegions [Some rd; Some rs; rm] [bd + PAGESIZE; 0; 0] ci -> avail_sb (r_md s) = 0 ->
  base_addr rd = bd -> FILESIZE rd = file_size (n * DESCSIZE) -> base_addr rs = bs -> FILESIZE rs = file_size (n * SBSIZE) ->
  region_wf rs (sb_start + SB_REGION_EXPAND_SIZE) ->
  exists rs' dm w tr, let g := mkRegions [Some rd; Some rs'; rm] [bd + PAGESIZE; sb_start; 0] ci in
    (r <- sb_region;
     let '(r', tr) := store_heap_start r sb_start in
     cmod (fun s => emit tr (with_region SB_IDX r' s));;
     cmod (fun s => with_rgs (set_address (r_rgs s) (idx_nat SB_IDX) sb_start) s);;
     organize_sb_list (u64 (sb_start + SBSIZE)) (SB_REGION_EXPAND_SIZE / SBSIZE - 1);;
     cmod (emit [Fence])) s =
    Ok (tt, mkR g (r_mem s) dm (set_avail_sb w (r_md s)) (r_tc s) (r_filters s) (r_init s) tr) /\
    base_addr rs' = bs /\ FILESIZE rs' = file_size (n * SBSIZE) /\ region_wf rs' (sb_start + SB_REGION_EXPAND_SIZE) /\
    avail_ok g dm w (seqZ 1 16383).
Proof.
  intros Eg Ea Ebd Efd Ebs Efs W.
  assert (Er : sb_region s = Ok (rs, s)) by (unfold sb_region; now rewrite Eg).
  set (rs' := (store_heap_start rs sb_start).1).
  assert (W' : region_wf rs' (sb_start + SB_REGION_EXPAND_SIZE)) by (destruct W; now constructor).
  set (g := mkRegions [Some rd; Some rs'; rm] [bd + PAGESIZE; sb_start; 0] ci).
  assert (Gg : geo g 16384 rd rs') by (apply geo_fresh; done).
  set (s1 := mkR g (r_mem s) (r_desc s) (r_md s) (r_tc s) (r_filters s) (r_init s)
               (rev_append [Flush (base_addr rs + 8); Fence] (r_trace s))).
  destruct (organize_sb_list_ok s1 1 16383 [] Gg) as (dm & w & tr & E & A & _); [lia|lia|lia|intros j Hj; now apply not_elem_of_nil in Hj| |].
  { exists 0. split; [|done]. change (avail_sb (r_md s1)) with (avail_sb (r_md s)). rewrite Ea. split; [lia|reflexivity]. }
  rewrite app_nil_r in A. exists rs', dm, w. eexists. cbv zeta. fold g. split; [|done].
  crun Er. cbn [store_heap_start]. do 2 cpure.
  match goal with |- cbind _ _ ?st = _ => replace st with s1 end.
  2: { subst s1. unfold with_region, emit, with_rgs. rproj. rewrite Eg. reflexivity. }
  replace (u64 (sb_start + SBSIZE)) with (sbA (r_rgs s1) 1).
  2: { pose proof sb_start_range. pose proof Ms as [_ _ _ ? _ ?]. pose proof (rwf_c _ _ W). pose proof (rwf_end _ _ W).
       unfold sbA. change (rg_lookup (r_rgs s1) SB_IDX) with sb_start. rewrite u64_small; [lia|]. rewrite Ebs in *. unfold_cfg.
       change SB_REGION_EXPAND_SIZE with 1073741824 in *. lia. }
  change (SB_REGION_EXPAND_SIZE / SBSIZE - 1) with 16383. crun E. reflexivity.
Qed.

(** [BaseMeta()] on the mapped regions. *)
Lemma BaseMeta_ctor_ok t s rd rs rm ci : r_rgs s = mkRegions [Some rd; Some rs; rm] [bd + PAGESIZE; 0; 0] ci ->
  base_addr rd = bd -> FILESIZE rd = file_size (n * DESCSIZE) -> base_addr rs = bs -> FILESIZE rs = file_size (n * SBSIZE) ->
  region_wf rs (bs + PAGESIZE) ->
  if warm_room then
    exists rs' dm md tr, let g := mkRegions [Some rd; Some rs'; rm] [bd + PAGESIZE; sb_start; 0] ci in
      BaseMeta_ctor t s = Ok (tt, mkR g (r_mem s) dm md (r_tc s) (r_filters s) (r_init s) tr) /\
      base_addr rs' = bs /\ FILESIZE rs' = file_size (n * SBSIZE) /\ region_wf rs' (sb_start + SB_REGION_EXPAND_SIZE) /\
      length (heaps md) = Z.to_nat MAX_SZ_IDX /\
      (forall j, 0 <= j < MAX_SZ_IDX -> heaps md !! Z.to_nat j = Some (mkHeap 0 j)) /\
      avail_ok g dm (avail_sb md) (seqZ 1 16383) /\ roots md = replicate (Z.to_nat MAX_ROOTS) 0 /\ dirty_mtx md = Locked
  else BaseMeta_ctor t s = Err AssertFail.
Proof.
  intros Eg Ebd Efd Ebs Efs W. unfold BaseMeta_ctor. cpure. unfold set_dirty. cpure. cbn [trylock dirty_mtx r_md with_md]. do 2 cpure. cpure.
  match goal with |- context [cbind (cfor (seqZ 0 MAX_SZ_IDX) _) _ ?st] => set (s1 := st) end.
  destruct (heaps_loop t (Z.to_nat MAX_SZ_IDX) 0 s1) as (hs & tr1 & E1 & L1 & H1 & _); [lia|reflexivity|].
  change (Z.of_nat (Z.to_nat MAX_SZ_IDX)) with MAX_SZ_IDX in E1, H1. rewrite Z.add_0_l in H1. crun E1.
  match goal with |- context [cbind (cfor (seqZ 0 MAX_ROOTS) _) _ ?st] => set (s2 := st) end.
  destruct (roots_loop t (seqZ 0 MAX_ROOTS) s2) as (rt & tr2 & E2 & L2 & F2). crun E2.
  assert (Er : rt = replicate (Z.to_nat MAX_ROOTS) 0).
  { change (length (roots (r_md s2))) with (length (replicate (Z.to_nat MAX_ROOTS) 0)) in L2. rewrite length_replicate in L2.
    rewrite <- L2. symmetry. apply replicate_as_Forall. split; [done|]. apply F2. apply Forall_replicate. done. }
  match goal with |- context [cbind (expand_loop _ _ _ _) _ ?st] => set (s3 := st) end.
  assert (Eg1 : get_region (r_rgs s3) SB_IDX = Some rs) by (change (r_rgs s3) with (r_rgs s); rewrite Eg; reflexivity).
  pose proof (warm_expand s3 rs Ebs Efs W Eg1) as X. change (r_rgs s3) with (r_rgs s) in X. rewrite Eg in X.
  match goal with |- context [cbind (expand_loop _ _ _ _) ?k s3] => set (K := k) end.
  destruct warm_room; [|now rewrite (cbind_Err _ _ _ _ X)].
  destruct X as (rs1 & tr3 & E3 & Eb1 & EF1 & W1). rewrite (cbind_Ok _ _ _ _ _ E3). subst K. cbv beta.
  match type of E3 with _ = Ok (_, ?st) => set (s4 := st) in * end.
  destruct (warm_organize s4 rd rs1 rm ci) as (rs' & dm & w & tr & E & Eb & EF & W' & A); [reflexivity|reflexivity|exact Ebd|exact Efd|exact Eb1|exact EF1|exact W1|].
  exists rs', dm, (set_avail_sb w (r_md s4)), tr. cbv zeta. split; [exact E|]. split; [done|]. split; [done|]. split; [done|].
  split; [exact (eq_trans L1 (length_replicate _ _))|]. split; [exact H1|]. split; [exact A|]. split; [exact Er|reflexivity].
Qed.

(** Everything [_RP_init] establishes on a new heap. *)
Record fresh_heap (s : rst) : Prop := {
  fh_inv : inv s fresh_ghost;
  fh_init : r_init s = true;
  fh_roots : roots (r_md s) = replicate (Z.to_nat MAX_ROOTS) 0;
  fh_dirty : dirty_mtx (r_md s) = Locked;
  fh_mem : r_mem s = ∅;
  fh_regions : exists rd rs rm, r_rgs s = mkRegions [Some rd; Some rs; Some rm] [bd + PAGESIZE; sb_start; bm + PAGESIZE] 3 /\
    base_addr rs = bs /\ FILESIZE rs = file_size (n * SBSIZE) }.

Lemma RP_init_ok :
  if warm_room then exists s, _RP_init disk_empty size (os_d, os_s, os_m) = Ok (0, s) /\ fresh_heap s
  else _RP_init disk_empty size (os_d, os_s, os_m) = Err AssertFail.
Proof.
  pose proof num_sb_range as Hn.
  destruct (RegionManager_new_ok os_d bd (n * DESCSIZE) Md) with (imm := true) as (rd & tr1 & E1 & Ebd & Efd & Hd); [unfold_cfg; lia|now apply Z.mod_mul|].
  destruct (RegionManager_new_ok os_s bs (n * SBSIZE) Ms) with (imm := false) as (rs & tr2 & E2 & Ebs & Efs & Ws);
    [unfold_cfg; lia|change SBSIZE with (1024 * CACHELINE_SIZE); rewrite Z.mul_assoc; now apply Z.mod_mul|].
  destruct (RegionManager_new_ok os_m bm sizeof_BaseMeta Mm) with (imm := true) as (rm & tr3 & E3 & Ebm & Efm & Hm); [done|done|].
  unfold _RP_init. rewrite (proj2 (Z.ltb_lt _ _)), (proj2 (Z.leb_le _ _)) by lia. cbn [andb negb disk_empty k_desc k_sb k_meta k_descs k_bytes k_md remapped_bytes].
  assert (C1 : create Regions_new None (n * DESCSIZE) true true os_d = Ok (mkRegions [Some rd; None; None] [bd + PAGESIZE; 0; 0] 1, tr1))
    by (unfold create; rewrite E1, Hd; reflexivity).
  assert (C2 : create (mkRegions [Some rd; None; None] [bd + PAGESIZE; 0; 0] 1) None (n * SBSIZE) true false os_s =
               Ok (mkRegions [Some rd; Some rs; None] [bd + PAGESIZE; 0; 0] 2, tr2)) by (unfold create; rewrite E2; reflexivity).
  rewrite C1, C2, E3, Hm, !kmap_empty. cbv zeta. change (bool_decide (is_Some None)) with false. cbv iota.
  match goal with |- context [BaseMeta_ctor _ ?st] => set (s0 := st) end.
  pose proof (BaseMeta_ctor_ok (bm + PAGESIZE) s0 rd rs (Some rm) 2 eq_refl Ebd Efd Ebs Efs Ws) as C. cbv zeta in C.
  destruct warm_room; [|now rewrite C].
  destruct C as (rs' & dm & md & tr & E & Eb' & EF' & W' & Lh & Hh & A & Rt & Dm). rewrite E. eexists. split; [reflexivity|].
  pose proof Mm as [_ _ _ ? _ Hme]. change (file_size sizeof_BaseMeta) with 16384 in Hme.
  constructor; [|reflexivity|exact Rt|exact Dm|reflexivity|now exists rd, rs', rm].
  apply (inv_fresh _ rd rs' (avail_sb md)); [|reflexivity|exact Lh|exact Hh|reflexivity|].
  - apply geo_fresh; try done. unfold PAGESIZE. lia.
  - revert A. apply avail_ok_desc. reflexivity.
Qed.

End Init.

Lemma fresh_no_live g b sz : ~ live g fresh_ghost b sz.
Proof. intros L. destruct L; discriminate. Qed.

(** The byte [__remap_persistent_region] zeroes can belong to a block: with the smallest file,
    mapped two pages below a multiple of the superblock size, the superblocks reach up to the end
    of the file, and reopening the heap clears the last byte of the last one. *)
Definition tight_region : RegionManager :=
  mkRM (file_size MIN_SB_REGION_SIZE) (2 ^ 41 - 8192) true
    (mkFile (to_pptr_off (2 ^ 41 + 2 ^ 30) (2 ^ 41 - 8192)) 8192 (file_size MIN_SB_REGION_SIZE)).
Definition tight_geo : Regions := mkRegions [None; Some tight_region; None] [2 ^ 40; 2 ^ 41; 2 ^ 42] 3.

Example remap_clears_byte m :
  warm_room MIN_SB_REGION_SIZE (2 ^ 41 - 8192) = true /\
  rd8 (remapped_bytes (mkDisk None (Some (file tight_region)) None ∅ ∅ BaseMeta_zero) tight_geo m)
    (sbA tight_geo 16384 - 1) = 0.
Proof.
  split; [reflexivity|]. unfold rd8. change (sbA tight_geo 16384 - 1) with (2 ^ 41 - 8192 + (FILESIZE tight_region - 1)).
  unfold remapped_bytes. cbn [k_sb]. change (get_region tight_geo SB_IDX) with (Some tight_region). cbv iota.
  now rewrite (lookup_insert_eq m).
Qed.
