(* ===== verification/RallocClient.v ===== *)
(** * Programs that use a Ralloc heap

    The program may store to the blocks it holds; the allocator's invariant does not depend on
    what is in them. This file has the facts about blocks in the program's hands that the
    clients of [do_malloc] and [do_free] need, and which parts of the state the allocator
    leaves alone. *)

From stdpp Require Import functions.
From S2P Require Import Prelude Pptr ByteMem SizeClass Regions Ralloc RallocInv RallocRun RallocMalloc RallocFill RallocFree.

(** ** Blocks in the program's hands *)

Lemma ld_pptr_ext m m' x : (forall a, x <= a < x + 8 -> rd8 m' a = rd8 m a) -> ld_pptr m' x = ld_pptr m x.
Proof.
  intros E. unfold ld_pptr, rd64. f_equal. cut (forall n a, x <= a -> a + Z.of_nat n <= x + 8 -> rd n m' a = rd n m a);
    [intros H; apply H; lia|].
  induction n as [|n IH]; intros a H1 H2; [done|]. cbn [rd]. rewrite E, IH by lia. done.
Qed.

Lemma free_not_live s G i sc fl j a : inv s G -> 1 <= i < gn G -> gk G i = KSmall sc fl -> j ∈ fl -> in_live (r_rgs s) G a ->
  a < blk (r_rgs s) sc i j \/ blk (r_rgs s) sc i j + bsz sc <= a.
Proof.
  intros I Hi Hk Hj (b & sz & L & Ha). destruct (inv_small _ _ I i sc fl Hi Hk) as [Hc (_ & _ & _ & _ & _ & Rf & _)]. pose proof (Rf j Hj) as Rj.
  pose proof (blk_offset (r_rgs s) sc i j Hc Rj).
  destruct L as [i' sc' fl' j' H1 H2 H3 H4 H5|i' c H1 H2].
  - destruct (inv_small _ _ I i' sc' fl' H1 H2) as [Hc' _]. destruct (decide (i = i')) as [<-|N].
    + rewrite Hk in H2. injection H2 as <- <-. destruct (blk_apart (r_rgs s) sc i j i j' Hc Rj H3) as [[_ <-]|?]; [done|lia].
    + pose proof (blk_offset (r_rgs s) sc' i' j' Hc' H3). unfold_cfg. lia.
  - destruct (inv_large _ _ I i' c H1 H2) as (? & ? & _ & Bd). assert (i <> i') by congruence.
    destruct (decide (i' < i < i' + c)) as [L|L]; [rewrite (Bd i L) in Hk; discriminate|]. unfold_cfg. lia.
Qed.

(** Stores to the program's blocks do not disturb the allocator. *)
Lemma inv_user_store s G m : inv s G -> (forall a, ~ in_live (r_rgs s) G a -> rd8 m a = rd8 (r_mem s) a) -> inv (with_mem m s) G.
Proof.
  intros I E. constructor; rproj; try solve [apply I].
  - intros i sc fl Hi Hk. destruct (inv_small _ _ I i sc fl Hi Hk) as [Hc Sm]. split; [done|]. revert Sm. apply small_ok_ext; [done|].
    intros j Hj. apply ld_pptr_ext. intros a Ha. apply E. intros L. pose proof (free_not_live s G i sc fl j a I Hi Hk Hj L).
    pose proof (class_facts sc Hc). lia.
  - intros sc Hc. apply (cache_ok_ext (r_mem s) _ (r_tc s)); [|done|now apply I]. intros b Hb. apply ld_pptr_ext. intros a Ha. apply E. intros L.
    pose proof (cached_not_live s G sc b a I Hc Hb L). pose proof (class_facts sc Hc). lia.
Qed.

Lemma live_facts s G b sz : inv s G -> live (r_rgs s) G b sz ->
  0 < b /\ b + sz < 2 ^ 47 /\ 8 <= sz < 2 ^ 32 /\ b mod 8 = 0 /\ rg_lookup (r_rgs s) SB_IDX < b /\
  in_range (r_rgs s) SB_IDX b = true /\ mapped s SB_IDX b sz = true.
Proof.
  intros I L. destruct (inv_geo _ _ I) as (rd & rs & Gg). pose proof (geo_S _ _ _ _ Gg) as [HS Em]. pose proof (geo_wf _ _ _ _ Gg) as [? ? ? _].
  pose proof (geo_base _ _ _ _ Gg).
  assert (A8 : forall i, sbA (r_rgs s) i mod 8 = 0).
  { intros i. unfold_cfg. apply Z.mod_divide in Em as [q ->]; [|lia]. replace (q * 65536 + 65536 * i) with ((q + i) * 8192 * 8) by lia. now apply Z.mod_mul. }
  unfold in_range, mapped. rewrite (geo_rs _ _ _ _ Gg), (curr_addr_sb Gg), !andb_true_iff, !Z.leb_le, Z.ltb_lt.
  destruct L as [i sc fl j H1 H2 H3 H4 H5|i c H1 H2].
  - destruct (inv_small _ _ I i sc fl H1 H2) as [Hc _]. pose proof (class_facts sc Hc) as Cf. destruct (blk_offset (r_rgs s) sc i j Hc H3) as (-> & ? & ?).
    specialize (A8 i). split_and!; try (unfold_cfg; lia).
    rewrite Z.add_mod, A8, Z.mul_mod, (proj1 (proj2 Cf)), Z.mul_0_r by lia. done.
  - destruct (inv_large _ _ I i c H1 H2) as (? & ? & _ & _). specialize (A8 i). split_and!; try (unfold_cfg; lia).
Qed.

(** What [RP_malloc_size] answers. *)
Lemma live_block_size s G b sz : inv s G -> live (r_rgs s) G b sz -> RP_malloc_size b s = Ok (sz, s) /\ block_size (descr s (desc_lookup (r_rgs s) b)) = sz.
Proof.
  intros I L. destruct (inv_geo _ _ I) as (rd & rs & Gg).
  assert (D : exists i, 1 <= i < gn G /\ desc_lookup (r_rgs s) b = daA (r_rgs s) i /\ block_size (dget (r_desc s) (daA (r_rgs s) i)) = sz).
  { destruct L as [i sc fl j H1 H2 H3 H4 H5|i c H1 H2]; exists i; (split; [done|]).
    - destruct (inv_small _ _ I i sc fl H1 H2) as [Hc (_ & Eb & _)]. split; [now apply (desc_lookup_blk _ _ _ _ _ _ _ Gg)|done].
    - destruct (inv_large _ _ I i c H1 H2) as (_ & _ & (_ & Eb & _) & _). split; [apply (desc_lookup_sb0 Gg); lia|done]. }
  destruct D as (i & Hi & Ed & Eb). unfold RP_malloc_size. cpure. rewrite Ed. crun (get_d_ok s i Gg ltac:(lia)). rewrite Eb. split; [done|exact Eb].
Qed.

Lemma in_live_byte s G b sz a : live (r_rgs s) G b sz -> b <= a < b + sz -> in_live (r_rgs s) G a.
Proof. intros L Ha. now exists b, sz. Qed.

(** ** What the allocator leaves alone *)

(** Roots, filters, the dirty flag and the initialisation flag. *)
Definition fixed_part (s : rst) : bool * list bool * list Z * mutex :=
  (r_init s, r_filters s, roots (r_md s), dirty_mtx (r_md s)).

Definition keeps {A} (m : stM rst A) : Prop := forall s a s', m s = Ok (a, s') -> fixed_part s' = fixed_part s.

Lemma keeps_bind {A B} (m : stM rst A) (k : A -> stM rst B) : keeps m -> (forall a, keeps (k a)) -> keeps (cbind m k).
Proof.
  intros Hm Hk s b s' E. unfold cbind in E. destruct (m s) as [[a s1]|e] eqn:Em; [|done].
  rewrite (Hk a _ _ _ E). now apply (Hm s a s1).
Qed.

Lemma keeps_cfor {A} (l : list A) (body : A -> stM rst unit) : (forall a, keeps (body a)) -> keeps (cfor l body).
Proof. intros H. induction l as [|a l IH]; [intros s u s' E; now injection E as <- <-|]. apply keeps_bind; [done|now intros _]. Qed.

Create HintDb keeps.
#[export] Hint Resolve keeps_bind keeps_cfor : keeps.

(** A primitive whose outcome is read off its definition. *)
Ltac keeps_prim := let E := fresh in intros ? ? ? E; cbv [cret cfail cgets cmod cassert] in E;
  repeat (match type of E with context [match ?x with _ => _ end] => destruct x eqn:?; try discriminate E end);
  first [discriminate E | injection E as <- <-; reflexivity].

Lemma keeps_ret {A} (a : A) : keeps (cret a). Proof. keeps_prim. Qed.
Lemma keeps_fail {A} e : keeps (cfail (A := A) e). Proof. keeps_prim. Qed.
Lemma keeps_gets {A} (f : rst -> A) : keeps (cgets f). Proof. keeps_prim. Qed.
Lemma keeps_assert b : keeps (cassert b). Proof. destruct b; keeps_prim. Qed.
Lemma keeps_mod f : (forall s, fixed_part (f s) = fixed_part s) -> keeps (cmod f).
Proof. intros H s a s' E. injection E as <- <-. apply H. Qed.
Lemma keeps_ld_link p : keeps (ld_link p). Proof. unfold ld_link. keeps_prim. Qed.
Lemma keeps_st_link p v : keeps (st_link p v). Proof. unfold st_link. keeps_prim. Qed.
Lemma keeps_get_d a : keeps (get_d a). Proof. unfold get_d. keeps_prim. Qed.
Lemma keeps_put_d a d : keeps (put_d a d). Proof. unfold put_d. keeps_prim. Qed.
Lemma keeps_get_bin i : keeps (get_bin i). Proof. unfold get_bin. keeps_prim. Qed.
Lemma keeps_put_bin i b : keeps (put_bin i b). Proof. apply keeps_mod. reflexivity. Qed.
Lemma keeps_heap_index p : keeps (heap_index p). Proof. unfold heap_index. keeps_prim. Qed.
Lemma keeps_get_heap i : keeps (get_heap i). Proof. unfold get_heap. keeps_prim. Qed.
Lemma keeps_sb_region : keeps sb_region. Proof. unfold sb_region. keeps_prim. Qed.
Lemma keeps_heap_cas i e d : keeps (heap_cas i e d).
Proof. unfold heap_cas. keeps_prim. Qed.
Lemma keeps_avail_cas e d : keeps (avail_cas e d).
Proof. unfold avail_cas. keeps_prim. Qed.
#[export] Hint Resolve keeps_ret keeps_fail keeps_gets keeps_assert keeps_mod keeps_ld_link keeps_st_link keeps_get_d keeps_put_d
  keeps_get_bin keeps_put_bin keeps_heap_index keeps_get_heap keeps_sb_region keeps_heap_cas keeps_avail_cas : keeps.

(** Walk through a computation. *)
Ltac keeps := repeat match goal with
  | |- keeps (cbind _ _) => apply keeps_bind; [|intros ?]
  | |- keeps (cmod _) => apply keeps_mod; intros ?; reflexivity
  | |- keeps (match ?x with _ => _ end) => destruct x
  | |- keeps (let _ := _ in _) => cbv zeta
  | |- keeps _ => solve [auto with keeps]
  end.

Lemma keeps_upd_d a f : keeps (upd_d a f). Proof. unfold upd_d. keeps. Qed.
Lemma keeps_construct a : keeps (construct a). Proof. unfold construct. keeps. Qed.
Lemma keeps_push_block sc b : keeps (push_block sc b). Proof. unfold push_block. keeps. Qed.
Lemma keeps_push_list sc b l : keeps (push_list sc b l). Proof. unfold push_list. keeps. Qed.
Lemma keeps_pop_block sc : keeps (pop_block sc). Proof. unfold pop_block. keeps. Qed.
Lemma keeps_pop_list sc b l : keeps (pop_list sc b l). Proof. unfold pop_list. keeps. Qed.
Lemma keeps_compute_idx a b c : keeps (compute_idx a b c). Proof. unfold compute_idx. keeps. Qed.
#[export] Hint Resolve keeps_upd_d keeps_construct keeps_push_block keeps_push_list keeps_pop_block keeps_pop_list keeps_compute_idx : keeps.

(** A loop with fuel keeps what its body keeps. *)
Ltac keeps_loop := match goal with |- forall (fuel : nat), _ => intros fuel; induction fuel as [|fuel IH]; intros; cbn; [apply keeps_fail|keeps; try apply IH] end.

Lemma keeps_heap_push_partial_loop : forall fuel i d o, keeps (heap_push_partial_loop fuel i d o). Proof. keeps_loop. Qed.
Lemma keeps_heap_pop_partial_loop : forall fuel i o, keeps (heap_pop_partial_loop fuel i o). Proof. keeps_loop. Qed.
Lemma keeps_avail_push_loop : forall fuel a b o, keeps (avail_push_loop fuel a b o). Proof. keeps_loop. Qed.
#[export] Hint Resolve keeps_heap_push_partial_loop keeps_heap_pop_partial_loop keeps_avail_push_loop : keeps.
Lemma keeps_heap_push_partial d : keeps (heap_push_partial d). Proof. unfold heap_push_partial. keeps. Qed.
Lemma keeps_heap_pop_partial i : keeps (heap_pop_partial i). Proof. unfold heap_pop_partial. keeps. Qed.
Lemma keeps_organize_sb_list a n : keeps (organize_sb_list a n).
Proof. unfold organize_sb_list. keeps; try (apply keeps_cfor; intros ?; keeps); unfold avail_load; keeps. Qed.
Lemma keeps_small_sb_retire a n : keeps (small_sb_retire a n). Proof. unfold small_sb_retire, avail_load. keeps. Qed.
#[export] Hint Resolve keeps_heap_push_partial keeps_heap_pop_partial keeps_organize_sb_list keeps_small_sb_retire : keeps.
Lemma keeps_small_sb_expand : keeps small_sb_expand. Proof. unfold small_sb_expand, avail_load. keeps. Qed.
#[export] Hint Resolve keeps_small_sb_expand : keeps.
Lemma keeps_small_sb_alloc_loop : forall fuel o, keeps (small_sb_alloc_loop fuel o). Proof. keeps_loop. Qed.
#[export] Hint Resolve keeps_small_sb_alloc_loop : keeps.
Lemma keeps_small_sb_alloc n : keeps (small_sb_alloc n). Proof. unfold small_sb_alloc, avail_load. keeps. Qed.
Lemma keeps_expand_loop : forall fuel i a n, keeps (expand_loop fuel i a n). Proof. keeps_loop. Qed.
#[export] Hint Resolve keeps_small_sb_alloc keeps_expand_loop : keeps.
Lemma keeps_expand_get_large_sb n : keeps (expand_get_large_sb n). Proof. unfold expand_get_large_sb. keeps. Qed.
Lemma keeps_large_sb_retire a n : keeps (large_sb_retire a n). Proof. unfold large_sb_retire. keeps. Qed.
Lemma keeps_anchor_cas d o n : keeps (anchor_cas d o n). Proof. unfold anchor_cas. keeps. Qed.
#[export] Hint Resolve keeps_expand_get_large_sb keeps_large_sb_retire keeps_anchor_cas : keeps.
Lemma keeps_reserve_loop : forall fuel i d a b o, keeps (reserve_loop fuel i d a b o). Proof. keeps_loop. Qed.
#[export] Hint Resolve keeps_reserve_loop : keeps.
Lemma keeps_malloc_from_partial : forall fuel sc, keeps (malloc_from_partial fuel sc). Proof. keeps_loop. Qed.
Lemma keeps_flush_scan : forall fuel a b c d e, keeps (flush_scan fuel a b c d e). Proof. keeps_loop. Qed.
Lemma keeps_flush_anchor_loop : forall fuel a b c d e f g, keeps (flush_anchor_loop fuel a b c d e f g). Proof. keeps_loop. Qed.
Lemma keeps_malloc_from_newsb sc : keeps (malloc_from_newsb sc). Proof. unfold malloc_from_newsb. keeps; try (apply keeps_cfor; intros ?; keeps). Qed.
#[export] Hint Resolve keeps_malloc_from_partial keeps_flush_scan keeps_flush_anchor_loop keeps_malloc_from_newsb : keeps.
Lemma keeps_fill_cache sc : keeps (fill_cache sc). Proof. unfold fill_cache. keeps. Qed.
Lemma keeps_flush_one sc : keeps (flush_one sc). Proof. unfold flush_one. keeps. Qed.
#[export] Hint Resolve keeps_fill_cache keeps_flush_one : keeps.
Lemma keeps_flush_loop : forall fuel sc, keeps (flush_loop fuel sc). Proof. keeps_loop. Qed.
#[export] Hint Resolve keeps_flush_loop : keeps.
Lemma keeps_flush_cache sc : keeps (flush_cache sc). Proof. unfold flush_cache. keeps. Qed.
#[export] Hint Resolve keeps_flush_cache : keeps.

Lemma keeps_do_malloc size : keeps (do_malloc size). Proof. unfold do_malloc. keeps. Qed.
Lemma keeps_do_free p : keeps (do_free p). Proof. unfold do_free. keeps. Qed.
