(* ===== verification/RallocSpec.v ===== *)
(** * Ralloc as a memory allocator

    An abstract allocator owns a set of disjoint blocks and their contents. [exec] runs the
    requests of a program on the Ralloc state; [refines] relates the state to the abstract
    allocator, and every legal request keeps them related. *)

From S2P Require Import Prelude Pptr ByteMem SizeClass Regions Ralloc RallocInv RallocRun RallocMalloc.
From S2P Require Import RallocFill RallocFree RallocInit RallocClient.

(** ** Abstract allocator *)

Inductive request := Malloc (size : Z) | Free (p : Z) | Load (a : Z) | Store (a v : Z).
Inductive answer := Pointer (p : Z) | Byte (v : Z) | Done.

(** Blocks by address, with their sizes, and the bytes of memory. *)
Record astate := mkA { a_blocks : gmap Z Z; a_bytes : Z -> Z }.

Definition owned (A : astate) (a : Z) : Prop := exists b sz, a_blocks A !! b = Some sz /\ b <= a < b + sz.

Definition set_byte (f : Z -> Z) (a v : Z) : Z -> Z := fun x => if decide (x = a) then v else f x.

Inductive spec (A : astate) : request -> answer -> astate -> Prop :=
| spec_malloc size p bs f :
    size <= bs -> 8 <= bs -> 4 * bs <= 5 * size + 32 \/ MAX_SZ < size /\ bs < size + SBSIZE ->
    0 < p -> p mod 8 = 0 ->
    (forall b sz, a_blocks A !! b = Some sz -> p + bs <= b \/ b + sz <= p) ->
    (forall a, owned A a -> f a = a_bytes A a) ->
    spec A (Malloc size) (Pointer p) (mkA (<[p := bs]> (a_blocks A)) f)
| spec_free p bs : a_blocks A !! p = Some bs -> spec A (Free p) Done (mkA (delete p (a_blocks A)) (a_bytes A))
| spec_free_null : spec A (Free 0) Done A
| spec_load a : owned A a -> spec A (Load a) (Byte (a_bytes A a)) A
| spec_store a v : owned A a -> spec A (Store a v) Done (mkA (a_blocks A) (set_byte (a_bytes A) a v)).

(** What a program may ask. Requests of nearly 4 GiB and more are left out: the size of a large
    block is kept in 32 bits. *)
Definition legal (A : astate) (q : request) : Prop :=
  match q with
  | Malloc size => 0 <= size <= SBSIZE * 65535
  | Free p => p = 0 \/ is_Some (a_blocks A !! p)
  | Load a => owned A a
  | Store a v => owned A a /\ 0 <= v < 256
  end.

(** ** Requests on the Ralloc state *)

Definition load_byte (a : Z) : stM rst Z := fun s =>
  if mapped s SB_IDX a 1 then Ok (rd8 (r_mem s) a, s) else Err UB_access.
Definition store_byte (a v : Z) : stM rst unit := fun s =>
  if mapped s SB_IDX a 1 then Ok (tt, with_mem (<[a := v]> (r_mem s)) s) else Err UB_access.

Definition exec (q : request) : stM rst answer :=
  match q with
  | Malloc size => p <- RP_malloc size; cret (Pointer p)
  | Free p => RP_free p;; cret Done
  | Load a => v <- load_byte a; cret (Byte v)
  | Store a v => store_byte a v;; cret Done
  end.

(** The free space a request may need. *)
Definition demand (size : Z) : Z := if size <=? MAX_SZ then SB_REGION_EXPAND_SIZE else SBSIZE * sb_needed size.

(** The books of the program: a new block has the size [RP_malloc_size] tells, and the bytes it
    is found with. *)
Definition track (s' : rst) (A : astate) (q : request) (r : answer) : astate :=
  match q, r with
  | Malloc _, Pointer p =>
      let bs := block_size (descr s' (desc_lookup (r_rgs s') p)) in
      mkA (<[p := bs]> (a_blocks A)) (fun a => if decide (p <= a < p + bs) then rd8 (r_mem s') a else a_bytes A a)
  | Free p, _ => if p =? 0 then A else mkA (delete p (a_blocks A)) (a_bytes A)
  | Store a v, _ => mkA (a_blocks A) (set_byte (a_bytes A) a v)
  | _, _ => A
  end.

Definition refines (s : rst) (A : astate) : Prop :=
  r_init s = true /\
  exists G, inv s G /\ gow G = None /\
    (forall b sz, a_blocks A !! b = Some sz <-> live (r_rgs s) G b sz) /\
    (forall a, owned A a -> rd8 (r_mem s) a = a_bytes A a).

(** ** The simulation *)

Lemma owned_live s A G a : (forall b sz, a_blocks A !! b = Some sz <-> live (r_rgs s) G b sz) -> owned A a <-> in_live (r_rgs s) G a.
Proof. intros E. split; intros (b & sz & H & Ha); exists b, sz; (split; [now apply E|done]). Qed.

Lemma owned_mapped s A a : refines s A -> owned A a -> mapped s SB_IDX a 1 = true.
Proof.
  intros (_ & G & I & _ & E & _) (b & sz & Hb & Ha). apply E in Hb. apply (live_facts s G b sz I) in Hb as (_ & _ & _ & _ & _ & _ & M).
  unfold mapped in *. destruct (get_region _ _); [|done]. rewrite andb_true_iff, !Z.leb_le in *. lia.
Qed.

(** A malloc that succeeded, whatever its size. *)
Lemma do_malloc_cases s G size : inv s G -> gow G = None -> 0 <= size <= SBSIZE * 65535 ->
  (exists p s' G' bs, do_malloc size s = Ok (p, s') /\ allocated s s' G G' p bs /\ size <= bs /\
     (4 * bs <= 5 * size + 32 \/ MAX_SZ < size /\ bs < size + SBSIZE)) \/
  (do_malloc size s = Err AssertFail /\ room s (demand size) = false).
Proof.
  intros I Ho Hs. unfold demand. destruct (Z.leb_spec size MAX_SZ) as [L|L].
  - destruct (do_malloc_small s G size I Ho ltac:(lia)) as [(p & s' & G' & bs & E & A & H1 & H2 & _)|[E R]]; [left|right; done].
    exists p, s', G', bs. auto.
  - destruct (inv_geo _ _ I) as (rd & rs & Gg). pose proof (do_malloc_large s G I Ho rd rs Gg size L ltac:(lia)) as H. cbv zeta in H.
    pose proof (sb_needed_range size L ltac:(lia)) as [_ B].
    destruct (room s (SBSIZE * sb_needed size)); [left|right; done]. destruct H as (s' & E & A & _).
    exists (sbA (r_rgs s) (gn G)), s'. do 2 eexists. split; [exact E|]. split; [exact A|]. lia.
Qed.

Lemma RP_malloc_run size s : r_init s = true -> RP_malloc size s = do_malloc size s.
Proof. intros E. unfold RP_malloc. cpure. rewrite E. now cpure. Qed.
Lemma RP_free_run p s : r_init s = true -> RP_free p s = do_free p s.
Proof. intros E. unfold RP_free. cpure. rewrite E. now cpure. Qed.

Lemma keeps_init {A} (m : stM rst A) s a s' : keeps m -> m s = Ok (a, s') -> r_init s' = r_init s.
Proof. intros K E. now injection (K s a s' E). Qed.

(** The abstract side of an allocation. *)
Lemma allocated_spec s s' G G' A p bs size : allocated s s' G G' p bs -> r_init s' = true ->
  (forall b sz, a_blocks A !! b = Some sz <-> live (r_rgs s) G b sz) -> (forall a, owned A a -> rd8 (r_mem s) a = a_bytes A a) ->
  size <= bs -> 4 * bs <= 5 * size + 32 \/ MAX_SZ < size /\ bs < size + SBSIZE ->
  let A' := track s' A (Malloc size) (Pointer p) in
  spec A (Malloc size) (Pointer p) A' /\ refines s' A'.
Proof.
  intros [I' Ho' Ea L New F] Hi E Eb H1 H2. cbv zeta. cbn [track].
  assert (Lp : live (r_rgs s') G' p bs) by (apply L; now right).
  pose proof (live_facts s' G' p bs I' Lp) as (P1 & _ & P3 & P4 & _). rewrite (proj2 (live_block_size s' G' p bs I' Lp)).
  assert (Dj : forall b sz, a_blocks A !! b = Some sz -> p + bs <= b \/ b + sz <= p).
  { intros b sz Hb. apply E in Hb. assert (Lb : live (r_rgs s') G' b sz) by (apply L; now left).
    destruct (live_disjoint s' G' p bs b sz I' Lp Lb) as [[<- <-]|?]; [now destruct (New bs)|lia]. }
  split; [constructor; try done; [lia|]|split; [done|]].
  - intros a (b & sz & Hb & Ha). rewrite decide_False; [done|]. pose proof (Dj b sz Hb). lia.
  - exists G'. split; [done|]. split; [done|]. split.
    + intros b sz. cbn [a_blocks]. rewrite L, <- E. destruct (decide (p = b)) as [<-|N].
      * rewrite lookup_insert_eq. split; [intros X; injection X as <-; now right|]. intros [X|[_ ->]]; [|done]. apply E in X. now destruct (New sz).
      * rewrite lookup_insert_ne by done. split; [now left|]. intros [X|[-> _]]; done.
    + intros a (b & sz & Hb & Ha). cbn [a_blocks a_bytes] in *. destruct (decide (p <= a < p + bs)); [done|].
      assert (Hb' : a_blocks A !! b = Some sz).
      { destruct (decide (p = b)) as [<-|N]; [rewrite lookup_insert_eq in Hb; injection Hb as <-; lia|now rewrite lookup_insert_ne in Hb]. }
      assert (O : owned A a) by now exists b, sz. rewrite F; [now apply Eb|]. now apply (owned_live s A G a E).
Qed.

Lemma freed_spec s s' G G' A p bs : freed s s' G G' p -> r_init s' = true -> a_blocks A !! p = Some bs -> p <> 0 ->
  (forall b sz, a_blocks A !! b = Some sz <-> live (r_rgs s) G b sz) -> (forall a, owned A a -> rd8 (r_mem s) a = a_bytes A a) ->
  let A' := track s' A (Free p) Done in spec A (Free p) Done A' /\ refines s' A'.
Proof.
  intros [I' Ho' Er L F] Hi Hp Np E Eb. cbv zeta. cbn [track]. rewrite (proj2 (Z.eqb_neq _ _) Np).
  split; [now apply (spec_free A p bs)|]. split; [done|]. exists G'. split; [done|]. split; [done|].
  assert (E' : forall b sz, delete p (a_blocks A) !! b = Some sz <-> live (r_rgs s') G' b sz).
  { intros b sz. rewrite Er, L, <- E, lookup_delete_Some. naive_solver. }
  split; [exact E'|]. intros a O. pose proof (proj1 (owned_live s' (mkA (delete p (a_blocks A)) (a_bytes A)) G' a E') O) as La.
  rewrite F by now rewrite <- Er. apply Eb. destruct O as (b & sz & Hb & Ha). cbn in Hb. apply lookup_delete_Some in Hb as [_ Hb]. now exists b, sz.
Qed.

Lemma store_spec s A a v : refines s A -> owned A a -> exists s', store_byte a v s = Ok (tt, s') /\ refines s' (track s' A (Store a v) Done).
Proof.
  intros R O. unfold store_byte. rewrite (owned_mapped s A a R O). eexists. split; [reflexivity|].
  destruct R as (Hi & G & I & Ho & E & Eb). split; [done|]. exists G. split.
  - apply inv_user_store; [done|]. intros x N. rewrite rd8_insert, decide_False; [done|]. intros <-. now apply N, (owned_live s A G a E).
  - split; [done|]. split; [done|]. intros x Ox. cbn [track a_bytes with_mem r_mem]. rewrite rd8_insert. unfold set_byte.
    destruct (decide (a = x)) as [<-|N]; [now rewrite decide_True|]. rewrite decide_False by congruence. now apply Eb.
Qed.

(** One request: the answer the abstract allocator may give, or no room for a malloc. *)
Lemma exec_step s A q : refines s A -> legal A q ->
  (exists r s', exec q s = Ok (r, s') /\ spec A q r (track s' A q r) /\ refines s' (track s' A q r)) \/
  (exec q s = Err AssertFail /\ exists size, q = Malloc size /\ room s (demand size) = false).
Proof.
  intros R Lq. pose proof R as (Hi & G & I & Ho & E & Eb). destruct q as [size|p|a|a v]; cbn [exec legal] in *.
  - destruct (do_malloc_cases s G size I Ho Lq) as [(p & s' & G' & bs & Er & Al & H1 & H2)|[Er Rm]].
    + left. exists (Pointer p), s'. assert (Er' := Er). rewrite <- RP_malloc_run in Er' by done. crun Er'. split; [done|].
      apply (allocated_spec s s' G G' A p bs); try done. now rewrite (keeps_init _ _ _ _ (keeps_do_malloc size) Er).
    + right. rewrite <- RP_malloc_run in Er by done. rewrite (cbind_Err _ _ _ _ Er). eauto.
  - left. destruct (decide (p = 0)) as [->|Np].
    + exists Done, s. assert (Er : RP_free 0 s = Ok (tt, s)) by (rewrite RP_free_run by done; reflexivity). crun Er.
      split; [done|]. cbn [track Z.eqb]. split; [constructor|done].
    + destruct Lq as [?|[bs Hp]]; [done|]. destruct (do_free_live s G p bs I Ho) as (s' & G' & Er & Fr); [now apply E|].
      exists Done, s'. assert (Er' := Er). rewrite <- RP_free_run in Er' by done. crun Er'. split; [done|].
      apply (freed_spec s s' G G' A p bs); try done. now rewrite (keeps_init _ _ _ _ (keeps_do_free p) Er).
  - left. exists (Byte (rd8 (r_mem s) a)), s. assert (Er : load_byte a s = Ok (rd8 (r_mem s) a, s)) by (unfold load_byte; now rewrite (owned_mapped s A a R Lq)).
    crun Er. split; [done|]. cbn [track]. split; [rewrite Eb by done; now constructor|done].
  - left. destruct Lq as [O _]. destruct (store_spec s A a v R O) as (s' & Er & R'). exists Done, s'. crun Er. split; [done|]. split; [now constructor|done].
Qed.

(** ** Programs *)

Definition empty_astate : astate := mkA ∅ (fun _ => 0).

(** The states of a program that opened the heap as [s0] and makes legal requests only, with
    its books. *)
Inductive reachable (s0 : rst) : rst -> astate -> Prop :=
| reach_start : reachable s0 s0 empty_astate
| reach_step s A q r s' : reachable s0 s A -> legal A q -> exec q s = Ok (r, s') -> reachable s0 s' (track s' A q r).

Lemma refines_fresh size bd bs bm s : fresh_heap size bd bs bm s -> refines s empty_astate.
Proof.
  intros F. split; [apply F|]. exists fresh_ghost. split; [apply F|]. split; [done|]. split.
  - intros b sz. cbn. rewrite lookup_empty. split; [done|]. intros L. now apply fresh_no_live in L.
  - intros a (b & sz & Hb & _). cbn in Hb. now rewrite lookup_empty in Hb.
Qed.

Lemma reachable_refines s0 s A : refines s0 empty_astate -> reachable s0 s A -> refines s A.
Proof.
  intros R0. induction 1 as [|s A q r s' _ IH Lq E]; [done|].
  destruct (exec_step s A q IH Lq) as [(r' & s1 & E' & _ & R')|[E' _]]; rewrite E in E'; [|discriminate]. now injection E' as <- <-.
Qed.

(** ** Flushing all caches *)

Lemma flush_all l : (forall sc, sc ∈ l -> class_idx sc) -> forall s G, inv s G -> gow G = None ->
  exists s' G', cfor l flush_cache s = Ok (tt, s') /\ quiet s s' G G' /\ r_rgs s' = r_rgs s /\
    (forall sc, sc ∈ l -> gca G' sc = []) /\ (forall sc, gca G sc = [] -> gca G' sc = []).
Proof.
  induction l as [|sc l IH]; intros Hl s G I Ho; cbn [cfor].
  - exists s, G. split; [done|]. split; [now constructor|]. split; [done|]. split; [intros sc Hs; now apply not_elem_of_nil in Hs|done].
  - destruct (flush_cache_inv s G sc I Ho ltac:(apply Hl; left)) as (s1 & G1 & E1 & Q1 & Er1 & C1 & Co1). crun E1.
    destruct (IH ltac:(intros k Hk; apply Hl; now right) s1 G1 (q_inv _ _ _ _ Q1) (q_own _ _ _ _ Q1)) as (s2 & G2 & E2 & Q2 & Er2 & C2 & Co2).
    exists s2, G2. split; [done|]. split; [now apply (quiet_trans _ s1 _ _ G1)|]. split; [congruence|]. split.
    + intros k [->|Hk]%elem_of_cons; [now apply Co2|now apply C2].
    + intros k Hk. apply Co2. destruct (decide (k = sc)) as [->|N]; [done|]. now rewrite Co1.
Qed.

(** ** Claims *)

(** The answers of a system that maps the three files where it is told. *)
Definition demo_os (b : Z) : os_answer := mkOS 0 0 0 b.

Lemma demo_maps b size : 0 < b -> b mod PAGESIZE = 0 -> b + file_size size < 2 ^ 47 -> maps_at (demo_os b) b size.
Proof. intros. now constructor. Qed.

(** C17: opening a heap whose files do not exist, for every admissible size and wherever
    the system maps the files. If the first gigabyte of superblocks fits behind the aligned start
    of the region, [_RP_init] returns 0 and leaves a heap that is well formed, in use, with null
    roots, and in which the program holds nothing; otherwise the constructor's [assert] stops the
    program. It always fits when the size is at least 64 KiB above the minimum; at the minimum of
    1 GiB, which [_RP_init] accepts, it does not fit when the file is mapped at a multiple of the
    superblock size. *)
Theorem RP_init_spec size os_d os_s os_m bd bs bm :
  MIN_SB_REGION_SIZE <= size < MAX_SB_REGION_SIZE ->
  maps_at os_d bd (size / SBSIZE * DESCSIZE) -> maps_at os_s bs (size / SBSIZE * SBSIZE) -> maps_at os_m bm sizeof_BaseMeta ->
  (if warm_room size bs then
     exists s, _RP_init disk_empty size (os_d, os_s, os_m) = Ok (0, s) /\ fresh_heap size bd bs bm s /\ refines s empty_astate
   else _RP_init disk_empty size (os_d, os_s, os_m) = Err AssertFail) /\
  (MIN_SB_REGION_SIZE + SBSIZE <= size -> warm_room size bs = true) /\
  (size = MIN_SB_REGION_SIZE -> bs mod SBSIZE = 0 -> warm_room size bs = false).
Proof.
  intros Hs Md Ms Mm. split; [|split].
  - pose proof (RP_init_ok size os_d os_s os_m bd bs bm Hs Md Ms Mm) as H. destruct (warm_room size bs); [|done].
    destruct H as (s & E & F). exists s. split; [done|]. split; [done|]. now apply (refines_fresh size bd bs bm).
  - now apply (warm_room_enough size os_s).
  - intros -> E. unfold warm_room. rewrite sb_file_size. apply Z.leb_gt. unfold sb_start. rewrite (align_up_unique _ SBSIZE (bs + SBSIZE)).
    + change (MIN_SB_REGION_SIZE / SBSIZE) with 16384. change SB_REGION_EXPAND_SIZE with 1073741824. unfold_cfg. lia.
    + done.
    + unfold_cfg. lia.
    + replace (bs + SBSIZE) with (bs + 1 * SBSIZE) by lia. now rewrite Z.mod_add.
Qed.

Lemma RP_init_spec_witness :
  (exists s, _RP_init disk_empty (2 ^ 32) (demo_os (2 ^ 40), demo_os (2 ^ 41), demo_os (2 ^ 42)) = Ok (0, s)) /\
  _RP_init disk_empty MIN_SB_REGION_SIZE (demo_os (2 ^ 40), demo_os (2 ^ 41), demo_os (2 ^ 42)) = Err AssertFail.
Proof.
  split.
  - destruct (RP_init_spec (2 ^ 32) (demo_os (2 ^ 40)) (demo_os (2 ^ 41)) (demo_os (2 ^ 42)) (2 ^ 40) (2 ^ 41) (2 ^ 42)) as (H & W & _);
      [split; [discriminate|reflexivity]|apply demo_maps; reflexivity..|].
    rewrite W in H by discriminate. destruct H as (s & E & _). now exists s.
  - destruct (RP_init_spec MIN_SB_REGION_SIZE (demo_os (2 ^ 40)) (demo_os (2 ^ 41)) (demo_os (2 ^ 42)) (2 ^ 40) (2 ^ 41) (2 ^ 42)) as (H & _ & W);
      [split; [discriminate|reflexivity]|apply demo_maps; reflexivity..|].
    now rewrite W in H.
Defined.

(** A heap to try the claims on. *)
Lemma demo_heap : exists s, _RP_init disk_empty (2 ^ 32) (demo_os (2 ^ 40), demo_os (2 ^ 41), demo_os (2 ^ 42)) = Ok (0, s) /\
  fresh_heap (2 ^ 32) (2 ^ 40) (2 ^ 41) (2 ^ 42) s.
Proof.
  pose proof (RP_init_ok (2 ^ 32) (demo_os (2 ^ 40)) (demo_os (2 ^ 41)) (demo_os (2 ^ 42)) (2 ^ 40) (2 ^ 41) (2 ^ 42)) as H.
  rewrite (warm_room_enough (2 ^ 32) (demo_os (2 ^ 41)) (2 ^ 41)) in H;
    [apply H; [split; [discriminate|reflexivity]|apply demo_maps; reflexivity..]|apply demo_maps; reflexivity|discriminate].
Qed.

Lemma demo_heap_room s : fresh_heap (2 ^ 32) (2 ^ 40) (2 ^ 41) (2 ^ 42) s -> room s SB_REGION_EXPAND_SIZE = true.
Proof.
  intros F. destruct (inv_geo _ _ (fh_inv _ _ _ _ _ F)) as (rd & rs & Gg). change SB_REGION_EXPAND_SIZE with (SBSIZE * 16384).
  rewrite (room_eq s fresh_ghost rd rs Gg). destruct (fh_regions _ _ _ _ _ F) as (rd' & rs' & rm & Eg & Eb & EF).
  pose proof (geo_rs _ _ _ _ Gg) as Er. rewrite Eg in Er. injection Er as <-. rewrite Eb, EF, Eg. reflexivity.
Qed.

(** One block of 100 bytes allocated, which leaves the rest of its superblock in the cache. *)
Lemma demo_malloc s : fresh_heap (2 ^ 32) (2 ^ 40) (2 ^ 41) (2 ^ 42) s ->
  exists r s', exec (Malloc 100) s = Ok (r, s') /\ refines s' (track s' empty_astate (Malloc 100) r) /\
    spec empty_astate (Malloc 100) r (track s' empty_astate (Malloc 100) r).
Proof.
  intros F. destruct (exec_step s empty_astate (Malloc 100)) as [(r & s' & E & Sp & R)|[_ (n & En & H)]];
    [now apply (refines_fresh (2 ^ 32) (2 ^ 40) (2 ^ 41) (2 ^ 42))|split; discriminate|now exists r, s'|].
  injection En as <-. change (demand 100) with SB_REGION_EXPAND_SIZE in H. now rewrite (demo_heap_room s F) in H.
Qed.

(** C3: Ralloc implements the abstract allocator. From related states, every legal
    request is answered as the abstract allocator may answer it, and the states stay related: a
    malloc returns an 8-aligned block at least as large as asked (and at most a quarter plus 8
    bytes larger, or less than a superblock larger), disjoint from every block the program holds
    and without changing their bytes; a free gives up exactly the block freed; loads and stores
    act on the bytes of the blocks. The only failure is a malloc that needs more superblocks when
    the region has no room for them, which fails an [assert]. *)
Theorem ralloc_refines s A q : refines s A -> legal A q ->
  (exists r s' A', exec q s = Ok (r, s') /\ spec A q r A' /\ refines s' A') \/
  (exec q s = Err AssertFail /\ exists size, q = Malloc size /\ room s (demand size) = false).
Proof.
  intros R L. destruct (exec_step s A q R L) as [(r & s' & H)|H]; [left|now right]. exists r, s', (track s' A q r). exact H.
Qed.

Lemma ralloc_refines_witness : exists s r s' A',
  _RP_init disk_empty (2 ^ 32) (demo_os (2 ^ 40), demo_os (2 ^ 41), demo_os (2 ^ 42)) = Ok (0, s) /\
  exec (Malloc 100) s = Ok (r, s') /\ spec empty_astate (Malloc 100) r A' /\ refines s' A'.
Proof.
  destruct demo_heap as (s & E & F).
  destruct (ralloc_refines s empty_astate (Malloc 100)) as [(r & s' & A' & H)|[_ (n & En & H)]];
    [now apply (refines_fresh (2 ^ 32) (2 ^ 40) (2 ^ 41) (2 ^ 42))|split; discriminate| |].
  - exists s, r, s', A'. split; [exact E|exact H].
  - injection En as <-. change (demand 100) with SB_REGION_EXPAND_SIZE in H. now rewrite (demo_heap_room s F) in H.
Defined.

(** C9: a program that opens a new heap and makes legal requests only is safe for as
    long as it runs. In every state it reaches the heap is well formed; the blocks on its books
    are pairwise disjoint, 8-aligned, of at least 8 bytes and inside the superblock region; what
    a load returns is what the books say was stored last; and the next legal request does not
    fail, unless it is a malloc and the region has no room. *)
Theorem client_safe size os_d os_s os_m bd bs bm s0 s A :
  MIN_SB_REGION_SIZE <= size < MAX_SB_REGION_SIZE ->
  maps_at os_d bd (size / SBSIZE * DESCSIZE) -> maps_at os_s bs (size / SBSIZE * SBSIZE) -> maps_at os_m bm sizeof_BaseMeta ->
  _RP_init disk_empty size (os_d, os_s, os_m) = Ok (0, s0) -> reachable s0 s A ->
  (exists G, inv s G /\ gow G = None) /\
  (forall b sz, a_blocks A !! b = Some sz -> b mod 8 = 0 /\ 8 <= sz /\ rg_lookup (r_rgs s) SB_IDX < b /\
     in_range (r_rgs s) SB_IDX b = true /\ mapped s SB_IDX b sz = true) /\
  (forall b sz b' sz', a_blocks A !! b = Some sz -> a_blocks A !! b' = Some sz' -> b = b' \/ b + sz <= b' \/ b' + sz' <= b) /\
  (forall a, owned A a -> exec (Load a) s = Ok (Byte (a_bytes A a), s)) /\
  (forall q, legal A q -> (exists r s', exec q s = Ok (r, s')) \/
     (exec q s = Err AssertFail /\ exists n, q = Malloc n /\ room s (demand n) = false)).
Proof.
  intros Hs Md Ms Mm E0 Rch. pose proof (RP_init_ok size os_d os_s os_m bd bs bm Hs Md Ms Mm) as H.
  destruct (warm_room size bs); [|congruence]. destruct H as (s1 & E1 & F1). rewrite E0 in E1. injection E1 as <-. clear E0.
  pose proof (reachable_refines s0 s A (refines_fresh size bd bs bm s0 F1) Rch) as R. pose proof R as (_ & G & I & Ho & E & Eb).
  split; [now exists G|]. split; [|split; [|split]].
  - intros b sz Hb. apply E in Hb. pose proof (live_facts s G b sz I Hb) as (_ & _ & ? & ? & ? & ? & ?). split_and!; try done; lia.
  - intros b sz b' sz' Hb Hb'. apply E in Hb, Hb'. destruct (live_disjoint s G b sz b' sz' I Hb Hb') as [[-> _]|?]; tauto.
  - intros a O. cbn [exec]. assert (Er : load_byte a s = Ok (rd8 (r_mem s) a, s)) by (unfold load_byte; now rewrite (owned_mapped s A a R O)).
    crun Er. now rewrite Eb.
  - intros q Lq. destruct (exec_step s A q R Lq) as [(r & s' & Er & _)|H]; [left; eauto|now right].
Qed.

Lemma client_safe_witness : exists s0 r s1 G, _RP_init disk_empty (2 ^ 32) (demo_os (2 ^ 40), demo_os (2 ^ 41), demo_os (2 ^ 42)) = Ok (0, s0) /\
  exec (Malloc 100) s0 = Ok (r, s1) /\ inv s1 G.
Proof.
  destruct demo_heap as (s & E & F). destruct (demo_malloc s F) as (r & s1 & E1 & _).
  destruct (client_safe (2 ^ 32) (demo_os (2 ^ 40)) (demo_os (2 ^ 41)) (demo_os (2 ^ 42)) (2 ^ 40) (2 ^ 41) (2 ^ 42) s s1
    (track s1 empty_astate (Malloc 100) r)) as ((G & I & _) & _);
    [split; [discriminate|reflexivity]|apply demo_maps; reflexivity..|exact E| |].
  - apply (reach_step s s empty_astate); [constructor|split; discriminate|exact E1].
  - exists s, r, s1, G. split; [exact E|]. split; [exact E1|exact I].
Defined.

(** C18: the nested loops of [flush_cache] end. Started by [public_flush_cache] in a heap that
    implements an allocator state, whatever the caches hold, they return normally: no [assert] of
    the scan, of [compute_idx] or of the anchor exchange fails, every cache is empty afterwards,
    and the heap implements the same allocator state, so the program's blocks and their bytes are
    untouched. *)
Theorem flush_terminates s A : refines s A ->
  exists s', public_flush_cache s = Ok (tt, s') /\ refines s' A /\
    (forall sc, class_idx sc -> exists p, r_tc s' !! Z.to_nat sc = Some (mkBin p 0)).
Proof.
  intros (Hi & G & I & Ho & E & Eb). unfold public_flush_cache. cpure. rewrite Hi.
  destruct (flush_all (seqZ 1 (MAX_SZ_IDX - 1))) with (s := s) (G := G) as (s' & G' & Er & Q & _ & C & _); [|done|done|].
  { intros sc Hs. apply elem_of_seqZ in Hs. unfold class_idx. lia. }
  exists s'. split; [done|]. split; [split|].
  - rewrite (keeps_init _ _ _ _ (keeps_cfor _ _ keeps_flush_cache) Er). done.
  - exists G'. split; [apply Q|]. split; [apply Q|]. split.
    + intros b sz. rewrite E. symmetry. apply Q.
    + intros a O. rewrite (q_frame _ _ _ _ Q); [now apply Eb|]. now apply (owned_live s A G a E).
  - intros sc Hc. destruct (inv_cache _ _ (q_inv _ _ _ _ Q) sc Hc) as (p & Hp & _). exists p. rewrite Hp, C; [done|].
    apply elem_of_seqZ. unfold class_idx in Hc. lia.
Qed.

Lemma flush_terminates_witness : exists s r s1 s', _RP_init disk_empty (2 ^ 32) (demo_os (2 ^ 40), demo_os (2 ^ 41), demo_os (2 ^ 42)) = Ok (0, s) /\
  exec (Malloc 100) s = Ok (r, s1) /\ public_flush_cache s1 = Ok (tt, s').
Proof.
  destruct demo_heap as (s & E & F). destruct (demo_malloc s F) as (r & s1 & E1 & R1 & _).
  destruct (flush_terminates s1 _ R1) as (s' & E' & _). exists s, r, s1, s'. split; [exact E|]. split; [exact E1|exact E'].
Defined.

(** The loop of [small_sb_alloc] reads the head of the free list once. If that
    read found the list empty and another thread has put a superblock on it since, the loop sees
    the new head, does [continue] with the old one, and never ends, however often it runs and
    although a superblock is free. *)
Theorem alloc_livelock s c r : get_region (r_rgs s) SB_IDX = Some r ->
  ptr (cnt_load (r_rgs s) DESC_IDX (avail_sb (r_md s))) <> 0 ->
  forall fuel, small_sb_alloc_loop fuel (mkPC 0 c) s = Err OutOfFuel.
Proof.
  intros Er Hp fuel. induction fuel as [|fuel IH]; [done|]. cbn [small_sb_alloc_loop ptr Z.eqb negb].
  assert (E : small_sb_expand s = Ok (None, s)).
  { unfold small_sb_expand. assert (Es : sb_region s = Ok (r, s)) by (unfold sb_region; now rewrite Er). crun Es. cbv zeta. cpure.
    now rewrite (proj2 (Z.eqb_neq _ _) Hp). }
  crun E. exact IH.
Qed.

Lemma alloc_livelock_witness : exists s, _RP_init disk_empty (2 ^ 32) (demo_os (2 ^ 40), demo_os (2 ^ 41), demo_os (2 ^ 42)) = Ok (0, s) /\
  small_sb_alloc_loop 1000 (mkPC 0 0) s = Err OutOfFuel.
Proof.
  destruct demo_heap as (s & E & F). exists s. split; [exact E|]. destruct (fh_regions _ _ _ _ _ F) as (rd & rs & rm & Eg & _).
  apply (alloc_livelock s 0 rs); [now rewrite Eg|].
  destruct (inv_avail _ _ (fh_inv _ _ _ _ _ F)) as (p & [_ ->] & D). cbn [fresh_ghost gav] in D. rewrite seqZ_cons in D by lia.
  cbn [dlist] in D. destruct D as [-> _]. unfold daA. rewrite Eg. vm_compute. discriminate.
Defined.

(** ** Roots, [RP_realloc] and [RP_calloc]

    The persistent roots are offsets from the superblock region; [RP_realloc] and [RP_calloc]
    are clients of [RP_malloc] and [RP_free] that also move or clear bytes. *)

(** ** [memcpy] and [memset] *)

Lemma rd8_fold (f : Z -> Z) d l m a : NoDup l ->
  rd8 (foldl (fun m' i => <[d + i := f i]> m') m l) a = if decide (a - d ∈ l) then f (a - d) else rd8 m a.
Proof.
  revert m. induction l as [|i l IH]; intros m N; cbn [foldl]; [now rewrite decide_False by apply not_elem_of_nil|].
  apply list.NoDup_cons in N as [Ni N]. rewrite IH by done. destruct (decide (a - d ∈ l)) as [H|H].
  - rewrite decide_True; [done|]. now right.
  - rewrite rd8_insert. destruct (decide (d + i = a)) as [E|E].
    + replace (a - d) with i by lia. rewrite decide_True; [done|left].
    + rewrite decide_False; [done|]. intros [E'|?]%elem_of_cons; [lia|done].
Qed.

Lemma rd8_cp_bytes d s n m a : rd8 (cp_bytes d s n m) a = if decide (d <= a < d + n) then rd8 m (s + (a - d)) else rd8 m a.
Proof.
  unfold cp_bytes. rewrite (rd8_fold (fun i => rd8 m (s + i))) by apply NoDup_seqZ.
  destruct (decide (a - d ∈ seqZ 0 n)) as [H|H]; rewrite elem_of_seqZ in H; [rewrite decide_True by lia|rewrite decide_False by lia]; done.
Qed.

Lemma rd8_set_bytes d c n m a : rd8 (set_bytes d c n m) a = if decide (d <= a < d + n) then c else rd8 m a.
Proof.
  unfold set_bytes. rewrite (rd8_fold (fun _ => c)) by apply NoDup_seqZ.
  destruct (decide (a - d ∈ seqZ 0 n)) as [H|H]; rewrite elem_of_seqZ in H; [rewrite decide_True by lia|rewrite decide_False by lia]; done.
Qed.

(** ** Bulk stores of the program *)

Lemma mapped_sub s i a n b k : mapped s i a n = true -> a <= b -> b + k <= a + n -> mapped s i b k = true.
Proof. unfold mapped. destruct (get_region _ _); [|done]. rewrite !andb_true_iff, !Z.leb_le. lia. Qed.

(** New contents for bytes the program owns. *)
Lemma refines_bulk s A m : refines s A -> (forall a, ~ owned A a -> rd8 m a = rd8 (r_mem s) a) ->
  refines (with_mem m s) (mkA (a_blocks A) (rd8 m)).
Proof.
  intros (Hi & G & I & Ho & E & Eb) Hm. split; [done|]. exists G. split; [|done].
  apply inv_user_store; [done|]. intros a N. apply Hm. intros O. now apply N, (owned_live s A G a E).
Qed.

Lemma refines_emit s A tr : refines s A -> refines (emit tr s) A.
Proof. intros (Hi & G & [] & H). split; [done|]. exists G. split; [now constructor|exact H]. Qed.

(** A malloc against [refines], with the block size. *)
Lemma malloc_refines s A size : refines s A -> 0 <= size <= SBSIZE * 65535 ->
  (exists p s' A' bs, RP_malloc size s = Ok (p, s') /\ spec A (Malloc size) (Pointer p) A' /\ refines s' A' /\
     a_blocks A' = <[p := bs]> (a_blocks A) /\ a_blocks A !! p = None /\ size <= bs /\ 0 < p /\
     (forall a, owned A a -> a_bytes A' a = a_bytes A a)) \/
  (RP_malloc size s = Err AssertFail /\ room s (demand size) = false).
Proof.
  intros R Hs. destruct (exec_step s A (Malloc size) R Hs) as [(r & s' & E & S & R')|[E (n & En & Rm)]].
  - left. cbn [exec] in E. unfold cbind in E. destruct (RP_malloc size s) as [[p s1]|e] eqn:Em; [|done].
    injection E as <- <-. remember (track s1 A (Malloc size) (Pointer p)) as A' eqn:EA. clear EA.
    inversion S as [size' p' bs f H1 H2 H3 H4 H5 H6 H7| | | |]; subst.
    exists p, s1, (mkA (<[p := bs]> (a_blocks A)) f), bs. split; [done|]. split; [exact S|]. split; [exact R'|]. cbn [a_blocks a_bytes].
    split; [done|]. split; [|done]. destruct (a_blocks A !! p) as [sz|] eqn:Hp; [|done]. exfalso.
    destruct R as (_ & G & I & _ & EL & _). pose proof (live_facts s G p sz I (proj1 (EL p sz) Hp)). pose proof (H6 p sz Hp). lia.
  - right. injection En as <-. cbn [exec] in E. unfold cbind in E. destruct (RP_malloc size s) as [[p s1]|e]; [done|]. injection E as ->. done.
Qed.

Lemma free_refines s A p bs : refines s A -> a_blocks A !! p = Some bs -> p <> 0 ->
  exists s', RP_free p s = Ok (tt, s') /\ refines s' (mkA (delete p (a_blocks A)) (a_bytes A)).
Proof.
  intros R Hp Np. destruct (exec_step s A (Free p) R) as [(r & s' & E & _ & R')|[_ (n & ? & _)]]; [right; eauto| |done].
  cbn [exec] in E. unfold cbind in E. destruct (RP_free p s) as [[[] s1]|e] eqn:Em; [|done]. injection E as <- <-.
  exists s1. split; [done|]. cbn [track] in R'. now rewrite (proj2 (Z.eqb_neq _ _) Np) in R'.
Qed.

(** ** [RP_realloc] and [RP_calloc] *)

Lemma malloc_size_refines s A p bs : refines s A -> a_blocks A !! p = Some bs -> RP_malloc_size p s = Ok (bs, s).
Proof. intros (_ & G & I & _ & E & _) Hp. now apply (live_block_size s G), E. Qed.

Lemma block_mapped s A p bs : refines s A -> a_blocks A !! p = Some bs -> mapped s SB_IDX p bs = true.
Proof. intros (_ & G & I & _ & E & _) Hp. now apply (live_facts s G p bs I), E. Qed.

Lemma block_in_range s A p bs : refines s A -> a_blocks A !! p = Some bs -> in_range (r_rgs s) SB_IDX p = true /\ 0 < p.
Proof. intros (_ & G & I & _ & E & _) Hp. pose proof (live_facts s G p bs I (proj1 (E p bs) Hp)). tauto. Qed.

Lemma block_disjoint s A p bs q qs : refines s A -> a_blocks A !! p = Some bs -> a_blocks A !! q = Some qs -> p <> q ->
  p + bs <= q \/ q + qs <= p.
Proof. intros (_ & G & I & _ & E & _) Hp Hq N. apply E in Hp, Hq. destruct (live_disjoint s G p bs q qs I Hp Hq) as [[? _]|?]; [done|lia]. Qed.

(** The blocks other than [p] have the same bytes in both states. *)
Definition same_elsewhere (A A' : astate) (p : Z) : Prop :=
  forall b sz a, b <> p -> a_blocks A !! b = Some sz -> b <= a < b + sz -> a_bytes A' a = a_bytes A a.

(** [n] bytes at [p] are all zero. *)
Definition zeroed (A : astate) (p n : Z) : Prop := forall a, p <= a < p + n -> a_bytes A a = 0.

(** The address of a root, and the write-back of it, latest event first. *)
Definition root_addr (g : Regions) (i : Z) : Z := rg_lookup g META_IDX + ROOTS_OFF + 8 * i.
Definition root_written (s : rst) (i : Z) : Prop :=
  take 3 (r_trace s) = [Fence; Flush (root_addr (r_rgs s) i); Wrote (root_addr (r_rgs s) i)].

(** ** Claims *)

(** C38: [RP_realloc] of a block to a size at least that of the block. If the sizes are
    equal nothing happens; otherwise the answer is a new block of at least the size asked, the
    first bytes of it are the bytes of the old block, the old block is gone, and every other
    block of the program keeps its bytes. It fails only when a malloc of the new size would. *)
Theorem realloc_spec s A p old new : refines s A -> a_blocks A !! p = Some old -> old <= new <= SBSIZE * 65535 ->
  (exists q s' A', RP_realloc p new s = Ok (q, s') /\ refines s' A' /\
     (old = new -> q = p /\ s' = s /\ A' = A) /\
     (old < new -> (exists bs, a_blocks A' = delete p (<[q := bs]> (a_blocks A)) /\ new <= bs) /\ a_blocks A !! q = None) /\
     (forall k, 0 <= k < old -> a_bytes A' (q + k) = a_bytes A (p + k)) /\
     same_elsewhere A A' p) \/
  (RP_realloc p new s = Err AssertFail /\ room s (demand new) = false).
Proof.
  intros R Hp Hn. destruct (block_in_range s A p old R Hp) as [Ir Pp]. pose proof (malloc_size_refines s A p old R Hp) as Ms.
  assert (Hold : 8 <= old) by (destruct R as (_ & G & I & _ & E & _); pose proof (live_facts s G p old I (proj1 (E p old) Hp)); lia).
  unfold RP_realloc. rewrite (proj2 (Z.eqb_neq p 0)) by lia. cpure. rewrite Ir. cbn [negb]. crun Ms.
  destruct (Z.eqb_spec old new) as [->|Ne].
  { left. exists p, s, A. split; [done|]. split; [done|]. split; [done|]. split; [lia|done]. }
  destruct (malloc_refines s A new R ltac:(lia)) as [(q & s1 & A1 & bs & E1 & _ & R1 & B1 & Nq & Hbs & Pq & Y1)|[E1 Rm]];
    [left|right; now rewrite (cbind_Err _ _ _ _ E1)].
  crun E1. rewrite (proj2 (Z.eqb_neq q 0)) by lia. assert (Npq : p <> q) by congruence.
  assert (Hp1 : a_blocks A1 !! p = Some old) by (rewrite B1; now rewrite lookup_insert_ne).
  assert (Hq1 : a_blocks A1 !! q = Some bs) by (rewrite B1; apply lookup_insert_eq).
  set (m2 := cp_bytes q p old (r_mem s1)).
  assert (E2 : copy_mem q p old s1 = Ok (tt, with_mem m2 s1)).
  { unfold copy_mem. rewrite (mapped_sub s1 SB_IDX q bs q old (block_mapped s1 A1 q bs R1 Hq1)), (block_mapped s1 A1 p old R1 Hp1) by lia. done. }
  crun E2. cpure.
  assert (R2 : refines (with_mem m2 s1) (mkA (a_blocks A1) (rd8 m2))).
  { apply refines_bulk; [done|]. intros a Na. unfold m2. rewrite rd8_cp_bytes, decide_False; [done|]. intros Ha. apply Na. exists q, bs. split; [done|lia]. }
  apply (refines_emit _ _ [Flush q; Fence]) in R2.
  destruct (free_refines _ _ p old R2 Hp1 ltac:(lia)) as (s3 & E3 & R3). crun E3.
  do 3 eexists. split; [reflexivity|]. split; [exact R3|]. cbn [a_blocks a_bytes]. split; [lia|]. split.
  - intros _. split; [|done]. exists bs. now rewrite B1.
  - destruct R1 as (_ & G1 & I1 & _ & L1 & Eb1). split.
    + intros k Hk. unfold m2. rewrite rd8_cp_bytes, decide_True by lia. replace (p + (q + k - q)) with (p + k) by lia.
      rewrite Eb1 by (exists p, old; split; [done|lia]). apply Y1. exists p, old. split; [done|lia].
    + intros b sz a Nb Hb Ha. assert (Hb1 : a_blocks A1 !! b = Some sz) by (rewrite B1, lookup_insert_ne; [done|congruence]).
      assert (Nbq : b <> q) by congruence. assert (D : b + sz <= q \/ q + bs <= b).
      { destruct (live_disjoint s1 G1 b sz q bs I1 (proj1 (L1 _ _) Hb1) (proj1 (L1 _ _) Hq1)) as [[? _]|?]; [done|lia]. }
      cbn [a_bytes]. unfold m2. rewrite rd8_cp_bytes, decide_False by lia. rewrite Eb1 by (exists b, sz; done). apply Y1. now exists b, sz.
Qed.

Lemma realloc_spec_witness : exists s p bs, RP_malloc_size p s = Ok (bs, s) /\
  ((exists q s', RP_realloc p (bs + 1000) s = Ok (q, s')) \/ RP_realloc p (bs + 1000) s = Err AssertFail).
Proof.
  destruct demo_heap as (s0 & _ & F). pose proof (refines_fresh _ _ _ _ s0 F) as R0.
  destruct (malloc_refines s0 empty_astate 100 R0) as [(p & s & A & bs & _ & S & R & B & _)|[_ H]]; [split; discriminate| |].
  - assert (Hp : a_blocks A !! p = Some bs) by (rewrite B; apply lookup_insert_eq).
    assert (Hbs : 0 <= bs <= 200000).
    { inversion S as [size' p' bs' f H1 H2 H3 H4 H5 H6 H7| | | |]; subst. cbn [a_blocks] in B. assert (E : Some bs' = Some bs); [|injection E as <-].
      - rewrite <- (lookup_insert_eq (a_blocks empty_astate) p bs'), B. apply lookup_insert_eq.
      - change MAX_SZ with 14336 in H3. lia. }
    exists s, p, bs. split; [now apply (malloc_size_refines s A)|].
    destruct (realloc_spec s A p bs (bs + 1000) R Hp) as [(q & s' & _ & E & _)|[E _]]; [unfold_cfg; lia|left; eauto|now right].
  - change (demand 100) with SB_REGION_EXPAND_SIZE in H. now rewrite (demo_heap_room s0 F) in H.
Defined.

(** [RP_calloc] of a product that does not overflow gives a block of at least that
    many bytes, disjoint from the others, every byte of which is zero, and leaves the bytes of
    the program's other blocks alone. It fails only when a malloc of that size would. *)
Theorem calloc_spec s A num size : refines s A -> 0 <= num * size <= SBSIZE * 65535 ->
  (exists p s' A' bs, RP_calloc num size s = Ok (p, s') /\ refines s' A' /\ a_blocks A !! p = None /\
     a_blocks A' = <[p := bs]> (a_blocks A) /\ num * size <= bs /\
     zeroed A' p bs /\ (forall a, owned A a -> a_bytes A' a = a_bytes A a)) \/
  (RP_calloc num size s = Err AssertFail /\ room s (demand (num * size)) = false).
Proof.
  intros R Hs. unfold RP_calloc. rewrite u64_small by (unfold_cfg; lia).
  destruct (malloc_refines s A (num * size) R Hs) as [(p & s1 & A1 & bs & E1 & _ & R1 & B1 & Np & Hbs & Pp & Y1)|[E1 Rm]];
    [left|right; now rewrite (cbind_Err _ _ _ _ E1)].
  crun E1. rewrite (proj2 (Z.eqb_neq p 0)) by lia. assert (Hp1 : a_blocks A1 !! p = Some bs) by (rewrite B1; apply lookup_insert_eq).
  crun (malloc_size_refines s1 A1 p bs R1 Hp1). set (m2 := set_bytes p 0 bs (r_mem s1)).
  assert (E2 : fill_mem p 0 bs s1 = Ok (tt, with_mem m2 s1)) by (unfold fill_mem; now rewrite (block_mapped s1 A1 p bs R1 Hp1)).
  crun E2. cpure.
  assert (R2 : refines (with_mem m2 s1) (mkA (a_blocks A1) (rd8 m2))).
  { apply refines_bulk; [done|]. intros a Na. unfold m2. rewrite rd8_set_bytes, decide_False; [done|]. intros Ha. apply Na. exists p, bs. done. }
  eexists p, _, (mkA (a_blocks A1) (rd8 m2)), bs. split; [reflexivity|]. split; [now apply refines_emit|]. split; [done|]. cbn [a_blocks a_bytes]. split; [exact B1|].
  split; [done|]. split.
  - intros a Ha. cbn [a_bytes]. unfold m2. now rewrite rd8_set_bytes, decide_True.
  - intros a (b & sz & Hb & Ha). assert (Hb1 : a_blocks A1 !! b = Some sz) by (rewrite B1, lookup_insert_ne; [done|congruence]).
    assert (b <> p) by congruence. pose proof (block_disjoint s1 A1 b sz p bs R1 Hb1 Hp1 ltac:(done)).
    unfold m2. rewrite rd8_set_bytes, decide_False by lia. rewrite <- Y1 by now exists b, sz.
    destruct R1 as (_ & G1 & _ & _ & _ & Eb1). apply Eb1. now exists b, sz.
Qed.

Lemma calloc_spec_witness : exists s p s', _RP_init disk_empty (2 ^ 32) (demo_os (2 ^ 40), demo_os (2 ^ 41), demo_os (2 ^ 42)) = Ok (0, s) /\
  RP_calloc 3 40 s = Ok (p, s').
Proof.
  destruct demo_heap as (s & E & F).
  destruct (calloc_spec s empty_astate 3 40) as [(p & s' & _ & _ & H & _)|[_ H]];
    [now apply (refines_fresh (2 ^ 32) (2 ^ 40) (2 ^ 41) (2 ^ 42))|split; discriminate| |].
  - exists s, p, s'. split; [exact E|exact H].
  - change (demand (3 * 40)) with SB_REGION_EXPAND_SIZE in H. now rewrite (demo_heap_room s F) in H.
Defined.

(** A root that was set is read back, now and from any later mapping of the heap.
    [set_root] of a pointer into the heap (not to its very first byte) stores it and writes it
    back before it returns what the slot held; [get_root] of that slot returns the pointer,
    other slots are unchanged, and in regions mapped elsewhere the same word denotes the same
    place of the superblock region. *)
Theorem root_roundtrip s p i j g' : length (roots (r_md s)) = Z.to_nat MAX_ROOTS -> 0 <= i < MAX_ROOTS -> 0 <= j < MAX_ROOTS -> j <> i ->
  0 < rg_lookup (r_rgs s) SB_IDX < p -> p < 2 ^ 47 -> 0 <= rg_lookup g' SB_IDX < 2 ^ 47 ->
  exists old s', set_root p i s = Ok (old, s') /\
    (exists s1, get_root i s = Ok (old, s1)) /\
    (exists s2, get_root i s' = Ok (p, s2)) /\
    (forall v s1, get_root j s = Ok (v, s1) -> exists s2, get_root j s' = Ok (v, s2)) /\
    (exists w, roots (r_md s') !! Z.to_nat i = Some w /\
       CrossPtr_get g' SB_IDX w = rg_lookup g' SB_IDX + (p - rg_lookup (r_rgs s) SB_IDX)) /\
    root_written s' i /\
    r_mem s' = r_mem s /\ r_desc s' = r_desc s /\ r_rgs s' = r_rgs s.
Proof.
  intros Ll Hi Hj Nij Hp Hp2 Hg.
  assert (W : untranslate (r_rgs s) SB_IDX p = p - rg_lookup (r_rgs s) SB_IDX) by (unfold untranslate; rewrite u64_small; lia).
  destruct (lookup_lt_is_Some_2 (roots (r_md s)) (Z.to_nat i)) as [old Eo]; [lia|].
  assert (Get : forall k s1 w, 0 <= k < MAX_ROOTS -> roots (r_md s1) !! Z.to_nat k = Some w -> exists s2, get_root k s1 = Ok (CrossPtr_get (r_rgs s1) SB_IDX w, s2)).
  { intros k s1 w Hk E. unfold get_root. rewrite (proj2 (Z.ltb_lt k MAX_ROOTS)) by lia. do 4 cpure. cbn [r_md r_rgs with_filters]. rewrite E. eexists. reflexivity. }
  unfold set_root. rewrite (proj2 (Z.ltb_lt i MAX_ROOTS)) by lia. do 3 cpure. rewrite Eo. cbv zeta. do 2 cpure.
  exists (CrossPtr_get (r_rgs s) SB_IDX old). eexists. split.
  { unfold CrossPtr_is_null, CrossPtr_get. destruct (old =? 0); reflexivity. }
  rproj. cbn [roots set_roots]. split; [now apply Get|]. split; [|split; [|split; [|split; [reflexivity|done]]]].
  - destruct (Get i (emit [Wrote (rg_lookup (r_rgs s) META_IDX + ROOTS_OFF + 8 * i); Flush (rg_lookup (r_rgs s) META_IDX + ROOTS_OFF + 8 * i); Fence]
       (with_md (set_roots (<[Z.to_nat i := CrossPtr_assign (r_rgs s) SB_IDX p]> (roots (r_md s))) (r_md s)) s))
       (CrossPtr_assign (r_rgs s) SB_IDX p) Hi) as [s2 E2]; [rproj; cbn [roots set_roots]; apply list_lookup_insert_eq; lia|].
    exists s2. rewrite E2. rproj. unfold CrossPtr_get, CrossPtr_assign, translate. rewrite W, (proj2 (Z.eqb_neq _ _)), u64_small by lia.
    do 2 f_equal. lia.
  - intros v s1 Ev. destruct (lookup_lt_is_Some_2 (roots (r_md s)) (Z.to_nat j)) as [wj Ej]; [lia|].
    destruct (Get j s wj Hj Ej) as [s3 E3]. rewrite Ev in E3. injection E3 as -> _.
    match goal with |- exists s2, get_root j ?st = _ => refine (Get j st wj Hj _) end. rproj. cbn [roots set_roots].
    rewrite list_lookup_insert_ne by lia. exact Ej.
  - exists (CrossPtr_assign (r_rgs s) SB_IDX p). split; [apply list_lookup_insert_eq; lia|].
    unfold CrossPtr_get, CrossPtr_assign, translate. rewrite W, (proj2 (Z.eqb_neq _ _)), u64_small by lia. done.
Qed.

Lemma root_roundtrip_witness : exists s s' old,
  _RP_init disk_empty (2 ^ 32) (demo_os (2 ^ 40), demo_os (2 ^ 41), demo_os (2 ^ 42)) = Ok (0, s) /\
  set_root (2 ^ 41 + 2 ^ 20) 3 s = Ok (old, s') /\ exists s2, get_root 3 s' = Ok (2 ^ 41 + 2 ^ 20, s2).
Proof.
  destruct demo_heap as (s & E & F). destruct (fh_regions _ _ _ _ _ F) as (rd & rs & rm & Eg & _).
  assert (El : rg_lookup (r_rgs s) SB_IDX = 2 ^ 41 + 65536) by (rewrite Eg; reflexivity).
  destruct (root_roundtrip s (2 ^ 41 + 2 ^ 20) 3 4 (r_rgs s)) as (old & s' & E' & _ & G' & _).
  - rewrite (fh_roots _ _ _ _ _ F). apply length_replicate.
  - split; [discriminate|reflexivity].
  - split; [discriminate|reflexivity].
  - discriminate.
  - rewrite El. lia.
  - lia.
  - rewrite El. lia.
  - exists s, s', old. split; [exact E|]. split; [exact E'|exact G'].
Defined.
