(* ===== verification/RallocGc.v ===== *)
(** * Recovery of a Ralloc heap: the collector

    [GarbageCollection] of [BaseMeta.hpp/.cpp] and [BaseMeta::restart]. After a crash the lists
    and anchors are rebuilt: blocks are marked from the roots, every eight bytes at any offset of
    a marked block that look like a [pptr] into the superblock region being followed (the default
    filter), and a sweep over the descriptors frees everything else.

    Roots whose filter was not registered with [get_root] since the program started have an
    empty [std::function], whose call throws. Filters specialised by a program for its own types
    are not modelled. *)

From stdpp Require Import sorting.
From S2P Require Import Prelude Pptr ByteMem SizeClass Regions Ralloc RallocRun.

(** ** Marking *)

(** [marked_blk] and the stack of nodes still to be scanned, top first. *)
Record gc_state := mkGC { marked_blk : gset Z; to_filter_node : list Z }.

Definition mark_func (g : Regions) (ptr : Z) (c : gc_state) : gc_state :=
  if negb (in_range g SB_IDX ptr) then c
  else if bool_decide (ptr ∈ marked_blk c) then c
  else mkGC ({[ptr]} ∪ marked_blk c) (ptr :: to_filter_node c).

Definition filter_func (ptr : Z) (c : gc_state) : stM rst gc_state :=
  g <- cgets r_rgs;
  d <- get_d (desc_lookup g ptr);
  cfold (seqZ 0 (block_size d)) (fun i c =>
    curr_content <- ld_link (ptr + i);
    cret (if curr_content =? 0 then c else mark_func g curr_content c)) c.

(** The roots, with the filter [get_root] registers. *)
Definition mark_roots : stM rst gc_state :=
  cfold (seqZ 0 MAX_ROOTS) (fun i c =>
    b <- cgets r_md;
    match roots b !! Z.to_nat i with
    | None => cfail UB_access
    | Some w =>
        if CrossPtr_is_null w then cret c
        else
          f <- cgets r_filters;
          match f !! Z.to_nat i with
          | Some true => g <- cgets r_rgs; cret (mark_func g (CrossPtr_get g SB_IDX w) c)
          | _ => cfail Throw
          end
    end) (mkGC ∅ []).

Fixpoint mark_loop (fuel : nat) (c : gc_state) : stM rst gc_state :=
  match fuel with
  | O => cfail OutOfFuel
  | S fuel =>
      match to_filter_node c with
      | [] => cret c
      | node :: rest => c' <- filter_func node (mkGC (marked_blk c) rest); mark_loop fuel c'
      end
  end.

(** ** Sweeping *)

(** The anchor's state and count, the head of the free list and [last_possible_free_block]. *)
Record sweep := mkSweep { sw_state : SuperblockState; sw_count : Z; sw_head : Z; sw_last : Z }.

(** [for (free_block = ...; free_block < upto; free_block += block_size)] *)
Fixpoint sweep_free (fuel : nat) (free_block upto bsize head count : Z) : stM rst (Z * Z) :=
  match fuel with
  | O => cfail OutOfFuel
  | S fuel =>
      if free_block <? upto then
        st_link free_block head;;
        sweep_free fuel (u64 (free_block + bsize)) upto bsize free_block (u31 (count + 1))
      else cret (head, count)
  end.

(** At most one block per eight bytes of a superblock. *)
Definition SWEEP_FUEL : nat := Z.to_nat (SBSIZE / 8 + 1).

(** The marked blocks of the superblock, from the iterator [ms] over the sorted set. *)
Fixpoint sweep_marked (curr_sb curr_desc : Z) (sw : sweep) (ms : list Z) : stM rst (sweep * list Z) :=
  match ms with
  | [] => cret (sw, [])
  | m :: ms' =>
      if Z.shiftr curr_sb SB_SHIFT =? Z.shiftr m SB_SHIFT then
        g <- cgets r_rgs;
        d <- get_d curr_desc;
        sw' <- (if negb (CrossPtr_is_null (heap d)) && (CrossPtr_get g SB_IDX (superblock d) =? curr_sb) then
                  i <- heap_index (translate g META_IDX (heap d));
                  h <- get_heap i;
                  if sc_idx h =? 0 then
                    cassert (maxcount d =? 1);;
                    cret (mkSweep SB_FULL (sw_count sw) (sw_head sw) (sw_last sw))
                  else
                    '(head, count) <- sweep_free SWEEP_FUEL (sw_last sw) m (block_size d) (sw_head sw) (sw_count sw);
                    cret (mkSweep SB_PARTIAL count head (u64 (m + block_size d)))
                else cret sw);
        sweep_marked curr_sb curr_desc sw' ms'
      else cret (sw, ms)
  end.

(** The end of a superblock that holds marked small blocks. *)
Definition sweep_small (curr_sb curr_desc : Z) (sw : sweep) : stM rst unit :=
  d <- get_d curr_desc;
  '(head, count) <- sweep_free SWEEP_FUEL (sw_last sw) (u64 (curr_sb + u32 (maxcount d * block_size d))) (block_size d)
                      (sw_head sw) (sw_count sw);
  if count =? 0 then
    upd_d curr_desc (set_next_free (to_pptr_off 0 curr_desc));;
    upd_d curr_desc (set_next_partial (to_pptr_off 0 (curr_desc + 8)));;
    upd_d curr_desc (set_anchor (mkAnchor (u31 (maxcount d)) 0 SB_FULL))
  else
    cassert (negb (head =? 0));;
    cassert (u64 (head - curr_sb) mod block_size d =? 0);;
    upd_d curr_desc (set_next_free (to_pptr_off 0 curr_desc));;
    heap_push_partial curr_desc;;
    upd_d curr_desc (set_anchor (mkAnchor (u31 (u64 (head - curr_sb) / block_size d)) count SB_PARTIAL)).

(** The superblocks from [curr_sb] on: the head of the new list of free superblocks and what is
    left of the iterator. *)
Fixpoint sweep_loop (fuel : nat) (curr_sb curr_desc sb_end avail_sb : Z) (ms : list Z) : stM rst (Z * list Z) :=
  match fuel with
  | O => cfail OutOfFuel
  | S fuel =>
      if curr_sb <? sb_end then
        '(sw, ms) <- sweep_marked curr_sb curr_desc (mkSweep SB_EMPTY 0 0 curr_sb) ms;
        if bool_decide (sw_state sw = SB_EMPTY) then
          construct curr_desc;;
          upd_d curr_desc (set_next_free (to_pptr_off avail_sb curr_desc));;
          sweep_loop fuel (u64 (curr_sb + SBSIZE)) (curr_desc + DESCSIZE) sb_end curr_desc ms
        else
          g <- cgets r_rgs;
          d <- get_d curr_desc;
          i <- heap_index (translate g META_IDX (heap d));
          h <- get_heap i;
          if sc_idx h =? 0 then
            upd_d curr_desc (set_next_free (to_pptr_off 0 curr_desc));;
            upd_d curr_desc (set_next_partial (to_pptr_off 0 (curr_desc + 8)));;
            upd_d curr_desc (set_anchor (mkAnchor 0 0 SB_FULL));;
            let curr_sb := u64 (curr_sb + block_size d) in
            sweep_loop fuel curr_sb (desc_lookup g curr_sb) sb_end avail_sb ms
          else
            sweep_small curr_sb curr_desc sw;;
            sweep_loop fuel (u64 (curr_sb + SBSIZE)) (curr_desc + DESCSIZE) sb_end avail_sb ms
      else cret (avail_sb, ms)
  end.

(** ** [GarbageCollection::operator()] and [restart] *)

(** Step 0: the lists are emptied. *)
Definition gc_reset : stM rst unit :=
  cmod (fun s => with_md (set_avail_sb 0 (r_md s)) s);;
  cfor (seqZ 0 MAX_SZ_IDX) (fun i =>
    h <- get_heap i;
    cmod (fun s => with_md (set_heaps (<[Z.to_nat i := mkHeap 0 (sc_idx h)]> (heaps (r_md s))) (r_md s)) s)).

(** The write-backs at the end; the metadata's first line is skipped as in [writeback]. *)
Definition gc_flush : stM rst unit :=
  cmod (fun s => emit (flush_region (r_rgs s) DESC_IDX) s);;
  cmod (fun s => emit (flush_region (r_rgs s) SB_IDX) s);;
  cmod (fun s => emit [FlushLines (rg_lookup (r_rgs s) META_IDX + CACHELINE_SIZE)
                         ((sizeof_BaseMeta + CACHELINE_SIZE - 1) / CACHELINE_SIZE); Fence] s).

(** The sorted contents of [marked_blk]. *)
Definition marked_list (c : gc_state) : list Z := merge_sort Z.le (elements (marked_blk c)).

Definition gc_mark (fuel : nat) : stM rst gc_state := c <- mark_roots; mark_loop fuel c.

Definition gc_sweep (ms : list Z) : stM rst unit :=
  g <- cgets r_rgs;
  r <- sb_region;
  n <- cgets sb_count;
  let curr_sb := translate g SB_IDX SBSIZE in
  '(avail_sb, rest) <- sweep_loop (S (Z.to_nat n)) curr_sb (desc_lookup g curr_sb) (curr_addr r) 0 ms;
  cmod (fun s => with_md (set_avail_sb (cnt_word g DESC_IDX (mkPC avail_sb 0)) (r_md s)) s);;
  cassert (bool_decide (rest = [])).

Definition GarbageCollection (fuel : nat) : stM rst unit :=
  gc_reset;; c <- gc_mark fuel; gc_sweep (marked_list c);; gc_flush.

Definition restart (fuel : nat) : stM rst bool :=
  ret <- is_dirty;
  (if (ret : bool) then GarbageCollection fuel else cret tt);;
  cmod (emit [Fence]);;
  set_dirty;;
  cret ret.

Definition RP_recover (fuel : nat) : stM rst Z := b <- restart fuel; cret (bool_Z b).

(** ** The marking phase of the collector

    The blocks marked are exactly those reachable from the roots through words that look like
    pointers into the superblock region, and marking ends: every address is pushed at most once. *)

(** ** Reachability *)

(** Eight bytes at some offset of the block at [a] are a pointer to [b] in the region. *)
Definition points_to (s : rst) (a b : Z) : Prop :=
  exists i, 0 <= i < block_size (descr s (desc_lookup (r_rgs s) a)) /\ b = ld_pptr (r_mem s) (a + i) /\ in_range (r_rgs s) SB_IDX b = true.

Definition is_root (s : rst) (a : Z) : Prop :=
  exists i w, 0 <= i < MAX_ROOTS /\ roots (r_md s) !! Z.to_nat i = Some w /\ w <> 0 /\ a = CrossPtr_get (r_rgs s) SB_IDX w /\
    in_range (r_rgs s) SB_IDX a = true.

Inductive reach (s : rst) : Z -> Prop :=
| reach_root a : is_root s a -> reach s a
| reach_next a b : reach s a -> points_to s a b -> reach s b.

(** Every non-null root has its filter. *)
Definition roots_ok (s : rst) : Prop :=
  forall i, 0 <= i < MAX_ROOTS -> exists w, roots (r_md s) !! Z.to_nat i = Some w /\ (w = 0 \/ r_filters s !! Z.to_nat i = Some true).

(** The bytes the filter reads for the block at [a] are mapped. *)
Definition scan_ok (s : rst) (a : Z) : Prop :=
  let da := desc_lookup (r_rgs s) a in
  mapped s DESC_IDX da DESCSIZE = true /\ (forall i, 0 <= i < block_size (descr s da) -> mapped s SB_IDX (a + i) 8 = true).

(** The number of bytes of the superblock region. *)
Definition region_bytes (s : rst) : Z :=
  match get_region (r_rgs s) SB_IDX with Some r => curr_addr r - rg_lookup (r_rgs s) SB_IDX | None => 0 end.

(** ** A batch of marks *)

Definition marks (g : Regions) (bs : list Z) (c : gc_state) : gc_state := foldl (fun c b => mark_func g b c) c bs.

Section Marks.
Context (g : Regions).
Implicit Types (c : gc_state) (a b : Z).

Lemma mark_func_marked b c a : a ∈ marked_blk (mark_func g b c) <-> a ∈ marked_blk c \/ (a = b /\ in_range g SB_IDX b = true).
Proof.
  unfold mark_func. destruct (in_range g SB_IDX b); cbn [negb]; [|intuition congruence].
  destruct (bool_decide_reflect (b ∈ marked_blk c)) as [H|H]; cbn [marked_blk]; [|set_solver]. split; [tauto|]. intros [?|[-> _]]; done.
Qed.

(** New nodes on the stack are the newly marked ones, each once. *)
Definition grows c c' : Prop :=
  exists new, to_filter_node c' = new ++ to_filter_node c /\ size (marked_blk c') = (size (marked_blk c) + length new)%nat /\
    marked_blk c ⊆ marked_blk c' /\ (forall a, a ∈ new <-> a ∈ marked_blk c' /\ a ∉ marked_blk c).

Lemma grows_refl c : grows c c.
Proof. exists []. split; [done|]. split; [cbn; lia|]. split; [done|]. intros a. split; [intros H; now apply not_elem_of_nil in H|tauto]. Qed.

Lemma grows_trans c1 c2 c3 : grows c1 c2 -> grows c2 c3 -> grows c1 c3.
Proof.
  intros (n1 & E1 & S1 & I1 & N1) (n2 & E2 & S2 & I2 & N2). exists (n2 ++ n1). rewrite E2, E1, app_assoc. split; [done|].
  split; [rewrite length_app; lia|]. split; [set_solver|]. intros a. rewrite elem_of_app, N1, N2.
  split; [intros [[? ?]|[? ?]]; set_solver|]. intros [H3 H1]. destruct (decide (a ∈ marked_blk c2)); [right|left]; done.
Qed.

Lemma mark_func_grows b c : grows c (mark_func g b c).
Proof.
  unfold mark_func. destruct (negb _); [apply grows_refl|]. destruct (bool_decide_reflect (b ∈ marked_blk c)) as [H|H]; [apply grows_refl|].
  exists [b]. cbn. split; [done|]. split; [rewrite size_union by set_solver; rewrite size_singleton; lia|]. split; [set_solver|].
  intros a. rewrite list_elem_of_singleton. set_solver.
Qed.

Lemma marks_spec bs c : grows c (marks g bs c) /\
  (forall a, a ∈ marked_blk (marks g bs c) <-> a ∈ marked_blk c \/ (a ∈ bs /\ in_range g SB_IDX a = true)).
Proof.
  revert c. induction bs as [|b bs IH]; intros c; cbn [marks foldl].
  - split; [apply grows_refl|]. intros a. split; [tauto|]. intros [?|[H _]]; [done|now apply not_elem_of_nil in H].
  - destruct (IH (mark_func g b c)) as [Gr E]. split; [apply (grows_trans _ _ _ (mark_func_grows b c) Gr)|].
    intros a. change (foldl _ _ bs) with (marks g bs (mark_func g b c)). rewrite E, mark_func_marked, elem_of_cons. split; [intros [[?|[-> ?]]|[? ?]]; tauto|].
    intros [?|[[->|?] ?]]; tauto.
Qed.

End Marks.

(** ** The roots and one block *)

Section Mark.
Context (s : rst) (H0 : 0 < rg_lookup (r_rgs s) SB_IDX).
#[local] Abbreviation g := (r_rgs s).

Lemma null_not_marked c : mark_func g 0 c = c.
Proof. unfold mark_func, in_range. now rewrite (proj2 (Z.leb_gt _ _)) by lia. Qed.

(** The pointers a block may hold. *)
Definition contents (a : Z) : list Z :=
  (fun i => ld_pptr (r_mem s) (a + i)) <$> seqZ 0 (block_size (descr s (desc_lookup g a))).

Lemma elem_of_contents a b : b ∈ contents a /\ in_range g SB_IDX b = true <-> points_to s a b.
Proof.
  unfold contents, points_to. rewrite list_elem_of_fmap. split.
  - intros [(i & -> & Hi) R]. apply elem_of_seqZ in Hi. exists i. split; [lia|done].
  - intros (i & Hi & -> & R). split; [|done]. exists i. split; [done|]. apply elem_of_seqZ. lia.
Qed.

Lemma filter_func_ok a c : scan_ok s a -> filter_func a c s = Ok (marks g (contents a) c, s).
Proof.
  intros [Md Ml]. unfold filter_func. cpure.
  assert (Ed : get_d (desc_lookup g a) s = Ok (descr s (desc_lookup g a), s)) by (unfold get_d; now rewrite Md). crun Ed.
  rewrite (cfold_pure _ _ (fun i c => mark_func g (ld_pptr (r_mem s) (a + i)) c)).
  - unfold marks, contents. now rewrite foldl_fmap.
  - intros i acc Hi. apply elem_of_seqZ in Hi. unfold ld_link. unfold cbind. rewrite Ml by lia. unfold cret.
    destruct (Z.eqb_spec (ld_pptr (r_mem s) (a + i)) 0) as [->|_]; [now rewrite null_not_marked|done].
Qed.

Definition root_words : list Z :=
  (fun i => CrossPtr_get g SB_IDX (default 0 (roots (r_md s) !! Z.to_nat i))) <$> seqZ 0 MAX_ROOTS.

Lemma elem_of_root_words a : a ∈ root_words /\ in_range g SB_IDX a = true <-> is_root s a.
Proof.
  unfold root_words, is_root. rewrite list_elem_of_fmap. split.
  - intros [(i & -> & Hi) R]. apply elem_of_seqZ in Hi. destruct (roots (r_md s) !! Z.to_nat i) as [w|] eqn:Ew; cbn [default] in *;
      [|unfold in_range in R; cbn in R; rewrite (proj2 (Z.leb_gt _ _)) in R by lia; discriminate].
    exists i, w. split; [lia|]. split; [done|]. split; [|done]. intros ->. unfold in_range in R. cbn in R. rewrite (proj2 (Z.leb_gt _ _)) in R by lia. discriminate.
  - intros (i & w & Hi & Ew & _ & -> & R). split; [|done]. exists i. rewrite Ew. split; [done|]. apply elem_of_seqZ. lia.
Qed.

Lemma mark_roots_ok : roots_ok s -> mark_roots s = Ok (marks g root_words (mkGC ∅ []), s).
Proof.
  intros R. unfold mark_roots.
  rewrite (cfold_pure _ _ (fun i c => mark_func g (CrossPtr_get g SB_IDX (default 0 (roots (r_md s) !! Z.to_nat i))) c)).
  - unfold marks, root_words. now rewrite foldl_fmap.
  - intros i acc Hi. apply elem_of_seqZ in Hi. destruct (R i ltac:(lia)) as (w & Ew & Hw). cpure. rewrite Ew. cbn [default].
    unfold CrossPtr_is_null. destruct (Z.eqb_spec w 0) as [->|N]; [change (CrossPtr_get g SB_IDX 0) with 0; now rewrite null_not_marked|].
    destruct Hw as [?|Ef]; [done|]. cpure. rewrite Ef. reflexivity.
Qed.

(** ** The loop *)

(** What is marked is reachable; what is marked and no longer on the stack has been scanned. *)
Record mark_inv (c : gc_state) : Prop := {
  mi_reach : forall a, a ∈ marked_blk c -> reach s a;
  mi_stack : forall a, a ∈ to_filter_node c -> a ∈ marked_blk c;
  mi_roots : forall a, is_root s a -> a ∈ marked_blk c;
  mi_closed : forall a b, a ∈ marked_blk c -> a ∉ to_filter_node c -> points_to s a b -> b ∈ marked_blk c }.

Lemma reach_in_range a : reach s a -> in_range g SB_IDX a = true.
Proof. intros [a' (i & w & _ & _ & _ & _ & R)|a' b _ (i & _ & _ & R)]; done. Qed.

(** No more addresses than the region has bytes. *)
Lemma mark_inv_size c : mark_inv c -> (size (marked_blk c) <= Z.to_nat (region_bytes s))%nat.
Proof.
  intros I. assert (Sub : marked_blk c ⊆ list_to_set (seqZ (rg_lookup g SB_IDX) (region_bytes s))).
  { intros a Ha. apply elem_of_list_to_set, elem_of_seqZ. apply (mi_reach _ I), reach_in_range in Ha. unfold in_range, region_bytes in *.
    destruct (get_region g SB_IDX); [|rewrite andb_false_r in Ha; discriminate]. rewrite andb_true_iff, Z.leb_le, Z.ltb_lt in Ha. lia. }
  apply subseteq_size in Sub. rewrite size_list_to_set, length_seqZ in Sub by apply NoDup_seqZ. done.
Qed.

Lemma mark_inv_start : mark_inv (marks g root_words (mkGC ∅ [])).
Proof.
  destruct (marks_spec g root_words (mkGC ∅ [])) as [(new & E & _ & _ & N) M]. cbn in E, N. rewrite app_nil_r in E.
  assert (M' : forall a, a ∈ marked_blk (marks g root_words (mkGC ∅ [])) <-> is_root s a).
  { intros a. rewrite M, elem_of_root_words. cbn [marked_blk]. rewrite elem_of_empty. tauto. }
  constructor.
  - intros a Ha. apply reach_root. now apply M'.
  - intros a Ha. rewrite E in Ha. now apply N in Ha as [? _].
  - intros a Ha. now apply M'.
  - intros a b Ha Hn _. exfalso. apply Hn. rewrite E. apply N. split; [done|apply not_elem_of_empty].
Qed.

Lemma mark_inv_scan node rest c : mark_inv c -> to_filter_node c = node :: rest ->
  mark_inv (marks g (contents node) (mkGC (marked_blk c) rest)).
Proof.
  intros [Re St Ro Cl] E. destruct (marks_spec g (contents node) (mkGC (marked_blk c) rest)) as [(new & En & _ & I & N) M]. cbn in En, I, N, M.
  assert (Hn : node ∈ marked_blk c) by (apply St; rewrite E; left). constructor.
  - intros a Ha. apply M in Ha as [Ha|Ha]; [now apply Re|]. apply elem_of_contents in Ha. apply (reach_next s node); [now apply Re|done].
  - intros a Ha. rewrite En in Ha. apply elem_of_app in Ha as [Ha|Ha]; [now apply N in Ha as [? _]|]. apply I, St. rewrite E. now right.
  - intros a Ha. now apply I, Ro.
  - intros a b Ha Hs P. rewrite En in Hs. apply not_elem_of_app in Hs as [Hs1 Hs2]. destruct (decide (a = node)) as [->|Nn].
    + apply M. right. now apply elem_of_contents.
    + apply I, (Cl a); [|rewrite E, not_elem_of_cons; done|done]. destruct (decide (a ∈ marked_blk c)); [done|]. exfalso. now apply Hs1, N.
Qed.

Lemma mark_loop_ok : (forall a, reach s a -> scan_ok s a) -> forall fuel c, mark_inv c ->
  (Z.to_nat (region_bytes s) - size (marked_blk c) + length (to_filter_node c) < fuel)%nat ->
  exists c', mark_loop fuel c s = Ok (c', s) /\ mark_inv c' /\ to_filter_node c' = [].
Proof.
  intros Sc. induction fuel as [|fuel IH]; intros c I Hf; [lia|]. cbn [mark_loop].
  destruct (to_filter_node c) as [|node rest] eqn:E; [now exists c|].
  assert (Ef : filter_func node (mkGC (marked_blk c) rest) s = Ok (marks g (contents node) (mkGC (marked_blk c) rest), s)).
  { apply filter_func_ok, Sc, (mi_reach _ I), (mi_stack _ I). rewrite E. left. }
  crun Ef. pose proof (mark_inv_scan node rest c I E) as I'. apply IH; [done|].
  destruct (marks_spec g (contents node) (mkGC (marked_blk c) rest)) as [(new & En & Sz & _ & _) _]. cbn [to_filter_node marked_blk] in En, Sz.
  rewrite En, length_app, Sz. cbn [length] in Hf. pose proof (mark_inv_size _ I') as B. rewrite Sz in B. lia.
Qed.

(** Marking returns the reachable addresses and changes nothing. *)
Lemma gc_mark_ok fuel : roots_ok s -> (forall a, reach s a -> scan_ok s a) -> (Z.to_nat (region_bytes s) < fuel)%nat ->
  exists c, gc_mark fuel s = Ok (c, s) /\ (forall a, a ∈ marked_blk c <-> reach s a).
Proof.
  intros Ro Sc Hf. unfold gc_mark. crun (mark_roots_ok Ro). pose proof mark_inv_start as I0.
  destruct (mark_loop_ok Sc fuel _ I0) as (c & E & I & Es).
  { destruct (marks_spec g root_words (mkGC ∅ [])) as [(new & En & Sz & _ & _) _]. cbn in En, Sz. rewrite app_nil_r in En. rewrite En, Sz.
    pose proof (mark_inv_size _ I0) as B. rewrite Sz in B. rewrite size_empty in *. lia. }
  exists c. split; [done|]. intros a. split; [apply I|]. induction 1 as [a Ha|a b _ IH P]; [now apply (mi_roots _ I)|].
  apply (mi_closed _ I a); [done|rewrite Es; apply not_elem_of_nil|done].
Qed.

End Mark.

(** The iterator over the set: sorted, every address once. *)
Lemma marked_list_spec c : StronglySorted Z.lt (marked_list c) /\ (forall a, a ∈ marked_list c <-> a ∈ marked_blk c).
Proof.
  unfold marked_list. assert (P := merge_sort_Permutation Z.le (elements (marked_blk c))). split.
  - assert (Nd : NoDup (merge_sort Z.le (elements (marked_blk c)))) by (rewrite P; apply NoDup_elements).
    assert (S : StronglySorted Z.le (merge_sort Z.le (elements (marked_blk c)))) by (apply (StronglySorted_merge_sort Z.le)).
    revert Nd S. clear P. induction (merge_sort Z.le (elements (marked_blk c))) as [|x l IH]; intros Nd S; [constructor|].
    apply list.NoDup_cons in Nd as [Nx Nd]. inversion S as [|? ? S1 F]; subst. constructor; [now apply IH|].
    rewrite list.Forall_forall in *. intros y Hy. specialize (F y Hy). assert (x <> y) by (intros ->; done). lia.
  - intros a. rewrite P. apply elem_of_elements.
Qed.
