(* ===== verification/RallocSweep.v ===== *)
(** * The sweeping phase of the collector: one superblock

    The marked blocks of a superblock are visited in address order; the blocks between them are
    pushed on its free list. *)

From stdpp Require Import sorting.
From S2P Require Import Prelude Pptr ByteMem SizeClass Regions Ralloc RallocInv RallocRun RallocMalloc RallocGc.

(** ** What a descriptor says after a crash *)

Definition small_desc (d : Descriptor) (i sc : Z) : Prop :=
  heap d = HEAPS_OFF + 64 * sc /\ block_size d = bsz sc /\ maxcount d = mcn sc /\ superblock d = SBSIZE * i.
Definition large_desc (d : Descriptor) (i c : Z) : Prop :=
  heap d = HEAPS_OFF /\ block_size d = SBSIZE * c /\ superblock d = SBSIZE * i /\ maxcount d = 1.
Definition not_in_use (g : Regions) (d : Descriptor) (i : Z) : Prop :=
  heap d = 0 \/ CrossPtr_get g SB_IDX (superblock d) <> sbA g i.

Definition in_sb (g : Regions) (i m : Z) : Prop := sbA g i <= m < sbA g i + SBSIZE.

Section Superblock.
Context {n : Z} {rd rs : RegionManager} (g : Regions) (Gg : geo g n rd rs).

Lemma same_sb i m : 0 <= i < n -> 0 <= m ->
  (Z.shiftr (sbA g i) SB_SHIFT =? Z.shiftr m SB_SHIFT) = bool_decide (in_sb g i m).
Proof.
  intros Hi Hm. destruct (geo_S _ _ _ _ Gg) as [? E]. unfold SB_SHIFT. rewrite !Z.shiftr_div_pow2 by lia. change (2 ^ 16) with 65536.
  unfold in_sb. unfold_cfg. apply Z.mod_divide in E as [q E]; [|lia]. rewrite E. replace (q * 65536 + 65536 * i) with ((q + i) * 65536) by lia.
  rewrite Z.div_mul by lia. pose proof (Z.div_mod m 65536 ltac:(lia)). pose proof (Z.mod_pos_bound m 65536 ltac:(lia)).
  destruct (Z.eqb_spec (q + i) (m / 65536)); symmetry; [apply bool_decide_eq_true|apply bool_decide_eq_false]; lia.
Qed.

Lemma in_use_code d i (P : not_in_use g d i) :
  negb (CrossPtr_is_null (heap d)) && (CrossPtr_get g SB_IDX (superblock d) =? sbA g i) = false.
Proof.
  destruct P as [->|N]; [done|]. rewrite (proj2 (Z.eqb_neq _ _) N). apply andb_false_r.
Qed.

Lemma in_use_yes d i : 1 <= i < n -> heap d <> 0 -> superblock d = SBSIZE * i ->
  negb (CrossPtr_is_null (heap d)) && (CrossPtr_get g SB_IDX (superblock d) =? sbA g i) = true.
Proof.
  intros Hi Hh Hs. unfold CrossPtr_is_null. rewrite (proj2 (Z.eqb_neq _ _) Hh), Hs, (translate_sb Gg) by lia. cbn. apply Z.eqb_refl.
Qed.

(** Marks in a superblock that is not in use are passed over. *)
Lemma sweep_marked_unused s i ms rest sw : r_rgs s = g -> 1 <= i < n -> (ms <> [] -> not_in_use g (dget (r_desc s) (daA g i)) i) ->
  (forall m, m ∈ ms -> in_sb g i m) -> (forall m, m ∈ rest -> sbA g (i + 1) <= m) ->
  sweep_marked (sbA g i) (daA g i) sw (ms ++ rest) s = Ok ((sw, rest), s).
Proof.
  intros Es Hi Nu Hms Hr. pose proof (geo_addr_range Gg i ltac:(lia)) as [_ A].
  assert (Gs : geo (r_rgs s) n rd rs) by now rewrite Es. pose proof (get_d_ok s i Gs ltac:(lia)) as Eg. rewrite Es in Eg.
  induction ms as [|m ms IH]; cbn [app].
  - destruct rest as [|m rest]; [done|]. cbn [sweep_marked]. specialize (Hr m ltac:(left)).
    rewrite same_sb, bool_decide_eq_false_2; [done|unfold in_sb; unfold_cfg; lia|lia|unfold_cfg; lia].
  - cbn [sweep_marked]. pose proof (Hms m ltac:(left)) as Hm. rewrite same_sb, bool_decide_eq_true_2; [|done|lia|unfold in_sb in Hm; lia].
    cpure. crun Eg. rewrite Es, in_use_code by now apply Nu. cpure. apply IH; [intros _; now apply Nu|]. intros x Hx. apply Hms. now right.
Qed.

(** Marks in the first superblock of a large block. *)
Lemma sweep_marked_large s i c w ms rest cnt hd last st : r_rgs s = g -> 1 <= i < n -> large_desc (dget (r_desc s) (daA g i)) i c ->
  heaps (r_md s) !! 0%nat = Some (mkHeap w 0) -> (forall m, m ∈ ms -> in_sb g i m) -> (forall m, m ∈ rest -> sbA g (i + 1) <= m) ->
  sweep_marked (sbA g i) (daA g i) (mkSweep st cnt hd last) (ms ++ rest) s =
  Ok ((mkSweep (match ms with [] => st | _ => SB_FULL end) cnt hd last, rest), s).
Proof.
  intros Es Hi (D1 & D2 & D3 & D4) Hh Hms Hr. pose proof (geo_addr_range Gg i ltac:(lia)) as [_ A].
  assert (Gs : geo (r_rgs s) n rd rs) by now rewrite Es. pose proof (get_d_ok s i Gs ltac:(lia)) as Eg. rewrite Es in Eg.
  revert st. induction ms as [|m ms IH]; intros st; cbn [app].
  - destruct rest as [|m rest]; [done|]. cbn [sweep_marked]. specialize (Hr m ltac:(left)).
    rewrite same_sb, bool_decide_eq_false_2; [done|unfold in_sb; unfold_cfg; lia|lia|unfold_cfg; lia].
  - cbn [sweep_marked]. pose proof (Hms m ltac:(left)) as Hm. rewrite same_sb, bool_decide_eq_true_2; [|done|lia|unfold in_sb in Hm; lia].
    cpure. crun Eg. rewrite Es, in_use_yes by (try done; rewrite D1; done). rewrite D1, D4.
    replace HEAPS_OFF with (HEAPS_OFF + 64 * 0) by lia. crun (heap_index_off Gg s 0 Es ltac:(done)). crun (get_heap_ok s 0 _ Hh). cbn [sc_idx Z.eqb].
    do 2 cpure. cbn [sw_count sw_head sw_last]. rewrite IH; [|intros x Hx; apply Hms; now right]. now destruct ms.
Qed.

(** Updates of one descriptor. *)
Lemma upd_d_at s i f : r_rgs s = g -> 1 <= i < n ->
  upd_d (daA g i) f s = Ok (tt, upd s (r_mem s) (<[daA g i := f (dget (r_desc s) (daA g i))]> (r_desc s)) (r_md s) (r_tc s) (Wrote (daA g i) :: r_trace s)).
Proof. intros Es Hi. assert (Gs : geo (r_rgs s) n rd rs) by now rewrite Es. pose proof (upd_d_ok s i f Gs ltac:(lia)) as E. now rewrite Es in E. Qed.

Lemma upd_d_again s i m dm md tc tr d f : r_rgs s = g -> 1 <= i < n ->
  upd_d (daA g i) f (upd s m (<[daA g i := d]> dm) md tc tr) = Ok (tt, upd s m (<[daA g i := f d]> dm) md tc (Wrote (daA g i) :: tr)).
Proof.
  intros Es Hi. rewrite (upd_d_at (upd s m (<[daA g i := d]> dm) md tc tr) i f Es Hi). rproj. now rewrite dget_eq, insert_insert_eq.
Qed.

Lemma upd_d_thrice s i f1 f2 f3 : r_rgs s = g -> 1 <= i < n -> exists tr,
  (upd_d (daA g i) f1;; upd_d (daA g i) f2;; upd_d (daA g i) f3) s =
  Ok (tt, upd s (r_mem s) (<[daA g i := f3 (f2 (f1 (dget (r_desc s) (daA g i))))]> (r_desc s)) (r_md s) (r_tc s) tr).
Proof.
  intros Es Hi. eexists. crun (upd_d_at s i f1 Es Hi). crun (upd_d_again s i (r_mem s) (r_desc s) (r_md s) (r_tc s) (Wrote (daA g i) :: r_trace s) (f1 (dget (r_desc s) (daA g i))) f2 Es Hi).
  apply (upd_d_again s i (r_mem s) (r_desc s) (r_md s) (r_tc s) _ _ f3 Es Hi).
Qed.

(** ** Free lists *)

Section Class.
Context (sc i : Z) (Hc : class_idx sc) (Hi : 1 <= i < n).
#[local] Abbreviation B := (blk g sc i).

(** The head of the list of blocks [fl]; null if there is none. *)
Definition fl_head (fl : list Z) : Z := match fl with [] => 0 | j :: _ => B j end.

(** The memory differs from [m0] in the links of the blocks [fl] only. *)
Definition only_links (m0 m : bmem) (fl : list Z) : Prop :=
  forall x, (forall j, j ∈ fl -> x < B j \/ B j + 8 <= x) -> rd8 m x = rd8 m0 x.

Lemma blk_lt a b : B a < B b <-> a < b.
Proof. pose proof (class_facts sc Hc). unfold blk. nia. Qed.

Lemma sweep_free_ok k : forall a fuel fl count s, r_rgs s = g -> 0 <= a -> a + Z.of_nat k <= mcn sc -> (k < fuel)%nat ->
  (forall j, j ∈ fl -> 0 <= j < a) -> chain (r_mem s) (fl_head fl) (map B fl) -> 0 <= count -> count + Z.of_nat k < 2 ^ 31 ->
  exists m, sweep_free fuel (B a) (B (a + Z.of_nat k)) (bsz sc) (fl_head fl) count s =
    Ok ((fl_head (rev (seqZ a (Z.of_nat k)) ++ fl), count + Z.of_nat k), with_mem m s) /\
    chain m (fl_head (rev (seqZ a (Z.of_nat k)) ++ fl)) (map B (rev (seqZ a (Z.of_nat k)) ++ fl)) /\
    only_links (r_mem s) m (seqZ a (Z.of_nat k)).
Proof.
  induction k as [|k IH]; intros a fuel fl count s Es Ha Hk Hf Hfl C Hcn Hcm; (destruct fuel as [|fuel]; [lia|]); cbn [sweep_free].
  - rewrite Z.add_0_r, Z.ltb_irrefl. exists (r_mem s). split; [cbn; rewrite Z.add_0_r; now destruct s|]. split; [done|]. now intros x _.
  - rewrite (proj2 (Z.ltb_lt _ _)) by (apply blk_lt; lia). pose proof (class_facts sc Hc) as Cf.
    assert (Ra : 0 <= a < mcn sc) by lia. pose proof (blk_range g n rd rs sc i a Gg Hc Hi Ra) as Rb.
    assert (Gs : geo (r_rgs s) n rd rs) by now rewrite Es.
    assert (St : st_link (B a) (fl_head fl) s = Ok (tt, with_mem (st_pptr (B a) (fl_head fl) (r_mem s)) s)).
    { unfold st_link. pose proof (mapped_blk s n rd rs sc i a Gs Hc Hi Ra) as M. rewrite Es in M. now rewrite M. }
    assert (Rh : 0 <= fl_head fl < 2 ^ 48).
    { destruct fl as [|j fl]; cbn [fl_head]; [lia|]. pose proof (Hfl j ltac:(left)). pose proof (blk_range g n rd rs sc i j Gg Hc Hi ltac:(lia)). lia. }
    crun St. replace (u64 (B a + bsz sc)) with (B (a + 1)) by (unfold blk in *; rewrite u64_small; nia).
    unfold u31. rewrite (Z.mod_small (count + 1)) by lia.
    destruct (IH (a + 1) fuel (a :: fl) (count + 1) (with_mem (st_pptr (B a) (fl_head fl) (r_mem s)) s)) as (m & E & C' & O); [done|lia|lia|lia| | |lia|lia|].
    { intros j [->|Hj]%elem_of_cons; [lia|]. specialize (Hfl j Hj). lia. }
    { cbn [fl_head map chain r_mem with_mem]. split; [done|]. rewrite ld_st_pptr_eq by lia. apply chain_st; [|done].
      intros x Hx. apply elem_of_blks in Hx as (j & -> & Hj). specialize (Hfl j Hj). left. unfold blk. nia. }
    replace (a + 1 + Z.of_nat k) with (a + Z.of_nat (S k)) in E by lia.
    assert (Er : rev (seqZ (a + 1) (Z.of_nat k)) ++ a :: fl = rev (seqZ a (Z.of_nat (S k))) ++ fl).
    { rewrite (seqZ_cons a) by lia. cbn [rev]. replace (Z.pred (Z.of_nat (S k))) with (Z.of_nat k) by lia. change (Z.succ a) with (a + 1).
      rewrite <- app_assoc. done. }
    rewrite Er in E, C'. change (fl_head (a :: fl)) with (B a) in E. exists m. split; [rewrite E; do 2 f_equal; f_equal; lia|]. split; [done|].
    intros x Hx. rewrite O.
    + cbn [r_mem with_mem]. apply rd8_wr. change (Z.of_nat 8) with 8. specialize (Hx a). rewrite elem_of_seqZ in Hx. specialize (Hx ltac:(lia)). lia.
    + intros j Hj. apply Hx. rewrite elem_of_seqZ in *. lia.
Qed.

(** The state of the sweep of a superblock after the marks [pre]. *)
Definition swept_to (m0 m : bmem) (pre : list Z) (l cnt hd : Z) (fl : list Z) : Prop :=
  0 <= l <= mcn sc /\ (forall j, j ∈ pre -> 0 <= j < l) /\ NoDup fl /\ (forall j, j ∈ fl <-> 0 <= j < l /\ j ∉ pre) /\
  cnt = Z.of_nat (length fl) /\ hd = fl_head fl /\ chain m hd (map B fl) /\ only_links m0 m fl.

Lemma nodup_count l k : 0 <= k -> NoDup l -> (forall j, j ∈ l -> 0 <= j < k) -> Z.of_nat (length l) <= k.
Proof.
  intros Hk N R. assert (length l <= length (seqZ 0 k))%nat as L; [|rewrite length_seqZ in L; lia].
  apply NoDup_incl_length; [now apply NoDup_ListNoDup|]. intros x Hx. apply list_elem_of_In, elem_of_seqZ. apply list_elem_of_In, R in Hx. lia.
Qed.

Lemma swept_count m0 m pre l cnt hd fl : swept_to m0 m pre l cnt hd fl -> 0 <= cnt <= l.
Proof.
  intros (Hl & _ & N & E & -> & _). split; [lia|]. apply nodup_count; [lia|done|]. intros j Hj. now apply E in Hj as [? _].
Qed.

(** Blocks up to [b] join the list. *)
Lemma swept_run s m0 pre l cnt hd fl b : r_rgs s = g -> swept_to m0 (r_mem s) pre l cnt hd fl -> l <= b <= mcn sc ->
  exists m fl', sweep_free SWEEP_FUEL (B l) (B b) (bsz sc) hd cnt s = Ok ((fl_head fl', Z.of_nat (length fl')), with_mem m s) /\
    swept_to m0 m pre b (Z.of_nat (length fl')) (fl_head fl') fl'.
Proof.
  intros Es Sw Hb. pose proof (swept_count _ _ _ _ _ _ _ Sw) as Hcnt. pose proof (class_facts sc Hc) as Cf.
  destruct Sw as (Hl & Hpre & N & E & -> & -> & C & O).
  destruct (sweep_free_ok (Z.to_nat (b - l)) l SWEEP_FUEL fl (Z.of_nat (length fl)) s Es) as (m & Er & C' & O'); [lia|lia| |intros j Hj; apply E in Hj; lia|done|lia|lia|].
  { unfold SWEEP_FUEL. change (SBSIZE / 8 + 1) with 8193. lia. }
  rewrite Z2Nat.id in * by lia. replace (l + (b - l)) with b in Er by lia. set (fl' := rev (seqZ l (b - l)) ++ fl) in *.
  assert (Lf : Z.of_nat (length fl') = Z.of_nat (length fl) + (b - l)) by (unfold fl'; rewrite length_app, length_rev, length_seqZ; lia).
  exists m, fl'. rewrite Lf. split; [done|].
  assert (Ei : forall j, j ∈ fl' <-> l <= j < b \/ j ∈ fl) by (intros j; unfold fl'; rewrite elem_of_app, list_elem_of_In, <- in_rev, <- list_elem_of_In, elem_of_seqZ; lia || (split; intros [?|?]; [left; lia|now right|left; lia|now right])).
  split; [lia|]. split; [intros j Hj; specialize (Hpre j Hj); lia|]. split.
  { unfold fl'. apply list.NoDup_app. split; [rewrite NoDup_ListNoDup; apply List.NoDup_rev; rewrite <- NoDup_ListNoDup; apply NoDup_seqZ|]. split; [|done].
    intros j Hj Hf. rewrite list_elem_of_In, <- in_rev, <- list_elem_of_In, elem_of_seqZ in Hj. apply E in Hf. lia. }
  split.
  { intros j. rewrite Ei, E. split; [intros [?|[? ?]]; (split; [lia|]); [|done]; intros Hj; specialize (Hpre j Hj); lia|].
    intros [? ?]. destruct (Z.lt_ge_cases j l); [right; split; [lia|done]|left; lia]. }
  split; [done|]. split; [done|]. split; [done|]. intros x Hx. rewrite O', O; [done|intros j Hj; apply Hx, Ei; now right|].
  intros j Hj. apply Hx, Ei. left. apply elem_of_seqZ in Hj. lia.
Qed.

(** A mark ends the run of free blocks before it. *)
Lemma swept_mark m0 m pre j cnt hd fl : swept_to m0 m pre j cnt hd fl -> 0 <= j < mcn sc -> swept_to m0 m (pre ++ [j]) (j + 1) cnt hd fl.
Proof.
  intros (Hl & Hpre & N & E & Ec & Eh & C & O) Hj. split; [lia|]. split.
  { intros k [Hk|Hk]%elem_of_app; [specialize (Hpre k Hk); lia|]. apply list_elem_of_singleton in Hk as ->. lia. }
  split; [done|]. split; [|done]. intros k. rewrite E, not_elem_of_app, list_elem_of_singleton. split.
  - intros [? ?]. split; [lia|]. split; [done|lia].
  - intros [? [? ?]]. split; [lia|done].
Qed.

Lemma sweep_marked_small w rest : forall js s m0 pre l cnt hd fl st,
  r_rgs s = g -> small_desc (dget (r_desc s) (daA g i)) i sc -> heaps (r_md s) !! Z.to_nat sc = Some (mkHeap w sc) ->
  swept_to m0 (r_mem s) pre l cnt hd fl -> StronglySorted Z.lt js -> (forall j, j ∈ js -> l <= j < mcn sc) ->
  (forall m, m ∈ rest -> sbA g (i + 1) <= m) ->
  exists m l' fl', sweep_marked (sbA g i) (daA g i) (mkSweep st cnt hd (B l)) (map B js ++ rest) s =
    Ok ((mkSweep (match js with [] => st | _ => SB_PARTIAL end) (Z.of_nat (length fl')) (fl_head fl') (B l'), rest), with_mem m s) /\
    swept_to m0 m (pre ++ js) l' (Z.of_nat (length fl')) (fl_head fl') fl'.
Proof.
  pose proof (geo_addr_range Gg i ltac:(lia)) as [_ A].
  induction js as [|j js IH]; intros s m0 pre l cnt hd fl st Es D Hh Sw So Hjs Hr; cbn [map app].
  - exists (r_mem s), l, fl. rewrite app_nil_r. pose proof Sw as (_ & _ & _ & _ & -> & -> & _). split; [|done].
    replace (with_mem (r_mem s) s) with s by now destruct s.
    destruct rest as [|m rest]; [done|]. cbn [sweep_marked]. specialize (Hr m ltac:(left)).
    rewrite same_sb, bool_decide_eq_false_2; [done|unfold in_sb; unfold_cfg; lia|lia|unfold_cfg; lia].
  - pose proof (Hjs j ltac:(left)) as Hj. pose proof Sw as (Hl & _). destruct (blk_offset g sc i j Hc ltac:(lia)) as (Eb & ? & ?). pose proof (class_facts sc Hc) as Cf.
    cbn [sweep_marked]. rewrite same_sb, bool_decide_eq_true_2; [|unfold in_sb; rewrite Eb; unfold_cfg; lia|lia|rewrite Eb; lia].
    assert (Gs : geo (r_rgs s) n rd rs) by now rewrite Es. pose proof (get_d_ok s i Gs ltac:(lia)) as Eg. rewrite Es in Eg.
    pose proof D as (D1 & D2 & D3 & D4). cpure. crun Eg. rewrite Es, in_use_yes; [|done|rewrite D1; unfold HEAPS_OFF, class_idx in *; lia|done]. rewrite D1, D2.
    pose proof Hc as [Hc1 Hc2]. crun (heap_index_off Gg s sc Es ltac:(lia)). crun (get_heap_ok s sc _ Hh). cbn [sc_idx sw_last sw_head sw_count].
    rewrite (proj2 (Z.eqb_neq _ _)) by lia.
    destruct (swept_run s m0 pre l cnt hd fl j Es Sw ltac:(lia)) as (m & fl1 & Er & Sw1). crun Er. cpure.
    pose proof (blk_range g n rd rs sc i j Gg Hc Hi ltac:(lia)).
    replace (u64 (B j + bsz sc)) with (B (j + 1)) by (unfold blk in *; rewrite u64_small; nia).
    apply swept_mark in Sw1; [|lia]. inversion So as [|? ? So' Fo]; subst. rewrite list.Forall_forall in Fo.
    destruct (IH (with_mem m s) m0 (pre ++ [j]) (j + 1) _ _ fl1 SB_PARTIAL Es D Hh Sw1 So') as (m' & l' & fl' & E' & Sw'); [|done|].
    { intros k Hk. pose proof (Fo k Hk). specialize (Hjs k ltac:(now right)). lia. }
    exists m', l', fl'. rewrite <- app_assoc in Sw'. split; [|done]. rewrite E'. now destruct js.
Qed.

Lemma swept_start m0 : swept_to m0 m0 [] 0 0 0 [].
Proof.
  pose proof (class_facts sc Hc). split; [lia|]. split; [intros j Hj; now apply not_elem_of_nil in Hj|]. split; [constructor|].
  split; [|done]. intros j. split; [intros Hj; now apply not_elem_of_nil in Hj|lia].
Qed.

(** The end of the superblock: the rest of its blocks joins the list, and it goes to the partial
    list of its class if the list is not empty. *)
Definition swept_small (s : rst) (m : bmem) (d : Descriptor) (md : BaseMeta) (js fl pl : list Z) : Prop :=
  let dm := <[daA g i := d]> (r_desc s) in
  (forall j, j ∈ fl <-> 0 <= j < mcn sc /\ j ∉ js) /\ small_ok g dm m i sc fl /\
  part_ok g dm (heaps md) sc (match fl with [] => pl | _ => i :: pl end) /\
  (md = r_md s \/ exists w, md = upd_heap (r_md s) sc w).

Lemma hd_offset j : 0 <= j < mcn sc -> u64 (B j - sbA g i) mod bsz sc = 0 /\ u31 (u64 (B j - sbA g i) / bsz sc) = j.
Proof.
  intros Hj. pose proof (class_facts sc Hc). pose proof (blk_range g n rd rs sc i j Gg Hc Hi Hj). unfold blk in *.
  replace (sbA g i + j * bsz sc - sbA g i) with (j * bsz sc) by lia. rewrite u64_small by nia.
  rewrite Z.mod_mul, Z.div_mul by lia. split; [done|]. unfold u31. apply Z.mod_small. lia.
Qed.

Lemma sweep_small_ok s m0 js l cnt hd fl st pl : r_rgs s = g -> small_desc (dget (r_desc s) (daA g i)) i sc ->
  part_ok g (r_desc s) (heaps (r_md s)) sc pl -> (forall j, j ∈ pl -> 1 <= j < n) -> i ∉ pl -> js <> [] ->
  swept_to m0 (r_mem s) js l cnt hd fl ->
  exists m fl' d md tr, sweep_small (sbA g i) (daA g i) (mkSweep st cnt hd (B l)) s =
    Ok (tt, upd s m (<[daA g i := d]> (r_desc s)) md (r_tc s) tr) /\ swept_small s m d md js fl' pl /\ only_links m0 m fl'.
Proof.
  intros Es (D1 & D2 & D3 & D4) Pt Hpl Npl Njs Sw. pose proof (class_facts sc Hc) as Cf. assert (Gs : geo (r_rgs s) n rd rs) by now rewrite Es.
  unfold sweep_small. cbn [sw_last sw_head sw_count]. pose proof (get_d_ok s i Gs ltac:(lia)) as Eg. rewrite Es in Eg. crun Eg.
  rewrite D2, D3, (blk_code g n rd rs sc i (mcn sc) Gg Hc Hi) by lia. pose proof Sw as (Hl & _).
  destruct (swept_run s m0 js l cnt hd fl (mcn sc) Es Sw ltac:(lia)) as (m & fl' & Er & Sw'). crun Er. clear Sw Er.
  destruct Sw' as (_ & Hjs & Nd & Ef & _ & _ & C & O). exists m, fl'.
  assert (Rf : forall j, j ∈ fl' -> 0 <= j < mcn sc) by (intros j Hj; now apply Ef).
  destruct fl' as [|j0 fl'].
  - cbn [length Z.of_nat Z.eqb]. set (s1 := with_mem m s).
    destruct (upd_d_thrice s1 i (set_next_free (to_pptr_off 0 (daA g i))) (set_next_partial (to_pptr_off 0 (daA g i + 8)))
      (set_anchor (mkAnchor (u31 (mcn sc)) 0 SB_FULL)) Es Hi) as (tr & E).
    do 3 eexists. split; [exact E|]. split; [|done]. split; [exact Ef|]. unfold s1. rproj. split; [|split; [|now left]].
    + unfold small_ok. rewrite dget_eq. cbn [heap block_size maxcount superblock anchor set_anchor set_next_free set_next_partial avail map chain anchor_ok].
      unfold u31. rewrite Z.mod_small by lia. done.
    + revert Pt. apply part_ok_ext; [|done]. intros j Hj. apply nextp_ne. intros <-. done.
  - set (fl1 := j0 :: fl') in *. pose proof (Rf j0 ltac:(left)) as R0. destruct (hd_offset j0 R0) as [Ho1 Ho2]. pose proof (blk_range g n rd rs sc i j0 Gg Hc Hi R0) as Rb.
    rewrite (proj2 (Z.eqb_neq _ _)) by (unfold fl1; cbn [length]; lia). change (fl_head fl1) with (B j0) in *. rewrite (proj2 (Z.eqb_neq (B j0) 0)) by lia. rewrite Ho1.
    assert (Lf : Z.of_nat (length fl1) < mcn sc).
    { destruct js as [|jx js]; [done|]. cut (Z.of_nat (length (jx :: fl1)) <= mcn sc); [cbn [length]; lia|]. apply nodup_count; [lia| |].
      - apply list.NoDup_cons. split; [|done]. intros Hin. apply Ef in Hin as [_ Hin]. apply Hin. left.
      - intros j [->|Hj]%elem_of_cons; [apply Hjs; left|now apply Rf]. }
    do 2 (rewrite (cbind_Ok _ _ _ tt (with_mem m s)) by done). set (s1 := with_mem m s).
    crun (upd_d_at s1 i (set_next_free (to_pptr_off 0 (daA g i))) Es Hi).
    set (d1 := set_next_free _ _). match goal with |- context [cbind (heap_push_partial _) _ ?st] => set (s2 := st) end.
    assert (G2 : geo (r_rgs s2) n rd rs) by exact Gs.
    destruct (heap_push_partial_ok s2 sc i pl G2 Hc Hi Hpl Npl) as (w & q & tr & E & Hw & D).
    { change (r_rgs s2) with (r_rgs s). rewrite Es. unfold s2. rproj. rewrite dget_eq. exact D1. }
    { change (r_rgs s2) with (r_rgs s). rewrite Es. revert Pt. apply part_ok_ext; [|done]. intros j Hj. apply nextp_ne. intros <-. done. }
    change (r_rgs s2) with (r_rgs s) in E, Hw, D. rewrite Es in E, Hw, D. unfold s2 in E, D. rproj in E D. rewrite dget_eq, insert_insert_eq in E.
    do 3 eexists. split.
    { crun E. apply (upd_d_again s i m (r_desc s) (upd_heap (r_md s) sc w) (r_tc s) tr (set_next_partial q d1) _ Es Hi). }
    rewrite Ho2. split; [|done]. split; [exact Ef|]. split; [|split; [|right; now exists w]].
    + unfold small_ok. rewrite dget_eq. cbn [heap block_size maxcount superblock anchor set_anchor set_next_partial avail]. unfold d1, s1. rproj.
      cbn [heap block_size maxcount superblock set_next_free]. do 6 (split; [done|]). split; [|exact C].
      cbn [anchor_ok avail count state]. split; [done|]. destruct (decide _); [lia|done].
    + exists w, (daA g i). split; [|split; [done|]].
      * cbn. apply list_lookup_insert_eq. destruct Pt as (w' & p' & Hw' & _). now apply lookup_lt_Some in Hw'.
      * unfold fl1. cbn [dlist]. split; [done|]. unfold nextp at 2. rewrite dget_eq. cbn [next_partial set_anchor set_next_partial].
        eapply dlist_ext; [|exact D]. intros j Hj. rewrite !nextp_ne; [done|intros <-; done|intros <-; done].
Qed.

End Class.
End Superblock.
