(* ===== verification/RallocRecover.v ===== *)
(** * Recovery of a Ralloc heap is correct

    The sweep goes through the superblocks in order and rebuilds the descriptors, the free lists
    and the partial lists; after each superblock the part behind it satisfies the invariant of
    the allocator. When it is done the whole heap does, and the blocks in use are the marked
    ones, with their contents. *)

From stdpp Require Import sorting functions.
From S2P Require Import Prelude Pptr ByteMem SizeClass Regions Ralloc RallocInv RallocRun RallocMalloc RallocFill RallocFree.
From S2P Require Import RallocClient RallocGc RallocSweep.

(** ** What the superblocks hold after a crash *)

(** The descriptors of superblocks in use still say what the superblocks are for; anchors and
    links may be anything. *)
Record layout (g : Regions) (n : Z) (dm : gmap Z Descriptor) (k : Z -> kind) : Prop := {
  lay_small : forall i sc fl, 1 <= i < n -> k i = KSmall sc fl -> class_idx sc /\ small_desc (dget dm (daA g i)) i sc;
  lay_large : forall i c, 1 <= i < n -> k i = KLarge c -> 1 <= c < 2 ^ 16 /\ i + c <= n /\ large_desc (dget dm (daA g i)) i c /\
    (forall j, i < j < i + c -> k j = KBody) }.

(** A block of [sz] bytes of a superblock in use, allocated or not. *)
Inductive slot (g : Regions) (n : Z) (k : Z -> kind) : Z -> Z -> Prop :=
| slot_small i sc fl j : 1 <= i < n -> k i = KSmall sc fl -> 0 <= j < mcn sc -> slot g n k (blk g sc i j) (bsz sc)
| slot_large i c : 1 <= i < n -> k i = KLarge c -> slot g n k (sbA g i) (SBSIZE * c).

(** A free superblock whose descriptor is as [construct] leaves it. *)
Definition unused (g : Regions) (dm : gmap Z Descriptor) (k : Z -> kind) (i : Z) : Prop :=
  k i = KFree /\ heap (dget dm (daA g i)) = 0 /\ block_size (dget dm (daA g i)) = 0.

(** Where marks may be: at the start of a block, or in an unused superblock. *)
Definition mark_place (g : Regions) (n : Z) (dm : gmap Z Descriptor) (k : Z -> kind) (a : Z) : Prop :=
  (exists sz, slot g n k a sz) \/ (exists i, 1 <= i < n /\ in_sb g i a /\ unused g dm k i).

(** ** One more superblock *)

Definition width (k : kind) : Z := match k with KLarge c => c | _ => 1 end.

(** The ghost state after the superblock [gn G] has been found to be a [k]. *)
Definition grow (G : ghost) (k : kind) : ghost :=
  mkG (gn G + width k) (fun j => if decide (j < gn G) then gk G j else if decide (j = gn G) then k else KBody)
    (match k with KFree => gn G :: gav G | _ => gav G end)
    (match k with KSmall sc (_ :: _) => <[sc := gn G :: gpt G sc]> (gpt G) | _ => gpt G end)
    (gca G) None.

Lemma grow_lt G k j : j < gn G -> gk (grow G k) j = gk G j.
Proof. intros. cbn. now destruct (decide _). Qed.
Lemma grow_at G k : gk (grow G k) (gn G) = k.
Proof. cbn. destruct (decide _); [lia|]. now destruct (decide _). Qed.
Lemma grow_gt G k j : gn G < j -> gk (grow G k) j = KBody.
Proof. intros. cbn. destruct (decide _); [lia|]. destruct (decide _); [lia|done]. Qed.

(** The three places of an index. *)
Ltac grow_cases G kd j :=
  let H := fresh "Hlt" in
  destruct (Z.lt_trichotomy j (gn G)) as [H|[H|H]];
  [rewrite ?(grow_lt G kd j H)|subst j; rewrite ?(grow_at G kd)|rewrite ?(grow_gt G kd j H)].

Section Recover.
Context (s0 : rst) {n : Z} {rd rs : RegionManager} (Gg : geo (r_rgs s0) n rd rs).
Context (k : Z -> kind) (M : Z -> Prop).
#[local] Abbreviation g := (r_rgs s0).

(** The blocks in use that superblock [i] brings. *)
Definition new_live (i : Z) (kd : kind) (b sz : Z) : Prop :=
  match kd with
  | KSmall sc fl => exists j, 0 <= j < mcn sc /\ (j ∉ fl) /\ b = blk g sc i j /\ sz = bsz sc
  | KLarge c => b = sbA g i /\ sz = SBSIZE * c
  | _ => False
  end.

Lemma live_grow G kd b sz : (forall sc, gca G sc = []) -> 1 <= gn G -> 1 <= width kd ->
  live g (grow G kd) b sz <-> live g G b sz \/ new_live (gn G) kd b sz.
Proof.
  intros Ca H1 Hw. split.
  - intros [i sc fl j Hi Hk Hj Nj Nc|i c Hi Hk]; revert Hk; grow_cases G kd i; intros Hk; try discriminate.
    + left. apply (live_small g G i sc fl); [lia|done|done|done|]. now rewrite Ca.
    + right. subst kd. now exists j.
    + left. now apply live_large.
    + right. now subst kd.
  - intros [[i sc fl j Hi Hk Hj Nj Nc|i c Hi Hk]|Hn].
    + apply (live_small g _ i sc fl); [cbn; lia|rewrite grow_lt; [done|lia]|done|done|done].
    + apply live_large; [cbn; lia|rewrite grow_lt; [done|lia]].
    + destruct kd as [|sc fl|c|]; cbn in Hn; try done.
      * destruct Hn as (j & Hj & Nj & -> & ->). apply (live_small g _ (gn G) sc fl); [cbn; lia|apply grow_at|done|done|].
        cbn [gca grow]. rewrite Ca. apply not_elem_of_nil.
      * destruct Hn as (-> & ->). apply live_large; [cbn in *; lia|apply grow_at].
Qed.

(** ** The invariant of the sweep *)

(** [G] describes the superblocks below [gn G], [av] is the head of the new list of free ones;
    what is above is as it was. *)
Record swept (s : rst) (G : ghost) (av : Z) : Prop := {
  sp_rgs : r_rgs s = g;
  sp_tc : r_tc s = r_tc s0;
  sp_fixed : fixed_part s = fixed_part s0;
  sp_len : length (heaps (r_md s)) = Z.to_nat MAX_SZ_IDX;
  sp_heap0 : exists w, heaps (r_md s) !! 0%nat = Some (mkHeap w 0);
  sp_n : 1 <= gn G <= n;
  sp_gow : gow G = None;
  sp_gca : forall sc, gca G sc = [];
  sp_avail : dlist g (nextf g (r_desc s)) av (gav G);
  sp_av_nodup : NoDup (gav G);
  sp_av_kind : forall i, i ∈ gav G <-> 1 <= i < gn G /\ gk G i = KFree;
  sp_part : forall sc, class_idx sc -> part_ok g (r_desc s) (heaps (r_md s)) sc (gpt G sc);
  sp_pt_nodup : forall sc, class_idx sc -> NoDup (gpt G sc);
  sp_pt_kind : forall sc i, class_idx sc -> i ∈ gpt G sc <-> 1 <= i < gn G /\ exists fl, gk G i = KSmall sc fl /\ fl <> [];
  sp_small : forall i sc fl, 1 <= i < gn G -> gk G i = KSmall sc fl -> class_idx sc /\ small_ok g (r_desc s) (r_mem s) i sc fl;
  sp_large : forall i c, 1 <= i < gn G -> gk G i = KLarge c ->
    1 <= c < 2 ^ 16 /\ i + c <= gn G /\ large_ok g (r_desc s) i c /\ (forall j, i < j < i + c -> gk G j = KBody);
  sp_body : forall j, 1 <= j < gn G -> gk G j = KBody -> exists i c, 1 <= i < j /\ j < i + c /\ gk G i = KLarge c;
  sp_rest : forall j, gn G <= j -> dget (r_desc s) (daA g j) = dget (r_desc s0) (daA g j);
  sp_bytes : forall x, sbA g (gn G) <= x \/ in_live g G x -> rd8 (r_mem s) x = rd8 (r_mem s0) x;
  sp_live : forall b sz, live g G b sz <-> slot g n k b sz /\ M b /\ b < sbA g (gn G) }.

Lemma live_below s G av b sz : swept s G av -> live g G b sz -> b + sz <= sbA g (gn G).
Proof.
  intros Sw [i sc fl j Hi Hk Hj _ _|i c Hi Hk].
  - destruct (sp_small _ _ _ Sw i sc fl Hi Hk) as [Hc _]. pose proof (blk_offset g sc i j Hc Hj). unfold_cfg. lia.
  - destruct (sp_large _ _ _ Sw i c Hi Hk) as (? & ? & _). unfold_cfg. lia.
Qed.

(** What the code must have done to superblock [gn G]. *)
Definition new_ok (dm : gmap Z Descriptor) (m : bmem) (i : Z) (kd : kind) : Prop :=
  match kd with
  | KFree => True
  | KSmall sc fl => class_idx sc /\ small_ok g dm m i sc fl
  | KLarge c => 1 <= c < 2 ^ 16 /\ large_ok g dm i c
  | KBody => False
  end.

Record done_with (s : rst) (G : ghost) (m : bmem) (d : Descriptor) (md : BaseMeta) (av' : Z) (kd : kind) : Prop := {
  dw_n : gn G + width kd <= n;
  dw_md : md = r_md s \/ exists w sc, class_idx sc /\ md = upd_heap (r_md s) sc w;
  dw_mem : forall x, ~ in_sb g (gn G) x -> rd8 m x = rd8 (r_mem s) x;
  dw_ok : new_ok (<[daA g (gn G) := d]> (r_desc s)) m (gn G) kd;
  dw_avail : dlist g (nextf g (<[daA g (gn G) := d]> (r_desc s))) av' (gav (grow G kd));
  dw_part : forall sc, class_idx sc -> part_ok g (<[daA g (gn G) := d]> (r_desc s)) (heaps md) sc (gpt (grow G kd) sc);
  dw_live : forall b sz, new_live (gn G) kd b sz <-> slot g n k b sz /\ M b /\ sbA g (gn G) <= b < sbA g (gn G + width kd);
  dw_bytes : forall b sz x, new_live (gn G) kd b sz -> b <= x < b + sz -> rd8 m x = rd8 (r_mem s) x }.

Section Grow.
Context (s : rst) (G : ghost) (av : Z) (Sw : swept s G av).
Context (m : bmem) (d : Descriptor) (md : BaseMeta) (av' : Z) (kd : kind) (D : done_with s G m d md av' kd).
#[local] Abbreviation i := (gn G).
#[local] Abbreviation dm := (<[daA g (gn G) := d]> (r_desc s)).

Lemma dw_width : 1 <= width kd.
Proof. pose proof (dw_ok _ _ _ _ _ _ _ D) as H. destruct kd; cbn in *; lia. Qed.

Lemma grow_small j sc fl : 1 <= j < i + width kd -> gk (grow G kd) j = KSmall sc fl -> class_idx sc /\ small_ok g dm m j sc fl.
Proof.
  intros Hj. grow_cases G kd j; intros Hk; [|pose proof (dw_ok _ _ _ _ _ _ _ D) as H; now rewrite Hk in H|discriminate].
  destruct (sp_small _ _ _ Sw j sc fl ltac:(lia) Hk) as [Hc Sm]. split; [done|]. pose proof Sm as (_ & _ & _ & _ & _ & Rf & _).
  revert Sm. apply small_ok_ext; [now rewrite dget_daA_ne by lia|]. intros x Hx. apply ld_pptr_ext. intros a Ha. apply (dw_mem _ _ _ _ _ _ _ D).
  pose proof (blk_offset g sc j x Hc (Rf x Hx)). pose proof (class_facts sc Hc). unfold in_sb. unfold_cfg. lia.
Qed.

Lemma grow_large j c : 1 <= j < i + width kd -> gk (grow G kd) j = KLarge c ->
  1 <= c < 2 ^ 16 /\ j + c <= i + width kd /\ large_ok g dm j c /\ (forall j', j < j' < j + c -> gk (grow G kd) j' = KBody).
Proof.
  pose proof dw_width as Hw. intros Hj. grow_cases G kd j; intros Hk; [| |discriminate].
  - destruct (sp_large _ _ _ Sw j c ltac:(lia) Hk) as (? & ? & La & Bd). split; [done|]. split; [lia|]. split.
    + revert La. apply large_ok_same. apply dget_daA_ne. lia.
    + intros j' Hj'. rewrite grow_lt by lia. now apply Bd.
  - pose proof (dw_ok _ _ _ _ _ _ _ D) as H. rewrite Hk in *. cbn in *. destruct H as [? ?]. split; [done|]. split; [lia|]. split; [done|].
    intros j' Hj'. destruct (decide _); [lia|]. destruct (decide _); [lia|done].
Qed.

Lemma grow_body j : 1 <= j < i + width kd -> gk (grow G kd) j = KBody -> exists i' c, 1 <= i' < j /\ j < i' + c /\ gk (grow G kd) i' = KLarge c.
Proof.
  pose proof (sp_n _ _ _ Sw). intros Hj. grow_cases G kd j; intros Hk.
  - destruct (sp_body _ _ _ Sw j ltac:(lia) Hk) as (i' & c & ? & ? & ?). exists i', c. rewrite grow_lt by lia. done.
  - pose proof (dw_ok _ _ _ _ _ _ _ D) as H'. now rewrite Hk in H'.
  - destruct kd as [| |c|] eqn:Ek; cbn [width] in Hj; try lia. exists i, c. rewrite grow_at. split; [lia|]. split; [lia|done].
Qed.

Lemma grow_av j : j ∈ gav (grow G kd) <-> 1 <= j < i + width kd /\ gk (grow G kd) j = KFree.
Proof.
  pose proof (sp_n _ _ _ Sw). pose proof dw_width. grow_cases G kd j; cbn [gav grow].
  - assert (E : j ∈ match kd with KFree => i :: gav G | _ => gav G end <-> j ∈ gav G).
    { destruct kd; try done. rewrite elem_of_cons. split; [|tauto]. intros [?|?]; [lia|done]. }
    rewrite E, (sp_av_kind _ _ _ Sw). split; intros [? ?]; (split; [lia|done]).
  - destruct kd; try (rewrite (sp_av_kind _ _ _ Sw); split; [lia|intros [_ ?]; discriminate]). split; [|left]. cbn in *. intros _. split; [lia|done].
  - split; [|intros [_ ?]; discriminate]. destruct kd; try (rewrite (sp_av_kind _ _ _ Sw); lia). rewrite elem_of_cons, (sp_av_kind _ _ _ Sw). lia.
Qed.

Lemma elem_of_grow_pt sc j : j ∈ gpt (grow G kd) sc <-> j ∈ gpt G sc \/ (j = i /\ exists fl, kd = KSmall sc fl /\ fl <> []).
Proof.
  cbn [gpt grow]. destruct kd as [|sc' [|j0 fl]|c|]; try (split; [tauto|intros [?|(_ & fl' & E & N)]; [done|congruence]]).
  destruct (decide (sc' = sc)) as [<-|Ne]; fins.
  - rewrite elem_of_cons. split; [intros [->|?]; [right; split; [done|]; exists (j0 :: fl); done|tauto]|intros [?|[-> _]]; tauto].
  - split; [tauto|intros [?|(_ & fl' & E & N)]; [done|congruence]].
Qed.

Lemma grow_pt sc j : class_idx sc -> j ∈ gpt (grow G kd) sc <-> 1 <= j < i + width kd /\ exists fl, gk (grow G kd) j = KSmall sc fl /\ fl <> [].
Proof.
  intros Hc. pose proof (sp_n _ _ _ Sw). pose proof dw_width. rewrite elem_of_grow_pt, (sp_pt_kind _ _ _ Sw sc j Hc). grow_cases G kd j.
  - split; [intros [[? ?]|[? _]]; [split; [lia|done]|lia]|]. intros [? ?]. left. split; [lia|done].
  - split; [intros [[? _]|[_ ?]]; [lia|split; [lia|done]]|]. intros [? ?]. now right.
  - split; [lia|]. intros [_ (fl & ? & _)]. discriminate.
Qed.

Lemma swept_grow tr : swept (upd s m dm md (r_tc s) tr) (grow G kd) av'.
Proof.
  pose proof (sp_n _ _ _ Sw) as Hn. pose proof dw_width as Hw. pose proof (dw_n _ _ _ _ _ _ _ D) as Hwn.
  pose proof (dw_md _ _ _ _ _ _ _ D) as Emd.
  constructor; rproj; try solve [apply Sw|apply D].
  - rewrite <- (sp_fixed _ _ _ Sw). destruct Emd as [->|(w & sc & _ & ->)]; reflexivity.
  - rewrite <- (sp_len _ _ _ Sw). destruct Emd as [->|(w & sc & _ & ->)]; [done|]. cbn. apply length_insert.
  - destruct (sp_heap0 _ _ _ Sw) as [w0 Hw0]. exists w0. destruct Emd as [->|(w & sc & Hc & ->)]; [done|]. cbn.
    rewrite list_lookup_insert_ne; [done|]. unfold class_idx in Hc. lia.
  - cbn [gn grow]. lia.
  - done.
  - cbn [gav grow]. destruct kd; try apply Sw. apply list.NoDup_cons. split; [|apply Sw]. intros H. apply (sp_av_kind _ _ _ Sw) in H. lia.
  - apply grow_av.
  - intros sc Hc. cbn [gpt grow]. destruct kd as [|sc' [|j0 fl]|c|]; try now apply Sw. destruct (decide (sc' = sc)) as [<-|Ne]; fins; [|now apply Sw].
    apply list.NoDup_cons. split; [|now apply Sw]. intros H. apply (sp_pt_kind _ _ _ Sw) in H; [lia|done].
  - apply grow_pt.
  - apply grow_small.
  - apply grow_large.
  - apply grow_body.
  - cbn [gn grow]. intros j Hj. rewrite dget_daA_ne by lia. apply Sw. lia.
  - cbn [gn grow]. intros x [Hx|(b & sz & L & Hx)].
    + rewrite (dw_mem _ _ _ _ _ _ _ D); [apply Sw; left|unfold in_sb]; unfold_cfg; lia.
    + apply live_grow in L as [L|L]; [| |apply Sw|lia|done].
      * pose proof (live_below s G av b sz Sw L). rewrite (dw_mem _ _ _ _ _ _ _ D) by (unfold in_sb; lia). apply (sp_bytes _ _ _ Sw). right. now exists b, sz.
      * rewrite (dw_bytes _ _ _ _ _ _ _ D b sz x L Hx). apply (sp_bytes _ _ _ Sw). left. destruct (proj1 (dw_live _ _ _ _ _ _ _ D b sz) L) as (_ & _ & ?). lia.
  - intros b sz. rewrite live_grow; [|apply Sw|lia|done]. rewrite (sp_live _ _ _ Sw), (dw_live _ _ _ _ _ _ _ D). cbn [gn grow].
    assert (sbA g i <= sbA g (i + width kd)) by (unfold_cfg; lia). split; [intros [(? & ? & ?)|(? & ? & ?)]; repeat split; try done; lia|].
    intros (? & ? & ?). destruct (Z.lt_ge_cases b (sbA g i)); [left|right]; repeat split; try done; lia.
Qed.

End Grow.

(** ** Marks and superblocks *)

Context (L : layout g n (r_desc s0) k) (HM : forall a, M a -> mark_place g n (r_desc s0) k a).

Lemma slot_sb b sz : slot g n k b sz -> exists i, 1 <= i < n /\ in_sb g i b /\ b + sz <= sbA g n /\ 8 <= sz.
Proof.
  intros [i sc fl j Hi Hk Hj|i c Hi Hk]; exists i; (split; [done|]); unfold in_sb.
  - destruct (lay_small _ _ _ _ L i sc fl Hi Hk) as [Hc _]. pose proof (blk_offset g sc i j Hc Hj). pose proof (class_facts sc Hc). unfold_cfg. lia.
  - destruct (lay_large _ _ _ _ L i c Hi Hk) as (? & ? & _). unfold_cfg. lia.
Qed.

Lemma in_sb_inj i j a : in_sb g i a -> in_sb g j a -> i = j.
Proof. unfold in_sb. unfold_cfg. lia. Qed.

Lemma slot_at i b sz : slot g n k b sz -> in_sb g i b ->
  match k i with
  | KSmall sc _ => exists j, 0 <= j < mcn sc /\ b = blk g sc i j /\ sz = bsz sc
  | KLarge c => b = sbA g i /\ sz = SBSIZE * c
  | _ => False
  end.
Proof.
  intros [i' sc fl j Hi Hk Hj|i' c Hi Hk] Hb.
  - assert (i' = i) as ->; [|rewrite Hk; now exists j]. destruct (lay_small _ _ _ _ L i' sc fl Hi Hk) as [Hc _]. pose proof (blk_offset g sc i' j Hc Hj).
    apply (in_sb_inj i' i (blk g sc i' j)); [|done]. unfold in_sb. pose proof (class_facts sc Hc). unfold_cfg. lia.
  - assert (i' = i) as ->; [|now rewrite Hk]. apply (in_sb_inj i' i (sbA g i')); [|done]. unfold in_sb. unfold_cfg. lia.
Qed.

Lemma mark_at i a : M a -> in_sb g i a ->
  match k i with
  | KSmall sc _ => exists j, 0 <= j < mcn sc /\ a = blk g sc i j
  | KLarge c => a = sbA g i
  | KFree => not_in_use g (dget (r_desc s0) (daA g i)) i
  | KBody => False
  end.
Proof.
  intros Ha Hi. destruct (HM a Ha) as [[sz Hs]|(j & Hj & Hja & Ek & Eh & _)].
  - pose proof (slot_at i a sz Hs Hi) as H. destruct (k i); try done; [|now destruct H]. destruct H as (j & ? & ? & _). now exists j.
  - rewrite (in_sb_inj i j a Hi Hja), Ek. now left.
Qed.

Lemma mark_sb a : M a -> exists i, 1 <= i < n /\ in_sb g i a.
Proof. intros Ha. destruct (HM a Ha) as [[sz Hs]|(j & Hj & Hja & _)]; [destruct (slot_sb a sz Hs) as (i & ? & ? & _); now exists i|now exists j]. Qed.

(** What is left of the iterator at superblock [i]. *)
Definition iter (i : Z) (ms : list Z) : Prop := StronglySorted Z.lt ms /\ (forall m, m ∈ ms <-> M m /\ sbA g i <= m).

Lemma iter_split i ms : iter i ms -> exists pre rest, ms = pre ++ rest /\ StronglySorted Z.lt pre /\ iter (i + 1) rest /\
  (forall m, m ∈ pre <-> M m /\ in_sb g i m).
Proof.
  intros [So E]. assert (H : exists pre rest, ms = pre ++ rest /\ StronglySorted Z.lt pre /\ StronglySorted Z.lt rest /\
    (forall m, m ∈ pre -> m < sbA g (i + 1)) /\ (forall m, m ∈ rest -> sbA g (i + 1) <= m)).
  { clear E. induction So as [|m ms So IH Fm]; [exists [], []; repeat split; try constructor; intros ? H; now apply not_elem_of_nil in H|].
    rewrite list.Forall_forall in Fm. destruct (Z.lt_ge_cases m (sbA g (i + 1))) as [Hm|Hm].
    - destruct IH as (pre & rest & -> & S1 & S2 & H1 & H2). exists (m :: pre), rest. split; [done|]. split.
      + constructor; [done|]. rewrite list.Forall_forall. intros x Hx. apply Fm, elem_of_app. now left.
      + split; [done|]. split; [|done]. intros x [->|Hx]%elem_of_cons; [done|now apply H1].
    - exists [], (m :: ms). split; [done|]. split; [constructor|]. split; [constructor; [done|now rewrite list.Forall_forall]|].
      split; [intros x Hx; now apply not_elem_of_nil in Hx|]. intros x [->|Hx]%elem_of_cons; [done|]. specialize (Fm x Hx). lia. }
  destruct H as (pre & rest & -> & S1 & S2 & H1 & H2). assert (sbA g (i + 1) = sbA g i + SBSIZE) as Es by (unfold_cfg; lia).
  exists pre, rest. split; [done|]. split; [done|]. unfold in_sb. split; [split; [done|]|]; intros m; specialize (E m); rewrite elem_of_app in E.
  - split; [intros Hm; split; [now apply E; right|now apply H2]|]. intros [Hm ?]. destruct (proj2 E ltac:(split; [done|unfold_cfg; lia])) as [Hp|Hp]; [|done].
    specialize (H1 m Hp). lia.
  - split; [intros Hm; specialize (H1 m Hm); apply or_introl with (B := m ∈ rest) in Hm; apply E in Hm as [? ?]; split; [done|lia]|].
    intros [Hm ?]. destruct (proj2 E ltac:(split; [done|lia])) as [Hp|Hp]; [done|]. specialize (H2 m Hp). lia.
Qed.

Lemma iter_skip i c rest : k i = KLarge c -> 1 <= i < n -> iter (i + 1) rest -> iter (i + c) rest.
Proof.
  intros Hk Hi [So E]. split; [done|]. intros m. rewrite E. destruct (lay_large _ _ _ _ L i c Hi Hk) as (? & ? & _ & Bd).
  split; [|unfold_cfg; intros [? ?]; split; [done|lia]]. intros [Hm ?]. split; [done|]. destruct (mark_sb m Hm) as (j & Hj & Hjm).
  destruct (Z.lt_ge_cases j (i + c)); [|unfold in_sb in Hjm; unfold_cfg; lia]. destruct (decide (i < j)) as [Hij|]; [|unfold in_sb in Hjm; unfold_cfg; lia].
  pose proof (mark_at j m Hm Hjm) as X. now rewrite (Bd j ltac:(lia)) in X.
Qed.

Lemma iter_end ms : iter n ms -> ms = [].
Proof.
  intros [_ E]. destruct ms as [|m ms]; [done|]. destruct (proj1 (E m) ltac:(left)) as [Hm ?]. destruct (mark_sb m Hm) as (j & Hj & Hjm).
  unfold in_sb in Hjm. unfold_cfg. lia.
Qed.

(** ** The three outcomes for a superblock *)

Section Step.
Context (s : rst) (G : ghost) (av : Z) (Sw : swept s G av) (Hlt : gn G < n).
#[local] Abbreviation i := (gn G).

Lemma sp_range : 1 <= i < n.
Proof. pose proof (sp_n _ _ _ Sw). lia. Qed.

Lemma sp_av_range j : j ∈ gav G -> 1 <= j < n /\ j <> i.
Proof. intros Hj. apply (sp_av_kind _ _ _ Sw) in Hj. pose proof sp_range. lia. Qed.

Lemma sp_pt_range sc j : class_idx sc -> j ∈ gpt G sc -> 1 <= j < n /\ j <> i.
Proof. intros Hc Hj. apply (sp_pt_kind _ _ _ Sw) in Hj; [|done]. pose proof sp_range. lia. Qed.

Lemma sp_avail_ins d : dlist g (nextf g (<[daA g i := d]> (r_desc s))) av (gav G).
Proof. eapply dlist_ext; [|apply Sw]. intros j Hj. apply nextf_ne. pose proof (sp_av_range j Hj). lia. Qed.

Lemma sp_part_ins d sc : class_idx sc -> part_ok g (<[daA g i := d]> (r_desc s)) (heaps (r_md s)) sc (gpt G sc).
Proof. intros Hc. apply (part_ok_ext _ (r_desc s) _ (heaps (r_md s))); [|done|now apply Sw]. intros j Hj. apply nextp_ne. pose proof (sp_pt_range sc j Hc Hj). lia. Qed.

(** Nothing marked in it: it goes to the list of free superblocks. *)
Lemma done_empty : (forall b sz, slot g n k b sz -> M b -> in_sb g i b -> False) ->
  done_with s G (r_mem s) (set_next_free (to_pptr_off av (daA g i)) Descriptor_new) (r_md s) (daA g i) KFree.
Proof.
  intros No. pose proof sp_range as Hi. constructor; cbn [width]; try done; try lia.
  - now left.
  - cbn [gav grow dlist]. split; [done|]. unfold nextf at 2. rewrite dget_eq. cbn [next_free set_next_free].
    destruct (dlist_fits g _ av (gav G) Gg (fun j Hj => proj1 (sp_av_range j Hj)) (sp_avail _ _ _ Sw)) as [_ Rav].
    pose proof (next_roundtrip g av i 0 Gg Hi ltac:(lia) Rav) as E. rewrite Z.add_0_r in E. rewrite E. apply sp_avail_ins.
  - intros sc Hc. cbn [gpt grow]. now apply sp_part_ins.
  - intros b sz. split; [done|]. intros (H1 & H2 & H3). cbn. apply (No b sz H1 H2). unfold in_sb. unfold_cfg. lia.
Qed.

(** A large block. *)
Lemma done_large c : k i = KLarge c -> M (sbA g i) ->
  done_with s G (r_mem s) (set_anchor (mkAnchor 0 0 SB_FULL) (set_next_partial (to_pptr_off 0 (daA g i + 8))
    (set_next_free (to_pptr_off 0 (daA g i)) (dget (r_desc s) (daA g i))))) (r_md s) av (KLarge c).
Proof.
  intros Hk Hm. pose proof sp_range as Hi. destruct (lay_large _ _ _ _ L i c Hi Hk) as (Hc & Hn & Ld & Bd).
  constructor; cbn [width new_live]; try done; try lia.
  - now left.
  - split; [done|]. unfold large_ok. rewrite dget_eq. cbn [heap block_size superblock maxcount set_anchor set_next_partial set_next_free].
    rewrite (sp_rest _ _ _ Sw) by lia. exact Ld.
  - cbn [gav grow]. apply sp_avail_ins.
  - intros sc Hcl. cbn [gpt grow]. now apply sp_part_ins.
  - intros b sz. split.
    + intros [-> ->]. split; [now apply slot_large|]. split; [done|]. unfold_cfg. lia.
    + intros (Sl & _ & Hb). destruct (slot_sb b sz Sl) as (j & Hj & Hjb & _). destruct (decide (j = i)) as [->|Ne].
      * pose proof (slot_at i b sz Sl Hjb) as H. now rewrite Hk in H.
      * pose proof (slot_at j b sz Sl Hjb) as H. rewrite (Bd j) in H; [done|]. unfold in_sb in Hjb. unfold_cfg. lia.
Qed.

(** Small blocks [js] marked. *)
Lemma done_small sc fl0 js fl m d md : k i = KSmall sc fl0 -> (forall j, j ∈ js <-> 0 <= j < mcn sc /\ M (blk g sc i j)) ->
  swept_small g sc i s m d md js fl (gpt G sc) -> only_links g sc i (r_mem s) m fl -> done_with s G m d md av (KSmall sc fl).
Proof.
  intros Hk Ejs (Ef & Sm & Pt & Emd) O. pose proof sp_range as Hi. destruct (lay_small _ _ _ _ L i sc fl0 Hi Hk) as [Hc _]. pose proof (class_facts sc Hc) as Cf.
  constructor; cbn [width new_live]; try done; try lia.
  - destruct Emd as [->|[w ->]]; [now left|right; now exists w, sc].
  - intros x Hx. apply O. intros j Hj. apply Ef in Hj as [Hj _]. pose proof (blk_offset g sc i j Hc Hj). unfold in_sb in Hx. unfold_cfg. lia.
  - cbn [gav grow]. apply sp_avail_ins.
  - intros sc' Hc'. cbn [gpt grow]. destruct (decide (sc = sc')) as [<-|Ne].
    + destruct fl; fins; exact Pt.
    + replace (match fl with [] => gpt G | _ :: _ => <[sc := i :: gpt G sc]> (gpt G) end sc') with (gpt G sc') by (destruct fl; fins; done).
      apply (part_ok_ext _ (<[daA g i := d]> (r_desc s)) _ (heaps (r_md s))); [done| |now apply sp_part_ins].
      destruct Emd as [->|[w ->]]; [done|]. cbn. rewrite list_lookup_insert_ne; [done|]. now apply class_slot.
  - intros b sz. assert (Es : sbA g (i + 1) = sbA g i + SBSIZE) by (unfold_cfg; lia). split.
    + intros (j & Hj & Nj & -> & ->). assert (Mj : M (blk g sc i j)). { destruct (decide (j ∈ js)) as [H|H]; [now apply Ejs|]. exfalso. apply Nj, Ef. done. }
      split; [now apply (slot_small g n k i sc fl0)|]. split; [done|]. pose proof (blk_offset g sc i j Hc Hj). unfold_cfg. lia.
    + intros (Sl & Mb & Hb). pose proof (slot_at i b sz Sl ltac:(unfold in_sb; lia)) as H. rewrite Hk in H. destruct H as (j & Hj & -> & ->).
      exists j. split; [done|]. split; [|done]. intros Hf. apply Ef in Hf as [_ Hf]. now apply Hf, Ejs.
  - intros b sz x (j & Hj & Nj & -> & ->) Hx. apply O. intros j' Hj'. assert (j' <> j) by (intros ->; done). apply Ef in Hj' as [Hj' _].
    destruct (blk_apart g sc i j i j' Hc Hj Hj') as [[_ ?]|?]; [congruence|lia].
Qed.

(** ** One iteration *)

Lemma run_three {A} (a b c : stM rst unit) (m : stM rst A) t t' : (a;; b;; c) t = Ok (tt, t') -> (a;; b;; c;; m) t = m t'.
Proof. intros E. rewrite <- (cbind_Ok _ (fun _ => m) _ _ _ E), cbind_assoc. unfold cbind. now repeat (case_match; try done). Qed.

Lemma sbA_next c : 0 <= c -> i + c <= n -> u64 (sbA g i + SBSIZE * c) = sbA g (i + c).
Proof.
  intros Hc Hn. pose proof sp_range. pose proof (geo_wf _ _ _ _ Gg) as [? ? ? _]. pose proof (geo_addr_range Gg i ltac:(lia)). pose proof (geo_n_lt Gg).
  rewrite u64_small; unfold_cfg; lia.
Qed.

Lemma loop_head fuel cs cd sb_end a ms : cs < sb_end ->
  sweep_loop (S fuel) cs cd sb_end a ms = ('(sw, ms) <- sweep_marked cs cd (mkSweep SB_EMPTY 0 0 cs) ms;
        if bool_decide (sw_state sw = SB_EMPTY) then
          construct cd;;
          upd_d cd (set_next_free (to_pptr_off a cd));;
          sweep_loop fuel (u64 (cs + SBSIZE)) (cd + DESCSIZE) sb_end cd ms
        else
          g <- cgets r_rgs;
          d <- get_d cd;
          i <- heap_index (translate g META_IDX (heap d));
          h <- get_heap i;
          if sc_idx h =? 0 then
            upd_d cd (set_next_free (to_pptr_off 0 cd));;
            upd_d cd (set_next_partial (to_pptr_off 0 (cd + 8)));;
            upd_d cd (set_anchor (mkAnchor 0 0 SB_FULL));;
            let curr_sb := u64 (cs + block_size d) in
            sweep_loop fuel curr_sb (desc_lookup g curr_sb) sb_end a ms
          else
            sweep_small cs cd sw;;
            sweep_loop fuel (u64 (cs + SBSIZE)) (cd + DESCSIZE) sb_end a ms).
Proof. intros H. cbn [sweep_loop]. now rewrite (proj2 (Z.ltb_lt _ _) H). Qed.

(** The loop goes on after superblock [i] has been dealt with. *)
Definition goes_on (fuel : nat) (ms : list Z) : Prop :=
  exists s' G' av' cd rest, sweep_loop (S fuel) (sbA g i) (daA g i) (sbA g n) av ms s = sweep_loop fuel (sbA g (gn G')) cd (sbA g n) av' rest s' /\
    swept s' G' av' /\ i < gn G' /\ (gn G' < n -> cd = daA g (gn G')) /\ iter (gn G') rest.

Lemma goes_on_empty fuel ms rest : iter (i + 1) rest -> (forall b sz, slot g n k b sz -> M b -> in_sb g i b -> False) ->
  sweep_marked (sbA g i) (daA g i) (mkSweep SB_EMPTY 0 0 (sbA g i)) ms s = Ok ((mkSweep SB_EMPTY 0 0 (sbA g i), rest), s) -> goes_on fuel ms.
Proof.
  intros It No E. pose proof sp_range as Hi. pose proof (sp_rgs _ _ _ Sw) as Es. assert (Gs : geo (r_rgs s) n rd rs) by now rewrite Es.
  assert (Run : exists tr, sweep_loop (S fuel) (sbA g i) (daA g i) (sbA g n) av ms s = sweep_loop fuel (sbA g (i + 1)) (daA g (i + 1)) (sbA g n) (daA g i) rest
    (upd s (r_mem s) (<[daA g i := set_next_free (to_pptr_off av (daA g i)) Descriptor_new]> (r_desc s)) (r_md s) (r_tc s) tr)).
  { eexists. rewrite loop_head by (unfold_cfg; lia). crun E. cbn [sw_state]. rewrite bool_decide_eq_true_2 by done.
    pose proof (construct_ok s i Gs ltac:(lia)) as Ec. rewrite Es in Ec. crun Ec.
    rewrite (cbind_Ok _ _ _ _ _ (upd_d_again g Gg s i _ _ _ _ _ _ (set_next_free (to_pptr_off av (daA g i))) Es Hi)).
    replace (u64 (sbA g i + SBSIZE)) with (sbA g (i + 1)) by (rewrite <- (sbA_next 1) by lia; f_equal; unfold_cfg; lia).
    replace (daA g i + DESCSIZE) with (daA g (i + 1)) by (unfold_cfg; lia). reflexivity. }
  destruct Run as [tr Run]. do 5 eexists. split; [|split; [exact (swept_grow s G av Sw _ _ _ _ _ (done_empty No) tr)|]].
  - exact Run.
  - cbn [gn grow width]. split; [lia|]. done.
Qed.

Lemma goes_on_large fuel ms rest c : k i = KLarge c -> M (sbA g i) -> iter (i + 1) rest ->
  sweep_marked (sbA g i) (daA g i) (mkSweep SB_EMPTY 0 0 (sbA g i)) ms s = Ok ((mkSweep SB_FULL 0 0 (sbA g i), rest), s) -> goes_on fuel ms.
Proof.
  intros Hk Hm It E. pose proof sp_range as Hi. pose proof (sp_rgs _ _ _ Sw) as Es. assert (Gs : geo (r_rgs s) n rd rs) by now rewrite Es.
  destruct (lay_large _ _ _ _ L i c Hi Hk) as (Hc & Hn & (D1 & D2 & D3 & D4) & Bd). rewrite <- (sp_rest _ _ _ Sw) in D1, D2, D3, D4 by lia.
  pose proof (get_d_ok s i Gs ltac:(lia)) as Eg. rewrite Es in Eg. destruct (sp_heap0 _ _ _ Sw) as [w Hw].
  destruct (upd_d_thrice g Gg s i (set_next_free (to_pptr_off 0 (daA g i))) (set_next_partial (to_pptr_off 0 (daA g i + 8)))
    (set_anchor (mkAnchor 0 0 SB_FULL)) Es Hi) as [tr Eu].
  assert (Run : sweep_loop (S fuel) (sbA g i) (daA g i) (sbA g n) av ms s = sweep_loop fuel (sbA g (i + c)) (desc_lookup g (sbA g (i + c))) (sbA g n) av rest
    (upd s (r_mem s) (<[daA g i := set_anchor (mkAnchor 0 0 SB_FULL) (set_next_partial (to_pptr_off 0 (daA g i + 8))
      (set_next_free (to_pptr_off 0 (daA g i)) (dget (r_desc s) (daA g i))))]> (r_desc s)) (r_md s) (r_tc s) tr)).
  { rewrite loop_head by (unfold_cfg; lia). crun E. cbn [sw_state]. rewrite bool_decide_eq_false_2 by done. cpure. rewrite Es. crun Eg. rewrite D1.
    replace HEAPS_OFF with (HEAPS_OFF + 64 * 0) by lia. crun (heap_index_off Gg s 0 Es ltac:(done)). crun (get_heap_ok s 0 _ Hw). cbn [sc_idx Z.eqb].
    rewrite D2, (sbA_next c) by lia. exact (run_three _ _ _ _ _ _ Eu). }
  do 5 eexists. split; [|split; [exact (swept_grow s G av Sw _ _ _ _ _ (done_large c Hk Hm) tr)|]].
  - exact Run.
  - cbn [gn grow width]. split; [lia|]. split; [intros Hlt'; apply (desc_lookup_sb0 Gg); lia|]. now apply (iter_skip i c).
Qed.

(** The marks of a superblock of small blocks as block indices. *)
Lemma mark_indices sc fl pre : class_idx sc -> k i = KSmall sc fl -> StronglySorted Z.lt pre -> (forall m, m ∈ pre <-> M m /\ in_sb g i m) ->
  exists js, pre = map (blk g sc i) js /\ StronglySorted Z.lt js /\ (forall j, j ∈ js <-> 0 <= j < mcn sc /\ M (blk g sc i j)).
Proof.
  intros Hc Hk So E. assert (H : exists js, pre = map (blk g sc i) js /\ (forall j, j ∈ js -> 0 <= j < mcn sc)).
  { assert (A : forall m, m ∈ pre -> exists j, 0 <= j < mcn sc /\ m = blk g sc i j).
    { intros m Hm. apply E in Hm as [Hm Hb]. pose proof (mark_at i m Hm Hb) as X. now rewrite Hk in X. }
    clear E So. induction pre as [|m pre IH]; [exists []; split; [done|]; intros j Hj; now apply not_elem_of_nil in Hj|].
    destruct (A m ltac:(left)) as (j & Hj & ->). destruct IH as (js & -> & Hjs); [intros x Hx; apply A; now right|].
    exists (j :: js). split; [done|]. intros x [->|Hx]%elem_of_cons; [done|now apply Hjs]. }
  destruct H as (js & -> & Hjs). exists js. split; [done|]. pose proof (class_facts sc Hc) as Cf. split.
  - clear E Hjs. induction js as [|j js IH]; [constructor|]. cbn [map] in So. inversion So as [|? ? So' F]; subst. constructor; [now apply IH|].
    rewrite list.Forall_forall in *. intros x Hx. specialize (F (blk g sc i x)). apply (blk_lt g sc i Hc). apply F, elem_of_blks. now exists x.
  - intros j. split.
    + intros Hj. split; [now apply Hjs|]. apply E, elem_of_blks. now exists j.
    + intros [Hj Hm]. pose proof (blk_offset g sc i j Hc Hj). assert (X : blk g sc i j ∈ map (blk g sc i) js) by (apply E; split; [done|unfold in_sb; unfold_cfg; lia]).
      apply elem_of_blks in X as (j' & Ej & Hj'). apply blk_inj in Ej as [_ ->]; [done|done|done|now apply Hjs].
Qed.

Lemma goes_on_small fuel sc fl pre rest : k i = KSmall sc fl -> pre <> [] -> StronglySorted Z.lt pre -> iter (i + 1) rest ->
  (forall m, m ∈ pre <-> M m /\ in_sb g i m) -> goes_on fuel (pre ++ rest).
Proof.
  intros Hk Np So It E. pose proof sp_range as Hi. pose proof (sp_rgs _ _ _ Sw) as Es. assert (Gs : geo (r_rgs s) n rd rs) by now rewrite Es.
  destruct (lay_small _ _ _ _ L i sc fl Hi Hk) as (Hc & Sd). rewrite <- (sp_rest _ _ _ Sw) in Sd by lia. pose proof Hc as [Hc1 Hc2].
  destruct (mark_indices sc fl pre Hc Hk So E) as (js & -> & Sj & Ej). assert (Nj : js <> []) by now intros ->.
  pose proof (get_d_ok s i Gs ltac:(lia)) as Eg. rewrite Es in Eg. pose proof (sp_part _ _ _ Sw sc Hc) as Pt. pose proof Pt as (w & _ & Hw & _).
  destruct (sweep_marked_small g Gg sc i Hc Hi w rest js s (r_mem s) [] 0 0 0 [] SB_EMPTY Es Sd Hw (swept_start g sc i Hc _) Sj) as (m & l & fl1 & Em & Sw1).
  { intros j Hj. apply Ej in Hj as [? _]. lia. }
  { intros x Hx. now apply It in Hx as [_ ?]. }
  cbn [app] in Sw1. replace (match js with [] => SB_EMPTY | _ => SB_PARTIAL end) with SB_PARTIAL in Em by now destruct js.
  replace (blk g sc i 0) with (sbA g i) in Em by (unfold blk; lia).
  destruct (sweep_small_ok g Gg sc i Hc Hi (with_mem m s) (r_mem s) js l (Z.of_nat (length fl1)) (fl_head g sc i fl1) fl1 SB_PARTIAL (gpt G sc) Es Sd Pt) as (m' & fl' & d & md & tr & Er & Ss & O);
    [intros j Hj; now apply (sp_pt_range sc)|intros Hin; now apply (sp_pt_range sc) in Hin|done|exact Sw1|].
  destruct Sd as (D1 & D2 & D3 & D4).
  assert (Run : sweep_loop (S fuel) (sbA g i) (daA g i) (sbA g n) av (map (blk g sc i) js ++ rest) s =
    sweep_loop fuel (sbA g (i + 1)) (daA g (i + 1)) (sbA g n) av rest (upd s m' (<[daA g i := d]> (r_desc s)) md (r_tc s) tr)).
  { rewrite loop_head by (unfold_cfg; lia). crun Em. cbn [sw_state]. rewrite bool_decide_eq_false_2 by done. cpure. rproj. rewrite Es.
    pose proof (get_d_ok (with_mem m s) i Gs ltac:(lia)) as Eg'. rproj in Eg'. rewrite Es in Eg'. crun Eg'. rewrite D1.
    crun (heap_index_off Gg (with_mem m s) sc Es ltac:(lia)). crun (get_heap_ok (with_mem m s) sc _ Hw). cbn [sc_idx]. rewrite (proj2 (Z.eqb_neq _ _)) by lia.
    crun Er. replace (u64 (sbA g i + SBSIZE)) with (sbA g (i + 1)) by (rewrite <- (sbA_next 1) by lia; f_equal; unfold_cfg; lia).
    replace (daA g i + DESCSIZE) with (daA g (i + 1)) by (unfold_cfg; lia). reflexivity. }
  do 5 eexists. split; [|split; [exact (swept_grow s G av Sw _ _ _ _ _ (done_small sc fl js fl' m' d md Hk Ej Ss O) tr)|]].
  - exact Run.
  - cbn [gn grow width]. split; [lia|]. done.
Qed.

Lemma sweep_step fuel ms : iter i ms -> goes_on fuel ms.
Proof.
  intros It. pose proof sp_range as Hi. destruct (iter_split i ms It) as (pre & rest & -> & So & It' & E).
  pose proof (sp_rgs _ _ _ Sw) as Es. assert (Ep : forall m, m ∈ pre -> in_sb g i m) by (intros m Hm; now apply E).
  assert (Er : forall m, m ∈ rest -> sbA g (i + 1) <= m) by (intros m Hm; now apply It' in Hm as [_ ?]).
  assert (Emp : pre = [] -> goes_on fuel (pre ++ rest)).
  { intros ->. apply (goes_on_empty fuel _ rest It').
    - intros b sz _ Mb Hb. apply (not_elem_of_nil b). now apply E.
    - now apply (sweep_marked_unused g Gg s i [] rest). }
  destruct pre as [|p pre]; [now apply Emp|]. clear Emp. destruct (proj1 (E p) ltac:(left)) as [Mp Hp]. pose proof (mark_at i p Mp Hp) as X.
  destruct (k i) as [|sc fl|c|] eqn:Hk; [| | |done].
  - apply (goes_on_empty fuel _ rest It').
    + intros b sz Sl _ Hb. pose proof (slot_at i b sz Sl Hb) as Y. now rewrite Hk in Y.
    + apply (sweep_marked_unused g Gg s i _ rest); try done. intros _. rewrite (sp_rest _ _ _ Sw) by lia. done.
  - now apply (goes_on_small fuel sc fl).
  - subst p. apply (goes_on_large fuel _ rest c Hk Mp It'). destruct (lay_large _ _ _ _ L i c Hi Hk) as (_ & _ & Ld & _). rewrite <- (sp_rest _ _ _ Sw) in Ld by lia.
    destruct (sp_heap0 _ _ _ Sw) as [w Hw]. now rewrite (sweep_marked_large g Gg s i c w).
Qed.

End Step.

Lemma sweep_loop_ok fuel : forall s G av cd ms, swept s G av -> (gn G < n -> cd = daA g (gn G)) -> iter (gn G) ms -> (Z.to_nat (n - gn G) < fuel)%nat ->
  exists s' G' av', sweep_loop fuel (sbA g (gn G)) cd (sbA g n) av ms s = Ok ((av', []), s') /\ swept s' G' av' /\ gn G' = n.
Proof.
  induction fuel as [|fuel IH]; intros s G av cd ms Sw Hcd It Hf; [lia|]. destruct (Z.lt_ge_cases (gn G) n) as [Hlt|Hge].
  - rewrite Hcd by done. destruct (sweep_step s G av Sw Hlt fuel ms It) as (s' & G' & av' & cd' & rest & -> & Sw' & Hg & Hcd' & It').
    apply IH; try done. lia.
  - pose proof (sp_n _ _ _ Sw). assert (En : gn G = n) by lia. exists s, G, av. split; [|done]. rewrite En in *. rewrite (iter_end ms It). cbn [sweep_loop].
    now rewrite Z.ltb_irrefl.
Qed.

End Recover.
