(* ===== verification/RallocRestart.v ===== *)
(** * Restarting a Ralloc heap after a crash

    [RP_recover] on the files a crash left behind: the dirty flag is found set, the collector
    marks from the roots and rebuilds the heap. The result is a well-formed heap, ready for the
    allocator, that holds the blocks reachable from the roots. *)

From stdpp Require Import sorting functions.
From S2P Require Import Prelude Pptr ByteMem SizeClass Regions Ralloc RallocInv RallocRun RallocMalloc RallocFill RallocFree.
From S2P Require Import RallocInit RallocClient RallocSpec RallocGc RallocSweep RallocRecover.

(** ** The state a restart begins with *)

(** The process has mapped a region of [n] superblocks; the descriptors of superblocks in use
    ([k]) have the fields that are written back when a superblock is taken into use; the caches
    are new; everything reachable is a block (or lies in an unused superblock, which the
    collector ignores). Anchors, links, list heads and the other descriptors may be anything. The
    filter reads up to 7 bytes behind a block, so the file must go on behind the last one. *)
Record restarted (s : rst) (n : Z) (k : Z -> kind) : Prop := {
  rt_geo : exists rd rs, geo (r_rgs s) n rd rs /\ sbA (r_rgs s) n + 8 <= base_addr rs + FILESIZE rs;
  rt_layout : layout (r_rgs s) n (r_desc s) k;
  rt_len : length (heaps (r_md s)) = Z.to_nat MAX_SZ_IDX;
  rt_heaps : forall j, 0 <= j < MAX_SZ_IDX -> exists w, heaps (r_md s) !! Z.to_nat j = Some (mkHeap w j);
  rt_caches : r_tc s = empty_caches;
  rt_roots : roots_ok s;
  rt_marks : forall a, reach s a -> mark_place (r_rgs s) n (r_desc s) k a }.

(** What recovery must achieve. *)
Record recovered (s s' : rst) (n : Z) (k : Z -> kind) (G : ghost) : Prop := {
  rc_inv : inv s' G;
  rc_own : gow G = None;
  rc_rgs : r_rgs s' = r_rgs s;
  rc_fixed : r_init s' = r_init s /\ r_filters s' = r_filters s /\ roots (r_md s') = roots (r_md s);
  rc_live : forall b sz, live (r_rgs s) G b sz <-> slot (r_rgs s) n k b sz /\ reach s b;
  rc_bytes : forall a, in_live (r_rgs s) G a -> rd8 (r_mem s') a = rd8 (r_mem s) a }.

(** ** The collector does not see the metadata it rebuilds *)

Definition set_meta (s : rst) (md : BaseMeta) (tr : list pev) : rst :=
  mkR (r_rgs s) (r_mem s) (r_desc s) md (r_tc s) (r_filters s) (r_init s) tr.

Lemma reach_meta s md tr a : roots md = roots (r_md s) -> reach (set_meta s md tr) a <-> reach s a.
Proof.
  intros E. assert (Ro : forall x, is_root (set_meta s md tr) x <-> is_root s x) by (intros x; unfold is_root; cbn [set_meta r_md r_rgs]; now rewrite E).
  split; induction 1 as [x Hx|x y _ IH P]; [apply reach_root; now apply Ro|now apply (reach_next _ x)|apply reach_root; now apply Ro|now apply (reach_next _ x)].
Qed.

Lemma restarted_meta s n k md tr : restarted s n k -> roots md = roots (r_md s) -> length (heaps md) = Z.to_nat MAX_SZ_IDX ->
  (forall j, 0 <= j < MAX_SZ_IDX -> exists w, heaps md !! Z.to_nat j = Some (mkHeap w j)) -> restarted (set_meta s md tr) n k.
Proof.
  intros R E Hl Hh. constructor; cbn [set_meta r_rgs r_desc r_md r_tc]; try done; try apply R.
  - unfold roots_ok. cbn [set_meta r_md r_filters]. rewrite E. apply R.
  - intros a Ha. apply reach_meta in Ha; [|done]. now apply R.
Qed.

(** ** Step 0 *)

Lemma reset_loop l : forall s, (forall j, j ∈ l -> 0 <= j < MAX_SZ_IDX) -> length (heaps (r_md s)) = Z.to_nat MAX_SZ_IDX ->
  (forall j, 0 <= j < MAX_SZ_IDX -> exists w, heaps (r_md s) !! Z.to_nat j = Some (mkHeap w j)) ->
  exists hs, cfor l (fun i => h <- get_heap i; cmod (fun s => with_md (set_heaps (<[Z.to_nat i := mkHeap 0 (sc_idx h)]> (heaps (r_md s))) (r_md s)) s)) s =
    Ok (tt, set_meta s (set_heaps hs (r_md s)) (r_trace s)) /\ length hs = Z.to_nat MAX_SZ_IDX /\
    (forall j, 0 <= j < MAX_SZ_IDX -> exists w, hs !! Z.to_nat j = Some (mkHeap w j) /\ (j ∈ l \/ heaps (r_md s) !! Z.to_nat j = Some (mkHeap 0 j) -> w = 0)).
Proof.
  induction l as [|i l IH]; intros s Hl Le Hh; cbn [cfor].
  - exists (heaps (r_md s)). split; [now destruct s as [? ? ? [] ? ? ? ?]|]. split; [done|]. intros j Hj. destruct (Hh j Hj) as [w Hw]. exists w. split; [done|].
    intros [Hn|E]; [now apply not_elem_of_nil in Hn|]. congruence.
  - pose proof (Hl i ltac:(left)) as Hi. destruct (Hh i Hi) as [w Hw]. crun (get_heap_ok s i _ Hw). cpure. cbn [sc_idx].
    set (hs1 := <[Z.to_nat i := mkHeap 0 i]> (heaps (r_md s))).
    assert (H1 : hs1 !! Z.to_nat i = Some (mkHeap 0 i)) by (apply list_lookup_insert_eq; unfold MAX_SZ_IDX in *; lia).
    assert (H2 : forall j, 0 <= j -> j <> i -> hs1 !! Z.to_nat j = heaps (r_md s) !! Z.to_nat j) by (intros j Hj N; apply list_lookup_insert_ne; lia).
    destruct (IH (with_md (set_heaps hs1 (r_md s)) s)) as (hs & E & Lh & Eh).
    + intros j Hj. apply Hl. now right.
    + cbn. unfold hs1. now rewrite length_insert.
    + intros j Hj. cbn. destruct (decide (j = i)) as [->|N]; [exists 0; exact H1|rewrite H2 by lia; now apply Hh].
    + exists hs. split; [exact E|]. split; [done|]. intros j Hj. destruct (Eh j Hj) as (w' & Ew & Z0). exists w'. split; [done|].
      cbn [with_md r_md set_heaps heaps] in Z0. intros Hc. apply Z0. destruct (decide (j = i)) as [->|N]; [now right|]. rewrite H2 by lia.
      destruct Hc as [[->|?]%elem_of_cons|?]; [done|now left|now right].
Qed.

Lemma gc_reset_ok s n k : restarted s n k -> exists md, gc_reset s = Ok (tt, set_meta s md (r_trace s)) /\ length (heaps md) = Z.to_nat MAX_SZ_IDX /\
  (forall j, 0 <= j < MAX_SZ_IDX -> heaps md !! Z.to_nat j = Some (mkHeap 0 j)) /\ roots md = roots (r_md s) /\ dirty_mtx md = dirty_mtx (r_md s).
Proof.
  intros R. set (s1 := with_md (set_avail_sb 0 (r_md s)) s).
  destruct (reset_loop (seqZ 0 MAX_SZ_IDX) s1) as (hs & E & Lh & Eh); [intros j Hj; apply elem_of_seqZ in Hj; lia|apply R|apply R|].
  exists (set_heaps hs (set_avail_sb 0 (r_md s))). split; [|split; [done|split; [|done]]].
  - unfold gc_reset. rewrite (cbind_Ok (cmod (fun s => with_md (set_avail_sb 0 (r_md s)) s)) _ s tt s1 eq_refl). exact E.
  - intros j Hj. destruct (Eh j Hj) as (w & Ew & Zw). cbn. rewrite Ew, Zw; [done|]. left. apply elem_of_seqZ. lia.
Qed.

(** ** Marking *)

Section Collect.
Context (s : rst) (n : Z) (k : Z -> kind) (R : restarted s n k).
#[local] Abbreviation g := (r_rgs s).

Lemma reach_scan a : reach s a -> scan_ok s a.
Proof.
  intros Ha. destruct (rt_geo _ _ _ R) as (rd & rs & Gg & Rm). pose proof (rt_layout _ _ _ R) as L. unfold scan_ok. cbv zeta.
  assert (P : exists i, 1 <= i < n /\ desc_lookup g a = daA g i /\ sbA g 1 <= a /\
    (forall o, 0 <= o < block_size (dget (r_desc s) (daA g i)) -> a + o < sbA g n)).
  { destruct (rt_marks _ _ _ R a Ha) as [[sz Sl]|(i & Hi & Hb & _ & _ & E)].
    - destruct (slot_sb s k L a sz Sl) as (_ & _ & _ & He & _). destruct Sl as [i sc fl j Hi Hk Hj|i c Hi Hk]; exists i; (split; [done|]).
      + destruct (lay_small _ _ _ _ L i sc fl Hi Hk) as (Hc & (_ & -> & _)). split; [now apply (desc_lookup_blk _ _ _ _ _ _ _ Gg)|].
        pose proof (blk_offset g sc i j Hc Hj). split; [unfold_cfg; lia|]. intros o Ho. lia.
      + destruct (lay_large _ _ _ _ L i c Hi Hk) as (_ & _ & (_ & -> & _) & _). split; [apply (desc_lookup_sb0 Gg); lia|]. split; [unfold_cfg; lia|]. intros o Ho. lia.
    - exists i. split; [done|]. rewrite E. unfold in_sb in Hb. split; [|split; [unfold_cfg; lia|intros o Ho; lia]].
      replace a with (sbA g i + (a - sbA g i)) by lia. apply (desc_lookup_sb Gg); lia. }
  destruct P as (i & Hi & -> & Ha1 & Ho). split; [apply (mapped_desc Gg); [done|lia]|]. intros o Hlt. specialize (Ho o Hlt).
  unfold mapped. rewrite (geo_rs _ _ _ _ Gg). pose proof (geo_base _ _ _ _ Gg). apply andb_true_intro. split; apply Z.leb_le; unfold_cfg; lia.
Qed.

Lemma reach_pos : 0 < rg_lookup g SB_IDX.
Proof. destruct (rt_geo _ _ _ R) as (rd & rs & Gg & _). apply (geo_S _ _ _ _ Gg). Qed.

(** ** Sweeping *)

Definition ghost_start : ghost := mkG 1 (fun _ => KFree) [] (fun _ => []) (fun _ => []) None.

Lemma swept_begin : (forall j, 0 <= j < MAX_SZ_IDX -> heaps (r_md s) !! Z.to_nat j = Some (mkHeap 0 j)) -> swept s (n := n) k (reach s) s ghost_start 0.
Proof.
  intros Hh. destruct (rt_geo _ _ _ R) as (rd & rs & Gg & _). pose proof (geo_n _ _ _ _ Gg).
  assert (No : forall b sz, ~ live g ghost_start b sz) by (intros b sz L; inversion L as [? ? ? ? Hi|? ? Hi]; cbn in Hi; lia).
  constructor; cbn [ghost_start gn gk gav gpt gca gow]; try done; try lia.
  - apply R.
  - exists 0. apply (Hh 0). done.
  - constructor.
  - intros i. split; [intros Hi; now apply not_elem_of_nil in Hi|lia].
  - intros sc [Hc1 Hc2]. exists 0, 0. split; [apply Hh; lia|]. split; [|done]. split; [lia|reflexivity].
  - intros sc _. constructor.
  - intros sc i _. split; [intros Hi; now apply not_elem_of_nil in Hi|lia].
  - intros b sz. split; [intros L; now apply No in L|]. intros (Sl & _ & Hb). destruct (slot_sb s k (rt_layout _ _ _ R) b sz Sl) as (i & Hi & Hib & _).
    unfold in_sb in Hib. unfold_cfg. lia.
Qed.

(** The invariant of the allocator from that of the sweep. *)
Lemma swept_inv s1 G av md tr : swept s (n := n) k (reach s) s1 G av -> gn G = n -> heaps md = heaps (r_md s1) ->
  avail_sb md = cnt_word g DESC_IDX (mkPC av 0) -> inv (set_meta s1 md tr) G.
Proof.
  intros Sw En Eh Ea. destruct (rt_geo _ _ _ R) as (rd & rs & Gg & _).
  constructor; cbn [set_meta r_rgs r_mem r_desc r_md r_tc]; rewrite ?Eh, ?(sp_rgs _ _ _ _ _ _ Sw), ?(sp_tc _ _ _ _ _ _ Sw), ?(rt_caches _ _ _ R); try apply Sw.
  - exists rd, rs. now rewrite En.
  - split; [unfold empty_caches; now rewrite length_replicate|apply Sw].
  - exists av. rewrite Ea. split; [|apply Sw]. apply (list_head_word g (mkPC av 0) Gg). cbn [ptr].
    refine (proj1 (dlist_fits g _ av (gav G) Gg _ (sp_avail _ _ _ _ _ _ Sw))). intros j Hj. apply (sp_av_kind _ _ _ _ _ _ Sw) in Hj. lia.
  - intros i. rewrite (sp_av_kind _ _ _ _ _ _ Sw), (sp_gow _ _ _ _ _ _ Sw). naive_solver.
  - intros sc i Hc. rewrite (sp_pt_kind _ _ _ _ _ _ Sw) by done. rewrite (sp_gow _ _ _ _ _ _ Sw). naive_solver.
  - intros sc [Hc1 Hc2]. rewrite (sp_gca _ _ _ _ _ _ Sw). exists 0. split; [|done]. unfold empty_caches. apply lookup_replicate. split; [done|lia].
  - intros sc Hc. rewrite (sp_gca _ _ _ _ _ _ Sw). pose proof (class_facts sc Hc). split; [constructor|cbn; lia].
  - intros sc b _ Hb. rewrite (sp_gca _ _ _ _ _ _ Sw) in Hb. now apply not_elem_of_nil in Hb.
Qed.

Lemma gc_sweep_ok ms : (forall j, 0 <= j < MAX_SZ_IDX -> heaps (r_md s) !! Z.to_nat j = Some (mkHeap 0 j)) ->
  StronglySorted Z.lt ms -> (forall m, m ∈ ms <-> reach s m) ->
  exists s1 G av, swept s (n := n) k (reach s) s1 G av /\ gn G = n /\
    gc_sweep ms s = Ok (tt, set_meta s1 (set_avail_sb (cnt_word g DESC_IDX (mkPC av 0)) (r_md s1)) (r_trace s1)).
Proof.
  intros Hh So E. destruct (rt_geo _ _ _ R) as (rd & rs & Gg & _). pose proof (geo_n _ _ _ _ Gg) as Hn. pose proof (geo_wf _ _ _ _ Gg) as [W1 W2 W3 _].
  pose proof (swept_begin Hh) as Sw. assert (Et : translate g SB_IDX SBSIZE = sbA g 1).
  { unfold translate. pose proof (geo_S _ _ _ _ Gg) as [? _]. rewrite u64_small; unfold_cfg; lia. }
  assert (Ec : sb_count s = n) by (unfold sb_count; rewrite (geo_rs _ _ _ _ Gg), (curr_addr_sb Gg); unfold_cfg; replace (rg_lookup g SB_IDX + 65536 * n - rg_lookup g SB_IDX) with (n * 65536) by lia; now apply Z.div_mul).
  assert (It : iter s (reach s) 1 ms).
  { split; [done|]. intros m. rewrite E. split; [|tauto]. intros Hm. split; [done|]. destruct (mark_sb s k (reach s) (rt_layout _ _ _ R) (rt_marks _ _ _ R) m Hm) as (i & Hi & Hb).
    unfold in_sb in Hb. unfold_cfg. lia. }
  destruct (sweep_loop_ok s Gg k (reach s) (rt_layout _ _ _ R) (rt_marks _ _ _ R) (S (Z.to_nat n)) s ghost_start 0 (desc_lookup g (sbA g 1)) ms Sw) as (s1 & G & av & Er & Sw1 & En);
    [cbn; intros; apply (desc_lookup_sb0 Gg); lia|exact It|cbn; lia|]. change (gn ghost_start) with 1 in Er.
  exists s1, G, av. split; [done|]. split; [done|]. unfold gc_sweep. cpure.
  assert (Esr : sb_region s = Ok (rs, s)) by (unfold sb_region; now rewrite (geo_rs _ _ _ _ Gg)). crun Esr. cpure. rewrite Ec, Et, (curr_addr_sb Gg). crun Er.
  cpure. rewrite bool_decide_eq_true_2 by done. reflexivity.
Qed.

End Collect.

(** ** The collector *)

Lemma gc_flush_run s : exists tr, gc_flush s = Ok (tt, set_meta s (r_md s) tr).
Proof. eexists. unfold gc_flush. do 2 cpure. reflexivity. Qed.

Lemma gc_ok s n k fuel : restarted s n k -> (Z.to_nat (region_bytes s) < fuel)%nat ->
  exists s' G, GarbageCollection fuel s = Ok (tt, s') /\ recovered s s' n k G /\ dirty_mtx (r_md s') = dirty_mtx (r_md s).
Proof.
  intros R Hf. destruct (gc_reset_ok s n k R) as (md & E0 & Lh & Hh & Er & Ed). set (s1 := set_meta s md (r_trace s)) in *.
  assert (R1 : restarted s1 n k) by (apply restarted_meta; [done|done|done|]; intros j Hj; exists 0; now apply Hh).
  destruct (gc_mark_ok s1 (reach_pos s1 n k R1) fuel (rt_roots _ _ _ R1) (reach_scan s1 n k R1) Hf) as (c & E1 & Em).
  destruct (marked_list_spec c) as [So El].
  destruct (gc_sweep_ok s1 n k R1 (marked_list c) Hh So) as (s2 & G & av & Sw & En & E2); [intros m; now rewrite El, Em|].
  set (md2 := set_avail_sb _ (r_md s2)) in E2. destruct (gc_flush_run (set_meta s2 md2 (r_trace s2))) as (tr & E3).
  exists (set_meta s2 md2 tr), G. pose proof (sp_fixed _ _ _ _ _ _ Sw) as Fx. injection Fx as F1 F2 F3 F4. split; [|split; [constructor|]].
  - unfold GarbageCollection. crun E0. crun E1. crun E2. exact E3.
  - now apply (swept_inv s1 n k R1 s2 G av md2 tr Sw).
  - apply Sw.
  - apply Sw.
  - split; [exact F1|]. split; [exact F2|]. cbn. now rewrite F3.
  - intros b sz. change (r_rgs s) with (r_rgs s1). rewrite (sp_live _ _ _ _ _ _ Sw). unfold s1 at 2. rewrite reach_meta by done. split; [tauto|].
    intros [Sl Hr]. split; [done|]. split; [done|]. destruct (slot_sb s1 k (rt_layout _ _ _ R1) b sz Sl) as (i & _ & _ & ? & ?). rewrite En. lia.
  - intros a La. apply (sp_bytes _ _ _ _ _ _ Sw). now right.
  - cbn. now rewrite F4.
Qed.

Lemma recovered_meta s s' n k G md tr : recovered s s' n k G -> heaps md = heaps (r_md s') -> avail_sb md = avail_sb (r_md s') ->
  roots md = roots (r_md s') -> recovered s (set_meta s' md tr) n k G.
Proof.
  intros [I Ho Er F L B] Eh Ea Eo. constructor; try done.
  - constructor; cbn [set_meta r_rgs r_mem r_desc r_md r_tc]; rewrite ?Eh, ?Ea; apply I.
  - cbn. now rewrite Eo.
Qed.

Lemma set_dirty_run s : dirty_mtx (r_md s) = Locked \/ dirty_mtx (r_md s) = Unlocked ->
  set_dirty s = Ok (tt, set_meta s (set_mtx Locked (r_md s)) (r_trace s)).
Proof. intros H. unfold set_dirty. cpure. destruct H as [-> | ->]; reflexivity. Qed.

Lemma is_dirty_crashed s : dirty_mtx (r_md s) = OwnerDead \/ dirty_mtx (r_md s) = Invalid ->
  exists m, (m = Locked \/ m = Unlocked) /\ is_dirty s = Ok (true, set_meta s (set_mtx m (r_md s)) (r_trace s)).
Proof.
  intros [E|E]; [exists Locked|exists Unlocked]; (split; [auto|]); unfold is_dirty; cpure; rewrite E; reflexivity.
Qed.

Lemma is_dirty_clean s : dirty_mtx (r_md s) = Unlocked \/ dirty_mtx (r_md s) = Locked -> is_dirty s = Ok (false, s).
Proof. intros [E|E]; unfold is_dirty; cpure; rewrite E; cbn [trylock]; [|done]. cpure. destruct s as [? ? ? [] ? ? ? ?]. cbn in *. now rewrite E. Qed.

Lemma restart_ok s n k fuel : restarted s n k -> (Z.to_nat (region_bytes s) < fuel)%nat ->
  dirty_mtx (r_md s) = OwnerDead \/ dirty_mtx (r_md s) = Invalid ->
  exists s' G, RP_recover fuel s = Ok (1, s') /\ recovered s s' n k G /\ dirty_mtx (r_md s') = Locked.
Proof.
  intros R Hf Hd. destruct (is_dirty_crashed s Hd) as (m & Hm & E1). set (s1 := set_meta s (set_mtx m (r_md s)) (r_trace s)) in *.
  assert (R1 : restarted s1 n k) by (apply restarted_meta; [done|done|apply R|apply R]).
  destruct (gc_ok s1 n k fuel R1 Hf) as (s2 & G & E2 & Rc & Ed). set (s3 := set_meta s2 (r_md s2) (Fence :: r_trace s2)).
  assert (E4 : set_dirty s3 = Ok (tt, set_meta s3 (set_mtx Locked (r_md s3)) (r_trace s3))) by (apply set_dirty_run; cbn; rewrite Ed; exact Hm).
  exists (set_meta s3 (set_mtx Locked (r_md s3)) (r_trace s3)), G. split; [|split; [|done]].
  - unfold RP_recover, restart. crun E1. cbn [bool_Z].
    crun E2. cpure. crun E4. reflexivity.
  - change (set_meta s3 (set_mtx Locked (r_md s3)) (r_trace s3)) with (set_meta s2 (set_mtx Locked (r_md s2)) (r_trace s3)).
    assert (Rc' : recovered s s2 n k G).
    { destruct Rc as [I Ho Er F L B]. constructor; try done. intros b sz. change (r_rgs s) with (r_rgs s1). rewrite L. unfold s1. now rewrite reach_meta. }
    now apply recovered_meta.
Qed.

(** ** From the heap before the crash *)

(** What a crash leaves of a heap: the fields of the descriptors that say what the superblocks
    are for (a process that dies leaves the whole file; after a power failure it is what the
    write-backs on taking a superblock into use are for). The bytes of the blocks, the roots, the anchors, links and list heads are whatever
    reached the memory, and the thread caches are gone. The next process maps the files, here at
    the same addresses. *)
Record crash (s0 s : rst) : Prop := {
  cr_rgs : r_rgs s = r_rgs s0;
  cr_desc : forall i, 1 <= i -> let d := dget (r_desc s) (daA (r_rgs s0) i) in let d0 := dget (r_desc s0) (daA (r_rgs s0) i) in
    heap d = heap d0 /\ block_size d = block_size d0 /\ maxcount d = maxcount d0 /\ superblock d = superblock d0;
  cr_heaps : length (heaps (r_md s)) = length (heaps (r_md s0)) /\ sc_idx <$> heaps (r_md s) = sc_idx <$> heaps (r_md s0);
  cr_caches : r_tc s = empty_caches;
  cr_init : r_init s = true;
  cr_dirty : dirty_mtx (r_md s) = OwnerDead \/ dirty_mtx (r_md s) = Invalid }.

Lemma crash_layout s0 s G : inv s0 G -> crash s0 s -> layout (r_rgs s) (gn G) (r_desc s) (gk G).
Proof.
  intros I C. rewrite (cr_rgs _ _ C). constructor.
  - intros i sc fl Hi Hk. destruct (inv_small _ _ I i sc fl Hi Hk) as [Hc (H1 & H2 & H3 & H4 & _)]. split; [done|].
    destruct (cr_desc _ _ C i ltac:(lia)) as (E1 & E2 & E3 & E4). unfold small_desc. now rewrite E1, E2, E3, E4.
  - intros i c Hi Hk. destruct (inv_large _ _ I i c Hi Hk) as (H1 & H2 & (L1 & L2 & L3 & L4) & H4). split; [done|]. split; [done|]. split; [|done].
    destruct (cr_desc _ _ C i ltac:(lia)) as (E1 & E2 & E3 & E4). unfold large_desc. now rewrite E1, E2, E3, E4.
Qed.

Lemma crash_heaps s0 s G j : inv s0 G -> crash s0 s -> 0 <= j < MAX_SZ_IDX -> exists w, heaps (r_md s) !! Z.to_nat j = Some (mkHeap w j).
Proof.
  intros I C Hj. assert (H0 : exists w, heaps (r_md s0) !! Z.to_nat j = Some (mkHeap w j)).
  { destruct (decide (j = 0)) as [->|N]; [apply I|]. destruct (inv_part _ _ I j ltac:(unfold class_idx; lia)) as (w & p & Hw & _). now exists w. }
  destruct H0 as [w0 E0]. destruct (cr_heaps _ _ C) as [El Es]. assert (X : (sc_idx <$> heaps (r_md s)) !! Z.to_nat j = Some j).
  { rewrite Es, list_lookup_fmap, E0. done. }
  rewrite list_lookup_fmap in X. destruct (heaps (r_md s) !! Z.to_nat j) as [[w i]|]; [|done]. cbn in X. injection X as ->. now exists w.
Qed.

(** The books after recovery: a block for every marked address in use. *)
Definition blocks_of (s : rst) (c : gset Z) : gmap Z Z :=
  map_imap (fun b _ => let sz := block_size (descr s (desc_lookup (r_rgs s) b)) in if sz =? 0 then None else Some sz) (gset_to_gmap tt c).

Lemma blocks_of_slot s n k c rd rs : geo (r_rgs s) n rd rs -> layout (r_rgs s) n (r_desc s) k ->
  (forall b, b ∈ c -> mark_place (r_rgs s) n (r_desc s) k b) ->
  forall b sz, blocks_of s c !! b = Some sz <-> slot (r_rgs s) n k b sz /\ b ∈ c.
Proof.
  intros Gg L P b sz. unfold blocks_of. rewrite map_lookup_imap, lookup_gset_to_gmap.
  assert (Sz : forall sz', slot (r_rgs s) n k b sz' -> block_size (descr s (desc_lookup (r_rgs s) b)) = sz').
  { intros sz' [i sc fl j Hi Hk Hj|i c' Hi Hk].
    - destruct (lay_small _ _ _ _ L i sc fl Hi Hk) as (Hc & (_ & Eb & _)). rewrite (desc_lookup_blk _ _ _ _ _ _ _ Gg) by done. exact Eb.
    - destruct (lay_large _ _ _ _ L i c' Hi Hk) as (_ & _ & (_ & Eb & _) & _). rewrite (desc_lookup_sb0 Gg) by lia. exact Eb. }
  destruct (decide (b ∈ c)) as [Hb|Hb]; [rewrite option_guard_True by done|rewrite option_guard_False by done; cbn; split; [done|tauto]].
  cbn [mbind option_bind]. destruct (P b Hb) as [[sz' Sl]|(i & Hi & Hib & Ek & _ & E)].
  - rewrite (Sz sz' Sl). destruct (slot_sb s k L b sz' Sl) as (_ & _ & _ & _ & ?). rewrite (proj2 (Z.eqb_neq _ _)) by lia. split.
    + intros X. injection X as <-. done.
    + intros [Sl' _]. now rewrite <- (Sz sz' Sl), (Sz sz Sl').
  - assert (Ed : desc_lookup (r_rgs s) b = daA (r_rgs s) i).
    { unfold in_sb in Hib. replace b with (sbA (r_rgs s) i + (b - sbA (r_rgs s) i)) by lia. apply (desc_lookup_sb Gg); lia. }
    rewrite Ed. change (descr s (daA (r_rgs s) i)) with (dget (r_desc s) (daA (r_rgs s) i)). rewrite E. cbn [Z.eqb]. split; [done|]. intros [Sl _].
    pose proof (slot_at s k L i b sz Sl Hib) as X. now rewrite Ek in X.
Qed.

(** ** A heap with one block *)

(** All memory zero, one root. *)
Lemma ld_pptr_zero p : ld_pptr ∅ p = 0.
Proof. reflexivity. Qed.

Lemma single_root s w : 0 < rg_lookup (r_rgs s) SB_IDX -> r_mem s = ∅ -> roots (r_md s) = w :: replicate 1023 0 ->
  forall a, reach s a -> w <> 0 /\ a = CrossPtr_get (r_rgs s) SB_IDX w.
Proof.
  intros Hp Em Er a Ha. induction Ha as [a (i & w' & Hi & E & Nz & -> & _)|a b _ _ (i & _ & -> & R)].
  - rewrite Er in E. destruct (decide (i = 0)) as [->|N].
    + injection E as <-. done.
    + replace (Z.to_nat i) with (S (Z.to_nat (i - 1))) in E by lia. apply lookup_replicate in E as [-> _]. done.
  - rewrite Em, ld_pptr_zero in R. unfold in_range in R. rewrite (proj2 (Z.leb_gt _ _)) in R by lia. discriminate.
Qed.

(** The files of a fresh heap in which superblock 1 is a large block of 64 KiB, reached from root
    0, as a crash leaves them. *)
Definition demo_crashed (s : rst) (off : Z) (d : Descriptor) : rst :=
  mkR (r_rgs s) ∅ (<[daA (r_rgs s) 1 := d]> (r_desc s)) (mkMeta 12345 OwnerDead (heaps (r_md s)) (off :: replicate 1023 0)) empty_caches
    (replicate 1024 true) true [].
Definition demo_large : Descriptor := mkDesc 7 7 (mkAnchor 3 4 SB_PARTIAL) SBSIZE HEAPS_OFF SBSIZE 1.
Definition demo_kind (i : Z) : kind := if decide (i = 1) then KLarge 1 else KFree.

Lemma demo_geo s : fresh_heap (2 ^ 32) (2 ^ 40) (2 ^ 41) (2 ^ 42) s ->
  exists rd rs, geo (r_rgs s) 16384 rd rs /\ sbA (r_rgs s) 16384 + 8 <= base_addr rs + FILESIZE rs.
Proof.
  intros F. destruct (inv_geo _ _ (fh_inv _ _ _ _ _ F)) as (rd & rs & Gg). exists rd, rs. split; [exact Gg|].
  destruct (fh_regions _ _ _ _ _ F) as (rd' & rs' & rm & Eg & Eb & EF). pose proof (geo_rs _ _ _ _ Gg) as Er. rewrite Eg in Er. injection Er as <-.
  rewrite Eb, EF, Eg. vm_compute. discriminate.
Qed.

Lemma demo_heaps s j : fresh_heap (2 ^ 32) (2 ^ 40) (2 ^ 41) (2 ^ 42) s -> 0 <= j < MAX_SZ_IDX -> exists w, heaps (r_md s) !! Z.to_nat j = Some (mkHeap w j).
Proof.
  intros F Hj. pose proof (fh_inv _ _ _ _ _ F) as I. destruct (decide (j = 0)) as [->|N]; [apply I|].
  destruct (inv_part _ _ I j ltac:(unfold class_idx; lia)) as (w & p & Hw & _). now exists w.
Qed.

Lemma demo_roots s off d : roots_ok (demo_crashed s off d).
Proof.
  intros i Hi. change MAX_ROOTS with 1024 in Hi. cbn [demo_crashed r_md roots r_filters].
  destruct (lookup_lt_is_Some_2 (off :: replicate 1023 0) (Z.to_nat i)) as [w Hw]; [cbn [length]; rewrite length_replicate; lia|].
  exists w. split; [done|]. right. apply lookup_replicate. split; [done|lia].
Qed.

Lemma demo_restarted s : fresh_heap (2 ^ 32) (2 ^ 40) (2 ^ 41) (2 ^ 42) s ->
  restarted (demo_crashed s SBSIZE demo_large) 16384 demo_kind /\ reach (demo_crashed s SBSIZE demo_large) (sbA (r_rgs s) 1).
Proof.
  intros F. destruct (demo_geo s F) as (rd & rs & Gg & Rm). set (t := demo_crashed s SBSIZE demo_large).
  pose proof (translate_sb Gg 1 ltac:(lia)) as Et. change (SBSIZE * 1) with SBSIZE in Et.
  split; [constructor; cbn [t demo_crashed r_rgs r_desc r_md heaps r_tc]|].
  - now exists rd, rs.
  - constructor.
    + intros i sc fl _ Hk. unfold demo_kind in Hk. destruct (decide (i = 1)); discriminate.
    + intros i c Hi Hk. unfold demo_kind in Hk. destruct (decide (i = 1)) as [->|]; [|discriminate]. injection Hk as <-. rewrite dget_eq.
      split; [lia|]. split; [lia|]. split; [done|]. intros j Hj. lia.
  - apply (inv_lens _ _ (fh_inv _ _ _ _ _ F)).
  - intros j Hj. now apply (demo_heaps s).
  - done.
  - apply demo_roots.
  - intros a Ha. apply (single_root t SBSIZE) in Ha as [_ ->]; [|apply (geo_S _ _ _ _ Gg)|done|done]. left. exists (SBSIZE * 1).
    change (r_rgs t) with (r_rgs s). rewrite Et. apply slot_large; [lia|done].
  - apply reach_root. exists 0, SBSIZE. split; [done|]. split; [done|]. split; [done|]. split; [symmetry; exact Et|]. apply (in_range_sb0 Gg). lia.
Qed.

(** A fresh heap from which one block of the class [sc] has been taken: its superblock was on the
    free list, so the regions are as they were. *)
Lemma demo_used sc : class_idx sc -> exists s0 s G b,
  fresh_heap (2 ^ 32) (2 ^ 40) (2 ^ 41) (2 ^ 42) s0 /\ inv s G /\ r_rgs s = r_rgs s0 /\ gn G = 16384 /\ live (r_rgs s) G b (bsz sc).
Proof.
  intros Hc. destruct demo_heap as (s0 & _ & F). pose proof (fh_inv _ _ _ _ _ F) as I0. pose proof (class_facts sc Hc) as Cf.
  destruct (inv_alloc_cons s0 fresh_ghost I0 eq_refl 1 (seqZ 2 16382)) as (s1 & _ & I1 & E1 & _);
    [cbn [fresh_ghost gav]; now rewrite seqZ_cons by lia|].
  set (G1 := set_owner (set_av fresh_ghost (seqZ 2 16382)) (Some 1)) in *.
  destruct (format_sb_inv s1 G1 sc 1 I1 Hc eq_refl) as (s2 & _ & I2 & E2 & _); [cbn; lia|done|done|].
  set (G2 := filled (r_rgs s1) G1 sc 1 (seqZ 0 (mcn sc))) in *.
  assert (Ec : gca G2 sc = blk (r_rgs s1) sc 1 0 :: map (blk (r_rgs s1) sc 1) (seqZ 1 (mcn sc - 1))).
  { unfold G2, filled. gproj. fins. rewrite seqZ_cons by lia. cbn [map]. now rewrite <- Z.sub_1_r. }
  destruct (pop_block_inv s2 G2 I2 sc _ _ Hc Ec) as (s3 & E & I3 & _ & E3 & _).
  destruct (pop_block_allocated s2 G2 sc _ _ I2 eq_refl Hc Ec) as (s3' & E' & Al). rewrite E in E'. injection E' as <-.
  exists s0, s3. eexists _, _. split; [exact F|]. split; [exact I3|]. split; [congruence|]. split; [reflexivity|].
  apply (al_live _ _ _ _ _ _ Al). right. split; [reflexivity|reflexivity].
Qed.

(** A crash of that heap that leaves the block's address in root 0. *)
Lemma demo_crash s G b sz : inv s G -> live (r_rgs s) G b sz ->
  let t := demo_crashed s (b - rg_lookup (r_rgs s) SB_IDX) (dget (r_desc s) (daA (r_rgs s) 1)) in
  crash s t /\ reach t b /\ forall a, reach t a -> mark_place (r_rgs t) (gn G) (r_desc t) (gk G) a.
Proof.
  intros I L t. destruct (inv_geo _ _ I) as (rd & rs & Gg). pose proof (geo_S _ _ _ _ Gg) as [Hs _].
  destruct (live_facts s G b sz I L) as (Hb & Hb2 & Hsz & _ & Hlt & Hin & _).
  assert (Et : CrossPtr_get (r_rgs s) SB_IDX (b - rg_lookup (r_rgs s) SB_IDX) = b).
  { unfold CrossPtr_get, translate. rewrite (proj2 (Z.eqb_neq (b - _) 0)) by lia. rewrite u64_small; lia. }
  split; [|split].
  - constructor; try done; [|now left]. intros i Hi. cbn [t demo_crashed r_desc].
    destruct (decide (i = 1)) as [->|N]; [now rewrite dget_eq|]. now rewrite dget_daA_ne by lia.
  - apply reach_root. exists 0, (b - rg_lookup (r_rgs s) SB_IDX). split; [done|]. split; [done|]. split; [lia|]. split; [symmetry; exact Et|exact Hin].
  - intros a Ha. apply (single_root t (b - rg_lookup (r_rgs s) SB_IDX)) in Ha as [_ ->]; [|exact Hs|done|done].
    change (r_rgs t) with (r_rgs s). rewrite Et. left. exists sz. destruct L; econstructor; eassumption.
Qed.

(** ** Claims *)

(** C19: marking ends and marks exactly what is reachable. If every root that is not
    null has its filter registered and the bytes the filter reads of reachable blocks are mapped,
    the roots loop and the stack loop return with as many iterations as the region has bytes (each
    address is pushed at most once), change nothing, and the iterator of the sorted set then
    visits, in increasing order, the addresses reachable from the roots through eight-byte words at
    any offset of a block that look like pointers into the region; without a loss and without any
    other. *)
Theorem gc_mark_exact s fuel : 0 < rg_lookup (r_rgs s) SB_IDX -> roots_ok s -> (forall a, reach s a -> scan_ok s a) ->
  (Z.to_nat (region_bytes s) < fuel)%nat ->
  exists c, gc_mark fuel s = Ok (c, s) /\ StronglySorted Z.lt (marked_list c) /\ (forall a, a ∈ marked_list c <-> reach s a).
Proof.
  intros H0 Ro Sc Hf. destruct (gc_mark_ok s H0 fuel Ro Sc Hf) as (c & E & M). destruct (marked_list_spec c) as [So El].
  exists c. split; [done|]. split; [done|]. intros a. now rewrite El, M.
Qed.

Lemma gc_mark_exact_witness : exists s c, gc_mark (S (Z.to_nat (region_bytes s))) s = Ok (c, s) /\ sbA (r_rgs s) 1 ∈ marked_list c.
Proof.
  destruct demo_heap as (s & _ & F). destruct (demo_restarted s F) as [R Hr]. set (t := demo_crashed s SBSIZE demo_large) in *.
  destruct (gc_mark_exact t (S (Z.to_nat (region_bytes t))) (reach_pos t _ _ R) (rt_roots _ _ _ R) (reach_scan t _ _ R) ltac:(lia)) as (c & E & _ & M).
  exists t, c. split; [exact E|]. now apply M.
Defined.

(** C15: recovery after a crash, for a heap as [restarted] describes it: the superblock region
    is mapped at an address that is a multiple of 64 KiB (any such address, not necessarily the
    old one) and the file goes on for at least 8 bytes behind the last superblock; the descriptors
    of the superblocks in use have their identifying fields (heap, block size, count, superblock)
    and the heaps their class indices; every root that is not null has its filter registered; and
    every address reachable from the roots is the start of a block or lies in an unused
    superblock. Anchors, links, list heads and the descriptors of free superblocks are arbitrary.
    If the dirty mutex says that its owner died, or is not a valid mutex any more, [RP_recover]
    returns 1 and leaves a well-formed heap, marked as in use, in which the blocks in use are
    exactly the blocks that are reachable, all others are on free lists, and the bytes of the
    reachable blocks, the roots and the mapping are what they were. If the mutex says the heap was
    closed, or is in use by a live process, [RP_recover] returns 0 and changes nothing but the
    mutex. *)
Theorem gc_recovers s n k fuel : restarted s n k -> (Z.to_nat (region_bytes s) < fuel)%nat ->
  (dirty_mtx (r_md s) = OwnerDead \/ dirty_mtx (r_md s) = Invalid ->
   exists s' G, RP_recover fuel s = Ok (1, s') /\ recovered s s' n k G /\ dirty_mtx (r_md s') = Locked) /\
  (dirty_mtx (r_md s) = Unlocked \/ dirty_mtx (r_md s) = Locked ->
   RP_recover fuel s = Ok (0, set_meta s (set_mtx Locked (r_md s)) (Fence :: r_trace s))).
Proof.
  intros R Hf. split; [now apply (restart_ok s n k)|]. intros Hd. unfold RP_recover, restart. crun (is_dirty_clean s Hd). do 2 cpure.
  assert (E : set_dirty (emit [Fence] s) = Ok (tt, set_meta s (set_mtx Locked (r_md s)) (Fence :: r_trace s))) by (apply set_dirty_run; cbn; tauto).
  crun E. reflexivity.
Qed.

Lemma gc_recovers_witness : exists s s' G, RP_recover (S (Z.to_nat (region_bytes s))) s = Ok (1, s') /\ inv s' G /\ live (r_rgs s) G (sbA (r_rgs s) 1) SBSIZE.
Proof.
  destruct demo_heap as (s & _ & F). destruct (demo_restarted s F) as [R Hr]. set (t := demo_crashed s SBSIZE demo_large) in *.
  destruct (gc_recovers t _ _ (S (Z.to_nat (region_bytes t))) R ltac:(lia)) as [H _]. destruct H as (s' & G & E & Rc & _); [now left|].
  exists t, s', G. split; [exact E|]. split; [apply Rc|]. apply (rc_live _ _ _ _ _ Rc). split; [|exact Hr].
  apply (slot_large (r_rgs t) 16384 demo_kind 1 1); [lia|done].
Defined.

(** C10: nothing reachable is lost and nothing unreachable leaks over a crash. A program has used
    a heap up to any well-formed state and dies; caches, anchors, links and list heads are lost,
    while the identifying fields of the descriptors and the class indices survive ([crash]). The
    next process maps the files at the same addresses, finds the dirty mutex with a dead owner or
    invalid, and has registered a filter for every root that is not null; the superblock file goes
    on for at least 8 bytes behind the last superblock; and every address reachable from the roots
    in the surviving memory is the start of a block or lies in an unused superblock. Then
    [RP_recover] makes the heap implement the abstract allocator again, so that every legal request
    of the next run is served as specified: the program gets back every block it held that is
    reachable, with the bytes the crash left in it, and every block that is not reachable is
    free. *)
Theorem crash_recovery s0 G0 s fuel : inv s0 G0 -> crash s0 s -> roots_ok s ->
  (exists r, get_region (r_rgs s) SB_IDX = Some r /\ curr_addr r + 8 <= base_addr r + FILESIZE r) ->
  (forall a, reach s a -> mark_place (r_rgs s) (gn G0) (r_desc s) (gk G0) a) -> (Z.to_nat (region_bytes s) < fuel)%nat ->
  exists s' A, RP_recover fuel s = Ok (1, s') /\ refines s' A /\
    (forall b sz, live (r_rgs s0) G0 b sz -> reach s b -> a_blocks A !! b = Some sz) /\
    (forall b sz, a_blocks A !! b = Some sz -> reach s b) /\
    (forall a, owned A a -> a_bytes A a = rd8 (r_mem s) a).
Proof.
  intros I C Ro (r & Er & Rm) P Hf. pose proof (crash_layout s0 s G0 I C) as L. pose proof (cr_rgs _ _ C) as Eg.
  destruct (inv_geo _ _ I) as (rd & rs & Gg). rewrite <- Eg in Gg. pose proof (geo_rs _ _ _ _ Gg) as Ers. rewrite Er in Ers. injection Ers as ->.
  assert (R : restarted s (gn G0) (gk G0)).
  { constructor; try done; [exists rd, rs; split; [done|now rewrite <- (curr_addr_sb Gg)]| | |apply C].
    - rewrite (proj1 (cr_heaps _ _ C)). apply I.
    - intros j Hj. now apply (crash_heaps s0 s G0). }
  destruct (restart_ok s (gn G0) (gk G0) fuel R Hf (cr_dirty _ _ C)) as (s' & G & E & [I' Ho Ers (Fi & _) Lv By] & _).
  destruct (gc_mark_ok s (reach_pos s _ _ R) fuel Ro (reach_scan s _ _ R) Hf) as (c & _ & M).
  assert (Bl : forall b sz, blocks_of s (marked_blk c) !! b = Some sz <-> live (r_rgs s) G b sz).
  { intros b sz. rewrite (blocks_of_slot s (gn G0) (gk G0) _ rd rs Gg L), Lv, M; [done|]. intros x Hx. now apply P, M. }
  exists s', (mkA (blocks_of s (marked_blk c)) (rd8 (r_mem s))). split; [done|]. split; [|split; [|split; [|done]]].
  - split; [rewrite Fi; apply C|]. exists G. split; [done|]. split; [done|]. rewrite Ers. split; [exact Bl|].
    intros a (b & sz & Hb & Ha). apply By. exists b, sz. split; [now apply Bl|done].
  - intros b sz Lb Hb. apply Bl, Lv. split; [|done]. rewrite <- Eg in Lb. destruct Lb; econstructor; eassumption.
  - intros b sz Hb. now apply Bl, Lv in Hb.
Qed.

Lemma crash_recovery_witness : exists s s' A b, RP_recover (S (Z.to_nat (region_bytes s))) s = Ok (1, s') /\ refines s' A /\
  a_blocks A !! b = Some (bsz 9).
Proof.
  assert (Hc : class_idx 9) by (split; [discriminate|reflexivity]).
  destruct (demo_used 9 Hc) as (sf & s0 & G0 & b & F & I & Eg & En & L). destruct (demo_geo sf F) as (rd & rs & Gg & Rm).
  destruct (demo_crash s0 G0 b (bsz 9) I L) as (C & Hr & P). set (t := demo_crashed s0 _ _) in *.
  destruct (crash_recovery s0 G0 t (S (Z.to_nat (region_bytes t))) I C) as (s' & A & E & Rf & H1 & _).
  - apply demo_roots.
  - exists rs. change (r_rgs t) with (r_rgs s0). rewrite Eg. split; [apply Gg|]. now rewrite (curr_addr_sb Gg).
  - exact P.
  - apply Nat.lt_succ_diag_r.
  - exists t, s', A, b. split; [exact E|]. split; [exact Rf|]. now apply H1.
Defined.
