(* ===== verification/ArtNode.v ===== *)
(** * P-ART: the four node layouts

    [src/RECIPE/P-ART/N.h] and [N.cpp], [N4.cpp], [N16.cpp], [N48.cpp], [N256.cpp]: the header
    every node has (type, version and lock bits in one word, compressed prefix, level, counters),
    the layouts of the children for at most 4, 16, 48 and 256 of them, and the methods of each.

    A method is a computation on the object it is called on ([self]); a pointer to a child is its
    address, 0 for [nullptr] and odd for a leaf. At every [sfence] the contents of the object are
    also recorded in [flushed]: the state a crash at that point leaves when everything written
    before has reached memory, as in the crash tests of the repository, which copy the process at
    such points. Two facts about addresses are left out: that [movnt64] asserts its target to be
    aligned to eight bytes, which the layouts give, and on which cache lines a node lies.

    A byte of a prefix that was never written is [None], and reading it is an invalid access. *)

From S2P Require Import Prelude.
From stdpp Require Import sorting.
#[local] Open Scope Z_scope.
#[local] Open Scope cmd_scope.

Definition u16 (x : Z) : Z := x mod 2 ^ 16.

(** ** Data *)

Definition NT4 : Z := 0.
Definition NT16 : Z := 1.
Definition NT48 : Z := 2.
Definition NT256 : Z := 3.

Definition maxStoredPrefixLength : Z := 4.

Record Prefix := mkPrefix { prefixCount : Z; prefixBytes : list (option Z) }.

(** [Prefix p;]: the count is initialised, the bytes are not. *)
Definition Prefix_default : Prefix := mkPrefix 0 [None; None; None; None].

Inductive Body :=
| B4 (keys children : list Z)
| B16 (keys children : list Z)
| B48 (childIndex children : list Z)
| B256 (children : list Z).

Record NodeN := mkN {
  typeVersionLockObsolete : Z;
  pfx : Prefix;
  level : Z;
  count : Z;
  compactCount : Z;
  body : Body }.

Definition set_word (n : NodeN) w := mkN w (pfx n) (level n) (count n) (compactCount n) (body n).
Definition set_pfx (n : NodeN) p := mkN (typeVersionLockObsolete n) p (level n) (count n) (compactCount n) (body n).
Definition set_count (n : NodeN) c := mkN (typeVersionLockObsolete n) (pfx n) (level n) c (compactCount n) (body n).
Definition set_compactCount (n : NodeN) c := mkN (typeVersionLockObsolete n) (pfx n) (level n) (count n) c (body n).
Definition set_body (n : NodeN) b := mkN (typeVersionLockObsolete n) (pfx n) (level n) (count n) (compactCount n) b.

(** The object a method runs on, and its contents at each fence. *)
Record NS := mkNS { self : NodeN; flushed : list NodeN }.

Definition load {A} (f : NodeN -> A) : stM NS A := cgets (fun s => f (self s)).
Definition store (f : NodeN -> NodeN) : stM NS unit := cmod (fun s => mkNS (f (self s)) (flushed s)).

(** An element of an array, and the assignment to one. *)
Definition arr_get {S A} (l : list A) (i : Z) : stM S A :=
  if 0 <=? i then match l !! Z.to_nat i with Some x => cret x | None => cfail UB_access end
  else cfail UB_access.

Definition arr_set {S A} (l : list A) (i : Z) (x : A) : stM S (list A) :=
  if (0 <=? i) && (i <? Z.of_nat (length l)) then cret (<[Z.to_nat i := x]> l) else cfail UB_access.

(** ** Fences and write-backs *)

Definition N_mfence : stM NS unit := cmod (fun s => mkNS (self s) (flushed s ++ [self s])).

Definition N_clflush (front back : bool) : stM NS unit :=
  (if front then N_mfence else cret tt);; (if back then N_mfence else cret tt).

(** [movnt64] stores eight bytes past the caches: [st] is the store. *)
Definition N_movnt64 (st : stM NS unit) (front back : bool) : stM NS unit :=
  (if front then N_mfence else cret tt);; st;; (if back then N_mfence else cret tt).

(** ** Type, version and lock bits *)

Definition convertTypeToVersion (type : Z) : Z := u64 (Z.shiftl type 62).

Definition fetch_add_word (d : Z) : stM NS unit :=
  store (fun n => set_word n (u64 (typeVersionLockObsolete n + d))).

Definition setType (type : Z) : stM NS unit := fetch_add_word (convertTypeToVersion type).

Definition getType : stM NS Z := load (fun n => Z.shiftr (typeVersionLockObsolete n) 62).

Definition isLocked (version : Z) : bool := Z.land version 2 =? 2.
Definition isObsolete (version : Z) : bool := Z.land version 1 =? 1.

Definition getVersion : stM NS Z := load typeVersionLockObsolete.

(** The result tells whether the operation has to restart. A lock that is held stays held, as
    there is one thread. *)
Definition writeLockOrRestart : stM NS bool :=
  version <- load typeVersionLockObsolete;
  if isLocked version then cfail Hang
  else if isObsolete version then cret true
  else store (fun n => set_word n (u64 (version + 2)));; cret false.

Definition lockVersionOrRestart (version : Z) : stM NS bool :=
  if isLocked version || isObsolete version then cret true
  else w <- load typeVersionLockObsolete;
       if w =? version then store (fun n => set_word n (u64 (version + 2)));; cret false
       else cret true.

Definition writeUnlock : stM NS unit := fetch_add_word 2.
Definition writeUnlockObsolete : stM NS unit := fetch_add_word 3.

Definition readUnlockOrRestart (startRead : Z) : stM NS bool :=
  w <- load typeVersionLockObsolete; cret (startRead =? w).
Definition checkOrRestart (startRead : Z) : stM NS bool := readUnlockOrRestart startRead.

(** ** Counters *)

Definition fetch_add_count (d : Z) : stM NS Z :=
  c <- load count; store (fun n => set_count n (u16 (c + d)));; cret c.
Definition fetch_add_compactCount (d : Z) : stM NS Z :=
  c <- load compactCount; store (fun n => set_compactCount n (u16 (c + d)));; cret c.

(** ** The compressed prefix *)

(** [n] bytes of [src] copied to [dst] from index [off] on. *)
Definition memcpy {S A} (dst : list A) (off : Z) (src : list A) (n : Z) : stM S (list A) :=
  if (0 <=? off) && (0 <=? n) && (off + n <=? Z.of_nat (length dst)) && (n <=? Z.of_nat (length src))
  then cret (take (Z.to_nat off) dst ++ take (Z.to_nat n) src ++ drop (Z.to_nat (off + n)) dst)
  else cfail UB_access.

Definition getPrefi : stM NS Prefix := load pfx.
Definition getLevel : stM NS Z := load level.

Definition setPrefix (prefix : list (option Z)) (length : Z) (flush : bool) : stM NS unit :=
  (if 0 <? length then
     bs <- memcpy (prefixBytes Prefix_default) 0 prefix (Z.min length maxStoredPrefixLength);
     store (fun n => set_pfx n (mkPrefix length bs))
   else store (fun n => set_pfx n Prefix_default));;
  if flush then N_clflush false true else cret tt.

Definition addPrefixBefore (nodeP : Prefix) (key : Z) : stM NS unit :=
  p <- getPrefi;
  let prefixCopyCount := Z.min maxStoredPrefixLength (u32 (prefixCount nodeP + 1)) in
  bs <- memcpy (prefixBytes p) prefixCopyCount (prefixBytes p)
          (Z.min (prefixCount p) (maxStoredPrefixLength - prefixCopyCount));
  bs <- memcpy bs 0 (prefixBytes nodeP) (Z.min prefixCopyCount (prefixCount nodeP));
  bs <- (if prefixCount nodeP <? maxStoredPrefixLength
         then arr_set bs (prefixCopyCount - 1) (Some key) else cret bs);
  store (fun n => set_pfx n (mkPrefix (u32 (prefixCount p + prefixCount nodeP + 1)) bs));;
  N_clflush false true.

(** ** Leaves *)

Definition isLeaf (n : Z) : bool := Z.odd n.
Definition setLeaf (k : Z) : Z := Z.lor k 1.
Definition getLeaf (n : Z) : Z := Z.ldiff n 1.

(** ** Constructors *)

Definition N_empty (type lv : Z) (p : Prefix) (b : Body) : NodeN :=
  mkN (u64 (4 + convertTypeToVersion type)) p lv 0 0 b.

Definition new_N4 (lv : Z) (p : Prefix) : NodeN := N_empty NT4 lv p (B4 (replicate 4 0) (replicate 4 0)).
Definition new_N16 (lv : Z) (p : Prefix) : NodeN := N_empty NT16 lv p (B16 (replicate 16 0) (replicate 16 0)).
Definition emptyMarker : Z := 48.
Definition new_N48 (lv : Z) (p : Prefix) : NodeN :=
  N_empty NT48 lv p (B48 (replicate 256 emptyMarker) (replicate 48 0)).
Definition new_N256 (lv : Z) (p : Prefix) : NodeN := N_empty NT256 lv p (B256 (replicate 256 0)).

(** The result of comparing, and the choice of a child. *)
Definition getAnyChild_loop (child : Z -> stM NS Z) (n : Z) : stM NS Z :=
  r <- cfold (seqZ 0 n) (fun i (acc : Z * bool) =>
         if acc.2 then cret acc
         else c <- child i;
              if c =? 0 then cret acc
              else if isLeaf c then cret (c, true) else cret (c, false)) (0, false);
  cret r.1.

(** At most three of the children [child 0 .. child (n - 1)] are counted. *)
Definition getCount_loop (present : Z -> stM NS bool) (n : Z) : stM NS Z :=
  cfold (seqZ 0 n) (fun i cnt => if cnt <? 3 then b <- present i; cret (if b : bool then cnt + 1 else cnt)
                                 else cret cnt) 0.

(** [std::sort] on the key byte. *)
Definition key_le (x y : Z * Z) : Prop := x.1 <= y.1.
#[export] Instance key_le_dec x y : Decision (key_le x y).
Proof. unfold key_le. apply _. Defined.

(** ** N4 *)

Definition N4_arrays : stM NS (list Z * list Z) :=
  b <- load body; match b with B4 ks cs => cret (ks, cs) | _ => cfail UB_access end.
Definition N4_key (i : Z) : stM NS Z := a <- N4_arrays; arr_get a.1 i.
Definition N4_child (i : Z) : stM NS Z := a <- N4_arrays; arr_get a.2 i.
Definition N4_set_key (i k : Z) : stM NS unit :=
  a <- N4_arrays; ks <- arr_set a.1 i k; store (fun n => set_body n (B4 ks a.2)).
Definition N4_set_child (i c : Z) : stM NS unit :=
  a <- N4_arrays; cs <- arr_set a.2 i c; store (fun n => set_body n (B4 a.1 cs)).

Definition N4_insert (key n : Z) (flush : bool) : stM NS bool :=
  cc <- load compactCount;
  if cc =? 4 then cret false
  else nextIndex <- fetch_add_compactCount 1;
       fetch_add_count 1;;
       (if flush then
          N4_set_key nextIndex key;;
          N_clflush false true;;
          N_movnt64 (N4_set_child nextIndex n) false true
        else
          N4_set_key nextIndex key;;
          N4_set_child nextIndex n);;
       cret true.

(** The index of the first child in use whose key is [key]. *)
Definition N4_find (key n : Z) : stM NS (option Z) :=
  cfor_ret (seqZ 0 n) (fun i =>
    child <- N4_child i;
    if child =? 0 then cret None
    else k <- N4_key i; cret (if k =? key then Some i else None)).

Definition N4_change (key val : Z) : stM NS unit :=
  cc <- load compactCount;
  r <- N4_find key cc;
  match r with
  | Some i => N_movnt64 (N4_set_child i val) false true
  | None => cfail AssertFail
  end.

Definition N4_getChild (k : Z) : stM NS Z :=
  r <- N4_find k 4;
  match r with Some i => N4_child i | None => cret 0 end.

Definition N4_remove (k : Z) (force flush : bool) : stM NS bool :=
  cc <- load compactCount;
  r <- N4_find k cc;
  match r with
  | Some i => (if flush then N_movnt64 (N4_set_child i 0) false true else N4_set_child i 0);;
              fetch_add_count (-1);; cret true
  | None => cfail AssertFail
  end.

Definition N4_getAnyChild : stM NS Z := getAnyChild_loop N4_child 4.

Definition N4_getSecondChild (key : Z) : stM NS (Z * Z) :=
  cc <- load compactCount;
  r <- cfor_ret (seqZ 0 cc) (fun i =>
         child <- N4_child i;
         if child =? 0 then cret None
         else k <- N4_key i; cret (if k =? key then None else Some (child, k)));
  cret (default (0, 0) r).

(** The children whose key byte is between [start] and [end_], in the order of the slots. *)
Definition collect (n start end_ : Z) (key child : Z -> stM NS Z) : stM NS (list (Z * Z)) :=
  cfold (seqZ 0 n) (fun i acc =>
    k <- key i;
    if (start <=? k) && (k <=? end_) then
      c <- child i; cret (if c =? 0 then acc else acc ++ [(k, c)])
    else cret acc) [].

Definition N4_getChildren (start end_ : Z) : stM NS (list (Z * Z)) :=
  l <- collect 4 start end_ N4_key N4_child; cret (merge_sort key_le l).

Definition nonnull (child : Z -> stM NS Z) (i : Z) : stM NS bool := c <- child i; cret (negb (c =? 0)).

Definition N4_getCount : stM NS Z :=
  cc <- load compactCount; getCount_loop (nonnull N4_child) cc.

(** [copyTo] runs on the node copied to; [src] is the node copied from and [insert] the method
    of the class of the target. *)
Definition N4_copyTo (src : NodeN) (insert : Z -> Z -> bool -> stM NS bool) : stM NS unit :=
  match body src with
  | B4 ks cs =>
      cfor (seqZ 0 (compactCount src)) (fun i =>
        child <- arr_get cs i;
        if child =? 0 then cret tt
        else k <- arr_get ks i; insert k child false;; cret tt)
  | _ => cfail UB_access
  end.

(** ** N16 *)

Definition flipSign (keyByte : Z) : Z := Z.lxor keyByte 128.

Fixpoint ctz_pos (p : positive) : Z := match p with xO q => 1 + ctz_pos q | _ => 0 end.
Definition ctz (x : Z) : Z := match x with Zpos p => ctz_pos p | _ => 0 end.

(** [_mm_movemask_epi8(_mm_cmpeq_epi8(..))]: bit [i] tells whether byte [i] is [x]. *)
Fixpoint cmpeq_movemask (x : Z) (ks : list Z) : Z :=
  match ks with
  | [] => 0
  | k :: ks' => Z.lor (bool_Z (k =? x)) (Z.shiftl (cmpeq_movemask x ks') 1)
  end.

Definition N16_arrays : stM NS (list Z * list Z) :=
  b <- load body; match b with B16 ks cs => cret (ks, cs) | _ => cfail UB_access end.
Definition N16_key (i : Z) : stM NS Z := a <- N16_arrays; arr_get a.1 i.
Definition N16_child (i : Z) : stM NS Z := a <- N16_arrays; arr_get a.2 i.
Definition N16_set_key (i k : Z) : stM NS unit :=
  a <- N16_arrays; ks <- arr_set a.1 i k; store (fun n => set_body n (B16 ks a.2)).
Definition N16_set_child (i c : Z) : stM NS unit :=
  a <- N16_arrays; cs <- arr_set a.2 i c; store (fun n => set_body n (B16 a.1 cs)).

Definition N16_insert (key n : Z) (flush : bool) : stM NS bool :=
  cc <- load compactCount;
  if cc =? 16 then cret false
  else nextIndex <- fetch_add_compactCount 1;
       fetch_add_count 1;;
       (if flush then
          N16_set_key nextIndex (flipSign key);;
          N_clflush false true;;
          N_movnt64 (N16_set_child nextIndex n) false true
        else
          N16_set_key nextIndex (flipSign key);;
          N16_set_child nextIndex n);;
       cret true.

Definition N16_copyTo (src : NodeN) (insert : Z -> Z -> bool -> stM NS bool) : stM NS unit :=
  match body src with
  | B16 ks cs =>
      cfor (seqZ 0 (compactCount src)) (fun i =>
        child <- arr_get cs i;
        if child =? 0 then cret tt
        else k <- arr_get ks i; insert (flipSign k) child false;; cret tt)
  | _ => cfail UB_access
  end.

(** [while (bitfield) { .. bitfield ^= 1 << pos; }]: there are at most 16 bits to clear. *)
Definition BITS_FUEL : nat := 17.

Fixpoint scan_bits (fuel : nat) (bitfield : Z) (found : Z -> stM NS bool) : stM NS (option Z) :=
  match fuel with
  | O => cfail OutOfFuel
  | S fuel' =>
      if bitfield =? 0 then cret None
      else let pos := ctz bitfield in
           b <- found pos;
           if b : bool then cret (Some pos)
           else scan_bits fuel' (Z.lxor bitfield (Z.shiftl 1 pos)) found
  end.

(** The position of the child, [None] for the null pointer. *)
Definition N16_getChildPos (k : Z) : stM NS (option Z) :=
  a <- N16_arrays;
  cc <- load compactCount;
  let bitfield := Z.land (cmpeq_movemask (flipSign k) a.1) (Z.shiftl 1 cc - 1) in
  scan_bits BITS_FUEL bitfield (nonnull N16_child).

Definition N16_getChild (k : Z) : stM NS Z :=
  a <- N16_arrays;
  let bitfield := Z.land (cmpeq_movemask (flipSign k) a.1) (Z.shiftl 1 16 - 1) in
  r <- scan_bits BITS_FUEL bitfield (fun pos =>
         child <- N16_child pos;
         key <- N16_key pos;
         cret (negb (child =? 0) && (key =? flipSign k)));
  match r with Some pos => N16_child pos | None => cret 0 end.

Definition N16_change (key val : Z) : stM NS unit :=
  childPos <- N16_getChildPos key;
  match childPos with
  | None => cfail AssertFail
  | Some pos => N_movnt64 (N16_set_child pos val) false true
  end.

Definition N16_remove (k : Z) (force flush : bool) : stM NS bool :=
  c <- load count;
  if (c <=? 3) && negb force then cret false
  else leafPlace <- N16_getChildPos k;
       match leafPlace with
       | None => cfail AssertFail
       | Some pos =>
           (if flush then N_movnt64 (N16_set_child pos 0) false true else N16_set_child pos 0);;
           fetch_add_count (-1);;
           g <- N16_getChild k; cassert (g =? 0);;
           cret true
       end.

Definition N16_getAnyChild : stM NS Z := getAnyChild_loop N16_child 16.

Definition N16_getChildren (start end_ : Z) : stM NS (list (Z * Z)) :=
  cc <- load compactCount;
  l <- collect cc start end_ (fun i => k <- N16_key i; cret (flipSign k)) N16_child;
  cret (merge_sort key_le l).

Definition N16_getCount : stM NS Z :=
  cc <- load compactCount; getCount_loop (nonnull N16_child) cc.

(** ** N48 *)

Definition N48_arrays : stM NS (list Z * list Z) :=
  b <- load body; match b with B48 ix cs => cret (ix, cs) | _ => cfail UB_access end.
Definition N48_index (k : Z) : stM NS Z := a <- N48_arrays; arr_get a.1 k.
Definition N48_child (i : Z) : stM NS Z := a <- N48_arrays; arr_get a.2 i.
Definition N48_set_index (k i : Z) : stM NS unit :=
  a <- N48_arrays; ix <- arr_set a.1 k i; store (fun n => set_body n (B48 ix a.2)).
Definition N48_set_child (i c : Z) : stM NS unit :=
  a <- N48_arrays; cs <- arr_set a.2 i c; store (fun n => set_body n (B48 a.1 cs)).

(** One byte of the index is changed by storing the eight bytes around it. *)
Definition N48_set_index64 (key i : Z) : stM NS unit :=
  a <- N48_arrays;
  let index64 := take 8 (drop (Z.to_nat (8 * (key / 8))) a.1) in
  index8 <- arr_set index64 (key mod 8) i;
  N_movnt64 (ix <- memcpy a.1 (8 * (key / 8)) index8 8;
             store (fun n => set_body n (B48 ix a.2))) false true.

Definition ADVANCE_FUEL : nat := 49.

Fixpoint N48_advance (fuel : nat) : stM NS bool :=
  match fuel with
  | O => cfail OutOfFuel
  | S fuel' =>
      cc <- load compactCount;
      c <- N48_child cc;
      if c =? 0 then cret true
      else fetch_add_compactCount 1;;
           cc' <- load compactCount;
           if cc' =? 48 then cret false else N48_advance fuel'
  end.

Definition N48_insert (key n : Z) (flush : bool) : stM NS bool :=
  cc <- load compactCount;
  if cc =? 48 then cret false
  else ok <- N48_advance ADVANCE_FUEL;
       if negb ok then cret false
       else cc <- load compactCount;
            (if flush then
               N48_set_child cc n;;
               N_clflush false true;;
               N48_set_index64 key cc
             else
               N48_set_child cc n;;
               N48_set_index key cc);;
            fetch_add_compactCount 1;;
            fetch_add_count 1;;
            cret true.

Definition N48_copyTo (src : NodeN) (insert : Z -> Z -> bool -> stM NS bool) : stM NS unit :=
  match body src with
  | B48 ix cs =>
      cfor (seqZ 0 256) (fun i =>
        index <- arr_get ix i;
        if index =? emptyMarker then cret tt
        else c <- arr_get cs index; insert i c false;; cret tt)
  | _ => cfail UB_access
  end.

Definition N48_change (key val : Z) : stM NS unit :=
  index <- N48_index key;
  cassert (negb (index =? emptyMarker));;
  N_movnt64 (N48_set_child index val) false true.

Definition N48_getChild (k : Z) : stM NS Z :=
  index <- N48_index k;
  if index =? emptyMarker then cret 0 else N48_child index.

Definition N48_remove (k : Z) (force flush : bool) : stM NS bool :=
  c <- load count;
  if (c <=? 12) && negb force then cret false
  else index <- N48_index k;
       cassert (negb (index =? emptyMarker));;
       (if flush then
          N48_set_child index 0;;
          N_clflush false true;;
          N48_set_index64 k emptyMarker
        else
          N48_set_child index 0;;
          N48_set_index k emptyMarker);;
       fetch_add_count (-1);;
       g <- N48_getChild k; cassert (g =? 0);;
       cret true.

Definition N48_getAnyChild : stM NS Z := getAnyChild_loop N48_child 48.

Definition N48_getChildren (start end_ : Z) : stM NS (list (Z * Z)) :=
  cfold (seqZ start (end_ - start + 1)) (fun i acc =>
    index <- N48_index i;
    if index =? emptyMarker then cret acc
    else c <- N48_child index; cret (if c =? 0 then acc else acc ++ [(i, c)])) [].

Definition N48_getCount : stM NS Z :=
  getCount_loop (fun i => index <- N48_index i; cret (negb (index =? emptyMarker))) 256.

(** ** N256 *)

Definition N256_children : stM NS (list Z) :=
  b <- load body; match b with B256 cs => cret cs | _ => cfail UB_access end.
Definition N256_child (k : Z) : stM NS Z := cs <- N256_children; arr_get cs k.
Definition N256_set_child (k c : Z) : stM NS unit :=
  cs <- N256_children; cs <- arr_set cs k c; store (fun n => set_body n (B256 cs)).

Definition N256_insert (key val : Z) (flush : bool) : stM NS bool :=
  c <- load count;
  if 256 <=? c then cret false
  else (if flush then N_movnt64 (N256_set_child key val) false true else N256_set_child key val);;
       fetch_add_count 1;; cret true.

Definition N256_copyTo (src : NodeN) (insert : Z -> Z -> bool -> stM NS bool) : stM NS unit :=
  match body src with
  | B256 cs =>
      cfor (seqZ 0 256) (fun i =>
        child <- arr_get cs i;
        if child =? 0 then cret tt else insert i child false;; cret tt)
  | _ => cfail UB_access
  end.

Definition N256_change (key n : Z) : stM NS unit := N_movnt64 (N256_set_child key n) false true.

Definition N256_getChild (k : Z) : stM NS Z := N256_child k.

Definition N256_remove (k : Z) (force flush : bool) : stM NS bool :=
  c <- load count;
  if (c <=? 37) && negb force then cret false
  else (if flush then N_movnt64 (N256_set_child k 0) false true else N256_set_child k 0);;
       fetch_add_count (-1);; cret true.

Definition N256_getAnyChild : stM NS Z := getAnyChild_loop N256_child 256.

Definition N256_getChildren (start end_ : Z) : stM NS (list (Z * Z)) :=
  cfold (seqZ start (end_ - start + 1)) (fun i acc =>
    c <- N256_child i; cret (if c =? 0 then acc else acc ++ [(i, c)])) [].

Definition N256_getCount : stM NS Z := getCount_loop (nonnull N256_child) 256.

(** ** Dispatch on the type *)

Definition dispatch {A} (m4 m16 m48 m256 : stM NS A) : stM NS A :=
  t <- getType;
  if t =? NT4 then m4 else if t =? NT16 then m16 else if t =? NT48 then m48
  else if t =? NT256 then m256 else cfail AssertFail.

Definition N_getAnyChild : stM NS Z :=
  dispatch N4_getAnyChild N16_getAnyChild N48_getAnyChild N256_getAnyChild.
Definition N_change (key val : Z) : stM NS unit :=
  dispatch (N4_change key val) (N16_change key val) (N48_change key val) (N256_change key val).
Definition N_getChild (k : Z) : stM NS Z :=
  dispatch (N4_getChild k) (N16_getChild k) (N48_getChild k) (N256_getChild k).
Definition N_getCount : stM NS Z :=
  dispatch N4_getCount N16_getCount N48_getCount N256_getCount.
Definition N_getSecondChild (key : Z) : stM NS (Z * Z) :=
  dispatch (N4_getSecondChild key) (cfail AssertFail) (cfail AssertFail) (cfail AssertFail).
Definition N_getChildren (start end_ : Z) : stM NS (list (Z * Z)) :=
  dispatch (N4_getChildren start end_) (N16_getChildren start end_)
           (N48_getChildren start end_) (N256_getChildren start end_).

(** ** The classes, as the parameters of the templates of [N.cpp] *)

Record NodeClass := mkClass {
  nc_type : Z;
  nc_new : Z -> Prefix -> NodeN;
  nc_insert : Z -> Z -> bool -> stM NS bool;
  nc_copyTo : NodeN -> (Z -> Z -> bool -> stM NS bool) -> stM NS unit;
  nc_remove : Z -> bool -> bool -> stM NS bool }.

Definition C4 : NodeClass := mkClass NT4 new_N4 N4_insert N4_copyTo N4_remove.
Definition C16 : NodeClass := mkClass NT16 new_N16 N16_insert N16_copyTo N16_remove.
Definition C48 : NodeClass := mkClass NT48 new_N48 N48_insert N48_copyTo N48_remove.
Definition C256 : NodeClass := mkClass NT256 new_N256 N256_insert N256_copyTo N256_remove.
