(* ===== verification/ArtSlots.v ===== *)
(** * P-ART: the layouts implement maps from bytes to children

    Every layout is seen as a list of slots, pairs of a key byte and a child that is null when
    the slot is free. [chmap] is the map a node holds. *)

From S2P Require Import Prelude ArtNode.
From stdpp Require Import sorting.
#[local] Open Scope Z_scope.
#[local] Open Scope cmd_scope.

(** ** Lists of slots *)

Definition live (sl : list (Z * Z)) : list (Z * Z) := filter (fun p => p.2 <> 0) sl.
Definition smap (sl : list (Z * Z)) : gmap Z Z := list_to_map (live sl).
Definition sdup (sl : list (Z * Z)) : Prop := NoDup (live sl).*1.

Lemma live_app l1 l2 : live (l1 ++ l2) = live l1 ++ live l2.
Proof. apply filter_app. Qed.

Lemma live_null b l : live ((b, 0) :: l) = live l.
Proof. unfold live. now rewrite filter_cons_False by (simpl; lia). Qed.

Lemma live_some b p l : p <> 0 -> live ((b, p) :: l) = (b, p) :: live l.
Proof. intros Hp. unfold live. now rewrite filter_cons_True by done. Qed.

Lemma live_elem b p sl : (b, p) ∈ live sl <-> p <> 0 /\ (b, p) ∈ sl.
Proof. unfold live. now rewrite list_elem_of_filter. Qed.

(** A slot in the middle of the list. *)
Lemma slot_split (sl : list (Z * Z)) i x y :
  sl !! i = Some x -> exists l1 l2, sl = l1 ++ x :: l2 /\ <[i := y]> sl = l1 ++ y :: l2.
Proof.
  intros H. exists (take i sl), (drop (S i) sl). split.
  - symmetry. now apply take_drop_middle.
  - apply insert_take_drop. now apply lookup_lt_Some in H.
Qed.

Lemma smap_lookup sl b p : sdup sl -> smap sl !! b = Some p <-> p <> 0 /\ (b, p) ∈ sl.
Proof.
  intros Hd. unfold smap. rewrite <- live_elem. symmetry. now apply elem_of_list_to_map.
Qed.

Lemma smap_lookup_index sl b p :
  sdup sl -> smap sl !! b = Some p <-> exists i, sl !! i = Some (b, p) /\ p <> 0.
Proof.
  intros Hd. rewrite smap_lookup, list_elem_of_lookup by done. naive_solver.
Qed.

Lemma smap_None sl b : smap sl !! b = None <-> forall p, (b, p) ∈ sl -> p = 0.
Proof.
  unfold smap. rewrite <- not_elem_of_list_to_map. split.
  - intros H p Hp. destruct (decide (p = 0)) as [|Hn]; [done|]. destruct H.
    apply list_elem_of_fmap. exists (b, p). split; [done|]. now apply live_elem.
  - intros H Hin. apply list_elem_of_fmap in Hin as ([b' p] & -> & Hin).
    apply live_elem in Hin as [Hn Hin]. now apply Hn, H.
Qed.

Lemma smap_size sl : sdup sl -> size (smap sl) = length (live sl).
Proof.
  intros Hd. unfold smap. rewrite <- (length_fmap fst (live sl)), <- (size_list_to_set (C := gset Z)) by done.
  rewrite <- (dom_list_to_map_L (D := gset Z) (live sl)), size_dom. done.
Qed.

(** The four ways a method changes a slot. *)
Lemma slot_key sl i b0 b : sl !! i = Some (b0, 0) -> live (<[i := (b, 0)]> sl) = live sl.
Proof.
  intros H. destruct (slot_split sl i _ (b, 0) H) as (l1 & l2 & -> & ->).
  now rewrite !live_app, !live_null.
Qed.

Lemma slot_insert sl i b0 b p :
  sl !! i = Some (b0, 0) -> p <> 0 -> sdup sl -> smap sl !! b = None ->
  sdup (<[i := (b, p)]> sl) /\ smap (<[i := (b, p)]> sl) = <[b := p]> (smap sl).
Proof.
  intros H Hp Hd Hb.
  assert (E : live (<[i := (b, p)]> sl) ≡ₚ (b, p) :: live sl).
  { destruct (slot_split sl i _ (b, p) H) as (l1 & l2 & -> & ->).
    rewrite !live_app, live_null, live_some by done. symmetry. apply Permutation_middle. }
  assert (Hd' : NoDup ((b, p) :: live sl).*1).
  { cbn. apply list.NoDup_cons. split; [|done]. now apply not_elem_of_list_to_map in Hb. }
  assert (Hd2 : sdup (<[i := (b, p)]> sl)) by (unfold sdup; now rewrite E).
  split; [done|]. unfold smap. now rewrite (list_to_map_proper _ _ Hd2 E).
Qed.

Lemma slot_change sl i b q p :
  sl !! i = Some (b, q) -> q <> 0 -> p <> 0 -> sdup sl ->
  sdup (<[i := (b, p)]> sl) /\ smap (<[i := (b, p)]> sl) = <[b := p]> (smap sl).
Proof.
  intros H Hq Hp Hd. unfold sdup, smap in *.
  destruct (slot_split sl i _ (b, p) H) as (l1 & l2 & -> & ->).
  rewrite live_app, live_some in * by done. rewrite live_app, live_some by done.
  rewrite fmap_app, fmap_cons in *. split; [done|].
  cbn in Hd. rewrite !list_to_map_app, !list_to_map_cons.
  apply list.NoDup_app in Hd as (_ & Hd & _).
  rewrite <- !insert_union_r, insert_insert; [by rewrite decide_True|..];
    apply not_elem_of_list_to_map; intros Hin; apply (Hd _ Hin); now left.
Qed.

Lemma slot_remove sl i b q :
  sl !! i = Some (b, q) -> q <> 0 -> sdup sl ->
  sdup (<[i := (b, 0)]> sl) /\ smap (<[i := (b, 0)]> sl) = delete b (smap sl).
Proof.
  intros H Hq Hd. unfold sdup, smap in *.
  destruct (slot_split sl i _ (b, 0) H) as (l1 & l2 & -> & ->).
  rewrite live_app, live_some in Hd by done.
  rewrite !live_app, live_null, live_some by done.
  assert (E : live l1 ++ (b, q) :: live l2 ≡ₚ (b, q) :: (live l1 ++ live l2))
    by (symmetry; apply Permutation_middle).
  rewrite (list_to_map_proper _ _ Hd E). rewrite E in Hd. cbn in Hd.
  apply list.NoDup_cons in Hd as [Hn Hd]. split; [done|].
  rewrite list_to_map_cons. rewrite delete_insert_id; [done|]. now apply not_elem_of_list_to_map.
Qed.

(** The first slot in use with a given key. *)
Definition slot_test (sl : list (Z * Z)) (key i : Z) : option Z :=
  match sl !! Z.to_nat i with
  | Some (k, c) => if c =? 0 then None else if k =? key then Some i else None
  | None => None
  end.

Lemma slot_test_Some sl key i j :
  slot_test sl key i = Some j -> j = i /\ exists c, sl !! Z.to_nat i = Some (key, c) /\ c <> 0.
Proof.
  unfold slot_test. destruct (sl !! Z.to_nat i) as [[k c]|]; [|done].
  destruct (Z.eqb_spec c 0), (Z.eqb_spec k key); naive_solver.
Qed.

Lemma first_some_in {A R} (f : A -> option R) l r :
  first_some f l = Some r -> exists x, x ∈ l /\ f x = Some r.
Proof.
  induction l as [|x l IH]; [done|]. simpl. destruct (f x) eqn:E.
  - intros [= <-]. exists x. split; [now left|done].
  - intros H. destruct (IH H) as (y & Hy & Ey). exists y. split; [now right|done].
Qed.

(** Nothing in use from slot [m] on. *)
Definition used_below (sl : list (Z * Z)) (m : Z) : Prop :=
  forall i b c, sl !! i = Some (b, c) -> c <> 0 -> Z.of_nat i < m.

Definition slot_found (sl : list (Z * Z)) (key : Z) (r : option Z) : Prop :=
  match smap sl !! key with
  | Some p => exists i, r = Some i /\ 0 <= i /\ sl !! Z.to_nat i = Some (key, p) /\ p <> 0
  | None => r = None
  end.

Lemma slot_found_intro sl key r :
  sdup sl ->
  (forall i, r = Some i -> 0 <= i /\ exists c, sl !! Z.to_nat i = Some (key, c) /\ c <> 0) ->
  (r = None -> forall i c, sl !! i = Some (key, c) -> c = 0) -> slot_found sl key r.
Proof.
  intros Hd HS HN. unfold slot_found. destruct r as [i|].
  - destruct (HS i eq_refl) as (Hi & c & Hc & Hc0).
    assert (E : smap sl !! key = Some c) by (apply smap_lookup_index; eauto).
    rewrite E. eauto.
  - assert (E : smap sl !! key = None).
    { apply smap_None. intros p Hp. apply list_elem_of_lookup in Hp as (i & Hi). eauto. }
    now rewrite E.
Qed.

Lemma first_some_found sl key m :
  sdup sl -> used_below sl m -> slot_found sl key (first_some (slot_test sl key) (seqZ 0 m)).
Proof.
  intros Hd Hu. apply slot_found_intro; [done|..].
  - intros i H. apply first_some_in in H as (x & Hx & E). apply elem_of_seqZ in Hx.
    apply slot_test_Some in E as (-> & c & Hc). split; [lia|eauto].
  - intros H i c Hi. destruct (decide (c = 0)) as [|Hc]; [done|].
    rewrite first_some_None in H. specialize (H (Z.of_nat i)).
    rewrite elem_of_seqZ in H. unfold slot_test in H. rewrite Nat2Z.id, Hi in H.
    apply Z.eqb_neq in Hc. rewrite Hc, Z.eqb_refl in H.
    apply Z.eqb_neq in Hc. pose proof (Hu i key c Hi Hc). discriminate H. lia.
Qed.

(** ** Arrays *)

Lemma arr_get_run {S A} (l : list A) i x (s : S) :
  0 <= i -> l !! Z.to_nat i = Some x -> arr_get l i s = Ok (x, s).
Proof.
  intros Hi Hx. unfold arr_get. rewrite (proj2 (Z.leb_le 0 i) Hi), Hx. done.
Qed.

Lemma arr_set_run {S A} (l : list A) i x (s : S) :
  0 <= i < Z.of_nat (length l) -> arr_set l i x s = Ok (<[Z.to_nat i := x]> l, s).
Proof.
  intros Hi. unfold arr_set. rewrite (proj2 (Z.leb_le 0 i)), (proj2 (Z.ltb_lt _ _)) by lia. done.
Qed.

Lemma list_at {A} (l : list A) i : 0 <= i < Z.of_nat (length l) -> exists x, l !! Z.to_nat i = Some x.
Proof. intros Hi. apply lookup_lt_is_Some. lia. Qed.

Lemma zip_lookup (ks cs : list Z) i k c :
  zip ks cs !! i = Some (k, c) <-> ks !! i = Some k /\ cs !! i = Some c.
Proof. rewrite lookup_zip_with_Some. naive_solver. Qed.

(** ** Bits of the N16 search *)

Lemma cmpeq_movemask_nonneg x ks : 0 <= cmpeq_movemask x ks.
Proof.
  induction ks as [|k ks IH]; [done|]. simpl. apply Z.lor_nonneg. split.
  - destruct (k =? x); simpl; lia.
  - now apply Z.shiftl_nonneg.
Qed.

Lemma cmpeq_movemask_testbit x ks (i : nat) :
  Z.testbit (cmpeq_movemask x ks) (Z.of_nat i) = bool_decide (ks !! i = Some x).
Proof.
  revert i. induction ks as [|k ks IH]; intros i.
  { rewrite bool_decide_eq_false_2 by done. apply Z.testbit_0_l. }
  cbn [cmpeq_movemask]. rewrite Z.lor_spec. destruct i as [|i].
  - change (Z.of_nat 0) with 0. rewrite Z.shiftl_spec_low, orb_false_r by lia. cbn [lookup list_lookup].
    destruct (Z.eqb_spec k x) as [->|Hn]; cbn [bool_Z].
    + now rewrite bool_decide_eq_true_2 by done.
    + rewrite bool_decide_eq_false_2 by congruence. done.
  - rewrite Z.shiftl_spec by lia. replace (Z.of_nat (S i) - 1) with (Z.of_nat i) by lia.
    rewrite IH. replace (Z.testbit (bool_Z (k =? x)) (Z.of_nat (S i))) with false; [done|].
    symmetry. apply (bits_above _ 1); [|lia]. destruct (k =? x); simpl; lia.
Qed.

Lemma ctz_pos_spec p :
  0 <= ctz_pos p /\ Z.testbit (Zpos p) (ctz_pos p) = true /\
  forall j, 0 <= j < ctz_pos p -> Z.testbit (Zpos p) j = false.
Proof.
  induction p as [p IH|p IH|]; cbn [ctz_pos].
  - split; [lia|]. split; [done|]. intros j Hj. lia.
  - destruct IH as (H0 & H1 & H2). split; [lia|].
    change (Z.pos (xO p)) with (2 * Z.pos p).
    split.
    + replace (1 + ctz_pos p) with (Z.succ (ctz_pos p)) by lia. now rewrite Z.double_bits_succ.
    + intros j Hj. destruct (decide (j = 0)) as [->|Hn]; [now rewrite Z.testbit_even_0|].
      replace j with (Z.succ (j - 1)) by lia. rewrite Z.double_bits_succ. apply H2. lia.
  - split; [lia|]. split; [done|]. intros j Hj. lia.
Qed.

Lemma ctz_spec x :
  0 < x -> 0 <= ctz x /\ Z.testbit x (ctz x) = true /\ forall j, 0 <= j < ctz x -> Z.testbit x j = false.
Proof. destruct x; try lia. intros _. apply ctz_pos_spec. Qed.

Lemma clear_bit x pos j :
  0 <= pos -> 0 <= j -> Z.testbit x pos = true ->
  Z.testbit (Z.lxor x (Z.shiftl 1 pos)) j = Z.testbit x j && negb (j =? pos).
Proof.
  intros Hp Hj Hx. rewrite Z.lxor_spec, Z.shiftl_1_l, Z.pow2_bits_eqb by lia.
  rewrite (Z.eqb_sym pos j).
  destruct (Z.eqb_spec j pos) as [->|]; [now rewrite Hx|]. now destruct (Z.testbit x j).
Qed.

(** The loop visits the set bits in order; [f] tells which position it accepts. *)
Lemma scan_bits_run (f : Z -> bool) found s bf w : forall fuel j,
  0 <= bf -> 0 <= j <= w -> (forall i, w <= i -> Z.testbit bf i = false) ->
  (forall i, 0 <= i < j -> Z.testbit bf i = false) -> w - j < Z.of_nat fuel ->
  (forall i, 0 <= i < w -> found i s = Ok (f i, s)) ->
  exists r, scan_bits fuel bf found s = Ok (r, s) /\
    (forall i, r = Some i -> 0 <= i < w /\ Z.testbit bf i = true /\ f i = true) /\
    (r = None -> forall i, 0 <= i < w -> Z.testbit bf i = true -> f i = false).
Proof.
  intros fuel. revert bf. induction fuel as [|fuel IH]; intros bf j Hbf Hj Hhi Hlo Hfuel Hf.
  - lia.
  - cbn [scan_bits]. destruct (Z.eqb_spec bf 0) as [->|Hn0].
    + exists None. split; [done|]. split; [done|]. intros _ i _. now rewrite Z.testbit_0_l.
    + destruct (ctz_spec bf ltac:(lia)) as (Hc0 & Hc1 & Hc2).
      assert (Hcw : ctz bf < w).
      { destruct (Z.lt_ge_cases (ctz bf) w); [done|]. rewrite Hhi in Hc1 by done. done. }
      assert (Hcj : j <= ctz bf).
      { destruct (Z.lt_ge_cases (ctz bf) j); [|done]. rewrite Hlo in Hc1 by lia. done. }
      rewrite (cbind_Ok _ _ _ _ _ (Hf (ctz bf) ltac:(lia))). destruct (f (ctz bf)) eqn:Ef.
      * exists (Some (ctz bf)). split; [done|]. split; [|done]. intros i [= <-]. auto.
      * pose proof (fun i Hi => clear_bit bf (ctz bf) i Hc0 Hi Hc1) as Hcl.
        destruct (IH (Z.lxor bf (Z.shiftl 1 (ctz bf))) (ctz bf + 1)) as (r & Hr & HrS & HrN);
          [|lia|..|lia|done|].
        { apply Z.lxor_nonneg. split; intros _; [|done]. apply Z.shiftl_nonneg. lia. }
        { intros i Hi. rewrite Hcl, Hhi by lia. done. }
        { intros i Hi. rewrite Hcl by lia. destruct (Z.eqb_spec i (ctz bf)) as [->|]; [apply andb_false_r|].
          rewrite Hc2 by lia. done. }
        exists r. split; [done|]. split.
        -- intros i Hi. destruct (HrS i Hi) as (H1 & H2 & H3). rewrite Hcl in H2 by lia.
           apply andb_true_iff in H2 as [H2 _]. auto.
        -- intros Hi i Hw Hb. destruct (Z.eqb_spec i (ctz bf)) as [->|Hne]; [done|].
           apply (HrN Hi i Hw). rewrite Hcl, Hb by lia. apply Z.eqb_neq in Hne. now rewrite Hne.
Qed.

(** ** The map of a node *)

Definition tag (b : Body) : Z :=
  match b with B4 _ _ => NT4 | B16 _ _ => NT16 | B48 _ _ => NT48 | B256 _ => NT256 end.

Definition child48 (ix cs : list Z) (b : Z) : Z :=
  match ix !! Z.to_nat b with
  | Some i => if i =? emptyMarker then 0 else default 0 (cs !! Z.to_nat i)
  | None => 0
  end.

Definition bytes256 : list Z := seqZ 0 256.

Definition slots (b : Body) : list (Z * Z) :=
  match b with
  | B4 ks cs => zip ks cs
  | B16 ks cs => zip (flipSign <$> ks) cs
  | B48 ix cs => (fun b => (b, child48 ix cs b)) <$> bytes256
  | B256 cs => zip bytes256 cs
  end.

Definition chmap (n : NodeN) : gmap Z Z := smap (slots (body n)).

Definition byte (b : Z) : Prop := 0 <= b < 256.

(** What the arrays of a layout satisfy, at every moment. *)
Definition shape (n : NodeN) : Prop :=
  match body n with
  | B4 ks cs => length ks = 4%nat /\ length cs = 4%nat /\ 0 <= compactCount n <= 4 /\
      used_below (slots (body n)) (compactCount n)
  | B16 ks cs => length ks = 16%nat /\ length cs = 16%nat /\ 0 <= compactCount n <= 16 /\
      used_below (slots (body n)) (compactCount n)
  | B48 ix cs => length ix = 256%nat /\ length cs = 48%nat /\ 0 <= compactCount n <= 48 /\
      (forall b i, ix !! b = Some i -> 0 <= i <= emptyMarker) /\
      (forall b b' i, ix !! b = Some i -> ix !! b' = Some i -> i <> emptyMarker -> b = b')
  | B256 cs => length cs = 256%nat
  end.

Definition layout (n : NodeN) : Prop :=
  Z.shiftr (typeVersionLockObsolete n) 62 = tag (body n) /\ shape n /\
  sdup (slots (body n)) /\ Forall (fun p => byte p.1) (slots (body n)).

(** What holds when no method is running: the counter is right, and the children of an N48 are
    the ones its index points to. *)
Definition full (n : NodeN) : Prop :=
  count n = Z.of_nat (size (chmap n)) /\
  match body n with
  | B48 ix cs =>
      (forall b i, ix !! b = Some i -> i <> emptyMarker ->
         i < compactCount n /\ exists c, cs !! Z.to_nat i = Some c /\ c <> 0) /\
      (forall i c, cs !! i = Some c -> c <> 0 -> exists b : nat, ix !! b = Some (Z.of_nat i))
  | _ => True
  end.

(** The header a method on the children leaves as it is. *)
Definition hdr (n n' : NodeN) : Prop :=
  typeVersionLockObsolete n' = typeVersionLockObsolete n /\ pfx n' = pfx n /\ level n' = level n /\
  tag (body n') = tag (body n).

Lemma flipSign_flipSign b : flipSign (flipSign b) = b.
Proof. unfold flipSign. now rewrite Z.lxor_assoc, Z.lxor_nilpotent, Z.lxor_0_r. Qed.

Lemma flipSign_inj a b : flipSign a = flipSign b -> a = b.
Proof. intros H. rewrite <- (flipSign_flipSign a), H. apply flipSign_flipSign. Qed.

Lemma child_byte n k p : layout n -> chmap n !! k = Some p -> byte k /\ p <> 0.
Proof.
  intros (_ & _ & Hd & Hb) H. apply smap_lookup in H as [Hp H]; [|done].
  rewrite list.Forall_forall in Hb. split; [|done]. apply (Hb _ H).
Qed.

(** [slots] when one entry of the arrays changes. *)
Lemma slots_B4 ks cs i b p :
  slots (B4 (<[i := b]> ks) (<[i := p]> cs)) = <[i := (b, p)]> (slots (B4 ks cs)).
Proof. symmetry. apply insert_zip_with. Qed.

Lemma slots_B4_child ks cs i b p :
  ks !! i = Some b -> slots (B4 ks (<[i := p]> cs)) = <[i := (b, p)]> (slots (B4 ks cs)).
Proof. intros H. now rewrite <- slots_B4, (list_insert_id ks). Qed.

Lemma slots_B16 ks cs i b p :
  slots (B16 (<[i := flipSign b]> ks) (<[i := p]> cs)) = <[i := (b, p)]> (slots (B16 ks cs)).
Proof.
  cbn [slots]. rewrite list_fmap_insert, flipSign_flipSign. symmetry. apply insert_zip_with.
Qed.

Lemma slots_B16_child ks cs i b p :
  ks !! i = Some (flipSign b) -> slots (B16 ks (<[i := p]> cs)) = <[i := (b, p)]> (slots (B16 ks cs)).
Proof. intros H. now rewrite <- slots_B16, (list_insert_id ks). Qed.

Lemma bytes256_lookup b : byte b -> bytes256 !! Z.to_nat b = Some b.
Proof. intros Hb. unfold bytes256. apply lookup_seqZ. unfold byte in Hb. lia. Qed.

Lemma bytes256_lookup_inv i b : bytes256 !! i = Some b -> byte b /\ i = Z.to_nat b.
Proof. unfold bytes256, byte. intros H. apply lookup_seqZ in H. lia. Qed.

Lemma slots_B256 cs b p :
  byte b -> slots (B256 (<[Z.to_nat b := p]> cs)) = <[Z.to_nat b := (b, p)]> (slots (B256 cs)).
Proof.
  intros Hb. cbn [slots].
  rewrite <- (list_insert_id bytes256 (Z.to_nat b) b) at 1 by now apply bytes256_lookup.
  symmetry. apply insert_zip_with.
Qed.

Lemma slots_B48_lookup ix cs i b c :
  slots (B48 ix cs) !! i = Some (b, c) <-> byte b /\ i = Z.to_nat b /\ c = child48 ix cs b.
Proof.
  cbn [slots]. rewrite list_lookup_fmap_Some. split.
  - intros (b' & [= -> ->] & H). apply bytes256_lookup_inv in H as [H1 H2]. done.
  - intros (Hb & -> & ->). exists b. split; [done|]. now apply bytes256_lookup.
Qed.

(** An N48 whose child under [b] is now [p] and whose other children are the same. *)
Lemma slots_B48_update ix cs ix' cs' b p :
  byte b -> child48 ix' cs' b = p ->
  (forall b', byte b' -> b' <> b -> child48 ix' cs' b' = child48 ix cs b') ->
  slots (B48 ix' cs') = <[Z.to_nat b := (b, p)]> (slots (B48 ix cs)).
Proof.
  intros Hb Hp Ho. apply list_eq_same_length with 256%nat;
    [rewrite length_insert; cbn [slots]; now rewrite length_fmap; apply length_seqZ
    |cbn [slots]; rewrite length_fmap; apply length_seqZ|].
  intros i [b1 c1] [b2 c2] Hi H1 H2. apply slots_B48_lookup in H1 as (Hb1 & -> & ->).
  destruct (decide (b1 = b)) as [->|Hn].
  - rewrite list_lookup_insert_eq in H2; [by injection H2 as <- <-; rewrite Hp|].
    cbn [slots]. rewrite length_fmap. unfold bytes256. rewrite length_seqZ. unfold byte in Hb. lia.
  - rewrite list_lookup_insert_ne in H2 by (unfold byte in *; lia).
    apply slots_B48_lookup in H2 as (Hb2 & Hi2 & ->).
    replace b2 with b1 by (unfold byte in *; lia). now rewrite Ho.
Qed.
