(* ===== verification/ArtLayout.v ===== *)
(** * P-ART: what the methods of the nodes do

    Each method of each layout returns and does to the map of the node ([chmap]) what its name
    says. [NodeClassSpec] is what the templates of [N.cpp] rely on. *)

From S2P Require Import Prelude ArtNode ArtSlots.
From stdpp Require Import sorting.
#[local] Open Scope Z_scope.
#[local] Open Scope cmd_scope.

(** One step of a method on an object whose fields are known. *)
Ltac nred :=
  cbv beta iota zeta delta
    [cbind cret cgets cmod cfail cassert load store fetch_add_count fetch_add_compactCount fetch_add_word
     set_word set_pfx set_count set_compactCount set_body self flushed fst snd
     typeVersionLockObsolete pfx level count compactCount body
     N4_arrays N4_key N4_child N4_set_key N4_set_child
     N16_arrays N16_key N16_child N16_set_key N16_set_child
     N48_arrays N48_index N48_child N48_set_index N48_set_child
     N256_children N256_child N256_set_child
     N_mfence N_clflush N_movnt64 nonnull negb andb].

Ltac nproj := cbn [typeVersionLockObsolete pfx level count compactCount body tag] in *.

Lemma u16_small x : 0 <= x < 2 ^ 16 -> u16 x = x.
Proof. apply Z.mod_small. Qed.

Lemma load_bind {A B} (f : NodeN -> A) (k : A -> stM NS B) n lg :
  cbind (load f) k (mkNS n lg) = k (f n) (mkNS n lg).
Proof. reflexivity. Qed.

(** [n'] is [n] with [m] for its map; [x] is [n] at a moment in between. *)
Definition upd (n n' : NodeN) (m : gmap Z Z) : Prop := hdr n n' /\ layout n' /\ chmap n' = m.

Lemma layout_intro n n' :
  layout n -> hdr n n' -> shape n' -> sdup (slots (body n')) ->
  Forall (fun p => byte p.1) (slots (body n')) -> layout n'.
Proof. intros (Ht & _) (Hw & _ & _ & Htag) Hs Hd Hb. split; [|done]. now rewrite Hw, Htag. Qed.

(** A slot that changes its child or gets a new key leaves the layout intact. *)
Lemma upd_intro n n' i b p m :
  layout n -> hdr n n' -> shape n' -> byte b ->
  slots (body n') = <[i := (b, p)]> (slots (body n)) ->
  sdup (<[i := (b, p)]> (slots (body n))) -> smap (<[i := (b, p)]> (slots (body n))) = m ->
  upd n n' m.
Proof.
  intros Hl Hh Hs Hb E Hd Hm. split; [done|]. split.
  - apply (layout_intro n n'); [done..|now rewrite E|]. rewrite E.
    apply Forall_insert; [apply Hl|done].
  - unfold chmap. now rewrite E.
Qed.

(** ** One slot changes

    [put_child b i p] is the body [b] with the child of slot [i] replaced by [p]. *)

Definition put_child (b : Body) (i : nat) (p : Z) : Body :=
  match b with
  | B4 ks cs => B4 ks (<[i := p]> cs)
  | B16 ks cs => B16 ks (<[i := p]> cs)
  | B48 ix cs => B48 ix (<[Z.to_nat (default 0 (ix !! i)) := p]> cs)
  | B256 cs => B256 (<[i := p]> cs)
  end.

Lemma B16_lookup ks cs i k c :
  slots (B16 ks cs) !! i = Some (k, c) <-> ks !! i = Some (flipSign k) /\ cs !! i = Some c.
Proof.
  cbn [slots]. rewrite zip_lookup, list_lookup_fmap_Some. split.
  - intros [(k' & -> & H) Hc]. now rewrite flipSign_flipSign.
  - intros [H Hc]. split; [|done]. exists (flipSign k). now rewrite flipSign_flipSign.
Qed.

Lemma B256_lookup cs i k c :
  slots (B256 cs) !! i = Some (k, c) <-> byte k /\ i = Z.to_nat k /\ cs !! i = Some c.
Proof.
  cbn [slots]. rewrite zip_lookup. split.
  - intros [H Hc]. apply bytes256_lookup_inv in H as [Hk ->]. done.
  - intros (Hk & -> & Hc). split; [now apply bytes256_lookup|done].
Qed.

(** The child of an N48 that is not null is where the index says. *)
Lemma B48_child ix cs k c :
  child48 ix cs k = c -> c <> 0 ->
  exists i, ix !! Z.to_nat k = Some i /\ i <> emptyMarker /\ cs !! Z.to_nat i = Some c.
Proof.
  unfold child48. destruct (ix !! Z.to_nat k) as [i|]; [|congruence].
  destruct (Z.eqb_spec i emptyMarker) as [|Hn]; [congruence|].
  destruct (cs !! Z.to_nat i) as [c'|] eqn:E; simpl; [|congruence]. intros <- _. eauto.
Qed.

Lemma child48_other ix cs k i j p :
  (forall b i, ix !! b = Some i -> 0 <= i <= emptyMarker) -> 0 <= j ->
  ix !! Z.to_nat k = Some i -> i <> j -> child48 ix (<[Z.to_nat j := p]> cs) k = child48 ix cs k.
Proof.
  intros Hr Hj Hk Hn. unfold child48. rewrite Hk. destruct (i =? emptyMarker); [done|].
  pose proof (Hr _ _ Hk). rewrite list_lookup_insert_ne; [done|]. lia.
Qed.

Lemma slots_put n i k q p :
  shape n -> slots (body n) !! i = Some (k, q) -> q <> 0 ->
  slots (put_child (body n) i p) = <[i := (k, p)]> (slots (body n)).
Proof.
  intros Hs H Hq. unfold shape in Hs. destruct (body n) as [ks cs|ks cs|ix cs|cs]; cbn [put_child].
  - apply slots_B4_child. cbn [slots] in H. now apply zip_lookup in H as [H _].
  - apply slots_B16_child. now apply B16_lookup in H as [H _].
  - apply slots_B48_lookup in H as (Hk & -> & Hc). symmetry in Hc.
    destruct (B48_child ix cs k q Hc Hq) as (j & Hj & Hjn & Hcj).
    destruct Hs as (Hx & Hcl & _ & Hr & Hinj). pose proof (Hr _ _ Hj) as Hjr.
    rewrite Hj. cbn [default from_option id]. apply slots_B48_update; [done|..].
    + unfold child48. rewrite Hj. apply Z.eqb_neq in Hjn. rewrite Hjn.
      rewrite list_lookup_insert_eq; [done|]. now apply lookup_lt_Some in Hcj.
    + intros b' Hb' Hn. destruct (list_at ix b') as (j' & Hj'); [unfold byte in *; lia|].
      apply (child48_other ix cs b' j' j); [done|lia|done|]. intros ->.
      apply Hn. pose proof (Hinj _ _ _ Hj Hj' Hjn). unfold byte in *. lia.
  - apply B256_lookup in H as (Hk & -> & _). now apply slots_B256.
Qed.

Lemma shape_put n i k q p :
  shape n -> slots (body n) !! i = Some (k, q) -> q <> 0 ->
  shape (set_body n (put_child (body n) i p)).
Proof.
  intros Hs H Hq. pose proof (slots_put n i k q p Hs H Hq) as E. unfold shape in *.
  destruct (body n) as [ks cs|ks cs|ix cs|cs]; cbn [set_body body put_child compactCount] in *;
    rewrite length_insert; [..|done]; [| |exact Hs];
  (split_and!; [apply Hs..|]; rewrite E; intros j b c Hj Hc;
   destruct (decide (j = i)) as [->|Hn]; [|rewrite list_lookup_insert_ne in Hj by done];
   eapply Hs; eauto).
Qed.

Lemma tag_put b i p : tag (put_child b i p) = tag b.
Proof. now destruct b. Qed.

(** [change] on the slot of a child. *)
Lemma change_upd n i k q p :
  layout n -> slots (body n) !! i = Some (k, q) -> q <> 0 -> p <> 0 ->
  let n' := set_body n (put_child (body n) i p) in
  upd n n' (<[k := p]> (chmap n)) /\ (full n -> full n').
Proof.
  intros Hl H Hq Hp. pose proof Hl as (_ & Hs & Hd & Hb).
  destruct (slot_change _ _ k q p H Hq Hp Hd) as [Hd' Hm'].
  pose proof (slots_put n i k q p Hs H Hq) as E. split.
  - apply (upd_intro n _ i k p); [done|..|done|done|done].
    + split_and!; try done. apply tag_put.
    + now apply (shape_put n i k q).
    + rewrite list.Forall_forall in Hb. apply (Hb (k, q)). now apply list_elem_of_lookup_2 in H.
  - intros [Hcnt Hx]. assert (Hqm : smap (slots (body n)) !! k = Some q)
      by (apply smap_lookup_index; eauto). split.
    + unfold chmap in *. cbn [set_body body count]. rewrite E, Hm', map_size_insert_Some by now exists q.
      done.
    + cbn [set_body body compactCount]. unfold shape in Hs.
      destruct (body n) as [ks cs|ks cs|ix cs|cs]; try done.
      cbn [put_child]. destruct Hx as [Hx1 Hx2].
      apply slots_B48_lookup in H as (Hk & -> & Hc). symmetry in Hc.
      destruct (B48_child ix cs k q Hc Hq) as (j & Hj & Hjn & Hcj). rewrite Hj. cbn [default from_option id].
      pose proof (lookup_lt_Some _ _ _ Hcj) as Hjl. split.
      * intros b i Hi Hin. destruct (Hx1 _ _ Hi Hin) as (H1 & c & H2 & H3). split; [done|].
        destruct (decide (Z.to_nat i = Z.to_nat j)) as [->|Hne].
        { exists p. split; [now apply list_lookup_insert_eq|done]. }
        exists c. split; [by rewrite list_lookup_insert_ne|done].
      * intros i c Hi Hc0. destruct (decide (i = Z.to_nat j)) as [->|Hne].
        { exists (Z.to_nat k). rewrite Hj. f_equal.
          pose proof (proj1 (proj2 (proj2 (proj2 Hs))) _ _ Hj). lia. }
        rewrite list_lookup_insert_ne in Hi by done. eauto.
Qed.

(** [remove] on the slot of a child. *)
Lemma remove_upd n i k q :
  layout n -> slots (body n) !! i = Some (k, q) -> q <> 0 ->
  upd n (set_body n (put_child (body n) i 0)) (delete k (chmap n)).
Proof.
  intros Hl H Hq. pose proof Hl as (_ & Hs & Hd & Hb).
  destruct (slot_remove _ _ k q H Hq Hd) as [Hd' Hm'].
  apply (upd_intro n _ i k 0); [done|..|done|done].
  - split_and!; try done. apply tag_put.
  - now apply (shape_put n i k q).
  - rewrite list.Forall_forall in Hb. apply (Hb (k, q)). now apply list_elem_of_lookup_2 in H.
  - now apply (slots_put n i k q 0 Hs).
Qed.

(** The counters are not part of a layout. *)
Lemma upd_set_count n n' m c : upd n n' m -> upd n (set_count n' c) m.
Proof. intros (Hh & Hl & Hm). split_and!; done. Qed.

Lemma size_delete (m : gmap Z Z) k q :
  m !! k = Some q -> Z.of_nat (size (delete k m)) = Z.of_nat (size m) - 1.
Proof.
  intros H. rewrite map_size_delete_Some by now exists q.
  enough (size m <> 0%nat) by lia. intros H0%map_size_empty_inv. subst m. done.
Qed.

Lemma size_insert (m : gmap Z Z) k p :
  m !! k = None -> Z.of_nat (size (<[k := p]> m)) = Z.of_nat (size m) + 1.
Proof. intros H. rewrite map_size_insert_None by done. lia. Qed.

(** The keys of a node are bytes, so it has at most 256 children. *)
Lemma size_bytes n : layout n -> (size (chmap n) <= 256)%nat.
Proof.
  intros Hl. rewrite <- (size_dom (D := gset Z)).
  replace 256%nat with (size (list_to_set bytes256 : gset Z)).
  - apply subseteq_size. intros k [p Hk]%elem_of_dom. apply elem_of_list_to_set, elem_of_seqZ.
    destruct (child_byte n k p Hl Hk) as [[? ?] _]. lia.
  - rewrite size_list_to_set by apply NoDup_seqZ. apply length_seqZ.
Qed.

Lemma chmap_slot n k q :
  layout n -> chmap n !! k = Some q -> exists i, slots (body n) !! i = Some (k, q) /\ q <> 0.
Proof. intros (_ & _ & Hd & _) H. now apply smap_lookup_index in H. Qed.

(** How many slots of a node have been used. *)
Definition used (n : NodeN) : Z := match body n with B256 _ => count n | _ => compactCount n end.

Definition capacity (b : Body) : Z :=
  match b with B4 _ _ => 4 | B16 _ _ => 16 | B48 _ _ => 48 | B256 _ => 256 end.

(** The moments of a run that changes the map [m] to [m']. *)
Definition mids (n : NodeN) (m m' : gmap Z Z) (l : list NodeN) : Prop :=
  Forall (fun x => upd n x m \/ upd n x m') l.

Definition insert_ok (n n' : NodeN) (l : list NodeN) (k p : Z) : Prop :=
  upd n n' (<[k := p]> (chmap n)) /\ full n' /\ used n' = used n + 1 /\
  mids n (chmap n) (<[k := p]> (chmap n)) l.

Definition remove_ok (n n' : NodeN) (l : list NodeN) (k : Z) : Prop :=
  upd n n' (delete k (chmap n)) /\ full n' /\ mids n (chmap n) (delete k (chmap n)) l.

(** *** A new key in an N4 or N16 *)

Definition add_key (b : Body) (i : nat) (k : Z) : Body :=
  match b with
  | B4 ks cs => B4 (<[i := k]> ks) cs
  | B16 ks cs => B16 (<[i := flipSign k]> ks) cs
  | _ => b
  end.

Definition add_key_node (n : NodeN) (k : Z) : NodeN :=
  mkN (typeVersionLockObsolete n) (pfx n) (level n) (u16 (count n + 1)) (u16 (compactCount n + 1))
      (add_key (body n) (Z.to_nat (compactCount n)) k).

Definition add_child_node (n : NodeN) (k p : Z) : NodeN :=
  set_body (add_key_node n k) (put_child (body (add_key_node n k)) (Z.to_nat (compactCount n)) p).

Definition small (b : Body) : Prop := match b with B4 _ _ | B16 _ _ => True | _ => False end.

Lemma shape_small n :
  shape n -> small (body n) ->
  0 <= compactCount n <= capacity (body n) /\ used_below (slots (body n)) (compactCount n) /\
  length (slots (body n)) = Z.to_nat (capacity (body n)).
Proof.
  unfold shape. destruct (body n); try done; intros (H1 & H2 & H3 & H4) _;
    (split; [done|split; [done|]]); cbn [slots]; rewrite length_zip, ?length_fmap, H1, H2; done.
Qed.

(** The slot after the last one in use is free. *)
Lemma next_slot n :
  shape n -> small (body n) -> compactCount n < capacity (body n) ->
  exists b, slots (body n) !! Z.to_nat (compactCount n) = Some (b, 0).
Proof.
  intros Hs Hb Hc. destruct (shape_small n Hs Hb) as (H1 & H2 & H3).
  destruct (list_at (slots (body n)) (compactCount n)) as ([b c] & H); [lia|]. exists b.
  destruct (decide (c = 0)) as [->|Hn]; [done|]. specialize (H2 _ _ _ H Hn). lia.
Qed.

Lemma slots_add b i k b0 c :
  small b -> slots b !! i = Some (b0, c) -> slots (add_key b i k) = <[i := (k, c)]> (slots b).
Proof.
  destruct b as [ks cs|ks cs|ix cs|cs]; try done; intros _ H; cbn [add_key].
  - apply zip_lookup in H as [_ H]. now rewrite <- slots_B4, (list_insert_id cs).
  - apply B16_lookup in H as [_ H]. now rewrite <- slots_B16, (list_insert_id cs).
Qed.

Lemma slots_put_small b i k c p :
  small b -> slots b !! i = Some (k, c) -> slots (put_child b i p) = <[i := (k, p)]> (slots b).
Proof.
  destruct b as [ks cs|ks cs|ix cs|cs]; try done; intros _ H; cbn [put_child].
  - apply slots_B4_child. now apply zip_lookup in H as [H _].
  - apply slots_B16_child. now apply B16_lookup in H as [H _].
Qed.

(** The arrays of the body a method makes of [b] have the lengths of those of [b]. *)
Definition same_arrays (b b' : Body) : Prop :=
  match b, b' with
  | B4 ks cs, B4 ks' cs' | B16 ks cs, B16 ks' cs' => length ks' = length ks /\ length cs' = length cs
  | _, _ => False
  end.

Lemma add_key_arrays b i k : small b -> same_arrays b (add_key b i k).
Proof. destruct b; try done; intros _; cbn; now rewrite length_insert. Qed.

Lemma put_child_arrays b b' i p : same_arrays b b' -> same_arrays b (put_child b' i p).
Proof. destruct b, b'; try done; cbn; now rewrite length_insert. Qed.

(** One more used slot. *)
Lemma add_slot n b' k b0 p c m :
  layout n -> same_arrays (body n) b' -> 0 <= compactCount n < capacity (body n) -> byte k ->
  slots (body n) !! Z.to_nat (compactCount n) = Some (b0, 0) ->
  slots b' = <[Z.to_nat (compactCount n) := (k, p)]> (slots (body n)) ->
  sdup (slots b') -> smap (slots b') = m ->
  upd n (mkN (typeVersionLockObsolete n) (pfx n) (level n) c (compactCount n + 1) b') m.
Proof.
  intros Hl Ha Hcc Hk H0 Es Hd Hm. pose proof Hl as (_ & Hs & _ & _).
  apply (upd_intro n _ (Z.to_nat (compactCount n)) k p); [done|..|done|done| |]; try now rewrite <- Es.
  - split_and!; try done. cbn [body]. now destruct (body n), b'.
  - assert (Hu : used_below (slots (body n)) (compactCount n) -> used_below (slots b') (compactCount n + 1)).
    { rewrite Es. intros H2 j b d Hj Hn. destruct (decide (j = Z.to_nat (compactCount n))) as [->|Hne]; [lia|].
      rewrite list_lookup_insert_ne in Hj by done. specialize (H2 _ _ _ Hj Hn). lia. }
    unfold shape in *. cbn [body compactCount].
    destruct (body n), b'; try done; cbn [capacity] in *; destruct Hs as (Hs1 & Hs2 & _ & Hs4);
      destruct Ha as [Ha1 Ha2]; rewrite Ha1, Ha2; split_and!; try lia; auto.
Qed.

Lemma add_upd n k p :
  layout n -> full n -> small (body n) -> compactCount n < capacity (body n) ->
  byte k -> p <> 0 -> chmap n !! k = None ->
  upd n (add_key_node n k) (chmap n) /\ upd n (add_child_node n k p) (<[k := p]> (chmap n)).
Proof.
  intros Hl [Hcnt _] Hsm Hcc Hk Hp HN. pose proof Hl as (_ & Hs & Hd & Hb).
  destruct (next_slot n Hs Hsm Hcc) as (b0 & H0). pose proof (shape_small n Hs Hsm) as (Hr & _ & _).
  assert (Hcap : capacity (body n) <= 16) by (destruct (body n); try done; simpl; lia).
  unfold add_child_node, add_key_node. cbn [set_body body typeVersionLockObsolete pfx level count compactCount].
  rewrite (u16_small (compactCount n + 1)) by lia. pose proof (slots_add (body n) _ k b0 0 Hsm H0) as E1.
  assert (E2 : slots (put_child (add_key (body n) (Z.to_nat (compactCount n)) k) (Z.to_nat (compactCount n)) p)
               = <[Z.to_nat (compactCount n) := (k, p)]> (slots (body n))).
  { erewrite (slots_put_small _ _ k 0 p); [|destruct (body n); done|].
    - rewrite E1. apply list_insert_insert_eq.
    - rewrite E1. apply list_lookup_insert_eq. now apply lookup_lt_Some in H0. }
  destruct (slot_insert _ _ b0 k p H0 Hp Hd HN) as [Hd2 Hm2].
  pose proof (slot_key _ _ b0 k H0) as Hlive. split.
  - apply (add_slot n _ k b0 0); [done|now apply add_key_arrays|lia|done|done|done|..].
    + unfold sdup. now rewrite E1, Hlive.
    + unfold smap, chmap. now rewrite E1, Hlive.
  - apply (add_slot n _ k b0 p); [done|now apply put_child_arrays, add_key_arrays|lia|done|done|done|..];
      now rewrite E2.
Qed.

Lemma add_full n k p :
  layout n -> full n -> small (body n) -> compactCount n < capacity (body n) ->
  chmap n !! k = None -> chmap (add_child_node n k p) = <[k := p]> (chmap n) ->
  full (add_child_node n k p) /\ used (add_child_node n k p) = used n + 1.
Proof.
  intros Hl [Hcnt _] Hsm Hcc HN Hm. pose proof Hl as (_ & Hs & _).
  pose proof (shape_small n Hs Hsm) as (Hr & _ & _). pose proof (size_bytes n Hl) as Hsz.
  assert (Hcap : capacity (body n) <= 16) by (destruct (body n); try done; simpl; lia).
  split; [split|].
  - rewrite Hm, size_insert by done. unfold add_child_node, add_key_node. cbn [set_body count].
    rewrite u16_small by lia. lia.
  - unfold add_child_node, add_key_node. cbn [set_body body]. now destruct (body n).
  - unfold used, add_child_node, add_key_node. cbn [set_body body compactCount count].
    rewrite (u16_small (compactCount n + 1)) by lia. now destruct (body n).
Qed.

(** What the insertion into an N4 or N16 with room does, whichever way it writes. *)
Lemma add_ok n k p (flush : bool) :
  layout n -> full n -> small (body n) -> compactCount n < capacity (body n) ->
  byte k -> p <> 0 -> chmap n !! k = None ->
  insert_ok n (add_child_node n k p) (if flush then [add_key_node n k; add_child_node n k p] else []) k p.
Proof.
  intros Hl Hf Hsm Hcc Hk Hp HN. destruct (add_upd n k p) as [H1 H2]; [done..|].
  destruct (add_full n k p) as [H3 H4]; [done..|apply H2|].
  split_and!; [done..|]. unfold mids. destruct flush; [|apply Forall_nil_2].
  apply Forall_cons. split; [by left|]. apply Forall_cons. split; [by right|apply Forall_nil_2].
Qed.

(** ** N4 *)

Lemma N4_find_run n lg ks cs key m :
  body n = B4 ks cs -> length ks = 4%nat -> length cs = 4%nat -> m <= 4 ->
  N4_find key m (mkNS n lg) = Ok (first_some (slot_test (zip ks cs) key) (seqZ 0 m), mkNS n lg).
Proof.
  intros Hb Hk Hc Hm. apply cfor_ret_pure. intros i Hi. apply elem_of_seqZ in Hi.
  destruct (list_at ks i) as (k & Ek); [lia|]. destruct (list_at cs i) as (c & Ec); [lia|].
  unfold slot_test. rewrite (proj2 (zip_lookup ks cs _ k c)) by done.
  destruct n as [w p lv cnt cc b]. nproj. subst b. nred.
  rewrite (arr_get_run cs i c) by (done || lia). destruct (c =? 0); [done|].
  rewrite (arr_get_run ks i k) by (done || lia). now destruct (k =? key).
Qed.

Lemma N4_find_found n lg key ks cs m :
  layout n -> body n = B4 ks cs -> compactCount n <= m <= 4 ->
  exists r, N4_find key m (mkNS n lg) = Ok (r, mkNS n lg) /\ slot_found (slots (body n)) key r.
Proof.
  intros (_ & Hs & Hd & _) E Hm. unfold shape in Hs. rewrite E in *. destruct Hs as (Hk & Hc & Hcc & Hu).
  eexists. split; [now apply (N4_find_run n lg ks cs)|]. apply first_some_found; [done|].
  intros i b c Hi Hn. pose proof (Hu i b c Hi Hn). lia.
Qed.

Lemma N4_getChild_run n lg k :
  layout n -> tag (body n) = NT4 ->
  N4_getChild k (mkNS n lg) = Ok (default 0 (chmap n !! k), mkNS n lg).
Proof.
  intros Hl Ht. destruct (body n) as [ks cs|ks cs|ix cs|cs] eqn:E; try done.
  pose proof Hl as (_ & Hs & _). unfold shape in Hs. rewrite E in Hs. destruct Hs as (Hk & Hc & Hcc & _).
  destruct (N4_find_found n lg k ks cs 4 Hl E ltac:(lia)) as (r & Hr & Hf).
  unfold N4_getChild. rewrite (cbind_Ok _ _ _ _ _ Hr).
  unfold slot_found, chmap in *. destruct (smap _ !! k) as [p|].
  - destruct Hf as (i & -> & Hi & H & _). rewrite E in H. apply zip_lookup in H as [_ H].
    destruct n as [w pp lv cnt cc b]. nproj. subst b. nred. now rewrite (arr_get_run cs i p).
  - now subst r.
Qed.

Lemma N4_change_run n lg k q p :
  layout n -> tag (body n) = NT4 -> chmap n !! k = Some q -> p <> 0 ->
  exists n', N4_change k p (mkNS n lg) = Ok (tt, mkNS n' (lg ++ [n'])) /\
    upd n n' (<[k := p]> (chmap n)) /\ (full n -> full n').
Proof.
  intros Hl Ht Hq Hp. destruct (body n) as [ks cs|ks cs|ix cs|cs] eqn:E; try done.
  pose proof Hl as (_ & Hs & _). unfold shape in Hs. rewrite E in Hs. destruct Hs as (Hk & Hc & Hcc & Hu).
  destruct (N4_find_found n lg k ks cs (compactCount n) Hl E ltac:(lia)) as (r & Hr & Hf).
  unfold slot_found in Hf. unfold chmap in Hq. rewrite Hq in Hf. destruct Hf as (i & -> & Hi & H & Hq0).
  exists (set_body n (put_child (body n) (Z.to_nat i) p)). split; [|now apply (change_upd n _ k q)].
  unfold N4_change. rewrite load_bind, (cbind_Ok _ _ _ _ _ Hr).
  rewrite E in H. apply zip_lookup in H as [_ Hci]. apply lookup_lt_Some in Hci.
  destruct n as [w pp lv cnt cc b]. nproj. subst b. nred. now rewrite (arr_set_run cs i p) by lia.
Qed.

(** The body of a node is the one its type says. *)
Ltac layout_cases n Hl Ht E :=
  destruct (body n) as [ks cs|ks cs|ix cs|cs] eqn:E; try (cbn in Ht; done);
  let Hs := fresh "Hs" in
  pose proof Hl as (_ & Hs & _); unfold shape in Hs; rewrite E in Hs.

Lemma N4_insert_run n lg k p flush :
  layout n -> full n -> tag (body n) = NT4 -> used n < 4 -> byte k -> p <> 0 -> chmap n !! k = None ->
  exists n' l, N4_insert k p flush (mkNS n lg) = Ok (true, mkNS n' (lg ++ l)) /\ insert_ok n n' l k p /\
    (flush = false -> l = []).
Proof.
  intros Hl Hf Ht Hu Hk Hp HN. exists (add_child_node n k p).
  exists (if flush then [add_key_node n k; add_child_node n k p] else []). split; [|split].
  - clear HN. layout_cases n Hl Ht E. unfold used in Hu. rewrite E in Hu.
    destruct Hs as (Hk1 & Hc1 & Hcc & _).
    unfold N4_insert, add_child_node, add_key_node. rewrite E. destruct n as [w pf lv cnt cc b]. nproj. subst b.
    nred. rewrite (proj2 (Z.eqb_neq cc 4)) by lia.
    destruct flush; rewrite (arr_set_run ks cc k) by lia; rewrite (arr_set_run cs cc p) by lia.
    + now rewrite <- app_assoc.
    + now rewrite app_nil_r.
  - assert (Hb : small (body n) /\ used n = compactCount n /\ capacity (body n) = 4)
      by (unfold used; now destruct (body n)). apply add_ok; try done; [apply Hb|lia].
  - now intros ->.
Qed.

Lemma N4_insert_full n lg k p flush :
  layout n -> tag (body n) = NT4 -> used n = 4 -> N4_insert k p flush (mkNS n lg) = Ok (false, mkNS n lg).
Proof.
  intros Hl Ht Hu. layout_cases n Hl Ht E. unfold used in Hu. rewrite E in Hu.
  destruct n as [w pf lv cnt cc b]. nproj. subst cc. done.
Qed.

(** The counter after a removal. *)
Lemma full_remove n n1 k q :
  full n -> layout n -> chmap n !! k = Some q -> upd n n1 (delete k (chmap n)) -> count n1 = count n ->
  (forall ix cs, body n1 = B48 ix cs -> full (set_count n1 (count n + -1))) ->
  full (set_count n1 (u16 (count n1 + -1))).
Proof.
  intros [Hcnt _] Hl Hq (_ & _ & Hm) Hc H48. pose proof (size_bytes n Hl). pose proof (size_delete _ _ _ Hq).
  rewrite Hc, u16_small by lia. destruct (body n1) eqn:E; [| |eauto|];
    (split; [unfold chmap in *; cbn [set_count body count]; rewrite Hm; lia|cbn [set_count body]; now rewrite E]).
Qed.

Lemma remove_ok_put n i k q (flush : bool) :
  layout n -> full n -> slots (body n) !! i = Some (k, q) -> q <> 0 -> tag (body n) <> NT48 ->
  let n1 := set_body n (put_child (body n) i 0) in
  remove_ok n (set_count n1 (u16 (count n1 + -1))) (if flush then [n1] else []) k.
Proof.
  intros Hl Hf H Hq Ht n1. pose proof (remove_upd n i k q Hl H Hq) as Hu.
  assert (Hm : chmap n !! k = Some q) by (apply smap_lookup_index; [apply Hl|eauto]).
  split_and!.
  - now apply upd_set_count.
  - apply (full_remove n _ k q); try done. intros ix cs E. destruct Ht.
    rewrite <- (tag_put (body n) i 0). change (put_child (body n) i 0) with (body n1). now rewrite E.
  - destruct flush; [|apply Forall_nil_2]. apply Forall_cons. split; [by right|apply Forall_nil_2].
Qed.

Lemma N4_remove_run n lg k q force flush :
  layout n -> full n -> tag (body n) = NT4 -> chmap n !! k = Some q ->
  exists n' l, N4_remove k force flush (mkNS n lg) = Ok (true, mkNS n' (lg ++ l)) /\ remove_ok n n' l k /\
    (flush = false -> l = []).
Proof.
  intros Hl Hf Ht Hq. pose proof Ht as Ht'. layout_cases n Hl Ht E. rewrite <- E in Ht'. destruct Hs as (Hk & Hc & Hcc & _).
  destruct (N4_find_found n lg k ks cs (compactCount n) Hl E ltac:(lia)) as (r & Hr & Hfd).
  unfold slot_found in Hfd. unfold chmap in Hq. rewrite Hq in Hfd. destruct Hfd as (i & -> & Hi & H & Hq0).
  pose proof (remove_ok_put n _ k q flush Hl Hf H Hq0 ltac:(by rewrite Ht')) as Hok. cbn zeta in Hok.
  do 2 eexists. split; [|split; [exact Hok|now intros ->]].
  unfold N4_remove. rewrite load_bind, (cbind_Ok _ _ _ _ _ Hr).
  rewrite E in H. apply zip_lookup in H as [_ Hci]. apply lookup_lt_Some in Hci.
  destruct n as [w pp lv cnt cc b]. nproj. subst b. nred.
  destruct flush; rewrite (arr_set_run cs i 0) by lia; [done|now rewrite app_nil_r].
Qed.

(** ** N16 *)

Lemma shiftl1_minus1_testbit c i : 0 <= c -> 0 <= i -> Z.testbit (Z.shiftl 1 c - 1) i = (i <? c).
Proof.
  intros Hc Hi. rewrite Z.shiftl_1_l. rewrite <- (Z.mul_1_l (2 ^ c)).
  replace (1 * 2 ^ c - 1) with (Z.ones c) by (rewrite Z.ones_equiv; lia).
  now apply Z.testbit_ones_nonneg.
Qed.

Lemma movemask_key ks k i :
  0 <= i -> Z.testbit (cmpeq_movemask (flipSign k) ks) i = true <-> ks !! Z.to_nat i = Some (flipSign k).
Proof.
  intros Hi. rewrite <- (Z2Nat.id i) at 1 by done. now rewrite cmpeq_movemask_testbit, bool_decide_eq_true.
Qed.

(** The search of [getChild] (over all slots) and of [getChildPos] (over the used ones). *)
Lemma N16_scan n lg ks cs k c found :
  layout n -> body n = B16 ks cs -> compactCount n <= c <= 16 ->
  (forall i q, 0 <= i < 16 -> slots (body n) !! Z.to_nat i = Some (k, q) ->
     found i (mkNS n lg) = Ok (negb (q =? 0), mkNS n lg)) ->
  (forall i, 0 <= i < 16 -> exists b, found i (mkNS n lg) = Ok (b, mkNS n lg)) ->
  exists r, scan_bits BITS_FUEL (Z.land (cmpeq_movemask (flipSign k) ks) (Z.shiftl 1 c - 1)) found
              (mkNS n lg) = Ok (r, mkNS n lg) /\ slot_found (slots (body n)) k r.
Proof.
  intros Hl E Hc Hf Hf'. pose proof Hl as (_ & Hs & Hd & _). unfold shape in Hs. rewrite E in *.
  destruct Hs as (Hk & Hcl & Hcc & Hu). set (bf := Z.land _ _).
  assert (Hbf : forall i, 0 <= i -> Z.testbit bf i = true <-> i < c /\ ks !! Z.to_nat i = Some (flipSign k)).
  { intros i Hi. unfold bf. rewrite Z.land_spec, andb_true_iff, movemask_key, shiftl1_minus1_testbit, Z.ltb_lt by lia.
    tauto. }
  set (f i := match found i (mkNS n lg) with Ok (b, _) => b | _ => false end).
  destruct (scan_bits_run f found (mkNS n lg) bf 16 BITS_FUEL 0) as (r & Hr & HS & HN).
  - unfold bf. apply Z.land_nonneg. left. apply cmpeq_movemask_nonneg.
  - lia.
  - intros i Hi. apply not_true_is_false. rewrite Hbf by lia. lia.
  - intros i Hi. lia.
  - done.
  - intros i Hi. unfold f. destruct (Hf' i Hi) as (b & ->). done.
  - exists r. split; [done|]. apply slot_found_intro; [done|..].
    + intros i Hi. destruct (HS i Hi) as (Hi16 & Hb & Hfi). split; [lia|]. apply Hbf in Hb as [_ Hb]; [|lia].
      destruct (list_at cs i) as (q & Hq); [lia|].
      assert (H : slots (B16 ks cs) !! Z.to_nat i = Some (k, q)) by (apply B16_lookup; split; assumption).
      exists q. split; [done|]. unfold f in Hfi. rewrite (Hf i q Hi16 H) in Hfi.
      destruct (Z.eqb_spec q 0); done.
    + intros Hn i q H. destruct (decide (q = 0)) as [|Hq]; [done|]. specialize (Hu _ _ _ H Hq).
      pose proof (HN Hn (Z.of_nat i) ltac:(lia)) as Hfi. unfold f in Hfi.
      rewrite (Hf (Z.of_nat i) q) in Hfi; [|lia|by rewrite Nat2Z.id].
      apply Z.eqb_neq in Hq. rewrite Hq in Hfi. apply B16_lookup in H as [H _].
      discriminate Hfi. apply Hbf; [lia|]. rewrite Nat2Z.id. split; [lia|done].
Qed.

Lemma N16_getChildPos_run n lg k :
  layout n -> tag (body n) = NT16 ->
  exists r, N16_getChildPos k (mkNS n lg) = Ok (r, mkNS n lg) /\ slot_found (slots (body n)) k r.
Proof.
  intros Hl Ht. layout_cases n Hl Ht E. destruct Hs as (Hk & Hcl & Hcc & _).
  destruct (N16_scan n lg ks cs k (compactCount n) (nonnull N16_child) Hl E ltac:(lia)) as (r & Hr & Hf).
  - intros i q Hi H. rewrite E in H. apply B16_lookup in H as [_ Hq].
    destruct n as [w pp lv cnt cc b]. nproj. subst b. nred. now rewrite (arr_get_run cs i q) by (done || lia).
  - intros i Hi. destruct (list_at cs i) as (q & Hq); [lia|]. eexists.
    destruct n as [w pp lv cnt cc b]. nproj. subst b. nred. now rewrite (arr_get_run cs i q) by (done || lia).
  - exists r. split; [|by rewrite <- E]. unfold N16_getChildPos. rewrite <- Hr.
    destruct n as [w pp lv cnt cc b]. nproj. subst b. done.
Qed.

Lemma N16_getChild_run n lg k :
  layout n -> tag (body n) = NT16 ->
  N16_getChild k (mkNS n lg) = Ok (default 0 (chmap n !! k), mkNS n lg).
Proof.
  intros Hl Ht. layout_cases n Hl Ht E. destruct Hs as (Hk & Hcl & Hcc & _).
  unfold N16_getChild. rewrite (cbind_Ok N16_arrays _ _ (ks, cs) (mkNS n lg))
    by (destruct n as [w pp lv cnt cc b]; nproj; by subst b). cbn [fst].
  edestruct (N16_scan n lg ks cs k 16) as (r & Hr & Hf); [exact Hl|exact E|lia|..].
  3: { cbv zeta. rewrite (cbind_Ok _ _ _ _ _ Hr). unfold slot_found, chmap in *.
       destruct (smap _ !! k) as [p|]; [|by subst r]. destruct Hf as (i & -> & Hi & H & _).
       rewrite E in H. apply B16_lookup in H as [_ H].
       destruct n as [w pp lv cnt cc b]. nproj. subst b. nred. now rewrite (arr_get_run cs i p). }
  - intros i q Hi H. rewrite E in H. apply B16_lookup in H as [Hk' Hq].
    destruct n as [w pp lv cnt cc b]. nproj. subst b. nred.
    rewrite (arr_get_run cs i q), (arr_get_run ks i _ _ ltac:(lia) Hk') by (done || lia).
    rewrite Z.eqb_refl. now destruct (q =? 0).
  - intros i Hi. destruct (list_at cs i) as (q & Hq); [lia|]. destruct (list_at ks i) as (k' & Hk'); [lia|].
    eexists. destruct n as [w pp lv cnt cc b]. nproj. subst b. nred.
    now rewrite (arr_get_run cs i q), (arr_get_run ks i _ _ ltac:(lia) Hk') by (done || lia).
Qed.

Lemma N16_change_run n lg k q p :
  layout n -> tag (body n) = NT16 -> chmap n !! k = Some q -> p <> 0 ->
  exists n', N16_change k p (mkNS n lg) = Ok (tt, mkNS n' (lg ++ [n'])) /\
    upd n n' (<[k := p]> (chmap n)) /\ (full n -> full n').
Proof.
  intros Hl Ht Hq Hp. destruct (N16_getChildPos_run n lg k Hl Ht) as (r & Hr & Hf).
  unfold slot_found in Hf. unfold chmap in Hq. rewrite Hq in Hf. destruct Hf as (i & -> & Hi & H & Hq0).
  exists (set_body n (put_child (body n) (Z.to_nat i) p)). split; [|now apply (change_upd n _ k q)].
  unfold N16_change. rewrite (cbind_Ok _ _ _ _ _ Hr). layout_cases n Hl Ht E. clear Hs.
  apply B16_lookup in H as [_ Hci]. apply lookup_lt_Some in Hci.
  destruct n as [w pp lv cnt cc b]. nproj. subst b. nred. now rewrite (arr_set_run cs i p) by lia.
Qed.

Lemma N16_insert_run n lg k p flush :
  layout n -> full n -> tag (body n) = NT16 -> used n < 16 -> byte k -> p <> 0 -> chmap n !! k = None ->
  exists n' l, N16_insert k p flush (mkNS n lg) = Ok (true, mkNS n' (lg ++ l)) /\ insert_ok n n' l k p /\
    (flush = false -> l = []).
Proof.
  intros Hl Hf Ht Hu Hk Hp HN. exists (add_child_node n k p).
  exists (if flush then [add_key_node n k; add_child_node n k p] else []). split; [|split].
  - clear HN. layout_cases n Hl Ht E. unfold used in Hu. rewrite E in Hu.
    destruct Hs as (Hk1 & Hc1 & Hcc & _).
    unfold N16_insert, add_child_node, add_key_node. rewrite E. destruct n as [w pf lv cnt cc b]. nproj. subst b.
    nred. rewrite (proj2 (Z.eqb_neq cc 16)) by lia.
    destruct flush; rewrite (arr_set_run ks cc _) by lia; rewrite (arr_set_run cs cc p) by lia.
    + now rewrite <- app_assoc.
    + now rewrite app_nil_r.
  - assert (Hb : small (body n) /\ used n = compactCount n /\ capacity (body n) = 16)
      by (unfold used; now destruct (body n)). apply add_ok; try done; [apply Hb|lia].
  - now intros ->.
Qed.

Lemma N16_insert_full n lg k p flush :
  layout n -> tag (body n) = NT16 -> used n = 16 -> N16_insert k p flush (mkNS n lg) = Ok (false, mkNS n lg).
Proof.
  intros Hl Ht Hu. layout_cases n Hl Ht E. unfold used in Hu. rewrite E in Hu.
  destruct n as [w pf lv cnt cc b]. nproj. subst cc. done.
Qed.

Lemma N16_remove_run n lg k q (force flush : bool) :
  layout n -> full n -> tag (body n) = NT16 -> chmap n !! k = Some q -> 3 < count n \/ force = true ->
  exists n' l, N16_remove k force flush (mkNS n lg) = Ok (true, mkNS n' (lg ++ l)) /\ remove_ok n n' l k /\
    (flush = false -> l = []).
Proof.
  intros Hl Hf Ht Hq Hc. destruct (N16_getChildPos_run n lg k Hl Ht) as (r & Hr & Hfd).
  unfold slot_found in Hfd. unfold chmap in Hq. rewrite Hq in Hfd. destruct Hfd as (i & -> & Hi & H & Hq0).
  pose proof (remove_ok_put n _ k q flush Hl Hf H Hq0 ltac:(by rewrite Ht)) as Hok. cbn zeta in Hok.
  do 2 eexists. split; [|split; [exact Hok|now intros ->]].
  destruct Hok as ((Hh & Hl' & Hm') & _). pose proof (N16_getChild_run _ (lg ++
      (if flush then [set_body n (put_child (body n) (Z.to_nat i) 0)] else [])) k Hl') as Hg.
  rewrite Hm', lookup_delete_eq in Hg. specialize (Hg ltac:(destruct Hh as (_ & _ & _ & ->); done)).
  unfold N16_remove. rewrite load_bind.
  replace ((count n <=? 3) && negb force) with false
    by (destruct Hc as [Hc| ->]; [rewrite (proj2 (Z.leb_gt _ _)) by lia; done|by rewrite andb_false_r]).
  cbv iota. rewrite (cbind_Ok _ _ _ _ _ Hr). layout_cases n Hl Ht E. clear Hs.
  apply B16_lookup in H as [_ Hci]. apply lookup_lt_Some in Hci.
  destruct n as [w pp lv cnt cc b]. nproj. subst b. cbv [put_child set_body set_count count body
    typeVersionLockObsolete pfx level compactCount] in Hg |- *.
  destruct flush; nred; rewrite (arr_set_run cs i 0) by lia.
  - nred. now rewrite Hg.
  - nred. rewrite app_nil_r in *. now rewrite Hg.
Qed.

Lemma N16_remove_refuse n lg k flush :
  count n <= 3 -> N16_remove k false flush (mkNS n lg) = Ok (false, mkNS n lg).
Proof.
  intros Hc. unfold N16_remove. rewrite load_bind.
  now rewrite (proj2 (Z.leb_le (count n) 3) Hc).
Qed.

(** ** N48 *)

(** The store of the eight bytes around a byte of the index changes that byte only. *)
Lemma word_write {A} (l : list A) q r x :
  (8 * q + 8 <= length l)%nat -> (r < 8)%nat ->
  take (8 * q) l ++ take 8 (<[r := x]> (take 8 (drop (8 * q) l))) ++ drop (8 * q + 8) l
  = <[(8 * q + r)%nat := x]> l.
Proof.
  intros Hq Hr. rewrite <- (take_drop (8 * q) l) at 4. rewrite insert_app_r_alt by (rewrite length_take; lia).
  f_equal. rewrite length_take, Nat.min_l by lia. replace (8 * q + r - 8 * q)%nat with r by lia.
  rewrite <- (take_drop 8 (drop (8 * q) l)) at 2.
  rewrite insert_app_l by (rewrite length_take, length_drop; lia). rewrite drop_drop. f_equal.
  rewrite take_ge; [done|]. rewrite length_insert, length_take. lia.
Qed.

Lemma N48_set_index64_run w pf lv cnt cc ix cs lg k i :
  length ix = 256%nat -> byte k ->
  N48_set_index64 k i (mkNS (mkN w pf lv cnt cc (B48 ix cs)) lg) =
  let n' := mkN w pf lv cnt cc (B48 (<[Z.to_nat k := i]> ix) cs) in Ok (tt, mkNS n' (lg ++ [n'])).
Proof.
  intros Hx [Hk0 Hk1]. unfold N48_set_index64. nred.
  pose proof (Z.div_mod k 8 ltac:(lia)) as Hdm. pose proof (Z.mod_pos_bound k 8 ltac:(lia)) as Hm.
  assert (Hq : 0 <= k / 8) by (apply Z.div_pos; lia).
  replace (Z.to_nat (8 * (k / 8))) with (8 * Z.to_nat (k / 8))%nat by lia.
  rewrite arr_set_run by (rewrite length_take, length_drop; lia). unfold memcpy.
  rewrite !(proj2 (Z.leb_le _ _)); [cbn [andb]|rewrite length_insert, length_take, length_drop; lia|lia|lia|lia].
  replace (Z.to_nat (8 * (k / 8))) with (8 * Z.to_nat (k / 8))%nat by lia.
  replace (Z.to_nat (8 * (k / 8) + 8)) with (8 * Z.to_nat (k / 8) + 8)%nat by lia.
  change (Z.to_nat 8) with 8%nat. rewrite word_write by lia.
  replace (8 * Z.to_nat (k / 8) + Z.to_nat (k mod 8))%nat with (Z.to_nat k) by lia. done.
Qed.

Lemma N48_getChild_run n lg k :
  layout n -> tag (body n) = NT48 -> byte k ->
  N48_getChild k (mkNS n lg) = Ok (default 0 (chmap n !! k), mkNS n lg).
Proof.
  intros Hl Ht Hk. layout_cases n Hl Ht E. pose proof Hl as (_ & _ & Hd & _).
  destruct Hs as (Hx & Hcl & Hcc & Hr & Hinj). rewrite E in Hd.
  destruct (list_at ix k) as (i & Hi); [unfold byte in Hk; lia|]. pose proof (Hr _ _ Hi) as Hir.
  assert (Hc : default 0 (chmap n !! k) = child48 ix cs k).
  { unfold chmap. rewrite E. destruct (smap _ !! k) as [p|] eqn:Ep.
    - apply smap_lookup_index in Ep as (j & Hj & _); [|done]. now apply slots_B48_lookup in Hj as (_ & _ & ->).
    - symmetry. apply (proj1 (smap_None _ _) Ep). apply (list_elem_of_lookup_2 _ (Z.to_nat k)).
      now apply slots_B48_lookup. }
  rewrite Hc. destruct n as [w pf lv cnt cc b]. nproj. subst b. unfold N48_getChild. nred.
  rewrite (arr_get_run ix k i) by (done || apply Hk). unfold child48. rewrite Hi. nred.
  destruct (Z.eqb_spec i emptyMarker) as [|Hn]; [done|].
  destruct (list_at cs i) as (c & Hcx); [unfold emptyMarker in *; lia|].
  rewrite (arr_get_run cs i c) by (done || lia). now rewrite Hcx.
Qed.

(** The place of a child in the arrays of an N48. *)
Lemma N48_place n ix cs k q :
  layout n -> body n = B48 ix cs -> chmap n !! k = Some q ->
  byte k /\ slots (body n) !! Z.to_nat k = Some (k, q) /\ q <> 0 /\
  exists j, ix !! Z.to_nat k = Some j /\ 0 <= j < 48 /\ cs !! Z.to_nat j = Some q /\
    forall p, put_child (body n) (Z.to_nat k) p = B48 ix (<[Z.to_nat j := p]> cs).
Proof.
  intros Hl E Hq. destruct (chmap_slot n k q Hl Hq) as (i & Hi & Hq0).
  pose proof Hl as (_ & Hs & _). unfold shape in Hs. rewrite E in *. destruct Hs as (Hx & Hcl & Hcc & Hr & Hinj).
  pose proof Hi as Hi'. apply slots_B48_lookup in Hi as (Hk & -> & Hc). symmetry in Hc.
  destruct (B48_child ix cs k q Hc Hq0) as (j & Hj & Hjn & Hcj). pose proof (Hr _ _ Hj).
  split_and!; [done..|]. exists j. split_and!; [done|lia|unfold emptyMarker in *; lia|done|].
  intros p. cbn [put_child]. now rewrite Hj.
Qed.

Lemma N48_change_run n lg k q p :
  layout n -> tag (body n) = NT48 -> chmap n !! k = Some q -> p <> 0 ->
  exists n', N48_change k p (mkNS n lg) = Ok (tt, mkNS n' (lg ++ [n'])) /\
    upd n n' (<[k := p]> (chmap n)) /\ (full n -> full n').
Proof.
  intros Hl Ht Hq Hp. layout_cases n Hl Ht E. clear Hs.
  destruct (N48_place n ix cs k q Hl E Hq) as (Hk & H & Hq0 & j & Hj & Hjr & Hcj & Eput).
  exists (set_body n (put_child (body n) (Z.to_nat k) p)). split; [|now apply (change_upd n _ k q)].
  rewrite Eput. apply lookup_lt_Some in Hcj. unfold N48_change.
  destruct n as [w pf lv cnt cc b]. nproj. subst b. nred.
  rewrite (arr_get_run ix k j) by (done || apply Hk).
  rewrite (proj2 (Z.eqb_neq j emptyMarker)) by (unfold emptyMarker; lia). now rewrite arr_set_run by lia.
Qed.

(** Clearing the index of a child that is already null changes no slot. *)
Lemma slots_B48_clear ix cs k j :
  (Z.to_nat k < length ix)%nat -> ix !! Z.to_nat k = Some j -> cs !! Z.to_nat j = Some 0 ->
  slots (B48 (<[Z.to_nat k := emptyMarker]> ix) cs) = slots (B48 ix cs).
Proof.
  intros Hlt Hj Hc. cbn [slots]. apply list_fmap_ext. intros i b Hb. f_equal. unfold child48.
  destruct (decide (Z.to_nat b = Z.to_nat k)) as [->|Hn].
  - rewrite list_lookup_insert_eq, Hj, Hc by done. cbn. now destruct (j =? emptyMarker).
  - now rewrite list_lookup_insert_ne by done.
Qed.

Definition remove48 (n : NodeN) (k : Z) (ix cs : list Z) (j : Z) : NodeN :=
  set_body n (B48 (<[Z.to_nat k := emptyMarker]> ix) (<[Z.to_nat j := 0]> cs)).

Lemma remove48_upd n k q ix cs j :
  layout n -> body n = B48 ix cs -> chmap n !! k = Some q -> ix !! Z.to_nat k = Some j ->
  upd n (remove48 n k ix cs j) (delete k (chmap n)).
Proof.
  intros Hl E Hq Hj. destruct (N48_place n ix cs k q Hl E Hq) as (Hk & H & Hq0 & j' & Hj' & Hjr & Hcj & Eput).
  rewrite Hj in Hj'. injection Hj' as <-. pose proof (remove_upd n _ k q Hl H Hq0) as (Hh & Hl' & Hm).
  rewrite Eput in *. pose proof (lookup_lt_Some _ _ _ Hj) as Hlt. pose proof (lookup_lt_Some _ _ _ Hcj) as Hltc.
  assert (Es : slots (body (remove48 n k ix cs j)) = slots (B48 ix (<[Z.to_nat j := 0]> cs))).
  { apply (slots_B48_clear _ _ k j); [done|done|]. now apply list_lookup_insert_eq. }
  destruct Hl' as (Ht & Hs & Hd & Hb).
  split; [split_and!; try done; now rewrite E|]. split; [split_and!; [exact Ht| |by rewrite Es|by rewrite Es]|].
  - unfold shape in *. cbn [remove48 set_body body compactCount] in *. rewrite length_insert.
    destruct Hs as (Hx & Hcl & Hcc & Hr & Hinj). split_and!; [done|done|lia|lia|..].
    + intros b i Hi. destruct (decide (b = Z.to_nat k)) as [->|Hn].
      * rewrite list_lookup_insert_eq in Hi by done. injection Hi as <-. unfold emptyMarker. lia.
      * rewrite list_lookup_insert_ne in Hi by done. eauto.
    + intros b b' i Hi Hi' Hne. destruct (decide (b = Z.to_nat k)) as [->|Hn];
        [rewrite list_lookup_insert_eq in Hi by done; congruence|].
      destruct (decide (b' = Z.to_nat k)) as [->|Hn'];
        [rewrite list_lookup_insert_eq in Hi' by done; congruence|].
      rewrite !list_lookup_insert_ne in * by done. eauto.
  - unfold chmap. rewrite Es. exact Hm.
Qed.

Lemma remove48_full n k q ix cs j :
  layout n -> full n -> body n = B48 ix cs -> chmap n !! k = Some q -> ix !! Z.to_nat k = Some j ->
  full (set_count (remove48 n k ix cs j) (u16 (count n + -1))).
Proof.
  intros Hl Hf E Hq Hj. pose proof (remove48_upd n k q ix cs j Hl E Hq Hj) as Hu.
  destruct (N48_place n ix cs k q Hl E Hq) as (Hk & H & Hq0 & j' & Hj' & Hjr & Hcj & _).
  rewrite Hj in Hj'. injection Hj' as <-. pose proof (lookup_lt_Some _ _ _ Hj) as Hlt.
  change (count n) with (count (remove48 n k ix cs j)).
  apply (full_remove n _ k q Hf Hl Hq Hu); [done|]. intros ? ? _. split.
  { unfold chmap. change (body (set_count ?x _)) with (body x). destruct Hu as (_ & _ & Hm). unfold chmap in Hm.
    rewrite Hm. cbn [set_count count]. pose proof (size_delete _ _ _ Hq).
    destruct Hf as [Hf _]. unfold chmap in *. lia. }
  pose proof Hl as (_ & Hs & _). unfold shape in Hs. rewrite E in Hs. destruct Hs as (_ & _ & _ & Hr & Hinj).
  destruct Hf as [_ Hf]. rewrite E in Hf. destruct Hf as [Hf1 Hf2]. cbn [remove48 set_body set_count body compactCount]. split.
  - intros b i Hi Hin. destruct (decide (b = Z.to_nat k)) as [->|Hn];
      [rewrite list_lookup_insert_eq in Hi by done; congruence|].
    rewrite list_lookup_insert_ne in Hi by done. destruct (Hf1 _ _ Hi Hin) as (H1 & c & H2 & H3).
    split; [done|]. exists c. split; [|done]. rewrite list_lookup_insert_ne; [done|].
    intros Hij. pose proof (Hr _ _ Hi). assert (i = j) as -> by lia. apply Hn. eauto.
  - intros i c Hi Hc. destruct (decide (i = Z.to_nat j)) as [->|Hn].
    { rewrite list_lookup_insert_eq in Hi by (by apply lookup_lt_Some in Hcj). congruence. }
    rewrite list_lookup_insert_ne in Hi by done. destruct (Hf2 _ _ Hi Hc) as (b & Hb). exists b.
    rewrite list_lookup_insert_ne; [done|]. intros <-. rewrite Hj in Hb. injection Hb as ->. lia.
Qed.

Lemma N48_remove_run n lg k q (force flush : bool) :
  layout n -> full n -> tag (body n) = NT48 -> chmap n !! k = Some q -> 12 < count n \/ force = true ->
  exists n' l, N48_remove k force flush (mkNS n lg) = Ok (true, mkNS n' (lg ++ l)) /\ remove_ok n n' l k /\
    (flush = false -> l = []).
Proof.
  intros Hl Hf Ht Hq Hc. pose proof Ht as Ht'. layout_cases n Hl Ht' E. destruct Hs as (Hx & _).
  destruct (N48_place n ix cs k q Hl E Hq) as (Hk & H & Hq0 & j & Hj & Hjr & Hcj & Eput).
  pose proof (remove_upd n _ k q Hl H Hq0) as Hu1. rewrite Eput in Hu1.
  pose proof (remove48_upd n k q ix cs j Hl E Hq Hj) as Hu2.
  pose proof (remove48_full n k q ix cs j Hl Hf E Hq Hj) as Hfl.
  set (n2 := remove48 n k ix cs j) in *.
  exists (set_count n2 (u16 (count n + -1))).
  exists (if flush then [set_body n (B48 ix (<[Z.to_nat j := 0]> cs)); n2] else []).
  split; [|split; [split_and!; [by apply upd_set_count|done|]|now intros ->]].
  2: { destruct flush; [|apply Forall_nil_2]. apply Forall_cons. split; [by right|].
       apply Forall_cons. split; [by right|apply Forall_nil_2]. }
  pose proof (upd_set_count _ _ _ (u16 (count n + -1)) Hu2) as ((_ & _ & _ & Htg) & Hl2 & Hm2).
  epose proof (fun lg => N48_getChild_run _ lg k Hl2) as Hg.
  rewrite Hm2, lookup_delete_eq, Htg, E in Hg. unfold N48_remove. rewrite load_bind.
  replace ((count n <=? 12) && negb force) with false
    by (destruct Hc as [Hc| ->]; [rewrite (proj2 (Z.leb_gt _ _)) by lia; done|by rewrite andb_false_r]).
  cbv iota. apply lookup_lt_Some in Hcj. subst n2. clear - Hj Hjr Hx Hg Hk Hcj E.
  destruct n as [w pf lv cnt cc b]. nproj. subst b.
  cbv [remove48 set_body set_count count body typeVersionLockObsolete pfx level compactCount] in Hg |- *.
  destruct flush; nred; rewrite (arr_get_run ix k j) by (done || apply Hk);
    rewrite (proj2 (Z.eqb_neq j emptyMarker)) by (unfold emptyMarker; lia); nred;
    rewrite (arr_set_run cs j 0) by lia; nred.
  - rewrite N48_set_index64_run by done. nred. rewrite Hg by done. nred. now rewrite <- app_assoc.
  - rewrite (arr_set_run ix k) by (unfold byte in Hk; lia). nred. rewrite Hg by done. nred. now rewrite app_nil_r.
Qed.

Lemma N48_remove_refuse n lg k flush :
  count n <= 12 -> N48_remove k false flush (mkNS n lg) = Ok (false, mkNS n lg).
Proof.
  intros Hc. unfold N48_remove. rewrite load_bind. now rewrite (proj2 (Z.leb_le (count n) 12) Hc).
Qed.

(** Where the next child of an N48 with room goes. *)
Lemma N48_free n ix cs :
  layout n -> full n -> body n = B48 ix cs -> compactCount n < 48 ->
  cs !! Z.to_nat (compactCount n) = Some 0 /\
  (forall b i, ix !! b = Some i -> i <> compactCount n).
Proof.
  intros Hl [_ Hf] E Hc. pose proof Hl as (_ & Hs & _). unfold shape in Hs. rewrite E in *.
  destruct Hs as (Hx & Hcl & Hcc & Hr & _), Hf as [Hf1 Hf2].
  assert (Hno : forall b i, ix !! b = Some i -> i <> compactCount n).
  { intros b i Hi ->. destruct (Hf1 _ _ Hi) as [? _]; [unfold emptyMarker|]; lia. }
  split; [|done]. destruct (list_at cs (compactCount n)) as (c & Hci); [lia|].
  destruct (decide (c = 0)) as [->|Hn]; [done|]. destruct (Hf2 _ _ Hci Hn) as (b & Hb).
  exfalso. apply (Hno _ _ Hb). lia.
Qed.

(** Before the index is written nothing has changed. *)
Lemma child48_fresh ix cs c p b :
  0 <= c -> (forall b i, ix !! b = Some i -> 0 <= i <= emptyMarker) ->
  (forall b i, ix !! b = Some i -> i <> c) ->
  child48 ix (<[Z.to_nat c := p]> cs) b = child48 ix cs b.
Proof.
  intros Hc Hr Hno. unfold child48. destruct (ix !! Z.to_nat b) as [i|] eqn:Ei; [|done].
  destruct (i =? emptyMarker); [done|]. pose proof (Hr _ _ Ei). pose proof (Hno _ _ Ei).
  rewrite list_lookup_insert_ne; [done|lia].
Qed.

Definition add48_mid (n : NodeN) (ix cs : list Z) (p : Z) : NodeN :=
  set_body n (B48 ix (<[Z.to_nat (compactCount n) := p]> cs)).
Definition add48 (n : NodeN) (ix cs : list Z) (k p : Z) : NodeN :=
  set_body n (B48 (<[Z.to_nat k := compactCount n]> ix) (<[Z.to_nat (compactCount n) := p]> cs)).

Lemma add48_mid_upd n ix cs p :
  layout n -> full n -> body n = B48 ix cs -> compactCount n < 48 -> upd n (add48_mid n ix cs p) (chmap n).
Proof.
  intros Hl Hf E Hc. destruct (N48_free n ix cs Hl Hf E Hc) as [_ Hno].
  pose proof Hl as (Ht & Hs & Hd & Hb). pose proof Hs as Hs'. unfold shape in Hs. rewrite E in Hs.
  destruct Hs as (Hx & Hcl & Hcc & Hr & Hinj).
  assert (Es : slots (body (add48_mid n ix cs p)) = slots (body n)).
  { rewrite E. cbn [add48_mid set_body body slots]. apply list_fmap_ext. intros i b _. f_equal.
    apply child48_fresh; [lia|done|done]. }
  split; [split_and!; try done; now rewrite E|].
  split; [split_and!|unfold chmap; now rewrite Es]; [by etransitivity; [exact Ht|now rewrite E]| |by rewrite Es|by rewrite Es].
  unfold shape. cbn [add48_mid set_body body compactCount]. now rewrite length_insert.
Qed.

Lemma add48_upd n ix cs k p :
  layout n -> full n -> body n = B48 ix cs -> compactCount n < 48 -> byte k -> p <> 0 -> chmap n !! k = None ->
  upd n (add48 n ix cs k p) (<[k := p]> (chmap n)).
Proof.
  intros Hl Hf E Hc Hk Hp HN. destruct (N48_free n ix cs Hl Hf E Hc) as [Hfree Hno].
  pose proof Hl as (Ht & Hs & Hd & Hb). unfold shape in Hs. rewrite E in Hs.
  destruct Hs as (Hx & Hcl & Hcc & Hr & Hinj). pose proof (lookup_lt_Some _ _ _ Hfree) as Hlt.
  assert (Hkl : (Z.to_nat k < length ix)%nat) by (unfold byte in Hk; lia).
  assert (H0 : slots (body n) !! Z.to_nat k = Some (k, 0)).
  { rewrite E. apply slots_B48_lookup. split_and!; [done|done|].
    symmetry. apply (proj1 (smap_None _ _) HN), (list_elem_of_lookup_2 _ (Z.to_nat k)).
    rewrite E. now apply slots_B48_lookup. }
  destruct (slot_insert _ _ k k p H0 Hp Hd HN) as [Hd' Hm'].
  apply (upd_intro n _ (Z.to_nat k) k p); [done|split_and!; try done; now rewrite E| |done| |done|done].
  - unfold shape. cbn [add48 set_body body compactCount]. rewrite !length_insert. split_and!; [done|done|lia|lia|..].
    + intros b i Hi. destruct (decide (b = Z.to_nat k)) as [->|Hn].
      * rewrite list_lookup_insert_eq in Hi by done. injection Hi as <-. unfold emptyMarker. lia.
      * rewrite list_lookup_insert_ne in Hi by done. eauto.
    + intros b b' i Hi Hi' Hne.
      destruct (decide (b = Z.to_nat k)) as [->|Hn], (decide (b' = Z.to_nat k)) as [->|Hn'];
        rewrite ?list_lookup_insert_eq, ?list_lookup_insert_ne in Hi by done;
        rewrite ?list_lookup_insert_eq, ?list_lookup_insert_ne in Hi' by done; [done|..|by eapply Hinj].
      * injection Hi as <-. now destruct (Hno _ _ Hi').
      * injection Hi' as <-. now destruct (Hno _ _ Hi).
  - rewrite E. cbn [add48 set_body body]. apply slots_B48_update; [done|..].
    + unfold child48. rewrite list_lookup_insert_eq by done.
      rewrite (proj2 (Z.eqb_neq _ _)) by (unfold emptyMarker; lia).
      now rewrite list_lookup_insert_eq.
    + intros b' Hb' Hn. rewrite <- (child48_fresh ix cs (compactCount n) p b') by (done || lia). unfold child48.
      rewrite list_lookup_insert_ne; [done|]. unfold byte in *. lia.
Qed.

Lemma add48_full n ix cs k p cnt cc :
  layout n -> full n -> body n = B48 ix cs -> compactCount n < 48 -> byte k -> p <> 0 -> chmap n !! k = None ->
  cnt = count n + 1 -> cc = compactCount n + 1 ->
  full (set_count (set_compactCount (add48 n ix cs k p) cc) cnt).
Proof.
  intros Hl Hf E Hc Hk Hp HN -> ->. destruct (N48_free n ix cs Hl Hf E Hc) as [Hfree Hno].
  destruct (add48_upd n ix cs k p) as (_ & _ & Hm); [done..|].
  pose proof (lookup_lt_Some _ _ _ Hfree) as Hlt. pose proof Hf as [Hcnt Hf'].
  pose proof Hl as (_ & Hs & _). unfold shape in Hs. rewrite E in Hs, Hf'.
  destruct Hs as (Hx & Hcl & Hcc & Hr & Hinj), Hf' as [Hf1 Hf2].
  assert (Hkl : (Z.to_nat k < length ix)%nat) by (unfold byte in Hk; lia).
  split; [unfold chmap in *; cbn [set_count set_compactCount count body]; rewrite Hm, size_insert by done; lia|].
  cbn [set_count set_compactCount add48 set_body body compactCount]. split.
  - intros b i Hi Hin. destruct (decide (b = Z.to_nat k)) as [->|Hn].
    + rewrite list_lookup_insert_eq in Hi by done. injection Hi as <-. split; [lia|].
      exists p. split; [now apply list_lookup_insert_eq|done].
    + rewrite list_lookup_insert_ne in Hi by done. destruct (Hf1 _ _ Hi Hin) as (H1 & c & H2 & H3).
      split; [lia|]. exists c. split; [|done]. pose proof (Hr _ _ Hi). rewrite list_lookup_insert_ne; [done|lia].
  - intros i c Hi Hcn. destruct (decide (i = Z.to_nat (compactCount n))) as [->|Hn].
    + exists (Z.to_nat k). rewrite list_lookup_insert_eq by done. f_equal. lia.
    + rewrite list_lookup_insert_ne in Hi by done. destruct (Hf2 _ _ Hi Hcn) as (b & Hb). exists b.
      rewrite list_lookup_insert_ne; [done|]. intros <-.
      (* the index of [k] was empty *)
      assert (Hz : child48 ix cs k = 0).
      { apply (proj1 (smap_None _ _) HN), (list_elem_of_lookup_2 _ (Z.to_nat k)). rewrite E.
        now apply slots_B48_lookup. }
      unfold child48 in Hz. rewrite Hb, Nat2Z.id, Hi in Hz. destruct (Z.eqb_spec (Z.of_nat i) emptyMarker) as [Hm48|]; [|done].
      apply lookup_lt_Some in Hi. unfold emptyMarker in Hm48. lia.
Qed.

Lemma N48_insert_run n lg k p flush :
  layout n -> full n -> tag (body n) = NT48 -> used n < 48 -> byte k -> p <> 0 -> chmap n !! k = None ->
  exists n' l, N48_insert k p flush (mkNS n lg) = Ok (true, mkNS n' (lg ++ l)) /\ insert_ok n n' l k p /\
    (flush = false -> l = []).
Proof.
  intros Hl Hf Ht Hu Hk Hp HN. pose proof Ht as Ht'. layout_cases n Hl Ht' E. unfold used in Hu. rewrite E in Hu.
  destruct Hs as (Hx & Hcl & Hcc & _). pose proof (size_bytes n Hl) as Hsz. pose proof Hf as [Hcnt _].
  destruct (N48_free n ix cs Hl Hf E Hu) as [Hfree _]. pose proof (lookup_lt_Some _ _ _ Hfree) as Hlt.
  pose proof (add48_upd n ix cs k p Hl Hf E Hu Hk Hp HN) as H2.
  exists (set_count (set_compactCount (add48 n ix cs k p) (compactCount n + 1)) (count n + 1)).
  exists (if flush then [add48_mid n ix cs p; add48 n ix cs k p] else []). split; [|split; [split_and!|now intros ->]].
  - clear - E Hcc Hu Hfree Hlt Hk Hx Hcl Hcnt Hsz. unfold N48_insert. rewrite load_bind.
    rewrite (proj2 (Z.eqb_neq (compactCount n) 48)) by lia.
    assert (Ec : u16 (compactCount n + 1) = compactCount n + 1) by (apply u16_small; lia).
    assert (En : u16 (count n + 1) = count n + 1) by (apply u16_small; lia). clear Hcnt Hsz.
    destruct n as [w pf lv cnt cc b]. nproj. subst b. change ADVANCE_FUEL with (S 48). cbn [N48_advance].
    nred. rewrite (arr_get_run cs cc 0) by (done || lia). cbn [Z.eqb]. nred.
    destruct flush; rewrite (arr_set_run cs cc p) by lia; nred.
    + rewrite N48_set_index64_run by done. nred. rewrite Ec, En. now rewrite <- app_assoc.
    + rewrite (arr_set_run ix k cc) by (unfold byte in Hk; lia). nred. rewrite Ec, En. now rewrite app_nil_r.
  - destruct H2 as (Hh & (H3 & H4 & H5 & H6) & H7). split_and!; try apply Hh; try done.
    split; [done|split; [|done]].
    unfold shape in *. cbn [set_count set_compactCount add48 set_body body compactCount] in *.
    destruct H4 as (? & ? & ? & ? & ?).
    split; [done|split; [done|split; [lia|split; assumption]]].
  - now apply add48_full.
  - unfold used. cbn [set_count set_compactCount add48 set_body body compactCount]. now rewrite E.
  - destruct flush; [|apply Forall_nil_2]. apply Forall_cons. split; [left; now apply add48_mid_upd|].
    apply Forall_cons. split; [by right|apply Forall_nil_2].
Qed.

Lemma N48_insert_full n lg k p flush :
  layout n -> tag (body n) = NT48 -> used n = 48 -> N48_insert k p flush (mkNS n lg) = Ok (false, mkNS n lg).
Proof.
  intros Hl Ht Hu. layout_cases n Hl Ht E. unfold used in Hu. rewrite E in Hu.
  destruct n as [w pf lv cnt cc b]. nproj. subst cc. done.
Qed.

(** ** N256 *)

Lemma N256_slot n cs k :
  layout n -> body n = B256 cs -> byte k ->
  exists c, cs !! Z.to_nat k = Some c /\ slots (body n) !! Z.to_nat k = Some (k, c) /\
    default 0 (chmap n !! k) = c.
Proof.
  intros Hl E Hk. pose proof Hl as (_ & Hs & Hd & _). unfold shape in Hs. rewrite E in *.
  destruct (list_at cs k) as (c & Hc); [unfold byte in Hk; lia|]. exists c.
  assert (H : slots (B256 cs) !! Z.to_nat k = Some (k, c)) by now apply B256_lookup.
  split_and!; [done..|]. unfold chmap. rewrite E. destruct (smap _ !! k) as [p|] eqn:Ep.
  - apply smap_lookup_index in Ep as (j & Hj & _); [|done]. apply B256_lookup in Hj as (_ & -> & Hj).
    cbn. congruence.
  - symmetry. apply (proj1 (smap_None _ _) Ep). now apply list_elem_of_lookup_2 in H.
Qed.

Lemma N256_getChild_run n lg k :
  layout n -> tag (body n) = NT256 -> byte k ->
  N256_getChild k (mkNS n lg) = Ok (default 0 (chmap n !! k), mkNS n lg).
Proof.
  intros Hl Ht Hk. layout_cases n Hl Ht E. destruct (N256_slot n cs k Hl E Hk) as (c & Hc & _ & ->).
  destruct n as [w pf lv cnt cc b]. nproj. subst b. unfold N256_getChild. nred.
  now rewrite (arr_get_run cs k c) by (done || apply Hk).
Qed.

Lemma N256_change_run n lg k q p :
  layout n -> tag (body n) = NT256 -> chmap n !! k = Some q -> p <> 0 ->
  exists n', N256_change k p (mkNS n lg) = Ok (tt, mkNS n' (lg ++ [n'])) /\
    upd n n' (<[k := p]> (chmap n)) /\ (full n -> full n').
Proof.
  intros Hl Ht Hq Hp. layout_cases n Hl Ht E. destruct (child_byte n k q Hl Hq) as [Hk Hq0].
  destruct (N256_slot n cs k Hl E Hk) as (c & Hc & H & Hd). rewrite Hq in Hd. cbn in Hd. subst c.
  exists (set_body n (put_child (body n) (Z.to_nat k) p)). split; [|now apply (change_upd n _ k q)].
  apply lookup_lt_Some in Hc. destruct n as [w pf lv cnt cc b]. nproj. subst b. unfold N256_change. nred.
  now rewrite (arr_set_run cs k p) by (unfold byte in Hk; lia).
Qed.

Lemma add256_upd n cs k p :
  layout n -> body n = B256 cs -> byte k -> p <> 0 -> chmap n !! k = None ->
  upd n (set_body n (B256 (<[Z.to_nat k := p]> cs))) (<[k := p]> (chmap n)).
Proof.
  intros Hl E Hk Hp HN. pose proof Hl as (_ & Hs & Hd & _).
  destruct (N256_slot n cs k Hl E Hk) as (c & Hc & H & Hd0). rewrite HN in Hd0. cbn in Hd0. subst c.
  destruct (slot_insert _ _ k k p H Hp Hd HN) as [Hd' Hm'].
  apply (upd_intro n _ (Z.to_nat k) k p); [done|split_and!; try done; now rewrite E| |done| |done|done].
  - unfold shape in *. rewrite E in Hs. cbn [set_body body]. now rewrite length_insert.
  - rewrite E. now apply slots_B256.
Qed.

Lemma N256_insert_run n lg k p flush :
  layout n -> full n -> tag (body n) = NT256 -> used n < 256 -> byte k -> p <> 0 -> chmap n !! k = None ->
  exists n' l, N256_insert k p flush (mkNS n lg) = Ok (true, mkNS n' (lg ++ l)) /\ insert_ok n n' l k p /\
    (flush = false -> l = []).
Proof.
  intros Hl [Hcnt _] Ht Hu Hk Hp HN. layout_cases n Hl Ht E. unfold used in Hu. rewrite E in Hu.
  pose proof (add256_upd n cs k p Hl E Hk Hp HN) as H2. set (n1 := set_body n _) in *.
  exists (set_count n1 (count n + 1)), (if flush then [n1] else []).
  split; [|split; [split_and!|now intros ->]].
  - clear HN H2. subst n1. assert (En : u16 (count n + 1) = count n + 1) by (apply u16_small; lia). clear Hcnt.
    destruct n as [w pf lv cnt cc b]. nproj. subst b. unfold N256_insert. nred.
    rewrite (proj2 (Z.leb_gt 256 cnt)) by lia.
    destruct flush; rewrite (arr_set_run cs k p) by (unfold byte in Hk; lia); nred; rewrite En;
      [done|now rewrite app_nil_r].
  - now apply upd_set_count.
  - split; [|done]. destruct H2 as (_ & _ & H2). unfold chmap in *. cbn [set_count body count].
    rewrite H2, size_insert by done. lia.
  - unfold used. now rewrite E.
  - destruct flush; [|apply Forall_nil_2]. apply Forall_cons. split; [by right|apply Forall_nil_2].
Qed.

Lemma N256_insert_full n lg k p flush :
  layout n -> tag (body n) = NT256 -> used n = 256 -> N256_insert k p flush (mkNS n lg) = Ok (false, mkNS n lg).
Proof.
  intros Hl Ht Hu. layout_cases n Hl Ht E. unfold used in Hu. rewrite E in Hu.
  destruct n as [w pf lv cnt cc b]. nproj. subst cnt. done.
Qed.

Lemma N256_remove_run n lg k q (force flush : bool) :
  layout n -> full n -> tag (body n) = NT256 -> chmap n !! k = Some q -> 37 < count n \/ force = true ->
  exists n' l, N256_remove k force flush (mkNS n lg) = Ok (true, mkNS n' (lg ++ l)) /\ remove_ok n n' l k /\
    (flush = false -> l = []).
Proof.
  intros Hl Hf Ht Hq Hc. destruct (child_byte n k q Hl Hq) as [Hk Hq0]. pose proof Ht as Ht'.
  layout_cases n Hl Ht' E. rewrite <- E in Ht'.
  destruct (N256_slot n cs k Hl E Hk) as (c & Hck & H & Hd). rewrite Hq in Hd. cbn in Hd. subst c.
  pose proof (remove_ok_put n _ k q flush Hl Hf H Hq0 ltac:(by rewrite E)) as Hok. cbn zeta in Hok.
  do 2 eexists. split; [|split; [exact Hok|now intros ->]]. unfold N256_remove. rewrite load_bind.
  replace ((count n <=? 37) && negb force) with false
    by (destruct Hc as [Hc| ->]; [rewrite (proj2 (Z.leb_gt _ _)) by lia; done|by rewrite andb_false_r]).
  cbv iota. apply lookup_lt_Some in Hck. clear - E Hck Hk. destruct n as [w pf lv cnt cc b]. nproj. subst b. nred.
  destruct flush; rewrite (arr_set_run cs k 0) by (unfold byte in Hk; lia); nred; [done|now rewrite app_nil_r].
Qed.

Lemma N256_remove_refuse n lg k flush :
  count n <= 37 -> N256_remove k false flush (mkNS n lg) = Ok (false, mkNS n lg).
Proof.
  intros Hc. unfold N256_remove. rewrite load_bind. now rewrite (proj2 (Z.leb_le (count n) 37) Hc).
Qed.
