(* ===== verification/ArtClass.v ===== *)
(** * P-ART: the classes of nodes behind one interface

    The remaining methods (choosing a child, counting, copying), the dispatch of [N.cpp] on the
    type of a node, and [NodeClassSpec], the interface the templates [insertGrow],
    [insertCompact] and [removeAndShrink] use, with its four instances. *)

From S2P Require Import Prelude ArtNode ArtSlots ArtLayout.
From stdpp Require Import sorting.
#[local] Open Scope Z_scope.
#[local] Open Scope cmd_scope.

(** ** Dispatch *)

Lemma dispatch_run {A} (m4 m16 m48 m256 : stM NS A) n lg :
  layout n ->
  dispatch m4 m16 m48 m256 (mkNS n lg) =
  match body n with B4 _ _ => m4 | B16 _ _ => m16 | B48 _ _ => m48 | B256 _ => m256 end (mkNS n lg).
Proof.
  intros (Ht & _). unfold dispatch, getType. rewrite load_bind, Ht. now destruct (body n).
Qed.

Lemma N_getChild_run n lg k :
  layout n -> byte k -> N_getChild k (mkNS n lg) = Ok (default 0 (chmap n !! k), mkNS n lg).
Proof.
  intros Hl Hk. unfold N_getChild. rewrite dispatch_run by done.
  destruct (body n) eqn:E; [apply N4_getChild_run|apply N16_getChild_run|apply N48_getChild_run|apply N256_getChild_run];
    try done; now rewrite E.
Qed.

Lemma N_change_run n lg k q p :
  layout n -> chmap n !! k = Some q -> p <> 0 ->
  exists n', N_change k p (mkNS n lg) = Ok (tt, mkNS n' (lg ++ [n'])) /\
    upd n n' (<[k := p]> (chmap n)) /\ (full n -> full n').
Proof.
  intros Hl Hq Hp. unfold N_change. rewrite dispatch_run by done.
  destruct (body n) eqn:E;
    [apply (N4_change_run n lg k q)|apply (N16_change_run n lg k q)|apply (N48_change_run n lg k q)
    |apply (N256_change_run n lg k q)]; try done; now rewrite E.
Qed.

(** ** Walks over the slots *)

Definition slot_child (sl : list (Z * Z)) (i : Z) : Z := default 0 (snd <$> sl !! Z.to_nat i).

Definition slot_at (sl : list (Z * Z)) (i : Z) : Z * Z := default (0, 0) (sl !! Z.to_nat i).

Lemma slots_seqZ sl : slot_at sl <$> seqZ 0 (Z.of_nat (length sl)) = sl.
Proof.
  apply list_eq. intros i. rewrite list_lookup_fmap. destruct (sl !! i) as [x|] eqn:E.
  - pose proof (lookup_lt_Some _ _ _ E). rewrite (proj2 (lookup_seqZ 0 _ i (Z.of_nat i))) by lia.
    cbn. unfold slot_at. now rewrite Nat2Z.id, E.
  - apply lookup_ge_None in E. rewrite lookup_seqZ_ge by lia. done.
Qed.

Lemma live_nil sl : (forall b c, (b, c) ∈ sl -> c = 0) -> live sl = [].
Proof.
  induction sl as [|[b c] sl IH]; intros H; [done|]. rewrite (H b c) by now left.
  rewrite live_null. apply IH. intros b' c' Hin. apply (H b'). now right.
Qed.

Lemma live_count (g : Z -> Z * Z) (f : Z -> bool) l :
  (forall i, i ∈ l -> f i = negb ((g i).2 =? 0)) ->
  length (filter (fun i => f i = true) l) = length (live (g <$> l)).
Proof.
  induction l as [|i l IH]; intros H; [done|]. rewrite fmap_cons. destruct (g i) as [b c] eqn:E.
  specialize (IH (fun j Hj => H j (list_elem_of_further _ _ _ Hj))).
  pose proof (H i ltac:(left)) as Hi. rewrite E in Hi. cbn in Hi. destruct (Z.eqb_spec c 0) as [->|Hn].
  - rewrite live_null, filter_cons_False by (now rewrite Hi). done.
  - rewrite live_some, filter_cons_True by done. cbn. now rewrite IH.
Qed.

Lemma slots_seqZ_used sl m :
  0 <= m <= Z.of_nat (length sl) -> used_below sl m -> live (slot_at sl <$> seqZ 0 m) = live sl.
Proof.
  intros Hm Hu. rewrite <- (slots_seqZ sl) at 2.
  replace (Z.of_nat (length sl)) with (m + (Z.of_nat (length sl) - m)) by lia.
  rewrite seqZ_app, fmap_app, live_app by lia.
  replace (live (slot_at sl <$> seqZ (0 + m) _)) with (@nil (Z * Z)); [now rewrite app_nil_r|].
  symmetry. apply live_nil. intros b c Hx. apply list_elem_of_fmap in Hx as (i & Hs & Hi).
  apply elem_of_seqZ in Hi. unfold slot_at in Hs. destruct (sl !! Z.to_nat i) as [[b' c']|] eqn:E; cbn in Hs; [|congruence].
  injection Hs as -> ->. destruct (decide (c' = 0)) as [|Hn]; [done|]. specialize (Hu _ _ _ E Hn). lia.
Qed.

Lemma foldl_count (f : Z -> bool) l acc :
  0 <= acc <= 3 ->
  foldl (fun cnt i => if cnt <? 3 then (if f i then cnt + 1 else cnt) else cnt) acc l
  = Z.min 3 (acc + Z.of_nat (length (filter (fun i => f i = true) l))).
Proof.
  revert acc. induction l as [|i l IH]; intros acc Ha; cbn [foldl].
  - cbn. lia.
  - destruct (Z.ltb_spec acc 3).
    + destruct (f i) eqn:E.
      * rewrite IH, filter_cons_True by (done || lia). cbn [length]. lia.
      * rewrite IH, filter_cons_False by (congruence || lia). done.
    + rewrite IH by lia. lia.
Qed.

Lemma getCount_loop_run (present : Z -> stM NS bool) f m s :
  (forall i, 0 <= i < m -> present i s = Ok (f i, s)) ->
  getCount_loop present m s = Ok (Z.min 3 (Z.of_nat (length (filter (fun i => f i = true) (seqZ 0 m)))), s).
Proof.
  intros Hp. unfold getCount_loop. rewrite <- (Z.add_0_l (Z.of_nat _)). rewrite <- (foldl_count f) by lia.
  apply cfold_pure. intros i acc Hi. apply elem_of_seqZ in Hi.
  destruct (acc <? 3); [|done]. now rewrite (cbind_Ok _ _ _ _ _ (Hp i ltac:(lia))).
Qed.

(** The number of children in use. *)
Lemma count_live sl f m :
  sdup sl -> 0 <= m <= Z.of_nat (length sl) -> used_below sl m ->
  (forall i, 0 <= i < m -> f i = negb (slot_child sl i =? 0)) ->
  length (filter (fun i => f i = true) (seqZ 0 m)) = size (smap sl).
Proof.
  intros Hd Hm Hu Hf. rewrite smap_size, <- (slots_seqZ_used sl m) by done. apply live_count.
  intros i Hi. apply elem_of_seqZ in Hi. rewrite Hf by lia. unfold slot_child, slot_at.
  now destruct (sl !! Z.to_nat i).
Qed.

Lemma slot_child_some sl i b c : sl !! Z.to_nat i = Some (b, c) -> slot_child sl i = c.
Proof. intros H. unfold slot_child. now rewrite H. Qed.

(** Reading the child of a slot, in the three layouts where a slot has an index. *)
Lemma read_child n lg i :
  0 <= i < Z.of_nat (length (slots (body n))) ->
  let r := Ok (slot_child (slots (body n)) i, mkNS n lg) in
  match body n with
  | B4 _ _ => N4_child i (mkNS n lg) = r
  | B16 _ _ => N16_child i (mkNS n lg) = r
  | B48 _ _ => True
  | B256 _ => N256_child i (mkNS n lg) = r
  end.
Proof.
  intros Hi. destruct (list_at (slots (body n)) i) as ([b c] & H); [done|].
  rewrite (slot_child_some _ _ _ _ H). cbn zeta.
  apply proj1 in Hi. destruct n as [w pf lv cnt cc bd]. cbn [body] in *.
  destruct bd as [ks cs|ks cs|ix cs|cs]; [..|done|].
  - apply zip_lookup in H as [_ H]. nred. now rewrite (arr_get_run cs i c).
  - apply B16_lookup in H as [_ H]. nred. now rewrite (arr_get_run cs i c).
  - apply B256_lookup in H as (_ & _ & H). nred. now rewrite (arr_get_run cs i c).
Qed.

Lemma N48_index_child n ix cs i :
  layout n -> full n -> body n = B48 ix cs -> byte i ->
  exists x, ix !! Z.to_nat i = Some x /\ negb (x =? emptyMarker) = negb (slot_child (slots (body n)) i =? 0).
Proof.
  intros Hl [_ Hf] E Hi. pose proof Hl as (_ & Hs & _). unfold shape in Hs. rewrite E in *.
  destruct Hs as (Hx & Hcl & Hcc & Hr & _), Hf as [Hf1 _].
  destruct (list_at ix i) as (x & Hxi); [unfold byte in Hi; lia|]. exists x. split; [done|].
  rewrite (slot_child_some _ i i (child48 ix cs i)) by now apply slots_B48_lookup. unfold child48. rewrite Hxi.
  destruct (Z.eqb_spec x emptyMarker) as [|Hn]; [done|]. destruct (Hf1 _ _ Hxi Hn) as (_ & c & Hc & Hc0).
  rewrite Hc. cbn. now rewrite (proj2 (Z.eqb_neq c 0) Hc0).
Qed.

Lemma slots_length n :
  shape n -> length (slots (body n)) = match body n with B4 _ _ => 4 | B16 _ _ => 16 | _ => 256 end%nat.
Proof.
  unfold shape. destruct (body n) as [ks cs|ks cs|ix cs|cs]; cbn [slots].
  - intros (H1 & H2 & _). now rewrite length_zip, H1, H2.
  - intros (H1 & H2 & _). now rewrite length_zip, length_fmap, H1, H2.
  - intros _. rewrite length_fmap. apply length_seqZ.
  - intros H. rewrite length_zip, H. unfold bytes256. now rewrite length_seqZ.
Qed.

Lemma used_below_length sl : used_below sl (Z.of_nat (length sl)).
Proof. intros i b c H _. apply lookup_lt_Some in H. lia. Qed.

Lemma N_getCount_run n lg :
  layout n -> full n -> N_getCount (mkNS n lg) = Ok (Z.min 3 (count n), mkNS n lg).
Proof.
  intros Hl Hf. pose proof Hl as (_ & Hs & Hd & _). pose proof (slots_length n Hs) as Hlen.
  pose proof Hf as [Hcnt _]. unfold N_getCount. rewrite dispatch_run, Hcnt by done. unfold chmap.
  assert (Hpres : forall m, 0 <= m <= Z.of_nat (length (slots (body n))) -> used_below (slots (body n)) m ->
    forall present, (forall i, 0 <= i < m -> present i (mkNS n lg) = Ok (negb (slot_child (slots (body n)) i =? 0), mkNS n lg)) ->
    getCount_loop present m (mkNS n lg) = Ok (Z.min 3 (Z.of_nat (size (smap (slots (body n))))), mkNS n lg)).
  { intros m Hm Hu present Hp. rewrite (getCount_loop_run _ _ _ _ Hp). now rewrite (count_live (slots (body n))). }
  assert (Hnn : forall i child, child i (mkNS n lg) = Ok (slot_child (slots (body n)) i, mkNS n lg) ->
     nonnull child i (mkNS n lg) = Ok (negb (slot_child (slots (body n)) i =? 0), mkNS n lg)).
  { intros i child H. unfold nonnull. now rewrite (cbind_Ok _ _ _ _ _ H). }
  pose proof (read_child n lg) as Hrd. pose proof (used_below_length (slots (body n))) as Hub.
  pose proof (shape_small n Hs) as Hsm. destruct (body n) as [ks cs|ks cs|ix cs|cs] eqn:E; rewrite Hlen in Hub, Hrd.
  1, 2: destruct (Hsm I) as (Hcc & Hu & _); cbn [capacity] in Hcc.
  - unfold N4_getCount. rewrite load_bind. apply Hpres; [lia|done|]. intros i Hi. apply Hnn, Hrd. lia.
  - unfold N16_getCount. rewrite load_bind. apply Hpres; [lia|done|]. intros i Hi. apply Hnn, Hrd. lia.
  - unfold N48_getCount. apply Hpres; [lia|exact Hub|].
    intros i Hi. destruct (N48_index_child n ix cs i Hl Hf E ltac:(unfold byte; lia)) as (x & Hx & Hnx).
    rewrite E in Hnx. rewrite <- Hnx. clear - E Hx Hi. destruct n as [w pf lv cnt cc bd]. nproj. subst bd. nred.
    now rewrite (arr_get_run ix i x) by (done || lia).
  - unfold N256_getCount. apply Hpres; [lia|exact Hub|]. intros i Hi. apply Hnn, Hrd. lia.
Qed.

(** ** Choosing a child *)

(** One child looked at: the pair is the choice so far and whether it is final. *)
Definition choose (f : Z -> Z) (acc : Z * bool) (i : Z) : Z * bool :=
  if acc.2 then acc else if f i =? 0 then acc else if isLeaf (f i) then (f i, true) else (f i, false).

Lemma choose_spec f l acc :
  (acc.2 = true -> acc.1 <> 0) ->
  let r := foldl (choose f) acc l in
  (acc.1 <> 0 \/ (exists i, i ∈ l /\ f i <> 0) -> r.1 <> 0) /\
  (r.1 = acc.1 \/ exists i, i ∈ l /\ f i = r.1).
Proof.
  revert acc. induction l as [|i l IH]; intros acc Ha; cbn [foldl].
  { split; [|by left]. intros [H|(i & Hi & _)]; [done|]. now apply not_elem_of_nil in Hi. }
  assert (Hst : ((choose f acc i).2 = true -> (choose f acc i).1 <> 0) /\
     (acc.1 <> 0 \/ f i <> 0 -> (choose f acc i).1 <> 0) /\
     ((choose f acc i).1 = acc.1 \/ (choose f acc i).1 = f i)).
  { unfold choose. destruct acc.2 eqn:E2; [split_and!; auto|].
    destruct (Z.eqb_spec (f i) 0); [split_and!; [congruence|intros []; congruence|auto]|].
    destruct (isLeaf (f i)); cbn; split_and!; auto. }
  destruct Hst as (S1 & S2 & S3). destruct (IH _ S1) as (I1 & I2). split.
  - intros [H|(j & Hj & Hfj)]; apply I1; [auto|]. apply elem_of_cons in Hj as [->|Hj]; [auto|]. right. eauto.
  - destruct I2 as [->|(j & Hj & Hfj)].
    + destruct S3 as [->| ->]; [by left|]. right. exists i. split; [by left|done].
    + right. exists j. split; [by right|done].
Qed.

Lemma getAnyChild_loop_run (child : Z -> stM NS Z) (f : Z -> Z) m s :
  (forall i, 0 <= i < m -> child i s = Ok (f i, s)) ->
  exists r, getAnyChild_loop child m s = Ok (r, s) /\
    ((exists i, 0 <= i < m /\ f i <> 0) -> r <> 0) /\ (r <> 0 -> exists i, 0 <= i < m /\ f i = r).
Proof.
  intros Hc. unfold getAnyChild_loop.
  erewrite cbind_Ok; [|apply (cfold_pure _ _ (fun i acc => choose f acc i))].
  2: { intros i acc Hi. apply elem_of_seqZ in Hi. unfold choose. destruct acc.2; [done|].
       rewrite (cbind_Ok _ _ _ _ _ (Hc i ltac:(lia))). destruct (f i =? 0); [done|]. now destruct (isLeaf (f i)). }
  eexists. split; [reflexivity|].
  destruct (choose_spec f (seqZ 0 m) (0, false)) as (H2 & H3); [done|]. cbn [fst] in *. split.
  - intros (i & Hi & Hfi). apply H2. right. exists i. split; [apply elem_of_seqZ; lia|done].
  - intros Hr. destruct H3 as [H3|(i & Hi & Hfi)]; [done|]. apply elem_of_seqZ in Hi. exists i. split; [lia|done].
Qed.

Lemma slot_child_in sl i :
  sdup sl -> 0 <= i -> slot_child sl i <> 0 -> exists k, smap sl !! k = Some (slot_child sl i).
Proof.
  intros Hd Hi Hn. unfold slot_child in *. destruct (sl !! Z.to_nat i) as [[b c]|] eqn:E; [|done]. cbn in *.
  exists b. apply smap_lookup_index; [done|]. eauto.
Qed.

(** The children of an N48 are the ones its index reaches. *)
Lemma N48_children_indexed n ix cs i c :
  layout n -> full n -> body n = B48 ix cs -> 0 <= i -> cs !! Z.to_nat i = Some c -> c <> 0 ->
  exists k, chmap n !! k = Some c.
Proof.
  intros Hl [_ Hf] E Hi Ec Hc. pose proof Hl as (_ & Hs & Hd & _). unfold shape in Hs. rewrite E in *.
  destruct Hs as (Hx & Hcl & _ & Hr & _), Hf as [Hf1 Hf2].
  destruct (Hf2 _ _ Ec Hc) as (b & Hb). rewrite Z2Nat.id in Hb by lia. exists (Z.of_nat b).
  unfold chmap. rewrite E. apply smap_lookup_index; [done|]. exists b. split; [|done]. apply slots_B48_lookup.
  pose proof (lookup_lt_Some _ _ _ Hb). pose proof (lookup_lt_Some _ _ _ Ec).
  split; [unfold byte; lia|]. split; [lia|]. unfold child48. rewrite Nat2Z.id, Hb.
  rewrite (proj2 (Z.eqb_neq i emptyMarker)) by (unfold emptyMarker; lia). now rewrite Ec.
Qed.

(** The result is a child, if there is one. *)
Lemma N_getAnyChild_run n lg :
  layout n -> full n -> chmap n <> ∅ ->
  exists r k, N_getAnyChild (mkNS n lg) = Ok (r, mkNS n lg) /\ chmap n !! k = Some r.
Proof.
  intros Hl Hf Hne. pose proof Hl as (_ & Hs & Hd & _). pose proof (slots_length n Hs) as Hlen.
  apply map_choose in Hne as (k0 & q0 & Hq0). destruct (chmap_slot n k0 q0 Hl Hq0) as (i0 & Hi0 & Hq00).
  pose proof (lookup_lt_Some _ _ _ Hi0) as Hlt.
  assert (Hgen : forall child m, Z.of_nat (length (slots (body n))) = m ->
     (forall i, 0 <= i < m -> child i (mkNS n lg) = Ok (slot_child (slots (body n)) i, mkNS n lg)) ->
     exists r k, getAnyChild_loop child m (mkNS n lg) = Ok (r, mkNS n lg) /\ chmap n !! k = Some r).
  { intros child m <- Hc. destruct (getAnyChild_loop_run child _ _ _ Hc) as (r & Hr & H1 & H2).
    assert (Hr0 : r <> 0).
    { apply H1. exists (Z.of_nat i0). split; [lia|]. unfold slot_child. now rewrite Nat2Z.id, Hi0. }
    destruct (H2 Hr0) as (i & Hi & Hri). subst r. destruct (slot_child_in _ i Hd ltac:(lia) Hr0) as (k & Hk). eauto. }
  pose proof (read_child n lg) as Hrd. unfold N_getAnyChild. rewrite dispatch_run by done.
  destruct (body n) as [ks cs|ks cs|ix cs|cs] eqn:E; rewrite Hlen in Hrd;
    [apply Hgen; [lia|intros i Hi; apply Hrd; lia]..| |apply Hgen; [lia|intros i Hi; apply Hrd; lia]].
  clear Hgen Hrd. unfold shape in Hs. rewrite E in Hs. destruct Hs as (Hx & Hcl & _ & Hr & _).
  destruct (getAnyChild_loop_run N48_child (fun i => default 0 (cs !! Z.to_nat i)) 48 (mkNS n lg)) as (r & Hrun & H1 & H2).
  { intros i Hi. destruct (list_at cs i) as (c & Hc); [lia|]. rewrite Hc.
    destruct n as [w pf lv cnt cc bd]. nproj. subst bd. nred. now rewrite (arr_get_run cs i c) by (done || lia). }
  exists r. assert (Hr0 : r <> 0).
  { apply H1. apply slots_B48_lookup in Hi0 as (_ & _ & Hc). symmetry in Hc.
    destruct (B48_child ix cs k0 q0 Hc Hq00) as (j & Hj & Hjn & Hcj). exists j.
    pose proof (Hr _ _ Hj). pose proof (lookup_lt_Some _ _ _ Hcj). rewrite Hcj. cbn. split; [lia|done]. }
  destruct (H2 Hr0) as (i & Hi & Hri). destruct (cs !! Z.to_nat i) as [c|] eqn:Ec; cbn in Hri; [|congruence]. subst c.
  destruct (N48_children_indexed n ix cs i r Hl Hf E ltac:(lia) Ec Hr0) as (k & Hk). eauto.
Qed.

(** [getSecondChild] finds a child under another key, if there is one. *)
Lemma N_getSecondChild_run n lg k k2 q2 :
  layout n -> tag (body n) = NT4 -> chmap n !! k2 = Some q2 -> k2 <> k ->
  exists k' q', N_getSecondChild k (mkNS n lg) = Ok ((q', k'), mkNS n lg) /\ k' <> k /\ chmap n !! k' = Some q'.
Proof.
  intros Hl Ht H2 Hk2. destruct (chmap_slot n k2 q2 Hl H2) as (i2 & Hi2 & Hq2).
  pose proof Hl as (_ & _ & Hd & _). unfold N_getSecondChild. rewrite dispatch_run by done.
  layout_cases n Hl Ht E. destruct Hs as (Hkl & Hcl & Hcc & Hu).
  set (f i := match zip ks cs !! Z.to_nat i with
              | Some (k', c) => if c =? 0 then None else if k' =? k then None else Some (c, k')
              | None => None end).
  unfold N4_getSecondChild. rewrite load_bind.
  erewrite cbind_Ok; [|apply (cfor_ret_pure _ _ f)].
  2: { intros i Hi. apply elem_of_seqZ in Hi. destruct (list_at ks i) as (k' & Ek); [lia|].
       destruct (list_at cs i) as (c & Ec); [lia|]. unfold f. rewrite (proj2 (zip_lookup ks cs _ k' c)) by done.
       clear - E Ek Ec Hi. destruct n as [w p lv cnt cc b]. nproj. subst b. nred.
       rewrite (arr_get_run cs i c) by (done || lia). destruct (c =? 0); [done|].
       rewrite (arr_get_run ks i k') by (done || lia). now destruct (k' =? k). }
  destruct (first_some f (seqZ 0 (compactCount n))) as [[c k']|] eqn:Ef.
  - apply first_some_in in Ef as (i & Hi & Hfi). exists k', c. split; [done|]. unfold f in Hfi.
    destruct (zip ks cs !! Z.to_nat i) as [[k1 c1]|] eqn:Ez; [|done].
    destruct (Z.eqb_spec c1 0) as [|Hc1]; [done|]. destruct (Z.eqb_spec k1 k) as [|Hk1]; [done|].
    injection Hfi as -> ->. split; [done|]. unfold chmap. rewrite E in *. apply smap_lookup_index; [done|]. eauto.
  - rewrite first_some_None in Ef. specialize (Ef (Z.of_nat i2)). rewrite elem_of_seqZ in Ef. unfold f in Ef.
    rewrite Nat2Z.id in Ef. cbn [slots] in Hi2. rewrite Hi2 in Ef. rewrite (proj2 (Z.eqb_neq q2 0) Hq2) in Ef.
    rewrite (proj2 (Z.eqb_neq k2 k) Hk2) in Ef. discriminate Ef.
    split; [lia|]. specialize (Hu i2 k2 q2). cbn [slots] in Hu. specialize (Hu Hi2 Hq2). lia.
Qed.

(** ** Copying *)

Lemma cfor_ext {S A} (l : list A) (f g : A -> stM S unit) s :
  (forall a s, a ∈ l -> f a s = g a s) -> cfor l f s = cfor l g s.
Proof.
  revert s. induction l as [|a l IH]; intros s H; [done|]. cbn [cfor]. unfold cbind. rewrite H by now left.
  destruct (g a s) as [[[] s']|e]; [|done]. apply IH. intros a' s'' Ha. apply H. now right.
Qed.

Lemma cfor_fmap {S A B} (h : A -> B) (l : list A) (g : B -> stM S unit) s :
  cfor (h <$> l) g s = cfor l (fun a => g (h a)) s.
Proof.
  revert s. induction l as [|a l IH]; intros s; [done|]. cbn [cfor fmap list_fmap]. unfold cbind.
  destruct (g (h a) s) as [[[] s']|e]; [apply IH|done].
Qed.

Lemma cfor_live {S} (sl : list (Z * Z)) (g : Z * Z -> stM S unit) s :
  cfor sl (fun x => if x.2 =? 0 then cret tt else g x) s = cfor (live sl) g s.
Proof.
  revert s. induction sl as [|[b c] sl IH]; intros s; [done|]. cbn [cfor]. unfold cbind.
  destruct (Z.eqb_spec c 0) as [->|Hc]; cbn [snd].
  - rewrite live_null. cbn. apply IH.
  - rewrite live_some by done. rewrite (proj2 (Z.eqb_neq c 0) Hc). cbn [cfor]. unfold cbind.
    destruct (g (b, c) s) as [[[] s']|e]; [apply IH|done].
Qed.

(** A loop over the used slots is a loop over the children. *)
Lemma cfor_slots {S} (sl : list (Z * Z)) m (f : Z -> stM S unit) (g : Z * Z -> stM S unit) s :
  0 <= m <= Z.of_nat (length sl) -> used_below sl m ->
  (forall i s, 0 <= i < m -> f i s = (if slot_child sl i =? 0 then cret tt else g (slot_at sl i)) s) ->
  cfor (seqZ 0 m) f s = cfor (live sl) g s.
Proof.
  intros Hm Hu Hf. rewrite <- (slots_seqZ_used sl m) by done. rewrite <- cfor_live, cfor_fmap.
  apply cfor_ext. intros i s' Hi. apply elem_of_seqZ in Hi. rewrite Hf by lia. unfold slot_child, slot_at.
  now destruct (sl !! Z.to_nat i).
Qed.

Definition copy_one (insert : Z -> Z -> bool -> stM NS bool) (x : Z * Z) : stM NS unit :=
  insert x.1 x.2 false;; cret tt.

Definition N_copyTo (src : NodeN) (insert : Z -> Z -> bool -> stM NS bool) : stM NS unit :=
  match body src with
  | B4 _ _ => N4_copyTo src insert
  | B16 _ _ => N16_copyTo src insert
  | B48 _ _ => N48_copyTo src insert
  | B256 _ => N256_copyTo src insert
  end.

(** Whatever the layout, [copyTo] inserts the children one after the other. *)
Lemma N_copyTo_live src insert s :
  layout src -> full src -> N_copyTo src insert s = cfor (live (slots (body src))) (copy_one insert) s.
Proof.
  intros Hl Hf. pose proof Hl as (_ & Hs & _). pose proof (slots_length src Hs) as Hlen.
  pose proof (shape_small src Hs) as Hsm. pose proof (used_below_length (slots (body src))) as Hub.
  assert (Hrd : forall i, 0 <= i < Z.of_nat (length (slots (body src))) ->
     slots (body src) !! Z.to_nat i = Some (slot_at (slots (body src)) i) /\
     slot_child (slots (body src)) i = (slot_at (slots (body src)) i).2).
  { intros i Hi. destruct (list_at (slots (body src)) i) as (x & Hx); [done|].
    unfold slot_child, slot_at. now rewrite Hx. }
  unfold N_copyTo. destruct (body src) as [ks cs|ks cs|ix cs|cs] eqn:E; rewrite Hlen in Hub, Hrd.
  1, 2: destruct (Hsm I) as (Hcc & Hu & _); cbn [capacity] in Hcc.
  - unfold N4_copyTo. rewrite E. apply cfor_slots; [lia|done|]. intros i s' Hi.
    destruct (Hrd i) as [H1 H2]; [lia|]. rewrite H2. destruct (slot_at _ i) as [k c]. apply zip_lookup in H1 as [Hk Hc].
    rewrite (cbind_Ok _ _ _ _ _ (arr_get_run cs i c s' ltac:(lia) Hc)). cbn [snd]. destruct (c =? 0); [done|].
    now rewrite (cbind_Ok _ _ _ _ _ (arr_get_run ks i k s' ltac:(lia) Hk)).
  - unfold N16_copyTo. rewrite E. apply cfor_slots; [lia|done|]. intros i s' Hi.
    destruct (Hrd i) as [H1 H2]; [lia|]. rewrite H2. destruct (slot_at _ i) as [k c]. apply B16_lookup in H1 as [Hk Hc].
    rewrite (cbind_Ok _ _ _ _ _ (arr_get_run cs i c s' ltac:(lia) Hc)). cbn [snd]. destruct (c =? 0); [done|].
    rewrite (cbind_Ok _ _ _ _ _ (arr_get_run ks i _ s' ltac:(lia) Hk)). now rewrite flipSign_flipSign.
  - unfold N48_copyTo. rewrite E. apply cfor_slots; [lia|done|]. intros i s' Hi.
    destruct (N48_index_child src ix cs i Hl Hf E ltac:(unfold byte; lia)) as (x & Hx & Hnx). rewrite E in Hnx.
    rewrite (cbind_Ok _ _ _ _ _ (arr_get_run ix i x s' ltac:(lia) Hx)).
    destruct (Hrd i) as [H1 H2]; [lia|]. rewrite H2 in *. destruct (slot_at _ i) as [k c].
    apply slots_B48_lookup in H1 as (Hk & Hik & Hc). cbn [snd] in *.
    destruct (Z.eqb_spec x emptyMarker) as [|Hxn], (Z.eqb_spec c 0) as [|Hc0]; try done.
    symmetry in Hc. destruct (B48_child ix cs k c Hc Hc0) as (j & Hj & _ & Hcj).
    replace k with i in * by (unfold byte in Hk; lia). rewrite Hx in Hj. injection Hj as <-.
    unfold shape in Hs. rewrite E in Hs. pose proof (proj1 (proj2 (proj2 (proj2 Hs))) _ _ Hx).
    now rewrite (cbind_Ok _ _ _ _ _ (arr_get_run cs x c s' ltac:(lia) Hcj)).
  - unfold N256_copyTo. rewrite E. apply cfor_slots; [lia|done|]. intros i s' Hi.
    destruct (Hrd i) as [H1 H2]; [lia|]. rewrite H2. destruct (slot_at _ i) as [k c].
    apply B256_lookup in H1 as (Hk & Hik & Hc). cbn [snd].
    rewrite (cbind_Ok _ _ _ _ _ (arr_get_run cs i c s' ltac:(lia) Hc)).
    replace k with i by (unfold byte in Hk; lia). done.
Qed.

(** ** The interface of the classes *)

(** [threshold]: with so few children [remove] gives up, unless it is forced. *)
Class NodeClassSpec (C : NodeClass) (cap threshold : Z) := {
  cls_new : forall lv p, let n := nc_new C lv p in
    layout n /\ full n /\ chmap n = ∅ /\ used n = 0 /\ tag (body n) = nc_type C /\
    pfx n = p /\ level n = lv /\ typeVersionLockObsolete n = Z.shiftl (nc_type C) 62 + 4;
  cls_insert : forall n lg k p flush,
    layout n -> full n -> tag (body n) = nc_type C -> used n < cap -> byte k -> p <> 0 -> chmap n !! k = None ->
    exists n' l, nc_insert C k p flush (mkNS n lg) = Ok (true, mkNS n' (lg ++ l)) /\ insert_ok n n' l k p /\
      (flush = false -> l = []);
  cls_insert_full : forall n lg k p flush,
    layout n -> tag (body n) = nc_type C -> used n = cap ->
    nc_insert C k p flush (mkNS n lg) = Ok (false, mkNS n lg);
  cls_remove : forall n lg k q (force flush : bool),
    layout n -> full n -> tag (body n) = nc_type C -> chmap n !! k = Some q -> threshold < count n \/ force = true ->
    exists n' l, nc_remove C k force flush (mkNS n lg) = Ok (true, mkNS n' (lg ++ l)) /\ remove_ok n n' l k /\
      (flush = false -> l = []);
  cls_remove_refuse : forall n lg k flush,
    0 <= count n -> count n <= threshold -> nc_remove C k false flush (mkNS n lg) = Ok (false, mkNS n lg);
  cls_copyTo : forall src insert, tag (body src) = nc_type C -> nc_copyTo C src insert = N_copyTo src insert }.

Lemma smap_nulls sl : (forall b c, (b, c) ∈ sl -> c = 0) -> sdup sl /\ smap sl = ∅.
Proof. intros H. unfold sdup, smap. rewrite live_nil by done. split; [apply NoDup_nil_2|done]. Qed.

(** Every slot of a new node is free. *)
Definition free_slot (x : Z * Z) : bool := (x.2 =? 0) && (0 <=? x.1) && (x.1 <? 256).

Lemma free_slots sl i k c : forallb free_slot sl = true -> sl !! i = Some (k, c) -> byte k /\ c = 0.
Proof.
  intros H Hi. rewrite List.forallb_forall in H. apply list_elem_of_lookup_2, list_elem_of_In in Hi.
  specialize (H _ Hi). unfold free_slot, byte in *. cbn in H. lia.
Qed.

Lemma new_node_ok C t b lv p :
  (forall lv p, nc_new C lv p = N_empty t lv p b) -> nc_type C = t -> 0 <= t <= 3 -> tag b = t ->
  forallb free_slot (slots b) = true ->
  shape (N_empty t lv p b) ->
  (forall ix cs, b = B48 ix cs -> (forall i x, ix !! i = Some x -> x = emptyMarker) /\ (forall i c, cs !! i = Some c -> c = 0)) ->
  let n := nc_new C lv p in
    layout n /\ full n /\ chmap n = ∅ /\ used n = 0 /\ tag (body n) = nc_type C /\
    pfx n = p /\ level n = lv /\ typeVersionLockObsolete n = Z.shiftl (nc_type C) 62 + 4.
Proof.
  intros Hnew <- Ht Htag Hfree Hs H48 n. subst n. rewrite Hnew.
  pose proof (fun i k c => free_slots _ i k c Hfree) as Hsl.
  destruct (smap_nulls (slots b)) as [Hd Hm].
  { intros k c (i & Hi)%list_elem_of_lookup. now apply Hsl in Hi. }
  assert (Hw : u64 (4 + convertTypeToVersion (nc_type C)) = Z.shiftl (nc_type C) 62 + 4).
  { unfold convertTypeToVersion. rewrite Z.shiftl_mul_pow2 by lia.
    rewrite (u64_small (nc_type C * _)) by lia. rewrite u64_small; lia. }
  split_and!; try done.
  - split_and!; [|done|done|].
    + cbn [N_empty typeVersionLockObsolete body]. rewrite Hw, Htag, Z.shiftl_mul_pow2, Z.shiftr_div_pow2 by lia.
      rewrite Z.div_add_l by lia. rewrite (Z.div_small 4) by lia. lia.
    + apply list.Forall_forall. intros [k c] (i & Hi)%list_elem_of_lookup. now apply Hsl in Hi.
  - split; [unfold chmap; cbn [N_empty body count]; now rewrite Hm|]. cbn [N_empty body compactCount].
    destruct b as [ks cs|ks cs|ix cs|cs] eqn:Eb; try done. destruct (H48 ix cs eq_refl) as [H1 H2]. split.
    + intros i x Hi Hn. now apply H1 in Hi.
    + intros i c Hi Hn. now apply H2 in Hi.
  - unfold used. cbn [N_empty body count compactCount]. now destruct b.
Qed.

Lemma used_below_free sl m : forallb free_slot sl = true -> used_below sl m.
Proof. intros H i b c Hi Hc. now apply (free_slots _ _ _ _ H) in Hi as [_ ->]. Qed.

#[export] Instance C4_spec : NodeClassSpec C4 4 (-1).
Proof.
  split.
  - intros lv p. apply (new_node_ok C4 NT4 (B4 (replicate 4 0) (replicate 4 0))); try done.
    unfold shape. cbn [N_empty body compactCount]. split_and!; [done|done|lia|lia|]. now apply used_below_free.
  - intros. now apply N4_insert_run.
  - intros. now apply N4_insert_full.
  - intros. now apply (N4_remove_run n lg k q).
  - intros. lia.
  - intros src insert Ht. unfold N_copyTo. now destruct (body src).
Qed.

#[export] Instance C16_spec : NodeClassSpec C16 16 3.
Proof.
  split.
  - intros lv p. apply (new_node_ok C16 NT16 (B16 (replicate 16 0) (replicate 16 0))); try done.
    unfold shape. cbn [N_empty body compactCount]. split_and!; [done|done|lia|lia|]. now apply used_below_free.
  - intros. now apply N16_insert_run.
  - intros. now apply N16_insert_full.
  - intros. now apply (N16_remove_run n lg k q).
  - intros. now apply N16_remove_refuse.
  - intros src insert Ht. unfold N_copyTo. now destruct (body src).
Qed.

#[export] Instance C48_spec : NodeClassSpec C48 48 12.
Proof.
  split.
  - intros lv p.
    apply (new_node_ok C48 NT48 (B48 (replicate 256 emptyMarker) (replicate 48 0))); try done.
    + unfold shape. cbn [N_empty body compactCount]. split_and!; [done|done|lia|lia|..].
      * intros b i [-> _]%lookup_replicate. unfold emptyMarker. lia.
      * intros b b' i [-> _]%lookup_replicate. done.
    + intros ix cs [= <- <-]. split; intros i x Hi.
      * now apply (lookup_replicate 256) in Hi as [-> _].
      * now apply (lookup_replicate 48) in Hi as [-> _].
  - intros. now apply N48_insert_run.
  - intros. now apply N48_insert_full.
  - intros. now apply (N48_remove_run n lg k q).
  - intros. now apply N48_remove_refuse.
  - intros src insert Ht. unfold N_copyTo. now destruct (body src).
Qed.

#[export] Instance C256_spec : NodeClassSpec C256 256 37.
Proof.
  split.
  - intros lv p. now apply (new_node_ok C256 NT256 (B256 (replicate 256 0))).
  - intros. now apply N256_insert_run.
  - intros. now apply N256_insert_full.
  - intros. now apply (N256_remove_run n lg k q).
  - intros. now apply N256_remove_refuse.
  - intros src insert Ht. unfold N_copyTo. now destruct (body src).
Qed.

(** A node copied into a new one of any class with enough room. *)
Lemma copy_into {C cap thr} `{!NodeClassSpec C cap thr} l : forall d lg,
  layout d -> full d -> tag (body d) = nc_type C ->
  NoDup l.*1 -> (forall k c, (k, c) ∈ l -> byte k /\ c <> 0 /\ chmap d !! k = None) ->
  used d + Z.of_nat (length l) <= cap ->
  exists d', cfor l (copy_one (nc_insert C)) (mkNS d lg) = Ok (tt, mkNS d' lg) /\
    upd d d' (list_to_map l ∪ chmap d) /\ full d' /\ used d' = used d + Z.of_nat (length l).
Proof.
  induction l as [|[k c] l IH]; intros d lg Hl Hf Ht Hnd Hin Hcap.
  - exists d. split; [done|]. split; [|cbn [length]; split; [done|lia]]. split; [done|]. split; [done|].
    cbn. now rewrite map_empty_union.
  - cbn [length] in *. cbn in Hnd. apply list.NoDup_cons in Hnd as [Hk Hnd].
    destruct (Hin k c ltac:(left)) as (Hb & Hc & HN).
    destruct (cls_insert (C := C) d lg k c false) as (d1 & l1 & Hr & (Hu1 & Hf1 & Hus1 & _) & Hl1); [done..|lia|done|done|done|].
    rewrite (Hl1 eq_refl), app_nil_r in Hr. destruct Hu1 as (Hh1 & Hly1 & Hm1).
    destruct (IH d1 lg) as (d' & Hr' & (Hh' & Hly' & Hm') & Hf' & Hus'); [done|done| |done| |lia|].
    { destruct Hh1 as (_ & _ & _ & ->). done. }
    { intros k' c' Hk'. destruct (Hin k' c') as (H1 & H2 & H3); [now right|]. split_and!; [done|done|].
      rewrite Hm1, lookup_insert_ne; [done|]. intros <-. apply Hk. apply list_elem_of_fmap. now exists (k, c'). }
    exists d'. cbn [cfor]. unfold copy_one at 1. cbn [fst snd]. rewrite cbind_assoc, (cbind_Ok _ _ _ _ _ Hr).
    split; [exact Hr'|]. split; [|split; [done|lia]]. split; [|split; [done|]].
    + destruct Hh1 as (A1 & A2 & A3 & A4), Hh' as (B1 & B2 & B3 & B4). split_and!; congruence.
    + rewrite Hm', Hm1, list_to_map_cons. rewrite <- insert_union_l, <- insert_union_r; [done|].
      now apply not_elem_of_list_to_map_1.
Qed.

Lemma N_copyTo_run {C cap thr} `{!NodeClassSpec C cap thr} src d lg :
  layout src -> full src -> layout d -> full d -> tag (body d) = nc_type C -> chmap d = ∅ -> used d = 0 ->
  count src <= cap ->
  exists d', N_copyTo src (nc_insert C) (mkNS d lg) = Ok (tt, mkNS d' lg) /\
    upd d d' (chmap src) /\ full d' /\ used d' = count src.
Proof.
  intros Hl Hf Hld Hfd Ht He Hu Hcap. pose proof Hl as (_ & _ & Hd & Hb). pose proof Hf as [Hcnt _].
  assert (Hlen : Z.of_nat (length (live (slots (body src)))) = count src)
    by (rewrite Hcnt; unfold chmap; now rewrite smap_size).
  destruct (copy_into (C := C) (live (slots (body src))) d lg) as (d' & Hr & Hup & Hf' & Hu'); [done..| |lia|].
  { intros k c [Hc Hin]%live_elem. rewrite He, lookup_empty. split_and!; [|done|done].
    rewrite list.Forall_forall in Hb. apply (Hb _ Hin). }
  exists d'. rewrite N_copyTo_live by done. split; [done|]. rewrite He, map_union_empty in Hup.
  split; [exact Hup|]. split; [done|lia].
Qed.

(** ** Growing and shrinking change nothing *)

(** C27: Whatever the classes of the two nodes, [copyTo] into a new node with room for the
    children gives a node that answers [getChild] as the one copied does, for every byte, counts
    the same children up to three, and has the level and prefix it was made with. *)
Theorem copyTo_equivalent {C capC thrC} `{!NodeClassSpec C capC thrC} {D capD thrD} `{!NodeClassSpec D capD thrD}
    (src : NodeN) (lv : Z) (p : Prefix) (lg : list NodeN) :
  layout src -> full src -> tag (body src) = nc_type C -> count src <= capD ->
  exists d, nc_copyTo C src (nc_insert D) (mkNS (nc_new D lv p) lg) = Ok (tt, mkNS d lg) /\
    (forall k, byte k -> exists c,
       N_getChild k (mkNS d lg) = Ok (c, mkNS d lg) /\ N_getChild k (mkNS src lg) = Ok (c, mkNS src lg)) /\
    (exists c, N_getCount (mkNS d lg) = Ok (c, mkNS d lg) /\ N_getCount (mkNS src lg) = Ok (c, mkNS src lg)) /\
    level d = lv /\ pfx d = p /\ tag (body d) = nc_type D.
Proof.
  intros Hl Hf Ht Hcap. rewrite (cls_copyTo src (nc_insert D) Ht).
  destruct (cls_new (C := D) lv p) as (Hl0 & Hf0 & Hc0 & Hu0 & Ht0 & Hp0 & Hlv0 & _).
  destruct (N_copyTo_run (C := D) src (nc_new D lv p) lg) as (d & Hr & ((_ & Hp & Hlv & Htd) & Hld & Hm) & Hfd & _); [done..|].
  exists d. split; [exact Hr|]. split_and!; [| |congruence..].
  - intros k Hk. exists (default 0 (chmap src !! k)). rewrite !N_getChild_run, Hm by done. done.
  - exists (Z.min 3 (count src)). rewrite !N_getCount_run by done. split; [|done].
    destruct Hf as [-> _], Hfd as [-> _]. now rewrite Hm.
Qed.

(** A full N4, copied into an N16. *)
Definition four_children : NodeN :=
  mkN (Z.shiftl NT4 62 + 4) Prefix_default 2 4 4 (B4 [9; 0; 255; 7] [16; 24; 32; 40]).

Lemma copyTo_equivalent_witness :
  exists d, nc_copyTo C4 four_children (nc_insert C16) (mkNS (nc_new C16 2 Prefix_default) []) = Ok (tt, mkNS d []) /\
    N_getChild 255 (mkNS d []) = Ok (32, mkNS d []).
Proof.
  destruct (copyTo_equivalent (C := C4) (D := C16) four_children 2 Prefix_default []) as (d & Hr & Hg & _).
  - split; [reflexivity|]. split; [|split].
    + split_and!; try reflexivity; try (vm_compute; congruence).
      intros i b c Hi _. apply lookup_lt_Some in Hi. cbn in Hi. cbn. lia.
    + apply (bool_decide_unpack _). vm_compute. exact I.
    + repeat constructor; unfold byte; cbn; lia.
  - split; [reflexivity|exact I].
  - reflexivity.
  - vm_compute. congruence.
  - exists d. split; [exact Hr|]. destruct (Hg 255) as (c & Hc & Hs); [unfold byte; lia|].
    rewrite Hc. vm_compute in Hs. injection Hs as <-. reflexivity.
Defined.
