(* ===== verification/Epoche.v ===== *)
(** * P-ART: epochs

    [src/RECIPE/P-ART/Epoche.h] and [Epoche.cpp]. A node that has been unlinked is put on the
    deletion list of the thread that unlinked it, with the epoch of that moment; it is released
    when every thread has entered a later epoch. A deletion list is a linked list of labels of up
    to 32 nodes; labels are private to their list and modelled as list elements. The thread
    specific lists are a map from threads. [released] records what was given to
    [operator delete], in order. *)

From S2P Require Import Prelude.

Definition EPOCHE_MAX : Z := 2 ^ 64 - 1.

Record LabelDelete := mkLabel { lnodes : list Z; lepoche : Z; nodesCount : Z }.

Record DeletionList := mkDL {
  headDeletionList : list LabelDelete;
  freeLabelDeletes : list LabelDelete;
  deletitionListCount : Z;
  localEpoche : Z;
  thresholdCounter : Z;
  deleted : Z;
  added : Z }.

Record Epoche := mkEpoche {
  currentEpoche : Z;
  deletionLists : gmap nat DeletionList;
  startGCThreshhold : Z;
  released : list Z }.

(** The number of nodes a label has room for. *)
Definition LABEL_NODES : nat := 32.

Definition set_localEpoche (d : DeletionList) (e : Z) : DeletionList :=
  mkDL (headDeletionList d) (freeLabelDeletes d) (deletitionListCount d) e (thresholdCounter d) (deleted d) (added d).
Definition set_thresholdCounter (d : DeletionList) (t : Z) : DeletionList :=
  mkDL (headDeletionList d) (freeLabelDeletes d) (deletitionListCount d) (localEpoche d) t (deleted d) (added d).

(** ** DeletionList *)

Definition DeletionList_size (d : DeletionList) : Z := deletitionListCount d.

(** [new LabelDelete()] is zeroed. *)
Definition new_LabelDelete : LabelDelete := mkLabel (replicate LABEL_NODES 0) 0 0.

Definition DeletionList_add (n globalEpoch : Z) : stM DeletionList unit := fun d =>
  let '(label, rest, free) :=
    match headDeletionList d with
    | l :: rest =>
        if nodesCount l <? Z.of_nat (length (lnodes l)) then (l, rest, freeLabelDeletes d)
        else match freeLabelDeletes d with
             | f :: free => (mkLabel (lnodes f) (lepoche f) 0, l :: rest, free)
             | [] => (new_LabelDelete, l :: rest, [])
             end
    | [] => match freeLabelDeletes d with
            | f :: free => (mkLabel (lnodes f) (lepoche f) 0, [], free)
            | [] => (new_LabelDelete, [], [])
            end
    end in
  if (0 <=? nodesCount label) && (nodesCount label <? Z.of_nat (length (lnodes label))) then
    let label' := mkLabel (<[Z.to_nat (nodesCount label) := n]> (lnodes label)) globalEpoch (nodesCount label + 1) in
    Ok (tt, mkDL (label' :: rest) free (u64 (deletitionListCount d + 1)) (localEpoche d) (thresholdCounter d)
                 (deleted d) (u64 (added d + 1)))
  else Err UB_access.

(** The label at position [pos] of the list; its predecessor is the label before it. *)
Definition DeletionList_remove (pos : nat) : stM DeletionList unit := fun d =>
  match headDeletionList d !! pos with
  | Some label =>
      Ok (tt, mkDL (delete pos (headDeletionList d)) (label :: freeLabelDeletes d)
                   (u64 (deletitionListCount d - nodesCount label)) (localEpoche d) (thresholdCounter d)
                   (u64 (deleted d + nodesCount label)) (added d))
  | None => Err UB_access
  end.

(** ** Epoche *)

(** A computation on the deletion list of thread [t]. *)
Definition on_list {A} (t : nat) (m : stM DeletionList A) : stM Epoche A := fun e =>
  match deletionLists e !! t with
  | None => Err UB_access
  | Some d => match m d with
              | Ok (a, d') => Ok (a, mkEpoche (currentEpoche e) (<[t := d']> (deletionLists e)) (startGCThreshhold e) (released e))
              | Err x => Err x
              end
  end.

Definition operator_delete (n : Z) : stM Epoche unit :=
  cmod (fun e => mkEpoche (currentEpoche e) (deletionLists e) (startGCThreshhold e) (released e ++ [n])).

(** [ThreadInfo(epoche)]: the list of the thread is made when it is first asked for; what is in
    [localEpoche] then is [init]. *)
Definition ThreadInfo_new (init : Z) (t : nat) : stM Epoche unit :=
  cmod (fun e => match deletionLists e !! t with
                 | Some _ => e
                 | None => mkEpoche (currentEpoche e) (<[t := mkDL [] [] 0 init 0 0 0]> (deletionLists e))
                             (startGCThreshhold e) (released e)
                 end).

Definition ThreadInfo_delete (t : nat) : stM Epoche unit :=
  on_list t (cmod (fun d => set_localEpoche d EPOCHE_MAX)).

Definition enterEpoche (t : nat) : stM Epoche unit :=
  curEpoche <- cgets currentEpoche;
  on_list t (cmod (fun d => set_localEpoche d curEpoche)).

Definition markNodeForDeletion (n : Z) (t : nat) : stM Epoche unit :=
  cur <- cgets currentEpoche;
  on_list t (DeletionList_add n cur);;
  on_list t (cmod (fun d => set_thresholdCounter d (u64 (thresholdCounter d + 1)))).

(** The smallest epoch of a thread. *)
Definition oldestEpoche (ls : gmap nat DeletionList) : Z :=
  foldl (fun oldest td => if localEpoche td.2 <? oldest then localEpoche td.2 else oldest)
        EPOCHE_MAX (map_to_list ls).

(** [while (cur != nullptr)]: [pos] labels before [cur] have been kept. *)
Fixpoint cleanup (fuel : nat) (oldest : Z) (t : nat) (pos : nat) : stM Epoche unit :=
  match fuel with
  | O => cfail OutOfFuel
  | S fuel' =>
      d <- on_list t (cgets id);
      match headDeletionList d !! pos with
      | None => cret tt
      | Some cur =>
          if lepoche cur <? oldest then
            cfor (take (Z.to_nat (nodesCount cur)) (lnodes cur)) operator_delete;;
            on_list t (DeletionList_remove pos);;
            cleanup fuel' oldest t pos
          else cleanup fuel' oldest t (S pos)
      end
  end.

Definition exitEpocheAndCleanup (t : nat) : stM Epoche unit :=
  d <- on_list t (cgets id);
  (if Z.land (thresholdCounter d) (64 - 1) =? 1 then
     cmod (fun e => mkEpoche (u64 (currentEpoche e + 1)) (deletionLists e) (startGCThreshhold e) (released e))
   else cret tt);;
  th <- cgets startGCThreshhold;
  if th <? thresholdCounter d then
    if DeletionList_size d =? 0 then on_list t (cmod (fun d => set_thresholdCounter d 0))
    else
      on_list t (cmod (fun d => set_localEpoche d EPOCHE_MAX));;
      oldest <- cgets (fun e => oldestEpoche (deletionLists e));
      cleanup (S (length (headDeletionList d))) oldest t 0;;
      on_list t (cmod (fun d => set_thresholdCounter d 0))
  else cret tt.

(** The destructor releases what is still on the lists; its assertion holds when every thread
    is done. *)
Definition Epoche_delete : stM Epoche unit :=
  ls <- cgets (fun e => map_to_list (deletionLists e));
  let oldest := oldestEpoche (list_to_map ls) in
  cfor ls (fun td =>
    cfor (headDeletionList td.2) (fun cur =>
      cassert (lepoche cur <? oldest);;
      cfor (take (Z.to_nat (nodesCount cur)) (lnodes cur)) operator_delete;;
      on_list td.1 (DeletionList_remove 0))).

(** ** P-ART: what the epochs keep and release

    Nodes given to [markNodeForDeletion] are kept on a list until they are released, each once;
    entering and leaving an epoch lose none. *)

Definition label_nodes (l : LabelDelete) : list Z := take (Z.to_nat (nodesCount l)) (lnodes l).
Definition dl_nodes (d : DeletionList) : list Z := headDeletionList d ≫= label_nodes.

Definition label_ok (l : LabelDelete) : Prop := length (lnodes l) = LABEL_NODES /\ 0 <= nodesCount l <= 32.

Definition dl_ok (d : DeletionList) : Prop :=
  Forall label_ok (headDeletionList d) /\ Forall (fun l => length (lnodes l) = LABEL_NODES) (freeLabelDeletes d).

(** Everything that waits to be released. *)
Definition pending (ls : gmap nat DeletionList) : list Z := map_to_list ls ≫= (fun td => dl_nodes td.2).

Definition ep_ok (e : Epoche) : Prop := forall t d, deletionLists e !! t = Some d -> dl_ok d.

Lemma pending_insert ls t d :
  ls !! t = None -> pending (<[t := d]> ls) ≡ₚ dl_nodes d ++ pending ls.
Proof. intros H. unfold pending. by rewrite map_to_list_insert. Qed.

Lemma pending_lookup ls t d :
  ls !! t = Some d -> pending ls ≡ₚ dl_nodes d ++ pending (delete t ls).
Proof. intros H. rewrite <- (insert_delete_id ls t d H) at 1. apply pending_insert, lookup_delete_eq. Qed.

Lemma pending_update ls t d d' :
  ls !! t = Some d -> pending (<[t := d']> ls) ≡ₚ dl_nodes d' ++ pending (delete t ls).
Proof. intros H. rewrite <- insert_delete_eq. apply pending_insert, lookup_delete_eq. Qed.

(** ** One list *)

Lemma add_label_spec d label rest free n e :
  label_ok label -> nodesCount label < 32 -> Forall label_ok rest ->
  Forall (fun l => length (lnodes l) = LABEL_NODES) free ->
  headDeletionList d ≫= label_nodes ≡ₚ label_nodes label ++ (rest ≫= label_nodes) ->
  let l' := mkLabel (<[Z.to_nat (nodesCount label) := n]> (lnodes label)) e (nodesCount label + 1) in
  forall cnt lc th dd aa, let d' := mkDL (l' :: rest) free cnt lc th dd aa in
  dl_ok d' /\ dl_nodes d' ≡ₚ n :: dl_nodes d.
Proof.
  intros [Hlen Hc] Hlt Hrest Hfree Hp l' cnt lc th dd aa d'. split.
  - split; [|done]. apply list.Forall_cons. split; [|done]. unfold label_ok, l'. cbn [lnodes nodesCount].
    rewrite length_insert. split; [done|lia].
  - unfold dl_nodes at 2. rewrite Hp. unfold dl_nodes, d'. cbn [headDeletionList mbind list_bind].
    unfold label_nodes at 1, l'. cbn [lnodes nodesCount].
    replace (Z.to_nat (nodesCount label + 1)) with (S (Z.to_nat (nodesCount label))) by lia.
    rewrite (take_S_r _ _ n) by (apply list_lookup_insert_eq; unfold LABEL_NODES in Hlen; lia).
    rewrite take_insert_ge by lia. rewrite <- app_assoc. cbn. by rewrite Permutation_middle.
Qed.

Lemma DeletionList_add_run n e d :
  dl_ok d -> exists d', DeletionList_add n e d = Ok (tt, d') /\ dl_ok d' /\ dl_nodes d' ≡ₚ n :: dl_nodes d /\
    localEpoche d' = localEpoche d.
Proof.
  intros [Hh Hf]. unfold DeletionList_add.
  assert (Hnew : forall f, length (lnodes f) = LABEL_NODES -> label_ok (mkLabel (lnodes f) (lepoche f) 0))
    by (intros f Hf0; split; [done|cbn; lia]).
  assert (Hpick : exists label rest free,
     match headDeletionList d with
     | l :: rest =>
        if nodesCount l <? Z.of_nat (length (lnodes l)) then (l, rest, freeLabelDeletes d)
        else match freeLabelDeletes d with
             | f :: free => (mkLabel (lnodes f) (lepoche f) 0, l :: rest, free)
             | [] => (new_LabelDelete, l :: rest, [])
             end
     | [] => match freeLabelDeletes d with
            | f :: free => (mkLabel (lnodes f) (lepoche f) 0, [], free)
            | [] => (new_LabelDelete, [], [])
            end
     end = (label, rest, free) /\ label_ok label /\ nodesCount label < 32 /\ Forall label_ok rest /\
     Forall (fun l => length (lnodes l) = LABEL_NODES) free /\
     headDeletionList d ≫= label_nodes ≡ₚ label_nodes label ++ (rest ≫= label_nodes)).
  { destruct (headDeletionList d) as [|l rest].
    - destruct (freeLabelDeletes d) as [|f free]; do 3 eexists; (split; [reflexivity|]).
      + by split_and!.
      + apply list.Forall_cons in Hf as [Hf1 Hf2]. by split_and!.
    - apply list.Forall_cons in Hh as [[Hl1 Hl2] Hh2]. rewrite Hl1. destruct (Z.ltb_spec (nodesCount l) (Z.of_nat LABEL_NODES)) as [Hlt|Hge].
      + do 3 eexists. split; [reflexivity|]. unfold LABEL_NODES in Hlt. split_and!; try done; lia.
      + destruct (freeLabelDeletes d) as [|f free]; do 3 eexists; (split; [reflexivity|]).
        * split_and!; try done. by apply list.Forall_cons.
        * apply list.Forall_cons in Hf as [Hf1 Hf2]. split_and!; try done. by apply list.Forall_cons. }
  destruct Hpick as (label & rest & free & -> & Hok & Hlt & Hr & Hfr & Hp).
  pose proof Hok as [Hlen Hc].
  rewrite (proj2 (Z.leb_le 0 (nodesCount label))), (proj2 (Z.ltb_lt _ _)) by (unfold LABEL_NODES in Hlen; lia). cbn [andb].
  eexists. split; [reflexivity|]. pose proof (add_label_spec d label rest free n e Hok Hlt Hr Hfr Hp) as H.
  cbn zeta in H. split; [apply H|]. split; [apply H|done].
Qed.

Lemma DeletionList_remove_run pos d l :
  dl_ok d -> headDeletionList d !! pos = Some l ->
  exists d', DeletionList_remove pos d = Ok (tt, d') /\ dl_ok d' /\ dl_nodes d ≡ₚ label_nodes l ++ dl_nodes d' /\
    headDeletionList d' = delete pos (headDeletionList d).
Proof.
  intros [Hh Hf] Hl. unfold DeletionList_remove. rewrite Hl. eexists. split; [reflexivity|].
  cbn [headDeletionList]. split_and!; [split; cbn [headDeletionList freeLabelDeletes]| |done].
  - by apply Forall_delete.
  - apply list.Forall_cons. split; [|done]. rewrite list.Forall_forall in Hh. by apply Hh, (list_elem_of_lookup_2 _ pos).
  - unfold dl_nodes. cbn [headDeletionList]. change (label_nodes l ++ delete pos (headDeletionList d) ≫= label_nodes)
      with ((l :: delete pos (headDeletionList d)) ≫= label_nodes).
    by rewrite (delete_Permutation _ _ _ Hl) at 1.
Qed.

(** ** The operations *)

Lemma on_list_run {A} t (mt : stM DeletionList A) e d x d' :
  deletionLists e !! t = Some d -> mt d = Ok (x, d') ->
  on_list t mt e = Ok (x, mkEpoche (currentEpoche e) (<[t := d']> (deletionLists e)) (startGCThreshhold e) (released e)).
Proof. intros H Hm. unfold on_list. by rewrite H, Hm. Qed.

(** What an operation leaves: it has put [news] on a list, released [rel] and keeps the rest. *)
Definition ep_step (e e' : Epoche) (news rel : list Z) : Prop :=
  ep_ok e' /\ dom (deletionLists e') = dom (deletionLists e) /\ released e' = released e ++ rel /\
  news ++ pending (deletionLists e) ≡ₚ rel ++ pending (deletionLists e').

Lemma ep_ok_insert e t d : ep_ok e -> dl_ok d -> forall cur th rel,
  ep_ok (mkEpoche cur (<[t := d]> (deletionLists e)) th rel).
Proof. intros He Hd cur th rel t' d'. cbn. intros [[<- <-]|[_ H]]%lookup_insert_Some; [done|by eapply He]. Qed.

Lemma enterEpoche_run t e :
  ep_ok e -> is_Some (deletionLists e !! t) -> exists e', enterEpoche t e = Ok (tt, e') /\ ep_step e e' [] [].
Proof.
  intros He [d Hd]. unfold enterEpoche. rewrite (cbind_Ok _ _ _ (currentEpoche e) e) by done.
  erewrite on_list_run by (reflexivity || done). eexists. split; [reflexivity|]. split_and!.
  - apply ep_ok_insert; [done|]. apply (He t d Hd).
  - cbn. by apply dom_insert_lookup_L.
  - cbn. by rewrite app_nil_r.
  - cbn. rewrite (pending_lookup _ _ _ Hd), (pending_update _ _ _ _ Hd). done.
Qed.

Lemma ThreadInfo_delete_run t e :
  ep_ok e -> is_Some (deletionLists e !! t) -> exists e', ThreadInfo_delete t e = Ok (tt, e') /\ ep_step e e' [] [].
Proof.
  intros He [d Hd]. unfold ThreadInfo_delete. erewrite on_list_run by (reflexivity || done). eexists. split; [reflexivity|]. split_and!.
  - apply ep_ok_insert; [done|]. apply (He t d Hd).
  - cbn. by apply dom_insert_lookup_L.
  - cbn. by rewrite app_nil_r.
  - cbn. rewrite (pending_lookup _ _ _ Hd), (pending_update _ _ _ _ Hd). done.
Qed.

Lemma markNodeForDeletion_run n t e :
  ep_ok e -> is_Some (deletionLists e !! t) ->
  exists e', markNodeForDeletion n t e = Ok (tt, e') /\ ep_step e e' [n] [].
Proof.
  intros He [d Hd]. unfold markNodeForDeletion. rewrite (cbind_Ok _ _ _ (currentEpoche e) e) by done.
  destruct (DeletionList_add_run n (currentEpoche e) d (He t d Hd)) as (d' & Ha & Hok & Hp & _).
  rewrite (cbind_Ok _ _ _ _ _ (on_list_run _ _ _ _ _ _ Hd Ha)).
  erewrite on_list_run; [|cbn; by rewrite lookup_insert_eq|reflexivity]. eexists. split; [reflexivity|]. cbn.
  rewrite insert_insert_eq. split_and!.
  - apply (ep_ok_insert e); [done|]. apply Hok.
  - cbn. by apply dom_insert_lookup_L.
  - cbn. by rewrite app_nil_r.
  - cbn. rewrite (pending_lookup _ _ _ Hd), (pending_update _ _ _ _ Hd). cbn. by rewrite Hp.
Qed.

Lemma operator_delete_run l e :
  cfor l operator_delete e = Ok (tt, mkEpoche (currentEpoche e) (deletionLists e) (startGCThreshhold e) (released e ++ l)).
Proof.
  revert e. induction l as [|n l IH]; intros e.
  - destruct e. cbn. by rewrite app_nil_r.
  - cbn [cfor]. rewrite (cbind_Ok (operator_delete n) _ _ tt (mkEpoche (currentEpoche e) (deletionLists e) (startGCThreshhold e) (released e ++ [n])))
      by done. rewrite IH. cbn. by rewrite <- app_assoc.
Qed.

Lemma cleanup_run oldest t fuel : forall e pos d,
  ep_ok e -> deletionLists e !! t = Some d -> (length (headDeletionList d) < fuel + pos)%nat ->
  (pos <= length (headDeletionList d))%nat ->
  exists e' rel, cleanup fuel oldest t pos e = Ok (tt, e') /\ ep_step e e' [] rel.
Proof.
  induction fuel as [|fuel IH]; intros e pos d He Hd Hf Hpos; [lia|]. cbn [cleanup].
  assert (E : on_list t (cgets id) e = Ok (d, e)).
  { erewrite on_list_run by (reflexivity || done). destruct e. cbn in *. by rewrite insert_id. }
  rewrite (cbind_Ok _ _ _ _ _ E). destruct (headDeletionList d !! pos) as [cur|] eqn:Ec.
  2: { exists e, []. split; [done|]. split_and!; [done|done|by rewrite app_nil_r|done]. }
  pose proof (lookup_lt_Some _ _ _ Ec) as Hlt. destruct (lepoche cur <? oldest).
  - rewrite (cbind_Ok _ _ _ _ _ (operator_delete_run _ e)).
    destruct (DeletionList_remove_run pos d cur (He t d Hd) Ec) as (d' & Hr & Hok & Hp & Hh).
    erewrite cbind_Ok; [|eapply on_list_run; [exact Hd|exact Hr]]. cbn [currentEpoche deletionLists startGCThreshhold released].
    destruct (IH (mkEpoche (currentEpoche e) (<[t := d']> (deletionLists e)) (startGCThreshhold e) (released e ++ label_nodes cur)) pos d')
      as (e' & rel & Hrun & H1 & H2 & H3 & H4).
    + by apply ep_ok_insert.
    + apply lookup_insert_eq.
    + rewrite Hh, length_delete by by eexists. lia.
    + rewrite Hh, length_delete by by eexists. lia.
    + exists e', (label_nodes cur ++ rel). split; [exact Hrun|]. split_and!; [done| | |].
      * rewrite H2. cbn. by apply dom_insert_lookup_L.
      * rewrite H3. cbn. by rewrite app_assoc.
      * cbn in *. rewrite (pending_lookup _ _ _ Hd), Hp, <- !app_assoc, <- H4, (pending_update _ _ _ _ Hd). done.
  - apply (IH e (S pos) d); try done; lia.
Qed.

Lemma exitEpocheAndCleanup_run t e :
  ep_ok e -> is_Some (deletionLists e !! t) ->
  exists e' rel, exitEpocheAndCleanup t e = Ok (tt, e') /\ ep_step e e' [] rel.
Proof.
  intros He [d Hd]. unfold exitEpocheAndCleanup.
  assert (E : on_list t (cgets id) e = Ok (d, e)).
  { erewrite on_list_run by (reflexivity || done). destruct e. cbn in *. by rewrite insert_id. }
  rewrite (cbind_Ok _ _ _ _ _ E). clear E.
  assert (E1 : exists e1, (if Z.land (thresholdCounter d) (64 - 1) =? 1
     then cmod (fun e => mkEpoche (u64 (currentEpoche e + 1)) (deletionLists e) (startGCThreshhold e) (released e))
     else cret tt) e = Ok (tt, e1) /\ deletionLists e1 = deletionLists e /\ released e1 = released e).
  { destruct (_ =? 1); by eexists. }
  destruct E1 as (e1 & E1 & Hl1 & Hr1). rewrite (cbind_Ok _ _ _ _ _ E1).
  rewrite (cbind_Ok _ _ _ (startGCThreshhold e1) e1) by done.
  assert (He1 : ep_ok e1) by (intros t' d'; rewrite Hl1; apply He).
  assert (Hd1 : deletionLists e1 !! t = Some d) by congruence.
  destruct (startGCThreshhold e1 <? thresholdCounter d).
  2: { exists e1, []. split; [done|]. split_and!; [done|by rewrite Hl1|by rewrite app_nil_r, Hr1|by rewrite Hl1]. }
  destruct (DeletionList_size d =? 0).
  - erewrite on_list_run by (reflexivity || done). do 2 eexists. split; [reflexivity|]. split_and!.
    + apply ep_ok_insert; [done|]. apply (He t d Hd).
    + cbn. rewrite <- Hl1. by apply dom_insert_lookup_L.
    + cbn. by rewrite Hr1, app_nil_r.
    + cbn. rewrite <- Hl1, (pending_lookup _ _ _ Hd1), (pending_update _ _ _ _ Hd1). done.
  - erewrite cbind_Ok; [|eapply on_list_run; [exact Hd1|reflexivity]].
    set (e2 := mkEpoche _ _ _ _). rewrite (cbind_Ok _ _ _ (oldestEpoche (deletionLists e2)) e2) by done.
    destruct (cleanup_run (oldestEpoche (deletionLists e2)) t (S (length (headDeletionList d))) e2 0 (set_localEpoche d EPOCHE_MAX))
      as (e3 & rel & Hrun & H1 & H2 & H3 & H4); [by apply ep_ok_insert; [|apply (He t d Hd)]|apply lookup_insert_eq|cbn; lia|lia|].
    rewrite (cbind_Ok _ _ _ _ _ Hrun).
    assert (Hd3 : is_Some (deletionLists e3 !! t)) by (apply elem_of_dom; rewrite H2; apply elem_of_dom; cbn; rewrite lookup_insert_eq; by eexists).
    destruct Hd3 as [d3 Hd3]. erewrite on_list_run by (reflexivity || done).
    exists (mkEpoche (currentEpoche e3) (<[t := set_thresholdCounter d3 0]> (deletionLists e3)) (startGCThreshhold e3) (released e3)), rel.
    split; [reflexivity|]. split_and!.
    + apply ep_ok_insert; [done|]. apply (H1 t d3 Hd3).
    + cbn. rewrite dom_insert_lookup_L, H2, <- Hl1 by done. cbn. by apply dom_insert_lookup_L.
    + cbn. by rewrite H3, <- Hr1.
    + cbn in *. rewrite (pending_update _ _ _ _ Hd3). change (dl_nodes (set_thresholdCounter d3 0)) with (dl_nodes d3).
      rewrite <- (pending_lookup _ _ _ Hd3), <- H4. cbn. rewrite (pending_update _ _ _ _ Hd1).
      change (dl_nodes (set_localEpoche d EPOCHE_MAX)) with (dl_nodes d). by rewrite <- (pending_lookup _ _ _ Hd1), Hl1.
Qed.
