(* ===== verification/EpocheSafe.v ===== *)
(** * P-ART: no node is released under a reader

    The operations of several threads on the epochs, interleaved in any order. A node that is
    unlinked while a thread is inside an operation is not released before that thread has
    started another one; and every node is released at most once. *)

From S2P Require Import Prelude Epoche.
#[local] Open Scope Z_scope.
#[local] Open Scope cmd_scope.

(** ** Interleavings *)

Inductive ep_op := Enter (t : nat) | Mark (n : Z) (t : nat) | Exit (t : nat) | End_ (t : nat).

Definition ep_do (o : ep_op) : stM Epoche unit :=
  match o with
  | Enter t => enterEpoche t
  | Mark n t => markNodeForDeletion n t
  | Exit t => exitEpocheAndCleanup t
  | End_ t => ThreadInfo_delete t
  end.

Definition op_thread (o : ep_op) : nat := match o with Enter t | Mark _ t | Exit t | End_ t => t end.
Definition op_marks (o : ep_op) : list Z := match o with Mark n _ => [n] | _ => [] end.

Fixpoint ep_exec (ops : list ep_op) : stM Epoche unit :=
  match ops with
  | [] => cret tt
  | o :: ops' => ep_do o;; ep_exec ops'
  end.

Lemma ep_exec_app l1 l2 e : ep_exec (l1 ++ l2) e = (ep_exec l1;; ep_exec l2) e.
Proof.
  revert e. induction l1 as [|o l1 IH]; intros e; [done|]. cbn [app ep_exec]. rewrite cbind_assoc. unfold cbind at 1 2.
  destruct (ep_do o e) as [[[] e1]|]; [apply IH|done].
Qed.

(** Threads registered, nothing unlinked yet; [init] is what [localEpoche] holds at first. *)
Definition epoche_start (threads : list nat) (init : nat -> Z) (th : Z) : Epoche :=
  mkEpoche 0 (list_to_map ((fun t => (t, mkDL [] [] 0 (init t) 0 0 0)) <$> threads)) th [].

(** ** The operations return, and lose no node *)

Lemma ep_do_run o e :
  ep_ok e -> is_Some (deletionLists e !! op_thread o) ->
  exists e' rel, ep_do o e = Ok (tt, e') /\ ep_step e e' (op_marks o) rel.
Proof.
  intros He Ht. destruct o as [t|n t|t|t]; cbn [ep_do op_thread op_marks] in *.
  - destruct (enterEpoche_run t e He Ht) as (e' & H & Hs). eauto.
  - destruct (markNodeForDeletion_run n t e He Ht) as (e' & H & Hs). eauto.
  - by apply exitEpocheAndCleanup_run.
  - destruct (ThreadInfo_delete_run t e He Ht) as (e' & H & Hs). eauto.
Qed.

Lemma ep_exec_run ops : forall e,
  ep_ok e -> Forall (fun o => is_Some (deletionLists e !! op_thread o)) ops ->
  exists e', ep_exec ops e = Ok (tt, e') /\ ep_ok e' /\ dom (deletionLists e') = dom (deletionLists e) /\
    released e' ++ pending (deletionLists e') ≡ₚ (ops ≫= op_marks) ++ released e ++ pending (deletionLists e).
Proof.
  induction ops as [|o ops IH]; intros e He Hf; [by exists e|]. apply list.Forall_cons in Hf as [Ho Hf].
  destruct (ep_do_run o e He Ho) as (e1 & rel & H1 & (He1 & Hd1 & Hr1 & Hp1)).
  destruct (IH e1 He1) as (e' & H2 & He' & Hd2 & Hp2).
  { eapply list.Forall_impl; [exact Hf|]. cbn. intros x Hx. apply elem_of_dom. rewrite Hd1. by apply elem_of_dom. }
  exists e'. cbn [ep_exec]. rewrite (cbind_Ok _ _ _ _ _ H1). split; [done|]. split; [done|]. split; [congruence|].
  rewrite Hp2, Hr1. cbn [mbind list_bind]. rewrite <- !app_assoc, <- Hp1.
  rewrite (Permutation_app_swap_app (released e)). apply Permutation_app_swap_app.
Qed.

Lemma epoche_start_ok threads init th : ep_ok (epoche_start threads init th) /\ pending (deletionLists (epoche_start threads init th)) = [] /\
  forall t, t ∈ threads -> is_Some (deletionLists (epoche_start threads init th) !! t).
Proof.
  assert (H : forall t d, deletionLists (epoche_start threads init th) !! t = Some d -> d = mkDL [] [] 0 (init t) 0 0 0).
  { intros t d Hd%elem_of_list_to_map_2. apply list_elem_of_fmap in Hd as (x & E & _). by injection E as -> ->. }
  split_and!.
  - intros t d ->%H. by split; apply list.Forall_nil.
  - unfold pending. assert (Hall : forall td, td ∈ map_to_list (deletionLists (epoche_start threads init th)) -> dl_nodes td.2 = []).
    { intros [t d] Hin%elem_of_map_to_list. by rewrite (H t d Hin). }
    revert Hall. generalize (map_to_list (deletionLists (epoche_start threads init th))). intros l Hall.
    induction l as [|td l IH]; [done|]. cbn. rewrite (Hall td) by left. apply IH. intros x Hx. apply Hall. by right.
  - clear H. intros t Ht. cbn. induction threads as [|x l IH]; [by apply elem_of_nil in Ht|]. cbn.
    destruct (decide (x = t)) as [->|Hne]; [rewrite lookup_insert_eq; by eexists|]. rewrite lookup_insert_ne by done.
    apply elem_of_cons in Ht as [->|Ht]; [done|by apply IH].
Qed.

(** ** A node that is kept *)

Section kept.
Context (n c : Z).

(** The list has the node, in a label whose epoch is [c] or later. *)
Definition dl_keeps (d : DeletionList) : Prop := exists l, l ∈ headDeletionList d /\ n ∈ label_nodes l /\ c <= lepoche l.

Lemma dl_keeps_same d d' : headDeletionList d' = headDeletionList d -> dl_keeps d -> dl_keeps d'.
Proof. intros E (l & H). exists l. by rewrite E. Qed.

Lemma add_keeps m e d d' :
  dl_ok d -> DeletionList_add m e d = Ok (tt, d') -> c <= e -> dl_keeps d \/ m = n -> dl_keeps d' /\ localEpoche d' = localEpoche d.
Proof.
  intros [Hh Hf] Ha He Hk. unfold DeletionList_add in Ha.
  assert (Hlab : forall label rest free, (if (0 <=? nodesCount label) && (nodesCount label <? Z.of_nat (length (lnodes label))) then
      Ok (tt, mkDL (mkLabel (<[Z.to_nat (nodesCount label) := m]> (lnodes label)) e (nodesCount label + 1) :: rest) free
        (u64 (deletitionListCount d + 1)) (localEpoche d) (thresholdCounter d) (deleted d) (u64 (added d + 1)))
      else Err UB_access) = Ok (tt, d') ->
    (m = n \/ n ∈ label_nodes label \/ exists l, l ∈ rest /\ n ∈ label_nodes l /\ c <= lepoche l) -> dl_keeps d' /\ localEpoche d' = localEpoche d).
  { intros label rest free E Hn. destruct (Z.leb_spec 0 (nodesCount label)), (Z.ltb_spec (nodesCount label) (Z.of_nat (length (lnodes label)))); try done.
    cbn [andb] in E. injection E as <-. split; [|done]. destruct Hn as [->|[Hn|(l & Hl & Hn)]].
    - eexists. split; [left|]. cbn [lepoche]. split; [|done]. unfold label_nodes. cbn [nodesCount lnodes].
      apply (list_elem_of_lookup_2 _ (Z.to_nat (nodesCount label))). rewrite lookup_take_lt by lia. apply list_lookup_insert_eq. lia.
    - eexists. split; [left|]. cbn [lepoche]. split; [|done]. unfold label_nodes in *. cbn [nodesCount lnodes].
      apply list_elem_of_lookup in Hn as (i & Hi). pose proof (lookup_lt_Some _ _ _ Hi) as Hlt. rewrite length_take in Hlt.
      rewrite lookup_take_lt in Hi by lia. apply (list_elem_of_lookup_2 _ i). rewrite lookup_take_lt by lia. by rewrite list_lookup_insert_ne by lia.
    - exists l. split; [by right|done]. }
  destruct (headDeletionList d) as [|l rest] eqn:Eh.
  - assert (m = n) as -> by (destruct Hk as [(l & Hl & _)|]; [rewrite Eh in Hl; by apply elem_of_nil in Hl|done]).
    destruct (freeLabelDeletes d) as [|f free]; [apply (Hlab new_LabelDelete [] [] Ha)|apply (Hlab (mkLabel (lnodes f) (lepoche f) 0) [] free Ha)]; by left.
  - assert (Hn : m = n \/ n ∈ label_nodes l \/ exists l, l ∈ rest /\ n ∈ label_nodes l /\ c <= lepoche l).
    { destruct Hk as [(l0 & Hl & H1 & H2)| ->]; [|by left]. rewrite Eh in Hl. apply elem_of_cons in Hl as [->|Hl]; [by right; left|]. right. right. eauto. }
    destruct (nodesCount l <? Z.of_nat (length (lnodes l))) eqn:Ec; [by apply (Hlab l rest (freeLabelDeletes d) Ha)|].
    assert (Hk' : m = n \/ exists l', l' ∈ l :: rest /\ n ∈ label_nodes l' /\ c <= lepoche l').
    { destruct Hk as [(l0 & Hl & H1 & H2)| ->]; [|by left]. rewrite Eh in Hl. right. eauto. }
    destruct (freeLabelDeletes d) as [|f free]; [apply (Hlab new_LabelDelete (l :: rest) [] Ha)|apply (Hlab (mkLabel (lnodes f) (lepoche f) 0) (l :: rest) free Ha)];
      destruct Hk' as [?|?]; auto.
Qed.

(** What has to hold for the node not to be released while [t] is where it is; without [W] only
    what concerns [t]. *)
Context (W : Prop).

Definition kept (t : nat) (e : Epoche) : Prop :=
  (W -> exists u d, deletionLists e !! u = Some d /\ dl_keeps d) /\
  (exists d, deletionLists e !! t = Some d /\ localEpoche d <= c) /\ c <= currentEpoche e.

Lemma kept_update t u e d d' cur th rel :
  kept t e -> u <> t -> deletionLists e !! u = Some d -> (dl_keeps d -> dl_keeps d') -> currentEpoche e <= cur ->
  kept t (mkEpoche cur (<[u := d']> (deletionLists e)) th rel).
Proof.
  intros (Hw & (dt & Ht & Hle) & Hc) Hne Hd Hkeep Hcur. split_and!; cbn.
  - intros HW. destruct (Hw HW) as (v & dv & Hv & Hk). destruct (decide (v = u)) as [->|Hvu].
    + exists u, d'. rewrite lookup_insert_eq. split; [done|]. apply Hkeep. congruence.
    + exists v, dv. by rewrite lookup_insert_ne.
  - exists dt. by rewrite lookup_insert_ne.
  - lia.
Qed.

Lemma on_list_inv {A} u (mt : stM DeletionList A) e x e' :
  on_list u mt e = Ok (x, e') -> exists d d', deletionLists e !! u = Some d /\ mt d = Ok (x, d') /\
    e' = mkEpoche (currentEpoche e) (<[u := d']> (deletionLists e)) (startGCThreshhold e) (released e).
Proof.
  unfold on_list. destruct (deletionLists e !! u) as [d|] eqn:Ed; [|done]. destruct (mt d) as [[y d']|] eqn:Em; [|done].
  intros E. injection E as <- <-. eauto.
Qed.

(** A change of a field of the list that is not the labels. *)
Lemma kept_field t u e e' (f : DeletionList -> DeletionList) :
  kept t e -> u <> t -> (forall d, headDeletionList (f d) = headDeletionList d) -> on_list u (cmod f) e = Ok (tt, e') ->
  kept t e' /\ currentEpoche e' = currentEpoche e.
Proof.
  intros Hk Hne Hf (d & d' & Hd & E & ->)%on_list_inv. injection E as <-. split; [|done].
  apply (kept_update t u e d); try done. apply dl_keeps_same, Hf.
Qed.

Lemma oldest_le ls t d : ls !! t = Some d -> oldestEpoche ls <= localEpoche d.
Proof.
  intros Hd%elem_of_map_to_list. unfold oldestEpoche. set (f := fun (oldest : Z) (td : nat * DeletionList) => _).
  assert (Hmono : forall l acc, foldl f acc l <= acc).
  { induction l as [|x l IH]; intros acc; [cbn; lia|]. cbn. etransitivity; [apply IH|]. unfold f. destruct (Z.ltb_spec (localEpoche x.2) acc); lia. }
  revert Hd. generalize (map_to_list ls), EPOCHE_MAX. induction l as [|x l IH]; intros acc Hd; [by apply elem_of_nil in Hd|].
  cbn. apply elem_of_cons in Hd as [<-|Hd]; [|by apply IH].
  etransitivity; [apply Hmono|]. unfold f. cbn. destruct (Z.ltb_spec (localEpoche d) acc); lia.
Qed.

Lemma cleanup_keeps t u oldest fuel : forall pos e e',
  oldest <= c -> u <> t -> kept t e -> cleanup fuel oldest u pos e = Ok (tt, e') -> kept t e' /\ currentEpoche e' = currentEpoche e.
Proof.
  induction fuel as [|fuel IH]; intros pos e e' Ho Hne Hk Hr; [done|]. cbn [cleanup] in Hr.
  apply cbind_inv in Hr as (d & e1 & H1 & Hr). apply on_list_inv in H1 as (d0 & d1 & Hd & E & ->). injection E as -> <-.
  rewrite insert_id in Hr by done. destruct e as [cur ls th rl]. cbn [currentEpoche deletionLists startGCThreshhold released] in *.
  destruct (headDeletionList d !! pos) as [l|] eqn:El; [|by injection Hr as <-].
  destruct (Z.ltb_spec (lepoche l) oldest) as [Hlt|Hge]; [|by apply (IH (S pos) (mkEpoche cur ls th rl) e')].
  rewrite (cbind_Ok _ _ _ _ _ (operator_delete_run _ _)) in Hr. cbn [currentEpoche deletionLists startGCThreshhold released] in Hr.
  apply cbind_inv in Hr as ([] & e2 & H2 & Hr). apply on_list_inv in H2 as (d2 & d3 & Hd2 & E & ->). cbn in Hd2. rewrite Hd in Hd2. injection Hd2 as <-.
  unfold DeletionList_remove in E. rewrite El in E. injection E as <-. cbn [currentEpoche deletionLists startGCThreshhold released] in Hr.
  apply IH in Hr; [exact Hr|done|done|]. apply (kept_update t u (mkEpoche cur ls th rl) d); try done.
  intros (l0 & Hl0 & Hn & Hc). exists l0. split; [|done]. cbn [headDeletionList].
  rewrite (delete_Permutation _ _ _ El) in Hl0. apply elem_of_cons in Hl0 as [->|Hl0]; [lia|done].
Qed.

Lemma exit_keeps t u e e' :
  kept t e -> u <> t -> 0 <= currentEpoche e < 2 ^ 64 - 1 -> exitEpocheAndCleanup u e = Ok (tt, e') ->
  kept t e' /\ currentEpoche e <= currentEpoche e' <= currentEpoche e + 1.
Proof.
  intros Hk Hne Hb Hr. unfold exitEpocheAndCleanup in Hr. apply cbind_inv in Hr as (d & e0 & H0 & Hr).
  apply on_list_inv in H0 as (d0 & d1 & Hd & E & ->). injection E as -> <-. rewrite insert_id in Hr by done.
  destruct e as [cur ls th rl]. cbn [currentEpoche deletionLists startGCThreshhold released] in *.
  apply cbind_inv in Hr as ([] & e1 & H1 & Hr).
  assert (H1' : exists cur1, e1 = mkEpoche cur1 ls th rl /\ cur <= cur1 <= cur + 1).
  { destruct (Z.land (thresholdCounter d) (64 - 1) =? 1); injection H1 as <-; eexists; (split; [reflexivity|]); [|lia]. rewrite u64_small; lia. }
  destruct H1' as (cur1 & -> & Hcur). assert (Hk1 : kept t (mkEpoche cur1 ls th rl)).
  { destruct Hk as (H2 & H3 & H4). split_and!; try done. cbn in *. lia. }
  apply cbind_inv in Hr as (th' & e2 & H2 & Hr). injection H2 as <- <-. cbn [startGCThreshhold] in Hr. destruct (th <? thresholdCounter d).
  2: { injection Hr as <-. cbn. split; [done|lia]. }
  destruct (DeletionList_size d =? 0).
  - apply (kept_field t u) in Hr as [Hr Hc]; try done. rewrite Hc. cbn. split; [done|lia].
  - apply cbind_inv in Hr as ([] & e3 & H3 & Hr). apply (kept_field t u) in H3 as [Hk3 Hc3]; try done.
    apply cbind_inv in Hr as (old & e4 & H4 & Hr). injection H4 as <- <-. apply cbind_inv in Hr as ([] & e5 & H5 & Hr).
    apply (cleanup_keeps t u) in H5 as [Hk5 Hc5]; try done.
    + apply (kept_field t u) in Hr as [Hk6 Hc6]; try done. rewrite Hc6, Hc5, Hc3. cbn. split; [done|lia].
    + destruct Hk3 as (_ & (dt & Hdt & Hle) & _). etransitivity; [apply (oldest_le _ _ _ Hdt)|done].
Qed.

Lemma mark_keeps t u m e e' :
  ep_ok e -> markNodeForDeletion m u e = Ok (tt, e') -> u <> t -> kept t e -> kept t e' /\ currentEpoche e' = currentEpoche e.
Proof.
  intros He Hr Hne Hk. unfold markNodeForDeletion in Hr. apply cbind_inv in Hr as (cur & e0 & H0 & Hr). injection H0 as <- <-.
  apply cbind_inv in Hr as ([] & e1 & H1 & Hr). apply on_list_inv in H1 as (d & d' & Hd & Ha & ->).
  apply (kept_field t u) in Hr as [Hk2 Hc2]; try done. apply (kept_update t u e d); try done.
  intros Hkd. apply (add_keeps m (currentEpoche e) d); [by apply (He u)|done|apply Hk|by left].
Qed.

Lemma ep_do_keeps t o e e' :
  ep_ok e -> kept t e -> op_thread o <> t -> 0 <= currentEpoche e < 2 ^ 64 - 1 -> ep_do o e = Ok (tt, e') ->
  kept t e' /\ currentEpoche e <= currentEpoche e' <= currentEpoche e + 1.
Proof.
  intros He Hk Hne Hb Hr. destruct o as [u|m u|u|u]; cbn [ep_do op_thread] in *.
  - unfold enterEpoche in Hr. apply cbind_inv in Hr as (cur & e0 & H0 & Hr). injection H0 as <- <-.
    apply (kept_field t u) in Hr as [Hk2 Hc2]; try done. split; [done|lia].
  - apply (mark_keeps t u m) in Hr as [Hk2 Hc2]; try done. split; [done|lia].
  - by apply (exit_keeps t u).
  - apply (kept_field t u) in Hr as [Hk2 Hc2]; try done. split; [done|lia].
Qed.

Lemma ep_exec_keeps t ops : forall e e',
  ep_ok e -> Forall (fun o => is_Some (deletionLists e !! op_thread o)) ops -> kept t e -> Forall (fun o => op_thread o <> t) ops ->
  0 <= currentEpoche e -> currentEpoche e + Z.of_nat (length ops) < 2 ^ 64 - 1 -> ep_exec ops e = Ok (tt, e') -> kept t e'.
Proof.
  induction ops as [|o ops IH]; intros e e' He Hreg Hk Hne H0 Hb Hr; [by injection Hr as <-|]. cbn [ep_exec length] in *.
  apply list.Forall_cons in Hreg as [Ho Hreg], Hne as [Hn1 Hne]. destruct (ep_do_run o e He Ho) as (e1 & rel & H1 & (He1 & Hd1 & _)).
  rewrite (cbind_Ok _ _ _ _ _ H1) in Hr. destruct (ep_do_keeps t o e e1 He Hk Hn1 ltac:(lia) H1) as [Hk1 Hc1].
  apply (IH e1 e'); try done; try lia. eapply list.Forall_impl; [exact Hreg|]. cbn. intros x Hx. apply elem_of_dom. rewrite Hd1. by apply elem_of_dom.
Qed.

End kept.

(** ** The theorem *)

Lemma on_list_current {A} u (mt : stM DeletionList A) e x e' : on_list u mt e = Ok (x, e') -> currentEpoche e' = currentEpoche e.
Proof. intros (d & d' & _ & _ & ->)%on_list_inv. done. Qed.

Lemma cleanup_current u oldest fuel : forall pos e e', cleanup fuel oldest u pos e = Ok (tt, e') -> currentEpoche e' = currentEpoche e.
Proof.
  induction fuel as [|fuel IH]; intros pos e e' Hr; [done|]. cbn [cleanup] in Hr. apply cbind_inv in Hr as (d & e1 & H1 & Hr).
  apply on_list_current in H1. destruct (headDeletionList d !! pos) as [l|]; [|by injection Hr as <-].
  destruct (lepoche l <? oldest); [|apply IH in Hr; congruence]. rewrite (cbind_Ok _ _ _ _ _ (operator_delete_run _ _)) in Hr.
  apply cbind_inv in Hr as ([] & e2 & H2 & Hr). apply on_list_current in H2. apply IH in Hr. cbn in H2. congruence.
Qed.

(** The global epoch goes up by at most one in an operation. *)
Lemma ep_do_current o e e' :
  0 <= currentEpoche e < 2 ^ 64 - 1 -> ep_do o e = Ok (tt, e') -> currentEpoche e <= currentEpoche e' <= currentEpoche e + 1.
Proof.
  intros Hb Hr. destruct o as [u|m u|u|u]; cbn [ep_do] in Hr.
  - unfold enterEpoche in Hr. apply cbind_inv in Hr as (cur & e0 & H0 & Hr). injection H0 as <- <-. apply on_list_current in Hr. lia.
  - unfold markNodeForDeletion in Hr. apply cbind_inv in Hr as (cur & e0 & H0 & Hr). injection H0 as <- <-.
    apply cbind_inv in Hr as ([] & e1 & H1 & Hr). apply on_list_current in H1, Hr. lia.
  - unfold exitEpocheAndCleanup in Hr. apply cbind_inv in Hr as (d & e0 & H0 & Hr). apply on_list_current in H0.
    apply cbind_inv in Hr as ([] & e1 & H1 & Hr).
    assert (Hc : currentEpoche e <= currentEpoche e1 <= currentEpoche e + 1).
    { destruct (_ =? 1); injection H1 as <-; cbn; [|lia]. rewrite H0, u64_small; lia. }
    apply cbind_inv in Hr as (th & e2 & H2 & Hr). injection H2 as _ <-. destruct (th <? thresholdCounter d); [|by injection Hr as <-].
    destruct (DeletionList_size d =? 0); [apply on_list_current in Hr; lia|].
    apply cbind_inv in Hr as ([] & e3 & H3 & Hr). apply cbind_inv in Hr as (old & e4 & H4 & Hr). injection H4 as _ <-.
    apply cbind_inv in Hr as ([] & e5 & H5 & Hr). apply cleanup_current in H5. apply on_list_current in H3, Hr. lia.
  - apply on_list_current in Hr. lia.
Qed.

Lemma ep_exec_current ops : forall e e',
  0 <= currentEpoche e -> currentEpoche e + Z.of_nat (length ops) < 2 ^ 64 - 1 -> ep_exec ops e = Ok (tt, e') ->
  currentEpoche e <= currentEpoche e' <= currentEpoche e + Z.of_nat (length ops).
Proof.
  induction ops as [|o ops IH]; intros e e' H0 Hb Hr; [injection Hr as <-; cbn; lia|]. cbn [ep_exec length] in *.
  apply cbind_inv in Hr as ([] & e1 & H1 & Hr). pose proof (ep_do_current o e e1 ltac:(lia) H1). apply IH in Hr; lia.
Qed.

Definition registered (e : Epoche) (ops : list ep_op) : Prop := Forall (fun o => is_Some (deletionLists e !! op_thread o)) ops.

Lemma registered_dom e e' ops : dom (deletionLists e') = dom (deletionLists e) -> registered e ops -> registered e' ops.
Proof. intros Hd Hf. eapply list.Forall_impl; [exact Hf|]. cbn. intros x Hx. apply elem_of_dom. rewrite Hd. by apply elem_of_dom. Qed.

Lemma kept_pending n c t e : kept n c True t e -> n ∈ pending (deletionLists e).
Proof.
  intros (Hk & _). destruct (Hk I) as (u & d & Hd & l & Hl & Hn & _). rewrite (pending_lookup _ _ _ Hd). apply elem_of_app. left.
  unfold dl_nodes. apply list_elem_of_bind. by exists l.
Qed.

(** The thread has just entered an operation. *)
Lemma enter_guards n t e e' : enterEpoche t e = Ok (tt, e') -> kept n (currentEpoche e) False t e' /\ currentEpoche e' = currentEpoche e.
Proof.
  unfold enterEpoche. intros Hr. apply cbind_inv in Hr as (cur & e0 & H0 & Hr). injection H0 as <- <-.
  apply on_list_inv in Hr as (d & d' & Hd & E & ->). injection E as <-. split; [|done]. split; [done|]. split; [|cbn; lia].
  eexists. cbn. rewrite lookup_insert_eq. split; [reflexivity|]. cbn. lia.
Qed.

(** The node is unlinked. *)
Lemma mark_guards n c t u e e' :
  ep_ok e -> kept n c False t e -> markNodeForDeletion n u e = Ok (tt, e') -> kept n (currentEpoche e) True t e' /\ currentEpoche e' = currentEpoche e.
Proof.
  intros He (_ & (dt & Hdt & Hle) & Hc) Hr. unfold markNodeForDeletion in Hr. apply cbind_inv in Hr as (cur & e0 & H0 & Hr). injection H0 as <- <-.
  apply cbind_inv in Hr as ([] & e1 & H1 & Hr). apply on_list_inv in H1 as (d & d1 & Hd & Ha & ->). apply on_list_inv in Hr as (d2 & d3 & Hd2 & E & ->).
  cbn [deletionLists] in Hd2. rewrite lookup_insert_eq in Hd2. injection Hd2 as <-. injection E as <-. cbn [currentEpoche deletionLists]. rewrite insert_insert_eq.
  destruct (add_keeps n (currentEpoche e) n (currentEpoche e) d d1 (He u d Hd) Ha ltac:(lia) ltac:(by right)) as [Hk1 Hl1]. split; [|done]. split_and!.
  - intros _. exists u. eexists. cbn [deletionLists]. rewrite lookup_insert_eq. split; [reflexivity|]. by apply (dl_keeps_same _ _ d1).
  - cbn [deletionLists]. destruct (decide (u = t)) as [->|Hne].
    + eexists. rewrite lookup_insert_eq. split; [reflexivity|]. cbn. rewrite Hl1. assert (dt = d) as -> by congruence. lia.
    + exists dt. rewrite lookup_insert_ne by done. split; [done|lia].
  - cbn. lia.
Qed.

(** C12: Safe reclamation. The operations of any number of threads on the epochs, interleaved in any
    order, return, and: when thread [t] has entered an operation and a node is unlinked before
    [t] does anything else, no other thread gets to release the node until [t] moves on. Nodes
    are taken to be unlinked once each, and there are fewer than [2^64] operations. *)
Theorem no_release_under_reader (threads : list nat) (init : nat -> Z) (th : Z) (t u : nat) (n : Z) (pre mid post : list ep_op) :
  let ops := pre ++ Enter t :: mid ++ Mark n u :: post in
  Forall (fun o => op_thread o ∈ threads) ops -> Z.of_nat (length ops) < 2 ^ 64 - 1 -> NoDup (ops ≫= op_marks) ->
  Forall (fun o => op_thread o <> t) mid -> Forall (fun o => op_thread o <> t) post ->
  exists e, ep_exec ops (epoche_start threads init th) = Ok (tt, e) /\ n ∉ released e.
Proof.
  intros ops Hth Hlen Hnd Hmid Hpost. destruct (epoche_start_ok threads init th) as (Hok & Hpe & Hreg). set (e0 := epoche_start threads init th) in *.
  assert (Hall : registered e0 ops) by (eapply list.Forall_impl; [exact Hth|]; cbn; intros o Ho; by apply Hreg).
  destruct (ep_exec_run ops e0 Hok Hall) as (e & Hrun & _ & _ & Hperm). exists e. split; [done|]. rewrite Hpe in Hperm. cbn in Hperm. rewrite app_nil_r in Hperm.
  assert (Hpend : n ∈ pending (deletionLists e)).
  2: { rewrite <- Hperm in Hnd. apply list.NoDup_app in Hnd as (_ & Hd & _). intros Hin. by apply (Hd n). }
  unfold ops in Hall, Hrun, Hlen. apply list.Forall_app in Hall as [Hr1 Hall]. apply list.Forall_cons in Hall as [Hrt Hall].
  apply list.Forall_app in Hall as [Hr2 Hall]. apply list.Forall_cons in Hall as [Hru Hr3]. rewrite !length_app in Hlen. cbn [length] in Hlen.
  rewrite length_app in Hlen. cbn [length] in Hlen. rewrite ep_exec_app in Hrun.
  destruct (ep_exec_run pre e0 Hok Hr1) as (e1 & H1 & Ho1 & Hd1 & _). rewrite (cbind_Ok _ _ _ _ _ H1) in Hrun. cbn [ep_exec] in Hrun.
  apply ep_exec_current in H1; [|cbn; lia|cbn; lia]. change (currentEpoche e0) with 0 in H1.
  apply cbind_inv in Hrun as ([] & e2 & H2 & Hrun). pose proof (registered_dom _ _ [Enter t] Hd1 ltac:(by apply list.Forall_cons; split; [|apply list.Forall_nil])) as Hrt1.
  apply list.Forall_cons in Hrt1 as [Hrt1 _]. destruct (ep_do_run (Enter t) e1 Ho1 Hrt1) as (e2' & rel & H2' & (Ho2 & Hd2 & _)). rewrite H2 in H2'. injection H2' as <-.
  destruct (enter_guards n t e1 e2 H2) as [Hk2 Hc2]. rewrite ep_exec_app in Hrun.
  assert (Hr2' : registered e2 mid) by (apply (registered_dom e0); [congruence|done]).
  destruct (ep_exec_run mid e2 Ho2 Hr2') as (e3 & H3 & Ho3 & Hd3 & _). rewrite (cbind_Ok _ _ _ _ _ H3) in Hrun. cbn [ep_exec] in Hrun.
  apply (ep_exec_keeps n (currentEpoche e1) False t mid e2 e3) in Hk2 as Hk3; try done; try lia.
  apply ep_exec_current in H3; [|lia|lia].
  apply cbind_inv in Hrun as ([] & e4 & H4 & Hrun). destruct (mark_guards n _ t u e3 e4 Ho3 Hk3 H4) as [Hk4 Hc4].
  assert (Hru3 : is_Some (deletionLists e3 !! u)) by (apply elem_of_dom; rewrite Hd3, Hd2, Hd1; by apply elem_of_dom).
  destruct (ep_do_run (Mark n u) e3 Ho3 Hru3) as (e4' & rel' & H4' & (Ho4 & Hd4 & _)). rewrite H4 in H4'. injection H4' as <-.
  apply (kept_pending n (currentEpoche e3) t). apply (ep_exec_keeps n _ True t post e4 e); try done; try lia.
  apply (registered_dom e0); [congruence|done].
Qed.

Lemma no_release_under_reader_witness :
  exists e, ep_exec ([] ++ Enter 0 :: [Enter 1] ++ Mark 64 1 :: [Exit 1; Enter 1; Exit 1]) (epoche_start [0; 1]%nat (fun _ => 0) 0) = Ok (tt, e) /\ 64 ∉ released e.
Proof.
  apply (no_release_under_reader [0; 1]%nat (fun _ => 0) 0 0 1 64 [] [Enter 1] [Exit 1; Enter 1; Exit 1]).
  - repeat (apply list.Forall_cons; split; [cbn; set_solver|]). by apply list.Forall_nil.
  - cbn. lia.
  - cbn. apply NoDup_singleton.
  - repeat (apply list.Forall_cons; split; [cbn; lia|]). by apply list.Forall_nil.
  - repeat (apply list.Forall_cons; split; [cbn; lia|]). by apply list.Forall_nil.
Defined.
