(* ===== verification/ArtTree.v ===== *)
(** * P-ART: the tree

    [src/RECIPE/P-ART/Tree.h] and [Tree.cpp], the operations of [N.cpp] that concern more than one
    node, and [src/RECIPE/Key.h]. The state is the heap of nodes, the heap of keys (the leaves),
    the root, the epochs, and [hist]: the node heap at every [sfence], oldest first, which is
    what a crash at that point leaves when earlier stores have reached memory.

    [operator new] and [posix_memalign] are a parameter ([Allocator]) that answers with memory
    that is not in use. The operations of one thread [t] are run without interruption. *)

From S2P Require Import Prelude ArtNode Epoche.
#[local] Open Scope Z_scope.
#[local] Open Scope cmd_scope.

(** ** State *)

Record Key := mkKey { value : Z; key_len : Z; fkey : list Z }.

Record art := mkArt {
  nodes : gmap Z NodeN;
  keys : gmap Z Key;
  root : Z;
  epoche : Epoche;
  hist : list (gmap Z NodeN);
  lock_initializer : list Z }.

(** [new_addr h size] is where [operator new] puts an object of [size] bytes when [h] is in use,
    [memalign_addr] the same for [posix_memalign] with an alignment of 64. [junk a n] is what
    [n] bytes of fresh memory at [a] hold. *)
Class Allocator := {
  new_addr : gset Z -> Z -> Z;
  memalign_addr : gset Z -> Z -> Z;
  junk : Z -> nat -> list Z;
  new_addr_fresh : forall h size, new_addr h size ∉ h;
  new_addr_aligned : forall h size, 0 < new_addr h size /\ new_addr h size mod 16 = 0;
  memalign_addr_fresh : forall h size, memalign_addr h size ∉ h;
  memalign_addr_aligned : forall h size, 0 < memalign_addr h size /\ memalign_addr h size mod 64 = 0;
  junk_length : forall a n, length (junk a n) = n;
  junk_bytes : forall a n, Forall (fun b => 0 <= b < 256) (junk a n) }.

Definition set_nodes (s : art) h := mkArt h (keys s) (root s) (epoche s) (hist s) (lock_initializer s).
Definition set_keys (s : art) h := mkArt (nodes s) h (root s) (epoche s) (hist s) (lock_initializer s).
Definition set_epoche (s : art) e := mkArt (nodes s) (keys s) (root s) e (hist s) (lock_initializer s).

(** A method called on the node at [a]. *)
Definition at_node {A} (a : Z) (m : stM NS A) : stM art A := fun s =>
  match nodes s !! a with
  | None => Err UB_access
  | Some n =>
      match m (mkNS n []) with
      | Err e => Err e
      | Ok (r, ns) =>
          Ok (r, mkArt (<[a := self ns]> (nodes s)) (keys s) (root s) (epoche s)
                       (hist s ++ ((fun x => <[a := x]> (nodes s)) <$> flushed ns)) (lock_initializer s))
      end
  end.

(** A [clflush] of something that is not a node ends with a fence too. *)
Definition art_clflush : stM art unit :=
  cmod (fun s => mkArt (nodes s) (keys s) (root s) (epoche s) (hist s ++ [nodes s]) (lock_initializer s)).

Definition delete_N (a : Z) : stM art unit := fun s =>
  match nodes s !! a with
  | None => Err UB_free
  | Some _ => Ok (tt, set_nodes s (delete a (nodes s)))
  end.

(** An operation of the epochs; the nodes it releases are deleted. *)
Definition on_epoche (m : stM Epoche unit) : stM art unit := fun s =>
  match m (epoche s) with
  | Err e => Err e
  | Ok (_, ep) =>
      cfor (drop (length (released (epoche s))) (released ep)) delete_N (set_epoche s ep)
  end.

(** ** Keys *)

Definition getKeyLen (k : Z) : stM art Z := fun s =>
  match keys s !! k with Some x => Ok (key_len x, s) | None => Err UB_access end.

(** [k->fkey[i]] *)
Definition key_byte (k i : Z) : stM art Z := fun s =>
  match keys s !! k with Some x => arr_get (fkey x) i s | None => Err UB_access end.

Definition sizeof_Key : Z := 16.

Section alloc.
Context `{Allocator}.

Definition make_leaf (key : list Z) (key_len value : Z) : stM art Z := fun s =>
  let a := memalign_addr (dom (keys s)) (sizeof_Key + key_len) in
  if (0 <=? key_len) && (key_len <=? Z.of_nat (length key))
  then Ok (a, set_keys s (<[a := mkKey value key_len (take (Z.to_nat key_len) key)]> (keys s)))
  else Err UB_access.

(** The eight bytes of [x], the most significant one first. *)
Definition bswap64_bytes (x : Z) : list Z :=
  (fun i => Z.land (Z.shiftr x (8 * i)) 255) <$> [7; 6; 5; 4; 3; 2; 1; 0].

Definition make_leaf_u64 (key key_len value : Z) : stM art Z := fun s =>
  let a := memalign_addr (dom (keys s)) (sizeof_Key + key_len) in
  if 8 <=? key_len
  then Ok (a, set_keys s (<[a := mkKey value key_len (bswap64_bytes key ++ junk (a + 24) (Z.to_nat (key_len - 8)))]> (keys s)))
  else Err UB_access.

(** ** Nodes *)

Definition sizeof_N (b : Body) : Z :=
  match b with B4 _ _ => 64 | B16 _ _ => 168 | B48 _ _ => 664 | B256 _ => 2072 end.

(** [new C(..)]: the constructed object at a new address. *)
Definition new_N (n : NodeN) : stM art Z := fun s =>
  let a := new_addr (dom (nodes s)) (sizeof_N (body n)) in
  Ok (a, mkArt (<[a := n]> (nodes s)) (keys s) (root s) (epoche s) (hist s) (lock_initializer s ++ [a])).

Fixpoint getAnyChildTid_loop (fuel : nat) (nextNode : Z) : stM art Z :=
  match fuel with
  | O => cfail OutOfFuel
  | S fuel' =>
      nextNode <- at_node nextNode N_getAnyChild;
      cassert (negb (nextNode =? 0));;
      if isLeaf nextNode then cret (getLeaf nextNode) else getAnyChildTid_loop fuel' nextNode
  end.

(** A path visits each node once. *)
Definition getAnyChildTid (n : Z) : stM art Z := fun s => getAnyChildTid_loop (S (size (nodes s))) n s.

(** The end of [insertGrow], [insertCompact] and [removeAndShrink]: the node [nNew] takes the place
    of [n] in its locked parent. *)
Definition swapIn (nNew parentNode keyParent n : Z) (t : nat) : stM art unit :=
  at_node nNew (N_clflush false true);;
  at_node parentNode (N_change keyParent nNew);;
  at_node parentNode writeUnlock;;
  at_node n writeUnlockObsolete;;
  on_epoche (markNodeForDeletion n t).

Definition insertGrow (cur big : NodeClass) (n parentNode keyParent key val : Z) (t : nat) : stM art bool :=
  ok <- at_node n (nc_insert cur key val true);
  if ok : bool then at_node n writeUnlock;; cret false
  else
    src <- at_node n (load id);
    nBig <- new_N (nc_new big (level src) (pfx src));
    at_node nBig (nc_copyTo cur src (nc_insert big));;
    at_node nBig (nc_insert big key val false);;
    needRestart <- at_node parentNode writeLockOrRestart;
    if needRestart : bool then delete_N nBig;; at_node n writeUnlock;; cret true
    else
      swapIn nBig parentNode keyParent n t;;
      cret false.

(** The pair tells whether the insertion was done, and whether to restart. *)
Definition insertCompact (cur : NodeClass) (n parentNode keyParent key val : Z) (t : nat) : stM art (bool * bool) :=
  src <- at_node n (load id);
  nNew <- new_N (nc_new cur (level src) (pfx src));
  at_node nNew (nc_copyTo cur src (nc_insert cur));;
  ok <- at_node nNew (nc_insert cur key val false);
  if negb ok then delete_N nNew;; cret (false, false)
  else
    needRestart <- at_node parentNode writeLockOrRestart;
    if needRestart : bool then delete_N nNew;; at_node n writeUnlock;; cret (true, true)
    else
      swapIn nNew parentNode keyParent n t;;
      cret (true, false).

(** One case of the switch of [insertAndUnlock]: a node that looks full is compacted when
    [holes] says that it has free slots, and grows otherwise. *)
Definition insertCase (cur big : NodeClass) (cap : Z) (holes : Z -> bool)
    (node parentNode keyParent key val : Z) (t : nat) : stM art bool :=
  cc <- at_node node (load compactCount);
  c <- at_node node (load count);
  if (cc =? cap) && holes c then
    r <- insertCompact cur node parentNode keyParent key val t;
    if r.1 : bool then cret r.2 else insertGrow cur big node parentNode keyParent key val t
  else insertGrow cur big node parentNode keyParent key val t.

Definition insertAndUnlock (node parentNode keyParent key val : Z) (t : nat) : stM art bool :=
  ty <- at_node node getType;
  if ty =? NT4 then insertCase C4 C16 4 (fun c => c <=? 3) node parentNode keyParent key val t
  else if ty =? NT16 then insertCase C16 C48 16 (fun c => c <=? 14) node parentNode keyParent key val t
  else if ty =? NT48 then insertCase C48 C256 48 (fun c => negb (c =? 48)) node parentNode keyParent key val t
  else
    ok <- at_node node (N256_insert key val true);
    if ok : bool then at_node node writeUnlock;; cret false
    else r <- insertCompact C256 node parentNode keyParent key val t; cret r.2.

Definition removeAndShrink (cur small : NodeClass) (n parentNode keyParent key : Z) (t : nat) : stM art bool :=
  ok <- at_node n (nc_remove cur key (parentNode =? 0) true);
  if ok : bool then at_node n writeUnlock;; cret false
  else
    src <- at_node n (load id);
    nSmall <- new_N (nc_new small (level src) (pfx src));
    needRestart <- at_node parentNode writeLockOrRestart;
    if needRestart : bool then delete_N nSmall;; at_node n writeUnlock;; cret true
    else
      at_node n (nc_remove cur key true true);;
      src' <- at_node n (load id);
      at_node nSmall (nc_copyTo cur src' (nc_insert small));;
      swapIn nSmall parentNode keyParent n t;;
      cret false.

Definition removeAndUnlock (node key parentNode keyParent : Z) (t : nat) : stM art bool :=
  ty <- at_node node getType;
  if ty =? NT4 then at_node node (N4_remove key false true);; at_node node writeUnlock;; cret false
  else if ty =? NT16 then removeAndShrink C16 C4 node parentNode keyParent key t
  else if ty =? NT48 then removeAndShrink C48 C16 node parentNode keyParent key t
  else removeAndShrink C256 C48 node parentNode keyParent key t.

(** ** Prefixes *)

(** A loop that threads a local variable and may leave early. *)
Fixpoint cloop {S A L R} (l : list A) (bd : A -> L -> stM S (L + R)) (acc : L) : stM S (L + R) :=
  match l with
  | [] => cret (inl acc)
  | a :: l' => r <- bd a acc; match r with inl acc' => cloop l' bd acc' | inr x => cret (inr x) end
  end.

(** [p.prefix[i]] *)
Definition prefix_byte (p : Prefix) (i : Z) : stM art Z :=
  b <- arr_get (prefixBytes p) i; match b with Some x => cret x | None => cfail UB_access end.

Inductive CheckPrefixResult := CP_Match | CP_NoMatch | CP_OptimisticMatch.

(** The second component is the new [level]. *)
Definition checkPrefix (n k level : Z) : stM art (CheckPrefixResult * Z) :=
  kl <- getKeyLen k;
  lv <- at_node n getLevel;
  if kl <=? lv then cret (CP_NoMatch, level)
  else
    p <- at_node n getPrefi;
    if u32 (prefixCount p + level) <? lv then cret (CP_OptimisticMatch, lv)
    else if 0 <? prefixCount p then
      let start := u32 (level + prefixCount p - lv) in
      r <- cloop (seqZ start (Z.min (prefixCount p) maxStoredPrefixLength - start)) (fun i level =>
             b <- prefix_byte p i;
             kb <- key_byte k level;
             if b =? kb then cret (inl (u32 (level + 1))) else cret (inr level)) level;
      match r with
      | inr level => cret (CP_NoMatch, level)
      | inl level =>
          if maxStoredPrefixLength <? prefixCount p
          then cret (CP_OptimisticMatch, u32 (level + (prefixCount p - maxStoredPrefixLength)))
          else cret (CP_Match, level)
      end
    else cret (CP_Match, level).

Inductive CheckPrefixPessimisticResult :=
| CPP_Match (level : Z)
| CPP_NoMatch (level nonMatchingKey : Z) (nonMatchingPrefix : list (option Z))
| CPP_SkippedLevel.

(** The recovery of an inconsistent prefix: the result is the prefix to go on with. *)
Definition recoverPrefix (n level : Z) (p : Prefix) : stM art Prefix :=
  v <- at_node n getVersion;
  needRecover <- at_node n (lockVersionOrRestart v);
  if needRecover : bool then cret p
  else
    lv <- at_node n getLevel;
    let discrimination := if level <? lv then u32 (lv - level) else u32 (level - lv) in
    kr <- getAnyChildTid n;
    bs <- cfold (seqZ 0 (Z.min discrimination maxStoredPrefixLength)) (fun i bs =>
            b <- key_byte kr (level + i); arr_set bs i (Some b)) (prefixBytes p);
    at_node n (setPrefix bs discrimination true);;
    at_node n writeUnlock;;
    cret (mkPrefix discrimination bs).

(** One round of the comparison; [acc] is [level] and [kt]. *)
Definition pessimistic_step (n k : Z) (p : Prefix) (prevLevel i : Z) (acc : Z * Z)
    : stM art (Z * Z + CheckPrefixPessimisticResult) :=
  let '(level, kt) := acc in
  kt <- (if i =? maxStoredPrefixLength then getAnyChildTid n else cret kt);
  curKey <- (if maxStoredPrefixLength <=? i then key_byte kt level else prefix_byte p i);
  kb <- key_byte k level;
  if curKey =? kb then cret (inl (u32 (level + 1), kt))
  else
    nmp <- (if maxStoredPrefixLength <? prefixCount p then
              kt <- (if i <? maxStoredPrefixLength then getAnyChildTid n else cret kt);
              cfold (seqZ 0 (Z.min (u32 (prefixCount p - u32 (level - prevLevel) - 1)) maxStoredPrefixLength))
                (fun j bs => b <- key_byte kt (level + j + 1); arr_set bs j (Some b))
                (prefixBytes Prefix_default)
            else
              cfold (seqZ 0 (u32 (prefixCount p - i - 1)))
                (fun j bs => b <- arr_get (prefixBytes p) (i + j + 1); arr_set bs j b)
                (prefixBytes Prefix_default));
    cret (inr (CPP_NoMatch level curKey nmp)).

Definition checkPrefixPessimistic (n k level : Z) : stM art CheckPrefixPessimisticResult :=
  p0 <- at_node n getPrefi;
  lv <- at_node n getLevel;
  p <- (if negb (u32 (prefixCount p0 + level) =? lv) then recoverPrefix n level p0 else cret p0);
  if negb (u32 (prefixCount p0 + level) =? lv) && (u32 (prefixCount p + level) <? lv) then cret CPP_SkippedLevel
  else if 0 <? prefixCount p then
    let start := u32 (level + prefixCount p - lv) in
    r <- cloop (seqZ start (prefixCount p - start)) (pessimistic_step n k p level) (level, 0);
    match r with inr x => cret x | inl (level, _) => cret (CPP_Match level) end
  else cret (CPP_Match level).

(** ** Lookup *)

(** [&ret->value] is the address of the key; 0 is NULL. *)
Definition checkKey (ret k : Z) : stM art Z := fun s =>
  match keys s !! ret, keys s !! k with
  | Some x, Some y =>
      if (key_len x =? key_len y) && bool_decide (take (Z.to_nat (key_len y)) (fkey x) = take (Z.to_nat (key_len y)) (fkey y))
      then Ok (ret, s) else Ok (0, s)
  | _, _ => Err UB_access
  end.

(** [while (true)]: every round goes one level down, so one more than the length of the key is
    enough. *)
Fixpoint lookup_loop (fuel : nat) (k node level : Z) (optimisticPrefixMatch : bool) : stM art Z :=
  match fuel with
  | O => cfail OutOfFuel
  | S fuel' =>
      r <- checkPrefix node k level;
      let '(c, level) := r in
      match c with
      | CP_NoMatch => cret 0
      | _ =>
          let optimisticPrefixMatch := match c with CP_OptimisticMatch => true | _ => optimisticPrefixMatch end in
          kl <- getKeyLen k;
          if kl <=? level then cret 0
          else
            kb <- key_byte k level;
            node <- at_node node (N_getChild kb);
            if node =? 0 then cret 0
            else if isLeaf node then
              let ret := getLeaf node in
              if (level <? kl - 1) || optimisticPrefixMatch then checkKey ret k else cret ret
            else lookup_loop fuel' k node (u32 (level + 1)) optimisticPrefixMatch
      end
  end.

Definition Tree_lookup (k : Z) (t : nat) : stM art Z :=
  on_epoche (enterEpoche t);;
  kl <- getKeyLen k;
  r <- cgets root;
  lookup_loop (S (Z.to_nat kl)) k r 0 false.

(** ** Insert *)

(** The end of an attempt. *)
Inductive attempt := Restart | Finished.

(** The case [NoMatch]: the prefix of [node] is split at [nextLevel]. *)
Definition insert_split (k node parentNode parentKey v level nextLevel nonMatchingKey : Z)
    (remaining : list (option Z)) : stM art attempt :=
  kl <- getKeyLen k;
  cassert (nextLevel <? kl);;
  needRestart <- at_node node (lockVersionOrRestart v);
  if needRestart : bool then cret Restart
  else
    prefi <- at_node node getPrefi;
    newNode <- new_N (new_N4 nextLevel (mkPrefix (u32 (nextLevel - level)) (prefixBytes prefi)));
    kb <- key_byte k nextLevel;
    at_node newNode (N4_insert kb (setLeaf k) false);;
    at_node newNode (N4_insert nonMatchingKey node false);;
    at_node newNode (N_clflush false true);;
    needRestart <- at_node parentNode writeLockOrRestart;
    if needRestart : bool then delete_N newNode;; at_node node writeUnlock;; cret Restart
    else
      at_node parentNode (N_change parentKey newNode);;
      at_node parentNode writeUnlock;;
      p <- at_node node getPrefi;
      at_node node (setPrefix remaining (u32 (prefixCount p - (nextLevel - level + 1))) true);;
      at_node node writeUnlock;;
      cret Finished.

(** [while (key->fkey[level + prefixLength] == k->fkey[level + prefixLength])]: it ends at the
    latest with the shorter key. *)
Fixpoint common_prefix (fuel : nat) (key k level prefixLength : Z) : stM art Z :=
  match fuel with
  | O => cfail OutOfFuel
  | S fuel' =>
      a <- key_byte key (u32 (level + prefixLength));
      b <- key_byte k (u32 (level + prefixLength));
      if a =? b then common_prefix fuel' key k level (u32 (prefixLength + 1)) else cret prefixLength
  end.

(** The bytes of a key from [i] on, for the constructor. *)
Definition key_bytes_from (k i : Z) : stM art (list (option Z)) := fun s =>
  match keys s !! k with Some x => Ok (Some <$> drop (Z.to_nat i) (fkey x), s) | None => Err UB_access end.

(** The child found is a leaf: both leaves go below a new node. *)
Definition insert_leaf (k node v level nextNode : Z) : stM art attempt :=
  needRestart <- at_node node (lockVersionOrRestart v);
  if needRestart : bool then cret Restart
  else
    let key := getLeaf nextNode in
    let level := u32 (level + 1) in
    kl <- getKeyLen key;
    cassert (level <? kl);;
    prefixLength <- common_prefix (S (Z.to_nat kl)) key k level 0;
    bs <- key_bytes_from k level;
    n4 <- new_N (new_N4 (u32 (level + prefixLength)) Prefix_default);
    at_node n4 (setPrefix bs prefixLength false);;
    kb <- key_byte k (u32 (level + prefixLength));
    at_node n4 (N4_insert kb (setLeaf k) false);;
    keyb <- key_byte key (u32 (level + prefixLength));
    at_node n4 (N4_insert keyb nextNode false);;
    at_node n4 (N_clflush false true);;
    kb1 <- key_byte k (u32 (level - 1));
    at_node node (N_change kb1 n4);;
    at_node node writeUnlock;;
    cret Finished.

Fixpoint insert_loop (fuel : nat) (k : Z) (t : nat) (node nodeKey nextNode level : Z) : stM art attempt :=
  match fuel with
  | O => cfail OutOfFuel
  | S fuel' =>
      let parentNode := node in
      let parentKey := nodeKey in
      let node := nextNode in
      v <- at_node node getVersion;
      c <- checkPrefixPessimistic node k level;
      match c with
      | CPP_SkippedLevel => cret Restart
      | CPP_NoMatch nextLevel nonMatchingKey remaining =>
          insert_split k node parentNode parentKey v level nextLevel nonMatchingKey remaining
      | CPP_Match level =>
          kl <- getKeyLen k;
          cassert (level <? kl);;
          nodeKey <- key_byte k level;
          nextNode <- at_node node (N_getChild nodeKey);
          if nextNode =? 0 then
            needRestart <- at_node node (lockVersionOrRestart v);
            if needRestart : bool then cret Restart
            else
              needRestart <- insertAndUnlock node parentNode parentKey nodeKey (setLeaf k) t;
              cret (if needRestart : bool then Restart else Finished)
          else if isLeaf nextNode then insert_leaf k node v level nextNode
          else insert_loop fuel' k t node nodeKey nextNode (u32 (level + 1))
      end
  end.

(** [goto restart] *)
Fixpoint attempts (fuel : nat) (m : stM art attempt) : stM art unit :=
  match fuel with
  | O => cfail OutOfFuel
  | S fuel' => r <- m; match r with Finished => cret tt | Restart => attempts fuel' m end
  end.

Definition Tree_insert (tries : nat) (k : Z) (t : nat) : stM art unit :=
  art_clflush;;
  on_epoche (enterEpoche t);;
  kl <- getKeyLen k;
  r <- cgets root;
  attempts tries (insert_loop (S (Z.to_nat kl)) k t 0 0 r 0);;
  on_epoche (exitEpocheAndCleanup t).

(** ** Remove *)

(** [node] has two children, of which one goes: the other one takes its place. *)
Definition remove_merge (node nodeKey parentNode parentKey : Z) (t : nat) : stM art attempt :=
  r <- at_node node (N_getSecondChild nodeKey);
  let '(secondNodeN, secondNodeK) := r in
  if isLeaf secondNodeN then
    needRestart <- at_node parentNode writeLockOrRestart;
    if needRestart : bool then at_node node writeUnlock;; cret Restart
    else
      at_node parentNode (N_change parentKey secondNodeN);;
      at_node parentNode writeUnlock;;
      at_node node writeUnlockObsolete;;
      on_epoche (markNodeForDeletion node t);;
      cret Finished
  else
    vChild <- at_node secondNodeN getVersion;
    needRestart <- at_node secondNodeN (lockVersionOrRestart vChild);
    if needRestart : bool then at_node node writeUnlock;; cret Restart
    else
      needRestart <- at_node parentNode writeLockOrRestart;
      if needRestart : bool then at_node node writeUnlock;; at_node secondNodeN writeUnlock;; cret Restart
      else
        at_node parentNode (N_change parentKey secondNodeN);;
        nodeP <- at_node node getPrefi;
        at_node secondNodeN (addPrefixBefore nodeP secondNodeK);;
        at_node parentNode writeUnlock;;
        at_node node writeUnlockObsolete;;
        on_epoche (markNodeForDeletion node t);;
        at_node secondNodeN writeUnlock;;
        cret Finished.

Definition remove_leaf (k node nodeKey parentNode parentKey v nextNode : Z) (t : nat) : stM art attempt :=
  needRestart <- at_node node (lockVersionOrRestart v);
  if needRestart : bool then cret Restart
  else
    c <- checkKey (getLeaf nextNode) k;
    if c =? 0 then at_node node writeUnlock;; cret Finished
    else
      cnt <- at_node node N_getCount;
      cassert ((parentNode =? 0) || negb (cnt =? 1));;
      r <- cgets root;
      if (cnt =? 2) && negb (node =? r) then remove_merge node nodeKey parentNode parentKey t
      else
        needRestart <- removeAndUnlock node nodeKey parentNode parentKey t;
        cret (if needRestart : bool then Restart else Finished).

(** Nothing to remove, unless the node changed meanwhile. *)
Definition remove_absent (node v : Z) : stM art attempt :=
  same <- at_node node (readUnlockOrRestart v);
  cret (if isObsolete v || negb same then Restart else Finished).

Fixpoint tree_remove_loop (fuel : nat) (k : Z) (t : nat) (node nodeKey nextNode level : Z) : stM art attempt :=
  match fuel with
  | O => cfail OutOfFuel
  | S fuel' =>
      let parentNode := node in
      let parentKey := nodeKey in
      let node := nextNode in
      v <- at_node node getVersion;
      r <- checkPrefix node k level;
      let '(c, level) := r in
      match c with
      | CP_NoMatch => remove_absent node v
      | _ =>
          nodeKey <- key_byte k level;
          nextNode <- at_node node (N_getChild nodeKey);
          if nextNode =? 0 then remove_absent node v
          else if isLeaf nextNode then remove_leaf k node nodeKey parentNode parentKey v nextNode t
          else tree_remove_loop fuel' k t node nodeKey nextNode (u32 (level + 1))
      end
  end.

Definition Tree_remove (tries : nat) (k : Z) (t : nat) : stM art unit :=
  on_epoche (enterEpoche t);;
  kl <- getKeyLen k;
  r <- cgets root;
  attempts tries (tree_remove_loop (S (Z.to_nat kl)) k t 0 0 r 0);;
  on_epoche (exitEpocheAndCleanup t).

(** ** The tree as a whole *)

Definition with_root (s : art) r := mkArt (nodes s) (keys s) r (epoche s) (hist s) (lock_initializer s).

(** [Tree(loadKey)], with [Epoche epoche{256}]. [{}] gives a prefix of zeros. *)
Definition Tree_new : stM art unit :=
  r <- new_N (new_N256 0 (mkPrefix 0 (replicate 4 (Some 0))));
  cmod (fun s => set_epoche (with_root s r) (mkEpoche 0 ∅ 256 []));;
  at_node r (N_clflush false true);;
  art_clflush.

(** The thread gets its deletion list, in which [localEpoche] is not initialised. *)
Definition getThreadInfo (init : Z) (t : nat) : stM art unit := on_epoche (ThreadInfo_new init t).

(** The children [deleteChildren] visits, in the order it visits them; [getChildren] on the whole
    range would give them sorted. *)
Definition child_list (n : NodeN) : list Z :=
  match body n with
  | B4 _ cs | B16 _ cs => filter (fun c => c <> 0) (take (Z.to_nat (compactCount n)) cs)
  | B48 ix cs => (fun i => default 0 (cs !! Z.to_nat i)) <$> filter (fun i => i <> emptyMarker) ix
  | B256 cs => filter (fun c => c <> 0) cs
  end.

Definition deleteNode (a : Z) : stM art unit := if isLeaf a then cret tt else delete_N a.

(** Each level of the recursion goes one level down in the tree. *)
Fixpoint deleteChildren (fuel : nat) (a : Z) : stM art unit :=
  match fuel with
  | O => cfail OutOfFuel
  | S fuel' =>
      if isLeaf a then cret tt
      else
        cs <- at_node a (load child_list);
        cfor cs (fun c => deleteChildren fuel' c;; deleteNode c)
  end.

(** [~Tree()], and the destructor of its member [epoche]. *)
Definition Tree_delete : stM art unit := fun s =>
  (r <- cgets root;
   deleteChildren (S (size (nodes s))) r;;
   deleteNode r;;
   on_epoche Epoche_delete) s.

(** After a crash: every node that was made is asked for its lock. *)
Definition lock_initialization : stM art unit := fun s =>
  cfor (lock_initializer s) (fun a =>
    v <- at_node a getVersion;
    if isLocked v then at_node a writeUnlock else cret tt) s.

End alloc.
