(* ===== verification/ArtTrie.v ===== *)
(** * P-ART: tries, abstractly

    A trie is a map from the addresses of the nodes to what they stand for: the bytes on the way
    from the root to the node ([an_path]), how many of them the parent accounts for ([an_base],
    so that the compressed prefix is the rest), and the children. [trie_ok] says when a trie
    represents a map from keys to leaves; the lemmas say how the changes the tree makes carry
    over to it. *)

From S2P Require Import Prelude ArtNode ArtSlots ArtTree.
#[local] Open Scope Z_scope.

Record anode := mkA { an_path : list Z; an_base : nat; an_ch : gmap Z Z }.
Abbreviation trie := (gmap Z anode).

Definition set_ch (an : anode) (ch : gmap Z Z) : anode := mkA (an_path an) (an_base an) ch.
Definition set_base (an : anode) (b : nat) : anode := mkA (an_path an) b (an_ch an).

(** ** Leaves and addresses *)

Lemma setLeaf_leaf k : isLeaf (setLeaf k) = true.
Proof.
  unfold isLeaf, setLeaf. rewrite <- Z.bit0_odd, Z.lor_spec. change (Z.testbit 1 0) with true.
  apply orb_true_r.
Qed.

Lemma getLeaf_setLeaf k : Z.odd k = false -> getLeaf (setLeaf k) = k.
Proof.
  intros H. unfold getLeaf, setLeaf. apply Z.bits_inj_iff'. intros n Hn.
  rewrite Z.ldiff_spec, Z.lor_spec. destruct (decide (n = 0)) as [->|Hn0].
  - change (Z.testbit 1 0) with true. rewrite Z.bit0_odd, H. done.
  - assert (E : Z.testbit 1 n = false) by (change 1 with (2 ^ 0); apply Z.pow2_bits_false; lia).
    rewrite E, orb_false_r. apply andb_true_r.
Qed.

Lemma setLeaf_getLeaf p : isLeaf p = true -> setLeaf (getLeaf p) = p.
Proof.
  intros H. unfold getLeaf, setLeaf. apply Z.bits_inj_iff'. intros n Hn.
  rewrite Z.lor_spec, Z.ldiff_spec. destruct (decide (n = 0)) as [->|Hn0].
  - change (Z.testbit 1 0) with true. unfold isLeaf in H. rewrite Z.bit0_odd, H. done.
  - assert (E : Z.testbit 1 n = false) by (change 1 with (2 ^ 0); apply Z.pow2_bits_false; lia).
    rewrite E, orb_false_r. apply andb_true_r.
Qed.

Lemma setLeaf_inj a b : Z.odd a = false -> Z.odd b = false -> setLeaf a = setLeaf b -> a = b.
Proof. intros Ha Hb E. rewrite <- (getLeaf_setLeaf a Ha), E. now apply getLeaf_setLeaf. Qed.

(** ** Prefixes of lists *)

Lemma prefix_le {A} (l1 l2 l : list A) :
  l1 `prefix_of` l -> l2 `prefix_of` l -> (length l1 <= length l2)%nat -> l1 `prefix_of` l2.
Proof.
  intros [k1 ->] [k2 E] Hle. exists (drop (length l1) l2).
  rewrite <- (take_drop (length l1) l2) at 1. f_equal.
  assert (T : take (length l1) (l1 ++ k1) = take (length l1) (l2 ++ k2)) by now rewrite E.
  now rewrite take_app_length, take_app_le in T.
Qed.

Lemma prefix_eq {A} (l1 l2 l : list A) :
  l1 `prefix_of` l -> l2 `prefix_of` l -> length l1 = length l2 -> l1 = l2.
Proof.
  intros H1 H2 E. apply prefix_length_eq; [eapply prefix_le; eauto; lia|lia].
Qed.

Lemma prefix_snoc_lookup {A} (l : list A) b l' :
  (l ++ [b]) `prefix_of` l' <-> l `prefix_of` l' /\ l' !! length l = Some b.
Proof.
  split.
  - intros [k ->]. split; [exists (b :: k); now rewrite <- app_assoc|].
    rewrite <- app_assoc. now apply list_lookup_middle.
  - intros [[k ->] Hb]. rewrite lookup_app_r, Nat.sub_diag in Hb by lia.
    destruct k as [|x k]; [done|]. injection Hb as ->. exists k. now rewrite <- app_assoc.
Qed.

Lemma prefix_lookup_eq {A} (l l' : list A) i : l `prefix_of` l' -> (i < length l)%nat -> l' !! i = l !! i.
Proof. intros [k ->] Hi. now rewrite lookup_app_l. Qed.

(** ** Well-formed tries *)

Definition key_ok (K : gmap Z Key) (ka : Z) (bs : list Z) : Prop :=
  (exists x, K !! ka = Some x /\ fkey x = bs /\ key_len x = Z.of_nat (length bs)) /\
  Forall byte bs /\ Z.of_nat (length bs) < 2 ^ 31 /\ 0 < ka /\ Z.odd ka = false.

Lemma key_ok_fun K ka bs bs' : key_ok K ka bs -> key_ok K ka bs' -> bs = bs'.
Proof. intros ((x & H1 & H2 & _) & _) ((y & H3 & H4 & _) & _). congruence. Qed.

Definition edge (V : trie) (a b p : Z) : Prop := exists an, V !! a = Some an /\ an_ch an !! b = Some p.

Record trie_ok (K : gmap Z Key) (r : Z) (V : trie) (m : gmap (list Z) Z) : Prop := {
  tr_root : exists an, V !! r = Some an /\ an_path an = [] /\ an_base an = 0%nat;
  tr_addr : forall a an, V !! a = Some an -> 0 < a /\ Z.odd a = false;
  tr_leaf : forall a an b p, V !! a = Some an -> an_ch an !! b = Some p -> isLeaf p = true ->
    exists bs, key_ok K (getLeaf p) bs /\ (an_path an ++ [b]) `prefix_of` bs /\ m !! bs = Some (getLeaf p);
  tr_node : forall a an b p, V !! a = Some an -> an_ch an !! b = Some p -> isLeaf p = false ->
    exists cn, V !! p = Some cn /\ an_base cn = S (length (an_path an)) /\ (an_path an ++ [b]) `prefix_of` an_path cn;
  tr_parent : forall c cn, V !! c = Some cn -> c <> r -> exists a b, edge V a b c;
  tr_inj : forall a a' an an', V !! a = Some an -> V !! a' = Some an' -> an_path an = an_path an' -> a = a';
  tr_map : forall bs ka, m !! bs = Some ka -> key_ok K ka bs /\ exists a b, edge V a b (setLeaf ka);
  tr_size : forall a an, V !! a = Some an -> a <> r -> (2 <= size (an_ch an))%nat }.

Section trie.
Context {K : gmap Z Key} {r : Z} {V : trie} {m : gmap (list Z) Z} (T : trie_ok K r V m).

Lemma node_not_leaf a an : V !! a = Some an -> isLeaf a = false.
Proof. intros H. now apply (tr_addr _ _ _ _ T) in H. Qed.

Lemma edge_node a an b c cn :
  V !! a = Some an -> an_ch an !! b = Some c -> V !! c = Some cn ->
  an_base cn = S (length (an_path an)) /\ (an_path an ++ [b]) `prefix_of` an_path cn.
Proof.
  intros Ha Hb Hc. destruct (tr_node _ _ _ _ T _ _ _ _ Ha Hb (node_not_leaf _ _ Hc)) as (cn' & Hc' & H).
  rewrite Hc in Hc'. now injection Hc' as <-.
Qed.

(** Only the root has the empty path. *)
Lemma root_path c cn : V !! c = Some cn -> c <> r -> an_path cn <> [].
Proof.
  intros Hc Hn E. destruct (tr_root _ _ _ _ T) as (rn & Hr & Hp & _). apply Hn.
  apply (tr_inj _ _ _ _ T _ _ _ _ Hc Hr). now rewrite E, Hp.
Qed.

(** On the way from the root to a node, every node whose path is a prefix of its path is met:
    below such a node one goes to another one. *)
Lemma descend a an c cn :
  V !! a = Some an -> V !! c = Some cn -> an_path an `prefix_of` an_path cn -> a <> c ->
  exists b c' cn', an_path cn !! length (an_path an) = Some b /\ an_ch an !! b = Some c' /\
    V !! c' = Some cn' /\ an_path cn' `prefix_of` an_path cn /\ isLeaf c' = false.
Proof.
  intros Ha. remember (length (an_path cn)) as n eqn:En. revert a an Ha c cn En.
  induction n as [n IH] using lt_wf_ind. intros a an Ha c cn -> Hc Hpre Hne.
  assert (Hcr : c <> r).
  { intros ->. destruct (tr_root _ _ _ _ T) as (rn & Hr & Hp & _). rewrite Hc in Hr. injection Hr as <-.
    rewrite Hp in Hpre. apply prefix_nil_inv in Hpre. apply Hne.
    apply (tr_inj _ _ _ _ T _ _ _ _ Ha Hc). congruence. }
  destruct (tr_parent _ _ _ _ T c cn Hc Hcr) as (a' & b' & an' & Ha' & Hb').
  destruct (edge_node _ _ _ _ _ Ha' Hb' Hc) as [_ Hpc]. pose proof Hpc as Hpc'.
  apply prefix_snoc_lookup in Hpc' as [Hpa' Hbyte]. pose proof (prefix_length _ _ Hpc) as Hl.
  rewrite length_app in Hl. cbn in Hl.
  destruct (decide (a = a')) as [->|Hna].
  { rewrite Ha in Ha'. injection Ha' as <-. exists b', c, cn. split_and!; try done. now apply (node_not_leaf c cn). }
  destruct (Nat.lt_trichotomy (length (an_path an)) (length (an_path an'))) as [Hlt|[Heq|Hgt]].
  - assert (Hp : an_path an `prefix_of` an_path an') by (eapply prefix_le; eauto; lia).
    destruct (IH (length (an_path an')) ltac:(lia) a an Ha a' an' eq_refl Ha' Hp Hna) as (b & c' & cn' & H1 & H2 & H3 & H4 & H5).
    exists b, c', cn'. split_and!; try done.
    + now rewrite (prefix_lookup_eq _ _ _ Hpa').
    + by transitivity (an_path an').
  - exfalso. apply Hna. apply (tr_inj _ _ _ _ T _ _ _ _ Ha Ha'). eapply prefix_eq; eauto.
  - exfalso. assert (Hlt : (length (an_path an) < length (an_path cn))%nat).
    { pose proof (prefix_length _ _ Hpre). destruct (decide (length (an_path an) = length (an_path cn))) as [E|]; [|lia].
      exfalso. apply Hne. apply (tr_inj _ _ _ _ T _ _ _ _ Ha Hc). apply prefix_length_eq; [done|lia]. }
    assert (Hp : an_path an' `prefix_of` an_path an) by (eapply prefix_le; eauto; lia).
    destruct (IH (length (an_path an)) Hlt a' an' Ha' a an eq_refl Ha Hp ltac:(done)) as (b & c' & cn' & H1 & H2 & H3 & H4 & H5).
    assert (b = b') as ->.
    { rewrite <- (prefix_lookup_eq _ _ _ Hpre) in H1 by done. congruence. }
    rewrite Hb' in H2. injection H2 as <-. rewrite Hc in H3. injection H3 as <-.
    apply prefix_length in H4. lia.
Qed.

(** The same for the way to a leaf. *)
Lemma descend_leaf a an b a' an' b' p bs :
  V !! a = Some an -> V !! a' = Some an' -> an_ch an' !! b' = Some p -> isLeaf p = true ->
  (an_path an' ++ [b']) `prefix_of` bs -> an_path an `prefix_of` bs -> bs !! length (an_path an) = Some b ->
  (length (an_path an) <= length (an_path an'))%nat ->
  (a = a' /\ b = b') \/
  exists c cn, an_ch an !! b = Some c /\ V !! c = Some cn /\ an_path cn `prefix_of` an_path an' /\ isLeaf c = false.
Proof.
  intros Ha Ha' Hp Hlf Hpre' Hpre Hb Hle. apply prefix_snoc_lookup in Hpre' as [Hpre' Hb'].
  assert (Hpp : an_path an `prefix_of` an_path an') by (eapply prefix_le; eauto).
  destruct (decide (a = a')) as [->|Hne].
  - left. split; [done|]. rewrite Ha in Ha'. injection Ha' as <-. congruence.
  - right. destruct (descend a an a' an' Ha Ha' Hpp Hne) as (b1 & c & cn & H1 & H2 & H3 & H4 & H5).
    assert (b1 = b) as ->; [|eauto 10].
    pose proof (lookup_lt_Some _ _ _ H1). rewrite (prefix_lookup_eq _ _ _ Hpre') in Hb by done. congruence.
Qed.

(** A key that agrees with the path of a node and has no further byte in common is not there. *)
Lemma key_place a an b bs ka :
  V !! a = Some an -> (an_path an ++ [b]) `prefix_of` bs -> m !! bs = Some ka ->
  exists p, an_ch an !! b = Some p /\
    (p = setLeaf ka \/ exists cn, V !! p = Some cn /\ isLeaf p = false /\ an_path cn `prefix_of` bs).
Proof.
  intros Ha Hpre Hm. destruct (tr_map _ _ _ _ T _ _ Hm) as (Hk & a' & b' & an' & Ha' & Hb').
  pose proof (setLeaf_leaf ka) as Hlf.
  destruct (tr_leaf _ _ _ _ T _ _ _ _ Ha' Hb' Hlf) as (bs' & Hk' & Hpre' & _).
  rewrite getLeaf_setLeaf in Hk' by apply Hk. rewrite (key_ok_fun _ _ _ _ Hk' Hk) in Hpre'. clear Hk' bs'.
  apply prefix_snoc_lookup in Hpre as [Hpre Hb].
  destruct (Nat.le_gt_cases (length (an_path an)) (length (an_path an'))) as [Hle|Hgt].
  - destruct (descend_leaf a an b a' an' b' _ bs Ha Ha' Hb' Hlf Hpre' Hpre Hb Hle) as [[-> ->]|(c & cn & H1 & H2 & H3 & H4)].
    + rewrite Ha in Ha'. injection Ha' as <-. exists (setLeaf ka). auto.
    + exists c. split; [done|]. right. exists cn. split_and!; try done. apply prefix_snoc_lookup in Hpre' as [Hpre' _].
      by transitivity (an_path an').
  - exfalso. apply prefix_snoc_lookup in Hpre' as [Hpre' Hbb'].
    assert (Hpp : an_path an' `prefix_of` an_path an) by (eapply prefix_le; eauto; lia).
    destruct (descend a' an' a an Ha' Ha Hpp) as (b1 & c & cn & H1 & H2 & H3 & H4 & H5).
    { intros ->. rewrite Ha in Ha'. injection Ha' as <-. lia. }
    assert (b1 = b') as ->.
    { rewrite <- (prefix_lookup_eq _ _ _ Hpre) in H1 by lia. congruence. }
    rewrite Hb' in H2. injection H2 as <-. congruence.
Qed.

(** A key goes on below a node whose path it starts with. *)
Lemma key_longer a an bs ka :
  V !! a = Some an -> m !! bs = Some ka -> an_path an `prefix_of` bs -> (length (an_path an) < length bs)%nat.
Proof.
  intros Ha Hm Hpre. destruct (Nat.lt_ge_cases (length (an_path an)) (length bs)) as [|Hge]; [done|]. exfalso.
  pose proof (prefix_length_eq _ _ Hpre Hge) as E. destruct (tr_map _ _ _ _ T _ _ Hm) as (Hk & a' & b' & an' & Ha' & Hb').
  destruct (tr_leaf _ _ _ _ T _ _ _ _ Ha' Hb' (setLeaf_leaf ka)) as (bs' & Hk' & Hpre' & _).
  rewrite getLeaf_setLeaf in Hk' by apply Hk. rewrite (key_ok_fun _ _ _ _ Hk' Hk), <- E in Hpre'.
  apply prefix_snoc_lookup in Hpre' as [Hpre' Hbb].
  destruct (descend a' an' a an Ha' Ha Hpre') as (b & c & cn & H1 & H2 & _ & _ & H5).
  { intros ->. rewrite Ha in Ha'. injection Ha' as <-. apply lookup_lt_Some in Hbb. lia. }
  rewrite Hbb in H1. injection H1 as <-. rewrite Hb' in H2. injection H2 as <-. by rewrite setLeaf_leaf in H5.
Qed.

(** The keys are prefix-free. *)
Lemma keys_prefix_free bs ka bs' ka' :
  m !! bs = Some ka -> m !! bs' = Some ka' -> bs `prefix_of` bs' -> bs = bs'.
Proof.
  intros Hm Hm' Hpre. destruct (tr_map _ _ _ _ T _ _ Hm) as (Hk & a & b & an & Ha & Hb).
  destruct (tr_leaf _ _ _ _ T _ _ _ _ Ha Hb (setLeaf_leaf ka)) as (bs1 & Hk1 & Hp1 & _).
  rewrite getLeaf_setLeaf in Hk1 by apply Hk. rewrite (key_ok_fun _ _ _ _ Hk1 Hk) in Hp1.
  destruct (key_place a an b bs' ka' Ha) as (p & Hp & Hcase); [by etransitivity|done|].
  rewrite Hb in Hp. injection Hp as <-. destruct Hcase as [E|(cn & _ & E & _)].
  - apply setLeaf_inj in E as ->; [|apply Hk|by apply (tr_map _ _ _ _ T) in Hm' as (Hk' & _); apply Hk'].
    apply (key_ok_fun K ka'); [done|]. now apply (tr_map _ _ _ _ T) in Hm' as (Hk' & _).
  - now rewrite setLeaf_leaf in E.
Qed.

Lemma edge_unique a b a' b' p : edge V a b p -> edge V a' b' p -> a = a' /\ b = b'.
Proof.
  intros (an & Ha & Hb) (an' & Ha' & Hb'). destruct (isLeaf p) eqn:Hl.
  - destruct (tr_leaf _ _ _ _ T _ _ _ _ Ha Hb Hl) as (bs & Hk & Hpre & Hm).
    destruct (tr_leaf _ _ _ _ T _ _ _ _ Ha' Hb' Hl) as (bs' & Hk' & Hpre' & _).
    rewrite <- (key_ok_fun _ _ _ _ Hk Hk') in Hpre'. clear Hk' bs'.
    pose proof Hpre as [H1 H2]%prefix_snoc_lookup. pose proof Hpre' as [H1' H2']%prefix_snoc_lookup.
    destruct (Nat.le_ge_cases (length (an_path an)) (length (an_path an'))) as [Hle|Hle].
    + destruct (descend_leaf a an b a' an' b' p bs) as [H|(c & cn & H3 & H4 & _ & H5)]; try done.
      rewrite Hb in H3. injection H3 as <-. congruence.
    + destruct (descend_leaf a' an' b' a an b p bs) as [H|(c & cn & H3 & H4 & _ & H5)]; try done.
      * naive_solver.
      * rewrite Hb' in H3. injection H3 as <-. congruence.
  - destruct (tr_node _ _ _ _ T _ _ _ _ Ha Hb Hl) as (cn & Hc & Hbase & Hpre).
    destruct (tr_node _ _ _ _ T _ _ _ _ Ha' Hb' Hl) as (cn' & Hc' & Hbase' & Hpre').
    rewrite Hc in Hc'. injection Hc' as <-.
    apply prefix_snoc_lookup in Hpre as [Hpre H1], Hpre' as [Hpre' H1'].
    assert (E : an_path an = an_path an') by (eapply prefix_eq; eauto; lia).
    pose proof (tr_inj _ _ _ _ T _ _ _ _ Ha Ha' E) as ->. split; [done|]. rewrite E in H1. congruence.
Qed.

Lemma no_self_edge a b : ~ edge V a b a.
Proof.
  intros (an & Ha & Hb). destruct (edge_node _ _ _ _ _ Ha Hb Ha) as [_ H]. apply prefix_length in H.
  rewrite length_app in H. cbn in H. lia.
Qed.

Lemma root_no_parent a b : ~ edge V a b r.
Proof.
  intros (an & Ha & Hb). destruct (tr_root _ _ _ _ T) as (rn & Hr & Hp & _).
  destruct (edge_node _ _ _ _ _ Ha Hb Hr) as [_ H]. rewrite Hp in H.
  apply prefix_length in H. rewrite length_app in H. cbn in H. lia.
Qed.

End trie.
