(* ===== verification/ArtTrieUpd.v ===== *)
(** * P-ART: the changes of a trie

    One lemma for each kind of change the tree makes: a new leaf, a removed leaf, a node that is
    replaced by a copy of it, a leaf or a node pushed below a new node, and a node with one
    remaining child that is replaced by that child. *)

From S2P Require Import Prelude ArtNode ArtSlots ArtTree ArtTrie.
#[local] Open Scope Z_scope.

Lemma set_ch_path an ch : an_path (set_ch an ch) = an_path an.
Proof. done. Qed.

(** The nodes of [V'] are those of [V], with the same paths and bases. *)
Definition same_nodes (V V' : trie) : Prop :=
  (forall a an, V !! a = Some an -> exists an', V' !! a = Some an' /\ an_path an' = an_path an /\ an_base an' = an_base an) /\
  (forall a an', V' !! a = Some an' -> exists an, V !! a = Some an /\ an_path an' = an_path an /\ an_base an' = an_base an).

Lemma same_nodes_set_ch V a an ch : V !! a = Some an -> same_nodes V (<[a := set_ch an ch]> V).
Proof.
  intros Ha. split; intros x xn Hx; destruct (decide (x = a)) as [->|Hne].
  - rewrite lookup_insert_eq. rewrite Ha in Hx. injection Hx as <-. by eexists.
  - rewrite lookup_insert_ne by done. by eexists.
  - rewrite lookup_insert_eq in Hx. injection Hx as <-. by eexists.
  - rewrite lookup_insert_ne in Hx by done. by eexists.
Qed.

Lemma edge_set_ch V a an ch x b p :
  V !! a = Some an ->
  edge (<[a := set_ch an ch]> V) x b p <-> (x = a /\ ch !! b = Some p) \/ (x <> a /\ edge V x b p).
Proof.
  intros Ha. unfold edge. split.
  - intros (xn & Hx & Hb). destruct (decide (x = a)) as [->|Hne].
    + rewrite lookup_insert_eq in Hx. injection Hx as <-. by left.
    + rewrite lookup_insert_ne in Hx by done. right. eauto.
  - intros [[-> Hb]|[Hne (xn & Hx & Hb)]].
    + rewrite lookup_insert_eq. by eexists.
    + rewrite lookup_insert_ne by done. eauto.
Qed.

(** Well-formedness when the nodes stay and some edges change. *)
Lemma trie_ok_edges K r V V' m m' :
  trie_ok K r V m -> same_nodes V V' ->
  (forall a an b p, V' !! a = Some an -> an_ch an !! b = Some p -> isLeaf p = true ->
     exists bs, key_ok K (getLeaf p) bs /\ (an_path an ++ [b]) `prefix_of` bs /\ m' !! bs = Some (getLeaf p)) ->
  (forall a b p, isLeaf p = false -> edge V' a b p <-> edge V a b p) ->
  (forall bs ka, m' !! bs = Some ka -> key_ok K ka bs /\ exists a b, edge V' a b (setLeaf ka)) ->
  (forall a an, V' !! a = Some an -> a <> r -> (2 <= size (an_ch an))%nat) ->
  trie_ok K r V' m'.
Proof.
  intros T [S1 S2] Hl He Hm Hs. split; try done.
  - destruct (tr_root _ _ _ _ T) as (rn & Hr & Hp & Hb). destruct (S1 _ _ Hr) as (rn' & Hr' & Hp' & Hb').
    exists rn'. split_and!; congruence.
  - intros a an' Ha. destruct (S2 _ _ Ha) as (an & Ha0 & _). now apply (tr_addr _ _ _ _ T) in Ha0.
  - intros a an' b p Ha Hb Hlf. assert (E : edge V a b p) by (apply He; [done|]; by exists an').
    destruct E as (an & Ha0 & Hb0). destruct (S2 _ _ Ha) as (an1 & Ha1 & Hp1 & _). rewrite Ha0 in Ha1. injection Ha1 as <-.
    destruct (tr_node _ _ _ _ T _ _ _ _ Ha0 Hb0 Hlf) as (cn & Hc & Hbase & Hpre).
    destruct (S1 _ _ Hc) as (cn' & Hc' & Hpc & Hbc). exists cn'. split; [done|]. rewrite Hp1, Hpc, Hbc. done.
  - intros c cn' Hc Hn. destruct (S2 _ _ Hc) as (cn & Hc0 & _).
    destruct (tr_parent _ _ _ _ T _ _ Hc0 Hn) as (a & b & E). exists a, b. apply He; [|done].
    now apply (node_not_leaf T) in Hc0.
  - intros a a' an an' Ha Ha' E. destruct (S2 _ _ Ha) as (x & Hx & Hpx & _), (S2 _ _ Ha') as (y & Hy & Hpy & _).
    apply (tr_inj _ _ _ _ T _ _ _ _ Hx Hy). congruence.
Qed.

Section upd.
Context {K : gmap Z Key} {r : Z} {V : trie} {m : gmap (list Z) Z} (T : trie_ok K r V m).

(** ** A new leaf *)

Lemma trie_insert_leaf a an b ka bs :
  V !! a = Some an -> an_ch an !! b = None -> key_ok K ka bs -> (an_path an ++ [b]) `prefix_of` bs ->
  m !! bs = None ->
  trie_ok K r (<[a := set_ch an (<[b := setLeaf ka]> (an_ch an))]> V) (<[bs := ka]> m).
Proof.
  intros Ha Hb Hk Hpre HN. apply (trie_ok_edges K r V _ m); [done|now apply same_nodes_set_ch|..].
  - intros x xn c p Hx Hc Hlf.
    assert (Hold : forall xn0, V !! x = Some xn0 -> an_ch xn0 !! c = Some p -> an_path xn0 = an_path xn ->
       exists bs0, key_ok K (getLeaf p) bs0 /\ (an_path xn ++ [c]) `prefix_of` bs0 /\ <[bs := ka]> m !! bs0 = Some (getLeaf p)).
    { intros xn0 Hx0 Hc0 E. destruct (tr_leaf _ _ _ _ T _ _ _ _ Hx0 Hc0 Hlf) as (bs0 & H1 & H2 & H3).
      exists bs0. rewrite <- E. split_and!; [done|done|]. rewrite lookup_insert_ne; [done|congruence]. }
    destruct (decide (x = a)) as [->|Hne].
    + rewrite lookup_insert_eq in Hx. injection Hx as <-. cbn [set_ch an_ch an_path] in *.
      destruct (decide (c = b)) as [->|Hcb].
      * rewrite lookup_insert_eq in Hc. injection Hc as <-. exists bs. rewrite getLeaf_setLeaf by apply Hk.
        split_and!; [done|done|apply lookup_insert_eq].
      * rewrite lookup_insert_ne in Hc by done. by apply (Hold an).
    + rewrite lookup_insert_ne in Hx by done. by apply (Hold xn).
  - intros x c p Hlf. rewrite edge_set_ch by done. split.
    + intros [[-> Hc]|[_ E]]; [|done]. exists an. split; [done|]. destruct (decide (c = b)) as [->|Hcb].
      * rewrite lookup_insert_eq in Hc. injection Hc as <-. by rewrite setLeaf_leaf in Hlf.
      * by rewrite lookup_insert_ne in Hc.
    + intros E. destruct (decide (x = a)) as [->|Hne]; [|by right]. left. split; [done|].
      destruct E as (an' & Ha' & Hc). rewrite Ha in Ha'. injection Ha' as <-. rewrite lookup_insert_ne; [done|congruence].
  - intros bs0 ka0 H0. destruct (decide (bs0 = bs)) as [->|Hne].
    + rewrite lookup_insert_eq in H0. injection H0 as <-. split; [done|]. exists a, b. apply edge_set_ch; [done|].
      left. split; [done|]. apply lookup_insert_eq.
    + rewrite lookup_insert_ne in H0 by done. destruct (tr_map _ _ _ _ T _ _ H0) as (Hk0 & x & c & E). split; [done|].
      exists x, c. apply edge_set_ch; [done|]. destruct (decide (x = a)) as [->|Hxa]; [|by right]. left. split; [done|].
      destruct E as (an' & Ha' & Hc). rewrite Ha in Ha'. injection Ha' as <-. rewrite lookup_insert_ne; [done|congruence].
  - intros x xn Hx Hn. destruct (decide (x = a)) as [->|Hne].
    + rewrite lookup_insert_eq in Hx. injection Hx as <-. cbn [set_ch an_ch]. rewrite map_size_insert_None by done.
      pose proof (tr_size _ _ _ _ T _ _ Ha Hn). lia.
    + rewrite lookup_insert_ne in Hx by done. by apply (tr_size _ _ _ _ T _ _ Hx).
Qed.

(** ** A removed leaf *)

Lemma trie_remove_leaf a an b ka bs :
  V !! a = Some an -> an_ch an !! b = Some (setLeaf ka) -> key_ok K ka bs ->
  a = r \/ (3 <= size (an_ch an))%nat ->
  trie_ok K r (<[a := set_ch an (delete b (an_ch an))]> V) (delete bs m).
Proof.
  intros Ha Hb Hk Hs3. apply (trie_ok_edges K r V _ m); [done|now apply same_nodes_set_ch|..].
  - intros x xn c p Hx Hc Hlf.
    assert (E : edge V x c p /\ (x, c) <> (a, b)).
    { assert (E : edge (<[a := set_ch an (delete b (an_ch an))]> V) x c p) by (by exists xn).
      apply edge_set_ch in E; [|done]. destruct E as [[-> Hd]|[Hne E]]; [|split; [done|congruence]].
      apply lookup_delete_Some in Hd as [Hcb Hd]. split; [by exists an|congruence]. }
    destruct E as [(xn0 & Hx0 & Hc0) Hne].
    destruct (tr_leaf _ _ _ _ T _ _ _ _ Hx0 Hc0 Hlf) as (bs0 & H1 & H2 & H3). exists bs0.
    assert (Ep : an_path xn = an_path xn0).
    { destruct (decide (x = a)) as [->|Hxa].
      - rewrite lookup_insert_eq in Hx. injection Hx as <-. rewrite Ha in Hx0. by injection Hx0 as <-.
      - rewrite lookup_insert_ne in Hx by done. congruence. }
    rewrite Ep. split_and!; [done|done|]. rewrite lookup_delete_ne; [done|]. intros <-.
    assert (Eka : getLeaf p = ka).
    { destruct (tr_leaf _ _ _ _ T _ _ _ _ Ha Hb (setLeaf_leaf ka)) as (bs' & K1 & _ & K3).
      rewrite getLeaf_setLeaf in * by apply Hk. rewrite (key_ok_fun _ _ _ _ K1 Hk) in K3. congruence. }
    assert (p = setLeaf ka) as -> by (rewrite <- Eka; now rewrite setLeaf_getLeaf).
    destruct (edge_unique T x c a b (setLeaf ka)) as [-> ->]; [by exists xn0|by exists an|done].
  - intros x c p Hlf. rewrite edge_set_ch by done. split.
    + intros [[-> Hc]|[_ E]]; [|done]. exists an. split; [done|]. by apply lookup_delete_Some in Hc as [_ Hc].
    + intros E. destruct (decide (x = a)) as [->|Hne]; [|by right]. left. split; [done|].
      destruct E as (an' & Ha' & Hc). rewrite Ha in Ha'. injection Ha' as <-.
      apply lookup_delete_Some. split; [|done]. intros <-. rewrite Hb in Hc. injection Hc as <-.
      by rewrite setLeaf_leaf in Hlf.
  - intros bs0 ka0 [Hne H0]%lookup_delete_Some. destruct (tr_map _ _ _ _ T _ _ H0) as (Hk0 & x & c & E). split; [done|].
    exists x, c. apply edge_set_ch; [done|]. destruct (decide (x = a)) as [->|Hxa]; [|by right]. left. split; [done|].
    destruct E as (an' & Ha' & Hc). rewrite Ha in Ha'. injection Ha' as <-. apply lookup_delete_Some. split; [|done].
    intros <-. rewrite Hb in Hc. injection Hc as Hc. apply setLeaf_inj in Hc as <-; [|apply Hk|apply Hk0].
    apply Hne. by apply (key_ok_fun K ka).
  - intros x xn Hx Hn. destruct (decide (x = a)) as [->|Hne].
    + rewrite lookup_insert_eq in Hx. injection Hx as <-. cbn [set_ch an_ch]. destruct Hs3 as [->|Hs3]; [done|].
      rewrite map_size_delete_Some by now exists (setLeaf ka). lia.
    + rewrite lookup_insert_ne in Hx by done. by apply (tr_size _ _ _ _ T _ _ Hx).
Qed.

(** ** Changes of the nodes *)

(** No node has a path that ends between a node and one of its children. *)
Lemma no_node_between a an b c x xn :
  V !! a = Some an -> an_ch an !! b = Some c -> V !! x = Some xn -> (an_path an ++ [b]) `prefix_of` an_path xn ->
  isLeaf c = false /\ exists cn, V !! c = Some cn /\ an_path cn `prefix_of` an_path xn.
Proof.
  intros Ha Hb Hx [Hpre Hbyte]%prefix_snoc_lookup.
  destruct (descend T a an x xn Ha Hx Hpre) as (b' & c' & cn & H1 & H2 & H3 & H4 & H5).
  { intros ->. rewrite Ha in Hx. injection Hx as <-. apply lookup_lt_Some in Hbyte. lia. }
  rewrite Hbyte in H1. injection H1 as <-. rewrite Hb in H2. injection H2 as <-. eauto.
Qed.

End upd.

Definition path (V : trie) (a : Z) : option (list Z) := an_path <$> V !! a.
Definition base (V : trie) (a : Z) : option nat := an_base <$> V !! a.
Definition fanout (V : trie) (a : Z) : nat := default 0%nat ((fun an => size (an_ch an)) <$> V !! a).

Lemma edge_path V a b p : edge V a b p -> exists pi, path V a = Some pi.
Proof. intros (an & Ha & _). exists (an_path an). unfold path. now rewrite Ha. Qed.

(** [trie_ok] in terms of paths and edges. *)
Lemma trie_ok_intro K r V m :
  path V r = Some [] -> base V r = Some 0%nat ->
  (forall a pi, path V a = Some pi -> 0 < a /\ Z.odd a = false) ->
  (forall a b p pi, edge V a b p -> path V a = Some pi -> isLeaf p = true ->
     exists bs, key_ok K (getLeaf p) bs /\ (pi ++ [b]) `prefix_of` bs /\ m !! bs = Some (getLeaf p)) ->
  (forall a b p pi, edge V a b p -> path V a = Some pi -> isLeaf p = false ->
     exists pi', path V p = Some pi' /\ base V p = Some (S (length pi)) /\ (pi ++ [b]) `prefix_of` pi') ->
  (forall c pi, path V c = Some pi -> c <> r -> exists a b, edge V a b c) ->
  (forall a a' pi, path V a = Some pi -> path V a' = Some pi -> a = a') ->
  (forall bs ka, m !! bs = Some ka -> key_ok K ka bs /\ exists a b, edge V a b (setLeaf ka)) ->
  (forall a pi, path V a = Some pi -> a <> r -> (2 <= fanout V a)%nat) ->
  trie_ok K r V m.
Proof.
  intros Hr1 Hr2 Ha Hl Hn Hp Hi Hm Hs. unfold path, base, fanout in *. split.
  - destruct (V !! r) as [rn|]; [|done]. cbn in *. exists rn. split_and!; congruence.
  - intros a an H. apply (Ha a (an_path an)). by rewrite H.
  - intros a an b p H Hb Hlf. apply (Hl a b p); [by exists an|by rewrite H|done].
  - intros a an b p H Hb Hlf. destruct (Hn a b p (an_path an)) as (pi' & H1 & H2 & H3); [by exists an|by rewrite H|done|].
    destruct (V !! p) as [cn|]; [|done]. cbn in *. exists cn. split_and!; congruence.
  - intros c cn H Hc. apply (Hp c (an_path cn)); [by rewrite H|done].
  - intros a a' an an' H H' E. apply (Hi a a' (an_path an)); [by rewrite H|by rewrite H', E].
  - done.
  - intros a an H Har. specialize (Hs a (an_path an)). rewrite H in Hs. cbn in Hs. auto.
Qed.

Section change.
Context {K : gmap Z Key} {r : Z} {V : trie} {m : gmap (list Z) Z} (T : trie_ok K r V m).

Lemma tr_path a pi : path V a = Some pi -> exists an, V !! a = Some an /\ an_path an = pi.
Proof. unfold path. destruct (V !! a) as [an|]; [|done]. cbn. intros [= <-]. eauto. Qed.

Lemma path_addr a pi : path V a = Some pi -> 0 < a /\ Z.odd a = false.
Proof. intros (an & H & _)%tr_path. by apply (tr_addr _ _ _ _ T) in H. Qed.

Lemma path_inj a a' pi : path V a = Some pi -> path V a' = Some pi -> a = a'.
Proof.
  intros (an & H & <-)%tr_path (an' & H' & E)%tr_path. by apply (tr_inj _ _ _ _ T _ _ _ _ H H').
Qed.

Lemma path_root : path V r = Some [] /\ base V r = Some 0%nat.
Proof. destruct (tr_root _ _ _ _ T) as (rn & H & H1 & H2). unfold path, base. rewrite H. cbn. by rewrite H1, H2. Qed.

Lemma edge_leaf a b p pi :
  edge V a b p -> path V a = Some pi -> isLeaf p = true ->
  exists bs, key_ok K (getLeaf p) bs /\ (pi ++ [b]) `prefix_of` bs /\ m !! bs = Some (getLeaf p).
Proof.
  intros (an & Ha & Hb) (an' & Ha' & <-)%tr_path Hl. rewrite Ha in Ha'. injection Ha' as <-.
  by apply (tr_leaf _ _ _ _ T _ _ _ _ Ha Hb).
Qed.

Lemma edge_child a b p pi :
  edge V a b p -> path V a = Some pi -> isLeaf p = false ->
  exists pi', path V p = Some pi' /\ base V p = Some (S (length pi)) /\ (pi ++ [b]) `prefix_of` pi'.
Proof.
  intros (an & Ha & Hb) (an' & Ha' & <-)%tr_path Hl. rewrite Ha in Ha'. injection Ha' as <-.
  destruct (tr_node _ _ _ _ T _ _ _ _ Ha Hb Hl) as (cn & Hc & H1 & H2). exists (an_path cn).
  unfold path, base. rewrite Hc. cbn. by rewrite H1.
Qed.

Lemma path_parent c pi : path V c = Some pi -> c <> r -> exists a b, edge V a b c.
Proof. intros (cn & H & _)%tr_path. by apply (tr_parent _ _ _ _ T _ _ H). Qed.

Lemma path_fanout a pi : path V a = Some pi -> a <> r -> (2 <= fanout V a)%nat.
Proof. intros (an & H & _)%tr_path Hn. unfold fanout. rewrite H. by apply (tr_size _ _ _ _ T _ _ H). Qed.

Lemma path_leaf a pi : path V a = Some pi -> isLeaf a = false.
Proof. intros H. apply path_addr in H as [_ H]. exact H. Qed.

Lemma path_between a b c pi x xi :
  edge V a b c -> path V a = Some pi -> path V x = Some xi -> (pi ++ [b]) `prefix_of` xi ->
  exists ci, path V c = Some ci /\ ci `prefix_of` xi.
Proof.
  intros (an & Ha & Hb) (an' & Ha' & <-)%tr_path (xn & Hx & <-)%tr_path Hp. rewrite Ha in Ha'. injection Ha' as <-.
  destruct (no_node_between T _ _ _ _ _ _ Ha Hb Hx Hp) as (_ & cn & Hc & Hpre).
  exists (an_path cn). unfold path. by rewrite Hc.
Qed.

(** What a child stands for: the bytes of its key or its path. *)
Definition stands_for (p : Z) (bs : list Z) : Prop :=
  if isLeaf p then key_ok K (getLeaf p) bs /\ m !! bs = Some (getLeaf p) else path V p = Some bs.

Lemma edge_stands a b p pi :
  edge V a b p -> path V a = Some pi -> exists bs, stands_for p bs /\ (pi ++ [b]) `prefix_of` bs.
Proof.
  intros He Hp. unfold stands_for. destruct (isLeaf p) eqn:Hl.
  - destruct (edge_leaf a b p pi He Hp Hl) as (bs & ? & ? & ?). eauto.
  - destruct (edge_child a b p pi He Hp Hl) as (bs & ? & ? & ?). eauto.
Qed.

(** ** A child pushed below a new node

    The child [p0] of [pa] is replaced by the new node [nn], whose children are the new leaf and
    [p0]. *)

Section push.
Context (V' : trie) (pa pb p0 nn x y ka : Z) (ppi pi bs bs0 : list Z).
Context (Hedge : edge V pa pb p0) (Hppi : path V pa = Some ppi) (Hst : stands_for p0 bs0).
Context (Hk : key_ok K ka bs) (HN : m !! bs = None).
Context (Hnn : path V nn = None) (Hnn0 : 0 < nn) (Hnno : Z.odd nn = false).
Context (Hpi : (ppi ++ [pb]) `prefix_of` pi) (Hx : (pi ++ [x]) `prefix_of` bs) (Hy : (pi ++ [y]) `prefix_of` bs0).
Context (HE : forall c d p, edge V' c d p <->
   (c = pa /\ d = pb /\ p = nn) \/ (c = nn /\ ((d = x /\ p = setLeaf ka) \/ (d = y /\ p = p0))) \/
   (edge V c d p /\ (c, d) <> (pa, pb))).
Context (HP : forall c, path V' c = if decide (c = nn) then Some pi else path V c).
Context (HB : forall c, c <> nn -> base V' c = if decide (c = p0) then (fun _ => S (length pi)) <$> base V c else base V c)
        (HBn : base V' nn = Some (S (length ppi))).
Context (HF : forall c, c <> nn -> fanout V' c = fanout V c) (HFn : fanout V' nn = 2%nat).

Lemma push_old c ci : path V c = Some ci -> path V' c = Some ci /\ c <> nn.
Proof. intros H. assert (c <> nn) by congruence. split; [|done]. rewrite HP. by rewrite decide_False. Qed.

Lemma push_leaf a b p qi :
  edge V' a b p -> path V' a = Some qi -> isLeaf p = true ->
  exists bs', key_ok K (getLeaf p) bs' /\ (qi ++ [b]) `prefix_of` bs' /\ <[bs := ka]> m !! bs' = Some (getLeaf p).
Proof.
  intros He Ha Hl. rewrite HP in Ha. apply HE in He as [(-> & -> & ->)|[(-> & [[-> ->]|[-> ->]])|[He _]]].
  - unfold isLeaf in Hl. congruence.
  - rewrite decide_True in Ha by done. injection Ha as <-. rewrite getLeaf_setLeaf by apply Hk.
    exists bs. split_and!; [done|done|apply lookup_insert_eq].
  - rewrite decide_True in Ha by done. injection Ha as <-. unfold stands_for in Hst. rewrite Hl in Hst.
    destruct Hst as [? ?]. exists bs0. split_and!; [done|done|]. rewrite lookup_insert_ne; [done|congruence].
  - destruct (edge_path _ _ _ _ He) as (qi' & Hq). destruct (push_old _ _ Hq) as [_ Hne].
    rewrite decide_False, Hq in Ha by done. injection Ha as <-.
    destruct (edge_leaf _ _ _ _ He Hq Hl) as (bs' & H1 & H2 & H3). exists bs'. split_and!; [done|done|].
    rewrite lookup_insert_ne; [done|congruence].
Qed.

Lemma push_child a b p qi :
  edge V' a b p -> path V' a = Some qi -> isLeaf p = false ->
  exists pi', path V' p = Some pi' /\ base V' p = Some (S (length qi)) /\ (qi ++ [b]) `prefix_of` pi'.
Proof.
  intros He Ha Hl. rewrite HP in Ha. apply HE in He as [(-> & -> & ->)|[(-> & [[-> ->]|[-> ->]])|[He Hne]]].
  - rewrite decide_False, Hppi in Ha by congruence. injection Ha as <-. exists pi. by rewrite HP, decide_True.
  - by rewrite setLeaf_leaf in Hl.
  - rewrite decide_True in Ha by done. injection Ha as <-. unfold stands_for in Hst. rewrite Hl in Hst.
    destruct (push_old _ _ Hst) as [H1 H2]. exists bs0. rewrite HB, decide_True by done. split_and!; [done| |done].
    destruct (edge_child _ _ _ _ Hedge Hppi Hl) as (? & _ & -> & _). done.
  - destruct (edge_path _ _ _ _ He) as (qi' & Hq). destruct (push_old _ _ Hq) as [_ Hann].
    rewrite decide_False, Hq in Ha by done. injection Ha as <-.
    destruct (edge_child _ _ _ _ He Hq Hl) as (pi' & H1 & H2 & H3). destruct (push_old _ _ H1) as [H1' Hpn].
    exists pi'. rewrite HB, decide_False; [done| |done]. intros ->. apply Hne.
    destruct (edge_unique T _ _ _ _ _ He Hedge) as [-> ->]. done.
Qed.

Lemma trie_push : trie_ok K r V' (<[bs := ka]> m).
Proof.
  destruct path_root as [Hr1 Hr2]. destruct (push_old _ _ Hr1) as [Hr1' Hrn].
  assert (Hpar : forall c d p, edge V c d p -> p <> p0 -> edge V' c d p).
  { intros c d p He Hne. apply HE. right; right. split; [done|]. intros [= -> ->]. apply Hne.
    destruct He as (an & H1 & H2), Hedge as (an' & H1' & H2'). congruence. }
  apply trie_ok_intro; [done| |..].
  - rewrite HB by done. destruct (decide (r = p0)) as [<-|]; [|done]. by destruct (root_no_parent T pa pb).
  - intros a qi H. rewrite HP in H. destruct (decide (a = nn)) as [->|]; [done|by eapply path_addr].
  - exact push_leaf.
  - exact push_child.
  - intros c ci Hc Hcr. rewrite HP in Hc. destruct (decide (c = nn)) as [->|Hcn].
    { exists pa, pb. apply HE. by left. }
    destruct (path_parent _ _ Hc Hcr) as (a & b & He). destruct (decide (c = p0)) as [->|Hcp]; [|eauto].
    exists nn, y. apply HE. right; left. split; [done|]. by right.
  - intros a a' qi Ha Ha'. rewrite HP in Ha, Ha'.
    assert (Hno : forall c, path V c <> Some pi).
    { intros c Hc. destruct (path_between _ _ _ _ _ _ Hedge Hppi Hc Hpi) as (ci & Hci & Hpre).
      unfold stands_for in Hst. rewrite (path_leaf _ _ Hci), Hci in Hst. injection Hst as ->.
      apply prefix_length in Hpre, Hy. rewrite length_app in Hy. cbn in Hy. lia. }
    destruct (decide (a = nn)) as [->|], (decide (a' = nn)) as [->|]; try done.
    + injection Ha as <-. by destruct (Hno a').
    + injection Ha' as <-. by destruct (Hno a).
    + by eapply path_inj.
  - intros bs1 ka1 H1. apply lookup_insert_Some in H1 as [[<- <-]|[_ H1]].
    { split; [done|]. exists nn, x. apply HE. right; left. split; [done|]. by left. }
    destruct (tr_map _ _ _ _ T _ _ H1) as (Hk1 & a & b & He). split; [done|].
    destruct (decide (setLeaf ka1 = p0)) as [Ep|Hne]; [|eauto].
    exists nn, y. apply HE. right; left. split; [done|]. right. by rewrite Ep.
  - intros a qi Ha Har. rewrite HP in Ha. destruct (decide (a = nn)) as [->|Hn]; [by rewrite HFn|].
    rewrite HF by done. by eapply path_fanout.
Qed.

End push.

(** ** A node replaced by its only remaining child

    [a], the child of [pa], has the leaf [ka] and [p2] as children; [p2] takes its place. *)

Section pull.
Context (V' : trie) (pa pb a b b2 p2 ka : Z) (bs : list Z).
Context (Hedge : edge V pa pb a) (He1 : edge V a b (setLeaf ka)) (He2 : edge V a b2 p2) (Hbb : b <> b2).
Context (Honly : forall d p, edge V a d p -> d = b \/ d = b2) (Har : a <> r).
Context (Hk : key_ok K ka bs).
Context (HE : forall c d p, edge V' c d p <->
   (c = pa /\ d = pb /\ p = p2) \/ (edge V c d p /\ c <> a /\ (c, d) <> (pa, pb))).
Context (HP : forall c, path V' c = if decide (c = a) then None else path V c).
Context (HB : forall c, base V' c = if decide (c = a) then None else if decide (c = p2) then (fun _ => default 0%nat (base V a)) <$> base V c else base V c).
Context (HF : forall c, c <> a -> fanout V' c = fanout V c).

Lemma pull_pa : pa <> a.
Proof. intros ->. by destruct (no_self_edge T a pb). Qed.

Lemma pull_p2 : p2 <> a.
Proof. intros ->. by destruct (no_self_edge T a b2). Qed.

(** The leaf is only reached through [a]. *)
Lemma pull_not_leaf c d p : edge V c d p -> c <> a -> p <> setLeaf ka.
Proof. intros He Hn ->. by destruct (edge_unique T _ _ _ _ _ He He1). Qed.

(** The other edges, for keys that stay. *)
Lemma pull_edge c d p : edge V c d p -> p <> a -> p <> setLeaf ka -> exists c' d', edge V' c' d' p.
Proof.
  intros He Hpa Hpk. destruct (decide (c = a)) as [->|Hca].
  - exists pa, pb. apply HE. left. split_and!; try done. destruct (Honly _ _ He) as [->| ->].
    + destruct He as (an & H1 & H2), He1 as (an' & H1' & H2'). congruence.
    + destruct He as (an & H1 & H2), He2 as (an' & H1' & H2'). congruence.
  - exists c, d. apply HE. right. split_and!; try done. intros [= -> ->].
    destruct He as (an & H1 & H2), Hedge as (an' & H1' & H2'). congruence.
Qed.

Lemma pull_new_edge ppi :
  path V pa = Some ppi -> exists pi, path V a = Some pi /\ base V a = Some (S (length ppi)) /\
    (ppi ++ [pb]) `prefix_of` pi.
Proof.
  intros Hp. destruct (edge_path _ _ _ _ He1) as (pi & Ha).
  destruct (edge_child _ _ _ _ Hedge Hp (path_leaf _ _ Ha)) as (pi' & H1 & H2 & H3). eauto.
Qed.

Lemma pull_leaf c d p qi :
  edge V' c d p -> path V' c = Some qi -> isLeaf p = true ->
  exists bs', key_ok K (getLeaf p) bs' /\ (qi ++ [d]) `prefix_of` bs' /\ delete bs m !! bs' = Some (getLeaf p).
Proof.
  intros He Hc Hl. rewrite HP in Hc. destruct (decide (c = a)) as [->|Hca]; [done|].
  assert (Hdel : forall bs', m !! bs' = Some (getLeaf p) -> key_ok K (getLeaf p) bs' -> p <> setLeaf ka -> delete bs m !! bs' = Some (getLeaf p)).
  { intros bs' H Hk' Hne. apply lookup_delete_Some. split; [|done]. intros <-. apply Hne.
    destruct (edge_path _ _ _ _ He1) as (pi & Ha).
    destruct (edge_leaf _ _ _ _ He1 Ha (setLeaf_leaf ka)) as (bs' & K1 & _ & K3).
    rewrite getLeaf_setLeaf in * by apply Hk. rewrite (key_ok_fun _ _ _ _ K1 Hk) in K3.
    assert (getLeaf p = ka) as <- by congruence. by rewrite setLeaf_getLeaf. }
  apply HE in He as [(-> & -> & ->)|(He & _ & _)].
  - destruct (pull_new_edge qi Hc) as (pi & Ha & _ & Hpre).
    destruct (edge_leaf _ _ _ _ He2 Ha Hl) as (bs' & H1 & H2 & H3). exists bs'. split_and!; [done| |].
    + apply prefix_snoc_lookup in H2 as [H2 _]. by transitivity pi.
    + apply Hdel; [done..|]. intros E. rewrite E in He2. destruct (edge_unique T _ _ _ _ _ He1 He2). done.
  - destruct (edge_leaf _ _ _ _ He Hc Hl) as (bs' & H1 & H2 & H3). exists bs'. split_and!; [done|done|].
    apply Hdel; [done..|]. by eapply pull_not_leaf.
Qed.

Lemma pull_child c d p qi :
  edge V' c d p -> path V' c = Some qi -> isLeaf p = false ->
  exists pi', path V' p = Some pi' /\ base V' p = Some (S (length qi)) /\ (qi ++ [d]) `prefix_of` pi'.
Proof.
  intros He Hc Hl. rewrite HP in Hc. destruct (decide (c = a)) as [->|Hca]; [done|].
  apply HE in He as [(-> & -> & ->)|(He & _ & Hne)].
  - destruct (pull_new_edge qi Hc) as (pi & Ha & Hba & Hpre).
    destruct (edge_child _ _ _ _ He2 Ha Hl) as (pi' & H1 & H2 & H3). exists pi'. pose proof pull_p2.
    rewrite HP, HB, !decide_False, decide_True, H2, Hba by done. split_and!; [done|done|].
    apply prefix_snoc_lookup in H3 as [H3 _]. by transitivity pi.
  - destruct (edge_child _ _ _ _ He Hc Hl) as (pi' & H1 & H2 & H3). exists pi'.
    assert (p <> a).
    { intros ->. destruct (edge_unique T _ _ _ _ _ He Hedge) as [-> ->]. done. }
    assert (p <> p2).
    { intros ->. destruct (edge_unique T _ _ _ _ _ He He2) as [-> ->]. done. }
    rewrite HP, HB, !decide_False by done. done.
Qed.

Lemma trie_pull : trie_ok K r V' (delete bs m).
Proof.
  destruct path_root as [Hr1 Hr2]. pose proof pull_pa. pose proof pull_p2.
  apply trie_ok_intro.
  - by rewrite HP, decide_False.
  - rewrite HB, decide_False by done. destruct (decide (r = p2)) as [<-|]; [|done]. by destruct (root_no_parent T a b2).
  - intros c ci Hc. rewrite HP in Hc. destruct (decide (c = a)); [done|by eapply path_addr].
  - exact pull_leaf.
  - exact pull_child.
  - intros c ci Hc Hcr. rewrite HP in Hc. destruct (decide (c = a)) as [->|Hca]; [done|].
    destruct (path_parent _ _ Hc Hcr) as (e & d & He). apply (pull_edge e d c He Hca).
    intros ->. apply path_leaf in Hc. by rewrite setLeaf_leaf in Hc.
  - intros c c' ci Hc Hc'. rewrite HP in Hc, Hc'. destruct (decide (c = a)), (decide (c' = a)); try done. by eapply path_inj.
  - intros bs1 ka1 [Hne H1]%lookup_delete_Some. destruct (tr_map _ _ _ _ T _ _ H1) as (Hk1 & e & d & He). split; [done|].
    apply (pull_edge e d _ He).
    + intros Hc. destruct (edge_path _ _ _ _ He1) as (pi & Ha). apply path_leaf in Ha. rewrite <- Hc in Ha. by rewrite setLeaf_leaf in Ha.
    + intros Hc. apply setLeaf_inj in Hc as ->; [|apply Hk1|apply Hk]. apply Hne. by apply (key_ok_fun K ka).
  - intros c ci Hc Hcr. rewrite HP in Hc. destruct (decide (c = a)) as [|Hca]; [done|]. rewrite HF by done. by eapply path_fanout.
Qed.

End pull.

(** ** A node replaced by a copy *)

Section copy.
Context (V' : trie) (pa pb a nn : Z).
Context (Hedge : edge V pa pb a) (Har : a <> r) (Hpath : is_Some (path V a)).
Context (Hnn : path V nn = None) (Hnn0 : 0 < nn) (Hnno : Z.odd nn = false).
Context (HE : forall c d p, edge V' c d p <->
   (c = pa /\ d = pb /\ p = nn) \/ (c = nn /\ edge V a d p) \/ (edge V c d p /\ c <> a /\ (c, d) <> (pa, pb))).
Context (HP : forall c, path V' c = if decide (c = nn) then path V a else if decide (c = a) then None else path V c).
Context (HB : forall c, base V' c = if decide (c = nn) then base V a else if decide (c = a) then None else base V c).
Context (HF : forall c, c <> a -> c <> nn -> fanout V' c = fanout V c) (HFn : fanout V' nn = fanout V a).

(** An edge of the copied trie comes from one of the original: from the node [src] that stands
    for [c]. *)
Lemma copy_edge c d p :
  edge V' c d p -> (c = pa /\ d = pb /\ p = nn) \/
  exists c0, edge V c0 d p /\ path V c0 = path V' c /\ p <> a.
Proof.
  intros He. apply HE in He as [He|[[-> He]|(He & Hca & Hne)]]; [by left|right..].
  - exists a. split; [done|]. rewrite HP, decide_True by done. split; [done|]. intros ->. by destruct (no_self_edge T a d).
  - exists c. split; [done|]. assert (c <> nn) by (intros ->; apply edge_path in He as (? & ?); congruence).
    rewrite HP, !decide_False by done. split; [done|]. intros ->. destruct (edge_unique T _ _ _ _ _ He Hedge) as [-> ->]. done.
Qed.

Lemma copy_edge_inv c d p : edge V c d p -> p <> a -> exists c', edge V' c' d p.
Proof.
  intros He Hpa. destruct (decide (c = a)) as [->|Hca].
  - exists nn. apply HE. right; left. done.
  - exists c. apply HE. right; right. split_and!; try done. intros [= -> ->].
    destruct He as (an & H1 & H2), Hedge as (an' & H1' & H2'). congruence.
Qed.

Lemma trie_copy : trie_ok K r V' m.
Proof.
  destruct path_root as [Hr1 Hr2]. destruct Hpath as [ai Hai].
  assert (Hann : a <> nn) by congruence.
  apply trie_ok_intro.
  - rewrite HP, !decide_False; congruence.
  - rewrite HB, !decide_False; congruence.
  - intros c ci Hc. rewrite HP in Hc. destruct (decide (c = nn)) as [->|]; [done|]. destruct (decide (c = a)); [done|by eapply path_addr].
  - intros c d p qi He Hc Hl. destruct (copy_edge _ _ _ He) as [(-> & -> & ->)|(c0 & H0 & Hp0 & Hpa)].
    + unfold isLeaf in Hl. congruence.
    + rewrite Hc in Hp0. by apply (edge_leaf _ _ _ _ H0 Hp0).
  - intros c d p qi He Hc Hl. destruct (copy_edge _ _ _ He) as [(-> & -> & ->)|(c0 & H0 & Hp0 & Hpa)].
    + assert (pa <> nn) by (destruct (edge_path _ _ _ _ Hedge); congruence).
      assert (pa <> a) by (intros ->; by destruct (no_self_edge T a pb)).
      rewrite HP, !decide_False in Hc by done.
      destruct (edge_child _ _ _ _ Hedge Hc (path_leaf _ _ Hai)) as (pi' & H1 & H2 & H3).
      exists pi'. by rewrite HP, HB, !decide_True.
    + rewrite Hc in Hp0. destruct (edge_child _ _ _ _ H0 Hp0 Hl) as (pi' & H1 & H2 & H3). exists pi'.
      rewrite HP, HB, !decide_False by congruence. done.
  - intros c ci Hc Hcr. rewrite HP in Hc. destruct (decide (c = nn)) as [->|Hcn].
    { exists pa, pb. apply HE. by left. }
    destruct (decide (c = a)) as [->|Hca]; [done|].
    destruct (path_parent _ _ Hc Hcr) as (e & d & He). destruct (copy_edge_inv _ _ _ He Hca) as (e' & He'). eauto.
  - intros c c' ci Hc Hc'. rewrite HP in Hc, Hc'.
    destruct (decide (c = nn)) as [->|], (decide (c' = nn)) as [->|]; try done;
      repeat case_decide; try done; [exfalso..|by eapply path_inj].
    + by destruct (path_inj _ _ _ Hc Hc').
    + by destruct (path_inj _ _ _ Hc Hc').
  - intros bs1 ka1 H1. destruct (tr_map _ _ _ _ T _ _ H1) as (Hk1 & e & d & He). split; [done|].
    destruct (copy_edge_inv _ _ _ He) as (e' & He'); [|eauto].
    intros Hc. apply path_leaf in Hai. rewrite <- Hc in Hai. by rewrite setLeaf_leaf in Hai.
  - intros c ci Hc Hcr. rewrite HP in Hc. destruct (decide (c = nn)) as [->|Hcn]; [rewrite HFn; by eapply path_fanout|].
    destruct (decide (c = a)) as [|Hca]; [done|]. rewrite HF by done. by eapply path_fanout.
Qed.

End copy.

End change.

(** ** P-ART: the tries the operations leave

    The changes of [ArtTrieUpd] for the tries the operations on nodes leave. *)

Lemma edge_insert V x xn c d p :
  edge (<[x := xn]> V) c d p <-> (c = x /\ an_ch xn !! d = Some p) \/ (c <> x /\ edge V c d p).
Proof.
  unfold edge. split.
  - intros (cn & [[<- <-]|[Hn Hc]]%lookup_insert_Some & Hp); [by left|right]. eauto.
  - intros [[-> Hp]|[Hn (cn & Hc & Hp)]].
    + exists xn. by rewrite lookup_insert_eq.
    + exists cn. by rewrite lookup_insert_ne by done.
Qed.

Lemma edge_delete V x c d p : edge (delete x V) c d p <-> c <> x /\ edge V c d p.
Proof.
  unfold edge. split.
  - intros (cn & [Hn Hc]%lookup_delete_Some & Hp). split; [done|]. eauto.
  - intros [Hn (cn & Hc & Hp)]. exists cn. by rewrite lookup_delete_ne by done.
Qed.

(** A projection of the nodes of an updated trie. *)
Lemma fmap_insert_case {A} (f : anode -> A) (V : trie) x xn c :
  f <$> <[x := xn]> V !! c = if decide (c = x) then Some (f xn) else f <$> V !! c.
Proof. destruct (decide (c = x)) as [->|Hn]; [by rewrite lookup_insert_eq|by rewrite lookup_insert_ne]. Qed.

Lemma fmap_delete_case {A} (f : anode -> A) (V : trie) x c :
  f <$> delete x V !! c = if decide (c = x) then None else f <$> V !! c.
Proof. destruct (decide (c = x)) as [->|Hn]; [by rewrite lookup_delete_eq|by rewrite lookup_delete_ne]. Qed.

Lemma fanout_insert (V : trie) x xn c :
  fanout (<[x := xn]> V) c = if decide (c = x) then size (an_ch xn) else fanout V c.
Proof. unfold fanout. rewrite fmap_insert_case. by case_decide. Qed.

Lemma fanout_delete (V : trie) x c : fanout (delete x V) c = if decide (c = x) then 0%nat else fanout V c.
Proof. unfold fanout. rewrite fmap_delete_case. by case_decide. Qed.

Lemma lookup_path V a an : V !! a = Some an -> path V a = Some (an_path an) /\ base V a = Some (an_base an) /\ fanout V a = size (an_ch an).
Proof. intros H. unfold path, base, fanout. by rewrite H. Qed.

Lemma lookup_path_None V a : V !! a = None -> path V a = None.
Proof. intros H. unfold path. by rewrite H. Qed.

Section ops.
Context {K : gmap Z Key} {r : Z} {V : trie} {m : gmap (list Z) Z} (T : trie_ok K r V m).
Context (pa pb : Z) (pan : anode) (Hpa : V !! pa = Some pan).

(** The node [a] replaced by a copy at [nn]. *)
Definition copied (a nn : Z) (an : anode) : trie :=
  <[pa := set_ch pan (<[pb := nn]> (an_ch pan))]> (<[nn := an]> (delete a V)).

Lemma trie_copied a an nn :
  V !! a = Some an -> an_ch pan !! pb = Some a -> V !! nn = None -> 0 < nn -> Z.odd nn = false ->
  trie_ok K r (copied a nn an) m.
Proof.
  intros Ha Hedge Hnn Hnn0 Hnno. assert (He : edge V pa pb a) by (by exists pan).
  assert (pa <> a) by (intros ->; by destruct (no_self_edge T a pb)). assert (pa <> nn) by congruence. assert (a <> nn) by congruence.
  assert (Har : a <> r) by (intros ->; by destruct (root_no_parent T pa pb)).
  destruct (lookup_path V a an Ha) as (Hpath & Hbase & Hfan). destruct (lookup_path V pa pan Hpa) as (Hpp & Hpbs & Hpf).
  assert (Hedges : forall d p, edge V pa d p <-> an_ch pan !! d = Some p).
  { intros d p. split; [intros (x & Hx & Hp); congruence|by exists pan]. }
  assert (Hedgea : forall d p, edge V a d p <-> an_ch an !! d = Some p).
  { intros d p. split; [intros (x & Hx & Hp); congruence|by exists an]. }
  apply (trie_copy T (copied a nn an) pa pb a nn); try done; unfold copied.
  - by apply lookup_path_None.
  - intros c d p. rewrite !edge_insert, edge_delete. cbn [set_ch an_ch]. rewrite lookup_insert_Some, <- Hedges, <- Hedgea.
    split.
    + intros [[-> [[<- <-]|[Hd E]]]|[Hcp [[-> E]|(Hcn & Hca & E)]]]; [by left|..].
      * right; right. split_and!; [done|done|congruence].
      * right; left. done.
      * right; right. split_and!; [done|done|congruence].
    + intros [(-> & -> & ->)|[[-> E]|(E & Hca & Hne)]].
      * left. split; [done|]. by left.
      * right. split; [done|]. by left.
      * destruct (decide (c = pa)) as [->|Hcp].
        -- left. split; [done|]. right. split; [congruence|done].
        -- right. split; [done|]. right. split_and!; try done. intros ->. apply edge_path in E as (? & E').
           unfold path in E'. by rewrite Hnn in E'.
  - intros c. unfold path. rewrite !fmap_insert_case, fmap_delete_case. cbn [set_ch an_path]. rewrite Ha. cbn.
    destruct (decide (c = pa)) as [->|]; [|done]. rewrite !decide_False by done. by rewrite Hpa.
  - intros c. unfold base. rewrite !fmap_insert_case, fmap_delete_case. cbn [set_ch an_base]. rewrite Ha. cbn.
    destruct (decide (c = pa)) as [->|]; [|done]. rewrite !decide_False by done. by rewrite Hpa.
  - intros c Hca Hcn. rewrite !fanout_insert, fanout_delete. cbn [set_ch an_ch].
    destruct (decide (c = pa)) as [->|]; [|by rewrite !decide_False by done].
    rewrite map_size_insert_Some by (by eexists). by rewrite Hpf.
  - rewrite !fanout_insert, decide_False, decide_True, Hfan by done. done.
Qed.

(** The child [p0] of [pa] pushed below the new node [nn]; [V0] is [V] with the base of [p0]
    adapted, if it is a node. *)
Definition pushed (V0 : trie) (nn : Z) (pi : list Z) (x ka y p0 : Z) : trie :=
  <[pa := set_ch pan (<[pb := nn]> (an_ch pan))]>
    (<[nn := mkA pi (S (length (an_path pan))) {[x := setLeaf ka; y := p0]}]> V0).

Lemma two_children (x y p q : Z) : x <> y -> size ({[x := p; y := q]} : gmap Z Z) = 2%nat.
Proof. intros H. by rewrite map_size_insert_None, map_size_singleton by (by rewrite lookup_singleton_ne). Qed.

Lemma trie_pushed V0 p0 nn x y ka pi bs bs0 :
  an_ch pan !! pb = Some p0 -> stands_for (K := K) (V := V) (m := m) p0 bs0 ->
  key_ok K ka bs -> m !! bs = None -> V !! nn = None -> 0 < nn -> Z.odd nn = false ->
  (an_path pan ++ [pb]) `prefix_of` pi -> (pi ++ [x]) `prefix_of` bs -> (pi ++ [y]) `prefix_of` bs0 -> x <> y ->
  (forall c, V0 !! c = if decide (c = p0) then (fun cn => set_base cn (S (length pi))) <$> V !! c else V !! c) ->
  trie_ok K r (pushed V0 nn pi x ka y p0) (<[bs := ka]> m).
Proof.
  intros Hedge Hst Hk HN Hnn Hnn0 Hnno Hpi Hx Hy Hxy HV0. assert (He : edge V pa pb p0) by (by exists pan).
  assert (Hpp0 : pa <> p0) by (intros ->; by destruct (no_self_edge T p0 pb)). assert (pa <> nn) by congruence.
  destruct (lookup_path V pa pan Hpa) as (Hpp & Hpbs & Hpf).
  assert (Hedges : forall d p, edge V pa d p <-> an_ch pan !! d = Some p).
  { intros d p. split; [intros (z & Hz & Hp); congruence|by exists pan]. }
  assert (HE0 : forall c d p, edge V0 c d p <-> edge V c d p).
  { intros c d p. unfold edge. rewrite HV0. destruct (decide (c = p0)) as [->|]; [|done].
    destruct (V !! p0) as [cn|]; cbn; [|by split; intros (? & ? & _)].
    split; intros (z & [= <-] & Hp); eauto. }
  assert (Hnp : p0 <> nn).
  { intros ->. unfold stands_for, isLeaf in Hst. rewrite Hnno in Hst. by rewrite (lookup_path_None _ _ Hnn) in Hst. }
  apply (trie_push T (pushed V0 nn pi x ka y p0) pa pb p0 nn x y ka (an_path pan) pi bs bs0); try done; unfold pushed.
  - by apply lookup_path_None.
  - intros c d p. rewrite !edge_insert, HE0. cbn [set_ch an_ch]. rewrite !lookup_insert_Some, lookup_singleton_Some, <- Hedges.
    split.
    + intros [[-> [[<- <-]|[Hd E]]]|[Hcp [[-> [[<- <-]|[Hd [<- <-]]]]|[Hcn E]]]]; [by left|..].
      * right; right. split; [done|congruence].
      * right; left. split; [done|]. by left.
      * right; left. split; [done|]. by right.
      * right; right. split; [done|congruence].
    + intros [(-> & -> & ->)|[(-> & [[-> ->]|[-> ->]])|[E Hne]]].
      * left. split; [done|]. by left.
      * right. split; [done|]. left. split; [done|]. by left.
      * right. split; [done|]. left. split; [done|]. by right.
      * destruct (decide (c = pa)) as [->|Hcp].
        -- left. split; [done|]. right. split; [congruence|done].
        -- right. split; [done|]. right. split; [|done]. intros ->. apply edge_path in E as (? & E').
           unfold path in E'. by rewrite Hnn in E'.
  - intros c. unfold path. rewrite !fmap_insert_case. cbn [set_ch an_path].
    destruct (decide (c = pa)) as [->|]; [by rewrite decide_False, Hpa by done|]. destruct (decide (c = nn)); [done|].
    rewrite HV0. destruct (decide (c = p0)) as [->|]; [|done]. by destruct (V !! p0).
  - intros c Hcn. unfold base. rewrite !fmap_insert_case. cbn [set_ch an_base].
    destruct (decide (c = pa)) as [->|]; [by rewrite decide_False, Hpa by done|]. rewrite decide_False by done.
    rewrite HV0. destruct (decide (c = p0)) as [->|]; [|done]. by destruct (V !! p0).
  - unfold base. rewrite !fmap_insert_case, decide_False, decide_True by done. done.
  - intros c Hcn. rewrite !fanout_insert. cbn [set_ch an_ch]. destruct (decide (c = pa)) as [->|].
    + rewrite map_size_insert_Some by (by eexists). by rewrite Hpf.
    + rewrite decide_False by done. unfold fanout. rewrite HV0. destruct (decide (c = p0)) as [->|]; [|done]. by destruct (V !! p0).
  - rewrite !fanout_insert, decide_False, decide_True by done. by apply two_children.
Qed.

(** The node [a] replaced by its child [p2]; [V0] is [V] with the base of [p2] adapted, if it is
    a node. *)
Definition pulled (V0 : trie) (a p2 : Z) : trie :=
  <[pa := set_ch pan (<[pb := p2]> (an_ch pan))]> (delete a V0).

Lemma trie_pulled V0 a an b b2 p2 ka bs :
  V !! a = Some an -> an_ch pan !! pb = Some a ->
  an_ch an !! b = Some (setLeaf ka) -> an_ch an !! b2 = Some p2 -> b <> b2 -> size (an_ch an) = 2%nat -> key_ok K ka bs ->
  (forall c, V0 !! c = if decide (c = p2) then (fun cn => set_base cn (an_base an)) <$> V !! c else V !! c) ->
  trie_ok K r (pulled V0 a p2) (delete bs m).
Proof.
  intros Ha Hedge Hb Hb2 Hbb Hsz Hk HV0. assert (He : edge V pa pb a) by (by exists pan).
  assert (Hpaa : pa <> a) by (intros ->; by destruct (no_self_edge T a pb)).
  assert (Har : a <> r) by (intros ->; by destruct (root_no_parent T pa pb)).
  assert (He2 : edge V a b2 p2) by (by exists an). assert (Hp2a : p2 <> a) by (intros ->; by destruct (no_self_edge T a b2)).
  assert (Hp2pa : p2 <> pa).
  { intros ->. destruct (edge_node T _ _ _ _ _ Ha Hb2 Hpa) as [_ H1]. destruct (edge_node T _ _ _ _ _ Hpa Hedge Ha) as [_ H2].
    apply prefix_length in H1, H2. rewrite length_app in H1, H2. cbn in H1, H2. lia. }
  destruct (lookup_path V pa pan Hpa) as (Hpp & Hpbs & Hpf). destruct (lookup_path V a an Ha) as (Hap & Hab & Haf).
  assert (Hedges : forall d p, edge V pa d p <-> an_ch pan !! d = Some p).
  { intros d p. split; [intros (z & Hz & Hp); congruence|by exists pan]. }
  assert (HE0 : forall c d p, edge V0 c d p <-> edge V c d p).
  { intros c d p. unfold edge. rewrite HV0. destruct (decide (c = p2)) as [->|]; [|done].
    destruct (V !! p2) as [cn|]; cbn; [|by split; intros (? & ? & _)].
    split; intros (z & [= <-] & Hp); eauto. }
  apply (trie_pull T (pulled V0 a p2) pa pb a b b2 p2 ka bs); try done; unfold pulled.
  - by exists an.
  - intros d p (an' & Ha' & Hd). rewrite Ha in Ha'. injection Ha' as <-.
    destruct (decide (d = b)) as [|Hdb]; [by left|]. right. destruct (decide (d = b2)) as [|Hdb2]; [done|exfalso].
    assert (Hs3 : (3 <= size (an_ch an))%nat); [|lia].
    rewrite <- (insert_delete_id _ _ _ Hb), map_size_insert_None by apply lookup_delete_eq.
    rewrite <- (insert_delete_id (delete b (an_ch an)) b2 p2), map_size_insert_None
      by (apply lookup_delete_eq || by rewrite lookup_delete_ne).
    rewrite <- (insert_delete_id (delete b2 (delete b (an_ch an))) d p), map_size_insert_None
      by (apply lookup_delete_eq || by rewrite !lookup_delete_ne). lia.
  - intros c d p. rewrite !edge_insert, edge_delete, HE0. cbn [set_ch an_ch]. rewrite !lookup_insert_Some, <- Hedges.
    split.
    + intros [[-> [[<- <-]|[Hd E]]]|(Hcp & Hca & E)]; [by left|..].
      * right. split_and!; [done|done|congruence].
      * right. split_and!; [done|done|congruence].
    + intros [(-> & -> & ->)|(E & Hca & Hne)].
      * left. split; [done|]. by left.
      * destruct (decide (c = pa)) as [->|Hcp].
        -- left. split; [done|]. right. split; [congruence|done].
        -- right. done.
  - intros c. unfold path. rewrite !fmap_insert_case, fmap_delete_case. cbn [set_ch an_path].
    destruct (decide (c = pa)) as [->|]; [by rewrite decide_False, Hpa by done|]. destruct (decide (c = a)); [done|].
    rewrite HV0. destruct (decide (c = p2)) as [->|]; [|done]. by destruct (V !! p2).
  - intros c. rewrite Hab. unfold base. rewrite !fmap_insert_case, fmap_delete_case. cbn [set_ch an_base default from_option id].
    destruct (decide (c = pa)) as [->|]; [by rewrite !decide_False, Hpa by done|]. destruct (decide (c = a)); [done|].
    rewrite HV0. destruct (decide (c = p2)) as [->|]; [|done]. by destruct (V !! p2).
  - intros c Hca. rewrite !fanout_insert, fanout_delete. cbn [set_ch an_ch]. destruct (decide (c = pa)) as [->|].
    + rewrite map_size_insert_Some by (by eexists). by rewrite Hpf.
    + rewrite decide_False by done. unfold fanout. rewrite HV0. destruct (decide (c = p2)) as [->|]; [|done]. by destruct (V !! p2).
Qed.

End ops.
