(* ===== verification/ArtRep.v ===== *)
(** * P-ART: nodes that represent a trie

    The word with type, version and lock bits; what a node has to hold to stand for an abstract
    one; and the runs of the methods on the header. *)

From S2P Require Import Prelude ArtNode ArtSlots ArtLayout ArtClass ArtTree ArtTrie Epoche.
#[local] Open Scope Z_scope.
#[local] Open Scope cmd_scope.

(** ** The word

    Two bits of type, sixty of version, one for the lock, one for obsolete. *)

(** The word of a node of type [t] and version [v] that is neither locked nor obsolete. *)
Definition word (t v : Z) : Z := 2 ^ 62 * t + 4 * v.

(** Versions that leave room for one more operation. *)
Definition version_ok (v : Z) : Prop := 0 <= v < 2 ^ 60 - 2.

Lemma word_type t v d : 0 <= t <= 3 -> version_ok v -> 0 <= d < 8 -> Z.shiftr (word t v + d) 62 = t.
Proof.
  intros Ht Hv Hd. unfold word, version_ok in *. rewrite Z.shiftr_div_pow2 by lia.
  rewrite (Z.mul_comm (2 ^ 62)), <- Z.add_assoc, Z.div_add_l by lia.
  rewrite Z.div_small by lia. lia.
Qed.

Lemma word_u64 t v d : 0 <= t <= 3 -> version_ok v -> 0 <= d < 8 -> u64 (word t v + d) = word t v + d.
Proof. intros Ht Hv Hd. apply u64_small. unfold word, version_ok in *. lia. Qed.

Lemma word_land t v d k : 0 <= d < 4 -> 0 <= k < 4 -> Z.land (word t v + d) k = Z.land d k.
Proof.
  intros Hd Hk. apply Z.bits_inj_iff'. intros n Hn. rewrite !Z.land_spec.
  destruct (Z.lt_ge_cases n 2) as [Hn2|Hn2].
  - f_equal. rewrite <- (Z.mod_pow2_bits_low _ 2 n) by lia. rewrite <- (Z.mod_pow2_bits_low d 2 n) by lia. f_equal.
    unfold word. replace (2 ^ 62 * t + 4 * v + d) with (d + (2 ^ 60 * t + v) * 2 ^ 2) by lia. apply Z.mod_add. lia.
  - rewrite (bits_above k 2 n) by lia. now rewrite !andb_false_r.
Qed.

Lemma word_free t v : isLocked (word t v) = false /\ isObsolete (word t v) = false.
Proof. unfold isLocked, isObsolete. rewrite <- (Z.add_0_r (word t v)), !word_land by lia. done. Qed.

Lemma word_succ t v : word t v + 4 = word t (v + 1).
Proof. unfold word. lia. Qed.

(** ** The compressed prefix

    The prefix [p] stores the bytes of [pi] from index [b] on: their number, and the first four
    of them. *)
Definition stored (p : Prefix) (pi : list Z) (b : nat) : Prop :=
  (b <= length pi)%nat /\ prefixCount p = Z.of_nat (length pi - b) /\ length (prefixBytes p) = 4%nat /\
  forall i x, (i < 4)%nat -> pi !! (b + i)%nat = Some x -> prefixBytes p !! i = Some (Some x).

(** ** Nodes *)

(** The node [n] holds the children and the path of [an]; its prefix starts at [b]. Enough for
    reading, whether the lock is held or not. *)
Definition node_read (n : NodeN) (an : anode) (b : nat) : Prop :=
  layout n /\ chmap n = an_ch an /\ level n = Z.of_nat (length (an_path an)) /\ stored (pfx n) (an_path an) b.

(** [v] is the version of the node, which is not locked. *)
Definition node_rep (n : NodeN) (an : anode) (b : nat) (v : Z) : Prop :=
  node_read n an b /\ typeVersionLockObsolete n = word (tag (body n)) v /\ version_ok v.

(** How many children a node of a type keeps: with fewer, it is replaced by a smaller one. *)
Definition min_children (t : Z) : nat :=
  if t =? NT4 then 2 else if t =? NT16 then 3 else if t =? NT48 then 12 else 37.

(** The prefix is the one the position of the node calls for, the counters are right, and a node
    is not larger than it needs to be. *)
Definition node_ok (n : NodeN) (an : anode) (is_root : Prop) (v : Z) : Prop :=
  node_rep n an (an_base an) v /\ full n /\
  (is_root -> tag (body n) = NT256) /\ (~ is_root -> (min_children (tag (body n)) <= size (an_ch an))%nat).

Lemma tag_range b : 0 <= tag b <= 3.
Proof. destruct b; cbv; split; congruence. Qed.

Lemma rep_word n an b v : node_rep n an b v -> typeVersionLockObsolete n = word (tag (body n)) v /\ version_ok v.
Proof. intros (_ & H). exact H. Qed.

(** *** Locks *)

(** The node [n] with its lock held. *)
Definition locked (n : NodeN) : NodeN := set_word n (typeVersionLockObsolete n + 2).

Lemma layout_set_word n w :
  layout n -> Z.shiftr w 62 = Z.shiftr (typeVersionLockObsolete n) 62 -> layout (set_word n w).
Proof. intros (H1 & H2 & H3 & H4) Hw. split; [|done]. cbn [set_word typeVersionLockObsolete body]. congruence. Qed.

Section header.
Context (n : NodeN) (v : Z).
Context (Hw : typeVersionLockObsolete n = word (tag (body n)) v) (Hv : version_ok v) (Hl : layout n).

Lemma lock_run lg :
  lockVersionOrRestart (typeVersionLockObsolete n) (mkNS n lg) = Ok (false, mkNS (locked n) lg).
Proof.
  unfold lockVersionOrRestart. rewrite Hw. destruct (word_free (tag (body n)) v) as [-> ->]. cbn [orb].
  rewrite load_bind, Hw, Z.eqb_refl. unfold locked. rewrite Hw.
  pose proof (word_u64 (tag (body n)) v 2 (tag_range _) Hv ltac:(lia)) as E.
  cbv [cbind store cmod cret self flushed]. now rewrite E.
Qed.

Lemma writeLock_run lg : writeLockOrRestart (mkNS n lg) = Ok (false, mkNS (locked n) lg).
Proof.
  unfold writeLockOrRestart. rewrite load_bind, Hw. destruct (word_free (tag (body n)) v) as [-> ->].
  unfold locked. rewrite Hw. pose proof (word_u64 (tag (body n)) v 2 (tag_range _) Hv ltac:(lia)) as E.
  cbv [cbind store cmod cret self flushed]. now rewrite E.
Qed.

Lemma layout_locked : layout (locked n).
Proof.
  apply layout_set_word; [done|]. rewrite Hw, (word_type _ v 2 (tag_range _) Hv) by lia.
  rewrite <- (Z.add_0_r (word _ v)). now rewrite (word_type _ v 0 (tag_range _) Hv) by lia.
Qed.

End header.

(** The lock of [n0], held in [n], is released: the version of [n0] goes up by one. *)
Lemma unlock_run n v lg :
  typeVersionLockObsolete n = word (tag (body n)) v + 2 -> version_ok v ->
  writeUnlock (mkNS n lg) = Ok (tt, mkNS (set_word n (word (tag (body n)) (v + 1))) lg).
Proof.
  intros Hw Hv. unfold writeUnlock, fetch_add_word. cbv [store cmod self flushed]. rewrite Hw.
  replace (word (tag (body n)) v + 2 + 2) with (word (tag (body n)) v + 4) by lia.
  rewrite word_u64 by (apply tag_range || done || lia). now rewrite word_succ.
Qed.

Lemma unlockObsolete_run n v lg :
  typeVersionLockObsolete n = word (tag (body n)) v + 2 -> version_ok v ->
  writeUnlockObsolete (mkNS n lg) = Ok (tt, mkNS (set_word n (word (tag (body n)) v + 5)) lg).
Proof.
  intros Hw Hv. unfold writeUnlockObsolete, fetch_add_word. cbv [store cmod self flushed]. rewrite Hw.
  replace (word (tag (body n)) v + 2 + 3) with (word (tag (body n)) v + 5) by lia.
  now rewrite word_u64 by (apply tag_range || done || lia).
Qed.

(** ** Methods on the heap *)

Lemma at_node_run {A} a (mt : stM NS A) h K r ep hs li n x n' lg :
  h !! a = Some n -> mt (mkNS n []) = Ok (x, mkNS n' lg) ->
  at_node a mt (mkArt h K r ep hs li) =
  Ok (x, mkArt (<[a := n']> h) K r ep (hs ++ ((fun y => <[a := y]> h) <$> lg)) li).
Proof. intros Ha Hm. unfold at_node. cbn [nodes]. now rewrite Ha, Hm. Qed.

Lemma at_node_quiet {A} a (mt : stM NS A) h K r ep hs li n x n' :
  h !! a = Some n -> mt (mkNS n []) = Ok (x, mkNS n' []) ->
  at_node a mt (mkArt h K r ep hs li) = Ok (x, mkArt (<[a := n']> h) K r ep hs li).
Proof.
  intros Ha Hm. rewrite (at_node_run _ _ _ _ _ _ _ _ _ _ _ _ Ha Hm). cbn. now rewrite app_nil_r.
Qed.

Lemma at_node_read {A} a (mt : stM NS A) h K r ep hs li n x :
  h !! a = Some n -> mt (mkNS n []) = Ok (x, mkNS n []) ->
  at_node a mt (mkArt h K r ep hs li) = Ok (x, mkArt h K r ep hs li).
Proof.
  intros Ha Hm. rewrite (at_node_quiet _ _ _ _ _ _ _ _ _ _ _ Ha Hm). now rewrite insert_id.
Qed.

(** ** Keys *)

Section keys.
Context {K : gmap Z Key} {ka : Z} {bs : list Z} (Hk : key_ok K ka bs).

Lemma getKeyLen_run h r ep hs li :
  getKeyLen ka (mkArt h K r ep hs li) = Ok (Z.of_nat (length bs), mkArt h K r ep hs li).
Proof. destruct Hk as ((x & H1 & H2 & H3) & _). unfold getKeyLen. cbn [keys]. now rewrite H1, H3. Qed.

Lemma key_byte_run h r ep hs li (i : nat) b :
  bs !! i = Some b -> key_byte ka (Z.of_nat i) (mkArt h K r ep hs li) = Ok (b, mkArt h K r ep hs li).
Proof.
  intros Hb. destruct Hk as ((x & H1 & H2 & H3) & _). unfold key_byte. cbn [keys]. rewrite H1, H2.
  apply arr_get_run; [lia|]. now rewrite Nat2Z.id.
Qed.

(** Reading past the end is an invalid access. *)
Lemma key_byte_end h r ep hs li (i : nat) :
  (length bs <= i)%nat -> key_byte ka (Z.of_nat i) (mkArt h K r ep hs li) = Err UB_access.
Proof.
  intros Hi. destruct Hk as ((x & H1 & H2 & H3) & _). unfold key_byte. cbn [keys]. rewrite H1, H2.
  unfold arr_get. rewrite (proj2 (Z.leb_le 0 (Z.of_nat i))) by lia. rewrite Nat2Z.id.
  now rewrite lookup_ge_None_2 by lia.
Qed.

Lemma key_bound i b : bs !! i = Some b -> byte b.
Proof. intros H. destruct Hk as (_ & Hb & _). rewrite list.Forall_forall in Hb. apply Hb. now apply list_elem_of_lookup_2 in H. Qed.

Lemma key_short : Z.of_nat (length bs) < 2 ^ 31.
Proof. apply Hk. Qed.

End keys.

(** ** P-ART: lookup

    [Tree::checkPrefix] and [Tree::lookup]. Both also work when the stored prefixes do not fit
    the position of the nodes, as after a crash in the middle of a split or a merge, with the
    exception [prefix_usable] excludes. *)

(** A prefix that starts at [b], met at level [lv]: it starts late, or at most four bytes early,
    or all of it is stored. *)
Definition prefix_usable (b lv len : nat) : Prop := (lv < b)%nat \/ (lv - b <= 4)%nat \/ (len - b <= 4)%nat.

Section run.
Context {K : gmap Z Key} {ka : Z} {bs : list Z} (Hk : key_ok K ka bs).

(** The bytes compared are those of the path and of the key at the same place. *)
Lemma check_loop p pi b st cnt : forall s,
  st = mkArt (nodes st) K (root st) (epoche st) (hist st) (lock_initializer st) ->
  stored p pi b -> (length pi < length bs)%nat -> (b + s + cnt <= length pi)%nat -> (s + cnt <= 4)%nat ->
  exists res, cloop (seqZ (Z.of_nat s) (Z.of_nat cnt)) (fun i level =>
             b <- prefix_byte p i;
             kb <- key_byte ka level;
             if b =? kb then cret (inl (u32 (level + 1))) else cret (inr level)) (Z.of_nat (b + s)) st = Ok (res, st) /\
    ((res = inl (Z.of_nat (b + s + cnt)) /\ forall j, (b + s <= j < b + s + cnt)%nat -> pi !! j = bs !! j) \/
     (exists l, res = inr l) /\ exists j, (b + s <= j < b + s + cnt)%nat /\ pi !! j <> bs !! j).
Proof.
  induction cnt as [|cnt IH]; intros s Hst Hp Hlen Hi H4.
  - exists (inl (Z.of_nat (b + s + 0))). split; [by rewrite Nat.add_0_r|]. left. split; [done|]. lia.
  - rewrite seqZ_cons by lia. cbn [cloop].
    destruct (lookup_lt_is_Some_2 pi (b + s)) as (x & Hx); [lia|].
    destruct (lookup_lt_is_Some_2 bs (b + s)) as (y & Hy); [lia|].
    assert (Hpb : prefix_byte p (Z.of_nat s) st = Ok (x, st)).
    { unfold prefix_byte. rewrite (cbind_Ok _ _ _ (Some x) st); [done|]. apply arr_get_run; [lia|].
      rewrite Nat2Z.id. apply Hp; [lia|done]. }
    assert (Hkb : key_byte ka (Z.of_nat (b + s)) st = Ok (y, st)).
    { rewrite Hst. by apply (key_byte_run Hk). }
    rewrite cbind_assoc, (cbind_Ok _ _ _ _ _ Hpb), cbind_assoc, (cbind_Ok _ _ _ _ _ Hkb).
    destruct (Z.eqb_spec x y) as [->|Hne].
    + rewrite (cbind_Ok _ _ _ (inl (u32 (Z.of_nat (b + s) + 1))) st) by done.
      pose proof (key_short Hk). rewrite u32_small by lia.
      replace (Z.of_nat (b + s) + 1) with (Z.of_nat (b + S s)) by lia.
      replace (Z.succ (Z.of_nat s)) with (Z.of_nat (S s)) by lia.
      replace (Z.pred (Z.of_nat (S cnt))) with (Z.of_nat cnt) by lia.
      destruct (IH (S s) Hst Hp Hlen ltac:(lia) ltac:(lia)) as (res & Hr & Hc). exists res. split; [exact Hr|].
      destruct Hc as [[-> Hall]|[Hl (j & Hj & Hne)]].
      * left. split; [f_equal; lia|]. intros j Hj. destruct (decide (j = (b + s)%nat)) as [->|]; [congruence|].
        apply Hall. lia.
      * right. split; [done|]. exists j. split; [lia|done].
    + rewrite (cbind_Ok _ _ _ (inr (Z.of_nat (b + s))) st) by done. eexists. split; [reflexivity|]. right.
      split; [by eexists|]. exists (b + s)%nat. split; [lia|congruence].
Qed.

(** What the answer of [checkPrefix] means for the key. *)
Definition check_answer (c : CheckPrefixResult) (lv : Z) (pi : list Z) (l : nat) : Prop :=
  match c with
  | CP_NoMatch => ~ pi `prefix_of` bs \/ (length bs <= length pi)%nat
  | CP_Match => lv = Z.of_nat (length pi) /\ (length pi < length bs)%nat /\
                (take l pi `prefix_of` bs -> pi `prefix_of` bs)
  | CP_OptimisticMatch => lv = Z.of_nat (length pi) /\ (length pi < length bs)%nat
  end.

Lemma prefix_extend (pi : list Z) l :
  take l pi `prefix_of` bs -> (forall j, (l <= j < length pi)%nat -> pi !! j = bs !! j) -> (length pi <= length bs)%nat ->
  pi `prefix_of` bs.
Proof.
  intros Ht Hj Hlen. exists (drop (length pi) bs). apply list_eq. intros i.
  destruct (Nat.lt_ge_cases i (length pi)) as [Hi|Hi].
  - rewrite lookup_app_l by done. destruct (Nat.lt_ge_cases i l) as [Hil|Hil].
    + rewrite (prefix_lookup_eq _ _ i Ht) by (rewrite length_take; lia). by rewrite lookup_take_lt.
    + symmetry. apply Hj. lia.
  - rewrite lookup_app_r, lookup_drop by done. f_equal. lia.
Qed.

Lemma checkPrefix_run h r ep hs li a n an b l :
  h !! a = Some n -> node_read n an b -> (l <= length (an_path an))%nat ->
  prefix_usable b l (length (an_path an)) ->
  exists c lv, checkPrefix a ka (Z.of_nat l) (mkArt h K r ep hs li) = Ok ((c, lv), mkArt h K r ep hs li) /\
    check_answer c lv (an_path an) l.
Proof.
  intros Ha (Hly & _ & Hlv & Hst) Hl Hus. set (s := mkArt h K r ep hs li). set (pi := an_path an) in *.
  pose proof (key_short Hk) as Hks. pose proof Hst as (Hb & Hpc & _).
  unfold checkPrefix. rewrite (cbind_Ok _ _ _ _ _ (getKeyLen_run Hk h r ep hs li)).
  rewrite (cbind_Ok _ _ _ _ _ (at_node_read a getLevel h K r ep hs li n _ Ha eq_refl)). cbn [self]. rewrite Hlv.
  destruct (Z.leb_spec (Z.of_nat (length bs)) (Z.of_nat (length pi))) as [Hle|Hlt].
  { do 2 eexists. split; [reflexivity|]. right. lia. }
  rewrite (cbind_Ok _ _ _ _ _ (at_node_read a getPrefi h K r ep hs li n _ Ha eq_refl)). cbn [self]. rewrite Hpc.
  rewrite u32_small by lia. destruct (Z.ltb_spec (Z.of_nat (length pi - b) + Z.of_nat l) (Z.of_nat (length pi))) as [Hop|Hnop].
  { do 2 eexists. split; [reflexivity|]. split; lia. }
  destruct (Z.ltb_spec 0 (Z.of_nat (length pi - b))) as [Hpos|Hz].
  2: { do 2 eexists. split; [reflexivity|]. assert (l = length pi) as -> by lia. split_and!; [done|lia|]. by rewrite take_ge. }
  rewrite u32_small by lia. cbv zeta.
  set (cnt := (Nat.min (length pi - b) 4 - (l - b))%nat).
  replace (Z.of_nat l + Z.of_nat (length pi - b) - Z.of_nat (length pi)) with (Z.of_nat (l - b)) by lia.
  destruct (Nat.le_gt_cases (l - b) 4) as [Hs4|Hs4].
  - replace (Z.min _ _ - _) with (Z.of_nat cnt) by (unfold maxStoredPrefixLength; lia).
    destruct (check_loop (pfx n) pi b s cnt (l - b) eq_refl Hst ltac:(lia) ltac:(lia) ltac:(lia)) as (res & Hr & Hc).
    replace (b + (l - b))%nat with l in * by lia. rewrite (cbind_Ok _ _ _ _ _ Hr).
    destruct Hc as [[-> Hall]|[(lx & ->) (j & Hj & Hne)]].
    + unfold maxStoredPrefixLength. destruct (Z.ltb_spec 4 (Z.of_nat (length pi - b))).
      * do 2 eexists. split; [reflexivity|]. rewrite u32_small by lia. split; lia.
      * do 2 eexists. split; [reflexivity|]. split_and!; [lia|lia|]. intros Hpre. apply (prefix_extend pi l Hpre); [|lia].
        intros j Hj. apply Hall. lia.
    + do 2 eexists. split; [reflexivity|]. left. intros Hpre. apply Hne. symmetry. apply prefix_lookup_eq; [done|]. lia.
  - destruct Hus as [Hus|[Hus|Hus]]; lia.
Qed.

Lemma checkKey_run h r ep hs li kb bs' :
  key_ok K kb bs' ->
  checkKey kb ka (mkArt h K r ep hs li) = Ok (if decide (bs' = bs) then kb else 0, mkArt h K r ep hs li).
Proof.
  intros Hk'. destruct Hk as ((x & H1 & H2 & H3) & _), Hk' as ((y & H1' & H2' & H3') & _).
  unfold checkKey. cbn [keys]. rewrite H1, H1', H3, H3', H2, H2', Nat2Z.id, (firstn_all bs).
  destruct (Z.eqb_spec (Z.of_nat (length bs')) (Z.of_nat (length bs))) as [E|E]; cbn [andb].
  - rewrite take_ge by lia. destruct (decide (bs' = bs)) as [->|Hne].
    + by rewrite bool_decide_eq_true_2.
    + by rewrite bool_decide_eq_false_2.
  - destruct (decide (bs' = bs)) as [->|]; [lia|done].
Qed.

(** Every node of the trie is in the heap, with a prefix that can be used. *)
Definition reps (h : gmap Z NodeN) (V : trie) : Prop :=
  forall a an, V !! a = Some an -> exists n b,
    h !! a = Some n /\ node_read n an b /\ prefix_usable b (an_base an) (length (an_path an)).

(** What [lookup] answers: the leaf of the key; without one, NULL or the leaf of a longer key. *)
Definition lookup_answer (m : gmap (list Z) Z) (ret : Z) : Prop :=
  match m !! bs with
  | Some x => ret = x
  | None => ret = 0 \/ exists bs', m !! bs' = Some ret /\ bs `prefix_of` bs'
  end.

Context {r : Z} {V : trie} {m : gmap (list Z) Z} (T : trie_ok K r V m).

Lemma base_le a an : V !! a = Some an -> (an_base an <= length (an_path an))%nat.
Proof.
  intros Ha. destruct (decide (a = r)) as [->|Hn].
  - destruct (tr_root _ _ _ _ T) as (rn & Hr & _ & Hb). rewrite Ha in Hr. injection Hr as <-. lia.
  - destruct (tr_parent _ _ _ _ T _ _ Ha Hn) as (p & b & pn & Hp & Hb).
    destruct (edge_node T _ _ _ _ _ Hp Hb Ha) as [-> Hpre]. apply prefix_length in Hpre.
    rewrite length_app in Hpre. cbn in Hpre. lia.
Qed.

(** The end of the search at a leaf. *)
Lemma lookup_at_leaf a an b ret (opt : bool) :
  V !! a = Some an -> an_ch an !! b = Some ret -> isLeaf ret = true -> bs !! length (an_path an) = Some b ->
  (opt = false -> an_path an `prefix_of` bs) -> (is_Some (m !! bs) -> an_path an `prefix_of` bs) ->
  exists bs', key_ok K (getLeaf ret) bs' /\ m !! bs' = Some (getLeaf ret) /\
    lookup_answer m (if decide (bs' = bs) then getLeaf ret else 0) /\
    (length bs = S (length (an_path an)) -> opt = false -> lookup_answer m (getLeaf ret)).
Proof.
  intros Ha Hb Hl Hbb Hopt Hin. destruct (tr_leaf _ _ _ _ T _ _ _ _ Ha Hb Hl) as (bs' & Hk' & Hpre & Hm).
  exists bs'. split_and!; [done|done|..].
  - unfold lookup_answer. destruct (decide (bs' = bs)) as [->|Hne]; [by rewrite Hm|].
    destruct (m !! bs) as [x|] eqn:Em; [|by left].
    destruct (key_place T a an b bs x Ha) as (p & Hp & Hc); [apply prefix_snoc_lookup; eauto|done|].
    rewrite Hb in Hp. injection Hp as <-. destruct Hc as [->|(cn & _ & Hc & _)]; [|congruence]. exfalso. apply Hne.
    rewrite getLeaf_setLeaf in Hk' by (apply (tr_map _ _ _ _ T) in Em as (Hkx & _); apply Hkx).
    apply (key_ok_fun K x); [done|]. by apply (tr_map _ _ _ _ T) in Em as (Hkx & _).
  - intros Hlen Ho. assert (E : an_path an ++ [b] = bs).
    { apply prefix_length_eq; [apply prefix_snoc_lookup; eauto|]. rewrite length_app. cbn. lia. }
    rewrite E in Hpre. unfold lookup_answer. destruct (m !! bs) as [x|] eqn:Em; [|eauto].
    rewrite (keys_prefix_free T _ _ _ _ Em Hm Hpre) in Em. congruence.
Qed.

(** A child that is missing: the key is not there. *)
Lemma lookup_no_child a an b :
  V !! a = Some an -> an_ch an !! b = None -> bs !! length (an_path an) = Some b ->
  (is_Some (m !! bs) -> an_path an `prefix_of` bs) -> m !! bs = None.
Proof.
  intros Ha Hb Hbb Hin. destruct (m !! bs) as [x|] eqn:Em; [|done]. exfalso.
  destruct (key_place T a an b bs x Ha) as (p & Hp & _); [apply prefix_snoc_lookup; eauto|done|]. congruence.
Qed.

(** One node further down. *)
Lemma lookup_child a an b c cn (opt : bool) :
  V !! a = Some an -> an_ch an !! b = Some c -> V !! c = Some cn -> bs !! length (an_path an) = Some b ->
  (opt = false -> an_path an `prefix_of` bs) -> (is_Some (m !! bs) -> an_path an `prefix_of` bs) ->
  an_base cn = S (length (an_path an)) /\
  (opt = false -> take (an_base cn) (an_path cn) `prefix_of` bs) /\
  (is_Some (m !! bs) -> an_path cn `prefix_of` bs).
Proof.
  intros Ha Hb Hc Hbb Hopt Hin. destruct (edge_node T _ _ _ _ _ Ha Hb Hc) as [Hbase Hpre].
  split_and!; [done|..].
  - intros Ho. rewrite Hbase. destruct Hpre as [k ->].
    rewrite take_app_le by (rewrite length_app; cbn; lia). rewrite take_ge by (rewrite length_app; cbn; lia).
    apply prefix_snoc_lookup. auto.
  - intros [x Hx]. destruct (key_place T a an b bs x Ha) as (p & Hp & Hcase); [apply prefix_snoc_lookup; eauto|done|].
    rewrite Hb in Hp. injection Hp as <-. destruct Hcase as [->|(cn' & Hc' & _ & Hpb)].
    + apply (node_not_leaf T) in Hc. by rewrite setLeaf_leaf in Hc.
    + rewrite Hc in Hc'. by injection Hc' as <-.
Qed.

Lemma getChild_run h ep hs li a n an b0 b :
  h !! a = Some n -> node_read n an b0 -> byte b ->
  at_node a (N_getChild b) (mkArt h K r ep hs li) = Ok (default 0 (an_ch an !! b), mkArt h K r ep hs li).
Proof.
  intros Hn (Hl & Hch & _) Hb. rewrite <- Hch. apply (at_node_read _ _ _ _ _ _ _ _ n); [done|]. by apply N_getChild_run.
Qed.

(** The rest of a round, once the prefix has been passed. *)
Lemma lookup_round h ep hs li fuel a an n b0 (opt : bool) :
  V !! a = Some an -> h !! a = Some n -> node_read n an b0 -> (length (an_path an) < length bs)%nat ->
  (opt = false -> an_path an `prefix_of` bs) -> (is_Some (m !! bs) -> an_path an `prefix_of` bs) ->
  (forall c cn, V !! c = Some cn -> an_base cn = S (length (an_path an)) ->
     (opt = false -> take (an_base cn) (an_path cn) `prefix_of` bs) -> (is_Some (m !! bs) -> an_path cn `prefix_of` bs) ->
     exists ret, lookup_loop fuel ka c (Z.of_nat (an_base cn)) opt (mkArt h K r ep hs li) = Ok (ret, mkArt h K r ep hs li) /\
       lookup_answer m ret) ->
  let level := Z.of_nat (length (an_path an)) in
  exists ret, (kl <- getKeyLen ka;
          if kl <=? level then cret 0
          else
            kb <- key_byte ka level;
            node <- at_node a (N_getChild kb);
            if node =? 0 then cret 0
            else if isLeaf node then
              let ret := getLeaf node in
              if (level <? kl - 1) || opt then checkKey ret ka else cret ret
            else lookup_loop fuel ka node (u32 (level + 1)) opt) (mkArt h K r ep hs li) = Ok (ret, mkArt h K r ep hs li) /\
    lookup_answer m ret.
Proof.
  intros Ha Hn Hrep Hlt Hopt Hin IH level. pose proof (key_short Hk) as Hks.
  destruct (lookup_lt_is_Some_2 bs (length (an_path an)) Hlt) as (b & Hb).
  rewrite (cbind_Ok _ _ _ _ _ (getKeyLen_run Hk h r ep hs li)). unfold level.
  rewrite (proj2 (Z.leb_gt _ _)) by lia.
  rewrite (cbind_Ok _ _ _ _ _ (key_byte_run Hk h r ep hs li _ _ Hb)).
  rewrite (cbind_Ok _ _ _ _ _ (getChild_run h ep hs li a n an b0 b Hn Hrep (key_bound Hk _ _ Hb))).
  destruct (an_ch an !! b) as [p|] eqn:Ech; cbn [default from_option id].
  2: { rewrite Z.eqb_refl. exists 0. split; [done|]. unfold lookup_answer.
       rewrite (lookup_no_child a an b Ha Ech Hb Hin). by left. }
  destruct (isLeaf p) eqn:Hl.
  - rewrite (proj2 (Z.eqb_neq p 0)) by (intros ->; done).
    destruct (lookup_at_leaf a an b p opt Ha Ech Hl Hb Hopt Hin) as (bs' & Hk' & Hm' & Hans & Hans').
    cbv zeta. destruct ((Z.of_nat (length (an_path an)) <? Z.of_nat (length bs) - 1) || opt) eqn:Ec.
    + eexists. split; [by apply checkKey_run|done].
    + apply orb_false_iff in Ec as [Ec ->]. apply Z.ltb_ge in Ec. eexists. split; [done|]. apply Hans'; [lia|done].
  - destruct (tr_node _ _ _ _ T _ _ _ _ Ha Ech Hl) as (cn & Hc & _). pose proof (tr_addr _ _ _ _ T _ _ Hc) as [Hp0 _].
    rewrite (proj2 (Z.eqb_neq p 0)) by lia. rewrite u32_small by lia.
    destruct (lookup_child a an b p cn opt Ha Ech Hc Hb Hopt Hin) as (Hbase & H1 & H2).
    replace (Z.of_nat (length (an_path an)) + 1) with (Z.of_nat (an_base cn)) by lia. by apply IH.
Qed.

Lemma lookup_loop_run h ep hs li : reps h V -> forall fuel a an opt,
  V !! a = Some an -> (length bs < fuel + an_base an)%nat -> (an_base an <= length bs)%nat ->
  (opt = false -> take (an_base an) (an_path an) `prefix_of` bs) ->
  (is_Some (m !! bs) -> an_path an `prefix_of` bs) ->
  exists ret, lookup_loop fuel ka a (Z.of_nat (an_base an)) opt (mkArt h K r ep hs li) = Ok (ret, mkArt h K r ep hs li) /\
    lookup_answer m ret.
Proof.
  intros HR fuel. induction fuel as [|fuel IH]; intros a an opt Ha Hfuel Hb Hopt Hin; [lia|].
  destruct (HR a an Ha) as (n & b0 & Hn & Hrep & Hus). pose proof (base_le a an Ha) as Hbl.
  destruct (checkPrefix_run h r ep hs li a n an b0 (an_base an) Hn Hrep Hbl Hus) as (c & lv & Hr & Hc).
  cbn [lookup_loop]. rewrite (cbind_Ok _ _ _ _ _ Hr). destruct c; cbn [check_answer] in Hc.
  - destruct Hc as (-> & Hlt & Hpre). apply (lookup_round h ep hs li fuel a an n b0); try done; [auto|].
    intros c cn Hc Hbase H1 H2. apply IH; try done; lia.
  - exists 0. split; [done|]. unfold lookup_answer. destruct (m !! bs) as [x|] eqn:Em; [|by left]. exfalso.
    pose proof (Hin ltac:(by eexists)) as Hpre. pose proof (key_longer T a an bs x Ha Em Hpre).
    destruct Hc as [Hc|Hc]; [done|lia].
  - destruct Hc as (-> & Hlt). apply (lookup_round h ep hs li fuel a an n b0); try done.
    intros c cn Hc Hbase H1 H2. apply IH; try done; lia.
Qed.

(** From the root. *)
Lemma lookup_run h ep hs li :
  reps h V ->
  exists ret, lookup_loop (S (length bs)) ka r 0 false (mkArt h K r ep hs li) = Ok (ret, mkArt h K r ep hs li) /\
    lookup_answer m ret.
Proof.
  intros HR. destruct (tr_root _ _ _ _ T) as (rn & Hr & Hp & Hb).
  destruct (lookup_loop_run h ep hs li HR (S (length bs)) r rn false Hr) as (ret & H & Ha); try lia.
  - intros _. rewrite Hp, take_nil. apply prefix_nil.
  - intros _. rewrite Hp. apply prefix_nil.
  - rewrite Hb in H. eauto.
Qed.

End run.
