(* ===== verification/ArtPrefix.v ===== *)
(** * P-ART: the pessimistic check of a prefix

    [N::getAnyChildTid] reaches a leaf below any node, and [Tree::checkPrefixPessimistic], which
    compares a whole prefix with the help of such a leaf, tells where the key leaves the path of
    a node. *)

From S2P Require Import Prelude ArtNode ArtSlots ArtLayout ArtClass Epoche ArtTree ArtTrie ArtRep.
#[local] Open Scope Z_scope.
#[local] Open Scope cmd_scope.

(** Every node of the trie is in the heap with its invariant; [B] bounds the versions. *)
Definition nodes_ok (h : gmap Z NodeN) (V : trie) (r B : Z) : Prop :=
  forall a an, V !! a = Some an -> exists n v, h !! a = Some n /\ node_ok n an (a = r) v /\ v <= B.

(** ** Filling an array *)

Lemma cfold_ext {X A L} (l : list A) (f g : A -> L -> stM X L) acc s :
  (forall a acc s, f a acc s = g a acc s) -> cfold l f acc s = cfold l g acc s.
Proof.
  intros H. revert acc s. induction l as [|a l IH]; intros acc s; [done|]. cbn [cfold]. unfold cbind. rewrite H.
  destruct (g a acc s) as [[acc' s']|e]; [apply IH|done].
Qed.

Lemma fill_run {X A} (get : Z -> stM X A) (f : nat -> A) s c : forall st l,
  (forall j, (st <= j < st + c)%nat -> get (Z.of_nat j) s = Ok (f j, s)) -> (st + c <= length l)%nat ->
  exists l', cfold (seqZ (Z.of_nat st) (Z.of_nat c)) (fun j bs => b <- get j; arr_set bs j b) l s = Ok (l', s) /\
    length l' = length l /\ (forall j, (st <= j < st + c)%nat -> l' !! j = Some (f j)) /\
    (forall j, (j < st)%nat -> l' !! j = l !! j).
Proof.
  induction c as [|c IH]; intros st l Hg Hl.
  - exists l. split; [done|]. split_and!; [done|lia|done].
  - rewrite seqZ_cons by lia. cbn [cfold].
    replace (Z.succ (Z.of_nat st)) with (Z.of_nat (S st)) by lia. replace (Z.pred (Z.of_nat (S c))) with (Z.of_nat c) by lia.
    rewrite cbind_assoc, (cbind_Ok _ _ _ _ _ (Hg st ltac:(lia))).
    rewrite (cbind_Ok _ _ _ _ _ (arr_set_run l (Z.of_nat st) (f st) s ltac:(lia))), Nat2Z.id.
    destruct (IH (S st) (<[st := f st]> l)) as (l' & Hr & H1 & H2 & H3).
    + intros j Hj. apply Hg. lia.
    + rewrite length_insert. lia.
    + exists l'. split; [exact Hr|]. rewrite length_insert in H1. split_and!; [done|..].
      * intros j Hj. destruct (decide (j = st)) as [->|]; [|apply H2; lia].
        rewrite H3 by lia. apply list_lookup_insert_eq. lia.
      * intros j Hj. rewrite H3 by lia. rewrite list_lookup_insert_ne by lia. done.
Qed.

Section walk.
Context {K : gmap Z Key} {r : Z} {V : trie} {m : gmap (list Z) Z} (T : trie_ok K r V m).
Context {h : gmap Z NodeN} {B : Z} (HN : nodes_ok h V r B).

(** ** A leaf below a node *)

(** The nodes further down than a given level. *)
Definition depth (a : Z) : nat := match V !! a with Some an => length (an_path an) | None => 0 end.
Definition deeper (l : nat) : gset Z := filter (fun a => (l < depth a)%nat) (dom V).

Lemma deeper_lt a an b c cn :
  V !! a = Some an -> an_ch an !! b = Some c -> V !! c = Some cn ->
  (size (deeper (length (an_path cn))) < size (deeper (length (an_path an))))%nat.
Proof.
  intros Ha Hb Hc. destruct (edge_node T _ _ _ _ _ Ha Hb Hc) as [_ Hpre]. apply prefix_length in Hpre.
  rewrite length_app in Hpre. cbn in Hpre. apply subset_size. split.
  - intros x Hx. apply elem_of_filter in Hx as [Hx1 Hx2]. apply elem_of_filter. split; [lia|done].
  - intros Hsub. assert (Hin : c ∈ deeper (length (an_path an))).
    { apply elem_of_filter. unfold depth. rewrite Hc. split; [lia|]. apply elem_of_dom. by eexists. }
    apply Hsub, elem_of_filter in Hin as [Hin _]. unfold depth in Hin. rewrite Hc in Hin. lia.
Qed.

Lemma deeper_fuel l : (size (deeper l) < S (size h))%nat.
Proof.
  assert (size (deeper l) <= size (dom V))%nat by (apply subseteq_size; intros x Hx; by apply elem_of_filter in Hx as [_ Hx]).
  assert (size (dom V) <= size (dom h))%nat.
  { apply subseteq_size. intros x [xn Hx]%elem_of_dom. destruct (HN x xn Hx) as (n & v & Hn & _). apply elem_of_dom. by eexists. }
  rewrite !size_dom in *. lia.
Qed.

(** The root is not below the root. *)
Lemma deeper_root rn : V !! r = Some rn -> an_path rn = [] -> (size (deeper 0) < size h)%nat.
Proof.
  intros Hr Hp. assert (size (dom V) <= size (dom h))%nat.
  { apply subseteq_size. intros x [xn Hx]%elem_of_dom. destruct (HN x xn Hx) as (n & v & Hn & _). apply elem_of_dom. by eexists. }
  assert (size (deeper 0) < size (dom V))%nat; [|rewrite !size_dom in *; lia].
  apply subset_size. split; [intros x Hx; by apply elem_of_filter in Hx as [_ Hx]|]. intros Hsub.
  assert (Hin : r ∈ dom V) by (apply elem_of_dom; by eexists). apply Hsub, elem_of_filter in Hin as [Hin _]. unfold depth in Hin. rewrite Hr, Hp in Hin. cbn in Hin. lia.
Qed.

Lemma getAnyChildTid_loop_run ep hs li fuel : forall a an,
  V !! a = Some an -> an_ch an <> ∅ -> (size (deeper (length (an_path an))) < fuel)%nat ->
  exists kt bt, getAnyChildTid_loop fuel a (mkArt h K r ep hs li) = Ok (kt, mkArt h K r ep hs li) /\
    key_ok K kt bt /\ an_path an `prefix_of` bt /\ m !! bt = Some kt.
Proof.
  induction fuel as [|fuel IH]; intros a an Ha Hne Hf; [lia|]. cbn [getAnyChildTid_loop].
  destruct (HN a an Ha) as (n & v & Hn & (((Hl & Hch & _) & _) & Hfull & _) & _).
  destruct (N_getAnyChild_run n [] Hl Hfull ltac:(by rewrite Hch)) as (p & k & Hrun & Hp).
  rewrite (cbind_Ok _ _ _ _ _ (at_node_read _ _ _ _ _ _ _ _ _ _ Hn Hrun)).
  pose proof (child_byte n k p Hl Hp) as [_ Hp0]. rewrite Hch in Hp.
  rewrite (proj2 (Z.eqb_neq p 0) Hp0). rewrite (cbind_Ok (cassert _) _ _ tt _) by done.
  destruct (isLeaf p) eqn:Hlf.
  - destruct (tr_leaf _ _ _ _ T _ _ _ _ Ha Hp Hlf) as (bt & H1 & H2 & H3). exists (getLeaf p), bt.
    apply prefix_snoc_lookup in H2 as [H2 _]. done.
  - destruct (tr_node _ _ _ _ T _ _ _ _ Ha Hp Hlf) as (cn & Hc & _ & Hpre).
    assert (Hcr : p <> r) by (intros ->; apply (root_no_parent T a k); by exists an).
    destruct (IH p cn Hc) as (kt & bt & Hr & H1 & H2 & H3).
    + pose proof (tr_size _ _ _ _ T _ _ Hc Hcr) as Hs. intros E. rewrite E, map_size_empty in Hs. lia.
    + pose proof (deeper_lt _ _ _ _ _ Ha Hp Hc). lia.
    + exists kt, bt. split_and!; try done. apply prefix_snoc_lookup in Hpre as [Hpre _]. by transitivity (an_path cn).
Qed.

Lemma getAnyChildTid_run ep hs li a an :
  V !! a = Some an -> a <> r ->
  exists kt bt, getAnyChildTid a (mkArt h K r ep hs li) = Ok (kt, mkArt h K r ep hs li) /\
    key_ok K kt bt /\ an_path an `prefix_of` bt /\ m !! bt = Some kt.
Proof.
  intros Ha Hr. apply getAnyChildTid_loop_run; [done| |apply deeper_fuel].
  pose proof (tr_size _ _ _ _ T _ _ Ha Hr) as Hs. intros E. rewrite E, map_size_empty in Hs. lia.
Qed.

(** ** The check *)

Context {ka : Z} {bs : list Z} (Hk : key_ok K ka bs).
(** The key is no prefix of another key in the tree. *)
Context (Hfree : forall bs' ka', m !! bs' = Some ka' -> bs `prefix_of` bs' -> bs' = bs).

(** The key leaves the path [pi] of a node at index [l]; [rem] holds what comes after in [pi]. *)
Definition leaves_path (pi : list Z) (l : nat) (x : Z) (rem : list (option Z)) : Prop :=
  take l pi `prefix_of` bs /\ pi !! l = Some x /\ (exists y, bs !! l = Some y /\ y <> x) /\
  length rem = 4%nat /\
  forall j z, (j < 4)%nat -> pi !! (l + 1 + j)%nat = Some z -> rem !! j = Some (Some z).

(** The bytes after the one that differs, read from a key below the node or from the prefix. *)
Lemma remaining_long ep hs li pi kt bt l c :
  key_ok K kt bt -> pi `prefix_of` bt -> (l < length pi)%nat -> c = Z.of_nat (Nat.min (length pi - l - 1) 4) ->
  exists rem, cfold (seqZ 0 c) (fun j bs => b <- key_byte kt (Z.of_nat l + j + 1); arr_set bs j (Some b))
       (prefixBytes Prefix_default) (mkArt h K r ep hs li) = Ok (rem, mkArt h K r ep hs li) /\ length rem = 4%nat /\
    forall j z, (j < 4)%nat -> pi !! (l + 1 + j)%nat = Some z -> rem !! j = Some (Some z).
Proof.
  intros Hkt Hpre Hl ->. set (c := Nat.min (length pi - l - 1) 4). set (s := mkArt h K r ep hs li).
  destruct (fill_run (fun j => b <- key_byte kt (Z.of_nat l + j + 1); cret (Some b)) (fun j => pi !! (l + 1 + j)%nat) s c 0
              (prefixBytes Prefix_default)) as (rem & Hr & H1 & H2 & _).
  - intros j Hj. destruct (lookup_lt_is_Some_2 pi (l + 1 + j)) as (z & Hz); [lia|].
    replace (Z.of_nat l + Z.of_nat j + 1) with (Z.of_nat (l + 1 + j)) by lia.
    rewrite (cbind_Ok _ _ _ z s); [by rewrite Hz|]. apply (key_byte_run Hkt).
    rewrite <- Hz. apply prefix_lookup_eq; [done|]. by apply lookup_lt_Some in Hz.
  - cbn. lia.
  - exists rem. split_and!; [|done|].
    + rewrite <- Hr. apply cfold_ext. intros j acc s0. by rewrite cbind_assoc.
    + intros j z Hj Hz. pose proof (lookup_lt_Some _ _ _ Hz). rewrite H2 by lia. by rewrite Hz.
Qed.

Lemma remaining_short ep hs li pi p b0 l i :
  stored p pi b0 -> (length pi - b0 <= 4)%nat -> (l < length pi)%nat -> l = (b0 + i)%nat ->
  exists rem, cfold (seqZ 0 (Z.of_nat (length pi - l - 1))) (fun j bs => b <- arr_get (prefixBytes p) (Z.of_nat i + j + 1); arr_set bs j b)
       (prefixBytes Prefix_default) (mkArt h K r ep hs li) = Ok (rem, mkArt h K r ep hs li) /\ length rem = 4%nat /\
    forall j z, (j < 4)%nat -> pi !! (l + 1 + j)%nat = Some z -> rem !! j = Some (Some z).
Proof.
  intros (Hb & Hpc & Hlen & Hst) H4 Hl ->. set (s := mkArt h K r ep hs li).
  destruct (fill_run (fun j => arr_get (prefixBytes p) (Z.of_nat i + j + 1)) (fun j => pi !! (b0 + i + 1 + j)%nat) s
              (length pi - (b0 + i) - 1) 0 (prefixBytes Prefix_default)) as (rem & Hr & H1 & H2 & _).
  - intros j Hj. destruct (lookup_lt_is_Some_2 pi (b0 + i + 1 + j)) as (z & Hz); [lia|].
    apply arr_get_run; [lia|]. replace (Z.to_nat _) with (i + 1 + j)%nat by lia.
    rewrite Hz. apply Hst; [lia|]. rewrite <- Hz. f_equal. lia.
  - cbn. lia.
  - exists rem. split_and!; [exact Hr|done|].
    intros j z Hj Hz. pose proof (lookup_lt_Some _ _ _ Hz). rewrite H2 by lia. by rewrite Hz.
Qed.

(** The key still has a byte where it has followed the path so far. *)
Lemma key_goes_on a an l :
  V !! a = Some an -> a <> r -> take l (an_path an) `prefix_of` bs -> (l < length (an_path an))%nat ->
  exists y, bs !! l = Some y.
Proof.
  intros Ha Har Hpre Hl. destruct (bs !! l) as [y|] eqn:E; [by exists y|]. exfalso. apply lookup_ge_None in E.
  destruct (getAnyChildTid_run (mkEpoche 0 ∅ 0 []) [] [] a an Ha Har) as (kt & bt & _ & _ & Hp & Hm).
  assert (Hlen : length (take l (an_path an)) = l) by (rewrite length_take; lia).
  assert (Hb : bs `prefix_of` bt).
  { rewrite <- (prefix_length_eq _ _ Hpre) by lia. transitivity (an_path an); [apply prefix_take|done]. }
  rewrite (Hfree _ _ Hm Hb) in Hp. apply prefix_length in Hp. lia.
Qed.

Lemma pessimistic_step_run ep hs li a an n b0 i kt kt0 bt0 :
  V !! a = Some an -> a <> r -> h !! a = Some n -> node_read n an b0 ->
  getAnyChildTid a (mkArt h K r ep hs li) = Ok (kt0, mkArt h K r ep hs li) ->
  key_ok K kt0 bt0 -> an_path an `prefix_of` bt0 ->
  (b0 + i < length (an_path an))%nat -> (4 < i -> kt = kt0)%nat -> take (b0 + i) (an_path an) `prefix_of` bs ->
  exists res, pessimistic_step a ka (pfx n) (Z.of_nat b0) (Z.of_nat i) (Z.of_nat (b0 + i), kt) (mkArt h K r ep hs li)
     = Ok (res, mkArt h K r ep hs li) /\
    ((res = inl (Z.of_nat (b0 + i + 1), if decide (i < 4)%nat then kt else kt0) /\ an_path an !! (b0 + i)%nat = bs !! (b0 + i)%nat) \/
     exists x rem, res = inr (CPP_NoMatch (Z.of_nat (b0 + i)) x rem) /\ leaves_path (an_path an) (b0 + i) x rem).
Proof.
  intros Ha Har Hn (Hl & Hch & Hlv & Hst) Hany Hk0 Hp0 Hi Hkt Hpre. set (pi := an_path an) in *. set (s := mkArt h K r ep hs li) in *.
  pose proof Hst as (Hb & Hpc & Hlen & Hby). pose proof (key_short Hk0) as Hs0. pose proof (prefix_length _ _ Hp0) as Hlp.
  destruct (lookup_lt_is_Some_2 pi (b0 + i) Hi) as (x & Hx).
  destruct (key_goes_on a an (b0 + i) Ha Har Hpre Hi) as (y & Hy). unfold pessimistic_step.
  set (kt' := if decide (i < 4)%nat then kt else kt0).
  assert (E1 : (if Z.of_nat i =? maxStoredPrefixLength then getAnyChildTid a else cret kt) s = Ok (kt', s)).
  { unfold kt', maxStoredPrefixLength. destruct (Z.eqb_spec (Z.of_nat i) 4) as [E|E].
    - rewrite decide_False by lia. done.
    - destruct (decide (i < 4)%nat); [done|]. by rewrite Hkt by lia. }
  rewrite (cbind_Ok _ _ _ _ _ E1).
  assert (E2 : (if maxStoredPrefixLength <=? Z.of_nat i then key_byte kt' (Z.of_nat (b0 + i)) else prefix_byte (pfx n) (Z.of_nat i)) s = Ok (x, s)).
  { unfold kt', maxStoredPrefixLength. destruct (Z.leb_spec 4 (Z.of_nat i)).
    - rewrite decide_False by lia. apply (key_byte_run Hk0). rewrite <- Hx. by apply prefix_lookup_eq.
    - unfold prefix_byte. rewrite (cbind_Ok _ _ _ (Some x) s); [done|]. apply arr_get_run; [lia|]. rewrite Nat2Z.id. apply Hby; [lia|done]. }
  rewrite (cbind_Ok _ _ _ _ _ E2), (cbind_Ok _ _ _ _ _ (key_byte_run Hk h r ep hs li _ _ Hy)).
  destruct (Z.eqb_spec x y) as [->|Hne].
  { eexists. split; [reflexivity|]. left. rewrite u32_small by lia. split; [|congruence]. do 2 f_equal. lia. }
  assert (E3 : exists rem, (if maxStoredPrefixLength <? prefixCount (pfx n) then
              kt <- (if Z.of_nat i <? maxStoredPrefixLength then getAnyChildTid a else cret kt');
              cfold (seqZ 0 (Z.min (u32 (prefixCount (pfx n) - u32 (Z.of_nat (b0 + i) - Z.of_nat b0) - 1)) maxStoredPrefixLength))
                (fun j bs => b <- key_byte kt (Z.of_nat (b0 + i) + j + 1); arr_set bs j (Some b))
                (prefixBytes Prefix_default)
            else
              cfold (seqZ 0 (u32 (prefixCount (pfx n) - Z.of_nat i - 1)))
                (fun j bs => b <- arr_get (prefixBytes (pfx n)) (Z.of_nat i + j + 1); arr_set bs j b)
                (prefixBytes Prefix_default)) s = Ok (rem, s) /\ length rem = 4%nat /\
      forall j z, (j < 4)%nat -> pi !! (b0 + i + 1 + j)%nat = Some z -> rem !! j = Some (Some z)).
  { rewrite Hpc. unfold maxStoredPrefixLength. destruct (Z.ltb_spec 4 (Z.of_nat (length pi - b0))) as [H4|H4].
    - rewrite (cbind_Ok _ _ _ kt0 s).
      + rewrite !u32_small by (rewrite ?u32_small by lia; lia).
        apply (remaining_long ep hs li pi kt0 bt0 (b0 + i)); [done|done|done|lia].
      + unfold kt'. destruct (Z.ltb_spec (Z.of_nat i) 4); [done|]. by rewrite decide_False by lia.
    - rewrite u32_small by lia. replace (Z.of_nat (length pi - b0) - Z.of_nat i - 1) with (Z.of_nat (length pi - (b0 + i) - 1)) by lia.
      by apply (remaining_short ep hs li pi (pfx n) b0 (b0 + i) i); [|lia|..]. }
  destruct E3 as (rem & E3 & Hr1 & Hr2). rewrite (cbind_Ok _ _ _ _ _ E3). eexists. split; [reflexivity|]. right.
  exists x, rem. split; [done|]. split_and!; try done. exists y. split; [done|congruence].
Qed.

Lemma pessimistic_loop_run ep hs li a an n b0 kt0 bt0 :
  V !! a = Some an -> a <> r -> h !! a = Some n -> node_read n an b0 ->
  getAnyChildTid a (mkArt h K r ep hs li) = Ok (kt0, mkArt h K r ep hs li) ->
  key_ok K kt0 bt0 -> an_path an `prefix_of` bt0 -> forall cnt i kt,
  (b0 + i + cnt = length (an_path an))%nat -> (4 < i -> kt = kt0)%nat -> take (b0 + i) (an_path an) `prefix_of` bs ->
  exists res, cloop (seqZ (Z.of_nat i) (Z.of_nat cnt)) (pessimistic_step a ka (pfx n) (Z.of_nat b0))
       (Z.of_nat (b0 + i), kt) (mkArt h K r ep hs li) = Ok (res, mkArt h K r ep hs li) /\
    ((exists kt', res = inl (Z.of_nat (length (an_path an)), kt') /\ an_path an `prefix_of` bs) \/
     exists l x rem, res = inr (CPP_NoMatch (Z.of_nat l) x rem) /\ (b0 + i <= l)%nat /\ leaves_path (an_path an) l x rem).
Proof.
  intros Ha Har Hn Hrep Hany Hk0 Hp0. induction cnt as [|cnt IH]; intros i kt Hi Hkt Hpre.
  - eexists. split; [reflexivity|]. left. exists kt. replace (b0 + i)%nat with (length (an_path an)) in * by lia.
    rewrite take_ge in Hpre by lia. done.
  - rewrite seqZ_cons by lia. cbn [cloop].
    destruct (pessimistic_step_run ep hs li a an n b0 i kt kt0 bt0) as (res & Hr & Hc); try done; [lia|].
    rewrite (cbind_Ok _ _ _ _ _ Hr). destruct Hc as [[-> Heq]|(x & rem & -> & Hlv)].
    + replace (Z.succ (Z.of_nat i)) with (Z.of_nat (S i)) by lia. replace (Z.pred (Z.of_nat (S cnt))) with (Z.of_nat cnt) by lia.
      replace (b0 + i + 1)%nat with (b0 + S i)%nat by lia.
      destruct (IH (S i) (if decide (i < 4)%nat then kt else kt0)) as (res & Hr' & Hc); [lia| | |].
      { intros H4. by rewrite decide_False by lia. }
      { destruct (lookup_lt_is_Some_2 (an_path an) (b0 + i)) as (x & Hx); [lia|].
        replace (b0 + S i)%nat with (S (b0 + i)) by lia. rewrite (take_S_r _ _ _ Hx). apply prefix_snoc_lookup.
        rewrite length_take, Nat.min_l by lia. split; [done|congruence]. }
      exists res. split; [exact Hr'|]. destruct Hc as [Hc|(l & x & rem & -> & Hle & Hlv)]; [by left|].
      right. exists l, x, rem. split_and!; [done|lia|done].
    + eexists. split; [reflexivity|]. right. exists (b0 + i)%nat, x, rem. done.
Qed.

(** In a consistent node, the check finds out whether the key follows the path, and where it
    leaves it otherwise. *)
Lemma checkPrefixPessimistic_run ep hs li a an :
  V !! a = Some an -> take (an_base an) (an_path an) `prefix_of` bs ->
  exists res, checkPrefixPessimistic a ka (Z.of_nat (an_base an)) (mkArt h K r ep hs li) = Ok (res, mkArt h K r ep hs li) /\
    ((res = CPP_Match (Z.of_nat (length (an_path an))) /\ an_path an `prefix_of` bs) \/
     (a <> r /\ exists l x rem, res = CPP_NoMatch (Z.of_nat l) x rem /\ (an_base an <= l)%nat /\ leaves_path (an_path an) l x rem)).
Proof.
  intros Ha Hpre. destruct (HN a an Ha) as (n & v & Hn & ((Hrep & _) & _) & _). pose proof Hrep as (_ & _ & Hlv & Hst).
  pose proof Hst as (Hb & Hpc & _). pose proof (key_short Hk) as Hks. unfold checkPrefixPessimistic.
  rewrite (cbind_Ok _ _ _ _ _ (at_node_read a getPrefi h K r ep hs li n _ Hn eq_refl)).
  rewrite (cbind_Ok _ _ _ _ _ (at_node_read a getLevel h K r ep hs li n _ Hn eq_refl)). cbn [self].
  assert (Hsmall : Z.of_nat (length (an_path an)) < 2 ^ 31).
  { destruct (decide (a = r)) as [->|Hr].
    - destruct (tr_root _ _ _ _ T) as (rn & Hrn & Hp & _). rewrite Ha in Hrn. injection Hrn as <-. rewrite Hp. cbn. lia.
    - destruct (getAnyChildTid_run ep hs li a an Ha Hr) as (kt & bt & _ & Hkt & Hp & _). apply prefix_length in Hp.
      pose proof (key_short Hkt). lia. }
  rewrite Hlv, Hpc, u32_small by lia.
  rewrite (proj2 (Z.eqb_eq _ _)) by lia. cbn [negb andb]. rewrite (cbind_Ok _ _ _ (pfx n) (mkArt h K r ep hs li)) by done. cbv iota.
  rewrite Hpc. destruct (Z.ltb_spec 0 (Z.of_nat (length (an_path an) - an_base an))) as [Hpos|Hz].
  2: { eexists. split; [reflexivity|]. left. replace (an_base an) with (length (an_path an)) in * by lia.
       by rewrite take_ge in Hpre by lia. }
  assert (Hr : a <> r).
  { intros ->. destruct (tr_root _ _ _ _ T) as (rn & Hrn & Hp & _). rewrite Ha in Hrn. injection Hrn as <-. rewrite Hp in Hpos. cbn in Hpos. lia. }
  replace (Z.of_nat (an_base an) + Z.of_nat (length (an_path an) - an_base an) - Z.of_nat (length (an_path an))) with 0 by lia.
  rewrite (u32_small 0) by lia. cbv zeta. rewrite Z.sub_0_r.
  destruct (getAnyChildTid_run ep hs li a an Ha Hr) as (kt0 & bt0 & Hany & Hk0 & Hp0 & _).
  destruct (pessimistic_loop_run ep hs li a an n (an_base an) kt0 bt0 Ha Hr Hn Hrep Hany Hk0 Hp0 (length (an_path an) - an_base an) 0 0)
    as (res & Hrun & Hc); [lia|lia|by rewrite Nat.add_0_r|].
  rewrite Nat.add_0_r in *. rewrite (cbind_Ok _ _ _ _ _ Hrun). destruct Hc as [(kt' & -> & Hp)|(l & x & rem & -> & Hle & Hlp)].
  - eexists. split; [reflexivity|]. by left.
  - eexists. split; [reflexivity|]. right. split; [done|]. exists l, x, rem. done.
Qed.

End walk.
