(* ===== verification/ArtState.v ===== *)
(** * P-ART: the invariant of a tree, and the replacement of nodes

    [art_ok] relates a state to a trie. [crash_ok] is what the node heap at every fence
    satisfies: it can be read as a trie for the map before or after the operation. *)

From S2P Require Import Prelude ArtNode ArtSlots ArtLayout ArtClass Epoche ArtTree.
From S2P Require Import ArtTrie ArtTrieUpd ArtRep ArtPrefix.
#[local] Open Scope Z_scope.
#[local] Open Scope cmd_scope.

(** ** Nodes under a lock *)

Lemma node_read_set_word n an b w :
  node_read n an b -> Z.shiftr w 62 = Z.shiftr (typeVersionLockObsolete n) 62 -> node_read (set_word n w) an b.
Proof. intros (H1 & H2 & H3 & H4) Hw. split_and!; try done. by apply layout_set_word. Qed.

Lemma node_read_upd n n' an b ch : node_read n an b -> upd n n' ch -> node_read n' (set_ch an ch) b.
Proof.
  intros (H1 & H2 & H3 & H4) ((_ & Hp & Hlv & _) & Hl & Hm). split_and!; [done|done| |]; cbn [set_ch an_path]; congruence.
Qed.

Section node.
Context {n : NodeN} {an : anode} {R : Prop} {v : Z} (Hn : node_ok n an R v).

Lemma ok_read : node_read n an (an_base an).
Proof. apply Hn. Qed.

Lemma ok_word : typeVersionLockObsolete n = word (tag (body n)) v.
Proof. apply Hn. Qed.

Lemma ok_version : version_ok v.
Proof. apply Hn. Qed.

Lemma ok_layout : layout n.
Proof. apply Hn. Qed.

Lemma ok_full : full n.
Proof. apply Hn. Qed.

Lemma ok_chmap : chmap n = an_ch an.
Proof. apply Hn. Qed.

Lemma ok_shift d : 0 <= d < 8 -> Z.shiftr (word (tag (body n)) v + d) 62 = Z.shiftr (typeVersionLockObsolete n) 62.
Proof.
  intros Hd. rewrite ok_word, (word_type _ v d (tag_range _) ok_version Hd).
  rewrite <- (Z.add_0_r (word _ v)), (word_type _ v 0 (tag_range _) ok_version) by lia. done.
Qed.

Lemma locked_read : node_read (locked n) an (an_base an).
Proof. apply node_read_set_word; [apply ok_read|]. rewrite ok_word at 1. apply ok_shift. lia. Qed.

Lemma locked_full : full (locked n).
Proof. apply Hn. Qed.

Lemma locked_chmap : chmap (locked n) = an_ch an.
Proof. apply Hn. Qed.

(** After a method under the lock and the release of the lock. *)
Lemma unlock_ok n1 ch' :
  upd (locked n) n1 ch' -> full n1 -> version_ok (v + 1) ->
  (~ R -> (min_children (tag (body n)) <= size ch')%nat) ->
  exists n2, writeUnlock (mkNS n1 []) = Ok (tt, mkNS n2 []) /\ node_ok n2 (set_ch an ch') R (v + 1).
Proof.
  intros Hu Hf Hv Hs. pose proof Hu as ((Hw & _ & _ & Ht) & Hl & Hm). cbn [locked set_word body typeVersionLockObsolete] in *.
  rewrite ok_word, <- Ht in Hw. eexists. split; [apply (unlock_run n1 v); [exact Hw|apply ok_version]|].
  pose proof (node_read_upd _ _ _ _ _ locked_read Hu) as Hr. split; [|split; [done|]].
  - split; [|done]. apply node_read_set_word; [exact Hr|]. rewrite Hw, <- word_succ.
    rewrite !(word_type _ v) by (apply tag_range || apply ok_version || lia). done.
  - cbn [set_word body set_ch an_ch]. rewrite Ht. destruct Hn as (_ & _ & H1 & _). split; [done|exact Hs].
Qed.

(** The parent gets a new child in the place of an old one. *)
Lemma change_locked k q p :
  an_ch an !! k = Some q -> p <> 0 ->
  exists n1, N_change k p (mkNS (locked n) []) = Ok (tt, mkNS n1 [n1]) /\
    upd (locked n) n1 (<[k := p]> (an_ch an)) /\ full n1.
Proof.
  intros Hk Hp. destruct (N_change_run (locked n) [] k q p) as (n1 & H1 & H2 & H3).
  - apply locked_read.
  - by rewrite locked_chmap.
  - done.
  - exists n1. rewrite locked_chmap in H2. split_and!; [done|done|]. apply H3, locked_full.
Qed.

Lemma change_size k q p :
  an_ch an !! k = Some q -> (~ R -> (min_children (tag (body n)) <= size (<[k := p]> (an_ch an)))%nat).
Proof. intros Hk. rewrite map_size_insert_Some by (by eexists). apply Hn. Qed.

End node.

(** ** Reading a heap *)

Definition reads (h : gmap Z NodeN) (V : trie) : Prop :=
  forall a an, V !! a = Some an -> exists n b, h !! a = Some n /\ node_read n an b.

Lemma nodes_ok_reads h V r B : nodes_ok h V r B -> reads h V.
Proof. intros H a an Ha. destruct (H a an Ha) as (n & v & Hn & Hok & _). exists n, (an_base an). split; [done|apply Hok]. Qed.

Lemma reads_insert h V a n an b : reads h V -> node_read n an b -> reads (<[a := n]> h) (<[a := an]> V).
Proof.
  intros H Hn x xn [[<- <-]|[Hne Hx]]%lookup_insert_Some.
  - exists n, b. by rewrite lookup_insert_eq.
  - destruct (H x xn Hx) as (nx & bx & H1 & H2). exists nx, bx. by rewrite lookup_insert_ne.
Qed.

(** A node of the trie replaced by one that reads the same. *)
Lemma reads_same h V a n an b : reads h V -> V !! a = Some an -> node_read n an b -> reads (<[a := n]> h) V.
Proof. intros H Ha Hn. rewrite <- (insert_id V a an Ha). by eapply reads_insert. Qed.

(** Nodes that are not in the trie do not matter. *)
Lemma reads_other h V a n : reads h V -> V !! a = None -> reads (<[a := n]> h) V.
Proof.
  intros H Ha x xn Hx. destruct (H x xn Hx) as (nx & bx & H1 & H2). exists nx, bx.
  rewrite lookup_insert_ne; [done|congruence].
Qed.

Lemma reads_delete h V a : reads h V -> reads h (delete a V).
Proof. intros H x xn [_ Hx]%lookup_delete_Some. by apply H. Qed.

(** ** What a crash at a fence leaves *)

Definition crash_ok (K : gmap Z Key) (r : Z) (m m' : gmap (list Z) Z) (h : gmap Z NodeN) : Prop :=
  exists V mm, (mm = m \/ mm = m') /\ trie_ok K r V mm /\ reads h V.

Lemma crash_before K r m m' V h : trie_ok K r V m -> reads h V -> crash_ok K r m m' h.
Proof. intros HT HR. exists V, m. auto. Qed.

Lemma crash_after K r m m' V h : trie_ok K r V m' -> reads h V -> crash_ok K r m m' h.
Proof. intros HT HR. exists V, m'. auto. Qed.

(** ** The invariant *)

Record art_ok (B : Z) (V : trie) (m : gmap (list Z) Z) (s : art) : Prop := {
  ok_trie : trie_ok (keys s) (root s) V m;
  ok_nodes : nodes_ok (nodes s) V (root s) B;
  ok_ep : ep_ok (epoche s);
  ok_pend : NoDup (pending (deletionLists (epoche s)));
  ok_heap : forall a, is_Some (nodes s !! a) <-> is_Some (V !! a) \/ a ∈ pending (deletionLists (epoche s));
  ok_disj : forall a, a ∈ pending (deletionLists (epoche s)) -> V !! a = None }.

(** What an operation that changes the map from [m] to [m'] leaves. *)
Definition art_post (B : Z) (V' : trie) (m m' : gmap (list Z) Z) (s s' : art) : Prop :=
  art_ok B V' m' s' /\ keys s' = keys s /\ root s' = root s /\
  dom (deletionLists (epoche s')) = dom (deletionLists (epoche s)) /\
  exists hs, hist s' = hist s ++ hs /\ Forall (crash_ok (keys s) (root s) m m') hs.

(** A new address. *)
Section alloc.
Context `{Allocator}.

Lemma new_N_run n h K r ep hs li :
  exists a, new_N n (mkArt h K r ep hs li) = Ok (a, mkArt (<[a := n]> h) K r ep hs (li ++ [a])) /\
    h !! a = None /\ 0 < a /\ Z.odd a = false.
Proof.
  eexists. split; [reflexivity|]. cbn [nodes]. pose proof (new_addr_fresh (dom h) (sizeof_N (body n))) as Hf.
  pose proof (new_addr_aligned (dom h) (sizeof_N (body n))) as [Hp Ha]. split_and!; [|done|].
  - by apply not_elem_of_dom.
  - apply Z.div_exact in Ha; [|lia]. rewrite Ha, Z.odd_mul. done.
Qed.

(** ** Epochs on the heap *)

Lemma delete_all_run l : forall h K r ep hs li,
  NoDup l -> (forall a, a ∈ l -> is_Some (h !! a)) ->
  exists h', cfor l delete_N (mkArt h K r ep hs li) = Ok (tt, mkArt h' K r ep hs li) /\
    forall a, h' !! a = if decide (a ∈ l) then None else h !! a.
Proof.
  induction l as [|x l IH]; intros h K r ep hs li Hd Hin.
  - exists h. split; [done|]. intros a. by rewrite decide_False by apply not_elem_of_nil.
  - apply list.NoDup_cons in Hd as [Hx Hd]. destruct (Hin x ltac:(left)) as [n Hn]. cbn [cfor].
    rewrite (cbind_Ok _ _ _ tt (mkArt (delete x h) K r ep hs li)) by (unfold delete_N; cbn [nodes]; by rewrite Hn).
    destruct (IH (delete x h) K r ep hs li Hd) as (h' & Hr & Hh).
    { intros a Ha. rewrite lookup_delete_ne by congruence. apply Hin. by right. }
    exists h'. split; [exact Hr|]. intros a. rewrite Hh. destruct (decide (a = x)) as [->|Hne].
    + rewrite (decide_True (P := x ∈ x :: l)) by left. rewrite lookup_delete_eq. by case_decide.
    + rewrite lookup_delete_ne by done. destruct (decide (a ∈ l)) as [Ha|Ha].
      * by rewrite decide_True by (by right).
      * rewrite decide_False; [done|]. intros [->|?]%elem_of_cons; done.
Qed.

Lemma on_epoche_run mt h K r ep hs li ep' rel :
  mt ep = Ok (tt, ep') -> released ep' = released ep ++ rel -> NoDup rel -> (forall a, a ∈ rel -> is_Some (h !! a)) ->
  exists h', on_epoche mt (mkArt h K r ep hs li) = Ok (tt, mkArt h' K r ep' hs li) /\
    forall a, h' !! a = if decide (a ∈ rel) then None else h !! a.
Proof.
  intros Hm Hr Hd Hin. unfold on_epoche. cbn [epoche]. rewrite Hm, Hr, drop_app_length.
  change (set_epoche (mkArt h K r ep hs li) ep') with (mkArt h K r ep' hs li). by apply delete_all_run.
Qed.

(** An operation that releases nothing. *)
Lemma on_epoche_quiet mt h K r ep hs li ep' :
  mt ep = Ok (tt, ep') -> released ep' = released ep ++ [] ->
  on_epoche mt (mkArt h K r ep hs li) = Ok (tt, mkArt h K r ep' hs li).
Proof. intros Hm Hr. unfold on_epoche. cbn [epoche]. by rewrite Hm, Hr, drop_app_length. Qed.

(** ** A node replaced in its parent *)

Lemma swapIn_run nn pa pb a t h K r ep hs li d pn pan R pv na v :
  h !! nn = Some d -> h !! pa = Some (locked pn) -> node_ok pn pan R pv -> version_ok (pv + 1) ->
  an_ch pan !! pb = Some a -> 0 < nn ->
  h !! a = Some na -> typeVersionLockObsolete na = word (tag (body na)) v + 2 -> version_ok v -> a <> pa ->
  ep_ok ep -> is_Some (deletionLists ep !! t) ->
  exists h' ep' pn1 pn2, swapIn nn pa pb a t (mkArt h K r ep hs li) = Ok (tt, mkArt h' K r ep' (hs ++ [h; <[pa := pn1]> h]) li) /\
    ep_step ep ep' [a] [] /\ node_read pn1 (set_ch pan (<[pb := nn]> (an_ch pan))) (an_base pan) /\
    node_ok pn2 (set_ch pan (<[pb := nn]> (an_ch pan))) R (pv + 1) /\
    (forall x, h' !! x = if decide (x = pa) then Some pn2 else if decide (x = a) then Some (set_word na (word (tag (body na)) v + 5)) else h !! x).
Proof.
  intros Hnn Hpa Hpn Hpv Hpb Hnn0 Ha Hwa Hv Hne Hep Ht. unfold swapIn.
  rewrite (cbind_Ok _ _ _ tt (mkArt h K r ep (hs ++ [h]) li)).
  2: { rewrite (at_node_run nn _ h K r ep hs li d tt d [d] Hnn) by done. cbn. by rewrite insert_id. }
  destruct (change_locked Hpn pb a nn Hpb ltac:(lia)) as (pn1 & Hc & Hu & Hf).
  rewrite (cbind_Ok _ _ _ _ _ (at_node_run pa _ h K r ep (hs ++ [h]) li _ _ _ _ Hpa Hc)).
  destruct (unlock_ok Hpn pn1 _ Hu Hf Hpv (change_size Hpn pb a nn Hpb)) as (pn2 & Hun & Hok).
  erewrite cbind_Ok; [|eapply at_node_quiet; [apply lookup_insert_eq|exact Hun]]. rewrite insert_insert_eq.
  erewrite cbind_Ok; [|eapply at_node_quiet; [rewrite lookup_insert_ne by done; exact Ha|by apply (unlockObsolete_run na v)]].
  destruct (markNodeForDeletion_run a t ep Hep Ht) as (ep' & Hm & Hst).
  exists (<[a := set_word na (word (tag (body na)) v + 5)]> (<[pa := pn2]> h)), ep', pn1, pn2. split_and!.
  - rewrite (on_epoche_quiet _ _ _ _ _ _ _ ep' Hm) by apply Hst. by rewrite <- app_assoc.
  - done.
  - by apply (node_read_upd _ _ _ _ _ (locked_read Hpn)).
  - done.
  - intros x. destruct (decide (x = pa)) as [->|Hxp].
    + rewrite lookup_insert_ne by done. apply lookup_insert_eq.
    + destruct (decide (x = a)) as [->|Hxa]; [apply lookup_insert_eq|]. by rewrite !lookup_insert_ne.
Qed.

(** ** Entering and leaving an epoch *)

Lemma on_epoche_ok B V m mt h K r ep hs li ep' rel :
  art_ok B V m (mkArt h K r ep hs li) -> mt ep = Ok (tt, ep') -> ep_step ep ep' [] rel ->
  exists h', on_epoche mt (mkArt h K r ep hs li) = Ok (tt, mkArt h' K r ep' hs li) /\ art_ok B V m (mkArt h' K r ep' hs li).
Proof.
  intros [T HN He Hp Hheap Hdis] Hm (He' & _ & Hrel & Hperm). cbn in *.
  rewrite Hperm in Hp. apply list.NoDup_app in Hp as (Hd1 & Hd2 & Hd3).
  assert (Hpend : forall a, a ∈ pending (deletionLists ep) <-> a ∈ rel \/ a ∈ pending (deletionLists ep')).
  { intros a. by rewrite Hperm, elem_of_app. }
  destruct (on_epoche_run mt h K r ep hs li ep' rel Hm Hrel Hd1) as (h' & Hr & Hh).
  { intros a Ha. apply Hheap. right. apply Hpend. by left. }
  exists h'. split; [done|]. split; cbn; try done.
  - intros a an Ha. destruct (HN a an Ha) as (n & v & H1 & H2 & H3). exists n, v. split; [|done]. rewrite Hh, decide_False; [done|].
    intros Hin. rewrite (Hdis a) in Ha; [done|]. apply Hpend. by left.
  - intros a. rewrite Hh. destruct (decide (a ∈ rel)) as [Hin|Hin].
    + split; [by intros [? ?]|]. intros [[an Ha]|Ha]; [|by destruct (Hd2 a)]. rewrite (Hdis a) in Ha; [done|]. apply Hpend. by left.
    + rewrite Hheap, Hpend. split; [intros [?|[?|?]]|intros [?|?]]; auto. done.
  - intros a Ha. apply Hdis, Hpend. by right.
Qed.

End alloc.

(** ** Operations one after the other *)

Lemma art_post_hist B V' m m' h K r ep hs hs1 li ep1 h1 s' :
  dom (deletionLists ep1) = dom (deletionLists ep) -> Forall (crash_ok K r m m') hs1 ->
  art_post B V' m m' (mkArt h1 K r ep1 (hs ++ hs1) li) s' -> art_post B V' m m' (mkArt h K r ep hs li) s'.
Proof.
  intros Hd Hc (H1 & H2 & H3 & H4 & hs2 & H5 & H6). cbn in *. split; [done|]. split_and!; cbn; try congruence.
  exists (hs1 ++ hs2). rewrite H5, <- app_assoc. split; [done|]. by apply list.Forall_app.
Qed.

(** The end of an operation: the thread leaves its epoch. *)
Lemma art_post_exit `{Allocator} B V' m m' s s' t :
  art_post B V' m m' s s' -> is_Some (deletionLists (epoche s) !! t) ->
  exists s'', on_epoche (exitEpocheAndCleanup t) s' = Ok (tt, s'') /\ art_post B V' m m' s s''.
Proof.
  intros (Ho & H1 & H2 & Hdm & H4) Ht. destruct s' as [h' K r ep hs li].
  assert (Ht' : is_Some (deletionLists ep !! t)) by (cbn in Hdm; apply elem_of_dom; rewrite Hdm; by apply elem_of_dom).
  destruct (exitEpocheAndCleanup_run t ep (ok_ep _ _ _ _ Ho) Ht') as (ep' & rel & Hx & Hst).
  destruct (on_epoche_ok B V' m' _ h' K r ep hs li ep' rel Ho Hx Hst) as (h2 & Hr & Hok). eexists. split; [exact Hr|].
  split; [done|]. cbn in *. split_and!; try done. destruct Hst as (_ & E & _). congruence.
Qed.
