(* ===== verification/ArtGrow.v ===== *)
(** * P-ART: adding a child to a node

    [insertAndUnlock] with its templates: a child is added in place, or in a copy of the node that
    takes its place in the parent. *)

From S2P Require Import Prelude ArtNode ArtSlots ArtLayout ArtClass Epoche ArtTree.
From S2P Require Import ArtTrie ArtTrieUpd ArtRep ArtPrefix ArtState.
#[local] Open Scope Z_scope.
#[local] Open Scope cmd_scope.

Lemma set_ch_same an : set_ch an (an_ch an) = an.
Proof. by destruct an. Qed.

Lemma nodes_ok_mono h V r B B' : nodes_ok h V r B -> B <= B' -> nodes_ok h V r B'.
Proof. intros H HB a an Ha. destruct (H a an Ha) as (n & v & H1 & H2 & H3). exists n, v. split_and!; [done|done|lia]. Qed.

Lemma nodes_ok_insert h V r B a n an v :
  nodes_ok h V r B -> node_ok n an (a = r) v -> v <= B -> nodes_ok (<[a := n]> h) (<[a := an]> V) r B.
Proof.
  intros H Hn Hv x xn [[<- <-]|[Hne Hx]]%lookup_insert_Some.
  - exists n, v. by rewrite lookup_insert_eq.
  - destruct (H x xn Hx) as (nx & vx & H1 & H2). exists nx, vx. by rewrite lookup_insert_ne.
Qed.

(** The moments of a method on a locked node can be read as the trie before or after. *)
Lemma mids_crash K r V m m' h a an n R v ch' l :
  trie_ok K r V m -> trie_ok K r (<[a := set_ch an ch']> V) m' -> reads h V -> V !! a = Some an ->
  node_ok n an R v -> mids (locked n) (an_ch an) ch' l ->
  Forall (crash_ok K r m m') ((fun y => <[a := y]> h) <$> l).
Proof.
  intros T T' HR Ha Hn Hm. apply list.Forall_fmap. eapply list.Forall_impl; [exact Hm|]. cbn. intros x [Hx|Hx];
    pose proof (node_read_upd _ _ _ _ _ (locked_read Hn) Hx) as Hr.
  - rewrite set_ch_same in Hr. apply (crash_before K r m m' V); [done|]. by apply (reads_same h V a x an (an_base an)).
  - apply (crash_after K r m m' (<[a := set_ch an ch']> V)); [done|]. by eapply reads_insert.
Qed.

Section inplace.
Context {K : gmap Z Key} {r : Z} {V : trie} {m : gmap (list Z) Z} {B : Z} {h : gmap Z NodeN} {ep : Epoche}.
Context {hs : list (gmap Z NodeN)} {li : list Z}.
Context (A : art_ok B V m (mkArt h K r ep hs li)).
Context {a v : Z} {an : anode} {n : NodeN}.
Context (Ha : V !! a = Some an) (Hh : h !! a = Some n) (Hn : node_ok n an (a = r) v) (Hv : v <= B).

(** A method that changed the children of [a] under its lock. *)
Lemma inplace_post ch' m' n2 l :
  trie_ok K r (<[a := set_ch an ch']> V) m' -> node_ok n2 (set_ch an ch') (a = r) (v + 1) ->
  mids (locked n) (an_ch an) ch' l ->
  art_post (B + 1) (<[a := set_ch an ch']> V) m m' (mkArt h K r ep hs li)
    (mkArt (<[a := n2]> h) K r ep (hs ++ ((fun y => <[a := y]> h) <$> l)) li).
Proof.
  intros T' Hn2 Hm. destruct A as [T HNk He Hp Hheap Hdis]. cbn in *. split; [split|split_and!]; cbn; try done.
  - apply (nodes_ok_insert _ _ _ _ _ _ _ (v + 1)); [apply (nodes_ok_mono _ _ _ B); [done|lia]|done|lia].
  - intros x. rewrite !lookup_insert_is_Some', Hheap. split; [intros [->|[?|?]]|intros [[->|?]|?]]; auto.
  - intros x Hx. rewrite lookup_insert_ne; [by apply Hdis|]. intros <-. rewrite (Hdis _ Hx) in Ha. done.
  - eexists. split; [done|]. apply (mids_crash K r V m m' h a an n (a = r) v ch'); try done. by eapply nodes_ok_reads.
Qed.

Lemma insert_inplace {C cap thr} `{!NodeClassSpec C cap thr} b p (rest : stM art bool) :
  tag (body n) = nc_type C -> used n < cap -> byte b -> p <> 0 -> an_ch an !! b = None -> version_ok (v + 1) ->
  exists n2 l, (ok <- at_node a (nc_insert C b p true);
      if ok : bool then at_node a writeUnlock;; cret false else rest) (mkArt (<[a := locked n]> h) K r ep hs li) =
      Ok (false, mkArt (<[a := n2]> h) K r ep (hs ++ ((fun y => <[a := y]> h) <$> l)) li) /\
    node_ok n2 (set_ch an (<[b := p]> (an_ch an))) (a = r) (v + 1) /\ mids (locked n) (an_ch an) (<[b := p]> (an_ch an)) l.
Proof.
  intros Ht Hu Hb Hp Hch Hv1.
  destruct (cls_insert (C := C) (locked n) [] b p true) as (n1 & l & Hr & (Hup & Hf & _ & Hm) & _); try done.
  - apply (locked_read Hn).
  - apply (locked_full Hn).
  - by rewrite (locked_chmap Hn).
  - rewrite (locked_chmap Hn) in Hup, Hm.
    erewrite cbind_Ok; [|eapply at_node_run; [apply lookup_insert_eq|exact Hr]].
    destruct (unlock_ok Hn n1 _ Hup Hf Hv1) as (n2 & Hun & Hok).
    { intros Hnr. rewrite map_size_insert_None by done. destruct Hn as (_ & _ & _ & Hs). specialize (Hs Hnr). lia. }
    exists n2, l. split; [|done]. cbv iota. erewrite cbind_Ok; [|eapply at_node_quiet; [apply lookup_insert_eq|exact Hun]].
    rewrite !insert_insert_eq. unfold cret. do 2 f_equal. f_equal. f_equal. apply list_fmap_ext. intros i y _.
    by rewrite insert_insert_eq.
Qed.

End inplace.

(** ** A larger or denser copy *)

Section copy.
Context `{!Allocator} {K : gmap Z Key} {r : Z} {V : trie} {m : gmap (list Z) Z} {B : Z} {h : gmap Z NodeN} {ep : Epoche}.
Context {hs : list (gmap Z NodeN)} {li : list Z}.
Context (A : art_ok B V m (mkArt h K r ep hs li)) (HB : version_ok (B + 1)).
Context {a v : Z} {an : anode} {n : NodeN}.
Context (Ha : V !! a = Some an) (Hh : h !! a = Some n) (Hn : node_ok n an (a = r) v) (Hv : v <= B).
Context {pa pk : Z} {pan : anode} (Hpa : V !! pa = Some pan) (Hpk : an_ch pan !! pk = Some a).

Lemma parent_ne : a <> pa.
Proof. intros <-. apply (no_self_edge (ok_trie _ _ _ _ A) a pk). by exists pan. Qed.

Lemma not_root : a <> r.
Proof. intros ->. apply (root_no_parent (ok_trie _ _ _ _ A) pa pk). by exists pan. Qed.

(** The parent can be locked. *)
Lemma parent_lock h1 hs1 li1 :
  h1 !! pa = h !! pa ->
  exists pn pv, h !! pa = Some pn /\ node_ok pn pan (pa = r) pv /\ pv <= B /\ version_ok (pv + 1) /\
    at_node pa writeLockOrRestart (mkArt h1 K r ep hs1 li1) = Ok (false, mkArt (<[pa := locked pn]> h1) K r ep hs1 li1).
Proof.
  intros E. destruct (ok_nodes _ _ _ _ A pa pan Hpa) as (pn & pv & Hp & Hok & Hpv). cbn in Hp, Hok.
  exists pn, pv. split_and!; try done.
  - unfold version_ok in *. pose proof (ok_version Hok) as Hv0. unfold version_ok in Hv0. lia.
  - apply (at_node_quiet _ _ _ _ _ _ _ _ pn); [congruence|]. apply (writeLock_run _ pv); [apply (ok_word Hok)|apply (ok_version Hok)].
Qed.

(** The node at [nn] stands for [an'] and has taken the place of [a]. *)
Lemma copied_post V1 m1 an' nn d dv h' ep' pn2 pv hs' li' :
  trie_ok K r V1 m1 -> V1 !! a = Some an' -> V1 !! pa = Some pan ->
  (forall x, x <> a -> V1 !! x = V !! x) -> h !! nn = None -> 0 < nn -> Z.odd nn = false ->
  h' !! nn = Some d -> node_ok d an' (nn = r) dv -> dv <= B + 1 ->
  h' !! pa = Some pn2 -> node_ok pn2 (set_ch pan (<[pk := nn]> (an_ch pan))) (pa = r) pv -> pv <= B + 1 ->
  is_Some (h' !! a) -> (forall x, x <> a -> x <> pa -> x <> nn -> h' !! x = h !! x) ->
  ep_step ep ep' [a] [] -> Forall (crash_ok K r m m1) hs' ->
  art_post (B + 1) (copied (V := V1) pa pk pan a nn an') m m1 (mkArt h K r ep hs li) (mkArt h' K r ep' (hs ++ hs') li').
Proof.
  intros T1 Ha1 Hpa1 Hoth Hnn Hnn0 Hnno Hd Hdok Hdv Hp2 Hp2ok Hpv Hha Hho (He1 & He2 & _ & He4) Hcr.
  destruct A as [T HNk He Hp Hheap Hdis]. cbn in *. pose proof parent_ne as Hne.
  assert (HVn : V !! nn = None).
  { apply eq_None_not_Some. intros Hs. apply (eq_None_not_Some (h !! nn)); [done|]. apply Hheap. by left. }
  assert (Hnna : nn <> a) by congruence. assert (Hnnp : nn <> pa) by congruence.
  assert (HV1n : V1 !! nn = None) by (by rewrite Hoth).
  split; [split|split_and!]; cbn; try done.
  - by apply (trie_copied T1 pa pk pan Hpa1 a an' nn).
  - intros x xn Hx. unfold copied in Hx. apply lookup_insert_Some in Hx as [[<- <-]|[Hxp Hx]]; [exists pn2, pv; done|].
    apply lookup_insert_Some in Hx as [[<- <-]|[Hxn Hx]]; [exists d, dv; done|].
    apply lookup_delete_Some in Hx as [Hxa Hx]. rewrite Hoth in Hx by done.
    destruct (HNk x xn Hx) as (nx & vx & H1 & H2 & H3). exists nx, vx. rewrite Hho by done. split_and!; [done|done|lia].
  - rewrite <- He4. cbn. apply list.NoDup_cons. split; [|done]. intros Hin. apply Hdis in Hin. congruence.
  - intros x. rewrite <- He4. unfold copied. rewrite !lookup_insert_is_Some', lookup_delete_is_Some, elem_of_cons.
    destruct (decide (x = a)) as [->|Hxa]; [split; [intros _; right; by left|done]|].
    destruct (decide (x = pa)) as [->|Hxp]; [split; [intros _; left; by left|intros _; by eexists]|].
    destruct (decide (x = nn)) as [->|Hxn]; [split; [intros _; left; right; by left|intros _; by eexists]|].
    rewrite Hho, Hheap, Hoth by done. naive_solver.
  - intros x Hx. rewrite <- He4 in Hx. unfold copied. apply elem_of_cons in Hx as [->|Hx].
    + rewrite !lookup_insert_ne by done. apply lookup_delete_eq.
    + pose proof (Hdis _ Hx) as Hxv. pose proof (proj2 (Hheap x) (or_intror Hx)) as [? ?].
      assert (x <> pa /\ x <> nn /\ x <> a) as (? & ? & ?) by (split_and!; congruence).
      by rewrite !lookup_insert_ne, lookup_delete_ne, Hoth by done.
  - by exists hs'.
Qed.

Lemma new_not_root nn : h !! nn = None -> nn <> r.
Proof.
  intros Hnn ->. destruct (tr_root _ _ _ _ (ok_trie _ _ _ _ A)) as (rn & Hr & _). cbn in Hr.
  apply (eq_None_not_Some (h !! r)); [done|]. apply (ok_heap _ _ _ _ A). left. by eexists.
Qed.

(** A new node of class [D] filled with the children of [src], which holds [ch'] and has the
    prefix and the level of [n]. *)
Lemma copy_run {C D capC thrC cap thr} `{!NodeClassSpec C capC thrC} `{!NodeClassSpec D cap thr} src ch' h1 hs1 li1 nn :
  layout src -> full src -> chmap src = ch' -> tag (body src) = nc_type C -> count src <= cap ->
  h1 !! nn = Some (nc_new D (level n) (pfx n)) ->
  exists d, at_node nn (nc_copyTo C src (nc_insert D)) (mkArt h1 K r ep hs1 li1) = Ok (tt, mkArt (<[nn := d]> h1) K r ep hs1 li1) /\
    node_rep d (set_ch an ch') (an_base an) 1 /\ full d /\ tag (body d) = nc_type D /\ used d = count src.
Proof.
  intros Hl Hf Hc Ht Hcap Hnn. rewrite (cls_copyTo src (nc_insert D) Ht).
  destruct (cls_new (C := D) (level n) (pfx n)) as (Hl0 & Hf0 & Hc0 & Hu0 & Ht0 & Hp0 & Hlv0 & Hw0).
  destruct (N_copyTo_run (C := D) src (nc_new D (level n) (pfx n)) [] Hl Hf Hl0 Hf0 Ht0 Hc0 Hu0 Hcap) as (d & Hr & ((Hw & Hp & Hlv & Htd) & Hld & Hm) & Hfd & Hud).
  exists d. split; [by apply (at_node_quiet _ _ _ _ _ _ _ _ _ _ _ Hnn)|].
  pose proof (ok_read Hn) as (_ & _ & Hnl & Hnp). split_and!; try done; try congruence.
  split; [split_and!; cbn [set_ch an_path an_ch]; congruence|]. split; [|done].
  rewrite Hw, Hw0, Htd, Ht0. unfold word. rewrite Z.shiftl_mul_pow2 by lia. lia.
Qed.

(** One more child in a node that nobody else sees. *)
Lemma private_insert {D cap thr} `{!NodeClassSpec D cap thr} d an1 b0 h1 hs1 li1 nn b p :
  h1 !! nn = Some d -> node_rep d an1 b0 1 -> full d -> tag (body d) = nc_type D -> used d < cap ->
  byte b -> p <> 0 -> an_ch an1 !! b = None ->
  exists d', at_node nn (nc_insert D b p false) (mkArt h1 K r ep hs1 li1) = Ok (true, mkArt (<[nn := d']> h1) K r ep hs1 li1) /\
    node_rep d' (set_ch an1 (<[b := p]> (an_ch an1))) b0 1 /\ full d' /\ tag (body d') = nc_type D /\ used d' = used d + 1.
Proof.
  intros Hnn ((Hl & Hc & Hlv & Hst) & Hw & Hv1) Hf Ht Hu Hb Hp HN.
  destruct (cls_insert (C := D) d [] b p false) as (d' & l & Hr & (Hup & Hf' & Hu' & _) & Hl0); try done; [by rewrite Hc|].
  rewrite (Hl0 eq_refl) in Hr. cbn in Hr. exists d'. split; [by apply (at_node_quiet _ _ _ _ _ _ _ _ _ _ _ Hnn)|].
  rewrite Hc in Hup. pose proof Hup as ((H1 & H2 & H3 & H4) & _). split_and!; try done; try congruence.
  split; [by apply (node_read_upd d)|]. split; [congruence|done].
Qed.

Lemma new_node_ok_rep D d an1 nn :
  h !! nn = None -> node_rep d an1 (an_base an1) 1 -> full d -> tag (body d) = nc_type D ->
  (min_children (nc_type D) <= size (an_ch an1))%nat -> node_ok d an1 (nn = r) 1.
Proof.
  intros Hnn Hr Hf Ht Hs. split; [done|]. split; [done|]. split.
  - intros E. by destruct (new_not_root nn Hnn).
  - intros _. by rewrite Ht.
Qed.

(** The parent, the old and the new node once the copy has been swapped in. *)
Context {t : nat} (Htd : is_Some (deletionLists ep !! t)).

Lemma B_pos : 1 <= B + 1.
Proof. pose proof (ok_version Hn). unfold version_ok in *. lia. Qed.

Lemma swap_in_post {hs1 li1 m1 ch' nn d} na :
  trie_ok K r (<[a := set_ch an ch']> V) m1 -> h !! nn = None -> 0 < nn -> Z.odd nn = false ->
  node_ok d (set_ch an ch') (nn = r) 1 ->
  typeVersionLockObsolete na = word (tag (body na)) v + 2 ->
  Forall (crash_ok K r m m1) hs1 ->
  reads (<[a := na]> h) V \/ reads (<[a := na]> h) (<[a := set_ch an ch']> V) ->
  exists pn s' V', (h !! pa = Some pn /\
    swapIn nn pa pk a t (mkArt (<[pa := locked pn]> (<[nn := d]> (<[a := na]> h))) K r ep (hs ++ hs1) li1) = Ok (tt, s')) /\
    art_post (B + 1) V' m m1 (mkArt h K r ep hs li) s'.
Proof.
  intros T1 Hnn Hnn0 Hnno Hd Hwa Hcr Hrd. pose proof parent_ne as Hne. pose proof (ok_trie _ _ _ _ A) as T. cbn in T.
  assert (Hnnp : nn <> pa).
  { intros ->. destruct (ok_nodes _ _ _ _ A pa pan Hpa) as (? & ? & ? & _). cbn in *. congruence. }
  assert (Hnna : nn <> a) by congruence.
  assert (HVn : V !! nn = None).
  { apply eq_None_not_Some. intros Hs. apply (eq_None_not_Some (h !! nn)); [done|]. apply (ok_heap _ _ _ _ A). by left. }
  destruct (parent_lock h hs li eq_refl) as (pn & pv & Hp & Hpn & Hpv & Hpv1 & _).
  set (h1 := <[pa := locked pn]> (<[nn := d]> (<[a := na]> h))).
  destruct (swapIn_run nn pa pk a t h1 K r ep (hs ++ hs1) li1 d pn pan (pa = r) pv na v) as (h' & ep' & pn1 & pn2 & Hrun & Hst & Hpr & Hpok & Hh'); try done.
  - unfold h1. by rewrite lookup_insert_ne, lookup_insert_eq.
  - apply lookup_insert_eq.
  - unfold h1. rewrite lookup_insert_ne, lookup_insert_ne by done. apply lookup_insert_eq.
  - apply (ok_version Hn).
  - apply (ok_ep _ _ _ _ A).
  - exists pn. set (V1 := <[a := set_ch an ch']> V).
    assert (Hpa1 : V1 !! pa = Some pan) by (unfold V1; by rewrite lookup_insert_ne).
    assert (Hr1 : forall W, reads (<[a := na]> h) W -> W !! pa = Some pan -> W !! nn = None -> reads h1 W).
    { intros W HW HWp HWn. unfold h1. apply (reads_same _ W pa (locked pn) pan (an_base pan)); [|done|apply (locked_read Hpn)].
      by apply reads_other. }
    assert (HV1n : V1 !! nn = None) by (unfold V1; by rewrite lookup_insert_ne).
    eexists (mkArt h' K r ep' _ li1), (copied (V := V1) pa pk pan a nn (set_ch an ch')).
    split; [split; [done|]; etransitivity; [exact Hrun|by rewrite <- app_assoc]|].
    apply (copied_post V1 m1 (set_ch an ch') nn d 1 h' ep' pn2 (pv + 1)); try done.
    + unfold V1. apply lookup_insert_eq.
    + intros x Hx. unfold V1. by rewrite lookup_insert_ne.
    + rewrite Hh', !decide_False by done. unfold h1. by rewrite lookup_insert_ne, lookup_insert_eq.
    + apply B_pos.
    + by rewrite Hh', decide_True.
    + lia.
    + rewrite Hh', decide_False, decide_True by done. by eexists.
    + intros x H1 H2 H3. rewrite Hh', !decide_False by done. unfold h1. by rewrite !lookup_insert_ne.
    + apply list.Forall_app. split; [done|]. apply list.Forall_cons. split; [|apply list.Forall_cons; split; [|apply list.Forall_nil; done]].
      * destruct Hrd as [Hrd|Hrd].
        -- apply (crash_before K r m m1 V); [done|]. by apply Hr1.
        -- apply (crash_after K r m m1 V1); [done|]. by apply Hr1.
      * apply (crash_after K r m m1 (copied (V := V1) pa pk pan a nn (set_ch an ch'))).
        -- apply (trie_copied T1 pa pk pan Hpa1 a); try done. apply lookup_insert_eq.
        -- unfold copied. apply (reads_insert _ _ _ _ _ (an_base pan)); [|done]. unfold h1.
           intros x xn Hx. apply lookup_insert_Some in Hx as [[<- <-]|[Hxn Hx]].
           { exists d, (an_base (set_ch an ch')). rewrite lookup_insert_ne, lookup_insert_eq by done. split; [done|apply (ok_read Hd)]. }
           apply lookup_delete_Some in Hx as [Hxa Hx]. unfold V1 in Hx. rewrite lookup_insert_ne in Hx by done.
           destruct (ok_nodes _ _ _ _ A x xn Hx) as (nx & vx & Hnx & Hokx & _). cbn in Hnx.
           destruct (decide (x = pa)) as [->|Hxp].
           ++ exists (locked pn), (an_base pan). rewrite lookup_insert_eq. split; [done|]. rewrite Hpa in Hx. injection Hx as <-. apply (locked_read Hpn).
           ++ exists nx, (an_base xn). rewrite !lookup_insert_ne by done. split; [done|apply (ok_read Hokx)].
Qed.

(** ** The templates on a locked node *)

Context {bs : list Z} {ka b : Z} (Hk : key_ok K ka bs) (HNm : m !! bs = None).
Context (Hpre : (an_path an ++ [b]) `prefix_of` bs) (Hb : byte b) (Hch : an_ch an !! b = None).

Local Abbreviation p := (setLeaf ka).
Local Abbreviation ch' := (<[b := setLeaf ka]> (an_ch an)).
Local Abbreviation s0 := (mkArt h K r ep hs li).
Local Abbreviation s1 := (mkArt (<[a := locked n]> h) K r ep hs li).

Lemma leaf_nonzero : p <> 0.
Proof. intros E. pose proof (setLeaf_leaf ka) as Hl. by rewrite E in Hl. Qed.

Lemma trie_leaf : trie_ok K r (<[a := set_ch an ch']> V) (<[bs := ka]> m).
Proof. by apply (trie_insert_leaf (ok_trie _ _ _ _ A)). Qed.

Lemma locked_reads : reads (<[a := locked n]> h) V.
Proof.
  apply (reads_same _ V a _ an (an_base an)); [|done|apply (locked_read Hn)].
  apply (nodes_ok_reads _ _ r B). apply (ok_nodes _ _ _ _ A).
Qed.

(** The copy of class [D] with the new child, made and filled. *)
Lemma grown {C D capC thrC cap thr} `{!NodeClassSpec C capC thrC} `{!NodeClassSpec D cap thr} {X} :
  tag (body n) = nc_type C -> count n < cap -> (min_children (nc_type D) <= S (size (an_ch an)))%nat ->
  exists nn d, h !! nn = None /\ 0 < nn /\ Z.odd nn = false /\ node_ok d (set_ch an ch') (nn = r) 1 /\
    forall k2 : Z -> bool -> stM art X,
    (nn <- new_N (nc_new D (level (locked n)) (pfx (locked n)));
     at_node nn (nc_copyTo C (locked n) (nc_insert D));;
     ok <- at_node nn (nc_insert D b p false);
     k2 nn ok) s1 = k2 nn true (mkArt (<[nn := d]> (<[a := locked n]> h)) K r ep hs (li ++ [nn])).
Proof.
  intros Ht Hcnt Hmin. destruct (new_N_run (nc_new D (level n) (pfx n)) (<[a := locked n]> h) K r ep hs li) as (nn & Hnew & Hfr & Hnn0 & Hnno).
  assert (Hnna : nn <> a) by (intros ->; by rewrite lookup_insert_eq in Hfr). rewrite lookup_insert_ne in Hfr by done.
  destruct (copy_run (C := C) (D := D) (locked n) (an_ch an) (<[nn := nc_new D (level n) (pfx n)]> (<[a := locked n]> h)) hs (li ++ [nn]) nn)
    as (d & Hcp & Hdr & Hdf & Hdt & Hdu); try done.
  - apply (locked_read Hn).
  - apply (locked_full Hn).
  - apply (locked_chmap Hn).
  - cbn. lia.
  - apply lookup_insert_eq.
  - rewrite insert_insert_eq in Hcp.
    destruct (private_insert (D := D) d (set_ch an (an_ch an)) (an_base an) (<[nn := d]> (<[a := locked n]> h)) hs (li ++ [nn]) nn b p)
      as (d' & Hin & Hdr' & Hdf' & Hdt' & _); try done; [apply lookup_insert_eq|rewrite Hdu; cbn; lia|apply leaf_nonzero|].
    rewrite insert_insert_eq in Hin. exists nn, d'. split_and!; try done.
    + apply (new_node_ok_rep D); try done. cbn [set_ch an_ch]. rewrite map_size_insert_None by done. lia.
    + intros k2. cbn [locked set_word level pfx]. rewrite (cbind_Ok _ _ _ _ _ Hnew), (cbind_Ok _ _ _ _ _ Hcp), (cbind_Ok _ _ _ _ _ Hin). done.
Qed.

(** What is left when the copy has been made. *)
Lemma grown_post {nn d li1 X} (x : X) (del : stM art X) :
  h !! nn = None -> 0 < nn -> Z.odd nn = false -> node_ok d (set_ch an ch') (nn = r) 1 ->
  exists s' V', (needRestart <- at_node pa writeLockOrRestart;
     if needRestart : bool then del else swapIn nn pa pk a t;; cret x)
       (mkArt (<[nn := d]> (<[a := locked n]> h)) K r ep hs li1) = Ok (x, s') /\
    art_post (B + 1) V' m (<[bs := ka]> m) s0 s'.
Proof.
  intros Hnn Hnn0 Hnno Hd. pose proof parent_ne as Hne.
  assert (Hnnp : nn <> pa).
  { intros ->. destruct (ok_nodes _ _ _ _ A pa pan Hpa) as (? & ? & ? & _). cbn in *. congruence. }
  destruct (parent_lock (<[nn := d]> (<[a := locked n]> h)) hs li1) as (pn & pv & Hp & Hpn & _ & _ & Hlk).
  { by rewrite !lookup_insert_ne. }
  destruct (swap_in_post (hs1 := []) (li1 := li1) (locked n) trie_leaf Hnn Hnn0 Hnno Hd) as (pn' & s' & V' & (Hp' & Hsw) & Hpost).
  - cbn. by rewrite (ok_word Hn).
  - apply list.Forall_nil. done.
  - left. apply locked_reads.
  - rewrite Hp in Hp'. injection Hp' as <-. rewrite app_nil_r in Hsw. exists s', V'.
    rewrite (cbind_Ok _ _ _ _ _ Hlk). split; [|done]. by rewrite (cbind_Ok _ _ _ _ _ Hsw).
Qed.

Lemma read_locked {X} (f : NodeN -> X) : at_node a (load f) s1 = Ok (f (locked n), s1).
Proof. by apply (at_node_read _ _ _ _ _ _ _ _ (locked n)); [apply lookup_insert_eq|]. Qed.

Lemma insertGrow_grow {C D capC thrC cap thr} `{!NodeClassSpec C capC thrC} `{!NodeClassSpec D cap thr} :
  tag (body n) = nc_type C -> used n = capC -> count n < cap -> (min_children (nc_type D) <= S (size (an_ch an)))%nat ->
  exists s' V', insertGrow C D a pa pk b p t s1 = Ok (false, s') /\ art_post (B + 1) V' m (<[bs := ka]> m) s0 s'.
Proof.
  intros Ht Hu Hc Hmin. unfold insertGrow. erewrite cbind_Ok; [|eapply at_node_read; [apply lookup_insert_eq|]].
  2: { apply cls_insert_full; [apply (locked_read Hn)|done|done]. }
  cbv iota. rewrite (cbind_Ok _ _ _ _ _ (read_locked id)). unfold id.
  destruct (grown (C := C) (D := D) (X := bool) Ht Hc Hmin) as (nn & d & H1 & H2 & H3 & H4 & Hrun).
  destruct (grown_post (nn := nn) (d := d) (li1 := li ++ [nn]) false (delete_N nn;; at_node a writeUnlock;; cret true) H1 H2 H3 H4) as (s' & V' & Hs & Hp).
  exists s', V'. split; [|done]. rewrite <- Hs.
  apply (Hrun (fun nn _ => (needRestart <- at_node pa writeLockOrRestart;
     if needRestart : bool then delete_N nn;; at_node a writeUnlock;; cret true else swapIn nn pa pk a t;; cret false))).
Qed.

Lemma insertCompact_run {C cap thr} `{!NodeClassSpec C cap thr} :
  tag (body n) = nc_type C -> count n < cap -> (min_children (nc_type C) <= S (size (an_ch an)))%nat ->
  exists s' V', insertCompact C a pa pk b p t s1 = Ok ((true, false), s') /\ art_post (B + 1) V' m (<[bs := ka]> m) s0 s'.
Proof.
  intros Ht Hc Hmin. unfold insertCompact. rewrite (cbind_Ok _ _ _ _ _ (read_locked id)). unfold id.
  destruct (grown (C := C) (D := C) (X := bool * bool) Ht Hc Hmin) as (nn & d & H1 & H2 & H3 & H4 & Hrun).
  destruct (grown_post (nn := nn) (d := d) (li1 := li ++ [nn]) (true, false) (delete_N nn;; at_node a writeUnlock;; cret (true, true)) H1 H2 H3 H4) as (s' & V' & Hs & Hp).
  exists s', V'. split; [|done]. rewrite <- Hs.
  apply (Hrun (fun nn ok => if negb ok then delete_N nn;; cret (false, false) else (needRestart <- at_node pa writeLockOrRestart;
     if needRestart : bool then delete_N nn;; at_node a writeUnlock;; cret (true, true) else swapIn nn pa pk a t;; cret (true, false)))).
Qed.

End copy.

(** ** The dispatch *)

Lemma size_slots n : layout n -> (size (chmap n) <= length (slots (body n)))%nat.
Proof. intros (_ & _ & Hd & _). unfold chmap. rewrite smap_size by done. apply length_filter. Qed.

Lemma size_absent n b : layout n -> byte b -> chmap n !! b = None -> (size (chmap n) < 256)%nat.
Proof.
  intros Hl Hb HN. rewrite <- (size_dom (D := gset Z)).
  assert (size (dom (chmap n) ∪ {[b]} : gset Z) <= size (list_to_set bytes256 : gset Z))%nat as Hs.
  - apply subseteq_size. intros k [[p Hk]%elem_of_dom|Hk%elem_of_singleton]%elem_of_union; apply elem_of_list_to_set, elem_of_seqZ.
    + destruct (child_byte n k p Hl Hk) as [[? ?] _]. lia.
    + unfold byte in Hb. lia.
  - rewrite size_list_to_set in Hs by apply NoDup_seqZ. unfold bytes256 in Hs. rewrite length_seqZ in Hs.
    rewrite size_union, size_singleton in Hs; [lia|]. intros x Hx Hxb%elem_of_singleton. apply elem_of_dom in Hx as [? ?]. congruence.
Qed.

(** The children of an N48 are at different indices. *)
Lemma size_48 n ix cs : layout n -> body n = B48 ix cs -> (size (chmap n) <= 48)%nat.
Proof.
  intros Hl Eb. pose proof Hl as (_ & Hs & _). unfold shape in Hs. rewrite Eb in Hs. destruct Hs as (_ & Hlc & _ & Hi & Hinj).
  assert (Hix : forall k p, chmap n !! k = Some p -> exists i, ix !! Z.to_nat k = Some i /\ i <> emptyMarker).
  { intros k p Hp. destruct (chmap_slot n k p Hl Hp) as (j & Hj & Hp0). rewrite Eb in Hj. apply slots_B48_lookup in Hj as (_ & _ & Hc).
    destruct (B48_child ix cs k p (eq_sym Hc) Hp0) as (i & H1 & H2 & _). by exists i. }
  rewrite <- (size_dom (D := gset Z)). set (f := fun k => default 0 (ix !! Z.to_nat k)).
  assert (Hin : forall k, k ∈ dom (chmap n) -> exists i, f k = i /\ ix !! Z.to_nat k = Some i /\ i <> emptyMarker /\ byte k).
  { intros k [p Hp]%elem_of_dom. destruct (Hix k p Hp) as (i & H1 & H2). exists i. unfold f. rewrite H1.
    split_and!; try done; by apply (child_byte n k p). }
  change (size (dom (chmap n))) with (length (elements (dom (chmap n)))). rewrite <- (length_fmap f).
  change 48%nat with (length (seqZ 0 48)). apply submseteq_length, NoDup_submseteq.
  - apply NoDup_fmap_2_strong; [|apply NoDup_elements]. intros x y (i & Ei & Hx & Hne & Hbx)%elem_of_elements%Hin (j & Ej & Hy & _ & Hby)%elem_of_elements%Hin E.
    assert (j = i) as -> by congruence. pose proof (Hinj _ _ _ Hx Hy Hne). unfold byte in *. lia.
  - intros x (k & -> & Hk)%list_elem_of_fmap. apply elem_of_elements in Hk. apply Hin in Hk as (i & -> & Hk & Hne & _).
    apply Hi in Hk. unfold emptyMarker in *. apply elem_of_seqZ. lia.
Qed.

Section insert.
Context `{!Allocator} {K : gmap Z Key} {r : Z} {V : trie} {m : gmap (list Z) Z} {B : Z} {h : gmap Z NodeN} {ep : Epoche}.
Context {hs : list (gmap Z NodeN)} {li : list Z}.
Context (A : art_ok B V m (mkArt h K r ep hs li)) (HB : version_ok (B + 1)).
Context {a v : Z} {an : anode} {n : NodeN}.
Context (Ha : V !! a = Some an) (Hh : h !! a = Some n) (Hn : node_ok n an (a = r) v) (Hv : v <= B).
Context {pa pk : Z} (Hpar : a = r \/ edge V pa pk a).
Context {t : nat} (Htd : is_Some (deletionLists ep !! t)).
Context {bs : list Z} {ka b : Z} (Hk : key_ok K ka bs) (HNm : m !! bs = None).
Context (Hpre : (an_path an ++ [b]) `prefix_of` bs) (Hb : byte b) (Hch : an_ch an !! b = None).

Local Abbreviation s0 := (mkArt h K r ep hs li).
Local Abbreviation s1 := (mkArt (<[a := locked n]> h) K r ep hs li).
Local Abbreviation post s' := (exists V', art_post (B + 1) V' m (<[bs := ka]> m) s0 s').

Lemma version_next : version_ok (v + 1).
Proof. pose proof (ok_version Hn). unfold version_ok in *. lia. Qed.

Lemma insert_inplace_post {C cap thr} `{!NodeClassSpec C cap thr} (rest : stM art bool) :
  tag (body n) = nc_type C -> used n < cap ->
  exists s', (ok <- at_node a (nc_insert C b (setLeaf ka) true);
      if ok : bool then at_node a writeUnlock;; cret false else rest) s1 = Ok (false, s') /\ post s'.
Proof.
  intros Ht Hu. destruct (insert_inplace Hn (C := C) (K := K) (ep := ep) (hs := hs) (li := li) (h := h) b (setLeaf ka) rest Ht Hu Hb) as (n2 & l & Hr & Hok & Hm); try done.
  - apply leaf_nonzero.
  - apply version_next.
  - eexists. split; [exact Hr|]. eexists. eapply (inplace_post A Ha Hh Hn Hv); try done.
    by apply (trie_insert_leaf (ok_trie _ _ _ _ A)).
Qed.

Lemma insertCase_run {C D capC thrC cap thr} `{!NodeClassSpec C capC thrC} `{!NodeClassSpec D cap thr} holes :
  tag (body n) = nc_type C -> nc_type C <> NT256 -> used n = compactCount n -> used n <= capC ->
  (holes (count n) = true -> count n < capC) ->
  (holes (count n) = false -> used n = capC -> (min_children (nc_type D) <= S (size (an_ch an)))%nat) -> count n < cap ->
  exists s', insertCase C D capC holes a pa pk b (setLeaf ka) t s1 = Ok (false, s') /\ post s'.
Proof.
  intros Ht H256 Hcc Hcap Hho Hnh Hc.
  assert (Har : a <> r) by (intros E; destruct Hn as (_ & _ & H1 & _); rewrite (H1 E) in Ht; congruence).
  destruct Hpar as [?|(pan & Hpa & Hpk)]; [done|]. unfold insertCase.
  rewrite (cbind_Ok _ _ _ _ _ (read_locked compactCount)), (cbind_Ok _ _ _ _ _ (read_locked count)).
  cbn [locked set_word compactCount count]. rewrite <- Hcc.
  destruct (Z.eqb_spec (used n) capC) as [E|E]; cbn [andb].
  2: { apply insert_inplace_post; [done|lia]. }
  destruct (holes (count n)) eqn:Eh.
  - destruct (insertCompact_run A HB Ha Hh Hn Hv Hpa Hpk Htd Hk HNm Hpre Hb Hch (C := C) Ht) as (s' & V' & Hr & Hp); [auto| |].
    + destruct Hn as (_ & _ & _ & Hs). specialize (Hs Har). rewrite <- Ht. lia.
    + rewrite (cbind_Ok _ _ _ _ _ Hr). eexists. split; [done|]. by exists V'.
  - destruct (insertGrow_grow A HB Ha Hh Hn Hv Hpa Hpk Htd Hk HNm Hpre Hb Hch (C := C) (D := D) Ht) as (s' & V' & Hr & Hp); try done; [auto|].
    eexists. split; [done|]. by exists V'.
Qed.

Lemma insertAndUnlock_run :
  exists s', insertAndUnlock a pa pk b (setLeaf ka) t s1 = Ok (false, s') /\ post s'.
Proof.
  pose proof (ok_layout Hn) as Hl. pose proof (ok_full Hn) as [Hcn _]. pose proof (size_slots n Hl) as Hss.
  assert (Hsh : shape n) by apply Hl. rewrite (slots_length n Hsh) in Hss.
  pose proof (size_absent n b Hl Hb ltac:(by rewrite (ok_chmap Hn))) as H256. rewrite (ok_chmap Hn) in *.
  unfold insertAndUnlock, getType. rewrite (cbind_Ok _ _ _ _ _ (read_locked _)).
  assert (Hty : Z.shiftr (typeVersionLockObsolete (locked n)) 62 = tag (body n)).
  { cbn [locked set_word typeVersionLockObsolete]. rewrite (ok_word Hn) at 1. rewrite (ok_shift Hn) by lia. apply Hl. }
  rewrite Hty. unfold used in *. unfold shape in Hsh.
  destruct (body n) as [ks cs|ks cs|ix cs|cs] eqn:Eb; cbn [tag].
  - change (NT4 =? NT4) with true. cbv iota. apply (insertCase_run (C := C4) (D := C16)); unfold used; rewrite ?Eb; try done; try lia.
    change (min_children (nc_type C16)) with 3%nat. lia.
  - change (NT16 =? NT4) with false. change (NT16 =? NT16) with true. cbv iota.
    apply (insertCase_run (C := C16) (D := C48)); unfold used; rewrite ?Eb; try done; try lia.
    change (min_children (nc_type C48)) with 12%nat. lia.
  - change (NT48 =? NT4) with false. change (NT48 =? NT16) with false. change (NT48 =? NT48) with true. cbv iota.
    pose proof (size_48 n ix cs Hl Eb) as H48. rewrite (ok_chmap Hn) in H48.
    apply (insertCase_run (C := C48) (D := C256)); unfold used; rewrite ?Eb; try done; try lia.
    change (min_children (nc_type C256)) with 37%nat. lia.
  - change (NT256 =? NT4) with false. change (NT256 =? NT16) with false. change (NT256 =? NT48) with false. cbv iota.
    apply (insert_inplace_post (C := C256)); unfold used; rewrite ?Eb; [done|lia].
Qed.

End insert.
