(* ===== verification/ArtInsert.v ===== *)
(** * P-ART: insertion

    [Tree::insert]: a node whose prefix the key leaves is split, a leaf on the way of the key goes
    below a new node together with the new leaf, and otherwise the new leaf becomes a child of the
    last node. *)

From S2P Require Import Prelude ArtNode ArtSlots ArtLayout ArtClass Epoche ArtTree.
From S2P Require Import ArtTrie ArtTrieUpd ArtRep ArtPrefix ArtState ArtGrow.
#[local] Open Scope Z_scope.
#[local] Open Scope cmd_scope.

(** ** Prefixes *)

(** [setPrefix] with the bytes of [pi] from [b] on. *)
Lemma setPrefix_run n src pi b (flush : bool) :
  (b <= length pi)%nat ->
  (forall i x, (i < 4)%nat -> pi !! (b + i)%nat = Some x -> src !! i = Some (Some x)) ->
  exists p, setPrefix src (Z.of_nat (length pi - b)) flush (mkNS n []) =
      Ok (tt, mkNS (set_pfx n p) (if flush then [set_pfx n p] else [])) /\ stored p pi b.
Proof.
  intros Hb Hsrc. unfold setPrefix. destruct (Z.ltb_spec 0 (Z.of_nat (length pi - b))) as [Hpos|Hz].
  - set (c := Nat.min (length pi - b) 4).
    assert (Hc : (c <= length src)%nat).
    { destruct (lookup_lt_is_Some_2 pi (b + (c - 1))) as (x & Hx); [lia|]. apply Hsrc in Hx; [|lia].
      apply lookup_lt_Some in Hx. lia. }
    assert (Hm : memcpy (prefixBytes Prefix_default) 0 src (Z.min (Z.of_nat (length pi - b)) maxStoredPrefixLength) (mkNS n [])
      = Ok (take c src ++ drop c (prefixBytes Prefix_default), mkNS n [])).
    { unfold memcpy, maxStoredPrefixLength. replace (Z.min _ _) with (Z.of_nat c) by lia.
      change (Z.of_nat (length (prefixBytes Prefix_default))) with 4.
      rewrite (proj2 (Z.leb_le 0 (Z.of_nat c))), (proj2 (Z.leb_le (0 + Z.of_nat c) 4)), (proj2 (Z.leb_le (Z.of_nat c) _)) by lia.
      cbn [andb Z.leb Z.compare]. rewrite Z.add_0_l, Nat2Z.id. done. }
    exists (mkPrefix (Z.of_nat (length pi - b)) (take c src ++ drop c (prefixBytes Prefix_default))). split.
    + rewrite cbind_assoc, (cbind_Ok _ _ _ _ _ Hm). by destruct flush.
    + split_and!; [done|done|..]; cbn [prefixBytes].
      * rewrite length_app, length_take, length_drop. cbn. lia.
      * intros i x Hi Hx. pose proof (lookup_lt_Some _ _ _ Hx).
        rewrite lookup_app_l by (rewrite length_take; lia). rewrite lookup_take_lt by lia. by apply Hsrc.
  - exists Prefix_default. split; [by destruct flush|]. split_and!; [done|cbn; lia|done|].
    intros i x Hi Hx. apply lookup_lt_Some in Hx. lia.
Qed.

Lemma version_step B v : version_ok (B + 1) -> version_ok v -> v <= B -> version_ok (v + 1).
Proof. unfold version_ok. lia. Qed.

(** ** A child pushed below a new node *)

Section push.
Context {K : gmap Z Key} {r : Z} {V : trie} {m : gmap (list Z) Z} {B : Z} {h : gmap Z NodeN} {ep : Epoche}.
Context {hs : list (gmap Z NodeN)} {li : list Z}.
Context (A : art_ok B V m (mkArt h K r ep hs li)) (HB : version_ok (B + 1)).
Context {pa pk : Z} {pan : anode} (Hpa : V !! pa = Some pan).
Context {p0 : Z} {bs0 : list Z} (Hedge : an_ch pan !! pk = Some p0) (Hst : stands_for (K := K) (V := V) (m := m) p0 bs0).
Context {ka : Z} {bs : list Z} (Hk : key_ok K ka bs) (HNm : m !! bs = None).
Context {x y : Z} {pi : list Z} (Hpi : (an_path pan ++ [pk]) `prefix_of` pi) (Hx : (pi ++ [x]) `prefix_of` bs).
Context (Hy : (pi ++ [y]) `prefix_of` bs0) (Hxy : x <> y).
Context {nn : Z} (Hnn : h !! nn = None) (Hnn0 : 0 < nn) (Hnno : Z.odd nn = false).

(** [V] with the new base of [p0]. *)
Definition rebased (V : trie) (p0 : Z) (b : nat) : trie :=
  match V !! p0 with Some cn => <[p0 := set_base cn b]> V | None => V end.

Lemma rebased_lookup V1 q b c :
  rebased V1 q b !! c = if decide (c = q) then (fun cn => set_base cn b) <$> V1 !! c else V1 !! c.
Proof.
  unfold rebased. destruct (V1 !! q) as [cn|] eqn:E.
  - destruct (decide (c = q)) as [->|Hc]; [by rewrite lookup_insert_eq, E|by rewrite lookup_insert_ne].
  - destruct (decide (c = q)) as [->|Hc]; [by rewrite E|done].
Qed.

Lemma rebased_none V1 q b c : rebased V1 q b !! c = None <-> V1 !! c = None.
Proof. rewrite rebased_lookup. case_decide; [|done]. by destruct (V1 !! c). Qed.

(** A heap that can be read as [V] can be read as the rebased trie. *)
Lemma reads_rebased h1 V1 q b : reads h1 V1 -> reads h1 (rebased V1 q b).
Proof.
  intros HR c cn Hc. rewrite rebased_lookup in Hc. case_decide; [|by apply HR].
  destruct (V1 !! c) as [cn0|] eqn:E; [|done]. injection Hc as <-. apply (HR c cn0 E).
Qed.

Local Abbreviation V' := (pushed pa pk pan (rebased V p0 (S (length pi))) nn pi x ka y p0).
Local Abbreviation ppan := (set_ch pan (<[pk := nn]> (an_ch pan))).
Local Abbreviation nan := (mkA pi (S (length (an_path pan))) {[x := setLeaf ka; y := p0]}).

Lemma push_fresh : V !! nn = None.
Proof.
  apply eq_None_not_Some. intros Hs. apply (eq_None_not_Some (h !! nn)); [done|]. apply (ok_heap _ _ _ _ A). by left.
Qed.

Lemma push_trie : trie_ok K r V' (<[bs := ka]> m).
Proof.
  apply (trie_pushed (ok_trie _ _ _ _ A) pa pk pan Hpa _ p0 nn x y ka pi bs bs0); try done; [apply push_fresh|].
  intros c. apply rebased_lookup.
Qed.

Lemma push_pa : pa <> p0 /\ pa <> nn.
Proof.
  split; [|intros E; rewrite E in Hpa; by rewrite push_fresh in Hpa].
  intros E. apply (no_self_edge (ok_trie _ _ _ _ A) pa pk). exists pan. split; [done|congruence].
Qed.

Lemma push_node_not_new : is_Some (V !! p0) -> p0 <> nn.
Proof. intros [? E] ->. by rewrite push_fresh in E. Qed.

Lemma push_reads h1 d pn : reads h1 V -> node_read d nan (S (length (an_path pan))) -> node_read pn ppan (an_base pan) ->
  reads (<[pa := pn]> (<[nn := d]> h1)) V'.
Proof.
  intros HR Hd Hp. unfold pushed. apply (reads_insert _ _ _ _ _ (an_base pan)); [|done].
  apply (reads_insert _ _ _ _ _ (S (length (an_path pan)))); [|done]. by apply reads_rebased.
Qed.

(** The node at [p0] after its prefix has been written. *)
Lemma push_reads_child h1 n b cn : reads h1 V' -> V !! p0 = Some cn -> node_read n cn b -> reads (<[p0 := n]> h1) V'.
Proof.
  intros HR Hc Hn. destruct push_pa as [H1 H2]. apply (reads_same _ _ _ _ (set_base cn (S (length pi))) b); [done| |done].
  pose proof (push_node_not_new ltac:(by eexists)). unfold pushed. rewrite !lookup_insert_ne by done.
  rewrite rebased_lookup, decide_True, Hc by done. done.
Qed.

Lemma push_post h' d dv pn pv hs' li' :
  h' !! pa = Some pn -> node_ok pn ppan (pa = r) pv -> pv <= B + 1 ->
  h' !! nn = Some d -> node_ok d nan (nn = r) dv -> dv <= B + 1 ->
  (forall cn, V !! p0 = Some cn -> exists n v, h' !! p0 = Some n /\ node_ok n (set_base cn (S (length pi))) (p0 = r) v /\ v <= B + 1) ->
  (forall c, c <> pa -> c <> nn -> (is_Some (V !! p0) -> c <> p0) -> h' !! c = h !! c) ->
  Forall (crash_ok K r m (<[bs := ka]> m)) hs' ->
  art_post (B + 1) V' m (<[bs := ka]> m) (mkArt h K r ep hs li) (mkArt h' K r ep (hs ++ hs') li').
Proof.
  intros Hp Hpok Hpv Hd Hdok Hdv Hc Ho Hcr. pose proof push_trie as T'. pose proof push_pa as [Hpp Hpn].
  pose proof push_fresh as Hfr. destruct A as [T HNk He Hpe Hheap Hdis]. cbn in *. split; [split|split_and!]; cbn; try done.
  - intros c cn Hcn. unfold pushed in Hcn. apply lookup_insert_Some in Hcn as [[<- <-]|[Hca Hcn]]; [by exists pn, pv|].
    apply lookup_insert_Some in Hcn as [[<- <-]|[Hcb Hcn]]; [by exists d, dv|]. rewrite rebased_lookup in Hcn.
    destruct (decide (c = p0)) as [->|Hcc].
    + destruct (V !! p0) as [cn0|] eqn:E; [|done]. injection Hcn as <-. by apply Hc.
    + destruct (HNk c cn Hcn) as (nc & vc & H1 & H2 & H3). exists nc, vc. rewrite Ho by done. split_and!; [done|done|lia].
  - intros c. unfold pushed. rewrite !lookup_insert_is_Some'. destruct (decide (c = pa)) as [->|Hca]; [split; [auto|by eexists]|].
    destruct (decide (c = nn)) as [->|Hcb]; [split; [auto|by eexists]|].
    assert (E : is_Some (rebased V p0 (S (length pi)) !! c) <-> is_Some (V !! c)).
    { rewrite rebased_lookup. case_decide; [|done]. apply fmap_is_Some. }
    rewrite E. destruct (decide (c = p0)) as [->|Hcc].
    + destruct (V !! p0) as [cn0|] eqn:E0.
      * split; [intros _; left; right; right; by eexists|]. intros _. destruct (Hc cn0 eq_refl) as (n & v & Hn & _). by eexists.
      * rewrite Ho, Hheap, E0 by (try done; by intros [? ?]). naive_solver.
    + rewrite Ho, Hheap by done. naive_solver.
  - intros c Hcp. pose proof (Hdis c Hcp) as Hcv. pose proof (proj2 (Hheap c) (or_intror Hcp)) as [? ?].
    assert (c <> pa /\ c <> nn) as [? ?] by (split; congruence). unfold pushed. rewrite !lookup_insert_ne by done.
    by apply rebased_none.
  - by exists hs'.
Qed.

End push.

(** ** A new node with two children *)

Lemma fresh_rep {D cap thr} `{!NodeClassSpec D cap thr} lv p pi b0 b :
  stored p pi b -> lv = Z.of_nat (length pi) -> let n := nc_new D lv p in
  node_rep n (mkA pi b0 ∅) b 1 /\ full n /\ tag (body n) = nc_type D /\ used n = 0.
Proof.
  intros Hp Hlv n. destruct (cls_new (C := D) lv p) as (H1 & H2 & H3 & H4 & H5 & H6 & H7 & H8).
  split; [|done]. split; [split_and!; try done; unfold n; cbn [an_path an_ch]; congruence|]. split; [|unfold version_ok; lia].
  unfold n. rewrite H8, H5. unfold word. rewrite Z.shiftl_mul_pow2 by lia. lia.
Qed.

Lemma pair_children (x y p q : Z) : x <> y -> <[y := q]> (<[x := p]> ∅) = ({[x := p; y := q]} : gmap Z Z).
Proof. intros H. by rewrite insert_insert_ne. Qed.

Lemma pair_run {K r ep hs li} h nn n0 pi b0 x px y py :
  h !! nn = Some n0 -> node_rep n0 (mkA pi b0 ∅) b0 1 -> full n0 -> tag (body n0) = NT4 -> used n0 = 0 ->
  byte x -> byte y -> px <> 0 -> py <> 0 -> x <> y ->
  exists d1 d, at_node nn (N4_insert x px false) (mkArt h K r ep hs li) = Ok (true, mkArt (<[nn := d1]> h) K r ep hs li) /\
    at_node nn (N4_insert y py false) (mkArt (<[nn := d1]> h) K r ep hs li) = Ok (true, mkArt (<[nn := d]> h) K r ep hs li) /\
    node_rep d (mkA pi b0 {[x := px; y := py]}) b0 1 /\ full d /\ tag (body d) = NT4.
Proof.
  intros Hnn Hr0 Hf0 Ht0 Hu0 Hx Hy Hpx Hpy Hxy.
  destruct (private_insert (D := C4) (K := K) (r := r) (ep := ep) n0 _ b0 h hs li nn x px Hnn Hr0 Hf0 Ht0) as (d1 & H1 & Hr1 & Hf1 & Ht1 & Hu1); try done; [lia|].
  destruct (private_insert (D := C4) (K := K) (r := r) (ep := ep) d1 _ b0 (<[nn := d1]> h) hs li nn y py ltac:(apply lookup_insert_eq) Hr1 Hf1 Ht1) as (d & H2 & Hr2 & Hf2 & Ht2 & _); try done.
  - lia.
  - cbn. by rewrite lookup_insert_ne.
  - rewrite insert_insert_eq in H2. exists d1, d. split_and!; try done.
    unfold set_ch in Hr2. cbn [an_path an_base an_ch] in Hr2. by rewrite (pair_children x y px py Hxy) in Hr2.
Qed.

(** Paths are as short as keys. *)
Lemma path_small B V m s : art_ok B V m s -> forall a an, V !! a = Some an -> Z.of_nat (length (an_path an)) < 2 ^ 31.
Proof.
  intros A a an Ha. pose proof (ok_trie _ _ _ _ A) as T. destruct (decide (a = root s)) as [->|Hr].
  - destruct (tr_root _ _ _ _ T) as (rn & Hrn & Hp & _). rewrite Ha in Hrn. injection Hrn as <-. rewrite Hp. cbn. lia.
  - destruct (getAnyChildTid_run T (ok_nodes _ _ _ _ A) (epoche s) [] [] a an Ha Hr) as (kt & bt & _ & Hkt & Hp & _).
    apply prefix_length in Hp. pose proof (key_short Hkt). lia.
Qed.

(** A locked node gets another prefix and is unlocked. *)
Lemma pfx_unlock n an R v p c :
  node_ok n an R v -> stored p (an_path an) c -> version_ok (v + 1) ->
  exists n', writeUnlock (mkNS (set_pfx (locked n) p) []) = Ok (tt, mkNS n' []) /\
    node_read (set_pfx (locked n) p) an c /\ node_ok n' (set_base an c) R (v + 1).
Proof.
  intros Hn Hp Hv. pose proof (locked_read Hn) as (HL & HC & HLV & _).
  assert (Hrd : node_read (set_pfx (locked n) p) an c) by (split_and!; try done).
  exists (set_word (set_pfx (locked n) p) (word (tag (body n)) (v + 1))).
  assert (Hw : typeVersionLockObsolete (set_pfx (locked n) p) = word (tag (body n)) v + 2) by (cbn; by rewrite (ok_word Hn) at 1).
  split; [by apply (unlock_run (set_pfx (locked n) p) v); [|apply (ok_version Hn)]|]. split; [done|].
  split; [split|split; [apply (ok_full Hn)|apply Hn]]; [|done].
  apply node_read_set_word; [done|]. rewrite Hw, <- word_succ. by rewrite !(word_type _ v) by (apply tag_range || apply (ok_version Hn) || lia).
Qed.

(** ** The split of a prefix *)

Lemma edge_not_root {B V m h K r ep hs li pa pk pan a} :
  art_ok B V m (mkArt h K r ep hs li) -> V !! pa = Some pan -> an_ch pan !! pk = Some a -> a <> r.
Proof. intros A Hpa Hpk ->. apply (root_no_parent (ok_trie _ _ _ _ A) pa pk). by exists pan. Qed.

Section split.
Context `{!Allocator} {K : gmap Z Key} {r : Z} {V : trie} {m : gmap (list Z) Z} {B : Z} {h : gmap Z NodeN} {ep : Epoche}.
Context {hs : list (gmap Z NodeN)} {li : list Z}.
Context (A : art_ok B V m (mkArt h K r ep hs li)) (HB : version_ok (B + 1)).
Context {a v : Z} {an : anode} {n : NodeN}.
Context (Ha : V !! a = Some an) (Hh : h !! a = Some n) (Hn : node_ok n an (a = r) v) (Hv : v <= B).
Context {pa pk : Z} {pan : anode} (Hpa : V !! pa = Some pan) (Hpk : an_ch pan !! pk = Some a).
Context {ka : Z} {bs : list Z} (Hk : key_ok K ka bs) (HNm : m !! bs = None).
Context {l : nat} {x : Z} {rem : list (option Z)} (Hl : (an_base an <= l)%nat) (Hlp : leaves_path (bs := bs) (an_path an) l x rem).

Local Abbreviation pi := (take l (an_path an)).

Lemma split_len : length pi = l /\ (l < length (an_path an))%nat.
Proof. destruct Hlp as (_ & Hx & _). apply lookup_lt_Some in Hx. rewrite length_take. lia. Qed.

Lemma split_prefix : (an_path pan ++ [pk]) `prefix_of` pi.
Proof.
  destruct (edge_node (ok_trie _ _ _ _ A) _ _ _ _ _ Hpa Hpk Ha) as [Hb Hp]. pose proof split_len as [Hpl Hll].
  apply (prefix_le _ _ (an_path an)); [done|apply prefix_take|]. rewrite length_app. cbn. lia.
Qed.

Lemma split_old : (pi ++ [x]) `prefix_of` an_path an.
Proof. destruct Hlp as (_ & Hx & _). rewrite <- (take_S_r _ _ _ Hx). apply prefix_take. Qed.

Lemma split_stands : stands_for (K := K) (V := V) (m := m) a (an_path an).
Proof. unfold stands_for, path. by rewrite (node_not_leaf (ok_trie _ _ _ _ A) a an Ha), Ha. Qed.

(** The prefix of the new node is the part before the split. *)
Lemma split_stored : stored (mkPrefix (u32 (Z.of_nat l - Z.of_nat (an_base an))) (prefixBytes (pfx n))) pi (an_base an).
Proof.
  pose proof split_len as [Hpl Hll]. pose proof (ok_read Hn) as (_ & _ & _ & (Hb & Hc & Hlen & Hby)).
  pose proof (key_short Hk). assert (l < length bs)%nat by (destruct Hlp as (_ & _ & (y & Hy & _) & _); by apply lookup_lt_Some in Hy).
  split_and!; cbn [prefixCount prefixBytes]; [lia|rewrite u32_small; lia|done|].
  intros i z Hi Hz. apply Hby; [done|]. pose proof (lookup_lt_Some _ _ _ Hz). rewrite lookup_take_lt in Hz by lia. done.
Qed.

(** The node with the rest of its prefix, unlocked. *)
Lemma split_rest :
  exists n3 n4, setPrefix rem (u32 (prefixCount (pfx (locked n)) - (Z.of_nat l - Z.of_nat (an_base an) + 1))) true (mkNS (locked n) []) =
      Ok (tt, mkNS n3 [n3]) /\ writeUnlock (mkNS n3 []) = Ok (tt, mkNS n4 []) /\
    node_read n3 an (S l) /\ node_ok n4 (set_base an (S l)) (a = r) (v + 1).
Proof.
  pose proof split_len as [Hpl Hll]. pose proof (ok_read Hn) as (Hly & Hch & Hlv & (Hb & Hc & Hlen & Hby)).
  destruct Hlp as (_ & _ & (y & Hy & _) & _ & Hrem). pose proof (key_short Hk). apply lookup_lt_Some in Hy.
  pose proof (path_small _ _ _ _ A a an Ha) as Hsmall.
  cbn [locked set_word pfx]. rewrite Hc, u32_small by lia.
  replace (Z.of_nat (length (an_path an) - an_base an) - _) with (Z.of_nat (length (an_path an) - S l)) by lia.
  destruct (setPrefix_run (locked n) rem (an_path an) (S l) true) as (p & Hr & Hp); [lia| |].
  { intros i z Hi Hz. apply Hrem; [done|]. rewrite <- Hz. f_equal. lia. }
  destruct (pfx_unlock _ _ _ _ p _ Hn Hp (version_step B v HB (ok_version Hn) Hv)) as (n4 & Hun & Hrd & Hok).
  exists (set_pfx (locked n) p), n4. done.
Qed.

Local Abbreviation s0 := (mkArt h K r ep hs li).

Local Abbreviation h0 := (<[a := locked n]> h).

Lemma split_reads : reads h0 V.
Proof.
  apply (reads_same _ V a _ an (an_base an)); [|done|apply (locked_read Hn)]. eapply nodes_ok_reads, (ok_nodes _ _ _ _ A).
Qed.

(** The new node takes the place of the old one, which then gets the rest of its prefix. *)
Lemma split_swap nn d y li1 :
  h !! nn = None -> 0 < nn -> Z.odd nn = false -> bs !! l = Some y -> y <> x ->
  node_ok d (mkA pi (S (length (an_path pan))) {[y := setLeaf ka; x := a]}) (nn = r) 1 ->
  exists s' V', (at_node nn (N_clflush false true);;
     needRestart <- at_node pa writeLockOrRestart;
     (if needRestart : bool then delete_N nn;; at_node a writeUnlock;; cret Restart
      else
       at_node pa (N_change pk nn);;
       at_node pa writeUnlock;;
       p <- at_node a getPrefi;
       at_node a (setPrefix rem (u32 (prefixCount p - (Z.of_nat l - Z.of_nat (an_base an) + 1))) true);;
       at_node a writeUnlock;; cret Finished)) (mkArt (<[nn := d]> h0) K r ep hs li1) = Ok (Finished, s') /\
    art_post (B + 1) V' m (<[bs := ka]> m) s0 s'.
Proof.
  intros Hnn Hnn0 Hnno Hy Hyx Hd. pose proof (parent_ne A Hpa Hpk) as Hap. pose proof Hlp as (Hpb & _). pose proof split_len as [Hpl _].
  assert (Hbs : (pi ++ [y]) `prefix_of` bs) by (apply prefix_snoc_lookup; rewrite Hpl; done).
  assert (Hnna : nn <> a) by congruence.
  destruct (push_pa A Hpa Hpk Hnn) as [_ Hpn].
  rewrite (cbind_Ok _ _ _ _ _ (at_node_run nn _ _ K r ep hs li1 d tt d [d] ltac:(apply lookup_insert_eq) eq_refl)). rewrite insert_insert_eq.
  cbn [fmap list_fmap]. rewrite insert_insert_eq.
  destruct (parent_lock A HB Hpa (<[nn := d]> h0) (hs ++ [<[nn := d]> h0]) li1) as (pn & pv & Hp & Hpn' & Hpv & Hpv1 & Hlk); [by rewrite !lookup_insert_ne by done|].
  rewrite (cbind_Ok _ _ _ _ _ Hlk). cbv iota.
  destruct (change_locked Hpn' pk a nn Hpk ltac:(lia)) as (pn1 & Hc & Hu & Hf).
  erewrite cbind_Ok; [|eapply at_node_run; [apply lookup_insert_eq|exact Hc]]. rewrite insert_insert_eq. cbn [fmap list_fmap]. rewrite insert_insert_eq.
  destruct (unlock_ok Hpn' pn1 _ Hu Hf Hpv1 (change_size Hpn' pk a nn Hpk)) as (pn2 & Hun & Hok).
  erewrite cbind_Ok; [|eapply at_node_quiet; [apply lookup_insert_eq|exact Hun]]. rewrite insert_insert_eq.
  set (h3 := <[pa := pn2]> (<[nn := d]> h0)).
  assert (Ha3 : h3 !! a = Some (locked n)) by (unfold h3; by rewrite !lookup_insert_ne, lookup_insert_eq by done).
  erewrite cbind_Ok; [|eapply (at_node_read a getPrefi); [exact Ha3|reflexivity]]. cbn [self].
  destruct split_rest as (n3 & n4 & Hr3 & Hr4 & Hrd3 & Hok4).
  erewrite cbind_Ok; [|eapply at_node_run; [exact Ha3|exact Hr3]]. cbn [fmap list_fmap].
  erewrite cbind_Ok; [|eapply at_node_quiet; [apply lookup_insert_eq|exact Hr4]]. rewrite insert_insert_eq.
  pose proof (node_read_upd _ _ _ _ _ (locked_read Hpn') Hu) as Hrp1.
  pose proof (fun q => push_reads (V := V) (pk := pk) (pan := pan) (pa := pa) (p0 := a) (nn := nn) h0 d q split_reads (ok_read Hd)) as HPR.
  assert (Hread3 : reads h3 (pushed pa pk pan (rebased V a (S (length pi))) nn pi y ka x a)) by apply HPR, (ok_read Hok).
  rewrite <- !app_assoc. do 2 eexists. split; [reflexivity|].
  apply (push_post A Hpa Hpk split_stands Hk HNm split_prefix Hbs split_old Hyx Hnn Hnn0 Hnno) with (d := d) (dv := 1) (pn := pn2) (pv := pv + 1); try done.
  - unfold h3. by rewrite lookup_insert_ne, lookup_insert_eq by done.
  - lia.
  - unfold h3. by rewrite !lookup_insert_ne, lookup_insert_eq by done.
  - pose proof (ok_version Hn) as Hv0. unfold version_ok in Hv0. lia.
  - intros cn Hcn. rewrite Ha in Hcn. injection Hcn as <-. exists n4, (v + 1). rewrite lookup_insert_eq, Hpl. split_and!; [done|done|lia].
  - intros c H1 H2 H3. assert (c <> a) by (apply H3; by eexists). unfold h3. by rewrite !lookup_insert_ne by done.
  - pose proof (push_trie A Hpa Hpk split_stands Hk HNm split_prefix Hbs split_old Hyx Hnn Hnn0 Hnno) as T'.
    apply list.Forall_cons. split; [|apply list.Forall_cons; split; [|apply list.Forall_cons; split; [|by apply list.Forall_nil]]].
    + apply (crash_before _ _ _ _ V); [apply (ok_trie _ _ _ _ A)|]. apply reads_other; [apply split_reads|by apply (push_fresh A)].
    + eapply crash_after; [exact T'|]. by apply HPR.
    + eapply crash_after; [exact T'|]. apply (push_reads_child A Hpa Hpk split_stands Hnn _ _ (S l) an); done.
Qed.

Lemma insert_split_run :
  exists s' V', insert_split ka a pa pk (typeVersionLockObsolete n) (Z.of_nat (an_base an)) (Z.of_nat l) x rem s0 = Ok (Finished, s') /\
    art_post (B + 1) V' m (<[bs := ka]> m) s0 s'.
Proof.
  pose proof split_len as [Hpl Hll]. pose proof Hlp as (_ & Hx & (y & Hy & Hyx) & _).
  pose proof (lookup_lt_Some _ _ _ Hy) as Hlb. unfold insert_split.
  rewrite (cbind_Ok _ _ _ _ _ (getKeyLen_run Hk h r ep hs li)). rewrite (proj2 (Z.ltb_lt _ _)) by lia.
  rewrite (cbind_Ok (cassert _) _ _ tt s0) by done.
  rewrite (cbind_Ok _ _ _ _ _ (at_node_quiet _ _ _ _ _ _ _ _ _ _ _ Hh (lock_run n v (ok_word Hn) (ok_version Hn) []))). cbv iota.
  rewrite (cbind_Ok _ _ _ _ _ (at_node_read a getPrefi h0 K r ep hs li (locked n) _ ltac:(apply lookup_insert_eq) eq_refl)). cbn [self locked set_word pfx].
  destruct (new_N_run (nc_new C4 (Z.of_nat l) (mkPrefix (u32 (Z.of_nat l - Z.of_nat (an_base an))) (prefixBytes (pfx n)))) h0 K r ep hs li)
    as (nn & Hnew & Hnn & Hnn0 & Hnno). change new_N4 with (nc_new C4). rewrite (cbind_Ok _ _ _ _ _ Hnew).
  assert (Hnna : nn <> a) by (intros ->; by rewrite lookup_insert_eq in Hnn). rewrite lookup_insert_ne in Hnn by done.
  rewrite (cbind_Ok _ _ _ _ _ (key_byte_run Hk _ r ep hs _ _ _ Hy)).
  destruct (fresh_rep (D := C4) (Z.of_nat l) _ pi (an_base an) _ split_stored ltac:(lia)) as (Hr0 & Hf0 & Ht0 & Hu0).
  set (n0 := nc_new C4 _ _) in *. pose proof (tr_addr _ _ _ _ (ok_trie _ _ _ _ A) _ _ Ha) as [Ha0 _].
  destruct (pair_run (K := K) (r := r) (ep := ep) (hs := hs) (li := li ++ [nn]) (<[nn := n0]> h0) nn n0 pi (an_base an) y (setLeaf ka) x a)
    as (d1 & d & H1 & H2 & Hrd & Hfd & Htd); try done.
  - apply lookup_insert_eq.
  - by apply (key_bound Hk _ _ Hy).
  - destruct (getAnyChildTid_run (ok_trie _ _ _ _ A) (ok_nodes _ _ _ _ A) ep [] [] a an Ha (edge_not_root A Hpa Hpk)) as (kt & bt & _ & Hkt & Hp & _).
    apply (key_bound Hkt l). by rewrite (prefix_lookup_eq _ _ _ Hp).
  - apply leaf_nonzero.
  - lia.
  - rewrite !insert_insert_eq in H1, H2. rewrite (cbind_Ok _ _ _ _ _ H1), (cbind_Ok _ _ _ _ _ H2), ?insert_insert_eq.
    destruct (edge_node (ok_trie _ _ _ _ A) _ _ _ _ _ Hpa Hpk Ha) as [Hb _].
    apply (split_swap nn d y); try done. rewrite <- Hb. split; [done|]. split; [done|]. split.
    + intros E. by destruct (new_not_root A nn Hnn).
    + intros _. rewrite Htd. change (min_children NT4) with 2%nat. cbn [an_ch]. by rewrite two_children.
Qed.

End split.

(** ** A leaf on the way *)

Lemma common_prefix_run {K} ka bs kb bs' h r ep hs li L : key_ok K ka bs -> key_ok K kb bs' ->
  ~ bs `prefix_of` bs' -> ~ bs' `prefix_of` bs -> forall fuel i,
  take (L + i) bs = take (L + i) bs' -> (length bs' < fuel + (L + i))%nat -> (L + i <= length bs)%nat ->
  exists j x y, common_prefix fuel kb ka (Z.of_nat L) (Z.of_nat i) (mkArt h K r ep hs li) = Ok (Z.of_nat j, mkArt h K r ep hs li) /\
    take (L + j) bs = take (L + j) bs' /\ bs !! (L + j)%nat = Some y /\ bs' !! (L + j)%nat = Some x /\ y <> x.
Proof.
  intros Hk Hk' Hn Hn' fuel. induction fuel as [|fuel IH]; intros i Ht Hf Hi.
  - exfalso. apply Hn'. cbn in Hf. rewrite <- (firstn_all2 (n := L + i) bs') by lia. rewrite <- Ht. apply prefix_take.
  - pose proof (key_short Hk). pose proof (key_short Hk'). cbn [common_prefix]. rewrite u32_small by lia.
    replace (Z.of_nat L + Z.of_nat i) with (Z.of_nat (L + i)) by lia.
    destruct (bs !! (L + i)%nat) as [y|] eqn:Ey.
    2: { exfalso. apply lookup_ge_None in Ey. apply Hn. rewrite <- (firstn_all2 (n := L + i) bs) by lia. rewrite Ht. apply prefix_take. }
    destruct (bs' !! (L + i)%nat) as [x|] eqn:Ex.
    2: { exfalso. apply lookup_ge_None in Ex. apply Hn'. rewrite <- (firstn_all2 (n := L + i) bs') by lia. rewrite <- Ht. apply prefix_take. }
    rewrite (cbind_Ok _ _ _ _ _ (key_byte_run Hk' h r ep hs li _ _ Ex)), (cbind_Ok _ _ _ _ _ (key_byte_run Hk h r ep hs li _ _ Ey)).
    pose proof (lookup_lt_Some _ _ _ Ey). destruct (Z.eqb_spec x y) as [->|Hxy].
    + rewrite u32_small by lia. replace (Z.of_nat i + 1) with (Z.of_nat (S i)) by lia. apply IH; [|lia|lia].
      replace (L + S i)%nat with (S (L + i)) by lia. by rewrite (take_S_r _ _ _ Ey), (take_S_r _ _ _ Ex), Ht.
    + exists i, x, y. split_and!; try done.
Qed.

Section leaf.
Context `{!Allocator} {K : gmap Z Key} {r : Z} {V : trie} {m : gmap (list Z) Z} {B : Z} {h : gmap Z NodeN} {ep : Epoche}.
Context {hs : list (gmap Z NodeN)} {li : list Z}.
Context (A : art_ok B V m (mkArt h K r ep hs li)) (HB : version_ok (B + 1)).
Context {a v : Z} {an : anode} {n : NodeN}.
Context (Ha : V !! a = Some an) (Hh : h !! a = Some n) (Hn : node_ok n an (a = r) v) (Hv : v <= B).
Context {ka : Z} {bs : list Z} (Hk : key_ok K ka bs) (HNm : m !! bs = None).
Context {b p0 : Z} {bs0 : list Z} (Hb : an_ch an !! b = Some p0) (Hlf : isLeaf p0 = true).
Context (Hk0 : key_ok K (getLeaf p0) bs0) (Hm0 : m !! bs0 = Some (getLeaf p0)).
Context (Hpb : (an_path an ++ [b]) `prefix_of` bs) (Hpb0 : (an_path an ++ [b]) `prefix_of` bs0).

Local Abbreviation s0 := (mkArt h K r ep hs li).
Local Abbreviation h0 := (<[a := locked n]> h).
Local Abbreviation L := (S (length (an_path an))).

(** The new node takes the place of the leaf. *)
Lemma leaf_swap nn d pi x y li1 :
  h !! nn = None -> 0 < nn -> Z.odd nn = false -> (an_path an ++ [b]) `prefix_of` pi ->
  (pi ++ [y]) `prefix_of` bs -> (pi ++ [x]) `prefix_of` bs0 -> y <> x ->
  node_ok d (mkA pi L {[y := setLeaf ka; x := p0]}) (nn = r) 1 ->
  exists s' V', (at_node nn (N_clflush false true);;
     kb1 <- key_byte ka (u32 (Z.of_nat L - 1));
     at_node a (N_change kb1 nn);; at_node a writeUnlock;; cret Finished) (mkArt (<[nn := d]> h0) K r ep hs li1) = Ok (Finished, s') /\
    art_post (B + 1) V' m (<[bs := ka]> m) s0 s'.
Proof.
  intros Hnn Hnn0 Hnno Hpi Hy Hx Hyx Hd. pose proof (key_short Hk) as Hks. pose proof Hpb as Hpb'. apply prefix_snoc_lookup in Hpb' as [_ Hbb].
  pose proof (lookup_lt_Some _ _ _ Hbb) as Hlen.
  assert (Hst : stands_for (K := K) (V := V) (m := m) p0 bs0) by (unfold stands_for; by rewrite Hlf).
  destruct (push_pa A Ha Hb Hnn) as [_ Hna].
  assert (HVp : V !! p0 = None).
  { apply eq_None_not_Some. intros [pn Hp]. apply (node_not_leaf (ok_trie _ _ _ _ A)) in Hp. congruence. }
  rewrite (cbind_Ok _ _ _ _ _ (at_node_run nn _ _ K r ep hs li1 d tt d [d] ltac:(apply lookup_insert_eq) eq_refl)).
  rewrite insert_insert_eq. cbn [fmap list_fmap]. rewrite insert_insert_eq.
  rewrite u32_small by lia. replace (Z.of_nat L - 1) with (Z.of_nat (length (an_path an))) by lia.
  rewrite (cbind_Ok _ _ _ _ _ (key_byte_run Hk _ r ep _ _ _ _ Hbb)).
  destruct (change_locked Hn b p0 nn Hb ltac:(lia)) as (n1 & Hc & Hu & Hf).
  erewrite cbind_Ok; [|eapply at_node_run; [by rewrite lookup_insert_ne, lookup_insert_eq by done|exact Hc]].
  destruct (unlock_ok Hn n1 _ Hu Hf (version_step B v HB (ok_version Hn) Hv) (change_size Hn b p0 nn Hb)) as (n2 & Hun & Hok).
  erewrite cbind_Ok; [|eapply at_node_quiet; [apply lookup_insert_eq|exact Hun]]. rewrite insert_insert_eq. cbn [fmap list_fmap].
  assert (HR : reads h0 V) by apply (split_reads A Ha Hn).
  pose proof (push_reads (V := V) (pa := a) (pk := b) (pan := an) (nn := nn) (p0 := p0) (ka := ka) h0 d n1 HR (ok_read Hd) (node_read_upd _ _ _ _ _ (locked_read Hn) Hu)) as HPR.
  pose proof (push_trie A Ha Hb Hst Hk HNm Hpi Hy Hx Hyx Hnn Hnn0 Hnno) as T'.
  rewrite <- app_assoc. do 2 eexists. split; [reflexivity|].
  apply (push_post A Ha Hb Hst Hk HNm Hpi Hy Hx Hyx Hnn Hnn0 Hnno) with (d := d) (dv := 1) (pn := n2) (pv := v + 1); try done.
  - apply lookup_insert_eq.
  - lia.
  - by rewrite lookup_insert_ne, lookup_insert_eq.
  - pose proof (ok_version Hn) as Hv0. unfold version_ok in Hv0. lia.
  - intros cn Hcn. congruence.
  - intros c H1 H2 _. by rewrite !lookup_insert_ne by done.
  - apply list.Forall_cons. split; [|apply list.Forall_cons; split; [|by apply list.Forall_nil]].
    + apply (crash_before _ _ _ _ V); [apply (ok_trie _ _ _ _ A)|]. apply reads_other; [done|by apply (push_fresh A)].
    + eapply crash_after; [exact T'|]. done.
Qed.

Context (Hfree : ~ bs `prefix_of` bs0) (Hfree0 : ~ bs0 `prefix_of` bs).

(** The new node filled, its prefix being what both keys share. *)
Lemma leaf_fill j x y nn :
  take (L + j) bs = take (L + j) bs0 -> bs !! (L + j)%nat = Some y -> bs0 !! (L + j)%nat = Some x -> y <> x ->
  h !! nn = None -> 0 < nn -> Z.odd nn = false ->
  exists s' V', (at_node nn (setPrefix (Some <$> drop L bs) (Z.of_nat j) false);;
     kb <- key_byte ka (Z.of_nat (L + j));
     at_node nn (N4_insert kb (setLeaf ka) false);;
     keyb <- key_byte (getLeaf p0) (Z.of_nat (L + j));
     at_node nn (N4_insert keyb p0 false);;
     at_node nn (N_clflush false true);;
     kb1 <- key_byte ka (u32 (Z.of_nat L - 1));
     at_node a (N_change kb1 nn);; at_node a writeUnlock;; cret Finished)
      (mkArt (<[nn := nc_new C4 (Z.of_nat (L + j)) Prefix_default]> h0) K r ep hs (li ++ [nn])) = Ok (Finished, s') /\
    art_post (B + 1) V' m (<[bs := ka]> m) s0 s'.
Proof.
  intros Ht Hy Hx Hyx Hnn Hnn0 Hnno. set (n0 := nc_new C4 (Z.of_nat (L + j)) Prefix_default). set (pi := take (L + j) bs).
  pose proof (lookup_lt_Some _ _ _ Hy) as Hyl. assert (Hpl : length pi = (L + j)%nat) by (unfold pi; rewrite length_take; lia).
  destruct (setPrefix_run n0 (Some <$> drop L bs) pi L false ltac:(lia)) as (p & Hsp & Hp).
  { intros i z Hi Hz. pose proof (lookup_lt_Some _ _ _ Hz). unfold pi in Hz. rewrite lookup_take_lt in Hz by lia.
    by rewrite list_lookup_fmap, lookup_drop, Hz. }
  replace (length pi - L)%nat with j in Hsp by lia.
  erewrite cbind_Ok; [|eapply at_node_quiet; [apply lookup_insert_eq|exact Hsp]]. rewrite insert_insert_eq.
  rewrite (cbind_Ok _ _ _ _ _ (key_byte_run Hk _ r ep hs _ _ _ Hy)).
  destruct (cls_new (C := C4) (Z.of_nat (L + j)) Prefix_default) as (H1 & H2 & H3 & H4 & H5 & H6 & H7 & H8).
  destruct (pair_run (K := K) (r := r) (ep := ep) (hs := hs) (li := li ++ [nn]) (<[nn := set_pfx n0 p]> h0) nn (set_pfx n0 p) pi L y (setLeaf ka) x p0)
    as (d1 & d & Hr1 & Hr2 & Hrd & Hfd & Htd); try done.
  - apply lookup_insert_eq.
  - split; [split_and!; cbn [an_path an_ch]; try done; by rewrite Hpl|]. split; [done|unfold version_ok; lia].
  - by apply (key_bound Hk _ _ Hy).
  - by apply (key_bound Hk0 _ _ Hx).
  - apply leaf_nonzero.
  - intros ->. done.
  - rewrite !insert_insert_eq in Hr1, Hr2. rewrite (cbind_Ok _ _ _ _ _ Hr1).
    rewrite (cbind_Ok _ _ _ _ _ (key_byte_run Hk0 _ r ep hs _ _ _ Hx)), (cbind_Ok _ _ _ _ _ Hr2), ?insert_insert_eq.
    apply (leaf_swap nn d pi x y); try done.
    + apply (prefix_le _ _ bs); [done|apply prefix_take|]. rewrite Hpl, length_app. cbn [length]. lia.
    + apply prefix_snoc_lookup. rewrite Hpl. split; [apply prefix_take|done].
    + apply prefix_snoc_lookup. rewrite Hpl. unfold pi. rewrite Ht. split; [apply prefix_take|done].
    + split; [done|]. split; [done|]. split.
      * intros E. by destruct (new_not_root A nn Hnn).
      * intros _. rewrite Htd. change (min_children NT4) with 2%nat. cbn [an_ch]. by rewrite two_children.
Qed.

Lemma insert_leaf_run :
  exists s' V', insert_leaf ka a (typeVersionLockObsolete n) (Z.of_nat (length (an_path an))) p0 s0 = Ok (Finished, s') /\
    art_post (B + 1) V' m (<[bs := ka]> m) s0 s'.
Proof.
  pose proof (key_short Hk) as Hks. pose proof (key_short Hk0) as Hks0.
  pose proof (prefix_length _ _ Hpb) as Hlen. pose proof (prefix_length _ _ Hpb0) as Hlen0. rewrite length_app in Hlen, Hlen0. cbn in Hlen, Hlen0.
  unfold insert_leaf.
  rewrite (cbind_Ok _ _ _ _ _ (at_node_quiet _ _ _ _ _ _ _ _ _ _ _ Hh (lock_run n v (ok_word Hn) (ok_version Hn) []))). cbv iota zeta.
  rewrite u32_small by lia. replace (Z.of_nat (length (an_path an)) + 1) with (Z.of_nat L) by lia.
  rewrite (cbind_Ok _ _ _ _ _ (getKeyLen_run Hk0 h0 r ep hs li)).
  assert (HL0 : (L < length bs0)%nat).
  { destruct (Nat.lt_ge_cases L (length bs0)) as [|Hge]; [done|]. exfalso. apply Hfree0.
    rewrite <- (prefix_length_eq _ _ Hpb0); [done|]. rewrite length_app. cbn. lia. }
  rewrite (proj2 (Z.ltb_lt _ _)) by lia. rewrite (cbind_Ok (cassert _) _ _ tt (mkArt h0 K r ep hs li)) by done. rewrite Nat2Z.id.
  destruct (common_prefix_run ka bs (getLeaf p0) bs0 h0 r ep hs li L Hk Hk0 Hfree Hfree0 (S (length bs0)) 0) as (j & x & y & Hcp & Ht & Hy & Hx & Hyx); [|lia|lia|].
  { rewrite Nat.add_0_r. replace L with (length (an_path an ++ [b])) by (rewrite length_app; cbn; lia).
    destruct Hpb as [k1 E1], Hpb0 as [k2 E2]. by rewrite E1, E2, !take_app_length. }
  rewrite (cbind_Ok _ _ _ _ _ Hcp). pose proof (lookup_lt_Some _ _ _ Hy) as Hyl.
  destruct Hk as ((kx & HK1 & HK2 & HK3) & _).
  rewrite (cbind_Ok (key_bytes_from _ _) _ _ (Some <$> drop L bs) (mkArt h0 K r ep hs li)).
  2: { unfold key_bytes_from. cbn [keys]. by rewrite HK1, HK2, Nat2Z.id. }
  rewrite !(u32_small (Z.of_nat L + Z.of_nat j)) by lia. replace (Z.of_nat L + Z.of_nat j) with (Z.of_nat (L + j)) by lia.
  change new_N4 with (nc_new C4). destruct (new_N_run (nc_new C4 (Z.of_nat (L + j)) Prefix_default) h0 K r ep hs li) as (nn & Hnew & Hnn & Hnn0 & Hnno).
  rewrite (cbind_Ok _ _ _ _ _ Hnew).
  assert (Hnna : nn <> a) by (intros ->; by rewrite lookup_insert_eq in Hnn). rewrite lookup_insert_ne in Hnn by done.
  by apply (leaf_fill j x y).
Qed.

End leaf.

(** ** The descent *)

(** A key that can be added: it is not empty, no key of the map extends it, and it extends none. *)
Definition insertable (m : gmap (list Z) Z) (bs : list Z) : Prop :=
  bs <> [] /\ forall bs' ka', m !! bs' = Some ka' -> ~ bs `prefix_of` bs' /\ ~ bs' `prefix_of` bs.

Lemma insertable_fresh m bs : insertable m bs -> m !! bs = None.
Proof. intros [_ H]. destruct (m !! bs) as [x|] eqn:E; [|done]. by destruct (H bs x E) as [[] _]. Qed.

Section insert.
Context `{!Allocator} {K : gmap Z Key} {r : Z} {V : trie} {m : gmap (list Z) Z} {B : Z} {h : gmap Z NodeN} {ep : Epoche}.
Context {hs : list (gmap Z NodeN)} {li : list Z}.
Context (A : art_ok B V m (mkArt h K r ep hs li)) (HB : version_ok (B + 1)).
Context {t : nat} (Htd : is_Some (deletionLists ep !! t)).
Context {ka : Z} {bs : list Z} (Hk : key_ok K ka bs) (Hins : insertable m bs).

Local Abbreviation s0 := (mkArt h K r ep hs li).
Local Abbreviation post res := (exists s' V', res = Ok (Finished, s') /\ art_post (B + 1) V' m (<[bs := ka]> m) s0 s').

(** The key goes on below a node whose path it follows. *)
Lemma insert_goes_on a an : V !! a = Some an -> an_path an `prefix_of` bs -> exists b, bs !! length (an_path an) = Some b.
Proof.
  intros Ha Hp. destruct (bs !! length (an_path an)) as [b|] eqn:E; [by exists b|]. exfalso. apply lookup_ge_None in E.
  pose proof (prefix_length _ _ Hp). assert (Eq : an_path an = bs) by (by apply prefix_length_eq).
  destruct (decide (a = r)) as [->|Hr].
  - destruct (tr_root _ _ _ _ (ok_trie _ _ _ _ A)) as (rn & Hrn & Hpn & _). cbn in Hrn. rewrite Ha in Hrn. injection Hrn as <-.
    destruct Hins as [[] _]. congruence.
  - destruct (getAnyChildTid_run (ok_trie _ _ _ _ A) (ok_nodes _ _ _ _ A) ep [] [] a an Ha Hr) as (kt & bt & _ & _ & Hpt & Hm).
    destruct Hins as [_ Hi]. destruct (Hi bt kt Hm) as [[] _]. by rewrite <- Eq.
Qed.

(** The last node: the new leaf becomes a child, or joins another leaf. *)
Lemma insert_here a an n v pa pk b :
  V !! a = Some an -> h !! a = Some n -> node_ok n an (a = r) v -> v <= B -> a = r \/ edge V pa pk a ->
  (an_path an ++ [b]) `prefix_of` bs -> an_ch an !! b = None ->
  post ((needRestart <- at_node a (lockVersionOrRestart (typeVersionLockObsolete n));
         if needRestart : bool then cret Restart
         else needRestart <- insertAndUnlock a pa pk b (setLeaf ka) t; cret (if needRestart : bool then Restart else Finished)) s0).
Proof.
  intros Ha Hh Hn Hv Hpar Hpre Hb.
  rewrite (cbind_Ok _ _ _ _ _ (at_node_quiet _ _ _ _ _ _ _ _ _ _ _ Hh (lock_run n v (ok_word Hn) (ok_version Hn) []))). cbv iota.
  assert (Hby : byte b) by (apply prefix_snoc_lookup in Hpre as [_ Hpre]; by apply (key_bound Hk _ _ Hpre)).
  destruct (insertAndUnlock_run A HB Ha Hh Hn Hv Hpar Htd Hk (insertable_fresh _ _ Hins) Hpre Hby Hb) as (s' & Hr & V' & Hp).
  exists s', V'. by rewrite (cbind_Ok _ _ _ _ _ Hr).
Qed.

Lemma insert_loop_run fuel : forall a an pa pk,
  V !! a = Some an -> a = r \/ edge V pa pk a -> take (an_base an) (an_path an) `prefix_of` bs ->
  (length bs < fuel + an_base an)%nat -> (an_base an <= length bs)%nat ->
  post (insert_loop fuel ka t pa pk a (Z.of_nat (an_base an)) s0).
Proof.
  induction fuel as [|fuel IH]; intros a an pa pk Ha Hpar Hpre Hf Hbl; [lia|].
  pose proof (ok_trie _ _ _ _ A) as T. cbn in T. pose proof (insertable_fresh _ _ Hins) as HN. pose proof (key_short Hk) as Hks.
  destruct (ok_nodes _ _ _ _ A a an Ha) as (n & v & Hh & Hn & Hv). cbn in Hh, Hn. cbn [insert_loop].
  rewrite (cbind_Ok _ _ _ _ _ (at_node_read a getVersion h K r ep hs li n _ Hh eq_refl)). cbn [self].
  destruct (checkPrefixPessimistic_run T (ok_nodes _ _ _ _ A) Hk (fun bs' ka' E Hp => False_ind _ (proj1 (proj2 Hins bs' ka' E) Hp)) ep hs li a an Ha Hpre)
    as (res & Hr & Hc). cbn [nodes] in Hr. rewrite (cbind_Ok _ _ _ _ _ Hr). destruct Hc as [[-> Hp]|(Har & l & x & rem & -> & Hl & Hlp)].
  2: { destruct Hpar as [->|(pan & Hpa & Hpk)]; [done|]. by apply (insert_split_run A HB Ha Hh Hn Hv Hpa Hpk Hk HN Hl Hlp). }
  destruct (insert_goes_on a an Ha Hp) as (b & Hb). pose proof (lookup_lt_Some _ _ _ Hb) as Hlt.
  assert (Hpb : (an_path an ++ [b]) `prefix_of` bs) by (by apply prefix_snoc_lookup).
  rewrite (cbind_Ok _ _ _ _ _ (getKeyLen_run Hk h r ep hs li)). rewrite (proj2 (Z.ltb_lt _ _)) by lia.
  rewrite (cbind_Ok (cassert _) _ _ tt s0) by done. rewrite (cbind_Ok _ _ _ _ _ (key_byte_run Hk h r ep hs li _ _ Hb)).
  rewrite (cbind_Ok _ _ _ _ _ (getChild_run h ep hs li a n an (an_base an) b Hh (ok_read Hn) (key_bound Hk _ _ Hb))).
  destruct (an_ch an !! b) as [p|] eqn:Ech; cbn [default from_option id].
  2: { change (0 =? 0) with true. cbv iota. by apply (insert_here a an n v). }
  destruct (isLeaf p) eqn:Hlf.
  - rewrite (proj2 (Z.eqb_neq p 0)) by (intros ->; done). destruct (tr_leaf _ _ _ _ T _ _ _ _ Ha Ech Hlf) as (bs0 & Hk0 & Hp0 & Hm0).
    destruct (proj2 Hins _ _ Hm0) as [Hf1 Hf2]. by apply (insert_leaf_run A HB Ha Hh Hn Hv Hk HN Ech Hlf Hk0 Hm0 Hpb Hp0).
  - destruct (tr_node _ _ _ _ T _ _ _ _ Ha Ech Hlf) as (cn & Hc & Hbase & Hpc). pose proof (tr_addr _ _ _ _ T _ _ Hc) as [Hp0 _].
    pose proof (base_le T a an Ha) as Hble.
    rewrite (proj2 (Z.eqb_neq p 0)) by lia. rewrite u32_small by lia.
    replace (Z.of_nat (length (an_path an)) + 1) with (Z.of_nat (an_base cn)) by lia. apply IH; try done; try lia.
    + right. by exists an.
    + rewrite Hbase. destruct Hpc as [k ->]. rewrite take_app_le, take_ge by (rewrite length_app; cbn; lia). done.
Qed.

End insert.

(** ** The operation *)

Lemma attempts_finished tries (mt : stM art attempt) s s' :
  (0 < tries)%nat -> mt s = Ok (Finished, s') -> attempts tries mt s = Ok (tt, s').
Proof. intros Ht Hm. destruct tries as [|tries]; [lia|]. cbn [attempts]. by rewrite (cbind_Ok _ _ _ _ _ Hm). Qed.

(** The thread enters an epoch. *)
Lemma enter_run `{!Allocator} {B V m h K r ep hs li t} :
  art_ok B V m (mkArt h K r ep hs li) -> is_Some (deletionLists ep !! t) ->
  exists ep', on_epoche (enterEpoche t) (mkArt h K r ep hs li) = Ok (tt, mkArt h K r ep' hs li) /\
    art_ok B V m (mkArt h K r ep' hs li) /\ dom (deletionLists ep') = dom (deletionLists ep) /\ is_Some (deletionLists ep' !! t).
Proof.
  intros A Ht. destruct (enterEpoche_run t ep (ok_ep _ _ _ _ A) Ht) as (ep' & Hr & Hst). exists ep'. split_and!.
  - apply on_epoche_quiet; [done|apply Hst].
  - destruct Hst as (H1 & H2 & H3 & H4). destruct A as [T HN He Hp Hheap Hdis]. cbn in *.
    split; cbn; try done; [by rewrite <- H4|intros a; by rewrite <- H4|intros a; rewrite <- H4; apply Hdis].
  - apply Hst.
  - destruct Hst as (_ & E & _). apply elem_of_dom. rewrite E. by apply elem_of_dom.
Qed.

Lemma Tree_insert_run `{!Allocator} B V m s t ka bs tries :
  art_ok B V m s -> version_ok (B + 1) -> is_Some (deletionLists (epoche s) !! t) -> key_ok (keys s) ka bs -> insertable m bs ->
  (0 < tries)%nat ->
  exists s' V', Tree_insert tries ka t s = Ok (tt, s') /\ art_post (B + 1) V' m (<[bs := ka]> m) s s'.
Proof.
  intros A HB Ht Hk Hins Htr. destruct s as [h K r ep hs li]. cbn [epoche keys] in *. unfold Tree_insert.
  rewrite (cbind_Ok art_clflush _ _ tt (mkArt h K r ep (hs ++ [h]) li)) by done.
  assert (A1 : art_ok B V m (mkArt h K r ep (hs ++ [h]) li)) by (destruct A; by split).
  destruct (enter_run A1 Ht) as (ep1 & He & A2 & Hdm & Ht2). rewrite (cbind_Ok _ _ _ _ _ He).
  rewrite (cbind_Ok _ _ _ _ _ (getKeyLen_run Hk h r ep1 _ li)), (cbind_Ok (cgets root) _ _ r _) by done. rewrite Nat2Z.id.
  destruct (tr_root _ _ _ _ (ok_trie _ _ _ _ A)) as (rn & Hr & Hp & Hb). cbn in Hr.
  destruct (insert_loop_run A2 HB Ht2 Hk Hins (S (length bs)) r rn 0 0 Hr ltac:(by left)) as (s' & V' & Hrun & Hpost); try lia.
  { rewrite Hp, take_nil. apply prefix_nil. }
  rewrite Hb in Hrun. rewrite (cbind_Ok _ _ _ _ _ (attempts_finished tries _ _ _ Htr Hrun)).
  apply (art_post_hist _ _ _ _ h K r ep hs [h] li ep1 h) in Hpost; [|done|].
  - destruct (art_post_exit _ _ _ _ _ _ t Hpost Ht) as (s'' & Hx & Hp2). by exists s'', V'.
  - apply list.Forall_cons. split; [|by apply list.Forall_nil]. apply (crash_before _ _ _ _ V); [apply (ok_trie _ _ _ _ A)|].
    eapply nodes_ok_reads, (ok_nodes _ _ _ _ A).
Qed.
