(* ===== verification/ArtRemove.v ===== *)
(** * P-ART: removal

    [Tree::remove]: a child is removed in place, from a node that is then too large in a smaller
    copy of it, and from a node with two children by giving its place to the other child. *)

From S2P Require Import Prelude ArtNode ArtSlots ArtLayout ArtClass Epoche ArtTree.
From S2P Require Import ArtTrie ArtTrieUpd ArtRep ArtPrefix ArtState ArtGrow ArtInsert.
#[local] Open Scope Z_scope.
#[local] Open Scope cmd_scope.

(** ** Prefixes *)

Lemma memcpy_run {S A} (dst : list A) off src c (s : S) :
  (off + c <= length dst)%nat -> (c <= length src)%nat ->
  memcpy dst (Z.of_nat off) src (Z.of_nat c) s = Ok (take off dst ++ take c src ++ drop (off + c) dst, s).
Proof.
  intros H1 H2. unfold memcpy. rewrite (proj2 (Z.leb_le 0 (Z.of_nat off))), (proj2 (Z.leb_le 0 (Z.of_nat c))) by lia.
  rewrite (proj2 (Z.leb_le _ (Z.of_nat (length dst)))), (proj2 (Z.leb_le _ (Z.of_nat (length src)))) by lia. cbn [andb].
  by rewrite Nat2Z.id, Nat2Z.id, <- Nat2Z.inj_add, Nat2Z.id.
Qed.

(** Where the bytes of the copies end up. *)
Lemma memcpy_lookup {A} (dst : list A) off src c i :
  (off + c <= length dst)%nat -> (c <= length src)%nat ->
  (take off dst ++ take c src ++ drop (off + c) dst) !! i =
  if decide (i < off)%nat then dst !! i else if decide (i < off + c)%nat then src !! (i - off)%nat else dst !! i.
Proof.
  intros H1 H2. assert (Hl1 : length (take off dst) = off) by (rewrite length_take; lia).
  assert (Hl2 : length (take c src) = c) by (rewrite length_take; lia).
  destruct (decide (i < off)%nat); [by rewrite lookup_app_l, lookup_take_lt by lia|]. rewrite lookup_app_r, Hl1 by lia.
  destruct (decide (i < off + c)%nat); [by rewrite lookup_app_l, lookup_take_lt by lia|].
  rewrite lookup_app_r, Hl2, lookup_drop by lia. f_equal. lia.
Qed.

Lemma memcpy_length {A} (dst : list A) off src c :
  (off + c <= length dst)%nat -> (c <= length src)%nat -> length (take off dst ++ take c src ++ drop (off + c) dst) = length dst.
Proof. intros H1 H2. rewrite !length_app, !length_take, length_drop. lia. Qed.

(** [addPrefixBefore]: the prefix of a node that takes the place of its parent. *)
Lemma addPrefixBefore_run n p pi k pi2 b b2 :
  stored p pi b -> stored (pfx n) pi2 b2 -> b2 = S (length pi) -> (pi ++ [k]) `prefix_of` pi2 -> Z.of_nat (length pi2) < 2 ^ 31 ->
  exists q, addPrefixBefore p k (mkNS n []) = Ok (tt, mkNS (set_pfx n q) [set_pfx n q]) /\ stored q pi2 b.
Proof.
  intros (Hb & Hc & Hl & Hby) (Hb2 & Hc2 & Hl2 & Hby2) -> Hpre Hs. pose proof (prefix_length _ _ Hpre) as Hlen.
  rewrite length_app in Hlen. cbn in Hlen. set (cp := (length pi - b)%nat) in *. set (c2 := (length pi2 - S (length pi))%nat) in *.
  set (c := Nat.min 4 (cp + 1)). unfold addPrefixBefore, getPrefi. rewrite load_bind, Hc, Hc2.
  rewrite !(u32_small (Z.of_nat cp + 1)) by lia. unfold maxStoredPrefixLength. replace (Z.min 4 (Z.of_nat cp + 1)) with (Z.of_nat c) by lia. cbv zeta.
  replace (Z.min (Z.of_nat c2) (4 - Z.of_nat c)) with (Z.of_nat (Nat.min c2 (4 - c))) by lia.
  replace (Z.min (Z.of_nat c) (Z.of_nat cp)) with (Z.of_nat (Nat.min c cp)) by lia.
  rewrite (cbind_Ok _ _ _ _ _ (memcpy_run (prefixBytes (pfx n)) c (prefixBytes (pfx n)) (Nat.min c2 (4 - c)) (mkNS n []) ltac:(lia) ltac:(lia))).
  set (l1 := take c _ ++ _). assert (HL1 : length l1 = 4%nat) by (unfold l1; rewrite memcpy_length; lia).
  change 0 with (Z.of_nat 0). rewrite (cbind_Ok _ _ _ _ _ (memcpy_run l1 0 (prefixBytes p) (Nat.min c cp) (mkNS n []) ltac:(lia) ltac:(lia))).
  set (l2 := take 0 l1 ++ _). assert (HL2 : length l2 = 4%nat) by (unfold l2; rewrite memcpy_length; lia).
  assert (Hb12 : forall i x, (i < 4)%nat -> i <> cp -> pi2 !! (b + i)%nat = Some x -> l2 !! i = Some (Some x)).
  { intros i x Hi Hne Hx. pose proof (lookup_lt_Some _ _ _ Hx). unfold l2. rewrite memcpy_lookup, decide_False by lia. rewrite Nat.sub_0_r.
    destruct (decide (i < 0 + Nat.min c cp)%nat).
    - apply Hby; [done|]. rewrite <- Hx. apply prefix_snoc_lookup in Hpre as [Hpre _]. symmetry. apply (prefix_lookup_eq _ _ _ Hpre). lia.
    - unfold l1. rewrite memcpy_lookup by lia. rewrite decide_False by lia. rewrite decide_True by lia.
      apply Hby2; [lia|]. rewrite <- Hx. f_equal. lia. }
  set (l3 := if (cp <? 4)%nat then <[cp := Some k]> l2 else l2).
  rewrite (cbind_Ok _ _ _ l3 (mkNS n [])).
  2: { unfold l3. destruct (Nat.ltb_spec cp 4), (Z.ltb_spec (Z.of_nat cp) 4); try lia; [|done].
       rewrite arr_set_run by lia. do 3 f_equal. lia. }
  rewrite !u32_small by lia. eexists. split; [reflexivity|]. split_and!; cbn [prefixCount prefixBytes].
  - lia.
  - lia.
  - unfold l3. by destruct (Nat.ltb_spec cp 4); rewrite ?length_insert.
  - intros i x Hi Hx. unfold l3. destruct (Nat.ltb_spec cp 4) as [H4|H4]; [|apply Hb12; [done|lia|done]].
    destruct (decide (i = cp)) as [->|Hne]; [|rewrite list_lookup_insert_ne by done; by apply Hb12].
    rewrite list_lookup_insert_eq by lia. do 2 f_equal. apply prefix_snoc_lookup in Hpre as [_ Hk]. unfold cp in Hx.
    replace (b + (length pi - b))%nat with (length pi) in Hx by lia. congruence.
Qed.

(** ** A node that gives its place to its other child *)

Section pull.
Context {K : gmap Z Key} {r : Z} {V : trie} {m : gmap (list Z) Z} {B : Z} {h : gmap Z NodeN} {ep : Epoche}.
Context {hs : list (gmap Z NodeN)} {li : list Z}.
Context (A : art_ok B V m (mkArt h K r ep hs li)) (HB : version_ok (B + 1)).
Context {a : Z} {an : anode} (Ha : V !! a = Some an).
Context {pa pk : Z} {pan : anode} (Hpa : V !! pa = Some pan) (Hpk : an_ch pan !! pk = Some a).
Context {b b2 p2 ka : Z} {bs : list Z} (Hb : an_ch an !! b = Some (setLeaf ka)) (Hb2 : an_ch an !! b2 = Some p2).
Context (Hbb : b <> b2) (Hsz : size (an_ch an) = 2%nat) (Hk : key_ok K ka bs).

Local Abbreviation V' := (pulled pa pk pan (rebased V p2 (an_base an)) a p2).
Local Abbreviation ppan := (set_ch pan (<[pk := p2]> (an_ch pan))).

Lemma pull_trie : trie_ok K r V' (delete bs m).
Proof.
  apply (trie_pulled (ok_trie _ _ _ _ A) pa pk pan Hpa _ a an b b2 p2 ka bs); try done. intros c. apply rebased_lookup.
Qed.

Lemma pull_ne : a <> pa /\ p2 <> a /\ p2 <> pa.
Proof.
  pose proof (ok_trie _ _ _ _ A) as T. cbn in T. split_and!.
  - intros ->. apply (no_self_edge T pa pk). by exists pan.
  - intros ->. apply (no_self_edge T a b2). by exists an.
  - intros ->. destruct (edge_node T _ _ _ _ _ Ha Hb2 Hpa) as [_ H1]. destruct (edge_node T _ _ _ _ _ Hpa Hpk Ha) as [_ H2].
    apply prefix_length in H1, H2. rewrite length_app in H1, H2. cbn in H1, H2. clear -H1 H2. lia.
Qed.

Lemma pull_reads h1 pn : reads h1 V -> node_read pn ppan (an_base pan) -> reads (<[pa := pn]> h1) V'.
Proof.
  intros HR Hp. unfold pulled. apply (reads_insert _ _ _ _ _ (an_base pan)); [|done]. by apply reads_delete, reads_rebased.
Qed.

Lemma pull_reads_child h1 n c cn : reads h1 V' -> V !! p2 = Some cn -> node_read n cn c -> reads (<[p2 := n]> h1) V'.
Proof.
  intros HR Hc Hn. destruct pull_ne as (H1 & H2 & H3). apply (reads_same _ _ _ _ (set_base cn (an_base an)) c); [done| |done].
  unfold pulled. rewrite lookup_insert_ne, lookup_delete_ne by done. by rewrite rebased_lookup, decide_True, Hc.
Qed.

Lemma pull_post h' ep' pn pv hs' li' :
  h' !! pa = Some pn -> node_ok pn ppan (pa = r) pv -> pv <= B + 1 -> is_Some (h' !! a) ->
  (forall cn, V !! p2 = Some cn -> exists n v, h' !! p2 = Some n /\ node_ok n (set_base cn (an_base an)) (p2 = r) v /\ v <= B + 1) ->
  (forall c, c <> pa -> c <> a -> (is_Some (V !! p2) -> c <> p2) -> h' !! c = h !! c) ->
  ep_step ep ep' [a] [] -> Forall (crash_ok K r m (delete bs m)) hs' ->
  art_post (B + 1) V' m (delete bs m) (mkArt h K r ep hs li) (mkArt h' K r ep' (hs ++ hs') li').
Proof.
  intros Hp Hpok Hpv Hha Hc Ho (He1 & He2 & _ & He4) Hcr. pose proof pull_trie as T'. pose proof pull_ne as (Hap & H2a & H2p).
  destruct A as [T HNk He Hpe Hheap Hdis]. cbn in *. split; [split|split_and!]; cbn; try done.
  - intros c cn Hcn. unfold pulled in Hcn. apply lookup_insert_Some in Hcn as [[<- <-]|[Hca Hcn]]; [by exists pn, pv|].
    apply lookup_delete_Some in Hcn as [Hcb Hcn]. rewrite rebased_lookup in Hcn. destruct (decide (c = p2)) as [->|Hcc].
    + destruct (V !! p2) as [cn0|] eqn:E; [|done]. injection Hcn as <-. by apply Hc.
    + destruct (HNk c cn Hcn) as (nc & vc & H1 & H2 & H3). exists nc, vc. rewrite Ho by done. split_and!; [done|done|lia].
  - rewrite <- He4. cbn. apply list.NoDup_cons. split; [|done]. intros Hin. apply Hdis in Hin. congruence.
  - intros c. rewrite <- He4, elem_of_cons. unfold pulled. rewrite lookup_insert_is_Some'.
    destruct (decide (c = pa)) as [->|Hca]; [split; [intros _; left; by left|by eexists]|].
    destruct (decide (c = a)) as [->|Hcb]; [split; [intros _; right; by left|done]|].
    rewrite lookup_delete_is_Some.
    assert (E : is_Some (rebased V p2 (an_base an) !! c) <-> is_Some (V !! c)).
    { rewrite rebased_lookup. case_decide; [|done]. apply fmap_is_Some. }
    rewrite E. destruct (decide (c = p2)) as [->|Hcc].
    + destruct (V !! p2) as [cn0|] eqn:E0.
      * split; [intros _; left; right; split; [done|by eexists]|]. intros _. destruct (Hc cn0 eq_refl) as (n & v & Hn & _). by eexists.
      * rewrite Ho, Hheap, E0 by (try done; by intros [? ?]). naive_solver.
    + rewrite Ho, Hheap by done. naive_solver.
  - intros c Hcp. rewrite <- He4 in Hcp. unfold pulled. apply elem_of_cons in Hcp as [->|Hcp].
    + rewrite lookup_insert_ne by done. apply lookup_delete_eq.
    + pose proof (Hdis c Hcp) as Hcv. assert (c <> pa /\ c <> a) as [? ?] by (split; congruence).
      rewrite lookup_insert_ne, lookup_delete_ne by done. by apply rebased_none.
  - by exists hs'.
Qed.

End pull.

Section merge.
Context `{!Allocator} {K : gmap Z Key} {r : Z} {V : trie} {m : gmap (list Z) Z} {B : Z} {h : gmap Z NodeN} {ep : Epoche}.
Context {hs : list (gmap Z NodeN)} {li : list Z}.
Context (A : art_ok B V m (mkArt h K r ep hs li)) (HB : version_ok (B + 1)).
Context {a v : Z} {an : anode} {n : NodeN}.
Context (Ha : V !! a = Some an) (Hh : h !! a = Some n) (Hn : node_ok n an (a = r) v) (Hv : v <= B).
Context {pa pk : Z} {pan : anode} (Hpa : V !! pa = Some pan) (Hpk : an_ch pan !! pk = Some a).
Context {t : nat} (Htd : is_Some (deletionLists ep !! t)).
Context {b b2 p2 ka : Z} {bs : list Z} (Hb : an_ch an !! b = Some (setLeaf ka)) (Hb2 : an_ch an !! b2 = Some p2).
Context (Hbb : b <> b2) (Hsz : size (an_ch an) = 2%nat) (Hk : key_ok K ka bs).

Local Abbreviation s0 := (mkArt h K r ep hs li).
Local Abbreviation h0 := (<[a := locked n]> h).
Local Abbreviation post res := (exists s' V', res = Ok (Finished, s') /\ art_post (B + 1) V' m (delete bs m) s0 s').

(** The other child is a leaf. *)
Lemma merge_leaf : isLeaf p2 = true ->
  post ((needRestart <- at_node pa writeLockOrRestart;
    (if needRestart : bool then at_node a writeUnlock;; cret Restart
     else at_node pa (N_change pk p2);; at_node pa writeUnlock;; at_node a writeUnlockObsolete;;
          on_epoche (markNodeForDeletion a t);; cret Finished)) (mkArt h0 K r ep hs li)).
Proof.
  intros Hlf. destruct (pull_ne A Ha Hpa Hpk Hb2) as (Hap & H2a & H2p).
  destruct (parent_lock A HB Hpa h0 hs li) as (pn & pv & Hp & Hpn & Hpv & Hpv1 & Hlk); [by rewrite lookup_insert_ne by done|].
  rewrite (cbind_Ok _ _ _ _ _ Hlk). cbv iota.
  destruct (change_locked Hpn pk a p2 Hpk) as (pn1 & Hc & Hu & Hf); [intros E; by rewrite E in Hlf|].
  erewrite cbind_Ok; [|eapply at_node_run; [apply lookup_insert_eq|exact Hc]]. rewrite insert_insert_eq. cbn [fmap list_fmap]. rewrite insert_insert_eq.
  destruct (unlock_ok Hpn pn1 _ Hu Hf Hpv1 (change_size Hpn pk a p2 Hpk)) as (pn2 & Hun & Hok).
  erewrite cbind_Ok; [|eapply at_node_quiet; [apply lookup_insert_eq|exact Hun]]. rewrite insert_insert_eq.
  erewrite cbind_Ok; [|eapply at_node_quiet; [by rewrite lookup_insert_ne, lookup_insert_eq by done|apply (unlockObsolete_run (locked n) v)]].
  2: { cbn. by rewrite (ok_word Hn) at 1. }
  2: { apply (ok_version Hn). }
  destruct (markNodeForDeletion_run a t ep (ok_ep _ _ _ _ A) Htd) as (ep' & Hm & Hst).
  rewrite (cbind_Ok _ _ _ _ _ (on_epoche_quiet _ _ _ _ _ _ _ ep' Hm ltac:(apply Hst))).
  do 2 eexists. split; [reflexivity|]. apply (pull_post A Ha Hpa Hpk Hb Hb2 Hbb Hsz Hk) with (pn := pn2) (pv := pv + 1); try done.
  - by rewrite lookup_insert_ne, lookup_insert_eq.
  - lia.
  - rewrite lookup_insert_eq. by eexists.
  - intros cn Hcn. apply (node_not_leaf (ok_trie _ _ _ _ A)) in Hcn. congruence.
  - intros c H1 H2 _. by rewrite !lookup_insert_ne.
  - apply list.Forall_cons. split; [|by apply list.Forall_nil]. eapply crash_after; [by apply (pull_trie A Ha Hpa Hpk Hb Hb2 Hbb Hsz Hk)|].
    apply pull_reads; [apply (split_reads A Ha Hn)|]. apply (node_read_upd _ _ _ _ _ (locked_read Hpn) Hu).
Qed.

(** The other child is a node, which gets a longer prefix. *)
Lemma merge_node cn : V !! p2 = Some cn ->
  post ((vChild <- at_node p2 getVersion;
    needRestart <- at_node p2 (lockVersionOrRestart vChild);
    if needRestart : bool then at_node a writeUnlock;; cret Restart
    else
      needRestart <- at_node pa writeLockOrRestart;
      if needRestart : bool then at_node a writeUnlock;; at_node p2 writeUnlock;; cret Restart
      else
        at_node pa (N_change pk p2);;
        nodeP <- at_node a getPrefi;
        at_node p2 (addPrefixBefore nodeP b2);;
        at_node pa writeUnlock;;
        at_node a writeUnlockObsolete;;
        on_epoche (markNodeForDeletion a t);;
        at_node p2 writeUnlock;;
        cret Finished) (mkArt h0 K r ep hs li)).
Proof.
  intros Hcn. destruct (pull_ne A Ha Hpa Hpk Hb2) as (Hap & H2a & H2p). pose proof (ok_trie _ _ _ _ A) as T. cbn in T.
  destruct (ok_nodes _ _ _ _ A p2 cn Hcn) as (n2 & v2 & Hh2 & Hn2 & Hv2). cbn in Hh2, Hn2.
  destruct (edge_node T _ _ _ _ _ Ha Hb2 Hcn) as [Hbase Hpre].
  erewrite cbind_Ok; [|eapply (at_node_read p2 getVersion); [rewrite lookup_insert_ne by done; exact Hh2|reflexivity]]. cbn [self].
  erewrite cbind_Ok; [|eapply at_node_quiet; [rewrite lookup_insert_ne by done; exact Hh2|apply (lock_run n2 v2 (ok_word Hn2) (ok_version Hn2) [])]]. cbv iota.
  set (h1 := <[p2 := locked n2]> h0).
  assert (HR1 : reads h1 V) by (apply (reads_same _ V p2 _ cn (an_base cn)); [apply (split_reads A Ha Hn)|done|apply (locked_read Hn2)]).
  destruct (parent_lock A HB Hpa h1 hs li) as (pn & pv & Hp & Hpn & Hpv & Hpv1 & Hlk); [unfold h1; by rewrite !lookup_insert_ne by done|].
  rewrite (cbind_Ok _ _ _ _ _ Hlk). cbv iota. pose proof (tr_addr _ _ _ _ T _ _ Hcn) as [Hp20 _].
  destruct (change_locked Hpn pk a p2 Hpk ltac:(lia)) as (pn1 & Hc & Hu & Hf).
  erewrite cbind_Ok; [|eapply at_node_run; [apply lookup_insert_eq|exact Hc]]. rewrite insert_insert_eq. cbn [fmap list_fmap]. rewrite insert_insert_eq.
  erewrite cbind_Ok; [|eapply (at_node_read a getPrefi); [unfold h1; rewrite !lookup_insert_ne by done; apply lookup_insert_eq|reflexivity]]. cbn [self locked set_word pfx].
  pose proof (ok_read Hn) as (_ & _ & _ & Hst1). pose proof (ok_read Hn2) as (_ & _ & _ & Hst2).
  destruct (addPrefixBefore_run (locked n2) (pfx n) (an_path an) b2 (an_path cn) (an_base an) (an_base cn) Hst1 Hst2 Hbase Hpre (path_small _ _ _ _ A p2 cn Hcn)) as (q & Hq & Hstq).
  erewrite cbind_Ok; [|eapply at_node_run; [unfold h1; rewrite lookup_insert_ne by done; apply lookup_insert_eq|exact Hq]]. cbn [fmap list_fmap].
  destruct (unlock_ok Hpn pn1 _ Hu Hf Hpv1 (change_size Hpn pk a p2 Hpk)) as (pn2 & Hun & Hok).
  erewrite cbind_Ok; [|eapply at_node_quiet; [rewrite lookup_insert_ne by done; apply lookup_insert_eq|exact Hun]].
  set (h4 := <[pa := pn2]> _). assert (Ha4 : h4 !! a = Some (locked n)).
  { unfold h4, h1. rewrite !lookup_insert_ne by done. apply lookup_insert_eq. }
  erewrite cbind_Ok; [|eapply at_node_quiet; [exact Ha4|apply (unlockObsolete_run (locked n) v); [cbn; by rewrite (ok_word Hn) at 1|apply (ok_version Hn)]]].
  destruct (markNodeForDeletion_run a t ep (ok_ep _ _ _ _ A) Htd) as (ep' & Hm & Hst).
  rewrite (cbind_Ok _ _ _ _ _ (on_epoche_quiet _ _ _ _ _ _ _ ep' Hm ltac:(apply Hst))).
  destruct (pfx_unlock n2 cn _ v2 q _ Hn2 Hstq (version_step B v2 HB (ok_version Hn2) Hv2)) as (n3 & Hun3 & Hrd3 & Hok3).
  erewrite cbind_Ok; [|eapply at_node_quiet; [unfold h4; rewrite !lookup_insert_ne by done; apply lookup_insert_eq|exact Hun3]].
  pose proof (pull_reads (V := V) (pk := pk) (pan := pan) (pa := pa) (a := a) (an := an) h1 pn1 HR1 (node_read_upd _ _ _ _ _ (locked_read Hpn) Hu)) as HPR.
  pose proof (pull_trie A Ha Hpa Hpk Hb Hb2 Hbb Hsz Hk) as T'.
  rewrite <- app_assoc. do 2 eexists. split; [reflexivity|].
  apply (pull_post A Ha Hpa Hpk Hb Hb2 Hbb Hsz Hk) with (pn := pn2) (pv := pv + 1); try done.
  - unfold h4. rewrite !lookup_insert_ne by done. apply lookup_insert_eq.
  - lia.
  - rewrite lookup_insert_ne, lookup_insert_eq by done. by eexists.
  - intros cn' Hcn'. rewrite Hcn in Hcn'. injection Hcn' as <-. exists n3, (v2 + 1). rewrite lookup_insert_eq. split_and!; [done|done|lia].
  - intros c H1 H2 H3. assert (c <> p2) by (apply H3; by eexists). unfold h4, h1. by rewrite !lookup_insert_ne by done.
  - apply list.Forall_cons. split; [|apply list.Forall_cons; split; [|by apply list.Forall_nil]]; (eapply crash_after; [exact T'|]); [done|].
    by apply (pull_reads_child A Ha Hpa Hpk Hb2 _ _ (an_base an) cn).
Qed.

End merge.

(** ** The whole operation at a leaf *)

Section leaf.
Context `{!Allocator} {K : gmap Z Key} {r : Z} {V : trie} {m : gmap (list Z) Z} {B : Z} {h : gmap Z NodeN} {ep : Epoche}.
Context {hs : list (gmap Z NodeN)} {li : list Z}.
Context (A : art_ok B V m (mkArt h K r ep hs li)) (HB : version_ok (B + 1)).
Context {a v : Z} {an : anode} {n : NodeN}.
Context (Ha : V !! a = Some an) (Hh : h !! a = Some n) (Hn : node_ok n an (a = r) v) (Hv : v <= B).
Context {pa pk : Z} (Hpar : (a = r /\ pa = 0) \/ edge V pa pk a).
Context {t : nat} (Htd : is_Some (deletionLists ep !! t)).
Context {b ka : Z} {bs : list Z} (Hb : an_ch an !! b = Some (setLeaf ka)) (Hk : key_ok K ka bs).

Local Abbreviation s0 := (mkArt h K r ep hs li).
Local Abbreviation s1 := (mkArt (<[a := locked n]> h) K r ep hs li).
Local Abbreviation post res x := (exists s' V', res = Ok (x, s') /\ art_post (B + 1) V' m (delete bs m) s0 s').

Lemma remove_merge_run : a <> r -> size (an_ch an) = 2%nat -> post (remove_merge a b pa pk t s1) Finished.
Proof.
  intros Har Hsz. destruct Hpar as [[? _]|(pan & Hpa & Hpk)]; [done|].
  assert (Ht : tag (body n) = NT4).
  { destruct Hn as (_ & _ & _ & Hs). specialize (Hs Har). rewrite Hsz in Hs. clear -Hs. destruct (body n); cbn in *; [done|lia..]. }
  destruct (map_choose (delete b (an_ch an))) as (k2 & q2 & Hk2).
  { intros E. pose proof (size_delete _ _ _ Hb) as Hd. rewrite E, map_size_empty, Hsz in Hd. lia. }
  apply lookup_delete_Some in Hk2 as [Hne Hk2].
  destruct (N_getSecondChild_run (locked n) [] b k2 q2) as (b2 & p2 & Hr & Hbb & Hb2); [apply (locked_read Hn)|done|by rewrite (locked_chmap Hn)|done|].
  rewrite (locked_chmap Hn) in Hb2. unfold remove_merge.
  rewrite (cbind_Ok _ _ _ _ _ (at_node_read _ _ _ _ _ _ _ _ _ _ (lookup_insert_eq h a (locked n)) Hr)). cbv beta iota.
  destruct (isLeaf p2) eqn:Hlf.
  - by apply (merge_leaf A HB Ha Hn Hpa Hpk Htd Hb Hb2).
  - destruct (tr_node _ _ _ _ (ok_trie _ _ _ _ A) _ _ _ _ Ha Hb2 Hlf) as (cn & Hcn & _).
    by apply (merge_node A HB Ha Hn Hpa Hpk Htd Hb Hb2 ltac:(congruence) Hsz Hk cn).
Qed.

(** In place. *)
Lemma remove_inplace {C cap thr} `{!NodeClassSpec C cap thr} (force : bool) (rest : stM art bool) :
  tag (body n) = nc_type C -> thr < count n \/ force = true -> a = r \/ (3 <= size (an_ch an))%nat ->
  (a <> r -> (min_children (nc_type C) <= size (delete b (an_ch an)))%nat) ->
  post ((ok <- at_node a (nc_remove C b force true);
      if ok : bool then at_node a writeUnlock;; cret false else rest) s1) false.
Proof.
  intros Ht Hthr Hsz Hmin. destruct (cls_remove (C := C) (locked n) [] b (setLeaf ka) force true) as (n1 & l & Hr & (Hup & Hf & Hm) & _); try done.
  - apply (locked_read Hn).
  - apply (locked_full Hn).
  - by rewrite (locked_chmap Hn).
  - rewrite (locked_chmap Hn) in Hup, Hm.
    erewrite cbind_Ok; [|eapply at_node_run; [apply lookup_insert_eq|exact Hr]]. rewrite insert_insert_eq. cbv iota.
    destruct (unlock_ok Hn n1 _ Hup Hf (version_step B v HB (ok_version Hn) Hv)) as (n2 & Hun & Hok); [by rewrite Ht|].
    erewrite cbind_Ok; [|eapply at_node_quiet; [apply lookup_insert_eq|exact Hun]]. rewrite insert_insert_eq.
    rewrite (list_fmap_ext _ (fun y => <[a := y]> h)) by (intros; by rewrite insert_insert_eq). cbn [app].
    do 2 eexists. split; [reflexivity|]. eapply (inplace_post A Ha Hh Hn Hv); try done.
    by apply (trie_remove_leaf (ok_trie _ _ _ _ A)) with (ka := ka).
Qed.

Local Abbreviation ch' := (delete b (an_ch an)).

(** The states of the forced removal before the smaller node is swapped in. *)
Lemma shrink_crash pan pn e nn l R pv :
  V !! pa = Some pan -> a <> pa -> nn <> pa -> V !! nn = None -> node_ok pn pan R pv ->
  trie_ok K r (<[a := set_ch an ch']> V) (delete bs m) -> mids (locked n) (an_ch an) ch' l ->
  Forall (crash_ok K r m (delete bs m)) ((fun x => <[a := x]> (<[pa := locked pn]> (<[nn := e]> (<[a := locked n]> h)))) <$> l).
Proof.
  intros Hpa Hap Hnp Hnn Hpn T' Hm. pose proof (ok_trie _ _ _ _ A) as T. cbn in T.
  assert (Hnna : nn <> a) by congruence.
  rewrite (list_fmap_ext _ (fun x => <[a := x]> (<[pa := locked pn]> (<[nn := e]> h)))).
  2: { intros _ x _. rewrite (insert_insert_ne _ nn a), (insert_insert_ne _ pa a) by done. by rewrite insert_insert_eq. }
  apply (mids_crash K r V m (delete bs m) _ a an n (a = r) v ch'); try done.
  apply (reads_same _ V pa _ pan (an_base pan)); [|done|apply (locked_read Hpn)]. apply reads_other; [|done].
  eapply nodes_ok_reads, (ok_nodes _ _ _ _ A).
Qed.

(** A smaller copy. *)
Lemma removeAndShrink_run {C D capC thrC cap thr} `{!NodeClassSpec C capC thrC} `{!NodeClassSpec D cap thr} :
  tag (body n) = nc_type C -> a <> r -> count n <= thrC -> count n <= cap + 1 -> (3 <= size (an_ch an))%nat ->
  (min_children (nc_type D) <= size ch')%nat -> post (removeAndShrink C D a pa pk b t s1) false.
Proof.
  intros Ht Har Hthr Hcap Hsz Hmin. destruct Hpar as [[? _]|(pan & Hpa & Hpk)]; [done|].
  pose proof (ok_trie _ _ _ _ A) as T. cbn in T. pose proof (tr_addr _ _ _ _ T _ _ Hpa) as [Hpa0 _].
  pose proof (ok_full Hn) as [Hcn _]. rewrite (ok_chmap Hn) in Hcn. unfold removeAndShrink.
  rewrite (proj2 (Z.eqb_neq pa 0)) by lia.
  erewrite cbind_Ok; [|eapply at_node_read; [apply lookup_insert_eq|]].
  2: { apply cls_remove_refuse; cbn; lia. }
  cbv iota. rewrite (cbind_Ok _ _ _ _ _ (read_locked id)). unfold id. cbn [locked set_word level pfx].
  destruct (new_N_run (nc_new D (level n) (pfx n)) (<[a := locked n]> h) K r ep hs li) as (nn & Hnew & Hnn & Hnn0 & Hnno).
  rewrite (cbind_Ok _ _ _ _ _ Hnew). assert (Hnna : nn <> a) by (intros ->; by rewrite lookup_insert_eq in Hnn). rewrite lookup_insert_ne in Hnn by done.
  pose proof (parent_ne A Hpa Hpk) as Hap. destruct (push_pa A Hpa Hpk Hnn) as [_ Hpn].
  destruct (parent_lock A HB Hpa (<[nn := nc_new D (level n) (pfx n)]> (<[a := locked n]> h)) hs (li ++ [nn])) as (pn & pv & Hp & Hpno & Hpv & Hpv1 & Hlk); [by rewrite !lookup_insert_ne by done|].
  rewrite (cbind_Ok _ _ _ _ _ Hlk). cbv iota.
  set (h2 := <[pa := locked pn]> (<[nn := nc_new D (level n) (pfx n)]> (<[a := locked n]> h))).
  destruct (cls_remove (C := C) (locked n) [] b (setLeaf ka) true true) as (n1 & l & Hr & (Hup & Hf & Hm) & _); try done;
    [apply (locked_read Hn)|apply (locked_full Hn)|by rewrite (locked_chmap Hn)|by right|].
  rewrite (locked_chmap Hn) in Hup, Hm.
  assert (Ha2 : h2 !! a = Some (locked n)) by (unfold h2; rewrite !lookup_insert_ne by done; apply lookup_insert_eq).
  erewrite cbind_Ok; [|eapply at_node_run; [exact Ha2|exact Hr]]. cbn [app].
  erewrite cbind_Ok; [|eapply (at_node_read a (load id)); [apply lookup_insert_eq|reflexivity]]. unfold id. cbn [self].
  pose proof Hup as ((Hw1 & _ & _ & Ht1) & Hl1 & Hc1). pose proof Hf as [Hcnt _].
  destruct (copy_run (K := K) (r := r) (ep := ep) Hn (C := C) (D := D) n1 ch' (<[a := n1]> h2) (hs ++ ((fun y => <[a := y]> h2) <$> l)) (li ++ [nn]) nn)
    as (d & Hcp & Hdr & Hdf & Hdt & _); try done.
  - rewrite Ht1. done.
  - rewrite Hcnt, Hc1, (size_delete _ _ _ Hb). lia.
  - rewrite lookup_insert_ne by done. unfold h2. rewrite lookup_insert_ne by done. apply lookup_insert_eq.
  - rewrite (cbind_Ok _ _ _ _ _ Hcp).
    assert (T' : trie_ok K r (<[a := set_ch an ch']> V) (delete bs m)) by (apply (trie_remove_leaf T) with (ka := ka); auto).
    destruct (swap_in_post A HB Ha Hh Hn Hv Hpa Hpk Htd (hs1 := (fun y => <[a := y]> h2) <$> l) (li1 := li ++ [nn]) (m1 := delete bs m) (ch' := ch') (nn := nn) (d := d) n1)
      as (pn' & s' & V' & (Hp' & Hsw) & Hpost); try done.
    + apply (new_node_ok_rep A D); try done.
    + rewrite Hw1, Ht1. cbn. by rewrite (ok_word Hn) at 1.
    + eapply shrink_crash; try done. by apply (push_fresh A).
    + right. apply (reads_insert _ _ _ _ _ (an_base an)); [eapply nodes_ok_reads, (ok_nodes _ _ _ _ A)|]. apply (node_read_upd _ _ _ _ _ (locked_read Hn) Hup).
    + rewrite Hp in Hp'. injection Hp' as <-. exists s', V'. split; [|done].
      replace (<[nn := d]> (<[a := n1]> h2)) with (<[pa := locked pn]> (<[nn := d]> (<[a := n1]> h))); [by rewrite (cbind_Ok _ _ _ _ _ Hsw)|].
      unfold h2. rewrite (insert_insert_ne _ a pa), (insert_insert_ne _ nn pa) by done. f_equal.
      rewrite (insert_insert_ne _ a nn), insert_insert_eq by done. by rewrite (insert_insert_eq _ a).
Qed.

(** In place or with a smaller copy. *)
Lemma shrink_case {C D capC thrC cap thr} `{!NodeClassSpec C capC thrC} `{!NodeClassSpec D cap thr} :
  tag (body n) = nc_type C -> a = r \/ (3 <= size (an_ch an))%nat -> thrC <= cap + 1 ->
  Z.of_nat (min_children (nc_type C)) <= thrC -> (min_children (nc_type D) + 1 <= min_children (nc_type C))%nat ->
  post (removeAndShrink C D a pa pk b t s1) false.
Proof.
  intros Ht Hsz Hcap Hmc Hmd. pose proof (ok_full Hn) as [Hcn _]. rewrite (ok_chmap Hn) in Hcn. pose proof (size_delete _ _ _ Hb) as Hd.
  assert (Hmin : a <> r -> (min_children (nc_type C) <= size (an_ch an))%nat).
  { intros Har. rewrite <- Ht. destruct Hn as (_ & _ & _ & Hs). auto. }
  destruct (decide (a = r)) as [Har|Har].
  - destruct Hpar as [[_ ->]|(pan & Hpa & Hpk)]; [|destruct (edge_not_root A Hpa Hpk); done].
    apply (remove_inplace (C := C)); try done; by right.
  - specialize (Hmin Har). destruct Hsz as [?|Hsz]; [done|]. destruct (Z.le_gt_cases (count n) thrC) as [Hle|Hgt].
    + apply (removeAndShrink_run (C := C) (D := D)); try done; lia.
    + apply (remove_inplace (C := C)); [done|by left|by right|]. lia.
Qed.

Lemma removeAndUnlock_run : a = r \/ (3 <= size (an_ch an))%nat -> post (removeAndUnlock a b pa pk t s1) false.
Proof.
  intros Hsz. unfold removeAndUnlock, getType. rewrite (cbind_Ok _ _ _ _ _ (read_locked _)).
  assert (Hty : Z.shiftr (typeVersionLockObsolete (locked n)) 62 = tag (body n)).
  { cbn [locked set_word typeVersionLockObsolete]. rewrite (ok_word Hn) at 1. rewrite (ok_shift Hn) by lia. apply (ok_layout Hn). }
  rewrite Hty. destruct (body n) as [ks cs|ks cs|ix cs|cs] eqn:Eb; cbn [tag].
  - change (NT4 =? NT4) with true. cbv iota.
    assert (Har : a <> r) by (intros E; destruct Hn as (_ & _ & H1 & _); by rewrite Eb in H1; discriminate (H1 E)).
    destruct Hsz as [?|Hsz]; [done|]. pose proof (size_delete _ _ _ Hb) as Hd. pose proof (ok_full Hn) as [Hcn _].
    destruct (remove_inplace (C := C4) false (at_node a writeUnlock;; cret false)) as (s' & V' & Hr & Hp); [by rewrite Eb|left; lia|by right| |].
    { intros _. change (min_children (nc_type C4)) with 2%nat. lia. }
    exists s', V'. split; [|done]. rewrite <- Hr. unfold cbind at 1 3. cbn [nc_remove C4]. destruct (at_node a _ s1) as [[[] s2]|e]; done.
  - change (NT16 =? NT4) with false. change (NT16 =? NT16) with true. cbv iota. apply (shrink_case (C := C16) (D := C4)); rewrite ?Eb; try done; cbn; lia.
  - change (NT48 =? NT4) with false. change (NT48 =? NT16) with false. change (NT48 =? NT48) with true. cbv iota.
    apply (shrink_case (C := C48) (D := C16)); rewrite ?Eb; try done; cbn; lia.
  - change (NT256 =? NT4) with false. change (NT256 =? NT16) with false. change (NT256 =? NT48) with false. cbv iota.
    apply (shrink_case (C := C256) (D := C48)); rewrite ?Eb; try done; cbn; lia.
Qed.

End leaf.

(** A node that was locked and unlocked without a change. *)
Lemma untouched_post {B V m h K r ep hs li a an v} n2 m' :
  art_ok B V m (mkArt h K r ep hs li) -> V !! a = Some an -> node_ok n2 an (a = r) (v + 1) -> v <= B -> m' = m ->
  art_post (B + 1) V m m' (mkArt h K r ep hs li) (mkArt (<[a := n2]> h) K r ep hs li).
Proof.
  intros [T HNk He Hp Hheap Hdis] Ha Hn2 Hv ->. cbn in *. split; [split|split_and!]; cbn; try done.
  - rewrite <- (insert_id V a an Ha). apply (nodes_ok_insert _ _ _ _ _ _ _ (v + 1)); [apply (nodes_ok_mono _ _ _ B); [done|lia]|done|lia].
  - intros x. rewrite lookup_insert_is_Some', Hheap. split; [intros [->|?]; [left; by eexists|done]|auto].
  - exists []. split; [by rewrite app_nil_r|]. by apply list.Forall_nil.
Qed.

Section remove.
Context `{!Allocator} {K : gmap Z Key} {r : Z} {V : trie} {m : gmap (list Z) Z} {B : Z} {h : gmap Z NodeN} {ep : Epoche}.
Context {hs : list (gmap Z NodeN)} {li : list Z}.
Context (A : art_ok B V m (mkArt h K r ep hs li)) (HB : version_ok (B + 1)).
Context {t : nat} (Htd : is_Some (deletionLists ep !! t)).
Context {ka : Z} {bs : list Z} (Hk : key_ok K ka bs).

Local Abbreviation s0 := (mkArt h K r ep hs li).
Local Abbreviation post res := (exists s' V', res = Ok (Finished, s') /\ art_post (B + 1) V' m (delete bs m) s0 s').

(** The key is there: its leaf goes. *)
Lemma remove_found a an n v pa pk b ka' bs' :
  V !! a = Some an -> h !! a = Some n -> node_ok n an (a = r) v -> v <= B -> (a = r /\ pa = 0) \/ edge V pa pk a ->
  an_ch an !! b = Some (setLeaf ka') -> key_ok K ka' bs' -> bs' = bs ->
  post ((cnt <- at_node a N_getCount;
      cassert ((pa =? 0) || negb (cnt =? 1));;
      r <- cgets root;
      if (cnt =? 2) && negb (a =? r) then remove_merge a b pa pk t
      else
        needRestart <- removeAndUnlock a b pa pk t;
        cret (if needRestart : bool then Restart else Finished)) (mkArt (<[a := locked n]> h) K r ep hs li)).
Proof.
  intros Ha Hh Hn Hv Hpar Hb Hk' ->. pose proof (ok_full Hn) as [Hcn _]. rewrite (ok_chmap Hn) in Hcn.
  pose proof (N_getCount_run (locked n) [] ltac:(apply (locked_read Hn)) (locked_full Hn)) as Hc. cbn [locked set_word count] in Hc.
  rewrite (cbind_Ok _ _ _ _ _ (at_node_read _ _ _ _ _ _ _ _ _ _ (lookup_insert_eq h a (locked n)) Hc)). rewrite Hcn.
  assert (Hs2 : a <> r -> (2 <= size (an_ch an))%nat) by apply (tr_size _ _ _ _ (ok_trie _ _ _ _ A) _ _ Ha).
  rewrite (cbind_Ok (cassert _) _ _ tt (mkArt (<[a := locked n]> h) K r ep hs li)).
  2: { destruct Hpar as [[_ ->]|(pan & Hpa & Hpk)]; [done|]. specialize (Hs2 (edge_not_root A Hpa Hpk)).
       rewrite (proj2 (Z.eqb_neq (Z.min _ _) 1)) by lia. by rewrite orb_true_r. }
  rewrite (cbind_Ok (cgets root) _ _ r _) by done.
  destruct (Z.eqb_spec (Z.min 3 (Z.of_nat (size (an_ch an)))) 2) as [E2|E2], (Z.eqb_spec a r) as [Er|Er]; cbn [andb negb].
  2: { apply (remove_merge_run A HB Ha Hn Hpar Htd Hb Hk'); [done|lia]. }
  all: destruct (removeAndUnlock_run A HB Ha Hh Hn Hv Hpar Htd Hb Hk') as (s' & V' & Hr & Hp);
    [first [by left|right; specialize (Hs2 Er); lia]|exists s', V'; by rewrite (cbind_Ok _ _ _ _ _ Hr)].
Qed.

(** The child on the way of the key is a leaf. *)
Lemma remove_leaf_run a an n v pa pk b p :
  V !! a = Some an -> h !! a = Some n -> node_ok n an (a = r) v -> v <= B -> (a = r /\ pa = 0) \/ edge V pa pk a ->
  an_ch an !! b = Some p -> isLeaf p = true -> bs !! length (an_path an) = Some b ->
  (is_Some (m !! bs) -> an_path an `prefix_of` bs) ->
  post (remove_leaf ka a b pa pk (typeVersionLockObsolete n) p t s0).
Proof.
  intros Ha Hh Hn Hv Hpar Hb Hlf Hbb Hin. pose proof (ok_trie _ _ _ _ A) as T. cbn in T.
  destruct (lookup_at_leaf T a an b p true Ha Hb Hlf Hbb ltac:(done) Hin) as (bs' & Hk' & Hm & Hans & _). unfold remove_leaf.
  rewrite (cbind_Ok _ _ _ _ _ (at_node_quiet _ _ _ _ _ _ _ _ _ _ _ Hh (lock_run n v (ok_word Hn) (ok_version Hn) []))). cbv iota.
  rewrite (cbind_Ok _ _ _ _ _ (checkKey_run Hk _ r ep hs li (getLeaf p) bs' Hk')). destruct (decide (bs' = bs)) as [E|E].
  - assert (0 < getLeaf p) by apply Hk'. rewrite (proj2 (Z.eqb_neq (getLeaf p) 0)) by lia.
    apply (remove_found a an n v pa pk b (getLeaf p) bs'); try done. by rewrite setLeaf_getLeaf.
  - change (0 =? 0) with true. cbv iota. pose proof (version_step B v HB (ok_version Hn) Hv) as Hv1.
    destruct (unlock_ok Hn (locked n) (an_ch an)) as (n2 & Hun & Hok); try done.
    + split; [done|]. split; [apply (locked_read Hn)|apply (locked_chmap Hn)].
    + apply (locked_full Hn).
    + apply Hn.
    + erewrite cbind_Ok; [|eapply at_node_quiet; [apply lookup_insert_eq|exact Hun]]. rewrite insert_insert_eq.
      do 2 eexists. split; [reflexivity|]. rewrite set_ch_same in Hok. apply (untouched_post (v := v) (an := an)); try done.
      apply delete_id. unfold lookup_answer in Hans. destruct (m !! bs) as [x|] eqn:Em; [|done]. exfalso.
      apply (tr_map _ _ _ _ T) in Em as ((_ & _ & _ & Hx & _) & _). lia.
Qed.

(** The key is not there. *)
Lemma remove_absent_run a an n v :
  V !! a = Some an -> h !! a = Some n -> node_ok n an (a = r) v -> m !! bs = None ->
  post (remove_absent a (typeVersionLockObsolete n) s0).
Proof.
  intros Ha Hh Hn HN. unfold remove_absent.
  rewrite (cbind_Ok _ _ _ (typeVersionLockObsolete n =? typeVersionLockObsolete n) s0) by (by apply (at_node_read _ _ _ _ _ _ _ _ n)).
  rewrite Z.eqb_refl, (ok_word Hn), (proj2 (word_free _ _)). do 2 eexists. split; [reflexivity|]. rewrite delete_id by done.
  destruct A as [T HNk He Hp Hheap Hdis]. cbn in *. split; [split|split_and!]; cbn; try done.
  - apply (nodes_ok_mono _ _ _ B); [done|lia].
  - exists []. split; [by rewrite app_nil_r|]. by apply list.Forall_nil.
Qed.

(** The rest of a round, once the prefix has been passed. *)
Lemma remove_round fuel a an n v pa pk :
  V !! a = Some an -> h !! a = Some n -> node_ok n an (a = r) v -> v <= B -> (a = r /\ pa = 0) \/ edge V pa pk a ->
  (length (an_path an) < length bs)%nat -> (is_Some (m !! bs) -> an_path an `prefix_of` bs) ->
  (forall b c cn, V !! c = Some cn -> edge V a b c -> an_base cn = S (length (an_path an)) -> (is_Some (m !! bs) -> an_path cn `prefix_of` bs) ->
     post (tree_remove_loop fuel ka t a b c (Z.of_nat (an_base cn)) s0)) ->
  let level := Z.of_nat (length (an_path an)) in
  post ((nodeKey <- key_byte ka level;
      nextNode <- at_node a (N_getChild nodeKey);
      if nextNode =? 0 then remove_absent a (typeVersionLockObsolete n)
      else if isLeaf nextNode then remove_leaf ka a nodeKey pa pk (typeVersionLockObsolete n) nextNode t
      else tree_remove_loop fuel ka t a nodeKey nextNode (u32 (level + 1))) s0).
Proof.
  intros Ha Hh Hn Hv Hpar Hlt Hin IH level. pose proof (ok_trie _ _ _ _ A) as T. cbn in T. pose proof (key_short Hk) as Hks.
  destruct (lookup_lt_is_Some_2 bs (length (an_path an)) Hlt) as (b & Hb). unfold level.
  rewrite (cbind_Ok _ _ _ _ _ (key_byte_run Hk h r ep hs li _ _ Hb)).
  rewrite (cbind_Ok _ _ _ _ _ (getChild_run h ep hs li a n an (an_base an) b Hh (ok_read Hn) (key_bound Hk _ _ Hb))).
  destruct (an_ch an !! b) as [p|] eqn:Ech; cbn [default from_option id].
  2: { change (0 =? 0) with true. cbv iota. apply (remove_absent_run a an n v); try done. by apply (lookup_no_child T a an b). }
  destruct (isLeaf p) eqn:Hlf.
  - rewrite (proj2 (Z.eqb_neq p 0)) by (intros ->; done). by apply (remove_leaf_run a an n v).
  - destruct (tr_node _ _ _ _ T _ _ _ _ Ha Ech Hlf) as (cn & Hc & _). pose proof (tr_addr _ _ _ _ T _ _ Hc) as [Hp0 _].
    rewrite (proj2 (Z.eqb_neq p 0)) by lia. rewrite u32_small by lia.
    destruct (lookup_child T a an b p cn true Ha Ech Hc Hb ltac:(done) Hin) as (Hbase & _ & H2).
    replace (Z.of_nat (length (an_path an)) + 1) with (Z.of_nat (an_base cn)) by lia. apply IH; try done. by exists an.
Qed.

Lemma tree_remove_loop_run fuel : forall a an pa pk,
  V !! a = Some an -> (a = r /\ pa = 0) \/ edge V pa pk a -> (length bs < fuel + an_base an)%nat -> (an_base an <= length bs)%nat ->
  (is_Some (m !! bs) -> an_path an `prefix_of` bs) ->
  post (tree_remove_loop fuel ka t pa pk a (Z.of_nat (an_base an)) s0).
Proof.
  induction fuel as [|fuel IH]; intros a an pa pk Ha Hpar Hf Hbl Hin; [lia|].
  pose proof (ok_trie _ _ _ _ A) as T. cbn in T. pose proof (base_le T a an Ha) as Hble.
  destruct (ok_nodes _ _ _ _ A a an Ha) as (n & v & Hh & Hn & Hv). cbn in Hh, Hn. cbn [tree_remove_loop].
  rewrite (cbind_Ok _ _ _ _ _ (at_node_read a getVersion h K r ep hs li n _ Hh eq_refl)). cbn [self].
  destruct (checkPrefix_run Hk h r ep hs li a n an (an_base an) (an_base an) Hh (ok_read Hn) Hble) as (c & lv & Hr & Hc); [right; left; lia|].
  rewrite (cbind_Ok _ _ _ _ _ Hr).
  assert (Hgo : (length (an_path an) < length bs)%nat -> forall b c cn, V !! c = Some cn -> edge V a b c -> an_base cn = S (length (an_path an)) ->
     (is_Some (m !! bs) -> an_path cn `prefix_of` bs) -> post (tree_remove_loop fuel ka t a b c (Z.of_nat (an_base cn)) s0)).
  { intros Hlt b0 c0 cn Hc0 He Hb Hi. apply IH; try done; [by right|lia|lia]. }
  destruct c; cbn [check_answer] in Hc.
  - destruct Hc as (-> & Hlt & _). apply (remove_round fuel a an n v); auto.
  - apply (remove_absent_run a an n v); try done. destruct (m !! bs) as [x|] eqn:Em; [|done]. exfalso.
    pose proof (Hin ltac:(by eexists)) as Hpre. pose proof (key_longer T a an bs x Ha Em Hpre). destruct Hc as [Hc|Hc]; [done|lia].
  - destruct Hc as (-> & Hlt). apply (remove_round fuel a an n v); auto.
Qed.

End remove.

(** ** The operation *)

Lemma Tree_remove_run `{!Allocator} B V m s t ka bs tries :
  art_ok B V m s -> version_ok (B + 1) -> is_Some (deletionLists (epoche s) !! t) -> key_ok (keys s) ka bs -> (0 < tries)%nat ->
  exists s' V', Tree_remove tries ka t s = Ok (tt, s') /\ art_post (B + 1) V' m (delete bs m) s s'.
Proof.
  intros A HB Ht Hk Htr. destruct s as [h K r ep hs li]. cbn [epoche keys] in *. unfold Tree_remove.
  destruct (enter_run A Ht) as (ep1 & He & A2 & Hdm & Ht2). rewrite (cbind_Ok _ _ _ _ _ He).
  rewrite (cbind_Ok _ _ _ _ _ (getKeyLen_run Hk h r ep1 hs li)), (cbind_Ok (cgets root) _ _ r _) by done. rewrite Nat2Z.id.
  destruct (tr_root _ _ _ _ (ok_trie _ _ _ _ A)) as (rn & Hr & Hp & Hb). cbn in Hr.
  destruct (tree_remove_loop_run A2 HB Ht2 Hk (S (length bs)) r rn 0 0 Hr ltac:(by left)) as (s' & V' & Hrun & Hpost); try lia.
  { intros _. rewrite Hp. apply prefix_nil. }
  rewrite Hb in Hrun. rewrite (cbind_Ok _ _ _ _ _ (attempts_finished tries _ _ _ Htr Hrun)).
  rewrite <- (app_nil_r hs) in Hpost. apply (art_post_hist _ _ _ _ h K r ep hs [] li ep1 h) in Hpost; [|done|by apply list.Forall_nil].
  destruct (art_post_exit _ _ _ _ _ _ t Hpost Ht) as (s'' & Hx & Hp2). by exists s'', V'.
Qed.
