(* ===== verification/ArtSpec.v ===== *)
(** * P-ART: the tree implements a map

    A fresh tree is empty; [insert], [lookup] and [remove], on keys made by [make_leaf], do what
    the operations of a finite map from byte strings to values do, in any order, and return. *)

From S2P Require Import Prelude ArtNode ArtSlots ArtLayout ArtClass Epoche ArtTree.
From S2P Require Import ArtTrie ArtTrieUpd ArtRep ArtPrefix ArtState ArtGrow ArtInsert ArtRemove.
#[local] Open Scope Z_scope.
#[local] Open Scope cmd_scope.

(** ** New keys *)

Lemma key_ok_mono K K' ka bs : K ⊆ K' -> key_ok K ka bs -> key_ok K' ka bs.
Proof. intros HK ((x & H1 & H2) & H3). split; [|done]. exists x. split; [|done]. by eapply lookup_weaken. Qed.

Lemma trie_ok_mono K K' r V m : K ⊆ K' -> trie_ok K r V m -> trie_ok K' r V m.
Proof.
  intros HK [T1 T2 T3 T4 T5 T6 T7 T8]. split; try done.
  - intros a an b p Ha Hb Hl. destruct (T3 a an b p Ha Hb Hl) as (bs & H1 & H2 & H3). exists bs. split; [by eapply key_ok_mono|done].
  - intros bs ka Hm. destruct (T7 bs ka Hm) as [H1 H2]. split; [by eapply key_ok_mono|done].
Qed.

(** Keys a leaf can be made of. *)
Definition valid_key (bs : list Z) : Prop := Forall byte bs /\ Z.of_nat (length bs) < 2 ^ 31.

Section spec.
Context `{!Allocator}.

Lemma make_leaf_run bs v s :
  valid_key bs -> exists ka, make_leaf bs (Z.of_nat (length bs)) v s =
      Ok (ka, set_keys s (<[ka := mkKey v (Z.of_nat (length bs)) bs]> (keys s))) /\
    keys s !! ka = None /\ key_ok (<[ka := mkKey v (Z.of_nat (length bs)) bs]> (keys s)) ka bs.
Proof.
  intros [Hb Hl]. unfold make_leaf. set (ka := memalign_addr _ _). exists ka.
  pose proof (memalign_addr_fresh (dom (keys s)) (sizeof_Key + Z.of_nat (length bs))) as Hf.
  pose proof (memalign_addr_aligned (dom (keys s)) (sizeof_Key + Z.of_nat (length bs))) as [Hp Ha]. fold ka in Hf, Hp, Ha.
  rewrite (proj2 (Z.leb_le 0 _)), Z.leb_refl by lia. cbn [andb]. rewrite Nat2Z.id, firstn_all. split; [done|]. split.
  - by apply not_elem_of_dom.
  - split_and!; try done; [exists (mkKey v (Z.of_nat (length bs)) bs); by rewrite lookup_insert_eq|].
    apply Z.div_exact in Ha; [|lia]. by rewrite Ha, Z.odd_mul.
Qed.

Lemma art_ok_keys B V m s ka x : keys s !! ka = None -> art_ok B V m s -> art_ok B V m (set_keys s (<[ka := x]> (keys s))).
Proof.
  intros HN [T H1 H2 H3 H4 H5]. split; try done. apply (trie_ok_mono (keys s)); [|done]. by apply insert_subseteq.
Qed.

(** ** A fresh tree *)

Lemma Tree_new_run K s :
  nodes s = ∅ -> keys s = K ->
  exists s' V, Tree_new s = Ok (tt, s') /\ art_ok 1 V ∅ s' /\ keys s' = K /\ deletionLists (epoche s') = ∅.
Proof.
  destruct s as [h K0 r0 ep hs li]. cbn [nodes keys]. intros -> ->. unfold Tree_new. change new_N256 with (nc_new C256).
  destruct (new_N_run (nc_new C256 0 (mkPrefix 0 (replicate 4 (Some 0)))) ∅ K r0 ep hs li) as (r & Hr & _ & Hr0 & Hro).
  rewrite (cbind_Ok _ _ _ _ _ Hr). set (n := nc_new C256 _ _).
  rewrite (cbind_Ok _ _ _ tt (mkArt (<[r := n]> ∅) K r (mkEpoche 0 ∅ 256 []) hs (li ++ [r]))) by done.
  rewrite (cbind_Ok _ _ _ _ _ (at_node_run r _ _ K r _ hs _ n tt n [n] ltac:(apply lookup_insert_eq) eq_refl)).
  do 2 eexists. split; [reflexivity|]. rewrite insert_insert_eq.
  destruct (fresh_rep (D := C256) 0 (mkPrefix 0 (replicate 4 (Some 0))) [] 0 0) as (Hrep & Hf & Ht & _); [split_and!; done|done|].
  split; [split|done]; cbn [nodes keys root epoche deletionLists].
  - apply (trie_ok_intro K r (<[r := mkA [] 0 ∅]> ∅)); unfold path, base, edge, fanout.
    + by rewrite lookup_insert_eq.
    + by rewrite lookup_insert_eq.
    + intros a pi. destruct (decide (a = r)) as [->|]; [done|by rewrite lookup_insert_ne].
    + intros a b p pi (an & [[<- <-]|[_ ?]]%lookup_insert_Some & Hp); done.
    + intros a b p pi (an & [[<- <-]|[_ ?]]%lookup_insert_Some & Hp); done.
    + intros c pi Hc Hne. by rewrite lookup_insert_ne in Hc.
    + intros a a' pi Ha Ha'. destruct (decide (a = r)) as [->|]; [|by rewrite lookup_insert_ne in Ha].
      destruct (decide (a' = r)) as [->|]; [done|by rewrite lookup_insert_ne in Ha'].
    + intros bs ka Hm. done.
    + intros a pi Ha Hne. by rewrite lookup_insert_ne in Ha.
  - intros a an [[<- <-]|[_ ?]]%lookup_insert_Some; [|done]. exists n, 1. rewrite lookup_insert_eq. split; [done|]. split; [|done].
    split; [exact Hrep|]. split; [done|]. split; [done|]. by intros [].
  - intros t d. done.
  - constructor.
  - intros a. destruct (decide (a = r)) as [->|Hne]; [rewrite !lookup_insert_eq; split; [by left|by eexists]|].
    rewrite !lookup_insert_ne by done. split; [by intros [? ?]|]. intros [[? ?]|Ha]; [done|]. by apply elem_of_nil in Ha.
  - intros a Ha. by apply elem_of_nil in Ha.
Qed.

(** A thread is registered. *)
Lemma getThreadInfo_run B V m s init t :
  art_ok B V m s -> deletionLists (epoche s) !! t = None ->
  exists s', getThreadInfo init t s = Ok (tt, s') /\ art_ok B V m s' /\ keys s' = keys s /\ is_Some (deletionLists (epoche s') !! t).
Proof.
  destruct s as [h K r ep hs li]. intros A HN. cbn in HN. unfold getThreadInfo. rewrite (on_epoche_quiet _ h K r ep hs li
    (mkEpoche (currentEpoche ep) (<[t := mkDL [] [] 0 init 0 0 0]> (deletionLists ep)) (startGCThreshhold ep) (released ep))).
  - eexists. split; [reflexivity|]. destruct A as [T HNk He Hp Hheap Hdis]. cbn in *.
    assert (Hpe : pending (<[t := mkDL [] [] 0 init 0 0 0]> (deletionLists ep)) ≡ₚ pending (deletionLists ep)) by by rewrite pending_insert.
    split; [|split; [done|rewrite lookup_insert_eq; by eexists]]. split; cbn; try done.
    + apply ep_ok_insert; [done|]. by split; apply list.Forall_nil.
    + by rewrite Hpe.
    + intros a. by rewrite Hpe.
    + intros a. rewrite Hpe. apply Hdis.
  - unfold ThreadInfo_new, cmod. by rewrite HN.
  - cbn. by rewrite app_nil_r.
Qed.

(** ** Lookup *)

Lemma nodes_ok_reps B V m h K r ep hs li : art_ok B V m (mkArt h K r ep hs li) -> reps h V.
Proof.
  intros A a an Ha. destruct (ok_nodes _ _ _ _ A a an Ha) as (n & v & Hn & Hok & _). exists n, (an_base an).
  split; [done|]. split; [apply (ok_read Hok)|right; left; lia].
Qed.

Lemma Tree_lookup_run B V m s t ka bs :
  art_ok B V m s -> is_Some (deletionLists (epoche s) !! t) -> key_ok (keys s) ka bs ->
  exists ret s', Tree_lookup ka t s = Ok (ret, s') /\ lookup_answer (bs := bs) m ret /\ art_post B V m m s s'.
Proof.
  intros A Ht Hk. destruct s as [h K r ep hs li]. cbn [epoche keys] in *. unfold Tree_lookup.
  destruct (enter_run A Ht) as (ep1 & He & A2 & Hdm & Ht2). rewrite (cbind_Ok _ _ _ _ _ He).
  rewrite (cbind_Ok _ _ _ _ _ (getKeyLen_run Hk h r ep1 hs li)), (cbind_Ok (cgets root) _ _ r _) by done. rewrite Nat2Z.id.
  destruct (lookup_run Hk (ok_trie _ _ _ _ A) h ep1 hs li (nodes_ok_reps _ _ _ _ _ _ _ _ _ A)) as (ret & Hr & Hans).
  exists ret. eexists. split; [exact Hr|]. split; [done|]. split; [done|]. cbn. split_and!; try done.
  exists []. by rewrite app_nil_r.
Qed.

End spec.

(** ** A client *)

Inductive op := Put (key : list Z) (v : Z) | Get (key : list Z) | Del (key : list Z).

(** The word a pointer to [value] points to. *)
Definition load_value (ret : Z) : stM art (option Z) := fun s =>
  if ret =? 0 then Ok (None, s)
  else match keys s !! ret with Some x => Ok (Some (value x), s) | None => Err UB_access end.

Definition run_op `{Allocator} (t : nat) (o : op) : stM art (option Z) :=
  match o with
  | Put key v => k <- make_leaf key (Z.of_nat (length key)) v; Tree_insert 1 k t;; cret None
  | Get key => k <- make_leaf key (Z.of_nat (length key)) 0; ret <- Tree_lookup k t; load_value ret
  | Del key => k <- make_leaf key (Z.of_nat (length key)) 0; Tree_remove 1 k t;; cret None
  end.

Fixpoint run_ops `{Allocator} (t : nat) (ops : list op) : stM art (list (option Z)) :=
  match ops with
  | [] => cret []
  | o :: ops' => r <- run_op t o; rs <- run_ops t ops'; cret (r :: rs)
  end.

(** The same on a map from keys to values. *)
Definition spec_op (o : op) (M : gmap (list Z) Z) : option Z * gmap (list Z) Z :=
  match o with
  | Put key v => (None, <[key := v]> M)
  | Get key => (M !! key, M)
  | Del key => (None, delete key M)
  end.

Fixpoint spec_ops (ops : list op) (M : gmap (list Z) Z) : list (option Z) :=
  match ops with
  | [] => []
  | o :: ops' => (spec_op o M).1 :: spec_ops ops' (spec_op o M).2
  end.

(** The map in the end. *)
Fixpoint spec_end (ops : list op) (M : gmap (list Z) Z) : gmap (list Z) Z :=
  match ops with
  | [] => M
  | o :: ops' => spec_end ops' (spec_op o M).2
  end.

(** A key that no other key of the map extends. *)
Definition not_extended (M : gmap (list Z) Z) (key : list Z) : Prop :=
  forall bs v, M !! bs = Some v -> key `prefix_of` bs -> bs = key.

Definition legal (M : gmap (list Z) Z) (o : op) : Prop :=
  match o with
  | Put key _ => valid_key key /\ insertable M key
  | Get key => valid_key key /\ not_extended M key
  | Del key => valid_key key
  end.

Fixpoint legal_ops (M : gmap (list Z) Z) (ops : list op) : Prop :=
  match ops with
  | [] => True
  | o :: ops' => legal M o /\ legal_ops (spec_op o M).2 ops'
  end.

(** Keys of one length, as in the benchmarks, are never prefixes of each other. *)
Lemma fixed_length_legal M key L :
  (forall bs v, M !! bs = Some v -> length bs = L) -> length key = L ->
  not_extended M key /\ ((0 < L)%nat -> M !! key = None -> insertable M key).
Proof.
  intros HM HL.
  assert (Heq : forall bs v, M !! bs = Some v -> key `prefix_of` bs \/ bs `prefix_of` key -> bs = key).
  { intros bs v Hb [Hp|Hp]; [symmetry|]; apply prefix_length_eq; try done; by rewrite (HM _ _ Hb), HL. }
  split; [intros bs v Hb Hp; eapply Heq; eauto|]. intros H0 HN. split; [intros ->; cbn in HL; lia|].
  intros bs v Hb. split; intros Hp; rewrite (Heq bs v Hb) in Hb; auto; congruence.
Qed.

(** The values of the leaves. *)
Definition values (K : gmap Z Key) (m : gmap (list Z) Z) : gmap (list Z) Z := omap (fun ka => value <$> K !! ka) m.

Section values.
Context {K : gmap Z Key} {r : Z} {V : trie} {m : gmap (list Z) Z} (T : trie_ok K r V m).

Lemma values_Some bs ka : m !! bs = Some ka ->
  exists x, K !! ka = Some x /\ values K m !! bs = Some (value x) /\ 0 < ka.
Proof.
  intros Hm. destruct (tr_map _ _ _ _ T _ _ Hm) as [((x & Hx & _) & _ & _ & H0 & _) _].
  exists x. split; [done|]. split; [|done]. unfold values. rewrite lookup_omap, Hm. cbn. by rewrite Hx.
Qed.

Lemma values_None bs : values K m !! bs = None <-> m !! bs = None.
Proof.
  destruct (m !! bs) as [ka|] eqn:E; [|unfold values; by rewrite lookup_omap, E].
  destruct (values_Some bs ka E) as (x & _ & Hv & _). by rewrite Hv.
Qed.

(** A new leaf changes nothing. *)
Lemma values_keys ka x : K !! ka = None -> values (<[ka := x]> K) m = values K m.
Proof.
  intros HN. apply map_eq. intros bs. unfold values. rewrite !lookup_omap. destruct (m !! bs) as [kb|] eqn:E; [|done]. cbn.
  destruct (values_Some bs kb E) as (y & Hy & _). rewrite lookup_insert_ne; [done|congruence].
Qed.

Lemma values_insert bs ka x : K !! ka = Some x -> values K (<[bs := ka]> m) = <[bs := value x]> (values K m).
Proof. intros Hx. unfold values. apply omap_insert_Some. by rewrite Hx. Qed.

Lemma values_insertable bs : insertable (values K m) bs -> insertable m bs.
Proof. intros [Hne Hi]. split; [done|]. intros bs' ka' Hm. destruct (values_Some bs' ka' Hm) as (x & _ & Hv & _). by apply (Hi bs' (value x)). Qed.

(** The value behind the answer of a lookup. *)
Lemma answer_value key ret s :
  keys s = K -> not_extended (values K m) key -> lookup_answer (bs := key) m ret -> load_value ret s = Ok (values K m !! key, s).
Proof.
  intros HK Hext Hans. unfold load_value, lookup_answer in *. rewrite HK. destruct (m !! key) as [kb|] eqn:Em.
  - subst ret. destruct (values_Some key kb Em) as (x & Hx & Hv & H0). by rewrite (proj2 (Z.eqb_neq kb 0)), Hx, Hv by lia.
  - assert (Hret : ret = 0).
    { destruct Hans as [|(bs' & Hm' & Hpre)]; [done|]. destruct (values_Some bs' ret Hm') as (x & _ & Hv & _).
      rewrite (Hext bs' (value x) Hv Hpre) in Hm'. congruence. }
    rewrite Hret. cbn [Z.eqb]. by rewrite (proj2 (values_None key) Em).
Qed.

End values.

Section refinement.
Context `{!Allocator} (t : nat).

Definition represents (B : Z) (M : gmap (list Z) Z) (s : art) : Prop :=
  exists V m, art_ok B V m s /\ is_Some (deletionLists (epoche s) !! t) /\ M = values (keys s) m.

Lemma leaf_made B M s key v :
  represents B M s -> valid_key key ->
  exists ka s1, make_leaf key (Z.of_nat (length key)) v s = Ok (ka, s1) /\ represents B M s1 /\ key_ok (keys s1) ka key /\
    keys s1 !! ka = Some (mkKey v (Z.of_nat (length key)) key) /\ hist s1 = hist s.
Proof.
  intros (V & m & A & Ht & ->) Hv. destruct (make_leaf_run key v s Hv) as (ka & Hr & HN & Hk). exists ka. eexists. split; [exact Hr|].
  split; [|split; [done|split; [apply lookup_insert_eq|done]]]. exists V, m. split; [by apply art_ok_keys|]. split; [done|]. symmetry.
  by apply (values_keys (ok_trie _ _ _ _ A)).
Qed.

(** What an operation on the tree leaves represents what it did to the map. *)
Lemma post_represents B V m m' s s' :
  art_post B V m m' s s' -> is_Some (deletionLists (epoche s) !! t) -> represents B (values (keys s) m') s'.
Proof.
  intros (A & HK & _ & Hd & _) Ht. exists V, m'. split; [done|]. split; [|by rewrite HK].
  apply elem_of_dom. rewrite Hd. by apply elem_of_dom.
Qed.

Lemma represents_mono B B' M s : represents B M s -> B <= B' -> represents B' M s.
Proof.
  intros (V & m & A & Hr) HB. exists V, m. split; [|done]. destruct A as [T HN H1 H2 H3 H4]. split; try done. by eapply nodes_ok_mono.
Qed.

Lemma run_op_refines B M s o :
  represents B M s -> legal M o -> version_ok (B + 1) ->
  exists s', run_op t o s = Ok ((spec_op o M).1, s') /\ represents (B + 1) (spec_op o M).2 s'.
Proof.
  intros HR Hleg HB. destruct o as [key v|key|key]; cbn [run_op spec_op fst snd legal] in *.
  - destruct Hleg as [Hv Hins]. destruct (leaf_made B M s key v HR Hv) as (ka & s1 & Hr & (V & m & A & Ht & ->) & Hk & Hx & _).
    rewrite (cbind_Ok _ _ _ _ _ Hr).
    destruct (Tree_insert_run B V m s1 t ka key 1 A HB Ht Hk (values_insertable (ok_trie _ _ _ _ A) key Hins)) as (s' & V' & Hi & Hp); [lia|].
    exists s'. rewrite (cbind_Ok _ _ _ _ _ Hi). split; [done|]. apply (post_represents _ _ _ _ _ _ Hp) in Ht.
    by rewrite (values_insert key ka _ Hx) in Ht.
  - destruct Hleg as [Hv Hext]. destruct (leaf_made B M s key 0 HR Hv) as (ka & s1 & Hr & (V & m & A & Ht & ->) & Hk & Hx & _).
    rewrite (cbind_Ok _ _ _ _ _ Hr). destruct (Tree_lookup_run B V m s1 t ka key A Ht Hk) as (ret & s' & Hl & Hans & Hp).
    exists s'. rewrite (cbind_Ok _ _ _ _ _ Hl). pose proof (post_represents _ _ _ _ _ _ Hp Ht) as HR'. destruct Hp as (_ & HK & _).
    split; [|by apply (represents_mono B); [|lia]]. by apply (answer_value (ok_trie _ _ _ _ A)).
  - destruct (leaf_made B M s key 0 HR Hleg) as (ka & s1 & Hr & (V & m & A & Ht & ->) & Hk & Hx & _).
    rewrite (cbind_Ok _ _ _ _ _ Hr). destruct (Tree_remove_run B V m s1 t ka key 1 A HB Ht Hk) as (s' & V' & Hi & Hp); [lia|].
    exists s'. rewrite (cbind_Ok _ _ _ _ _ Hi). split; [done|]. apply (post_represents _ _ _ _ _ _ Hp) in Ht.
    unfold values in Ht. by rewrite omap_delete in Ht.
Qed.

Lemma run_ops_refines ops : forall B M s,
  represents B M s -> legal_ops M ops -> 0 <= B -> B + Z.of_nat (length ops) < 2 ^ 60 - 2 ->
  exists s', run_ops t ops s = Ok (spec_ops ops M, s') /\ represents (B + Z.of_nat (length ops)) (spec_end ops M) s'.
Proof.
  induction ops as [|o ops IH]; intros B M s HR HL H0 HB.
  - exists s. cbn. rewrite Z.add_0_r. done.
  - cbn [run_ops spec_ops spec_end legal_ops length] in *. destruct HL as [Ho HL].
    destruct (run_op_refines B M s o HR Ho) as (s1 & Hr & HR1); [unfold version_ok; lia|]. rewrite (cbind_Ok _ _ _ _ _ Hr).
    destruct (IH (B + 1) _ s1 HR1 HL) as (s' & Hrs & HR2); [lia|lia|]. exists s'. rewrite (cbind_Ok _ _ _ _ _ Hrs). split; [done|].
    by replace (B + Z.of_nat (S (length ops))) with (B + 1 + Z.of_nat (length ops)) by lia.
Qed.

End refinement.

(** Memory before the tree is made. *)
Definition art_start : art := mkArt ∅ ∅ 0 (mkEpoche 0 ∅ 0 []) [] [].

(** The state after a sequence of operations on a fresh tree. *)
Lemma fresh_run `{!Allocator} (init : Z) (t : nat) (ops : list op) :
  legal_ops ∅ ops -> Z.of_nat (length ops) < 2 ^ 60 - 3 ->
  exists s', (Tree_new;; getThreadInfo init t;; run_ops t ops) art_start = Ok (spec_ops ops ∅, s') /\
    represents t (1 + Z.of_nat (length ops)) (spec_end ops ∅) s'.
Proof.
  intros HL Hn. destruct (Tree_new_run ∅ art_start) as (s1 & V & H1 & A1 & HK & Hd); [done|done|].
  destruct (getThreadInfo_run 1 V ∅ s1 init t A1) as (s2 & H2 & A2 & HK2 & Ht); [by rewrite Hd|].
  rewrite (cbind_Ok _ _ _ _ _ H1), (cbind_Ok _ _ _ _ _ H2). apply (run_ops_refines t ops 1); [|done|lia|lia].
  exists V, ∅. done.
Qed.

(** C5: P-ART implements a map. On a fresh tree, any sequence of insertions, lookups and
    removals (each key a new leaf) returns what the same operations on a map from byte strings
    to values return, for keys such that no inserted key is a prefix of a present one or
    conversely, and no key looked up is a proper prefix of a present one; up to [2^60 - 4]
    operations, the room of the version counters. *)
Theorem art_refines_map `{!Allocator} (init : Z) (t : nat) (ops : list op) :
  legal_ops ∅ ops -> Z.of_nat (length ops) < 2 ^ 60 - 3 ->
  exists s', (Tree_new;; getThreadInfo init t;; run_ops t ops) art_start = Ok (spec_ops ops ∅, s').
Proof. intros HL Hn. destruct (fresh_run init t ops HL Hn) as (s' & Hs & _). by exists s'. Qed.

(** ** An allocator

    The next address after the ones in use. *)
Definition next_addr (h : gset Z) : Z := 64 * (1 + foldr Z.max 0 (elements h)).

Lemma next_addr_bound l x : x ∈ l -> x <= foldr Z.max 0 l.
Proof. induction 1; cbn; lia. Qed.

Lemma next_addr_pos l : 0 <= foldr Z.max 0 l.
Proof. induction l; cbn; lia. Qed.

Lemma next_addr_fresh h : next_addr h ∉ h.
Proof.
  intros Hin. apply elem_of_elements in Hin. apply next_addr_bound in Hin. pose proof (next_addr_pos (elements h)).
  unfold next_addr in Hin. lia.
Qed.

Lemma next_addr_aligned h : 0 < next_addr h /\ next_addr h mod 16 = 0 /\ next_addr h mod 64 = 0.
Proof.
  pose proof (next_addr_pos (elements h)). unfold next_addr. set (x := 1 + _). split_and!; [lia| |].
  - replace (64 * x) with (4 * x * 16) by lia. by apply Z.mod_mul.
  - rewrite Z.mul_comm. by apply Z.mod_mul.
Qed.

Lemma zeros_bytes n : Forall (fun b => 0 <= b < 256) (replicate n 0).
Proof. apply list.Forall_forall. intros x [-> _]%elem_of_replicate. lia. Qed.

#[export] Instance bump : Allocator := {|
  new_addr := fun h _ => next_addr h;
  memalign_addr := fun h _ => next_addr h;
  junk := fun _ n => replicate n 0;
  new_addr_fresh := fun h _ => next_addr_fresh h;
  new_addr_aligned := fun h _ => conj (proj1 (next_addr_aligned h)) (proj1 (proj2 (next_addr_aligned h)));
  memalign_addr_fresh := fun h _ => next_addr_fresh h;
  memalign_addr_aligned := fun h _ => conj (proj1 (next_addr_aligned h)) (proj2 (proj2 (next_addr_aligned h)));
  junk_length := fun _ n => length_replicate n 0;
  junk_bytes := fun _ n => zeros_bytes n |}.

(** A key ends, another one is removed and looked up again. *)
Definition ops1 : list op := [Put [0; 0; 1] 7; Put [0; 0; 2] 8; Get [0; 0; 1]; Del [0; 0; 1]; Get [0; 0; 1]; Get [0; 0; 2]].

Lemma ops1_legal : legal_ops ∅ ops1.
Proof.
  assert (Hk : forall b, byte b -> valid_key [0; 0; b]).
  { intros b Hb. split; [|cbn; lia]. repeat (apply list.Forall_cons; split; [unfold byte in *; lia|]). by apply list.Forall_nil. }
  assert (Hp : forall (M : gmap (list Z) Z) b, (forall bs v, M !! bs = Some v -> length bs = 3%nat) -> not_extended M [0; 0; b] /\ (M !! [0; 0; b] = None -> insertable M [0; 0; b])).
  { intros M b HM. destruct (fixed_length_legal M [0; 0; b] 3 HM eq_refl) as [H1 H2]. split; [done|]. intros H. apply H2; [lia|done]. }
  set (M1 := <[[0; 0; 1] := 7]> (∅ : gmap (list Z) Z)). set (M2 := <[[0; 0; 2] := 8]> M1). set (M3 := delete [0; 0; 1] M2).
  assert (HM1 : forall bs v, M1 !! bs = Some v -> length bs = 3%nat) by (intros bs v [[<- _]|[_ ?]]%lookup_insert_Some; done).
  assert (HM2 : forall bs v, M2 !! bs = Some v -> length bs = 3%nat) by (intros bs v [[<- _]|[_ ?]]%lookup_insert_Some; [done|by eapply HM1]).
  assert (HM3 : forall bs v, M3 !! bs = Some v -> length bs = 3%nat) by (intros bs v [_ ?]%lookup_delete_Some; by eapply HM2).
  unfold ops1. cbn [legal_ops legal spec_op snd]. fold M1 M2 M3. unfold byte in *.
  split_and!; try (apply Hk; lia); try (apply Hp; done). done.
Qed.

Lemma art_refines_map_witness :
  exists s', (Tree_new;; getThreadInfo 0 0;; run_ops 0 ops1) art_start = Ok ([None; None; Some 7; None; None; Some 8], s').
Proof. exact (art_refines_map 0 0 ops1 ops1_legal ltac:(vm_compute; reflexivity)). Defined.
