(* ===== verification/ArtError.v ===== *)
(** * P-ART: keys the tree cannot take

    A key that is already in the tree sends [insert] past the end of the keys, and a proper prefix
    of a key in the tree is taken for that key by [lookup]. *)

From S2P Require Import Prelude ArtNode ArtSlots ArtLayout ArtClass Epoche ArtTree.
From S2P Require Import ArtTrie ArtTrieUpd ArtRep ArtPrefix ArtState ArtGrow ArtInsert ArtRemove ArtSpec.
#[local] Open Scope Z_scope.
#[local] Open Scope cmd_scope.

(** ** A key that is already there *)

(** Two copies of a key never differ. *)
Lemma common_prefix_same {K} ka kb bs h r ep hs li L : key_ok K ka bs -> key_ok K kb bs -> forall fuel i,
  (length bs < fuel + (L + i))%nat -> (L + i <= length bs)%nat ->
  common_prefix fuel kb ka (Z.of_nat L) (Z.of_nat i) (mkArt h K r ep hs li) = Err UB_access.
Proof.
  intros Hk Hk' fuel. induction fuel as [|fuel IH]; intros i Hf Hi; [lia|]. pose proof (key_short Hk). cbn [common_prefix].
  rewrite u32_small by lia. replace (Z.of_nat L + Z.of_nat i) with (Z.of_nat (L + i)) by lia.
  destruct (bs !! (L + i)%nat) as [y|] eqn:Ey.
  - rewrite (cbind_Ok _ _ _ _ _ (key_byte_run Hk' h r ep hs li _ _ Ey)), (cbind_Ok _ _ _ _ _ (key_byte_run Hk h r ep hs li _ _ Ey)).
    pose proof (lookup_lt_Some _ _ _ Ey). rewrite Z.eqb_refl, u32_small by lia. replace (Z.of_nat i + 1) with (Z.of_nat (S i)) by lia. apply IH; lia.
  - apply cbind_Err. apply lookup_ge_None in Ey. by apply (key_byte_end Hk').
Qed.

Section duplicate.
Context `{!Allocator} {K : gmap Z Key} {r : Z} {V : trie} {m : gmap (list Z) Z} {B : Z} {h : gmap Z NodeN} {ep : Epoche}.
Context {hs : list (gmap Z NodeN)} {li : list Z}.
Context (A : art_ok B V m (mkArt h K r ep hs li)).
Context {ka kb : Z} {bs : list Z} (Hk : key_ok K ka bs) (Hm : m !! bs = Some kb).

Local Abbreviation s0 := (mkArt h K r ep hs li).

Lemma insert_leaf_same a an n v b p :
  V !! a = Some an -> h !! a = Some n -> node_ok n an (a = r) v -> an_ch an !! b = Some p -> getLeaf p = kb ->
  (an_path an ++ [b]) `prefix_of` bs ->
  exists e, insert_leaf ka a (typeVersionLockObsolete n) (Z.of_nat (length (an_path an))) p s0 = Err e /\ (e = UB_access \/ e = AssertFail).
Proof.
  intros Ha Hh Hn Hb Hp Hpre. destruct (tr_map _ _ _ _ (ok_trie _ _ _ _ A) _ _ Hm) as [Hkb _]. cbn in Hkb. pose proof (key_short Hk) as Hks.
  pose proof (prefix_length _ _ Hpre) as Hlen. rewrite length_app in Hlen. cbn in Hlen. unfold insert_leaf.
  rewrite (cbind_Ok _ _ _ _ _ (at_node_quiet _ _ _ _ _ _ _ _ _ _ _ Hh (lock_run n v (ok_word Hn) (ok_version Hn) []))). cbv iota zeta.
  rewrite Hp, u32_small by lia. rewrite (cbind_Ok _ _ _ _ _ (getKeyLen_run Hkb _ r ep hs li)).
  destruct (Z.ltb_spec (Z.of_nat (length (an_path an)) + 1) (Z.of_nat (length bs))).
  - rewrite (cbind_Ok (cassert _) _ _ tt (mkArt (<[a := locked n]> h) K r ep hs li)) by done. eexists. split; [apply cbind_Err|by left].
    replace (Z.of_nat (length (an_path an)) + 1) with (Z.of_nat (S (length (an_path an)))) by lia. change 0 with (Z.of_nat 0).
    apply (common_prefix_same ka kb bs); try done; lia.
  - eexists. split; [by apply cbind_Err|by right].
Qed.

Lemma insert_loop_same t fuel : forall a an pa pk,
  V !! a = Some an -> an_path an `prefix_of` bs -> (length bs < fuel + an_base an)%nat ->
  exists e, insert_loop fuel ka t pa pk a (Z.of_nat (an_base an)) s0 = Err e /\ (e = UB_access \/ e = AssertFail).
Proof.
  pose proof (ok_trie _ _ _ _ A) as T. cbn in T. induction fuel as [|fuel IH]; intros a an pa pk Ha Hpre Hf;
    pose proof (key_longer T a an bs kb Ha Hm Hpre) as Hlt; pose proof (base_le T a an Ha) as Hble; [lia|].
  destruct (ok_nodes _ _ _ _ A a an Ha) as (n & v & Hh & Hn & Hv). cbn in Hh, Hn. cbn [insert_loop].
  rewrite (cbind_Ok _ _ _ _ _ (at_node_read a getVersion h K r ep hs li n _ Hh eq_refl)). cbn [self].
  destruct (checkPrefixPessimistic_run T (ok_nodes _ _ _ _ A) Hk (fun bs' ka' E Hp => eq_sym (keys_prefix_free T _ _ _ _ Hm E Hp)) ep hs li a an Ha)
    as (res & Hr & Hc); [by transitivity (an_path an); [apply prefix_take|]|].
  cbn [nodes] in Hr. rewrite (cbind_Ok _ _ _ _ _ Hr). destruct Hc as [[-> _]|(_ & l & x & rem & _ & _ & (_ & Hx & (y & Hy & Hne) & _))].
  2: { pose proof (lookup_lt_Some _ _ _ Hx) as Hl. rewrite (prefix_lookup_eq _ _ _ Hpre Hl) in Hy. congruence. }
  destruct (lookup_lt_is_Some_2 bs _ Hlt) as (b & Hb). pose proof (key_short Hk) as Hks.
  assert (Hpb : (an_path an ++ [b]) `prefix_of` bs) by (by apply prefix_snoc_lookup).
  rewrite (cbind_Ok _ _ _ _ _ (getKeyLen_run Hk h r ep hs li)). rewrite (proj2 (Z.ltb_lt _ _)) by lia.
  rewrite (cbind_Ok (cassert _) _ _ tt s0) by done. rewrite (cbind_Ok _ _ _ _ _ (key_byte_run Hk h r ep hs li _ _ Hb)).
  rewrite (cbind_Ok _ _ _ _ _ (getChild_run h ep hs li a n an (an_base an) b Hh (ok_read Hn) (key_bound Hk _ _ Hb))).
  destruct (key_place T a an b bs kb Ha Hpb Hm) as (p & Hch & Hcase). rewrite Hch. cbn [default from_option id].
  destruct Hcase as [->|(cn & Hcn & Hlf & Hpc)].
  - rewrite setLeaf_leaf, (proj2 (Z.eqb_neq _ 0)) by apply leaf_nonzero. apply (insert_leaf_same a an n v b); try done.
    apply getLeaf_setLeaf. apply (tr_map _ _ _ _ T) in Hm as [(_ & _ & _ & _ & ?) _]. done.
  - pose proof (tr_addr _ _ _ _ T _ _ Hcn) as [Hp0 _]. rewrite Hlf, (proj2 (Z.eqb_neq p 0)), u32_small by lia.
    destruct (edge_node T _ _ _ _ _ Ha Hch Hcn) as [Hbase _].
    replace (Z.of_nat (length (an_path an)) + 1) with (Z.of_nat (an_base cn)) by lia. apply IH; try done; lia.
Qed.

End duplicate.

Lemma Tree_insert_same `{!Allocator} B V m s t tries ka kb bs :
  art_ok B V m s -> key_ok (keys s) ka bs -> m !! bs = Some kb -> is_Some (deletionLists (epoche s) !! t) -> (0 < tries)%nat ->
  exists e, Tree_insert tries ka t s = Err e /\ (e = UB_access \/ e = AssertFail).
Proof.
  intros A Hk Hm Ht Htr. destruct s as [h K r ep hs li]. cbn [keys epoche] in *.
  unfold Tree_insert. rewrite (cbind_Ok art_clflush _ _ tt (mkArt h K r ep (hs ++ [h]) li)) by done.
  assert (A1 : art_ok B V m (mkArt h K r ep (hs ++ [h]) li)) by (destruct A; by split).
  destruct (enter_run A1 Ht) as (ep1 & He & A2 & _ & _). rewrite (cbind_Ok _ _ _ _ _ He).
  rewrite (cbind_Ok _ _ _ _ _ (getKeyLen_run Hk h r ep1 _ li)), (cbind_Ok (cgets root) _ _ r _) by done. rewrite Nat2Z.id.
  destruct (tr_root _ _ _ _ (ok_trie _ _ _ _ A)) as (rn & Hr & Hp & Hb). cbn in Hr.
  destruct (insert_loop_same A2 Hk Hm t (S (length bs)) r rn 0 0 Hr) as (e & Hrun & He'); [rewrite Hp; apply prefix_nil|lia|].
  rewrite Hb in Hrun. exists e. split; [|done]. apply cbind_Err. destruct tries as [|tries]; [lia|]. cbn [attempts]. by apply cbind_Err.
Qed.

(** [insert] has no answer for a key that is already in the tree. After any
    sequence of operations, inserting a key that is present reads past the end of both copies of
    the key, or fails the assertion that there is a further byte. *)
Theorem insert_duplicate_fails `{!Allocator} (init : Z) (t : nat) (ops : list op) (key : list Z) (v : Z) :
  legal_ops ∅ ops -> Z.of_nat (length ops) < 2 ^ 60 - 3 -> is_Some (spec_end ops ∅ !! key) ->
  exists s e, (Tree_new;; getThreadInfo init t;; run_ops t ops) art_start = Ok (spec_ops ops ∅, s) /\
    run_op t (Put key v) s = Err e /\ (e = UB_access \/ e = AssertFail).
Proof.
  intros HL Hn [v0 Hv0]. destruct (fresh_run init t ops HL Hn) as (s & Hs & HR). exists s.
  destruct HR as (V0 & m0 & A0 & Ht0 & E0).
  assert (Hvalid : valid_key key).
  { destruct (m0 !! key) as [kb|] eqn:Em; [|rewrite E0, (proj2 (values_None (ok_trie _ _ _ _ A0) key) Em) in Hv0; done].
    destruct (tr_map _ _ _ _ (ok_trie _ _ _ _ A0) _ _ Em) as [(_ & Hb & Hl & _) _]. by split. }
  destruct (leaf_made t _ _ s key v ltac:(by exists V0, m0) Hvalid) as (ka & s1 & Hr & (V & m & A & Ht & E) & Hk & _).
  destruct (m !! key) as [kb|] eqn:Em; [|rewrite E, (proj2 (values_None (ok_trie _ _ _ _ A) key) Em) in Hv0; done].
  destruct (Tree_insert_same _ V m s1 t 1 ka kb key A Hk Em Ht ltac:(lia)) as (e & Hi & He). exists e. split; [done|]. split; [|done].
  cbn [run_op]. rewrite (cbind_Ok _ _ _ _ _ Hr). by apply cbind_Err.
Qed.

Lemma insert_duplicate_fails_witness :
  exists s e, (Tree_new;; getThreadInfo 0 0;; run_ops 0 ops1) art_start = Ok ([None; None; Some 7; None; None; Some 8], s) /\
    run_op 0 (Put [0; 0; 2] 9) s = Err e /\ (e = UB_access \/ e = AssertFail).
Proof. exact (insert_duplicate_fails 0 0 ops1 [0; 0; 2] 9 ops1_legal ltac:(vm_compute; reflexivity) ltac:(by eexists)). Defined.

(** ** A proper prefix of a key *)

(** [lookup] does not compare the key when it ends with the last byte that was
    used on the way: with only the key 1 2 3 in the tree, the key 1 is answered with its value. *)
Theorem lookup_prefix_wrong :
  exists s, (Tree_new;; getThreadInfo 0 0;; run_ops 0 [Put [1; 2; 3] 7; Get [1]]) art_start = Ok ([None; Some 7], s) /\
    spec_ops [Put [1; 2; 3] 7; Get [1]] ∅ = [None; None].
Proof. eexists. split; [vm_compute; reflexivity|reflexivity]. Qed.
