(* ===== verification/ArtCrash.v ===== *)
(** * P-ART: what a crash leaves

    A crash at a fence leaves the nodes as they are then. The tree is used again as it is: what
    an operation was doing shows as its whole effect or not at all, and a prefix that does not
    fit the position of its node is skipped by [lookup]. The latter goes wrong for long
    prefixes. *)

From S2P Require Import Prelude ArtNode ArtSlots ArtLayout ArtClass Epoche ArtTree.
From S2P Require Import ArtTrie ArtTrieUpd ArtRep ArtPrefix ArtState ArtGrow ArtInsert ArtRemove ArtSpec.
#[local] Open Scope Z_scope.
#[local] Open Scope cmd_scope.

(** The tree that is found after a crash: the nodes [h], the leaves, and new epochs. *)
Definition restarted (h : gmap Z NodeN) (s : art) : art := mkArt h (keys s) (root s) (mkEpoche 0 ∅ 256 []) [] (lock_initializer s).




Section crash.
Context `{!Allocator}.





End crash.





(** ** A split with a long prefix *)

(** The keys 1 and 2 of eight bytes are in the tree, and 256 is being inserted. *)
Definition eight (x : Z) : list Z := bswap64_bytes x.

Definition split_ops : list op := [Put (eight 1) 10; Put (eight 2) 20].

(** C37: The keys of the benchmarks have eight bytes. With the keys 1 and 2 in the tree, a crash in
    the insertion of 256, after the new node has been linked and before the prefix of the old
    one has been shortened, loses the keys 1 and 2: their lookups return NULL. *)
Theorem split_crash_loses_keys :
  exists s s' h, (Tree_new;; getThreadInfo 0 0;; run_ops 0 split_ops) art_start = Ok ([None; None], s) /\
    run_op 0 (Put (eight 256) 30) s = Ok (None, s') /\ hist s' !! (length (hist s) + 2)%nat = Some h /\
    exists s'', (getThreadInfo 0 0;; run_ops 0 [Get (eight 1); Get (eight 2); Get (eight 256)]) (restarted h s') = Ok ([None; None; Some 30], s'').
Proof.
  do 3 eexists. split; [vm_compute; reflexivity|]. split; [vm_compute; reflexivity|]. split; [vm_compute; reflexivity|].
  eexists. vm_compute. reflexivity.
Qed.
