(* ===== verification/ArtExample.v ===== *)
(** * P-ART: integer keys and the example program

    [make_leaf] for integers stores the bytes of the key with the most significant one first, so
    that the order of the keys as byte strings is the order of the integers.
    [src/RECIPE/P-ART/example.cpp] inserts the keys 1 to n and looks them up. *)

From S2P Require Import Prelude ArtNode ArtSlots Epoche ArtTree ArtTrie ArtRep ArtState ArtInsert ArtSpec.
#[local] Open Scope Z_scope.
#[local] Open Scope cmd_scope.

(** ** Integer keys *)

(** The number a list of bytes stands for, the most significant one first. *)
Definition from_bytes (bs : list Z) : Z := foldl (fun acc b => 256 * acc + b) 0 bs.

Lemma byte_land x : Z.land x 255 = x mod 256.
Proof. change 255 with (Z.ones 8). rewrite Z.land_ones by lia. done. Qed.

Lemma bswap64_eq x : bswap64_bytes x = (fun i => (x / 2 ^ (8 * i)) mod 256) <$> [7; 6; 5; 4; 3; 2; 1; 0].
Proof. unfold bswap64_bytes. apply list_fmap_ext. intros j i Hi. rewrite byte_land, Z.shiftr_div_pow2; [done|]. apply list_elem_of_lookup_2 in Hi. set_unfold. lia. Qed.

Lemma bswap64_length x : length (bswap64_bytes x) = 8%nat.
Proof. done. Qed.

Lemma bswap64_valid x : valid_key (bswap64_bytes x).
Proof.
  split; [|cbn; lia]. rewrite bswap64_eq. apply list.Forall_fmap, list.Forall_forall. intros i _. cbn. unfold byte. apply Z.mod_pos_bound. lia.
Qed.

Lemma from_bswap64 x : 0 <= x < 2 ^ 64 -> from_bytes (bswap64_bytes x) = x.
Proof.
  intros Hx. rewrite bswap64_eq. cbn [fmap list_fmap]. unfold from_bytes. cbn [foldl].
  assert (Hstep : forall k k', 0 <= k -> k' = k + 1 -> 256 * (x / 2 ^ (8 * k')) + (x / 2 ^ (8 * k)) mod 256 = x / 2 ^ (8 * k)).
  { intros k k' Hk ->. replace (8 * (k + 1)) with (8 * k + 8) by lia. rewrite Z.pow_add_r, <- Z.div_div by lia. change (2 ^ 8) with 256.
    symmetry. apply Z.div_mod. lia. }
  assert (H7 : 256 * 0 + (x / 2 ^ (8 * 7)) mod 256 = x / 2 ^ (8 * 7)).
  { rewrite Z.mod_small; [lia|]. split; [apply Z.div_pos; lia|]. apply Z.div_lt_upper_bound; lia. }
  rewrite H7. rewrite (Hstep 6 7), (Hstep 5 6), (Hstep 4 5), (Hstep 3 4), (Hstep 2 3), (Hstep 1 2), (Hstep 0 1) by lia. apply Z.div_1_r.
Qed.

Lemma bswap64_inj x y : 0 <= x < 2 ^ 64 -> 0 <= y < 2 ^ 64 -> bswap64_bytes x = bswap64_bytes y -> x = y.
Proof. intros Hx Hy E. rewrite <- (from_bswap64 x), <- (from_bswap64 y), E by done. done. Qed.

(** The lexicographic order, as [memcmp] and the tree have it. *)
Fixpoint lex (l1 l2 : list Z) : bool :=
  match l1, l2 with
  | a :: l1', b :: l2' => (a <? b) || ((a =? b) && lex l1' l2')
  | [], _ :: _ => true
  | _, [] => false
  end.

Lemma from_bytes_acc l : forall acc,
  foldl (fun acc b => 256 * acc + b) acc l = acc * 256 ^ Z.of_nat (length l) + from_bytes l.
Proof.
  unfold from_bytes. induction l as [|x l IH]; intros acc; cbn [foldl length]; [lia|].
  rewrite (IH (256 * acc + x)), (IH (256 * 0 + x)). rewrite Nat2Z.inj_succ, Z.pow_succ_r by lia. lia.
Qed.

Lemma from_bytes_cons b l : from_bytes (b :: l) = b * 256 ^ Z.of_nat (length l) + from_bytes l.
Proof. unfold from_bytes at 1. cbn [foldl]. rewrite from_bytes_acc. f_equal. Qed.

Lemma from_bytes_bound l : Forall byte l -> 0 <= from_bytes l < 256 ^ Z.of_nat (length l).
Proof.
  induction l as [|b l IH]; intros Hf; [cbn; lia|]. apply list.Forall_cons in Hf as [Hb Hf]. specialize (IH Hf). unfold byte in Hb.
  rewrite from_bytes_cons. cbn [length]. rewrite Nat2Z.inj_succ, Z.pow_succ_r by lia. nia.
Qed.

Lemma lex_from_bytes l1 : forall l2, length l1 = length l2 -> Forall byte l1 -> Forall byte l2 -> lex l1 l2 = (from_bytes l1 <? from_bytes l2).
Proof.
  induction l1 as [|a l1 IH]; intros [|b l2] Hl H1 H2; try done. apply list.Forall_cons in H1 as [Ha H1], H2 as [Hb H2]. injection Hl as Hl.
  cbn [lex]. rewrite (IH l2 Hl H1 H2), !from_bytes_cons, Hl. pose proof (from_bytes_bound l1 H1) as B1. pose proof (from_bytes_bound l2 H2) as B2.
  rewrite Hl in B1. set (P := 256 ^ Z.of_nat (length l2)) in *. destruct (Z.ltb_spec a b); cbn [orb].
  - symmetry. apply Z.ltb_lt. nia.
  - destruct (Z.eqb_spec a b) as [->|]; cbn [andb].
    + destruct (Z.ltb_spec (from_bytes l1) (from_bytes l2)); symmetry; [apply Z.ltb_lt|apply Z.ltb_ge]; lia.
    + symmetry. apply Z.ltb_ge. nia.
Qed.

(** The leaves of integer keys are ordered as the integers: comparing the bytes
    [make_leaf] stores, from the first one on, compares the integers. *)
Theorem make_leaf_u64_order `{!Allocator} (x y v w : Z) (s : art) :
  0 <= x < 2 ^ 64 -> 0 <= y < 2 ^ 64 ->
  exists a b s' s'' kx ky, make_leaf_u64 x 8 v s = Ok (a, s') /\ make_leaf_u64 y 8 w s' = Ok (b, s'') /\
    keys s'' !! a = Some kx /\ keys s'' !! b = Some ky /\ a <> b /\
    from_bytes (fkey kx) = x /\ lex (fkey kx) (fkey ky) = (x <? y).
Proof.
  intros Hx Hy. unfold make_leaf_u64. change (8 <=? 8) with true. cbv iota.
  set (a := memalign_addr (dom (keys s)) _). set (kx := mkKey v 8 (bswap64_bytes x ++ junk (a + 24) (Z.to_nat (8 - 8)))).
  set (s' := set_keys s _). set (b := memalign_addr (dom (keys s')) (sizeof_Key + 8)). set (ky := mkKey w 8 (bswap64_bytes y ++ junk (b + 24) (Z.to_nat (8 - 8)))).
  assert (Hab : a <> b).
  { intros E. apply (memalign_addr_fresh (dom (keys s')) (sizeof_Key + 8)). change (b ∈ dom (keys s')). rewrite <- E.
    unfold s', set_keys. cbn [keys]. apply elem_of_dom. rewrite lookup_insert_eq. by eexists. }
  assert (Hj : forall c, junk c (Z.to_nat (8 - 8)) = []) by (intros c; apply nil_length_inv; rewrite junk_length; done).
  exists a, b, s'. eexists. exists kx, ky. split; [reflexivity|]. split; [reflexivity|]. cbn [set_keys keys].
  rewrite lookup_insert_ne, lookup_insert_eq by done. split; [unfold s', set_keys; cbn [keys]; apply lookup_insert_eq|]. split; [done|]. split; [done|].
  unfold kx, ky. cbn [fkey]. rewrite !Hj, !app_nil_r. split; [by apply from_bswap64|].
  rewrite lex_from_bytes; [by rewrite !from_bswap64|done|apply bswap64_valid|apply bswap64_valid].
Qed.

Lemma make_leaf_u64_order_witness :
  exists a b s' s'' kx ky, make_leaf_u64 3 8 0 art_start = Ok (a, s') /\ make_leaf_u64 256 8 0 s' = Ok (b, s'') /\
    keys s'' !! a = Some kx /\ keys s'' !! b = Some ky /\ a <> b /\
    from_bytes (fkey kx) = 3 /\ lex (fkey kx) (fkey ky) = true.
Proof. apply (make_leaf_u64_order 3 256 0 0 art_start); lia. Defined.

(** ** The example program *)

Section example.
Context `{!Allocator} (t : nat).

(** The first loop, on a range that one thread takes: [Keys\[i\]] is the result for each key. *)
Fixpoint example_build (ks : list Z) : stM art (list Z) :=
  match ks with
  | [] => cret []
  | key :: ks' =>
      k <- make_leaf_u64 key 8 key;
      Tree_insert 1 k t;;
      rest <- example_build ks';
      cret (k :: rest)
  end.

(** The second loop: a value that is not the key ends the program. *)
Definition example_lookup (ks : list (Z * Z)) : stM art unit :=
  cfor ks (fun x =>
    ret <- Tree_lookup x.2 t;
    val <- load_value ret;
    match val with
    | None => cfail UB_access
    | Some v => if v =? x.1 then cret tt else cfail AssertFail
    end).

Definition example_run (init n : Z) : stM art unit :=
  let keys := seqZ 1 n in
  Tree_new;;
  getThreadInfo init t;;
  Keys <- example_build keys;
  on_epoche (ThreadInfo_delete t);;
  getThreadInfo init t;;
  example_lookup (zip keys Keys);;
  on_epoche (ThreadInfo_delete t).

(** The keys below [j] are in the tree, as [Keys]. *)
Definition built (B : Z) (done : list (Z * Z)) (s : art) : Prop :=
  exists V m, art_ok B V m s /\ is_Some (deletionLists (epoche s) !! t) /\
    (forall bs ka, m !! bs = Some ka <-> exists x, (x, ka) ∈ done /\ bs = bswap64_bytes x) /\
    (forall x ka, (x, ka) ∈ done -> 0 <= x < 2 ^ 64 /\ key_ok (keys s) ka (bswap64_bytes x) /\ exists k, keys s !! ka = Some k /\ value k = x).

Lemma make_leaf_u64_eq x v s : make_leaf_u64 x 8 v s = make_leaf (bswap64_bytes x) 8 v s.
Proof.
  unfold make_leaf_u64, make_leaf. change (8 <=? 8) with true. rewrite bswap64_length. change (0 <=? 8) with true.
  change (8 <=? Z.of_nat 8) with true. cbn [andb]. do 4 f_equal.
  rewrite (nil_length_inv (junk _ _)); [by rewrite app_nil_r|]. by rewrite junk_length.
Qed.

Lemma built_absent B (done : list (Z * Z)) s V m x :
  art_ok B V m s -> (forall bs ka, m !! bs = Some ka <-> exists x, (x, ka) ∈ done /\ bs = bswap64_bytes x) ->
  (forall y ka, (y, ka) ∈ done -> 0 <= y < 2 ^ 64 /\ y <> x) -> 0 <= x < 2 ^ 64 -> insertable m (bswap64_bytes x).
Proof.
  intros A Hm Hd Hx. apply (fixed_length_legal m (bswap64_bytes x) 8).
  - intros bs v (y & _ & ->)%Hm. done.
  - done.
  - lia.
  - destruct (m !! bswap64_bytes x) as [kb|] eqn:E; [|done]. exfalso. apply Hm in E as (y & Hy & E). destruct (Hd _ _ Hy) as [Hy1 Hy2].
    apply Hy2. symmetry. by apply bswap64_inj.
Qed.

Lemma build_step B done s x :
  built B done s -> version_ok (B + 1) -> 0 <= x < 2 ^ 64 -> (forall y ka, (y, ka) ∈ done -> y <> x) ->
  exists k s1 s', make_leaf_u64 x 8 x s = Ok (k, s1) /\ Tree_insert 1 k t s1 = Ok (tt, s') /\ built (B + 1) ((x, k) :: done) s'.
Proof.
  intros (V & m & A & Ht & Hm & Hd) HB Hx Hne. rewrite make_leaf_u64_eq.
  destruct (make_leaf_run (bswap64_bytes x) x s (bswap64_valid x)) as (ka & Hr & HN & Hk). rewrite bswap64_length in Hr, Hk.
  set (s1 := set_keys s _) in Hr. pose proof (art_ok_keys B V m s ka (mkKey x 8 (bswap64_bytes x)) HN A) as A1. fold s1 in A1.
  assert (Hins : insertable m (bswap64_bytes x)).
  { apply (built_absent B done s V m x A Hm); [|done]. intros y kb Hy. split; [apply (Hd y kb Hy)|by apply (Hne y kb)]. }
  destruct (Tree_insert_run B V m s1 t ka (bswap64_bytes x) 1 A1 HB Ht Hk Hins) as (s' & V' & Hi & (A2 & HK & _ & Hdm & _)); [lia|].
  exists ka, s1, s'. split; [done|]. split; [done|]. exists V', (<[bswap64_bytes x := ka]> m). rewrite HK. split; [done|].
  split; [apply elem_of_dom; rewrite Hdm; by apply elem_of_dom|]. split.
  - intros bs kb. split.
    + intros [[<- <-]|[Hb E]]%lookup_insert_Some; [exists x; split; [left|done]|]. apply Hm in E as (y & Hy & ->). exists y. split; [by right|done].
    + intros (y & [Hy|Hy]%elem_of_cons & ->).
      * injection Hy as -> ->. apply lookup_insert_eq.
      * rewrite lookup_insert_ne; [apply Hm; by exists y|]. intros E. apply (Hne y kb Hy). symmetry. apply bswap64_inj; [done|by apply (Hd y kb)|done].
  - intros y kb [Hy|Hy]%elem_of_cons.
    + injection Hy as -> ->. split; [done|]. split; [done|]. exists (mkKey x 8 (bswap64_bytes x)). split; [apply lookup_insert_eq|done].
    + destruct (Hd y kb Hy) as (H1 & H2 & k & H3 & H4). assert (kb <> ka) by congruence. split; [done|]. unfold s1, set_keys. cbn [keys]. split.
      * apply (key_ok_mono (keys s)); [by apply insert_subseteq|done].
      * exists k. by rewrite lookup_insert_ne.
Qed.

Lemma build_run ks : forall B done s,
  built B done s -> 0 <= B -> B + Z.of_nat (length ks) < 2 ^ 60 - 2 -> NoDup ks -> (forall x, x ∈ ks -> 0 <= x < 2 ^ 64) ->
  (forall x ka, (x, ka) ∈ done -> x ∉ ks) ->
  exists Ks s', example_build ks s = Ok (Ks, s') /\ length Ks = length ks /\
    exists done', built (B + Z.of_nat (length ks)) done' s' /\ (forall x k, (x, k) ∈ zip ks Ks -> (x, k) ∈ done') /\ (forall p, p ∈ done -> p ∈ done').
Proof.
  induction ks as [|x ks IH]; intros B done s Hb H0 HB Hnd Hr Hdis.
  - exists [], s. split; [done|]. split; [done|]. exists done. cbn. rewrite Z.add_0_r. split; [done|]. split; [|done]. intros x k Hin. by apply elem_of_nil in Hin.
  - apply list.NoDup_cons in Hnd as [Hx Hnd]. cbn [length] in HB.
    destruct (build_step B done s x Hb) as (k & s1 & s2 & H1 & H2 & Hb2); [unfold version_ok; lia|apply Hr; left|intros y ka Hy ->; apply (Hdis _ _ Hy); left|].
    destruct (IH (B + 1) ((x, k) :: done) s2 Hb2) as (Ks & s' & H3 & Hl & done' & Hb' & Hz & Hd'); [lia|lia|done|intros y Hy; apply Hr; by right| |].
    { intros y ka [Hy|Hy]%elem_of_cons; [by injection Hy as -> ->|]. intros Hin. apply (Hdis _ _ Hy). by right. }
    exists (k :: Ks), s'. cbn [example_build]. rewrite (cbind_Ok _ _ _ _ _ H1), (cbind_Ok _ _ _ _ _ H2), (cbind_Ok _ _ _ _ _ H3).
    split; [done|]. split; [cbn; lia|]. exists done'. cbn [length]. replace (B + Z.of_nat (S (length ks))) with (B + 1 + Z.of_nat (length ks)) by lia.
    split; [done|]. split; [|intros p Hp; apply Hd'; by right]. intros y ky [Hy|Hy]%elem_of_cons; [injection Hy as -> ->; apply Hd'; left|by apply Hz].
Qed.

Lemma lookup_all_run l : forall B done s,
  built B done s -> (forall x k, (x, k) ∈ l -> (x, k) ∈ done) ->
  exists s', example_lookup l s = Ok (tt, s') /\ built B done s'.
Proof.
  induction l as [|[x k] l IH]; intros B done s Hb Hin; [by exists s|]. unfold example_lookup in *. cbn [cfor].
  pose proof Hb as (V & m & A & Ht & Hm & Hd). destruct (Hd x k) as (Hx & Hk & kk & Hkk & Hv); [apply Hin; left|].
  destruct (Tree_lookup_run B V m s t k (bswap64_bytes x) A Ht Hk) as (ret & s1 & Hl & Hans & (A1 & HK & _ & Hdm & _)).
  unfold lookup_answer in Hans. rewrite (proj2 (Hm (bswap64_bytes x) k)) in Hans by (exists x; split; [apply Hin; left|done]). subst ret.
  rewrite cbind_assoc. cbn [fst snd]. rewrite (cbind_Ok _ _ _ _ _ Hl). rewrite cbind_assoc, (cbind_Ok (load_value k) _ _ (Some x) s1).
  2: { unfold load_value. rewrite HK, Hkk, Hv. destruct Hk as (_ & _ & _ & Hk0 & _). by rewrite (proj2 (Z.eqb_neq k 0)) by lia. }
  rewrite Z.eqb_refl. rewrite (cbind_Ok (cret tt) _ _ tt s1) by done. apply IH; [|intros y ky Hy; apply Hin; by right].
  exists V, m. rewrite HK. split; [done|]. split; [apply elem_of_dom; rewrite Hdm; by apply elem_of_dom|done].
Qed.

(** A thread ends, and another one (or the same) registers. *)
Lemma thread_end_run B done s :
  built B done s -> exists s', on_epoche (ThreadInfo_delete t) s = Ok (tt, s') /\ built B done s'.
Proof.
  intros (V & m & A & Ht & Hm & Hd). destruct s as [h K r ep hs li]. cbn [epoche keys] in *.
  destruct (ThreadInfo_delete_run t ep (ok_ep _ _ _ _ A) Ht) as (ep' & Hr & Hst).
  destruct (on_epoche_ok B V m _ h K r ep hs li ep' [] A Hr Hst) as (h' & Hr' & A'). eexists. split; [exact Hr'|].
  exists V, m. split; [done|]. split; [|done]. destruct Hst as (_ & E & _). cbn. apply elem_of_dom. rewrite E. by apply elem_of_dom.
Qed.

Lemma thread_again_run init B done s : built B done s -> getThreadInfo init t s = Ok (tt, s).
Proof.
  intros (V & m & A & [d Ht] & _). destruct s as [h K r ep hs li]. cbn [epoche] in *. apply on_epoche_quiet.
  - unfold ThreadInfo_new, cmod. by rewrite Ht.
  - by rewrite app_nil_r.
Qed.

End example.

(** The example program, run by one thread, finds every key it has inserted and ends without
    an error, whatever the number of keys (below [2^60 - 4], the room of the version counters). *)
Theorem example_run_finds_all `{!Allocator} (t : nat) (init n : Z) :
  0 <= n < 2 ^ 60 - 3 -> exists s, example_run t init n art_start = Ok (tt, s).
Proof.
  intros Hn. unfold example_run. destruct (Tree_new_run ∅ art_start) as (s1 & V & H1 & A1 & HK & Hd); [done|done|].
  destruct (getThreadInfo_run 1 V ∅ s1 init t A1) as (s2 & H2 & A2 & HK2 & Ht); [by rewrite Hd|].
  rewrite (cbind_Ok _ _ _ _ _ H1), (cbind_Ok _ _ _ _ _ H2).
  assert (Hb : built t 1 [] s2).
  { exists V, ∅. split; [done|]. split; [done|]. split; [|intros x ka Hin; by apply elem_of_nil in Hin].
    intros bs ka. split; [done|]. intros (x & Hin & _). by apply elem_of_nil in Hin. }
  destruct (build_run t (seqZ 1 n) 1 [] s2 Hb) as (Ks & s3 & H3 & _ & done' & Hb3 & Hz & _); try lia.
  - rewrite length_seqZ. lia.
  - apply NoDup_seqZ.
  - intros x Hx%elem_of_seqZ. lia.
  - intros x ka Hin. by apply elem_of_nil in Hin.
  - rewrite (cbind_Ok _ _ _ _ _ H3). destruct (thread_end_run t _ _ _ Hb3) as (s4 & H4 & Hb4). rewrite (cbind_Ok _ _ _ _ _ H4).
    rewrite (cbind_Ok _ _ _ _ _ (thread_again_run t init _ _ _ Hb4)). destruct (lookup_all_run t _ _ _ _ Hb4 Hz) as (s5 & H5 & Hb5).
    rewrite (cbind_Ok _ _ _ _ _ H5). destruct (thread_end_run t _ _ _ Hb5) as (s6 & H6 & _). by exists s6.
Qed.

Lemma example_run_finds_all_witness : exists s, example_run 0 0 300 art_start = Ok (tt, s).
Proof. apply (example_run_finds_all 0 0 300). lia. Defined.
