(* ===== verification/ArtRange.v ===== *)
(** * P-ART: range lookups

    [Tree::lookupRange], its local functions [copy], [findStart] and [findEnd], and the comparisons
    [checkPrefixCompare] and [checkPrefixEquals] of [src/RECIPE/P-ART/Tree.cpp]. *)

From S2P Require Import Prelude ArtNode Epoche ArtTree.
#[local] Open Scope Z_scope.
#[local] Open Scope cmd_scope.

(** The variables the local functions share: [result\[0 .. resultsFound - 1\]], [toContinue] (0 for
    NULL) and [restart]. *)
Record range := mkRange { found : list Z; toContinue : Z; restarted_ : bool }.

Definition resultsFound (rg : range) : Z := Z.of_nat (length (found rg)).
Definition more (rg : range) : bool := negb (toContinue rg =? 0).

(** ** Comparing a prefix *)

(** [(k->getKeyLen() > level) ? k->fkey\[level\] : d] *)
Definition byte_or (k level d : Z) : stM art Z :=
  kl <- getKeyLen k; if level <? kl then key_byte k level else cret d.

Inductive PCCompareResults := PC_Smaller | PC_Equal | PC_Bigger | PC_SkippedLevel.
Inductive PCEqualsResults := PE_BothMatch | PE_Contained | PE_NoMatch | PE_SkippedLevel.

(** The next byte of the prefix; the new [kt] comes with it. *)
Definition prefix_or_leaf (n : Z) (p : Prefix) (i level kt : Z) : stM art (Z * Z) :=
  kt <- (if i =? maxStoredPrefixLength then getAnyChildTid n else cret kt);
  b <- (if maxStoredPrefixLength <=? i then key_byte kt level else prefix_byte p i);
  cret (b, kt).

(** The second component is the new [level]. *)
Definition checkPrefixCompare (n k level : Z) : stM art (PCCompareResults * Z) :=
  p <- at_node n getPrefi;
  lv <- at_node n getLevel;
  if u32 (prefixCount p + level) <? lv then cret (PC_SkippedLevel, level)
  else if 0 <? prefixCount p then
    let start := u32 (level + prefixCount p - lv) in
    r <- cloop (seqZ start (prefixCount p - start)) (fun i (acc : Z * Z) =>
           let '(level, kt) := acc in
           kLevel <- byte_or k level 0;
           r <- prefix_or_leaf n p i level kt;
           let '(curKey, kt) := r in
           if curKey <? kLevel then cret (inr (PC_Smaller, level))
           else if kLevel <? curKey then cret (inr (PC_Bigger, level))
           else cret (inl (u32 (level + 1), kt))) (level, 0);
    match r with inr x => cret x | inl (level, _) => cret (PC_Equal, level) end
  else cret (PC_Equal, level).

Definition checkPrefixEquals (n level start_ end_ : Z) : stM art (PCEqualsResults * Z) :=
  p <- at_node n getPrefi;
  lv <- at_node n getLevel;
  if u32 (prefixCount p + level) <? lv then cret (PE_SkippedLevel, level)
  else if 0 <? prefixCount p then
    let start := u32 (level + prefixCount p - lv) in
    r <- cloop (seqZ start (prefixCount p - start)) (fun i (acc : Z * Z) =>
           let '(level, kt) := acc in
           startLevel <- byte_or start_ level 0;
           endLevel <- byte_or end_ level 0;
           r <- prefix_or_leaf n p i level kt;
           let '(curKey, kt) := r in
           if (startLevel <? curKey) && (curKey <? endLevel) then cret (inr (PE_Contained, level))
           else if (curKey <? startLevel) || (endLevel <? curKey) then cret (inr (PE_NoMatch, level))
           else cret (inl (u32 (level + 1), kt))) (level, 0);
    match r with inr x => cret x | inl (level, _) => cret (PE_BothMatch, level) end
  else cret (PE_BothMatch, level).

(** ** The local functions *)

(** A loop over children that ends when [stop] says so. *)
Definition children_loop (l : list (Z * Z)) (stop : range -> bool) (bd : Z * Z -> range -> stM art range) (rg : range) : stM art range :=
  r <- cloop l (fun kc rg => rg' <- bd kc rg; cret (if stop rg' then inr rg' else inl rg')) rg;
  match r with inl rg => cret rg | inr rg => cret rg end.

Section range.
Context (resultSize : Z).

(** Every level of the recursion is one level further down in the tree. *)
Fixpoint copy (fuel : nat) (node : Z) (rg : range) : stM art range :=
  match fuel with
  | O => cfail OutOfFuel
  | S fuel' =>
      if isLeaf node then
        if resultsFound rg =? resultSize then cret (mkRange (found rg) (getLeaf node) (restarted_ rg))
        else cret (mkRange (found rg ++ [getLeaf node]) (toContinue rg) (restarted_ rg))
      else
        children <- at_node node (N_getChildren 0 255);
        children_loop children more (fun kc rg => copy fuel' kc.2 rg) rg
  end.

Fixpoint findStart (fuel : nat) (start_ node level : Z) (rg : range) : stM art range :=
  match fuel with
  | O => cfail OutOfFuel
  | S fuel' =>
      if isLeaf node then copy (S fuel') node rg
      else
        r <- checkPrefixCompare node start_ level;
        let '(prefixResult, level) := r in
        match prefixResult with
        | PC_Bigger => copy (S fuel') node rg
        | PC_Equal =>
            startLevel <- byte_or start_ level 0;
            children <- at_node node (N_getChildren startLevel 255);
            children_loop children (fun rg => more rg || restarted_ rg) (fun kc rg =>
              if kc.1 =? startLevel then findStart fuel' start_ kc.2 (u32 (level + 1)) rg
              else if startLevel <? kc.1 then copy fuel' kc.2 rg else cret rg) rg
        | PC_SkippedLevel => cret (mkRange (found rg) (toContinue rg) true)
        | PC_Smaller => cret rg
        end
  end.

Fixpoint findEnd (fuel : nat) (end_ node level : Z) (rg : range) : stM art range :=
  match fuel with
  | O => cfail OutOfFuel
  | S fuel' =>
      if isLeaf node then cret rg
      else
        r <- checkPrefixCompare node end_ level;
        let '(prefixResult, level) := r in
        match prefixResult with
        | PC_Smaller => copy (S fuel') node rg
        | PC_Equal =>
            endLevel <- byte_or end_ level 255;
            children <- at_node node (N_getChildren 0 endLevel);
            children_loop children (fun rg => more rg || restarted_ rg) (fun kc rg =>
              if kc.1 =? endLevel then findEnd fuel' end_ kc.2 (u32 (level + 1)) rg
              else if kc.1 <? endLevel then copy fuel' kc.2 rg else cret rg) rg
        | PC_Bigger => cret rg
        | PC_SkippedLevel => cret (mkRange (found rg) (toContinue rg) true)
        end
  end.

(** ** The search for the node where the range spreads *)

(** [goto restart] when [restarted_] is set at the end. *)
Fixpoint range_loop (fuel : nat) (start_ end_ nextNode level : Z) (rg : range) : stM art range :=
  match fuel with
  | O => cfail OutOfFuel
  | S fuel' =>
      let node := nextNode in
      if (node =? 0) || more rg then cret rg
      else
        r <- checkPrefixEquals node level start_ end_;
        let '(prefixResult, level) := r in
        match prefixResult with
        | PE_SkippedLevel => cret (mkRange (found rg) (toContinue rg) true)
        | PE_NoMatch => cret rg
        | PE_Contained => copy (S fuel') node rg
        | PE_BothMatch =>
            startLevel <- byte_or start_ level 0;
            endLevel <- byte_or end_ level 255;
            if negb (startLevel =? endLevel) then
              children <- at_node node (N_getChildren startLevel endLevel);
              children_loop children (fun rg => restarted_ rg || more rg) (fun kc rg =>
                      if kc.1 =? startLevel then findStart fuel' start_ kc.2 (u32 (level + 1)) rg
                      else if (startLevel <? kc.1) && (kc.1 <? endLevel) then copy fuel' kc.2 rg
                      else if kc.1 =? endLevel then findEnd fuel' end_ kc.2 (u32 (level + 1)) rg
                      else cret rg) rg
            else
              nextNode <- at_node node (N_getChild startLevel);
              range_loop fuel' start_ end_ nextNode (u32 (level + 1)) rg
        end
  end.

(** [goto restart] with the value of [toContinue] there is. *)
Fixpoint range_attempts (tries fuel : nat) (start_ end_ : Z) (cont : Z) : stM art range :=
  match tries with
  | O => cfail OutOfFuel
  | S tries' =>
      r <- cgets root;
      rg <- range_loop fuel start_ end_ r 0 (mkRange [] cont false);
      if restarted_ rg then range_attempts tries' fuel start_ end_ (toContinue rg) else cret rg
  end.

(** Whether the first difference of the keys, if there is one, says that the range is empty. *)
Definition empty_range (start_ end_ : Z) : stM art bool :=
  sl <- getKeyLen start_;
  el <- getKeyLen end_;
  r <- cfor_ret (seqZ 0 (Z.min sl el)) (fun i =>
         a <- key_byte start_ i;
         b <- key_byte end_ i;
         cret (if b <? a then Some true else if a <? b then Some false else None));
  cret (default false r).

(** The result is what is in [result], and the value returned. [continueKey] is a copy of the
    argument, and assigning to it has no effect. *)
Definition lookupRange (tries : nat) (start_ end_ : Z) (t : nat) : stM art (list Z * bool) := fun s =>
  (empty <- empty_range start_ end_;
   if empty : bool then cret ([], false)
   else
     on_epoche (enterEpoche t);;
     rg <- range_attempts tries (S (size (nodes s))) start_ end_ 0;
     on_epoche (exitEpocheAndCleanup t);;
     cret (found rg, more rg)) s.

End range.
