(* ===== verification/ArtScan.v ===== *)
(** * P-ART: the order of range lookups

    [N::getChildren] gives the children of a node in the order of their bytes, and [copy] the leaves
    below a node in the order of their keys. Where no key shares its first byte with an end of the
    range, [lookupRange] returns the keys in the range; elsewhere it may return others or miss some. *)

From S2P Require Import Prelude ArtNode ArtSlots ArtLayout ArtClass Epoche ArtTree.
From S2P Require Import ArtTrie ArtRep ArtPrefix ArtState ArtInsert ArtSpec ArtExample ArtRange.
From stdpp Require Import sorting.
#[local] Open Scope Z_scope.
#[local] Open Scope cmd_scope.

(** ** The children of a node in order *)

Definition key_lt (x y : Z * Z) : Prop := x.1 < y.1.

(** [l] are the children of [n] whose bytes are between [lo] and [hi]. *)
Definition children_in (n : NodeN) (lo hi : Z) (l : list (Z * Z)) : Prop :=
  StronglySorted key_lt l /\ forall k c, (k, c) ∈ l <-> chmap n !! k = Some c /\ lo <= k <= hi.

#[export] Instance key_le_total : Total key_le.
Proof. intros x y. unfold key_le. lia. Qed.

Lemma sorted_strict (l : list (Z * Z)) : StronglySorted key_le l -> NoDup l.*1 -> StronglySorted key_lt l.
Proof.
  induction l as [|x l IH]; intros Hs Hn; [constructor|]. apply list.NoDup_cons in Hn as [Hn Hd]. inversion Hs as [|? ? Hs' Hf]; subst.
  constructor; [by apply IH|]. rewrite list.Forall_forall in Hf |- *. intros y Hy. specialize (Hf y Hy). unfold key_le, key_lt in *.
  destruct (decide (x.1 = y.1)) as [E|]; [|lia]. destruct Hn. rewrite E. by apply list_elem_of_fmap_2.
Qed.

Lemma foldl_omap {A B} (g : A -> option B) l acc :
  foldl (fun acc a => match g a with Some b => acc ++ [b] | None => acc end) acc l = acc ++ omap g l.
Proof.
  revert acc. induction l as [|a l IH]; intros acc; cbn; [by rewrite app_nil_r|]. rewrite IH. destruct (g a); [|done]. by rewrite <- app_assoc.
Qed.

(** *** The layouts with an index *)

Definition pick (n : NodeN) (i : Z) : option (Z * Z) := (fun c => (i, c)) <$> chmap n !! i.

Lemma pick_sorted n l : StronglySorted Z.lt l -> StronglySorted key_lt (omap (pick n) l).
Proof.
  induction 1 as [|i l Hs IH Hf]; cbn; [constructor|]. destruct (pick n i) as [x|] eqn:E; [|done]. constructor; [done|].
  apply list.Forall_forall. intros y Hy. apply list_elem_of_omap in Hy as (j & Hj & Ej). unfold pick in *.
  destruct (chmap n !! i); [|done]. destruct (chmap n !! j); [|done]. injection E as <-. injection Ej as <-. by apply (proj1 (list.Forall_forall _ _) Hf).
Qed.

Lemma seqZ_sorted lo n : StronglySorted Z.lt (seqZ lo n).
Proof.
  destruct (Z.le_gt_cases n 0) as [H|H]; [rewrite seqZ_nil by done; constructor|].
  rewrite <- (Z2Nat.id n) by lia. generalize (Z.to_nat n). clear H n. intros n. revert lo. induction n as [|n IH]; intros lo; [constructor|].
  rewrite seqZ_cons by lia. replace (Z.pred (Z.of_nat (S n))) with (Z.of_nat n) by lia. constructor; [apply IH|].
  apply list.Forall_forall. intros x Hx. apply elem_of_seqZ in Hx. lia.
Qed.

Lemma pick_children n lo hi : layout n -> children_in n lo hi (omap (pick n) (seqZ lo (hi - lo + 1))).
Proof.
  intros Hl. split; [apply pick_sorted, seqZ_sorted|]. intros k c. rewrite list_elem_of_omap. unfold pick. split.
  - intros (i & Hi & E). apply elem_of_seqZ in Hi. destruct (chmap n !! i) as [x|] eqn:Ex; [|done]. injection E as <- <-. split; [done|lia].
  - intros [Hc Hk]. exists k. rewrite elem_of_seqZ, Hc. split; [lia|done].
Qed.

Lemma pick_step n i acc : layout n ->
  (if default 0 (chmap n !! i) =? 0 then acc else acc ++ [(i, default 0 (chmap n !! i))]) =
  match pick n i with Some b => acc ++ [b] | None => acc end.
Proof.
  intros Hl. unfold pick. destruct (chmap n !! i) as [c|] eqn:E; cbn; [|done]. apply child_byte in E as [_ Hc]; [|done]. by rewrite (proj2 (Z.eqb_neq c 0)).
Qed.

Lemma N256_getChildren_run n lg lo hi : layout n -> tag (body n) = NT256 -> byte lo -> byte hi ->
  N256_getChildren lo hi (mkNS n lg) = Ok (omap (pick n) (seqZ lo (hi - lo + 1)), mkNS n lg).
Proof.
  intros Hl Ht Hlo Hhi. unfold N256_getChildren.
  rewrite (cfold_pure _ _ (fun i acc => match pick n i with Some b => acc ++ [b] | None => acc end)).
  - by rewrite foldl_omap.
  - intros i acc Hi. apply elem_of_seqZ in Hi. rewrite <- pick_step by done.
    rewrite (cbind_Ok _ _ _ _ _ (N256_getChild_run n lg i Hl Ht ltac:(unfold byte in *; lia))). by destruct (_ =? 0).
Qed.

Lemma N48_getChildren_run n lg lo hi : layout n -> tag (body n) = NT48 -> byte lo -> byte hi ->
  N48_getChildren lo hi (mkNS n lg) = Ok (omap (pick n) (seqZ lo (hi - lo + 1)), mkNS n lg).
Proof.
  intros Hl Ht Hlo Hhi. unfold N48_getChildren.
  rewrite (cfold_pure _ _ (fun i acc => match pick n i with Some b => acc ++ [b] | None => acc end)).
  - by rewrite foldl_omap.
  - intros i acc Hi. apply elem_of_seqZ in Hi. rewrite <- pick_step by done.
    pose proof (N48_getChild_run n lg i Hl Ht ltac:(unfold byte in *; lia)) as H. unfold N48_getChild in H.
    apply cbind_inv in H as (ix & s1 & H1 & H2). rewrite (cbind_Ok _ _ _ _ _ H1). destruct (ix =? emptyMarker).
    + unfold cret in H2. injection H2 as E ->. by rewrite <- E.
    + rewrite (cbind_Ok _ _ _ _ _ H2). by destruct (_ =? 0).
Qed.

(** *** The layouts without one *)

Definition between (lo hi : Z) (kc : Z * Z) : Prop := lo <= kc.1 <= hi.
#[export] Instance between_dec lo hi kc : Decision (between lo hi kc).
Proof. unfold between. apply _. Defined.

Lemma collect_run n lg lo hi (sl : list (Z * Z)) (key child : Z -> stM NS Z) (c : nat) :
  (c <= length sl)%nat ->
  (forall i k x, sl !! i = Some (k, x) -> key (Z.of_nat i) (mkNS n lg) = Ok (k, mkNS n lg) /\ child (Z.of_nat i) (mkNS n lg) = Ok (x, mkNS n lg)) ->
  collect (Z.of_nat c) lo hi key child (mkNS n lg) = Ok (filter (between lo hi) (live (take c sl)), mkNS n lg).
Proof.
  intros Hc Hs. unfold collect. set (g := fun kx : Z * Z => if decide (kx.2 <> 0 /\ between lo hi kx) then Some kx else None).
  rewrite (cfold_pure _ _ (fun i acc => match g (default (0, 0) (sl !! Z.to_nat i)) with Some b => acc ++ [b] | None => acc end)).
  - f_equal. f_equal. rewrite (foldl_omap (fun i => g (default (0, 0) (sl !! Z.to_nat i)))). cbn [app].
    clear Hs. induction c as [|c IH]; [done|]. replace (Z.of_nat (S c)) with (Z.of_nat c + 1) by lia. rewrite seqZ_app by lia.
    rewrite omap_app, IH by lia. destruct (lookup_lt_is_Some_2 sl c Hc) as ([k x] & Hx). rewrite (take_S_r _ _ _ Hx).
    rewrite live_app, list.filter_app. f_equal. rewrite Z.add_0_l, seqZ_cons by lia. rewrite (seqZ_nil _ (Z.pred 1)) by lia. cbn [omap list_omap].
    rewrite Nat2Z.id, Hx. cbn [default from_option id]. unfold g. cbn [snd]. destruct (decide (x = 0)) as [->|Hx0].
    + rewrite live_null. rewrite decide_False by (intros [? _]; done). done.
    + rewrite live_some by done. destruct (decide (between lo hi (k, x))) as [Hb|Hb].
      * rewrite decide_True by done. by rewrite filter_cons_True.
      * rewrite decide_False by (intros [_ ?]; done). by rewrite filter_cons_False.
  - intros i acc Hi. apply elem_of_seqZ in Hi. destruct (lookup_lt_is_Some_2 sl (Z.to_nat i)) as ([k x] & Hx); [lia|].
    destruct (Hs _ _ _ Hx) as [Hk Hch]. rewrite Z2Nat.id in Hk, Hch by lia. rewrite (cbind_Ok _ _ _ _ _ Hk), Hx. cbn [default from_option id].
    unfold g. cbn [snd]. destruct (decide (between lo hi (k, x))) as [Hb|Hb]; unfold between in Hb; cbn [fst] in Hb.
    + rewrite (proj2 (Z.leb_le lo k)), (proj2 (Z.leb_le k hi)) by lia. cbn [andb]. rewrite (cbind_Ok _ _ _ _ _ Hch).
      destruct (Z.eqb_spec x 0) as [->|Hx0]; [by rewrite decide_False by (intros [? _]; done)|]. by rewrite decide_True.
    + rewrite decide_False by (intros [_ ?]; done). destruct (Z.leb_spec lo k), (Z.leb_spec k hi); cbn [andb]; try done. lia.
Qed.

(** Sorting what was collected gives the children in order. *)
Lemma collected_children n lo hi c :
  layout n -> used_below (slots (body n)) (Z.of_nat c) ->
  children_in n lo hi (merge_sort key_le (filter (between lo hi) (live (take c (slots (body n)))))).
Proof.
  intros (_ & _ & Hd & _) Hu. set (l := filter _ _).
  assert (Hl : live (take c (slots (body n))) = live (slots (body n))).
  { rewrite <- (take_drop c (slots (body n))) at 2. rewrite live_app. replace (live (drop c _)) with (@nil (Z * Z)); [by rewrite app_nil_r|].
    symmetry. destruct (live (drop c (slots (body n)))) as [|[k x] l'] eqn:E; [done|]. exfalso.
    assert (Hin : (k, x) ∈ live (drop c (slots (body n)))) by (rewrite E; left). apply live_elem in Hin as [Hx Hin].
    apply list_elem_of_lookup in Hin as (i & Hi). rewrite lookup_drop in Hi. specialize (Hu _ _ _ Hi Hx). lia. }
  assert (Hp : merge_sort key_le l ≡ₚ l) by apply merge_sort_Permutation. split.
  - apply sorted_strict; [apply StronglySorted_merge_sort; [intros x y z; unfold key_le; lia|apply _]|].
    rewrite Hp. unfold l. rewrite Hl. eapply sublist_NoDup; [exact Hd|]. apply fmap_sublist, sublist_filter.
  - intros k x. rewrite Hp. unfold l. rewrite list_elem_of_filter, Hl, live_elem. unfold chmap. rewrite smap_lookup by done. unfold between. cbn. tauto.
Qed.

Lemma N4_getChildren_run n lg lo hi : layout n -> tag (body n) = NT4 ->
  exists l, N4_getChildren lo hi (mkNS n lg) = Ok (l, mkNS n lg) /\ children_in n lo hi l.
Proof.
  intros Hl Ht. destruct (body n) as [ks cs|ks cs|ix cs|cs] eqn:E; try done.
  pose proof Hl as (_ & Hs & _). unfold shape in Hs. rewrite E in Hs. destruct Hs as (Hk & Hc & Hcc & Hu).
  eexists. split; [|apply (collected_children n lo hi 4 Hl); rewrite E; intros i b c Hi Hn; pose proof (Hu i b c Hi Hn); lia].
  unfold N4_getChildren. change 4 with (Z.of_nat 4). erewrite cbind_Ok; [reflexivity|]. rewrite E. cbn [slots].
  apply collect_run; [rewrite length_zip; lia|]. intros i k x Hi. apply zip_lookup in Hi as [Hik Hic].
  destruct n as [w p lv cnt cc b]. nproj. subst b. split; nred; apply arr_get_run; try lia; by rewrite Nat2Z.id.
Qed.

Lemma N16_getChildren_run n lg lo hi : layout n -> tag (body n) = NT16 ->
  exists l, N16_getChildren lo hi (mkNS n lg) = Ok (l, mkNS n lg) /\ children_in n lo hi l.
Proof.
  intros Hl Ht. destruct (body n) as [ks cs|ks cs|ix cs|cs] eqn:E; try done.
  pose proof Hl as (_ & Hs & _). unfold shape in Hs. rewrite E in Hs. destruct Hs as (Hk & Hc & Hcc & Hu).
  eexists. split; [|apply (collected_children n lo hi (Z.to_nat (compactCount n)) Hl); rewrite E, Z2Nat.id by lia; done].
  unfold N16_getChildren. rewrite load_bind. rewrite <- (Z2Nat.id (compactCount n)) at 1 by lia. erewrite cbind_Ok; [reflexivity|]. rewrite E. cbn [slots].
  apply collect_run; [rewrite length_zip, length_fmap; lia|]. intros i k x Hi. apply zip_lookup in Hi as [Hik Hic].
  rewrite list_lookup_fmap in Hik. destruct (ks !! i) as [k0|] eqn:Ek; [|done]. injection Hik as <-.
  destruct n as [w p lv cnt cc b]. nproj. subst b. split; nred; [|apply arr_get_run; [lia|by rewrite Nat2Z.id]].
  rewrite (arr_get_run ks (Z.of_nat i) k0) by (lia || by rewrite Nat2Z.id). done.
Qed.

Lemma N_getChildren_run n lg lo hi : layout n -> byte lo -> byte hi ->
  exists l, N_getChildren lo hi (mkNS n lg) = Ok (l, mkNS n lg) /\ children_in n lo hi l.
Proof.
  intros Hl Hlo Hhi. unfold N_getChildren. rewrite dispatch_run by done. destruct (body n) as [ks cs|ks cs|ix cs|cs] eqn:E.
  - apply N4_getChildren_run; [done|by rewrite E].
  - apply N16_getChildren_run; [done|by rewrite E].
  - eexists. split; [apply N48_getChildren_run; [done|by rewrite E|done..]|by apply pick_children].
  - eexists. split; [apply N256_getChildren_run; [done|by rewrite E|done..]|by apply pick_children].
Qed.

(** ** The leaves below a node in order *)

(** One more leaf for the result. *)
Definition offer (size : Z) (rg : range) (k : Z) : range :=
  if more rg then rg
  else if resultsFound rg =? size then mkRange (found rg) k (restarted_ rg)
  else mkRange (found rg ++ [k]) (toContinue rg) (restarted_ rg).

Definition offers (size : Z) (ks : list Z) (rg : range) : range := foldl (offer size) rg ks.

Lemma offers_more size ks rg : more rg = true -> offers size ks rg = rg.
Proof. intros Hm. unfold offers. induction ks as [|k ks IH]; [done|]. cbn [foldl]. unfold offer at 2. by rewrite Hm. Qed.

Lemma offers_app size l1 l2 rg : offers size (l1 ++ l2) rg = offers size l2 (offers size l1 rg).
Proof. apply foldl_app. Qed.

Lemma offers_restarted size ks rg : restarted_ (offers size ks rg) = restarted_ rg.
Proof.
  revert rg. induction ks as [|k ks IH]; intros rg; [done|]. unfold offers in *. cbn [foldl]. rewrite IH. unfold offer. by repeat case_match.
Qed.

(** The result takes as many leaves as it has room for; the next one is where to continue. *)
Lemma offers_take (n : nat) ks l :
  Forall (fun k => k <> 0) ks -> (length l <= n)%nat ->
  offers (Z.of_nat n) ks (mkRange l 0 false) = mkRange (l ++ take (n - length l) ks) (default 0 (ks !! (n - length l)%nat)) false.
Proof.
  revert l. induction ks as [|k ks IH]; intros l Hk Hl; [by rewrite take_nil, app_nil_r|]. apply list.Forall_cons in Hk as [Hk0 Hk].
  unfold offers. cbn [foldl]. unfold offer at 2. cbn [more toContinue Z.eqb negb resultsFound found restarted_]. unfold resultsFound. cbn [found].
  destruct (Z.eqb_spec (Z.of_nat (length l)) (Z.of_nat n)) as [E|E].
  - change (foldl (offer (Z.of_nat n)) ?r ks) with (offers (Z.of_nat n) ks r). rewrite offers_more by (unfold more; cbn; by rewrite (proj2 (Z.eqb_neq k 0))).
    replace (n - length l)%nat with 0%nat by lia. cbn. by rewrite app_nil_r.
  - change (foldl (offer (Z.of_nat n)) ?r ks) with (offers (Z.of_nat n) ks r). rewrite IH by (try done; rewrite length_app; cbn; lia).
    rewrite length_app. cbn [length]. replace (n - length l)%nat with (S (n - (length l + 1))) by lia. cbn. by rewrite <- app_assoc.
Qed.

(** Strings that differ after a common beginning. *)
Lemma lex_branch (pi x y : list Z) a b : (pi ++ [a]) `prefix_of` x -> (pi ++ [b]) `prefix_of` y -> a < b -> lex x y = true.
Proof.
  intros [x' ->] [y' ->] Hab. rewrite <- !app_assoc. induction pi as [|c pi IH]; cbn.
  - by rewrite (proj2 (Z.ltb_lt a b)).
  - cbn in IH. rewrite IH, Z.eqb_refl. apply orb_true_r.
Qed.

Section scan.
Context {K : gmap Z Key} {r : Z} {V : trie} {m : gmap (list Z) Z} (T : trie_ok K r V m).
Context {h : gmap Z NodeN} {B : Z} (HN : nodes_ok h V r B).
Context (sz : Z) (ep : Epoche) (hs : list (gmap Z NodeN)) (li : list Z).

#[local] Abbreviation st := (mkArt h K r ep hs li).

(** [L] are the keys that begin with [pi], in order. *)
Definition keys_under (pi : list Z) (L : list (list Z)) : Prop :=
  StronglySorted (fun x y => lex x y = true) L /\ forall bs, bs ∈ L <-> is_Some (m !! bs) /\ pi `prefix_of` bs.

Definition leaves (L : list (list Z)) : list Z := (fun bs => default 0 (m !! bs)) <$> L.

(** The children of one node, one after the other. *)
Lemma children_scan f an (l : list (Z * Z)) :
  StronglySorted key_lt l ->
  (forall kc, kc ∈ l -> exists L, keys_under (an_path an ++ [kc.1]) L /\ forall rg, more rg = false -> f kc rg st = Ok (offers sz (leaves L) rg, st)) ->
  exists L, StronglySorted (fun x y => lex x y = true) L /\
    (forall bs, bs ∈ L <-> is_Some (m !! bs) /\ exists k c, (k, c) ∈ l /\ (an_path an ++ [k]) `prefix_of` bs) /\
    forall stop rg, (forall rg', restarted_ rg' = restarted_ rg -> stop rg' = more rg') -> more rg = false ->
      children_loop l stop f rg st = Ok (offers sz (leaves L) rg, st).
Proof.
  intros Hs. induction Hs as [|[k c] l Hs IH Hlt]; intros Hf.
  - exists []. split; [constructor|]. split; [|done]. intros bs. split; [by intros ?%not_elem_of_nil|]. intros [_ (k & c & H%not_elem_of_nil & _)]. done.
  - destruct (Hf (k, c) ltac:(left)) as (L1 & [Hs1 Hm1] & Hr1). destruct (IH ltac:(intros kc Hkc; apply Hf; by right)) as (L2 & Hs2 & Hm2 & Hr2).
    exists (L1 ++ L2). split; [|split].
    + apply StronglySorted_app. split; [|done]. intros x y Hx Hy. apply Hm1 in Hx as [_ Hx]. apply Hm2 in Hy as [_ (k' & c' & Hin & Hy)].
      eapply lex_branch; [exact Hx|exact Hy|]. cbn. exact (proj1 (list.Forall_forall _ _) Hlt (k', c') Hin).
    + intros bs. rewrite elem_of_app, Hm1, Hm2. cbn [fst]. split.
      * intros [[H1 H2]|[H1 (k' & c' & Hin & H2)]]; (split; [done|]); [exists k, c; split; [left|done]|exists k', c'; split; [by right|done]].
      * intros [H1 (k' & c' & Hin & H2)]. apply elem_of_cons in Hin as [[= -> ->]|Hin]; [by left|]. right. split; [done|]. by exists k', c'.
    + intros stop rg Hstop Hmore. unfold children_loop. cbn [cloop]. rewrite !cbind_assoc, (cbind_Ok _ _ _ _ _ (Hr1 rg Hmore)).
      unfold leaves. rewrite fmap_app, offers_app. fold (leaves L1) (leaves L2). set (rg1 := offers sz (leaves L1) rg).
      assert (Hre : restarted_ rg1 = restarted_ rg) by apply offers_restarted. rewrite (Hstop rg1 Hre).
      destruct (more rg1) eqn:E1.
      * rewrite offers_more by done. done.
      * specialize (Hr2 stop rg1 ltac:(intros rg' E; apply Hstop; congruence) E1). unfold children_loop in Hr2. exact Hr2.
Qed.

(** The key of a leaf is the only one that begins as the place of the leaf says. *)
Lemma leaf_keys a an b p : V !! a = Some an -> an_ch an !! b = Some p -> isLeaf p = true ->
  exists L, keys_under (an_path an ++ [b]) L /\ leaves L = [getLeaf p].
Proof.
  intros Ha Hb Hl. destruct (tr_leaf _ _ _ _ T _ _ _ _ Ha Hb Hl) as (bs & Hk & Hpre & Hm). exists [bs]. split; [|unfold leaves; cbn; by rewrite Hm].
  split; [by repeat constructor|]. intros bs'. rewrite list_elem_of_singleton. split; [intros ->; split; [by eexists|done]|].
  intros [(ka & Hm') Hpre']. destruct (key_place T _ _ _ _ _ Ha Hpre' Hm') as (p' & Hp' & Hc). rewrite Hb in Hp'. injection Hp' as <-.
  destruct Hc as [->|(cn & _ & E & _)]; [|congruence]. destruct (tr_map _ _ _ _ T _ _ Hm') as (Hk' & _).
  rewrite getLeaf_setLeaf in Hk by apply Hk'. by eapply key_ok_fun.
Qed.

(** The keys below a node are those below its children. *)
Lemma node_keys p cn (L : list (list Z)) (l : list (Z * Z)) pi :
  V !! p = Some cn -> (forall k c, (k, c) ∈ l <-> an_ch cn !! k = Some c) ->
  (forall bs, is_Some (m !! bs) -> pi `prefix_of` bs <-> an_path cn `prefix_of` bs) ->
  (forall bs, bs ∈ L <-> is_Some (m !! bs) /\ exists k c, (k, c) ∈ l /\ (an_path cn ++ [k]) `prefix_of` bs) ->
  forall bs, bs ∈ L <-> is_Some (m !! bs) /\ pi `prefix_of` bs.
Proof.
  intros Hp Hl Hpi HL bs. rewrite HL. split.
  - intros [Hm (k & c & _ & Hpre)]. split; [done|]. apply Hpi; [done|]. by apply prefix_snoc_lookup in Hpre as [Hpre _].
  - intros [Hm Hpre]. split; [done|]. apply Hpi in Hpre; [|done]. destruct Hm as (ka & Hm). pose proof (key_longer T _ _ _ _ Hp Hm Hpre) as Hlen.
    destruct (lookup_lt_is_Some_2 bs _ Hlen) as (k & Hk). assert (Hpk : (an_path cn ++ [k]) `prefix_of` bs) by (by apply prefix_snoc_lookup).
    destruct (key_place T _ _ _ _ _ Hp Hpk Hm) as (c & Hc & _). exists k, c. split; [by apply Hl|done].
Qed.

Lemma whole_byte : byte 0 /\ byte 255.
Proof. unfold byte. lia. Qed.

(** The children of a node in the heap. *)
Lemma children_run a an lo hi : V !! a = Some an -> byte lo -> byte hi ->
  exists l, at_node a (N_getChildren lo hi) st = Ok (l, st) /\ StronglySorted key_lt l /\
    forall k c, (k, c) ∈ l <-> an_ch an !! k = Some c /\ lo <= k <= hi.
Proof.
  intros Ha Hlo Hhi. destruct (HN a an Ha) as (n & v & Hn & (((Hly & Hch & _) & _) & _) & _).
  destruct (N_getChildren_run n [] lo hi Hly Hlo Hhi) as (l & Hr & Hs & Hl). exists l. split; [by apply (at_node_read _ _ _ _ _ _ _ _ _ _ Hn)|].
  split; [done|]. by rewrite <- Hch.
Qed.

Lemma child_byte_ok a an b p : V !! a = Some an -> an_ch an !! b = Some p -> byte b.
Proof.
  intros Ha Hb. destruct (HN a an Ha) as (n & v & Hn & (((Hly & Hch & _) & _) & _) & _). rewrite <- Hch in Hb. by apply child_byte in Hb as [Hb _].
Qed.

Lemma copy_child fuel : forall a an b p,
  V !! a = Some an -> an_ch an !! b = Some p -> (size (deeper (V := V) (length (an_path an))) < fuel)%nat ->
  exists L, keys_under (an_path an ++ [b]) L /\ forall rg, more rg = false -> copy sz fuel p rg st = Ok (offers sz (leaves L) rg, st).
Proof.
  induction fuel as [|fuel IH]; intros a an b p Ha Hb Hf; [lia|]. cbn [copy]. destruct (isLeaf p) eqn:Hl.
  - destruct (leaf_keys a an b p Ha Hb Hl) as (L & HL & EL). exists L. split; [done|]. intros rg Hm.
    rewrite EL. unfold offers. cbn [foldl]. unfold offer. rewrite Hm. by destruct (resultsFound rg =? sz).
  - destruct (tr_node _ _ _ _ T _ _ _ _ Ha Hb Hl) as (cn & Hc & _ & Hpre). pose proof (deeper_lt T _ _ _ _ _ Ha Hb Hc) as Hd.
    destruct (children_run p cn 0 255 Hc (proj1 whole_byte) (proj2 whole_byte)) as (l & Hr & Hs & Hin).
    destruct (children_scan (fun kc rg => copy sz fuel kc.2 rg) cn l Hs) as (L & HsL & HL & HrL).
    { intros [k c] Hk. apply Hin in Hk as [Hk _]. apply (IH p cn k c Hc Hk). lia. }
    assert (Hall : forall k c, (k, c) ∈ l <-> an_ch cn !! k = Some c).
    { intros k c. rewrite Hin. split; [by intros [? _]|]. intros Hk. split; [done|]. pose proof (child_byte_ok _ _ _ _ Hc Hk) as Hb'. unfold byte in Hb'. lia. }
    exists L. split; [split; [done|]|].
    + apply (node_keys p cn L l); [done|done| |done]. intros bs (ka & Hm). split.
      * intros Hpb. destruct (key_place T _ _ _ _ _ Ha Hpb Hm) as (p' & Hp' & Hcs). rewrite Hb in Hp'. injection Hp' as <-.
        destruct Hcs as [->|(cn' & Hc' & _ & Hpc)]; [by rewrite setLeaf_leaf in Hl|]. rewrite Hc in Hc'. by injection Hc' as <-.
      * intros Hpc. by transitivity (an_path cn).
    + intros rg Hm. rewrite (cbind_Ok _ _ _ _ _ Hr). by apply HrL.
Qed.

End scan.

(** ** Ranges that begin and end between the first bytes of keys *)

Section between.
Context {K : gmap Z Key} {r : Z} {V : trie} {m : gmap (list Z) Z} (T : trie_ok K r V m).
Context {h : gmap Z NodeN} {B : Z} (HN : nodes_ok h V r B).
Context {ka kb a b : Z} {lo hi : list Z} (Hka : key_ok K ka (a :: lo)) (Hkb : key_ok K kb (b :: hi)).
Context (Hab : a < b) (Hout : forall bs, is_Some (m !! bs) -> head bs <> Some a /\ head bs <> Some b).
Context (ep : Epoche) (hs : list (gmap Z NodeN)) (li : list Z).

#[local] Abbreviation st := (mkArt h K r ep hs li).

Lemma empty_range_run : empty_range ka kb st = Ok (false, st).
Proof.
  unfold empty_range. rewrite (cbind_Ok _ _ _ _ _ (getKeyLen_run Hka h r ep hs li)), (cbind_Ok _ _ _ _ _ (getKeyLen_run Hkb h r ep hs li)).
  cbn [length]. rewrite seqZ_cons by lia. cbn [cfor_ret]. rewrite !cbind_assoc.
  rewrite (cbind_Ok _ _ _ _ _ (key_byte_run Hka h r ep hs li 0 a eq_refl)), cbind_assoc, (cbind_Ok _ _ _ _ _ (key_byte_run Hkb h r ep hs li 0 b eq_refl)).
  rewrite (proj2 (Z.ltb_ge b a)), (proj2 (Z.ltb_lt a b)) by lia. done.
Qed.

Lemma byte_or_run k bs x d : key_ok K k (x :: bs) -> byte_or k 0 d st = Ok (x, st).
Proof.
  intros Hk. unfold byte_or. rewrite (cbind_Ok _ _ _ _ _ (getKeyLen_run Hk h r ep hs li)). cbn [length].
  rewrite (proj2 (Z.ltb_lt 0 _)) by lia. by apply (key_byte_run Hk h r ep hs li 0).
Qed.

Lemma root_check rn : V !! r = Some rn -> an_path rn = [] -> an_base rn = 0%nat -> checkPrefixEquals r 0 ka kb st = Ok ((PE_BothMatch, 0), st).
Proof.
  intros Hr Hp Hb. destruct (HN r rn Hr) as (n & v & Hn & (((_ & _ & Hlv & Hst) & _) & _) & _). rewrite Hb, Hp in Hst. rewrite Hp in Hlv.
  destruct Hst as (_ & Hpc & _). cbn in Hpc, Hlv. unfold checkPrefixEquals.
  rewrite (cbind_Ok _ _ _ _ _ (at_node_read r getPrefi h K r ep hs li n _ Hn eq_refl)), (cbind_Ok _ _ _ _ _ (at_node_read r getLevel h K r ep hs li n _ Hn eq_refl)).
  cbn [self]. rewrite Hpc, Hlv. done.
Qed.

(** A child of the root leads to a key that begins with its byte. *)
Lemma root_child rn k c : V !! r = Some rn -> an_path rn = [] -> an_ch rn !! k = Some c -> exists bs, is_Some (m !! bs) /\ head bs = Some k.
Proof.
  intros Hr Hp Hk. destruct (isLeaf c) eqn:Hl.
  - destruct (tr_leaf _ _ _ _ T _ _ _ _ Hr Hk Hl) as (bs & _ & [bs' ->] & Hm). rewrite Hp in Hm. eexists. split; [by eexists|done].
  - destruct (tr_node _ _ _ _ T _ _ _ _ Hr Hk Hl) as (cn & Hc & _ & Hpre).
    destruct (getAnyChildTid_run T HN ep hs li c cn Hc) as (kt & bt & _ & _ & Hp2 & Hm).
    { intros ->. apply (root_no_parent T r k). by exists rn. }
    assert (Hpb : (an_path rn ++ [k]) `prefix_of` bt) by (by transitivity (an_path cn)). rewrite Hp in Hpb. destruct Hpb as [bs' ->]. eexists. split; [by eexists|done].
Qed.

Lemma head_between (bs : list Z) : is_Some (m !! bs) ->
  (exists k, a <= k <= b /\ [k] `prefix_of` bs) <-> lex (a :: lo) bs = true /\ lex bs (b :: hi) = true.
Proof.
  intros Hm. destruct (Hout bs Hm) as [Ha Hb]. destruct bs as [|k bs].
  - split; [intros (k & _ & H); by apply prefix_nil_not in H|intros [H _]; done].
  - cbn in Ha, Hb. assert (k <> a /\ k <> b) as [Hka' Hkb'] by (split; congruence). cbn [lex].
    rewrite (proj2 (Z.eqb_neq a k)), (proj2 (Z.eqb_neq k b)) by congruence. cbn [andb]. rewrite !orb_false_r. split.
    + intros (k' & Hk & Hp). apply prefix_cons_inv_1 in Hp as <-. split; apply Z.ltb_lt; lia.
    + intros [H1%Z.ltb_lt H2%Z.ltb_lt]. exists k. split; [lia|]. by exists bs.
Qed.

Lemma range_loop_run (n : nat) :
  exists L, StronglySorted (fun x y => lex x y = true) L /\
    (forall bs, bs ∈ L <-> is_Some (m !! bs) /\ lex (a :: lo) bs = true /\ lex bs (b :: hi) = true) /\
    range_loop (Z.of_nat n) (S (size h)) ka kb r 0 (mkRange [] 0 false) st = Ok (offers (Z.of_nat n) (leaves (m := m) L) (mkRange [] 0 false), st).
Proof.
  destruct (tr_root _ _ _ _ T) as (rn & Hr & Hp & Hb). destruct (tr_addr _ _ _ _ T _ _ Hr) as [Hr0 _].
  pose proof (key_bound Hka 0 a eq_refl) as Hba. pose proof (key_bound Hkb 0 b eq_refl) as Hbb.
  destruct (children_run (K := K) HN ep hs li r rn a b Hr Hba Hbb) as (l & Hl & Hs & Hin).
  destruct (children_scan (K := K) (r := r) (m := m) (h := h) (Z.of_nat n) ep hs li (fun kc rg =>
      if kc.1 =? a then findStart (Z.of_nat n) (size h) ka kc.2 (u32 (0 + 1)) rg
      else if (a <? kc.1) && (kc.1 <? b) then copy (Z.of_nat n) (size h) kc.2 rg
      else if kc.1 =? b then findEnd (Z.of_nat n) (size h) kb kc.2 (u32 (0 + 1)) rg
      else cret rg) rn l Hs) as (L & HsL & HL & Hrun).
  { intros [k c] Hk. apply Hin in Hk as [Hk Hkab]. destruct (root_child rn k c Hr Hp Hk) as (bs & Hm & Hh). destruct (Hout bs Hm) as [Ha' Hb'].
    assert (Hkne : k <> a /\ k <> b) by (split; congruence). cbn [fst snd].
    destruct (copy_child T HN (Z.of_nat n) ep hs li (size h) r rn k c Hr Hk) as (L & HL & Hc); [rewrite Hp; by eapply deeper_root|].
    exists L. split; [done|]. intros rg Hmore. rewrite (proj2 (Z.eqb_neq k a)), (proj2 (Z.ltb_lt a k)), (proj2 (Z.ltb_lt k b)) by lia. cbn [andb]. by apply Hc. }
  exists L. split; [done|]. split.
  - intros bs. rewrite HL. split.
    + intros [Hm (k & c & Hk & Hpre)]. apply Hin in Hk as [_ Hkab]. split; [done|]. apply head_between; [done|]. exists k. split; [done|]. by rewrite Hp in Hpre.
    + intros [Hm Hlex]. split; [done|]. apply head_between in Hlex as (k & Hkab & Hpre); [|done]. destruct Hm as (kx & Hm).
      destruct (key_place T r rn k bs kx Hr ltac:(by rewrite Hp) Hm) as (c & Hc & _). exists k, c. split; [by apply Hin|by rewrite Hp].
  - cbn [range_loop]. rewrite (proj2 (Z.eqb_neq r 0)) by lia. cbn [orb more toContinue Z.eqb negb].
    rewrite (cbind_Ok _ _ _ _ _ (root_check rn Hr Hp Hb)), (cbind_Ok _ _ _ _ _ (byte_or_run ka lo a 0 Hka)), (cbind_Ok _ _ _ _ _ (byte_or_run kb hi b 255 Hkb)).
    rewrite (proj2 (Z.eqb_neq a b)) by lia. cbn [negb]. rewrite (cbind_Ok _ _ _ _ _ Hl). apply Hrun; [|done].
    intros rg' E. cbn in E. by rewrite E.
Qed.

End between.

(** ** Range lookups of a program *)

Section program.
Context `{!Allocator} (t : nat).

(** The keys and values a program finds behind the pointers it gets. *)
Definition read_keys (ks : list Z) : stM art (list (option (list Z * Z))) :=
  cgets (fun s => (fun k => (fun x => (fkey x, value x)) <$> keys s !! k) <$> ks).

Definition run_range (n : nat) (lo hi : list Z) : stM art (list (option (list Z * Z)) * bool) :=
  ka <- make_leaf lo (Z.of_nat (length lo)) 0;
  kb <- make_leaf hi (Z.of_nat (length hi)) 0;
  r <- lookupRange (Z.of_nat n) 1 ka kb t;
  l <- read_keys r.1;
  cret (l, r.2).

Lemma lookupRange_run B V m s ka kb a b lo hi (n : nat) :
  art_ok B V m s -> is_Some (deletionLists (epoche s) !! t) -> key_ok (keys s) ka (a :: lo) -> key_ok (keys s) kb (b :: hi) -> a < b ->
  (forall bs, is_Some (m !! bs) -> head bs <> Some a /\ head bs <> Some b) ->
  exists L s', StronglySorted (fun x y => lex x y = true) L /\
    (forall bs, bs ∈ L <-> is_Some (m !! bs) /\ lex (a :: lo) bs = true /\ lex bs (b :: hi) = true) /\
    lookupRange (Z.of_nat n) 1 ka kb t s = Ok ((take n (leaves (m := m) L), Nat.ltb n (length L)), s') /\ keys s' = keys s.
Proof.
  intros A Ht Hka Hkb Hab Hout. destruct s as [h K r ep hs li]. cbn [epoche keys] in *.
  destruct (enter_run A Ht) as (ep1 & He & A2 & Hdm & Ht2).
  destruct (range_loop_run (ok_trie _ _ _ _ A) (ok_nodes _ _ _ _ A) Hka Hkb Hab Hout ep1 hs li n) as (L & HsL & HL & Hrun).
  assert (Hp : art_post B V m m (mkArt h K r ep hs li) (mkArt h K r ep1 hs li)).
  { split; [done|]. cbn. split_and!; try done. exists []. by rewrite app_nil_r. }
  destruct (art_post_exit _ _ _ _ _ _ t Hp Ht) as (s' & Hx & Hp2). exists L, s'. split; [done|]. split; [done|]. split; [|apply Hp2].
  unfold lookupRange. cbn [nodes]. rewrite (cbind_Ok _ _ _ _ _ (empty_range_run Hka Hkb Hab ep hs li)), (cbind_Ok _ _ _ _ _ He).
  assert (Hnz : Forall (fun k => k <> 0) (leaves (m := m) L)).
  { apply list.Forall_fmap, list.Forall_forall. intros bs [(k & Hk) _]%HL. cbn. rewrite Hk. cbn.
    destruct (tr_map _ _ _ _ (ok_trie _ _ _ _ A) _ _ Hk) as [(_ & _ & _ & H0 & _) _]. lia. }
  rewrite (offers_take n _ [] Hnz) in Hrun by (cbn; lia). cbn [length app] in Hrun. rewrite Nat.sub_0_r in Hrun.
  erewrite cbind_Ok; [|cbn [range_attempts]; rewrite (cbind_Ok (cgets root) _ _ r _) by done; rewrite (cbind_Ok _ _ _ _ _ Hrun); reflexivity].
  rewrite (cbind_Ok _ _ _ _ _ Hx). cbn [found]. unfold cret. do 3 f_equal. unfold more. cbn [toContinue].
  destruct (Nat.ltb_spec n (length L)) as [Hn|Hn].
  - destruct (lookup_lt_is_Some_2 (leaves (m := m) L) n) as (k & Hk); [unfold leaves; by rewrite length_fmap|]. rewrite Hk. cbn.
    rewrite list.Forall_lookup in Hnz. by rewrite (proj2 (Z.eqb_neq k 0) (Hnz n k Hk)).
  - rewrite lookup_ge_None_2; [done|]. unfold leaves. by rewrite length_fmap.
Qed.

End program.

(** C26: Range lookups, as far as they work. After any sequence of operations, when the first
    byte of the start is smaller than that of the end and no key in the tree begins with one of
    these two bytes, [lookupRange] fills the result with the keys in the range, the smallest ones
    first, as many as there is room for, and tells whether there are more. *)
Theorem lookupRange_between `{!Allocator} (init : Z) (t : nat) (ops : list op) (a b : Z) (lo hi : list Z) (n : nat) :
  legal_ops ∅ ops -> Z.of_nat (length ops) < 2 ^ 60 - 3 -> valid_key (a :: lo) -> valid_key (b :: hi) -> a < b ->
  (forall key, is_Some (spec_end ops ∅ !! key) -> head key <> Some a /\ head key <> Some b) ->
  exists s s' L, (Tree_new;; getThreadInfo init t;; run_ops t ops) art_start = Ok (spec_ops ops ∅, s) /\
    run_range t n (a :: lo) (b :: hi) s = Ok ((Some <$> take n L, Nat.ltb n (length L)), s') /\
    StronglySorted (fun x y => lex x.1 y.1 = true) L /\
    forall key v, (key, v) ∈ L <-> spec_end ops ∅ !! key = Some v /\ lex (a :: lo) key = true /\ lex key (b :: hi) = true.
Proof.
  intros HL Hn Hva Hvb Hab Hout. destruct (fresh_run init t ops HL Hn) as (s & Hs & HR). exists s. set (M := spec_end ops ∅) in *.
  destruct (leaf_made t _ M s (a :: lo) 0 HR Hva) as (ka & s1 & H1 & HR1 & Hka & _). destruct (leaf_made t _ M s1 (b :: hi) 0 HR1 Hvb) as (kb & s2 & H2 & HR2 & Hkb & _).
  assert (Hka2 : key_ok (keys s2) ka (a :: lo)).
  { destruct (make_leaf_run (b :: hi) 0 s1 Hvb) as (kb' & H2' & Hnew & _). rewrite H2' in H2. injection H2 as <- <-. cbn [keys set_keys].
    eapply key_ok_mono; [|exact Hka]. by apply insert_subseteq. }
  destruct HR2 as (V & m & A & Ht & HM). pose proof (ok_trie _ _ _ _ A) as T.
  assert (Hval : forall bs v, M !! bs = Some v <-> exists k x, m !! bs = Some k /\ keys s2 !! k = Some x /\ fkey x = bs /\ value x = v).
  { intros bs v. rewrite HM. split.
    - intros Hv. destruct (m !! bs) as [k|] eqn:Em; [|by rewrite (proj2 (values_None T bs)) in Hv].
      destruct (values_Some T bs k Em) as (x & Hx & Hv' & _). destruct (tr_map _ _ _ _ T _ _ Em) as [((y & Hy & Hf & _) & _) _].
      exists k, x. split_and!; [done|done|congruence|congruence].
    - intros (k & x & Hm & Hx & _ & <-). destruct (values_Some T bs k Hm) as (y & Hy & Hv & _). congruence. }
  assert (Hsome : forall bs, is_Some (m !! bs) <-> is_Some (M !! bs)).
  { intros bs. rewrite <- !not_eq_None_Some, HM, (values_None T bs). done. }
  destruct (lookupRange_run t _ V m s2 ka kb a b lo hi n A Ht Hka2 Hkb Hab) as (L & s' & HsL & HLin & Hrun & HK).
  { intros bs Hb. apply Hout. by apply Hsome. }
  exists s', ((fun bs => (bs, default 0 (M !! bs))) <$> L). split; [done|]. split; [|split].
  - unfold run_range. rewrite (cbind_Ok _ _ _ _ _ H1), (cbind_Ok _ _ _ _ _ H2), (cbind_Ok _ _ _ _ _ Hrun). unfold read_keys, cgets, cbind, cret. cbn [fst snd].
    rewrite length_fmap. do 3 f_equal. rewrite HK. unfold leaves. rewrite <- !fmap_take, <- !list_fmap_compose. apply list_fmap_ext. intros i bs Hi. cbn.
    assert (Hin : bs ∈ L) by (eapply list_elem_of_lookup_2, lookup_take_Some, Hi). apply HLin in Hin as [Hm _]. apply Hsome in Hm as (v & Hv).
    pose proof Hv as (k & x & Hk & Hx & Hf & Hvx)%Hval. rewrite Hk, Hv. cbn. by rewrite Hx, <- Hf, <- Hvx.
  - clear - HsL. induction HsL as [|x l Hs IH Hf]; cbn; [constructor|]. constructor; [done|]. apply list.Forall_fmap. exact Hf.
  - intros key v. rewrite list_elem_of_fmap. split.
    + intros (bs & [= -> ->] & [Hm Hlex]%HLin). apply Hsome in Hm as (v & Hv). by rewrite Hv.
    + intros [Hv Hlex]. exists key. rewrite Hv. split; [done|]. apply HLin. split; [apply Hsome; by eexists|done].
Qed.

(** Insertions of different keys of one length are legal. *)
Lemma puts_legal (n : nat) (kvs : list (list Z * Z)) : forall M : gmap (list Z) Z,
  (0 < n)%nat -> (forall bs v, M !! bs = Some v -> length bs = n) ->
  Forall (fun kv => valid_key kv.1 /\ length kv.1 = n /\ M !! kv.1 = None) kvs -> NoDup kvs.*1 ->
  legal_ops M ((fun kv => Put kv.1 kv.2) <$> kvs).
Proof.
  induction kvs as [|[k v] kvs IH]; intros M Hn HM Hf Hd; [done|]. apply list.Forall_cons in Hf as [(Hv & Hl & HN) Hf]. apply list.NoDup_cons in Hd as [Hk Hd].
  cbn [fmap list_fmap legal_ops legal spec_op snd fst] in *. split; [split; [done|by apply (fixed_length_legal M k n)]|]. apply IH; [done| | |done].
  - intros bs w [[<- _]|[_ ?]]%lookup_insert_Some; [done|by eapply HM].
  - rewrite list.Forall_forall in Hf |- *. intros [k' w] Hin. specialize (Hf _ Hin) as (? & ? & ?). cbn in *. split_and!; [done..|].
    rewrite lookup_insert_ne; [done|]. intros <-. apply Hk. by apply (list_elem_of_fmap_2 fst _ (k, w)).
Qed.

Definition kvs1 : list (list Z * Z) := [([2; 1], 5); ([1; 7], 6); ([3; 0], 7); ([2; 0], 8)].
Definition ops2 : list op := (fun kv => Put kv.1 kv.2) <$> kvs1.

Lemma lookupRange_between_witness :
  exists s s' L, (Tree_new;; getThreadInfo 0 0;; run_ops 0 ops2) art_start = Ok (spec_ops ops2 ∅, s) /\
    run_range 0 3 [0; 9] [200] s = Ok ((Some <$> take 3 L, Nat.ltb 3 (length L)), s') /\
    StronglySorted (fun x y => lex x.1 y.1 = true) L /\
    forall key v, (key, v) ∈ L <-> spec_end ops2 ∅ !! key = Some v /\ lex [0; 9] key = true /\ lex key [200] = true.
Proof.
  apply (lookupRange_between 0 0 ops2 0 200 [9] [] 3).
  - apply (puts_legal 2); [lia|done| |apply (bool_decide_unpack _); vm_compute; exact I].
    repeat (apply list.Forall_cons; split; [split_and!; [split; [repeat (apply list.Forall_cons; split; [unfold byte; lia|]); by apply list.Forall_nil|cbn; lia]|done|done]|]). by apply list.Forall_nil.
  - vm_compute. reflexivity.
  - split; [repeat (apply list.Forall_cons; split; [unfold byte; lia|]); by apply list.Forall_nil|cbn; lia].
  - split; [repeat (apply list.Forall_cons; split; [unfold byte; lia|]); by apply list.Forall_nil|cbn; lia].
  - lia.
  - cbn. intros key [v Hv]. repeat (apply lookup_insert_Some in Hv as [[<- _]|[_ Hv]]; [split; discriminate|]). done.
Defined.

(** What a run returns. *)
Definition answer {A S} (r : res (A * S)) : res A := match r with Ok (x, _) => Ok x | Err e => Err e end.

Definition range_after (ops : list op) (lo hi : list Z) : res (list (option (list Z * Z)) * bool) :=
  answer ((Tree_new;; getThreadInfo 0 0;; run_ops 0 ops;; run_range 0 9 lo hi) art_start).

(** Elsewhere range lookups are wrong. With the keys 1 2 3 and 5 0 0 in the tree, the range
    from 1 9 9 to 9 0 0 includes 1 2 3, which is smaller; the range from 0 0 0 to 5 0 9 misses 5 0 0,
    which is in it; the range from 1 0 0 to 1 9 9 makes the code take the leaf of 1 2 3 for a node.
    With the keys 1 2 3 4 and 1 2 3 5, the range from 1 2 0 0 to 1 3 1 0 is empty, although both
    are in it: the second byte is that of the start and smaller than that of the end, and the third
    one is still compared with that of the end. *)
Example lookupRange_wrong :
  range_after [Put [1; 2; 3] 7; Put [5; 0; 0] 8] [1; 9; 9] [9; 0; 0] = Ok ([Some ([1; 2; 3], 7); Some ([5; 0; 0], 8)], false) /\
  range_after [Put [1; 2; 3] 7; Put [5; 0; 0] 8] [0; 0; 0] [5; 0; 9] = Ok ([Some ([1; 2; 3], 7)], false) /\
  range_after [Put [1; 2; 3] 7; Put [5; 0; 0] 8] [1; 0; 0] [1; 9; 9] = Err UB_access /\
  range_after [Put [1; 2; 3; 4] 7; Put [1; 2; 3; 5] 8] [1; 2; 0; 0] [1; 3; 1; 0] = Ok ([], false).
Proof. vm_compute. split_and!; reflexivity. Qed.
