(* ===== verification/ArtDelete.v ===== *)
(** * P-ART: small epochs, and the destructor

    The current epoch grows by at most one with an operation, and the labels of what waits are not
    ahead of it. Everything an operation of the tree does to the epochs it does with
    [enterEpoche], [markNodeForDeletion] and [exitEpocheAndCleanup]; the rest keeps them. *)

From S2P Require Import Prelude ArtNode ArtSlots ArtLayout ArtClass Epoche ArtTree.
From S2P Require Import ArtTrie ArtTrieUpd ArtRep ArtPrefix ArtState ArtSpec.
#[local] Open Scope Z_scope.
#[local] Open Scope cmd_scope.

(** Neither the current epoch nor a label is beyond [k]; [D] are the threads. *)
Definition epochs_below (D : gset nat) (k : Z) (e : Epoche) : Prop :=
  0 <= currentEpoche e <= k /\ dom (deletionLists e) = D /\ forall t d, deletionLists e !! t = Some d -> Forall (fun l => lepoche l <= k) (headDeletionList d).

Lemma epochs_below_mono D k k' e : epochs_below D k e -> k <= k' -> epochs_below D k' e.
Proof. intros (H1 & HD & H2) Hk. split; [lia|]. split; [done|]. intros t d Hd. eapply list.Forall_impl; [by eapply H2|]. cbn. lia. Qed.

(** ** The operations of the epochs *)

Definition keepsE (D : gset nat) (k : Z) (mt : stM Epoche unit) : Prop := forall e x e', mt e = Ok (x, e') -> epochs_below D k e -> epochs_below D k e'.

Lemma below_update D k e t d d' th rel :
  epochs_below D k e -> deletionLists e !! t = Some d -> Forall (fun l => lepoche l <= k) (headDeletionList d') ->
  epochs_below D k (mkEpoche (currentEpoche e) (<[t := d']> (deletionLists e)) th rel).
Proof. intros (H1 & HD & H2) Hd Hf. split; [done|]. split; [rewrite <- HD; by apply dom_insert_lookup_L|]. cbn. intros t' d'' [[<- <-]|[_ H]]%lookup_insert_Some; [done|by eapply H2]. Qed.

(** A change of one list that leaves its labels. *)
Lemma on_list_below {A} D k t (mt : stM DeletionList A) e x e' :
  on_list t mt e = Ok (x, e') -> epochs_below D k e ->
  (forall d d', deletionLists e !! t = Some d -> mt d = Ok (x, d') -> Forall (fun l => lepoche l <= k) (headDeletionList d) -> Forall (fun l => lepoche l <= k) (headDeletionList d')) ->
  epochs_below D k e' /\ currentEpoche e' = currentEpoche e.
Proof.
  intros Hr He Hk. unfold on_list in Hr. destruct (deletionLists e !! t) as [d|] eqn:Ed; [|done]. destruct (mt d) as [[y d']|] eqn:Em; [|done].
  injection Hr as <- <-. split; [|done]. eapply below_update; [done|done|]. eapply Hk; [done|done|]. by eapply He.
Qed.

Lemma enterEpoche_below D k t : keepsE D k (enterEpoche t).
Proof.
  intros e x e' Hr He. apply cbind_inv in Hr as (c & e1 & H1 & H2). injection H1 as <- <-. eapply on_list_below in H2 as [H2 _]; [done|done|].
  intros d d' _ Hd Hf. by injection Hd as _ <-.
Qed.

Lemma DeletionList_add_below k n c d x d' :
  DeletionList_add n c d = Ok (x, d') -> c <= k -> Forall (fun l => lepoche l <= k) (headDeletionList d) -> Forall (fun l => lepoche l <= k) (headDeletionList d').
Proof.
  intros Hr Hc Hf. unfold DeletionList_add in Hr.
  assert (Hpick : Forall (fun l => lepoche l <= k) (match headDeletionList d with
    | l :: rest => if nodesCount l <? Z.of_nat (length (lnodes l)) then rest else l :: rest | [] => [] end)).
  { destruct (headDeletionList d) as [|l rest]; [done|]. destruct (_ <? _); [|done]. by apply list.Forall_cons in Hf as [_ ?]. }
  destruct (headDeletionList d) as [|l rest]; [destruct (freeLabelDeletes d)|destruct (nodesCount l <? _); [|destruct (freeLabelDeletes d)]].
  all: destruct (_ && _) in Hr; [|done]; injection Hr as _ <-; cbn [headDeletionList]; apply list.Forall_cons; split; done.
Qed.

Lemma markNodeForDeletion_below D k n t : keepsE D k (markNodeForDeletion n t).
Proof.
  intros e x e' Hr He. apply cbind_inv in Hr as (c & e1 & H1 & H2). injection H1 as <- <-. apply cbind_inv in H2 as (y & e1 & H1 & H2).
  eapply on_list_below in H1 as [H1 _]; [|done|].
  - eapply on_list_below in H2 as [H2 _]; [done|done|]. intros d d' _ Hd Hf. by injection Hd as _ <-.
  - intros d d' _ Hd Hf. eapply DeletionList_add_below; [done| |done]. destruct He as (He & _). lia.
Qed.

Lemma DeletionList_remove_below k pos d x d' :
  DeletionList_remove pos d = Ok (x, d') -> Forall (fun l => lepoche l <= k) (headDeletionList d) -> Forall (fun l => lepoche l <= k) (headDeletionList d').
Proof. unfold DeletionList_remove. destruct (headDeletionList d !! pos); [|done]. intros [= _ <-] Hf. by apply Forall_delete. Qed.

Lemma cleanup_below D k oldest t fuel : forall pos, keepsE D k (cleanup fuel oldest t pos).
Proof.
  induction fuel as [|fuel IH]; intros pos e x e' Hr He; [done|]. cbn [cleanup] in Hr. apply cbind_inv in Hr as (d & e1 & H1 & H2).
  eapply on_list_below in H1 as [H1 _]; [|done|intros d0 d' _ Hd Hf; by injection Hd as _ <-].
  destruct (headDeletionList d !! pos) as [cur|]; [|by injection H2 as _ <-]. destruct (lepoche cur <? oldest); [|by eapply IH].
  apply cbind_inv in H2 as (y & e2 & H2 & H3). rewrite operator_delete_run in H2. injection H2 as _ <-.
  apply cbind_inv in H3 as (z & e3 & H3 & H4). eapply on_list_below in H3 as [H3 _]; [|split_and!; apply H1|intros d0 d' _ Hd Hf; by eapply DeletionList_remove_below].
  by eapply IH.
Qed.

(** Leaving an epoch may open the next one. *)
Lemma exitEpocheAndCleanup_below D k t e x e' :
  exitEpocheAndCleanup t e = Ok (x, e') -> epochs_below D k e -> 0 <= k < 2 ^ 64 - 1 -> epochs_below D (k + 1) e'.
Proof.
  intros Hr He Hk. apply cbind_inv in Hr as (d & e1 & H1 & H2). eapply on_list_below in H1 as [H1 Hc1]; [|done|intros d0 d' _ Hd Hf; by injection Hd as _ <-].
  apply cbind_inv in H2 as (u & e2 & H2 & H3). assert (He2 : epochs_below D (k + 1) e2).
  { destruct (_ =? 1); injection H2 as _ <-; [|eapply epochs_below_mono; [done|lia]]. destruct H1 as (H1 & HD & H1'). split_and!; cbn.
    - rewrite u64_small; lia.
    - rewrite u64_small; lia.
    - done.
    - intros t' d' Hd. eapply list.Forall_impl; [by eapply H1'|]. cbn. lia. }
  apply cbind_inv in H3 as (th & e3 & H3 & H4). injection H3 as <- <-. destruct (_ <? _); [|by injection H4 as _ <-]. destruct (_ =? 0).
  - eapply on_list_below in H4 as [H4 _]; [done|done|]. intros d0 d' _ Hd Hf. by injection Hd as _ <-.
  - apply cbind_inv in H4 as (y & e3 & H4 & H5). eapply on_list_below in H4 as [H4 _]; [|done|intros d0 d' _ Hd Hf; by injection Hd as _ <-].
    apply cbind_inv in H5 as (o & e4 & H5 & H6). injection H5 as <- <-. apply cbind_inv in H6 as (z & e4 & H5 & H6).
    pose proof (cleanup_below _ _ _ _ _ _ _ _ _ H5 H4) as H7. eapply on_list_below in H6 as [H6 _]; [done|done|]. intros d0 d' _ Hd Hf. by injection Hd as _ <-.
Qed.

(** ** The operations of the tree

    [keeps D k] says that a computation on the tree keeps [epochs_below D k]. *)

Definition keeps {A} (D : gset nat) (k : Z) (mt : stM art A) : Prop :=
  forall s x s', mt s = Ok (x, s') -> epochs_below D k (epoche s) -> epochs_below D k (epoche s').

(** A computation that does not touch the epochs at all. *)
Lemma keeps_same {A} D k (mt : stM art A) : (forall s x s', mt s = Ok (x, s') -> epoche s' = epoche s) -> keeps D k mt.
Proof. intros H s x s' Hr He. by rewrite (H s x s' Hr). Qed.

Lemma keeps_cbind {A B} D k (mt : stM art A) (f : A -> stM art B) : keeps D k mt -> (forall x, keeps D k (f x)) -> keeps D k (cbind mt f).
Proof. intros Hm Hf s x s' Hr He. apply cbind_inv in Hr as (y & s1 & H1 & H2). eapply Hf; [done|]. by eapply Hm. Qed.

Lemma keeps_cret {A} D k (x : A) : keeps D k (cret x).
Proof. apply keeps_same. by intros s y s' [= _ <-]. Qed.

Lemma keeps_cfail {A} D k e : keeps (A := A) D k (cfail e).
Proof. by intros s x s' Hr. Qed.

Lemma keeps_cgets {A} D k (f : art -> A) : keeps D k (cgets f).
Proof. apply keeps_same. by intros s y s' [= _ <-]. Qed.

Lemma keeps_cassert D k b : keeps D k (cassert b).
Proof. destruct b; [apply keeps_cret|apply keeps_cfail]. Qed.

Lemma keeps_arr_get {A} D k (l : list A) i : keeps D k (arr_get l i).
Proof. unfold arr_get. repeat case_match; first [apply keeps_cret | apply keeps_cfail]. Qed.

Lemma keeps_arr_set {A} D k (l : list A) i x : keeps D k (arr_set l i x).
Proof. unfold arr_set. case_match; first [apply keeps_cret | apply keeps_cfail]. Qed.

Lemma keeps_at_node {A} D k a (mt : stM NS A) : keeps D k (at_node a mt).
Proof. apply keeps_same. intros s x s' Hr. unfold at_node in Hr. destruct (nodes s !! a); [|done]. destruct (mt _) as [[y ns]|]; [|done]. by injection Hr as _ <-. Qed.

Lemma keeps_art_clflush D k : keeps D k art_clflush.
Proof. apply keeps_same. by intros s x s' [= _ <-]. Qed.

Lemma delete_N_epoche a s x s' : delete_N a s = Ok (x, s') -> epoche s' = epoche s.
Proof. unfold delete_N. destruct (nodes s !! a); [|done]. by intros [= _ <-]. Qed.

Lemma keeps_delete_N D k a : keeps D k (delete_N a).
Proof. apply keeps_same. apply delete_N_epoche. Qed.

Lemma keeps_on_epoche D k mt : keepsE D k mt -> keeps D k (on_epoche mt).
Proof.
  intros Hm s x s' Hr He. unfold on_epoche in Hr. destruct (mt (epoche s)) as [[y ep]|] eqn:E; [|done]. apply (Hm _ _ _ E) in He.
  assert (H : forall l s x s', cfor l delete_N s = Ok (x, s') -> epoche s' = epoche s).
  { induction l as [|a l IH]; intros s0 x0 s0' H; [by injection H as _ <-|]. cbn [cfor] in H. apply cbind_inv in H as (z & s1 & H1 & H2).
    rewrite (IH _ _ _ H2). by eapply delete_N_epoche. }
  by rewrite (H _ _ _ _ Hr).
Qed.

Lemma keeps_cfold {A L} D k (l : list A) (f : A -> L -> stM art L) : (forall a acc, keeps D k (f a acc)) -> forall acc, keeps D k (cfold l f acc).
Proof. intros H. induction l as [|a l IH]; intros acc; [apply keeps_cret|]. cbn [cfold]. apply keeps_cbind; [apply H|apply IH]. Qed.

Lemma keeps_cloop {A L R} D k (l : list A) (f : A -> L -> stM art (L + R)) : (forall a acc, keeps D k (f a acc)) -> forall acc, keeps D k (cloop l f acc).
Proof.
  intros H. induction l as [|a l IH]; intros acc; [apply keeps_cret|]. cbn [cloop]. apply keeps_cbind; [apply H|]. intros [acc'|x]; [apply IH|apply keeps_cret].
Qed.

Create HintDb keeps.
#[export] Hint Resolve keeps_cret keeps_cfail keeps_cgets keeps_cassert keeps_arr_get keeps_arr_set keeps_at_node keeps_art_clflush
  keeps_delete_N keeps_on_epoche enterEpoche_below markNodeForDeletion_below : keeps.

(** Follow the structure of a computation. *)
Ltac keep :=
  cbn beta zeta;
  lazymatch goal with
  | |- keeps _ _ (cbind _ _) => apply keeps_cbind; [keep|intros ?; keep]
  | |- keeps _ _ (cfold _ _ _) => apply keeps_cfold; intros ? ?; keep
  | |- keeps _ _ (cloop _ _ _) => apply keeps_cloop; intros ? ?; keep
  | |- keeps _ _ (match ?x with _ => _ end) => destruct x; keep
  | |- _ => auto with keeps
  end.

Section ops.
Context `{!Allocator} (D : gset nat) (k : Z).

Lemma keeps_getKeyLen a : keeps D k (getKeyLen a).
Proof. apply keeps_same. intros s x s' Hr. unfold getKeyLen in Hr. destruct (keys s !! a); [|done]. by injection Hr as _ <-. Qed.

Lemma keeps_key_byte a i : keeps D k (key_byte a i).
Proof. intros s x s' Hr He. unfold key_byte in Hr. destruct (keys s !! a); [|done]. by eapply keeps_arr_get. Qed.

Lemma keeps_checkKey a b : keeps D k (checkKey a b).
Proof. apply keeps_same. intros s x s' Hr. unfold checkKey in Hr. repeat case_match; simplify_eq; done. Qed.

Lemma keeps_key_bytes_from a i : keeps D k (key_bytes_from a i).
Proof. apply keeps_same. intros s x s' Hr. unfold key_bytes_from in Hr. destruct (keys s !! a); [|done]. by injection Hr as _ <-. Qed.

Lemma keeps_new_N n : keeps D k (new_N n).
Proof. apply keeps_same. by intros s x s' [= _ <-]. Qed.

Lemma keeps_make_leaf key len v : keeps D k (make_leaf key len v).
Proof. apply keeps_same. intros s x s' Hr. unfold make_leaf in Hr. destruct (_ && _); [|done]. by injection Hr as _ <-. Qed.

Lemma keeps_prefix_byte p i : keeps D k (prefix_byte p i).
Proof. unfold prefix_byte. keep. Qed.

#[local] Hint Resolve keeps_getKeyLen keeps_key_byte keeps_checkKey keeps_key_bytes_from keeps_new_N keeps_make_leaf keeps_prefix_byte : keeps.

Lemma keeps_getAnyChildTid a : keeps D k (getAnyChildTid a).
Proof.
  assert (Hloop : forall fuel a, keeps D k (getAnyChildTid_loop fuel a)).
  { induction fuel as [|fuel IH]; intros b; cbn [getAnyChildTid_loop]; keep. }
  intros s x s' Hr He. by eapply Hloop.
Qed.

#[local] Hint Resolve keeps_getAnyChildTid : keeps.

Lemma keeps_checkPrefix n key lv : keeps D k (checkPrefix n key lv).
Proof. unfold checkPrefix. keep. Qed.

Lemma keeps_pessimistic_step n key p pl i acc : keeps D k (pessimistic_step n key p pl i acc).
Proof. unfold pessimistic_step. keep. Qed.

Lemma keeps_recoverPrefix n lv p : keeps D k (recoverPrefix n lv p).
Proof. unfold recoverPrefix. keep. Qed.

#[local] Hint Resolve keeps_checkPrefix keeps_pessimistic_step keeps_recoverPrefix : keeps.

Lemma keeps_checkPrefixPessimistic n key lv : keeps D k (checkPrefixPessimistic n key lv).
Proof. unfold checkPrefixPessimistic. keep. Qed.

Lemma keeps_lookup_loop fuel : forall key n lv o, keeps D k (lookup_loop fuel key n lv o).
Proof. induction fuel as [|fuel IH]; intros key n lv o; cbn [lookup_loop]; keep. Qed.

Lemma keeps_swapIn a b c d t : keeps D k (swapIn a b c d t).
Proof. unfold swapIn. keep. Qed.

#[local] Hint Resolve keeps_checkPrefixPessimistic keeps_lookup_loop keeps_swapIn : keeps.

Lemma keeps_insertGrow c b n p kp key v t : keeps D k (insertGrow c b n p kp key v t).
Proof. unfold insertGrow. keep. Qed.

Lemma keeps_insertCompact c n p kp key v t : keeps D k (insertCompact c n p kp key v t).
Proof. unfold insertCompact. keep. Qed.

Lemma keeps_removeAndShrink c b n p kp key t : keeps D k (removeAndShrink c b n p kp key t).
Proof. unfold removeAndShrink. keep. Qed.

#[local] Hint Resolve keeps_insertGrow keeps_insertCompact keeps_removeAndShrink : keeps.

Lemma keeps_insertAndUnlock n p kp key v t : keeps D k (insertAndUnlock n p kp key v t).
Proof. unfold insertAndUnlock, insertCase. keep. Qed.

Lemma keeps_removeAndUnlock n key p kp t : keeps D k (removeAndUnlock n key p kp t).
Proof. unfold removeAndUnlock. keep. Qed.

Lemma keeps_common_prefix fuel : forall a b lv n, keeps D k (common_prefix fuel a b lv n).
Proof. induction fuel as [|fuel IH]; intros a b lv n; cbn [common_prefix]; keep. Qed.

#[local] Hint Resolve keeps_insertAndUnlock keeps_removeAndUnlock keeps_common_prefix : keeps.

Lemma keeps_insert_split a b c d v l nl nk rem : keeps D k (insert_split a b c d v l nl nk rem).
Proof. unfold insert_split. keep. Qed.

Lemma keeps_insert_leaf a b v l nn : keeps D k (insert_leaf a b v l nn).
Proof. unfold insert_leaf. keep. Qed.

Lemma keeps_remove_merge n nk p pk t : keeps D k (remove_merge n nk p pk t).
Proof. unfold remove_merge. keep. Qed.

#[local] Hint Resolve keeps_insert_split keeps_insert_leaf keeps_remove_merge : keeps.

Lemma keeps_insert_loop fuel : forall key t n nk nn lv, keeps D k (insert_loop fuel key t n nk nn lv).
Proof. induction fuel as [|fuel IH]; intros key t n nk nn lv; cbn [insert_loop]; keep. Qed.

Lemma keeps_tree_remove_loop fuel : forall key t n nk nn lv, keeps D k (tree_remove_loop fuel key t n nk nn lv).
Proof. induction fuel as [|fuel IH]; intros key t n nk nn lv; cbn [tree_remove_loop]; unfold remove_absent, remove_leaf; keep. Qed.

Lemma keeps_attempts fuel m : keeps D k m -> keeps D k (attempts fuel m).
Proof. intros Hm. induction fuel as [|fuel IH]; cbn [attempts]; keep. Qed.

End ops.

(** ** Operations one after the other *)

#[export] Hint Resolve keeps_getKeyLen keeps_make_leaf keeps_insert_loop keeps_tree_remove_loop keeps_lookup_loop keeps_attempts : keeps.

Lemma exit_below D k t s x s' :
  on_epoche (exitEpocheAndCleanup t) s = Ok (x, s') -> epochs_below D k (epoche s) -> 0 <= k < 2 ^ 64 - 1 -> epochs_below D (k + 1) (epoche s').
Proof.
  intros Hr He Hk. unfold on_epoche in Hr. destruct (exitEpocheAndCleanup t (epoche s)) as [[y ep]|] eqn:E; [|done].
  apply (exitEpocheAndCleanup_below D k) in E; [|done|done].
  assert (Hl : forall l, keeps D (k + 1) (cfor l delete_N)).
  { induction l as [|a l IH]; [apply keeps_cret|]. cbn [cfor]. keep. }
  exact (Hl _ _ _ _ Hr E).
Qed.

Lemma keeps_then {A B} D k (mt : stM art A) (f : A -> stM art B) s x s' :
  cbind mt f s = Ok (x, s') -> keeps D k mt -> epochs_below D k (epoche s) -> exists y s1, f y s1 = Ok (x, s') /\ epochs_below D k (epoche s1).
Proof. intros Hr Hm He. apply cbind_inv in Hr as (y & s1 & H1 & H2). exists y, s1. split; [done|]. by eapply Hm. Qed.

Lemma run_op_below `{!Allocator} D k t o s x s' :
  run_op t o s = Ok (x, s') -> epochs_below D k (epoche s) -> 0 <= k < 2 ^ 64 - 1 -> epochs_below D (k + 1) (epoche s').
Proof.
  intros Hr He Hk. assert (Hup : forall k' e, epochs_below D k e -> k <= k' -> epochs_below D k' e) by (intros; by eapply epochs_below_mono).
  destruct o as [key v|key|key]; cbn [run_op] in Hr.
  - apply cbind_inv in Hr as (ka & s1 & H1 & H2). pose proof (keeps_make_leaf D k _ _ _ _ _ _ H1 He) as He1. apply cbind_inv in H2 as (y & s2 & H2 & H3). injection H3 as _ <-.
    unfold Tree_insert in H2. repeat (eapply keeps_then in H2 as (? & ? & H2 & ?); [|solve [auto with keeps]|eassumption]). by eapply exit_below.
  - eapply Hup; [|lia]. apply (fun (P : keeps D k _) => P _ _ _ Hr He). unfold Tree_lookup. keep.
    apply keeps_same. intros s0 y s0' Hld. unfold load_value in Hld. repeat case_match; simplify_eq; done.
  - apply cbind_inv in Hr as (ka & s1 & H1 & H2). pose proof (keeps_make_leaf D k _ _ _ _ _ _ H1 He) as He1. apply cbind_inv in H2 as (y & s2 & H2 & H3). injection H3 as _ <-.
    unfold Tree_remove in H2. repeat (eapply keeps_then in H2 as (? & ? & H2 & ?); [|solve [auto with keeps]|eassumption]). by eapply exit_below.
Qed.

Lemma run_ops_below `{!Allocator} D t ops : forall k s x s',
  run_ops t ops s = Ok (x, s') -> epochs_below D k (epoche s) -> 0 <= k -> k + Z.of_nat (length ops) < 2 ^ 64 -> epochs_below D (k + Z.of_nat (length ops)) (epoche s').
Proof.
  induction ops as [|o ops IH]; intros k s x s' Hr He Hk Hn; cbn [run_ops length] in *.
  - injection Hr as _ <-. by rewrite Z.add_0_r.
  - apply cbind_inv in Hr as (y & s1 & H1 & H2). apply cbind_inv in H2 as (ys & s2 & H2 & H3). injection H3 as _ <-.
    apply (run_op_below D k) in H1; [|done|lia]. apply (IH (k + 1)) in H2; [|done|lia|lia].
    by replace (k + Z.of_nat (S (length ops))) with (k + 1 + Z.of_nat (length ops)) by lia.
Qed.

(** A fresh tree with one thread. *)
Lemma fresh_below `{!Allocator} init t s x s' :
  (Tree_new;; getThreadInfo init t) s = Ok (x, s') -> epochs_below {[t]} 0 (epoche s').
Proof.
  intros Hr. apply cbind_inv in Hr as (y & s1 & H1 & H2). assert (He : epoche s1 = mkEpoche 0 ∅ 256 []).
  { unfold Tree_new in H1. apply cbind_inv in H1 as (r & s2 & _ & H1). apply cbind_inv in H1 as (u & s3 & H3 & H1). injection H3 as _ <-.
    apply cbind_inv in H1 as (w & s4 & H4 & H1). injection H1 as _ <-. unfold at_node in H4. cbn [nodes set_epoche with_root] in H4.
    destruct (nodes s2 !! r); [|done]. destruct (N_clflush _ _ _) as [[? ns]|]; [|done]. by injection H4 as _ <-. }
  unfold getThreadInfo, on_epoche, ThreadInfo_new, cmod in H2. rewrite He in H2. cbn [deletionLists released] in H2. rewrite lookup_empty in H2.
  cbn [released length drop cfor] in H2. injection H2 as _ <-. cbn [epoche set_epoche]. split; [done|]. cbn [deletionLists]. split; [by rewrite dom_insert_L, dom_empty_L, union_empty_r_L|].
  intros t' d [[<- <-]|[_ ?]]%lookup_insert_Some; done.
Qed.

(** ** P-ART: the destructor

    [~Tree] walks the tree and deletes every node below the root and the root, and the destructor
    of the epochs deletes the nodes that still wait: every node is deleted once. *)

(** ** The children of a node *)

Lemma live_zip (ks cs : list Z) : length ks = length cs -> (live (zip ks cs)).*2 = filter (fun c => c <> 0) cs.
Proof.
  revert cs. induction ks as [|k ks IH]; intros [|c cs] Hl; try done. injection Hl as Hl. cbn [zip zip_with]. specialize (IH cs Hl).
  destruct (decide (c = 0)) as [->|Hc].
  - rewrite live_null, IH. rewrite filter_cons_False by (intros H; by apply H). done.
  - rewrite live_some, filter_cons_True by done. cbn [fmap list_fmap snd]. f_equal. exact IH.
Qed.

Lemma fmap_zip (g : Z -> Z) l : (fun b => (b, g b)) <$> l = zip l (g <$> l).
Proof. induction l as [|x l IH]; [done|]. cbn [fmap list_fmap]. by rewrite IH. Qed.

Lemma filter_used (ks cs : list Z) m :
  length ks = length cs -> 0 <= m -> used_below (zip ks cs) m -> filter (fun c => c <> 0) (take (Z.to_nat m) cs) = filter (fun c => c <> 0) cs.
Proof.
  intros Hl Hm Hu. rewrite <- (take_drop (Z.to_nat m) cs) at 2. rewrite list.filter_app.
  assert (E : filter (fun c => c <> 0) (drop (Z.to_nat m) cs) = []).
  2: { by rewrite E, app_nil_r. }
  destruct (filter (fun c => c <> 0) (drop (Z.to_nat m) cs)) as [|x l] eqn:E; [done|]. exfalso.
  assert (Hx : x ∈ filter (fun c => c <> 0) (drop (Z.to_nat m) cs)) by (rewrite E; left).
  apply list_elem_of_filter in Hx as [Hx0 Hx]. apply list_elem_of_lookup in Hx as (i & Hi). rewrite lookup_drop in Hi.
  destruct (lookup_lt_is_Some_2 ks (Z.to_nat m + i)) as (k & Hk); [apply lookup_lt_Some in Hi; lia|].
  assert (Hz : zip ks cs !! (Z.to_nat m + i)%nat = Some (k, x)) by (by apply zip_lookup). pose proof (Hu _ _ _ Hz Hx0). lia.
Qed.

Lemma child_list_live n : layout n -> full n -> child_list n = (live (slots (body n))).*2.
Proof.
  intros (_ & Hs & _) [_ Hf]. unfold child_list, shape in *. destruct (body n) as [ks cs|ks cs|ix cs|cs]; cbn [slots] in *.
  - destruct Hs as (H1 & H2 & H3 & H4). rewrite live_zip by congruence. apply (filter_used ks); [congruence|lia|done].
  - destruct Hs as (H1 & H2 & H3 & H4). rewrite live_zip by (rewrite length_fmap; congruence). apply (filter_used (flipSign <$> ks)); [rewrite length_fmap; congruence|lia|done].
  - destruct Hs as (H1 & H2 & _ & _ & _). destruct Hf as [Hf _].
    assert (E : (fun b => (b, child48 ix cs b)) <$> bytes256 = zip bytes256 ((fun i => if i =? emptyMarker then 0 else default 0 (cs !! Z.to_nat i)) <$> ix)).
    { rewrite fmap_zip. f_equal. apply list_eq. intros i. rewrite !list_lookup_fmap.
      destruct (bytes256 !! i) as [b|] eqn:Eb; cbn.
      - apply bytes256_lookup_inv in Eb as [Hb ->]. unfold child48. destruct (ix !! Z.to_nat b) as [j|] eqn:Ej; cbn; [done|].
        apply lookup_ge_None in Ej. unfold byte in Hb. lia.
      - apply lookup_ge_None in Eb. rewrite lookup_ge_None_2; [done|]. unfold bytes256 in Eb. rewrite length_seqZ in Eb. lia. }
    rewrite E, live_zip by (rewrite length_fmap, H1; apply length_seqZ).
    clear E H1. assert (Hall : forall i, i ∈ ix -> i <> emptyMarker -> default 0 (cs !! Z.to_nat i) <> 0).
    { intros i Hi Hne. apply list_elem_of_lookup in Hi as (b & Hb). destruct (Hf b i Hb Hne) as (_ & c & Hc & Hc0). by rewrite Hc. }
    clear Hf. induction ix as [|i ix IH]; [done|]. cbn [fmap list_fmap].
    assert (IH' := IH ltac:(intros j Hj; apply Hall; by right)). unfold fmap in IH'. destruct (Z.eqb_spec i emptyMarker) as [->|Hne].
    + rewrite filter_cons_False by (intros H; by apply H). rewrite filter_cons_False by (intros H; by apply H). exact IH'.
    + rewrite !filter_cons_True by (first [done | apply Hall; [left|done]]). cbn [fmap list_fmap]. f_equal. exact IH'.
  - rewrite live_zip; [done|]. rewrite Hs. apply length_seqZ.
Qed.

(** ** Subtrees *)

Section subtree.
Context {K : gmap Z Key} {r : Z} {V : trie} {m : gmap (list Z) Z} (T : trie_ok K r V m).
Context {h : gmap Z NodeN} {B : Z} (HN : nodes_ok h V r B).
Context (ep : Epoche) (hs : list (gmap Z NodeN)) (li : list Z).

(** The path of node [x] begins with [pi]. *)
Definition under (pi : list Z) (x : Z) : bool :=
  match V !! x with Some xn => bool_decide (pi `prefix_of` an_path xn) | None => false end.

Lemma under_true pi x : under pi x = true <-> exists xn, V !! x = Some xn /\ pi `prefix_of` an_path xn.
Proof.
  unfold under. destruct (V !! x) as [xn|]; [|split; [done|by intros (? & ? & _)]]. rewrite bool_decide_eq_true. split; [eauto|]. by intros (? & [= ->] & ?).
Qed.

Lemma under_disjoint pi k k' x : k <> k' -> under (pi ++ [k]) x = true -> under (pi ++ [k']) x = false.
Proof.
  intros Hne (xn & Hx & Hp)%under_true. apply not_true_is_false. intros (xn' & Hx' & Hp')%under_true. rewrite Hx in Hx'. injection Hx' as <-.
  apply prefix_snoc_lookup in Hp as [_ Hp], Hp' as [_ Hp']. congruence.
Qed.

(** Below a leaf there is no node. *)
Lemma under_leaf a an b p x : V !! a = Some an -> an_ch an !! b = Some p -> isLeaf p = true -> under (an_path an ++ [b]) x = false.
Proof.
  intros Ha Hb Hl. apply not_true_is_false. intros (xn & Hx & Hp)%under_true. pose proof Hp as [Hpa Hk]%prefix_snoc_lookup.
  destruct (descend T a an x xn Ha Hx Hpa) as (b' & c & cn & H1 & H2 & _ & _ & H5).
  { intros ->. rewrite Ha in Hx. injection Hx as <-. apply lookup_lt_Some in Hk. lia. }
  rewrite Hk in H1. injection H1 as <-. rewrite Hb in H2. injection H2 as <-. congruence.
Qed.

(** Below a child there are the child and what is below its children. *)
Lemma under_node a an b p cn x : V !! a = Some an -> an_ch an !! b = Some p -> V !! p = Some cn ->
  under (an_path an ++ [b]) x = true <-> x = p \/ exists k c, an_ch cn !! k = Some c /\ under (an_path cn ++ [k]) x = true.
Proof.
  intros Ha Hb Hp. destruct (edge_node T _ _ _ _ _ Ha Hb Hp) as [_ Hpre]. rewrite under_true. split.
  - intros (xn & Hx & Hpx). destruct (decide (x = p)) as [->|Hne]; [by left|]. right. pose proof Hpx as [Hpa Hk]%prefix_snoc_lookup.
    destruct (descend T a an x xn Ha Hx Hpa) as (b' & c & cn' & H1 & H2 & H3 & H4 & _).
    { intros ->. rewrite Ha in Hx. injection Hx as <-. apply lookup_lt_Some in Hk. lia. }
    rewrite Hk in H1. injection H1 as <-. rewrite Hb in H2. injection H2 as <-. rewrite Hp in H3. injection H3 as <-.
    destruct (descend T p cn x xn Hp Hx H4) as (k & c & cn' & H1 & H2 & _); [done|]. exists k, c. split; [done|]. apply under_true. exists xn. split; [done|]. by apply prefix_snoc_lookup.
  - intros [->|(k & c & Hk & (xn & Hx & Hpx)%under_true)]; [by exists cn|]. exists xn. split; [done|]. apply prefix_snoc_lookup in Hpx as [Hpx _]. by transitivity (an_path cn).
Qed.

Lemma not_under_self cn p k : V !! p = Some cn -> under (an_path cn ++ [k]) p = false.
Proof.
  intros Hp. apply not_true_is_false. intros (xn & Hx & Hpre)%under_true. rewrite Hp in Hx. injection Hx as <-.
  apply prefix_length in Hpre. rewrite length_app in Hpre. cbn in Hpre. lia.
Qed.

Definition deletes (fuel : nat) (an : anode) (kc : Z * Z) : Prop := forall H,
  (forall x, under (an_path an ++ [kc.1]) x = true -> H !! x = h !! x) ->
  exists H', (deleteChildren fuel kc.2;; deleteNode kc.2) (mkArt H K r ep hs li) = Ok (tt, mkArt H' K r ep hs li) /\
    forall x, H' !! x = if under (an_path an ++ [kc.1]) x then None else H !! x.

Lemma children_delete fuel cn (l : list (Z * Z)) :
  NoDup l.*1 -> (forall kc, kc ∈ l -> deletes fuel cn kc) -> forall H,
  (forall kc x, kc ∈ l -> under (an_path cn ++ [kc.1]) x = true -> H !! x = h !! x) ->
  exists H', cfor l.*2 (fun c => deleteChildren fuel c;; deleteNode c) (mkArt H K r ep hs li) = Ok (tt, mkArt H' K r ep hs li) /\
    forall x, H' !! x = if existsb (fun kc => under (an_path cn ++ [kc.1]) x) l then None else H !! x.
Proof.
  induction l as [|[k c] l IH]; intros Hd Hdel H Hin; [by exists H|]. apply list.NoDup_cons in Hd as [Hk Hd].
  destruct (Hdel (k, c) ltac:(left) H) as (H1 & Hr1 & HH1); [intros x; apply (Hin (k, c)); left|]. cbn [fst snd] in *.
  destruct (IH Hd ltac:(intros kc Hkc; apply Hdel; by right) H1) as (H2 & Hr2 & HH2).
  { intros [k' c'] x Hkc Hx. rewrite HH1. cbn [fst] in Hx. rewrite (under_disjoint _ k' k x); [|intros ->; destruct Hk; by apply (list_elem_of_fmap_2 fst _ (k, c'))|done].
    eapply Hin; [right; exact Hkc|done]. }
  exists H2. cbn [fmap list_fmap cfor snd]. rewrite (cbind_Ok _ _ _ _ _ Hr1). split; [exact Hr2|]. intros x. rewrite HH2, HH1. cbn [existsb fst].
  destruct (under (an_path cn ++ [k]) x); cbn [orb]; [|done]. by destruct (existsb _ l).
Qed.

(** A node and everything below it. *)
Lemma node_deletes fuel p cn H :
  V !! p = Some cn -> (forall k c, an_ch cn !! k = Some c -> deletes fuel cn (k, c)) -> H !! p = h !! p ->
  (forall k c x, an_ch cn !! k = Some c -> under (an_path cn ++ [k]) x = true -> H !! x = h !! x) ->
  exists H', (deleteChildren (S fuel) p;; deleteNode p) (mkArt H K r ep hs li) = Ok (tt, mkArt H' K r ep hs li) /\
    (forall x, x = p \/ (exists k c, an_ch cn !! k = Some c /\ under (an_path cn ++ [k]) x = true) -> H' !! x = None) /\
    (forall x, x <> p -> (forall k c, an_ch cn !! k = Some c -> under (an_path cn ++ [k]) x = false) -> H' !! x = H !! x).
Proof.
  intros Hc Hdel HpH Hin. cbn [deleteChildren]. pose proof (node_not_leaf T _ _ Hc) as Hl. rewrite Hl.
  destruct (HN p cn Hc) as (n & v & Hn & (((Hly & Hch & _) & _) & Hfull & _) & _). rewrite Hn in HpH.
  rewrite cbind_assoc, (cbind_Ok _ _ _ _ _ (at_node_read p (load child_list) H K r ep hs li n _ HpH eq_refl)). cbn [self].
  rewrite (child_list_live n Hly Hfull). pose proof Hly as (_ & _ & Hd & _).
  assert (Hlive : forall k c, (k, c) ∈ live (slots (body n)) <-> an_ch cn !! k = Some c).
  { intros k c. rewrite live_elem, <- Hch. unfold chmap. by rewrite smap_lookup. }
  destruct (children_delete fuel cn (live (slots (body n))) Hd) with (H := H) as (H1 & Hr1 & HH1).
  { intros [k c] Hkc%Hlive. by apply Hdel. }
  { intros [k c] x Hkc%Hlive Hx. by eapply Hin. }
  rewrite (cbind_Ok _ _ _ _ _ Hr1). unfold deleteNode. rewrite Hl. unfold delete_N. cbn [nodes].
  assert (Hout : forall x, (forall k c, an_ch cn !! k = Some c -> under (an_path cn ++ [k]) x = false) -> H1 !! x = H !! x).
  { intros x Hx. rewrite HH1. replace (existsb _ _) with false; [done|]. symmetry. apply not_true_is_false. intros ([k c] & Hkc & Hx')%existsb_exists.
    apply list_elem_of_In, Hlive in Hkc. cbn in Hx'. by rewrite (Hx k c Hkc) in Hx'. }
  rewrite (Hout p), HpH by (intros k c _; by apply not_under_self). eexists. split; [reflexivity|]. split.
  - intros x [->|(k & c & Hk & Hx)]; [by rewrite lookup_delete_eq|]. apply lookup_delete_None. right. rewrite HH1.
    replace (existsb _ _) with true; [done|]. symmetry. apply existsb_exists. exists (k, c). split; [|done]. by apply list_elem_of_In, Hlive.
  - intros x Hne Hx. rewrite lookup_delete_ne by congruence. by apply Hout.
Qed.

Lemma child_deletes fuel : forall a an b p,
  V !! a = Some an -> an_ch an !! b = Some p -> (size (deeper (V := V) (length (an_path an))) < fuel)%nat -> deletes fuel an (b, p).
Proof.
  induction fuel as [|fuel IH]; intros a an b p Ha Hb Hf; [lia|]. intros H Hin. cbn [fst snd] in *. destruct (isLeaf p) eqn:Hl.
  - exists H. cbn [deleteChildren]. unfold deleteNode. rewrite Hl. rewrite (cbind_Ok _ _ _ tt (mkArt H K r ep hs li)) by done. split; [done|]. intros x. by rewrite (under_leaf a an b p x).
  - destruct (tr_node _ _ _ _ T _ _ _ _ Ha Hb Hl) as (cn & Hc & _ & Hpre). pose proof (deeper_lt T _ _ _ _ _ Ha Hb Hc) as Hdp.
    pose proof (fun x => under_node a an b p cn x Ha Hb Hc) as Hun.
    destruct (node_deletes fuel p cn H Hc) as (H' & Hr & H1 & H2).
    + intros k c Hk. apply (IH p cn k c Hc Hk). lia.
    + apply Hin, Hun. by left.
    + intros k c x Hk Hx. apply Hin, Hun. right. by exists k, c.
    + exists H'. split; [done|]. intros x. destruct (under (an_path an ++ [b]) x) eqn:Eu; [by apply H1, Hun|]. apply H2.
      * intros ->. rewrite (proj2 (Hun p)) in Eu by (by left). done.
      * intros k c Hk. apply not_true_is_false. intros Hx. rewrite (proj2 (Hun x)) in Eu by (right; by exists k, c). done.
Qed.

(** The whole tree: what is left are the nodes that have been unlinked. *)
Lemma tree_deletes :
  exists H', (deleteChildren (S (size h)) r;; deleteNode r) (mkArt h K r ep hs li) = Ok (tt, mkArt H' K r ep hs li) /\
    forall x, H' !! x = if V !! x is Some _ then None else h !! x.
Proof.
  destruct (tr_root _ _ _ _ T) as (rn & Hr & Hp & _). destruct (node_deletes (size h) r rn h Hr) as (H' & Hrun & H1 & H2); [|done|done|].
  - intros k c Hk. apply (child_deletes (size h) r rn k c Hr Hk). rewrite Hp. by eapply deeper_root.
  - exists H'. split; [done|]. intros x. destruct (V !! x) as [xn|] eqn:Ex.
    + apply H1. destruct (decide (x = r)) as [->|Hne]; [by left|]. right.
      destruct (descend T r rn x xn Hr Ex) as (k & c & cn & Hk & Hch & _); [rewrite Hp; apply prefix_nil|done|]. exists k, c. split; [done|].
      apply under_true. exists xn. split; [done|]. apply prefix_snoc_lookup. split; [rewrite Hp; apply prefix_nil|done].
    + apply H2; [congruence|]. intros k c _. unfold under. by rewrite Ex.
Qed.

End subtree.

(** ** The nodes that wait *)

(** Every thread is done, so that all that waits may go. *)
Definition quiescent (e : Epoche) : Prop := forall t d, deletionLists e !! t = Some d ->
  localEpoche d = EPOCHE_MAX /\ Forall (fun l => lepoche l < EPOCHE_MAX) (headDeletionList d).

Lemma oldest_max (ls : gmap nat DeletionList) : (forall t d, ls !! t = Some d -> localEpoche d = EPOCHE_MAX) -> oldestEpoche ls = EPOCHE_MAX.
Proof.
  intros H. unfold oldestEpoche. assert (Hl : Forall (fun td => localEpoche td.2 = EPOCHE_MAX) (map_to_list ls)).
  { apply list.Forall_forall. intros [t d] Hin%elem_of_map_to_list. by eapply H. }
  induction Hl as [|td l Htd Hl IH]; [done|]. cbn [foldl]. by rewrite Htd, Z.ltb_irrefl.
Qed.

(** One list is emptied. *)
Lemma list_delete t ls : forall e d,
  deletionLists e !! t = Some d -> headDeletionList d = ls -> Forall (fun l => lepoche l < EPOCHE_MAX) ls ->
  exists d', cfor ls (fun cur => cassert (lepoche cur <? EPOCHE_MAX);; cfor (take (Z.to_nat (nodesCount cur)) (lnodes cur)) operator_delete;; on_list t (DeletionList_remove 0)) e
    = Ok (tt, mkEpoche (currentEpoche e) (<[t := d']> (deletionLists e)) (startGCThreshhold e) (released e ++ (ls ≫= label_nodes))).
Proof.
  induction ls as [|l ls IH]; intros e d Hd Hls Hf.
  - exists d. cbn. rewrite app_nil_r, insert_id by done. by destruct e.
  - apply list.Forall_cons in Hf as [Hl Hf]. cbn [cfor]. rewrite (proj2 (Z.ltb_lt _ _) Hl). rewrite !cbind_assoc, (cbind_Ok _ _ _ tt e) by done.
    rewrite cbind_assoc, (cbind_Ok _ _ _ _ _ (operator_delete_run _ e)).
    set (d1 := mkDL ls (l :: freeLabelDeletes d) (u64 (deletitionListCount d - nodesCount l)) (localEpoche d) (thresholdCounter d) (u64 (deleted d + nodesCount l)) (added d)).
    assert (Hrem : DeletionList_remove 0 d = Ok (tt, d1)) by (unfold DeletionList_remove; by rewrite Hls).
    set (e1 := mkEpoche (currentEpoche e) (deletionLists e) (startGCThreshhold e) (released e ++ label_nodes l)).
    rewrite (cbind_Ok _ _ _ _ _ (on_list_run t _ e1 d tt d1 Hd Hrem)).
    destruct (IH (mkEpoche (currentEpoche e1) (<[t := d1]> (deletionLists e1)) (startGCThreshhold e1) (released e1)) d1) as (d' & Hr); [apply lookup_insert_eq|done|done|].
    exists d'. rewrite Hr. cbn [currentEpoche deletionLists startGCThreshhold released e1 mbind list_bind]. by rewrite insert_insert_eq, <- app_assoc.
Qed.

Lemma lists_delete ls : forall e,
  NoDup ls.*1 -> (forall t d, (t, d) ∈ ls -> deletionLists e !! t = Some d /\ Forall (fun l => lepoche l < EPOCHE_MAX) (headDeletionList d)) ->
  exists e', cfor ls (fun td => cfor (headDeletionList td.2) (fun cur =>
      cassert (lepoche cur <? EPOCHE_MAX);; cfor (take (Z.to_nat (nodesCount cur)) (lnodes cur)) operator_delete;; on_list td.1 (DeletionList_remove 0))) e = Ok (tt, e') /\
    released e' = released e ++ (ls ≫= (fun td => dl_nodes td.2)).
Proof.
  induction ls as [|[t d] ls IH]; intros e Hd Hin.
  - exists e. cbn. by rewrite app_nil_r.
  - apply list.NoDup_cons in Hd as [Ht Hd]. destruct (Hin t d ltac:(left)) as [Hl Hf]. cbn [cfor snd fst].
    destruct (list_delete t (headDeletionList d) e d Hl eq_refl Hf) as (d' & Hr). rewrite (cbind_Ok _ _ _ _ _ Hr).
    destruct (IH (mkEpoche (currentEpoche e) (<[t := d']> (deletionLists e)) (startGCThreshhold e) (released e ++ (headDeletionList d ≫= label_nodes))) Hd) as (e' & Hr' & Hrel).
    { intros t' d'' Htd. cbn [deletionLists]. destruct (Hin t' d'') as [H1 H2]; [by right|]. split; [|done]. rewrite lookup_insert_ne; [done|].
      intros <-. apply Ht. by apply (list_elem_of_fmap_2 fst _ (t, d'')). }
    exists e'. split; [exact Hr'|]. rewrite Hrel. cbn [released mbind list_bind snd]. by rewrite <- app_assoc.
Qed.

Lemma Epoche_delete_run e : quiescent e ->
  exists e', Epoche_delete e = Ok (tt, e') /\ released e' = released e ++ pending (deletionLists e).
Proof.
  intros Hq. unfold Epoche_delete. rewrite (cbind_Ok _ _ _ (map_to_list (deletionLists e)) e) by done. cbv zeta. rewrite list_to_map_to_list.
  rewrite oldest_max by (intros t d Ht; by apply Hq in Ht as [? _]).
  apply (lists_delete (map_to_list (deletionLists e)) e); [apply NoDup_fst_map_to_list|]. intros t d Htd%elem_of_map_to_list. split; [done|]. by apply Hq in Htd as [_ ?].
Qed.

Lemma Tree_delete_run `{!Allocator} B V m s : art_ok B V m s -> quiescent (epoche s) ->
  exists s', Tree_delete s = Ok (tt, s') /\ nodes s' = ∅ /\ keys s' = keys s.
Proof.
  intros A Hq. destruct s as [h K r ep hs li]. cbn [epoche keys] in *. unfold Tree_delete. cbn [nodes].
  rewrite (cbind_Ok (cgets root) _ _ r _) by done.
  destruct (tree_deletes (ok_trie _ _ _ _ A) (ok_nodes _ _ _ _ A) ep hs li) as (H' & Hr & HH').
  apply cbind_inv in Hr as (x & s1 & Hr1 & Hr2). rewrite (cbind_Ok _ _ _ _ _ Hr1), (cbind_Ok _ _ _ _ _ Hr2).
  destruct (Epoche_delete_run ep Hq) as (ep' & He & Hrel).
  destruct (on_epoche_run Epoche_delete H' K r ep hs li ep' (pending (deletionLists ep)) He Hrel (ok_pend _ _ _ _ A)) as (H'' & Hx & HH'').
  { intros a Ha. rewrite HH'. pose proof (ok_disj _ _ _ _ A a Ha) as HV. rewrite HV. apply (ok_heap _ _ _ _ A). by right. }
  eexists. split; [exact Hx|]. split; [|done]. cbn [nodes]. apply map_eq. intros a. rewrite HH'', lookup_empty. destruct (decide _) as [|Hn]; [done|].
  rewrite HH'. destruct (V !! a) eqn:EV; [done|]. destruct (h !! a) eqn:Eh; [|done]. exfalso.
  destruct (proj1 (ok_heap _ _ _ _ A a)) as [[an Ha]|Ha]; [cbn; by eexists|congruence|done].
Qed.

(** ** The end of a program *)

(** The thread that has left its epochs is done. *)
Lemma done_quiescent t k e x e' :
  ThreadInfo_delete t e = Ok (x, e') -> epochs_below {[t]} k e -> k < EPOCHE_MAX -> quiescent e'.
Proof.
  intros Hr (_ & HD & Hl) Hk u d Hu. unfold ThreadInfo_delete, on_list in Hr. destruct (deletionLists e !! t) as [d0|] eqn:Ed; [|done]. injection Hr as _ <-. cbn in Hu.
  assert (u = t) as ->.
  { assert (Hin : u ∈ dom (deletionLists e)); [|rewrite HD in Hin; by apply elem_of_singleton in Hin]. apply elem_of_dom. destruct (decide (u = t)) as [->|Hne]; [by eexists|]. rewrite lookup_insert_ne in Hu by done. by eexists. }
  rewrite lookup_insert_eq in Hu. injection Hu as <-. split; [done|]. cbn. eapply list.Forall_impl; [by eapply Hl|]. cbn. lia.
Qed.

(** C23: Nothing leaks and nothing is deleted twice. After any sequence of operations, and when
    the thread has destroyed its [ThreadInfo], the destructor of the tree returns, with every
    node of the tree and every node that still waited to be released deleted: no node is left. *)
Theorem Tree_delete_frees_all `{!Allocator} (init : Z) (t : nat) (ops : list op) :
  legal_ops ∅ ops -> Z.of_nat (length ops) < 2 ^ 60 - 3 ->
  exists s s', (Tree_new;; getThreadInfo init t;; run_ops t ops) art_start = Ok (spec_ops ops ∅, s) /\
    (on_epoche (ThreadInfo_delete t);; Tree_delete) s = Ok (tt, s') /\ nodes s' = ∅.
Proof.
  intros HL Hn. destruct (fresh_run init t ops HL Hn) as (s & Hs & V & m & A & Ht & _). exists s.
  assert (Hb : epochs_below {[t]} (0 + Z.of_nat (length ops)) (epoche s)).
  { rewrite <- cbind_assoc in Hs. apply cbind_inv in Hs as (u & s0 & H0 & H1). apply fresh_below in H0. eapply run_ops_below; [exact H1|done|lia|lia]. }
  destruct s as [h K r ep hs li]. cbn [epoche keys] in *. destruct (ThreadInfo_delete_run t ep (ok_ep _ _ _ _ A) Ht) as (ep' & Hr & Hst).
  destruct (on_epoche_ok _ _ _ _ _ _ _ _ _ _ _ _ A Hr Hst) as (h' & Hx & A').
  destruct (Tree_delete_run _ _ _ _ A') as (s' & Hd & Hno & _); [cbn; eapply done_quiescent; [exact Hr|done|unfold EPOCHE_MAX; lia]|].
  exists s'. split; [done|]. by rewrite (cbind_Ok _ _ _ _ _ Hx).
Qed.

Lemma Tree_delete_frees_all_witness :
  exists s s', (Tree_new;; getThreadInfo 0 0;; run_ops 0 ops1) art_start = Ok ([None; None; Some 7; None; None; Some 8], s) /\
    (on_epoche (ThreadInfo_delete 0);; Tree_delete) s = Ok (tt, s') /\ nodes s' = ∅.
Proof. exact (Tree_delete_frees_all 0 0 ops1 ops1_legal ltac:(vm_compute; reflexivity)). Defined.
