(* ===== verification/MakLog.v ===== *)
(** * Makalu: stores, write-backs, fences, and the undo log

    The persistent memory of Makalu, byte by byte, and what a power failure leaves of it. Stores
    to one cache line reach memory in program order, so a failure leaves, for each line on its
    own, the contents the line had at some moment since it was last known to be written back.
    A line is known to be written back at a fence if it was flushed after the last store to it.

    The state of the library between calls that [makalu_persistent.c] works on: memory, and the
    variables that are not in it. *)

From S2P Require Import Prelude Pptr ByteMem.

(** ** Memory *)

Inductive nev :=
| NSt (n : nat) (a v : Z)    (* store [v] in the [n] bytes at [a] *)
| NFl (l : Z)                (* flush line [l] *)
| NFence.

(** A line: the contents known to be in memory, and the later ones, newest first. Only the bytes
    of the line matter. *)
Record pline := mkPline { l_base : bmem; l_pend : list bmem; l_flushed : bool }.

Record nvm := mkNvm { mem : bmem; line : Z -> pline }.

Definition LINE : Z := 64.

Definition touches (l : Z) (n : nat) (a : Z) : bool := (a / LINE <=? l) && (l <=? (a + Z.of_nat n - 1) / LINE).

Definition pline_step (l : Z) (m : bmem) (x : pline) (e : nev) : pline :=
  match e with
  | NSt n a v => if touches l n a then mkPline (l_base x) (wr n a v m :: l_pend x) false else x
  | NFl l' => if l' =? l then mkPline (l_base x) (l_pend x) true else x
  | NFence => if l_flushed x then mkPline (hd (l_base x) (l_pend x)) [] true else x
  end.

Definition nv_step (s : nvm) (e : nev) : nvm :=
  mkNvm (match e with NSt n a v => wr n a v (mem s) | _ => mem s end)
        (fun l => pline_step l (mem s) (line s l) e).

Definition nv_run (s : nvm) (es : list nev) : nvm := foldl nv_step s es.

(** The contents of a line a failure may leave, and a memory all of whose lines are like that. *)
Definition choices (x : pline) : list bmem := l_base x :: l_pend x.

Definition image (s : nvm) (i : bmem) : Prop :=
  forall l, exists m, m ∈ choices (line s l) /\ forall a, a / LINE = l -> rd8 i a = rd8 m a.

(** Memory after a restart. *)
Definition nv_of (i : bmem) : nvm := mkNvm i (fun _ => mkPline i [] true).

(** ** The state *)

Record mak := mkMak {
  pm : nvm;
  trace : list nev;            (* the events so far, oldest first *)
  MAK_base_md_ptr : Z;
  curr_log_e : Z;
  MAK_sflush_table : list Z;
  MAK_aflush_table : list Z;
  MAK_fl_aflush_table : list Z }.

Definition SFLUSH_TABLE_SZ : Z := 8.
Definition AFLUSH_TABLE_SZ : Z := 32.
Definition FL_AFLUSH_TABLE_SZ : Z := 8.
Definition CACHE_LINE_SZ : Z := 64.
Definition LOG_CACHE_LINE_SZ : Z := 6.

(** A new process that maps the memory [i], with its metadata at [b]. *)
Definition reboot (b : Z) (i : bmem) : mak :=
  mkMak (nv_of i) [] b 0 (replicate 8 0) (replicate 32 0) (replicate 8 0).

Definition set_curr_log_e (s : mak) (e : Z) : mak :=
  mkMak (pm s) (trace s) (MAK_base_md_ptr s) e (MAK_sflush_table s) (MAK_aflush_table s) (MAK_fl_aflush_table s).

(** Which of the three tables a call is given. *)
Inductive flush_table := Sflush | Aflush | Fl_aflush.

Definition get_table (t : flush_table) (s : mak) : list Z :=
  match t with Sflush => MAK_sflush_table s | Aflush => MAK_aflush_table s | Fl_aflush => MAK_fl_aflush_table s end.

Definition set_table (t : flush_table) (tb : list Z) (s : mak) : mak :=
  match t with
  | Sflush => mkMak (pm s) (trace s) (MAK_base_md_ptr s) (curr_log_e s) tb (MAK_aflush_table s) (MAK_fl_aflush_table s)
  | Aflush => mkMak (pm s) (trace s) (MAK_base_md_ptr s) (curr_log_e s) (MAK_sflush_table s) tb (MAK_fl_aflush_table s)
  | Fl_aflush => mkMak (pm s) (trace s) (MAK_base_md_ptr s) (curr_log_e s) (MAK_sflush_table s) (MAK_aflush_table s) tb
  end.

Definition emit_st (e : nev) (s : mak) : mak :=
  mkMak (nv_step (pm s) e) (trace s ++ [e]) (MAK_base_md_ptr s) (curr_log_e s)
        (MAK_sflush_table s) (MAK_aflush_table s) (MAK_fl_aflush_table s).

Definition emit (e : nev) : stM mak unit := cmod (emit_st e).

Definition peek (n : nat) (a : Z) : stM mak Z := cgets (fun s => rd n (mem (pm s)) a).
Definition poke (n : nat) (a v : Z) : stM mak unit := emit (NSt n a v).

Definition MFENCE : stM mak unit := emit NFence.
Definition CLFLUSH (a : Z) : stM mak unit := emit (NFl (a / LINE)).
Definition CLFLUSH_SYNC (a : Z) : stM mak unit := MFENCE;; CLFLUSH a;; MFENCE.

(** ** Flush tables *)

(** [tb[i]] *)
Definition table_get (t : flush_table) (i : Z) : stM mak Z := fun s =>
  match get_table t s !! Z.to_nat i with Some x => Ok (x, s) | None => Err UB_access end.

Definition table_set (t : flush_table) (i v : Z) : stM mak unit := cmod (fun s => set_table t (<[Z.to_nat i := v]> (get_table t s)) s).

Definition flush_all_entry (t : flush_table) (tb_sz : Z) : stM mak unit :=
  MFENCE;;
  cfor (seqZ 0 tb_sz) (fun i =>
    cl <- table_get t i;
    if cl =? 0 then cret tt else CLFLUSH cl;; table_set t i 0);;
  MFENCE.

(** The iterations of [for (i = cl_start; i < end; i += CACHE_LINE_SZ)]. *)
Definition line_steps (cl_start end_ : Z) : Z := (end_ - cl_start + CACHE_LINE_SZ - 1) / CACHE_LINE_SZ.

(** The body of the loop uses [cl_start], not [i]. *)
Definition add_to_flush_table (start_addr size : Z) (t : flush_table) (tb_sz : Z) : stM mak unit :=
  let cl_start := Z.land start_addr (not64 (CACHE_LINE_SZ - 1)) in
  let end_ := u64 (start_addr + size) in
  cfor (seqZ 0 (line_steps cl_start end_)) (fun _ =>
    let ix := Z.land (Z.shiftr cl_start LOG_CACHE_LINE_SZ) (u64 (tb_sz - 1)) in
    cle <- table_get t ix;
    if cle =? cl_start then cret tt
    else
      (if cle =? 0 then cret tt else CLFLUSH cle);;
      table_set t ix cl_start).

Definition flush_range (start_addr size : Z) : stM mak unit :=
  let cl_start := Z.land start_addr (not64 (CACHE_LINE_SZ - 1)) in
  let end_ := u64 (start_addr + size) in
  MFENCE;;
  cfor (seqZ 0 (line_steps cl_start end_)) (fun i => CLFLUSH (cl_start + i * CACHE_LINE_SZ));;
  MFENCE.

(** ** The macros of [makalu_persistent.h] *)

Definition CLFLUSH_FAS (a size : Z) : stM mak unit := add_to_flush_table a size Sflush SFLUSH_TABLE_SZ.
Definition MAK_NVM_ASYNC_RANGE (a size : Z) : stM mak unit := add_to_flush_table a size Aflush AFLUSH_TABLE_SZ.

(** A variable of [n] bytes at [a]. *)
Definition MAK_STORE_NVM_SYNC (n : nat) (a v : Z) : stM mak unit := poke n a v;; CLFLUSH_SYNC a.
Definition MAK_STORE_NVM_ASYNC (n : nat) (a v : Z) : stM mak unit := poke n a v;; MAK_NVM_ASYNC_RANGE a 8.
Definition MAK_NO_LOG_STORE_NVM (n : nat) (a v : Z) : stM mak unit := poke n a v;; CLFLUSH_FAS a 8.

(** ** Makalu: the undo log

    [makalu_persistent.c]: failure-atomic sections. Inside one, the old value of a variable is
    written to the log and flushed before the variable changes; the section ends when all changed
    lines are in memory and the version of the log is counted up, which makes its entries stale.
    After a crash the entries of the current version are undone, newest first. *)

(** ** Layout *)

(** Fields of [struct _MAK_base_md] the functions below use, as offsets. *)
Definition off_hdr_idx_free_ptr : Z := 32792.
Definition off_hdr_free_list : Z := 32816.
Definition off_persistent_log_version : Z := 32824.
Definition off_persistent_log_start : Z := 32832.
Definition off_persistent_state : Z := 32844.
Definition off_mandatory_gc : Z := 32912.

Definition HBLKSIZE : Z := 4096.
Definition MAX_LOG_SZ : Z := HBLKSIZE * 1.
Definition MAX_NUM_LOG_E : Z := MAX_LOG_SZ / 64.

(** [struct log_e], one cache line. *)
Definition LOG_E_SZ : Z := 64.
Definition log_addr (e : Z) : Z := e.
Definition log_type (e : Z) : Z := e + 8.
Definition log_val (e : Z) : Z := e + 16.
Definition log_version (e : Z) : Z := e + 24.

(** The types of logged variables: their codes in the log and their sizes. *)
Inductive log_ty := INTEGER | CHAR | ADDR | WORD.

Definition ty_code (t : log_ty) : Z := match t with INTEGER => 1 | CHAR => 3 | ADDR => 4 | WORD => 5 end.
Definition ty_size (t : log_ty) : nat := match t with INTEGER => 4 | CHAR => 1 | ADDR => 8 | WORD => 8 end.

Definition ty_of_code (c : Z) : option log_ty :=
  if c =? 1 then Some INTEGER else if c =? 3 then Some CHAR else if c =? 4 then Some ADDR else if c =? 5 then Some WORD else None.

Definition MAK_persistent_log_version_at : stM mak Z := cgets (fun s => MAK_base_md_ptr s + off_persistent_log_version).
Definition MAK_persistent_log_version : stM mak Z := a <- MAK_persistent_log_version_at; peek 8 a.
Definition MAK_persistent_log_start : stM mak Z := b <- cgets MAK_base_md_ptr; peek 8 (b + off_persistent_log_start).

(** ** Sections *)

Definition start_nvm_atomic : stM mak unit :=
  l <- MAK_persistent_log_start;
  cmod (fun s => set_curr_log_e s l).

Definition count_version_up : stM mak unit :=
  va <- MAK_persistent_log_version_at;
  v <- MAK_persistent_log_version;
  MAK_STORE_NVM_SYNC 8 va (u64 (v + 1)).

Definition end_nvm_atomic : stM mak unit :=
  flush_all_entry Sflush SFLUSH_TABLE_SZ;;
  count_version_up.

(** [create_int_log_entry], [create_char_log_entry], [create_addr_log_entry] and
    [create_word_log_entry] differ in the type of the value. *)
Definition create_log_entry (t : log_ty) (addr val : Z) : stM mak unit :=
  e <- cgets curr_log_e;
  poke 8 (log_addr e) addr;;
  poke (ty_size t) (log_val e) val;;
  poke 1 (log_type e) (ty_code t);;
  v <- MAK_persistent_log_version;
  poke 8 (log_version e) v;;
  CLFLUSH_SYNC e;;
  cmod (fun s => set_curr_log_e s (e + LOG_E_SZ)).

(** [MAK_STORE_NVM_INT], [_CHAR], [_ADDR] and [_WORD] *)
Definition MAK_STORE_NVM (t : log_ty) (addr val : Z) : stM mak unit :=
  old <- peek (ty_size t) addr;
  create_log_entry t addr old;;
  poke (ty_size t) addr val;;
  CLFLUSH_FAS addr (Z.of_nat (ty_size t)).

(** [MAK_LOG_NVM_INT], [_CHAR], [_ADDR] and [_WORD] *)
Definition MAK_LOG_NVM (t : log_ty) (addr val : Z) : stM mak unit := create_log_entry t addr val.

(** ** Recovery *)

(** [while (e->version == MAK_persistent_log_version) e++;] *)
Fixpoint seek_log (fuel : nat) (e : Z) : stM mak Z :=
  match fuel with
  | O => cfail OutOfFuel
  | S fuel' =>
      ev <- peek 8 (log_version e);
      v <- MAK_persistent_log_version;
      if ev =? v then seek_log fuel' (e + LOG_E_SZ) else cret e
  end.

Definition undo_entry (e : Z) : stM mak unit :=
  c <- peek 1 (log_type e);
  match ty_of_code c with
  | Some t =>
      addr <- peek 8 (log_addr e);
      val <- peek (ty_size t) (log_val e);
      poke (ty_size t) addr val;;
      CLFLUSH_FAS addr (Z.of_nat (ty_size t))
  | None => cfail Throw
  end.

(** [while ((char* )e >= MAK_persistent_log_start) { ... e -= 1; }] *)
Fixpoint undo_log (fuel : nat) (e : Z) : stM mak unit :=
  match fuel with
  | O => cfail OutOfFuel
  | S fuel' =>
      l <- MAK_persistent_log_start;
      if l <=? e then undo_entry e;; undo_log fuel' (e - LOG_E_SZ) else cret tt
  end.

(** The log has room for 64 entries. *)
Definition LOG_FUEL : nat := 66.

Definition MAK_recover_metadata : stM mak unit :=
  l <- MAK_persistent_log_start;
  e <- seek_log LOG_FUEL l;
  undo_log LOG_FUEL (e - LOG_E_SZ);;
  flush_all_entry Sflush SFLUSH_TABLE_SZ;;
  count_version_up.

(** ** Initialization and shutdown *)

(** [BZERO], byte by byte *)
Definition BZERO (a n : Z) : stM mak unit := cfor (seqZ 0 n) (fun i => poke 1 (a + i) 0).

(** [mem]: the address [GET_MEM_PERSISTENT] stores, if it succeeds. *)
Definition MAK_init_persistent_logs (mem : option Z) : stM mak unit :=
  b <- cgets MAK_base_md_ptr;
  match mem with
  | None => cfail Throw
  | Some a =>
      poke 8 (b + off_persistent_log_start) a;;
      l <- MAK_persistent_log_start;
      BZERO l MAX_LOG_SZ;;
      MAK_NVM_ASYNC_RANGE l MAX_LOG_SZ;;
      poke 8 (b + off_persistent_log_version) 1
  end.

Definition PERSISTENT_STATE_NONE : Z := 0.

Definition MAK_sync_all_persistent : stM mak unit := flush_all_entry Aflush AFLUSH_TABLE_SZ.

Definition MAK_sync_alloc_metadata : stM mak unit :=
  b <- cgets MAK_base_md_ptr;
  st <- peek 1 (b + off_persistent_state);
  if st =? PERSISTENT_STATE_NONE then cret tt
  else
    MAK_NVM_ASYNC_RANGE (b + off_hdr_idx_free_ptr) 8;;
    MAK_NVM_ASYNC_RANGE (b + off_hdr_free_list) 8;;
    flush_all_entry Aflush AFLUSH_TABLE_SZ;;
    MAK_STORE_NVM_SYNC 1 (b + off_persistent_state) PERSISTENT_STATE_NONE.

Definition MAK_sync_gc_metadata : stM mak unit :=
  b <- cgets MAK_base_md_ptr;
  g <- peek 4 (b + off_mandatory_gc);
  if g =? 0 then cret tt
  else
    flush_all_entry Aflush AFLUSH_TABLE_SZ;;
    flush_all_entry Fl_aflush FL_AFLUSH_TABLE_SZ;;
    MAK_STORE_NVM_SYNC 4 (b + off_mandatory_gc) 0.

(** ** A section as a list of its operations *)

Inductive fas_op :=
| FStore (t : log_ty) (addr val : Z)    (* MAK_STORE_NVM_* *)
| FLog (t : log_ty) (addr val : Z)      (* MAK_LOG_NVM_* *)
| FNoLog (n : nat) (addr val : Z).      (* MAK_NO_LOG_STORE_NVM *)

Definition run_fas_op (o : fas_op) : stM mak unit :=
  match o with
  | FStore t a v => MAK_STORE_NVM t a v
  | FLog t a v => MAK_LOG_NVM t a v
  | FNoLog n a v => MAK_NO_LOG_STORE_NVM n a v
  end.

Definition run_fas (ops : list fas_op) : stM mak unit :=
  start_nvm_atomic;; cfor ops run_fas_op;; end_nvm_atomic.
