(* ===== verification/MakPersist.v ===== *)
(** * Makalu: which bytes a failure keeps

    Lemmas on the persistent memory of Makalu: bytes that have the same value in every image, and
    how stores, flushes and fences change what a line may hold; the runs of the flush tables. *)

From S2P Require Import Prelude Pptr ByteMem MakLog.

(** The newest contents of every line are those of memory. *)
Definition newest (x : pline) : bmem := hd (l_base x) (l_pend x).
Definition up_to_date (s : nvm) : Prop := forall a, rd8 (newest (line s (a / LINE))) a = rd8 (mem s) a.

(** The byte has its value in every image. *)
Definition fixed (s : nvm) (a : Z) : Prop := forall m, m ∈ choices (line s (a / LINE)) -> rd8 m a = rd8 (mem s) a.

Definition fixed_line (s : nvm) (l : Z) : Prop := forall a, a / LINE = l -> fixed s a.

(** The event stores to the byte. *)
Definition writes (e : nev) (a : Z) : Prop := match e with NSt n b _ => b <= a < b + Z.of_nat n | _ => False end.

(** ** One event *)

Lemma nv_run_app s es1 es2 : nv_run s (es1 ++ es2) = nv_run (nv_run s es1) es2.
Proof. apply foldl_app. Qed.

Lemma mem_step s e a : ~ writes e a -> rd8 (mem (nv_step s e)) a = rd8 (mem s) a.
Proof. destruct e as [n b v|l|]; cbn; [|done..]. intros H. apply rd8_wr. lia. Qed.

Lemma touches_writes n b v a : writes (NSt n b v) a -> touches (a / LINE) n b = true.
Proof.
  cbn. intros H. unfold touches, LINE. apply andb_true_intro. split; apply Z.leb_le; apply Z.div_le_mono; lia.
Qed.

Lemma up_to_date_step s e : up_to_date s -> up_to_date (nv_step s e).
Proof.
  intros H a. destruct e as [n b v|l|]; cbn.
  - destruct (touches (a / LINE) n b) eqn:E; [done|]. cbn. rewrite H. symmetry. apply rd8_wr.
    destruct (decide (b <= a < b + Z.of_nat n)); [|lia]. rewrite (touches_writes n b v a) in E by done. done.
  - destruct (l =? a / LINE); apply H.
  - destruct (l_flushed _) eqn:E; [|apply H]. cbn. apply H.
Qed.

Lemma choices_step s e l m :
  m ∈ choices (line (nv_step s e) l) ->
  m ∈ choices (line s l) \/ m = mem (nv_step s e) \/ m = newest (line s l).
Proof.
  destruct e as [n b v|l'|]; cbn.
  - destruct (touches l n b); [|by left]. cbn. intros Hm. apply elem_of_cons in Hm as [->|Hm]; [by left; left|].
    apply elem_of_cons in Hm as [->|Hm]; [by right; left|]. left. by right.
  - destruct (l' =? l); by left.
  - destruct (l_flushed _); [|by left]. cbn. intros Hm. apply elem_of_cons in Hm as [->|Hm]; [by right; right|].
    by apply not_elem_of_nil in Hm.
Qed.

Lemma newest_choice x : newest x ∈ choices x.
Proof. unfold newest, choices. destruct (l_pend x); cbn; [left|right; left]. Qed.

Lemma fixed_step s e a : up_to_date s -> fixed s a -> ~ writes e a -> fixed (nv_step s e) a.
Proof.
  intros Hu Hf Hw m Hm. rewrite mem_step by done. apply choices_step in Hm as [Hm|[->| ->]].
  - by apply Hf.
  - by apply mem_step.
  - apply Hu.
Qed.

(** A flushed line is in memory after a fence. *)
Lemma fence_fixes s l : up_to_date s -> l_flushed (line s l) = true -> fixed_line (nv_step s NFence) l.
Proof.
  intros Hu Hl a Ha m Hm. subst l. cbn in Hm |- *. rewrite Hl in Hm. cbn in Hm.
  apply elem_of_cons in Hm as [->|Hm]; [apply Hu|by apply not_elem_of_nil in Hm].
Qed.

Lemma flush_flags s l : l_flushed (line (nv_step s (NFl l)) l) = true.
Proof. cbn. by rewrite Z.eqb_refl. Qed.

Lemma flush_keeps_flag s l l' : l_flushed (line s l) = true -> l_flushed (line (nv_step s (NFl l')) l) = true.
Proof. cbn. by destruct (l' =? l). Qed.

(** What holds of every choice of a line that no store touches goes on holding. *)
Lemma untouched_choices s e l m :
  (match e with NSt n b _ => touches l n b = false | _ => True end) ->
  m ∈ choices (line (nv_step s e) l) -> m ∈ choices (line s l).
Proof.
  destruct e as [n b v|l'|]; cbn.
  - by intros ->.
  - by destruct (l' =? l).
  - intros _. destruct (l_flushed _); [|done]. cbn. intros Hm.
    apply elem_of_cons in Hm as [->|Hm]; [apply newest_choice|by apply not_elem_of_nil in Hm].
Qed.

Lemma stored_choices s n b v l m :
  m ∈ choices (line (nv_step s (NSt n b v)) l) -> m ∈ choices (line s l) \/ m = wr n b v (mem s).
Proof.
  cbn. destruct (touches l n b); [|by left]. unfold choices. cbn. set_unfold. tauto.
Qed.

(** ** Images *)

Lemma image_fixed s i a : image s i -> fixed s a -> rd8 i a = rd8 (mem s) a.
Proof. intros Hi Hf. destruct (Hi (a / LINE)) as (m & Hm & Ha). rewrite Ha by done. by apply Hf. Qed.

Lemma nv_of_fixed i a : fixed (nv_of i) a.
Proof. intros m Hm. cbn in Hm. apply elem_of_cons in Hm as [->|Hm]; [done|by apply not_elem_of_nil in Hm]. Qed.

Lemma nv_of_up_to_date i : up_to_date (nv_of i).
Proof. done. Qed.

(** Reading several bytes of one line. *)
Lemma rd_ext n m m' a : (forall b, a <= b < a + Z.of_nat n -> rd8 m b = rd8 m' b) -> rd n m a = rd n m' a.
Proof.
  revert a. induction n as [|n IH]; intros a H; [done|]. cbn. rewrite H by lia. f_equal. f_equal. apply IH.
  intros b Hb. apply H. lia.
Qed.

(** ** Points of a run *)

(** [P] holds before, between and after the events. *)
Definition always (P : nvm -> Prop) (s : nvm) (es : list nev) : Prop :=
  forall es1 es2, es = es1 ++ es2 -> P (nv_run s es1).

Lemma always_nil P s : P s -> always P s [].
Proof. intros H es1 es2 E. symmetry in E. apply app_nil in E as [-> _]. exact H. Qed.

Lemma always_cons P s e es : P s -> always P (nv_step s e) es -> always P s (e :: es).
Proof.
  intros H1 H2 es1 es2 E. destruct es1 as [|e' es1]; [exact H1|]. cbn in E. injection E as <- E. by apply (H2 es1 es2).
Qed.

Lemma always_app P s es1 es2 : always P s es1 -> always P (nv_run s es1) es2 -> always P s (es1 ++ es2).
Proof.
  revert s. induction es1 as [|e es1 IH]; intros s H1 H2; [exact H2|]. cbn [app].
  apply always_cons; [apply (H1 [] (e :: es1) eq_refl)|]. apply IH; [|exact H2].
  intros es es' E. apply (H1 (e :: es) es'). cbn. by rewrite E.
Qed.

Lemma always_end P s es : always P s es -> P (nv_run s es).
Proof. intros H. apply (H es []). by rewrite app_nil_r. Qed.

Lemma always_impl P Q s es : (forall x, P x -> Q x) -> always P s es -> always Q s es.
Proof. intros H H1 es1 es2 E. apply H. by eapply H1. Qed.

(** ** Runs *)

(** What the state is after the events. *)
Definition ran (s s' : mak) (es : list nev) : Prop :=
  trace s' = trace s ++ es /\ pm s' = nv_run (pm s) es /\ MAK_base_md_ptr s' = MAK_base_md_ptr s.

Lemma ran_nil s : ran s s [].
Proof. split; [by rewrite app_nil_r|done]. Qed.

Lemma ran_emit s e : ran s (emit_st e s) [e].
Proof. done. Qed.

Lemma ran_app s s1 s2 es1 es2 : ran s s1 es1 -> ran s1 s2 es2 -> ran s s2 (es1 ++ es2).
Proof.
  intros (T1 & P1 & B1) (T2 & P2 & B2). split_and!.
  - by rewrite T2, T1, app_assoc.
  - by rewrite P2, P1, nv_run_app.
  - congruence.
Qed.

Lemma ran_cons s e s2 es : ran (emit_st e s) s2 es -> ran s s2 (e :: es).
Proof. intros H. apply (ran_app s _ s2 [e] es (ran_emit s e) H). Qed.

(** ** The table of a section *)

Definition table_ok (tb : list Z) : Prop := length tb = 8%nat /\ forall x, x ∈ tb -> x mod LINE = 0.

(** The other variables stay as they are. *)
Definition same_vars (s s' : mak) : Prop :=
  curr_log_e s' = curr_log_e s /\ MAK_aflush_table s' = MAK_aflush_table s /\ MAK_fl_aflush_table s' = MAK_fl_aflush_table s.

Lemma same_vars_trans s s1 s2 : same_vars s s1 -> same_vars s1 s2 -> same_vars s s2.
Proof. intros (A1 & A2 & A3) (B1 & B2 & B3). split_and!; congruence. Qed.

Definition only_flushes (es : list nev) : Prop := forall e, e ∈ es -> exists l, e = NFl l.

Lemma land_line a : 0 <= a < 2 ^ 64 -> Z.land a (not64 (CACHE_LINE_SZ - 1)) = a / LINE * LINE.
Proof. intros Ha. by apply (land_not64 a 6). Qed.

Lemma line_of_entry a : a / LINE * LINE / LINE = a / LINE.
Proof. apply Z.div_mul. unfold LINE. lia. Qed.

(** The slot is found already filled, or is filled; the line that was there is flushed. *)
Definition slot_filled (s s' : mak) (cl : Z) (es : list nev) : Prop :=
  ran s s' es /\ same_vars s s' /\ table_ok (MAK_sflush_table s') /\ cl ∈ MAK_sflush_table s' /\ only_flushes es /\
  forall x, x ∈ MAK_sflush_table s -> x ∈ MAK_sflush_table s' \/ x = 0 \/ NFl (x / LINE) ∈ es.

Definition add_step (cl : Z) : stM mak unit :=
  let ix := Z.land (Z.shiftr cl LOG_CACHE_LINE_SZ) (u64 (SFLUSH_TABLE_SZ - 1)) in
  cle <- table_get Sflush ix;
  if cle =? cl then cret tt
  else (if cle =? 0 then cret tt else CLFLUSH cle);; table_set Sflush ix cl.

Lemma add_step_run s cl :
  table_ok (MAK_sflush_table s) -> 0 <= cl -> cl mod LINE = 0 ->
  exists s' es, add_step cl s = Ok (tt, s') /\ slot_filled s s' cl es /\
    MAK_sflush_table s' !! Z.to_nat (cl / LINE mod 8) = Some cl.
Proof.
  intros [Hlen Htb] Hcl Hm. unfold add_step, cbind, table_get. cbn [get_table].
  change (u64 (SFLUSH_TABLE_SZ - 1)) with (2 ^ 3 - 1). rewrite land_pow2_pred, Z.shiftr_div_pow2 by (unfold LOG_CACHE_LINE_SZ; lia).
  change (2 ^ LOG_CACHE_LINE_SZ) with LINE. change (2 ^ 3) with 8.
  set (ix := cl / LINE mod 8). assert (Hix : 0 <= ix < 8) by (apply Z.mod_pos_bound; lia).
  destruct (lookup_lt_is_Some_2 (MAK_sflush_table s) (Z.to_nat ix)) as (cle & Hc); [rewrite Hlen; lia|]. rewrite Hc.
  destruct (Z.eqb_spec cle cl) as [->|Hne].
  { exists s, []. split; [done|]. split; [|done]. split; [apply ran_nil|]. split; [done|]. split; [done|].
    split; [by eapply list_elem_of_lookup_2|]. split; [by intros e He%not_elem_of_nil|]. by left. }
  set (s1 := if cle =? 0 then s else emit_st (NFl (cle / LINE)) s).
  set (es := if cle =? 0 then [] else [NFl (cle / LINE)]).
  assert (H1 : (if cle =? 0 then cret tt else CLFLUSH cle) s = Ok (tt, s1)) by (unfold s1; by destruct (cle =? 0)).
  rewrite H1. cbn. exists (set_table Sflush (<[Z.to_nat ix := cl]> (MAK_sflush_table s1)) s1), es.
  assert (Ht1 : MAK_sflush_table s1 = MAK_sflush_table s) by (unfold s1; by destruct (cle =? 0)).
  assert (Hr : ran s s1 es) by (unfold s1, es; destruct (cle =? 0); [apply ran_nil|apply ran_emit]).
  split; [done|]. cbn [set_table MAK_sflush_table]. rewrite Ht1.
  split; [|apply list_lookup_insert_eq; rewrite Hlen; lia].
  split; [done|]. split; [unfold same_vars, s1; by destruct (cle =? 0)|]. cbn [set_table MAK_sflush_table].
  split_and!.
  - split; [by rewrite length_insert|]. intros x Hx. apply list_elem_of_lookup in Hx as (j & Hj).
    apply list_lookup_insert_Some in Hj as [(_ & <- & _)|[_ Hj]]; [done|]. apply Htb. by eapply list_elem_of_lookup_2.
  - apply list_elem_of_insert. rewrite Hlen. lia.
  - intros e He. unfold es in He. destruct (cle =? 0); [by apply not_elem_of_nil in He|]. apply list_elem_of_singleton in He as ->. eauto.
  - intros x Hx. apply list_elem_of_lookup in Hx as (j & Hj). destruct (decide (j = Z.to_nat ix)) as [->|Hj'].
    + rewrite Hc in Hj. injection Hj as ->. right. unfold es. destruct (Z.eqb_spec x 0) as [|]; [by left|]. right. left.
    + left. apply (list_elem_of_lookup_2 _ j). by rewrite list_lookup_insert_ne by done.
Qed.

(** A second visit finds the slot filled. *)
Lemma add_step_again s cl :
  0 <= cl -> MAK_sflush_table s !! Z.to_nat (cl / LINE mod 8) = Some cl -> add_step cl s = Ok (tt, s).
Proof.
  intros Hcl H. unfold add_step, cbind, table_get. cbn [get_table].
  change (u64 (SFLUSH_TABLE_SZ - 1)) with (2 ^ 3 - 1). rewrite land_pow2_pred, Z.shiftr_div_pow2 by (unfold LOG_CACHE_LINE_SZ; lia).
  change (2 ^ LOG_CACHE_LINE_SZ) with LINE. change (2 ^ 3) with 8. rewrite H. by rewrite Z.eqb_refl.
Qed.

Lemma CLFLUSH_FAS_run s a size :
  table_ok (MAK_sflush_table s) -> 0 <= a -> 1 <= size -> a + size < 2 ^ 64 ->
  exists s' es, CLFLUSH_FAS a size s = Ok (tt, s') /\ slot_filled s s' (a / LINE * LINE) es.
Proof.
  intros Ht Ha Hs Hb. unfold CLFLUSH_FAS, add_to_flush_table. rewrite land_line, u64_small by lia. set (cl := a / LINE * LINE).
  change (fun _ : Z => _) with (fun _ : Z => add_step cl).
  assert (Hcl : 0 <= cl <= a) by (unfold cl, LINE; pose proof (Z.mul_div_le a 64); pose proof (Z.div_pos a 64); lia).
  destruct (add_step_run s cl Ht) as (s' & es & Hr & Hf & Hat); [lia|apply Z.mod_mul; done|]. exists s', es. split; [|done].
  assert (Hn : 1 <= line_steps cl (a + size)).
  { unfold line_steps, CACHE_LINE_SZ. apply Z.div_le_lower_bound; lia. }
  rewrite seqZ_cons by lia. cbn [cfor]. rewrite (cbind_Ok _ _ _ _ _ Hr).
  generalize (seqZ (Z.succ 0) (Z.pred (line_steps cl (a + size)))). intros l.
  induction l as [|i l IH]; [done|]. cbn [cfor]. rewrite (cbind_Ok _ _ _ _ _ (add_step_again s' cl (proj1 Hcl) Hat)). exact IH.
Qed.

(** *** Flushing the whole table *)

Definition flushes (tb : list Z) : list nev := (fun x => NFl (x / LINE)) <$> filter (fun x => x <> 0) tb.

Lemma flush_loop_run rest : forall k s,
  MAK_sflush_table s = replicate k 0 ++ rest ->
  exists s', cfor (seqZ (Z.of_nat k) (Z.of_nat (length rest))) (fun i =>
      cl <- table_get Sflush i;
      if cl =? 0 then cret tt else CLFLUSH cl;; table_set Sflush i 0) s = Ok (tt, s') /\
    ran s s' (flushes rest) /\ same_vars s s' /\ MAK_sflush_table s' = replicate (k + length rest) 0.
Proof.
  induction rest as [|x rest IH]; intros k s Ht.
  { exists s. cbn. split; [done|]. split; [apply ran_nil|]. split; [done|]. rewrite Ht, app_nil_r. by rewrite Nat.add_0_r. }
  cbn [length]. rewrite seqZ_cons by lia. cbn [cfor].
  replace (Z.succ (Z.of_nat k)) with (Z.of_nat (S k)) by lia. replace (Z.pred (Z.of_nat (S (length rest)))) with (Z.of_nat (length rest)) by lia.
  assert (Hx : table_get Sflush (Z.of_nat k) s = Ok (x, s)).
  { unfold table_get. cbn [get_table]. rewrite Ht, Nat2Z.id, lookup_app_r by (rewrite length_replicate; lia).
    rewrite length_replicate, Nat.sub_diag. done. }
  rewrite cbind_assoc, (cbind_Ok _ _ _ _ _ Hx).
  set (s1 := if x =? 0 then s else set_table Sflush (<[k := 0]> (MAK_sflush_table s)) (emit_st (NFl (x / LINE)) s)).
  assert (H1 : (if x =? 0 then cret tt else CLFLUSH x;; table_set Sflush (Z.of_nat k) 0) s = Ok (tt, s1)).
  { unfold s1. destruct (x =? 0); [done|]. unfold table_set, CLFLUSH, emit, cmod, cbind. by rewrite Nat2Z.id. }
  rewrite (cbind_Ok _ _ _ _ _ H1).
  assert (Ht1 : MAK_sflush_table s1 = replicate (S k) 0 ++ rest).
  { unfold s1. replace (replicate (S k) 0) with (replicate k 0 ++ [0]) by (by rewrite <- replicate_S_end).
    rewrite <- app_assoc. destruct (Z.eqb_spec x 0) as [->|]; [exact Ht|]. cbn. rewrite Ht.
    rewrite insert_app_r_alt by (rewrite length_replicate; lia). rewrite length_replicate, Nat.sub_diag. done. }
  destruct (IH (S k) s1 Ht1) as (s' & Hr & Hran & Hsv & Htb). exists s'. split; [exact Hr|].
  split; [|split; [eapply same_vars_trans; [|exact Hsv]; unfold same_vars, s1; by destruct (x =? 0)|by rewrite Htb, Nat.add_succ_r]].
  unfold flushes. unfold s1 in Hran. destruct (Z.eqb_spec x 0) as [->|Hx0].
  - rewrite filter_cons_False by lia. done.
  - rewrite filter_cons_True by done. apply ran_cons. exact Hran.
Qed.

Lemma flush_all_run s :
  length (MAK_sflush_table s) = 8%nat ->
  exists s', flush_all_entry Sflush SFLUSH_TABLE_SZ s = Ok (tt, s') /\
    ran s s' (NFence :: flushes (MAK_sflush_table s) ++ [NFence]) /\ same_vars s s' /\ MAK_sflush_table s' = replicate 8 0.
Proof.
  intros Hl. unfold flush_all_entry, MFENCE, emit.
  destruct (flush_loop_run (MAK_sflush_table s) 0 (emit_st NFence s) eq_refl) as (s1 & Hr & Hran & Hsv & Htb).
  rewrite Hl in Hr, Htb. change (cbind (cmod (emit_st NFence)) ?k s) with (k tt (emit_st NFence s)). cbv beta.
  change (seqZ 0 SFLUSH_TABLE_SZ) with (seqZ (Z.of_nat 0) (Z.of_nat 8)). rewrite (cbind_Ok _ _ _ _ _ Hr).
  exists (emit_st NFence s1). split; [done|]. split; [|split; [exact Hsv|exact Htb]].
  apply ran_cons. apply (ran_app _ s1); [exact Hran|apply ran_emit].
Qed.

(** ** What the table keeps track of *)

(** The bytes of [G] are in memory already, or their line is flushed, or it is in the table. *)
Definition kept (G : Z -> Prop) (s : nvm) (tb : list Z) : Prop :=
  forall l, (forall a, a / LINE = l -> G a -> fixed s a) \/ l_flushed (line s l) = true \/ (l * LINE ∈ tb /\ l <> 0).

Definition in_line (n : nat) (a : Z) : Prop := (1 <= n)%nat /\ a / LINE = (a + Z.of_nat n - 1) / LINE.

Lemma in_line_touches n a l : in_line n a -> touches l n a = (l =? a / LINE).
Proof.
  intros [_ E]. unfold touches. rewrite <- E. destruct (Z.eqb_spec l (a / LINE)) as [->|Hn]; [by rewrite Z.leb_refl|].
  apply andb_false_iff. destruct (decide (l < a / LINE)); [left|right]; apply Z.leb_gt; lia.
Qed.

Lemma in_line_byte n a b : in_line n a -> a <= b < a + Z.of_nat n -> b / LINE = a / LINE.
Proof.
  intros [_ E] Hb. unfold LINE in *. pose proof (Z.div_le_mono a b 64 ltac:(lia) ltac:(lia)).
  pose proof (Z.div_le_mono b (a + Z.of_nat n - 1) 64 ltac:(lia) ltac:(lia)). lia.
Qed.

Lemma up_to_date_run s es : up_to_date s -> up_to_date (nv_run s es).
Proof. revert s. induction es as [|e es IH]; intros s H; [done|]. cbn. by apply IH, up_to_date_step. Qed.

Lemma fixed_run s es a : up_to_date s -> fixed s a -> (forall e, e ∈ es -> ~ writes e a) -> fixed (nv_run s es) a.
Proof.
  revert s. induction es as [|e es IH]; intros s Hu H He; [done|]. cbn. apply IH.
  - by apply up_to_date_step.
  - apply fixed_step; [done|done|]. apply He. left.
  - intros e' He'. apply He. by right.
Qed.

Lemma mem_run s es a : (forall e, e ∈ es -> ~ writes e a) -> rd8 (mem (nv_run s es)) a = rd8 (mem s) a.
Proof.
  revert s. induction es as [|e es IH]; intros s He; [done|]. cbn. rewrite IH.
  - apply mem_step, He. left.
  - intros e' He'. apply He. by right.
Qed.

Lemma flushes_write_nothing es a : only_flushes es -> forall e, e ∈ es -> ~ writes e a.
Proof. intros H e He. destruct (H e He) as (l & ->). cbn. tauto. Qed.

Lemma flags_kept s es l : only_flushes es -> l_flushed (line s l) = true -> l_flushed (line (nv_run s es) l) = true.
Proof.
  revert s. induction es as [|e es IH]; intros s H Hl; [done|]. cbn. apply IH; [intros e' He'; apply H; by right|].
  destruct (H e ltac:(left)) as (l' & ->). by apply flush_keeps_flag.
Qed.

Lemma flags_set s es l : only_flushes es -> NFl l ∈ es -> l_flushed (line (nv_run s es) l) = true.
Proof.
  revert s. induction es as [|e es IH]; intros s H He; [by apply not_elem_of_nil in He|]. cbn.
  apply elem_of_cons in He as [<-|He].
  - apply flags_kept; [intros e' He'; apply H; by right|apply flush_flags].
  - apply IH; [intros e' He'; apply H; by right|done].
Qed.

(** A store and the entry for its line. *)
Lemma kept_store G s n a v es tb tb' :
  up_to_date s -> kept G s tb -> in_line n a -> LINE <= a -> only_flushes es -> a / LINE * LINE ∈ tb' ->
  (forall x, x ∈ tb -> x ∈ tb' \/ x = 0 \/ NFl (x / LINE) ∈ es) ->
  kept G (nv_run (nv_step s (NSt n a v)) es) tb'.
Proof.
  intros Hu Hk Hin Ha Hes Hl Htb l. set (s1 := nv_step s (NSt n a v)).
  assert (Hu1 : up_to_date s1) by by apply up_to_date_step.
  destruct (decide (l = a / LINE)) as [->|Hne].
  { right; right. split; [done|]. unfold LINE in *. pose proof (Z.div_le_lower_bound a 64 1). lia. }
  destruct (Hk l) as [Hf|[Hf|[Ht Hl0]]].
  - left. intros b Hb Gb. apply fixed_run; [done| |by apply flushes_write_nothing].
    apply fixed_step; [done|by apply Hf|]. cbn. intros Hw. apply Hne. rewrite <- Hb. by apply (in_line_byte n).
  - right; left. apply flags_kept; [done|]. cbn. rewrite in_line_touches by done. by rewrite (proj2 (Z.eqb_neq _ _) Hne).
  - destruct (Htb _ Ht) as [Ht'|[Hz|Hfl]].
    + right; right. done.
    + unfold LINE in Hz. lia.
    + right; left. apply flags_set; [done|]. rewrite Z.div_mul in Hfl by done. done.
Qed.

Lemma only_flushes_table tb : only_flushes (flushes tb).
Proof. intros e He. unfold flushes in He. apply list_elem_of_fmap in He as (x & -> & _). eauto. Qed.

Lemma fence_keeps_fixed s a : up_to_date s -> fixed s a -> fixed (nv_step s NFence) a.
Proof. intros Hu Hf. apply fixed_step; [done|done|]. cbn. tauto. Qed.

(** After the table is flushed, everything kept is in memory. *)
Lemma kept_flushed G s tb a :
  up_to_date s -> kept G s tb -> G a -> fixed (nv_run s (NFence :: flushes tb ++ [NFence])) a.
Proof.
  intros Hu Hk Ga. cbn [nv_run foldl]. rewrite foldl_app. cbn [foldl].
  change (fixed (nv_step (nv_run (nv_step s NFence) (flushes tb)) NFence) a). set (s1 := nv_step s NFence).
  assert (Hu1 : up_to_date s1) by by apply up_to_date_step.
  pose proof (only_flushes_table tb) as Hof. pose proof (up_to_date_run s1 (flushes tb) Hu1) as Hu2.
  destruct (Hk (a / LINE)) as [Hf|[Hf|[Ht Hl]]].
  - apply fence_keeps_fixed; [done|]. apply fixed_run; [done| |by apply flushes_write_nothing].
    apply fence_keeps_fixed; [done|]. by apply Hf.
  - apply fence_keeps_fixed; [done|]. apply fixed_run; [done| |by apply flushes_write_nothing].
    by apply (fence_fixes s (a / LINE)).
  - apply (fence_fixes _ (a / LINE)); [done| |done]. apply flags_set; [done|]. unfold flushes.
    apply list_elem_of_fmap. exists (a / LINE * LINE). split; [by rewrite line_of_entry|].
    apply list_elem_of_filter. split; [unfold LINE in *; lia|done].
Qed.

Lemma kept_quiet G s tb e :
  up_to_date s -> kept G s tb -> (match e with NSt _ _ _ => False | _ => True end) -> kept G (nv_step s e) tb.
Proof.
  intros Hu Hk He l. destruct (Hk l) as [Hf|[Hf|Ht]]; [| |by right; right].
  - left. intros a Ha Ga. apply fixed_step; [done|by apply Hf|]. destruct e; cbn; tauto.
  - destruct e as [|l'|]; [done|right; left; by apply flush_keeps_flag|]. left. intros a Ha _. by apply (fence_fixes s l).
Qed.

(** A store to a line without bytes of [G]. *)
Lemma kept_elsewhere G s tb n a v :
  up_to_date s -> kept G s tb -> in_line n a -> (forall b, b / LINE = a / LINE -> ~ G b) -> kept G (nv_step s (NSt n a v)) tb.
Proof.
  intros Hu Hk Hin Hno l. destruct (decide (l = a / LINE)) as [->|Hne].
  { left. intros b Hb Gb. by destruct (Hno b Hb). }
  destruct (Hk l) as [Hf|[Hf|Ht]]; [| |by right; right].
  - left. intros b Hb Gb. apply fixed_step; [done|by apply Hf|]. cbn. intros Hw. apply Hne. rewrite <- Hb. by apply (in_line_byte n).
  - right; left. cbn. rewrite in_line_touches by done. by rewrite (proj2 (Z.eqb_neq _ _) Hne).
Qed.
