(* ===== verification/MakFas.v ===== *)
(** * Makalu: sections are failure-atomic

    What the log holds in the middle of a section, in every image a failure can leave; that
    recovery undoes it; that the operations of a section and recovery itself keep it that way. *)

From S2P Require Import Prelude Pptr ByteMem MakLog MakPersist.

(** ** Entries *)

Record lent := mkEnt { en_ty : log_ty; en_addr : Z; en_val : Z }.

Definition en_size (x : lent) : nat := ty_size (en_ty x).

Definition entry_at (m : bmem) (e : Z) (x : lent) : Prop :=
  rd 8 m (log_addr e) = en_addr x /\ rd 1 m (log_type e) = ty_code (en_ty x) /\ rd (en_size x) m (log_val e) = en_val x.

Definition covers (x : lent) (a : Z) : Prop := en_addr x <= a < en_addr x + Z.of_nat (en_size x).
Definition covered (ents : list lent) (a : Z) : Prop := exists x, x ∈ ents /\ covers x a.

#[export] Instance covers_dec x a : Decision (covers x a).
Proof. unfold covers. apply _. Defined.

#[export] Instance covered_dec ents a : Decision (covered ents a).
Proof.
  destruct (decide (Exists (fun x => covers x a) ents)) as [H|H]; [left|right].
  - apply list.Exists_exists in H as (x & H1 & H2). by exists x.
  - intros (x & H1 & H2). apply H, list.Exists_exists. eauto.
Defined.

(** Undoing the entries, the last one first. *)
Definition undo1 (x : lent) (m : bmem) : bmem := wr (en_size x) (en_addr x) (en_val x) m.
Definition undo (ents : list lent) (m : bmem) : bmem := foldr undo1 m ents.

Lemma undo_app ents1 ents2 m : undo (ents1 ++ ents2) m = undo ents1 (undo ents2 m).
Proof. apply foldr_app. Qed.

Lemma undo1_other x m a : ~ covers x a -> rd8 (undo1 x m) a = rd8 m a.
Proof. unfold covers. intros H. apply rd8_wr. lia. Qed.

Lemma undo_other ents m a : ~ covered ents a -> rd8 (undo ents m) a = rd8 m a.
Proof.
  induction ents as [|x ents IH]; intros H; [done|]. cbn. rewrite undo1_other.
  - apply IH. intros (y & Hy & Hc). apply H. exists y. split; [by right|done].
  - intros Hc. apply H. exists x. split; [left|done].
Qed.

(** A byte of a written value does not depend on what was there. *)
Lemma rd8_wr_in n a v m m' b : a <= b < a + Z.of_nat n -> rd8 (wr n a v m) b = rd8 (wr n a v m') b.
Proof.
  revert a v m m'. induction n as [|n IH]; intros a v m m' Hb; [lia|]. cbn [wr].
  destruct (decide (b = a)) as [->|]; [|apply IH; lia]. rewrite !rd8_wr, !rd8_insert by lia. by rewrite !decide_True.
Qed.

Lemma undo_covered ents m m' a : covered ents a -> rd8 (undo ents m) a = rd8 (undo ents m') a.
Proof.
  induction ents as [|x ents IH]; intros (y & Hy & Hc); [by apply not_elem_of_nil in Hy|]. cbn.
  destruct (decide (covers x a)) as [Hx|Hx]; [by apply rd8_wr_in|]. rewrite !undo1_other by done. apply IH.
  exists y. split; [|done]. by apply elem_of_cons in Hy as [->|].
Qed.

Lemma rd_range n m a : bmem_ok m -> 0 <= rd n m a < 256 ^ Z.of_nat n.
Proof.
  intros Hm. revert a. induction n as [|n IH]; intros a; [cbn; lia|]. cbn [rd].
  rewrite Nat2Z.inj_succ, Z.pow_succ_r by lia. specialize (IH (a + 1)). pose proof (Hm a). lia.
Qed.

(** Writing back what was read. *)
Lemma rd8_wr_rd n M a m b : bmem_ok M -> a <= b < a + Z.of_nat n -> rd8 (wr n a (rd n M a) m) b = rd8 M b.
Proof.
  intros HM. revert a m. induction n as [|n IH]; intros a m Hb; [lia|]. cbn [wr rd]. pose proof (HM a).
  replace ((rd8 M a + 256 * rd n M (a + 1)) mod 256) with (rd8 M a)
    by (rewrite Z.mul_comm, Z.mod_add, Z.mod_small; lia).
  replace ((rd8 M a + 256 * rd n M (a + 1)) / 256) with (rd n M (a + 1))
    by (rewrite Z.mul_comm, Z.div_add, Z.div_small; lia).
  destruct (decide (b = a)) as [->|]; [|apply IH; lia]. rewrite rd8_wr, rd8_insert by lia. by rewrite decide_True.
Qed.

Lemma undo1_honest x M m a : bmem_ok M -> en_val x = rd (en_size x) M (en_addr x) -> covers x a -> rd8 (undo1 x m) a = rd8 M a.
Proof. intros HM Hv Hc. unfold undo1. rewrite Hv. by apply rd8_wr_rd. Qed.

Lemma entry_ext m m' e x : (forall a, e <= a < e + 32 -> rd8 m a = rd8 m' a) -> entry_at m e x -> entry_at m' e x.
Proof.
  intros H (H1 & H2 & H3).
  assert (Hs : Z.of_nat (en_size x) <= 8) by (unfold en_size; destruct (en_ty x); cbn; lia).
  split_and!; (etransitivity; [|eassumption]); symmetry; apply rd_ext; intros b Hb; apply H; unfold log_addr, log_type, log_val in *; lia.
Qed.

Section log.
Variables (B L : Z).

Definition slot (j : nat) : Z := L + LOG_E_SZ * Z.of_nat j.
Definition version_addr : Z := B + off_persistent_log_version.

Definition in_log (a : Z) : Prop := L <= a < L + MAX_LOG_SZ.
Definition in_version (a : Z) : Prop := version_addr <= a < version_addr + 8.
Definition in_start (a : Z) : Prop := version_addr + 8 <= a < version_addr + 16.

(** Where the metadata and the log are. *)
Definition geometry : Prop :=
  0 <= B /\ B mod 8 = 0 /\ B + 2 ^ 16 < 2 ^ 64 /\ 64 <= L /\ L mod 64 = 0 /\ L + MAX_LOG_SZ + 64 <= 2 ^ 64 /\
  (L + MAX_LOG_SZ <= version_addr \/ version_addr + 16 <= L).

(** Where a variable may be. *)
Definition placed (n : nat) (a : Z) : Prop :=
  in_line n a /\ 64 <= a /\ a + 8 < 2 ^ 64 /\
  forall b, a <= b < a + Z.of_nat n -> ~ in_log b /\ ~ in_version b /\ ~ in_start b.

Definition placed_entry (x : lent) : Prop := placed (en_size x) (en_addr x) /\ 0 <= en_val x < 256 ^ Z.of_nat (en_size x).

(** ** The log in an image *)

Record logged (i : bmem) (v : Z) (ents : list lent) : Prop := {
  lg_version : rd 8 i version_addr = v;
  lg_start : rd 8 i (version_addr + 8) = L;
  lg_room : (length ents < 64)%nat;
  lg_done : forall j x, ents !! j = Some x -> entry_at i (slot j) x /\ rd 8 i (log_version (slot j)) = v;
  lg_rest : forall j, (length ents <= j < 64)%nat -> rd 8 i (log_version (slot j)) < v;
  lg_placed : forall x, x ∈ ents -> placed_entry x }.

(** ** The middle of a section

    [ents] are in the log for certain, [fl] may be. [G] are the bytes that are protected, [m0] is
    the memory at the start of the section. *)

Record mid (G : Z -> Prop) (m0 : bmem) (v : Z) (s : nvm) (ents : list lent) (fl : option lent) : Prop := {
  mid_up : up_to_date s;
  mid_ok : bmem_ok (mem s) /\ forall l m, m ∈ choices (line s l) -> bmem_ok m;
  mid_meta : forall a, in_version a \/ in_start a -> fixed s a;
  mid_version : rd 8 (mem s) version_addr = v;
  mid_start : rd 8 (mem s) (version_addr + 8) = L;
  mid_room : (length ents + length (option_list fl) < 64)%nat;
  mid_done : forall j x m, ents !! j = Some x -> m ∈ choices (line s (slot j / LINE)) ->
    entry_at m (slot j) x /\ rd 8 m (log_version (slot j)) = v;
  mid_next : forall m, m ∈ choices (line s (slot (length ents) / LINE)) ->
    rd 8 m (log_version (slot (length ents))) < v \/
    exists x, fl = Some x /\ entry_at m (slot (length ents)) x /\ rd 8 m (log_version (slot (length ents))) = v;
  mid_rest : forall j m, (length ents < j < 64)%nat -> m ∈ choices (line s (slot j / LINE)) ->
    rd 8 m (log_version (slot j)) < v;
  mid_placed : forall x, x ∈ ents ++ option_list fl -> placed_entry x;
  mid_flight : forall x, fl = Some x -> en_val x = rd (en_size x) (mem s) (en_addr x);
  mid_data : forall a, G a -> ~ in_log a /\ ~ in_version a;
  mid_free : forall a, G a -> ~ covered ents a -> fixed s a /\ rd8 (mem s) a = rd8 m0 a;
  mid_undo : forall a m, G a -> covered ents a -> rd8 (undo ents m) a = rd8 m0 a }.

Hypothesis Hgeo : geometry.

Lemma slot_line j : slot j / LINE = L / LINE + Z.of_nat j.
Proof.
  destruct Hgeo as (_ & _ & _ & _ & HL & _). unfold slot, LOG_E_SZ, LINE. rewrite Z.mul_comm, Z.div_add by lia. done.
Qed.

Lemma slot_bytes j a : (j < 64)%nat -> a / LINE = slot j / LINE <-> slot j <= a < slot j + 64.
Proof.
  intros Hj. rewrite slot_line. destruct Hgeo as (_ & _ & _ & _ & HL & _). unfold slot, LOG_E_SZ, LINE.
  pose proof (Z.div_mod L 64 ltac:(lia)). split.
  - intros E. pose proof (Z.div_mod a 64 ltac:(lia)). pose proof (Z.mod_pos_bound a 64). lia.
  - intros Ha. symmetry. apply (Z.div_unique_pos a 64 _ (a - (L + 64 * Z.of_nat j))); lia.
Qed.

Lemma slot_in_log j a : (j < 64)%nat -> a / LINE = slot j / LINE -> in_log a.
Proof. intros Hj E. apply slot_bytes in E; [|done]. unfold in_log, slot, LOG_E_SZ, MAX_LOG_SZ, HBLKSIZE in *. lia. Qed.

Lemma version_line a : in_version a -> a / LINE = version_addr / LINE.
Proof.
  destruct Hgeo as (_ & HB & _). unfold in_version, version_addr, off_persistent_log_version, LINE. intros Ha.
  pose proof (Z.div_mod B 8 ltac:(lia)). set (q := B / 8) in *.
  pose proof (Z.div_mod a 64 ltac:(lia)). pose proof (Z.mod_pos_bound a 64). pose proof (Z.div_mod (B + 32824) 64 ltac:(lia)).
  pose proof (Z.mod_pos_bound (B + 32824) 64). lia.
Qed.

Lemma log_apart a : in_log a -> in_version a \/ in_start a -> False.
Proof.
  destruct Hgeo as (_ & _ & _ & _ & _ & _ & H). unfold in_log, in_version, in_start, MAX_LOG_SZ, HBLKSIZE in *. lia.
Qed.

(** ** Images *)

Lemma image_line s i l : image s i -> exists m, m ∈ choices (line s l) /\ forall n a, (forall b, a <= b < a + Z.of_nat n -> b / LINE = l) -> rd n i a = rd n m a.
Proof. intros Hi. destruct (Hi l) as (m & Hm & Ha). exists m. split; [done|]. intros n a Hb. apply rd_ext. auto. Qed.

Lemma version_bytes j b : (j < 64)%nat -> log_version (slot j) <= b < log_version (slot j) + Z.of_nat 8 -> b / LINE = slot j / LINE.
Proof. intros Hj Hb. apply slot_bytes; [done|]. unfold log_version in Hb. lia. Qed.

Lemma image_entry i j m x :
  (j < 64)%nat -> (forall b, b / LINE = slot j / LINE -> rd8 i b = rd8 m b) -> entry_at m (slot j) x -> entry_at i (slot j) x.
Proof. intros Hj Hb. apply entry_ext. intros a Ha. symmetry. apply Hb, slot_bytes; [done|]. lia. Qed.

Lemma image_ok G m0 v s ents fl i : mid G m0 v s ents fl -> image s i -> bmem_ok i.
Proof. intros M Hi a. destruct (Hi (a / LINE)) as (m & Hm & Ha). rewrite Ha by done. by eapply (proj2 (mid_ok _ _ _ _ _ _ M)). Qed.

Lemma mid_mem_version G m0 v s ents fl j : mid G m0 v s ents fl -> (length ents < j < 64)%nat -> rd 8 (mem s) (log_version (slot j)) < v.
Proof.
  intros M Hj. rewrite <- (rd_ext 8 (newest (line s (slot j / LINE)))).
  - apply (mid_rest _ _ _ _ _ _ M); [done|apply newest_choice].
  - intros b Hb. rewrite <- (version_bytes j b) by (done || lia). apply (mid_up _ _ _ _ _ _ M).
Qed.

(** A failure leaves a log whose undoing restores the protected bytes. *)
Lemma mid_image G m0 v s ents fl i :
  mid G m0 v s ents fl -> image s i ->
  exists ents', logged i v ents' /\ (forall a, G a -> rd8 (undo ents' i) a = rd8 m0 a).
Proof.
  intros M Hi. pose proof (mid_room _ _ _ _ _ _ M) as Hroom.
  assert (Hmeta : forall a, in_version a \/ in_start a -> rd8 i a = rd8 (mem s) a).
  { intros a Ha. apply image_fixed; [done|]. by apply (mid_meta _ _ _ _ _ _ M). }
  assert (Hv : rd 8 i (version_addr) = v).
  { rewrite <- (mid_version _ _ _ _ _ _ M). apply rd_ext. intros b Hb. apply Hmeta. left. unfold in_version. lia. }
  assert (Hs : rd 8 i (version_addr + 8) = L).
  { rewrite <- (mid_start _ _ _ _ _ _ M). apply rd_ext. intros b Hb. apply Hmeta. right. unfold in_start. lia. }
  assert (Hdone : forall j x, ents !! j = Some x -> entry_at i (slot j) x /\ rd 8 i (log_version (slot j)) = v).
  { intros j x Hj. pose proof (lookup_lt_Some _ _ _ Hj). destruct (Hi (slot j / LINE)) as (m & Hm & Hb).
    destruct (mid_done _ _ _ _ _ _ M j x m Hj Hm) as [He Hvj]. split; [by eapply image_entry; [lia| |exact He]|].
    rewrite <- Hvj. apply rd_ext. intros b Hb'. apply Hb, version_bytes; [lia|done]. }
  assert (Hrest : forall j, (length ents < j < 64)%nat -> rd 8 i (log_version (slot j)) < v).
  { intros j Hj. destruct (Hi (slot j / LINE)) as (m & Hm & Hb). erewrite rd_ext; [by apply (mid_rest _ _ _ _ _ _ M j m)|].
    intros b Hb'. apply Hb, version_bytes; [lia|done]. }
  destruct (Hi (slot (length ents) / LINE)) as (m & Hm & Hb).
  assert (Hvn : rd 8 i (log_version (slot (length ents))) = rd 8 m (log_version (slot (length ents)))).
  { apply rd_ext. intros b Hb'. apply Hb, version_bytes; [lia|done]. }
  destruct (mid_next _ _ _ _ _ _ M m Hm) as [Hlt|(x & Hfl & He & Heq)].
  - exists ents. split.
    + split; [done|done|lia|done| |].
      * intros j Hj. destruct (decide (j = length ents)) as [->|]; [lia|]. apply Hrest. lia.
      * intros x Hx. apply (mid_placed _ _ _ _ _ _ M). apply elem_of_app. by left.
    + intros a Ga. destruct (decide (covered ents a)) as [Hc|Hc]; [by apply (mid_undo _ _ _ _ _ _ M)|].
      rewrite undo_other by done. destruct (mid_free _ _ _ _ _ _ M a Ga Hc) as [Hf <-]. by apply image_fixed.
  - subst fl. cbn in Hroom. exists (ents ++ [x]). split.
    + split; [done|done|rewrite length_app; cbn; lia| | |].
      * intros j y Hj. apply lookup_app_Some in Hj as [Hj|[Hlen Hj]]; [by apply Hdone|].
        destruct (j - length ents)%nat as [|k] eqn:Ek; [|done]. cbn in Hj. injection Hj as <-.
        replace j with (length ents) by lia. split; [by eapply image_entry; [lia| |exact He]|congruence].
      * intros j Hj. rewrite length_app in Hj. cbn in Hj. apply Hrest. lia.
      * apply (mid_placed _ _ _ _ _ _ M).
    + intros a Ga. rewrite undo_app. cbn [undo foldr].
      destruct (decide (covered ents a)) as [Hc|Hc]; [by apply (mid_undo _ _ _ _ _ _ M)|].
      rewrite undo_other by done. destruct (mid_free _ _ _ _ _ _ M a Ga Hc) as [Hf Heq0].
      destruct (decide (covers x a)) as [Hx|Hx].
      * rewrite <- Heq0. apply undo1_honest; [apply (mid_ok _ _ _ _ _ _ M)|by apply (mid_flight _ _ _ _ _ _ M)|done].
      * rewrite undo1_other by done. rewrite <- Heq0. by apply image_fixed.
Qed.

(** ** Steps *)

Lemma ok_step s e :
  bmem_ok (mem s) /\ (forall l m, m ∈ choices (line s l) -> bmem_ok m) ->
  bmem_ok (mem (nv_step s e)) /\ (forall l m, m ∈ choices (line (nv_step s e) l) -> bmem_ok m).
Proof.
  intros [H1 H2].
  assert (H3 : bmem_ok (mem (nv_step s e))) by (destruct e as [n a v| |]; cbn; [intros b; by apply rd8_wr_range|done..]).
  split; [done|]. intros l m Hm. apply choices_step in Hm as [Hm|[->| ->]]; [by eapply H2|done|eapply H2, newest_choice].
Qed.

(** Flushes and fences only take choices away. *)
Lemma mid_quiet G m0 v s ents fl e :
  mid G m0 v s ents fl -> (match e with NSt _ _ _ => False | _ => True end) -> mid G m0 v (nv_step s e) ents fl.
Proof.
  intros M He. destruct M as [Hu Hok Hmeta Hv Hl Hroom Hd Hn Hr Hp Hf HD Hfr Hun].
  assert (Hw : forall a, ~ writes e a) by (destruct e; cbn; tauto).
  assert (Hmem : mem (nv_step s e) = mem s) by (by destruct e).
  assert (Hch : forall l m, m ∈ choices (line (nv_step s e) l) -> m ∈ choices (line s l)).
  { intros l m. apply untouched_choices. by destruct e. }
  split; rewrite ?Hmem; eauto using up_to_date_step, fixed_step.
  - split; [apply Hok|]. intros l m Hm. by eapply (proj2 Hok), Hch.
  - intros a Ga Hc. destruct (Hfr a Ga Hc). split; [by apply fixed_step|done].
Qed.

Lemma mid_quiets G m0 v es : forall s ents fl,
  mid G m0 v s ents fl -> (forall e, e ∈ es -> match e with NSt _ _ _ => False | _ => True end) ->
  always (fun x => mid G m0 v x ents fl) s es.
Proof.
  induction es as [|e es IH]; intros s ents fl M He; [by apply always_nil|]. apply always_cons; [done|]. apply IH.
  - apply mid_quiet; [done|]. apply He. left.
  - intros e' He'. apply He. by right.
Qed.

(** A store outside the log leaves its lines alone. *)
Lemma data_store_slot s n a v j m :
  (j < 64)%nat -> placed n a -> m ∈ choices (line (nv_step s (NSt n a v)) (slot j / LINE)) -> m ∈ choices (line s (slot j / LINE)).
Proof.
  intros Hj (Hin & _ & _ & Hout) Hm. eapply untouched_choices; [|exact Hm]. cbn. rewrite in_line_touches by done.
  apply Z.eqb_neq. intros E. destruct (Hout a) as [Ho _]; [destruct Hin; lia|]. apply Ho. by eapply slot_in_log.
Qed.

(** A store to bytes that are logged, or not protected. *)
Lemma mid_data_store G m0 v s ents n a w :
  mid G m0 v s ents None -> placed n a -> (forall b, a <= b < a + Z.of_nat n -> G b -> covered ents b) ->
  mid G m0 v (nv_step s (NSt n a w)) ents None.
Proof.
  intros M Hpl Hcov. pose proof Hpl as (Hin & _ & _ & Hout).
  destruct M as [Hu Hok Hmeta Hv Hl Hroom Hd Hn Hr Hp Hf HD Hfr Hun].
  assert (Hw : forall b, in_version b \/ in_start b -> ~ writes (NSt n a w) b).
  { cbn. intros b Hb Hab. destruct (Hout b Hab) as (_ & H1 & H2). tauto. }
  assert (Hrd : forall x, (forall b, x <= b < x + 8 -> in_version b \/ in_start b) -> rd 8 (mem (nv_step s (NSt n a w))) x = rd 8 (mem s) x).
  { intros x Hx. apply rd_ext. intros b Hb. apply mem_step, Hw, Hx. lia. }
  cbn in Hroom. split; try done.
  - by apply up_to_date_step.
  - by apply ok_step.
  - intros b Hb. apply fixed_step; auto.
  - rewrite Hrd; [done|]. intros b Hb. left. unfold in_version. lia.
  - rewrite Hrd; [done|]. intros b Hb. right. unfold in_start. lia.
  - intros j x m Hj Hm. apply Hd; [done|]. apply data_store_slot in Hm; [done|pose proof (lookup_lt_Some _ _ _ Hj); lia|done].
  - intros m Hm. apply Hn. apply data_store_slot in Hm; [done|lia|done].
  - intros j m Hj Hm. apply (Hr j); [done|]. apply data_store_slot in Hm; [done|lia|done].
  - intros b Gb Hc. destruct (Hfr b Gb Hc) as [H1 H2].
    assert (Hnw : ~ writes (NSt n a w) b) by (cbn; intros Hab; by apply Hc, Hcov).
    split; [by apply fixed_step|]. by rewrite mem_step.
Qed.

(** ** Entries *)

Lemma slot_in_line k n a : (k < 64)%nat -> (1 <= n)%nat -> slot k <= a -> a + Z.of_nat n <= slot k + 64 -> in_line n a /\ a / LINE = slot k / LINE.
Proof.
  intros Hk Hn H1 H2. assert (E : a / LINE = slot k / LINE) by (apply slot_bytes; [done|lia]).
  split; [|done]. split; [done|]. rewrite E. symmetry. apply slot_bytes; [done|lia].
Qed.

Lemma other_slot s k n a w j m :
  (k < 64)%nat -> (j < 64)%nat -> j <> k -> (1 <= n)%nat -> slot k <= a -> a + Z.of_nat n <= slot k + 64 ->
  m ∈ choices (line (nv_step s (NSt n a w)) (slot j / LINE)) -> m ∈ choices (line s (slot j / LINE)).
Proof.
  intros Hk Hj Hne Hn H1 H2 Hm. destruct (slot_in_line k n a Hk Hn H1 H2) as [Hin E]. eapply untouched_choices; [|exact Hm]. cbn.
  rewrite in_line_touches by done. apply Z.eqb_neq. rewrite E, !slot_line. lia.
Qed.

Lemma placed_same n a s k w x :
  (forall b, a <= b < a + Z.of_nat n -> in_log b) -> placed_entry x -> (k <= en_size x)%nat ->
  rd k (mem (nv_step s (NSt n a w))) (en_addr x) = rd k (mem s) (en_addr x).
Proof.
  intros Hlog [(_ & _ & _ & Hout) _] Hk. apply rd_ext. intros b Hb. apply mem_step. cbn. intros Hw.
  destruct (Hout b) as [Ho _]; [lia|]. by apply Ho, Hlog.
Qed.

(** A store in the slot behind the entries. *)
Lemma mid_log_store G m0 v s ents fl n a w :
  let k := length ents in
  mid G m0 v s ents None -> (1 <= n)%nat -> slot k <= a -> a + Z.of_nat n <= slot k + 64 ->
  (k + length (option_list fl) < 64)%nat ->
  (forall x, fl = Some x -> placed_entry x /\ en_val x = rd (en_size x) (mem s) (en_addr x)) ->
  (rd 8 (wr n a w (mem s)) (log_version (slot k)) < v \/
   exists x, fl = Some x /\ entry_at (wr n a w (mem s)) (slot k) x /\ rd 8 (wr n a w (mem s)) (log_version (slot k)) = v) ->
  mid G m0 v (nv_step s (NSt n a w)) ents fl.
Proof.
  intros k M Hn H1 H2 Hroom' Hfl Hnew. destruct M as [Hu Hok Hmeta Hv Hl Hroom Hd Hnx Hr Hp Hf HD Hfr Hun].
  cbn in Hroom. rewrite Nat.add_0_r in Hroom.
  assert (Hlog : forall b, a <= b < a + Z.of_nat n -> in_log b).
  { intros b Hb. apply (slot_in_log k); [done|]. apply slot_bytes; [done|lia]. }
  assert (Hw : forall b, in_version b \/ in_start b -> ~ writes (NSt n a w) b).
  { cbn. intros b Hb Hab. by eapply log_apart; [apply Hlog|]. }
  assert (Hrd : forall x, (forall b, x <= b < x + 8 -> in_version b \/ in_start b) -> rd 8 (mem (nv_step s (NSt n a w))) x = rd 8 (mem s) x).
  { intros x Hx. apply rd_ext. intros b Hb. apply mem_step, Hw, Hx. lia. }
  split; try done.
  - by apply up_to_date_step.
  - by apply ok_step.
  - intros b Hb. apply fixed_step; auto.
  - rewrite Hrd; [done|]. intros b Hb. left. unfold in_version. lia.
  - rewrite Hrd; [done|]. intros b Hb. right. unfold in_start. lia.
  - intros j x m Hj Hm. pose proof (lookup_lt_Some _ _ _ Hj). apply Hd; [done|]. apply (other_slot s k n a w j m) in Hm; (done || lia).
  - intros m Hm. apply stored_choices in Hm as [Hm| ->]; [|done]. destruct (Hnx m Hm) as [Hlt|(x & Hx & _)]; [by left|done].
  - intros j m Hj Hm. apply (Hr j); [done|]. apply (other_slot s k n a w j m) in Hm; (done || lia).
  - intros x Hx. apply elem_of_app in Hx as [Hx|Hx]; [apply Hp, elem_of_app; by left|].
    destruct fl as [y|]; [|by apply not_elem_of_nil in Hx]. cbn in Hx. apply list_elem_of_singleton in Hx as ->. by apply Hfl.
  - intros x Hx. destruct (Hfl x Hx) as [Hpx ->]. by rewrite placed_same.
  - intros b Gb Hc. destruct (Hfr b Gb Hc) as [F1 F2].
    assert (Hnw : ~ writes (NSt n a w) b) by (cbn; intros Hab; by apply (proj1 (HD b Gb)), Hlog).
    split; [by apply fixed_step|]. by rewrite mem_step.
Qed.

(** The stored entry is in memory. *)
Lemma mid_log_done G m0 v s ents x :
  let k := length ents in
  mid G m0 v s ents (Some x) -> fixed_line s (slot k / LINE) -> entry_at (mem s) (slot k) x ->
  rd 8 (mem s) (log_version (slot k)) = v -> mid G m0 v s (ents ++ [x]) None.
Proof.
  intros k M Hfix He Hve. pose proof (mid_room _ _ _ _ _ _ M) as Hroom. cbn in Hroom.
  destruct M as [Hu Hok Hmeta Hv Hl _ Hd Hnx Hr Hp Hf HD Hfr Hun].
  assert (Hsub : forall a, ~ covered (ents ++ [x]) a -> ~ covered ents a).
  { intros a H (y & Hy & Hc). apply H. exists y. split; [|done]. apply elem_of_app. by left. }
  assert (Hnc : forall a, ~ covered ents a -> covered (ents ++ [x]) a -> covers x a).
  { intros a H (y & Hy & Hc). apply elem_of_app in Hy as [Hy|Hy]; [destruct H; by exists y|]. by apply list_elem_of_singleton in Hy as ->. }
  split; try done.
  - rewrite length_app. cbn. lia.
  - intros j y m Hj Hm. apply lookup_app_Some in Hj as [Hj|[Hlen Hj]]; [by apply Hd|].
    destruct (j - length ents)%nat as [|i] eqn:Ei; [|done]. cbn in Hj. injection Hj as <-. replace j with k in * by (unfold k; lia).
    assert (Hk : (k < 64)%nat) by (unfold k; lia).
    assert (Hb : forall b, slot k <= b < slot k + 64 -> rd8 m b = rd8 (mem s) b).
    { intros b Hb. assert (E : b / LINE = slot k / LINE) by (by apply slot_bytes). apply (Hfix b E). by rewrite E. }
    split.
    + eapply entry_ext; [|exact He]. intros b Hb'. symmetry. apply Hb. lia.
    + rewrite <- Hve. apply rd_ext. intros b Hb'. apply Hb. unfold log_version in Hb'. lia.
  - intros m Hm. left. rewrite length_app in *. cbn in *. apply (Hr _ m); [lia|done].
  - intros j m Hj Hm. rewrite length_app in Hj. cbn in Hj. apply (Hr j m); [lia|done].
  - cbn. by rewrite app_nil_r.
  - intros a Ga Hc. by apply Hfr, Hsub.
  - intros a m Ga Hc. rewrite undo_app. cbn [undo foldr].
    destruct (decide (covered ents a)) as [Hc'|Hc']; [by apply Hun|]. rewrite undo_other by done.
    rewrite (undo1_honest x (mem s)); [by apply Hfr|apply Hok|by apply Hf|by apply Hnc].
Qed.

Definition create_evs (e : Z) (x : lent) (v : Z) : list nev :=
  [NSt 8 (log_addr e) (en_addr x); NSt (en_size x) (log_val e) (en_val x); NSt 1 (log_type e) (ty_code (en_ty x));
   NSt 8 (log_version e) v; NFence; NFl (e / LINE); NFence].

Lemma version_read s ents fl G m0 v :
  mid G m0 v (pm s) ents fl -> MAK_base_md_ptr s = B -> MAK_persistent_log_version s = Ok (v, s).
Proof.
  intros M HB. unfold MAK_persistent_log_version, MAK_persistent_log_version_at, peek, cgets, cbind. rewrite HB.
  change (B + off_persistent_log_version) with version_addr. by rewrite (mid_version _ _ _ _ _ _ M).
Qed.

Lemma size_range x : 1 <= Z.of_nat (en_size x) <= 8.
Proof. unfold en_size. destruct (en_ty x); cbn; lia. Qed.

(** The memory after the stores of an entry. *)
Definition entry_mem (e : Z) (x : lent) (m : bmem) : bmem :=
  wr 1 (log_type e) (ty_code (en_ty x)) (wr (en_size x) (log_val e) (en_val x) (wr 8 (log_addr e) (en_addr x) m)).

Lemma entry_mem_at e x m n a w :
  placed_entry x -> e + 24 <= a -> entry_at (wr n a w (entry_mem e x m)) e x.
Proof.
  intros [Hp Hval] Ha. destruct Hp as (_ & H1 & H2 & _). pose proof (size_range x). unfold entry_at, entry_mem, log_addr, log_val, log_type in *.
  split_and!; rewrite rd_wr_ne by lia.
  - rewrite !rd_wr_ne by lia. apply rd_wr_eq. change (256 ^ Z.of_nat 8) with (2 ^ 64). lia.
  - apply rd_wr_eq. destruct (en_ty x); cbn; lia.
  - rewrite rd_wr_ne by lia. by apply rd_wr_eq.
Qed.

Lemma entry_mem_version e x m : rd 8 (entry_mem e x m) (log_version e) = rd 8 m (log_version e).
Proof. pose proof (size_range x). unfold entry_mem, log_addr, log_val, log_type, log_version in *. by rewrite !rd_wr_ne by lia. Qed.

Lemma create_always G m0 v s ents x :
  let k := length ents in
  mid G m0 v s ents None -> 0 < v < 2 ^ 64 -> (k + 1 < 64)%nat -> placed_entry x -> en_val x = rd (en_size x) (mem s) (en_addr x) ->
  always (fun y => exists fl, mid G m0 v y ents fl) s (create_evs (slot k) x v) /\
  mid G m0 v (nv_run s (create_evs (slot k) x v)) (ents ++ [x]) None.
Proof.
  intros k M Hv Hk Hp Hh. pose proof (size_range x) as Hs. assert (Hk' : (k < 64)%nat) by lia.
  assert (Hver : forall y, mid G m0 v y ents None -> rd 8 (mem y) (log_version (slot k)) < v).
  { intros y My. rewrite <- (rd_ext 8 (newest (line y (slot k / LINE)))).
    - destruct (mid_next _ _ _ _ _ _ My _ (newest_choice _)) as [|(z & Hz & _)]; [done|discriminate Hz].
    - intros b Hb. rewrite <- (version_bytes k b) by (done || lia). apply (mid_up _ _ _ _ _ _ My). }
  assert (Hst : forall y n a w, mid G m0 v y ents None -> (1 <= n)%nat -> slot k <= a -> a + Z.of_nat n <= slot k + 24 ->
     mid G m0 v (nv_step y (NSt n a w)) ents None).
  { intros y n a w My Hn H1 H2. apply mid_log_store; fold k; [done|done|done|lia|cbn; lia|done|].
    left. rewrite rd_wr_ne by (unfold log_version; lia). by apply Hver. }
  unfold create_evs. set (e1 := NSt 8 _ _). set (e2 := NSt (en_size x) _ _). set (e3 := NSt 1 _ _). set (e4 := NSt 8 (log_version _) _).
  assert (M1 : mid G m0 v (nv_step s e1) ents None) by (apply Hst; [done|lia|unfold log_addr; lia|unfold log_addr; lia]).
  assert (M2 : mid G m0 v (nv_step (nv_step s e1) e2) ents None) by (apply Hst; [done|lia|unfold log_val; lia|unfold log_val; lia]).
  assert (M3 : mid G m0 v (nv_step (nv_step (nv_step s e1) e2) e3) ents None) by (apply Hst; [done|lia|unfold log_type; lia|unfold log_type; lia]).
  set (s3 := nv_step _ e3) in *. assert (Hm3 : mem s3 = entry_mem (slot k) x (mem s)) by done.
  assert (M4 : mid G m0 v (nv_step s3 e4) ents (Some x)).
  { apply mid_log_store; fold k; [done|lia|unfold log_version; lia|unfold log_version; lia|cbn; lia| |].
    - intros y E. injection E as <-. split; [done|]. rewrite Hh, Hm3. symmetry. apply rd_ext. intros b Hb. unfold entry_mem.
      destruct Hp as [(_ & _ & _ & Hout) _]. destruct (Hout b Hb) as [Ho _].
      assert (Hbl : ~ (slot k <= b < slot k + 64)) by (intros Hb'; apply Ho, (slot_in_log k); [done|by apply slot_bytes]).
      unfold log_addr, log_val, log_type. rewrite !rd8_wr by lia. done.
    - right. exists x. split; [done|]. rewrite Hm3. split; [by apply entry_mem_at|]. apply rd_wr_eq. change (256 ^ Z.of_nat 8) with (2 ^ 64). lia. }
  set (s4 := nv_step s3 e4) in *.
  pose proof (mid_quiet _ _ _ _ _ _ NFence M4 I) as M5. pose proof (mid_quiet _ _ _ _ _ _ (NFl (slot k / LINE)) M5 I) as M6.
  pose proof (mid_quiet _ _ _ _ _ _ NFence M6 I) as M7.
  split.
  - repeat (apply always_cons; [eexists; eassumption|]). apply always_nil. eexists. exact M7.
  - apply (mid_log_done _ _ _ _ _ _ M7); fold k.
    + apply (fence_fixes _ (slot k / LINE)); [apply (mid_up _ _ _ _ _ _ M6)|apply flush_flags].
    + change (mem _) with (wr 8 (log_version (slot k)) v (mem s3)). rewrite Hm3. by apply entry_mem_at.
    + change (mem _) with (wr 8 (log_version (slot k)) v (mem s3)). apply rd_wr_eq. change (256 ^ Z.of_nat 8) with (2 ^ 64). lia.
Qed.

(** What creating an entry does. *)
Lemma create_log_entry_run G m0 v s ents x :
  let k := length ents in
  mid G m0 v (pm s) ents None -> 0 < v < 2 ^ 64 -> (k + 1 < 64)%nat -> placed_entry x ->
  en_val x = rd (en_size x) (mem (pm s)) (en_addr x) -> MAK_base_md_ptr s = B -> curr_log_e s = slot k ->
  exists s', create_log_entry (en_ty x) (en_addr x) (en_val x) s = Ok (tt, s') /\ ran s s' (create_evs (slot k) x v) /\
    curr_log_e s' = slot (S k) /\ MAK_sflush_table s' = MAK_sflush_table s.
Proof.
  intros k M Hv Hk Hp Hh HB Hc. unfold create_log_entry.
  set (s3 := emit_st (NSt 1 (log_type (slot k)) (ty_code (en_ty x))) (emit_st (NSt (en_size x) (log_val (slot k)) (en_val x)) (emit_st (NSt 8 (log_addr (slot k)) (en_addr x)) s))).
  assert (Hv3 : MAK_persistent_log_version s3 = Ok (v, s3)).
  { unfold MAK_persistent_log_version, MAK_persistent_log_version_at, peek, cgets, cbind. cbn [MAK_base_md_ptr s3 emit_st]. rewrite HB.
    do 2 f_equal. rewrite <- (mid_version _ _ _ _ _ _ M). pose proof (size_range x). change (B + off_persistent_log_version) with version_addr.
    change (mem (pm s3)) with (entry_mem (slot k) x (mem (pm s))). unfold entry_mem.
    assert (Hap : forall n a, slot k <= a -> a + Z.of_nat n <= slot k + 64 -> version_addr + Z.of_nat 8 <= a \/ a + Z.of_nat n <= version_addr).
    { intros n a H1 H2. pose proof Hgeo as (_ & _ & _ & _ & _ & _ & Hd). unfold slot, LOG_E_SZ, MAX_LOG_SZ, HBLKSIZE in *. lia. }
    rewrite !rd_wr_ne; [done|apply Hap; unfold log_addr; lia|apply Hap; unfold log_val; lia|apply Hap; unfold log_type; lia]. }
  eexists. split.
  - unfold cgets at 1. unfold cbind at 1. rewrite Hc.
    change (cbind (poke 8 ?a ?w) ?c s) with (c tt (emit_st (NSt 8 a w) s)). cbv beta.
    change (cbind (poke (ty_size (en_ty x)) ?a ?w) ?c ?y) with (c tt (emit_st (NSt (en_size x) a w) y)). cbv beta.
    change (cbind (poke 1 ?a ?w) ?c ?y) with (c tt (emit_st (NSt 1 a w) y)). cbv beta. fold s3.
    rewrite (cbind_Ok _ _ _ _ _ Hv3). reflexivity.
  - cbn [curr_log_e set_curr_log_e]. split; [|split; [unfold slot, LOG_E_SZ; lia|done]].
    unfold ran, s3. cbn [trace pm MAK_base_md_ptr set_curr_log_e emit_st]. by rewrite <- !app_assoc.
Qed.

(** ** Operations of a section *)

(** At every point there is a log that undoes what was done. *)
Definition undoable (G : Z -> Prop) (m0 : bmem) (v : Z) (y : nvm) : Prop := exists ents fl, mid G m0 v y ents fl.

(** What holds of protected bytes between two operations. *)
Record working (G : Z -> Prop) (m0 : bmem) (v : Z) (s : mak) (ents : list lent) : Prop := {
  wk_mid : mid G m0 v (pm s) ents None;
  wk_kept : kept G (pm s) (MAK_sflush_table s);
  wk_table : table_ok (MAK_sflush_table s);
  wk_base : MAK_base_md_ptr s = B }.

(** A store and the entry for its line in the table. *)
Lemma data_store_run G m0 v s ents n a w size :
  working G m0 v s ents -> placed n a -> (forall b, a <= b < a + Z.of_nat n -> G b -> covered ents b) -> 1 <= size <= 8 ->
  exists s' es, (poke n a w;; CLFLUSH_FAS a size) s = Ok (tt, s') /\ ran s s' es /\ same_vars s s' /\
    always (undoable G m0 v) (pm s) es /\ working G m0 v s' ents /\ mem (pm s') = wr n a w (mem (pm s)).
Proof.
  intros [M Hk Ht HB] Hp Hc Hs. pose proof Hp as (Hin & H1 & H2 & _). set (s1 := emit_st (NSt n a w) s).
  destruct (CLFLUSH_FAS_run s1 a size) as (s' & es & Hr & (Hran & Hsv & Ht' & Hl & Hof & Hkeep)); [done|lia..|].
  pose proof (mid_data_store _ _ _ _ _ _ _ w M Hp Hc) as M1.
  assert (Hq : forall e, e ∈ es -> match e with NSt _ _ _ => False | _ => True end) by (intros e He; by destruct (Hof e He) as (l & ->)).
  pose proof (mid_quiets _ _ _ es _ _ _ M1 Hq) as Ha.
  exists s', (NSt n a w :: es). split; [exact Hr|]. split; [by apply ran_cons|]. split; [exact Hsv|].
  destruct Hran as (Htr & Hpm & Hb). split; [|split].
  - apply always_cons; [by exists ents, None|]. eapply always_impl; [|exact Ha]. cbn. intros y My. by exists ents, None.
  - split.
    + rewrite Hpm. apply always_end in Ha. exact Ha.
    + rewrite Hpm. apply (kept_store _ _ _ _ _ _ (MAK_sflush_table s)); try done. apply (mid_up _ _ _ _ _ _ M).
    + exact Ht'.
    + rewrite Hb. exact HB.
  - rewrite Hpm. change (mem (pm s1)) with (wr n a w (mem (pm s))).
    clear - Hof. change (wr n a w (mem (pm s))) with (mem (pm s1)). generalize (pm s1). clear - Hof. induction es as [|e es IH]; intros y; [done|].
    cbn. change (foldl nv_step ?z es) with (nv_run z es). rewrite IH by (intros e' He'; apply Hof; by right). destruct (Hof e ltac:(left)) as (l & ->). done.
Qed.

(** An entry in the log. *)
Lemma entry_run G m0 v s ents x :
  working G m0 v s ents -> curr_log_e s = slot (length ents) -> 0 < v < 2 ^ 64 -> (length ents + 1 < 64)%nat -> placed_entry x ->
  en_val x = rd (en_size x) (mem (pm s)) (en_addr x) ->
  exists s' es, create_log_entry (en_ty x) (en_addr x) (en_val x) s = Ok (tt, s') /\ ran s s' es /\ always (undoable G m0 v) (pm s) es /\
    working G m0 v s' (ents ++ [x]) /\ curr_log_e s' = slot (length (ents ++ [x])) /\
    forall a, ~ in_log a -> rd8 (mem (pm s')) a = rd8 (mem (pm s)) a.
Proof.
  intros [M Hk Ht HB] Hc Hv Hroom Hp Hh. destruct (create_always _ _ _ _ _ _ M Hv Hroom Hp Hh) as [Ha Me].
  destruct (create_log_entry_run _ _ _ _ _ _ M Hv Hroom Hp Hh HB Hc) as (s' & Hr & Hran & Hc' & Ht').
  exists s', (create_evs (slot (length ents)) x v). split; [exact Hr|]. split; [exact Hran|].
  destruct Hran as (_ & Hpm & Hb). split; [|split; [|split]].
  - eapply always_impl; [|exact Ha]. cbn. intros y (fl & My). by exists ents, fl.
  - split; [by rewrite Hpm| |by rewrite Ht'|by rewrite Hb]. rewrite Ht', Hpm. pose proof (size_range x) as Hs.
    assert (Hst : forall y n a w, up_to_date y -> kept G y (MAK_sflush_table s) -> (1 <= n)%nat -> slot (length ents) <= a ->
      a + Z.of_nat n <= slot (length ents) + 64 -> kept G (nv_step y (NSt n a w)) (MAK_sflush_table s)).
    { intros y n a w Hu Hy Hn H1 H2. destruct (slot_in_line (length ents) n a) as [Hin E]; [lia|done..|]. apply kept_elsewhere; [done|done|done|].
      intros b Hbl Gb. apply (proj1 (mid_data _ _ _ _ _ _ M b Gb)). apply (slot_in_log (length ents)); [lia|congruence]. }
    unfold create_evs. cbn [nv_run foldl].
    repeat (apply kept_quiet; [repeat apply up_to_date_step; apply (mid_up _ _ _ _ _ _ M)| |done]).
    repeat (apply Hst; [repeat apply up_to_date_step; apply (mid_up _ _ _ _ _ _ M)| |lia|unfold log_addr, log_val, log_type, log_version; lia|unfold log_addr, log_val, log_type, log_version; lia]).
    exact Hk.
  - rewrite Hc', length_app. f_equal. cbn. lia.
  - intros a Ha'. rewrite Hpm. apply mem_run. intros e He Hw. apply Ha'. pose proof (size_range x).
    apply (slot_in_log (length ents)); [lia|]. apply slot_bytes; [lia|]. unfold create_evs, log_addr, log_val, log_type, log_version in He.
    repeat (apply elem_of_cons in He as [->|He]; [cbn in Hw; lia|]). by apply not_elem_of_nil in He.
Qed.

Definition op_ents (m : bmem) (o : fas_op) : list lent :=
  match o with
  | FStore t a v => [mkEnt t a (rd (ty_size t) m a)]
  | FLog t a v => [mkEnt t a v]
  | FNoLog _ _ _ => []
  end.

Definition op_mem (o : fas_op) (m : bmem) : bmem :=
  match o with
  | FStore t a v => wr (ty_size t) a v m
  | FLog _ _ _ => m
  | FNoLog n a v => wr n a v m
  end.

(** What an operation may do after the variables [ents] have been logged: its variable is outside
    the log, the value it logs is the current one, and what it stores without logging is
    logged already or not protected. *)
Definition op_sound (G : Z -> Prop) (m : bmem) (ents : list lent) (o : fas_op) : Prop :=
  match o with
  | FStore t a v => placed (ty_size t) a
  | FLog t a v => placed (ty_size t) a /\ v = rd (ty_size t) m a
  | FNoLog n a v => placed n a /\ forall b, a <= b < a + Z.of_nat n -> G b -> covered ents b
  end.

Fixpoint fas_sound (G : Z -> Prop) (m : bmem) (ents : list lent) (ops : list fas_op) : Prop :=
  match ops with
  | [] => (length ents < 64)%nat
  | o :: ops' => op_sound G m ents o /\ fas_sound G (op_mem o m) (ents ++ op_ents m o) ops'
  end.

Definition fas_mem (ops : list fas_op) (m : bmem) : bmem := foldl (fun m o => op_mem o m) m ops.

Lemma placed_rd n a m m' : placed n a -> (forall b, ~ in_log b -> rd8 m b = rd8 m' b) -> rd n m a = rd n m' a.
Proof. intros (_ & _ & _ & Hout) H. apply rd_ext. intros b Hb. apply H. by destruct (Hout b Hb). Qed.

Lemma wr_agree n a w m m' : (forall b, ~ in_log b -> rd8 m b = rd8 m' b) -> forall b, ~ in_log b -> rd8 (wr n a w m) b = rd8 (wr n a w m') b.
Proof.
  intros H b Hb. destruct (decide (a <= b < a + Z.of_nat n)); [by apply rd8_wr_in|]. rewrite !rd8_wr by lia. by apply H.
Qed.

Lemma op_run G m0 v s ents m o :
  working G m0 v s ents -> curr_log_e s = slot (length ents) -> 0 < v < 2 ^ 64 ->
  (forall b, ~ in_log b -> rd8 (mem (pm s)) b = rd8 m b) -> op_sound G m ents o -> (length (ents ++ op_ents m o) < 64)%nat ->
  exists s' es, run_fas_op o s = Ok (tt, s') /\ ran s s' es /\ always (undoable G m0 v) (pm s) es /\
    working G m0 v s' (ents ++ op_ents m o) /\ curr_log_e s' = slot (length (ents ++ op_ents m o)) /\
    (forall b, ~ in_log b -> rd8 (mem (pm s')) b = rd8 (op_mem o m) b).
Proof.
  intros W Hc Hv Hm Hs Hroom. pose proof (proj1 (mid_ok _ _ _ _ _ _ (wk_mid _ _ _ _ _ W))) as Hok.
  destruct o as [t a w|t a w|n a w]; cbn [op_ents op_mem op_sound run_fas_op] in *.
  - set (x := mkEnt t a (rd (ty_size t) m a)) in *. rewrite length_app in Hroom. cbn in Hroom.
    assert (Hrd : rd (ty_size t) (mem (pm s)) a = rd (ty_size t) m a) by (by apply placed_rd).
    assert (Hpx : placed_entry x) by (split; [done|]; cbn; rewrite <- Hrd; by apply rd_range).
    destruct (entry_run _ _ _ _ _ x W Hc Hv Hroom Hpx (eq_sym Hrd)) as (s1 & es1 & Hr1 & Hran1 & Ha1 & W1 & Hc1 & Hm1).
    destruct (data_store_run _ _ _ _ _ (ty_size t) a w (Z.of_nat (ty_size t)) W1 Hs) as (s2 & es2 & Hr2 & Hran2 & Hsv & Ha2 & W2 & Hm2).
    { intros b Hb _. exists x. split; [apply elem_of_app; right; left|done]. }
    { pose proof (size_range x). exact H. }
    exists s2, (es1 ++ es2). split; [|split; [by eapply ran_app|split; [|split; [done|split]]]].
    + unfold MAK_STORE_NVM, peek, cgets. unfold cbind at 1. rewrite Hrd. change (create_log_entry t a (rd (ty_size t) m a)) with (create_log_entry (en_ty x) (en_addr x) (en_val x)). by rewrite (cbind_Ok _ _ _ _ _ Hr1).
    + apply always_app; [done|]. destruct Hran1 as (_ & <- & _). done.
    + by rewrite (proj1 Hsv).
    + intros b Hb. rewrite Hm2. apply wr_agree; [|done]. intros b' Hb'. rewrite Hm1 by done. by apply Hm.
  - destruct Hs as [Hs ->]. set (x := mkEnt t a (rd (ty_size t) m a)) in *. rewrite length_app in Hroom. cbn in Hroom.
    assert (Hrd : rd (ty_size t) (mem (pm s)) a = rd (ty_size t) m a) by (by apply placed_rd).
    assert (Hpx : placed_entry x) by (split; [done|]; cbn; rewrite <- Hrd; by apply rd_range).
    destruct (entry_run _ _ _ _ _ x W Hc Hv Hroom Hpx (eq_sym Hrd)) as (s1 & es1 & Hr1 & Hran1 & Ha1 & W1 & Hc1 & Hm1).
    exists s1, es1. split_and!; try done. intros b Hb. rewrite Hm1 by done. by apply Hm.
  - destruct Hs as [Hs Hcov]. rewrite app_nil_r in *.
    destruct (data_store_run _ _ _ _ _ n a w 8 W Hs Hcov) as (s2 & es2 & Hr2 & Hran2 & Hsv & Ha2 & W2 & Hm2); [lia|].
    exists s2, es2. split_and!; try done.
    + by rewrite (proj1 Hsv).
    + intros b Hb. rewrite Hm2. by apply wr_agree.
Qed.

Lemma ops_run G m0 v ops : forall s ents m,
  working G m0 v s ents -> curr_log_e s = slot (length ents) -> 0 < v < 2 ^ 64 ->
  (forall b, ~ in_log b -> rd8 (mem (pm s)) b = rd8 m b) -> fas_sound G m ents ops ->
  exists s' es ents', cfor ops run_fas_op s = Ok (tt, s') /\ ran s s' es /\ always (undoable G m0 v) (pm s) es /\
    working G m0 v s' ents' /\ (forall b, ~ in_log b -> rd8 (mem (pm s')) b = rd8 (fas_mem ops m) b).
Proof.
  induction ops as [|o ops IH]; intros s ents m W Hc Hv Hm Hs; cbn [fas_sound] in Hs.
  - exists s, [], ents. split; [done|]. split; [apply ran_nil|]. split; [apply always_nil; exists ents, None; apply W|done].
  - destruct Hs as [Hs Hrest].
    assert (Hroom : (length (ents ++ op_ents m o) < 64)%nat).
    { clear - Hrest. revert Hrest. generalize (ents ++ op_ents m o), (op_mem o m). induction ops as [|o' ops IH]; intros l m'; [done|].
      cbn. intros [_ H]. apply IH in H. rewrite length_app in H. lia. }
    destruct (op_run _ _ _ _ _ _ _ W Hc Hv Hm Hs Hroom) as (s1 & es1 & Hr1 & Hran1 & Ha1 & W1 & Hc1 & Hm1).
    destruct (IH _ _ _ W1 Hc1 Hv Hm1 Hrest) as (s2 & es2 & ents2 & Hr2 & Hran2 & Ha2 & W2 & Hm2).
    exists s2, (es1 ++ es2), ents2. cbn [cfor]. rewrite (cbind_Ok _ _ _ _ _ Hr1). split; [done|]. split; [by eapply ran_app|]. split; [|done].
    apply always_app; [done|]. destruct Hran1 as (_ & <- & _). done.
Qed.

End log.
