(* ===== verification/MakRecover.v ===== *)
(** * Makalu: the end of a section, and recovery

    Counting the version up commits a section; [MAK_recover_metadata] undoes one that did not get
    there, and can itself be interrupted. *)

From S2P Require Import Prelude Pptr ByteMem MakLog MakPersist MakFas.

Section log.
Variables (B L : Z).
Hypothesis Hgeo : geometry B L.

(** The log between two sections. *)
Record log_ready (v : Z) (s : mak) : Prop := {
  rd_mid : mid B L (fun _ => False) ∅ v (pm s) [] None;
  rd_table : table_ok (MAK_sflush_table s);
  rd_base : MAK_base_md_ptr s = B }.

(** What may be protected: bytes outside the log and the version that have their value in every image. *)
Definition protectable (s : mak) (G : Z -> Prop) : Prop :=
  forall a, G a -> ~ in_log L a /\ ~ in_version B a /\ fixed (pm s) a.

Lemma ready_working v s G : log_ready v s -> protectable s G -> working B L G (mem (pm s)) v s [].
Proof.
  intros [M Ht HB] HG. destruct M as [Hu Hok Hmeta Hv Hl Hroom Hd Hn Hr Hp Hf HD Hfr Hun]. split; [|intros l; left|done|done].
  - split; try done.
    + intros a Ga. by destruct (HG a Ga) as (H1 & H2 & _).
    + intros a Ga _. by destruct (HG a Ga) as (_ & _ & H).
    + intros a m _ (x & Hx & _). by apply not_elem_of_nil in Hx.
  - intros a _ Ga. by destruct (HG a Ga) as (_ & _ & H).
Qed.

(** A failure now is undone by recovery to [m0], or the section is over and memory is [m1]. *)
Definition atomic_point (G : Z -> Prop) (m0 m1 : bmem) (v : Z) (y : nvm) : Prop :=
  forall i, image y i -> bmem_ok i /\
    ((exists ents, logged B L i v ents /\ forall a, G a -> rd8 (undo ents i) a = rd8 m0 a) \/
     (logged B L i (v + 1) [] /\ forall a, G a -> rd8 i a = rd8 m1 a)).

Lemma undoable_point G m0 m1 v y : undoable B L G m0 v y -> atomic_point G m0 m1 v y.
Proof.
  intros (ents & fl & M) i Hi. split; [by eapply image_ok|]. left. by eapply mid_image.
Qed.

Lemma image_quiet s e i : image (nv_step s e) i -> (match e with NSt _ _ _ => False | _ => True end) -> image s i.
Proof.
  intros Hi He l. destruct (Hi l) as (m & Hm & Hb). exists m. split; [|done]. eapply untouched_choices; [|exact Hm]. by destruct e.
Qed.

Lemma version_in_line : in_line 8 (version_addr B).
Proof.
  split; [lia|]. symmetry. apply (version_line B L Hgeo). unfold in_version. cbn. lia.
Qed.

(** The entries of a section are stale for the next version. *)
Lemma stale_versions G m0 v y ents j m :
  mid B L G m0 v y ents None -> (j < 64)%nat -> m ∈ choices (line y (slot L j / LINE)) -> rd 8 m (log_version (slot L j)) < v + 1.
Proof.
  intros M Hj Hm. destruct (decide (j < length ents)%nat) as [H|H].
  - destruct (lookup_lt_is_Some_2 ents j H) as (x & Hx). destruct (mid_done _ _ _ _ _ _ _ _ M j x m Hx Hm) as [_ ->]. lia.
  - destruct (decide (j = length ents)) as [->|].
    + destruct (mid_next _ _ _ _ _ _ _ _ M m Hm) as [|(x & Hx & _)]; [lia|discriminate Hx].
    + pose proof (mid_rest _ _ _ _ _ _ _ _ M j m ltac:(lia) Hm). lia.
Qed.

Lemma version_store_slot y w j m :
  (j < 64)%nat -> m ∈ choices (line (nv_step y (NSt 8 (version_addr B) w)) (slot L j / LINE)) -> m ∈ choices (line y (slot L j / LINE)).
Proof.
  intros Hj Hm. eapply untouched_choices; [|exact Hm]. cbn. rewrite in_line_touches by apply version_in_line. apply Z.eqb_neq.
  intros E. eapply (log_apart B L Hgeo (version_addr B)); [eapply (slot_in_log B L Hgeo); [exact Hj|by symmetry]|]. left. unfold in_version. lia.
Qed.

(** The moment of the commit. *)
Lemma version_store G m0 v y ents :
  mid B L G m0 v y ents None -> (forall a, G a -> fixed y a) -> 0 < v -> v + 1 < 2 ^ 64 ->
  atomic_point G m0 (mem y) v (nv_step y (NSt 8 (version_addr B) (v + 1))).
Proof.
  intros M Hf Hv Hv1. set (y1 := nv_step _ _). pose proof (mid_up _ _ _ _ _ _ _ _ M) as Hu.
  assert (Hu1 : up_to_date y1) by by apply up_to_date_step.
  assert (Hold : forall i l m, image y1 i -> m ∈ choices (line y1 l) -> m ∈ choices (line y l) \/ (l = version_addr B / LINE /\ m = mem y1)).
  { intros i l m _ Hm. destruct (decide (l = version_addr B / LINE)) as [->|Hne].
    - apply stored_choices in Hm as [Hm|Hm]; [by left|by right].
    - left. eapply untouched_choices; [|exact Hm]. cbn. rewrite in_line_touches by apply version_in_line. by apply Z.eqb_neq. }
  assert (Hcase : forall i, image y1 i -> image y i \/ (forall a, a / LINE = version_addr B / LINE -> rd8 i a = rd8 (mem y1) a)).
  { intros i Hi. destruct (Hi (version_addr B / LINE)) as (m & Hm & Hb). apply (Hold i) in Hm as [Hm|[_ ->]]; [|by right|done].
    left. intros l. destruct (decide (l = version_addr B / LINE)) as [->|Hne]; [by exists m|].
    destruct (Hi l) as (m' & Hm' & Hb'). exists m'. split; [|done]. apply (Hold i) in Hm' as [|[? _]]; done. }
  assert (Hnew : forall i, (forall a, a / LINE = version_addr B / LINE -> rd8 i a = rd8 (mem y1) a) -> rd 8 i (version_addr B) = v + 1).
  { intros i Hi. rewrite (rd_ext 8 i (mem y1)).
    - apply rd_wr_eq. change (256 ^ Z.of_nat 8) with (2 ^ 64). lia.
    - intros b Hb. apply Hi, (version_line B L Hgeo). unfold in_version. lia. }
  intros i Hi. assert (Hok : bmem_ok i).
    { intros a. destruct (Hi (a / LINE)) as (m & Hm & Hb). rewrite Hb by done.
      by eapply (proj2 (ok_step y (NSt 8 (version_addr B) (v + 1)) (mid_ok _ _ _ _ _ _ _ _ M))). }
    split; [done|]. destruct (Hcase i Hi) as [Hiy|Hn].
    { left. by eapply mid_image. }
    right.
    assert (Hfx : forall a, ~ in_version B a -> fixed y a -> rd8 i a = rd8 (mem y) a).
    { intros a Ha Hfa. assert (Hnw : ~ writes (NSt 8 (version_addr B) (v + 1)) a) by (unfold in_version in Ha; cbn; lia).
      rewrite (image_fixed y1 i a Hi) by (by apply fixed_step). by apply mem_step. }
    split.
    + split; [by apply Hnew| |cbn; lia|by intros j x Hj| |by intros x Hx%not_elem_of_nil].
      * rewrite <- (mid_start _ _ _ _ _ _ _ _ M). apply rd_ext. intros b Hb. apply Hfx; [unfold in_version; lia|].
        apply (mid_meta _ _ _ _ _ _ _ _ M). right. unfold in_start. lia.
      * intros j Hj. cbn in Hj. destruct (Hi (slot L j / LINE)) as (m & Hm & Hb). apply version_store_slot in Hm; [|lia].
        erewrite rd_ext; [eapply (stale_versions _ _ _ _ _ j m M); [lia|done]|].
        intros b Hb'. apply Hb, (version_bytes B L Hgeo); [lia|done].
    + intros a Ga. destruct (mid_data _ _ _ _ _ _ _ _ M a Ga) as [_ Hnv]. by apply Hfx, Hf.
Qed.

Lemma quiet_points G m0 m1 v es : forall y,
  atomic_point G m0 m1 v y -> (forall e, e ∈ es -> match e with NSt _ _ _ => False | _ => True end) -> always (atomic_point G m0 m1 v) y es.
Proof.
  induction es as [|e es IH]; intros y H He; [by apply always_nil|]. apply always_cons; [done|]. apply IH.
  - intros i Hi. apply H. eapply image_quiet; [exact Hi|]. apply He. left.
  - intros e' He'. apply He. by right.
Qed.

(** After the version is in memory the log is ready again. *)
Lemma committed G m0 v y ents :
  mid B L G m0 v y ents None -> (forall a, G a -> fixed y a) -> 0 < v -> v + 1 < 2 ^ 64 ->
  let y' := nv_run y [NSt 8 (version_addr B) (v + 1); NFence; NFl (version_addr B / LINE); NFence] in
  mid B L (fun _ => False) ∅ (v + 1) y' [] None /\ (forall a, ~ in_version B a -> fixed y a -> fixed y' a) /\
  (forall a, ~ in_version B a -> rd8 (mem y') a = rd8 (mem y) a).
Proof.
  intros M Hf Hv Hv1 y'. pose proof (mid_up _ _ _ _ _ _ _ _ M) as Hu.
  assert (Hmem : forall a, ~ in_version B a -> rd8 (mem y') a = rd8 (mem y) a).
  { intros a Ha. change (mem y') with (wr 8 (version_addr B) (v + 1) (mem y)). apply rd8_wr. unfold in_version in Ha. lia. }
  assert (Hfx : forall a, ~ in_version B a -> fixed y a -> fixed y' a).
  { intros a Ha Hfa. apply fixed_run; [done|done|]. intros e He. unfold in_version in Ha.
    repeat (apply elem_of_cons in He as [->|He]; [cbn; lia|]). by apply not_elem_of_nil in He. }
  assert (Hu' : up_to_date y') by by apply up_to_date_run.
  assert (Hch : forall j m, (j < 64)%nat -> m ∈ choices (line y' (slot L j / LINE)) -> rd 8 m (log_version (slot L j)) < v + 1).
  { intros j m Hj Hm. eapply (stale_versions _ _ _ _ _ j m M Hj). unfold y' in Hm. cbn [nv_run foldl] in Hm.
    do 3 (apply untouched_choices in Hm; [|done]). by apply version_store_slot in Hm. }
  assert (Hstart : forall b, version_addr B + 8 <= b < version_addr B + 8 + Z.of_nat 8 -> ~ in_version B b /\ in_start B b)
    by (intros b; unfold in_version, in_start; lia).
  split; [|done]. split; try done.
  - unfold y'. cbn [nv_run foldl]. repeat apply ok_step. apply (mid_ok _ _ _ _ _ _ _ _ M).
  - intros a [Ha|Ha].
    + apply (fence_fixes _ (version_addr B / LINE)); [by repeat apply up_to_date_step|apply flush_flags|by apply (version_line B L Hgeo)].
    + apply Hfx; [unfold in_start, in_version in *; lia|]. apply (mid_meta _ _ _ _ _ _ _ _ M). by right.
  - change (mem y') with (wr 8 (version_addr B) (v + 1) (mem y)). apply rd_wr_eq. change (256 ^ Z.of_nat 8) with (2 ^ 64). lia.
  - rewrite <- (mid_start _ _ _ _ _ _ _ _ M). apply rd_ext. intros b Hb. apply Hmem. by apply Hstart.
  - cbn. lia.
  - intros m Hm. left. apply Hch; [cbn; lia|done].
  - intros j m Hj Hm. apply Hch; [lia|done].
  - cbn. intros x Hx. by apply not_elem_of_nil in Hx.
Qed.

(** The table is flushed and the version counted up: the end of a section and of recovery. *)
Lemma finish_run G m0 v s ents :
  working B L G m0 v s ents -> 0 < v -> v + 1 < 2 ^ 64 ->
  exists s' es, (flush_all_entry Sflush SFLUSH_TABLE_SZ;; count_version_up) s = Ok (tt, s') /\ ran s s' es /\
    log_ready (v + 1) s' /\ always (atomic_point G m0 (mem (pm s)) v) (pm s) es /\
    (forall a, ~ in_version B a -> rd8 (mem (pm s')) a = rd8 (mem (pm s)) a) /\ (forall a, G a -> fixed (pm s') a).
Proof.
  intros [M Hk Ht HB] Hv Hv1. destruct (flush_all_run s (proj1 Ht)) as (s1 & Hr1 & Hran1 & Hsv1 & Htb1).
  set (es1 := NFence :: flushes (MAK_sflush_table s) ++ [NFence]) in *.
  assert (Hq : forall e, e ∈ es1 -> match e with NSt _ _ _ => False | _ => True end).
  { intros e He. unfold es1 in He. apply elem_of_cons in He as [->|He]; [done|]. apply elem_of_app in He as [He|He].
    - by destruct (only_flushes_table _ e He) as (l & ->).
    - by apply list_elem_of_singleton in He as ->. }
  pose proof (mid_quiets B L G m0 v es1 _ _ _ M Hq) as Ha1. pose proof Hran1 as (_ & Hpm1 & Hb1).
  assert (M1 : mid B L G m0 v (pm s1) ents None) by (rewrite Hpm1; by apply always_end in Ha1).
  assert (Hf1 : forall a, G a -> fixed (pm s1) a).
  { intros a Ga. rewrite Hpm1. apply (kept_flushed G); [apply (mid_up _ _ _ _ _ _ _ _ M)|done|done]. }
  assert (Hm1 : mem (pm s1) = mem (pm s)).
  { rewrite Hpm1. clear - Hq. generalize (pm s). induction es1 as [|e es IH]; intros y; [done|]. cbn. change (foldl nv_step ?z es) with (nv_run z es).
    rewrite IH by (intros e' He'; apply Hq; by right). specialize (Hq e ltac:(left)). by destruct e. }
  assert (Hrv : MAK_persistent_log_version s1 = Ok (v, s1)) by (eapply version_read; [done|congruence]).
  set (es2 := [NSt 8 (version_addr B) (v + 1); NFence; NFl (version_addr B / LINE); NFence]).
  destruct (committed G m0 v (pm s1) ents M1 Hf1 Hv Hv1) as (Mc & Hfc & Hmc). fold es2 in Mc, Hfc, Hmc.
  eexists (emit_st NFence (emit_st (NFl (version_addr B / LINE)) (emit_st NFence (emit_st (NSt 8 (version_addr B) (v + 1)) s1)))), (es1 ++ es2).
  split; [|split; [|split; [|split; [|split]]]].
  - rewrite (cbind_Ok _ _ _ _ _ Hr1). unfold count_version_up. unfold MAK_persistent_log_version_at at 1. unfold cgets at 1. unfold cbind at 1.
    rewrite (cbind_Ok _ _ _ _ _ Hrv). rewrite Hb1, HB, u64_small by lia. reflexivity.
  - eapply ran_app; [exact Hran1|]. unfold ran, es2. cbn [trace pm MAK_base_md_ptr emit_st]. by rewrite <- !app_assoc.
  - split; [exact Mc|cbn; rewrite Htb1|cbn; congruence]. split; [done|]. intros x Hx. apply elem_of_replicate in Hx as [-> _]. done.
  - apply always_app.
    + eapply always_impl; [|exact Ha1]. cbn. intros y My. apply undoable_point. by exists ents, None.
    + rewrite <- Hpm1, <- Hm1. unfold es2. apply always_cons; [apply undoable_point; by exists ents, None|].
      apply quiet_points; [by apply (version_store _ _ _ _ ents)|]. intros e He.
      repeat (apply elem_of_cons in He as [->|He]; [done|]). by apply not_elem_of_nil in He.
  - intros a Ha. rewrite <- Hm1. by apply Hmc.
  - intros a Ga. apply Hfc; [apply (mid_data _ _ _ _ _ _ _ _ M1 a Ga)|by apply Hf1].
Qed.

(** ** Recovery *)

Definition outside (a : Z) : Prop := ~ in_log L a /\ ~ in_version B a.

Lemma reboot_working i v ents : bmem_ok i -> logged B L i v ents -> working B L outside (undo ents i) v (reboot B i) ents.
Proof.
  intros Hok [Hv Hl Hroom Hd Hr Hp].
  assert (Hch : forall m l, m ∈ choices (line (nv_of i) l) -> m = i).
  { intros m l Hm. cbn in Hm. by apply list_elem_of_singleton in Hm. }
  split; [|intros l; left; intros a _ _; apply nv_of_fixed|split; [done|]|done].
  - split; try done.
    + split; [done|]. intros l m Hm. by rewrite (Hch m l Hm).
    + intros a _. apply nv_of_fixed.
    + cbn. lia.
    + intros j x m Hj Hm. rewrite (Hch m _ Hm). by apply Hd.
    + intros m Hm. rewrite (Hch m _ Hm). left. apply Hr. lia.
    + intros j m Hj Hm. rewrite (Hch m _ Hm). apply Hr. lia.
    + cbn. rewrite app_nil_r. done.
    + intros a Ga Hc. split; [apply nv_of_fixed|]. by rewrite undo_other.
    + intros a m Ga Hc. by apply undo_covered.
  - intros x Hx. cbn in Hx. apply (elem_of_replicate 8 0 x) in Hx as [-> _]. done.
Qed.

Lemma start_read G m0 v s ents fl :
  mid B L G m0 v (pm s) ents fl -> MAK_base_md_ptr s = B -> MAK_persistent_log_start s = Ok (L, s).
Proof.
  intros M HB. unfold MAK_persistent_log_start, peek, cgets, cbind. rewrite HB.
  replace (B + off_persistent_log_start) with (version_addr B + 8) by (unfold version_addr, off_persistent_log_version, off_persistent_log_start; lia).
  by rewrite (mid_start _ _ _ _ _ _ _ _ M).
Qed.

Lemma seek_run s v ents fuel : forall j,
  pm s = nv_of (mem (pm s)) -> MAK_base_md_ptr s = B -> logged B L (mem (pm s)) v ents ->
  (j <= length ents)%nat -> (length ents - j < fuel)%nat -> seek_log fuel (slot L j) s = Ok (slot L (length ents), s).
Proof.
  intros j Hs HB Hlg. revert j. induction fuel as [|fuel IH]; intros j Hj Hf; [lia|]. cbn [seek_log].
  unfold peek at 1. unfold cgets at 1. unfold cbind at 1.
  assert (Hv : MAK_persistent_log_version s = Ok (v, s)).
  { unfold MAK_persistent_log_version, MAK_persistent_log_version_at, peek, cgets, cbind. rewrite HB.
    change (B + off_persistent_log_version) with (version_addr B). by rewrite (lg_version _ _ _ _ _ Hlg). }
  rewrite (cbind_Ok _ _ _ _ _ Hv). destruct (decide (j = length ents)) as [->|Hne].
  - pose proof (lg_rest _ _ _ _ _ Hlg (length ents)) as H. pose proof (lg_room _ _ _ _ _ Hlg). specialize (H ltac:(lia)).
    destruct (Z.eqb_spec (rd 8 (mem (pm s)) (log_version (slot L (length ents)))) v); [lia|done].
  - destruct (lookup_lt_is_Some_2 ents j ltac:(lia)) as (x & Hx). destruct (lg_done _ _ _ _ _ Hlg j x Hx) as [_ ->]. rewrite Z.eqb_refl.
    replace (slot L j + LOG_E_SZ) with (slot L (S j)) by (unfold slot, LOG_E_SZ; lia). apply IH; lia.
Qed.

Lemma ty_code_of t : ty_of_code (ty_code t) = Some t.
Proof. by destruct t. Qed.

(** One entry undone. *)
Lemma undo_entry_run G m0 v s ents j x :
  working B L G m0 v s ents -> ents !! j = Some x ->
  exists s' es, undo_entry (slot L j) s = Ok (tt, s') /\ ran s s' es /\ always (undoable B L G m0 v) (pm s) es /\
    working B L G m0 v s' ents /\ mem (pm s') = undo1 x (mem (pm s)).
Proof.
  intros W Hj. pose proof W as [M Hk Ht HB]. pose proof (lookup_lt_Some _ _ _ Hj) as Hlt. pose proof (mid_room _ _ _ _ _ _ _ _ M) as Hroom. cbn in Hroom.
  assert (He : entry_at (mem (pm s)) (slot L j) x).
  { destruct (mid_done _ _ _ _ _ _ _ _ M j x _ Hj (newest_choice _)) as [He _]. eapply entry_ext; [|exact He]. intros a Ha.
    assert (E : a / LINE = slot L j / LINE) by (apply (slot_bytes B L Hgeo); lia). rewrite <- E. apply (mid_up _ _ _ _ _ _ _ _ M). }
  assert (Hpx : placed_entry B L x) by (apply (mid_placed _ _ _ _ _ _ _ _ M), elem_of_app; left; by eapply list_elem_of_lookup_2).
  destruct (data_store_run B L Hgeo G m0 v s ents (en_size x) (en_addr x) (en_val x) (Z.of_nat (en_size x)) W (proj1 Hpx)) as (s' & es & Hr & Hran & _ & Ha & W' & Hm).
  { intros b Hb _. exists x. split; [by eapply list_elem_of_lookup_2|done]. }
  { apply size_range. }
  exists s', es. split; [|done]. destruct He as (E1 & E2 & E3). unfold undo_entry.
  unfold peek at 1. unfold cgets at 1. unfold cbind at 1. rewrite E2, ty_code_of.
  unfold peek at 1. unfold cgets at 1. unfold cbind at 1. rewrite E1.
  unfold peek at 1. unfold cgets at 1. unfold cbind at 1. change (ty_size (en_ty x)) with (en_size x). rewrite E3. exact Hr.
Qed.

Lemma undo_log_run G m0 v ents fuel : forall pre suf s,
  ents = pre ++ suf -> (length pre < fuel)%nat -> working B L G m0 v s ents ->
  exists s' es, undo_log fuel (slot L (length pre) - LOG_E_SZ) s = Ok (tt, s') /\ ran s s' es /\ always (undoable B L G m0 v) (pm s) es /\
    working B L G m0 v s' ents /\ mem (pm s') = undo pre (mem (pm s)).
Proof.
  induction fuel as [|fuel IH]; intros pre suf s He Hf W; [lia|]. cbn [undo_log].
  rewrite (cbind_Ok _ _ _ _ _ (start_read _ _ _ _ _ _ (wk_mid _ _ _ _ _ _ _ W) (wk_base _ _ _ _ _ _ _ W))).
  destruct pre as [|x q _] using rev_ind.
  - rewrite (proj2 (Z.leb_gt _ _)) by (unfold slot, LOG_E_SZ; cbn; lia). exists s, [].
    split; [done|]. split; [apply ran_nil|]. split; [apply always_nil; exists ents, None; apply W|done].
  - rewrite length_app in *. cbn [length] in *. replace (slot L (length q + 1) - LOG_E_SZ) with (slot L (length q)) by (unfold slot, LOG_E_SZ; lia).
    rewrite (proj2 (Z.leb_le _ _)) by (unfold slot, LOG_E_SZ; lia).
    assert (Hx : ents !! length q = Some x).
    { rewrite He, <- app_assoc, lookup_app_r, Nat.sub_diag by lia. done. }
    destruct (undo_entry_run _ _ _ _ _ _ _ W Hx) as (s1 & es1 & Hr1 & Hran1 & Ha1 & W1 & Hm1). rewrite (cbind_Ok _ _ _ _ _ Hr1).
    destruct (IH q ([x] ++ suf) s1) as (s2 & es2 & Hr2 & Hran2 & Ha2 & W2 & Hm2); [by rewrite He, <- app_assoc|lia|done|].
    exists s2, (es1 ++ es2). split; [done|]. split; [by eapply ran_app|]. split; [|split; [done|]].
    + apply always_app; [done|]. destruct Hran1 as (_ & <- & _). done.
    + rewrite Hm2, Hm1, undo_app. done.
Qed.

(** Recovery returns, undoes the entries, and can be interrupted at any point. *)
Lemma recover_run i v ents :
  bmem_ok i -> logged B L i v ents -> 0 < v -> v + 1 < 2 ^ 64 ->
  exists r es, MAK_recover_metadata (reboot B i) = Ok (tt, r) /\ ran (reboot B i) r es /\ log_ready (v + 1) r /\
    (forall a, outside a -> fixed (pm r) a /\ rd8 (mem (pm r)) a = rd8 (undo ents i) a) /\
    always (atomic_point outside (undo ents i) (undo ents i) v) (nv_of i) es.
Proof.
  intros Hok Hlg Hv Hv1. pose proof (reboot_working i v ents Hok Hlg) as W. pose proof (lg_room _ _ _ _ _ Hlg) as Hroom.
  unfold MAK_recover_metadata. rewrite (cbind_Ok _ _ _ _ _ (start_read _ _ _ _ _ _ (wk_mid _ _ _ _ _ _ _ W) (wk_base _ _ _ _ _ _ _ W))).
  assert (Hseek : seek_log LOG_FUEL L (reboot B i) = Ok (slot L (length ents), reboot B i)).
  { assert (E : slot L 0 = L) by (unfold slot; cbn; lia). rewrite <- E at 1. eapply seek_run; [done|done|exact Hlg|lia|unfold LOG_FUEL; lia]. }
  rewrite (cbind_Ok _ _ _ _ _ Hseek).
  destruct (undo_log_run outside (undo ents i) v ents LOG_FUEL ents [] (reboot B i)) as (s1 & es1 & Hr1 & Hran1 & Ha1 & W1 & Hm1);
    [by rewrite app_nil_r|unfold LOG_FUEL; lia|done|].
  rewrite (cbind_Ok _ _ _ _ _ Hr1). change (mem (pm (reboot B i))) with i in Hm1.
  destruct (finish_run _ _ _ _ _ W1 Hv Hv1) as (r & es2 & Hr2 & Hran2 & Hrdy & Ha2 & Hm2 & Hf2).
  exists r, (es1 ++ es2). split; [done|]. split; [by eapply ran_app|]. split; [done|]. split.
  - intros a Ha. split; [by apply Hf2|]. rewrite Hm2 by apply Ha. by rewrite Hm1.
  - apply always_app.
    + eapply always_impl; [|exact Ha1]. intros y Hy. by apply undoable_point.
    + destruct Hran1 as (_ & Hpm & _). change (pm (reboot B i)) with (nv_of i) in Hpm. rewrite <- Hpm, <- Hm1. rewrite <- Hm1 in Ha2 at 1. done.
Qed.

End log.
