(* ===== verification/MakAtomic.v ===== *)
(** * Makalu: what the undo log promises

    The theorems on [makalu_persistent.c]: failure-atomic sections, recovery that may be
    interrupted, and what the flush tables do with ranges of more than one line. *)

From S2P Require Import Prelude Pptr ByteMem MakLog MakPersist MakFas MakRecover.

Lemma reboot_ready B L i v : bmem_ok i -> logged B L i v [] -> log_ready B L v (reboot B i).
Proof.
  intros Hok Hlg. destruct (reboot_working B L i v [] Hok Hlg) as [M Hk Ht HB].
  destruct M as [Hu Hok' Hmeta Hv Hl Hroom Hd Hn Hr Hp Hf HD Hfr Hun]. split; [|done|done]. by split.
Qed.

Lemma start_run B L v s : log_ready B L v s -> start_nvm_atomic s = Ok (tt, set_curr_log_e s L).
Proof.
  intros [M Ht HB]. unfold start_nvm_atomic. by rewrite (cbind_Ok _ _ _ _ _ (start_read B L _ _ _ _ _ _ M HB)).
Qed.

Lemma outside_of G B L s a : protectable B L s G -> G a -> outside B L a.
Proof. intros HG Ga. by destruct (HG a Ga) as (H1 & H2 & _). Qed.

(** C6: A section is all or nothing. Whatever stores and log entries it makes, as long as the
    bytes to protect are logged with their value before they are first stored to, the section
    returns with its stores in memory; and if power fails anywhere in it, [MAK_recover_metadata]
    returns with all protected bytes as before the section, or all as after it, in memory, and
    with a log ready for the next section. *)
Theorem fas_atomic (B L v : Z) (s : mak) (G : Z -> Prop) (ops : list fas_op) :
  geometry B L -> log_ready B L v s -> 0 < v -> v + 2 < 2 ^ 64 -> protectable B L s G -> fas_sound B L G (mem (pm s)) [] ops ->
  exists s' es, run_fas ops s = Ok (tt, s') /\ ran s s' es /\ log_ready B L (v + 1) s' /\
    (forall a, G a -> fixed (pm s') a /\ rd8 (mem (pm s')) a = rd8 (fas_mem ops (mem (pm s))) a) /\
    forall es1 es2 i, es = es1 ++ es2 -> image (nv_run (pm s) es1) i ->
      exists r v', MAK_recover_metadata (reboot B i) = Ok (tt, r) /\ log_ready B L v' r /\
        ((forall a, G a -> fixed (pm r) a /\ rd8 (mem (pm r)) a = rd8 (mem (pm s)) a) \/
         (forall a, G a -> fixed (pm r) a /\ rd8 (mem (pm r)) a = rd8 (fas_mem ops (mem (pm s))) a)).
Proof.
  intros Hgeo Hrdy Hv Hv2 HG Hs. pose proof (ready_working B L v s G Hrdy HG) as [M Hk Ht HB].
  set (s0 := set_curr_log_e s L).
  assert (W0 : working B L G (mem (pm s)) v s0 []) by by split.
  destruct (ops_run B L Hgeo G (mem (pm s)) v ops s0 [] (mem (pm s)) W0) as (s1 & es1 & ents & Hr1 & Hran1 & Ha1 & W1 & Hm1);
    [cbn; unfold slot; cbn; lia|lia|done|done|].
  destruct (finish_run B L Hgeo G (mem (pm s)) v s1 ents W1 Hv) as (s2 & es2 & Hr2 & Hran2 & Hrdy2 & Ha2 & Hm2 & Hf2); [lia|].
  assert (Hend : forall a, G a -> rd8 (mem (pm s1)) a = rd8 (fas_mem ops (mem (pm s))) a).
  { intros a Ga. apply Hm1. apply (HG a Ga). }
  exists s2, (es1 ++ es2). split; [|split; [|split; [done|split]]].
  - unfold run_fas. rewrite (cbind_Ok _ _ _ _ _ (start_run B L v s Hrdy)). fold s0. by rewrite (cbind_Ok _ _ _ _ _ Hr1).
  - change (ran s0 s2 (es1 ++ es2)). by eapply ran_app.
  - intros a Ga. split; [by apply Hf2|]. rewrite Hm2 by apply (HG a Ga). by apply Hend.
  - intros p q i E Hi.
    assert (Hpt : atomic_point B L G (mem (pm s)) (mem (pm s1)) v (nv_run (pm s) p)).
    { refine (always_app _ (pm s0) es1 es2 _ _ p q E).
      - eapply always_impl; [|exact Ha1]. intros y Hy. by apply undoable_point.
      - destruct Hran1 as (_ & <- & _). exact Ha2. }
    destruct (Hpt i Hi) as (Hok & [(ents' & Hlg & Hu)|[Hlg Hu]]).
    + destruct (recover_run B L Hgeo i v ents' Hok Hlg Hv) as (r & _ & Hr & _ & Hrd & Hmr & _); [lia|]. exists r, (v + 1).
      split; [done|]. split; [done|]. left. intros a Ga. destruct (Hmr a (outside_of _ _ _ _ _ HG Ga)) as [H1 ->]. split; [done|]. by apply Hu.
    + destruct (recover_run B L Hgeo i (v + 1) [] Hok Hlg) as (r & _ & Hr & _ & Hrd & Hmr & _); [lia|lia|]. exists r, (v + 1 + 1).
      split; [done|]. split; [done|]. right. intros a Ga. destruct (Hmr a (outside_of _ _ _ _ _ HG Ga)) as [H1 ->]. split; [done|].
      cbn [undo foldr]. rewrite Hu by done. by apply Hend.
Qed.

(** C20: Recovery may be interrupted. On a memory with entries of an interrupted section it
    returns, and if power fails during it, the recovery after that ends with the same memory. *)
Theorem recovery_restartable (B L v : Z) (i : bmem) (ents : list lent) :
  geometry B L -> bmem_ok i -> logged B L i v ents -> 0 < v -> v + 2 < 2 ^ 64 ->
  exists r es, MAK_recover_metadata (reboot B i) = Ok (tt, r) /\ ran (reboot B i) r es /\
    (forall a, outside B L a -> rd8 (mem (pm r)) a = rd8 (undo ents i) a) /\
    forall es1 es2 i2, es = es1 ++ es2 -> image (nv_run (nv_of i) es1) i2 ->
      exists r2, MAK_recover_metadata (reboot B i2) = Ok (tt, r2) /\
        forall a, outside B L a -> fixed (pm r2) a /\ rd8 (mem (pm r2)) a = rd8 (mem (pm r)) a.
Proof.
  intros Hgeo Hok Hlg Hv Hv2. destruct (recover_run B L Hgeo i v ents Hok Hlg Hv) as (r & es & Hr & Hran & _ & Hm & Ha); [lia|].
  exists r, es. split; [done|]. split; [done|]. split; [intros a Ha'; by apply Hm|].
  intros es1 es2 i2 E Hi. destruct (Ha es1 es2 E i2 Hi) as (Hok2 & [(ents2 & Hlg2 & Hu)|[Hlg2 Hu]]).
  - destruct (recover_run B L Hgeo i2 v ents2 Hok2 Hlg2 Hv) as (r2 & _ & Hr2 & _ & _ & Hm2 & _); [lia|]. exists r2. split; [done|].
    intros a Ha'. destruct (Hm2 a Ha') as [F ->]. split; [done|]. rewrite Hu by done. symmetry. by apply Hm.
  - destruct (recover_run B L Hgeo i2 (v + 1) [] Hok2 Hlg2) as (r2 & _ & Hr2 & _ & _ & Hm2 & _); [lia|lia|]. exists r2. split; [done|].
    intros a Ha'. destruct (Hm2 a Ha') as [F ->]. split; [done|]. cbn [undo foldr]. rewrite Hu by done. symmetry. by apply Hm.
Qed.

(** ** Instances *)

(** Metadata at 65536, an empty log of version 1 at 131072. *)
Definition empty_log : bmem := wr 8 (65536 + off_persistent_log_version) 1 (wr 8 (65536 + off_persistent_log_start) 131072 ∅).

Lemma demo_geometry : geometry 65536 131072.
Proof.
  unfold geometry, MAX_LOG_SZ, HBLKSIZE, version_addr, off_persistent_log_version.
  split_and!; [lia|reflexivity|lia|lia|reflexivity|lia|right; lia].
Qed.

Lemma rd_empty n a : rd n ∅ a = 0.
Proof. revert a. induction n as [|n IH]; intros a; [done|]. cbn [rd]. rewrite IH. done. Qed.

Lemma empty_log_ok : bmem_ok empty_log.
Proof. intros a. apply rd8_wr_range. intros b. apply rd8_wr_range. intros c. unfold rd8. rewrite lookup_empty. cbn. lia. Qed.

Lemma empty_logged : logged 65536 131072 empty_log 1 [].
Proof.
  split; [reflexivity|reflexivity|cbn; lia|by intros j x Hj| |by intros x Hx%not_elem_of_nil].
  intros j Hj. unfold empty_log. rewrite !rd_wr_ne, rd_empty; [lia|..];
    unfold log_version, slot, LOG_E_SZ, off_persistent_log_version, off_persistent_log_start in *; cbn in Hj; lia.
Qed.

(** A word, a byte that is logged and then stored to twice, and an int. *)
Definition demo_ops : list fas_op :=
  [FStore WORD 200000 77; FLog CHAR 200072 0; FNoLog 1 200072 5; FNoLog 1 200072 6; FStore INTEGER 200128 9].

Definition demo_bytes (a : Z) : Prop := 200000 <= a < 200008 \/ a = 200072 \/ 200128 <= a < 200132.

Lemma demo_placed n a : (1 <= n)%nat -> 200000 <= a < 300000 -> a / 64 = (a + Z.of_nat n - 1) / 64 -> (n <= 8)%nat -> placed 65536 131072 n a.
Proof.
  intros Hn Ha El Hn8. split; [done|]. split; [lia|]. split; [lia|]. intros b Hb.
  unfold in_log, in_version, in_start, version_addr, MAX_LOG_SZ, HBLKSIZE, off_persistent_log_version. lia.
Qed.

Lemma demo_sound : fas_sound 65536 131072 demo_bytes (mem (pm (reboot 65536 empty_log))) [] demo_ops.
Proof.
  cbn [fas_sound demo_ops op_sound].
  assert (Hc : forall m b, 200072 <= b < 200072 + Z.of_nat 1 ->
    covered (([] ++ op_ents m (FStore WORD 200000 77)) ++ op_ents m (FLog CHAR 200072 0)) b).
  { intros m b Hb. exists (mkEnt CHAR 200072 0). split; [right; left|]. unfold covers. cbn in *. lia. }
  repeat match goal with |- _ /\ _ => split end; try (apply demo_placed; cbn; [lia|lia|reflexivity|lia]).
  - vm_compute. reflexivity.
  - intros b Hb _. exists (mkEnt CHAR 200072 0). split; [right; left|]. unfold covers. cbn in *. lia.
  - intros b Hb _. exists (mkEnt CHAR 200072 0). split; [right; left|]. unfold covers. cbn in *. lia.
  - cbn. lia.
Qed.

Lemma fas_atomic_witness :
  exists s' es, run_fas demo_ops (reboot 65536 empty_log) = Ok (tt, s') /\ ran (reboot 65536 empty_log) s' es /\
    rd8 (mem (pm s')) 200072 = 6 /\
    forall es1 es2 i, es = es1 ++ es2 -> image (nv_run (nv_of empty_log) es1) i ->
      exists r, MAK_recover_metadata (reboot 65536 i) = Ok (tt, r) /\
        ((rd8 (mem (pm r)) 200000 = 0 /\ rd8 (mem (pm r)) 200072 = 0) \/ (rd8 (mem (pm r)) 200000 = 77 /\ rd8 (mem (pm r)) 200072 = 6)).
Proof.
  destruct (fas_atomic 65536 131072 1 (reboot 65536 empty_log) demo_bytes demo_ops) as (s' & es & Hr & Hran & _ & Hm & Hc).
  - exact demo_geometry.
  - apply reboot_ready; [exact empty_log_ok|exact empty_logged].
  - lia.
  - lia.
  - intros a Ha. split_and!; [| |apply nv_of_fixed]; unfold demo_bytes in Ha;
      unfold in_log, in_version, version_addr, MAX_LOG_SZ, HBLKSIZE, off_persistent_log_version; lia.
  - exact demo_sound.
  - assert (D1 : demo_bytes 200000) by (left; lia). assert (D2 : demo_bytes 200072) by (right; left; lia).
    exists s', es. split; [exact Hr|]. split; [exact Hran|]. split.
    + destruct (Hm 200072 D2) as [_ ->]. vm_compute. reflexivity.
    + intros es1 es2 i E Hi. destruct (Hc es1 es2 i E Hi) as (r & v' & Hrec & _ & [Ho|Hn]); exists r; (split; [exact Hrec|]).
      * left. destruct (Ho _ D1) as [_ ->], (Ho _ D2) as [_ ->]. split; vm_compute; reflexivity.
      * right. destruct (Hn _ D1) as [_ ->], (Hn _ D2) as [_ ->]. split; vm_compute; reflexivity.
Defined.

(** The word at 200000 was 55 and has been set to 77 by a section that did not end. *)
Definition demo_entry : lent := mkEnt WORD 200000 55.
Definition torn : bmem := wr 8 (log_version 131072) 1 (entry_mem 131072 demo_entry (wr 8 200000 77 empty_log)).

Lemma torn_logged : logged 65536 131072 torn 1 [demo_entry].
Proof.
  split; [reflexivity|reflexivity|cbn; lia| | |].
  - intros j x Hj. destruct j as [|j]; [|done]. cbn in Hj. injection Hj as <-. split; [|reflexivity]. split_and!; reflexivity.
  - intros j Hj. cbn in Hj. unfold torn, entry_mem, empty_log. rewrite !rd_wr_ne, rd_empty; [lia|..];
      unfold log_version, log_type, log_val, log_addr, slot, LOG_E_SZ, off_persistent_log_version, off_persistent_log_start, en_size in *; cbn in *; lia.
  - intros x Hx. apply list_elem_of_singleton in Hx as ->. split; [|cbn; lia]. apply demo_placed; cbn; [lia|lia|reflexivity|lia].
Qed.

Lemma torn_ok : bmem_ok torn.
Proof. intros a. unfold torn, entry_mem. repeat (apply rd8_wr_range; intros ?). unfold rd8. rewrite lookup_empty. cbn. lia. Qed.

Lemma recovery_restartable_witness :
  exists r, MAK_recover_metadata (reboot 65536 torn) = Ok (tt, r) /\ rd8 torn 200000 = 77 /\ rd8 (mem (pm r)) 200000 = 55.
Proof.
  destruct (recovery_restartable 65536 131072 1 torn [demo_entry]) as (r & es & Hr & _ & Hm & _);
    [exact demo_geometry|exact torn_ok|exact torn_logged|lia|lia|].
  exists r. split; [exact Hr|]. split; [vm_compute; reflexivity|]. rewrite Hm; [vm_compute; reflexivity|].
  unfold outside, in_log, in_version, version_addr, MAX_LOG_SZ, HBLKSIZE, off_persistent_log_version. lia.
Defined.

(** ** Ranges of several lines *)

(** An image in which one line has any of its choices and the others are up to date. *)
Lemma image_pick s l m : up_to_date s -> m ∈ choices (line s l) ->
  exists i, image s i /\ forall a, a / LINE = l -> rd8 i a = rd8 m a.
Proof.
  intros Hu Hm. set (i := foldl (fun i k => <[l * LINE + k := rd8 m (l * LINE + k)]> i) (mem s) (seqZ 0 64)).
  assert (Hi : forall a, rd8 i a = if decide (a / LINE = l) then rd8 m a else rd8 (mem s) a).
  { intros a. transitivity (if decide (0 <= a - l * LINE < 64) then rd8 m a else rd8 (mem s) a).
    - unfold i. change 64 with (Z.of_nat 64). generalize 64%nat. intros n. induction n as [|n IH].
      + cbn. case_decide; [lia|done].
      + rewrite seqZ_S, Z.add_0_l, foldl_app. cbn [foldl]. rewrite rd8_insert, IH. case_decide; repeat case_decide; subst; try lia; done.
    - unfold LINE. assert (Heq : 0 <= a - l * 64 < 64 <-> a / 64 = l).
      { split; [intros H; symmetry; apply (Z.div_unique_pos a 64 l (a - l * 64)); lia|]. intros <-.
        pose proof (Z.div_mod a 64 ltac:(lia)). pose proof (Z.mod_pos_bound a 64). lia. }
      repeat case_decide; try done; tauto. }
  exists i. split; [|intros a Ha; rewrite Hi; by rewrite decide_True].
  intros l'. destruct (decide (l' = l)) as [->|Hne].
  - exists m. split; [done|]. intros a Ha. rewrite Hi. by rewrite decide_True.
  - exists (newest (line s l')). split; [apply newest_choice|]. intros a <-. rewrite Hi, decide_False by done. symmetry. apply Hu.
Qed.

(** Two lines are written, registered as one range, and everything registered is flushed. *)
Definition two_lines : stM mak unit :=
  poke 1 4096 1;; poke 1 4160 1;; MAK_NVM_ASYNC_RANGE 4096 128;; MAK_sync_all_persistent.

(** C40: [add_to_flush_table] registers the first line of a range only. After a store to
    each of two lines, registered as one range of 128 bytes, and a flush of the whole table, the
    first store is in memory, and a failure can still lose the second one. *)
Theorem async_range_first_line :
  exists s, two_lines (reboot 65536 ∅) = Ok (tt, s) /\ fixed (pm s) 4096 /\ rd8 (mem (pm s)) 4160 = 1 /\
    exists i, image (pm s) i /\ rd8 i 4096 = 1 /\ rd8 i 4160 = 0.
Proof.
  set (es := [NSt 1 4096 1; NSt 1 4160 1; NFence; NFl 64; NFence]). set (s := nv_run (nv_of ∅) es).
  assert (Hu : up_to_date s) by (apply up_to_date_run, nv_of_up_to_date).
  assert (Hfix : fixed s 4096).
  { intros m Hm. change (4096 / LINE) with 64 in Hm. vm_compute in Hm. apply elem_of_cons in Hm as [->|Hm]; [reflexivity|]. by apply not_elem_of_nil in Hm. }
  exists (mkMak s es 65536 0 (replicate 8 0) (replicate 32 0) (replicate 8 0)). cbn [pm].
  split; [reflexivity|]. split; [exact Hfix|]. split; [reflexivity|].
  destruct (image_pick s 65 ∅ Hu) as (i & Hi & Hv); [vm_compute; left|]. exists i. split; [exact Hi|]. split.
  - rewrite (image_fixed s i 4096 Hi Hfix). reflexivity.
  - rewrite (Hv 4160 eq_refl). reflexivity.
Qed.
