(* ===== verification/MakHdr.v ===== *)
(** * Makalu: block headers and the index that finds them

    [makalu_hdr.c] and [makalu_hdr.h]: the memory for headers and index blocks, the two-level
    index from block numbers to headers and forwarding counts, and the walks over it. A block is
    4096 bytes. The stores of this file go through the macros of [makalu_persistent.h]; here they
    are assignments, since the macros store the value they are given ([MakLog]). *)

From S2P Require Import Prelude.

(** ** Data *)

(** [struct hblkhdr]. [hb_map] holds the index into [MAK_obj_map] instead of the map's address; the
    padding is left out. *)
Record hdr := mkHdr {
  hb_sz : Z;
  hb_descr : Z;
  hb_block : Z;
  hb_map : Z;
  hb_flags : Z;
  hb_obj_kind : Z;
  hb_large_block : Z;
  page_reclaim_state : Z;
  hb_n_marks : Z;
  hb_marks : list Z;
  hb_next : Z;
  hb_prev : Z }.

(** A header nobody has written to; its fields are written before they are read. *)
Definition hdr_zero : hdr := mkHdr 0 0 0 0 0 0 0 0 0 (replicate 5 0) 0 0.

Definition hdr_sz (v : Z) (h : hdr) := mkHdr v (hb_descr h) (hb_block h) (hb_map h) (hb_flags h) (hb_obj_kind h) (hb_large_block h) (page_reclaim_state h) (hb_n_marks h) (hb_marks h) (hb_next h) (hb_prev h).
Definition hdr_descr (v : Z) (h : hdr) := mkHdr (hb_sz h) v (hb_block h) (hb_map h) (hb_flags h) (hb_obj_kind h) (hb_large_block h) (page_reclaim_state h) (hb_n_marks h) (hb_marks h) (hb_next h) (hb_prev h).
Definition hdr_block (v : Z) (h : hdr) := mkHdr (hb_sz h) (hb_descr h) v (hb_map h) (hb_flags h) (hb_obj_kind h) (hb_large_block h) (page_reclaim_state h) (hb_n_marks h) (hb_marks h) (hb_next h) (hb_prev h).
Definition hdr_map (v : Z) (h : hdr) := mkHdr (hb_sz h) (hb_descr h) (hb_block h) v (hb_flags h) (hb_obj_kind h) (hb_large_block h) (page_reclaim_state h) (hb_n_marks h) (hb_marks h) (hb_next h) (hb_prev h).
Definition hdr_flags (v : Z) (h : hdr) := mkHdr (hb_sz h) (hb_descr h) (hb_block h) (hb_map h) v (hb_obj_kind h) (hb_large_block h) (page_reclaim_state h) (hb_n_marks h) (hb_marks h) (hb_next h) (hb_prev h).
Definition hdr_kind (v : Z) (h : hdr) := mkHdr (hb_sz h) (hb_descr h) (hb_block h) (hb_map h) (hb_flags h) v (hb_large_block h) (page_reclaim_state h) (hb_n_marks h) (hb_marks h) (hb_next h) (hb_prev h).
Definition hdr_large (v : Z) (h : hdr) := mkHdr (hb_sz h) (hb_descr h) (hb_block h) (hb_map h) (hb_flags h) (hb_obj_kind h) v (page_reclaim_state h) (hb_n_marks h) (hb_marks h) (hb_next h) (hb_prev h).
Definition hdr_reclaim (v : Z) (h : hdr) := mkHdr (hb_sz h) (hb_descr h) (hb_block h) (hb_map h) (hb_flags h) (hb_obj_kind h) (hb_large_block h) v (hb_n_marks h) (hb_marks h) (hb_next h) (hb_prev h).
Definition hdr_marks (n : Z) (m : list Z) (h : hdr) := mkHdr (hb_sz h) (hb_descr h) (hb_block h) (hb_map h) (hb_flags h) (hb_obj_kind h) (hb_large_block h) (page_reclaim_state h) n m (hb_next h) (hb_prev h).
Definition hdr_next (v : Z) (h : hdr) := mkHdr (hb_sz h) (hb_descr h) (hb_block h) (hb_map h) (hb_flags h) (hb_obj_kind h) (hb_large_block h) (page_reclaim_state h) (hb_n_marks h) (hb_marks h) v (hb_prev h).
Definition hdr_prev (v : Z) (h : hdr) := mkHdr (hb_sz h) (hb_descr h) (hb_block h) (hb_map h) (hb_flags h) (hb_obj_kind h) (hb_large_block h) (page_reclaim_state h) (hb_n_marks h) (hb_marks h) (hb_next h) v.

(** [struct bi]; slots of the array that are not in the map are zero. *)
Record bottom_index := mkBi {
  bi_index : gmap Z Z;
  asc_link : Z;
  desc_link : Z;
  bi_key : Z;
  hash_link : Z }.

Definition bi_zero : bottom_index := mkBi ∅ 0 0 0 0.

Definition bi_set_index (j v : Z) (b : bottom_index) := mkBi (<[j := v]> (bi_index b)) (asc_link b) (desc_link b) (bi_key b) (hash_link b).
Definition bi_set_asc (v : Z) (b : bottom_index) := mkBi (bi_index b) v (desc_link b) (bi_key b) (hash_link b).
Definition bi_set_desc (v : Z) (b : bottom_index) := mkBi (bi_index b) (asc_link b) v (bi_key b) (hash_link b).
Definition bi_set_key (v : Z) (b : bottom_index) := mkBi (bi_index b) (asc_link b) (desc_link b) v (hash_link b).
Definition bi_set_hash (v : Z) (b : bottom_index) := mkBi (bi_index b) (asc_link b) (desc_link b) (bi_key b) v.

(** Memory for headers, or for index blocks: the spaces obtained so far, which one is in use and
    what is left of it. *)
Record space := mkSpace {
  spaces : list (Z * Z);      (* start and bytes *)
  curr_space : Z;
  free_ptr : Z;
  end_ptr : Z }.

Record index := mkIndex {
  MAK_all_nils : Z;
  MAK_top_index : gmap Z Z;   (* slots that are not in the map hold [MAK_all_nils] *)
  bis : gmap Z bottom_index;
  MAK_all_bottom_indices : Z;
  MAK_all_bottom_indices_end : Z;
  idx_space : space }.

(** The free lists of blocks, and the totals. *)
Record free_lists := mkFree {
  MAK_hblkfreelist : list Z;
  MAK_free_bytes : list Z;
  MAK_large_free_bytes : Z }.

(** The extent of the heap. *)
Record extent := mkExtent {
  MAK_heapsize : Z;
  MAK_last_heap_addr : Z;
  MAK_last_heap_size : Z;
  MAK_prev_heap_addr : Z;
  MAK_max_heapsize : Z;
  MAK_greatest_plausible_heap_addr : Z;
  MAK_least_plausible_heap_addr : Z;
  MAK_heap_sects : list (Z * Z) }.

Record heap := mkHeap {
  regions : list (Z * Z);     (* what [GET_MEM_PERSISTENT] has given *)
  hdrs : gmap Z hdr;
  hdr_space : space;
  MAK_hdr_free_list : Z;
  hindex : index;
  hfree : free_lists;
  hextent : extent;
  MAK_persistent_state : Z;
  MAK_run_mode : Z }.

Definition set_regions r (s : heap) := mkHeap r (hdrs s) (hdr_space s) (MAK_hdr_free_list s) (hindex s) (hfree s) (hextent s) (MAK_persistent_state s) (MAK_run_mode s).
Definition set_hdrs x (s : heap) := mkHeap (regions s) x (hdr_space s) (MAK_hdr_free_list s) (hindex s) (hfree s) (hextent s) (MAK_persistent_state s) (MAK_run_mode s).
Definition set_hdr_space x (s : heap) := mkHeap (regions s) (hdrs s) x (MAK_hdr_free_list s) (hindex s) (hfree s) (hextent s) (MAK_persistent_state s) (MAK_run_mode s).
Definition set_hdr_free_list x (s : heap) := mkHeap (regions s) (hdrs s) (hdr_space s) x (hindex s) (hfree s) (hextent s) (MAK_persistent_state s) (MAK_run_mode s).
Definition set_hindex x (s : heap) := mkHeap (regions s) (hdrs s) (hdr_space s) (MAK_hdr_free_list s) x (hfree s) (hextent s) (MAK_persistent_state s) (MAK_run_mode s).
Definition set_hfree x (s : heap) := mkHeap (regions s) (hdrs s) (hdr_space s) (MAK_hdr_free_list s) (hindex s) x (hextent s) (MAK_persistent_state s) (MAK_run_mode s).
Definition set_hextent x (s : heap) := mkHeap (regions s) (hdrs s) (hdr_space s) (MAK_hdr_free_list s) (hindex s) (hfree s) x (MAK_persistent_state s) (MAK_run_mode s).
Definition set_persistent_state x (s : heap) := mkHeap (regions s) (hdrs s) (hdr_space s) (MAK_hdr_free_list s) (hindex s) (hfree s) (hextent s) x (MAK_run_mode s).

Definition set_bis x (i : index) := mkIndex (MAK_all_nils i) (MAK_top_index i) x (MAK_all_bottom_indices i) (MAK_all_bottom_indices_end i) (idx_space i).
Definition set_top x (i : index) := mkIndex (MAK_all_nils i) x (bis i) (MAK_all_bottom_indices i) (MAK_all_bottom_indices_end i) (idx_space i).
Definition set_all_bottom x (i : index) := mkIndex (MAK_all_nils i) (MAK_top_index i) (bis i) x (MAK_all_bottom_indices_end i) (idx_space i).
Definition set_all_bottom_end x (i : index) := mkIndex (MAK_all_nils i) (MAK_top_index i) (bis i) (MAK_all_bottom_indices i) x (idx_space i).
Definition set_idx_space x (i : index) := mkIndex (MAK_all_nils i) (MAK_top_index i) (bis i) (MAK_all_bottom_indices i) (MAK_all_bottom_indices_end i) x.

(** ** Constants *)

Definition LOG_HBLKSIZE : Z := 12.
Definition HBLKSZ : Z := 4096.
Definition LOG_BOTTOM_SZ : Z := 10.
Definition BOTTOM_SZ : Z := 1024.
Definition TOP_SZ : Z := 2048.
Definition MAX_JUMP : Z := HBLKSZ - 1.
Definition MINHINCR : Z := 16.
Definition MAXHINCR : Z := 2048.
Definition MAX_HEAP_SECTS : Z := 1024.
Definition FREE_BLK : Z := 4.
Definition sizeof_hdr : Z := 128.
Definition sizeof_bottom_index : Z := 8256.

Definition divHBLKSZ (n : Z) : Z := Z.shiftr n LOG_HBLKSIZE.
Definition OBJ_SZ_TO_BLOCKS (sz : Z) : Z := divHBLKSZ (u64 (sz + HBLKSZ - 1)).
Definition IS_FORWARDING_ADDR_OR_NIL (h : Z) : bool := h <=? MAX_JUMP.
Definition HBLK_IS_FREE (h : hdr) : bool := negb (Z.land (hb_flags h) FREE_BLK =? 0).
Definition TL_HASH (hi : Z) : Z := Z.land hi (TOP_SZ - 1).
Definition top_bits (p : Z) : Z := Z.shiftr p (LOG_BOTTOM_SZ + LOG_HBLKSIZE).
Definition bottom_bits (p : Z) : Z := Z.land (Z.shiftr p LOG_HBLKSIZE) (BOTTOM_SZ - 1).

(** [GET_MEM_PERSISTENT] is a function of the program that uses Makalu: memory for the given number
    of bytes, or none. What it returns is aligned to pages, not at the bottom of the address space,
    and apart from what it has returned before. *)
Class PersistentMem := {
  get_mem : list (Z * Z) -> Z -> option Z;
  get_mem_aligned : forall rs n a, get_mem rs n = Some a -> a mod HBLKSZ = 0;
  get_mem_range : forall rs n a, get_mem rs n = Some a -> 4 * HBLKSZ <= a /\ a + n <= 2 ^ 47;
  get_mem_fresh : forall rs n a r, get_mem rs n = Some a -> r ∈ rs -> a + n <= r.1 \/ r.1 + r.2 <= a }.

Section heap.
Context `{!PersistentMem}.

Definition GET_MEM (n : Z) : stM heap (option Z) := fun s =>
  match get_mem (regions s) n with
  | Some a => Ok (Some a, set_regions ((a, n) :: regions s) s)
  | None => Ok (None, s)
  end.

(** ** Accesses *)

Definition ld_hdr (h : Z) : stM heap hdr := fun s => match hdrs s !! h with Some x => Ok (x, s) | None => Err UB_access end.
Definition upd_hdr (h : Z) (f : hdr -> hdr) : stM heap unit := fun s =>
  match hdrs s !! h with Some x => Ok (tt, set_hdrs (<[h := f x]> (hdrs s)) s) | None => Err UB_access end.

Definition ld_bi (b : Z) : stM heap bottom_index := fun s =>
  match bis (hindex s) !! b with Some x => Ok (x, s) | None => Err UB_access end.
Definition upd_bi (b : Z) (f : bottom_index -> bottom_index) : stM heap unit := fun s =>
  match bis (hindex s) !! b with
  | Some x => Ok (tt, set_hindex (set_bis (<[b := f x]> (bis (hindex s))) (hindex s)) s)
  | None => Err UB_access
  end.

Definition index_at (j : Z) (b : bottom_index) : Z := default 0 (bi_index b !! j).
Definition top_at (i : Z) (x : index) : Z := default (MAK_all_nils x) (MAK_top_index x !! i).

Definition set_index (f : index -> index) : stM heap unit := cmod (fun s => set_hindex (f (hindex s)) s).

(** Enough for a walk along the index blocks. *)
Definition bi_fuel (s : heap) : nat := S (size (bis (hindex s))).

(** ** The index *)

Fixpoint GET_BI_loop (fuel : nat) (hi b : Z) : stM heap Z :=
  match fuel with
  | O => cfail OutOfFuel
  | S fuel' =>
      x <- ld_bi b;
      nils <- cgets (fun s => MAK_all_nils (hindex s));
      if (bi_key x =? hi) || (b =? nils) then cret b else GET_BI_loop fuel' hi (hash_link x)
  end.

Definition GET_BI (p : Z) : stM heap Z := fun s =>
  GET_BI_loop (bi_fuel s) (top_bits p) (top_at (TL_HASH (top_bits p)) (hindex s)) s.

Definition HDR (p : Z) : stM heap Z :=
  b <- GET_BI p;
  x <- ld_bi b;
  cret (index_at (bottom_bits p) x).

Definition SET_HDR (p h : Z) : stM heap unit :=
  b <- GET_BI p;
  upd_bi b (bi_set_index (bottom_bits p) h).

(** ** Memory for headers and index blocks *)

(** [scratch_alloc_hdr_space] and [scratch_alloc_hdr_idx_space], on one or the other space. *)
Definition scratch_alloc (get : heap -> space) (set : space -> heap -> heap) (bytes_to_get : Z) : stM heap bool :=
  sp <- cgets get;
  let n := Z.of_nat (length (spaces sp)) in
  if curr_space sp <? n then
    match spaces sp !! Z.to_nat (curr_space sp) with
    | Some r => cmod (set (mkSpace (spaces sp) (curr_space sp) r.1 (r.1 + bytes_to_get)));; cret true
    | None => cfail UB_access
    end
  else if MAX_HEAP_SECTS <=? n then cfail Throw
  else
    res <- GET_MEM bytes_to_get;
    match res with
    | None => cret false
    | Some a => cmod (set (mkSpace (spaces sp ++ [(a, bytes_to_get)]) (curr_space sp) a (a + bytes_to_get)));; cret true
    end.

Definition scratch_alloc_hdr_space : Z -> stM heap bool := scratch_alloc hdr_space set_hdr_space.
Definition scratch_alloc_hdr_idx_space : Z -> stM heap bool :=
  scratch_alloc (fun s => idx_space (hindex s)) (fun sp s => set_hindex (set_idx_space sp (hindex s)) s).

Definition next_space (sp : space) : space := mkSpace (spaces sp) (curr_space sp + 1) (free_ptr sp) (end_ptr sp).

(** What more memory for headers is asked for. *)
Definition hdr_bytes_to_get (last_heap_size : Z) : Z :=
  let bytes_to_get := MINHINCR * HBLKSZ in
  if 0 <? last_heap_size then
    let btg := OBJ_SZ_TO_BLOCKS (u64 (divHBLKSZ last_heap_size * sizeof_hdr)) * HBLKSZ in
    if bytes_to_get <? btg then btg else bytes_to_get
  else bytes_to_get.

Fixpoint alloc_hdr (fuel : nat) : stM heap Z :=
  match fuel with
  | O => cfail OutOfFuel
  | S fuel' =>
      fl <- cgets MAK_hdr_free_list;
      if negb (fl =? 0) then
        x <- ld_hdr fl;
        cmod (set_hdr_free_list (hb_next x));;
        upd_hdr fl (fun x => hdr_prev 0 (hdr_next 0 x));;
        cret fl
      else
        sp <- cgets hdr_space;
        let new_free_ptr := free_ptr sp + sizeof_hdr in
        if new_free_ptr <=? end_ptr sp then
          cmod (fun s => set_hdrs (<[free_ptr sp := hdr_zero]> (hdrs s)) (set_hdr_space (mkSpace (spaces sp) (curr_space sp) new_free_ptr (end_ptr sp)) s));;
          cret (free_ptr sp)
        else
          lhs <- cgets (fun s => MAK_last_heap_size (hextent s));
          let bytes_to_get := hdr_bytes_to_get lhs in
          cmod (fun s => set_hdr_space (next_space (hdr_space s)) s);;
          res <- scratch_alloc_hdr_space bytes_to_get;
          res <- (if negb res && (MINHINCR * HBLKSZ <? bytes_to_get) then scratch_alloc_hdr_space (MINHINCR * HBLKSZ) else cret res);
          res <- (if negb res then scratch_alloc_hdr_space HBLKSZ else cret res);
          if negb res then cfail Throw else alloc_hdr fuel'
  end.

Fixpoint alloc_bi (fuel : nat) : stM heap Z :=
  match fuel with
  | O => cfail OutOfFuel
  | S fuel' =>
      sp <- cgets (fun s => idx_space (hindex s));
      let new_free_ptr := free_ptr sp + sizeof_bottom_index in
      if new_free_ptr <=? end_ptr sp then
        set_index (fun i => set_bis (<[free_ptr sp := bi_zero]> (bis i)) (set_idx_space (mkSpace (spaces sp) (curr_space sp) new_free_ptr (end_ptr sp)) i));;
        cret (free_ptr sp)
      else
        set_index (fun i => set_idx_space (next_space (idx_space i)) i);;
        res <- scratch_alloc_hdr_idx_space (MINHINCR * HBLKSZ);
        res <- (if negb res then scratch_alloc_hdr_idx_space HBLKSZ else cret res);
        if negb res then cfail Throw else alloc_bi fuel'
  end.

(** Every round of [alloc_hdr] and [alloc_bi] but the last takes a new space, and there are at most
    [MAX_HEAP_SECTS] of them. *)
Definition ALLOC_FUEL : nat := 1030.

Definition MAK_init_headers : stM heap unit :=
  cmod (set_hdr_space (mkSpace [] 0 0 0));;
  scratch_alloc_hdr_space (MINHINCR * HBLKSZ);;
  set_index (set_idx_space (mkSpace [] 0 0 0));;
  scratch_alloc_hdr_idx_space (MINHINCR * HBLKSZ);;
  set_index (set_top ∅).

Definition MAK_remove_header (h : Z) : stM heap unit :=
  hhdr <- HDR h;
  upd_hdr hhdr (hdr_sz 0);;
  upd_hdr hhdr (hdr_block 0);;
  fl <- cgets MAK_hdr_free_list;
  upd_hdr hhdr (hdr_next fl);;
  cmod (set_hdr_free_list hhdr);;
  SET_HDR h 0.

(** [while (p != MAK_all_nils) { if (p->key == hi) return TRUE; p = p->hash_link; }] *)
Fixpoint find_index (fuel : nat) (hi p : Z) : stM heap bool :=
  match fuel with
  | O => cfail OutOfFuel
  | S fuel' =>
      nils <- cgets (fun s => MAK_all_nils (hindex s));
      if p =? nils then cret false
      else x <- ld_bi p; if bi_key x =? hi then cret true else find_index fuel' hi (hash_link x)
  end.

(** Where to link a new index block: the last one with a smaller key, and the one behind it. *)
Fixpoint find_place (fuel : nat) (hi pi p : Z) : stM heap (Z * Z) :=
  match fuel with
  | O => cfail OutOfFuel
  | S fuel' =>
      if p =? 0 then cret (pi, p)
      else x <- ld_bi p; if bi_key x <? hi then find_place fuel' hi p (asc_link x) else cret (pi, p)
  end.

Definition get_index (addr : Z) : stM heap bool :=
  let hi := top_bits addr in
  let i := TL_HASH hi in
  fuel <- cgets bi_fuel;
  old <- cgets (fun s => top_at i (hindex s));
  found <- find_index fuel hi old;
  if found then cret true
  else
    r <- alloc_bi ALLOC_FUEL;
    upd_bi r (fun _ => bi_zero);;
    upd_bi r (bi_set_hash old);;
    set_index (fun x => set_top (<[i := r]> (MAK_top_index x)) x);;
    upd_bi r (bi_set_key hi);;
    first <- cgets (fun s => MAK_all_bottom_indices (hindex s));
    '(pi, p) <- find_place fuel hi 0 first;
    upd_bi r (bi_set_desc pi);;
    (if p =? 0 then set_index (set_all_bottom_end r) else upd_bi p (bi_set_desc r));;
    upd_bi r (bi_set_asc p);;
    (if pi =? 0 then set_index (set_all_bottom r) else upd_bi pi (bi_set_asc r));;
    cret true.

Definition MAK_install_header (h : Z) : stM heap Z :=
  ok <- get_index h;
  if negb ok then cret 0
  else
    result <- alloc_hdr ALLOC_FUEL;
    upd_hdr result (hdr_block h);;
    (if result =? 0 then cret tt else SET_HDR h result);;
    cret result.

(** [get_index] for every address of the list, until one fails. *)
Fixpoint get_indices (l : list Z) : stM heap bool :=
  match l with
  | [] => cret true
  | a :: l' => ok <- get_index a; if ok then get_indices l' else cret false
  end.

Definition forward_count (i : Z) : Z := if MAX_JUMP <? i then MAX_JUMP else i.

(** [for (hbp = h; hbp < h + sz; hbp += BOTTOM_SZ)] and [for (hbp = h + 1; hbp < h + sz; hbp += 1)] in
    units of blocks. *)
Definition MAK_install_counts (h sz : Z) : stM heap bool :=
  let n := (sz + HBLKSZ - 1) / HBLKSZ in
  ok <- get_indices ((fun k => h + k * BOTTOM_SZ * HBLKSZ) <$> seqZ 0 ((n + BOTTOM_SZ - 1) / BOTTOM_SZ));
  if negb ok then cret false
  else
    ok <- get_index (h + sz - 1);
    if negb ok then cret false
    else
      cfor (seqZ 1 (n - 1)) (fun k => SET_HDR (h + k * HBLKSZ) (forward_count (divHBLKSZ (k * HBLKSZ))));;
      cret true.

Definition MAK_remove_counts (h sz : Z) : stM heap unit :=
  let n := (sz + HBLKSZ - 1) / HBLKSZ in
  cfor (seqZ 1 (n - 1)) (fun k => SET_HDR (h + k * HBLKSZ) 0).

(** ** Walks *)

(** The block the slot [j] of an index block stands for. *)
Definition block_of (key j : Z) : Z := Z.shiftl (Z.shiftl key LOG_BOTTOM_SZ + j) LOG_HBLKSIZE.

(** [while (bi != 0 && bi->key > hi) bi = bi->desc_link;] *)
Fixpoint desc_below (fuel : nat) (hi b : Z) : stM heap Z :=
  match fuel with
  | O => cfail OutOfFuel
  | S fuel' =>
      if b =? 0 then cret 0
      else x <- ld_bi b; if hi <? bi_key x then desc_below fuel' hi (desc_link x) else cret b
  end.

(** The inner loop of [MAK_prev_block] in one index block. *)
Fixpoint prev_in (fuel : nat) (x : bottom_index) (j : Z) : stM heap (option Z) :=
  match fuel with
  | O => cfail OutOfFuel
  | S fuel' =>
      if j <? 0 then cret None
      else
        let hhdr := index_at j x in
        if hhdr =? 0 then prev_in fuel' x (j - 1)
        else if IS_FORWARDING_ADDR_OR_NIL hhdr then prev_in fuel' x (j - hhdr)
        else cret (Some (block_of (bi_key x) j))
  end.

Definition SCAN_FUEL : nat := 1025.

Fixpoint prev_from (fuel : nat) (b j : Z) : stM heap Z :=
  match fuel with
  | O => cfail OutOfFuel
  | S fuel' =>
      if b =? 0 then cret 0
      else
        x <- ld_bi b;
        r <- prev_in SCAN_FUEL x j;
        match r with
        | Some p => cret p
        | None => prev_from fuel' (desc_link x) (BOTTOM_SZ - 1)
        end
  end.

Definition MAK_prev_block (h : Z) : stM heap Z :=
  fuel <- cgets bi_fuel;
  b <- GET_BI h;
  nils <- cgets (fun s => MAK_all_nils (hindex s));
  if b =? nils then
    e <- cgets (fun s => MAK_all_bottom_indices_end (hindex s));
    b <- desc_below fuel (top_bits h) e;
    prev_from fuel b (BOTTOM_SZ - 1)
  else prev_from fuel b (bottom_bits h).

End heap.
