(* ===== verification/MakBlock.v ===== *)
(** * Makalu: allocation of blocks

    [makalu_block.c]: free lists of runs of blocks by size, splitting and coalescing, and the
    growth of the heap. *)

From S2P Require Import Prelude MakHdr.

(** ** Constants *)

Definition UNIQUE_THRESHOLD : Z := 32.
Definition HUGE_THRESHOLD : Z := 256.
Definition FL_COMPRESSION : Z := 8.
Definition N_HBLK_FLS : Z := (HUGE_THRESHOLD - UNIQUE_THRESHOLD) / FL_COMPRESSION + UNIQUE_THRESHOLD.
Definition FL_UNKNOWN : Z := -1.
Definition MAXOBJBYTES : Z := 2048.
Definition RESTARTING_OFFLINE : Z := 10.
Definition STATE_NONE : Z := 0.
Definition STATE_INCONSISTENT : Z := 2.
Definition MAK_page_size : Z := 4096.
Definition MAK_free_space_divisor : Z := 3.

(** The kinds of objects: the descriptor template and whether the size is added to it. *)
Record obj_kind := mkKind { ok_descriptor : Z; ok_relocate_descr : bool }.
Definition MAK_obj_kinds : list obj_kind := [mkKind 0 false; mkKind 0 true].

(** Conversion to [signed_word]. *)
Definition s64 (x : Z) : Z := (x + 2 ^ 63) mod 2 ^ 64 - 2 ^ 63.

Section heap.
Context `{!PersistentMem}.

Definition set_free (f : free_lists -> free_lists) : stM heap unit := cmod (fun s => set_hfree (f (hfree s)) s).

Definition fl_get (i : Z) : stM heap Z := fun s =>
  match MAK_hblkfreelist (hfree s) !! Z.to_nat i with Some x => Ok (x, s) | None => Err UB_access end.
Definition fl_set (i v : Z) : stM heap unit :=
  set_free (fun f => mkFree (<[Z.to_nat i := v]> (MAK_hblkfreelist f)) (MAK_free_bytes f) (MAK_large_free_bytes f)).
Definition INCR_FREE_BYTES (i d : Z) : stM heap unit :=
  set_free (fun f => mkFree (MAK_hblkfreelist f) (alter (fun b => u64 (b + d)) (Z.to_nat i) (MAK_free_bytes f)) (MAK_large_free_bytes f)).
Definition add_large_free_bytes (d : Z) : stM heap unit :=
  set_free (fun f => mkFree (MAK_hblkfreelist f) (MAK_free_bytes f) (u64 (MAK_large_free_bytes f + d))).

Definition mark_inconsistent : stM heap unit :=
  cmod (fun s => if MAK_persistent_state s =? STATE_NONE then set_persistent_state STATE_INCONSISTENT s else s).

(** ** Free lists *)

(** [while (0 != phdr && IS_FORWARDING_ADDR_OR_NIL(phdr))] of [MAK_free_block_ending_at]. *)
Fixpoint follow_counts (fuel : nat) (p phdr : Z) : stM heap (Z * Z) :=
  match fuel with
  | O => cfail OutOfFuel
  | S fuel' =>
      if negb (phdr =? 0) && IS_FORWARDING_ADDR_OR_NIL phdr then
        let p' := p - phdr * HBLKSZ in
        phdr' <- HDR p';
        follow_counts fuel' p' phdr'
      else cret (p, phdr)
  end.

Definition MAK_free_block_ending_at (fuel : nat) (h : Z) : stM heap Z :=
  let p := h - HBLKSZ in
  phdr <- HDR p;
  '(p, phdr) <- follow_counts fuel p phdr;
  if negb (phdr =? 0) then
    x <- ld_hdr phdr;
    cret (if HBLK_IS_FREE x then p else 0)
  else
    p <- MAK_prev_block (h - HBLKSZ);
    if negb (p =? 0) then
      phdr <- HDR p;
      x <- ld_hdr phdr;
      cret (if HBLK_IS_FREE x && (p + hb_sz x =? h) then p else 0)
    else cret 0.

Definition MAK_hblk_fl_from_blocks (blocks_needed : Z) : Z :=
  if blocks_needed <=? UNIQUE_THRESHOLD then blocks_needed
  else if HUGE_THRESHOLD <=? blocks_needed then N_HBLK_FLS
  else (blocks_needed - UNIQUE_THRESHOLD) / FL_COMPRESSION + UNIQUE_THRESHOLD.

Definition MAK_remove_from_fl (hhdr n : Z) : stM heap unit :=
  x <- ld_hdr hhdr;
  let index := if n =? FL_UNKNOWN then MAK_hblk_fl_from_blocks (divHBLKSZ (hb_sz x)) else n in
  (if hb_prev x =? 0 then fl_set index (hb_next x)
   else phdr <- HDR (hb_prev x); upd_hdr phdr (hdr_next (hb_next x)));;
  x <- ld_hdr hhdr;
  INCR_FREE_BYTES index (- hb_sz x);;
  if hb_next x =? 0 then cret tt
  else nhdr <- HDR (hb_next x); upd_hdr nhdr (hdr_prev (hb_prev x)).

Definition MAK_add_to_fl (h hhdr : Z) : stM heap unit :=
  x <- ld_hdr hhdr;
  let index := MAK_hblk_fl_from_blocks (divHBLKSZ (hb_sz x)) in
  second <- fl_get index;
  fl_set index h;;
  INCR_FREE_BYTES index (hb_sz x);;
  upd_hdr hhdr (hdr_next second);;
  upd_hdr hhdr (hdr_prev 0);;
  (if second =? 0 then cret tt else second_hdr <- HDR second; upd_hdr second_hdr (hdr_prev h));;
  upd_hdr hhdr (fun x => hdr_flags (Z.lor (hb_flags x) FREE_BLK) x).

(** ** New and freed blocks *)

Definition MAK_newfreehblk (fuel : nat) (hbp size : Z) : stM heap unit :=
  let next := hbp + size in
  nexthdr <- HDR next;
  prev <- MAK_free_block_ending_at fuel hbp;
  coalesced <- (if prev =? 0 then cret None
                else
                  prevhdr <- HDR prev;
                  x <- ld_hdr prevhdr;
                  if 0 <? s64 (u64 (size + hb_sz x)) then
                    MAK_remove_from_fl prevhdr FL_UNKNOWN;;
                    upd_hdr prevhdr (fun x => hdr_sz (u64 (hb_sz x + size)) x);;
                    cret (Some (prev, prevhdr))
                  else cret None);
  '(hbp, hhdr) <- match coalesced with
                  | Some r => cret r
                  | None =>
                      hhdr <- MAK_install_header hbp;
                      if hhdr =? 0 then cfail Throw
                      else upd_hdr hhdr (hdr_sz size);; upd_hdr hhdr (hdr_flags 0);; cret (hbp, hhdr)
                  end;
  (if nexthdr =? 0 then cret tt
   else
     nx <- ld_hdr nexthdr;
     x <- ld_hdr hhdr;
     if HBLK_IS_FREE nx && (0 <? s64 (u64 (hb_sz x + hb_sz nx))) then
       MAK_remove_from_fl nexthdr FL_UNKNOWN;;
       nx <- ld_hdr nexthdr;
       upd_hdr hhdr (fun x => hdr_sz (u64 (hb_sz x + hb_sz nx)) x);;
       MAK_remove_header next
     else cret tt);;
  add_large_free_bytes size;;
  MAK_add_to_fl hbp hhdr.

Definition MAK_freehblk (fuel : nat) (hbp : Z) : stM heap unit :=
  hhdr <- HDR hbp;
  x <- ld_hdr hhdr;
  let size := s64 (HBLKSZ * OBJ_SZ_TO_BLOCKS (hb_sz x)) in
  if size <=? 0 then cfail Throw
  else
    mark_inconsistent;;
    MAK_remove_counts hbp size;;
    upd_hdr hhdr (hdr_sz size);;
    x <- ld_hdr hhdr;
    if HBLK_IS_FREE x then cfail Throw
    else
      upd_hdr hhdr (fun x => hdr_flags (Z.lor (hb_flags x) FREE_BLK) x);;
      let next := hbp + size in
      nexthdr <- HDR next;
      prev <- MAK_free_block_ending_at fuel hbp;
      offline <- cgets (fun s => MAK_run_mode s =? RESTARTING_OFFLINE);
      '(hbp, hhdr) <- (if prev =? 0 then cret (hbp, hhdr)
                       else
                         prevhdr <- HDR prev;
                         x <- ld_hdr hhdr;
                         px <- ld_hdr prevhdr;
                         if 0 <? s64 (u64 (hb_sz x + hb_sz px)) then
                           (if offline : bool then cret tt else MAK_remove_from_fl prevhdr FL_UNKNOWN);;
                           x <- ld_hdr hhdr;
                           upd_hdr prevhdr (fun px => hdr_sz (u64 (hb_sz px + hb_sz x)) px);;
                           MAK_remove_header hbp;;
                           cret (prev, prevhdr)
                         else cret (hbp, hhdr));
      (if nexthdr =? 0 then cret tt
       else
         nx <- ld_hdr nexthdr;
         x <- ld_hdr hhdr;
         if HBLK_IS_FREE nx && (0 <? s64 (u64 (hb_sz x + hb_sz nx))) then
           (if offline : bool then cret tt else MAK_remove_from_fl nexthdr FL_UNKNOWN);;
           nx <- ld_hdr nexthdr;
           upd_hdr hhdr (fun x => hdr_sz (u64 (hb_sz x + hb_sz nx)) x);;
           MAK_remove_header next
         else cret tt);;
      add_large_free_bytes size;;
      (if offline : bool then cret tt else MAK_add_to_fl hbp hhdr).

(** ** Allocation *)

Definition MAK_get_first_part (h hhdr bytes index : Z) : stM heap Z :=
  x <- ld_hdr hhdr;
  let total_size := hb_sz x in
  MAK_remove_from_fl hhdr index;;
  if total_size =? bytes then cret h
  else
    let rest := h + bytes in
    rest_hdr <- MAK_install_header rest;
    if rest_hdr =? 0 then cfail Throw
    else
      upd_hdr rest_hdr (hdr_sz (total_size - bytes));;
      upd_hdr rest_hdr (hdr_flags 0);;
      MAK_add_to_fl rest rest_hdr;;
      cret h.

(** [FINAL_MARK_BIT] *)
Definition FINAL_MARK_BIT (sz : Z) : Z :=
  if MAXOBJBYTES <? sz then 256 else Z.shiftr (sz * (HBLKSZ / sz)) 4.

(** [MAK_clear_hdr_marks]: all bits clear but the one behind the last object. *)
Definition MAK_clear_hdr_marks (hhdr : Z) : stM heap unit :=
  upd_hdr hhdr (fun x =>
    let b := FINAL_MARK_BIT (hb_sz x) in
    hdr_marks 0 (alter (fun w => Z.lor w (Z.shiftl 1 (Z.land b 63))) (Z.to_nat (Z.shiftr b 6)) (replicate 5 0)) x).

Definition setup_header (hhdr block byte_sz kind flags : Z) : stM heap unit :=
  upd_hdr hhdr (hdr_sz byte_sz);;
  upd_hdr hhdr (hdr_kind (u8 kind));;
  upd_hdr hhdr (hdr_flags (u8 flags));;
  upd_hdr hhdr (hdr_block block);;
  match MAK_obj_kinds !! Z.to_nat kind with
  | None => cfail UB_access
  | Some k =>
      upd_hdr hhdr (hdr_descr (if ok_relocate_descr k then u64 (ok_descriptor k + byte_sz) else ok_descriptor k));;
      upd_hdr hhdr (hdr_large (bool_Z (MAXOBJBYTES <? byte_sz)));;
      upd_hdr hhdr (hdr_map (if MAXOBJBYTES <? byte_sz then 0 else Z.shiftr byte_sz 4));;
      MAK_clear_hdr_marks hhdr
  end.

(** The search of [MAK_allochblk_nth] along one list. *)
Fixpoint find_block (fuel : nat) (size_needed : Z) (may_split : bool) (hbp : Z) : stM heap (option (Z * Z)) :=
  match fuel with
  | O => cfail OutOfFuel
  | S fuel' =>
      if hbp =? 0 then cret None
      else
        hhdr <- HDR hbp;
        x <- ld_hdr hhdr;
        let size_avail := s64 (hb_sz x) in
        if size_avail <? size_needed then find_block fuel' size_needed may_split (hb_next x)
        else if size_avail =? size_needed then cret (Some (hbp, hhdr))
        else if negb may_split then find_block fuel' size_needed may_split (hb_next x)
        else if hb_next x =? 0 then cret (Some (hbp, hhdr))
        else
          thishdr <- HDR (hb_next x);
          tx <- ld_hdr thishdr;
          let next_size := s64 (hb_sz tx) in
          if (next_size <? size_avail) && (size_needed <=? next_size) then find_block fuel' size_needed may_split (hb_next x)
          else cret (Some (hbp, hhdr))
  end.

Definition MAK_allochblk_nth (fuel : nat) (sz kind flags n : Z) (may_split : bool) : stM heap Z :=
  let size_needed := s64 (HBLKSZ * OBJ_SZ_TO_BLOCKS sz) in
  mark_inconsistent;;
  hbp <- fl_get n;
  r <- find_block fuel size_needed may_split hbp;
  match r with
  | None => cret 0
  | Some (hbp, hhdr) =>
      hbp <- MAK_get_first_part hbp hhdr size_needed n;
      setup_header hhdr hbp sz kind flags;;
      add_large_free_bytes (- size_needed);;
      ok <- MAK_install_counts hbp size_needed;
      if negb ok then cfail Throw else cret hbp
  end.

(** [for (i = start_list; i <= split_limit; ++i)] *)
Fixpoint try_lists (fuel : nat) (sz kind flags : Z) (l : list Z) : stM heap Z :=
  match l with
  | [] => cret 0
  | i :: l' =>
      result <- MAK_allochblk_nth fuel sz kind flags i true;
      if result =? 0 then try_lists fuel sz kind flags l' else cret result
  end.

Definition MAK_allochblk (fuel : nat) (sz kind flags : Z) : stM heap Z :=
  let blocks := OBJ_SZ_TO_BLOCKS sz in
  if s64 (u64 (blocks * HBLKSZ)) <? 0 then cret 0
  else
    let start_list := MAK_hblk_fl_from_blocks blocks in
    result <- MAK_allochblk_nth fuel sz kind flags start_list false;
    if negb (result =? 0) then cret result
    else
      let start_list := if start_list <? UNIQUE_THRESHOLD then start_list + 1 else start_list in
      try_lists fuel sz kind flags (seqZ start_list (N_HBLK_FLS + 1 - start_list)).

(** ** Growth of the heap *)

Definition set_extent (f : extent -> extent) : stM heap unit := cmod (fun s => set_hextent (f (hextent s)) s).

Definition ext_heapsize v (e : extent) := mkExtent v (MAK_last_heap_addr e) (MAK_last_heap_size e) (MAK_prev_heap_addr e) (MAK_max_heapsize e) (MAK_greatest_plausible_heap_addr e) (MAK_least_plausible_heap_addr e) (MAK_heap_sects e).
Definition ext_last_addr v (e : extent) := mkExtent (MAK_heapsize e) v (MAK_last_heap_size e) (MAK_prev_heap_addr e) (MAK_max_heapsize e) (MAK_greatest_plausible_heap_addr e) (MAK_least_plausible_heap_addr e) (MAK_heap_sects e).
Definition ext_last_size v (e : extent) := mkExtent (MAK_heapsize e) (MAK_last_heap_addr e) v (MAK_prev_heap_addr e) (MAK_max_heapsize e) (MAK_greatest_plausible_heap_addr e) (MAK_least_plausible_heap_addr e) (MAK_heap_sects e).
Definition ext_prev_addr v (e : extent) := mkExtent (MAK_heapsize e) (MAK_last_heap_addr e) (MAK_last_heap_size e) v (MAK_max_heapsize e) (MAK_greatest_plausible_heap_addr e) (MAK_least_plausible_heap_addr e) (MAK_heap_sects e).
Definition ext_plausible g l (e : extent) := mkExtent (MAK_heapsize e) (MAK_last_heap_addr e) (MAK_last_heap_size e) (MAK_prev_heap_addr e) (MAK_max_heapsize e) g l (MAK_heap_sects e).
Definition ext_sects v (e : extent) := mkExtent (MAK_heapsize e) (MAK_last_heap_addr e) (MAK_last_heap_size e) (MAK_prev_heap_addr e) (MAK_max_heapsize e) (MAK_greatest_plausible_heap_addr e) (MAK_least_plausible_heap_addr e) v.

(** [while ((word)p <= HBLKSIZE) { ++p; sz -= HBLKSIZE; if (0 == sz) return; }]: the first two
    blocks of the address space are left out. *)
Definition skip_low (p sz : Z) : option (Z * Z) :=
  if HBLKSZ <? p then Some (p, sz)
  else
    let k := (HBLKSZ - p) / HBLKSZ + 1 in
    if sz <=? k * HBLKSZ then None else Some (p + k * HBLKSZ, sz - k * HBLKSZ).

(** The plausible limits of the heap after [bytes] bytes at [space] have been added. *)
Definition plausible (e : extent) (space p bytes expansion_slop endp : Z) : Z * Z :=
  let g := MAK_greatest_plausible_heap_addr e in
  let l := MAK_least_plausible_heap_addr e in
  let up := ((MAK_prev_heap_addr e =? 0) && negb (Z.testbit space 63)) || (negb (MAK_prev_heap_addr e =? 0) && (MAK_prev_heap_addr e <? space)) in
  let '(g, l) :=
    if up then
      let new_limit := u64 (space + bytes + expansion_slop) in
      (if space <? new_limit then Z.max g new_limit else g, l)
    else
      let new_limit := u64 (space - expansion_slop) in
      (g, if new_limit <? space then Z.min l new_limit else l) in
  let l := if (p <=? l) || (l =? 0) then p - 8 else l in
  let g := if g <=? p + bytes then endp else g in
  (g, l).

Definition MAK_add_to_heap (fuel : nat) (space bytes expansion_slop : Z) : stM heap unit :=
  sects <- cgets (fun s => MAK_heap_sects (hextent s));
  if MAX_HEAP_SECTS <=? Z.of_nat (length sects) then cfail Throw
  else
    match skip_low space bytes with
    | None => cret tt
    | Some (p, sz) =>
        let add sz endp :=
          set_extent (fun e => ext_sects (MAK_heap_sects e ++ [(p, sz)]) e);;
          MAK_newfreehblk fuel p sz;;
          set_extent (fun e => ext_heapsize (u64 (MAK_heapsize e + sz)) e);;
          set_extent (fun e => let '(g, l) := plausible e space p bytes expansion_slop endp in ext_plausible g l e) in
        let endp := u64 (p + sz) in
        if endp <=? p then
          let sz := u64 (sz - HBLKSZ) in
          if sz =? 0 then cret tt else add sz (u64 (endp - HBLKSZ))
        else add sz endp
    end.

Definition MAK_finish_expand_hp_inner (fuel : nat) : stM heap bool :=
  e <- cgets hextent;
  (if MAK_last_heap_addr e =? 0 then cret tt
   else
     MAK_add_to_heap fuel (MAK_last_heap_addr e) (MAK_last_heap_size e) (4 * MAXHINCR * HBLKSZ);;
     set_extent (fun e => ext_prev_addr (MAK_last_heap_addr e) e);;
     set_extent (ext_last_addr 0));;
  cret true.

Definition MAK_expand_hp_inner (fuel : nat) (n : Z) : stM heap bool :=
  let n := if n <? MINHINCR then MINHINCR else n in
  let bytes := u64 (n * HBLKSZ) in
  let mask := MAK_page_size - 1 in
  let bytes := Z.land (u64 (bytes + mask)) (not64 mask) in
  e <- cgets hextent;
  if negb (MAK_max_heapsize e =? 0) && (MAK_max_heapsize e <? u64 (MAK_heapsize e + bytes)) then cret false
  else
    mark_inconsistent;;
    set_extent (ext_last_size bytes);;
    res <- GET_MEM bytes;
    match res with
    | None => cret false
    | Some a => set_extent (ext_last_addr a);; MAK_finish_expand_hp_inner fuel
    end.

Definition MAK_try_expand_hp (fuel : nat) (needed_blocks : Z) (ignore_off_page : bool) : stM heap bool :=
  hs <- cgets (fun s => MAK_heapsize (hextent s));
  let blocks_to_get := hs / (HBLKSZ * MAK_free_space_divisor) + needed_blocks in
  let blocks_to_get :=
    if MAXHINCR <? blocks_to_get then
      let slop := if ignore_off_page then 4 else if needed_blocks <? 2 * MINHINCR then needed_blocks else 2 * MINHINCR in
      if MAXHINCR <? needed_blocks + slop then needed_blocks + slop else MAXHINCR
    else blocks_to_get in
  ok <- MAK_expand_hp_inner fuel blocks_to_get;
  if ok : bool then cret true
  else
    ok <- MAK_expand_hp_inner fuel needed_blocks;
    if ok : bool then cret true else cfail Throw.

End heap.
