(* ===== verification/MakLib.v ===== *)
(** * Makalu: programs that may abort, and doubly linked lists

    What the proofs about the block heap share: a weakest precondition for the state monad that
    says whether the program may abort, and lists linked in both directions through any two link
    fields. *)

From S2P Require Import Prelude.
From stdpp Require Import list.
#[local] Open Scope Z_scope.
#[local] Open Scope cmd_scope.

(** ** Weakest preconditions *)

(** [m] run in [s] ends in [Q]; it aborts only if [T] holds. *)
Definition wp {S A} (T : Prop) (m : stM S A) (s : S) (Q : A -> S -> Prop) : Prop :=
  match m s with
  | Ok (a, s') => Q a s'
  | Err Throw => T
  | Err _ => False
  end.

Section wp.
Context {S : Type} (T : Prop).

Lemma wp_bind {A B} (m : stM S A) (k : A -> stM S B) s Q : wp T m s (fun a s' => wp T (k a) s' Q) -> wp T (cbind m k) s Q.
Proof. unfold wp, cbind. destruct (m s) as [[a s']|e]; [done|]. by destruct e. Qed.

Lemma wp_ret {A} (a : A) (s : S) (Q : A -> S -> Prop) : Q a s -> wp T (cret a) s Q.
Proof. done. Qed.

Lemma wp_gets {A} (f : S -> A) (s : S) (Q : A -> S -> Prop) : Q (f s) s -> wp T (cgets f) s Q.
Proof. done. Qed.

Lemma wp_mod (f : S -> S) (s : S) (Q : unit -> S -> Prop) : Q tt (f s) -> wp T (cmod f) s Q.
Proof. done. Qed.

Lemma wp_throw {A} (s : S) (Q : A -> S -> Prop) : T -> wp T (cfail Throw) s Q.
Proof. done. Qed.

Lemma wp_ok {A} (m : stM S A) s a s' (Q : A -> S -> Prop) : m s = Ok (a, s') -> Q a s' -> wp T m s Q.
Proof. unfold wp. by intros ->. Qed.

Lemma wp_mono {A} (m : stM S A) s (Q Q' : A -> S -> Prop) : wp T m s Q -> (forall a s', Q a s' -> Q' a s') -> wp T m s Q'.
Proof. unfold wp. destruct (m s) as [[a s']|e]; [eauto|]. by destruct e. Qed.

Lemma wp_if {A} (b : bool) (m1 m2 : stM S A) s Q : (b = true -> wp T m1 s Q) -> (b = false -> wp T m2 s Q) -> wp T (if b then m1 else m2) s Q.
Proof. destruct b; auto. Qed.

Lemma wp_for {A} (l : list A) (body : A -> stM S unit) (I : list A -> S -> Prop) : forall s,
  I [] s -> (forall l1 a l2 s, l = l1 ++ a :: l2 -> I l1 s -> wp T (body a) s (fun _ => I (l1 ++ [a]))) ->
  wp T (cfor l body) s (fun _ => I l).
Proof.
  enough (forall l2 l1 s, l = l1 ++ l2 -> I l1 s -> (forall l1 a l2 s, l = l1 ++ a :: l2 -> I l1 s -> wp T (body a) s (fun _ => I (l1 ++ [a]))) ->
    wp T (cfor l2 body) s (fun _ => I l)) as HX by (intros s H0 Hb; exact (HX l [] s eq_refl H0 Hb)).
  induction l2 as [|a l2 IH]; intros l1 s Hl HI Hb.
  - rewrite app_nil_r in Hl. by subst.
  - cbn [cfor]. apply wp_bind. eapply wp_mono; [by eapply Hb|]. intros [] s' Hs. apply (IH (l1 ++ [a])); [|done|done]. by rewrite <- app_assoc.
Qed.

Lemma wp_fold {A L} (l : list A) (body : A -> L -> stM S L) (I : list A -> L -> S -> Prop) : forall acc s,
  I [] acc s -> (forall l1 a l2 acc s, l = l1 ++ a :: l2 -> I l1 acc s -> wp T (body a acc) s (fun acc' => I (l1 ++ [a]) acc')) ->
  wp T (cfold l body acc) s (fun acc' => I l acc').
Proof.
  enough (forall l2 l1 acc s, l = l1 ++ l2 -> I l1 acc s -> (forall l1 a l2 acc s, l = l1 ++ a :: l2 -> I l1 acc s -> wp T (body a acc) s (fun acc' => I (l1 ++ [a]) acc')) ->
    wp T (cfold l2 body acc) s (fun acc' => I l acc')) as HX by (intros acc s H0 Hb; exact (HX l [] acc s eq_refl H0 Hb)).
  induction l2 as [|a l2 IH]; intros l1 acc s Hl HI Hb.
  - rewrite app_nil_r in Hl. by subst.
  - cbn [cfold]. apply wp_bind. eapply wp_mono; [by eapply Hb|]. intros acc' s' Hs. apply (IH (l1 ++ [a])); [|done|done]. by rewrite <- app_assoc.
Qed.

End wp.

Lemma wp_total {S A} (m : stM S A) s Q : wp False m s Q -> exists a s', m s = Ok (a, s') /\ Q a s'.
Proof. unfold wp. destruct (m s) as [[a s']|e]; [eauto|by destruct e]. Qed.

Lemma wp_abort {S A} (m : stM S A) s Q : wp True m s Q -> m s = Err Throw \/ exists a s', m s = Ok (a, s') /\ Q a s'.
Proof. unfold wp. destruct (m s) as [[a s']|e]; [eauto|destruct e; auto; done]. Qed.

Lemma wp_weaken {S A} (T : Prop) (m : stM S A) s Q : wp False m s Q -> wp T m s Q.
Proof. unfold wp. destruct (m s) as [[a s']|e]; [done|by destruct e]. Qed.

(** ** Doubly linked lists *)

(** From [b] to [e] through the nodes [l], the first with the back link [p]. *)
Fixpoint dls (nx pv : Z -> Z) (p b : Z) (l : list Z) (e : Z) : Prop :=
  match l with
  | [] => b = e
  | y :: l' => b = y /\ y <> 0 /\ pv y = p /\ dls nx pv y (nx y) l' e
  end.

Section dls.
Context (nx pv nx' pv' : Z -> Z).

Lemma dls_ext p b l e : (forall y, y ∈ l -> nx' y = nx y /\ pv' y = pv y) -> dls nx pv p b l e -> dls nx' pv' p b l e.
Proof.
  revert p b. induction l as [|y l IH]; intros p b Hs; [done|]. intros (-> & Hy & Hp & Hl). destruct (Hs y ltac:(left)) as [Hn Hv].
  cbn. rewrite Hn, Hv. split_and!; [done|done|done|]. apply IH; [|done]. intros z Hz. apply Hs. by right.
Qed.

Lemma dls_app p b l1 l2 e : dls nx pv p b (l1 ++ l2) e <-> exists c, dls nx pv p b l1 c /\ dls nx pv (default p (last l1)) c l2 e.
Proof.
  revert p b. induction l1 as [|y l1 IH]; intros p b; cbn [app dls].
  - split; [intros H'; by exists b|]. by intros (c & -> & H').
  - assert (Hd : default p (last (y :: l1)) = default y (last l1)) by (rewrite last_cons; by destruct (last l1)). rewrite Hd. split.
    + intros (-> & Hy & Hp & Hl). apply IH in Hl as (c & H1 & H2). by exists c.
    + intros (c & (-> & Hy & Hp & H1) & H2). split_and!; [done|done|done|]. apply IH. by exists c.
Qed.

Lemma dls_head p b l e : dls nx pv p b l e -> b = default e (head l).
Proof. destruct l; [done|]. by intros (-> & _). Qed.

Lemma dls_nonzero p b l e y : dls nx pv p b l e -> y ∈ l -> y <> 0.
Proof.
  revert p b. induction l as [|z l IH]; intros p b Hl Hy; [by apply not_elem_of_nil in Hy|]. destruct Hl as (_ & Hz & _ & Hl).
  apply elem_of_cons in Hy as [->|Hy]; [done|by eapply IH].
Qed.

(** The end of a list is the target of its last link. *)
Lemma dls_last p b l c : dls nx pv p b l c -> c = match last l with Some z => nx z | None => b end.
Proof.
  revert p b. induction l as [|y l IH]; intros p b; [done|]. intros (-> & _ & _ & Hl). apply IH in Hl. rewrite last_cons. by destruct (last l).
Qed.

(** Only the last link of a segment changes. *)
Lemma dls_retarget p b l c c' : NoDup l ->
  (forall y, y ∈ l -> pv' y = pv y) -> (forall y, y ∈ l -> last l <> Some y -> nx' y = nx y) -> (forall y, last l = Some y -> nx' y = c') ->
  dls nx pv p b l c -> dls nx' pv' p (match l with [] => c' | _ => b end) l c'.
Proof.
  revert p b. induction l as [|y l IH]; intros p b Hd Hp Hn Hl; [done|]. intros (-> & Hy & Hpy & Hs). apply list.NoDup_cons in Hd as [Hyl Hd].
  cbn [dls]. rewrite (Hp y ltac:(left)). split_and!; [done|done|done|]. destruct l as [|z l].
  - cbn. by apply Hl.
  - rewrite Hn; [|left|].
    + pose proof Hs as (Hz & _). rewrite Hz in Hs |- *. apply (IH y z); [done| | |done|done].
      * intros w Hw. apply Hp. by right.
      * intros w Hw Hlw. apply Hn; [by right|done].
    + rewrite last_cons_cons. intros E. apply Hyl. by apply last_Some_elem_of.
Qed.

(** Only the first back link of a segment changes. *)
Lemma dls_reprev p p' b l e : NoDup l ->
  (forall y, y ∈ l -> nx' y = nx y) -> (forall y, y ∈ l -> head l <> Some y -> pv' y = pv y) -> (forall y, head l = Some y -> pv' y = p') ->
  dls nx pv p b l e -> dls nx' pv' p' b l e.
Proof.
  destruct l as [|y l]; [done|]. intros Hd Hn Hp Hh (-> & Hy & _ & Hl). apply list.NoDup_cons in Hd as [Hyl Hd]. cbn [dls].
  rewrite (Hn y ltac:(left)). split_and!; [done|done|by apply Hh|]. eapply dls_ext; [|exact Hl]. intros z Hz. split; [apply Hn; by right|].
  apply Hp; [by right|]. cbn. intros [= ->]. done.
Qed.

End dls.

Lemma dls_insert nx pv nx' pv' p b l1 l2 e r :
  NoDup (l1 ++ l2) -> r <> 0 -> r ∉ l1 ++ l2 ->
  nx' r = default e (head l2) -> pv' r = default p (last l1) ->
  (forall y, y ∈ l1 ++ l2 -> nx' y = if decide (last l1 = Some y) then r else nx y) ->
  (forall y, y ∈ l1 ++ l2 -> pv' y = if decide (head l2 = Some y) then r else pv y) ->
  dls nx pv p b (l1 ++ l2) e -> dls nx' pv' p (default r (head l1)) (l1 ++ r :: l2) e.
Proof.
  intros Hd Hr Hrl Hnr Hpr Hn Hp Hl. apply NoDup_app in Hd as (Hd1 & Hd12 & Hd2). apply dls_app in Hl as (c & H1 & H2). apply dls_app.
  exists r. split.
  - pose proof (dls_head _ _ _ _ _ _ H1) as Hb. destruct l1 as [|z l1]; [done|]. cbn [head default from_option id] in *. subst b.
    change z with (match z :: l1 with [] => r | _ => z end) at 1. eapply dls_retarget; [done|..|exact H1].
    + intros y Hy. rewrite Hp by set_solver. rewrite decide_False; [done|]. intros Hh. apply (Hd12 y Hy). by apply head_Some_elem_of.
    + intros y Hy Hlast. rewrite Hn by set_solver. by rewrite decide_False.
    + intros y Hy. rewrite Hn; [by rewrite decide_True|]. apply elem_of_app; left. by apply last_Some_elem_of.
  - cbn [dls]. split_and!; [done|done|done|]. rewrite Hnr. pose proof (dls_head _ _ _ _ _ _ H2) as Hc. rewrite <- Hc.
    eapply dls_reprev; [done|..|exact H2].
    + intros y Hy. rewrite Hn by set_solver. rewrite decide_False; [done|]. intros Hh. apply last_Some_elem_of in Hh. by apply (Hd12 y).
    + intros y Hy Hh. rewrite Hp by set_solver. by rewrite decide_False.
    + intros y Hy. rewrite Hp; [by rewrite decide_True|]. apply elem_of_app; right. by apply head_Some_elem_of.
Qed.

Lemma dls_remove nx pv nx' pv' p b l1 l2 e r :
  NoDup (l1 ++ r :: l2) ->
  (forall y, y ∈ l1 ++ l2 -> nx' y = if decide (last l1 = Some y) then nx r else nx y) ->
  (forall y, y ∈ l1 ++ l2 -> pv' y = if decide (head l2 = Some y) then pv r else pv y) ->
  dls nx pv p b (l1 ++ r :: l2) e -> dls nx' pv' p (match l1 with [] => nx r | _ => b end) (l1 ++ l2) e.
Proof.
  intros Hd Hn Hp Hl. apply NoDup_app in Hd as (Hd1 & Hd12 & Hd2). apply list.NoDup_cons in Hd2 as [Hr Hd2].
  apply dls_app in Hl as (c & H1 & -> & Hr0 & Hpr & H2). apply dls_app. exists (nx r). split.
  - eapply dls_retarget; [done|..|exact H1].
    + intros y Hy. rewrite Hp by set_solver. rewrite decide_False; [done|]. intros Hh. apply (Hd12 y Hy). right. by apply head_Some_elem_of.
    + intros y Hy Hlast. rewrite Hn by set_solver. by rewrite decide_False.
    + intros y Hy. rewrite Hn; [by rewrite decide_True|]. apply elem_of_app; left. by apply last_Some_elem_of.
  - eapply dls_reprev; [done|..|exact H2].
    + intros y Hy. rewrite Hn by set_solver. rewrite decide_False; [done|]. intros Hh. apply last_Some_elem_of in Hh. apply (Hd12 y Hh). by right.
    + intros y Hy Hh. rewrite Hp by set_solver. by rewrite decide_False.
    + intros y Hy. rewrite Hp; [rewrite decide_True by done; done|]. apply elem_of_app; right. by apply head_Some_elem_of.
Qed.
