(* ===== verification/MakIndex.v ===== *)
(** * Makalu: the index is a map

    The two-level index of [makalu_hdr.c], a hash table of arrays that are also linked in the order
    of their keys, represents a map from block numbers to words: looking a word up, setting it and
    making room for it, and the search for the last block start below an address. *)

From S2P Require Import Prelude MakHdr MakLib.
From stdpp Require Import sorting.
#[local] Open Scope Z_scope.
#[local] Open Scope cmd_scope.

(** ** Address arithmetic *)

(** The number of the block that contains an address. *)
Definition bno (p : Z) : Z := p / HBLKSZ.

Lemma top_bits_eq p : top_bits p = bno p / BOTTOM_SZ.
Proof.
  unfold top_bits, bno, HBLKSZ, BOTTOM_SZ, LOG_BOTTOM_SZ, LOG_HBLKSIZE. rewrite Z.shiftr_div_pow2 by lia. rewrite Z.div_div by lia. f_equal.
Qed.

Lemma bottom_bits_eq p : bottom_bits p = bno p mod BOTTOM_SZ.
Proof.
  unfold bottom_bits, bno, HBLKSZ, BOTTOM_SZ, LOG_HBLKSIZE. rewrite Z.shiftr_div_pow2 by lia.
  change (1024 - 1) with (2 ^ 10 - 1). rewrite land_pow2_pred by lia. f_equal.
Qed.

Lemma TL_HASH_eq k : TL_HASH k = k mod TOP_SZ.
Proof. unfold TL_HASH, TOP_SZ. change (2048 - 1) with (2 ^ 11 - 1). rewrite land_pow2_pred by lia. f_equal. Qed.

Lemma bno_addr n : bno (n * HBLKSZ) = n.
Proof. apply Z.div_mul. unfold HBLKSZ. lia. Qed.

Lemma divHBLKSZ_eq n : divHBLKSZ n = n / HBLKSZ.
Proof. unfold divHBLKSZ, LOG_HBLKSIZE, HBLKSZ. by rewrite Z.shiftr_div_pow2 by lia. Qed.

Lemma block_of_eq k j : block_of k j = (k * BOTTOM_SZ + j) * HBLKSZ.
Proof. unfold block_of, LOG_BOTTOM_SZ, LOG_HBLKSIZE, BOTTOM_SZ, HBLKSZ. rewrite !Z.shiftl_mul_pow2 by lia. lia. Qed.

(** ** Chains *)

(** The blocks of a slot of the hash table. *)
Fixpoint hchain (m : gmap Z bottom_index) (nils b : Z) (l : list Z) : Prop :=
  match l with
  | [] => b = nils
  | y :: l' => b = y /\ y <> nils /\ exists x, m !! y = Some x /\ hchain m nils (hash_link x) l'
  end.

Definition nxt (m : gmap Z bottom_index) (b : Z) : Z := match m !! b with Some x => asc_link x | None => 0 end.
Definition prv (m : gmap Z bottom_index) (b : Z) : Z := match m !! b with Some x => desc_link x | None => 0 end.
Definition key_at (m : gmap Z bottom_index) (b : Z) : Z := match m !! b with Some x => bi_key x | None => 0 end.

(** The index blocks are those of [km], by key; [asc] lists them in order. *)
Record idx_ok (x : index) (km : gmap Z Z) (asc : list Z) : Prop := {
  ix_nils : bis x !! MAK_all_nils x = Some bi_zero /\ MAK_all_nils x <> 0;
  ix_km : forall k b, km !! k = Some b -> 0 <= k /\ b <> MAK_all_nils x /\ b <> 0 /\ exists y, bis x !! b = Some y /\ bi_key y = k;
  ix_dom : forall b y, bis x !! b = Some y -> b = MAK_all_nils x \/ km !! bi_key y = Some b;
  ix_hash : forall i, 0 <= i < TOP_SZ -> exists l, hchain (bis x) (MAK_all_nils x) (top_at i x) l /\ NoDup l /\
    forall b, b ∈ l <-> exists k, km !! k = Some b /\ TL_HASH k = i;
  ix_asc : dls (nxt (bis x)) (prv (bis x)) 0 (MAK_all_bottom_indices x) asc 0;
  ix_end : MAK_all_bottom_indices_end x = default 0 (last asc);
  ix_sorted : StronglySorted (fun a b => key_at (bis x) a < key_at (bis x) b) asc;
  ix_all : forall b, b ∈ asc <-> exists k, km !! k = Some b }.

(** The word of a block number. *)
Definition entry (x : index) (km : gmap Z Z) (n : Z) : Z :=
  match km !! (n / BOTTOM_SZ) with
  | Some b => match bis x !! b with Some y => index_at (n mod BOTTOM_SZ) y | None => 0 end
  | None => 0
  end.

Lemma hash_range k : 0 <= TL_HASH k < TOP_SZ.
Proof. rewrite TL_HASH_eq. apply Z.mod_pos_bound. unfold TOP_SZ. lia. Qed.

Lemma hchain_dom m nils b l y : hchain m nils b l -> y ∈ l -> is_Some (m !! y).
Proof.
  revert b. induction l as [|z l IH]; intros b H Hy; [by apply not_elem_of_nil in Hy|]. destruct H as (-> & _ & x & Hx & H).
  apply elem_of_cons in Hy as [->|Hy]; [by exists x|by eapply IH].
Qed.

Lemma hchain_nils m nils b l y : hchain m nils b l -> y ∈ l -> y <> nils.
Proof.
  revert b. induction l as [|z l IH]; intros b H Hy; [by apply not_elem_of_nil in Hy|]. destruct H as (-> & Hz & x & Hx & H).
  apply elem_of_cons in Hy as [->|Hy]; [done|by eapply IH].
Qed.

Lemma nodup_size {A} (m : gmap Z A) (l : list Z) : NoDup l -> (forall y, y ∈ l -> is_Some (m !! y)) -> (length l <= size m)%nat.
Proof.
  intros Hn Hd. rewrite <- size_dom. rewrite <- (size_list_to_set (C := gset Z) l) by done. apply subseteq_size.
  intros y Hy. apply elem_of_list_to_set in Hy. apply elem_of_dom. by apply Hd.
Qed.

Section heap.
Context `{!PersistentMem}.

(** *** Looking up *)

Lemma GET_BI_loop_run s km asc hi l : forall fuel b,
  idx_ok (hindex s) km asc -> hchain (bis (hindex s)) (MAK_all_nils (hindex s)) b l -> (length l < fuel)%nat ->
  (forall y k, y ∈ l -> km !! k = Some y -> (k = hi <-> km !! hi = Some y)) -> (forall y, km !! hi = Some y -> y ∈ l) ->
  GET_BI_loop fuel hi b s = Ok (default (MAK_all_nils (hindex s)) (km !! hi), s).
Proof.
  intros fuel b I. revert fuel b. induction l as [|y l IH]; intros fuel b Hc Hf Hk Hin; destruct fuel as [|fuel]; [cbn in Hf; lia|..|cbn in Hf; lia|].
  - cbn in Hc. subst b. cbn [GET_BI_loop]. unfold ld_bi at 1. unfold cbind at 1. destruct (ix_nils _ _ _ I) as [Hn _]. rewrite Hn.
    unfold cgets at 1. unfold cbind at 1. rewrite Z.eqb_refl, orb_true_r.
    destruct (km !! hi) as [y|] eqn:E; [specialize (Hin y eq_refl); by apply not_elem_of_nil in Hin|done].
  - destruct Hc as (-> & Hyn & x & Hx & Hc). cbn [GET_BI_loop]. unfold ld_bi at 1. unfold cbind at 1. rewrite Hx.
    unfold cgets at 1. unfold cbind at 1. rewrite (proj2 (Z.eqb_neq _ _) Hyn), orb_false_r.
    destruct (ix_dom _ _ _ I y x Hx) as [|Hky]; [done|].
    destruct (Z.eqb_spec (bi_key x) hi) as [<-|Hne]; [by rewrite Hky|].
    assert (Hny : km !! hi <> Some y) by (rewrite <- (Hk y (bi_key x) ltac:(left) Hky); done).
    apply IH; [done|cbn in Hf; lia| |].
    + intros z k Hz. apply Hk. by right.
    + intros z Hz. specialize (Hin z Hz). apply elem_of_cons in Hin as [->|]; [done|done].
Qed.

Lemma km_inj x km asc k k' b : idx_ok x km asc -> km !! k = Some b -> km !! k' = Some b -> k = k'.
Proof.
  intros I H1 H2. destruct (ix_km _ _ _ I _ _ H1) as (_ & _ & _ & y & Hy & <-), (ix_km _ _ _ I _ _ H2) as (_ & _ & _ & y' & Hy' & <-). congruence.
Qed.

Lemma chain_fuel x km asc l b : idx_ok x km asc -> hchain (bis x) (MAK_all_nils x) b l -> NoDup l -> (length l < size (bis x))%nat.
Proof.
  intros I Hc Hn. pose proof (ix_nils _ _ _ I) as [Hnil _].
  enough (length (MAK_all_nils x :: l) <= size (bis x))%nat by (cbn in *; lia). apply nodup_size.
  - apply list.NoDup_cons. split; [|done]. intros Hin. by eapply hchain_nils.
  - intros y Hy. apply elem_of_cons in Hy as [->|Hy]; [by eexists|by eapply hchain_dom].
Qed.

Lemma GET_BI_run s km asc p :
  idx_ok (hindex s) km asc -> GET_BI p s = Ok (default (MAK_all_nils (hindex s)) (km !! (bno p / BOTTOM_SZ)), s).
Proof.
  intros I. unfold GET_BI. rewrite top_bits_eq. set (hi := bno p / BOTTOM_SZ).
  destruct (ix_hash _ _ _ I (TL_HASH hi) (hash_range hi)) as (l & Hc & Hn & Hl).
  apply (GET_BI_loop_run s km asc hi l); [done|done| | |].
  - unfold bi_fuel. pose proof (chain_fuel _ _ _ _ _ I Hc Hn). lia.
  - intros y k _ Hk. split; [by intros <-|]. intros Hhi. by eapply km_inj.
  - intros y Hy. apply Hl. by exists hi.
Qed.

Lemma HDR_run s km asc p : idx_ok (hindex s) km asc -> HDR p s = Ok (entry (hindex s) km (bno p), s).
Proof.
  intros I. unfold HDR. rewrite (cbind_Ok _ _ _ _ _ (GET_BI_run s km asc p I)). unfold ld_bi, cbind, cret, entry. rewrite bottom_bits_eq.
  destruct (km !! (bno p / BOTTOM_SZ)) as [b|] eqn:E; cbn.
  - destruct (ix_km _ _ _ I _ _ E) as (_ & _ & _ & y & Hy & _). by rewrite Hy.
  - destruct (ix_nils _ _ _ I) as [Hn _]. rewrite Hn. done.
Qed.

(** *** Changing a word *)

Lemma hchain_ext m m' nils b l :
  (forall y x, y ∈ l -> m !! y = Some x -> exists x', m' !! y = Some x' /\ hash_link x' = hash_link x) -> hchain m nils b l -> hchain m' nils b l.
Proof.
  revert b. induction l as [|y l IH]; intros b Hm; [done|]. intros (-> & Hn & x & Hx & Hc). destruct (Hm y x ltac:(left) Hx) as (x' & Hx' & Hl).
  split; [done|]. split; [done|]. exists x'. split; [done|]. rewrite Hl. apply IH; [|done]. intros z w Hz. apply Hm. by right.
Qed.

Lemma sorted_ext {A} (R R' : A -> A -> Prop) l : (forall a b, a ∈ l -> b ∈ l -> R a b -> R' a b) -> StronglySorted R l -> StronglySorted R' l.
Proof.
  induction l as [|a l IH]; intros HR; [constructor|]. inversion 1 as [|? ? Hs Hf]; subst. constructor.
  - apply IH; [|done]. intros b c Hb Hc. apply HR; by right.
  - rewrite list.Forall_forall in *. intros b Hb. apply HR; [left|by right|by apply Hf].
Qed.

(** The words of one index block change. *)
Lemma idx_words x km asc b y y' :
  idx_ok x km asc -> bis x !! b = Some y -> b <> MAK_all_nils x ->
  asc_link y' = asc_link y -> desc_link y' = desc_link y -> bi_key y' = bi_key y -> hash_link y' = hash_link y ->
  idx_ok (set_bis (<[b := y']> (bis x)) x) km asc.
Proof.
  intros I Hb Hn Ha Hd Hk Hh. destruct I as [[I1 I1'] I2 I3 I4 I5 I6 I7 I8].
  assert (Hsame : forall z w, bis x !! z = Some w -> exists w', <[b := y']> (bis x) !! z = Some w' /\
     asc_link w' = asc_link w /\ desc_link w' = desc_link w /\ bi_key w' = bi_key w /\ hash_link w' = hash_link w).
  { intros z w Hz. destruct (decide (z = b)) as [->|Hz'].
    - rewrite lookup_insert_eq. exists y'. rewrite Hb in Hz. injection Hz as <-. done.
    - rewrite lookup_insert_ne by done. by exists w. }
  assert (Hkey : forall z, is_Some (bis x !! z) -> key_at (<[b := y']> (bis x)) z = key_at (bis x) z).
  { intros z [w Hz]. unfold key_at. destruct (Hsame z w Hz) as (w' & -> & _ & _ & -> & _). by rewrite Hz. }
  split; cbn [set_bis bis MAK_all_nils MAK_top_index MAK_all_bottom_indices MAK_all_bottom_indices_end].
  - split; [by rewrite lookup_insert_ne|done].
  - intros k c Hc. destruct (I2 k c Hc) as (H0 & H1 & H2 & w & Hw & Hkw). split_and!; [done|done|done|].
    destruct (Hsame c w Hw) as (w' & Hw' & _ & _ & Hk' & _). exists w'. split; [done|congruence].
  - intros c w Hw. destruct (decide (c = b)) as [->|Hc].
    + rewrite lookup_insert_eq in Hw. injection Hw as <-. rewrite Hk. by apply I3.
    + rewrite lookup_insert_ne in Hw by done. by apply I3.
  - intros i Hi. destruct (I4 i Hi) as (l & Hc & Hnd & Hl). exists l. split; [|done]. eapply hchain_ext; [|exact Hc].
    intros z w _ Hz. destruct (Hsame z w Hz) as (w' & Hw' & _ & _ & _ & Hh'). eauto.
  - eapply dls_ext; [|exact I5]. intros z Hz. apply I8 in Hz as (k & Hz). destruct (I2 _ _ Hz) as (_ & _ & _ & w & Hw & _).
    destruct (Hsame z w Hw) as (w' & Hw' & Ha' & Hd' & _). unfold nxt, prv. by rewrite Hw, Hw', Ha', Hd'.
  - done.
  - eapply sorted_ext; [|exact I7]. intros c d Hc Hd'. rewrite !Hkey; [done|..].
    + apply I8 in Hd' as (k & Hd'). destruct (I2 _ _ Hd') as (_ & _ & _ & w & Hw & _). by exists w.
    + apply I8 in Hc as (k & Hc). destruct (I2 _ _ Hc) as (_ & _ & _ & w & Hw & _). by exists w.
  - done.
Qed.

(** The word of one block number changes; the index knows the same block numbers. *)
Definition word_set (x x' : index) (km : gmap Z Z) (n v : Z) : Prop :=
  (forall m, entry x' km m = if decide (m = n) then v else entry x km m) /\
  idx_space x' = idx_space x /\ dom (bis x') = dom (bis x) /\ MAK_all_nils x' = MAK_all_nils x.

Lemma split_bno m n : m / BOTTOM_SZ = n / BOTTOM_SZ -> m mod BOTTOM_SZ = n mod BOTTOM_SZ -> m = n.
Proof. unfold BOTTOM_SZ. intros H1 H2. pose proof (Z.div_mod m 1024). pose proof (Z.div_mod n 1024). lia. Qed.

Lemma SET_HDR_run s km asc p v b :
  idx_ok (hindex s) km asc -> km !! (bno p / BOTTOM_SZ) = Some b ->
  exists x', SET_HDR p v s = Ok (tt, set_hindex x' s) /\ idx_ok x' km asc /\ word_set (hindex s) x' km (bno p) v.
Proof.
  intros I Hb. destruct (ix_km _ _ _ I _ _ Hb) as (_ & Hn & H0 & y & Hy & Hk).
  exists (set_bis (<[b := bi_set_index (bottom_bits p) v y]> (bis (hindex s))) (hindex s)). split; [|split].
  - unfold SET_HDR. rewrite (cbind_Ok _ _ _ _ _ (GET_BI_run s km asc p I)). rewrite Hb. cbn [default from_option id]. unfold upd_bi. by rewrite Hy.
  - by eapply idx_words.
  - split; [|split; [done|split; [|done]]].
    + intros m. unfold entry. destruct (km !! (m / BOTTOM_SZ)) as [c|] eqn:Ec.
      * cbn [set_bis bis]. destruct (decide (c = b)) as [->|Hc].
        -- rewrite lookup_insert_eq, Hy. unfold index_at. cbn [bi_set_index bi_index]. rewrite bottom_bits_eq.
           pose proof (km_inj _ _ _ _ _ _ I Ec Hb) as Hd. destruct (decide (m mod BOTTOM_SZ = bno p mod BOTTOM_SZ)) as [Em|Em].
           ++ rewrite Em, lookup_insert_eq. rewrite decide_True by (by apply split_bno). done.
           ++ rewrite lookup_insert_ne by done. rewrite decide_False by (intros ->; done). done.
        -- rewrite lookup_insert_ne by done. rewrite decide_False; [done|]. intros ->. congruence.
      * rewrite decide_False; [done|]. intros ->. congruence.
    + cbn. rewrite dom_insert_L. apply elem_of_dom_2 in Hy. set_solver.
Qed.

(** *** Memory for index blocks and headers *)

Definition inside (rs : list (Z * Z)) (a : Z) : Prop := exists r, r ∈ rs /\ r.1 <= a < r.1 + r.2.

(** What is left of a space is not in use; with [k] more, no space is left. *)
Definition space_ok {A} (rs : list (Z * Z)) (sp : space) (m : gmap Z A) (k : Z) : Prop :=
  (forall a, is_Some (m !! a) -> inside rs a /\ ~ (free_ptr sp <= a < end_ptr sp)) /\
  (forall a, free_ptr sp <= a < end_ptr sp -> inside rs a /\ 4 * HBLKSZ <= a) /\
  Z.of_nat (length (spaces sp)) <= curr_space sp + k /\ (length (spaces sp) <= 1024)%nat.

(** A request for memory was granted, or nothing changed. *)
Definition got (get : heap -> space) (set : space -> heap -> heap) (s : heap) (res : bool) (s' : heap) : Prop :=
  if res then exists a n, get_mem (regions s) n = Some a /\ (length (spaces (get s)) < 1024)%nat /\
    s' = set (mkSpace (spaces (get s) ++ [(a, n)]) (curr_space (get s)) a (a + n)) (set_regions ((a, n) :: regions s) s)
  else s' = s.

Lemma wp_scratch get set n s : Z.of_nat (length (spaces (get s))) <= curr_space (get s) -> wp True (scratch_alloc get set n) s (got get set s).
Proof.
  intros Hc. unfold scratch_alloc. apply wp_bind, wp_gets. rewrite (proj2 (Z.ltb_ge _ _) Hc). apply wp_if; intros Hn; [by apply wp_throw|].
  apply Z.leb_gt in Hn. unfold MAX_HEAP_SECTS in Hn. apply wp_bind. unfold wp, GET_MEM. destruct (get_mem (regions s) n) as [a|] eqn:E.
  - exists a, n. split; [done|]. split; [lia|done].
  - done.
Qed.

(** Another request if the first was not granted. *)
Lemma wp_retry get set n (b : bool) s res s' :
  Z.of_nat (length (spaces (get s))) <= curr_space (get s) -> got get set s res s' ->
  wp True (if negb res && b then scratch_alloc get set n else cret res) s' (got get set s).
Proof.
  intros Hc Hg. destruct res; cbn [negb andb]; [by apply wp_ret|]. cbn in Hg. subst s'. destruct b; [by apply wp_scratch|by apply wp_ret].
Qed.

(** A new space. *)
Lemma space_new {A} rs sp (m : gmap Z A) n a :
  space_ok rs sp m 0 -> (length (spaces sp) < 1024)%nat -> get_mem rs n = Some a ->
  space_ok ((a, n) :: rs) (mkSpace (spaces sp ++ [(a, n)]) (curr_space sp) a (a + n)) m 1.
Proof.
  intros (H1 & H2 & H3 & _) Hlen Ha. split_and!; cbn [free_ptr end_ptr spaces curr_space].
  - intros b Hb. destruct (H1 b Hb) as [(r & Hr & Hbr) _]. split; [exists r; split; [by right|done]|].
    destruct (get_mem_fresh _ _ _ _ Ha Hr); lia.
  - intros b Hb. split; [exists (a, n); split; [left|done]|]. destruct (get_mem_range _ _ _ Ha). lia.
  - rewrite length_app. cbn. lia.
  - rewrite length_app. cbn. lia.
Qed.

Lemma space_next {A} rs sp (m : gmap Z A) : space_ok rs sp m 1 -> space_ok rs (next_space sp) m 0.
Proof. intros (H1 & H2 & H3 & H4). split; [exact H1|]. split; [exact H2|]. cbn. split; [lia|done]. Qed.

Lemma inside_more rs rs' a : rs ⊆ rs' -> inside rs a -> inside rs' a.
Proof. intros Hs (r & Hr & Ha). exists r. split; [by apply Hs|done]. Qed.

Lemma space_more {A} rs rs' sp (m : gmap Z A) k : rs ⊆ rs' -> space_ok rs sp m k -> space_ok rs' sp m k.
Proof.
  intros Hs (H1 & H2 & H3). split; [|split; [|done]].
  - intros a Ha. destruct (H1 a Ha). split; [by eapply inside_more|done].
  - intros a Ha. destruct (H2 a Ha). split; [by eapply inside_more|done].
Qed.

(** Taking an object of [k] bytes from the space. *)
Lemma space_take {A} rs sp (m : gmap Z A) k v :
  space_ok rs sp m 1 -> 0 < k -> free_ptr sp + k <= end_ptr sp ->
  let a := free_ptr sp in
  m !! a = None /\ 4 * HBLKSZ <= a /\ inside rs a /\
  space_ok rs (mkSpace (spaces sp) (curr_space sp) (a + k) (end_ptr sp)) (<[a := v]> m) 1.
Proof.
  intros (H1 & H2 & H3) Hk He a. destruct (H2 a ltac:(unfold a; lia)) as [Hin Hlow]. split; [|split; [done|split; [done|]]].
  - destruct (m !! a) eqn:E; [|done]. destruct (H1 a ltac:(by eexists)) as [_ Hn]. unfold a in Hn. lia.
  - split; [|split; [|done]]; cbn [free_ptr end_ptr].
    + intros b Hb. destruct (decide (b = a)) as [->|Hne]; [split; [done|lia]|]. rewrite lookup_insert_ne in Hb by done.
      destruct (H1 b Hb) as [Hi Hnb]. split; [done|]. unfold a. lia.
    + intros b Hb. apply H2. unfold a in Hb. lia.
Qed.

(** What making an index block does: more regions, the space moved on, a zeroed block. *)
Definition bi_made (s s' : heap) (r : Z) : Prop :=
  exists rs sp, regions s ⊆ rs /\
    s' = set_hindex (set_bis (<[r := bi_zero]> (bis (hindex s))) (set_idx_space sp (hindex s))) (set_regions rs s) /\
    bis (hindex s) !! r = None /\ 4 * HBLKSZ <= r /\ inside rs r /\ space_ok rs sp (<[r := bi_zero]> (bis (hindex s))) 1.

Lemma wp_alloc_bi fuel : forall s,
  space_ok (regions s) (idx_space (hindex s)) (bis (hindex s)) 1 -> (1025 < fuel + length (spaces (idx_space (hindex s))))%nat ->
  wp True (alloc_bi fuel) s (fun r s' => bi_made s s' r).
Proof.
  induction fuel as [|fuel IH]; intros s Hs Hf; [destruct Hs as (_ & _ & _ & Hl); lia|].
  cbn [alloc_bi]. apply wp_bind, wp_gets. apply wp_if; intros Hb.
  - apply Z.leb_le in Hb. apply wp_bind, wp_mod, wp_ret.
    destruct (space_take _ _ _ sizeof_bottom_index bi_zero Hs ltac:(done) Hb) as (Ht1 & Ht2 & Ht3 & Ht4).
    eexists (regions s), _. split; [done|]. split; [|split_and!; [exact Ht1|exact Ht2|exact Ht3|exact Ht4]]. by destruct s as [? ? ? ? [] ? ? ? ?].
  - apply wp_bind, wp_mod. set (s1 := set_hindex _ s).
    assert (Hs1 : space_ok (regions s1) (idx_space (hindex s1)) (bis (hindex s1)) 0) by by apply space_next.
    apply wp_bind. pose proof Hs1 as (_ & _ & Hc & _).
    eapply wp_mono; [apply wp_scratch; lia|]. intros res s2 Hg. apply wp_bind. rewrite <- (andb_true_r (negb res)).
    eapply wp_mono; [eapply wp_retry; [|exact Hg]; lia|]. clear res s2 Hg. intros [] s2 Hg; cbn [negb]; [|by apply wp_throw].
    destruct Hg as (a & n & Ha & Hl & ->). eapply wp_mono.
    + apply IH; [exact (space_new _ _ _ _ _ Hs1 Hl Ha)|]. cbn. rewrite length_app. cbn. lia.
    + intros r s' (rs & sp & Hrs & -> & Hr). exists rs, sp. split; [cbn in Hrs; set_solver|]. split; [by destruct s as [? ? ? ? [] ? ? ? ?]|exact Hr].
Qed.

(** *** Making room *)

Lemma find_index_run s km asc hi l : forall fuel b,
  idx_ok (hindex s) km asc -> hchain (bis (hindex s)) (MAK_all_nils (hindex s)) b l -> (length l < fuel)%nat ->
  (forall y, km !! hi = Some y -> y ∈ l) ->
  find_index fuel hi b s = Ok (bool_decide (is_Some (km !! hi)), s).
Proof.
  intros fuel b I. revert fuel b. induction l as [|y l IH]; intros fuel b Hc Hf Hin; destruct fuel as [|fuel]; [cbn in Hf; lia|..|cbn in Hf; lia|]; cbn [find_index].
  - cbn in Hc. subst b. rewrite (cbind_Ok _ _ _ _ _ eq_refl), Z.eqb_refl. rewrite bool_decide_eq_false_2; [done|]. intros [y Hy]. by apply Hin, not_elem_of_nil in Hy.
  - destruct Hc as (-> & Hyn & x & Hx & Hc). rewrite (cbind_Ok _ _ _ _ _ eq_refl), (proj2 (Z.eqb_neq _ _) Hyn).
    unfold ld_bi at 1. unfold cbind at 1. rewrite Hx. destruct (ix_dom _ _ _ I y x Hx) as [|Hky]; [done|].
    destruct (Z.eqb_spec (bi_key x) hi) as [<-|Hne]; [by rewrite bool_decide_eq_true_2 by (by eexists)|].
    apply IH; [done|cbn in Hf; lia|]. intros z Hz. destruct (proj1 (elem_of_cons _ _ _) (Hin z Hz)) as [->|]; [|done].
    destruct (ix_km _ _ _ I _ _ Hz) as (_ & _ & _ & x' & Hx' & Hk). congruence.
Qed.

(** The walk to the place of a key: [l1] has smaller keys, [l2] does not. *)
Lemma find_place_run s hi l1 l2 : forall fuel p b,
  dls (nxt (bis (hindex s))) (prv (bis (hindex s))) p b (l1 ++ l2) 0 -> (forall y, y ∈ l1 ++ l2 -> is_Some (bis (hindex s) !! y)) ->
  (forall y, y ∈ l1 -> key_at (bis (hindex s)) y < hi) -> (forall y, head l2 = Some y -> hi <= key_at (bis (hindex s)) y) -> (length l1 < fuel)%nat ->
  find_place fuel hi p b s = Ok ((default p (last l1), default 0 (head l2)), s).
Proof.
  induction l1 as [|y l1 IH]; intros fuel p b Hl Hd Hk1 Hk2 Hf; destruct fuel as [|fuel]; [cbn in Hf; lia| |cbn in Hf; lia|]; cbn [find_place].
  - destruct l2 as [|y l2]; cbn in Hl; [by subst|]. destruct Hl as (-> & Hy & _). rewrite (proj2 (Z.eqb_neq _ _) Hy). cbn [default from_option id head].
    unfold ld_bi at 1. unfold cbind at 1. destruct (Hd y ltac:(left)) as [x Hx]. rewrite Hx. specialize (Hk2 y eq_refl). unfold key_at in Hk2. rewrite Hx in Hk2.
    by rewrite (proj2 (Z.ltb_ge _ _) Hk2).
  - cbn in Hl. destruct Hl as (-> & Hy & _ & Hl). rewrite (proj2 (Z.eqb_neq _ _) Hy). unfold ld_bi at 1. unfold cbind at 1. destruct (Hd y ltac:(left)) as [x Hx]. rewrite Hx.
    specialize (Hk1 y ltac:(left)) as Hky. unfold key_at in Hky. rewrite Hx in Hky. rewrite (proj2 (Z.ltb_lt _ _) Hky). unfold nxt in Hl at 2. rewrite Hx in Hl.
    rewrite (IH fuel y (asc_link x)); [|done|intros z Hz; apply Hd; by right|intros z Hz; apply Hk1; by right|done|cbn in Hf; lia].
    rewrite last_cons. by destruct (last l1).
Qed.

(** A sorted list has a place for every key. *)
Lemma split_at (key : Z -> Z) hi l : StronglySorted (fun a b => key a < key b) l ->
  exists l1 l2, l = l1 ++ l2 /\ (forall y, y ∈ l1 -> key y < hi) /\ (forall y, y ∈ l2 -> hi <= key y).
Proof.
  induction l as [|y l IH]; intros Hs; [exists [], []; split_and!; [done|..]; intros y Hy; by apply not_elem_of_nil in Hy|].
  inversion Hs as [|? ? Hs' Hf]; subst. destruct (decide (key y < hi)) as [Hy|Hy].
  - destruct (IH Hs') as (l1 & l2 & -> & H1 & H2). exists (y :: l1), l2. split_and!; [done| |done]. intros z [->|Hz]%elem_of_cons; [done|by apply H1].
  - exists [], (y :: l). split_and!; [done|intros z Hz; by apply not_elem_of_nil in Hz|]. rewrite list.Forall_forall in Hf.
    intros z [->|Hz]%elem_of_cons; [lia|specialize (Hf z Hz); lia].
Qed.

Lemma sorted_nodup (key : Z -> Z) l : StronglySorted (fun a b => key a < key b) l -> NoDup l.
Proof.
  induction 1 as [|y l Hs IH Hf]; [constructor|]. apply list.NoDup_cons. split; [|done]. intros Hy. rewrite list.Forall_forall in Hf. specialize (Hf y Hy). lia.
Qed.

Lemma sorted_app {A} (R : A -> A -> Prop) l1 r l2 :
  StronglySorted R (l1 ++ l2) -> (forall y, y ∈ l1 -> R y r) -> (forall y, y ∈ l2 -> R r y) -> StronglySorted R (l1 ++ r :: l2).
Proof.
  induction l1 as [|y l1 IH]; intros Hs H1 H2; cbn in *.
  - constructor; [done|]. by apply list.Forall_forall.
  - inversion Hs as [|? ? Hs' Hf]; subst. rewrite list.Forall_forall in Hf. constructor.
    + apply IH; [done| |done]. intros z Hz. apply H1. by right.
    + apply list.Forall_forall. intros z Hz. apply elem_of_app in Hz as [Hz|[->|Hz]%elem_of_cons].
      * apply Hf, elem_of_app. by left.
      * apply H1. left.
      * apply Hf, elem_of_app. by right.
Qed.

Lemma asc_dom x km asc y : idx_ok x km asc -> y ∈ asc -> is_Some (bis x !! y).
Proof. intros I Hy. apply (ix_all _ _ _ I) in Hy as (k & Hk). destruct (ix_km _ _ _ I _ _ Hk) as (_ & _ & _ & z & Hz & _). by eexists. Qed.

(** [x'] is [x] with the index block [r] for the key [hi] linked in between [l1] and [l2]. *)
Record inserted (x x' : index) (hi r : Z) (l1 l2 : list Z) : Prop := {
  in_nils : MAK_all_nils x' = MAK_all_nils x;
  in_new : bis x' !! r = Some (mkBi ∅ (default 0 (head l2)) (default 0 (last l1)) hi (top_at (TL_HASH hi) x));
  in_old : forall y, y <> r -> bis x' !! y =
    (fun b => mkBi (bi_index b) (if decide (last l1 = Some y) then r else asc_link b) (if decide (head l2 = Some y) then r else desc_link b) (bi_key b) (hash_link b)) <$> bis x !! y;
  in_top : MAK_top_index x' = <[TL_HASH hi := r]> (MAK_top_index x);
  in_first : MAK_all_bottom_indices x' = default r (head l1);
  in_last : MAK_all_bottom_indices_end x' = (if decide (l2 = []) then r else MAK_all_bottom_indices_end x) }.

Section insertion.
Context (x x' : index) (km : gmap Z Z) (hi r : Z) (l1 l2 : list Z).
Hypothesis I : idx_ok x km (l1 ++ l2).
Hypothesis HN : inserted x x' hi r l1 l2.
Hypothesis Hhi : km !! hi = None.
Hypothesis Hpos : 0 <= hi.
Hypothesis Hr : bis x !! r = None.
Hypothesis Hr0 : r <> 0.
Hypothesis Hlt : forall y, y ∈ l1 -> key_at (bis x) y < hi.
Hypothesis Hge : forall y, y ∈ l2 -> hi <= key_at (bis x) y.

Lemma ins_ne y : is_Some (bis x !! y) -> y <> r.
Proof. intros [w Hw] ->. congruence. Qed.

Lemma ins_old y b : bis x !! y = Some b -> exists b', bis x' !! y = Some b' /\ bi_index b' = bi_index b /\ bi_key b' = bi_key b /\ hash_link b' = hash_link b /\
  asc_link b' = (if decide (last l1 = Some y) then r else asc_link b) /\ desc_link b' = (if decide (head l2 = Some y) then r else desc_link b).
Proof. intros Hy. rewrite (in_old _ _ _ _ _ _ HN) by (apply ins_ne; by eexists). rewrite Hy. eexists. split; [reflexivity|done]. Qed.

Lemma ins_key y : is_Some (bis x !! y) -> key_at (bis x') y = key_at (bis x) y.
Proof. intros [b Hb]. destruct (ins_old y b Hb) as (b' & Hb' & _ & Hk & _). unfold key_at. by rewrite Hb, Hb'. Qed.

Lemma ins_nils_ne : MAK_all_nils x <> r.
Proof. apply ins_ne. destruct (ix_nils _ _ _ I) as [Hn _]. by eexists. Qed.

Lemma ins_r_notin : r ∉ l1 ++ l2.
Proof. intros Hin. destruct (asc_dom _ _ _ _ I Hin) as [b Hb]. congruence. Qed.

Lemma ins_nils_notin : MAK_all_nils x ∉ l1 ++ l2.
Proof. intros Hin. apply (ix_all _ _ _ I) in Hin as (k & Hk). by destruct (ix_km _ _ _ I _ _ Hk) as (_ & ? & _). Qed.

Lemma ins_hash i : 0 <= i < TOP_SZ -> exists l, hchain (bis x') (MAK_all_nils x') (top_at i x') l /\ NoDup l /\
    forall b, b ∈ l <-> exists k, <[hi := r]> km !! k = Some b /\ TL_HASH k = i.
Proof.
  intros Hi. destruct (ix_hash _ _ _ I i Hi) as (l & Hc & Hn & Hl). rewrite (in_nils _ _ _ _ _ _ HN).
  assert (Hc' : hchain (bis x') (MAK_all_nils x) (top_at i x) l).
  { eapply hchain_ext; [|exact Hc]. intros y b Hy Hb. destruct (ins_old y b Hb) as (b' & Hb' & _ & _ & Hh & _). eauto. }
  assert (Hrl : r ∉ l). { intros Hin. apply (hchain_dom _ _ _ _ _ Hc) in Hin as [b Hb]. congruence. }
  unfold top_at. rewrite (in_top _ _ _ _ _ _ HN), (in_nils _ _ _ _ _ _ HN). destruct (decide (TL_HASH hi = i)) as [Ei|Ei].
  - subst i. rewrite lookup_insert_eq. cbn [default from_option id]. exists (r :: l). split; [|split].
    + cbn. split; [done|]. split; [by apply not_eq_sym, ins_nils_ne|]. eexists. split; [exact (in_new _ _ _ _ _ _ HN)|done].
    + by apply list.NoDup_cons.
    + intros b. rewrite elem_of_cons, Hl. split.
      * intros [->|(k & Hk & Hh)]; [exists hi; by rewrite lookup_insert_eq|]. exists k. rewrite lookup_insert_ne by congruence. done.
      * intros (k & Hk & Hh). destruct (decide (k = hi)) as [->|Hne]; [rewrite lookup_insert_eq in Hk; left; congruence|].
        rewrite lookup_insert_ne in Hk by done. right. by exists k.
  - rewrite lookup_insert_ne by done. exists l. split; [exact Hc'|]. split; [done|]. intros b. rewrite Hl. split; intros (k & Hk & Hh); exists k; split; try done.
    + rewrite lookup_insert_ne by congruence. done.
    + destruct (decide (k = hi)) as [->|Hne]; [done|]. by rewrite lookup_insert_ne in Hk.
Qed.

Lemma ins_asc : dls (nxt (bis x')) (prv (bis x')) 0 (MAK_all_bottom_indices x') (l1 ++ r :: l2) 0.
Proof.
  rewrite (in_first _ _ _ _ _ _ HN). eapply dls_insert; [eapply sorted_nodup, ix_sorted, I|done|apply ins_r_notin|..|exact (ix_asc _ _ _ I)].
  - unfold nxt. by rewrite (in_new _ _ _ _ _ _ HN).
  - unfold prv. by rewrite (in_new _ _ _ _ _ _ HN).
  - intros y Hy. destruct (asc_dom _ _ _ _ I Hy) as [b Hb]. destruct (ins_old y b Hb) as (b' & Hb' & _ & _ & _ & Ha & _). unfold nxt. by rewrite Hb, Hb', Ha.
  - intros y Hy. destruct (asc_dom _ _ _ _ I Hy) as [b Hb]. destruct (ins_old y b Hb) as (b' & Hb' & _ & _ & _ & _ & Hd). unfold prv. by rewrite Hb, Hb', Hd.
Qed.

Lemma ins_sorted : StronglySorted (fun a b => key_at (bis x') a < key_at (bis x') b) (l1 ++ r :: l2).
Proof.
  assert (Hkr : key_at (bis x') r = hi) by (unfold key_at; by rewrite (in_new _ _ _ _ _ _ HN)).
  apply sorted_app.
  - eapply sorted_ext; [|exact (ix_sorted _ _ _ I)]. intros a b Ha Hb. rewrite !ins_key by (by eapply asc_dom). done.
  - intros y Hy. rewrite Hkr, ins_key by (eapply asc_dom; [done|set_solver]). by apply Hlt.
  - intros y Hy. rewrite Hkr. assert (Hy' : y ∈ l1 ++ l2) by set_solver. rewrite ins_key by (by eapply asc_dom). specialize (Hge y Hy).
    enough (key_at (bis x) y <> hi) by lia. intros E. apply (ix_all _ _ _ I) in Hy' as (k & Hk). destruct (ix_km _ _ _ I _ _ Hk) as (_ & _ & _ & b & Hb & Hkb).
    unfold key_at in E. rewrite Hb in E. congruence.
Qed.

Lemma idx_insert : idx_ok x' (<[hi := r]> km) (l1 ++ r :: l2).
Proof.
  split.
  - rewrite (in_nils _ _ _ _ _ _ HN). destruct (ix_nils _ _ _ I) as [Hn Hn0]. split; [|done]. rewrite (in_old _ _ _ _ _ _ HN) by apply ins_nils_ne. rewrite Hn. cbn.
    pose proof ins_nils_notin as Hni. rewrite !decide_False; [done|..].
    + intros Hh. apply Hni, elem_of_app. right. by apply head_Some_elem_of.
    + intros Hh. apply Hni, elem_of_app. left. by apply last_Some_elem_of.
  - intros k b Hb. rewrite (in_nils _ _ _ _ _ _ HN). destruct (decide (k = hi)) as [->|Hne].
    + rewrite lookup_insert_eq in Hb. injection Hb as <-. split_and!; [done|by apply not_eq_sym, ins_nils_ne|done|]. eexists. by split; [exact (in_new _ _ _ _ _ _ HN)|].
    + rewrite lookup_insert_ne in Hb by done. destruct (ix_km _ _ _ I _ _ Hb) as (H1 & H2 & H3 & y & Hy & Hk). split_and!; [done|done|done|].
      destruct (ins_old _ _ Hy) as (b' & Hb' & _ & Hk' & _). exists b'. split; [done|congruence].
  - intros b y Hy. rewrite (in_nils _ _ _ _ _ _ HN). destruct (decide (b = r)) as [->|Hne].
    + right. rewrite (in_new _ _ _ _ _ _ HN) in Hy. injection Hy as <-. cbn. by rewrite lookup_insert_eq.
    + rewrite (in_old _ _ _ _ _ _ HN) in Hy by done. apply fmap_Some in Hy as (b' & Hb' & ->). cbn. destruct (ix_dom _ _ _ I _ _ Hb') as [|Hk]; [by left|right].
      rewrite lookup_insert_ne by congruence. done.
  - apply ins_hash.
  - apply ins_asc.
  - rewrite (in_last _ _ _ _ _ _ HN), (ix_end _ _ _ I). case_decide as E; [subst l2; by rewrite last_snoc|]. rewrite !last_app, last_cons. by destruct (last l2) eqn:El; [|apply last_None in El].
  - apply ins_sorted.
  - intros b. rewrite elem_of_app, elem_of_cons. transitivity (b = r \/ b ∈ l1 ++ l2); [rewrite elem_of_app; tauto|]. rewrite (ix_all _ _ _ I b). split.
    + intros [->|(k & Hk)]; [exists hi; by rewrite lookup_insert_eq|]. exists k. rewrite lookup_insert_ne by congruence. done.
    + intros (k & Hk). destruct (decide (k = hi)) as [->|Hne]; [rewrite lookup_insert_eq in Hk; left; congruence|]. rewrite lookup_insert_ne in Hk by done. right. by exists k.
Qed.

Lemma ins_entry n : entry x' (<[hi := r]> km) n = entry x km n.
Proof.
  unfold entry. destruct (decide (n / BOTTOM_SZ = hi)) as [->|Hne].
  - rewrite lookup_insert_eq, (in_new _ _ _ _ _ _ HN), Hhi. done.
  - rewrite lookup_insert_ne by done. destruct (km !! (n / BOTTOM_SZ)) as [b|] eqn:Eb; [|done]. destruct (ix_km _ _ _ I _ _ Eb) as (_ & _ & _ & y & Hy & _).
    destruct (ins_old _ _ Hy) as (b' & -> & Hi & _). rewrite Hy. unfold index_at. by rewrite Hi.
Qed.

End insertion.

(** The state with the given index blocks and links. *)
Definition with_index (s : heap) (rs : list (Z * Z)) (sp : space) (top : gmap Z Z) (m : gmap Z bottom_index) (first last : Z) : heap :=
  set_hindex (mkIndex (MAK_all_nils (hindex s)) top m first last sp) (set_regions rs s).

Lemma wp_upd_bi T s rs sp top m first last b y f Q :
  m !! b = Some y -> Q tt (with_index s rs sp top (<[b := f y]> m) first last) -> wp T (upd_bi b f) (with_index s rs sp top m first last) Q.
Proof. intros Hb HQ. unfold wp, upd_bi, with_index. cbn [set_hindex hindex bis]. by rewrite Hb. Qed.

Lemma wp_set_top T s rs sp top m first last i r Q :
  Q tt (with_index s rs sp (<[i := r]> top) m first last) -> wp T (set_index (fun x => set_top (<[i := r]> (MAK_top_index x)) x)) (with_index s rs sp top m first last) Q.
Proof. done. Qed.

Lemma wp_set_last T s rs sp top m first last r Q :
  Q tt (with_index s rs sp top m first r) -> wp T (set_index (set_all_bottom_end r)) (with_index s rs sp top m first last) Q.
Proof. done. Qed.

Lemma wp_set_first T s rs sp top m first last r Q :
  Q tt (with_index s rs sp top m r last) -> wp T (set_index (set_all_bottom r)) (with_index s rs sp top m first last) Q.
Proof. done. Qed.

(** The links of [get_index], from the new block on. *)
Lemma wp_link_index T s rs sp hi r l1 l2 km top m0 fuel :
  let x := hindex s in
  idx_ok x km (l1 ++ l2) -> bis x !! r = None -> (length (l1 ++ l2) < fuel)%nat ->
  (forall y, y ∈ l1 -> key_at (bis x) y < hi) -> (forall y, y ∈ l2 -> hi <= key_at (bis x) y) ->
  top = MAK_top_index x -> m0 = <[r := bi_zero]> (bis x) ->
  wp T (upd_bi r (fun _ => bi_zero);;
     upd_bi r (bi_set_hash (top_at (TL_HASH hi) x));;
     set_index (fun x => set_top (<[TL_HASH hi := r]> (MAK_top_index x)) x);;
     upd_bi r (bi_set_key hi);;
     first <- cgets (fun s => MAK_all_bottom_indices (hindex s));
     '(pi, p) <- find_place fuel hi 0 first;
     upd_bi r (bi_set_desc pi);;
     (if p =? 0 then set_index (set_all_bottom_end r) else upd_bi p (bi_set_desc r));;
     upd_bi r (bi_set_asc p);;
     (if pi =? 0 then set_index (set_all_bottom r) else upd_bi pi (bi_set_asc r));;
     cret true)
    (with_index s rs sp top m0 (MAK_all_bottom_indices x) (MAK_all_bottom_indices_end x))
    (fun ok s' => ok = true /\ exists x', s' = set_hindex x' (set_regions rs s) /\ inserted x x' hi r l1 l2 /\ idx_space x' = sp /\ dom (bis x') = dom m0).
Proof.
  intros x I Hr Hf Hlt Hge -> ->.
  apply wp_bind. eapply wp_upd_bi; [apply lookup_insert_eq|]. rewrite insert_insert_eq.
  apply wp_bind. eapply wp_upd_bi; [apply lookup_insert_eq|]. rewrite insert_insert_eq. apply wp_bind, wp_set_top.
  apply wp_bind. eapply wp_upd_bi; [apply lookup_insert_eq|]. rewrite insert_insert_eq. apply wp_bind, wp_gets.
  set (y1 := bi_set_key hi _). pose proof (ix_asc _ _ _ I) as Ha.
  assert (Hn0 : forall y, y ∈ l1 ++ l2 -> y <> 0) by (intros y; by eapply dls_nonzero).
  assert (Hne : forall y, y ∈ l1 ++ l2 -> y <> r) by (intros y Hy ->; destruct (asc_dom _ _ _ _ I Hy); congruence).
  pose proof (sorted_nodup _ _ (ix_sorted _ _ _ I)) as Hnd. apply NoDup_app in Hnd as (_ & Hnd & _).
  apply wp_bind. eapply wp_ok.
  { apply (find_place_run _ hi l1 l2); cbn [with_index set_hindex hindex bis MAK_all_bottom_indices].
    - eapply dls_ext; [|exact Ha]. intros y Hy. unfold nxt, prv. rewrite lookup_insert_ne by (apply not_eq_sym, Hne, Hy). done.
    - intros y Hy. rewrite lookup_insert_ne by (apply not_eq_sym, Hne, Hy). by eapply asc_dom.
    - intros y Hy. unfold key_at. rewrite lookup_insert_ne by (apply not_eq_sym, Hne, elem_of_app; by left). by apply Hlt.
    - intros y Hy. apply head_Some_elem_of in Hy. unfold key_at. rewrite lookup_insert_ne by (apply not_eq_sym, Hne, elem_of_app; by right). by apply Hge.
    - rewrite length_app in Hf. lia. }
  cbn beta iota. apply wp_bind. eapply wp_upd_bi; [apply lookup_insert_eq|]. rewrite insert_insert_eq. apply wp_bind.
  apply (wp_mono _ _ _ (fun _ s' => exists m1, s' = with_index s rs sp (<[TL_HASH hi := r]> (MAK_top_index x)) (<[r := bi_set_desc (default 0 (last l1)) y1]> m1)
      (MAK_all_bottom_indices x) (if decide (l2 = []) then r else MAK_all_bottom_indices_end x) /\ dom m1 = dom (bis x) /\
      forall y, m1 !! y = (fun b => if decide (head l2 = Some y) then bi_set_desc r b else b) <$> bis x !! y)).
  { destruct l2 as [|p l2]; cbn [head default from_option id].
    - rewrite Z.eqb_refl. apply wp_set_last. exists (bis x). split; [done|]. split; [done|]. intros y. by destruct (bis x !! y).
    - rewrite (proj2 (Z.eqb_neq _ _)) by (apply Hn0; set_solver). assert (Hp : p ∈ l1 ++ p :: l2) by set_solver.
      destruct (asc_dom _ _ _ _ I Hp) as [b Hb]. eapply wp_upd_bi; [rewrite lookup_insert_ne by (apply not_eq_sym, Hne, Hp); exact Hb|].
      exists (<[p := bi_set_desc r b]> (bis x)). split; [by rewrite insert_insert_ne by (specialize (Hne p Hp); congruence)|].
      split; [rewrite dom_insert_L; apply elem_of_dom_2 in Hb; set_solver|]. intros y. destruct (decide (y = p)) as [->|Hyp].
      + rewrite lookup_insert_eq, Hb. cbn. by rewrite decide_True.
      + rewrite lookup_insert_ne by done. destruct (bis x !! y); [cbn; by rewrite decide_False by congruence|done]. }
  intros [] s' (m1 & -> & Hd1 & Hm1). apply wp_bind. eapply wp_upd_bi; [apply lookup_insert_eq|]. rewrite insert_insert_eq. apply wp_bind.
  assert (Hm1r : m1 !! r = None) by (rewrite Hm1, Hr; done).
  set (y2 := bi_set_asc _ _). apply (wp_mono _ _ _ (fun _ s' => exists m2, s' = with_index s rs sp (<[TL_HASH hi := r]> (MAK_top_index x)) (<[r := y2]> m2)
      (default r (head l1)) (if decide (l2 = []) then r else MAK_all_bottom_indices_end x) /\ dom m2 = dom (bis x) /\
      forall y, m2 !! y = (fun b => if decide (last l1 = Some y) then bi_set_asc r b else b) <$> m1 !! y)).
  { destruct (last l1) as [p|] eqn:El; cbn [default from_option id].
    - assert (Hp : p ∈ l1 ++ l2) by (apply elem_of_app; left; by apply last_Some_elem_of). rewrite (proj2 (Z.eqb_neq _ _)) by (by apply Hn0).
      destruct (asc_dom _ _ _ _ I Hp) as [b0 Hb0]. assert (Hb : exists b, m1 !! p = Some b) by (rewrite Hm1, Hb0; by eexists). destruct Hb as [b Hb].
      eapply wp_upd_bi; [rewrite lookup_insert_ne by (apply not_eq_sym, Hne, Hp); exact Hb|].
      exists (<[p := bi_set_asc r b]> m1). split; [|split].
      + rewrite insert_insert_ne by (specialize (Hne p Hp); congruence). f_equal. rewrite (dls_head _ _ _ _ _ _ Ha). by destruct l1.
      + rewrite dom_insert_L, <- Hd1. apply elem_of_dom_2 in Hb. set_solver.
      + intros y. destruct (decide (y = p)) as [->|Hyp]; [rewrite lookup_insert_eq, Hb; cbn; by rewrite decide_True|].
        rewrite lookup_insert_ne by done. destruct (m1 !! y); [cbn; by rewrite decide_False by congruence|done].
    - apply last_None in El. subst l1. rewrite Z.eqb_refl. apply wp_set_first. exists m1. split; [done|]. split; [done|]. intros y. by destruct (m1 !! y). }
  intros [] s' (m2 & -> & Hd2 & Hm2). apply wp_ret. split; [done|]. eexists. split; [reflexivity|]. cbn [idx_space bis]. split; [|split; [done|]].
  - split; cbn [MAK_all_nils bis MAK_top_index MAK_all_bottom_indices MAK_all_bottom_indices_end]; try done.
    + by rewrite lookup_insert_eq.
    + intros y Hy. rewrite lookup_insert_ne by done. rewrite Hm2, Hm1. destruct (bis x !! y) as [[]|]; [|done]. cbn. by repeat case_decide.
  - rewrite !dom_insert_L. by rewrite Hd2.
Qed.

(** ** The index as a function from block numbers to words *)

Definition irep (s : heap) (E : Z -> Z) : Prop :=
  exists km asc, idx_ok (hindex s) km asc /\ (forall n, entry (hindex s) km n = E n) /\
    space_ok (regions s) (idx_space (hindex s)) (bis (hindex s)) 1.

(** There is an index block for the block number. *)
Definition known (s : heap) (n : Z) : Prop :=
  exists b y, bis (hindex s) !! b = Some y /\ b <> MAK_all_nils (hindex s) /\ bi_key y = n / BOTTOM_SZ.

Lemma known_km s km asc n : idx_ok (hindex s) km asc -> known s n <-> is_Some (km !! (n / BOTTOM_SZ)).
Proof.
  intros I. split.
  - intros (b & y & Hy & Hn & Hk). destruct (ix_dom _ _ _ I _ _ Hy) as [|Hb]; [done|]. rewrite Hk in Hb. by eexists.
  - intros [b Hb]. destruct (ix_km _ _ _ I _ _ Hb) as (_ & Hn & _ & y & Hy & Hk). by exists b, y.
Qed.

Lemma known_nonzero s E n : irep s E -> E n <> 0 -> known s n.
Proof.
  intros (km & asc & I & HE & _) Hn. apply (known_km s km asc n I). rewrite <- HE in Hn. unfold entry in Hn. destruct (km !! (n / BOTTOM_SZ)); [by eexists|done].
Qed.

(** The state differs from [s] in the index and the regions it has. *)
Definition index_of (s s' : heap) : Prop :=
  exists x rs, s' = set_hindex x (set_regions rs s) /\ regions s ⊆ rs /\ (forall n, known s n -> known s' n).

Lemma index_of_refl s : index_of s s.
Proof. exists (hindex s), (regions s). split; [by destruct s|done]. Qed.

Lemma index_of_trans s1 s2 s3 : index_of s1 s2 -> index_of s2 s3 -> index_of s1 s3.
Proof.
  intros (x & rs & -> & H1 & K1) (x' & rs' & -> & H2 & K2). exists x', rs'. split; [done|]. split; [by etrans|auto].
Qed.

Lemma wp_HDR T s E p Q : irep s E -> Q (E (bno p)) s -> wp T (HDR p) s Q.
Proof. intros (km & asc & I & HE & _) HQ. eapply wp_ok; [by apply (HDR_run s km asc)|]. by rewrite HE. Qed.

Definition upd (E : Z -> Z) (n v : Z) : Z -> Z := fun m => if decide (m = n) then v else E m.

Lemma wp_SET_HDR T s E p v Q :
  irep s E -> known s (bno p) -> (forall x', irep (set_hindex x' s) (upd E (bno p) v) -> index_of s (set_hindex x' s) -> Q tt (set_hindex x' s)) -> wp T (SET_HDR p v) s Q.
Proof.
  intros (km & asc & I & HE & Hs) Hk HQ. apply (known_km s km asc _ I) in Hk as Hb. destruct Hb as [b Hb].
  destruct (SET_HDR_run s km asc p v b I Hb) as (x' & Hrun & I' & Hw & Hsp & Hd & Hn). eapply wp_ok; [exact Hrun|]. apply HQ.
  - exists km, asc. cbn [set_hindex hindex regions]. split; [done|]. split.
    + intros m. rewrite Hw, HE. done.
    + rewrite Hsp. destruct Hs as (H1 & H2 & H3). split; [|split; [exact H2|exact H3]]. intros a Ha. apply H1. apply elem_of_dom. rewrite <- Hd. by apply elem_of_dom.
  - exists x', (regions s). split; [by destruct s|]. split; [done|]. intros n Hkn. apply (known_km s km asc n I) in Hkn. by apply (known_km (set_hindex x' s) km asc n I').
Qed.

Lemma asc_length x km asc : idx_ok x km asc -> (length asc < size (bis x))%nat.
Proof.
  intros I. destruct (ix_nils _ _ _ I) as [Hn _]. enough (length (MAK_all_nils x :: asc) <= size (bis x))%nat by (cbn in *; lia). apply nodup_size.
  - apply list.NoDup_cons. split; [|eapply sorted_nodup, ix_sorted, I]. intros Hin. apply (ix_all _ _ _ I) in Hin as (k & Hk). by destruct (ix_km _ _ _ I _ _ Hk) as (_ & ? & _).
  - intros y [->|Hy]%elem_of_cons; [by eexists|by apply (asc_dom _ _ _ _ I)].
Qed.

Lemma wp_get_index s E a : irep s E -> 0 <= a ->
  wp True (get_index a) s (fun ok s' => ok = true /\ irep s' E /\ known s' (bno a) /\ index_of s s').
Proof.
  intros Hi Ha. pose proof Hi as (km & asc & I & HE & Hs). unfold get_index. apply wp_bind, wp_gets.
  assert (Hpos : 0 <= bno a / BOTTOM_SZ) by (unfold bno, HBLKSZ, BOTTOM_SZ; apply Z.div_pos; [apply Z.div_pos|]; lia).
  rewrite top_bits_eq. set (hi := bno a / BOTTOM_SZ) in *. destruct (ix_hash _ _ _ I (TL_HASH hi) (hash_range hi)) as (l & Hc & Hn & Hl).
  apply wp_bind, wp_gets. apply wp_bind. eapply wp_ok.
  { apply (find_index_run s km asc hi l); [done|done| |].
    - unfold bi_fuel. pose proof (chain_fuel _ _ _ _ _ I Hc Hn). lia.
    - intros y Hy. apply Hl. by exists hi. }
  apply wp_if; intros Hd.
  - apply bool_decide_eq_true in Hd. apply wp_ret. split; [done|]. split; [done|]. split; [by apply (known_km s km asc)|apply index_of_refl].
  - apply bool_decide_eq_false, eq_None_not_Some in Hd. apply wp_bind. eapply wp_mono.
    { apply wp_alloc_bi; [done|]. unfold ALLOC_FUEL. lia. }
    intros r s1 (rs & sp & Hrs & -> & Hr & Hlow & Hin & Hsp). destruct (split_at _ hi _ (ix_sorted _ _ _ I)) as (l1 & l2 & -> & Hlt & Hge).
    eapply wp_mono.
    { apply (wp_link_index True s rs sp hi r l1 l2 km (MAK_top_index (hindex s))); try done. unfold bi_fuel. apply asc_length in I. lia. }
    intros ok s' (-> & x' & -> & HN & Hsp' & Hdom). split; [done|].
    assert (Hr0 : r <> 0) by (unfold HBLKSZ in Hlow; lia).
    assert (I' : idx_ok x' (<[hi := r]> km) (l1 ++ r :: l2)) by (by eapply idx_insert).
    split; [|split].
    + exists (<[hi := r]> km), (l1 ++ r :: l2). cbn [set_hindex set_regions hindex regions]. split; [done|]. split.
      * intros n. erewrite ins_entry by done. done.
      * rewrite Hsp'. destruct Hsp as (H1 & H2 & H3). split; [|split; [exact H2|exact H3]]. intros b Hb. apply H1, elem_of_dom. rewrite <- Hdom. by apply elem_of_dom.
    + apply (known_km (set_hindex x' (set_regions rs s)) _ _ _ I'). fold hi. rewrite lookup_insert_eq. by eexists.
    + exists x', rs. split; [done|]. split; [done|]. intros n Hk. apply (known_km _ _ _ n I) in Hk as [b Hb]. apply (known_km (set_hindex x' (set_regions rs s)) _ _ n I').
      destruct (decide (n / BOTTOM_SZ = hi)) as [->|Hne]; [rewrite lookup_insert_eq|rewrite lookup_insert_ne by done]; by eexists.
Qed.

End heap.

(** ** Makalu: the block before an address

    [MAK_prev_block] walks the index downwards, over forwarding counts, and finds the last block
    that has a header. *)

(** A block number has a header. *)
Definition has_hdr (E : Z -> Z) (n : Z) : Prop := MAX_JUMP < E n.

(** A forwarding count does not lead over a header. *)
Definition counts_ok (E : Z -> Z) : Prop :=
  forall n, 0 <= E n /\ (0 < E n <= MAX_JUMP -> forall m, n - E n < m <= n -> ~ has_hdr E m).

(** [r] is the address of the last block with a header among the numbers from [lo] to [hi]. *)
Definition last_hdr (E : Z -> Z) (lo hi : Z) (r : option Z) : Prop :=
  match r with
  | Some p => exists n, p = n * HBLKSZ /\ lo <= n <= hi /\ has_hdr E n /\ forall m, n < m <= hi -> ~ has_hdr E m
  | None => forall m, lo <= m <= hi -> ~ has_hdr E m
  end.

Section heap.
Context `{!PersistentMem}.

Lemma prev_in_run s E y : forall fuel j,
  counts_ok E -> (forall i, 0 <= i < BOTTOM_SZ -> index_at i y = E (bi_key y * BOTTOM_SZ + i)) -> j + 1 < Z.of_nat fuel -> j < BOTTOM_SZ -> (0 < fuel)%nat ->
  exists r, prev_in fuel y j s = Ok (r, s) /\ last_hdr E (bi_key y * BOTTOM_SZ) (bi_key y * BOTTOM_SZ + j) r.
Proof.
  induction fuel as [|fuel IH]; intros j Hc Hy Hf Hj H0; [lia|]. cbn [prev_in]. destruct (Z.ltb_spec j 0) as [Hneg|Hpos].
  - exists None. split; [done|]. cbn. intros m Hm. lia.
  - assert (Hskip : forall d, 0 < d -> (forall m, bi_key y * BOTTOM_SZ + j - d < m <= bi_key y * BOTTOM_SZ + j -> ~ has_hdr E m) ->
      exists r, prev_in fuel y (j - d) s = Ok (r, s) /\ last_hdr E (bi_key y * BOTTOM_SZ) (bi_key y * BOTTOM_SZ + j) r).
    { intros d Hd Hm. destruct (IH (j - d) Hc Hy ltac:(lia) ltac:(lia) ltac:(lia)) as (r & Hr & Hl). exists r. split; [done|]. destruct r as [p|]; cbn in *.
      - destruct Hl as (n & -> & Hn & Hh & Hl). exists n. split_and!; [done|lia|lia|done|]. intros m Hmn. destruct (decide (m <= bi_key y * BOTTOM_SZ + (j - d))); [apply Hl; lia|apply Hm; lia].
      - intros m Hmn. destruct (decide (m <= bi_key y * BOTTOM_SZ + (j - d))); [apply Hl; lia|apply Hm; lia]. }
    rewrite (Hy j) by lia. destruct (Hc (bi_key y * BOTTOM_SZ + j)) as [Hge Hcnt]. unfold has_hdr, IS_FORWARDING_ADDR_OR_NIL in *.
    destruct (Z.eqb_spec (E (bi_key y * BOTTOM_SZ + j)) 0) as [E0|E0].
    + apply Hskip; [lia|]. intros m Hm. replace m with (bi_key y * BOTTOM_SZ + j) by lia. rewrite E0. unfold MAX_JUMP, HBLKSZ. lia.
    + destruct (Z.leb_spec (E (bi_key y * BOTTOM_SZ + j)) MAX_JUMP) as [Hle|Hgt].
      * apply Hskip; [lia|]. apply Hcnt. lia.
      * eexists. split; [reflexivity|]. rewrite block_of_eq. eexists. split; [reflexivity|]. split; [lia|]. split; [done|]. intros m Hm. lia.
Qed.

Lemma scan_fuel j : j < BOTTOM_SZ -> j + 1 < Z.of_nat SCAN_FUEL /\ (0 < SCAN_FUEL)%nat.
Proof.
  assert (E : Z.of_nat SCAN_FUEL = 1025) by (vm_compute; reflexivity). unfold BOTTOM_SZ. rewrite E. split; [lia|]. apply Nat2Z.inj_lt. rewrite E. done.
Qed.
#[local] Opaque SCAN_FUEL.

Lemma last_hdr_more E lo mid hi r : last_hdr E lo mid r -> (forall m, mid < m <= hi -> ~ has_hdr E m) -> mid <= hi -> last_hdr E lo hi r.
Proof.
  destruct r as [p|]; cbn.
  - intros (n & -> & Hn & Hh & Hl) Hm Hle. exists n. split_and!; [done|lia|lia|done|]. intros m Hmn. destruct (decide (m <= mid)); [apply Hl; lia|apply Hm; lia].
  - intros Hl Hm Hle m Hmn. destruct (decide (m <= mid)); [apply Hl; lia|apply Hm; lia].
Qed.

Lemma last_hdr_lower E lo lo' hi p : last_hdr E lo hi (Some p) -> lo' <= lo -> last_hdr E lo' hi (Some p).
Proof. intros (n & -> & Hn & Hh & Hl) Hlo. exists n. split_and!; [done|lia|lia|done|done]. Qed.

(** Block numbers with headers have index blocks. *)
Lemma hdr_known x km asc E n : idx_ok x km asc -> (forall n, entry x km n = E n) -> has_hdr E n -> exists b, km !! (n / BOTTOM_SZ) = Some b.
Proof.
  intros I HE Hh. destruct (km !! (n / BOTTOM_SZ)) eqn:Eb; [by eexists|]. unfold has_hdr in Hh. rewrite <- HE in Hh. unfold entry in Hh. rewrite Eb in Hh.
  unfold MAX_JUMP, HBLKSZ in Hh. lia.
Qed.

Lemma words_of x km asc E b y : idx_ok x km asc -> (forall n, entry x km n = E n) -> bis x !! b = Some y -> b <> MAK_all_nils x ->
  forall i, 0 <= i < BOTTOM_SZ -> index_at i y = E (bi_key y * BOTTOM_SZ + i).
Proof.
  intros I HE Hb Hn i Hi. rewrite <- HE. unfold entry. destruct (ix_dom _ _ _ I _ _ Hb) as [|Hk]; [done|]. unfold BOTTOM_SZ in *.
  rewrite Z.div_add_l, Z.div_small, Z.add_0_r by lia. rewrite Hk, Hb. rewrite Z.add_comm, Z_mod_plus_full, Z.mod_small by lia. done.
Qed.

(** The keys of the index blocks before [b]. *)
Lemma sorted_before (key : Z -> Z) l1 b l2 : StronglySorted (fun a b => key a < key b) (l1 ++ b :: l2) ->
  (forall y, y ∈ l1 -> key y < key b) /\ (forall y, y ∈ l2 -> key b < key y).
Proof.
  induction l1 as [|z l1 IH]; cbn; intros Hs; inversion Hs as [|? ? Hs' Hf]; subst; rewrite list.Forall_forall in Hf.
  - split; [intros y Hy; by apply not_elem_of_nil in Hy|done].
  - destruct (IH Hs') as [H1 H2]. split; [|done]. intros y [->|Hy]%elem_of_cons; [apply Hf; set_solver|by apply H1].
Qed.

(** No header between the slots of the block before [b] and those of [b]. *)
Lemma gap x km l1 b l2 y E : idx_ok x km (l1 ++ b :: l2) -> (forall n, entry x km n = E n) -> bis x !! b = Some y ->
  forall m, (match last l1 with Some b' => (key_at (bis x) b' + 1) * BOTTOM_SZ <= m | None => True end) -> m < bi_key y * BOTTOM_SZ -> ~ has_hdr E m.
Proof.
  intros I HE Hb m Hlo Hhi Hh. destruct (hdr_known _ _ _ _ _ I HE Hh) as (c & Hc). destruct (ix_km _ _ _ I _ _ Hc) as (_ & _ & _ & z & Hz & Hkz).
  assert (Hin : c ∈ l1 ++ b :: l2) by (apply (ix_all _ _ _ I); by eexists). destruct (sorted_before _ _ _ _ (ix_sorted _ _ _ I)) as [_ Hs2].
  assert (Hkb : key_at (bis x) b = bi_key y) by (unfold key_at; by rewrite Hb). assert (Hkc : key_at (bis x) c = m / BOTTOM_SZ) by (unfold key_at; by rewrite Hz).
  unfold BOTTOM_SZ in *. pose proof (Z.div_mod m 1024 ltac:(done)). pose proof (Z.mod_pos_bound m 1024 ltac:(done)).
  apply elem_of_app in Hin as [Hin|[->|Hin]%elem_of_cons]; [|lia|specialize (Hs2 c Hin); lia].
  destruct l1 as [|z' l1 _] using rev_ind; [by apply not_elem_of_nil in Hin|]. rewrite last_snoc in Hlo.
  rewrite <- app_assoc in I. cbn in I. destruct (sorted_before _ _ _ _ (ix_sorted _ _ _ I)) as [Hs1 _].
  apply elem_of_app in Hin as [Hin| ->%list_elem_of_singleton]; [specialize (Hs1 c Hin)|]; lia.
Qed.

(** The link down from [b]. *)
Lemma desc_of x km l1 b l2 y : idx_ok x km (l1 ++ b :: l2) -> bis x !! b = Some y -> desc_link y = default 0 (last l1).
Proof.
  intros I Hb. pose proof (ix_asc _ _ _ I) as Ha. apply dls_app in Ha as (c & _ & -> & _ & Hp & _). unfold prv in Hp. by rewrite Hb in Hp.
Qed.

Lemma prev_from_run s E km l1 : forall fuel b l2 j y,
  counts_ok E -> idx_ok (hindex s) km (l1 ++ b :: l2) -> (forall n, entry (hindex s) km n = E n) -> bis (hindex s) !! b = Some y -> 0 <= j < BOTTOM_SZ ->
  (S (length l1) < fuel)%nat ->
  exists r, prev_from fuel b j s = Ok (default 0 r, s) /\ last_hdr E 0 (bi_key y * BOTTOM_SZ + j) r.
Proof.
  induction l1 as [|b' l1 IH] using rev_ind; intros fuel b l2 j y Hc I HE Hb Hj Hf; (destruct fuel as [|fuel]; [lia|]); cbn [prev_from].
  all: assert (Hbin : exists k, km !! k = Some b) by (apply (ix_all _ _ _ I); set_solver); destruct Hbin as (k & Hk);
    destruct (ix_km _ _ _ I _ _ Hk) as (Hk0 & Hbn & Hb0 & y' & Hy' & Hky); assert (y' = y) as -> by congruence;
    rewrite (proj2 (Z.eqb_neq _ _) Hb0); unfold ld_bi at 1, cbind at 1; rewrite Hb;
    destruct (prev_in_run s E y SCAN_FUEL j Hc (words_of _ _ _ _ _ _ I HE Hb Hbn) (proj1 (scan_fuel j (proj2 Hj))) (proj2 Hj) (proj2 (scan_fuel j (proj2 Hj)))) as (r & Hr & Hl);
    rewrite (cbind_Ok _ _ _ _ _ Hr); (destruct r as [p|]; [exists (Some p); split; [done|]; eapply last_hdr_lower; [exact Hl|unfold BOTTOM_SZ; lia]|]);
    rewrite (desc_of _ _ _ _ _ _ I Hb).
  - destruct fuel as [|fuel]; [cbn in Hf; lia|]. exists None. split; [done|]. cbn in Hl |- *. intros m Hm.
    destruct (decide (bi_key y * BOTTOM_SZ <= m)); [apply Hl; lia|]. eapply (gap _ _ [] b l2); [exact I|exact HE|exact Hb|done|lia].
  - rewrite last_snoc. cbn [default from_option id]. rewrite <- app_assoc in I. cbn in I. destruct (asc_dom _ _ _ b' I) as [z Hz]; [set_solver|].
    destruct (IH fuel b' (b :: l2) (BOTTOM_SZ - 1) z Hc I HE Hz ltac:(unfold BOTTOM_SZ; lia)) as (r & Hrun & Hr').
    { rewrite length_app in Hf. cbn in Hf. lia. }
    assert (Hzy : bi_key z < bi_key y).
    { destruct (sorted_before _ _ _ _ (ix_sorted _ _ _ I)) as [_ Hs2]. specialize (Hs2 b ltac:(left)). unfold key_at in Hs2. by rewrite Hz, Hb in Hs2. }
    exists r. split; [exact Hrun|]. eapply last_hdr_more; [exact Hr'| |unfold BOTTOM_SZ; lia]. intros m Hm. cbn in Hl.
    destruct (decide (bi_key y * BOTTOM_SZ <= m)); [apply Hl; lia|]. eapply (gap _ _ (l1 ++ [b']) b l2); [rewrite <- app_assoc; exact I|exact HE|exact Hb| |lia].
    rewrite last_snoc. unfold key_at. rewrite Hz. unfold BOTTOM_SZ in *. lia.
Qed.

Lemma desc_below_run s km hi l1 l2 : forall l3 fuel,
  idx_ok (hindex s) km (l1 ++ l2 ++ l3) -> (forall y, y ∈ l1 -> key_at (bis (hindex s)) y <= hi) -> (forall y, y ∈ l2 -> hi < key_at (bis (hindex s)) y) ->
  (length l2 < fuel)%nat -> desc_below fuel hi (default 0 (last (l1 ++ l2))) s = Ok (default 0 (last l1), s).
Proof.
  induction l2 as [|b l2 IH] using rev_ind; intros l3 fuel I H1 H2 Hf; (destruct fuel as [|fuel]; [lia|]); cbn [desc_below].
  - rewrite app_nil_r. destruct (last l1) as [b|] eqn:El; [|done]. cbn [default from_option id]. apply last_Some_elem_of in El as Hb.
    rewrite (proj2 (Z.eqb_neq _ _)) by (eapply dls_nonzero; [exact (ix_asc _ _ _ I)|set_solver]). destruct (asc_dom _ _ _ b I) as [y Hy]; [set_solver|].
    specialize (H1 b Hb). unfold key_at in H1. rewrite Hy in H1. unfold ld_bi at 1, cbind at 1. by rewrite Hy, (proj2 (Z.ltb_ge _ _) H1).
  - rewrite app_assoc, last_snoc. cbn [default from_option id]. rewrite (proj2 (Z.eqb_neq _ _)) by (eapply dls_nonzero; [exact (ix_asc _ _ _ I)|set_solver]).
    destruct (asc_dom _ _ _ b I) as [y Hy]; [set_solver|]. specialize (H2 b ltac:(set_solver)) as Hk. unfold key_at in Hk. rewrite Hy in Hk.
    unfold ld_bi at 1, cbind at 1. rewrite Hy, (proj2 (Z.ltb_lt _ _) Hk). assert (I' : idx_ok (hindex s) km ((l1 ++ l2) ++ b :: l3)) by (rewrite <- app_assoc in I |- *; exact I).
    rewrite (desc_of _ _ _ _ _ _ I' Hy). apply (IH (b :: l3)); [rewrite <- app_assoc in I'; exact I'|done| |].
    + intros z Hz. apply H2. set_solver.
    + rewrite length_app in Hf. cbn in Hf. lia.
Qed.

(** A block with a header belongs to one of the index blocks with small keys. *)
Lemma hdr_low x km l1 l2 E m hi : idx_ok x km (l1 ++ l2) -> (forall n, entry x km n = E n) -> (forall y, y ∈ l2 -> hi + 1 <= key_at (bis x) y) ->
  has_hdr E m -> m / BOTTOM_SZ <= hi -> exists c, c ∈ l1 /\ key_at (bis x) c = m / BOTTOM_SZ /\ km !! (m / BOTTOM_SZ) = Some c.
Proof.
  intros I HE H2 Hh Hm. destruct (hdr_known _ _ _ _ _ I HE Hh) as (c & Hc). destruct (ix_km _ _ _ I _ _ Hc) as (_ & _ & _ & z & Hz & Hkz).
  assert (Hk : key_at (bis x) c = m / BOTTOM_SZ) by (unfold key_at; by rewrite Hz). exists c. split; [|done].
  assert (Hin : c ∈ l1 ++ l2) by (apply (ix_all _ _ _ I); by eexists). apply elem_of_app in Hin as [|Hin]; [done|]. specialize (H2 c Hin). lia.
Qed.

(** [MAK_prev_block] finds the last block with a header. *)
Lemma prev_block_run s E p : irep s E -> counts_ok E -> 0 <= p ->
  exists r, MAK_prev_block p s = Ok (default 0 r, s) /\ last_hdr E 0 (bno p) r.
Proof.
  intros (km & asc & I & HE & _) Hc Hp. unfold MAK_prev_block. rewrite (cbind_Ok _ _ _ _ _ eq_refl), (cbind_Ok _ _ _ _ _ (GET_BI_run s km asc p I)), (cbind_Ok _ _ _ _ _ eq_refl).
  rewrite top_bits_eq, bottom_bits_eq. set (hi := bno p / BOTTOM_SZ). pose proof (asc_length _ _ _ I) as Hlen. assert (Hfu : bi_fuel s = S (size (bis (hindex s)))) by done.
  pose proof (Z.div_mod (bno p) BOTTOM_SZ ltac:(done)) as Hdm. pose proof (Z.mod_pos_bound (bno p) BOTTOM_SZ ltac:(done)) as Hmb. fold hi in Hdm.
  destruct (km !! hi) as [b|] eqn:Eb; cbn [default from_option id].
  - destruct (ix_km _ _ _ I _ _ Eb) as (_ & Hbn & _ & y & Hy & Hk). rewrite (proj2 (Z.eqb_neq _ _) Hbn).
    assert (Hb : b ∈ asc) by (apply (ix_all _ _ _ I); by eexists). apply list_elem_of_split in Hb as (l1 & l2 & ->).
    destruct (prev_from_run s E km l1 (bi_fuel s) b l2 (bno p mod BOTTOM_SZ) y Hc I HE Hy Hmb) as (r & Hr & Hl).
    { rewrite length_app in Hlen. cbn in Hlen. lia. }
    exists r. split; [done|]. rewrite Hk in Hl. by replace (bno p) with (hi * BOTTOM_SZ + bno p mod BOTTOM_SZ) by lia.
  - rewrite Z.eqb_refl, (cbind_Ok _ _ _ _ _ eq_refl), (ix_end _ _ _ I). destruct (split_at _ (hi + 1) _ (ix_sorted _ _ _ I)) as (l1 & l2 & -> & H1 & H2).
    rewrite (cbind_Ok _ _ _ _ _ (desc_below_run s km hi l1 l2 [] (bi_fuel s) ltac:(by rewrite app_nil_r) ltac:(intros y Hy; specialize (H1 y Hy); lia) ltac:(intros y Hy; specialize (H2 y Hy); lia) ltac:(rewrite length_app in Hlen; lia))).
    destruct (last l1) as [b|] eqn:El; cbn [default from_option id].
    + destruct l1 as [|b' l1 _] using rev_ind; [done|]. rewrite last_snoc in El. injection El as ->. rewrite <- app_assoc in I. cbn in I.
      destruct (asc_dom _ _ _ b I) as [y Hy]; [set_solver|]. specialize (H1 b ltac:(set_solver)). unfold key_at in H1. rewrite Hy in H1.
      destruct (prev_from_run s E km l1 (bi_fuel s) b l2 (BOTTOM_SZ - 1) y Hc I HE Hy ltac:(unfold BOTTOM_SZ; lia)) as (r & Hr & Hl).
      { rewrite <- app_assoc, length_app in Hlen. cbn in Hlen. lia. }
      exists r. split; [done|]. assert (Hne : bi_key y <> hi) by (destruct (ix_dom _ _ _ I _ _ Hy) as [->|Hk']; [|congruence];
        exfalso; assert (Hin : MAK_all_nils (hindex s) ∈ l1 ++ MAK_all_nils (hindex s) :: l2) by set_solver; apply (ix_all _ _ _ I) in Hin as (k & Hk); by destruct (ix_km _ _ _ I _ _ Hk) as (_ & ? & _)).
      eapply last_hdr_more; [exact Hl| |unfold BOTTOM_SZ in *; lia].
      intros m Hm Hh. assert (Hmh : m / BOTTOM_SZ <= hi) by (apply Z.div_le_mono; [done|lia]).
      destruct (hdr_low _ _ (l1 ++ [b]) l2 _ m hi ltac:(by rewrite <- app_assoc) HE H2 Hh Hmh) as (c & Hc1 & Hck & Hkm).
      assert (Hle : key_at (bis (hindex s)) c <= bi_key y).
      { apply elem_of_app in Hc1 as [Hc1| ->%list_elem_of_singleton]; [|unfold key_at; rewrite Hy; lia]. destruct (sorted_before _ _ _ _ (ix_sorted _ _ _ I)) as [Hs1 _].
        specialize (Hs1 c Hc1). unfold key_at in Hs1 at 2. rewrite Hy in Hs1. lia. }
      unfold BOTTOM_SZ in *. pose proof (Z.div_mod m 1024 ltac:(done)). pose proof (Z.mod_pos_bound m 1024 ltac:(done)). lia.
    + apply last_None in El. subst l1. rewrite Hfu. exists None. split; [done|]. cbn. intros m Hm Hh.
      destruct (hdr_low _ _ [] l2 _ m hi I HE H2 Hh ltac:(apply Z.div_le_mono; [done|lia])) as (c & Hc1 & _). by apply not_elem_of_nil in Hc1.
Qed.

End heap.
