(* ===== verification/MakSegs.v ===== *)
(** * Makalu: the runs of blocks of the heap

    The invariant of the block heap. The heap is a map from block numbers to runs of blocks, free
    or allocated. The index has the header of a run at its first block, forwarding counts in the
    rest of an allocated run and nothing else; the free runs are the members of the free lists of
    their sizes; headers that are not in use are in the list of free headers. While an operation is
    under way, some free runs are in no list ([X]). *)

From S2P Require Import Prelude MakHdr MakBlock MakLib MakIndex.
From stdpp Require Import sorting.
#[local] Open Scope Z_scope.
#[local] Open Scope cmd_scope.

(** A run: its blocks, its header, and the contents of the header if it is allocated. *)
Record seg := mkSegD { sg_len : Z; sg_hdr : Z; sg_free : bool; sg_data : hdr }.
Abbreviation mkSeg l h f := (mkSegD l h f hdr_zero).

(** ** The invariant *)

Record seg_wf (segs : gmap Z seg) (rs : list (Z * Z)) : Prop := {
  sw_range : forall n g, segs !! n = Some g -> 1 < n /\ 0 < sg_len g /\ n + sg_len g <= 2 ^ 35 /\ MAX_JUMP < sg_hdr g;
  sw_disj : forall n g n' g', segs !! n = Some g -> segs !! n' = Some g' -> n < n' -> n + sg_len g <= n';
  sw_inj : forall n g n' g', segs !! n = Some g -> segs !! n' = Some g' -> sg_hdr g = sg_hdr g' -> n = n';
  sw_inside : forall n g m, segs !! n = Some g -> n <= m < n + sg_len g -> inside rs (m * HBLKSZ) }.

Definition covered (segs : gmap Z seg) (m : Z) : Prop := exists n g, segs !! n = Some g /\ n <= m < n + sg_len g.

(** The words of the index. *)
Record ent_ok (segs : gmap Z seg) (E : Z -> Z) : Prop := {
  en_start : forall n g, segs !! n = Some g -> E n = sg_hdr g;
  en_inner : forall n g m, segs !! n = Some g -> n < m < n + sg_len g -> E m = (if sg_free g then 0 else forward_count (m - n));
  en_other : forall m, ~ covered segs m -> E m = 0 }.

(** The header of a run that no operation is working on. *)
Definition hdr_for (x : hdr) (g : seg) : Prop :=
  HBLK_IS_FREE x = sg_free g /\ (if sg_free g then hb_sz x = sg_len g * HBLKSZ else x = sg_data g /\ 0 < hb_sz x <= sg_len g * HBLKSZ /\ sg_len g * HBLKSZ < hb_sz x + HBLKSZ).

(** Headers that are not in use. *)
Fixpoint hlist (m : gmap Z hdr) (b : Z) (l : list Z) : Prop :=
  match l with
  | [] => b = 0
  | y :: l' => b = y /\ MAX_JUMP < y /\ exists x, m !! y = Some x /\ hlist m (hb_next x) l'
  end.

(** The links of the free run at an address. *)
Definition hdr_at (segs : gmap Z seg) (a : Z) : Z := match segs !! bno a with Some g => sg_hdr g | None => 0 end.
Definition fnx (m : gmap Z hdr) (segs : gmap Z seg) (a : Z) : Z := match m !! hdr_at segs a with Some x => hb_next x | None => 0 end.
Definition fpv (m : gmap Z hdr) (segs : gmap Z seg) (a : Z) : Z := match m !! hdr_at segs a with Some x => hb_prev x | None => 0 end.

(** The header of a run; other headers have no block. *)
Definition has_run (segs : gmap Z seg) (a : Z) : Prop := exists n g, segs !! n = Some g /\ sg_hdr g = a.
Definition rest_unused (m : gmap Z hdr) (segs : gmap Z seg) : Prop := forall a x, m !! a = Some x -> hb_block x = 0 \/ has_run segs a.

(** Member of the list [i]. *)
Definition listed (segs : gmap Z seg) (X : gset Z) (i a : Z) : Prop :=
  exists n g, a = n * HBLKSZ /\ segs !! n = Some g /\ sg_free g = true /\ (n ∉ X) /\ MAK_hblk_fl_from_blocks (sg_len g) = i.

Record hinv (s : heap) (E : Z -> Z) (L : Z -> list Z) (hl : list Z) (segs : gmap Z seg) (X : gset Z) : Prop := {
  hv_idx : irep s E;
  hv_space : space_ok (regions s) (hdr_space s) (hdrs s) 1;
  hv_wf : seg_wf segs (regions s);
  hv_ent : ent_ok segs E;
  hv_hdr : forall n g, segs !! n = Some g -> exists x, hdrs s !! sg_hdr g = Some x /\ hb_block x = n * HBLKSZ /\ (n ∉ X -> hdr_for x g);
  hv_float : forall n, n ∈ X -> exists g, segs !! n = Some g /\ sg_free g = true;
  hv_len : length (MAK_hblkfreelist (hfree s)) = 61%nat;
  hv_lists : forall i, 0 <= i <= 60 -> exists b, MAK_hblkfreelist (hfree s) !! Z.to_nat i = Some b /\
    dls (fnx (hdrs s) segs) (fpv (hdrs s) segs) 0 b (L i) 0 /\ NoDup (L i) /\ forall a, a ∈ L i <-> listed segs X i a;
  hv_hfl : hlist (hdrs s) (MAK_hdr_free_list s) hl /\ NoDup hl;
  hv_sep : forall n g, segs !! n = Some g -> sg_hdr g ∉ hl;
  hv_unused : rest_unused (hdrs s) segs;
  hv_mode : MAK_run_mode s <> RESTARTING_OFFLINE /\ 0 <= MAK_heapsize (hextent s) }.

(** The headers of the runs an operation is working on are as before. *)
Definition fr (segs : gmap Z seg) (X : gset Z) (s s' : heap) : Prop :=
  forall n g, segs !! n = Some g -> n ∈ X -> hdrs s' !! sg_hdr g = hdrs s !! sg_hdr g.

(** ** Facts about runs *)

Lemma fl_class_range n : 0 < n -> 0 <= MAK_hblk_fl_from_blocks n <= 60.
Proof.
  intros Hn. unfold MAK_hblk_fl_from_blocks, UNIQUE_THRESHOLD, HUGE_THRESHOLD, N_HBLK_FLS, FL_COMPRESSION, UNIQUE_THRESHOLD, HUGE_THRESHOLD.
  destruct (Z.leb_spec n 32); [lia|]. destruct (Z.leb_spec 256 n); [change ((256 - 32) / 8 + 32) with 60; lia|].
  pose proof (Z.div_le_mono (n - 32) 224 8). pose proof (Z.div_pos (n - 32) 8). change (224 / 8) with 28 in *. lia.
Qed.

Lemma seg_overlap segs rs n g n' g' m : seg_wf segs rs -> segs !! n = Some g -> segs !! n' = Some g' ->
  n <= m < n + sg_len g -> n' <= m < n' + sg_len g' -> n = n'.
Proof.
  intros W H1 H2 Hm Hm'. destruct (Z.lt_trichotomy n n') as [Hlt|[|Hlt]]; [|done|].
  - pose proof (sw_disj _ _ W _ _ _ _ H1 H2 Hlt). lia.
  - pose proof (sw_disj _ _ W _ _ _ _ H2 H1 Hlt). lia.
Qed.

Lemma forward_count_range k : 0 < k -> 0 < forward_count k <= MAX_JUMP /\ forward_count k <= k.
Proof. intros Hk. unfold forward_count. destruct (Z.ltb_spec MAX_JUMP k); unfold MAX_JUMP, HBLKSZ in *; lia. Qed.

(** A word is a header, a count or zero. *)
Lemma ent_cases segs E m : ent_ok segs E -> (exists n g, segs !! n = Some g /\ n <= m < n + sg_len g /\ (m = n /\ E m = sg_hdr g \/ n < m /\ E m = (if sg_free g then 0 else forward_count (m - n)))) \/ (~ covered segs m /\ E m = 0).
Proof.
  intros HE. destruct (decide (map_Exists (fun n g => n <= m < n + sg_len g) segs)) as [Hc|Hc].
  - left. apply map_Exists_lookup in Hc as (n & g & Hn & Hm). exists n, g. split; [done|]. split; [done|]. destruct (decide (m = n)) as [->|Hne].
    + left. split; [done|]. by apply (en_start _ _ HE).
    + right. split; [lia|]. apply (en_inner _ _ HE _ _ _ Hn). lia.
  - right. assert (Hnc : ~ covered segs m) by (intros (n & g & Hn & Hm); apply Hc, map_Exists_lookup; eauto). split; [done|by apply (en_other _ _ HE)].
Qed.

Lemma ent_counts segs rs E : seg_wf segs rs -> ent_ok segs E -> counts_ok E.
Proof.
  intros W HE n. destruct (ent_cases _ _ n HE) as [(m & g & Hm & Hr & [[-> Heq]|[Hlt Heq]])|[Hnc Heq]]; rewrite Heq.
  - destruct (sw_range _ _ W _ _ Hm) as (_ & _ & _ & Hh). unfold MAX_JUMP, HBLKSZ in *. split; [lia|]. intros Hx. lia.
  - destruct (sg_free g) eqn:Ef; [split; [lia|]; intros Hx; lia|]. destruct (forward_count_range (n - m) ltac:(lia)) as [Hp Hk]. split; [lia|].
    intros _ j Hj Hh. unfold has_hdr in Hh. rewrite (en_inner _ _ HE m g j Hm) in Hh by lia. rewrite Ef in Hh.
    destruct (forward_count_range (j - m) ltac:(lia)). lia.
  - split; [lia|]. intros Hx. lia.
Qed.

(** Blocks with headers are the first blocks of runs. *)
Lemma ent_hdr segs rs E n : seg_wf segs rs -> ent_ok segs E -> has_hdr E n -> exists g, segs !! n = Some g /\ E n = sg_hdr g.
Proof.
  intros W HE Hh. unfold has_hdr in Hh. destruct (ent_cases _ _ n HE) as [(m & g & Hm & Hr & [[-> Heq]|[Hlt Heq]])|[Hnc Heq]].
  - by exists g.
  - rewrite Heq in Hh. destruct (sg_free g); [unfold MAX_JUMP, HBLKSZ in Hh; lia|]. destruct (forward_count_range (n - m) ltac:(lia)). lia.
  - rewrite Heq in Hh. unfold MAX_JUMP, HBLKSZ in Hh. lia.
Qed.

#[export] Instance has_run_dec segs a : Decision (has_run segs a).
Proof.
  refine (cast_if (decide (map_Exists (fun _ g => sg_hdr g = a) segs))); abstract (unfold has_run; by rewrite <- map_Exists_lookup).
Defined.

Lemma rest_unused_same m m' segs segs' : rest_unused m segs -> (forall a, has_run segs a -> has_run segs' a) ->
  (forall a x, ~ has_run segs' a -> m' !! a = Some x -> m !! a = Some x \/ hb_block x = 0) -> rest_unused m' segs'.
Proof.
  intros Hm Hs Hx a x Ha. destruct (decide (has_run segs' a)) as [|Hn]; [by right|left]. destruct (Hx a x Hn Ha) as [Hmx|]; [|done]. destruct (Hm a x Hmx) as [|Hr]; [done|].
  by apply Hs in Hr.
Qed.

Lemma hlist_ext m m' b l : (forall y, y ∈ l -> m' !! y = m !! y) -> hlist m b l -> hlist m' b l.
Proof.
  revert b. induction l as [|y l IH]; intros b Hm; [done|]. intros (-> & Hy & x & Hx & Hl). split; [done|]. split; [done|]. exists x.
  rewrite Hm by left. split; [done|]. apply IH; [|done]. intros z Hz. apply Hm. by right.
Qed.

Lemma hlist_dom m b l y : hlist m b l -> y ∈ l -> is_Some (m !! y).
Proof.
  revert b. induction l as [|z l IH]; intros b Hl Hy; [by apply not_elem_of_nil in Hy|]. destruct Hl as (_ & _ & x & Hx & Hl).
  apply elem_of_cons in Hy as [->|Hy]; [by eexists|by eapply IH].
Qed.

Lemma hdr_at_start segs n g : segs !! n = Some g -> hdr_at segs (n * HBLKSZ) = sg_hdr g.
Proof. intros Hn. unfold hdr_at. by rewrite bno_addr, Hn. Qed.

Lemma space_dom {A} rs sp (m m' : gmap Z A) k : dom m' = dom m -> space_ok rs sp m k -> space_ok rs sp m' k.
Proof. intros Hd (H1 & H2 & H3). split; [|split; [exact H2|exact H3]]. intros a Ha. apply H1, elem_of_dom. rewrite <- Hd. by apply elem_of_dom. Qed.

Lemma dom_upd {A} (m : gmap Z A) h x x' : m !! h = Some x -> dom (<[h := x']> m) = dom m.
Proof. intros Hx. rewrite dom_insert_L. apply elem_of_dom_2 in Hx. set_solver. Qed.

(** ** Makalu: the free lists

    Headers change while a run is in no free list; runs are taken out of the free lists and put in. *)

Section heap.
Context `{!PersistentMem}.

Lemma wp_ld_hdr T s h x (Q : hdr -> heap -> Prop) : hdrs s !! h = Some x -> Q x s -> wp T (ld_hdr h) s Q.
Proof. intros Hx HQ. unfold wp, ld_hdr. by rewrite Hx. Qed.

Lemma wp_upd_hdr T s h x f (Q : unit -> heap -> Prop) : hdrs s !! h = Some x -> Q tt (set_hdrs (<[h := f x]> (hdrs s)) s) -> wp T (upd_hdr h f) s Q.
Proof. intros Hx HQ. unfold wp, upd_hdr. by rewrite Hx. Qed.

Lemma irep_ext s s' E : regions s' = regions s -> hindex s' = hindex s -> irep s E -> irep s' E.
Proof. intros Hr Hi (km & asc & H1 & H2 & H3). exists km, asc. by rewrite Hr, Hi. Qed.

Section inv.
Context (s : heap) (E : Z -> Z) (L : Z -> list Z) (hl : list Z) (segs : gmap Z seg) (X : gset Z).
Hypothesis I : hinv s E L hl segs X.

Lemma hdr_of n g : segs !! n = Some g -> exists x, hdrs s !! sg_hdr g = Some x /\ hb_block x = n * HBLKSZ /\ (n ∉ X -> hdr_for x g).
Proof. apply (hv_hdr _ _ _ _ _ _ I). Qed.

Lemma word_of n g : segs !! n = Some g -> E n = sg_hdr g.
Proof. apply (en_start _ _ (hv_ent _ _ _ _ _ _ I)). Qed.

Lemma hdr_ne n g n' g' : segs !! n = Some g -> segs !! n' = Some g' -> n <> n' -> sg_hdr g <> sg_hdr g'.
Proof. intros H1 H2 Hne Heq. apply Hne. by eapply (sw_inj _ _ (hv_wf _ _ _ _ _ _ I)). Qed.

(** Other contents for the headers of runs that are in no list. *)
Lemma hinv_hdrs m' :
  dom m' = dom (hdrs s) -> (forall n g, segs !! n = Some g -> n ∉ X -> m' !! sg_hdr g = hdrs s !! sg_hdr g) ->
  (forall n g x', segs !! n = Some g -> n ∈ X -> m' !! sg_hdr g = Some x' -> hb_block x' = n * HBLKSZ) ->
  (forall h, (forall n g, segs !! n = Some g -> sg_hdr g <> h) -> m' !! h = hdrs s !! h) -> hinv (set_hdrs m' s) E L hl segs X.
Proof.
  intros Hd Hs Hb Hl. destruct I as [I1 I2 I3 I4 I5 I6 I7 I8 [I9 I9'] I10 IU I11]. split; try done; cbn [set_hdrs hdrs regions hdr_space hfree MAK_hdr_free_list].
  - by eapply space_dom.
  - intros n g Hn. destruct (decide (n ∈ X)) as [Hx|Hx].
    + destruct (I5 n g Hn) as (x & Hx' & _). assert (Hm : is_Some (m' !! sg_hdr g)) by (apply elem_of_dom; rewrite Hd; by apply elem_of_dom_2 in Hx').
      destruct Hm as [x' Hm]. exists x'. split; [done|]. split; [by eapply Hb|done].
    + rewrite (Hs n g Hn Hx). by apply I5.
  - intros i Hi. destruct (I8 i Hi) as (b & Hb' & Hd' & Hn & Hm). exists b. split; [done|]. split; [|done]. eapply dls_ext; [|exact Hd'].
    intros a Ha. apply Hm in Ha as (n & g & -> & Hg & _ & HnX & _). unfold fnx, fpv. rewrite (hdr_at_start _ _ _ Hg), (Hs n g Hg HnX). done.
  - split; [|done]. eapply hlist_ext; [|exact I9]. intros y Hy. apply Hl. intros n g Hn <-. by eapply I10.
  - eapply rest_unused_same; [exact IU|done|]. intros a x Hn. left. rewrite <- Hl; [done|]. intros n g Hg He. apply Hn. by exists n, g.
Qed.

Lemma hdr_not_free n g h : segs !! n = Some g -> h ∈ hl -> sg_hdr g <> h.
Proof. intros Hn Hh <-. by apply (hv_sep _ _ _ _ _ _ I n g Hn). Qed.

Lemma hinv_float n g x' : segs !! n = Some g -> n ∈ X -> hb_block x' = n * HBLKSZ -> hinv (set_hdrs (<[sg_hdr g := x']> (hdrs s)) s) E L hl segs X.
Proof.
  intros Hn Hx Hb. destruct (hdr_of n g Hn) as (x & Hhx & _). apply hinv_hdrs.
  - by eapply dom_upd.
  - intros n' g' Hn' HX. rewrite lookup_insert_ne; [done|]. apply (hdr_ne n g n' g'); [done|done|]. intros ->. done.
  - intros n' g' x2 Hn' HX. destruct (decide (n = n')) as [<-|Hne].
    + assert (g' = g) as -> by congruence. rewrite lookup_insert_eq. by intros [= <-].
    + rewrite lookup_insert_ne by (by eapply hdr_ne). intros Hx'. destruct (hdr_of n' g' Hn') as (x3 & Hx3 & Hb2 & _). congruence.
  - intros h Hh. rewrite lookup_insert_ne; [done|]. by eapply Hh.
Qed.

Lemma wp_float_upd T n g f x (Q : unit -> heap -> Prop) :
  segs !! n = Some g -> n ∈ X -> hdrs s !! sg_hdr g = Some x -> hb_block (f x) = hb_block x ->
  (hinv (set_hdrs (<[sg_hdr g := f x]> (hdrs s)) s) E L hl segs X -> Q tt (set_hdrs (<[sg_hdr g := f x]> (hdrs s)) s)) ->
  wp T (upd_hdr (sg_hdr g) f) s Q.
Proof.
  intros Hn HX Hx Hf HQ. destruct (hdr_of n g Hn) as (x' & Hhx & Hb & _). assert (x' = x) as -> by congruence. eapply wp_upd_hdr; [exact Hx|]. apply HQ.
  apply (hinv_float n); [done|done|congruence].
Qed.

(** *** A list changes *)

Lemma hinv_relink fl m' X' i l' b' :
  let s' := set_hfree fl (set_hdrs m' s) in
  dom m' = dom (hdrs s) -> (forall h, (forall n g, segs !! n = Some g -> sg_hdr g <> h) -> m' !! h = hdrs s !! h) ->
  (forall n g, segs !! n = Some g -> n ∉ X' -> n ∉ X -> (sg_free g = true -> MAK_hblk_fl_from_blocks (sg_len g) <> i) -> m' !! sg_hdr g = hdrs s !! sg_hdr g) ->
  (forall n g x', segs !! n = Some g -> m' !! sg_hdr g = Some x' -> hb_block x' = n * HBLKSZ /\ (n ∉ X' -> hdr_for x' g)) ->
  (forall n, n ∈ X' -> exists g, segs !! n = Some g /\ sg_free g = true) ->
  length (MAK_hblkfreelist fl) = 61%nat -> 0 <= i <= 60 ->
  (forall j, 0 <= j <= 60 -> MAK_hblkfreelist fl !! Z.to_nat j = if decide (j = i) then Some b' else MAK_hblkfreelist (hfree s) !! Z.to_nat j) ->
  dls (fnx m' segs) (fpv m' segs) 0 b' l' 0 -> NoDup l' -> (forall a, a ∈ l' <-> listed segs X' i a) ->
  (forall j a, j <> i -> listed segs X' j a <-> listed segs X j a) ->
  hinv s' E (fun j => if decide (j = i) then l' else L j) hl segs X'.
Proof.
  intros s' Hd Hh Hs Hb HX Hlen Hi Hfl Hdl Hnd Hm' Hj. destruct I as [I1 I2 I3 I4 I5 I6 I7 I8 [I9 I9'] I10 IU I11].
  split; try done; cbn [s' set_hfree set_hdrs hdrs regions hdr_space hfree MAK_hdr_free_list].
  - by eapply space_dom.
  - intros n g Hn. destruct (I5 n g Hn) as (x & Hx & _). assert (Hm : is_Some (m' !! sg_hdr g)) by (apply elem_of_dom; rewrite Hd; by apply elem_of_dom_2 in Hx).
    destruct Hm as [x' Hm]. exists x'. split; [done|]. by eapply Hb.
  - intros j Hjr. rewrite (Hfl j Hjr). case_decide as Ej; [subst j; by exists b'|]. destruct (I8 j Hjr) as (b & Hb' & Hd' & Hn & Hm). exists b. split; [done|].
    split; [|split; [done|intros a; by rewrite Hm, Hj]]. eapply dls_ext; [|exact Hd'].
    intros a Ha. apply Hm in Ha as Hl. pose proof Hl as (n & g & -> & Hg & Hf & HnX & Hc). apply Hj in Hl; [|done]. destruct Hl as (n' & g' & Hnn & Hg' & _ & HnX' & _).
    assert (n' = n) as -> by (unfold HBLKSZ in Hnn; lia). unfold fnx, fpv. rewrite (hdr_at_start _ _ _ Hg), (Hs n g Hg HnX' HnX); [done|]. intros _. congruence.
  - split; [|done]. eapply hlist_ext; [|exact I9]. intros y Hy. apply Hh. intros n g Hn <-. by eapply I10.
  - eapply rest_unused_same; [exact IU|done|]. intros a x Hn. left. rewrite <- Hh; [done|]. intros n g Hg He. apply Hn. by exists n, g.
Qed.

(** The list of a free run. *)
Lemma listed_in n g : segs !! n = Some g -> sg_free g = true -> n ∉ X ->
  let i := MAK_hblk_fl_from_blocks (sg_len g) in
  0 <= i <= 60 /\ exists b l1 l2, L i = l1 ++ n * HBLKSZ :: l2 /\ MAK_hblkfreelist (hfree s) !! Z.to_nat i = Some b /\
    dls (fnx (hdrs s) segs) (fpv (hdrs s) segs) 0 b (L i) 0 /\ NoDup (L i) /\ forall a, a ∈ L i <-> listed segs X i a.
Proof.
  intros Hn Hf HX i. destruct (sw_range _ _ (hv_wf _ _ _ _ _ _ I) _ _ Hn) as (_ & Hl & _). pose proof (fl_class_range _ Hl) as Hi. split; [done|].
  destruct (hv_lists _ _ _ _ _ _ I i Hi) as (b & Hb & Hd & Hnd & Hm). assert (Hin : n * HBLKSZ ∈ L i) by (apply Hm; exists n, g; done).
  apply list_elem_of_split in Hin as (l1 & l2 & Hs). by exists b, l1, l2.
Qed.

Lemma member_hdr i a : 0 <= i <= 60 -> a ∈ L i -> exists n g x, a = n * HBLKSZ /\ segs !! n = Some g /\ sg_free g = true /\ (n ∉ X) /\
  MAK_hblk_fl_from_blocks (sg_len g) = i /\ E (bno a) = sg_hdr g /\ hdrs s !! sg_hdr g = Some x /\ a <> 0.
Proof.
  intros Hi Ha. destruct (hv_lists _ _ _ _ _ _ I i Hi) as (b & Hb & Hd & Hnd & Hm). assert (Ha0 : a <> 0) by (by eapply dls_nonzero).
  apply Hm in Ha as (n & g & -> & Hg & Hf & HX & Hc). destruct (hdr_of n g Hg) as (x & Hx & _). exists n, g, x. split_and!; try done. rewrite bno_addr. by apply word_of.
Qed.

Lemma listed_free n g Y i : segs !! n = Some g -> listed segs Y i (n * HBLKSZ) -> sg_free g = true.
Proof. intros Hn (n' & g' & He & Hg' & Hf & _). assert (n' = n) as -> by (unfold HBLKSZ in He; lia). congruence. Qed.

Definition relinked (l1 l2 : list Z) (nv pv : Z) (a : Z) (x : hdr) : hdr :=
  hdr_next (if decide (last l1 = Some a) then nv else hb_next x) (hdr_prev (if decide (head l2 = Some a) then pv else hb_prev x) x).

Lemma relinked_core l1 l2 nv pv a x g : hdr_for x g -> sg_free g = true \/ a ∉ l1 ++ l2 -> hdr_for (relinked l1 l2 nv pv a x) g.
Proof.
  intros [H1 H2] [Hf|Ha]; [split; [exact H1|]; rewrite Hf in *; exact H2|]. replace (relinked l1 l2 nv pv a x) with x; [done|].
  unfold relinked. rewrite !decide_False; [by destruct x|..].
  - intros Hl. apply Ha, elem_of_app. right. by apply head_Some_elem_of.
  - intros Hl. apply Ha, elem_of_app. left. by apply last_Some_elem_of.
Qed.

(** The patched headers of a list. *)
Definition patched (m m' : gmap Z hdr) (l1 l2 : list Z) (nv pv : Z) : Prop :=
  (forall n g, segs !! n = Some g -> m' !! sg_hdr g = relinked l1 l2 nv pv (n * HBLKSZ) <$> m !! sg_hdr g) /\
  (forall h, (forall n g, segs !! n = Some g -> sg_hdr g <> h) -> m' !! h = m !! h) /\ dom m' = dom m.

Lemma relinked_id nv pv a x : relinked [] [] nv pv a x = x.
Proof. by destruct x. Qed.

Lemma patched_id m nv pv : patched m m [] [] nv pv.
Proof. split; [|done]. intros n g _. destruct (m !! sg_hdr g) as [x|]; [|done]. cbn. by rewrite relinked_id. Qed.

Lemma patched_next m l1 n g x nv pv : segs !! n = Some g -> m !! sg_hdr g = Some x -> last l1 = Some (n * HBLKSZ) ->
  patched m (<[sg_hdr g := hdr_next nv x]> m) l1 [] nv pv.
Proof.
  intros Hn Hx Hl. split; [|split].
  - intros n' g' Hn'. destruct (decide (n = n')) as [<-|Hne].
    + assert (g' = g) as -> by congruence. rewrite lookup_insert_eq, Hx. cbn. f_equal. unfold relinked. rewrite decide_True by done. by destruct x.
    + rewrite lookup_insert_ne by (by eapply hdr_ne). destruct (m !! sg_hdr g') as [x'|]; [|done]. cbn. f_equal. unfold relinked.
      rewrite decide_False by (rewrite Hl; intros [= E']; unfold HBLKSZ in E'; lia). by destruct x'.
  - intros h Hh. rewrite lookup_insert_ne; [done|]. by eapply Hh.
  - by eapply dom_upd.
Qed.

Lemma patched_prev m m1 l1 l2 n g x nv pv : patched m m1 l1 [] nv pv -> segs !! n = Some g -> m1 !! sg_hdr g = Some x -> head l2 = Some (n * HBLKSZ) ->
  patched m (<[sg_hdr g := hdr_prev pv x]> m1) l1 l2 nv pv.
Proof.
  intros (P1 & P2 & P3) Hn Hx Hl. split; [|split].
  - intros n' g' Hn'. destruct (decide (n = n')) as [<-|Hne].
    + assert (g' = g) as -> by congruence. rewrite lookup_insert_eq. rewrite (P1 n g Hn) in Hx. apply fmap_Some in Hx as (x0 & Hx0 & ->). rewrite Hx0. cbn. f_equal.
      unfold relinked. rewrite (decide_True (P := head l2 = _)) by done. rewrite (decide_False (P := head [] = _)) by done. by destruct x0.
    + rewrite lookup_insert_ne by (by eapply hdr_ne). rewrite (P1 n' g' Hn'). destruct (m !! sg_hdr g') as [x'|]; [|done]. cbn. f_equal. unfold relinked.
      rewrite (decide_False (P := head l2 = _)) by (rewrite Hl; intros [= E']; unfold HBLKSZ in E'; lia). by rewrite (decide_False (P := head [] = _)) by done.
  - intros h Hh. rewrite lookup_insert_ne; [by apply P2|]. by eapply Hh.
  - rewrite <- P3. by eapply dom_upd.
Qed.

(** A patched header outside the list is as it was. *)
Lemma patched_out m' l1 l2 nv pv i n g : patched (hdrs s) m' l1 l2 nv pv -> 0 <= i <= 60 -> (forall a, a ∈ l1 ++ l2 -> a ∈ L i) ->
  segs !! n = Some g -> n * HBLKSZ ∉ l1 ++ l2 -> m' !! sg_hdr g = hdrs s !! sg_hdr g.
Proof.
  intros (P1 & _) Hi Hsub Hn Hnot. rewrite (P1 n g Hn). destruct (hdrs s !! sg_hdr g) as [x|]; [|done]. cbn. f_equal. unfold relinked.
  rewrite !decide_False; [by destruct x|..].
  - intros Hl. apply Hnot, elem_of_app. right. by apply head_Some_elem_of.
  - intros Hl. apply Hnot, elem_of_app. left. by apply last_Some_elem_of.
Qed.

Lemma class_of_len n g x : segs !! n = Some g -> sg_free g = true -> n ∉ X -> hdrs s !! sg_hdr g = Some x -> divHBLKSZ (hb_sz x) = sg_len g.
Proof.
  intros Hn Hf HX Hx. destruct (hdr_of n g Hn) as (x' & Hx' & _ & Hfor). assert (x' = x) as -> by congruence. destruct (Hfor HX) as [_ Hsz]. rewrite Hf in Hsz.
  rewrite Hsz, divHBLKSZ_eq. apply Z.div_mul. done.
Qed.

(** Unlinking [n] from the list of its size. *)
Lemma hinv_unlink n g i l1 l2 b m' fb lfb :
  segs !! n = Some g -> sg_free g = true -> (n ∉ X) -> i = MAK_hblk_fl_from_blocks (sg_len g) -> 0 <= i <= 60 -> L i = l1 ++ n * HBLKSZ :: l2 ->
  MAK_hblkfreelist (hfree s) !! Z.to_nat i = Some b -> dls (fnx (hdrs s) segs) (fpv (hdrs s) segs) 0 b (L i) 0 -> NoDup (L i) -> (forall a, a ∈ L i <-> listed segs X i a) ->
  patched (hdrs s) m' l1 l2 (default 0 (head l2)) (default 0 (last l1)) ->
  let fl := if decide (l1 = []) then <[Z.to_nat i := default 0 (head l2)]> (MAK_hblkfreelist (hfree s)) else MAK_hblkfreelist (hfree s) in
  let s' := set_hfree (mkFree fl fb lfb) (set_hdrs m' s) in
  hinv s' E (fun j => if decide (j = i) then l1 ++ l2 else L j) hl segs (X ∪ {[n]}) /\ fr segs (X ∪ {[n]}) s s'.
Proof.
  intros Hn Hf HX Hi Hir HL Hb Hd Hnd Hm HP fl s'. pose proof HP as (P1 & P2 & P3).
  assert (Hsub : forall a, a ∈ l1 ++ l2 -> a ∈ L i) by (rewrite HL; set_solver). rewrite HL in Hnd, Hd.
  assert (Hna : n * HBLKSZ ∉ l1 ++ l2). { apply NoDup_app in Hnd as (_ & H1 & H2). apply list.NoDup_cons in H2 as [H2 _]. intros [Hx|Hx]%elem_of_app; [apply (H1 _ Hx); left|done]. }
  assert (Hmem : forall a, a ∈ l1 ++ l2 <-> listed segs (X ∪ {[n]}) i a).
  { intros a. split.
    - intros Ha. destruct (proj1 (Hm a) (Hsub a Ha)) as (n' & g' & -> & Hg' & Hf' & HX' & Hc'). exists n', g'. split_and!; try done.
      intros [Hx| ->%elem_of_singleton]%elem_of_union; done.
    - intros (n' & g' & -> & Hg' & Hf' & HX' & Hc'). apply not_elem_of_union in HX' as [HX' Hnn]. assert (Hin : n' * HBLKSZ ∈ L i) by (apply Hm; exists n', g'; done).
      rewrite HL in Hin. apply elem_of_app in Hin as [Hin|[Heq|Hin]%elem_of_cons]; [set_solver|unfold HBLKSZ in Heq; set_solver by lia|set_solver]. }
  assert (Hout : forall n' g', segs !! n' = Some g' -> n' * HBLKSZ ∉ l1 ++ l2 -> m' !! sg_hdr g' = hdrs s !! sg_hdr g') by (intros; by eapply patched_out).
  split.
  - eapply hinv_relink; try done.
    + intros n' g' Hn' HX' HX2 Hc. apply (Hout n' g' Hn'). intros Ha. apply Hmem in Ha as (n2 & g2 & Heq & Hg2 & Hf2 & _ & Hc2).
      assert (n2 = n') as -> by (unfold HBLKSZ in Heq; lia). assert (g2 = g') as -> by congruence. by apply Hc.
    + intros n' g' x' Hn' Hx'. rewrite (P1 n' g' Hn') in Hx'. apply fmap_Some in Hx' as (x & Hx & ->). destruct (hdr_of n' g' Hn') as (x2 & Hx2 & Hbk & Hfor).
      assert (x2 = x) as -> by congruence. split; [done|]. intros Hnx. apply relinked_core; [apply Hfor; set_solver|].
      destruct (decide (n' * HBLKSZ ∈ l1 ++ l2)) as [Hin|]; [left|by right]. apply Hmem in Hin. by eapply listed_free.
    + intros n' [Hx| ->%elem_of_singleton]%elem_of_union; [by apply (hv_float _ _ _ _ _ _ I)|by exists g].
    + cbn. unfold fl. destruct (decide (l1 = [])); [rewrite length_insert|]; apply (hv_len _ _ _ _ _ _ I).
    + instantiate (1 := match l1 with [] => default 0 (head l2) | _ => b end). cbn. intros j Hj. unfold fl. destruct l1 as [|y l1]; cbn [decide].
      * rewrite decide_True by done. case_decide as Ej; [subst j; apply list_lookup_insert_eq; rewrite (hv_len _ _ _ _ _ _ I); lia|]. apply list_lookup_insert_ne. lia.
      * rewrite decide_False by done. case_decide as Ej; [by subst j|done].
    + assert (Hnx : default 0 (head l2) = fnx (hdrs s) segs (n * HBLKSZ)).
      { apply dls_app in Hd as (c & _ & _ & _ & _ & Hd2). apply dls_head in Hd2. by rewrite Hd2. }
      assert (Hpv : default 0 (last l1) = fpv (hdrs s) segs (n * HBLKSZ)) by (apply dls_app in Hd as (c & _ & _ & _ & Hp & _); done).
      rewrite Hnx. eapply dls_remove; [exact Hnd|..|exact Hd].
      * intros y Hy. apply Hsub, Hm in Hy as (n' & g' & -> & Hg' & _). unfold fnx at 1. rewrite (hdr_at_start _ _ _ Hg'), (P1 _ _ Hg').
        destruct (hdr_of n' g' Hg') as (x & Hx & _). rewrite Hx. cbn. unfold fnx at 2. rewrite (hdr_at_start _ _ _ Hg'), Hx, Hnx. done.
      * intros y Hy. apply Hsub, Hm in Hy as (n' & g' & -> & Hg' & _). unfold fpv at 1. rewrite (hdr_at_start _ _ _ Hg'), (P1 _ _ Hg').
        destruct (hdr_of n' g' Hg') as (x & Hx & _). rewrite Hx. cbn. unfold fpv at 2. rewrite (hdr_at_start _ _ _ Hg'), Hx, Hpv. done.
    + apply NoDup_app in Hnd as (H1 & H2 & H3). apply list.NoDup_cons in H3 as [_ H3]. apply NoDup_app. split_and!; [done| |done]. intros a Ha Hb'. apply (H2 a Ha). by right.
    + intros j a Hj. split; intros (n' & g' & -> & Hg' & Hf' & HX' & Hc'); exists n', g'; split_and!; try done; [set_solver|].
      intros [Hx| ->%elem_of_singleton]%elem_of_union; [done|]. assert (g' = g) as -> by congruence. congruence.
  - intros n' g' Hn' HX'. cbn. apply (Hout n' g' Hn'). intros Ha. apply Hmem in Ha as (n2 & g2 & Heq & _ & _ & Hnx & _). apply Hnx. by replace n2 with n' by (unfold HBLKSZ in Heq; lia).
Qed.

Lemma wp_remove_from_fl T n g idx (Q : unit -> heap -> Prop) :
  segs !! n = Some g -> sg_free g = true -> n ∉ X -> idx = FL_UNKNOWN \/ idx = MAK_hblk_fl_from_blocks (sg_len g) ->
  (forall s' L', hinv s' E L' hl segs (X ∪ {[n]}) -> fr segs (X ∪ {[n]}) s s' -> hextent s' = hextent s -> regions s' = regions s -> Q tt s') ->
  wp T (MAK_remove_from_fl (sg_hdr g) idx) s Q.
Proof.
  intros Hn Hf HX Hidx HQ. destruct (hdr_of n g Hn) as (x & Hx & _). destruct (listed_in n g Hn Hf HX) as (Hi & b & l1 & l2 & HL & Hb & Hd & Hnd & Hm).
  set (i := MAK_hblk_fl_from_blocks (sg_len g)) in *. unfold MAK_remove_from_fl. apply wp_bind. eapply wp_ld_hdr; [exact Hx|].
  replace (if idx =? FL_UNKNOWN then _ else idx) with i; cycle 1.
  { rewrite (class_of_len n g x Hn Hf HX Hx). fold i. unfold FL_UNKNOWN in *. destruct (Z.eqb_spec idx (-1)); [done|]. by destruct Hidx. }
  assert (Hnx : hb_next x = default 0 (head l2)).
  { rewrite HL in Hd. apply dls_app in Hd as (c & _ & _ & _ & _ & Hd2). apply dls_head in Hd2. rewrite <- Hd2. unfold fnx. by rewrite (hdr_at_start _ _ _ Hn), Hx. }
  assert (Hpv : hb_prev x = default 0 (last l1)).
  { rewrite HL in Hd. apply dls_app in Hd as (c & _ & _ & _ & Hp & _). rewrite <- Hp. unfold fpv. by rewrite (hdr_at_start _ _ _ Hn), Hx. }
  assert (Hne : forall a n' g', a ∈ l1 ++ l2 -> a = n' * HBLKSZ -> segs !! n' = Some g' -> sg_hdr g' <> sg_hdr g).
  { intros a n' g' Ha -> Hg'. eapply hdr_ne; [exact Hg'|exact Hn|]. intros ->. rewrite HL in Hnd. apply NoDup_app in Hnd as (_ & H1 & H2). apply list.NoDup_cons in H2 as [H2 _].
    apply elem_of_app in Ha as [Ha|Ha]; [apply (H1 _ Ha); left|done]. }
  rewrite Hnx, Hpv. apply wp_bind.
  apply (wp_mono _ _ _ (fun _ s1 => exists m1, s1 = set_hfree (mkFree (if decide (l1 = []) then <[Z.to_nat i := default 0 (head l2)]> (MAK_hblkfreelist (hfree s)) else MAK_hblkfreelist (hfree s))
      (MAK_free_bytes (hfree s)) (MAK_large_free_bytes (hfree s))) (set_hdrs m1 s) /\ patched (hdrs s) m1 l1 [] (default 0 (head l2)) (default 0 (last l1)))).
  { destruct (last l1) as [a|] eqn:El; cbn [default from_option id].
    - assert (Ha : a ∈ L i) by (rewrite HL; apply elem_of_app; left; by apply last_Some_elem_of).
      destruct (member_hdr i a Hi Ha) as (n' & g' & x' & -> & Hg' & _ & _ & _ & Hw & Hx' & Ha0). rewrite (proj2 (Z.eqb_neq _ _) Ha0).
      apply wp_bind. eapply wp_HDR; [exact (hv_idx _ _ _ _ _ _ I)|]. rewrite Hw. eapply wp_upd_hdr; [exact Hx'|]. eexists. split; [|by eapply patched_next].
      rewrite decide_False by (by intros ->). destruct s as [? ? ? ? ? [] ? ? ?]. done.
    - apply last_None in El. subst l1. rewrite Z.eqb_refl. exists (hdrs s). split; [|apply patched_id]. rewrite decide_True by done. by destruct s as [? ? ? ? ? [] ? ? ?]. }
  intros [] s1 (m1 & -> & HP). assert (Hx1 : m1 !! sg_hdr g = Some x).
  { rewrite <- Hx. eapply patched_out; [exact HP|exact Hi| |exact Hn|].
    - rewrite HL. set_solver.
    - rewrite app_nil_r. intros Ha. eapply (Hne _ n g); [apply elem_of_app; left; exact Ha|done|done|done]. }
  apply wp_bind. eapply wp_ld_hdr; [exact Hx1|]. apply wp_bind, wp_mod. cbn beta. rewrite Hnx, Hpv.
  pose proof (fun m' Hm' fb lfb => hinv_unlink n g i l1 l2 b m' fb lfb Hn Hf HX eq_refl Hi HL Hb Hd Hnd Hm Hm') as HU.
  destruct (head l2) as [a|] eqn:El; cbn [default from_option id].
  - assert (Ha : a ∈ L i) by (rewrite HL; apply elem_of_app; right; right; by apply head_Some_elem_of).
    destruct (member_hdr i a Hi Ha) as (n' & g' & x' & -> & Hg' & _ & _ & _ & Hw & Hx' & Ha0). rewrite (proj2 (Z.eqb_neq _ _) Ha0).
    apply wp_bind. eapply wp_HDR; [eapply irep_ext; [..|exact (hv_idx _ _ _ _ _ _ I)]; done|]. rewrite Hw.
    assert (Hx2 : is_Some (m1 !! sg_hdr g')) by (apply elem_of_dom; destruct HP as (_ & _ & ->); by apply elem_of_dom_2 in Hx'). destruct Hx2 as [x2 Hx2].
    eapply wp_upd_hdr; [exact Hx2|]. cbn [set_hfree set_hdrs hdrs hfree MAK_hblkfreelist MAK_free_bytes MAK_large_free_bytes].
    destruct (HU _ (patched_prev _ _ _ _ _ _ _ _ _ HP Hg' Hx2 El) (alter (fun b => u64 (b + - hb_sz x)) (Z.to_nat i) (MAK_free_bytes (hfree s))) (MAK_large_free_bytes (hfree s))) as [HI HF].
    eapply HQ; [exact HI|exact HF|done|done].
  - assert (l2 = []) as -> by (by destruct l2). rewrite Z.eqb_refl. apply wp_ret.
    destruct (HU _ HP (alter (fun b => u64 (b + - hb_sz x)) (Z.to_nat i) (MAK_free_bytes (hfree s))) (MAK_large_free_bytes (hfree s))) as [HI HF]. eapply HQ; [exact HI|exact HF|done|done].
Qed.

(** Putting [n] in front of the list of its size. *)
Lemma hinv_link n g x i l b m' fb lfb :
  segs !! n = Some g -> n ∈ X -> hdrs s !! sg_hdr g = Some x -> hdr_for x g -> hb_prev x = 0 -> hb_next x = b ->
  i = MAK_hblk_fl_from_blocks (sg_len g) -> 0 <= i <= 60 -> L i = l ->
  MAK_hblkfreelist (hfree s) !! Z.to_nat i = Some b -> dls (fnx (hdrs s) segs) (fpv (hdrs s) segs) 0 b l 0 -> NoDup l -> (forall a, a ∈ l <-> listed segs X i a) ->
  patched (hdrs s) m' [] l 0 (n * HBLKSZ) ->
  let s' := set_hfree (mkFree (<[Z.to_nat i := n * HBLKSZ]> (MAK_hblkfreelist (hfree s))) fb lfb) (set_hdrs m' s) in
  hinv s' E (fun j => if decide (j = i) then n * HBLKSZ :: l else L j) hl segs (X ∖ {[n]}) /\ fr segs (X ∖ {[n]}) s s'.
Proof.
  intros Hn HX Hx Hfor Hpx Hnx Hi Hir HL Hb Hd Hnd Hm HP s'. pose proof HP as (P1 & P2 & P3). pose proof (hv_float _ _ _ _ _ _ I n HX) as (g0 & Hg0 & Hf). assert (g0 = g) as -> by congruence.
  assert (Hna : n * HBLKSZ ∉ l). { intros Ha. apply Hm in Ha as (n' & g' & Heq & _ & _ & HX' & _). apply HX'. by replace n' with n by (unfold HBLKSZ in Heq; lia). }
  assert (Hout : forall n' g', segs !! n' = Some g' -> n' * HBLKSZ ∉ l -> m' !! sg_hdr g' = hdrs s !! sg_hdr g').
  { intros n' g' Hn' Hnot. eapply (patched_out m' [] l); [exact HP|exact Hir|by rewrite HL|exact Hn'|exact Hnot]. }
  assert (Hmem : forall a, a ∈ n * HBLKSZ :: l <-> listed segs (X ∖ {[n]}) i a).
  { intros a. rewrite elem_of_cons, Hm. split.
    - intros [->|(n' & g' & -> & Hg' & Hf' & HX' & Hc')]; [exists n, g; split_and!; try done; set_solver|]. exists n', g'. split_and!; try done. set_solver.
    - intros (n' & g' & -> & Hg' & Hf' & HX' & Hc'). destruct (decide (n' = n)) as [->|Hne]; [by left|right]. exists n', g'. split_and!; try done. set_solver. }
  split.
  - eapply hinv_relink; try done.
    + intros n' g' Hn' HX' HX2 Hc. apply (Hout n' g' Hn'). intros Ha. apply Hm in Ha as (n2 & g2 & Heq & Hg2 & Hf2 & _ & Hc2).
      assert (n2 = n') as -> by (unfold HBLKSZ in Heq; lia). assert (g2 = g') as -> by congruence. by apply Hc.
    + intros n' g' x' Hn' Hx'. rewrite (P1 n' g' Hn') in Hx'. apply fmap_Some in Hx' as (x0 & Hx0 & ->). destruct (hdr_of n' g' Hn') as (x2 & Hx2 & Hbk & Hfr).
      assert (x2 = x0) as -> by congruence. split; [done|]. intros Hnx'. apply relinked_core; [destruct (decide (n' = n)) as [->|Hne]|].
      * assert (g' = g) as -> by congruence. congruence.
      * apply Hfr. set_solver.
      * destruct (decide (n' * HBLKSZ ∈ [] ++ l)) as [Hin|]; [left|by right]. apply Hm in Hin. by eapply listed_free.
    + intros n' [Hx' _]%elem_of_difference. by apply (hv_float _ _ _ _ _ _ I).
    + cbn. rewrite length_insert. apply (hv_len _ _ _ _ _ _ I).
    + cbn. intros j Hj. case_decide as Ej; [subst j; apply list_lookup_insert_eq; rewrite (hv_len _ _ _ _ _ _ I); lia|]. apply list_lookup_insert_ne. lia.
    + change (n * HBLKSZ :: l) with ([] ++ n * HBLKSZ :: l). change (n * HBLKSZ) with (default (n * HBLKSZ) (head (A := Z) [])) at 1.
      eapply dls_insert; [done| | |..|exact Hd].
      * destruct (sw_range _ _ (hv_wf _ _ _ _ _ _ I) _ _ Hn) as (H1 & _). unfold HBLKSZ. lia.
      * done.
      * unfold fnx. rewrite (hdr_at_start _ _ _ Hn), (Hout n g Hn Hna), Hx, Hnx. by apply dls_head in Hd.
      * unfold fpv. rewrite (hdr_at_start _ _ _ Hn), (Hout n g Hn Hna), Hx. done.
      * intros y Hy. apply Hm in Hy as (n' & g' & -> & Hg' & _). unfold fnx. rewrite (hdr_at_start _ _ _ Hg'), (P1 _ _ Hg'). destruct (hdr_of n' g' Hg') as (x0 & -> & _). done.
      * intros y Hy. apply Hm in Hy as (n' & g' & -> & Hg' & _). unfold fpv. rewrite (hdr_at_start _ _ _ Hg'), (P1 _ _ Hg'). destruct (hdr_of n' g' Hg') as (x0 & -> & _). done.
    + by apply list.NoDup_cons.
    + intros j a Hj. split; intros (n' & g' & -> & Hg' & Hf' & HX' & Hc'); exists n', g'; split_and!; try done; [|set_solver].
      intros Hx'. apply HX'. apply elem_of_difference. split; [done|]. intros ->%elem_of_singleton. assert (g' = g) as -> by congruence. congruence.
  - intros n' g' Hn' HX'. cbn. apply (Hout n' g' Hn'). intros Ha. apply Hm in Ha as (n2 & g2 & Heq & _ & _ & Hnx' & _). apply Hnx'. replace n2 with n' by (unfold HBLKSZ in Heq; lia). set_solver.
Qed.

End inv.

Lemma free_flag x : HBLK_IS_FREE (hdr_flags (Z.lor (hb_flags x) FREE_BLK) x) = true.
Proof.
  unfold HBLK_IS_FREE, FREE_BLK. cbn [hdr_flags hb_flags]. destruct (Z.eqb_spec (Z.land (Z.lor (hb_flags x) 4) 4) 0) as [H0|]; [|done].
  apply (f_equal (fun z => Z.testbit z 2)) in H0. by rewrite Z.land_spec, Z.lor_spec, orb_true_r in H0.
Qed.

Lemma wp_add_to_fl T s E L hl segs X n g x (Q : unit -> heap -> Prop) :
  hinv s E L hl segs X -> segs !! n = Some g -> n ∈ X -> hdrs s !! sg_hdr g = Some x -> hb_sz x = sg_len g * HBLKSZ ->
  (forall s' L', hinv s' E L' hl segs (X ∖ {[n]}) -> fr segs (X ∖ {[n]}) s s' -> hextent s' = hextent s -> Q tt s') ->
  wp T (MAK_add_to_fl (n * HBLKSZ) (sg_hdr g)) s Q.
Proof.
  intros I Hn HX Hx Hsz HQ. unfold MAK_add_to_fl. apply wp_bind. eapply wp_ld_hdr; [exact Hx|]. rewrite Hsz, divHBLKSZ_eq, Z.div_mul by done.
  destruct (hv_float _ _ _ _ _ _ I n HX) as (g0 & Hg0 & Hf). assert (g0 = g) as -> by congruence.
  destruct (sw_range _ _ (hv_wf _ _ _ _ _ _ I) _ _ Hn) as (_ & Hl & _). pose proof (fl_class_range _ Hl) as Hi. set (i := MAK_hblk_fl_from_blocks (sg_len g)) in *.
  destruct (hv_lists _ _ _ _ _ _ I i Hi) as (b & Hb & _).
  apply wp_bind. eapply wp_ok; [unfold fl_get; rewrite Hb; reflexivity|]. apply wp_bind, wp_mod. apply wp_bind, wp_mod.
  apply wp_bind. eapply wp_upd_hdr; [exact Hx|]. apply wp_bind. eapply wp_upd_hdr; [apply lookup_insert_eq|].
  cbn [set_hdrs set_hfree hdrs hfree MAK_hblkfreelist MAK_free_bytes MAK_large_free_bytes]. rewrite insert_insert_eq.
  set (x2 := hdr_prev 0 (hdr_next b x)). set (x3 := hdr_flags (Z.lor (hb_flags x2) FREE_BLK) x2).
  (* the same headers with the flag set first *)
  assert (I3 : hinv (set_hdrs (<[sg_hdr g := x3]> (hdrs s)) s) E L hl segs X).
  { destruct (hdr_of _ _ _ _ _ _ I n g Hn) as (x' & Hx' & Hbk & _). apply (hinv_float _ _ _ _ _ _ I n); [done|done|]. cbn. congruence. }
  pose proof I3 as I3'. destruct (hv_lists _ _ _ _ _ _ I3 i Hi) as (b' & Hb' & Hd & Hnd & Hm). assert (b' = b) as -> by (cbn in Hb'; congruence).
  assert (Hfor : hdr_for x3 g) by (split; [by rewrite Hf; apply free_flag|]; rewrite Hf; exact Hsz).
  pose proof (fun m' Hm' fb lfb => hinv_link _ _ _ _ _ _ I3 n g x3 i (L i) b m' fb lfb Hn HX ltac:(apply lookup_insert_eq) Hfor eq_refl eq_refl eq_refl Hi eq_refl Hb' Hd Hnd Hm Hm') as HU.
  cbn [set_hdrs hdrs hfree] in HU.
  assert (Hfin : forall m', patched segs (<[sg_hdr g := x3]> (hdrs s)) m' [] (L i) 0 (n * HBLKSZ) -> forall fb lfb,
     Q tt (set_hdrs m' (set_hfree (mkFree (<[Z.to_nat i := n * HBLKSZ]> (MAK_hblkfreelist (hfree s))) fb lfb) s))).
  { intros m' Hm' fb lfb. destruct (HU m' Hm' fb lfb) as [HI HF]. eapply HQ; [exact HI| |done]. intros n' g' Hn' HX'. etransitivity; [exact (HF n' g' Hn' HX')|]. cbn.
    rewrite lookup_insert_ne; [done|]. eapply hdr_ne; [exact I|done|done|]. intros ->. set_solver. }
  clear HU. assert (Hb0 : b = default 0 (head (L i))) by (by apply dls_head in Hd). apply wp_bind. destruct (head (L i)) as [a|] eqn:El; cbn [default from_option id] in Hb0; subst b.
  - assert (Ha : a ∈ L i) by (by apply head_Some_elem_of). destruct (member_hdr _ _ _ _ _ _ I i a Hi Ha) as (n' & g' & x' & -> & Hg' & _ & HnX & _ & Hw & Hx' & Ha0).
    assert (Hne : sg_hdr g <> sg_hdr g') by (eapply hdr_ne; [exact I|done|done|intros ->; done]).
    rewrite (proj2 (Z.eqb_neq _ _) Ha0). apply wp_bind. eapply wp_HDR; [eapply irep_ext; [..|exact (hv_idx _ _ _ _ _ _ I)]; done|]. rewrite Hw.
    eapply wp_upd_hdr; [cbn; rewrite lookup_insert_ne by done; exact Hx'|]. eapply wp_upd_hdr; [cbn; rewrite lookup_insert_ne by done; apply lookup_insert_eq|].
    cbn [set_hdrs set_hfree hdrs]. fold x3. rewrite insert_insert_ne by done. rewrite insert_insert_eq.
    apply (Hfin (<[sg_hdr g' := hdr_prev (n * HBLKSZ) x']> (<[sg_hdr g := x3]> (hdrs s)))). eapply patched_prev; [exact I|apply patched_id|exact Hg'| |exact El].
    by rewrite lookup_insert_ne.
  - rewrite Z.eqb_refl. apply wp_ret. eapply wp_upd_hdr; [apply lookup_insert_eq|]. cbn [set_hdrs set_hfree hdrs]. rewrite insert_insert_eq. fold x3. apply Hfin.
    assert (L i = []) as -> by (by destruct (L i)). apply patched_id.
Qed.

End heap.
