(* ===== verification/MakRuns.v ===== *)
(** * Makalu: headers and counts of runs

    Runs appear, disappear and change: headers are taken and given back, forwarding counts are
    installed and removed. *)

From S2P Require Import Prelude MakHdr MakBlock MakLib MakIndex MakSegs.
From stdpp Require Import sorting.
#[local] Open Scope Z_scope.
#[local] Open Scope cmd_scope.

Section heap.
Context `{!PersistentMem}.

(** ** Taking a header *)

Definition hdr_made (s s' : heap) (r : Z) : Prop :=
  exists rs sp, regions s ⊆ rs /\ s' = set_hdrs (<[r := hdr_zero]> (hdrs s)) (set_hdr_space sp (set_regions rs s)) /\
    hdrs s !! r = None /\ 4 * HBLKSZ <= r /\ space_ok rs sp (<[r := hdr_zero]> (hdrs s)) 1.

Lemma wp_carve_hdr fuel : forall s,
  MAK_hdr_free_list s = 0 -> space_ok (regions s) (hdr_space s) (hdrs s) 1 -> (1025 < fuel + length (spaces (hdr_space s)))%nat ->
  wp True (alloc_hdr fuel) s (fun r s' => hdr_made s s' r).
Proof.
  induction fuel as [|fuel IH]; intros s Hfl Hs Hf; [destruct Hs as (_ & _ & _ & Hl); lia|].
  cbn [alloc_hdr]. apply wp_bind, wp_gets. rewrite Hfl. cbn [Z.eqb negb]. apply wp_bind, wp_gets. apply wp_if; intros Hb.
  - apply Z.leb_le in Hb. apply wp_bind, wp_mod, wp_ret.
    destruct (space_take _ _ _ sizeof_hdr hdr_zero Hs ltac:(done) Hb) as (Ht1 & Ht2 & Ht3 & Ht4).
    eexists (regions s), _. split; [done|]. split; [|split_and!; [exact Ht1|exact Ht2|exact Ht4]]. by destruct s.
  - apply wp_bind, wp_gets. apply wp_bind, wp_mod. set (s1 := set_hdr_space _ s).
    assert (Hs1 : space_ok (regions s1) (hdr_space s1) (hdrs s1) 0) by by apply space_next. pose proof Hs1 as (_ & _ & Hc & _).
    apply wp_bind. eapply wp_mono; [apply wp_scratch; lia|]. intros res s2 Hg. apply wp_bind.
    eapply wp_mono; [eapply wp_retry; [|exact Hg]; lia|]. clear res s2 Hg. intros res s2 Hg. apply wp_bind. rewrite <- (andb_true_r (negb res)).
    eapply wp_mono; [eapply wp_retry; [|exact Hg]; lia|]. clear res s2 Hg. intros [] s2 Hg; cbn [negb]; [|by apply wp_throw].
    destruct Hg as (a & n & Ha & Hl & ->). eapply wp_mono.
    + apply IH; [done|exact (space_new _ _ _ _ _ Hs1 Hl Ha)|]. cbn. rewrite length_app. cbn. lia.
    + intros r s' (rs & sp & Hrs & -> & Hr). exists rs, sp. split; [cbn in Hrs; set_solver|]. split; [by destruct s|exact Hr].
Qed.

Lemma irep_more s E rs : irep s E -> regions s ⊆ rs -> irep (set_regions rs s) E.
Proof. intros (km & asc & H1 & H2 & H3) Hrs. exists km, asc. split; [done|]. split; [done|]. cbn. by eapply space_more. Qed.

Lemma seg_wf_more segs rs rs' : seg_wf segs rs -> rs ⊆ rs' -> seg_wf segs rs'.
Proof. intros [W1 W2 W3 W4] Hs. split; [done|done|done|]. intros n g m Hn Hm. eapply inside_more; [done|]. by eapply W4. Qed.

(** The header [r] is not in use. *)
Definition unused (s : heap) (hl : list Z) (segs : gmap Z seg) (r : Z) : Prop :=
  MAX_JUMP < r /\ is_Some (hdrs s !! r) /\ (r ∉ hl) /\ forall n g, segs !! n = Some g -> sg_hdr g <> r.

Lemma hinv_hfl s E L hl hl' segs X m' fl :
  hinv s E L hl segs X -> dom m' = dom (hdrs s) -> (forall n g, segs !! n = Some g -> m' !! sg_hdr g = hdrs s !! sg_hdr g) ->
  hlist m' fl hl' -> NoDup hl' -> (forall n g, segs !! n = Some g -> sg_hdr g ∉ hl') -> rest_unused m' segs ->
  hinv (set_hdr_free_list fl (set_hdrs m' s)) E L hl' segs X.
Proof.
  intros [I1 I2 I3 I4 I5 I6 I7 I8 I9 I10 IU I11] Hd Hs Hl Hn Hsep HU. split; try done; cbn [set_hdr_free_list set_hdrs hdrs regions hdr_space hfree MAK_hdr_free_list].
  - by eapply space_dom.
  - intros n g Hng. rewrite (Hs n g Hng). by apply I5.
  - intros i Hi. destruct (I8 i Hi) as (b & Hb' & Hd' & Hnd & Hm). exists b. split; [done|]. split; [|done]. eapply dls_ext; [|exact Hd'].
    intros a Ha. apply Hm in Ha as (n & g & -> & Hg & _). unfold fnx, fpv. rewrite (hdr_at_start _ _ _ Hg), (Hs n g Hg). done.
Qed.

Lemma wp_alloc_hdr s E L hl segs X : hinv s E L hl segs X ->
  wp True (alloc_hdr ALLOC_FUEL) s (fun r s' => exists hl', hinv s' E L hl' segs X /\ unused s' hl' segs r /\ fr segs (dom segs) s s' /\ hextent s' = hextent s /\
    hindex s' = hindex s /\ regions s ⊆ regions s').
Proof.
  intros I. destruct (Z.eqb_spec (MAK_hdr_free_list s) 0) as [Hfl|Hfl].
  - eapply wp_mono; [apply wp_carve_hdr; [done|exact (hv_space _ _ _ _ _ _ I)|unfold ALLOC_FUEL; lia]|].
    intros r s' (rs & sp & Hrs & -> & Hr & Hlow & Hsp). exists hl.
    assert (Hne : forall n g, segs !! n = Some g -> sg_hdr g <> r) by (intros n g Hn <-; destruct (hdr_of _ _ _ _ _ _ I n g Hn) as (x & Hx & _); congruence).
    destruct I as [I1 I2 I3 I4 I5 I6 I7 I8 [I9 I9'] I10 IU I11]. assert (Hnl : r ∉ hl) by (intros Hin; destruct (hlist_dom _ _ _ _ I9 Hin); congruence).
    split; [split; try done|]; cbn [set_hdrs set_hdr_space set_regions hdrs regions hdr_space hfree MAK_hdr_free_list].
    + exact (irep_more s E rs I1 Hrs).
    + by eapply seg_wf_more.
    + intros n g Hn. rewrite lookup_insert_ne by (by apply not_eq_sym, (Hne n)). by apply I5.
    + intros i Hi. destruct (I8 i Hi) as (b & Hb' & Hd' & Hnd & Hm). exists b. split; [done|]. split; [|done]. eapply dls_ext; [|exact Hd'].
      intros a Ha. apply Hm in Ha as (n & g & -> & Hg & _). unfold fnx, fpv. rewrite (hdr_at_start _ _ _ Hg), lookup_insert_ne by (by apply not_eq_sym, (Hne n)). done.
    + split; [|done]. eapply hlist_ext; [|exact I9]. intros y Hy. rewrite lookup_insert_ne; [done|]. intros ->. done.
    + eapply rest_unused_same; [exact IU|done|]. intros a x _. intros [[_ <-]|[_ ?]]%lookup_insert_Some; [by right|by left].
    + split_and!; try done.
      * split_and!; try done; [unfold MAX_JUMP, HBLKSZ in *; lia|]. cbn. rewrite lookup_insert_eq. by eexists.
      * intros n g Hn _. cbn. by rewrite lookup_insert_ne by (by apply not_eq_sym, (Hne n)).
  - destruct (hv_hfl _ _ _ _ _ _ I) as [Hh Hnd]. destruct hl as [|y hl]; [done|]. destruct Hh as (Hy & Hlow & x & Hx & Hh). apply list.NoDup_cons in Hnd as [Hyl Hnd].
    assert (Hne : forall n g, segs !! n = Some g -> sg_hdr g <> y) by (intros n g Hn <-; eapply (hv_sep _ _ _ _ _ _ I n g Hn); left).
    change ALLOC_FUEL with (S (pred ALLOC_FUEL)). generalize (pred ALLOC_FUEL). intros fuel. cbn [alloc_hdr]. apply wp_bind, wp_gets. rewrite (proj2 (Z.eqb_neq _ _) Hfl). cbn [negb].
    rewrite Hy. apply wp_bind. eapply wp_ld_hdr; [exact Hx|]. apply wp_bind, wp_mod. apply wp_bind. eapply wp_upd_hdr; [exact Hx|]. apply wp_ret. exists hl.
    split; [|split_and!; try done].
    + refine (hinv_hfl s E L (y :: hl) hl segs X (<[y := hdr_prev 0 (hdr_next 0 x)]> (hdrs s)) (hb_next x) I _ _ _ _ _ _).
      * by eapply dom_upd.
      * intros n g Hn. rewrite lookup_insert_ne; [done|]. by apply not_eq_sym, (Hne n).
      * eapply hlist_ext; [|exact Hh]. intros z Hz. rewrite lookup_insert_ne; [done|]. intros ->. done.
      * done.
      * intros n g Hn Hin. eapply (hv_sep _ _ _ _ _ _ I n g Hn). by right.
      * eapply rest_unused_same; [exact (hv_unused _ _ _ _ _ _ I)|done|]. intros a x' Hnr [[<- <-]|[_ ?]]%lookup_insert_Some; [right|by left]. cbn.
        by destruct (hv_unused _ _ _ _ _ _ I _ _ Hx).
    + split_and!; try done. cbn. rewrite lookup_insert_eq. by eexists.
    + intros n g Hn _. cbn. by rewrite lookup_insert_ne by (by apply not_eq_sym, (Hne n)).
Qed.

(** ** New runs *)

(** [n] can be the first of [len] blocks that are in no run. *)
Record fits (segs : gmap Z seg) (rs : list (Z * Z)) (n len : Z) : Prop := {
  ft_range : 1 < n /\ 0 < len /\ n + len <= 2 ^ 35;
  ft_disj : forall m, n <= m < n + len -> ~ covered segs m;
  ft_inside : forall m, n <= m < n + len -> inside rs (m * HBLKSZ) }.

Lemma fits_none segs rs n len : seg_wf segs rs -> fits segs rs n len -> segs !! n = None.
Proof.
  intros W [[_ [Hl _]] Hd _]. destruct (segs !! n) as [g|] eqn:En; [|done]. destruct (sw_range _ _ W _ _ En) as (_ & Hg & _).
  destruct (Hd n ltac:(lia)). exists n, g. split; [done|lia].
Qed.

Lemma seg_wf_insert segs rs n len h b :
  seg_wf segs rs -> fits segs rs n len -> MAX_JUMP < h -> (forall n' g, segs !! n' = Some g -> sg_hdr g <> h) -> seg_wf (<[n := mkSeg len h b]> segs) rs.
Proof.
  intros W F Hh Hne. pose proof (fits_none _ _ _ _ W F) as Hnone. destruct W as [W1 W2 W3 W4], F as [F1 F2 F3].
  assert (Hside : forall n' g', segs !! n' = Some g' -> n' + sg_len g' <= n \/ n + len <= n').
  { intros n' g' Hn'. destruct (W1 n' g' Hn') as (_ & Hl & _). destruct (Z_le_gt_dec (n' + sg_len g') n); [by left|]. destruct (Z_le_gt_dec (n + len) n'); [by right|].
    destruct (F2 (Z.max n n') ltac:(lia)). exists n', g'. split; [done|lia]. }
  split.
  - intros n' g' [[<- <-]|[Hne' Hn']]%lookup_insert_Some; [cbn; lia|by apply W1].
  - intros n1 g1 n2 g2 [[<- <-]|[Hne1 H1]]%lookup_insert_Some [[<- <-]|[Hne2 H2]]%lookup_insert_Some Hlt; cbn [sg_len]; [lia|..|by eapply W2].
    + destruct (Hside _ _ H2); destruct (W1 _ _ H2); lia.
    + destruct (Hside _ _ H1); [done|lia].
  - intros n1 g1 n2 g2 [[<- <-]|[Hne1 H1]]%lookup_insert_Some [[<- <-]|[Hne2 H2]]%lookup_insert_Some Heq; cbn [sg_hdr] in Heq; [done|..|by eapply W3].
    + by destruct (Hne _ _ H2).
    + by destruct (Hne _ _ H1).
  - intros n' g' m [[<- <-]|[Hne' Hn']]%lookup_insert_Some Hm; [by apply F3|by eapply W4].
Qed.

Lemma covered_insert segs n g m : segs !! n = None -> covered (<[n := g]> segs) m <-> n <= m < n + sg_len g \/ covered segs m.
Proof.
  intros Hn. split.
  - intros (n' & g' & [[<- <-]|[Hne Hn']]%lookup_insert_Some & Hm); [by left|right; by exists n', g'].
  - intros [Hm|(n' & g' & Hn' & Hm)]; [exists n, g; by rewrite lookup_insert_eq|exists n', g'; rewrite lookup_insert_ne; [done|congruence]].
Qed.

Lemma ent_insert segs rs E n len h : seg_wf segs rs -> fits segs rs n len -> ent_ok segs E -> ent_ok (<[n := mkSeg len h true]> segs) (upd E n h).
Proof.
  intros W F HE. pose proof (fits_none _ _ _ _ W F) as Hnone. destruct HE as [E1 E2 E3], F as [[_ [Hl _]] F2 _]. split.
  - intros n' g' [[<- <-]|[Hne Hn']]%lookup_insert_Some; unfold upd; [by rewrite decide_True|]. rewrite decide_False by done. by apply E1.
  - intros n' g' m [[<- <-]|[Hne Hn']]%lookup_insert_Some Hm; unfold upd; cbn [sg_len sg_free] in *.
    + rewrite decide_False by lia. apply E3, F2. lia.
    + rewrite decide_False; [by apply E2|]. intros ->. destruct (F2 n ltac:(lia)). exists n', g'. split; [done|lia].
  - intros m Hm. unfold upd. rewrite decide_False.
    + apply E3. intros Hc. apply Hm, covered_insert; [done|by right].
    + intros ->. apply Hm, covered_insert; [done|]. cbn. left. lia.
Qed.

(** A new run in no list. *)
Lemma hinv_new s E L hl segs X x' x n len r :
  hinv s E L hl segs X -> unused s hl segs r -> fits segs (regions s) n len -> hb_block x = n * HBLKSZ ->
  let s' := set_hindex x' (set_hdrs (<[r := x]> (hdrs s)) s) in
  irep s' (upd E n r) -> hinv s' (upd E n r) L hl (<[n := mkSeg len r true]> segs) (X ∪ {[n]}).
Proof.
  intros I (U1 & [x0 U2] & U3 & U4) F Hb s' Hir. destruct I as [I1 I2 I3 I4 I5 I6 I7 I8 I9 I10 IU I11]. pose proof (fits_none _ _ _ _ I3 F) as Hnone.
  assert (HnX : n ∉ X) by (intros Hin; destruct (I6 n Hin) as (g & Hg & _); congruence).
  split; try done; cbn [s' set_hindex set_hdrs hdrs regions hdr_space hfree MAK_hdr_free_list].
  - eapply space_dom; [|exact I2]. by eapply dom_upd.
  - by apply seg_wf_insert.
  - by eapply ent_insert.
  - intros n' g' [[<- <-]|[Hne Hn']]%lookup_insert_Some.
    + exists x. cbn [sg_hdr]. rewrite lookup_insert_eq. split; [done|]. split; [done|]. intros Hni. destruct Hni. set_solver.
    + destruct (I5 n' g' Hn') as (x2 & H1 & H2 & H3). exists x2. rewrite lookup_insert_ne by (by apply not_eq_sym, (U4 n')). split; [done|]. split; [done|]. intros Hni. apply H3. set_solver.
  - intros n' [Hin| ->%elem_of_singleton]%elem_of_union.
    + destruct (I6 n' Hin) as (g & Hg & Hf). exists g. rewrite lookup_insert_ne by congruence. done.
    + rewrite lookup_insert_eq. by eexists.
  - intros i Hi. destruct (I8 i Hi) as (b & Hb' & Hd' & Hnd & Hm). exists b. split; [done|].
    assert (Hm' : forall a, a ∈ L i <-> listed (<[n := mkSeg len r true]> segs) (X ∪ {[n]}) i a).
    { intros a. rewrite Hm. split; intros (n' & g' & -> & Hg' & Hf' & HX' & Hc'); exists n', g'; split_and!; try done.
      - rewrite lookup_insert_ne by congruence. done.
      - intros [?| ->%elem_of_singleton]%elem_of_union; [done|congruence].
      - apply lookup_insert_Some in Hg' as [[-> _]|[_ ?]]; [set_solver|done].
      - set_solver. }
    split; [|split; [done|exact Hm']]. eapply dls_ext; [|exact Hd'].
    intros a Ha. apply Hm in Ha as (n' & g' & -> & Hg' & _). assert (Hnn : n <> n') by congruence.
    unfold fnx, fpv, hdr_at. rewrite bno_addr, (lookup_insert_ne segs) by done. rewrite Hg', lookup_insert_ne by (by apply not_eq_sym, (U4 n')). done.
  - destruct I9 as [I9 I9']. split; [|done]. eapply hlist_ext; [|exact I9]. intros y Hy. rewrite lookup_insert_ne; [done|]. intros ->. done.
  - intros n' g' [[<- <-]|[Hne Hn']]%lookup_insert_Some; [done|by eapply I10].
  - eapply rest_unused_same; [exact IU|..].
    + intros a (n' & g' & Hn' & <-). exists n', g'. split; [|done]. rewrite lookup_insert_ne; [done|congruence].
    + intros a y Hnr [[<- _]|[_ ?]]%lookup_insert_Some; [|by left]. destruct Hnr. eexists n, _. by rewrite lookup_insert_eq.
Qed.

Lemma hinv_index s s' E L hl segs X : hinv s E L hl segs X -> index_of s s' -> irep s' E -> hinv s' E L hl segs X.
Proof.
  intros I (x & rs & -> & Hrs & _) Hir. destruct I as [I1 I2 I3 I4 I5 I6 I7 I8 I9 I10 IU I11]. split; try done; cbn.
  - by eapply space_more.
  - by eapply seg_wf_more.
Qed.

Lemma fits_more segs rs rs' n len : fits segs rs n len -> rs ⊆ rs' -> fits segs rs' n len.
Proof. intros [F1 F2 F3] Hs. split; [done|done|]. intros m Hm. eapply inside_more; [done|]. by apply F3. Qed.

Lemma index_of_hdrs s s' : index_of s s' -> hdrs s' = hdrs s /\ hextent s' = hextent s /\ regions s ⊆ regions s'.
Proof. by intros (x & rs & -> & Hrs & _). Qed.

Lemma wp_install_header s E L hl segs X n len :
  hinv s E L hl segs X -> fits segs (regions s) n len ->
  wp True (MAK_install_header (n * HBLKSZ)) s (fun r s' => exists E' hl',
    r <> 0 /\ hinv s' E' L hl' (<[n := mkSeg len r true]> segs) (X ∪ {[n]}) /\ fr segs (dom segs) s s' /\ hextent s' = hextent s /\ regions s ⊆ regions s').
Proof.
  intros I F. pose proof (ft_range _ _ _ _ F) as (Hn1 & _). unfold MAK_install_header. apply wp_bind.
  eapply wp_mono; [apply wp_get_index; [exact (hv_idx _ _ _ _ _ _ I)|unfold HBLKSZ; lia]|]. intros ok s1 (-> & Hir & Hk & Hof). cbn [negb].
  pose proof (hinv_index _ _ _ _ _ _ _ I Hof Hir) as I1. destruct (index_of_hdrs _ _ Hof) as (Hh1 & He1 & Hr1).
  apply wp_bind. eapply wp_mono; [eapply wp_alloc_hdr; exact I1|]. intros r s2 (hl' & I2 & U & Hfr & He2 & Hi2 & Hr2). pose proof U as (U1 & [x Hx] & U3 & U4).
  apply wp_bind. eapply wp_upd_hdr; [exact Hx|]. set (s3 := set_hdrs _ s2).
  assert (Hr0 : r <> 0) by (unfold MAX_JUMP, HBLKSZ in U1; lia). rewrite (proj2 (Z.eqb_neq _ _) Hr0). apply wp_bind.
  eapply (wp_SET_HDR _ s3 E); [eapply irep_ext; [..|exact (hv_idx _ _ _ _ _ _ I2)]; done|unfold known; cbn; rewrite Hi2; exact Hk|]. intros x' Hir' Hof'. rewrite bno_addr in Hir'.
  apply wp_ret. exists (upd E n r), hl'. split; [done|]. split; [|split; [|split; [cbn; congruence|cbn; set_solver]]].
  - apply (hinv_new s2); [exact I2|exact U| |done|exact Hir']. eapply fits_more; [exact F|]. set_solver.
  - intros n' g' Hn' Hd. cbn. rewrite lookup_insert_ne by (by apply not_eq_sym, (U4 n')). rewrite <- Hh1. by eapply Hfr.
Qed.

(** ** Runs that disappear *)

Lemma covered_delete segs rs n g m : seg_wf segs rs -> segs !! n = Some g -> covered (delete n segs) m <-> covered segs m /\ ~ (n <= m < n + sg_len g).
Proof.
  intros W Hn. split.
  - intros (n' & g' & [Hne Hn']%lookup_delete_Some & Hm). split; [by exists n', g'|]. intros Hm'. by apply Hne, (seg_overlap segs rs n g n' g' m).
  - intros [(n' & g' & Hn' & Hm) Hnot]. exists n', g'. rewrite lookup_delete_ne; [done|]. intros ->. assert (g' = g) as -> by congruence. done.
Qed.

Lemma seg_wf_delete segs rs n : seg_wf segs rs -> seg_wf (delete n segs) rs.
Proof.
  intros [W1 W2 W3 W4]. split.
  - intros n' g' [_ Hn']%lookup_delete_Some. by apply W1.
  - intros n1 g1 n2 g2 [_ H1]%lookup_delete_Some [_ H2]%lookup_delete_Some. by eapply W2.
  - intros n1 g1 n2 g2 [_ H1]%lookup_delete_Some [_ H2]%lookup_delete_Some. by eapply W3.
  - intros n' g' m [_ Hn']%lookup_delete_Some. by eapply W4.
Qed.

Lemma ent_delete segs rs E n g : seg_wf segs rs -> ent_ok segs E -> segs !! n = Some g -> sg_free g = true -> ent_ok (delete n segs) (upd E n 0).
Proof.
  intros W HE Hn Hf. destruct (sw_range _ _ W _ _ Hn) as (_ & Hl & _). split.
  - intros n' g' [Hne Hn']%lookup_delete_Some. unfold upd. rewrite decide_False by done. by apply (en_start _ _ HE).
  - intros n' g' m [Hne Hn']%lookup_delete_Some Hm. unfold upd. rewrite decide_False; [by apply (en_inner _ _ HE)|]. intros ->.
    apply Hne, (seg_overlap segs rs n g n' g' n); [done|done|done|lia|lia].
  - intros m Hm. unfold upd. case_decide as Em; [done|]. destruct (ent_cases _ _ m HE) as [(n' & g' & Hn' & Hr & Hc)|[_ ->]]; [|done].
    destruct (decide (n' = n)) as [->|Hne].
    + assert (g' = g) as -> by congruence. rewrite Hf in Hc. destruct Hc as [[-> _]|[_ ->]]; done.
    + destruct Hm. exists n', g'. by rewrite lookup_delete_ne.
Qed.

Lemma wp_remove_header T s E L hl segs X n g (Q : unit -> heap -> Prop) :
  hinv s E L hl segs X -> segs !! n = Some g -> n ∈ X ->
  (forall s' E', hinv s' E' L (sg_hdr g :: hl) (delete n segs) (X ∖ {[n]}) -> fr (delete n segs) (dom segs) s s' -> hextent s' = hextent s -> regions s' = regions s -> Q tt s') ->
  wp T (MAK_remove_header (n * HBLKSZ)) s Q.
Proof.
  intros I Hn HX HQ. pose proof (word_of _ _ _ _ _ _ I n g Hn) as Hw. destruct (hdr_of _ _ _ _ _ _ I n g Hn) as (x & Hx & Hbk & _).
  unfold MAK_remove_header. apply wp_bind. eapply wp_HDR; [exact (hv_idx _ _ _ _ _ _ I)|]. rewrite bno_addr, Hw.
  apply wp_bind. eapply wp_upd_hdr; [exact Hx|]. apply wp_bind. eapply wp_upd_hdr; [apply lookup_insert_eq|]. apply wp_bind, wp_gets. apply wp_bind. eapply wp_upd_hdr; [apply lookup_insert_eq|].
  apply wp_bind, wp_mod. cbn [set_hdrs hdrs MAK_hdr_free_list]. rewrite !insert_insert_eq. set (x' := hdr_next _ _).
  set (s1 := set_hdr_free_list _ _). assert (Hs1 : s1 = set_hdr_free_list (sg_hdr g) (set_hdrs (<[sg_hdr g := x']> (hdrs s)) s)) by done. clearbody s1.
  destruct (sw_range _ _ (hv_wf _ _ _ _ _ _ I) _ _ Hn) as (_ & _ & _ & Hlow).
  eapply (wp_SET_HDR _ s1 E); [rewrite Hs1; exact (hv_idx _ _ _ _ _ _ I)| |].
  { apply (known_nonzero s1 E); [rewrite Hs1; exact (hv_idx _ _ _ _ _ _ I)|]. rewrite bno_addr, Hw. unfold MAX_JUMP, HBLKSZ in Hlow. lia. }
  intros ix Hir Hof. rewrite bno_addr in Hir. subst s1.
  assert (Hne : forall n' g', delete n segs !! n' = Some g' -> sg_hdr g <> sg_hdr g').
  { intros n' g' [Hne Hn']%lookup_delete_Some. by eapply hdr_ne. }
  apply (HQ _ (upd E n 0)); [|intros n' g' Hn' _; cbn; by rewrite lookup_insert_ne by (by eapply Hne)|done|done].
  destruct (hv_float _ _ _ _ _ _ I n HX) as (g0 & Hg0 & Hf). assert (g0 = g) as -> by congruence. pose proof (hv_sep _ _ _ _ _ _ I n g Hn) as Hsep.
  destruct I as [I1 I2 I3 I4 I5 I6 I7 I8 [I9 I9'] I10 IU I11]. split; try done; cbn [set_hindex set_hdr_free_list set_hdrs hdrs regions hdr_space hfree MAK_hdr_free_list].
  - eapply space_dom; [|exact I2]. by eapply dom_upd.
  - by apply seg_wf_delete.
  - by eapply ent_delete.
  - intros n' g' Hn'. rewrite lookup_insert_ne by (by eapply Hne). apply lookup_delete_Some in Hn' as [Hne' Hn']. destruct (I5 n' g' Hn') as (x2 & H1 & H2 & H3).
    exists x2. split; [done|]. split; [done|]. intros Hni. apply H3. set_solver.
  - intros n' [Hin Hnn]%elem_of_difference. destruct (I6 n' Hin) as (g' & Hg' & Hf'). exists g'. rewrite lookup_delete_ne by set_solver. done.
  - intros i Hi. destruct (I8 i Hi) as (b & Hb' & Hd' & Hnd & Hm). exists b. split; [done|].
    assert (Hm' : forall a, a ∈ L i <-> listed (delete n segs) (X ∖ {[n]}) i a).
    { intros a. rewrite Hm. split; intros (n' & g' & -> & Hg' & Hf' & HX' & Hc'); exists n', g'; split_and!; try done.
      - rewrite lookup_delete_ne by congruence. done.
      - set_solver.
      - by apply lookup_delete_Some in Hg' as [_ ?].
      - apply lookup_delete_Some in Hg' as [? _]. set_solver. }
    split; [|split; [done|exact Hm']]. eapply dls_ext; [|exact Hd'].
    intros a Ha. apply Hm' in Ha as (n' & g' & -> & Hg' & _). unfold fnx, fpv. rewrite (hdr_at_start _ _ _ Hg'). rewrite lookup_insert_ne by (by eapply Hne).
    apply lookup_delete_Some in Hg' as [_ Hg']. by rewrite (hdr_at_start _ _ _ Hg').
  - split; [|by apply list.NoDup_cons]. split; [done|]. split; [done|]. exists x'. split; [apply lookup_insert_eq|]. cbn. eapply hlist_ext; [|exact I9].
    intros y Hy. rewrite lookup_insert_ne; [done|]. intros <-. done.
  - intros n' g' Hn'. pose proof (Hne n' g' Hn') as Hng. apply lookup_delete_Some in Hn' as [_ Hn']. intros [Heq|Hin]%elem_of_cons; [done|by eapply I10].
  - intros a y [[<- <-]|[Hna Ha]]%lookup_insert_Some; [by left|]. destruct (IU a y Ha) as [|(n' & g' & Hn' & <-)]; [by left|right].
    exists n', g'. split; [|done]. rewrite lookup_delete_ne; [done|]. intros ->. apply Hna. by replace g' with g by congruence.
Qed.

End heap.

(** ** Makalu: forwarding counts, runs that change, and the free run before a block

    [MAK_install_counts] makes a free run an allocated one, [MAK_remove_counts] the converse. *)

Section heap.
Context `{!PersistentMem}.

(** A run that is in no list, before and after, changes. *)
Lemma hinv_change s s' E E' L hl segs X X' n g g' :
  hinv s E L hl segs X -> segs !! n = Some g -> sg_hdr g' = sg_hdr g -> n ∈ X \/ sg_free g = false ->
  (n ∈ X' /\ sg_free g' = true) \/ ((n ∉ X') /\ sg_free g' = false /\ forall x, hdrs s !! sg_hdr g = Some x -> hdr_for x g') ->
  (forall m, m <> n -> m ∈ X' <-> m ∈ X) -> index_of s s' -> irep s' E' ->
  seg_wf (<[n := g']> segs) (regions s') -> ent_ok (<[n := g']> segs) E' -> hinv s' E' L hl (<[n := g']> segs) X'.
Proof.
  intros I Hn Hh Hbef Haft HXX (ix & rs & -> & Hrs & Hk) Hir HW HE. destruct I as [I1 I2 I3 I4 I5 I6 I7 I8 I9 I10 IU I11].
  split; try done; cbn [set_hindex set_regions hdrs regions hdr_space hfree MAK_hdr_free_list] in *.
  - by eapply space_more.
  - intros n' g2 [[<- <-]|[Hne Hn']]%lookup_insert_Some.
    + rewrite Hh. destruct (I5 n g Hn) as (x & Hx & Hb & _). exists x. split; [done|]. split; [done|]. intros HnX. destruct Haft as [[? _]|(_ & _ & Hf)]; [done|by apply Hf].
    + destruct (I5 n' g2 Hn') as (x & Hx & Hb & Hf). exists x. split; [done|]. split; [done|]. intros HnX. apply Hf. by rewrite <- HXX.
  - intros n' Hin. destruct (decide (n' = n)) as [->|Hne].
    + rewrite lookup_insert_eq. exists g'. split; [done|]. by destruct Haft as [[_ ?]|(? & _)].
    + rewrite lookup_insert_ne by done. apply I6. by apply HXX.
  - intros i Hi. destruct (I8 i Hi) as (b & Hb' & Hd' & Hnd & Hm). exists b. split; [done|].
    assert (Hm' : forall a, a ∈ L i <-> listed (<[n := g']> segs) X' i a).
    { intros a. rewrite Hm. split; intros (n' & g2 & -> & Hg' & Hf' & HX' & Hc').
      - assert (Hne : n' <> n) by (intros ->; assert (g2 = g) as -> by congruence; destruct Hbef; congruence). exists n', g2. split_and!; try done.
        + by rewrite lookup_insert_ne.
        + by rewrite HXX.
      - destruct (decide (n' = n)) as [->|Hne].
        + rewrite lookup_insert_eq in Hg'. injection Hg' as ->. destruct Haft as [[? _]|(_ & Hf2 & _)]; [done|congruence].
        + rewrite lookup_insert_ne in Hg' by done. exists n', g2. split_and!; try done. by rewrite <- HXX. }
    split; [|split; [done|exact Hm']]. eapply dls_ext; [|exact Hd']. intros a Ha. apply Hm in Ha as (n' & g2 & -> & Hg2 & Hf2 & HX2 & _).
    assert (Hne : n <> n') by (intros ->; assert (g2 = g) as -> by congruence; destruct Hbef; congruence).
    unfold fnx, fpv, hdr_at. rewrite bno_addr, lookup_insert_ne by done. done.
  - intros n' g2 [[<- <-]|[Hne Hn']]%lookup_insert_Some; [rewrite Hh; by eapply I10|by eapply I10].
  - eapply rest_unused_same; [exact IU| |by left]. intros a (n' & g2 & Hn' & <-). destruct (decide (n' = n)) as [->|Hne].
    + exists n, g'. rewrite lookup_insert_eq, Hh. split; [done|congruence].
    + exists n', g2. by rewrite lookup_insert_ne.
Qed.

(** ** Loops over the words of a run *)

Definition set_range (E : Z -> Z) (n len : Z) (f : Z -> Z) : Z -> Z := fun m => if decide (n < m < n + len) then f (m - n) else E m.

Lemma irep_eq s E E' : (forall m, E m = E' m) -> irep s E -> irep s E'.
Proof. intros He (km & asc & H1 & H2 & H3). exists km, asc. split; [done|]. split; [|done]. intros m. by rewrite H2. Qed.

Lemma wp_set_range T s E n len f : irep s E -> (forall k, 1 <= k < len -> known s (n + k)) ->
  wp T (cfor (seqZ 1 (len - 1)) (fun k => SET_HDR (n * HBLKSZ + k * HBLKSZ) (f k))) s (fun _ s' => index_of s s' /\ irep s' (set_range E n len f) /\ regions s' = regions s).
Proof.
  intros Hir Hk. eapply wp_mono.
  { apply (wp_for _ _ _ (fun l s' => index_of s s' /\ irep s' (set_range E n (1 + Z.of_nat (length l)) f) /\ regions s' = regions s)).
    - split; [apply index_of_refl|]. split; [|done]. eapply irep_eq; [|exact Hir]. intros m. unfold set_range. rewrite decide_False; [done|]. cbn. lia.
    - intros l1 k l2 s1 Hl (Hof & Hir1 & Hrs). assert (Hkk : k = 1 + Z.of_nat (length l1) /\ 1 <= k < len).
      { assert (Hlk : seqZ 1 (len - 1) !! length l1 = Some k) by (rewrite Hl, lookup_app_r, Nat.sub_diag by lia; done). apply lookup_seqZ in Hlk. lia. }
      destruct Hkk as [Hkl Hkr]. assert (Hbno : bno (n * HBLKSZ + k * HBLKSZ) = n + k) by (rewrite <- Z.mul_add_distr_r; apply bno_addr).
      eapply (wp_SET_HDR _ s1); [exact Hir1| |].
      + rewrite Hbno. destruct Hof as (? & ? & ? & ? & Hkn). by apply Hkn, Hk.
      + intros x' Hir2 Hof2. split; [by eapply index_of_trans|]. split; [|done]. eapply irep_eq; [|exact Hir2]. intros m. unfold upd, set_range. rewrite Hbno, length_app. cbn [length].
        repeat case_decide; try lia; try done. f_equal. lia. }
  intros [] s' (H1 & H2 & H3). split; [done|]. split; [|done]. eapply irep_eq; [|exact H2]. intros m. unfold set_range. rewrite length_seqZ. repeat case_decide; try lia; done.
Qed.

Lemma blocks_up len : (len * HBLKSZ + HBLKSZ - 1) / HBLKSZ = len.
Proof. replace (len * HBLKSZ + HBLKSZ - 1) with (len * HBLKSZ + (HBLKSZ - 1)) by lia. rewrite Z.div_add_l by done. rewrite Z.div_small; unfold HBLKSZ; lia. Qed.

(** A run changes from allocated to free, or back. *)
Lemma seg_wf_tag segs rs n g b d : seg_wf segs rs -> segs !! n = Some g -> seg_wf (<[n := mkSegD (sg_len g) (sg_hdr g) b d]> segs) rs.
Proof.
  intros [W1 W2 W3 W4] Hn. split.
  - intros n' g' [[<- <-]|[_ Hn']]%lookup_insert_Some; [by apply (W1 n g)|by apply W1].
  - intros n1 g1 n2 g2 [[<- <-]|[Hne1 H1]]%lookup_insert_Some [[<- <-]|[Hne2 H2]]%lookup_insert_Some Hlt; cbn [sg_len]; [lia|..|by eapply W2]; by eapply W2.
  - intros n1 g1 n2 g2 [[<- <-]|[Hne1 H1]]%lookup_insert_Some [[<- <-]|[Hne2 H2]]%lookup_insert_Some Heq; cbn [sg_hdr] in Heq; [done|..|by eapply W3]; by eapply W3.
  - intros n' g' m [[<- <-]|[_ Hn']]%lookup_insert_Some Hm; by eapply W4.
Qed.

Lemma ent_tag segs rs E n g b d : seg_wf segs rs -> segs !! n = Some g -> ent_ok segs E ->
  ent_ok (<[n := mkSegD (sg_len g) (sg_hdr g) b d]> segs) (set_range E n (sg_len g) (fun k => if b then 0 else forward_count k)).
Proof.
  intros W Hn HE. destruct (sw_range _ _ W _ _ Hn) as (_ & Hl & _).
  assert (Hout : forall n' g' m, segs !! n' = Some g' -> n' <> n -> n' <= m < n' + sg_len g' -> ~ (n < m < n + sg_len g)).
  { intros n' g' m Hn' Hne Hm Hm'. apply Hne, (seg_overlap segs rs n' g' n g m); [done|done|done|lia|lia]. }
  unfold set_range. split.
  - intros n' g' [[<- <-]|[Hne Hn']]%lookup_insert_Some; cbn [sg_hdr].
    + rewrite decide_False by lia. by apply (en_start _ _ HE).
    + destruct (sw_range _ _ W _ _ Hn') as (_ & Hl' & _). rewrite decide_False by (eapply Hout; [exact Hn'|done|lia]). by apply (en_start _ _ HE).
  - intros n' g' m [[<- <-]|[Hne Hn']]%lookup_insert_Some Hm; cbn [sg_len sg_free] in *; [by rewrite decide_True|].
    rewrite decide_False by (eapply Hout; [exact Hn'|done|lia]). by apply (en_inner _ _ HE).
  - intros m Hm. assert (Hnc : ~ covered segs m).
    { intros (n' & g' & Hn' & Hr). apply Hm. destruct (decide (n' = n)) as [->|Hne].
      - eexists n, _. rewrite lookup_insert_eq. split; [done|]. cbn. congruence.
      - exists n', g'. by rewrite lookup_insert_ne. }
    rewrite decide_False; [by apply (en_other _ _ HE)|]. intros Hr. apply Hnc. exists n, g. split; [done|lia].
Qed.

(** An allocated run becomes free. *)
Lemma wp_remove_counts T s E L hl segs X n g (Q : unit -> heap -> Prop) :
  hinv s E L hl segs X -> segs !! n = Some g -> sg_free g = false ->
  (forall s' E', hinv s' E' L hl (<[n := mkSeg (sg_len g) (sg_hdr g) true]> segs) (X ∪ {[n]}) -> hdrs s' = hdrs s -> hextent s' = hextent s -> regions s' = regions s -> Q tt s') ->
  wp T (MAK_remove_counts (n * HBLKSZ) (sg_len g * HBLKSZ)) s Q.
Proof.
  intros I Hn Hf HQ. unfold MAK_remove_counts. rewrite blocks_up. pose proof (hv_ent _ _ _ _ _ _ I) as HE. pose proof (hv_wf _ _ _ _ _ _ I) as W.
  destruct (sw_range _ _ W _ _ Hn) as (_ & Hl & _). eapply wp_mono; [apply (wp_set_range _ s E n (sg_len g) (fun _ => 0)); [exact (hv_idx _ _ _ _ _ _ I)|]|].
  { intros k Hk. apply (known_nonzero s E); [exact (hv_idx _ _ _ _ _ _ I)|]. rewrite (en_inner _ _ HE n g (n + k) Hn) by lia. rewrite Hf.
    destruct (forward_count_range (n + k - n) ltac:(lia)). lia. }
  intros [] s' (Hof & Hir & Hrs). destruct (index_of_hdrs _ _ Hof) as (Hh & He & _). apply (HQ _ (set_range E n (sg_len g) (fun _ => 0))); [|done|done|done].
  eapply hinv_change; [exact I|exact Hn|done|by right|left; set_solver|set_solver|done|done|..].
  - rewrite Hrs. by apply seg_wf_tag.
  - by eapply (ent_tag segs _ E n g true).
Qed.

(** *** The index blocks of a run *)

Lemma wp_get_indices l : forall s E, irep s E -> (forall a, a ∈ l -> 0 <= a) ->
  wp True (get_indices l) s (fun ok s' => ok = true /\ irep s' E /\ (forall a, a ∈ l -> known s' (bno a)) /\ index_of s s').
Proof.
  induction l as [|a l IH]; intros s E Hir Hpos; cbn [get_indices].
  - apply wp_ret. split; [done|]. split; [done|]. split; [intros a Ha; by apply not_elem_of_nil in Ha|apply index_of_refl].
  - apply wp_bind. eapply wp_mono; [apply wp_get_index; [exact Hir|apply Hpos; left]|]. intros ok s1 (-> & Hir1 & Hk1 & Hof1).
    eapply wp_mono; [apply (IH s1 E Hir1); intros b Hb; apply Hpos; by right|]. intros ok s2 (-> & Hir2 & Hk2 & Hof2). split; [done|]. split; [done|].
    split; [|by eapply index_of_trans]. intros b [->|Hb]%elem_of_cons; [|by apply Hk2]. destruct Hof2 as (? & ? & ? & ? & Hkk). by apply Hkk.
Qed.

Lemma known_same s m m' : m / BOTTOM_SZ = m' / BOTTOM_SZ -> known s m -> known s m'.
Proof. intros Hd (b & y & H1 & H2 & H3). exists b, y. by rewrite <- Hd. Qed.

(** Every block of a run has the index block of one of the addresses that are asked for. *)
Lemma run_known s n len : 0 < len -> (forall k, 0 <= k < (len + BOTTOM_SZ - 1) / BOTTOM_SZ -> known s (n + k * BOTTOM_SZ)) -> known s (n + len - 1) ->
  forall k, 0 <= k < len -> known s (n + k).
Proof.
  intros Hl Hk Hlast k Hkr. unfold BOTTOM_SZ in *. set (j := k / 1024). pose proof (Z.div_mod k 1024 ltac:(done)) as Hj. pose proof (Z.mod_pos_bound k 1024 ltac:(done)) as Hj2. fold j in Hj.
  assert (Hj0 : 0 <= j) by (apply Z.div_pos; lia). assert (Hceil : forall i, 0 <= i -> i * 1024 < len -> known s (n + i * 1024)).
  { intros i Hi Hil. apply Hk. split; [done|]. apply (Z.lt_le_trans _ (i + 1)); [lia|]. apply Z.div_le_lower_bound; lia. }
  destruct (Z.eq_dec ((n + k) / 1024) ((n + j * 1024) / 1024)) as [He|He]; [eapply known_same; [symmetry; exact He|apply Hceil; lia]|].
  rewrite Z.div_add in He by done. pose proof (Z.div_le_mono (n + j * 1024) (n + k) 1024 ltac:(done) ltac:(lia)) as H1. rewrite Z.div_add in H1 by done.
  pose proof (Z.div_le_mono (n + k) (n + (j + 1) * 1024) 1024 ltac:(done) ltac:(lia)) as H2. rewrite Z.div_add in H2 by done.
  destruct (Z_lt_ge_dec ((j + 1) * 1024) len) as [Hn|Hn].
  - eapply known_same; [|apply (Hceil (j + 1)); lia]. unfold BOTTOM_SZ. rewrite Z.div_add by done. lia.
  - eapply known_same; [|exact Hlast]. unfold BOTTOM_SZ. pose proof (Z.div_le_mono (n + k) (n + len - 1) 1024 ltac:(done) ltac:(lia)).
    pose proof (Z.div_le_mono (n + len - 1) (n + (j + 1) * 1024) 1024 ltac:(done) ltac:(lia)) as H3. rewrite Z.div_add in H3 by done. lia.
Qed.

Lemma wp_install_counts s E L hl segs X n g x :
  hinv s E L hl segs X -> segs !! n = Some g -> n ∈ X -> hdrs s !! sg_hdr g = Some x -> hdr_for x (mkSegD (sg_len g) (sg_hdr g) false x) ->
  wp True (MAK_install_counts (n * HBLKSZ) (sg_len g * HBLKSZ)) s (fun ok s' => ok = true /\ exists E',
    hinv s' E' L hl (<[n := mkSegD (sg_len g) (sg_hdr g) false x]> segs) (X ∖ {[n]}) /\ hdrs s' = hdrs s /\ hextent s' = hextent s /\ regions s ⊆ regions s').
Proof.
  intros I Hn HX Hx Hfor. pose proof (hv_wf _ _ _ _ _ _ I) as W. destruct (sw_range _ _ W _ _ Hn) as (Hn1 & Hl & _). unfold MAK_install_counts. rewrite blocks_up. apply wp_bind.
  eapply wp_mono; [apply wp_get_indices; [exact (hv_idx _ _ _ _ _ _ I)|]|].
  { intros a (k & -> & Hk)%list_elem_of_fmap. apply elem_of_seqZ in Hk. unfold HBLKSZ, BOTTOM_SZ. lia. }
  intros ok s1 (-> & Hir1 & Hk1 & Hof1). cbn [negb]. apply wp_bind. eapply wp_mono; [apply (wp_get_index s1 E); [exact Hir1|unfold HBLKSZ; lia]|].
  intros ok s2 (-> & Hir2 & Hk2 & Hof2). cbn [negb]. apply wp_bind. eapply wp_mono.
  { apply (wp_set_range _ s2 E n (sg_len g) (fun k => forward_count (divHBLKSZ (k * HBLKSZ)))); [exact Hir2|]. intros k Hk. apply (run_known s2 n (sg_len g)); [done| | |lia].
    - intros j Hj. destruct Hof2 as (? & ? & ? & ? & Hkk). apply Hkk. specialize (Hk1 (n * HBLKSZ + j * BOTTOM_SZ * HBLKSZ)).
      rewrite <- Z.mul_add_distr_r, bno_addr in Hk1. apply Hk1, list_elem_of_fmap. exists j. split; [by rewrite Z.mul_add_distr_r|]. apply elem_of_seqZ. lia.
    - assert (Hb : bno (n * HBLKSZ + sg_len g * HBLKSZ - 1) = n + sg_len g - 1); [|by rewrite Hb in Hk2].
      unfold bno. replace (n * HBLKSZ + sg_len g * HBLKSZ - 1) with ((n + sg_len g - 1) * HBLKSZ + (HBLKSZ - 1)) by lia. rewrite Z.div_add_l by done. rewrite Z.div_small; unfold HBLKSZ; lia. }
  intros [] s3 (Hof3 & Hir3 & Hrs3). apply wp_ret. split; [done|]. assert (Hof : index_of s s3) by (by eapply index_of_trans; [exact Hof1|]; eapply index_of_trans).
  destruct (index_of_hdrs _ _ Hof) as (Hh & He & Hrs). exists (set_range E n (sg_len g) forward_count). split; [|done].
  eapply hinv_change; [exact I|exact Hn|done|by left| |set_solver|done| | |].
  - right. split; [set_solver|]. split; [done|]. intros x'. rewrite Hx. by intros [= <-].
  - eapply irep_eq; [|exact Hir3]. intros m. unfold set_range. case_decide; [|done]. by rewrite divHBLKSZ_eq, Z.div_mul.
  - eapply seg_wf_tag; [|exact Hn]. by eapply seg_wf_more.
  - by eapply (ent_tag segs _ E n g false); [| |exact (hv_ent _ _ _ _ _ _ I)].
Qed.

End heap.

(** ** Makalu: the free run in front of a block

    [MAK_free_block_ending_at] looks at the word before the block; it follows forwarding counts to
    the start of an allocated run, and searches the index for the start of a free one. *)

(** The address of the free run that ends where [n] starts, or 0. *)
Definition ending (segs : gmap Z seg) (n r : Z) : Prop :=
  (r = 0 /\ forall q g, segs !! q = Some g -> sg_free g = true -> q + sg_len g <> n) \/
  exists q g, segs !! q = Some g /\ sg_free g = true /\ q + sg_len g = n /\ r = q * HBLKSZ.

(** Enough fuel for the walk back over a run. *)
Definition enough (segs : gmap Z seg) (fuel : nat) : Prop := forall n g, segs !! n = Some g -> sg_len g < Z.of_nat fuel.

Section heap.
Context `{!PersistentMem}.

Lemma wp_follow T s E L hl segs X n g fuel : forall k (Q : Z * Z -> heap -> Prop),
  hinv s E L hl segs X -> segs !! n = Some g -> sg_free g = false -> 0 <= k < sg_len g -> k < Z.of_nat fuel ->
  Q (n * HBLKSZ, sg_hdr g) s -> wp T (follow_counts fuel ((n + k) * HBLKSZ) (E (n + k))) s Q.
Proof.
  induction fuel as [|fuel IH]; intros k Q I Hn Hf Hk Hfu HQ; [lia|]. cbn [follow_counts]. destruct (decide (k = 0)) as [->|Hk0].
  - rewrite Z.add_0_r, (word_of _ _ _ _ _ _ I n g Hn). destruct (sw_range _ _ (hv_wf _ _ _ _ _ _ I) _ _ Hn) as (_ & _ & _ & Hh). unfold IS_FORWARDING_ADDR_OR_NIL.
    rewrite (proj2 (Z.leb_gt _ _) Hh), andb_false_r. by apply wp_ret.
  - rewrite (en_inner _ _ (hv_ent _ _ _ _ _ _ I) n g (n + k) Hn) by lia. rewrite Hf. replace (n + k - n) with k by lia. destruct (forward_count_range k ltac:(lia)) as [H1 H2].
    unfold IS_FORWARDING_ADDR_OR_NIL. rewrite (proj2 (Z.eqb_neq _ _)), (proj2 (Z.leb_le _ _)) by lia. cbn [negb andb].
    replace ((n + k) * HBLKSZ - forward_count k * HBLKSZ) with ((n + (k - forward_count k)) * HBLKSZ) by lia.
    apply wp_bind. eapply wp_HDR; [exact (hv_idx _ _ _ _ _ _ I)|]. rewrite bno_addr. apply IH; [done|done|done|lia|lia|done].
Qed.

Lemma wp_follow_stop T s fuel p h (Q : Z * Z -> heap -> Prop) : (0 < fuel)%nat -> h = 0 \/ MAX_JUMP < h -> Q (p, h) s -> wp T (follow_counts fuel p h) s Q.
Proof.
  intros Hf Hh HQ. destruct fuel as [|fuel]; [lia|]. cbn [follow_counts]. unfold IS_FORWARDING_ADDR_OR_NIL.
  replace (negb (h =? 0) && (h <=? MAX_JUMP)) with false by (destruct (Z.eqb_spec h 0), (Z.leb_spec h MAX_JUMP); cbn; try done; lia). by apply wp_ret.
Qed.

Section ending.
Context (T : Prop) (s : heap) (E : Z -> Z) (L : Z -> list Z) (hl : list Z) (segs : gmap Z seg) (X : gset Z) (n : Z) (fuel : nat).
Hypothesis I : hinv s E L hl segs X.
Hypothesis HX : X ⊆ {[n]}.
Hypothesis Hn : is_Some (segs !! n) \/ ~ covered segs n.
Hypothesis Hn1 : 1 < n.
Hypothesis Hfu : enough segs fuel.
Hypothesis Hfu1 : (0 < fuel)%nat.

(** A run that starts before [n] ends there or before. *)
Lemma ends_before q g : segs !! q = Some g -> q < n -> q + sg_len g <= n.
Proof.
  intros Hq Hlt. destruct Hn as [[g' Hg']|Hnc]; [by eapply (sw_disj _ _ (hv_wf _ _ _ _ _ _ I))|].
  destruct (Z_le_gt_dec (q + sg_len g) n); [done|]. destruct Hnc. exists q, g. split; [done|lia].
Qed.

Lemma hdr_before q g : segs !! q = Some g -> q < n -> exists x, hdrs s !! sg_hdr g = Some x /\ hdr_for x g.
Proof.
  intros Hq Hlt. destruct (hdr_of _ _ _ _ _ _ I q g Hq) as (x & Hx & _ & Hf). exists x. split; [done|]. apply Hf. intros Hin. apply HX, elem_of_singleton in Hin. lia.
Qed.

(** At most one run ends at [n]. *)
Lemma ending_one q g : segs !! q = Some g -> q + sg_len g = n -> ending segs n (if sg_free g then q * HBLKSZ else 0).
Proof.
  intros Hq He. destruct (sg_free g) eqn:Hf; [right; by exists q, g|]. left. split; [done|]. intros q' g' Hq' Hf' He'.
  pose proof (hv_wf _ _ _ _ _ _ I) as W. destruct (sw_range _ _ W _ _ Hq) as (_ & ? & _), (sw_range _ _ W _ _ Hq') as (_ & ? & _).
  assert (q = q') as -> by (apply (seg_overlap segs (regions s) q g q' g' (n - 1)); [done|done|done|lia|lia]). congruence.
Qed.

(** The search by [MAK_prev_block], when there is nothing at the block before. *)
Lemma wp_prev (Q : Z -> heap -> Prop) : ~ has_hdr E (n - 1) ->
  (forall q g, segs !! q = Some g -> q < n -> q + sg_len g = n -> sg_free g = true) ->
  (forall r, ending segs n r -> Q r s) ->
  wp T (p <- MAK_prev_block (n * HBLKSZ - HBLKSZ);
    if negb (p =? 0) then phdr <- HDR p; x <- ld_hdr phdr; cret (if HBLK_IS_FREE x && (p + hb_sz x =? n * HBLKSZ) then p else 0) else cret 0) s Q.
Proof.
  intros Hnh Hall HQ. pose proof (hv_wf _ _ _ _ _ _ I) as W. pose proof (hv_ent _ _ _ _ _ _ I) as HE.
  destruct (prev_block_run s E (n * HBLKSZ - HBLKSZ) (hv_idx _ _ _ _ _ _ I) (ent_counts _ _ _ W HE) ltac:(unfold HBLKSZ; lia)) as (r & Hr & Hl).
  replace (n * HBLKSZ - HBLKSZ) with ((n - 1) * HBLKSZ) in * by lia. rewrite bno_addr in Hl. apply wp_bind. eapply wp_ok; [exact Hr|].
  destruct r as [p|]; cbn [default from_option id last_hdr] in *.
  - destruct Hl as (q & -> & Hq & Hh & Hmax). destruct (ent_hdr _ _ _ _ W HE Hh) as (g & Hg & Heq). destruct (sw_range _ _ W _ _ Hg) as (Hq1 & Hl & _).
    rewrite (proj2 (Z.eqb_neq _ _)) by (unfold HBLKSZ; lia). cbn [negb]. apply wp_bind. eapply wp_HDR; [exact (hv_idx _ _ _ _ _ _ I)|]. rewrite bno_addr, Heq.
    destruct (hdr_before q g Hg ltac:(lia)) as (x & Hx & Hfree & Hsz). apply wp_bind. eapply wp_ld_hdr; [exact Hx|]. apply wp_ret, HQ. rewrite Hfree.
    pose proof (ends_before q g Hg ltac:(lia)) as Hend. destruct (decide (q + sg_len g = n)) as [He|He].
    + rewrite (Hall q g Hg ltac:(lia) He) in Hsz |- *. rewrite Hsz, (proj2 (Z.eqb_eq _ _)) by (unfold HBLKSZ; lia). cbn [andb].
      pose proof (ending_one q g Hg He) as Hone. by rewrite (Hall q g Hg ltac:(lia) He) in Hone.
    + assert (Hno : ending segs n 0).
      { left. split; [done|]. intros q' g' Hq' _ He'. destruct (sw_range _ _ W _ _ Hq') as (_ & ? & _ & Hh'). destruct (decide (q < q')) as [Hlt|Hge].
        - apply (Hmax q'); [lia|]. unfold has_hdr. by rewrite (en_start _ _ HE _ _ Hq').
        - destruct (decide (q' = q)) as [->|Hne]; [congruence|]. pose proof (sw_disj _ _ W _ _ _ _ Hq' Hg ltac:(lia)). lia. }
      destruct (sg_free g); [|done]. cbn [andb]. by rewrite Hsz, (proj2 (Z.eqb_neq _ _)) by (unfold HBLKSZ; lia).
  - apply HQ. left. split; [done|]. intros q g Hg _ He. destruct (sw_range _ _ W _ _ Hg) as (? & ? & _ & Hh). apply (Hl q); [lia|]. unfold has_hdr. by rewrite (en_start _ _ HE _ _ Hg).
Qed.

Lemma wp_free_block_ending_at (Q : Z -> heap -> Prop) : (forall r, ending segs n r -> Q r s) -> wp T (MAK_free_block_ending_at fuel (n * HBLKSZ)) s Q.
Proof.
  intros HQ. pose proof (hv_wf _ _ _ _ _ _ I) as W. pose proof (hv_ent _ _ _ _ _ _ I) as HE. unfold MAK_free_block_ending_at.
  replace (n * HBLKSZ - HBLKSZ) with ((n - 1) * HBLKSZ) by lia. apply wp_bind. eapply wp_HDR; [exact (hv_idx _ _ _ _ _ _ I)|]. rewrite bno_addr. apply wp_bind.
  assert (Hzero : E (n - 1) = 0 -> (forall q g, segs !! q = Some g -> q < n -> q + sg_len g = n -> sg_free g = true) ->
    wp T (follow_counts fuel ((n - 1) * HBLKSZ) (E (n - 1))) s (fun '(p, phdr) s' => wp T (if negb (phdr =? 0) then x <- ld_hdr phdr; cret (if HBLK_IS_FREE x then p else 0)
      else p <- MAK_prev_block ((n - 1) * HBLKSZ); if negb (p =? 0) then phdr <- HDR p; x <- ld_hdr phdr; cret (if HBLK_IS_FREE x && (p + hb_sz x =? n * HBLKSZ) then p else 0) else cret 0) s' Q)).
  { intros E0 Hall. rewrite E0. apply wp_follow_stop; [done|by left|]. cbn [Z.eqb negb].
    replace ((n - 1) * HBLKSZ) with (n * HBLKSZ - HBLKSZ) by lia. apply wp_prev; [|done|done]. unfold has_hdr. rewrite E0. unfold MAX_JUMP, HBLKSZ. lia. }
  destruct (ent_cases _ _ (n - 1) HE) as [(q & g & Hq & Hr & Hc)|[Hnc E0]].
  - pose proof (ends_before q g Hq ltac:(lia)) as Hend. assert (He : q + sg_len g = n) by lia. destruct (hdr_before q g Hq ltac:(lia)) as (x & Hx & Hfree & Hsz).
    destruct (sw_range _ _ W _ _ Hq) as (_ & _ & _ & Hh). assert (Hh0 : sg_hdr g <> 0) by (unfold MAX_JUMP, HBLKSZ in Hh; lia).
    pose proof (ending_one q g Hq He) as Hone.
    assert (Hfin : wp T (if negb (sg_hdr g =? 0) then x <- ld_hdr (sg_hdr g); cret (if HBLK_IS_FREE x then q * HBLKSZ else 0)
      else p <- MAK_prev_block ((n - 1) * HBLKSZ); if negb (p =? 0) then phdr <- HDR p; x <- ld_hdr phdr; cret (if HBLK_IS_FREE x && (p + hb_sz x =? n * HBLKSZ) then p else 0) else cret 0) s Q).
    { rewrite (proj2 (Z.eqb_neq _ _) Hh0). cbn [negb]. apply wp_bind. eapply wp_ld_hdr; [exact Hx|]. apply wp_ret, HQ. by rewrite Hfree. }
    destruct Hc as [[Hq1 Heq]|[Hlt Heq]].
    + rewrite Heq, Hq1. apply wp_follow_stop; [done|by right|].
      rewrite Hq1 in Hfin. exact Hfin.
    + destruct (sg_free g) eqn:Ef.
      * eapply wp_mono; [apply Hzero; [done|]|by intros [p h] s' Hp]. intros q' g' Hq' Hlt' He'. destruct (sw_range _ _ W _ _ Hq') as (_ & ? & _).
        assert (q' = q) as -> by (apply (seg_overlap segs (regions s) q' g' q g (n - 1)); [done|done|done|lia|lia]). congruence.
      * replace (n - 1) with (q + (n - 1 - q)) by lia. eapply wp_follow; [exact I|exact Hq|exact Ef|lia|specialize (Hfu q g Hq); lia|].
        replace (q + (n - 1 - q)) with (n - 1) by lia. exact Hfin.
  - eapply wp_mono; [apply Hzero; [done|]|by intros [p h] s' Hp]. intros q g Hq Hlt He. destruct Hnc. exists q, g. split; [done|lia].
Qed.

End ending.
End heap.
