(* ===== verification/MakCoalesce.v ===== *)
(** * Makalu: freed runs are merged with their neighbours

    [MAK_freehblk] and [MAK_newfreehblk]. *)

From S2P Require Import Prelude MakHdr MakBlock MakLib MakIndex MakSegs MakRuns.
From stdpp Require Import sorting.
#[local] Open Scope Z_scope.
#[local] Open Scope cmd_scope.

(** No two free runs touch. *)
Definition coalesced (segs : gmap Z seg) : Prop :=
  forall n g n' g', segs !! n = Some g -> segs !! n' = Some g' -> sg_free g = true -> sg_free g' = true -> n + sg_len g <> n'.

Section heap.
Context `{!PersistentMem}.

Lemma ent_resize segs E n g len' : ent_ok segs E -> segs !! n = Some g -> sg_free g = true -> 0 < len' -> (forall m, n < m < n + len' -> ~ covered (delete n segs) m) ->
  ent_ok (<[n := mkSeg len' (sg_hdr g) true]> segs) E.
Proof.
  intros HE Hn Hf Hl Hun.
  assert (Hzero : forall m, m <> n -> ~ covered (delete n segs) m -> E m = 0).
  { intros m Hne Hnc. destruct (ent_cases _ _ m HE) as [(n' & g' & Hn' & Hr & Hc)|[_ ->]]; [|done]. destruct (decide (n' = n)) as [->|Hnn].
    - assert (g' = g) as -> by congruence. rewrite Hf in Hc. destruct Hc as [[? _]|[_ ?]]; done.
    - destruct Hnc. exists n', g'. by rewrite lookup_delete_ne. }
  split.
  - intros n' g' [[<- <-]|[Hne Hn']]%lookup_insert_Some; [exact (en_start _ _ HE _ _ Hn)|by apply (en_start _ _ HE)].
  - intros n' g' m [[<- <-]|[Hne Hn']]%lookup_insert_Some Hm; cbn [sg_len sg_free] in *; [|by apply (en_inner _ _ HE)]. apply Hzero; [lia|by apply Hun].
  - intros m Hm. apply Hzero.
    + intros ->. apply Hm. eexists n, _. rewrite lookup_insert_eq. split; [done|]. cbn. lia.
    + intros (n' & g' & [Hne Hn']%lookup_delete_Some & Hr). apply Hm. exists n', g'. by rewrite lookup_insert_ne.
Qed.

(** A free run in no list gets another length. *)
Lemma hinv_resize s E L hl segs X n g len' :
  hinv s E L hl segs X -> segs !! n = Some g -> n ∈ X -> fits (delete n segs) (regions s) n len' -> hinv s E L hl (<[n := mkSeg len' (sg_hdr g) true]> segs) X.
Proof.
  intros I Hn HX F. destruct (hv_float _ _ _ _ _ _ I n HX) as (g0 & Hg0 & Hf). assert (g0 = g) as -> by congruence. pose proof (hv_wf _ _ _ _ _ _ I) as W.
  destruct (sw_range _ _ W _ _ Hn) as (_ & _ & _ & Hh). pose proof (ft_range _ _ _ _ F) as (_ & Hl & _).
  eapply hinv_change; [exact I|exact Hn|done|by left|by left|done|apply index_of_refl|exact (hv_idx _ _ _ _ _ _ I)|..].
  - rewrite <- insert_delete_eq. apply seg_wf_insert; [by apply seg_wf_delete|done|done|]. intros n' g' [Hne Hn']%lookup_delete_Some. by eapply (hdr_ne _ _ _ _ _ _ I).
  - eapply ent_resize; [exact (hv_ent _ _ _ _ _ _ I)|done|done|done|]. intros m Hm. apply (ft_disj _ _ _ _ F). lia.
Qed.

(** The next run is merged into a run; both are in no list. *)
Lemma wp_absorb T s E L hl segs X n g m gm (Q : unit -> heap -> Prop) :
  hinv s E L hl segs X -> segs !! n = Some g -> segs !! m = Some gm -> n ∈ X -> m ∈ X -> n + sg_len g = m ->
  (forall s' E', hinv s' E' L (sg_hdr gm :: hl) (<[n := mkSeg (sg_len g + sg_len gm) (sg_hdr g) true]> (delete m segs)) (X ∖ {[m]}) ->
     hdrs s' !! sg_hdr g = hdrs s !! sg_hdr g -> hextent s' = hextent s -> regions s' = regions s -> Q tt s') ->
  wp T (MAK_remove_header (m * HBLKSZ)) s Q.
Proof.
  intros I Hn Hm HnX HmX Hend HQ. pose proof (hv_wf _ _ _ _ _ _ I) as W. destruct (sw_range _ _ W _ _ Hn) as (Hn1 & Hl & _), (sw_range _ _ W _ _ Hm) as (_ & Hlm & Hend' & _).
  eapply wp_remove_header; [exact I|exact Hm|exact HmX|]. intros s' E' I' Hfr He Hrs. assert (Hn' : delete m segs !! n = Some g) by (rewrite lookup_delete_ne by lia; done).
  apply (HQ s' E'); [|apply (Hfr n g Hn'); by apply elem_of_dom_2 in Hn|done|done]. eapply hinv_resize; [exact I'|exact Hn'|set_solver by lia|]. rewrite Hrs. split.
  - lia.
  - intros k Hk (n' & g' & Hn2 & Hr). apply lookup_delete_Some in Hn2 as [Hne1 Hn2]. apply lookup_delete_Some in Hn2 as [Hne2 Hn2]. destruct (decide (k < m)).
    + apply Hne1, (seg_overlap segs (regions s) n g n' g' k); [done|done|done|lia|lia].
    + apply Hne2, (seg_overlap segs (regions s) m gm n' g' k); [done|done|done|lia|lia].
  - intros k Hk. destruct (decide (k < m)); [eapply (sw_inside _ _ W n g); [done|lia]|eapply (sw_inside _ _ W m gm); [done|lia]].
Qed.

Lemma s64_small x : 0 < x < 2 ^ 62 -> s64 (u64 x) = x /\ u64 x = x.
Proof. intros Hx. assert (Hu : u64 x = x) by (apply Z.mod_small; lia). rewrite Hu. split; [|done]. unfold s64. rewrite Z.mod_small; lia. Qed.

(** The word behind a run is the header of the next run, or nothing. *)
Lemma next_word s E L hl segs X n g : hinv s E L hl segs X -> segs !! n = Some g ->
  (segs !! (n + sg_len g) = None /\ E (n + sg_len g) = 0) \/ exists g', segs !! (n + sg_len g) = Some g' /\ E (n + sg_len g) = sg_hdr g'.
Proof.
  intros I Hn. pose proof (hv_wf _ _ _ _ _ _ I) as W. destruct (sw_range _ _ W _ _ Hn) as (_ & Hl & _).
  destruct (ent_cases _ _ (n + sg_len g) (hv_ent _ _ _ _ _ _ I)) as [(n' & g' & Hn' & Hr & Hc)|[Hnc E0]].
  - assert (Hle : n + sg_len g <= n').
    { destruct (Z.lt_trichotomy n n') as [Hlt|[<-|Hlt]]; [by eapply (sw_disj _ _ W)|assert (g' = g) as -> by congruence; lia|]. pose proof (sw_disj _ _ W _ _ _ _ Hn' Hn Hlt). lia. }
    assert (n' = n + sg_len g) as -> by lia. right. exists g'. split; [done|]. destruct Hc as [[_ ?]|[? _]]; [done|lia].
  - left. split; [|done]. destruct (segs !! (n + sg_len g)) as [g'|] eqn:En; [|done]. destruct (sw_range _ _ W _ _ En) as (_ & Hl' & _). destruct Hnc. exists (n + sg_len g), g'. split; [done|lia].
Qed.

(** ** The end of an operation that frees: the next run is merged, and the result is listed *)

Definition next_merged (segs : gmap Z seg) (n : Z) (g : seg) : gmap Z seg :=
  match segs !! (n + sg_len g) with
  | Some g' => if sg_free g' then <[n := mkSeg (sg_len g + sg_len g') (sg_hdr g) true]> (delete (n + sg_len g) segs) else segs
  | None => segs
  end.

Lemma wp_merge_next (T : Prop) s E L hl segs n g x (offline : bool) d (Q : unit -> heap -> Prop) :
  hinv s E L hl segs {[n]} -> segs !! n = Some g -> hdrs s !! sg_hdr g = Some x -> hb_sz x = sg_len g * HBLKSZ -> offline = false ->
  (forall s' E' L' hl', hinv s' E' L' hl' (next_merged segs n g) ∅ -> Q tt s') ->
  wp T ((if E (n + sg_len g) =? 0 then cret tt
         else
           nx <- ld_hdr (E (n + sg_len g));
           x <- ld_hdr (sg_hdr g);
           if HBLK_IS_FREE nx && (0 <? s64 (u64 (hb_sz x + hb_sz nx))) then
             (if offline : bool then cret tt else MAK_remove_from_fl (E (n + sg_len g)) FL_UNKNOWN);;
             nx <- ld_hdr (E (n + sg_len g));
             upd_hdr (sg_hdr g) (fun x => hdr_sz (u64 (hb_sz x + hb_sz nx)) x);;
             MAK_remove_header ((n + sg_len g) * HBLKSZ)
           else cret tt);;
        add_large_free_bytes d;;
        (if offline : bool then cret tt else MAK_add_to_fl (n * HBLKSZ) (sg_hdr g))) s Q.
Proof.
  intros I Hn Hx Hsz -> HQ. pose proof (hv_wf _ _ _ _ _ _ I) as W. destruct (sw_range _ _ W _ _ Hn) as (Hn1 & Hl & Hend & _).
  (* the end, from any state in which the run in hand has its size *)
  assert (Hfin : forall s1 E1 L1 hl1 segs1 g1 x1, hinv s1 E1 L1 hl1 segs1 {[n]} -> segs1 !! n = Some g1 -> sg_hdr g1 = sg_hdr g -> hdrs s1 !! sg_hdr g = Some x1 -> hb_sz x1 = sg_len g1 * HBLKSZ ->
     segs1 = next_merged segs n g -> wp T (add_large_free_bytes d;; MAK_add_to_fl (n * HBLKSZ) (sg_hdr g)) s1 Q).
  { intros s1 E1 L1 hl1 segs1 g1 x1 I1 Hn1' Hg1 Hx1 Hs1 ->. apply wp_bind, wp_mod. rewrite <- Hg1 in Hx1 |- *.
    eapply (wp_add_to_fl _ _ E1 L1 hl1 _ {[n]}); [|exact Hn1'|set_solver|exact Hx1|exact Hs1|].
    - destruct I1 as [J1 J2 J3 J4 J5 J6 J7 J8 J9 J10 J11]. by split.
    - intros s' L' I' _ _. replace ({[n]} ∖ {[n]}) with (∅ : gset Z) in I' by set_solver. by eapply HQ. }
  apply wp_bind. destruct (next_word _ _ _ _ _ _ _ _ I Hn) as [[Hno E0]|(g' & Hg' & Heq)].
  - rewrite E0. apply wp_ret. eapply Hfin; [exact I|exact Hn|done|exact Hx|exact Hsz|]. unfold next_merged. by rewrite Hno.
  - destruct (sw_range _ _ W _ _ Hg') as (_ & Hl' & Hend' & Hh'). rewrite Heq, (proj2 (Z.eqb_neq _ _)) by (unfold MAX_JUMP, HBLKSZ in Hh'; lia).
    assert (Hnn : n + sg_len g ∉ ({[n]} : gset Z)) by (rewrite elem_of_singleton; lia).
    destruct (hdr_of _ _ _ _ _ _ I _ _ Hg') as (nx & Hnx & _ & Hfor). destruct (Hfor Hnn) as [Hfree Hnsz]. apply wp_bind. eapply wp_ld_hdr; [exact Hnx|].
    apply wp_bind. eapply wp_ld_hdr; [exact Hx|]. rewrite Hfree. destruct (sg_free g') eqn:Ef; cbn [andb].
    + assert (Hsum : hb_sz x + hb_sz nx = (sg_len g + sg_len g') * HBLKSZ) by lia. destruct (s64_small (hb_sz x + hb_sz nx)) as [Hs64 Hu64]; [unfold HBLKSZ in *; lia|].
      rewrite Hs64, (proj2 (Z.ltb_lt _ _)) by (unfold HBLKSZ in *; lia). apply wp_bind. eapply (wp_remove_from_fl _ _ _ _ _ _ I); [exact Hg'|exact Ef|exact Hnn|by left|].
      intros s1 L1 I1 Hfr1 _ _. pose proof (Hfr1 n g Hn ltac:(set_solver)) as Hx1. rewrite Hx in Hx1. pose proof (Hfr1 _ g' Hg' ltac:(set_solver)) as Hnx1. rewrite Hnx in Hnx1.
      apply wp_bind. eapply wp_ld_hdr; [exact Hnx1|]. apply wp_bind. eapply (wp_float_upd _ _ _ _ _ _ I1); [exact Hn|set_solver|exact Hx1|done|]. rewrite Hu64. intros I2.
      eapply wp_absorb; [exact I2|exact Hn|exact Hg'|set_solver|set_solver|done|]. intros s3 E3 I3 Hh3 _ _. cbn [set_hdrs hdrs] in Hh3. rewrite lookup_insert_eq in Hh3.
      replace (({[n]} ∪ {[n + sg_len g]}) ∖ {[n + sg_len g]}) with ({[n]} : gset Z) in I3 by set_solver.
      eapply Hfin; [exact I3|apply lookup_insert_eq|done|exact Hh3|exact Hsum|]. unfold next_merged. by rewrite Hg', Ef.
    + apply wp_ret. eapply Hfin; [exact I|exact Hn|done|exact Hx|exact Hsz|]. unfold next_merged. by rewrite Hg', Ef.
Qed.

(** ** Freeing *)

Lemma hinv_ext s s' E L hl segs X :
  regions s' = regions s -> hdrs s' = hdrs s -> hdr_space s' = hdr_space s -> MAK_hdr_free_list s' = MAK_hdr_free_list s -> hindex s' = hindex s ->
  MAK_hblkfreelist (hfree s') = MAK_hblkfreelist (hfree s) -> MAK_run_mode s' = MAK_run_mode s -> MAK_heapsize (hextent s') = MAK_heapsize (hextent s) -> hinv s E L hl segs X -> hinv s' E L hl segs X.
Proof.
  intros H1 H2 H3 H4 H5 H6 H7 H8 [J1 J2 J3 J4 J5 J6 J7 J8 J9 J10 J11]. split; rewrite ?H1, ?H2, ?H3, ?H4, ?H6, ?H7, ?H8; try done. by eapply irep_ext.
Qed.

Lemma wp_mark T s E L hl segs X (Q : unit -> heap -> Prop) : hinv s E L hl segs X ->
  (forall s', hinv s' E L hl segs X -> hdrs s' = hdrs s -> hfree s' = hfree s -> hextent s' = hextent s -> regions s' = regions s -> Q tt s') -> wp T mark_inconsistent s Q.
Proof. intros I HQ. apply wp_mod. apply HQ; [|by destruct (MAK_persistent_state s =? STATE_NONE)..]. by destruct (MAK_persistent_state s =? STATE_NONE); [eapply hinv_ext; [..|exact I]|]. Qed.

Lemma obj_blocks sz len : 0 < sz <= len * HBLKSZ -> len * HBLKSZ < sz + HBLKSZ -> len <= 2 ^ 35 -> OBJ_SZ_TO_BLOCKS sz = len.
Proof.
  intros H1 H2 H3. unfold OBJ_SZ_TO_BLOCKS. rewrite divHBLKSZ_eq. unfold HBLKSZ in *. unfold u64. rewrite Z.mod_small by lia. symmetry. apply (Z.div_unique_pos _ _ _ (sz + 4096 - 1 - len * 4096)); lia.
Qed.

(** The run [n], once free, is merged with the free run before it, if there is one: it is now the run [c]. *)
Definition prev_merged (segs : gmap Z seg) (n : Z) (g : seg) (segs' : gmap Z seg) (c : Z) (gc : seg) : Prop :=
  let g1 := mkSeg (sg_len g) (sg_hdr g) true in
  ((forall q gq, segs !! q = Some gq -> sg_free gq = true -> q + sg_len gq <> n) /\ segs' = <[n := g1]> segs /\ c = n /\ gc = g1) \/
  (exists gq, segs !! c = Some gq /\ sg_free gq = true /\ c + sg_len gq = n /\ gc = mkSeg (sg_len gq + sg_len g) (sg_hdr gq) true /\ segs' = <[c := gc]> (delete n segs)).

Definition freed (segs : gmap Z seg) (n : Z) (g : seg) (segs' : gmap Z seg) : Prop :=
  exists segs2 c gc, prev_merged segs n g segs2 c gc /\ segs' = next_merged segs2 c gc.

Lemma next_word_eq s E L hl segs X n g : hinv s E L hl segs X -> segs !! n = Some g ->
  E (n + sg_len g) = match segs !! (n + sg_len g) with Some g' => sg_hdr g' | None => 0 end.
Proof. intros I Hn. destruct (next_word _ _ _ _ _ _ _ _ I Hn) as [[-> ->]|(g' & -> & ->)]; done. Qed.

Lemma wp_merge_prev T s E L hl segs n g x (offline : bool) r (Q : Z * Z -> heap -> Prop) :
  let g1 := mkSeg (sg_len g) (sg_hdr g) true in
  let segs1 := <[n := g1]> segs in
  segs !! n = Some g -> hinv s E L hl segs1 {[n]} -> hdrs s !! sg_hdr g = Some x -> hb_sz x = sg_len g * HBLKSZ -> offline = false -> ending segs1 n r ->
  (forall s' E' L' hl' segs2 c gc x', hinv s' E' L' hl' segs2 {[c]} -> prev_merged segs n g segs2 c gc -> segs2 !! c = Some gc -> hdrs s' !! sg_hdr gc = Some x' ->
     hb_sz x' = sg_len gc * HBLKSZ -> c + sg_len gc = n + sg_len g -> E' (n + sg_len g) = E (n + sg_len g) -> Q (c * HBLKSZ, sg_hdr gc) s') ->
  wp T (if r =? 0 then cret (n * HBLKSZ, sg_hdr g)
        else
          prevhdr <- HDR r;
          x <- ld_hdr (sg_hdr g);
          px <- ld_hdr prevhdr;
          if 0 <? s64 (u64 (hb_sz x + hb_sz px)) then
            (if offline : bool then cret tt else MAK_remove_from_fl prevhdr FL_UNKNOWN);;
            x <- ld_hdr (sg_hdr g);
            upd_hdr prevhdr (fun px => hdr_sz (u64 (hb_sz px + hb_sz x)) px);;
            MAK_remove_header (n * HBLKSZ);;
            cret (r, prevhdr)
          else cret (n * HBLKSZ, sg_hdr g)) s Q.
Proof.
  intros g1 segs1 Hg I Hx Hsz -> Hend HQ. assert (Hn : segs1 !! n = Some g1) by apply lookup_insert_eq. pose proof (hv_wf _ _ _ _ _ _ I) as W.
  destruct (sw_range _ _ W _ _ Hn) as (Hn1 & Hl & Hen & _). cbn [g1 sg_len] in Hl, Hen. destruct Hend as [[-> Hno]|(q & gq & Hq & Hfq & Hend & ->)].
  - apply wp_ret. eapply (HQ s E L hl segs1 n g1 x); try done. left. split_and!; try done. intros q gq Hq Hfq He.
    destruct (sw_range _ _ (hv_wf _ _ _ _ _ _ I) n g1 Hn) as (_ & ? & _). destruct (decide (q = n)) as [->|Hne].
    + assert (gq = g) as -> by congruence. lia.
    + apply (Hno q gq); [unfold segs1; by rewrite lookup_insert_ne|done|done].
  - destruct (sw_range _ _ W _ _ Hq) as (Hq1 & Hlq & _ & Hhq). assert (Hqn : q <> n) by lia. assert (HqX : q ∉ ({[n]} : gset Z)) by (rewrite elem_of_singleton; done).
    assert (Hq' : segs !! q = Some gq) by (unfold segs1 in Hq; by rewrite lookup_insert_ne in Hq).
    rewrite (proj2 (Z.eqb_neq _ _)) by (unfold HBLKSZ; lia). apply wp_bind. eapply wp_HDR; [exact (hv_idx _ _ _ _ _ _ I)|]. rewrite bno_addr, (word_of _ _ _ _ _ _ I q gq Hq).
    apply wp_bind. eapply wp_ld_hdr; [exact Hx|]. destruct (hdr_of _ _ _ _ _ _ I q gq Hq) as (px & Hpx & _ & Hfor). destruct (Hfor HqX) as [_ Hpsz]. rewrite Hfq in Hpsz.
    apply wp_bind. eapply wp_ld_hdr; [exact Hpx|]. assert (Hsum : hb_sz px + hb_sz x = (sg_len gq + sg_len g) * HBLKSZ) by lia.
    destruct (s64_small (hb_sz px + hb_sz x)) as [Hs64 Hu64]; [unfold HBLKSZ in *; lia|]. rewrite (Z.add_comm (hb_sz x)), Hs64, (proj2 (Z.ltb_lt _ _)) by (unfold HBLKSZ in *; lia).
    apply wp_bind. eapply (wp_remove_from_fl _ _ _ _ _ _ I); [exact Hq|exact Hfq|exact HqX|by left|]. intros s1 L1 I1 Hfr1 _ _.
    pose proof (Hfr1 n g1 Hn ltac:(set_solver)) as Hx1. cbn [g1 sg_hdr] in Hx1. rewrite Hx in Hx1. pose proof (Hfr1 q gq Hq ltac:(set_solver)) as Hpx1. rewrite Hpx in Hpx1.
    apply wp_bind. eapply wp_ld_hdr; [exact Hx1|]. apply wp_bind. eapply (wp_float_upd _ _ _ _ _ _ I1); [exact Hq|set_solver|exact Hpx1|done|]. rewrite Hu64. intros I2.
    apply wp_bind. eapply wp_absorb; [exact I2|exact Hq|exact Hn|set_solver|set_solver|done|]. intros s3 E3 I3 Hh3 _ _. cbn [set_hdrs hdrs] in Hh3. rewrite lookup_insert_eq in Hh3.
    apply wp_ret. replace (({[n]} ∪ {[q]}) ∖ {[n]}) with ({[q]} : gset Z) in I3 by set_solver.
    set (gc := mkSeg (sg_len gq + sg_len g1) (sg_hdr gq) true) in *. change (sg_hdr gq) with (sg_hdr gc).
    eapply (HQ s3 E3 L1 _ _ q gc); [exact I3| |apply lookup_insert_eq|exact Hh3|exact Hsum|cbn; lia|].
    + right. exists gq. split_and!; try done. unfold segs1. by rewrite delete_insert_eq.
    + pose proof (next_word_eq _ _ _ _ _ _ _ _ I3 (lookup_insert_eq _ _ _)) as H1. pose proof (next_word_eq _ _ _ _ _ _ _ _ I Hn) as H2. cbn [g1 gc sg_len] in H1, H2.
      replace (q + (sg_len gq + sg_len g)) with (n + sg_len g) in H1 by lia. rewrite H1, H2. rewrite lookup_insert_ne, lookup_delete_ne by lia. done.
Qed.

Lemma wp_freehblk T s E L hl segs n g fuel :
  hinv s E L hl segs ∅ -> segs !! n = Some g -> sg_free g = false -> enough segs fuel ->
  wp T (MAK_freehblk fuel (n * HBLKSZ)) s (fun _ s' => exists E' L' hl' segs', hinv s' E' L' hl' segs' ∅ /\ freed segs n g segs').
Proof.
  intros I Hn Hf Hfu. pose proof (hv_wf _ _ _ _ _ _ I) as W. destruct (sw_range _ _ W _ _ Hn) as (Hn1 & Hl & Hend & Hh).
  destruct (hdr_of _ _ _ _ _ _ I n g Hn) as (x & Hx & _ & Hfor). destruct (Hfor ltac:(set_solver)) as [Hfree Hsz]. rewrite Hf in Hfree, Hsz.
  assert (Hsize : s64 (HBLKSZ * OBJ_SZ_TO_BLOCKS (hb_sz x)) = sg_len g * HBLKSZ).
  { rewrite (obj_blocks (hb_sz x) (sg_len g)) by lia. rewrite <- (proj2 (s64_small (HBLKSZ * sg_len g) ltac:(unfold HBLKSZ; lia))).
    rewrite (proj1 (s64_small (HBLKSZ * sg_len g) ltac:(unfold HBLKSZ; lia))). lia. }
  unfold MAK_freehblk. apply wp_bind. eapply wp_HDR; [exact (hv_idx _ _ _ _ _ _ I)|]. rewrite bno_addr, (word_of _ _ _ _ _ _ I n g Hn).
  apply wp_bind. eapply wp_ld_hdr; [exact Hx|]. cbn zeta. rewrite Hsize, (proj2 (Z.leb_gt _ _)) by (unfold HBLKSZ; lia).
  apply wp_bind. eapply wp_mark; [exact I|]. intros s0 I0 Hh0 _ _ _. apply wp_bind. eapply wp_remove_counts; [exact I0|exact Hn|exact Hf|].
  intros s1 E1 I1 Hh1 _ _. set (g1 := mkSeg (sg_len g) (sg_hdr g) true) in *. set (segs1 := <[n := g1]> segs) in *. rewrite (left_id_L ∅ (∪)) in I1.
  assert (Hn' : segs1 !! n = Some g1) by apply lookup_insert_eq. assert (Hx1 : hdrs s1 !! sg_hdr g1 = Some x) by (cbn; congruence).
  apply wp_bind. change (sg_hdr g) with (sg_hdr g1). eapply (wp_float_upd _ _ _ _ _ _ I1); [exact Hn'|set_solver|exact Hx1|done|]. intros I2. set (s2 := set_hdrs _ s1) in *.
  apply wp_bind. eapply wp_ld_hdr; [apply lookup_insert_eq|]. change (HBLK_IS_FREE (hdr_sz (sg_len g * HBLKSZ) x)) with (HBLK_IS_FREE x). rewrite Hfree. apply wp_bind.
  eapply (wp_float_upd _ _ _ _ _ _ I2); [exact Hn'|set_solver|apply lookup_insert_eq|done|]. intros I3. set (s3 := set_hdrs _ s2) in *.
  apply wp_bind. eapply wp_HDR; [exact (hv_idx _ _ _ _ _ _ I3)|]. replace (n * HBLKSZ + sg_len g * HBLKSZ) with ((n + sg_len g) * HBLKSZ) by lia. rewrite bno_addr.
  apply wp_bind. eapply (wp_free_block_ending_at _ _ _ _ _ _ _ n fuel I3); [done|left; by eexists|done| | |].
  { intros n' g' [[<- <-]|[_ Hn2]]%lookup_insert_Some; [exact (Hfu n g Hn)|by eapply Hfu]. }
  { specialize (Hfu n g Hn). lia. }
  intros r Hr. apply wp_bind, wp_gets. assert (Hoff : (MAK_run_mode s3 =? RESTARTING_OFFLINE) = false) by (apply Z.eqb_neq; exact (proj1 (hv_mode _ _ _ _ _ _ I3))).
  apply wp_bind. eapply (wp_merge_prev _ _ E1 _ _ segs n g); [exact Hn|exact I3|apply lookup_insert_eq|done|exact Hoff|exact Hr|].
  intros s4 E4 L4 hl4 segs4 c gc x4 I4 Hpm Hc Hx4 Hsz4 Hce HE4. cbn beta iota. rewrite <- HE4, <- Hce.
  eapply wp_merge_next; [exact I4|exact Hc|exact Hx4|exact Hsz4|exact Hoff|]. intros s' E' L' hl' I'. exists E', L', hl', (next_merged segs4 c gc). split; [done|]. by exists segs4, c, gc.
Qed.

(** ** New blocks *)

Lemma fits_next s E L hl segs X n len : hinv s E L hl segs X -> fits segs (regions s) n len ->
  E (n + len) = match segs !! (n + len) with Some g => sg_hdr g | None => 0 end.
Proof.
  intros I F. pose proof (ft_range _ _ _ _ F) as (_ & Hl & _). destruct (ent_cases _ _ (n + len) (hv_ent _ _ _ _ _ _ I)) as [(n' & g' & Hn' & Hr & Hc)|[Hnc E0]].
  - assert (n' = n + len) as ->.
    { destruct (Z.eq_dec n' (n + len)); [done|]. destruct (ft_disj _ _ _ _ F (n + len - 1) ltac:(lia)). exists n', g'. split; [done|lia]. }
    rewrite Hn'. destruct Hc as [[_ ?]|[? _]]; [done|lia].
  - rewrite E0. destruct (segs !! (n + len)) as [g|] eqn:En; [|done]. destruct (sw_range _ _ (hv_wf _ _ _ _ _ _ I) _ _ En) as (_ & ? & _). destruct Hnc. exists (n + len), g. split; [done|lia].
Qed.

Lemma wp_newfreehblk s E L hl segs n len fuel :
  hinv s E L hl segs ∅ -> fits segs (regions s) n len -> enough segs fuel -> (0 < fuel)%nat ->
  wp True (MAK_newfreehblk fuel (n * HBLKSZ) (len * HBLKSZ)) s (fun _ s' => exists E' L' hl' segs' h, hinv s' E' L' hl' segs' ∅ /\
    freed (<[n := mkSeg len h false]> segs) n (mkSeg len h false) segs').
Proof.
  intros I F Hfu Hfu0. pose proof (hv_wf _ _ _ _ _ _ I) as W. pose proof (fits_none _ _ _ _ W F) as Hnone. pose proof (ft_range _ _ _ _ F) as (Hn1 & Hl & Hend).
  unfold MAK_newfreehblk. replace (n * HBLKSZ + len * HBLKSZ) with ((n + len) * HBLKSZ) by lia. cbn zeta. apply wp_bind. eapply wp_HDR; [exact (hv_idx _ _ _ _ _ _ I)|]. rewrite bno_addr.
  assert (Hne : forall h, segs !! (n + len) = (<[n := mkSeg len h false]> segs) !! (n + len)) by (intros h; by rewrite lookup_insert_ne by lia).
  apply wp_bind. eapply (wp_free_block_ending_at _ _ _ _ _ _ _ n fuel I); [set_solver|right; apply (ft_disj _ _ _ _ F); lia|done|done|done|].
  intros r Hr. apply wp_bind.
  (* either way, the run in hand is [c] *)
  assert (Hfin : forall s' E' L' hl' segs2 c gc x' h, hinv s' E' L' hl' segs2 {[c]} -> prev_merged (<[n := mkSeg len h false]> segs) n (mkSeg len h false) segs2 c gc -> segs2 !! c = Some gc ->
     hdrs s' !! sg_hdr gc = Some x' -> hb_sz x' = sg_len gc * HBLKSZ -> c + sg_len gc = n + len -> segs2 !! (n + len) = segs !! (n + len) ->
     wp True ((if E (n + len) =? 0 then cret tt
       else
         nx <- ld_hdr (E (n + len));
         x <- ld_hdr (sg_hdr gc);
         if HBLK_IS_FREE nx && (0 <? s64 (u64 (hb_sz x + hb_sz nx))) then
           MAK_remove_from_fl (E (n + len)) FL_UNKNOWN;;
           nx <- ld_hdr (E (n + len));
           upd_hdr (sg_hdr gc) (fun x => hdr_sz (u64 (hb_sz x + hb_sz nx)) x);;
           MAK_remove_header ((n + len) * HBLKSZ)
         else cret tt);;
      add_large_free_bytes (len * HBLKSZ);;
      MAK_add_to_fl (c * HBLKSZ) (sg_hdr gc)) s' (fun _ s' => exists E' L' hl' segs' h, hinv s' E' L' hl' segs' ∅ /\ freed (<[n := mkSeg len h false]> segs) n (mkSeg len h false) segs')).
  { intros s' E' L' hl' segs2 c gc x' h I' Hpm Hc Hx' Hsz' Hce Hnx. assert (HE : E (n + len) = E' (n + len)).
    { rewrite (fits_next _ _ _ _ _ _ _ _ I F), <- Hce, (next_word_eq _ _ _ _ _ _ _ _ I' Hc), Hce. by rewrite Hnx. }
    rewrite HE, <- Hce. eapply (wp_merge_next True s' E' L' hl' segs2 c gc x' false); [exact I'|exact Hc|exact Hx'|exact Hsz'|done|].
    intros s2 E2 L2 hl2 I2. exists E2, L2, hl2, (next_merged segs2 c gc), h. split; [done|]. by exists segs2, c, gc. }
  destruct Hr as [[-> Hno]|(q & gq & Hq & Hfq & Hqe & ->)].
  - apply wp_ret. apply wp_bind. apply wp_bind. eapply wp_mono; [apply (wp_install_header s E L hl segs ∅ n len I F)|]. intros r s1 (E1 & hl1 & Hr0 & I1 & _ & _ & _).
    rewrite (proj2 (Z.eqb_neq _ _) Hr0). rewrite (left_id_L ∅ (∪)) in I1. set (g1 := mkSeg len r true) in *. assert (Hg1 : (<[n := g1]> segs) !! n = Some g1) by apply lookup_insert_eq.
    destruct (hdr_of _ _ _ _ _ _ I1 n g1 Hg1) as (x & Hx & _). apply wp_bind. change r with (sg_hdr g1).
    eapply (wp_float_upd _ _ _ _ _ _ I1); [exact Hg1|set_solver|exact Hx|done|]. intros I2. apply wp_bind.
    eapply (wp_float_upd _ _ _ _ _ _ I2); [exact Hg1|set_solver|apply lookup_insert_eq|done|]. intros I3. apply wp_ret. cbn beta iota.
    eapply (Hfin _ _ _ _ _ n g1 _ r); [exact I3| |exact Hg1|apply lookup_insert_eq|done|done|by rewrite lookup_insert_ne by lia].
    left. split_and!; [|by rewrite insert_insert_eq|done|done]. intros q gq [[<- <-]|[Hqn Hq]]%lookup_insert_Some Hf; [done|by eapply Hno].
  - destruct (sw_range _ _ W _ _ Hq) as (Hq1 & Hlq & _ & Hhq). rewrite (proj2 (Z.eqb_neq _ _)) by (unfold HBLKSZ; lia).
    apply wp_bind. eapply wp_HDR; [exact (hv_idx _ _ _ _ _ _ I)|]. rewrite bno_addr, (word_of _ _ _ _ _ _ I q gq Hq).
    destruct (hdr_of _ _ _ _ _ _ I q gq Hq) as (px & Hpx & _ & Hfor). destruct (Hfor ltac:(set_solver)) as [_ Hpsz]. rewrite Hfq in Hpsz.
    apply wp_bind. eapply wp_ld_hdr; [exact Hpx|]. assert (Hsum : hb_sz px + len * HBLKSZ = (sg_len gq + len) * HBLKSZ) by lia.
    destruct (s64_small (hb_sz px + len * HBLKSZ)) as [Hs64 Hu64]; [unfold HBLKSZ in *; lia|]. rewrite (Z.add_comm (len * HBLKSZ)), Hs64, (proj2 (Z.ltb_lt _ _)) by (unfold HBLKSZ in *; lia).
    apply wp_bind. eapply (wp_remove_from_fl _ _ _ _ _ _ I); [exact Hq|exact Hfq|set_solver|by left|]. intros s1 L1 I1 Hfr1 _ Hrs1. rewrite (left_id_L ∅ (∪)) in I1.
    pose proof (Hfr1 q gq Hq ltac:(set_solver)) as Hpx1. rewrite Hpx in Hpx1. apply wp_bind. eapply (wp_float_upd _ _ _ _ _ _ I1); [exact Hq|set_solver|exact Hpx1|done|]. rewrite Hu64. intros I2.
    apply wp_ret. apply wp_bind. apply wp_ret. cbn beta iota. set (gc := mkSeg (sg_len gq + len) (sg_hdr gq) true). change (sg_hdr gq) with (sg_hdr gc).
    eapply (Hfin _ _ _ _ (<[q := gc]> segs) q gc _ 0); [|..|apply lookup_insert_eq|apply lookup_insert_eq|exact Hsum|cbn; lia|by rewrite lookup_insert_ne by lia].
    + apply hinv_resize; [exact I2|exact Hq|set_solver|]. cbn [set_hdrs regions]. rewrite Hrs1. split; [cbn; lia|..].
      * intros m Hm (n' & g' & [Hne' Hn']%lookup_delete_Some & Hrm). destruct (decide (m < n)).
        -- apply Hne', (seg_overlap segs (regions s) q gq n' g' m); [done|done|done|lia|lia].
        -- apply (ft_disj _ _ _ _ F m); [lia|]. by exists n', g'.
      * intros m Hm. destruct (decide (m < n)); [eapply (sw_inside _ _ W q gq); [done|lia]|apply (ft_inside _ _ _ _ F); lia].
    + right. exists gq. rewrite lookup_insert_ne by lia. split_and!; [done|done|done|done|]. by rewrite delete_insert_id.
Qed.

End heap.
