(* ===== verification/MakAlloc.v ===== *)
(** * Makalu: allocation of a run, and expansion

    [MAK_allochblk] searches the free lists from the one of the size it needs; it splits a run that
    is too long and installs the header and the forwarding counts. *)

From S2P Require Import Prelude MakHdr MakBlock MakLib MakIndex MakSegs MakRuns.
From S2P Require Import MakCoalesce.
From stdpp Require Import sorting.
#[local] Open Scope Z_scope.
#[local] Open Scope cmd_scope.

(** The first [b] blocks of the free run [n] are allocated; the rest stays free. *)
Definition alloced (segs : gmap Z seg) (n : Z) (g : seg) (b : Z) (x : hdr) (segs' : gmap Z seg) : Prop :=
  (sg_len g = b /\ segs' = <[n := mkSegD b (sg_hdr g) false x]> segs) \/
  (b < sg_len g /\ exists r, segs' = <[n := mkSegD b (sg_hdr g) false x]> (<[n + b := mkSeg (sg_len g - b) r true]> segs)).

Section heap.
Context `{!PersistentMem}.

Lemma s64_id x : 0 <= x < 2 ^ 62 -> s64 x = x.
Proof. intros Hx. unfold s64. rewrite Z.mod_small; lia. Qed.

(** ** The search *)

(** A run that [MAK_allochblk_nth] can take. *)
Definition suits (b : Z) (may_split : bool) (len : Z) : Prop := len = b \/ may_split = true /\ b < len.

Lemma wp_find_block T s E L hl segs i b may_split : hinv s E L hl segs ∅ -> 0 <= i <= 60 -> 0 < b < 2 ^ 50 -> forall l fuel p a (Q : option (Z * Z) -> heap -> Prop),
  dls (fnx (hdrs s) segs) (fpv (hdrs s) segs) p a l 0 -> (forall y, y ∈ l -> y ∈ L i) -> (length l < fuel)%nat ->
  ((forall n g, n * HBLKSZ ∈ l -> segs !! n = Some g -> ~ suits b may_split (sg_len g)) -> Q None s) ->
  (forall n g, n * HBLKSZ ∈ l -> segs !! n = Some g -> sg_free g = true -> MAK_hblk_fl_from_blocks (sg_len g) = i -> suits b may_split (sg_len g) -> Q (Some (n * HBLKSZ, sg_hdr g)) s) ->
  wp T (find_block fuel (b * HBLKSZ) may_split a) s Q.
Proof.
  intros I Hi Hb. induction l as [|y l IH]; intros fuel p a Q Hd Hin Hf HN HS; (destruct fuel as [|fuel]; [cbn in Hf; lia|]); cbn [find_block].
  - cbn in Hd. subst a. cbn [Z.eqb]. apply HN. intros n g Hn. by apply not_elem_of_nil in Hn.
  - destruct Hd as (-> & Hy0 & _ & Hd). rewrite (proj2 (Z.eqb_neq _ _) Hy0).
    destruct (member_hdr _ _ _ _ _ _ I i y Hi (Hin y ltac:(left))) as (n & g & x & -> & Hg & Hfr & HX & Hcl & Hw & Hx & _).
    destruct (sw_range _ _ (hv_wf _ _ _ _ _ _ I) _ _ Hg) as (Hn1 & Hl & Hend & _).
    destruct (hdr_of _ _ _ _ _ _ I n g Hg) as (x' & Hx' & _ & Hfor). assert (x' = x) as -> by congruence. destruct (Hfor HX) as [_ Hsz]. rewrite Hfr in Hsz.
    apply wp_bind. eapply wp_HDR; [exact (hv_idx _ _ _ _ _ _ I)|]. rewrite Hw. apply wp_bind. eapply wp_ld_hdr; [exact Hx|].
    rewrite (s64_id (hb_sz x)) by (unfold HBLKSZ in *; lia). rewrite Hsz.
    assert (Hnx : fnx (hdrs s) segs (n * HBLKSZ) = hb_next x) by (unfold fnx; by rewrite (hdr_at_start _ _ _ Hg), Hx). rewrite Hnx in Hd.
    assert (Hrec : ~ suits b may_split (sg_len g) \/ (exists n' g', n' * HBLKSZ ∈ l /\ segs !! n' = Some g' /\ suits b may_split (sg_len g')) -> wp T (find_block fuel (b * HBLKSZ) may_split (hb_next x)) s Q).
    { intros Hor. eapply IH; [exact Hd|intros z Hz; apply Hin; by right|cbn in Hf; lia| |].
      - intros Hnone. apply HN. intros n' g' [Heq|Hn']%elem_of_cons Hg'; [|by apply (Hnone n' g')]. assert (n' = n) as -> by (unfold HBLKSZ in Heq; lia). assert (g' = g) as -> by congruence.
        destruct Hor as [|(n2 & g2 & H1 & H2 & H3)]; [done|]. by destruct (Hnone n2 g2 H1 H2).
      - intros n' g' Hn'. apply HS. by right. }
    assert (Hhere : suits b may_split (sg_len g) -> Q (Some (n * HBLKSZ, sg_hdr g)) s) by (intros Hs; apply HS; [left|done..]).
    unfold suits in *. destruct (Z.ltb_spec (sg_len g * HBLKSZ) (b * HBLKSZ)) as [Hlt|Hge]; [apply Hrec; left; unfold HBLKSZ in Hlt; lia|].
    destruct (Z.eqb_spec (sg_len g * HBLKSZ) (b * HBLKSZ)) as [Heq|Hne]; [apply wp_ret, Hhere; left; unfold HBLKSZ in Heq; lia|].
    destruct may_split; cbn [negb]; [|apply Hrec; left; intros [?|[? _]]; [unfold HBLKSZ in *; lia|done]].
    assert (Hgt : b < sg_len g) by (unfold HBLKSZ in *; lia).
    destruct (Z.eqb_spec (hb_next x) 0) as [Hn0|Hn0]; [apply wp_ret, Hhere; by right|].
    destruct l as [|z l]; [cbn in Hd; congruence|]. pose proof Hd as (Hz & _). destruct (member_hdr _ _ _ _ _ _ I i z Hi (Hin z ltac:(set_solver))) as (n2 & g2 & x2 & -> & Hg2 & Hfr2 & HX2 & _ & Hw2 & Hx2 & _).
    destruct (sw_range _ _ (hv_wf _ _ _ _ _ _ I) _ _ Hg2) as (Hn2 & Hl2 & Hend2 & _).
    destruct (hdr_of _ _ _ _ _ _ I n2 g2 Hg2) as (x3 & Hx3 & _ & Hfor2). assert (x3 = x2) as -> by congruence. destruct (Hfor2 HX2) as [_ Hsz2]. rewrite Hfr2 in Hsz2.
    rewrite Hz. apply wp_bind. eapply wp_HDR; [exact (hv_idx _ _ _ _ _ _ I)|]. rewrite Hw2. apply wp_bind. eapply wp_ld_hdr; [exact Hx2|].
    rewrite (s64_id (hb_sz x2)) by (unfold HBLKSZ in *; lia). rewrite Hsz2. destruct (Z.leb_spec (b * HBLKSZ) (sg_len g2 * HBLKSZ)) as [Hle|Hlt2].
    + destruct (Z.ltb_spec (sg_len g2 * HBLKSZ) (sg_len g * HBLKSZ)); cbn [andb]; [|apply wp_ret, Hhere; by right].
      rewrite <- Hz. apply Hrec. right. exists n2, g2. split; [left|]. split; [done|]. unfold HBLKSZ in *. lia.
    + rewrite andb_false_r. apply wp_ret, Hhere. by right.
Qed.

(** ** Taking the first part of a run *)

Lemma fits_rest segs rs n g b : seg_wf segs rs -> segs !! n = Some g -> 0 < b < sg_len g ->
  fits (delete n segs) rs n b /\ forall g', sg_len g' = b -> fits (<[n := g']> segs) rs (n + b) (sg_len g - b).
Proof.
  intros W Hn Hb. destruct (sw_range _ _ W _ _ Hn) as (Hn1 & Hl & Hend & _).
  assert (Hout : forall n' g' m, segs !! n' = Some g' -> n <> n' -> n <= m < n + sg_len g -> ~ (n' <= m < n' + sg_len g')).
  { intros n' g' m Hn' Hne Hm Hm'. by apply Hne, (seg_overlap segs rs n g n' g' m). }
  split; [split|intros g' Hg'; split].
  - lia.
  - intros m Hm (n' & g' & [Hne Hn']%lookup_delete_Some & Hr). by apply (Hout n' g' m Hn' Hne ltac:(lia)).
  - intros m Hm. eapply (sw_inside _ _ W); [exact Hn|lia].
  - lia.
  - intros m Hm (n' & g2 & [[<- <-]|[Hne Hn']]%lookup_insert_Some & Hr); [lia|]. by apply (Hout n' g2 m Hn' Hne ltac:(lia)).
  - intros m Hm. eapply (sw_inside _ _ W); [exact Hn|lia].
Qed.

(** The run [n] with its first [b] blocks, in no list; the rest is listed. *)
Definition cut (segs : gmap Z seg) (n : Z) (g : seg) (b : Z) (segs' : gmap Z seg) : Prop :=
  (sg_len g = b /\ segs' = segs) \/
  (b < sg_len g /\ exists r, segs' = <[n + b := mkSeg (sg_len g - b) r true]> (<[n := mkSeg b (sg_hdr g) true]> segs)).

Lemma wp_get_first_part s E L hl segs n g b i :
  hinv s E L hl segs ∅ -> segs !! n = Some g -> sg_free g = true -> i = MAK_hblk_fl_from_blocks (sg_len g) -> 0 < b <= sg_len g ->
  wp True (MAK_get_first_part (n * HBLKSZ) (sg_hdr g) (b * HBLKSZ) i) s (fun r s' => r = n * HBLKSZ /\ exists E' L' hl' segs',
    hinv s' E' L' hl' segs' {[n]} /\ cut segs n g b segs').
Proof.
  intros I Hn Hf Hi Hb. pose proof (hv_wf _ _ _ _ _ _ I) as W. destruct (sw_range _ _ W _ _ Hn) as (Hn1 & Hl & Hend & _).
  destruct (hdr_of _ _ _ _ _ _ I n g Hn) as (x & Hx & _ & Hfor). destruct (Hfor ltac:(set_solver)) as [_ Hsz]. rewrite Hf in Hsz.
  unfold MAK_get_first_part. apply wp_bind. eapply wp_ld_hdr; [exact Hx|]. cbn zeta. rewrite Hsz. apply wp_bind.
  eapply (wp_remove_from_fl _ _ _ _ _ _ I); [exact Hn|exact Hf|set_solver|by right|]. intros s1 L1 I1 Hfr1 _ Hrs1. rewrite (left_id_L ∅ (∪)) in I1.
  destruct (Z.eqb_spec (sg_len g * HBLKSZ) (b * HBLKSZ)) as [Heq|Hne].
  - apply wp_ret. split; [done|]. exists E, L1, hl, segs. split; [done|]. left. split; [unfold HBLKSZ in Heq; lia|done].
  - assert (Hlt : b < sg_len g) by (unfold HBLKSZ in Hne; lia). replace (n * HBLKSZ + b * HBLKSZ) with ((n + b) * HBLKSZ) by lia.
    replace (sg_len g * HBLKSZ - b * HBLKSZ) with ((sg_len g - b) * HBLKSZ) by lia. set (g1 := mkSeg b (sg_hdr g) true).
    destruct (fits_rest segs (regions s1) n g b ltac:(by rewrite Hrs1) Hn ltac:(lia)) as [F1 F2].
    pose proof (hinv_resize _ _ _ _ _ _ _ _ _ I1 Hn ltac:(set_solver) F1) as I2. fold g1 in I2. specialize (F2 g1 eq_refl).
    apply wp_bind. eapply wp_mono; [apply (wp_install_header _ _ _ _ _ _ _ _ I2 F2)|]. intros r s3 (E3 & hl3 & Hr0 & I3 & _ & _ & _).
    rewrite (proj2 (Z.eqb_neq _ _) Hr0). set (g2 := mkSeg (sg_len g - b) r true) in *. set (segs3 := <[n + b := g2]> _) in *.
    assert (Hg2 : segs3 !! (n + b) = Some g2) by apply lookup_insert_eq. destruct (hdr_of _ _ _ _ _ _ I3 _ _ Hg2) as (x2 & Hx2 & _).
    apply wp_bind. change r with (sg_hdr g2). eapply (wp_float_upd _ _ _ _ _ _ I3); [exact Hg2|set_solver|exact Hx2|done|]. intros I4. apply wp_bind.
    eapply (wp_float_upd _ _ _ _ _ _ I4); [exact Hg2|set_solver|apply lookup_insert_eq|done|]. intros I5. apply wp_bind.
    eapply wp_add_to_fl; [exact I5|exact Hg2|set_solver|apply lookup_insert_eq|done|]. intros s6 L6 I6 _ _. apply wp_ret. split; [done|].
    replace (({[n]} ∪ {[n + b]}) ∖ {[n + b]}) with ({[n]} : gset Z) in I6 by (apply leibniz_equiv; intros m; set_solver by lia).
    exists E3, L6, hl3, segs3. split; [done|]. right. split; [done|]. by exists r.
Qed.

(** ** The header of an allocated run *)

(** The contents [setup_header] writes. *)
Definition made (sz kind : Z) (x : hdr) : Prop := hb_sz x = sz /\ hb_obj_kind x = u8 kind /\ hb_n_marks x = 0 /\ length (hb_marks x) = 5%nat.

Lemma wp_setup_header T s E L hl segs X n g sz kind flags (Q : unit -> heap -> Prop) :
  hinv s E L hl segs X -> segs !! n = Some g -> n ∈ X -> 0 <= kind < 2 ->
  (forall s' x', hinv s' E L hl segs X -> hdrs s' !! sg_hdr g = Some x' -> made sz kind x' -> hb_flags x' = u8 flags -> Q tt s') ->
  wp T (setup_header (sg_hdr g) (n * HBLKSZ) sz kind flags) s Q.
Proof.
  intros I Hn HX Hk HQ. destruct (hdr_of _ _ _ _ _ _ I n g Hn) as (x & Hx & Hb & _). unfold setup_header.
  apply wp_bind. eapply (wp_float_upd _ _ _ _ _ _ I); [exact Hn|exact HX|exact Hx|done|]. clear I. intros I.
  apply wp_bind. eapply (wp_float_upd _ _ _ _ _ _ I); [exact Hn|exact HX|apply lookup_insert_eq|done|]. clear I. intros I.
  apply wp_bind. eapply (wp_float_upd _ _ _ _ _ _ I); [exact Hn|exact HX|apply lookup_insert_eq|done|]. clear I. intros I.
  apply wp_bind. eapply (wp_float_upd _ _ _ _ _ _ I); [exact Hn|exact HX|apply lookup_insert_eq|by cbn; rewrite Hb|]. clear I. intros I.
  assert (Hok : exists k, MAK_obj_kinds !! Z.to_nat kind = Some k) by (apply lookup_lt_is_Some; cbn; lia). destruct Hok as [k ->].
  apply wp_bind. eapply (wp_float_upd _ _ _ _ _ _ I); [exact Hn|exact HX|apply lookup_insert_eq|done|]. clear I. intros I.
  apply wp_bind. eapply (wp_float_upd _ _ _ _ _ _ I); [exact Hn|exact HX|apply lookup_insert_eq|done|]. clear I. intros I.
  apply wp_bind. eapply (wp_float_upd _ _ _ _ _ _ I); [exact Hn|exact HX|apply lookup_insert_eq|done|]. clear I. intros I.
  eapply (wp_float_upd _ _ _ _ _ _ I); [exact Hn|exact HX|apply lookup_insert_eq|done|]. clear I. intros I.
  eapply HQ; [exact I|apply lookup_insert_eq| |done]. split_and!; [done|done|done|]. cbn. by rewrite length_alter.
Qed.

Lemma not_free_flag x flags : hb_flags x = u8 flags -> Z.land flags FREE_BLK = 0 -> HBLK_IS_FREE x = false.
Proof.
  intros Hf Hl. unfold HBLK_IS_FREE. rewrite Hf. enough (Z.land (u8 flags) FREE_BLK = 0) as -> by done. unfold u8, FREE_BLK in *.
  rewrite <- Z.land_ones by lia. rewrite <- Z.land_assoc, (Z.land_comm (Z.ones 8)), Z.land_assoc, Hl. apply Z.land_0_l.
Qed.

Lemma blocks_of_size sz : 0 < sz < 2 ^ 61 -> exists b, OBJ_SZ_TO_BLOCKS sz = b /\ 0 < b < 2 ^ 50 /\ sz <= b * HBLKSZ < sz + HBLKSZ.
Proof.
  intros Hsz. exists (OBJ_SZ_TO_BLOCKS sz). split; [done|]. unfold OBJ_SZ_TO_BLOCKS. rewrite divHBLKSZ_eq. unfold HBLKSZ, u64. rewrite Z.mod_small by lia.
  pose proof (Z.div_mod (sz + 4096 - 1) 4096 ltac:(done)). pose proof (Z.mod_pos_bound (sz + 4096 - 1) 4096 ltac:(done)). split; [|lia]. split; [lia|].
  apply Z.div_lt_upper_bound; lia.
Qed.

Lemma list_length s E L hl segs X i : hinv s E L hl segs X -> 0 <= i <= 60 -> (length (L i) <= size segs)%nat.
Proof.
  intros I Hi. destruct (hv_lists _ _ _ _ _ _ I i Hi) as (b & _ & _ & Hnd & Hm). rewrite <- (length_fmap bno). apply nodup_size.
  - apply NoDup_fmap_2_strong; [|done]. intros a1 a2 H1 H2 Heq. apply Hm in H1 as (n1 & g1 & -> & _), H2 as (n2 & g2 & -> & _). rewrite !bno_addr in Heq. by subst.
  - intros y (a & -> & Ha)%list_elem_of_fmap. apply Hm in Ha as (n & g & -> & Hg & _). rewrite bno_addr. by eexists.
Qed.

(** No run of the list [i] suits. *)
Definition none_in (segs : gmap Z seg) (b : Z) (may_split : bool) (i : Z) : Prop :=
  forall n g, segs !! n = Some g -> sg_free g = true -> MAK_hblk_fl_from_blocks (sg_len g) = i -> ~ suits b may_split (sg_len g).

Lemma cut_alloced segs n g b segs' : cut segs n g b segs' -> segs !! n = Some g -> 0 < b ->
  exists g', segs' !! n = Some g' /\ sg_len g' = b /\ sg_hdr g' = sg_hdr g /\ forall x, alloced segs n g b x (<[n := mkSegD b (sg_hdr g) false x]> segs').
Proof.
  intros [[Hl ->]|(Hlt & r & ->)] Hn Hb.
  - exists g. split_and!; try done. by left.
  - exists (mkSeg b (sg_hdr g) true). rewrite lookup_insert_ne by lia. rewrite lookup_insert_eq. split_and!; try done. intros x. right. split; [done|]. exists r.
    rewrite (insert_insert_ne segs (n + b)) by lia. by rewrite insert_insert_eq.
Qed.

(** What an allocation from a list does, or from all lists. *)
Definition alloc_post (segs : gmap Z seg) (sz kind : Z) (none : Prop) (r : Z) (s' : heap) : Prop :=
  exists E' L' hl' segs', hinv s' E' L' hl' segs' ∅ /\
    ((r = 0 /\ segs' = segs /\ none) \/ exists n g x, r = n * HBLKSZ /\ n <> 0 /\ segs !! n = Some g /\ sg_free g = true /\ OBJ_SZ_TO_BLOCKS sz <= sg_len g /\
       made sz kind x /\ alloced segs n g (OBJ_SZ_TO_BLOCKS sz) x segs').

Lemma wp_allochblk_nth s E L hl segs fuel sz kind flags i may_split :
  hinv s E L hl segs ∅ -> 0 < sz < 2 ^ 61 -> 0 <= kind < 2 -> Z.land flags FREE_BLK = 0 -> 0 <= i <= 60 -> (size segs < fuel)%nat ->
  wp True (MAK_allochblk_nth fuel sz kind flags i may_split) s (alloc_post segs sz kind (none_in segs (OBJ_SZ_TO_BLOCKS sz) may_split i)).
Proof.
  intros I Hsz Hk Hfl Hi Hfu. destruct (blocks_of_size sz Hsz) as (b & Hb & Hbr & Hbs). unfold MAK_allochblk_nth, alloc_post. rewrite !Hb. cbn zeta.
  replace (s64 (HBLKSZ * b)) with (b * HBLKSZ) by (rewrite s64_id; unfold HBLKSZ; lia). apply wp_bind. eapply wp_mark; [exact I|]. clear I. intros s0 I _ _ _ _.
  destruct (hv_lists _ _ _ _ _ _ I i Hi) as (a & Ha & Hd & Hnd & Hm). apply wp_bind. eapply wp_ok; [unfold fl_get; rewrite Ha; reflexivity|]. apply wp_bind.
  eapply (wp_find_block _ _ _ _ _ _ _ _ may_split I Hi Hbr (L i)); [exact Hd|done| | |].
  - pose proof (list_length _ _ _ _ _ _ i I Hi). lia.
  - intros Hnone. apply wp_ret. exists E, L, hl, segs. split; [done|]. left. split_and!; try done. intros n g Hg Hf Hc. apply Hnone with (n := n); [|done]. apply Hm. by exists n, g.
  - intros n g Hin Hg Hf Hc Hs. assert (Hle : b <= sg_len g) by (destruct Hs as [->|[_ ?]]; lia). cbn beta iota.
    destruct (sw_range _ _ (hv_wf _ _ _ _ _ _ I) _ _ Hg) as (Hn1 & _).
    apply wp_bind. eapply wp_mono; [apply (wp_get_first_part _ _ _ _ _ n g b i I Hg Hf); [done|lia]|]. intros r s1 (-> & E1 & L1 & hl1 & segs1 & I1 & Hcut).
    destruct (cut_alloced _ _ _ _ _ Hcut Hg ltac:(lia)) as (g1 & Hg1 & Hl1 & Hh1 & Hal). apply wp_bind. rewrite <- Hh1.
    eapply wp_setup_header; [exact I1|exact Hg1|set_solver|done|]. intros s2 x2 I2 Hx2 Hmade Hfl2. pose proof Hmade as (Hsz2 & _). apply wp_bind, wp_mod. set (s3 := set_hfree _ s2).
    assert (I3 : hinv s3 E1 L1 hl1 segs1 {[n]}) by (eapply hinv_ext; [..|exact I2]; done). apply wp_bind. rewrite <- Hl1.
    eapply wp_mono; [apply (wp_install_counts _ _ _ _ _ _ _ _ x2 I3 Hg1); [set_solver|exact Hx2|]|].
    { split; cbn [sg_free sg_len sg_data]; [by eapply not_free_flag|]. split; [done|]. rewrite Hsz2, Hl1. lia. }
    intros ok s4 (-> & E4 & I4 & _). cbn [negb]. apply wp_ret. replace ({[n]} ∖ {[n]}) with (∅ : gset Z) in I4 by set_solver.
    rewrite Hl1, Hh1 in I4. eexists E4, L1, hl1, _. split; [exact I4|]. right. exists n, g, x2. rewrite Hl1. split_and!; try done; try lia.
Qed.

(** ** All lists *)

Lemma class_mono m n : 0 < m <= n -> MAK_hblk_fl_from_blocks m <= MAK_hblk_fl_from_blocks n.
Proof.
  intros Hmn. unfold MAK_hblk_fl_from_blocks, UNIQUE_THRESHOLD, HUGE_THRESHOLD, N_HBLK_FLS, FL_COMPRESSION, UNIQUE_THRESHOLD, HUGE_THRESHOLD.
  change ((256 - 32) / 8 + 32) with 60. pose proof (Z.div_le_mono (m - 32) (n - 32) 8). pose proof (Z.div_le_mono (n - 32) 223 8). pose proof (Z.div_le_mono (m - 32) 223 8). change (223 / 8) with 27 in *.
  pose proof (Z.div_pos (n - 32) 8).
  destruct (Z.leb_spec m 32), (Z.leb_spec n 32); try lia; destruct (Z.leb_spec 256 n); try lia; destruct (Z.leb_spec 256 m); lia.
Qed.

Lemma class_above m n : 0 < m < n -> MAK_hblk_fl_from_blocks m < UNIQUE_THRESHOLD -> MAK_hblk_fl_from_blocks m < MAK_hblk_fl_from_blocks n.
Proof.
  intros Hmn Hlt. assert (Hm : m < 32).
  { destruct (Z_lt_ge_dec m 32); [done|]. pose proof (class_mono 32 m ltac:(lia)) as Hc. change (MAK_hblk_fl_from_blocks 32) with 32 in Hc. unfold UNIQUE_THRESHOLD in Hlt. lia. }
  pose proof (class_mono (m + 1) n ltac:(lia)) as Hc. unfold MAK_hblk_fl_from_blocks at 1 in Hc. unfold UNIQUE_THRESHOLD in Hc at 1. rewrite (proj2 (Z.leb_le _ _)) in Hc by lia.
  unfold MAK_hblk_fl_from_blocks at 1, UNIQUE_THRESHOLD. rewrite (proj2 (Z.leb_le _ _)) by lia. lia.
Qed.

Lemma wp_try_lists fuel sz kind flags l : forall s E L hl segs,
  hinv s E L hl segs ∅ -> 0 < sz < 2 ^ 61 -> 0 <= kind < 2 -> Z.land flags FREE_BLK = 0 -> (forall i, i ∈ l -> 0 <= i <= 60) -> (size segs < fuel)%nat ->
  wp True (try_lists fuel sz kind flags l) s (alloc_post segs sz kind (forall i, i ∈ l -> none_in segs (OBJ_SZ_TO_BLOCKS sz) true i)).
Proof.
  induction l as [|i l IH]; intros s E L hl segs I Hsz Hk Hfl Hl Hfu; cbn [try_lists].
  - apply wp_ret. exists E, L, hl, segs. split; [done|]. left. split_and!; try done. intros i Hi. by apply not_elem_of_nil in Hi.
  - apply wp_bind. eapply wp_mono; [eapply (wp_allochblk_nth _ _ _ _ _ _ _ _ _ i true I); [done|done|done|apply Hl; left|done]|].
    intros r s1 (E1 & L1 & hl1 & segs1 & I1 & [(-> & -> & Hnone)|(n & g & x & -> & Hn0 & Hrest)]).
    + cbn [Z.eqb]. eapply wp_mono; [apply (IH _ _ _ _ _ I1); try done; intros j Hj; apply Hl; by right|]. intros r s2 (E2 & L2 & hl2 & segs2 & I2 & Hpost). exists E2, L2, hl2, segs2. split; [done|].
      destruct Hpost as [(-> & -> & Hno)|Hgot]; [left|by right]. split_and!; try done. intros j [->|Hj]%elem_of_cons; [done|by apply Hno].
    + rewrite (proj2 (Z.eqb_neq _ _)) by (unfold HBLKSZ; lia). apply wp_ret. exists E1, L1, hl1, segs1. split; [done|]. right. by exists n, g, x.
Qed.

Lemma wp_allochblk s E L hl segs fuel sz kind flags :
  hinv s E L hl segs ∅ -> 0 < sz < 2 ^ 61 -> 0 <= kind < 2 -> Z.land flags FREE_BLK = 0 -> (size segs < fuel)%nat ->
  wp True (MAK_allochblk fuel sz kind flags) s (alloc_post segs sz kind (forall n g, segs !! n = Some g -> sg_free g = true -> sg_len g < OBJ_SZ_TO_BLOCKS sz)).
Proof.
  intros I Hsz Hk Hfl Hfu. destruct (blocks_of_size sz Hsz) as (b & Hb & Hbr & Hbs). unfold MAK_allochblk, alloc_post. cbn zeta. rewrite !Hb.
  assert (Hu : u64 (b * HBLKSZ) = b * HBLKSZ) by (apply Z.mod_small; unfold HBLKSZ; lia). rewrite Hu, s64_id by (unfold HBLKSZ; lia). rewrite (proj2 (Z.ltb_ge _ _)) by (unfold HBLKSZ; lia).
  pose proof (fl_class_range b ltac:(lia)) as Hc. apply wp_bind. eapply wp_mono; [eapply (wp_allochblk_nth _ _ _ _ _ _ _ _ _ (MAK_hblk_fl_from_blocks b) false I); done|].
  unfold alloc_post at 1. rewrite !Hb. intros r s1 (E1 & L1 & hl1 & segs1 & I1 & [(-> & -> & Hnone)|(n & g & x & -> & Hn0 & Hrest)]).
  - cbn [Z.eqb negb]. set (st := if MAK_hblk_fl_from_blocks b <? UNIQUE_THRESHOLD then MAK_hblk_fl_from_blocks b + 1 else MAK_hblk_fl_from_blocks b).
    assert (Hst : 0 <= st <= 60) by (unfold st, UNIQUE_THRESHOLD; destruct (Z.ltb_spec (MAK_hblk_fl_from_blocks b) 32); lia). change (N_HBLK_FLS + 1) with 61.
    eapply wp_mono; [apply (wp_try_lists _ _ _ _ _ _ _ _ _ _ I1); try done; intros i Hi%elem_of_seqZ; lia|].
    unfold alloc_post. rewrite !Hb. intros r s2 (E2 & L2 & hl2 & segs2 & I2 & Hpost). exists E2, L2, hl2, segs2. split; [done|].
    destruct Hpost as [(-> & -> & Hno)|Hgot]; [left|by right]. split_and!; try done. intros n g Hg Hf. destruct (Z_lt_ge_dec (sg_len g) b) as [|Hge]; [done|exfalso].
    destruct (sw_range _ _ (hv_wf _ _ _ _ _ _ I) _ _ Hg) as (_ & Hl & _). pose proof (fl_class_range _ Hl) as Hcg. pose proof (class_mono b (sg_len g) ltac:(lia)) as Hcm.
    destruct (decide (st <= MAK_hblk_fl_from_blocks (sg_len g))) as [Hle|Hgt].
    + apply (Hno (MAK_hblk_fl_from_blocks (sg_len g)) ltac:(apply elem_of_seqZ; lia) n g Hg Hf eq_refl). unfold suits. destruct (Z.eq_dec (sg_len g) b); [by left|right]. split; [done|lia].
    + unfold st in Hgt. destruct (Z.ltb_spec (MAK_hblk_fl_from_blocks b) UNIQUE_THRESHOLD) as [Hlt|]; [|lia]. destruct (Z.eq_dec (sg_len g) b) as [He|Hne].
      * apply (Hnone n g Hg Hf ltac:(by rewrite He)). by left.
      * pose proof (class_above b (sg_len g) ltac:(lia) Hlt). lia.
  - rewrite (proj2 (Z.eqb_neq _ _)) by (unfold HBLKSZ; lia). cbn [negb]. apply wp_ret. exists E1, L1, hl1, segs1. split; [done|]. right. by exists n, g, x.
Qed.

End heap.

(** ** Makalu: the heap grows

    [MAK_expand_hp_inner] and [MAK_try_expand_hp]: new memory becomes a free run, merged with its
    neighbours. *)

Section heap.
Context `{!PersistentMem}.

Lemma hinv_regions s E L hl segs X rs : hinv s E L hl segs X -> regions s ⊆ rs -> hinv (set_regions rs s) E L hl segs X.
Proof.
  intros I Hrs. eapply hinv_index; [exact I| |apply irep_more; [exact (hv_idx _ _ _ _ _ _ I)|done]]. exists (hindex s), rs. split; [by destruct s|]. by split.
Qed.

(** Memory that is apart from all regions holds no run. *)
Lemma fits_fresh s E L hl segs X a bytes n len :
  hinv s E L hl segs X -> get_mem (regions s) bytes = Some a -> a = n * HBLKSZ -> bytes = len * HBLKSZ -> 0 < len -> fits segs ((a, bytes) :: regions s) n len.
Proof.
  intros I Ha -> -> Hl. destruct (get_mem_range _ _ _ Ha) as [H1 H2]. unfold HBLKSZ in *. split; [lia|..].
  - intros m Hm (n' & g' & Hn' & Hr). destruct (sw_inside _ _ (hv_wf _ _ _ _ _ _ I) _ _ _ Hn' Hr) as (r & Hrr & Hin). unfold HBLKSZ in Hin.
    destruct (get_mem_fresh _ _ _ _ Ha Hrr); lia.
  - intros m Hm. exists (n * 4096, len * 4096). split; [left|]. cbn. unfold HBLKSZ. lia.
Qed.

(** [len] new blocks are added to the runs. *)
Definition grown (segs : gmap Z seg) (len : Z) (segs' : gmap Z seg) : Prop :=
  exists n h, 1 < n /\ 0 < len /\ (forall m, n <= m < n + len -> ~ covered segs m) /\ freed (<[n := mkSeg len h false]> segs) n (mkSeg len h false) segs'.

Lemma wp_set_extent T s E L hl segs X f (Q : unit -> heap -> Prop) : hinv s E L hl segs X -> 0 <= MAK_heapsize (f (hextent s)) ->
  (forall s', hinv s' E L hl segs X -> regions s' = regions s -> hextent s' = f (hextent s) -> Q tt s') -> wp T (set_extent f) s Q.
Proof.
  intros I Hf HQ. apply wp_mod. apply HQ; [|done|done]. destruct I as [J1 J2 J3 J4 J5 J6 J7 J8 J9 J10 JU [J11 _]]. by split.
Qed.

Lemma wp_add_to_heap s E L hl segs fuel n len slop :
  hinv s E L hl segs ∅ -> fits segs (regions s) n len -> enough segs fuel -> (0 < fuel)%nat ->
  wp True (MAK_add_to_heap fuel (n * HBLKSZ) (len * HBLKSZ) slop) s (fun _ s' => exists E' L' hl' segs', hinv s' E' L' hl' segs' ∅ /\ grown segs len segs').
Proof.
  intros I F Hfu Hfu0. pose proof (ft_range _ _ _ _ F) as (Hn1 & Hl & Hend). unfold MAK_add_to_heap. apply wp_bind, wp_gets. apply wp_if; intros _; [by apply wp_throw|].
  unfold skip_low. rewrite (proj2 (Z.ltb_lt _ _)) by (unfold HBLKSZ; lia). cbn beta iota zeta.
  assert (Hu : u64 (n * HBLKSZ + len * HBLKSZ) = n * HBLKSZ + len * HBLKSZ) by (apply Z.mod_small; unfold HBLKSZ; lia). rewrite Hu, (proj2 (Z.leb_gt _ _)) by (unfold HBLKSZ; lia).
  apply wp_bind. eapply wp_set_extent; [exact I|exact (proj2 (hv_mode _ _ _ _ _ _ I))|]. intros s1 I1 Hrs1 _.
  apply wp_bind. eapply wp_mono; [apply (wp_newfreehblk s1 E L hl segs n len fuel I1); [by rewrite Hrs1|done|done]|]. intros [] s2 (E2 & L2 & hl2 & segs2 & h & I2 & Hfd).
  apply wp_bind. eapply wp_set_extent; [exact I2|cbn; apply Z.mod_pos_bound; lia|]. intros s3 I3 _ He3.
  eapply wp_set_extent; [exact I3|rewrite He3; destruct (plausible _ _ _ _ _ _); cbn; apply Z.mod_pos_bound; lia|]. intros s4 I4 _ _.
  exists E2, L2, hl2, segs2. split; [done|]. exists n, h. split_and!; try done. exact (ft_disj _ _ _ _ F).
Qed.

Lemma page_round n : 0 <= n < 2 ^ 50 -> Z.land (u64 (u64 (n * HBLKSZ) + (MAK_page_size - 1))) (not64 (MAK_page_size - 1)) = n * HBLKSZ.
Proof.
  intros Hn. unfold MAK_page_size, HBLKSZ. rewrite !u64_small by (rewrite ?u64_small; lia). change 4096 with (2 ^ 12). rewrite land_not64 by lia.
  rewrite Z.div_add_l by done. by rewrite Z.div_small, Z.add_0_r.
Qed.

(** An expansion by [len] blocks, or none. *)
Definition expanded (segs : gmap Z seg) (len : Z) (ok : bool) (s' : heap) : Prop :=
  exists E' L' hl' segs', hinv s' E' L' hl' segs' ∅ /\ (if ok then grown segs len segs' else segs' = segs).

Lemma wp_expand_hp_inner s E L hl segs fuel n :
  hinv s E L hl segs ∅ -> 0 <= n < 2 ^ 49 -> enough segs fuel -> (0 < fuel)%nat -> wp True (MAK_expand_hp_inner fuel n) s (expanded segs (Z.max n MINHINCR)).
Proof.
  intros I Hn Hfu Hfu0. unfold MAK_expand_hp_inner. set (n' := if n <? MINHINCR then MINHINCR else n). cbn zeta.
  assert (Hn' : n <= n' < 2 ^ 50 /\ 0 < n' /\ Z.max n MINHINCR = n') by (unfold n', MINHINCR; destruct (Z.ltb_spec n 16); lia). destruct Hn' as (Hn' & Hn0 & ->). rewrite (page_round n') by lia.
  assert (Hno : forall s', hinv s' E L hl segs ∅ -> expanded segs n' false s') by (intros s' I'; by exists E, L, hl, segs).
  apply wp_bind, wp_gets. apply wp_if; intros _; [by apply wp_ret, Hno|].
  apply wp_bind. eapply wp_mark; [exact I|]. clear I. intros s0 I _ _ _ _. apply wp_bind. eapply wp_set_extent; [exact I|exact (proj2 (hv_mode _ _ _ _ _ _ I))|]. clear I. intros s1 I _ He1.
  apply wp_bind. unfold wp at 1, GET_MEM. destruct (get_mem (regions s1) (n' * HBLKSZ)) as [a|] eqn:Ea; [|by apply Hno].
  pose proof (get_mem_aligned _ _ _ Ea) as Hal. assert (Han : a = a / HBLKSZ * HBLKSZ) by (pose proof (Z.div_mod a HBLKSZ ltac:(done)); lia).
  pose proof (fits_fresh _ _ _ _ _ _ a _ _ n' I Ea Han eq_refl ltac:(lia)) as F. pose proof (ft_range _ _ _ _ F) as (Hb1 & _).
  pose proof (hinv_regions _ _ _ _ _ _ ((a, n' * HBLKSZ) :: regions s1) I ltac:(set_solver)) as I2.
  apply wp_bind. eapply wp_set_extent; [exact I2|exact (proj2 (hv_mode _ _ _ _ _ _ I2))|]. intros s3 I3 Hrs3 He3.
  unfold MAK_finish_expand_hp_inner. apply wp_bind, wp_gets. rewrite He3. cbn [ext_last_addr MAK_last_heap_addr MAK_last_heap_size set_regions hextent]. rewrite He1. cbn [ext_last_size MAK_last_heap_size].
  rewrite (proj2 (Z.eqb_neq a 0)) by (unfold HBLKSZ in *; lia). apply wp_bind. apply wp_bind. rewrite Han.
  eapply wp_mono; [apply (wp_add_to_heap s3 E L hl segs fuel (a / HBLKSZ) n'); [exact I3|by rewrite Hrs3|done|done]|]. intros [] s4 (E4 & L4 & hl4 & segs4 & I4 & Hg).
  apply wp_bind. eapply wp_set_extent; [exact I4|exact (proj2 (hv_mode _ _ _ _ _ _ I4))|]. intros s5 I5 _ _.
  eapply wp_set_extent; [exact I5|exact (proj2 (hv_mode _ _ _ _ _ _ I5))|]. intros s6 I6 _ _. apply wp_ret.
  by exists E4, L4, hl4, segs4.
Qed.

Lemma wp_try_expand_hp s E L hl segs fuel needed ignore :
  hinv s E L hl segs ∅ -> 0 < needed < 2 ^ 48 -> enough segs fuel -> (0 < fuel)%nat ->
  wp True (MAK_try_expand_hp fuel needed ignore) s (fun ok s' => ok = true /\ exists len, needed <= len /\ expanded segs len true s').
Proof.
  intros I Hn Hfu Hfu0. unfold MAK_try_expand_hp. apply wp_bind, wp_gets. pose proof (proj2 (hv_mode _ _ _ _ _ _ I)) as Hhs.
  assert (Hq : 0 <= MAK_heapsize (hextent s) / (HBLKSZ * MAK_free_space_divisor)) by (apply Z.div_pos; [done|unfold HBLKSZ, MAK_free_space_divisor; lia]).
  cbn zeta. set (b := if MAXHINCR <? _ then _ else _). assert (Hb : needed <= b < 2 ^ 49).
  { unfold b, MAXHINCR, MINHINCR. destruct (Z.ltb_spec 2048 (MAK_heapsize (hextent s) / (HBLKSZ * MAK_free_space_divisor) + needed)); [|lia].
    destruct ignore; [|destruct (Z.ltb_spec needed (2 * 16))]; match goal with |- context [2048 <? ?x] => destruct (Z.ltb_spec 2048 x) end; lia. }
  apply wp_bind. eapply wp_mono; [apply (wp_expand_hp_inner s E L hl segs fuel b I); [lia|done|done]|]. intros [] s1 Hex.
  - apply wp_ret. split; [done|]. exists (Z.max b MINHINCR). split; [lia|done].
  - destruct Hex as (E1 & L1 & hl1 & segs1 & I1 & ->). apply wp_bind. eapply wp_mono; [apply (wp_expand_hp_inner s1 E1 L1 hl1 segs fuel needed I1); [lia|done|done]|].
    intros [] s2 Hex; [apply wp_ret|by apply wp_throw]. split; [done|]. exists (Z.max needed MINHINCR). split; [lia|done].
Qed.

End heap.
