(* ===== verification/MakHeap.v ===== *)
(** * Makalu: the block heap implements sets of blocks

    Abstractly the heap is a set of free blocks and the allocated runs. Freeing a run returns all
    its blocks; an allocation takes consecutive free blocks, and fails only if there are not enough
    of them in a row; an expansion adds blocks that are not in use. *)

From S2P Require Import Prelude MakHdr MakBlock MakLib MakIndex MakSegs MakRuns MakCoalesce MakAlloc.
From stdpp Require Import sorting.
#[local] Open Scope Z_scope.
#[local] Open Scope cmd_scope.

(** ** The abstract heap *)

Record blocks := mkBlocks {
  allocated : gmap Z Z;   (* first block and number of blocks *)
  avail : gset Z }.       (* free blocks *)

Definition run (n len : Z) : gset Z := list_to_set (seqZ n len).

Definition abs (segs : gmap Z seg) : blocks :=
  mkBlocks (omap (fun g => if sg_free g then None else Some (sg_len g)) segs)
           (⋃ ((fun '(n, g) => if sg_free g : bool then run n (sg_len g) else ∅) <$> map_to_list segs)).

Lemma elem_run n len m : m ∈ run n len <-> n <= m < n + len.
Proof. unfold run. rewrite elem_of_list_to_set, elem_of_seqZ. lia. Qed.

Definition free_at (segs : gmap Z seg) (m : Z) : Prop := exists n g, segs !! n = Some g /\ sg_free g = true /\ n <= m < n + sg_len g.

Lemma elem_avail segs m : m ∈ avail (abs segs) <-> free_at segs m.
Proof.
  cbn. rewrite elem_of_union_list. split.
  - intros (X & ((n, g) & -> & Hin)%list_elem_of_fmap & Hm). apply elem_of_map_to_list in Hin. destruct (sg_free g) eqn:Ef; [|set_solver]. exists n, g. by apply elem_run in Hm.
  - intros (n & g & Hn & Hf & Hm). exists (run n (sg_len g)). split; [|by apply elem_run]. apply list_elem_of_fmap. exists (n, g). rewrite Hf. split; [done|]. by apply elem_of_map_to_list.
Qed.

Lemma lookup_allocated segs n : allocated (abs segs) !! n = match segs !! n with Some g => if sg_free g then None else Some (sg_len g) | None => None end.
Proof. cbn. rewrite lookup_omap. by destruct (segs !! n) as [g|]. Qed.

Lemma abs_eq segs A F : (forall n, match segs !! n with Some g => if sg_free g then None else Some (sg_len g) | None => None end = A !! n) ->
  (forall m, free_at segs m <-> m ∈ F) -> abs segs = mkBlocks A F.
Proof.
  intros HA HF. destruct (abs segs) as [A' F'] eqn:He. assert (A' = allocated (abs segs)) as -> by (by rewrite He). assert (F' = avail (abs segs)) as -> by (by rewrite He). f_equal.
  - apply map_eq. intros n. by rewrite lookup_allocated, HA.
  - apply leibniz_equiv. intros m. by rewrite elem_avail, HF.
Qed.

(** ** What an operation on the runs does to the blocks *)

(** Only [c] may touch the next free run. *)
Definition almost (segs : gmap Z seg) (c : Z) : Prop :=
  forall n g n' g', segs !! n = Some g -> segs !! n' = Some g' -> sg_free g = true -> sg_free g' = true -> n + sg_len g = n' -> n = c.

Lemma prev_almost segs n g segs2 c gc : coalesced segs -> segs !! n = Some g -> sg_free g = false -> prev_merged segs n g segs2 c gc -> almost segs2 c /\ segs2 !! c = Some gc /\ sg_free gc = true.
Proof.
  intros Hco Hn Hf [(Hno & -> & -> & ->)|(gq & Hq & Hfq & He & -> & ->)]; (split; [|by rewrite lookup_insert_eq]).
  - intros a ga a' ga' [[<- <-]|[Hne Ha]]%lookup_insert_Some Ha' Hfa Hfa' Had; [done|]. apply lookup_insert_Some in Ha' as [[<- <-]|[Hne' Ha']].
    + by destruct (Hno a ga Ha Hfa).
    + by destruct (Hco a ga a' ga' Ha Ha' Hfa Hfa').
  - intros a ga a' ga' [[<- <-]|[Hne [_ Ha]%lookup_delete_Some]]%lookup_insert_Some Ha' Hfa Hfa' Had; [done|]. apply lookup_insert_Some in Ha' as [[<- <-]|[Hne' [_ Ha']%lookup_delete_Some]].
    + by destruct (Hco a ga c gq Ha Hq Hfa Hfq).
    + by destruct (Hco a ga a' ga' Ha Ha' Hfa Hfa').
Qed.

Lemma next_coalesced segs c gc : almost segs c -> segs !! c = Some gc -> sg_free gc = true -> (forall n g, segs !! n = Some g -> 0 < sg_len g) -> coalesced (next_merged segs c gc).
Proof.
  intros Hal Hc Hf Hpos. unfold next_merged. destruct (segs !! (c + sg_len gc)) as [gm|] eqn:Em; [destruct (sg_free gm) eqn:Efm|].
  - pose proof (Hpos _ _ Hc) as Hlc. pose proof (Hpos _ _ Em) as Hlm.
    intros a ga a' ga' [[<- <-]|[Hne [Hne2 Ha]%lookup_delete_Some]]%lookup_insert_Some Ha' Hfa Hfa' Had; cbn [sg_len] in *.
    + apply lookup_insert_Some in Ha' as [[<- _]|[Hne' [_ Ha']%lookup_delete_Some]]; [lia|]. pose proof (Hal _ _ _ _ Em Ha' Efm Hfa' ltac:(lia)). lia.
    + apply Hne. symmetry. apply lookup_insert_Some in Ha' as [[<- <-]|[Hne' [_ Ha']%lookup_delete_Some]]; [by apply (Hal a ga c gc)|by apply (Hal a ga a' ga')].
  - intros a ga a' ga' Ha Ha' Hfa Hfa' Had. pose proof (Hal _ _ _ _ Ha Ha' Hfa Hfa' Had) as ->. congruence.
  - intros a ga a' ga' Ha Ha' Hfa Hfa' Had. pose proof (Hal _ _ _ _ Ha Ha' Hfa Hfa' Had) as ->. congruence.
Qed.

Lemma prev_lengths segs n g segs2 c gc : (forall n g, segs !! n = Some g -> 0 < sg_len g) -> segs !! n = Some g -> prev_merged segs n g segs2 c gc -> forall a ga, segs2 !! a = Some ga -> 0 < sg_len ga.
Proof.
  intros Hpos Hn [(Hno & -> & -> & ->)|(gq & Hq & Hfq & He & -> & ->)] a ga.
  - intros [[<- <-]|[_ Ha]]%lookup_insert_Some; [exact (Hpos _ _ Hn)|by eapply Hpos].
  - pose proof (Hpos _ _ Hn). pose proof (Hpos _ _ Hq). intros [[<- <-]|[_ [_ Ha]%lookup_delete_Some]]%lookup_insert_Some; [cbn; lia|by eapply Hpos].
Qed.

Lemma prev_abs segs n g segs2 c gc : segs !! n = Some g -> sg_free g = false -> (forall n g, segs !! n = Some g -> 0 < sg_len g) -> prev_merged segs n g segs2 c gc ->
  abs segs2 = mkBlocks (delete n (allocated (abs segs))) (avail (abs segs) ∪ run n (sg_len g)).
Proof.
  intros Hn Hf Hpos [(Hno & -> & -> & ->)|(gq & Hq & Hfq & He & -> & ->)]; apply abs_eq.
  - intros a. destruct (decide (a = n)) as [->|Hne]; [by rewrite lookup_insert_eq, lookup_delete_eq|]. by rewrite lookup_insert_ne, lookup_delete_ne, lookup_allocated.
  - intros m. rewrite elem_of_union, elem_avail, elem_run. split.
    + intros (a & ga & [[<- <-]|[Hne Ha]]%lookup_insert_Some & Hfa & Hm); [by right|left; by exists a, ga].
    + intros [(a & ga & Ha & Hfa & Hm)|Hm]; [exists a, ga; rewrite lookup_insert_ne by congruence; done|]. eexists n, _. rewrite lookup_insert_eq. done.
  - pose proof (Hpos _ _ Hq). assert (Hcn : c <> n) by lia. intros a. destruct (decide (a = c)) as [->|Hne]; [rewrite lookup_insert_eq, lookup_delete_ne, lookup_allocated, Hq, Hfq by done; done|].
    rewrite lookup_insert_ne by done. destruct (decide (a = n)) as [->|Hne']; [by rewrite !lookup_delete_eq|]. by rewrite !lookup_delete_ne, lookup_allocated.
  - pose proof (Hpos _ _ Hq). pose proof (Hpos _ _ Hn). intros m. rewrite elem_of_union, elem_avail, elem_run. split.
    + intros (a & ga & [[<- <-]|[Hne [_ Ha]%lookup_delete_Some]]%lookup_insert_Some & Hfa & Hm); [|left; by exists a, ga]. cbn [sg_len] in Hm.
      destruct (decide (m < n)); [left; exists c, gq; split_and!; try done; lia|right; lia].
    + intros [(a & ga & Ha & Hfa & Hm)|Hm].
      * destruct (decide (a = c)) as [->|Hne]; [assert (ga = gq) as -> by congruence; eexists c, _; rewrite lookup_insert_eq; split_and!; [done|done|lia|cbn; lia]|].
        exists a, ga. rewrite lookup_insert_ne, lookup_delete_ne by congruence. done.
      * eexists c, _. rewrite lookup_insert_eq. split_and!; [done|done|lia|cbn; lia].
Qed.

Lemma next_abs segs c gc : segs !! c = Some gc -> sg_free gc = true -> (forall n g, segs !! n = Some g -> 0 < sg_len g) -> abs (next_merged segs c gc) = abs segs.
Proof.
  intros Hc Hf Hpos. unfold next_merged. destruct (segs !! (c + sg_len gc)) as [gm|] eqn:Em; [destruct (sg_free gm) eqn:Efm|]; [|done|done].
  pose proof (Hpos _ _ Hc). pose proof (Hpos _ _ Em). replace (abs segs) with (mkBlocks (allocated (abs segs)) (avail (abs segs))) by done. apply abs_eq.
  - intros a. rewrite lookup_allocated. destruct (decide (a = c)) as [->|Hne]; [by rewrite lookup_insert_eq, Hc, Hf|]. rewrite lookup_insert_ne by done.
    destruct (decide (a = c + sg_len gc)) as [->|Hne']; [by rewrite lookup_delete_eq, Em, Efm|]. by rewrite lookup_delete_ne.
  - intros m. rewrite elem_avail. split.
    + intros (a & ga & [[<- <-]|[Hne [_ Ha]%lookup_delete_Some]]%lookup_insert_Some & Hfa & Hm); [|by exists a, ga]. cbn [sg_len] in Hm.
      destruct (decide (m < c + sg_len gc)); [exists c, gc; split_and!; try done; lia|exists (c + sg_len gc), gm; split_and!; try done; lia].
    + intros (a & ga & Ha & Hfa & Hm). destruct (decide (a = c)) as [->|Hne]; [|destruct (decide (a = c + sg_len gc)) as [->|Hne']].
      * assert (ga = gc) as -> by congruence. eexists c, _. rewrite lookup_insert_eq. split_and!; [done|done|lia|cbn; lia].
      * assert (ga = gm) as -> by congruence. eexists c, _. rewrite lookup_insert_eq. split_and!; [done|done|lia|cbn; lia].
      * exists a, ga. rewrite lookup_insert_ne, lookup_delete_ne by done. done.
Qed.

(** Freeing keeps free runs apart, and returns the blocks of the run. *)
Lemma freed_abs segs n g segs' : coalesced segs -> segs !! n = Some g -> sg_free g = false -> (forall n g, segs !! n = Some g -> 0 < sg_len g) -> freed segs n g segs' ->
  coalesced segs' /\ abs segs' = mkBlocks (delete n (allocated (abs segs))) (avail (abs segs) ∪ run n (sg_len g)).
Proof.
  intros Hco Hn Hf Hpos (segs2 & c & gc & Hpm & ->). destruct (prev_almost _ _ _ _ _ _ Hco Hn Hf Hpm) as (Hal & Hc & Hfc). pose proof (prev_lengths _ _ _ _ _ _ Hpos Hn Hpm) as Hpos2.
  split; [by apply next_coalesced|]. rewrite next_abs by done. by apply prev_abs with (c := c) (gc := gc).
Qed.

(** An allocation takes blocks from the front of a free run. *)
Lemma alloced_abs segs rs n g b x segs' : seg_wf segs rs -> coalesced segs -> segs !! n = Some g -> sg_free g = true -> 0 < b -> alloced segs n g b x segs' ->
  coalesced segs' /\ abs segs' = mkBlocks (<[n := b]> (allocated (abs segs))) (avail (abs segs) ∖ run n b).
Proof.
  intros W Hco Hn Hf Hb [[Hl ->]|(Hlt & r & ->)]; (split; [|apply abs_eq]).
  - intros a ga a' ga' [[<- <-]|[Hne Ha]]%lookup_insert_Some Ha' Hfa Hfa'; [done|]. apply lookup_insert_Some in Ha' as [[<- <-]|[Hne' Ha']]; [done|by apply (Hco a ga a' ga')].
  - intros a. destruct (decide (a = n)) as [->|Hne]; [by rewrite !lookup_insert_eq|]. by rewrite !lookup_insert_ne, lookup_allocated.
  - intros m. rewrite elem_of_difference, elem_avail, elem_run. split.
    + intros (a & ga & [[<- <-]|[Hne Ha]]%lookup_insert_Some & Hfa & Hm); [done|]. split; [by exists a, ga|]. intros Hm'. apply Hne, (seg_overlap segs rs n g a ga m); [done|done|done|lia|lia].
    + intros [(a & ga & Ha & Hfa & Hm) Hnot]. exists a, ga. split; [|done]. rewrite lookup_insert_ne; [done|]. intros <-. assert (ga = g) as -> by congruence. lia.
  - assert (Hnb : forall a ga, segs !! a = Some ga -> a <> n -> a + sg_len ga <> n + b /\ a <> n + b).
    { intros a ga Ha Hne. destruct (sw_range _ _ W _ _ Ha) as (_ & ? & _). destruct (Z.lt_trichotomy a n) as [Hx|[|Hx]]; [|done|].
      - pose proof (sw_disj _ _ W _ _ _ _ Ha Hn Hx). lia.
      - pose proof (sw_disj _ _ W _ _ _ _ Hn Ha Hx). lia. }
    intros a ga a' ga' [[<- <-]|[Hne [[<- <-]|[Hne2 Ha]]%lookup_insert_Some]]%lookup_insert_Some Ha' Hfa Hfa' Had; [done|..].
    + cbn [sg_len] in Had. apply lookup_insert_Some in Ha' as [[<- <-]|[Hne' [[<- <-]|[_ Ha']]%lookup_insert_Some]]; [done|lia|]. by apply (Hco n g a' ga' Hn Ha' Hf Hfa'); lia.
    + apply lookup_insert_Some in Ha' as [[<- <-]|[Hne' [[<- <-]|[_ Ha']]%lookup_insert_Some]]; [done|..].
      * destruct (Hnb a ga Ha ltac:(done)). done.
      * by apply (Hco a ga a' ga').
  - assert (Hnone : segs !! (n + b) = None).
    { destruct (segs !! (n + b)) as [ga|] eqn:Ea; [|done]. destruct (sw_range _ _ W _ _ Ea) as (_ & ? & _). pose proof (sw_disj _ _ W _ _ _ _ Hn Ea ltac:(lia)). lia. }
    intros a. destruct (decide (a = n)) as [->|Hne]; [by rewrite !lookup_insert_eq|]. rewrite !(lookup_insert_ne _ n) by done. rewrite lookup_allocated.
    destruct (decide (a = n + b)) as [->|Hne']; [by rewrite lookup_insert_eq, Hnone|]. by rewrite lookup_insert_ne.
  - intros m. rewrite elem_of_difference, elem_avail, elem_run. split.
    + intros (a & ga & [[<- <-]|[Hne [[<- <-]|[Hne2 Ha]]%lookup_insert_Some]]%lookup_insert_Some & Hfa & Hm); [done|..]; cbn [sg_len] in Hm.
      * split; [exists n, g; split_and!; try done; lia|lia].
      * split; [by exists a, ga|]. intros Hm'. apply Hne, (seg_overlap segs rs n g a ga m); [done|done|done|lia|lia].
    + intros [(a & ga & Ha & Hfa & Hm) Hnot]. destruct (decide (a = n)) as [->|Hne].
      * assert (ga = g) as -> by congruence. eexists (n + b), _. rewrite lookup_insert_ne by lia. rewrite lookup_insert_eq. split_and!; [done|done|lia|cbn; lia].
      * exists a, ga. rewrite !lookup_insert_ne; [done| |done]. intros <-. destruct (sw_range _ _ W _ _ Ha) as (_ & ? & _). apply Hne. symmetry.
        apply (seg_overlap segs rs n g (n + b) ga (n + b)); [done|done|done|lia|lia].
Qed.

(** Consecutive free blocks are in one free run. *)
Lemma consecutive segs rs n b : seg_wf segs rs -> coalesced segs -> 0 < b -> run n b ⊆ avail (abs segs) ->
  exists q g, segs !! q = Some g /\ sg_free g = true /\ q <= n /\ n + b <= q + sg_len g.
Proof.
  intros W Hco Hb Hsub. assert (Hin : forall m, n <= m < n + b -> free_at segs m) by (intros m Hm; apply elem_avail, Hsub; by apply elem_run).
  destruct (Hin n ltac:(lia)) as (q & g & Hq & Hf & Hr). exists q, g. split_and!; try done; [lia|]. destruct (Z_le_gt_dec (n + b) (q + sg_len g)) as [|Hgt]; [done|exfalso].
  destruct (Hin (q + sg_len g) ltac:(lia)) as (q' & g' & Hq' & Hf' & Hr'). destruct (Z.lt_trichotomy q q') as [Hlt|[<-|Hlt]].
  - pose proof (sw_disj _ _ W _ _ _ _ Hq Hq' Hlt). apply (Hco q g q' g'); [done|done|done|done|lia].
  - assert (g' = g) as -> by congruence. lia.
  - pose proof (sw_disj _ _ W _ _ _ _ Hq' Hq Hlt). lia.
Qed.

(** ** Refinement *)

Definition heap_blocks (b : blocks) : gset Z := avail b ∪ ⋃ ((fun '(n, len) => run n len) <$> map_to_list (allocated b)).

(** Allocated runs are apart from each other and from the free blocks. *)
Record blocks_wf (b : blocks) : Prop := {
  bw_len : forall n len, allocated b !! n = Some len -> 0 < n /\ 0 < len;
  bw_runs : forall n len n' len', allocated b !! n = Some len -> allocated b !! n' = Some len' -> n <> n' -> run n len ## run n' len';
  bw_avail : forall n len, allocated b !! n = Some len -> run n len ## avail b }.

Lemma abs_wf segs rs : seg_wf segs rs -> blocks_wf (abs segs).
Proof.
  intros W. assert (Hal : forall n len, allocated (abs segs) !! n = Some len -> exists g, segs !! n = Some g /\ sg_free g = false /\ sg_len g = len).
  { intros n len. rewrite lookup_allocated. destruct (segs !! n) as [g|] eqn:E; [|done]. destruct (sg_free g) eqn:Ef; [done|]. intros [= <-]. by exists g. }
  split.
  - intros n len (g & Hg & _ & <-)%Hal. destruct (sw_range _ _ W _ _ Hg). lia.
  - intros n len n' len' (g & Hg & _ & <-)%Hal (g' & Hg' & _ & <-)%Hal Hne m Hm Hm'. apply elem_run in Hm, Hm'. by apply Hne, (seg_overlap segs rs n g n' g' m).
  - intros n len (g & Hg & Hf & <-)%Hal m Hm (n' & g' & Hg' & Hf' & Hr)%elem_avail. apply elem_run in Hm. assert (n = n') as <- by (by apply (seg_overlap segs rs n g n' g' m)). congruence.
Qed.

Lemma covered_blocks segs m : covered segs m <-> m ∈ heap_blocks (abs segs).
Proof.
  unfold heap_blocks. rewrite elem_of_union, elem_avail, elem_of_union_list. split.
  - intros (n & g & Hn & Hm). destruct (sg_free g) eqn:Ef; [left; by exists n, g|right]. exists (run n (sg_len g)). split; [|by apply elem_run].
    apply list_elem_of_fmap. exists (n, sg_len g). split; [done|]. apply elem_of_map_to_list. by rewrite lookup_allocated, Hn, Ef.
  - intros [(n & g & Hn & _ & Hm)|(X & ((n, len) & -> & Hin)%list_elem_of_fmap & Hm)]; [by exists n, g|]. apply elem_of_map_to_list in Hin. rewrite lookup_allocated in Hin.
    destruct (segs !! n) as [g|] eqn:En; [|done]. destruct (sg_free g); [done|]. injection Hin as <-. exists n, g. split; [done|by apply elem_run].
Qed.

Lemma size_run n len : size (run n len) = Z.to_nat len.
Proof. unfold run. rewrite size_list_to_set by apply NoDup_seqZ. apply length_seqZ. Qed.

Lemma elem_heap_blocks b m : m ∈ heap_blocks b <-> m ∈ avail b \/ exists n len, allocated b !! n = Some len /\ n <= m < n + len.
Proof.
  unfold heap_blocks. rewrite elem_of_union, elem_of_union_list. split; (intros [?|Hx]; [by left|right]).
  - destruct Hx as (X & ((n, len) & -> & Hin)%list_elem_of_fmap & Hm). exists n, len. split; [by apply elem_of_map_to_list|by apply elem_run].
  - destruct Hx as (n & len & Hal & Hm). exists (run n len). split; [|by apply elem_run]. apply list_elem_of_fmap. exists (n, len). split; [done|by apply elem_of_map_to_list].
Qed.

(** One more than the number of blocks is enough fuel. *)
Lemma fuel_enough segs rs fuel : seg_wf segs rs -> (size (heap_blocks (abs segs)) < fuel)%nat -> enough segs fuel /\ (size segs < fuel)%nat.
Proof.
  intros W Hf. split.
  - intros n g Hn. assert (Hsub : run n (sg_len g) ⊆ heap_blocks (abs segs)) by (intros m Hm%elem_run; apply covered_blocks; by exists n, g).
    apply subseteq_size in Hsub. rewrite size_run in Hsub. destruct (sw_range _ _ W _ _ Hn) as (_ & ? & _). lia.
  - enough (size segs <= size (heap_blocks (abs segs)))%nat by lia. rewrite <- size_dom. apply subseteq_size. intros n Hn. apply elem_of_dom in Hn as [g Hn].
    apply covered_blocks. exists n, g. destruct (sw_range _ _ W _ _ Hn) as (_ & ? & _). split; [done|lia].
Qed.

(** The requests of the rest of the program. *)
Inductive request :=
| ReqAlloc (sz kind flags : Z)                 (* bytes *)
| ReqFree (h : Z)                              (* address *)
| ReqExpand (needed : Z) (ignore_off_page : bool).

Definition legal (b : blocks) (q : request) : Prop :=
  match q with
  | ReqAlloc sz kind flags => 0 < sz < 2 ^ 61 /\ 0 <= kind < 2 /\ Z.land flags FREE_BLK = 0
  | ReqFree h => exists n len, h = n * HBLKSZ /\ allocated b !! n = Some len
  | ReqExpand needed _ => 0 < needed < 2 ^ 48
  end.

(** What the blocks do. *)
Inductive bstep (b : blocks) : request -> Z -> blocks -> Prop :=
| bs_alloc sz kind flags n : n <> 0 -> run n (OBJ_SZ_TO_BLOCKS sz) ⊆ avail b ->
    bstep b (ReqAlloc sz kind flags) (n * HBLKSZ) (mkBlocks (<[n := OBJ_SZ_TO_BLOCKS sz]> (allocated b)) (avail b ∖ run n (OBJ_SZ_TO_BLOCKS sz)))
| bs_none sz kind flags : (forall n, ~ run n (OBJ_SZ_TO_BLOCKS sz) ⊆ avail b) -> bstep b (ReqAlloc sz kind flags) 0 b
| bs_free n len : allocated b !! n = Some len -> bstep b (ReqFree (n * HBLKSZ)) 0 (mkBlocks (delete n (allocated b)) (avail b ∪ run n len))
| bs_expand needed i n len : needed <= len -> run n len ## heap_blocks b -> bstep b (ReqExpand needed i) 1 (mkBlocks (allocated b) (avail b ∪ run n len)).

(** A program that uses the heap: its next request, given the answers so far. *)
Definition program := list Z -> request.

Inductive reach (c : program) (b0 : blocks) : list Z -> blocks -> Prop :=
| reach_nil : reach c b0 [] b0
| reach_step h b r b' : reach c b0 h b -> bstep b (c h) r b' -> reach c b0 (h ++ [r]) b'.

Section heap.
Context `{!PersistentMem}.

Definition heap_rep (s : heap) (b : blocks) : Prop := exists E L hl segs, hinv s E L hl segs ∅ /\ coalesced segs /\ abs segs = b.

Definition exec (fuel : nat) (q : request) : stM heap Z :=
  match q with
  | ReqAlloc sz kind flags => MAK_allochblk fuel sz kind flags
  | ReqFree h => MAK_freehblk fuel h;; cret 0
  | ReqExpand needed i => ok <- MAK_try_expand_hp fuel needed i; cret (bool_Z ok)
  end.

Fixpoint play (fuel : nat) (c : program) (k : nat) (h : list Z) : stM heap (list Z) :=
  match k with
  | O => cret h
  | S k' => r <- exec fuel (c h); play fuel c k' (h ++ [r])
  end.

Lemma seg_pos s E L hl segs X : hinv s E L hl segs X -> forall n g, segs !! n = Some g -> 0 < sg_len g.
Proof. intros I n g Hn. by destruct (sw_range _ _ (hv_wf _ _ _ _ _ _ I) _ _ Hn) as (_ & ? & _). Qed.

Lemma rep_free s b fuel n len : heap_rep s b -> allocated b !! n = Some len -> (size (heap_blocks b) < fuel)%nat ->
  wp False (MAK_freehblk fuel (n * HBLKSZ)) s (fun _ s' => heap_rep s' (mkBlocks (delete n (allocated b)) (avail b ∪ run n len))).
Proof.
  intros (E & L & hl & segs & I & Hco & <-) Hal Hfu. rewrite lookup_allocated in Hal. destruct (segs !! n) as [g|] eqn:En; [|done]. destruct (sg_free g) eqn:Ef; [done|]. injection Hal as <-.
  destruct (fuel_enough _ _ _ (hv_wf _ _ _ _ _ _ I) Hfu) as [Hf1 Hf2]. eapply wp_mono; [by eapply wp_freehblk|]. intros [] s' (E' & L' & hl' & segs' & I' & Hfd).
  destruct (freed_abs _ _ _ _ Hco En Ef (seg_pos _ _ _ _ _ _ I) Hfd) as [Hco' Habs]. by exists E', L', hl', segs'.
Qed.

Lemma rep_alloc s b fuel sz kind flags : heap_rep s b -> legal b (ReqAlloc sz kind flags) -> (size (heap_blocks b) < fuel)%nat ->
  wp True (MAK_allochblk fuel sz kind flags) s (fun r s' => exists b', bstep b (ReqAlloc sz kind flags) r b' /\ heap_rep s' b').
Proof.
  intros (E & L & hl & segs & I & Hco & <-) (Hsz & Hk & Hfl) Hfu. destruct (fuel_enough _ _ _ (hv_wf _ _ _ _ _ _ I) Hfu) as [Hf1 Hf2]. destruct (blocks_of_size sz Hsz) as (k & Hb & Hbr & _).
  eapply wp_mono; [by eapply wp_allochblk|]. intros r s' (E' & L' & hl' & segs' & I' & [(-> & -> & Hno)|(n & g & x & -> & Hn0 & Hg & Hf & Hle & _ & Hal)]).
  - exists (abs segs). split; [|by exists E', L', hl', segs]. apply bs_none. intros n Hsub.
    destruct (consecutive segs (regions s) n (OBJ_SZ_TO_BLOCKS sz) (hv_wf _ _ _ _ _ _ I) Hco ltac:(lia) Hsub) as (q & g & Hq & Hf & H1 & H2). specialize (Hno q g Hq Hf). lia.
  - destruct (alloced_abs segs (regions s) n g (OBJ_SZ_TO_BLOCKS sz) x segs' (hv_wf _ _ _ _ _ _ I) Hco Hg Hf ltac:(lia) Hal) as [Hco' Habs]. eexists. split; [|exists E', L', hl', segs'; split_and!; [done|done|exact Habs]].
    apply bs_alloc; [done|]. intros m Hm%elem_run. apply elem_avail. exists n, g. split_and!; [done|done|lia|lia].
Qed.

(** An expansion adds blocks that were in no run. *)
Lemma grown_abs s E L hl segs len segs' : hinv s E L hl segs ∅ -> coalesced segs -> grown segs len segs' ->
  exists n, (forall m, n <= m < n + len -> ~ covered segs m) /\ coalesced segs' /\ abs segs' = mkBlocks (allocated (abs segs)) (avail (abs segs) ∪ run n len).
Proof.
  intros I Hco (n & h & Hn1 & Hl & Hun & Hfd). exists n. split; [done|].
  assert (Hnone : segs !! n = None). { destruct (segs !! n) as [g|] eqn:En; [|done]. destruct (Hun n ltac:(lia)). exists n, g. split; [done|]. pose proof (seg_pos _ _ _ _ _ _ I _ _ En). lia. }
  destruct (freed_abs (<[n := mkSeg len h false]> segs) n (mkSeg len h false) segs') as [Hco' Habs]; [|apply lookup_insert_eq|done| |done|].
  - intros a ga a' ga' [[<- <-]|[Hne Ha]]%lookup_insert_Some [[<- <-]|[Hne' Ha']]%lookup_insert_Some; try done. by apply (Hco a ga a' ga').
  - intros a ga [[<- <-]|[Hne Ha]]%lookup_insert_Some; [done|exact (seg_pos _ _ _ _ _ _ I _ _ Ha)].
  - split; [done|]. rewrite Habs. cbn [sg_len].
    assert (Hins : abs (<[n := mkSeg len h false]> segs) = mkBlocks (<[n := len]> (allocated (abs segs))) (avail (abs segs))).
    { apply abs_eq.
      - intros a. destruct (decide (a = n)) as [->|Hne]; [by rewrite !lookup_insert_eq|]. by rewrite !lookup_insert_ne, lookup_allocated.
      - intros m. rewrite elem_avail. split.
        + intros (a & ga & [[<- <-]|[Hne Ha]]%lookup_insert_Some & Hfa & Hm); [done|by exists a, ga].
        + intros (a & ga & Ha & Hfa & Hm). exists a, ga. rewrite lookup_insert_ne by congruence. done. }
    rewrite Hins. cbn [allocated avail]. by rewrite delete_insert_id by (by rewrite lookup_allocated, Hnone).
Qed.

Lemma rep_expand s b fuel needed i : heap_rep s b -> legal b (ReqExpand needed i) -> (size (heap_blocks b) < fuel)%nat ->
  wp True (MAK_try_expand_hp fuel needed i) s (fun ok s' => ok = true /\ exists b', bstep b (ReqExpand needed i) 1 b' /\ heap_rep s' b').
Proof.
  intros (E & L & hl & segs & I & Hco & <-) Hn Hfu. destruct (fuel_enough _ _ _ (hv_wf _ _ _ _ _ _ I) Hfu) as [Hf1 Hf2].
  eapply wp_mono; [eapply wp_try_expand_hp; [exact I|exact Hn|exact Hf1|lia]|]. intros ok s' (-> & len & Hlen & E' & L' & hl' & segs' & I' & Hg). split; [done|].
  destruct (grown_abs _ _ _ _ _ _ _ I Hco Hg) as (n & Hun & Hco' & Habs). eexists. split; [|exists E', L', hl', segs'; split_and!; [done|done|exact Habs]].
  apply bs_expand; [done|]. intros m Hm%elem_run Hc%covered_blocks. by apply (Hun m).
Qed.
Lemma exec_sim s b fuel q : heap_rep s b -> legal b q -> (size (heap_blocks b) < fuel)%nat ->
  wp True (exec fuel q) s (fun r s' => exists b', bstep b q r b' /\ heap_rep s' b').
Proof.
  intros HR Hl Hfu. destruct q as [sz kind flags|h|needed i]; cbn [exec].
  - by apply rep_alloc.
  - destruct Hl as (n & len & -> & Hal). apply wp_bind. eapply wp_mono; [apply wp_weaken; by eapply rep_free|]. intros [] s' HR'. apply wp_ret. eexists. split; [by apply bs_free|exact HR'].
  - apply wp_bind. eapply wp_mono; [by apply rep_expand|]. intros ok s' (-> & b' & Hs & HR'). apply wp_ret. by exists b'.
Qed.

Lemma rep_wf s b : heap_rep s b -> blocks_wf b.
Proof. intros (E & L & hl & segs & I & _ & <-). by eapply abs_wf, (hv_wf _ _ _ _ _ _ I). Qed.

(** C22: freeing an allocated run always returns, whatever is before and behind it:
    the blocks of the run are free, and every other run and block is as it was. *)
Theorem MAK_freehblk_total fuel s b n len :
  heap_rep s b -> allocated b !! n = Some len -> (size (heap_blocks b) < fuel)%nat ->
  exists s', MAK_freehblk fuel (n * HBLKSZ) s = Ok (tt, s') /\ heap_rep s' (mkBlocks (delete n (allocated b)) (avail b ∪ run n len)).
Proof. intros HR Hal Hfu. destruct (wp_total _ _ _ (rep_free _ _ _ _ _ HR Hal Hfu)) as ([] & s' & Hr & HR'). by exists s'. Qed.

(** The last run that starts at or before a block. *)
Lemma last_run segs rs E m r : seg_wf segs rs -> ent_ok segs E -> last_hdr E 0 m r ->
  match r with
  | Some p => exists q g, p = q * HBLKSZ /\ segs !! q = Some g /\ q <= m /\ forall q' g', segs !! q' = Some g' -> q' <= m -> q' <= q
  | None => forall q g, segs !! q = Some g -> m < q
  end.
Proof.
  intros W HE Hl. assert (Hh : forall q g, segs !! q = Some g -> has_hdr E q /\ 0 <= q).
  { intros q g Hq. destruct (sw_range _ _ W _ _ Hq) as (? & _ & _ & ?). unfold has_hdr. rewrite (en_start _ _ HE _ _ Hq). split; [done|lia]. }
  destruct r as [p|]; cbn in Hl.
  - destruct Hl as (q & -> & Hq & Hhq & Hmax). destruct (ent_hdr _ _ _ _ W HE Hhq) as (g & Hg & _). exists q, g. split_and!; try done; [lia|].
    intros q' g' Hq' Hle. destruct (Z_le_gt_dec q' q); [done|]. destruct (Hmax q'); [lia|]. by eapply Hh.
  - intros q g Hq. destruct (Hh q g Hq) as [Hhq Hq0]. destruct (Z_lt_ge_dec m q); [done|]. destruct (Hl q); [lia|done].
Qed.

(** C29: for any address inside an allocated run, [MAK_prev_block] finds the first
    block of the run; for an address in free memory, the first of the free blocks in a row that
    contain it; it finds nothing only below the heap. It always returns, and changes nothing. *)
Theorem MAK_prev_block_base s b p : heap_rep s b -> 0 <= p ->
  exists r, MAK_prev_block p s = Ok (r, s) /\
    (forall n len, allocated b !! n = Some len -> bno p ∈ run n len -> r = n * HBLKSZ) /\
    (bno p ∈ avail b -> exists q, r = q * HBLKSZ /\ q <= bno p /\ run q (bno p + 1 - q) ⊆ avail b /\ q - 1 ∉ avail b) /\
    (r = 0 -> forall m, m ∈ heap_blocks b -> bno p < m).
Proof.
  intros (E & L & hl & segs & I & Hco & <-) Hp. pose proof (hv_wf _ _ _ _ _ _ I) as W. pose proof (hv_ent _ _ _ _ _ _ I) as HE.
  destruct (prev_block_run s E p (hv_idx _ _ _ _ _ _ I) (ent_counts _ _ _ W HE) Hp) as (r & Hr & Hl). apply (last_run _ _ _ _ _ W HE) in Hl. exists (default 0 r). split; [done|].
  assert (Hin : forall n g, segs !! n = Some g -> n <= bno p < n + sg_len g -> default 0 r = n * HBLKSZ).
  { intros n g Hn Hm. destruct r as [a|]; [|specialize (Hl n g Hn); lia]. destruct Hl as (q & gq & -> & Hq & Hle & Hmax). cbn. specialize (Hmax n g Hn ltac:(lia)).
    destruct (Z.eq_dec n q) as [->|]; [done|]. pose proof (sw_disj _ _ W _ _ _ _ Hn Hq ltac:(lia)). lia. }
  split; [|split].
  - intros n len Hal Hm%elem_run. rewrite lookup_allocated in Hal. destruct (segs !! n) as [g|] eqn:En; [|done]. destruct (sg_free g); [done|]. injection Hal as <-. by eapply Hin.
  - intros (n & g & Hn & Hf & Hm)%elem_avail. exists n. split; [by eapply Hin|]. split; [lia|]. split.
    + intros m Hm'%elem_run. apply elem_avail. exists n, g. split_and!; [done|done|lia|lia].
    + intros (n' & g' & Hn' & Hf' & Hm')%elem_avail. assert (Hlt : n' < n) by lia. pose proof (sw_disj _ _ W _ _ _ _ Hn' Hn Hlt). apply (Hco n' g' n g); [done|done|done|done|lia].
  - intros Hr0 m (n & g & Hn & Hm)%covered_blocks. destruct r as [a|]; [|specialize (Hl n g Hn); lia]. destruct Hl as (q & gq & -> & Hq & _). cbn in Hr0.
    destruct (sw_range _ _ W _ _ Hq). unfold HBLKSZ in Hr0. lia.
Qed.

End heap.
