(* ===== verification/MakOwn.v ===== *)
(** * Makalu: what the block heap promises

    The block heap as the code that manages objects sees it: allocated runs, each with a header
    whose contents only its owner changes, and free blocks. [BlockHeap] states what the operations
    do to them; the invariant of [MakSegs] is an instance. *)

From S2P Require Import Prelude MakHdr MakBlock MakLib MakIndex MakSegs MakRuns MakCoalesce MakAlloc MakHeap.
From stdpp Require Import sorting.
#[local] Open Scope Z_scope.
#[local] Open Scope cmd_scope.

(** An allocated run: its blocks, the address and the contents of its header. *)
Record arun := mkRun { ar_len : Z; ar_hdr : Z; ar_data : hdr }.

Definition ar_set (x : hdr) (r : arun) : arun := mkRun (ar_len r) (ar_hdr r) x.

Definition runs_of (segs : gmap Z seg) : gmap Z arun := omap (fun g => if sg_free g then None else Some (mkRun (sg_len g) (sg_hdr g) (sg_data g))) segs.

Definition view (A : gmap Z arun) (F : gset Z) : blocks := mkBlocks (ar_len <$> A) F.

(** The owner of a header may change everything but the block, the size and the flags. *)
Definition own_change (f : hdr -> hdr) : Prop := forall x, hb_block (f x) = hb_block x /\ hb_sz (f x) = hb_sz x /\ hb_flags (f x) = hb_flags x.

(** Headers stay, and memory comes from [get_mem]. *)
Definition later `{!PersistentMem} (s s' : heap) : Prop :=
  dom (hdrs s) ⊆ dom (hdrs s') /\ forall r, r ∈ regions s' -> r ∈ regions s \/ exists rs, get_mem rs r.2 = Some r.1.

Class BlockHeap `{!PersistentMem} (own : heap -> gmap Z arun -> gset Z -> Prop) := {
  bh_wf : forall s A F, own s A F -> blocks_wf (view A F);
  bh_inside : forall s A F m, own s A F -> m ∈ heap_blocks (view A F) -> inside (regions s) (m * HBLKSZ);
  bh_range : forall s A F n r, own s A F -> A !! n = Some r -> 1 < n /\ n + ar_len r <= 2 ^ 35 /\ MAX_JUMP < ar_hdr r;
  bh_inj : forall s A F n r n' r', own s A F -> A !! n = Some r -> A !! n' = Some r' -> ar_hdr r = ar_hdr r' -> n = n';
  bh_hdr : forall s A F n r, own s A F -> A !! n = Some r -> hdrs s !! ar_hdr r = Some (ar_data r) /\ hb_block (ar_data r) = n * HBLKSZ /\
    HBLK_IS_FREE (ar_data r) = false /\ 0 < hb_sz (ar_data r) <= ar_len r * HBLKSZ /\ ar_len r * HBLKSZ < hb_sz (ar_data r) + HBLKSZ;
  bh_block : forall s A F a x n r, own s A F -> hdrs s !! a = Some x -> hb_block x = n * HBLKSZ -> A !! n = Some r -> a = ar_hdr r;
  bh_no_block : forall s A F a x n r m, own s A F -> hdrs s !! a = Some x -> hb_block x = m * HBLKSZ -> A !! n = Some r -> n < m < n + ar_len r -> False;
  bh_HDR : forall s A F n r p, own s A F -> A !! n = Some r -> bno p = n -> HDR p s = Ok (ar_hdr r, s);
  bh_inner : forall s A F n r p, own s A F -> A !! n = Some r -> n < bno p < n + ar_len r -> HDR p s = Ok (forward_count (bno p - n), s);
  bh_put : forall T s A F n r f (Q : unit -> heap -> Prop), own s A F -> A !! n = Some r -> own_change f ->
    (forall s', own s' (<[n := ar_set (f (ar_data r)) r]> A) F -> later s s' -> Q tt s') -> wp T (upd_hdr (ar_hdr r) f) s Q;
  bh_free : forall T s A F n r fuel (Q : unit -> heap -> Prop), own s A F -> A !! n = Some r -> (size (heap_blocks (view A F)) < fuel)%nat ->
    (forall s', own s' (delete n A) (F ∪ run n (ar_len r)) -> later s s' -> Q tt s') -> wp T (MAK_freehblk fuel (n * HBLKSZ)) s Q;
  bh_alloc : forall s A F sz kind fuel (Q : Z -> heap -> Prop), own s A F -> 0 < sz < 2 ^ 61 -> 0 <= kind < 2 -> (size (heap_blocks (view A F)) < fuel)%nat ->
    (forall s', own s' A F -> later s s' -> (forall n, ~ run n (OBJ_SZ_TO_BLOCKS sz) ⊆ F) -> Q 0 s') ->
    (forall s' n a x, own s' (<[n := mkRun (OBJ_SZ_TO_BLOCKS sz) a x]> A) (F ∖ run n (OBJ_SZ_TO_BLOCKS sz)) -> later s s' ->
       run n (OBJ_SZ_TO_BLOCKS sz) ⊆ F -> made sz kind x -> Q (n * HBLKSZ) s') ->
    wp True (MAK_allochblk fuel sz kind 0) s Q;
  bh_expand : forall s A F needed ignore fuel (Q : bool -> heap -> Prop), own s A F -> 0 < needed < 2 ^ 48 -> (size (heap_blocks (view A F)) < fuel)%nat ->
    (forall s' n len, own s' A (F ∪ run n len) -> later s s' -> needed <= len -> (forall m, m ∈ run n len -> m ∉ heap_blocks (view A F)) -> Q true s') ->
    wp True (MAK_try_expand_hp fuel needed ignore) s Q }.

(** ** Headers stay, and memory comes from the system *)

Lemma later_refl `{!PersistentMem} s : later s s.
Proof. split; [done|]. by left. Qed.

Lemma later_trans `{!PersistentMem} s1 s2 s3 : later s1 s2 -> later s2 s3 -> later s1 s3.
Proof. intros [H1 H2] [H3 H4]. split; [by etransitivity|]. intros r [Hr|?]%H4; [by apply H2|by right]. Qed.

Lemma later_same `{!PersistentMem} s s' : dom (hdrs s) ⊆ dom (hdrs s') -> regions s' = regions s -> later s s'.
Proof. intros H1 H2. split; [done|]. rewrite H2. by left. Qed.

Section grows.
Context `{!PersistentMem}.

Definition grows {A} (m : stM heap A) : Prop := forall s a s', m s = Ok (a, s') -> later s s'.

Lemma grows_bind {A B} (m : stM heap A) (k : A -> stM heap B) : grows m -> (forall a, grows (k a)) -> grows (cbind m k).
Proof. intros Hm Hk s b s' (a & s1 & H1 & H2)%cbind_inv. eapply later_trans; [by eapply Hm|by eapply Hk]. Qed.

Lemma grows_ret {A} (a : A) : grows (cret a).
Proof. intros s x s' [= _ <-]. apply later_refl. Qed.

Lemma grows_fail {A} e : grows (cfail (A := A) e).
Proof. by intros s x s'. Qed.

Lemma grows_gets {A} (f : heap -> A) : grows (cgets f).
Proof. intros s x s' [= _ <-]. apply later_refl. Qed.

Lemma grows_mod f : (forall s, hdrs (f s) = hdrs s /\ regions (f s) = regions s) -> grows (cmod f).
Proof. intros Hf s x s' [= _ <-]. destruct (Hf s) as [H1 H2]. apply later_same; [by rewrite H1|done]. Qed.

Lemma grows_for {A} (l : list A) (body : A -> stM heap unit) : (forall a, grows (body a)) -> grows (cfor l body).
Proof. intros Hb. induction l as [|a l IH]; cbn [cfor]; [apply grows_ret|]. apply grows_bind; [apply Hb|]. by intros _. Qed.

Lemma grows_ld_hdr h : grows (ld_hdr h).
Proof. intros s a s'. unfold ld_hdr. destruct (hdrs s !! h); [|done]. intros [= _ <-]. apply later_refl. Qed.

Lemma grows_upd_hdr h f : grows (upd_hdr h f).
Proof. intros s a s'. unfold upd_hdr. destruct (hdrs s !! h); [|done]. intros [= _ <-]. apply later_same; [cbn; set_solver|done]. Qed.

Lemma grows_ld_bi b : grows (ld_bi b).
Proof. intros s a s'. unfold ld_bi. destruct (bis (hindex s) !! b); [|done]. intros [= _ <-]. apply later_refl. Qed.

Lemma grows_upd_bi b f : grows (upd_bi b f).
Proof. intros s a s'. unfold upd_bi. destruct (bis (hindex s) !! b); [|done]. intros [= _ <-]. by apply later_same. Qed.

Lemma grows_GET_MEM n : grows (GET_MEM n).
Proof. intros s a s'. unfold GET_MEM. destruct (get_mem (regions s) n) as [a'|] eqn:E; intros [= _ <-]; [|apply later_refl].
  split; [done|]. intros r [->|?]%elem_of_cons; [right|by left]. by exists (regions s). Qed.

Lemma grows_fl_get i : grows (fl_get i).
Proof. intros s a s'. unfold fl_get. destruct (MAK_hblkfreelist (hfree s) !! Z.to_nat i); [|done]. intros [= _ <-]. apply later_refl. Qed.

End grows.

Create HintDb grow.
#[export] Hint Resolve grows_ret grows_fail grows_gets grows_ld_hdr grows_upd_hdr grows_ld_bi grows_upd_bi grows_GET_MEM grows_fl_get : grow.

Ltac grow := repeat first
  [ solve [eauto with grow]
  | match goal with
    | |- grows (cbind _ _) => apply grows_bind; [|intros ?]
    | |- grows (cmod _) => apply grows_mod; intros []; done
    | |- grows (cfor _ _) => apply grows_for; intros ?
    | |- grows (if ?b then _ else _) => destruct b
    | |- grows (match ?x with _ => _ end) => destruct x
    | |- grows (let _ := _ in _) => cbn zeta
    end ].

Section grows_ops.
Context `{!PersistentMem}.

Lemma grows_GET_BI_loop fuel hi b : grows (GET_BI_loop fuel hi b).
Proof. revert b. induction fuel as [|fuel IH]; intros b; cbn [GET_BI_loop]; grow. Qed.
Lemma grows_GET_BI p : grows (GET_BI p).
Proof. intros s a s'. apply grows_GET_BI_loop. Qed.
#[local] Hint Resolve grows_GET_BI : grow.
Lemma grows_HDR p : grows (HDR p).
Proof. unfold HDR. grow. Qed.
Lemma grows_SET_HDR p h : grows (SET_HDR p h).
Proof. unfold SET_HDR. grow. Qed.
#[local] Hint Resolve grows_HDR grows_SET_HDR : grow.

Lemma grows_scratch get set n : (forall sp s, hdrs (set sp s) = hdrs s /\ regions (set sp s) = regions s) -> grows (scratch_alloc get set n).
Proof. intros Hs. unfold scratch_alloc. grow; apply grows_mod; intros s; apply Hs. Qed.
Lemma grows_scratch_hdr n : grows (scratch_alloc_hdr_space n).
Proof. apply grows_scratch. by intros sp []. Qed.
Lemma grows_scratch_idx n : grows (scratch_alloc_hdr_idx_space n).
Proof. apply grows_scratch. by intros sp []. Qed.
#[local] Hint Resolve grows_scratch_hdr grows_scratch_idx : grow.

Lemma grows_alloc_hdr fuel : grows (alloc_hdr fuel).
Proof.
  induction fuel as [|fuel IH]; cbn [alloc_hdr]; grow. intros s x s' [= _ <-]. apply later_same; [cbn; set_solver|done].
Qed.
Lemma grows_alloc_bi fuel : grows (alloc_bi fuel).
Proof. induction fuel as [|fuel IH]; cbn [alloc_bi]; unfold set_index; grow. Qed.
Lemma grows_find_index fuel hi p : grows (find_index fuel hi p).
Proof. revert p. induction fuel as [|fuel IH]; intros p; cbn [find_index]; grow. Qed.
Lemma grows_find_place fuel hi pi p : grows (find_place fuel hi pi p).
Proof. revert pi p. induction fuel as [|fuel IH]; intros pi p; cbn [find_place]; grow. Qed.
#[local] Hint Resolve grows_alloc_hdr grows_alloc_bi grows_find_index grows_find_place : grow.
Lemma grows_get_index a : grows (get_index a).
Proof. unfold get_index, set_index. grow. Qed.
#[local] Hint Resolve grows_get_index : grow.
Lemma grows_install_header h : grows (MAK_install_header h).
Proof. unfold MAK_install_header. grow. Qed.
Lemma grows_remove_header h : grows (MAK_remove_header h).
Proof. unfold MAK_remove_header. grow. Qed.
Lemma grows_get_indices l : grows (get_indices l).
Proof. induction l as [|a l IH]; cbn [get_indices]; grow. Qed.
#[local] Hint Resolve grows_install_header grows_remove_header grows_get_indices : grow.
Lemma grows_install_counts h n : grows (MAK_install_counts h n).
Proof. unfold MAK_install_counts. grow. Qed.
Lemma grows_remove_counts h n : grows (MAK_remove_counts h n).
Proof. unfold MAK_remove_counts. grow. Qed.
Lemma grows_prev_in fuel x j : grows (prev_in fuel x j).
Proof. revert j. induction fuel as [|fuel IH]; intros j; cbn [prev_in]; grow. Qed.
#[local] Hint Resolve grows_install_counts grows_remove_counts grows_prev_in : grow.
Lemma grows_prev_from fuel b j : grows (prev_from fuel b j).
Proof. revert b j. induction fuel as [|fuel IH]; intros b j; cbn [prev_from]; grow. Qed.
Lemma grows_desc_below fuel hi b : grows (desc_below fuel hi b).
Proof. revert b. induction fuel as [|fuel IH]; intros b; cbn [desc_below]; grow. Qed.
#[local] Hint Resolve grows_prev_from grows_desc_below : grow.
Lemma grows_prev_block h : grows (MAK_prev_block h).
Proof. unfold MAK_prev_block. grow. Qed.
Lemma grows_follow fuel p h : grows (follow_counts fuel p h).
Proof. revert p h. induction fuel as [|fuel IH]; intros p h; cbn [follow_counts]; grow. Qed.
#[local] Hint Resolve grows_prev_block grows_follow : grow.
Lemma grows_ending_at fuel h : grows (MAK_free_block_ending_at fuel h).
Proof. unfold MAK_free_block_ending_at. grow. Qed.
Lemma grows_remove_from_fl h n : grows (MAK_remove_from_fl h n).
Proof. unfold MAK_remove_from_fl, fl_set, INCR_FREE_BYTES, set_free. grow. Qed.
Lemma grows_add_to_fl h a : grows (MAK_add_to_fl h a).
Proof. unfold MAK_add_to_fl, fl_set, INCR_FREE_BYTES, set_free. grow. Qed.
Lemma grows_mark : grows mark_inconsistent.
Proof. apply grows_mod. intros s. by destruct (MAK_persistent_state s =? STATE_NONE). Qed.
#[local] Hint Resolve grows_ending_at grows_remove_from_fl grows_add_to_fl grows_mark : grow.
Lemma grows_newfreehblk fuel h n : grows (MAK_newfreehblk fuel h n).
Proof. unfold MAK_newfreehblk, add_large_free_bytes, set_free. grow. Qed.
Lemma grows_freehblk fuel h : grows (MAK_freehblk fuel h).
Proof. unfold MAK_freehblk, add_large_free_bytes, set_free. grow. Qed.
Lemma grows_first_part h a n i : grows (MAK_get_first_part h a n i).
Proof. unfold MAK_get_first_part. grow. Qed.
Lemma grows_setup h b n k f : grows (setup_header h b n k f).
Proof. unfold setup_header, MAK_clear_hdr_marks. grow. Qed.
Lemma grows_find_block fuel n b h : grows (find_block fuel n b h).
Proof. revert h. induction fuel as [|fuel IH]; intros h; cbn [find_block]; grow. Qed.
#[local] Hint Resolve grows_newfreehblk grows_first_part grows_setup grows_find_block : grow.
Lemma grows_allochblk_nth fuel sz k f i b : grows (MAK_allochblk_nth fuel sz k f i b).
Proof. unfold MAK_allochblk_nth, add_large_free_bytes, set_free. grow. Qed.
#[local] Hint Resolve grows_allochblk_nth : grow.
Lemma grows_try_lists fuel sz k f l : grows (try_lists fuel sz k f l).
Proof. induction l as [|i l IH]; cbn [try_lists]; grow. Qed.
#[local] Hint Resolve grows_try_lists : grow.
Lemma grows_allochblk fuel sz k f : grows (MAK_allochblk fuel sz k f).
Proof. unfold MAK_allochblk. grow. Qed.
Lemma grows_add_to_heap fuel a n e : grows (MAK_add_to_heap fuel a n e).
Proof. unfold MAK_add_to_heap, set_extent. grow. Qed.
#[local] Hint Resolve grows_add_to_heap : grow.
Lemma grows_finish_expand fuel : grows (MAK_finish_expand_hp_inner fuel).
Proof. unfold MAK_finish_expand_hp_inner, set_extent. grow. Qed.
#[local] Hint Resolve grows_finish_expand : grow.
Lemma grows_expand_inner fuel n : grows (MAK_expand_hp_inner fuel n).
Proof. unfold MAK_expand_hp_inner, set_extent. grow. Qed.
#[local] Hint Resolve grows_expand_inner : grow.
Lemma grows_try_expand fuel n b : grows (MAK_try_expand_hp fuel n b).
Proof. unfold MAK_try_expand_hp. grow. Qed.

End grows_ops.

(** ** The instance *)

Definition owned (s : heap) (A : gmap Z arun) (F : gset Z) : Prop :=
  exists E L hl segs, hinv s E L hl segs ∅ /\ coalesced segs /\ A = runs_of segs /\ F = avail (abs segs).

Lemma lookup_runs segs n : runs_of segs !! n = match segs !! n with Some g => if sg_free g then None else Some (mkRun (sg_len g) (sg_hdr g) (sg_data g)) | None => None end.
Proof. unfold runs_of. rewrite lookup_omap. by destruct (segs !! n). Qed.

Lemma lookup_runs_Some segs n r : runs_of segs !! n = Some r <-> exists g, segs !! n = Some g /\ sg_free g = false /\ r = mkRun (sg_len g) (sg_hdr g) (sg_data g).
Proof.
  rewrite lookup_runs. split.
  - destruct (segs !! n) as [g|]; [|done]. destruct (sg_free g) eqn:Ef; [done|]. intros [= <-]. by exists g.
  - intros (g & -> & -> & ->). done.
Qed.

Lemma view_abs segs : view (runs_of segs) (avail (abs segs)) = abs segs.
Proof. unfold view, abs. f_equal. apply map_eq. intros n. rewrite lookup_fmap, lookup_runs, lookup_omap. destruct (segs !! n) as [g|]; [|done]. cbn. by destruct (sg_free g). Qed.

Lemma runs_free_insert segs n g : sg_free g = true -> (forall g', segs !! n = Some g' -> sg_free g' = true) -> runs_of (<[n := g]> segs) = runs_of segs.
Proof.
  intros Hg Hn. apply map_eq. intros m. rewrite !lookup_runs. destruct (decide (m = n)) as [->|Hne]; [|by rewrite lookup_insert_ne].
  rewrite lookup_insert_eq, Hg. destruct (segs !! n) as [g'|]; [|done]. by rewrite (Hn g').
Qed.

Lemma runs_free_delete segs n g : segs !! n = Some g -> sg_free g = true -> runs_of (delete n segs) = runs_of segs.
Proof.
  intros Hn Hg. apply map_eq. intros m. rewrite !lookup_runs. destruct (decide (m = n)) as [->|Hne]; [by rewrite lookup_delete_eq, Hn, Hg|by rewrite lookup_delete_ne].
Qed.

Lemma runs_delete segs n : runs_of (delete n segs) = delete n (runs_of segs).
Proof. apply map_eq. intros m. rewrite lookup_runs. destruct (decide (m = n)) as [->|Hne]; [by rewrite !lookup_delete_eq|]. by rewrite !lookup_delete_ne, lookup_runs. Qed.

Lemma runs_insert segs n l h x : runs_of (<[n := mkSegD l h false x]> segs) = <[n := mkRun l h x]> (runs_of segs).
Proof. apply map_eq. intros m. rewrite lookup_runs. destruct (decide (m = n)) as [->|Hne]; [by rewrite !lookup_insert_eq|]. by rewrite !lookup_insert_ne, lookup_runs. Qed.

Lemma runs_freed segs n g segs' : (forall m k, segs !! m = Some k -> 0 < sg_len k) -> segs !! n = Some g -> sg_free g = false -> freed segs n g segs' -> runs_of segs' = delete n (runs_of segs).
Proof.
  intros Hpos Hn Hf (segs2 & c & gc & Hpm & ->).
  assert (H2 : runs_of segs2 = delete n (runs_of segs) /\ segs2 !! c = Some gc /\ sg_free gc = true).
  { destruct Hpm as [(_ & -> & -> & ->)|(gq & Hq & Hfq & He & -> & ->)]; (split; [|by rewrite lookup_insert_eq]).
    - rewrite <- runs_delete. rewrite <- (insert_delete_eq segs). apply runs_free_insert; [done|]. by rewrite lookup_delete_eq.
    - rewrite <- runs_delete. apply runs_free_insert; [done|]. intros g' [_ Hg']%lookup_delete_Some. congruence. }
  destruct H2 as (H2 & Hc & Hfc). rewrite <- H2. unfold next_merged. destruct (segs2 !! (c + sg_len gc)) as [gm|] eqn:Em; [|done]. destruct (sg_free gm) eqn:Efm; [|done].
  rewrite runs_free_insert; [by eapply runs_free_delete|done|]. intros g' [_ Hg']%lookup_delete_Some. congruence.
Qed.

Lemma runs_alloced segs n g b x segs' : segs !! n = Some g -> sg_free g = true -> (b < sg_len g -> segs !! (n + b) = None) -> alloced segs n g b x segs' ->
  runs_of segs' = <[n := mkRun b (sg_hdr g) x]> (runs_of segs).
Proof.
  intros Hn Hf Hnb [[_ ->]|(Hlt & r & ->)]; rewrite runs_insert; [done|]. f_equal. apply runs_free_insert; [done|]. intros g'. by rewrite (Hnb Hlt).
Qed.

Section instance.
Context `{!PersistentMem}.

Lemma wp_grows {A} T (m : stM heap A) s Q : grows m -> wp T m s Q -> wp T m s (fun a s' => Q a s' /\ later s s').
Proof. intros Hg. unfold wp. destruct (m s) as [[a s']|e] eqn:E; [|done]. intros HQ. split; [done|]. by eapply Hg. Qed.

(** Other contents for the header of an allocated run. *)
Lemma hinv_own s E L hl segs n g f : hinv s E L hl segs ∅ -> segs !! n = Some g -> sg_free g = false -> own_change f ->
  hinv (set_hdrs (<[sg_hdr g := f (sg_data g)]> (hdrs s)) s) E L hl (<[n := mkSegD (sg_len g) (sg_hdr g) false (f (sg_data g))]> segs) ∅.
Proof.
  intros I Hn Hf Hc. destruct (hdr_of _ _ _ _ _ _ I n g Hn) as (x & Hx & Hb & Hfor). destruct (Hfor ltac:(set_solver)) as [Hfree Hsz]. rewrite Hf in Hfree, Hsz. destruct Hsz as [-> Hsz].
  destruct (Hc (sg_data g)) as (Hc1 & Hc2 & Hc3). assert (Hne : forall n' g', segs !! n' = Some g' -> n <> n' -> sg_hdr g <> sg_hdr g') by (intros n' g' Hn' Hnn; by eapply hdr_ne).
  destruct I as [I1 I2 I3 I4 I5 I6 I7 I8 [I9 I9'] I10 IU I11]. split; try done; cbn [set_hdrs hdrs regions hdr_space hfree MAK_hdr_free_list].
  - eapply space_dom; [|exact I2]. by eapply dom_upd.
  - by apply (seg_wf_tag segs).
  - destruct I4 as [E1 E2 E3]. split.
    + intros n' g' [[<- <-]|[_ Hn']]%lookup_insert_Some; [by apply (E1 n g)|by apply E1].
    + intros n' g' m [[<- <-]|[_ Hn']]%lookup_insert_Some Hm; [|by apply E2]. cbn [sg_len sg_free] in *. rewrite (E2 n g m Hn Hm). by rewrite Hf.
    + intros m Hm. apply E3. intros (n' & g' & Hn' & Hr). apply Hm. destruct (decide (n' = n)) as [->|Hnn].
      * eexists n, _. rewrite lookup_insert_eq. split; [done|]. cbn. congruence.
      * exists n', g'. by rewrite lookup_insert_ne.
  - intros n' g' [[<- <-]|[Hnn Hn']]%lookup_insert_Some.
    + cbn [sg_hdr]. exists (f (sg_data g)). rewrite lookup_insert_eq. split; [done|]. split; [congruence|]. intros _. split; cbn [sg_free sg_len sg_data].
      * unfold HBLK_IS_FREE in *. by rewrite Hc3.
      * rewrite Hc2. done.
    + rewrite lookup_insert_ne by (by eapply Hne). by apply I5.
  - intros i Hi. destruct (I8 i Hi) as (b & Hb' & Hd' & Hnd & Hm). exists b. split; [done|].
    assert (Hm' : forall a, a ∈ L i <-> listed (<[n := mkSegD (sg_len g) (sg_hdr g) false (f (sg_data g))]> segs) ∅ i a).
    { intros a. rewrite Hm. split; intros (n' & g' & -> & Hg' & Hf' & HX' & Hc'); exists n', g'; split_and!; try done.
      - rewrite lookup_insert_ne; [done|]. congruence.
      - apply lookup_insert_Some in Hg' as [[_ <-]|[_ ?]]; done. }
    split; [|split; [done|exact Hm']]. eapply dls_ext; [|exact Hd']. intros a Ha. apply Hm in Ha as (n' & g' & -> & Hg' & Hf' & _). assert (Hnn : n <> n') by congruence.
    unfold fnx, fpv, hdr_at. rewrite bno_addr, (lookup_insert_ne segs) by done. rewrite Hg', lookup_insert_ne by (by eapply Hne). done.
  - split; [|done]. eapply hlist_ext; [|exact I9]. intros y Hy. rewrite lookup_insert_ne; [done|]. intros <-. by eapply I10.
  - intros n' g' [[<- <-]|[_ Hn']]%lookup_insert_Some; [exact (I10 n g Hn)|by eapply I10].
  - eapply rest_unused_same; [exact IU|..].
    + intros a (n' & g' & Hn' & <-). destruct (decide (n' = n)) as [->|Hnn]; [eexists n, _; rewrite lookup_insert_eq; split; [done|]; cbn; congruence|exists n', g'; by rewrite lookup_insert_ne].
    + intros a y Hnr [[<- _]|[_ ?]]%lookup_insert_Some; [|by left]. destruct Hnr. eexists n, _. by rewrite lookup_insert_eq.
Qed.


#[export] Instance owned_block_heap : BlockHeap owned.
Proof.
  split.
  - intros s A F (E & L & hl & segs & I & Hco & -> & ->). rewrite view_abs. by eapply abs_wf, (hv_wf _ _ _ _ _ _ I).
  - intros s A F m (E & L & hl & segs & I & Hco & -> & ->). rewrite view_abs, <- covered_blocks. intros (n & g & Hn & Hm). by eapply (sw_inside _ _ (hv_wf _ _ _ _ _ _ I)).
  - intros s A F n r (E & L & hl & segs & I & Hco & -> & ->) (g & Hn & Hf & ->)%lookup_runs_Some. by destruct (sw_range _ _ (hv_wf _ _ _ _ _ _ I) _ _ Hn) as (? & ? & ? & ?).
  - intros s A F n r n' r' (E & L & hl & segs & I & Hco & -> & ->) (g & Hn & Hf & ->)%lookup_runs_Some (g' & Hn' & Hf' & ->)%lookup_runs_Some. by apply (sw_inj _ _ (hv_wf _ _ _ _ _ _ I)).
  - intros s A F n r (E & L & hl & segs & I & Hco & -> & ->) (g & Hn & Hf & ->)%lookup_runs_Some. destruct (hdr_of _ _ _ _ _ _ I n g Hn) as (x & Hx & Hb & Hfor).
    destruct (Hfor ltac:(set_solver)) as [Hfree Hsz]. rewrite Hf in Hfree, Hsz. destruct Hsz as [-> Hsz]. cbn. done.
  - intros s A F a x n r (E & L & hl & segs & I & Hco & -> & ->) Hx Hb (g & Hn & Hf & ->)%lookup_runs_Some. cbn.
    destruct (sw_range _ _ (hv_wf _ _ _ _ _ _ I) _ _ Hn) as (H1 & _). destruct (hv_unused _ _ _ _ _ _ I _ _ Hx) as [H0|(n' & g' & Hn' & <-)]; [unfold HBLKSZ in *; lia|].
    destruct (hdr_of _ _ _ _ _ _ I n' g' Hn') as (x' & Hx' & Hb' & _). assert (n' = n) as -> by (assert (x' = x) as -> by congruence; unfold HBLKSZ in *; lia). congruence.
  - intros s A F a x n r m (E & L & hl & segs & I & Hco & -> & ->) Hx Hb (g & Hn & Hf & ->)%lookup_runs_Some Hm. cbn in Hm. pose proof (hv_wf _ _ _ _ _ _ I) as W.
    destruct (sw_range _ _ W _ _ Hn) as (H1 & _). destruct (hv_unused _ _ _ _ _ _ I _ _ Hx) as [H0|(n' & g' & Hn' & <-)]; [unfold HBLKSZ in *; lia|].
    destruct (hdr_of _ _ _ _ _ _ I n' g' Hn') as (x' & Hx' & Hb' & _). assert (n' = m) as -> by (assert (x' = x) as -> by congruence; unfold HBLKSZ in *; lia). pose proof (sw_disj _ _ W _ _ _ _ Hn Hn' ltac:(lia)). lia.
  - intros s A F n r p (E & L & hl & segs & I & Hco & -> & ->) (g & Hn & Hf & ->)%lookup_runs_Some Hp.
    destruct (wp_total (HDR p) s (fun a s' => a = E (bno p) /\ s' = s)) as (a & s' & -> & -> & ->); [eapply wp_HDR; [exact (hv_idx _ _ _ _ _ _ I)|done]|]. rewrite Hp. by rewrite (word_of _ _ _ _ _ _ I n g Hn).
  - intros s A F n r p (E & L & hl & segs & I & Hco & -> & ->) (g & Hn & Hf & ->)%lookup_runs_Some Hp.
    destruct (wp_total (HDR p) s (fun a s' => a = E (bno p) /\ s' = s)) as (a & s' & -> & -> & ->); [eapply wp_HDR; [exact (hv_idx _ _ _ _ _ _ I)|done]|].
    rewrite (en_inner _ _ (hv_ent _ _ _ _ _ _ I) n g (bno p) Hn Hp). by rewrite Hf.
  - intros T s A F n r f Q (E & L & hl & segs & I & Hco & -> & ->) (g & Hn & Hf & ->)%lookup_runs_Some Hc HQ. destruct (hdr_of _ _ _ _ _ _ I n g Hn) as (x & Hx & Hb & Hfor).
    destruct (Hfor ltac:(set_solver)) as [Hfree Hsz]. rewrite Hf in Hsz. destruct Hsz as [-> _]. eapply wp_upd_hdr; [exact Hx|]. apply HQ; [|apply later_same; [cbn; set_solver|done]].
    eexists E, L, hl, _. split; [exact (hinv_own _ _ _ _ _ _ _ _ I Hn Hf Hc)|]. split; [|split].
    + intros a ga a' ga' [[<- <-]|[_ Ha]]%lookup_insert_Some [[<- <-]|[_ Ha']]%lookup_insert_Some; try done. by apply (Hco a ga a' ga').
    + by rewrite runs_insert.
    + apply leibniz_equiv. intros m. rewrite !elem_avail. split; intros (a & ga & Ha & Hfa & Hm); exists a, ga.
      * rewrite lookup_insert_ne; [done|]. congruence.
      * apply lookup_insert_Some in Ha as [[_ <-]|[_ ?]]; done.
  - intros T s A F n r fuel Q (E & L & hl & segs & I & Hco & -> & ->) (g & Hn & Hf & ->)%lookup_runs_Some Hfu HQ. rewrite view_abs in Hfu.
    destruct (fuel_enough _ _ _ (hv_wf _ _ _ _ _ _ I) Hfu) as [Hf1 Hf2]. eapply wp_mono; [apply wp_grows; [apply grows_freehblk|by eapply wp_freehblk]|].
    intros [] s' [(E' & L' & hl' & segs' & I' & Hfd) Hd]. destruct (freed_abs _ _ _ _ Hco Hn Hf (seg_pos _ _ _ _ _ _ I) Hfd) as [Hco' Habs].
    apply HQ; [|done]. exists E', L', hl', segs'. split; [done|]. split; [done|]. split; [|by rewrite Habs]. symmetry. eapply runs_freed; [exact (seg_pos _ _ _ _ _ _ I)|done|done|done].
  - intros s A F sz kind fuel Q (E & L & hl & segs & I & Hco & -> & ->) Hsz Hk Hfu H0 H1. rewrite view_abs in Hfu. destruct (blocks_of_size sz Hsz) as (k & Hb & Hbr & _).
    destruct (fuel_enough _ _ _ (hv_wf _ _ _ _ _ _ I) Hfu) as [Hf1 Hf2]. eapply wp_mono; [apply wp_grows; [apply grows_allochblk|by eapply wp_allochblk]|].
    intros r s' [(E' & L' & hl' & segs' & I' & [(-> & -> & Hno)|(n & g & x & -> & Hn0 & Hg & Hf & Hle & Hmd & Hal)]) Hd].
    + apply H0; [by exists E', L', hl', segs|done|]. intros n Hsub.
      destruct (consecutive segs (regions s) n (OBJ_SZ_TO_BLOCKS sz) (hv_wf _ _ _ _ _ _ I) Hco ltac:(lia) Hsub) as (q & g & Hq & Hf & Hq1 & Hq2). specialize (Hno q g Hq Hf). lia.
    + destruct (alloced_abs segs (regions s) n g (OBJ_SZ_TO_BLOCKS sz) x segs' (hv_wf _ _ _ _ _ _ I) Hco Hg Hf ltac:(lia) Hal) as [Hco' Habs].
      apply (H1 s' n (sg_hdr g) x); [|done| |done].
      * exists E', L', hl', segs'. split; [done|]. split; [done|]. split; [|by rewrite Habs]. symmetry. eapply runs_alloced; [exact Hg|done| |exact Hal].
        intros Hlt. destruct (segs !! (n + OBJ_SZ_TO_BLOCKS sz)) as [ga|] eqn:Ea; [|done]. pose proof (seg_pos _ _ _ _ _ _ I _ _ Ea).
        pose proof (sw_disj _ _ (hv_wf _ _ _ _ _ _ I) _ _ _ _ Hg Ea ltac:(lia)). lia.
      * intros m Hm%elem_run. apply elem_avail. exists n, g. split_and!; [done|done|lia|lia].
  - intros s A F needed ignore fuel Q (E & L & hl & segs & I & Hco & -> & ->) Hn Hfu HQ. rewrite view_abs in Hfu, HQ.
    destruct (fuel_enough _ _ _ (hv_wf _ _ _ _ _ _ I) Hfu) as [Hf1 Hf2]. eapply wp_mono; [apply wp_grows; [apply grows_try_expand|eapply wp_try_expand_hp; [exact I|done|done|lia]]|].
    intros ok s' [(-> & len & Hlen & E' & L' & hl' & segs' & I' & Hg) Hd]. destruct (grown_abs _ _ _ _ _ _ _ I Hco Hg) as (n & Hun & Hco' & Habs).
    apply (HQ s' n len); [|done|done|].
    + exists E', L', hl', segs'. split; [done|]. split; [done|]. split; [|by rewrite Habs]. destruct Hg as (n2 & h & Hn2 & Hl2 & Hun2 & Hfd).
      assert (Hnone : segs !! n2 = None). { destruct (segs !! n2) as [g|] eqn:En; [|done]. destruct (Hun2 n2 ltac:(lia)). exists n2, g. split; [done|]. pose proof (seg_pos _ _ _ _ _ _ I _ _ En). lia. }
      assert (Hpos : forall m k, (<[n2 := mkSeg len h false]> segs) !! m = Some k -> 0 < sg_len k) by (intros m k [[<- <-]|[_ Hm]]%lookup_insert_Some; [exact Hl2|exact (seg_pos _ _ _ _ _ _ I _ _ Hm)]).
      rewrite (runs_freed _ _ _ _ Hpos (lookup_insert_eq _ _ _) eq_refl Hfd).
      rewrite <- runs_delete. by rewrite delete_insert_id.
    + intros m Hm%elem_run. rewrite <- covered_blocks. by apply Hun.
Qed.

End instance.

(** ** Bounded memory *)

(** Memory is below a limit. *)
Class MemLimit `{!PersistentMem} (LIM : Z) := get_mem_limit : forall rs n a, get_mem rs n = Some a -> a + n <= LIM * HBLKSZ.

(** The memory a heap has obtained is below block [LIM]. *)
Definition limited (LIM : Z) (s : heap) : Prop := forall r, r ∈ regions s -> 0 <= r.1 /\ r.1 + r.2 <= LIM * HBLKSZ.

Section limit.
Context `{!PersistentMem} {LIM : Z} `{!MemLimit LIM}.

Lemma limited_later s s' : limited LIM s -> later s s' -> limited LIM s'.
Proof. intros Hl [_ Hr] r [Hin|(rs & Hg)]%Hr; [by apply Hl|]. split; [destruct (get_mem_range _ _ _ Hg); unfold HBLKSZ in *; lia|by eapply get_mem_limit]. Qed.

(** Blocks inside limited memory are fewer than the limit. *)
Lemma limited_blocks s b : limited LIM s -> (forall m, m ∈ heap_blocks b -> inside (regions s) (m * HBLKSZ)) -> heap_blocks b ⊆ run 0 LIM.
Proof. intros Hl Hi m Hm. destruct (Hi m Hm) as (r & Hr & Hin). destruct (Hl r Hr). apply elem_run. unfold HBLKSZ in *. lia. Qed.

Lemma limited_fuel b fuel : heap_blocks b ⊆ run 0 LIM -> (Z.to_nat LIM < fuel)%nat -> (size (heap_blocks b) < fuel)%nat.
Proof. intros Hs Hf. apply subseteq_size in Hs. rewrite size_run in Hs. lia. Qed.

Lemma rep_limited s b : heap_rep s b -> limited LIM s -> heap_blocks b ⊆ run 0 LIM.
Proof.
  intros (E & L & hl & segs & I & _ & <-) Hl. eapply limited_blocks; [exact Hl|]. intros m (n & g & Hn & Hm)%covered_blocks.
  by eapply (sw_inside _ _ (hv_wf _ _ _ _ _ _ I)).
Qed.

Lemma grows_exec fuel q : grows (exec fuel q).
Proof.
  destruct q as [sz kind flags|h|needed i]; cbn [exec].
  - apply grows_allochblk.
  - apply grows_bind; [apply grows_freehblk|]. intros _. apply grows_ret.
  - apply grows_bind; [apply grows_try_expand|]. intros ok. apply grows_ret.
Qed.

Lemma play_sim c b0 fuel k : (Z.to_nat LIM < fuel)%nat -> (forall h b, reach c b0 h b -> legal b (c h)) ->
  forall h s b, reach c b0 h b -> heap_rep s b -> limited LIM s ->
  wp True (play fuel c k h) s (fun h' s' => exists b', reach c b0 h' b' /\ heap_rep s' b' /\ limited LIM s').
Proof.
  intros Hf Hc. induction k as [|k IH]; intros h s b Hr HR Hl; cbn [play].
  - apply wp_ret. by exists b.
  - apply wp_bind. eapply wp_mono; [apply wp_grows; [apply grows_exec|apply exec_sim; [exact HR|by apply Hc|]]|].
    + eapply limited_fuel; [by eapply rep_limited|done].
    + intros r s' [(b' & Hs & HR') Hlat]. eapply IH; [by eapply reach_step|done|by eapply limited_later].
Qed.

End limit.

(** C8: on a machine whose persistent memory ends at block [LIM], whatever requests a program makes
    of the block heap, depending on the answers it gets, as long as it asks for 1 to 2^61 - 1
    bytes, expands by 1 to 2^48 - 1 blocks and frees allocated runs only: the heap either aborts
    for want of memory, or its answers and its state are those of the abstract heap. Runs that are
    allocated are disjoint and made of blocks that were free; freed blocks are free again; an
    expansion adds blocks that were not in the heap; an allocation fails only if the blocks it
    needs are not free in a row, whatever the sequence of requests before it. No loop of the heap
    runs more often than the memory has blocks. *)
Theorem block_heap_refines `{!PersistentMem} LIM fuel c b s k :
  MemLimit LIM -> (Z.to_nat LIM < fuel)%nat -> heap_rep s b -> limited LIM s ->
  (forall h b', reach c b h b' -> legal b' (c h)) ->
  play fuel c k [] s = Err Throw \/
  exists h s' b', play fuel c k [] s = Ok (h, s') /\ reach c b h b' /\ heap_rep s' b' /\ blocks_wf b' /\ heap_blocks b' ⊆ run 0 LIM.
Proof.
  intros Hlim Hf HR Hl Hc. destruct (wp_abort _ _ _ (play_sim c b fuel k Hf Hc [] s b (reach_nil c b) HR Hl)) as [|(h & s' & Hp & b' & Hr & HR' & Hl')]; [by left|right].
  exists h, s', b'. split_and!; [done|done|done|by eapply rep_wf|by eapply rep_limited].
Qed.
