(* ===== verification/MakStart.v ===== *)
(** * Makalu: a new heap

    The block heap as [MAK_start] leaves it ([makalu_init.c]), and runs of it on concrete memory. *)

From S2P Require Import Prelude MakHdr MakBlock MakLib MakIndex MakSegs MakRuns MakCoalesce MakAlloc MakHeap MakOwn.
From stdpp Require Import sorting.
#[local] Open Scope Z_scope.
#[local] Open Scope cmd_scope.

Definition STARTING_ONLINE : Z := 12.

(** The state before [MAK_init_headers]: the base metadata is zero but for the addresses in it.
    [rs] is the memory obtained so far, which contains [MAK_all_nils]. *)
Definition base_heap (rs : list (Z * Z)) (nils : Z) : heap :=
  mkHeap rs ∅ (mkSpace [] 0 0 0) 0 (mkIndex nils ∅ {[nils := bi_zero]} 0 0 (mkSpace [] 0 0 0))
    (mkFree (replicate 61 0) (replicate 61 0) 0) (mkExtent 0 0 0 0 0 0 (2 ^ 64 - 1) []) STATE_NONE 0.

Section heap.
Context `{!PersistentMem}.

Definition set_run_mode x (s : heap) := mkHeap (regions s) (hdrs s) (hdr_space s) (MAK_hdr_free_list s) (hindex s) (hfree s) (hextent s) (MAK_persistent_state s) x.

(** The part of [MAK_start] that concerns the block heap. *)
Definition MAK_start (fuel : nat) : stM heap unit :=
  MAK_init_headers;;
  cmod (set_run_mode STARTING_ONLINE);;
  ok <- MAK_expand_hp_inner fuel MINHINCR;
  if negb ok then cfail Throw else cret tt.

Lemma space_weaken {A} rs sp (m : gmap Z A) : space_ok rs sp m 0 -> space_ok rs sp m 1.
Proof. intros (H1 & H2 & H3 & H4). split; [exact H1|]. split; [exact H2|]. lia. Qed.

(** The first request for a space. *)
Lemma wp_first_space {A} get set n s (m : gmap Z A) (Q : bool -> heap -> Prop) :
  get s = mkSpace [] 0 0 0 -> (forall a, is_Some (m !! a) -> inside (regions s) a) ->
  (forall ok rs sp, regions s ⊆ rs -> space_ok rs sp m 1 -> (forall s', s' = set sp (set_regions rs s) \/ s' = s /\ sp = get s /\ rs = regions s -> Q ok s')) ->
  wp True (scratch_alloc get set n) s Q.
Proof.
  intros Hg Hm HQ. assert (H0 : space_ok (regions s) (get s) m 0) by (rewrite Hg; split; [|split; [|cbn; lia]]; cbn; intros a Ha; [split; [by apply Hm|lia]|lia]).
  eapply wp_mono; [apply wp_scratch; rewrite Hg; done|]. intros [] s' Hgot.
  - destruct Hgot as (a & n' & Ha & Hl & ->). eapply HQ; [|by apply space_new|by left]. set_solver.
  - cbn in Hgot. subst s'. eapply HQ; [done|by apply space_weaken|by right].
Qed.

Lemma empty_irep s nils : hindex s = mkIndex nils ∅ {[nils := bi_zero]} 0 0 (idx_space (hindex s)) -> nils <> 0 -> space_ok (regions s) (idx_space (hindex s)) ({[nils := bi_zero]} : gmap Z bottom_index) 1 ->
  irep s (fun _ => 0).
Proof.
  intros Hx Hn Hs. exists ∅, []. rewrite Hx. split; [|split; [done|exact Hs]]. split; cbn; try done.
  - split; [apply lookup_singleton_eq|done].
  - intros b y [-> _]%lookup_singleton_Some. by left.
  - intros i Hi. exists []. unfold top_at. cbn. rewrite lookup_empty. split; [done|]. split; [constructor|]. intros b. split; [intros Hb; by apply not_elem_of_nil in Hb|intros (k & Hk & _); done].
  - constructor.
  - intros b. split; [intros Hb; by apply not_elem_of_nil in Hb|intros (k & Hk); done].
Qed.

Lemma empty_hinv s nils : hindex s = mkIndex nils ∅ {[nils := bi_zero]} 0 0 (idx_space (hindex s)) -> nils <> 0 ->
  space_ok (regions s) (idx_space (hindex s)) ({[nils := bi_zero]} : gmap Z bottom_index) 1 -> space_ok (regions s) (hdr_space s) (hdrs s) 1 ->
  MAK_hblkfreelist (hfree s) = replicate 61 0 -> MAK_hdr_free_list s = 0 -> MAK_run_mode s <> RESTARTING_OFFLINE -> MAK_heapsize (hextent s) = 0 -> hdrs s = ∅ ->
  hinv s (fun _ => 0) (fun _ => []) [] ∅ ∅.
Proof.
  intros Hx Hn Hs Hh Hfl Hfr Hm He He'. split; try done.
  - by eapply empty_irep.
  - by rewrite Hfl.
  - intros i Hi. exists 0. rewrite Hfl. split; [apply lookup_replicate; lia|]. split; [done|]. split; [constructor|].
    intros a. split; [intros Ha; by apply not_elem_of_nil in Ha|intros (n & g & _ & Hg & _); done].
  - rewrite Hfr. split; [done|constructor].
  - rewrite He'. intros a x Ha. done.
  - split; [done|lia].
Qed.

Lemma rep_start fuel rs nils : inside rs nils -> nils <> 0 -> (0 < fuel)%nat ->
  wp True (MAK_start fuel) (base_heap rs nils) (fun _ s' => exists n, heap_rep s' (mkBlocks ∅ (run n MINHINCR))).
Proof.
  intros Hin Hn Hfu. unfold MAK_start, MAK_init_headers. apply wp_bind. apply wp_bind, wp_mod. set (s0 := set_hdr_space _ _).
  apply wp_bind. apply (wp_first_space _ _ _ s0 (hdrs s0)); [done|intros a [x Hx]; done|]. intros ok1 rs1 sp1 Hrs1 Hsp1 s1 Hs1.
  assert (Hs1' : s1 = set_hdr_space sp1 (set_regions rs1 s0)) by (destruct Hs1 as [->|(-> & -> & ->)]; done). clear Hs1. subst s1. cbn in Hrs1.
  apply wp_bind, wp_mod. set (s2 := set_hindex _ _). apply wp_bind.
  apply (wp_first_space _ _ _ s2 (bis (hindex s2))); [done|intros a Ha; cbn in Ha; apply lookup_singleton_is_Some in Ha as <-; cbn; by eapply inside_more|]. intros ok2 rs2 sp2 Hrs2 Hsp2 s3 Hs3.
  assert (Hs3' : s3 = set_hindex (set_idx_space sp2 (hindex s2)) (set_regions rs2 s2)) by (destruct Hs3 as [->|(-> & -> & ->)]; done). clear Hs3. subst s3. cbn in Hrs2.
  apply wp_mod. apply wp_bind, wp_mod. set (s4 := set_run_mode _ _).
  assert (I : hinv s4 (fun _ => 0) (fun _ => []) [] ∅ ∅) by (apply (empty_hinv s4 nils); try done; by eapply space_more).
  apply wp_bind. eapply wp_mono; [apply (wp_expand_hp_inner s4 _ _ _ _ fuel MINHINCR I); [done|intros n g Hg; done|done]|].
  intros [] s5 (E' & L' & hl' & segs' & I' & Hg); cbn [negb]; [|by apply wp_throw]. apply wp_ret. rewrite Z.max_id in Hg.
  destruct (grown_abs _ _ _ _ _ _ _ I ltac:(intros n g n' g' Hx; done) Hg) as (n & _ & Hco & Habs). exists n, E', L', hl', segs'. split; [done|]. split; [done|]. rewrite Habs.
  f_equal. unfold abs. cbn. set_solver.
Qed.

End heap.

Lemma grows_start `{!PersistentMem} fuel : grows (MAK_start fuel).
Proof.
  unfold MAK_start, MAK_init_headers, set_index. pose proof (grows_scratch_hdr (MINHINCR * HBLKSZ)). pose proof (grows_scratch_idx (MINHINCR * HBLKSZ)). pose proof (grows_expand_inner fuel MINHINCR). grow.
Qed.

(** ** Concrete memory *)

(** Memory above everything given so far. *)
Definition above (rs : list (Z * Z)) : Z := foldr (fun r acc => Z.max (r.1 + r.2) acc) (4 * HBLKSZ) rs.
Definition page_up (a : Z) : Z := (a + HBLKSZ - 1) / HBLKSZ * HBLKSZ.

Lemma above_max rs r : r ∈ rs -> r.1 + r.2 <= above rs.
Proof. induction rs as [|r' rs IH]; intros Hr; [by apply not_elem_of_nil in Hr|]. cbn. apply elem_of_cons in Hr as [->|Hr]; [lia|specialize (IH Hr); unfold above in IH; lia]. Qed.

Lemma above_low rs : 4 * HBLKSZ <= above rs.
Proof. induction rs as [|r rs IH]; cbn; [done|]. unfold above in IH. lia. Qed.

Lemma page_up_ge a : a <= page_up a.
Proof. unfold page_up, HBLKSZ. pose proof (Z.div_mod (a + 4096 - 1) 4096 ltac:(done)). pose proof (Z.mod_pos_bound (a + 4096 - 1) 4096 ltac:(done)). lia. Qed.

Definition bump (rs : list (Z * Z)) (n : Z) : option Z :=
  let a := page_up (above rs) in if a + n <=? 2 ^ 47 then Some a else None.

Lemma bump_some rs n a : bump rs n = Some a -> a = page_up (above rs) /\ a + n <= 2 ^ 47.
Proof. unfold bump. destruct (Z.leb_spec (page_up (above rs) + n) (2 ^ 47)); [|done]. intros [= <-]. done. Qed.

#[export] Instance bump_mem : PersistentMem.
Proof.
  refine {| get_mem := bump |}.
  - intros rs n a [-> _]%bump_some. unfold page_up. by rewrite Z_mod_mult.
  - intros rs n a [-> Hle]%bump_some. pose proof (above_low rs). pose proof (page_up_ge (above rs)). lia.
  - intros rs n a r [-> _]%bump_some Hr. right. pose proof (above_max rs r Hr). pose proof (page_up_ge (above rs)). lia.
Defined.

Definition base : heap := base_heap [(16384, 65536)] 16384.

(** Only expansions add blocks. *)
Lemma bstep_blocks b q r b' : bstep b q r b' -> (forall k i, q <> ReqExpand k i) -> heap_blocks b' ⊆ heap_blocks b.
Proof.
  intros Hs Hq m Hm. destruct Hs as [sz kind flags n Hn Hsub|sz kind flags Hno|n len Hal|needed i n len Hle Hdis]; [|done| |by destruct (Hq needed i)];
    apply elem_heap_blocks in Hm; apply elem_heap_blocks; cbn [avail allocated] in Hm.
  - destruct Hm as [[Hm _]%elem_of_difference|(n' & len & [[<- <-]|[_ Hal]]%lookup_insert_Some & Hm)]; [by left|left; apply Hsub; by apply elem_run|right; by exists n', len].
  - destruct Hm as [[Hm|Hm%elem_run]%elem_of_union|(n' & len' & [_ Hal']%lookup_delete_Some & Hm)]; [by left|right; by exists n, len|right; by exists n', len'].
Qed.

Lemma legal_alloc b sz : 0 < sz < 2 ^ 61 -> legal b (ReqAlloc sz 1 0).
Proof. intros Hsz. split; [done|]. split; [lia|done]. Qed.

Lemma size_start n k : size (heap_blocks (mkBlocks ∅ (run n k))) = Z.to_nat k.
Proof.
  rewrite <- (size_run n k). f_equal. apply leibniz_equiv. intros m. rewrite elem_heap_blocks. cbn. split; [|by left]. intros [?|(n' & len & Hx & _)]; [done|by rewrite lookup_empty in Hx].
Qed.

Lemma base_started : exists s n, MAK_start 17 base = Ok (tt, s) /\ heap_rep s (mkBlocks ∅ (run n MINHINCR)).
Proof.
  assert (Hin : inside [(16384, 65536)] 16384) by (exists (16384, 65536); split; [left|cbn; lia]).
  destruct (wp_abort _ _ _ (rep_start 17 [(16384, 65536)] 16384 Hin ltac:(done) ltac:(lia))) as [Hx|([] & s & Hr & n & HR)]; [|exists s, n; split; [exact Hr|exact HR]].
  exfalso. revert Hx. vm_compute. discriminate.
Qed.

Definition answer (x : res (Z * heap)) : Z := match x with Ok (r, _) => r | Err _ => 0 end.

(** The answer of the first allocation on the new heap. *)
Lemma first_alloc_eq : answer ((MAK_start 17;; MAK_allochblk 17 10000 1 0) base) = 212992.
Proof. vm_compute. reflexivity. Qed.

Lemma first_alloc_rep : exists s b n, (MAK_start 17;; MAK_allochblk 17 10000 1 0) base = Ok (n * HBLKSZ, s) /\ heap_rep s b /\ allocated b !! n = Some 3 /\ (size (heap_blocks b) < 17)%nat.
Proof.
  destruct base_started as (s & n & Hs & HR). assert (Hsz : (size (heap_blocks (mkBlocks ∅ (run n MINHINCR))) < 17)%nat) by (rewrite size_start; change (Z.to_nat MINHINCR) with 16%nat; lia).
  pose proof first_alloc_eq as Hne. rewrite (cbind_Ok _ _ _ _ _ Hs) in Hne |- *. clear Hs.
  destruct (wp_abort _ _ _ (rep_alloc s _ 17 10000 1 0 HR ltac:(by apply legal_alloc) Hsz)) as [Hx|(r & s' & Hr & b' & Hst & HR')]; [rewrite Hx in Hne; discriminate Hne|].
  rewrite Hr in Hne |- *. pose proof (bstep_blocks _ _ _ _ Hst ltac:(done)) as Hsub. inversion Hst as [sz kind flags m Hm0 Hsub'| |  |]; subst; [|done].
  exists s', (mkBlocks (<[m := OBJ_SZ_TO_BLOCKS 10000]> (allocated (mkBlocks ∅ (run n MINHINCR)))) (avail (mkBlocks ∅ (run n MINHINCR)) ∖ run m (OBJ_SZ_TO_BLOCKS 10000))), m.
  split; [done|]. split; [exact HR'|]. split; [apply lookup_insert_eq|]. apply subseteq_size in Hsub. lia.
Qed.

Lemma MAK_freehblk_total_witness : exists s b n, (MAK_start 17;; MAK_allochblk 17 10000 1 0) base = Ok (n * HBLKSZ, s) /\
  exists s', MAK_freehblk 17 (n * HBLKSZ) s = Ok (tt, s') /\ heap_rep s' (mkBlocks (delete n (allocated b)) (avail b ∪ run n 3)).
Proof.
  destruct first_alloc_rep as (s & b & n & Hs & HR & Hal & Hsz). exists s, b, n. split; [exact Hs|]. exact (MAK_freehblk_total 17 s b n 3 HR Hal Hsz).
Defined.

Lemma MAK_prev_block_base_witness : exists s b n, (MAK_start 17;; MAK_allochblk 17 10000 1 0) base = Ok (n * HBLKSZ, s) /\ allocated b !! n = Some 3 /\
  exists r, MAK_prev_block (n * HBLKSZ + 9000) s = Ok (r, s) /\
    (forall n' len, allocated b !! n' = Some len -> bno (n * HBLKSZ + 9000) ∈ run n' len -> r = n' * HBLKSZ) /\
    (bno (n * HBLKSZ + 9000) ∈ avail b -> exists q, r = q * HBLKSZ /\ q <= bno (n * HBLKSZ + 9000) /\ run q (bno (n * HBLKSZ + 9000) + 1 - q) ⊆ avail b /\ q - 1 ∉ avail b) /\
    (r = 0 -> forall m, m ∈ heap_blocks b -> bno (n * HBLKSZ + 9000) < m).
Proof.
  destruct first_alloc_rep as (s & b & n & Hs & HR & Hal & Hsz). exists s, b, n. split; [exact Hs|]. split; [exact Hal|].
  apply (MAK_prev_block_base s b (n * HBLKSZ + 9000) HR). destruct (bw_len _ (rep_wf _ _ HR) n 3 Hal). unfold HBLKSZ. lia.
Defined.

(** Memory of 128 blocks. *)
Definition small_bump (rs : list (Z * Z)) (n : Z) : option Z :=
  let a := page_up (above rs) in if a + n <=? 128 * HBLKSZ then Some a else None.

Lemma small_bump_some rs n a : small_bump rs n = Some a -> bump rs n = Some a /\ a + n <= 128 * HBLKSZ.
Proof. unfold small_bump, bump. destruct (Z.leb_spec (page_up (above rs) + n) (128 * HBLKSZ)) as [Hle|]; [|done]. intros [= <-]. split; [|done]. destruct (Z.leb_spec (page_up (above rs) + n) (2 ^ 47)); [done|unfold HBLKSZ in Hle; lia]. Qed.

#[export] Instance small_mem : PersistentMem.
Proof.
  refine {| get_mem := small_bump |}.
  - intros rs n a [Hb _]%small_bump_some. by apply (@get_mem_aligned bump_mem rs n).
  - intros rs n a [Hb _]%small_bump_some. by apply (@get_mem_range bump_mem rs n).
  - intros rs n a r [Hb _]%small_bump_some. by apply (@get_mem_fresh bump_mem rs n).
Defined.

#[export] Instance small_limit : MemLimit 128.
Proof. intros rs n a [_ Hle]%small_bump_some. exact Hle. Qed.

Lemma small_base : inside [(16384, 65536)] 16384 /\ forall r : Z * Z, r ∈ [(16384, 65536)] -> 0 <= r.1 /\ r.1 + r.2 <= 128 * HBLKSZ.
Proof. split; [exists (16384, 65536); split; [left|cbn; lia]|]. intros r ->%list_elem_of_singleton. unfold HBLKSZ. cbn. lia. Qed.

(** A program: allocate three blocks, free them, allocate fifteen of the sixteen, expand the heap
    and allocate fifteen more. *)
Definition demo : program := fun h =>
  match h with
  | [] => ReqAlloc 10000 1 0
  | [r] => if r =? 0 then ReqAlloc 1 1 0 else ReqFree r
  | [_; _; _] => ReqExpand 20 false
  | _ => ReqAlloc 60000 1 0
  end.

Definition played (x : res (list Z * heap)) : res (list Z) := match x with Ok (h, _) => Ok h | Err e => Err e end.

Lemma demo_results : played ((MAK_start 129;; play 129 demo 5 []) base) = Ok [212992; 0; 212992; 1; 274432].
Proof. vm_compute. reflexivity. Qed.

(** The run of the program: the second allocation gets the merged blocks, the last one blocks of
    the expansion. *)
Lemma demo_run s : MAK_start 129 base = Ok (tt, s) -> played (play 129 demo 5 [] s) = Ok [212992; 0; 212992; 1; 274432].
Proof. intros Hs. rewrite <- demo_results. by rewrite (cbind_Ok _ _ _ _ _ Hs). Qed.

Lemma demo_legal b : allocated b = ∅ -> forall h b', reach demo b h b' -> legal b' (demo h).
Proof.
  intros Hb h b' Hr. destruct Hr as [|h b1 r b2 Hr Hs]; [by apply legal_alloc|].
  destruct h as [|r1 [|r2 [|r3 h]]]; cbn [app demo]; [|by apply legal_alloc|done|].
  - destruct (Z.eqb_spec r 0) as [_|Hr0]; [by apply legal_alloc|]. cbn in Hs. inversion Hs; subst; [|done]. eexists _, _. split; [done|]. apply lookup_insert_eq.
  - destruct h; by apply legal_alloc.
Qed.

Lemma small_started : exists s n, MAK_start 129 base = Ok (tt, s) /\ heap_rep s (mkBlocks ∅ (run n MINHINCR)) /\ limited 128 s.
Proof.
  destruct small_base as [Hin Hrs].
  destruct (wp_abort _ _ _ (wp_grows _ _ _ _ (grows_start 129) (rep_start 129 [(16384, 65536)] 16384 Hin ltac:(done) ltac:(lia)))) as [Hx|([] & s & Hr & [n HR] & Hlat)].
  - exfalso. revert Hx. vm_compute. discriminate.
  - exists s, n. split; [exact Hr|]. split; [exact HR|]. eapply limited_later; [|exact Hlat]. exact Hrs.
Qed.

Lemma block_heap_refines_witness : exists s b s' b', MAK_start 129 base = Ok (tt, s) /\ heap_rep s b /\
  play 129 demo 5 [] s = Ok ([212992; 0; 212992; 1; 274432], s') /\ reach demo b [212992; 0; 212992; 1; 274432] b' /\ heap_rep s' b' /\ blocks_wf b'.
Proof.
  destruct small_started as (s & n & Hs & HR & Hl). pose proof (demo_run s Hs) as Hrun.
  destruct (block_heap_refines 128 129 demo (mkBlocks ∅ (run n MINHINCR)) s 5 small_limit ltac:(lia) HR Hl (demo_legal (mkBlocks ∅ (run n MINHINCR)) eq_refl)) as [Hx|(h & s' & b' & Hp & Hr & HR' & Hw & _)];
    [rewrite Hx in Hrun; discriminate Hrun|]. rewrite Hp in Hrun. injection Hrun as ->.
  exists s, (mkBlocks ∅ (run n MINHINCR)), s', b'. split; [exact Hs|]. split; [exact HR|]. split; [exact Hp|]. split; [exact Hr|]. split; [exact HR'|exact Hw].
Defined.
