(* ===== verification/MakObj.v ===== *)
(** * Makalu: objects

    [makalu_malloc.c], [makalu_local_heap.c], [makalu_reclaim.c] and the header cache of
    [makalu_hdr.c]: blocks that hold objects of one size, the arrays of free objects of a thread
    and of the process, the mark bits that say which objects of a block are in use or in an array,
    and the lists of blocks with objects to reclaim. One thread runs, so the locks are left out; the
    contents of objects and the flush tables are left out too. Memory that does not survive a crash
    ([MAK_transient_scratch_alloc]) is taken to be there. *)

From S2P Require Import Prelude MakHdr MakBlock.

(** ** Data *)

(** An array of free objects, used as a ring; [None] is the null pointer. *)
Record fl_hdr := mkFl { fl : option (list Z); start_idx : Z; count : Z }.

Definition fl_zero : fl_hdr := mkFl None 0 0.
Definition fl_array v (f : fl_hdr) := mkFl v (start_idx f) (count f).
Definition fl_start v (f : fl_hdr) := mkFl (fl f) v (count f).
Definition fl_count v (f : fl_hdr) := mkFl (fl f) (start_idx f) v.

Record hdr_cache_entry := mkHce { block_addr : Z; hce_hdr : Z }.

Definition hc_zero : list hdr_cache_entry := replicate 8 (mkHce 0 0).

Record thread_local_freelists := mkTlfs {
  ptrfree_freelists : list fl_hdr;
  normal_freelists : list fl_hdr;
  hc : list hdr_cache_entry }.

(** The block heap, and the metadata of objects. *)
Record makalu := mkMakalu {
  blk : heap;
  MAK_objfreelist : list fl_hdr;
  MAK_aobjfreelist : list fl_hdr;
  MAK_reclaim_list : list (option (list Z));
  MAK_size_map : list Z;
  MAK_hdr_cache : list hdr_cache_entry;
  my_tlfs : option thread_local_freelists;
  tlfs_fl : list thread_local_freelists;
  never_allocates : bool;
  MAK_is_initialized : bool }.

Definition set_blk x (s : makalu) := mkMakalu x (MAK_objfreelist s) (MAK_aobjfreelist s) (MAK_reclaim_list s) (MAK_size_map s) (MAK_hdr_cache s) (my_tlfs s) (tlfs_fl s) (never_allocates s) (MAK_is_initialized s).
Definition set_objfreelist x (s : makalu) := mkMakalu (blk s) x (MAK_aobjfreelist s) (MAK_reclaim_list s) (MAK_size_map s) (MAK_hdr_cache s) (my_tlfs s) (tlfs_fl s) (never_allocates s) (MAK_is_initialized s).
Definition set_aobjfreelist x (s : makalu) := mkMakalu (blk s) (MAK_objfreelist s) x (MAK_reclaim_list s) (MAK_size_map s) (MAK_hdr_cache s) (my_tlfs s) (tlfs_fl s) (never_allocates s) (MAK_is_initialized s).
Definition set_reclaim_list x (s : makalu) := mkMakalu (blk s) (MAK_objfreelist s) (MAK_aobjfreelist s) x (MAK_size_map s) (MAK_hdr_cache s) (my_tlfs s) (tlfs_fl s) (never_allocates s) (MAK_is_initialized s).
Definition set_size_map x (s : makalu) := mkMakalu (blk s) (MAK_objfreelist s) (MAK_aobjfreelist s) (MAK_reclaim_list s) x (MAK_hdr_cache s) (my_tlfs s) (tlfs_fl s) (never_allocates s) (MAK_is_initialized s).
Definition set_hdr_cache x (s : makalu) := mkMakalu (blk s) (MAK_objfreelist s) (MAK_aobjfreelist s) (MAK_reclaim_list s) (MAK_size_map s) x (my_tlfs s) (tlfs_fl s) (never_allocates s) (MAK_is_initialized s).
Definition set_tlfs x (s : makalu) := mkMakalu (blk s) (MAK_objfreelist s) (MAK_aobjfreelist s) (MAK_reclaim_list s) (MAK_size_map s) (MAK_hdr_cache s) x (tlfs_fl s) (never_allocates s) (MAK_is_initialized s).
Definition set_tlfs_fl x (s : makalu) := mkMakalu (blk s) (MAK_objfreelist s) (MAK_aobjfreelist s) (MAK_reclaim_list s) (MAK_size_map s) (MAK_hdr_cache s) (my_tlfs s) x (never_allocates s) (MAK_is_initialized s).
Definition set_initialized x (s : makalu) := mkMakalu (blk s) (MAK_objfreelist s) (MAK_aobjfreelist s) (MAK_reclaim_list s) (MAK_size_map s) (MAK_hdr_cache s) (my_tlfs s) (tlfs_fl s) (never_allocates s) x.
Definition set_never_allocates x (s : makalu) := mkMakalu (blk s) (MAK_objfreelist s) (MAK_aobjfreelist s) (MAK_reclaim_list s) (MAK_size_map s) (MAK_hdr_cache s) (my_tlfs s) (tlfs_fl s) x (MAK_is_initialized s).

Definition tl_ptrfree v (t : thread_local_freelists) := mkTlfs v (normal_freelists t) (hc t).
Definition tl_normal v (t : thread_local_freelists) := mkTlfs (ptrfree_freelists t) v (hc t).
Definition tl_hc v (t : thread_local_freelists) := mkTlfs (ptrfree_freelists t) (normal_freelists t) v.

(** ** Constants *)

Definition GRANULE_BYTES : Z := 16.
Definition TINY_FREELISTS : Z := 25.
Definition MAXOBJGRANULES : Z := 128.
Definition HBLK_GRANULES : Z := HBLKSZ / GRANULE_BYTES.
Definition PTRFREE : Z := 0.
Definition NORMAL : Z := 1.
Definition IN_RECLAIMLIST : Z := 0.
Definition IN_FLOATING : Z := 1.
Definition FL_MAX_SIZE : Z := 2 * HBLKSZ.
Definition FL_OPTIMAL_SIZE : Z := 1 * HBLKSZ.
Definition LOCAL_FL_MAX_SIZE : Z := 2 * HBLKSZ.
Definition LOCAL_FL_OPTIMAL_SIZE : Z := 1 * HBLKSZ.
Definition HDR_CACHE_SIZE : Z := 8.
Definition ONES : Z := 2 ^ 64 - 1.

Definition BYTES_TO_GRANULES (n : Z) : Z := Z.shiftr n 4.
Definition GRANULES_TO_BYTES (n : Z) : Z := Z.shiftl n 4.
Definition GRANULES_TO_WORDS (n : Z) : Z := Z.shiftl n 1.
Definition BYTES_TO_WORDS (n : Z) : Z := Z.shiftr n 3.
Definition ROUNDED_UP_GRANULES (n : Z) : Z := BYTES_TO_GRANULES (u64 (n + (GRANULE_BYTES - 1))).
Definition SMALL_OBJ (bytes : Z) : bool := (bytes <=? MAXOBJBYTES - 1) || (bytes <=? MAXOBJBYTES).
Definition HBLK_OBJS (sz : Z) : Z := HBLKSZ / sz.
Definition BLOCK_NEARLY_FULL_THRESHOLD (sz : Z) : Z := 7 * HBLK_OBJS sz / 8.
Definition HBLKPTR (p : Z) : Z := Z.land p (not64 (HBLKSZ - 1)).
Definition HBLKDISPL (p : Z) : Z := Z.land p (HBLKSZ - 1).

(** The tables [MAK_init] and [MAK_init_thread_local] fill in. *)
Definition MAK_fl_max_count (g : Z) : Z := if (1 <=? g) && (g <=? MAXOBJGRANULES) then FL_MAX_SIZE / (g * GRANULE_BYTES) else 0.
Definition MAK_fl_optimal_count (g : Z) : Z := if (1 <=? g) && (g <=? MAXOBJGRANULES) then FL_OPTIMAL_SIZE / (g * GRANULE_BYTES) else 0.
Definition tlfs_max_count (g : Z) : Z := if (1 <=? g) && (g <? TINY_FREELISTS) then LOCAL_FL_MAX_SIZE / (g * GRANULE_BYTES) else 0.
Definition tlfs_optimal_count (g : Z) : Z := if (1 <=? g) && (g <? TINY_FREELISTS) then LOCAL_FL_OPTIMAL_SIZE / (g * GRANULE_BYTES) else 0.

(** ** Mark bits

    A block has one bit for each granule, so a bit number is below 256 and its word exists. *)

Definition mark_bit (m : list Z) (n : Z) : Z := Z.land (Z.shiftr (default 0 (m !! Z.to_nat (Z.shiftr n 6))) (Z.land n 63)) 1.
Definition set_mark_bit (m : list Z) (n : Z) : list Z := alter (fun w => Z.lor w (Z.shiftl 1 (Z.land n 63))) (Z.to_nat (Z.shiftr n 6)) m.
Definition clear_mark_bit (m : list Z) (n : Z) : list Z := alter (fun w => Z.land w (not64 (Z.shiftl 1 (Z.land n 63)))) (Z.to_nat (Z.shiftr n 6)) m.
Definition MARK_BIT_NO (offset : Z) : Z := BYTES_TO_GRANULES (u32 offset).
Definition ALL_MARKED : list Z := replicate 5 ONES.

(** ** Accesses *)

(** Where an array of free objects is: one of the process or one of the thread, for a kind of
    objects and a number of granules. *)
Inductive fl_loc := FlGlobal (k g : Z) | FlLocal (k g : Z).
Inductive hc_loc := HcGlobal | HcLocal.

Definition fl_table (l : fl_loc) (s : makalu) : option (list fl_hdr) :=
  match l with
  | FlGlobal 0 _ => Some (MAK_aobjfreelist s)
  | FlGlobal 1 _ => Some (MAK_objfreelist s)
  | FlLocal 0 _ => ptrfree_freelists <$> my_tlfs s
  | FlLocal 1 _ => normal_freelists <$> my_tlfs s
  | _ => None
  end.

Definition set_fl_table (l : fl_loc) (t : list fl_hdr) (s : makalu) : makalu :=
  match l with
  | FlGlobal 0 _ => set_aobjfreelist t s
  | FlGlobal _ _ => set_objfreelist t s
  | FlLocal 0 _ => set_tlfs (tl_ptrfree t <$> my_tlfs s) s
  | FlLocal _ _ => set_tlfs (tl_normal t <$> my_tlfs s) s
  end.

Definition fl_gran (l : fl_loc) : Z := match l with FlGlobal _ g => g | FlLocal _ g => g end.

Definition ld_fl (l : fl_loc) : stM makalu fl_hdr := fun s =>
  match fl_table l s ≫= (.!! Z.to_nat (fl_gran l)) with Some f => Ok (f, s) | None => Err UB_access end.
Definition upd_fl (l : fl_loc) (f : fl_hdr -> fl_hdr) : stM makalu unit := fun s =>
  match fl_table l s with
  | Some t => match t !! Z.to_nat (fl_gran l) with
              | Some x => Ok (tt, set_fl_table l (<[Z.to_nat (fl_gran l) := f x]> t) s)
              | None => Err UB_access
              end
  | None => Err UB_access
  end.

(** [flh -> fl[i]] *)
Definition ld_fl_at (l : fl_loc) (i : Z) : stM makalu Z :=
  f <- ld_fl l;
  match fl f ≫= (.!! Z.to_nat i) with Some p => cret p | None => cfail UB_access end.
Definition st_fl_at (l : fl_loc) (i p : Z) : stM makalu unit :=
  f <- ld_fl l;
  match fl f with
  | Some a => if (0 <=? i) && (i <? Z.of_nat (length a)) then upd_fl l (fl_array (Some (<[Z.to_nat i := p]> a))) else cfail UB_access
  | None => cfail UB_access
  end.

(** [MAK_reclaim_list[k][g]] *)
Definition ld_rl (k g : Z) : stM makalu Z := fun s =>
  match MAK_reclaim_list s !! Z.to_nat k with
  | Some (Some t) => match t !! Z.to_nat g with Some h => Ok (h, s) | None => Err UB_access end
  | _ => Err UB_access
  end.
Definition st_rl (k g h : Z) : stM makalu unit := fun s =>
  match MAK_reclaim_list s !! Z.to_nat k with
  | Some (Some t) =>
      if (0 <=? g) && (g <? Z.of_nat (length t)) then Ok (tt, set_reclaim_list (<[Z.to_nat k := Some (<[Z.to_nat g := h]> t)]> (MAK_reclaim_list s)) s) else Err UB_access
  | _ => Err UB_access
  end.

Definition hc_table (c : hc_loc) (s : makalu) : option (list hdr_cache_entry) :=
  match c with HcGlobal => Some (MAK_hdr_cache s) | HcLocal => hc <$> my_tlfs s end.
Definition ld_hce (c : hc_loc) (i : Z) : stM makalu hdr_cache_entry := fun s =>
  match hc_table c s ≫= (.!! Z.to_nat i) with Some e => Ok (e, s) | None => Err UB_access end.
Definition st_hce (c : hc_loc) (i : Z) (e : hdr_cache_entry) : stM makalu unit :=
  match c with
  | HcGlobal => cmod (fun s => set_hdr_cache (<[Z.to_nat i := e]> (MAK_hdr_cache s)) s)
  | HcLocal => cmod (fun s => set_tlfs ((fun t => tl_hc (<[Z.to_nat i := e]> (hc t)) t) <$> my_tlfs s) s)
  end.

Definition on_blk {A} (m : stM heap A) : stM makalu A := fun s =>
  match m (blk s) with Ok (a, b) => Ok (a, set_blk b s) | Err e => Err e end.

(** [a % b] on words. *)
Definition cmodulo (a b : Z) : stM makalu Z := if b =? 0 then cfail UB_div else cret (u64 a mod b).

Section objects.
Context `{!PersistentMem}.

Definition get_hdr (h : Z) : stM makalu hdr := on_blk (ld_hdr h).
Definition put_hdr (h : Z) (f : hdr -> hdr) : stM makalu unit := on_blk (upd_hdr h f).

(** ** The header cache *)

Definition HCE (p : Z) : Z := Z.land (Z.shiftr p LOG_HBLKSIZE) (HDR_CACHE_SIZE - 1).

Definition MAK_update_hc (c : hc_loc) (p hhdr : Z) : stM makalu unit := st_hce c (HCE p) (mkHce (Z.shiftr p LOG_HBLKSIZE) hhdr).

(** Is the entry for [p] valid, and its header still the one of the block? *)
Definition hce_hit (p : Z) (e : hdr_cache_entry) : stM makalu bool :=
  if block_addr e =? Z.shiftr p LOG_HBLKSIZE then x <- get_hdr (hce_hdr e); cret (hb_block x =? HBLKPTR p) else cret false.

Definition MAK_get_hdr_and_update_hc (c : hc_loc) (p : Z) : stM makalu Z :=
  e <- ld_hce c (HCE p);
  hit <- hce_hit p e;
  if hit : bool then cret (hce_hdr e)
  else
    hhdr <- on_blk (HDR p);
    x <- get_hdr hhdr;
    st_hce c (HCE p) (mkHce (Z.shiftr (hb_block x) LOG_HBLKSIZE) hhdr);;
    cret hhdr.

(** [while (IS_FORWARDING_ADDR_OR_NIL(candidate_hdr))] of [MAK_hc_base_with_hdr]. *)
Fixpoint base_header (fuel : nat) (h r candidate_hdr : Z) : stM heap (Z * Z * Z) :=
  match fuel with
  | O => cfail OutOfFuel
  | S fuel' =>
      if IS_FORWARDING_ADDR_OR_NIL candidate_hdr then
        let h' := h - candidate_hdr * HBLKSZ in
        c <- HDR h';
        base_header fuel' h' h' c
      else cret (h, r, candidate_hdr)
  end.

Definition MAK_hc_base_with_hdr (fuel : nat) (c : hc_loc) (p : Z) : stM makalu (Z * Z) :=
  init <- cgets MAK_is_initialized;
  if negb init then cret (0, 0)
  else
    e <- ld_hce c (HCE p);
    hit <- hce_hit p e;
    found <- (if hit : bool then cret (Some (HBLKPTR p, p, hce_hdr e))
              else
                candidate_hdr <- on_blk (HDR p);
                if candidate_hdr =? 0 then cret None
                else
                  '(h, r, candidate_hdr) <- on_blk (base_header fuel (HBLKPTR p) p candidate_hdr);
                  x <- get_hdr candidate_hdr;
                  cret (if HBLK_IS_FREE x then None else Some (h, r, candidate_hdr)));
    match found with
    | None => cret (0, 0)
    | Some (h, r, candidate_hdr) =>
        x <- get_hdr candidate_hdr;
        let r := Z.land r (not64 7) in
        let sz := hb_sz x in
        obj_displ <- cmodulo (HBLKDISPL r) sz;
        let r := r - obj_displ in
        let limit := r + sz in
        if (h + HBLKSZ <? limit) && (sz <=? HBLKSZ) then cret (0, 0)
        else if limit <=? p then cret (0, 0)
        else
          (if hit : bool then cret tt else MAK_update_hc c r candidate_hdr);;
          cret (r, candidate_hdr)
    end.

(** ** Blocks and arrays of free objects *)

(** A block has at most 256 objects. *)
Definition OBJ_FUEL : nat := 257.

(** The loop of [MAK_build_array_fl]. *)
Fixpoint build_scan (fuel : nat) (l : fl_loc) (p last_object sz idx : Z) : stM makalu Z :=
  match fuel with
  | O => cfail OutOfFuel
  | S fuel' => if p <=? last_object then st_fl_at l idx p;; build_scan fuel' l (p + sz) last_object sz (idx + 1) else cret idx
  end.

Definition all_in_use (x : hdr) : hdr := hdr_reclaim IN_FLOATING (hdr_marks (HBLK_OBJS (hb_sz x)) ALL_MARKED x).

Definition MAK_build_array_fl (c : hc_loc) (l : fl_loc) (h sz_in_words : Z) : stM makalu Z :=
  hhdr <- MAK_get_hdr_and_update_hc c h;
  idx <- build_scan OBJ_FUEL l h (h + HBLKSZ - sz_in_words * 8) (sz_in_words * 8) 0;
  put_hdr hhdr all_in_use;;
  cret idx.

(** The loop of [MAK_reclaim_to_array_clear] and [MAK_reclaim_to_array_uninit], which differ in what
    they do to the contents of the objects. *)
Fixpoint reclaim_scan (fuel : nat) (l : fl_loc) (hhdr p plim sz bit_no idx : Z) : stM makalu Z :=
  match fuel with
  | O => cfail OutOfFuel
  | S fuel' =>
      if p <=? plim then
        x <- get_hdr hhdr;
        idx <- (if mark_bit (hb_marks x) bit_no =? 0 then
                  st_fl_at l idx p;;
                  put_hdr hhdr (fun x => hdr_marks (hb_n_marks x) (set_mark_bit (hb_marks x) bit_no) x);;
                  cret (idx + 1)
                else cret idx);
        reclaim_scan fuel' l hhdr (p + sz) plim sz (bit_no + BYTES_TO_GRANULES sz) idx
      else cret idx
  end.

Definition MAK_reclaim_to_array_generic (l : fl_loc) (hbp hhdr sz : Z) : stM makalu Z :=
  idx <- reclaim_scan OBJ_FUEL l hhdr hbp (hbp + HBLKSZ - sz) sz 0 0;
  put_hdr hhdr (fun x => hdr_reclaim IN_FLOATING (hdr_marks (HBLK_OBJS sz) (hb_marks x) x));;
  cret idx.

(** The loop of [MAK_build_fl_array_from_mark_bits_clear] and [.._uninit]. *)
Fixpoint mark_bits_scan (fuel : nat) (l : fl_loc) (marks : list Z) (p plim sz bit_no idx : Z) : stM makalu Z :=
  match fuel with
  | O => cfail OutOfFuel
  | S fuel' =>
      if p <=? plim then
        idx <- (if mark_bit marks bit_no =? 0 then st_fl_at l idx p;; cret (idx + 1) else cret idx);
        mark_bits_scan fuel' l marks (p + sz) plim sz (bit_no + BYTES_TO_GRANULES sz) idx
      else cret idx
  end.

Definition MAK_build_fl_array_from_mark_bits (l : fl_loc) (hbp : Z) (marks : list Z) (sz : Z) : stM makalu Z :=
  mark_bits_scan OBJ_FUEL l marks hbp (hbp + HBLKSZ - sz) sz 0 0.

Definition MAK_reclaim_small_nonempty_block (hbp hhdr : Z) : stM makalu unit :=
  x <- get_hdr hhdr;
  let l := FlGlobal (hb_obj_kind x) (BYTES_TO_GRANULES (hb_sz x)) in
  n <- MAK_reclaim_to_array_generic l hbp hhdr (hb_sz x);
  upd_fl l (fl_count n).

Fixpoint continue_reclaim_loop (fuel : nat) (gran kind : Z) : stM makalu unit :=
  match fuel with
  | O => cfail OutOfFuel
  | S fuel' =>
      hbp <- ld_rl kind gran;
      if hbp =? 0 then cret tt
      else
        hhdr <- MAK_get_hdr_and_update_hc HcGlobal hbp;
        x <- get_hdr hhdr;
        let n_hb := hb_next x in
        st_rl kind gran n_hb;;
        (if n_hb =? 0 then cret tt else n_hhdr <- on_blk (HDR n_hb); put_hdr n_hhdr (hdr_prev 0));;
        put_hdr hhdr (hdr_next 0);;
        MAK_reclaim_small_nonempty_block hbp hhdr;;
        f <- ld_fl (FlGlobal kind gran);
        if 0 <? count f then cret tt else continue_reclaim_loop fuel' gran kind
  end.

Definition MAK_continue_reclaim (fuel : nat) (gran kind : Z) : stM makalu unit :=
  r <- cgets (fun s => MAK_reclaim_list s !! Z.to_nat kind);
  match r with
  | None => cfail UB_access
  | Some None => cret tt
  | Some (Some _) => continue_reclaim_loop fuel gran kind
  end.

Definition MAK_new_hblk (fuel : nat) (gran kind : Z) : stM makalu unit :=
  h <- on_blk (MAK_allochblk fuel (GRANULES_TO_BYTES gran) kind 0);
  if h =? 0 then cret tt
  else
    n <- MAK_build_array_fl HcGlobal (FlGlobal kind gran) h (GRANULES_TO_WORDS gran);
    upd_fl (FlGlobal kind gran) (fl_count n).

(** ** Giving objects back to their blocks *)

Definition unlink_reclaim (c : hc_loc) (k g hhdr h : Z) : stM makalu unit :=
  x <- get_hdr hhdr;
  let n_hb := hb_next x in
  let p_hb := hb_prev x in
  (if n_hb =? 0 then cret tt
   else n_hhdr <- MAK_get_hdr_and_update_hc c n_hb; put_hdr n_hhdr (hdr_prev p_hb);; put_hdr hhdr (hdr_next 0));;
  (if p_hb =? 0 then cret tt
   else p_hhdr <- MAK_get_hdr_and_update_hc c p_hb; put_hdr p_hhdr (hdr_next n_hb);; put_hdr hhdr (hdr_prev 0));;
  top <- ld_rl k g;
  if h =? top then st_rl k g n_hb else cret tt.

Definition link_reclaim (c : hc_loc) (k g hhdr h : Z) : stM makalu unit :=
  put_hdr hhdr (hdr_reclaim IN_RECLAIMLIST);;
  top_hb <- ld_rl k g;
  put_hdr hhdr (hdr_next top_hb);;
  put_hdr hhdr (hdr_prev 0);;
  (if top_hb =? 0 then cret tt else top_hhdr <- MAK_get_hdr_and_update_hc c top_hb; put_hdr top_hhdr (hdr_prev h));;
  st_rl k g h.

(** One round of the loop of [MAK_truncate_freelist]. *)
Definition truncate_one (fuel : nat) (c : hc_loc) (k ngranules full_threshold p : Z) : stM makalu unit :=
  hhdr <- MAK_get_hdr_and_update_hc c p;
  x <- get_hdr hhdr;
  let h := hb_block x in
  let bit_no := MARK_BIT_NO (p - h) in
  if mark_bit (hb_marks x) bit_no =? 0 then cret tt
  else
    put_hdr hhdr (fun x => hdr_marks (hb_n_marks x) (clear_mark_bit (hb_marks x) bit_no) x);;
    put_hdr hhdr (fun x => hdr_marks (u64 (hb_n_marks x - 1)) (hb_marks x) x);;
    x <- get_hdr hhdr;
    if hb_n_marks x =? 0 then
      unlink_reclaim c k ngranules hhdr h;;
      on_blk (MAK_freehblk fuel h)
    else if (page_reclaim_state x =? IN_FLOATING) && (hb_n_marks x <=? full_threshold) then link_reclaim c k ngranules hhdr h
    else cret tt.

Definition MAK_truncate_freelist (fuel : nat) (c : hc_loc) (l : fl_loc) (ngranules k keep max : Z) : stM makalu unit :=
  f <- ld_fl l;
  let full_threshold := BLOCK_NEARLY_FULL_THRESHOLD (GRANULES_TO_BYTES ngranules) in
  let t_count := count f in
  let k_count := if keep <? u64 t_count then keep else t_count in
  if k_count =? t_count then cret tt
  else
    let n_truncated := t_count - k_count in
    cfor (seqZ 0 n_truncated) (fun i =>
      idx <- cmodulo (start_idx f + i) max;
      p <- ld_fl_at l idx;
      truncate_one fuel c k ngranules full_threshold p);;
    upd_fl l (fl_count k_count);;
    idx <- cmodulo (start_idx f + n_truncated) max;
    upd_fl l (fl_start idx).

(** [struct trun_tb_e]: objects of one block that are given back together. *)
Record trun_tb_e := mkTrun { te_marks : list Z; te_mark_count : Z; te_block : Z; te_hhdr : Z }.

Definition TRUN_TB_SZ : Z := 16.
Definition trun_zero : trun_tb_e := mkTrun (replicate 5 0) 0 0 0.

(** One round of the loop of [remove_trun_tb_entry]: the entry that is left. *)
Definition give_back_entry (fuel : nat) (c : hc_loc) (k gran full_thres : Z) (e : trun_tb_e) : stM makalu trun_tb_e :=
  if te_block e =? 0 then cret e
  else
    let hhdr := te_hhdr e in
    x <- get_hdr hhdr;
    let h := hb_block x in
    put_hdr hhdr (fun x => hdr_marks (u64 (hb_n_marks x - te_mark_count e)) (hb_marks x) x);;
    x <- get_hdr hhdr;
    if hb_n_marks x =? 0 then
      (if page_reclaim_state x =? IN_RECLAIMLIST then unlink_reclaim c k gran hhdr h else cret tt);;
      on_blk (MAK_freehblk fuel h);;
      cret (mkTrun (te_marks e) (te_mark_count e) 0 (te_hhdr e))
    else
      put_hdr hhdr (fun x => hdr_marks (hb_n_marks x) (zip_with (fun w m => Z.land w (not64 m)) (hb_marks x) (te_marks e)) x);;
      (if (page_reclaim_state x =? IN_FLOATING) && (hb_n_marks x <=? full_thres) then link_reclaim c k gran hhdr h else cret tt);;
      cret e.

Definition remove_trun_tb_entry (fuel : nat) (c : hc_loc) (k gran full_thres : Z) (ids : list Z) (tb : list trun_tb_e) : stM makalu (list trun_tb_e) :=
  cfold ids (fun i tb =>
    match tb !! Z.to_nat i with
    | None => cfail UB_access
    | Some e => e' <- give_back_entry fuel c k gran full_thres e; cret (<[Z.to_nat i := e']> tb)
    end) tb.

(** One round of the loop of [MAK_truncate_fast_fl]. *)
Definition truncate_fast_one (fuel : nat) (c : hc_loc) (k ngranules full_threshold p : Z) (tb : list trun_tb_e) : stM makalu (list trun_tb_e) :=
  let p_block := Z.shiftr p LOG_HBLKSIZE in
  let i := Z.land p_block (TRUN_TB_SZ - 1) in
  match tb !! Z.to_nat i with
  | None => cfail UB_access
  | Some e =>
      '(tb, e) <- (if te_block e =? p_block then cret (tb, e)
                   else
                     '(tb, e) <- (if te_block e =? 0 then cret (tb, e)
                                  else
                                    tb <- remove_trun_tb_entry fuel c k ngranules full_threshold [i] tb;
                                    cret (tb, mkTrun (replicate 5 0) 0 p_block (te_hhdr e)));
                     hhdr <- MAK_get_hdr_and_update_hc c p;
                     cret (tb, mkTrun (te_marks e) (te_mark_count e) p_block hhdr));
      let bit_no := MARK_BIT_NO (p - HBLKPTR p) in
      cret (<[Z.to_nat i := mkTrun (set_mark_bit (te_marks e) bit_no) (te_mark_count e + 1) (te_block e) (te_hhdr e)]> tb)
  end.

Definition MAK_truncate_fast_fl (fuel : nat) (c : hc_loc) (l : fl_loc) (ngranules k keep max : Z) : stM makalu unit :=
  f <- ld_fl l;
  let full_threshold := BLOCK_NEARLY_FULL_THRESHOLD (GRANULES_TO_BYTES ngranules) in
  let t_count := count f in
  let k_count := if keep <? u64 t_count then keep else t_count in
  if k_count =? t_count then cret tt
  else
    let n_truncated := t_count - k_count in
    tb <- cfold (seqZ 0 n_truncated) (fun i tb =>
      idx <- cmodulo (start_idx f + i) max;
      p <- ld_fl_at l idx;
      truncate_fast_one fuel c k ngranules full_threshold p tb) (replicate (Z.to_nat TRUN_TB_SZ) trun_zero);
    remove_trun_tb_entry fuel c k ngranules full_threshold (seqZ 0 TRUN_TB_SZ) tb;;
    upd_fl l (fl_count k_count);;
    idx <- cmodulo (start_idx f + n_truncated) max;
    upd_fl l (fl_start idx).

(** ** Sizes of small objects *)

Definition ld_size_map (i : Z) : stM makalu Z := fun s =>
  match MAK_size_map s !! Z.to_nat i with Some g => Ok (g, s) | None => Err UB_access end.

Definition MAK_init_size_map : stM makalu unit :=
  cmod (fun s => set_size_map (<[0%nat := 1]> (MAK_size_map s)) s);;
  cfor (seqZ 1 (GRANULES_TO_BYTES (TINY_FREELISTS - 1))) (fun i =>
    cmod (fun s => set_size_map (<[Z.to_nat i := ROUNDED_UP_GRANULES i]> (MAK_size_map s)) s)).

(** [while (MAK_size_map[low_limit] != 0) low_limit++;] The table has 2049 entries. *)
Fixpoint find_low_limit (fuel : nat) (low_limit : Z) : stM makalu Z :=
  match fuel with
  | O => cfail OutOfFuel
  | S fuel' => g <- ld_size_map low_limit; if g =? 0 then cret low_limit else find_low_limit fuel' (low_limit + 1)
  end.

Definition SIZE_FUEL : nat := 2050.

Definition MAK_extend_size_map (i : Z) : stM makalu unit :=
  let orig_granule_sz := ROUNDED_UP_GRANULES i in
  let byte_sz := GRANULES_TO_BYTES orig_granule_sz in
  let smaller_than_i := byte_sz - Z.shiftr byte_sz 3 in
  let much_smaller_than_i := byte_sz - Z.shiftr byte_sz 2 in
  g <- ld_size_map smaller_than_i;
  '(low_limit, granule_sz) <-
    (if g =? 0 then
       low_limit <- find_low_limit SIZE_FUEL much_smaller_than_i;
       cret (low_limit, orig_granule_sz)
     else
       low_limit <- find_low_limit SIZE_FUEL (smaller_than_i + 1);
       let granule_sz := ROUNDED_UP_GRANULES low_limit in
       let granule_sz := granule_sz + Z.shiftr granule_sz 3 in
       cret (low_limit, if granule_sz <? orig_granule_sz then orig_granule_sz else granule_sz));
  let granule_sz := Z.land (granule_sz + 1) (not64 1) in
  let granule_sz := if MAXOBJGRANULES <? granule_sz then MAXOBJGRANULES else granule_sz in
  let number_of_objs := HBLK_GRANULES / granule_sz in
  let granule_sz := Z.land (HBLK_GRANULES / number_of_objs) (not64 1) in
  let byte_sz := GRANULES_TO_BYTES granule_sz in
  cfor (seqZ low_limit (byte_sz + 1 - low_limit)) (fun j =>
    _ <- ld_size_map j;
    cmod (fun s => set_size_map (<[Z.to_nat j := granule_sz]> (MAK_size_map s)) s)).

(** ** Allocation from the arrays of the process *)

Fixpoint alloc_large_loop (fuel : nat) (bfuel : nat) (lb k flags n_blocks h : Z) : stM makalu Z :=
  match fuel with
  | O => cfail OutOfFuel
  | S fuel' =>
      if h =? 0 then
        ok <- on_blk (MAK_try_expand_hp bfuel n_blocks (negb (flags =? 0)));
        if ok : bool then h <- on_blk (MAK_allochblk bfuel lb k flags); alloc_large_loop fuel' bfuel lb k flags n_blocks h
        else cret 0
      else cret h
  end.

(** An expansion is for as many blocks as are needed, so one is enough. *)
Definition EXPAND_FUEL : nat := 2.

Definition MAK_alloc_large (fuel : nat) (lb k flags : Z) : stM makalu Z :=
  let lb := Z.land (u64 (lb + GRANULE_BYTES - 1)) (not64 (GRANULE_BYTES - 1)) in
  let n_blocks := OBJ_SZ_TO_BLOCKS lb in
  init <- cgets MAK_is_initialized;
  if negb init then cfail Throw
  else
    h <- on_blk (MAK_allochblk fuel lb k flags);
    alloc_large_loop EXPAND_FUEL fuel lb k flags n_blocks h.

(** [while (flh -> count <= 0)] of [MAK_allocobj]. *)
Fixpoint allocobj_loop (fuel : nat) (bfuel : nat) (gran kind : Z) : stM makalu unit :=
  match fuel with
  | O => cfail OutOfFuel
  | S fuel' =>
      f <- ld_fl (FlGlobal kind gran);
      if count f <=? 0 then
        MAK_new_hblk bfuel gran kind;;
        f <- ld_fl (FlGlobal kind gran);
        ok <- (if count f <=? 0 then on_blk (MAK_try_expand_hp bfuel 1 false) else cret true);
        if ok : bool then allocobj_loop fuel' bfuel gran kind else cret tt
      else cret tt
  end.

Definition MAK_allocobj (fuel : nat) (gran kind : Z) : stM makalu Z :=
  let l := FlGlobal kind gran in
  if gran =? 0 then cret 0
  else
    f <- ld_fl l;
    (if count f <=? 0 then MAK_continue_reclaim fuel gran kind;; upd_fl l (fl_start 0) else cret tt);;
    f <- ld_fl l;
    (if count f <=? 0 then allocobj_loop (S EXPAND_FUEL) fuel gran kind;; upd_fl l (fl_start 0) else cret tt);;
    f <- ld_fl l;
    if count f <=? 0 then cret 0
    else
      idx <- cmodulo (start_idx f + (count f - 1)) (MAK_fl_max_count gran);
      ld_fl_at l idx.

Definition MAK_alloc_reclaim_list (k : Z) : stM makalu unit :=
  cmod (fun s => set_reclaim_list (<[Z.to_nat k := Some (replicate (Z.to_nat (MAXOBJGRANULES + 1)) 0)]> (MAK_reclaim_list s)) s).

Definition MAK_generic_malloc (fuel : nat) (lb k : Z) : stM makalu Z :=
  if SMALL_OBJ lb then
    lg <- ld_size_map lb;
    lg <- (if lg =? 0 then
             init <- cgets MAK_is_initialized;
             if negb init then cfail Throw else MAK_extend_size_map lb;; ld_size_map lb
           else cret lg);
    let l := FlGlobal k lg in
    f <- ld_fl l;
    (match fl f with
     | Some _ => cret tt
     | None =>
         upd_fl l (fl_array (Some (replicate (Z.to_nat (MAK_fl_max_count lg)) 0)));;
         r <- cgets (fun s => MAK_reclaim_list s !! Z.to_nat k);
         match r with Some (Some _) => cret tt | Some None => MAK_alloc_reclaim_list k | None => cfail UB_access end
     end);;
    op <- MAK_allocobj fuel lg k;
    if op =? 0 then cret op
    else upd_fl l (fun f => fl_count (count f - 1) f);; cret op
  else
    let lg := ROUNDED_UP_GRANULES lb in
    let lb_rounded := GRANULES_TO_BYTES lg in
    MAK_alloc_large fuel lb_rounded k 0.

Definition MAK_core_malloc (fuel : nat) (lb : Z) : stM makalu Z :=
  if SMALL_OBJ lb then
    lg <- ld_size_map lb;
    let l := FlGlobal NORMAL lg in
    f <- ld_fl l;
    if count f =? 0 then MAK_generic_malloc fuel lb NORMAL
    else
      let new_count := count f - 1 in
      idx <- cmodulo (start_idx f + new_count) (MAK_fl_max_count lg);
      result <- ld_fl_at l idx;
      upd_fl l (fl_count new_count);;
      cret result
  else MAK_generic_malloc fuel lb NORMAL.

Definition MAK_core_free (fuel : nat) (p hhdr knd sz ngranules : Z) : stM makalu unit :=
  x <- get_hdr hhdr;
  let h := hb_block x in
  if ngranules <=? MAXOBJGRANULES then
    let l := FlGlobal knd ngranules in
    f <- ld_fl l;
    let max_count := MAK_fl_max_count ngranules in
    idx <- cmodulo (start_idx f + count f) max_count;
    st_fl_at l idx p;;
    upd_fl l (fl_count (count f + 1));;
    MAK_update_hc HcGlobal h hhdr;;
    if max_count <=? u64 (count f + 1) then MAK_truncate_freelist fuel HcGlobal l ngranules knd (MAK_fl_optimal_count ngranules) max_count
    else cret tt
  else on_blk (MAK_freehblk fuel h).

(** ** Allocation from the arrays of the thread *)

(** The block at the head of a reclaim list is taken: its free objects go to the array. *)
Definition malloc_many_reclaim (lb k lg : Z) (l : fl_loc) (c : hc_loc) (hbp : Z) : stM makalu unit :=
  hhdr <- MAK_get_hdr_and_update_hc c hbp;
  x <- get_hdr hhdr;
  let n_hb := hb_next x in
  st_rl k lg n_hb;;
  (if n_hb =? 0 then cret tt else n_hhdr <- MAK_get_hdr_and_update_hc c n_hb; put_hdr n_hhdr (hdr_prev 0));;
  x <- get_hdr hhdr;
  let marks := hb_marks x in
  put_hdr hhdr all_in_use;;
  put_hdr hhdr (hdr_next 0);;
  n <- MAK_build_fl_array_from_mark_bits l hbp marks lb;
  upd_fl l (fl_count n).

(** Objects of the array of the process are copied to the array of the thread. *)
Definition malloc_many_copy (lb k lg g_count : Z) (l : fl_loc) : stM makalu unit :=
  let gl := FlGlobal k lg in
  g <- ld_fl gl;
  let max_objs := HBLKSZ / lb in
  let n_objs := if max_objs <? g_count then max_objs else g_count in
  cfor (seqZ 0 n_objs) (fun i =>
    idx <- cmodulo (start_idx g + i) (MAK_fl_max_count lg);
    p <- ld_fl_at gl idx;
    st_fl_at l i p);;
  upd_fl gl (fl_count (g_count - n_objs));;
  upd_fl l (fl_count n_objs).

Definition malloc_many_block (fuel : nat) (lb k : Z) (l : fl_loc) (c : hc_loc) : stM makalu unit :=
  h <- on_blk (MAK_allochblk fuel lb k 0);
  h <- (if h =? 0 then
          ok <- on_blk (MAK_try_expand_hp fuel 1 false);
          if ok : bool then h <- on_blk (MAK_allochblk fuel lb k 0); if h =? 0 then cfail Throw else cret h
          else cret 0
        else cret h);
  if h =? 0 then cret tt
  else n <- MAK_build_array_fl c l h (BYTES_TO_WORDS lb); upd_fl l (fl_count n).

Definition MAK_generic_malloc_many (fuel : nat) (lb k : Z) (l : fl_loc) (c : hc_loc) : stM makalu unit :=
  let lg := BYTES_TO_GRANULES lb in
  hbp <- ld_rl k lg;
  if negb (hbp =? 0) then malloc_many_reclaim lb k lg l c hbp
  else
    g <- ld_fl (FlGlobal k lg);
    if 0 <? count g then malloc_many_copy lb k lg (count g) l
    else malloc_many_block fuel lb k l c.

Definition MAK_malloc (fuel : nat) (bytes : Z) : stM makalu Z :=
  let granules := ROUNDED_UP_GRANULES bytes in
  t <- cgets my_tlfs;
  match t with
  | None => MAK_core_malloc fuel bytes
  | Some _ =>
      init <- cgets MAK_is_initialized;
      if negb init then cfail Throw
      else if TINY_FREELISTS <=? granules then MAK_core_malloc fuel bytes
      else
        let l := FlLocal NORMAL granules in
        f <- ld_fl l;
        (if count f <=? 0 then
           MAK_generic_malloc_many fuel (if granules =? 0 then GRANULE_BYTES else granules * GRANULE_BYTES) NORMAL l HcLocal;;
           upd_fl l (fl_start 0)
         else cret tt);;
        f' <- ld_fl l;
        if (count f <=? 0) && (count f' =? 0) then cret 0
        else
          let new_count := count f' - 1 in
          idx <- cmodulo (start_idx f' + new_count) (tlfs_max_count granules);
          result <- ld_fl_at l idx;
          upd_fl l (fl_count new_count);;
          cret result
  end.

Definition MAK_free (fuel : nat) (p : Z) : stM makalu unit :=
  t <- cgets my_tlfs;
  init <- cgets MAK_is_initialized;
  if negb init then cfail Throw
  else if p =? 0 then cret tt
  else
    '(r, hhdr) <- MAK_hc_base_with_hdr fuel HcLocal p;
    if r =? 0 then cret tt
    else
      x <- get_hdr hhdr;
      let sz := hb_sz x in
      let knd := hb_obj_kind x in
      let granules := BYTES_TO_GRANULES sz in
      if (TINY_FREELISTS <=? granules) || match t with None => true | Some _ => false end then MAK_core_free fuel r hhdr knd sz granules
      else if negb ((knd =? NORMAL) || (knd =? PTRFREE)) then MAK_core_free fuel r hhdr knd sz granules
      else
        let l := FlLocal knd granules in
        f <- ld_fl l;
        idx <- cmodulo (start_idx f + count f) (tlfs_max_count granules);
        st_fl_at l idx p;;
        upd_fl l (fl_count (count f + 1));;
        if tlfs_max_count granules <=? u64 (count f + 1) then
          never <- cgets never_allocates;
          let keep := if never : bool then 0 else tlfs_optimal_count granules in
          MAK_truncate_fast_fl fuel HcLocal l granules knd keep (tlfs_max_count granules)
        else cret tt.

Definition MAK_declare_never_allocate (flag : Z) : stM makalu unit := cmod (set_never_allocates (negb (flag =? 0))).

Definition MAK_get_size (fuel : nat) (p : Z) : stM makalu Z :=
  init <- cgets MAK_is_initialized;
  if negb init then cfail Throw
  else if p =? 0 then cret 0
  else
    '(r, hhdr) <- MAK_hc_base_with_hdr fuel HcLocal p;
    if r =? 0 then cret 0 else x <- get_hdr hhdr; cret (hb_sz x).

(** ** Threads *)

(** What [alloc_tlfs] returns for a new thread: arrays of the sizes of [MAK_init_thread_local]. *)
Definition new_array (g : Z) : fl_hdr := mkFl (Some (replicate (Z.to_nat (tlfs_max_count g)) 0)) 0 0.
Definition new_tlfs : thread_local_freelists := mkTlfs (new_array <$> seqZ 0 TINY_FREELISTS) (new_array <$> seqZ 0 TINY_FREELISTS) hc_zero.

Definition alloc_tlfs : stM makalu thread_local_freelists := fun s =>
  match tlfs_fl s with
  | t :: ts => Ok (t, set_tlfs_fl ts s)
  | [] => Ok (new_tlfs, s)
  end.

(** The arrays keep their places behind the structure, and the one for no granules has none. *)
Definition start_lists (fs : list fl_hdr) : list fl_hdr :=
  imap (fun i f => if (i =? 0)%nat then mkFl None (start_idx f) (- tlfs_optimal_count 1) else fl_count 0 f) fs.

Definition MAK_set_my_thread_local : stM makalu unit :=
  t <- alloc_tlfs;
  cmod (set_tlfs (Some (mkTlfs (start_lists (ptrfree_freelists t)) (start_lists (normal_freelists t)) (hc t)))).

Definition return_freelists (fuel : nat) (k : Z) : stM makalu unit :=
  cfor (seqZ 1 (TINY_FREELISTS - 1)) (fun i =>
    f <- ld_fl (FlLocal k i);
    if 0 <? count f then MAK_truncate_fast_fl fuel HcLocal (FlLocal k i) i k 0 (tlfs_max_count i) else cret tt);;
  f <- ld_fl (FlLocal k 0);
  if 0 <? count f then MAK_truncate_fast_fl fuel HcLocal (FlLocal k 0) 1 k 0 (tlfs_max_count 1) else cret tt.

Definition MAK_teardown_thread_local (fuel : nat) : stM makalu unit :=
  return_freelists fuel PTRFREE;;
  return_freelists fuel NORMAL;;
  t <- cgets my_tlfs;
  match t with
  | None => cfail UB_access
  | Some t => cmod (fun s => set_tlfs_fl (tl_hc hc_zero t :: tlfs_fl s) (set_tlfs None s))
  end.

End objects.
