(* ===== verification/MakPool.v ===== *)
(** * Makalu: mark bits and the objects of a block

    A block of objects of [g] granules has a bit for each granule; the bits of the granules at
    which objects start say which of them are in use. *)

From S2P Require Import Prelude MakHdr MakBlock MakObj MakLib MakIndex MakHeap MakOwn.
From stdpp Require Import sorting.
#[local] Open Scope Z_scope.
#[local] Open Scope cmd_scope.

(** ** Bits *)

Definition mbit (m : list Z) (b : Z) : bool := Z.testbit (default 0 (m !! Z.to_nat (b / 64))) (b mod 64).

Lemma word_of_bit n : 0 <= n -> Z.shiftr n 6 = n / 64 /\ Z.land n 63 = n mod 64.
Proof. intros Hn. split; [by rewrite Z.shiftr_div_pow2|]. change 63 with (Z.ones 6). by rewrite Z.land_ones. Qed.

Lemma mark_bit_eq m n : 0 <= n -> mark_bit m n = Z.b2z (mbit m n).
Proof.
  intros Hn. unfold mark_bit, mbit. destruct (word_of_bit n Hn) as [-> ->]. set (w := default 0 _). pose proof (Z.mod_pos_bound n 64 ltac:(done)) as Hm.
  change 1 with (Z.ones 1). rewrite Z.land_ones by lia. change (2 ^ 1) with 2. rewrite <- Z.bit0_mod. by rewrite Z.shiftr_spec, Z.add_0_l by lia.
Qed.

Lemma mark_bit_zero m n : 0 <= n -> (mark_bit m n =? 0) = negb (mbit m n).
Proof. intros Hn. rewrite mark_bit_eq by done. by destruct (mbit m n). Qed.

(** A change of one word. *)
Lemma mbit_alter m f n n' : 0 <= n < 64 * Z.of_nat (length m) -> 0 <= n' -> mbit (alter f (Z.to_nat (n / 64)) m) n' =
  if decide (n / 64 = n' / 64) then Z.testbit (f (default 0 (m !! Z.to_nat (n' / 64)))) (n' mod 64) else mbit m n'.
Proof.
  intros Hn Hn'. unfold mbit. pose proof (Z.div_pos n 64 ltac:(lia) ltac:(done)). pose proof (Z.div_pos n' 64 ltac:(lia) ltac:(done)).
  case_decide as He.
  - rewrite He. rewrite list_lookup_alter_eq. destruct (m !! Z.to_nat (n' / 64)) as [w|] eqn:Ew; [done|]. apply lookup_ge_None in Ew.
    pose proof (Z.div_lt_upper_bound n 64 (Z.of_nat (length m)) ltac:(done) ltac:(lia)). lia.
  - rewrite list_lookup_alter_ne; [done|]. lia.
Qed.

Lemma same_bit n n' : 0 <= n -> 0 <= n' -> n / 64 = n' / 64 -> n mod 64 = n' mod 64 <-> n = n'.
Proof. intros Hn Hn' Hd. pose proof (Z.div_mod n 64 ltac:(done)). pose proof (Z.div_mod n' 64 ltac:(done)). split; [lia|by intros ->]. Qed.

Lemma mbit_set m n n' : 0 <= n < 64 * Z.of_nat (length m) -> 0 <= n' -> mbit (set_mark_bit m n) n' = bool_decide (n = n') || mbit m n'.
Proof.
  intros Hn Hn'. unfold set_mark_bit. destruct (word_of_bit n ltac:(lia)) as [-> ->]. rewrite mbit_alter by done. pose proof (Z.mod_pos_bound n 64 ltac:(done)). pose proof (Z.mod_pos_bound n' 64 ltac:(done)).
  case_decide as He.
  - rewrite Z.lor_spec, (orb_comm _ (Z.testbit _ _)). f_equal. rewrite Z.shiftl_1_l, Z.pow2_bits_eqb by lia. pose proof (same_bit n n' ltac:(lia) Hn' He).
    destruct (Z.eqb_spec (n mod 64) (n' mod 64)); symmetry; [apply bool_decide_true; tauto|apply bool_decide_false; tauto].
  - rewrite bool_decide_false; [done|]. congruence.
Qed.

Lemma testbit_not64 w i : 0 <= i < 64 -> Z.testbit (not64 w) i = negb (Z.testbit w i).
Proof. intros Hi. unfold not64, u64. rewrite Z.mod_pow2_bits_low by lia. apply Z.lnot_spec. lia. Qed.

Lemma mbit_clear m n n' : 0 <= n < 64 * Z.of_nat (length m) -> 0 <= n' -> mbit (clear_mark_bit m n) n' = negb (bool_decide (n = n')) && mbit m n'.
Proof.
  intros Hn Hn'. unfold clear_mark_bit. destruct (word_of_bit n ltac:(lia)) as [-> ->]. rewrite mbit_alter by done. pose proof (Z.mod_pos_bound n 64 ltac:(done)). pose proof (Z.mod_pos_bound n' 64 ltac:(done)).
  case_decide as He.
  - rewrite Z.land_spec, (andb_comm _ (Z.testbit _ _)). f_equal. rewrite testbit_not64 by lia. f_equal. rewrite Z.shiftl_1_l, Z.pow2_bits_eqb by lia. pose proof (same_bit n n' ltac:(lia) Hn' He).
    destruct (Z.eqb_spec (n mod 64) (n' mod 64)); symmetry; [apply bool_decide_true; tauto|apply bool_decide_false; tauto].
  - rewrite bool_decide_false; [done|]. congruence.
Qed.

Lemma mbit_minus m e n : length e = length m -> 0 <= n -> mbit (zip_with (fun w v => Z.land w (not64 v)) m e) n = mbit m n && negb (mbit e n).
Proof.
  intros Hl Hn. unfold mbit. pose proof (Z.mod_pos_bound n 64 ltac:(done)). rewrite lookup_zip_with. destruct (m !! Z.to_nat (n / 64)) as [w|] eqn:Ew; cbn.
  - destruct (e !! Z.to_nat (n / 64)) as [v|] eqn:Ev; cbn.
    + by rewrite Z.land_spec, testbit_not64 by lia.
    + apply lookup_lt_Some in Ew. apply lookup_ge_None in Ev. lia.
  - by rewrite Z.bits_0.
Qed.

Lemma mbit_all n : 0 <= n < 320 -> mbit ALL_MARKED n = true.
Proof.
  intros Hn. unfold mbit, ALL_MARKED. pose proof (Z.mod_pos_bound n 64 ltac:(done)). pose proof (Z.div_pos n 64 ltac:(lia) ltac:(done)).
  pose proof (Z.div_lt_upper_bound n 64 5 ltac:(done) ltac:(lia)). rewrite lookup_replicate_2 by lia. cbn [default from_option id]. unfold ONES. change (2 ^ 64 - 1) with (Z.ones 64).
  rewrite Z.ones_spec_low; [done|lia].
Qed.

Lemma mbit_none n : mbit (replicate 5 0) n = false.
Proof. unfold mbit. destruct (replicate 5 0 !! _) as [w|] eqn:Ew; cbn; [|apply Z.bits_0]. apply lookup_replicate in Ew as [-> _]. apply Z.bits_0. Qed.

(** ** Objects *)

(** How many objects of [g] granules a block has. *)
Definition objs (g : Z) : Z := HBLK_OBJS (16 * g).

Lemma objs_spec g : 1 <= g <= 128 -> 2 <= objs g <= 256 /\ objs g * (16 * g) <= HBLKSZ < objs g * (16 * g) + 16 * g.
Proof.
  intros Hg. unfold objs, HBLK_OBJS, HBLKSZ. pose proof (Z.div_mod 4096 (16 * g) ltac:(lia)). pose proof (Z.mod_pos_bound 4096 (16 * g) ltac:(lia)).
  split; [|lia]. split; [apply Z.div_le_lower_bound; lia|]. apply Z.div_le_upper_bound; lia.
Qed.

Lemma obj_bit g j : 1 <= g <= 128 -> 0 <= j < objs g -> 0 <= j * g < 256.
Proof. intros Hg Hj. destruct (objs_spec g Hg) as [_ Ho]. unfold HBLKSZ in Ho. nia. Qed.

(** The objects that are marked. *)
Definition mset (m : list Z) (g : Z) : gset Z := filter (fun j => mbit m (j * g) = true) (list_to_set (seqZ 0 (objs g))).

Lemma elem_mset m g j : j ∈ mset m g <-> 0 <= j < objs g /\ mbit m (j * g) = true.
Proof. unfold mset. rewrite elem_of_filter, elem_of_list_to_set, elem_of_seqZ, Z.add_0_l. tauto. Qed.

Lemma mset_ext m m' g : (forall j, 0 <= j < objs g -> mbit m (j * g) = mbit m' (j * g)) -> mset m g = mset m' g.
Proof. intros He. apply leibniz_equiv. intros j. rewrite !elem_mset. split; intros [Hj Hb]; (split; [done|]); [rewrite <- He by done|rewrite He by done]; done. Qed.

Lemma mset_all g : 1 <= g <= 128 -> mset ALL_MARKED g = list_to_set (seqZ 0 (objs g)).
Proof.
  intros Hg. apply leibniz_equiv. intros j. rewrite elem_mset, elem_of_list_to_set, elem_of_seqZ. split; [lia|]. intros Hj. split; [lia|]. apply mbit_all.
  pose proof (obj_bit g j Hg ltac:(lia)). lia.
Qed.

Lemma size_all g : 1 <= g <= 128 -> Z.of_nat (size (mset ALL_MARKED g)) = objs g.
Proof. intros Hg. rewrite mset_all by done. rewrite size_list_to_set by apply NoDup_seqZ. rewrite length_seqZ. pose proof (objs_spec g Hg). lia. Qed.

Lemma diff_twice (X Y : gset Z) : X ⊆ Y -> Y ∖ (Y ∖ X) = X.
Proof. intros Hs. apply leibniz_equiv. intros j. destruct (decide (j ∈ X)); set_solver. Qed.

Lemma mset_none g : mset (replicate 5 0) g = ∅.
Proof. apply leibniz_equiv. intros j. rewrite elem_mset, mbit_none. set_solver. Qed.

Lemma mset_size m g : 1 <= g <= 128 -> Z.of_nat (size (mset m g)) <= objs g.
Proof.
  intros Hg. rewrite <- size_all by done. apply inj_le, subseteq_size. rewrite mset_all by done. intros j [Hj _]%elem_mset. apply elem_of_list_to_set, elem_of_seqZ. lia.
Qed.

Lemma mset_clear m g j : length m = 5%nat -> 1 <= g <= 128 -> 0 <= j < objs g -> mset (clear_mark_bit m (j * g)) g = mset m g ∖ {[j]}.
Proof.
  intros Hl Hg Hj. pose proof (obj_bit g j Hg Hj). apply leibniz_equiv. intros i. rewrite elem_of_difference, not_elem_of_singleton, !elem_mset.
  split; [intros [Hi Hb]|intros [[Hi Hb] Hne]; split; [done|]]; pose proof (obj_bit g i Hg Hi); rewrite mbit_clear in * by lia.
  - apply andb_true_iff in Hb as [Hb ->]. split; [done|]. intros ->. rewrite bool_decide_true in Hb; done.
  - rewrite Hb, bool_decide_false; [done|]. nia.
Qed.

Lemma mset_minus m e g : length m = 5%nat -> length e = 5%nat -> 1 <= g <= 128 -> mset (zip_with (fun w v => Z.land w (not64 v)) m e) g = mset m g ∖ mset e g.
Proof.
  intros Hm He Hg. apply leibniz_equiv. intros i. rewrite elem_of_difference, !elem_mset. split.
  - intros [Hi Hb]. pose proof (obj_bit g i Hg Hi). rewrite mbit_minus in Hb by lia. apply andb_true_iff in Hb as [-> Hb]. split; [done|]. intros [_ Hc]. by rewrite Hc in Hb.
  - intros [[Hi Hb] Hn]. pose proof (obj_bit g i Hg Hi). split; [done|]. rewrite mbit_minus, Hb by lia. destruct (mbit e (i * g)) eqn:E; [|done]. by destruct Hn.
Qed.

Lemma mset_set m g j : length m = 5%nat -> 1 <= g <= 128 -> 0 <= j < objs g -> mset (set_mark_bit m (j * g)) g = mset m g ∪ {[j]}.
Proof.
  intros Hl Hg Hj. pose proof (obj_bit g j Hg Hj). apply leibniz_equiv. intros i. rewrite elem_of_union, elem_of_singleton, !elem_mset.
  split; [intros [Hi Hb]|intros [[Hi Hb]| ->]; (split; [done|])].
  - pose proof (obj_bit g i Hg Hi). rewrite mbit_set in Hb by lia. apply orb_true_iff in Hb as [Hb|Hb]; [right|by left]. apply bool_decide_eq_true in Hb. nia.
  - pose proof (obj_bit g i Hg Hi). rewrite mbit_set, Hb by lia. apply orb_true_r.
  - rewrite mbit_set by lia. by rewrite bool_decide_true.
Qed.

(** The threshold below which a block is worth reclaiming. *)
Definition thr (g : Z) : Z := BLOCK_NEARLY_FULL_THRESHOLD (16 * g).

Lemma thr_spec g : 1 <= g <= 128 -> 1 <= thr g < objs g.
Proof.
  intros Hg. unfold thr, BLOCK_NEARLY_FULL_THRESHOLD. fold (objs g). destruct (objs_spec g Hg) as [Ho _].
  pose proof (Z.div_le_lower_bound (7 * objs g) 8 1 ltac:(done) ltac:(lia)). pose proof (Z.div_lt_upper_bound (7 * objs g) 8 (objs g) ltac:(done) ltac:(lia)). lia.
Qed.

(** ** Makalu: blocks of objects

    Steps on the headers of allocated blocks, over any block heap ([BlockHeap]): the header cache,
    the lists of blocks to reclaim, and what the headers say about objects. *)

(** ** Headers of runs *)

(** The contents and the address of the header of the run at a block. *)
Definition dat (A : gmap Z arun) (n : Z) : hdr := match A !! n with Some r => ar_data r | None => hdr_zero end.

(** A change of the header of a run. *)
Definition upd_run (f : hdr -> hdr) (n : Z) (A : gmap Z arun) : gmap Z arun := alter (fun r => ar_set (f (ar_data r)) r) n A.

Lemma upd_run_eq f n A r : A !! n = Some r -> upd_run f n A = <[n := ar_set (f (ar_data r)) r]> A.
Proof. intros Hn. apply map_eq. intros m. unfold upd_run. destruct (decide (m = n)) as [->|Hne]; [by rewrite lookup_alter_eq, lookup_insert_eq, Hn|by rewrite lookup_alter_ne, lookup_insert_ne]. Qed.

Lemma lookup_upd_run f n A r : A !! n = Some r -> upd_run f n A !! n = Some (ar_set (f (ar_data r)) r).
Proof. intros Hn. unfold upd_run. by rewrite lookup_alter_eq, Hn. Qed.

Lemma lookup_upd_run_ne f n A m : m <> n -> upd_run f n A !! m = A !! m.
Proof. intros Hne. unfold upd_run. by rewrite lookup_alter_ne. Qed.

(** ** Lists of blocks to reclaim *)

Definition rnx (A : gmap Z arun) (a : Z) : Z := hb_next (dat A (bno a)).
Definition rpv (A : gmap Z arun) (a : Z) : Z := hb_prev (dat A (bno a)).

Lemma rnx_at A n : rnx A (n * HBLKSZ) = hb_next (dat A n).
Proof. unfold rnx. by rewrite bno_addr. Qed.
Lemma rpv_at A n : rpv A (n * HBLKSZ) = hb_prev (dat A n).
Proof. unfold rpv. by rewrite bno_addr. Qed.

(** The block is marked as a member of the list for [g] granules. *)
Definition in_rl (A : gmap Z arun) (g n : Z) : Prop := exists r, A !! n = Some r /\ hb_sz (ar_data r) = 16 * g /\ page_reclaim_state (ar_data r) = IN_RECLAIMLIST.

Definition rl_list (A : gmap Z arun) (X : gset Z) (g b : Z) (L : list Z) : Prop :=
  dls (rnx A) (rpv A) 0 b L 0 /\ NoDup L /\ forall a, a ∈ L <-> exists n, a = n * HBLKSZ /\ in_rl A g n /\ n ∉ X.

(** The lists, but for the blocks that an operation is working on. *)
Definition rl_ok (A : gmap Z arun) (t : list Z) (X : gset Z) : Prop :=
  forall g, 1 <= g <= 128 -> exists b L, t !! Z.to_nat g = Some b /\ rl_list A X g b L.

(** What the lists depend on. *)
Definition rl_view (r : arun) : Z * Z * Z * Z := (hb_sz (ar_data r), page_reclaim_state (ar_data r), hb_next (ar_data r), hb_prev (ar_data r)).

Lemma in_rl_view A A' g n : rl_view <$> A' !! n = rl_view <$> A !! n -> in_rl A g n -> in_rl A' g n.
Proof. intros Hv (r & Hr & Hs & Hp). rewrite Hr in Hv. destruct (A' !! n) as [r'|] eqn:E; [|done]. cbn in Hv. injection Hv as H1 H2 _ _. exists r'. rewrite H1, H2. done. Qed.

Lemma rl_list_ext A A' X g b L : (forall n, n ∉ X -> rl_view <$> A' !! n = rl_view <$> A !! n) -> rl_list A X g b L -> rl_list A' X g b L.
Proof.
  intros Hv (Hd & Hnd & Hm). split; [|split; [done|]].
  - eapply dls_ext; [|exact Hd]. intros a Ha. apply Hm in Ha as (n & -> & (r & Hr & _) & Hx). specialize (Hv n Hx). unfold rnx, rpv, dat. rewrite bno_addr. rewrite Hr in Hv |- *.
    destruct (A' !! n) as [r'|]; [|done]. cbn in Hv. injection Hv as _ _ H1 H2. done.
  - intros a. rewrite Hm. split; intros (n & -> & Hi & Hx); exists n; (split; [done|]); (split; [|done]); (eapply in_rl_view; [|exact Hi]); [by apply Hv|by symmetry; apply Hv].
Qed.

Lemma rl_ext A A' t X : (forall n, n ∉ X -> rl_view <$> A' !! n = rl_view <$> A !! n) -> rl_ok A t X -> rl_ok A' t X.
Proof. intros Hv Hr g Hg. destruct (Hr g Hg) as (b & L & Hb & HL). exists b, L. split; [done|]. by eapply rl_list_ext. Qed.

Lemma rl_except A t X X' : (forall n g, 1 <= g <= 128 -> in_rl A g n -> (n ∈ X <-> n ∈ X')) -> rl_ok A t X -> rl_ok A t X'.
Proof.
  intros Hx Hr g Hg. destruct (Hr g Hg) as (b & L & Hb & Hd & Hnd & Hm). exists b, L. split; [done|]. split; [done|]. split; [done|].
  intros a. rewrite Hm. split; intros (n & -> & Hi & Hn); exists n; (split; [done|]); (split; [done|]); specialize (Hx n g Hg Hi); tauto.
Qed.

(** ** Objects *)

(** What the header of a run that holds objects says. *)
Definition run_ok (x : hdr) : Prop :=
  hb_obj_kind x = NORMAL /\ (MAXOBJBYTES < hb_sz x \/ exists g, 1 <= g <= 128 /\ hb_sz x = 16 * g /\ length (hb_marks x) = 5%nat /\
    hb_n_marks x = Z.of_nat (size (mset (hb_marks x) g)) /\ 0 < hb_n_marks x /\
    (page_reclaim_state x = IN_RECLAIMLIST /\ hb_n_marks x <= thr g \/ page_reclaim_state x = IN_FLOATING /\ thr g < hb_n_marks x)).

(** An object that is in use or in an array: its address and its size. *)
Definition is_obj (A : gmap Z arun) (p z : Z) : Prop :=
  exists r, A !! bno p = Some r /\ hb_sz (ar_data r) = z /\
    (MAXOBJBYTES < z /\ p = bno p * HBLKSZ \/ exists g j, 1 <= g <= 128 /\ z = 16 * g /\ j ∈ mset (hb_marks (ar_data r)) g /\ p = bno p * HBLKSZ + j * z).

Definition runs_ok (A : gmap Z arun) (Y : gset Z) : Prop := forall n r, A !! n = Some r -> n ∉ Y -> run_ok (ar_data r).
Definition objs_are (A : gmap Z arun) (O : gmap Z Z) : Prop := forall p z, is_obj A p z <-> O !! p = Some z.

Record pool_ok (A : gmap Z arun) (t : list Z) (O : gmap Z Z) : Prop := {
  po_runs : runs_ok A ∅;
  po_rl : rl_ok A t ∅;
  po_objs : objs_are A O }.

(** ** Steps *)

(** Everything but the block heap, the lists and the caches stays. *)
Definition same (s s' : makalu) : Prop :=
  (forall l, fl_table l s' = fl_table l s) /\ MAK_size_map s' = MAK_size_map s /\ MAK_is_initialized s' = MAK_is_initialized s /\ never_allocates s' = never_allocates s.

Lemma same_refl s : same s s.
Proof. done. Qed.

Lemma same_trans s1 s2 s3 : same s1 s2 -> same s2 s3 -> same s1 s3.
Proof. intros (H1 & H2 & H3 & H4) (H5 & H6 & H7 & H8). split; [intros l; by rewrite H5, H1|]. by rewrite H6, H7, H8. Qed.

Lemma same_blk b s : same s (set_blk b s).
Proof. done. Qed.

#[export] Hint Resolve same_refl same_blk same_trans : core.

Lemma shift_block p : Z.shiftr p LOG_HBLKSIZE = bno p /\ HBLKDISPL p = p mod HBLKSZ.
Proof. unfold bno, HBLKDISPL, HBLKSZ, LOG_HBLKSIZE. split; [by rewrite Z.shiftr_div_pow2|]. change (4096 - 1) with (Z.ones 12). by rewrite Z.land_ones. Qed.

Lemma block_start p : 0 <= p < 2 ^ 64 -> HBLKPTR p = bno p * HBLKSZ.
Proof. intros Hp. by apply (land_not64 p 12). Qed.

Section steps.
Context `{!PersistentMem} {own : heap -> gmap Z arun -> gset Z -> Prop} `{!BlockHeap own} {LIM : Z} `{!MemLimit LIM}.

(** A cache entry is unused or has a header. *)
Definition hc_ok (s : makalu) (c : hc_loc) : Prop :=
  exists t, hc_table c s = Some t /\ length t = 8%nat /\ forall e, e ∈ t -> block_addr e = 0 \/ is_Some (hdrs (blk s) !! hce_hdr e).

Record based (s : makalu) (A : gmap Z arun) (F : gset Z) (t : list Z) : Prop := {
  ba_own : own (blk s) A F;
  ba_lim : limited LIM (blk s);
  ba_hc : forall c, hc_ok s c;
  ba_rl : MAK_reclaim_list s !! 1%nat = Some (Some t);
  ba_len : length t = 129%nat }.

Lemma hc_later s b : (forall c, hc_ok s c) -> later (blk s) b -> forall c, hc_ok (set_blk b s) c.
Proof.
  intros Hc [Hd _] c. destruct (Hc c) as (t & Ht & Hl & He). exists t. split; [by destruct c|]. split; [done|]. intros e Hin. destruct (He e Hin) as [|Hs]; [by left|right].
  apply elem_of_dom. apply Hd. by apply elem_of_dom.
Qed.

Lemma based_blk s A F t b A' F' : based s A F t -> own b A' F' -> later (blk s) b -> based (set_blk b s) A' F' t.
Proof. intros [H1 H2 H3 H4 H5] Ho Hl. split; [done|by eapply limited_later|by apply hc_later|done|done]. Qed.

(** The fuel bounds the blocks of the heap. *)
Lemma based_fuel s A F t fuel : based s A F t -> (Z.to_nat LIM < fuel)%nat -> (size (heap_blocks (view A F)) < fuel)%nat.
Proof.
  intros B Hf. eapply limited_fuel; [|exact Hf]. eapply limited_blocks; [exact (ba_lim _ _ _ _ B)|]. intros m. apply (bh_inside _ _ _ m (ba_own _ _ _ _ B)).
Qed.

Lemma wp_on_blk {B} T (m : stM heap B) s (Q : B -> makalu -> Prop) : wp T m (blk s) (fun a b => Q a (set_blk b s)) -> wp T (on_blk m) s Q.
Proof. unfold wp, on_blk. by destruct (m (blk s)) as [[a b]|e]. Qed.

Section one.
Context {s : makalu} {A : gmap Z arun} {F : gset Z} {t : list Z} (B : based s A F t).

Lemma wp_get T n r (Q : hdr -> makalu -> Prop) : A !! n = Some r -> Q (ar_data r) s -> wp T (get_hdr (ar_hdr r)) s Q.
Proof.
  intros Hn HQ. destruct (bh_hdr _ _ _ _ _ (ba_own _ _ _ _ B) Hn) as (Hx & _). apply wp_on_blk. unfold wp, ld_hdr. rewrite Hx. by destruct s.
Qed.

Lemma wp_put T n r f (Q : unit -> makalu -> Prop) : A !! n = Some r -> own_change f ->
  (forall s', based s' (upd_run f n A) F t -> same s s' -> Q tt s') -> wp T (put_hdr (ar_hdr r) f) s Q.
Proof.
  intros Hn Hf HQ. apply wp_on_blk. eapply bh_put; [exact (ba_own _ _ _ _ B)|done|done|]. intros b Hb Hl. apply HQ; [|done].
  rewrite (upd_run_eq f n A r Hn). by eapply based_blk.
Qed.

Lemma wp_ld_rl T g b (Q : Z -> makalu -> Prop) : t !! Z.to_nat g = Some b -> Q b s -> wp T (ld_rl 1 g) s Q.
Proof. intros Hb HQ. unfold wp, ld_rl. change (Z.to_nat 1) with 1%nat. by rewrite (ba_rl _ _ _ _ B), Hb. Qed.

Lemma wp_st_rl T g h (Q : unit -> makalu -> Prop) : 0 <= g <= 128 -> (forall s', based s' A F (<[Z.to_nat g := h]> t) -> same s s' -> Q tt s') -> wp T (st_rl 1 g h) s Q.
Proof.
  intros Hg HQ. unfold wp, st_rl. change (Z.to_nat 1) with 1%nat. rewrite (ba_rl _ _ _ _ B). pose proof (ba_len _ _ _ _ B) as Hl.
  destruct (Z.leb_spec 0 g) as [_|Hx]; [|lia]. destruct (Z.ltb_spec g (Z.of_nat (length t))) as [_|Hx]; [|lia]. cbn [andb]. apply HQ; [|done]. destruct B as [H1 H2 H3 H4 H5]. split; [done|done| | |by rewrite length_insert].
  - intros c. destruct (H3 c) as (u & Hu & ?). exists u. split; [by destruct c|done].
  - cbn. apply list_lookup_insert_eq. by apply lookup_lt_Some in H4.
Qed.

(** ** The header cache *)

Lemma hce_range p : 0 <= HCE p < 8.
Proof. unfold HCE, HDR_CACHE_SIZE. change (8 - 1) with (Z.ones 3). rewrite Z.land_ones by lia. apply Z.mod_pos_bound. lia. Qed.

Lemma wp_st_hce T c i e (Q : unit -> makalu -> Prop) : is_Some (hdrs (blk s) !! hce_hdr e) ->
  (forall s', based s' A F t -> same s s' -> Q tt s') -> wp T (st_hce c i e) s Q.
Proof.
  intros He HQ. assert (Hu : forall u : list hdr_cache_entry, (forall e, e ∈ u -> block_addr e = 0 \/ is_Some (hdrs (blk s) !! hce_hdr e)) ->
    forall e', e' ∈ <[Z.to_nat i := e]> u -> block_addr e' = 0 \/ is_Some (hdrs (blk s) !! hce_hdr e')).
  { intros u Hu e' (j & Hj)%list_elem_of_lookup. apply list_lookup_insert_Some in Hj as [(_ & <- & _)|[_ Hj]]; [by right|]. apply Hu. by eapply list_elem_of_lookup_2. }
  destruct B as [H1 H2 H3 H4 H5]. destruct c; cbn [st_hce]; apply wp_mod, HQ; try done.
  - split; try done. intros [].
    + destruct (H3 HcGlobal) as (u & [= <-] & Hl & Hx). exists (<[Z.to_nat i := e]> (MAK_hdr_cache s)). split; [done|]. split; [by rewrite length_insert|by apply Hu].
    + destruct (H3 HcLocal) as (u & Hy & Hl & Hx). exists u. split; [exact Hy|done].
  - split; try done. intros [].
    + destruct (H3 HcGlobal) as (u & Hy & Hl & Hx). exists u. split; [exact Hy|done].
    + destruct (H3 HcLocal) as (u & Hy & Hl & Hx). cbn in Hy |- *. destruct (my_tlfs s) as [tl|]; [|done]. injection Hy as <-. exists (<[Z.to_nat i := e]> (hc tl)). split; [done|]. split; [by rewrite length_insert|by apply Hu].
  - split; [|done]. intros l. destruct l as [k g|k g]; [done|]. cbn. destruct k; [|destruct p|]; try done; by destruct (my_tlfs s).
Qed.

(** A hit: the header is the one of the block. *)
Lemma wp_hit {X} T c p (k : hdr_cache_entry -> bool -> stM makalu X) (Q : X -> makalu -> Prop) : 0 <= p < 2 ^ 64 -> 0 < bno p ->
  (forall e b, (b = true -> exists x, hdrs (blk s) !! hce_hdr e = Some x /\ hb_block x = bno p * HBLKSZ) -> wp T (k e b) s Q) ->
  wp T (e <- ld_hce c (HCE p); b <- hce_hit p e; k e b) s Q.
Proof.
  intros Hp Hn HQ. pose proof (hce_range p) as Hi. destruct (ba_hc _ _ _ _ B c) as (u & Hu & Hl & He). destruct (lookup_lt_is_Some_2 u (Z.to_nat (HCE p)) ltac:(lia)) as [e Hle].
  apply wp_bind. eapply wp_ok; [unfold ld_hce; rewrite Hu; cbn; rewrite Hle; done|]. apply wp_bind. unfold hce_hit. destruct (shift_block p) as [-> _].
  destruct (Z.eqb_spec (block_addr e) (bno p)) as [Hb|_]; [|apply wp_ret, HQ; done].
  destruct (He e (list_elem_of_lookup_2 _ _ _ Hle)) as [H0|[x Hx]]; [lia|]. apply wp_bind. eapply wp_ok; [unfold get_hdr, on_blk, ld_hdr; rewrite Hx; done|].
  apply wp_ret. replace (set_blk (blk s) s) with s by (by destruct s). apply HQ. intros Hh. exists x. split; [done|]. apply Z.eqb_eq in Hh. by rewrite Hh, block_start.
Qed.

Lemma run_addr n r : A !! n = Some r -> 1 < n < 2 ^ 35.
Proof.
  intros Hn. destruct (bh_range _ _ _ _ _ (ba_own _ _ _ _ B) Hn) as (? & ? & _). destruct (bh_hdr _ _ _ _ _ (ba_own _ _ _ _ B) Hn) as (_ & _ & _ & ? & ?). unfold HBLKSZ in *. lia.
Qed.

Lemma addr_range p : 1 < bno p < 2 ^ 35 -> 0 <= p < 2 ^ 64.
Proof. unfold bno, HBLKSZ. intros Hp. pose proof (Z.div_mod p 4096 ltac:(done)). pose proof (Z.mod_pos_bound p 4096 ltac:(done)). lia. Qed.

Lemma wp_HDR_run T n r p (Q : Z -> makalu -> Prop) : A !! n = Some r -> bno p = n -> Q (ar_hdr r) s -> wp T (on_blk (HDR p)) s Q.
Proof. intros Hn Hp HQ. eapply wp_on_blk, wp_ok; [by eapply bh_HDR; [exact (ba_own _ _ _ _ B)|..]|]. by destruct s. Qed.

Lemma wp_cache T c p r (Q : Z -> makalu -> Prop) : A !! bno p = Some r ->
  (forall s', based s' A F t -> same s s' -> Q (ar_hdr r) s') -> wp T (MAK_get_hdr_and_update_hc c p) s Q.
Proof.
  intros Hn HQ. pose proof (run_addr _ _ Hn) as Hr. pose proof (addr_range p Hr) as Hp. apply wp_hit; [done|lia|]. intros e [] Hh.
  - destruct (Hh eq_refl) as (x & Hx & Hb). rewrite (bh_block _ _ _ _ _ _ _ (ba_own _ _ _ _ B) Hx Hb Hn). apply wp_ret, HQ; [exact B|done].
  - apply wp_bind. eapply wp_HDR_run; [exact Hn|done|]. apply wp_bind. eapply wp_get; [exact Hn|]. apply wp_bind, wp_st_hce; [|intros s' Hs Hsm; by apply wp_ret, HQ].
    destruct (bh_hdr _ _ _ _ _ (ba_own _ _ _ _ B) Hn) as (Hx & _). by eexists.
Qed.

End one.

End steps.

Arguments based own LIM s A F t : clear implicits.

(** ** Changes of links *)

Definition ar_core (r : arun) : arun := ar_set (hdr_next 0 (hdr_prev 0 (ar_data r))) r.

(** The same runs but for the links of their headers. *)
Definition lk (A A' : gmap Z arun) : Prop := ar_core <$> A' = ar_core <$> A.

Lemma lk_refl A : lk A A.
Proof. done. Qed.

Lemma lk_trans A1 A2 A3 : lk A1 A2 -> lk A2 A3 -> lk A1 A3.
Proof. unfold lk. congruence. Qed.

Lemma lk_sym A A' : lk A A' -> lk A' A.
Proof. by unfold lk. Qed.

Definition link_change (f : hdr -> hdr) : Prop := (forall x, hdr_next 0 (hdr_prev 0 (f x)) = hdr_next 0 (hdr_prev 0 x)).

Lemma lk_upd A f n : link_change f -> lk A (upd_run f n A).
Proof.
  intros Hf. apply map_eq. intros m. rewrite !lookup_fmap. destruct (decide (m = n)) as [->|Hne]; [|by rewrite lookup_upd_run_ne]. destruct (A !! n) as [r|] eqn:E.
  - rewrite (lookup_upd_run _ _ _ _ E). cbn. unfold ar_core. cbn. by rewrite Hf.
  - unfold upd_run. by rewrite lookup_alter_eq, E.
Qed.

Lemma link_change_own f : link_change f -> own_change f.
Proof. intros Hf x. specialize (Hf x). destruct x, (f _). cbn in *. injection Hf. intros; subst; done. Qed.

Lemma link_next v : link_change (hdr_next v).
Proof. by intros []. Qed.
Lemma link_prev v : link_change (hdr_prev v).
Proof. by intros []. Qed.

(** Fields that are not links. *)
Lemma core_fields r r' : ar_core r' = ar_core r -> ar_len r' = ar_len r /\ ar_hdr r' = ar_hdr r /\ hb_sz (ar_data r') = hb_sz (ar_data r) /\ hb_obj_kind (ar_data r') = hb_obj_kind (ar_data r) /\
  page_reclaim_state (ar_data r') = page_reclaim_state (ar_data r) /\ hb_n_marks (ar_data r') = hb_n_marks (ar_data r) /\ hb_marks (ar_data r') = hb_marks (ar_data r).
Proof. destruct r as [? ? []], r' as [? ? []]. unfold ar_core, ar_set. cbn. intros [=]. subst. done. Qed.

Lemma lk_lookup A A' n r : lk A A' -> A !! n = Some r -> exists r', A' !! n = Some r' /\ ar_core r' = ar_core r.
Proof.
  intros Hl Hn. assert (Hx : (ar_core <$> A') !! n = (ar_core <$> A) !! n) by (by rewrite Hl). rewrite !lookup_fmap, Hn in Hx. destruct (A' !! n) as [r'|]; [|done]. cbn in Hx. apply (inj Some) in Hx. by exists r'.
Qed.

Lemma lk_in_rl A A' g n : lk A A' -> in_rl A g n -> in_rl A' g n.
Proof. intros Hl (r & Hr & Hs & Hp). destruct (lk_lookup _ _ _ _ Hl Hr) as (r' & Hr' & (_ & _ & H1 & _ & H2 & _)%core_fields). exists r'. by rewrite H1, H2. Qed.

Lemma lk_is_obj A A' p z : lk A A' -> is_obj A p z -> is_obj A' p z.
Proof. intros Hl (r & Hr & Hs & Hp). destruct (lk_lookup _ _ _ _ Hl Hr) as (r' & Hr' & (_ & _ & H1 & _ & _ & _ & H2)%core_fields). exists r'. by rewrite H1, H2. Qed.

Lemma lk_objs A A' O : lk A A' -> objs_are A O -> objs_are A' O.
Proof. intros Hl Ho p z. rewrite <- (Ho p z). split; apply lk_is_obj; [by apply lk_sym|done]. Qed.

Lemma run_ok_core r r' : ar_core r' = ar_core r -> run_ok (ar_data r) -> run_ok (ar_data r').
Proof. intros (_ & _ & H1 & H2 & H3 & H4 & H5)%core_fields. unfold run_ok. by rewrite H1, H2, H3, H4, H5. Qed.

Lemma lk_runs A A' Y : lk A A' -> runs_ok A Y -> runs_ok A' Y.
Proof. intros Hl Hr n r' Hn Hy. destruct (lk_lookup _ _ _ _ (lk_sym _ _ Hl) Hn) as (r & Hr' & Hc). eapply run_ok_core; [by symmetry|]. by eapply Hr. Qed.

Lemma dat_upd f n A m : is_Some (A !! n) -> dat (upd_run f n A) m = if decide (m = n) then f (dat A n) else dat A m.
Proof.
  intros [r Hr]. unfold dat. case_decide as He; [subst m; by rewrite (lookup_upd_run _ _ _ _ Hr), Hr|by rewrite lookup_upd_run_ne].
Qed.

Lemma upd_is_Some f n A m : is_Some (upd_run f n A !! m) <-> is_Some (A !! m).
Proof. unfold upd_run. by rewrite lookup_alter_is_Some. Qed.

(** ** Blocks leave and join lists *)

Lemma rl_node A X g b L n : rl_list A X g b L -> (n * HBLKSZ ∈ L <-> in_rl A g n /\ n ∉ X).
Proof. intros (_ & _ & Hm). rewrite Hm. split; [intros (m & He & Hi)|intros Hi; by exists n]. assert (m = n) as -> by (unfold HBLKSZ in He; lia). done. Qed.

Lemma rl_elem A X g b L a : rl_list A X g b L -> a ∈ L -> exists n, a = n * HBLKSZ /\ in_rl A g n /\ n ∉ X.
Proof. intros (_ & _ & Hm). apply Hm. Qed.

Lemma in_rl_inj A g g' n : in_rl A g n -> in_rl A g' n -> g = g'.
Proof. intros (r & Hr & Hs & _) (r' & Hr' & Hs' & _). assert (r' = r) as -> by congruence. lia. Qed.

(** Lists whose nodes keep their links. *)
Lemma rl_other A A' X X' g g' n b b' L L' : rl_list A X g b L -> rl_list A X g' b' L' -> g' <> g -> lk A A' ->
  (forall m, m * HBLKSZ ∉ L -> m <> n -> hb_next (dat A' m) = hb_next (dat A m) /\ hb_prev (dat A' m) = hb_prev (dat A m)) ->
  (forall m, m <> n -> (m ∈ X <-> m ∈ X')) -> in_rl A g n -> rl_list A' X' g' b' L'.
Proof.
  intros HL HL' Hne Hlk Hd HX Hn. pose proof HL' as (Hd' & Hnd & _). assert (Hout : forall m, in_rl A g' m -> (m * HBLKSZ ∉ L) /\ m <> n).
  { intros m Hm. split; [|intros ->; by eapply Hne, in_rl_inj]. rewrite (rl_node _ _ _ _ _ _ HL). intros [Hx _]. by eapply Hne, in_rl_inj. }
  split; [|split; [done|]].
  - eapply dls_ext; [|exact Hd']. intros a (m & -> & Hi & Hx)%(rl_elem _ _ _ _ _ _ HL'). destruct (Hout m Hi). rewrite !rnx_at, !rpv_at. by apply Hd.
  - intros a. split.
    + intros (m & -> & Hi & Hx)%(rl_elem _ _ _ _ _ _ HL'). destruct (Hout m Hi). exists m. split; [done|]. split; [by eapply lk_in_rl|]. by rewrite <- HX.
    + intros (m & -> & Hi & Hx). apply (lk_in_rl _ A) in Hi; [|by apply lk_sym]. destruct (Hout m Hi). apply (rl_node _ _ _ _ _ _ HL'). rewrite HX by done. done.
Qed.

Lemma rl_unlink A A' t X g n b l1 l2 : rl_ok A t X -> 1 <= g <= 128 -> length t = 129%nat -> t !! Z.to_nat g = Some b -> rl_list A X g b (l1 ++ n * HBLKSZ :: l2) -> lk A A' ->
  (forall m, m <> n -> hb_next (dat A' m) = (if decide (last l1 = Some (m * HBLKSZ)) then hb_next (dat A n) else hb_next (dat A m)) /\
    hb_prev (dat A' m) = (if decide (head l2 = Some (m * HBLKSZ)) then hb_prev (dat A n) else hb_prev (dat A m))) ->
  rl_ok A' (<[Z.to_nat g := match l1 with [] => hb_next (dat A n) | _ => b end]> t) ({[n]} ∪ X).
Proof.
  intros Hrl Hg Hlen Hb HL Hlk Hd g' Hg'. assert (Hn : in_rl A g n /\ n ∉ X) by (apply (rl_node _ _ _ _ _ _ HL); set_solver). destruct (decide (g' = g)) as [->|Hne].
  - eexists _, (l1 ++ l2). split; [apply list_lookup_insert_eq; lia|]. pose proof HL as (Hdl & Hnd & _).
    assert (Hel : forall a, a ∈ l1 ++ l2 -> exists m, a = m * HBLKSZ /\ m <> n).
    { intros a Ha. destruct (rl_elem _ _ _ _ _ a HL ltac:(set_solver)) as (m & -> & _). exists m. split; [done|]. intros ->. apply NoDup_app in Hnd as (_ & H1 & (H2 & _)%list.NoDup_cons). set_solver. }
    split; [|split].
    + pose proof (dls_remove (rnx A) (rpv A) (rnx A') (rpv A') 0 b l1 l2 0 (n * HBLKSZ) Hnd) as Hrm. rewrite rnx_at, rpv_at in Hrm. apply Hrm; [..|exact Hdl].
      * intros y Hy. destruct (Hel y Hy) as (m & -> & Hm). rewrite ?rnx_at, ?rpv_at. by apply Hd.
      * intros y Hy. destruct (Hel y Hy) as (m & -> & Hm). rewrite ?rnx_at, ?rpv_at. by apply Hd.
    + apply NoDup_app in Hnd as (H1 & H2 & (H3 & H4)%list.NoDup_cons). apply NoDup_app. split; [done|]. split; [|done]. intros y Hy Hy'. apply (H2 y Hy). by right.
    + intros a. split.
      * intros Ha. destruct (Hel a Ha) as (m & -> & Hm). destruct (proj1 (rl_node _ _ _ _ _ m HL) ltac:(set_solver)) as [Hi Hx]. exists m. split; [done|]. split; [by eapply lk_in_rl|set_solver].
      * intros (m & -> & Hi & Hx). apply (lk_in_rl _ A) in Hi; [|by apply lk_sym]. assert (Hin : m * HBLKSZ ∈ l1 ++ n * HBLKSZ :: l2) by (apply (rl_node _ _ _ _ _ _ HL); set_solver).
        apply elem_of_app in Hin as [?|[He|?]%elem_of_cons]; [set_solver| |set_solver]. unfold HBLKSZ in He. assert (m = n) by lia. set_solver.
  - destruct (Hrl g' Hg') as (b' & L' & Hb' & HL'). exists b', L'. split; [rewrite list_lookup_insert_ne by lia; done|].
    eapply (rl_other A A' X _ g g' n); [exact HL|exact HL'|done|done| |set_solver|by destruct Hn].
    intros m Hm Hmn. rewrite (proj1 (Hd m Hmn)), (proj2 (Hd m Hmn)), !decide_False; [done| |].
    + intros Hh%head_Some_elem_of. set_solver.
    + intros Hh%last_Some_elem_of. set_solver.
Qed.

Lemma rl_link A A' t X g n b L : rl_ok A t ({[n]} ∪ X) -> 1 <= g <= 128 -> length t = 129%nat -> t !! Z.to_nat g = Some b -> rl_list A ({[n]} ∪ X) g b L -> lk A A' -> in_rl A g n -> n ∉ X -> 0 < n ->
  hb_next (dat A' n) = b -> hb_prev (dat A' n) = 0 ->
  (forall m, m <> n -> hb_next (dat A' m) = hb_next (dat A m) /\ hb_prev (dat A' m) = (if decide (head L = Some (m * HBLKSZ)) then n * HBLKSZ else hb_prev (dat A m))) ->
  rl_ok A' (<[Z.to_nat g := n * HBLKSZ]> t) X.
Proof.
  intros Hrl Hg Hlen Hb HL Hlk Hn Hx Hn0 Hnx Hpv Hd g' Hg'. destruct (decide (g' = g)) as [->|Hne].
  - eexists _, (n * HBLKSZ :: L). split; [apply list_lookup_insert_eq; lia|]. pose proof HL as (Hdl & Hnd & _).
    assert (Hel : forall a, a ∈ L -> exists m, a = m * HBLKSZ /\ m <> n) by (intros a (m & -> & _ & Hm)%(rl_elem _ _ _ _ _ _ HL); exists m; split; [done|set_solver]).
    assert (Hnin : n * HBLKSZ ∉ L) by (rewrite (rl_node _ _ _ _ _ _ HL); set_solver). split; [|split].
    + apply (dls_insert (rnx A) (rpv A) (rnx A') (rpv A') 0 b [] L 0 (n * HBLKSZ)); [done|unfold HBLKSZ; lia|done| |by rewrite rpv_at|..|exact Hdl].
      * rewrite rnx_at, Hnx. by apply (dls_head _ _ _ _ _ _ Hdl).
      * intros y Hy. destruct (Hel y Hy) as (m & -> & Hm). rewrite !rnx_at. cbn. by apply Hd.
      * intros y Hy. destruct (Hel y Hy) as (m & -> & Hm). rewrite !rpv_at. by apply Hd.
    + by apply list.NoDup_cons.
    + intros a. rewrite elem_of_cons. split.
      * intros [->|(m & -> & Hi & Hm)%(rl_elem _ _ _ _ _ _ HL)]; [exists n|exists m]; (split; [done|]); (split; [by eapply lk_in_rl|set_solver]).
      * intros (m & -> & Hi & Hm). apply (lk_in_rl _ A) in Hi; [|by apply lk_sym]. destruct (decide (m = n)) as [->|]; [by left|right]. apply (rl_node _ _ _ _ _ _ HL). set_solver.
  - destruct (Hrl g' Hg') as (b' & L' & Hb' & HL'). exists b', L'. split; [rewrite list_lookup_insert_ne by lia; done|].
    eapply (rl_other A A' _ X g g' n); [exact HL|exact HL'|done|done| |set_solver|done].
    intros m Hm Hmn. rewrite (proj1 (Hd m Hmn)), (proj2 (Hd m Hmn)), decide_False; [done|]. intros Hh%head_Some_elem_of. set_solver.
Qed.

(** ** The code of the lists *)

Section lists.
Context `{!PersistentMem} {own : heap -> gmap Z arun -> gset Z -> Prop} `{!BlockHeap own} {LIM : Z} `{!MemLimit LIM}.
Local Abbreviation based := (based own LIM).

(** A link of a neighbour, if there is one, and then one of the block itself. *)
Lemma wp_neighbour T s A F t c b f f' n r (Q : unit -> makalu -> Prop) : based s A F t -> A !! n = Some r -> link_change f -> link_change f' -> (b = 0 \/ is_Some (A !! bno b)) ->
  (forall s' A', based s' A' F t -> same s s' -> lk A A' -> (forall m, m <> n -> dat A' m = if decide (b <> 0 /\ m = bno b) then f (dat A m) else dat A m) -> Q tt s') ->
  wp T (if b =? 0 then cret tt else nh <- MAK_get_hdr_and_update_hc c b; put_hdr nh f;; put_hdr (ar_hdr r) f') s Q.
Proof.
  intros B Hn Hf Hf' Hb HQ. destruct (Z.eqb_spec b 0) as [->|Hne].
  - apply wp_ret, (HQ _ A); [done|done|done|]. intros m _. rewrite decide_False; [done|tauto].
  - destruct Hb as [|[rb Hrb]]; [done|]. apply wp_bind. eapply (wp_cache B); [exact Hrb|]. intros s1 B1 Hs1. apply wp_bind. eapply (wp_put B1); [exact Hrb|by apply link_change_own|].
    intros s2 B2 Hs2. destruct (proj2 (upd_is_Some f (bno b) A n) ltac:(by eexists)) as [r2 Hr2]. assert (Hh : ar_hdr r = ar_hdr r2).
    { destruct (lk_lookup _ _ _ _ (lk_upd A f (bno b) Hf) Hn) as (r3 & Hr3 & (_ & Hx & _)%core_fields). congruence. }
    rewrite Hh. eapply (wp_put B2); [exact Hr2|by apply link_change_own|]. intros s3 B3 Hs3. eapply HQ; [exact B3|by eauto|eapply lk_trans; by apply lk_upd|].
    intros m Hm. rewrite dat_upd by (by eexists). rewrite decide_False by done. rewrite dat_upd by (by eexists). destruct (decide (m = bno b)) as [->|Hx]; [by rewrite decide_True|by rewrite decide_False by tauto].
Qed.

(** The neighbours of a member of a list are members. *)
Lemma rl_next_in A X g b l1 l2 n : rl_list A X g b (l1 ++ n * HBLKSZ :: l2) -> hb_next (dat A n) = default 0 (head l2) /\ hb_prev (dat A n) = default 0 (last l1).
Proof.
  intros (Hd & _ & _). apply dls_app in Hd as (c & _ & -> & _ & Hp & Hd). rewrite rnx_at in Hd. rewrite rpv_at in Hp. apply dls_head in Hd. done.
Qed.

Lemma rl_some A X g b L a : rl_list A X g b L -> a ∈ L -> a <> 0 /\ is_Some (A !! bno a) /\ a = bno a * HBLKSZ.
Proof. intros HL Ha. destruct HL as (Hd & _ & Hm). split; [by eapply dls_nonzero|]. apply Hm in Ha as (n & -> & (r & Hr & _) & _). by rewrite bno_addr, Hr. Qed.

Lemma opt_link A X g b L (o : option Z) : rl_list A X g b L -> (forall a, o = Some a -> a ∈ L) -> default 0 o = 0 \/ is_Some (A !! bno (default 0 o)).
Proof. intros HL Ho. destruct o as [a|]; [right|by left]. by destruct (rl_some _ _ _ _ _ a HL (Ho a eq_refl)) as (_ & Hs & _). Qed.

(** Is the neighbour the block [m]? *)
Lemma opt_is A X g b L (o : option Z) m : rl_list A X g b L -> (forall a, o = Some a -> a ∈ L) -> (default 0 o <> 0 /\ m = bno (default 0 o)) <-> o = Some (m * HBLKSZ).
Proof.
  intros HL Ho. destruct o as [a|]; cbn; [|split; [by intros []|done]]. destruct (rl_some _ _ _ _ _ a HL (Ho a eq_refl)) as (H0 & _ & He). split; [intros [_ ->]; by rewrite <- He|].
  intros [= ->]. split; [done|]. by rewrite bno_addr.
Qed.

Lemma decide_iff {X} (P P' : Prop) `{!Decision P, !Decision P'} (x y : X) : (P <-> P') -> (if decide P then x else y) = if decide P' then x else y.
Proof. intros HP. destruct (decide P), (decide P'); tauto. Qed.

Lemma wp_unlink T s A F t X c g n r (Q : unit -> makalu -> Prop) : based s A F t -> rl_ok A t X -> 1 <= g <= 128 -> A !! n = Some r -> in_rl A g n -> n ∉ X ->
  (forall s' A' t', based s' A' F t' -> same s s' -> lk A A' -> rl_ok A' t' ({[n]} ∪ X) -> Q tt s') ->
  wp T (unlink_reclaim c 1 g (ar_hdr r) (n * HBLKSZ)) s Q.
Proof.
  intros B Hrl Hg Hn Hi Hx HQ. destruct (Hrl g Hg) as (b & L & Hb & HL). assert (Hin : n * HBLKSZ ∈ L) by (by apply (rl_node _ _ _ _ _ _ HL)).
  apply list_elem_of_split in Hin as (l1 & l2 & ->). destruct (rl_next_in _ _ _ _ _ _ _ HL) as [Hnx Hpv]. unfold dat in Hnx, Hpv. rewrite Hn in Hnx, Hpv.
  assert (Ho2 : forall a, head l2 = Some a -> a ∈ l1 ++ n * HBLKSZ :: l2) by (intros a Ha%head_Some_elem_of; set_solver).
  assert (Ho1 : forall a, last l1 = Some a -> a ∈ l1 ++ n * HBLKSZ :: l2) by (intros a Ha%last_Some_elem_of; set_solver).
  unfold unlink_reclaim. apply wp_bind. eapply (wp_get B); [exact Hn|]. rewrite Hnx, Hpv. apply wp_bind.
  eapply wp_neighbour; [exact B|exact Hn|apply link_prev|apply link_next|by eapply opt_link|]. intros s1 A1 B1 Hs1 Hl1 Hd1. apply wp_bind.
  destruct (lk_lookup _ _ _ _ Hl1 Hn) as (r1 & Hr1 & (_ & Hh & _)%core_fields). rewrite <- Hh.
  eapply wp_neighbour; [exact B1|exact Hr1|apply link_next|apply link_prev| |].
  { destruct (opt_link _ _ _ _ _ (last l1) HL Ho1) as [|[r2 Hr2]]; [by left|right]. by destruct (lk_lookup _ _ _ _ Hl1 Hr2) as (r3 & -> & _). }
  intros s2 A2 B2 Hs2 Hl2 Hd2. apply wp_bind. eapply (wp_ld_rl B2); [exact Hb|].
  assert (Hok : rl_ok A2 (<[Z.to_nat g := match l1 with [] => hb_next (dat A n) | _ => b end]> t) ({[n]} ∪ X)).
  { eapply rl_unlink; [exact Hrl|done|exact (ba_len _ _ _ _ B)|exact Hb|exact HL|by eapply lk_trans|]. intros m Hm. unfold dat at 2 5. rewrite Hn, Hnx, Hpv.
    rewrite (Hd2 m Hm), (Hd1 m Hm), !(decide_iff _ _ _ _ (opt_is _ _ _ _ _ _ m HL Ho1)), !(decide_iff _ _ _ _ (opt_is _ _ _ _ _ _ m HL Ho2)).
    by destruct (decide (last l1 = _)), (decide (head l2 = _)), (dat A m). }
  unfold dat in Hok. rewrite Hn, Hnx in Hok. pose proof (proj1 HL) as Hdl. apply dls_head in Hdl. destruct l1 as [|a l1]; cbn in Hdl; subst b.
  - rewrite Z.eqb_refl. eapply (wp_st_rl B2); [lia|]. intros s3 B3 Hs3. eapply HQ; [exact B3|by eauto|by eapply lk_trans|done].
  - assert (Hne : n * HBLKSZ <> a) by (intros <-; destruct HL as (_ & [Hnd _]%list.NoDup_cons & _); set_solver). apply Z.eqb_neq in Hne. rewrite Hne. apply wp_ret.
    rewrite list_insert_id in Hok by done. eapply HQ; [exact B2|by eauto|by eapply lk_trans|done].
Qed.

(** A way to find the header of a block. *)
Definition finds (M : Z -> stM makalu Z) : Prop :=
  forall T s A F t p r (Q : Z -> makalu -> Prop), based s A F t -> A !! bno p = Some r -> (forall s', based s' A F t -> same s s' -> Q (ar_hdr r) s') -> wp T (M p) s Q.

Lemma finds_cache c : finds (MAK_get_hdr_and_update_hc c).
Proof. intros T s A F t p r Q B Hp HQ. by eapply (wp_cache B). Qed.

Lemma finds_HDR : finds (fun p => on_blk (HDR p)).
Proof. intros T s A F t p r Q B Hp HQ. eapply (wp_HDR_run B); [exact Hp|done|]. by apply HQ. Qed.

Lemma wp_neighbour1 M T s A F t b f (Q : unit -> makalu -> Prop) : finds M -> based s A F t -> link_change f -> (b = 0 \/ is_Some (A !! bno b)) ->
  (forall s' A', based s' A' F t -> same s s' -> lk A A' -> (forall m, dat A' m = if decide (b <> 0 /\ m = bno b) then f (dat A m) else dat A m) -> Q tt s') ->
  wp T (if b =? 0 then cret tt else nh <- M b; put_hdr nh f) s Q.
Proof.
  intros HM B Hf Hb HQ. destruct (Z.eqb_spec b 0) as [->|Hne].
  - apply wp_ret, (HQ _ A); [done|done|done|]. intros m. rewrite decide_False; [done|tauto].
  - destruct Hb as [|[rb Hrb]]; [done|]. apply wp_bind. eapply HM; [exact B|exact Hrb|]. intros s1 B1 Hs1. eapply (wp_put B1); [exact Hrb|by apply link_change_own|].
    intros s2 B2 Hs2. eapply HQ; [exact B2|by eauto|by apply lk_upd|]. intros m. rewrite dat_upd by (by eexists). destruct (decide (m = bno b)) as [->|Hx]; [by rewrite decide_True|by rewrite decide_False by tauto].
Qed.

(** The first block leaves its list. *)
Lemma wp_pop_block M T s A F t g n b r (k : stM makalu unit) (Q : unit -> makalu -> Prop) : finds M -> based s A F t -> rl_ok A t ∅ -> 1 <= g <= 128 -> t !! Z.to_nat g = Some b -> b = n * HBLKSZ -> b <> 0 -> A !! n = Some r ->
  (forall s' A' t', based s' A' F t' -> same s s' -> lk A A' -> rl_ok A' t' {[n]} -> wp T k s' Q) ->
  wp T (st_rl 1 g (hb_next (ar_data r));; ((if hb_next (ar_data r) =? 0 then cret tt else nh <- M (hb_next (ar_data r)); put_hdr nh (hdr_prev 0));; k)) s Q.
Proof.
  intros HM B Hrl Hg Hb -> Hb0 Hn HQ. destruct (Hrl g Hg) as (b' & L & Hb' & HL). assert (b' = n * HBLKSZ) as -> by congruence. clear Hb'.
  assert (HLc : exists l2, L = [] ++ n * HBLKSZ :: l2). { pose proof (proj1 HL) as Hd. destruct L as [|a l2]; [done|]. destruct Hd as (<- & _). by exists l2. }
  destruct HLc as [l2 ->]. destruct (rl_next_in _ _ _ _ _ _ _ HL) as [Hnx Hpv]. pose proof Hnx as Hnx'. unfold dat in Hnx'. rewrite Hn in Hnx'. rewrite Hnx'.
  assert (Ho2 : forall a, head l2 = Some a -> a ∈ [] ++ n * HBLKSZ :: l2) by (intros a Ha%head_Some_elem_of; set_solver).
  apply wp_bind. eapply (wp_st_rl B); [lia|]. intros s1 B1 Hs1. apply wp_bind. eapply wp_neighbour1; [exact HM|exact B1|apply link_prev|by eapply opt_link|]. intros s2 A2 B2 Hs2 Hl2 Hd2.
  eapply HQ; [exact B2|by eauto|exact Hl2|]. rewrite <- (right_id_L ∅ (∪) {[n]}). rewrite <- Hnx.
  apply (rl_unlink A A2 t ∅ g n (n * HBLKSZ) [] l2); [done|done|exact (ba_len _ _ _ _ B)|done|done|done|].
  intros m Hm. rewrite (Hd2 m), (decide_iff _ _ _ _ (opt_is _ _ _ _ _ _ m HL Ho2)). rewrite Hpv. cbn [last default from_option id]. destruct (decide (None = Some (m * HBLKSZ))) as [Hx|_]; [done|]. by destruct (decide (head l2 = _)), (dat A m).
Qed.

(** A block joins a list. *)
Lemma wp_link T s A F t X c g n r (Q : unit -> makalu -> Prop) : based s A F t -> rl_ok A t ({[n]} ∪ X) -> 1 <= g <= 128 -> A !! n = Some r -> hb_sz (ar_data r) = 16 * g -> n ∉ X ->
  (forall s' A' t', based s' A' F t' -> same s s' -> lk (upd_run (hdr_reclaim IN_RECLAIMLIST) n A) A' -> rl_ok A' t' X -> Q tt s') ->
  wp T (link_reclaim c 1 g (ar_hdr r) (n * HBLKSZ)) s Q.
Proof.
  intros B Hrl Hg Hn Hsz Hx HQ. unfold link_reclaim. apply wp_bind. eapply (wp_put B); [exact Hn|by intros []|]. intros s1 B1 Hs1. set (A1 := upd_run _ n A) in *.
  assert (Hn1 : A1 !! n = Some (ar_set (hdr_reclaim IN_RECLAIMLIST (ar_data r)) r)) by (by apply lookup_upd_run).
  assert (Hrl1 : rl_ok A1 t ({[n]} ∪ X)) by (eapply rl_ext; [|exact Hrl]; intros m Hm; unfold A1; rewrite lookup_upd_run_ne by set_solver; done).
  assert (Hi1 : in_rl A1 g n) by (eexists; split; [exact Hn1|done]). destruct (Hrl1 g Hg) as (b & L & Hb & HL). apply wp_bind. eapply (wp_ld_rl B1); [exact Hb|].
  apply wp_bind. eapply (wp_put B1 _ _ _ _ _ Hn1); [by intros []|]. intros s2 B2 Hs2. apply wp_bind. set (r2 := ar_set (hdr_next b (ar_data (ar_set (hdr_reclaim IN_RECLAIMLIST (ar_data r)) r))) (ar_set (hdr_reclaim IN_RECLAIMLIST (ar_data r)) r)).
  assert (Hn2 : upd_run (hdr_next b) n A1 !! n = Some r2) by (by apply lookup_upd_run). change (ar_hdr r) with (ar_hdr r2).
  eapply (wp_put B2 _ _ _ _ _ Hn2); [by intros []|]. intros s3 B3 Hs3. apply wp_bind. set (A3 := upd_run (hdr_prev 0) n _) in *.
  assert (Hl3 : lk A1 A3) by (eapply lk_trans; apply lk_upd; [apply link_next|apply link_prev]).
  assert (Hbn : b = default 0 (head L)) by (destruct HL as (Hdl & _ & _); by apply dls_head in Hdl). assert (Ho : forall a, head L = Some a -> a ∈ L) by (intros a; apply head_Some_elem_of).
  rewrite Hbn. eapply wp_neighbour1; [apply finds_cache|exact B3|apply link_prev| |].
  { destruct (opt_link _ _ _ _ _ (head L) HL Ho) as [|[r3 Hr3]]; [by left|right]. by destruct (lk_lookup _ _ _ _ Hl3 Hr3) as (r4 & -> & _). }
  intros s4 A4 B4 Hs4 Hl4 Hd4. eapply (wp_st_rl B4); [lia|]. intros s5 B5 Hs5. assert (Hlk : lk A1 A4) by (by eapply lk_trans).
  eapply HQ; [exact B5|eapply same_trans; [|by eauto]; by eauto|exact Hlk|]. pose proof (run_addr B _ _ Hn) as Hra.
  assert (Hd3 : forall m, dat A3 m = if decide (m = n) then hdr_prev 0 (hdr_next b (dat A1 n)) else dat A1 m).
  { intros m. unfold A3. rewrite dat_upd by (by rewrite Hn2). rewrite !(dat_upd (hdr_next b)) by (by rewrite Hn1). destruct (decide (n = n)); [|done]. by destruct (decide (m = n)). }
  assert (Hnin : head L <> Some (n * HBLKSZ)) by (intros Hh%Ho; apply (rl_node _ _ _ _ _ _ HL) in Hh; set_solver).
  apply (rl_link A1 A4 t X g n b L); [done|done|exact (ba_len _ _ _ _ B)|done|done|done|done|done|lia|..].
  - rewrite (Hd4 n), (decide_iff _ _ _ _ (opt_is _ _ _ _ _ _ n HL Ho)), decide_False, Hd3, decide_True by done. done.
  - rewrite (Hd4 n), (decide_iff _ _ _ _ (opt_is _ _ _ _ _ _ n HL Ho)), decide_False, Hd3, decide_True by done. done.
  - intros m Hm. rewrite (Hd4 m), (decide_iff _ _ _ _ (opt_is _ _ _ _ _ _ m HL Ho)), Hd3. destruct (decide (m = n)) as [|_]; [done|]. by destruct (decide (head L = _)), (dat A1 m).
Qed.

End lists.
