(* ===== verification/MakGive.v ===== *)
(** * Makalu: arrays of free objects

    The arrays are rings. [ring] relates one to the list of the objects in it. *)

From S2P Require Import Prelude MakHdr MakBlock MakLib MakIndex MakHeap MakObj MakOwn MakPool.
From stdpp Require Import sorting.
#[local] Open Scope Z_scope.
#[local] Open Scope cmd_scope.

(** ** Accesses *)

Definition arr (l : fl_loc) (s : makalu) : option fl_hdr := fl_table l s ≫= (.!! Z.to_nat (fl_gran l)).

(** Two different arrays of normal objects. *)
Definition other (l l' : fl_loc) : Prop :=
  match l, l' with
  | FlGlobal 1 g, FlGlobal 1 g' | FlLocal 1 g, FlLocal 1 g' => 0 <= g /\ 0 <= g' /\ g <> g'
  | FlGlobal 1 _, FlLocal 1 _ | FlLocal 1 _, FlGlobal 1 _ => True
  | _, _ => False
  end.

Definition normal_loc (l : fl_loc) : Prop := match l with FlGlobal k g | FlLocal k g => k = 1 end.

(** Only arrays change. *)
Definition arrs_only (s s' : makalu) : Prop :=
  blk s' = blk s /\ MAK_reclaim_list s' = MAK_reclaim_list s /\ (forall c, hc_table c s' = hc_table c s) /\
  MAK_size_map s' = MAK_size_map s /\ MAK_is_initialized s' = MAK_is_initialized s /\ never_allocates s' = never_allocates s.

(** Only the array [l] changes. *)
Definition arr_set (l : fl_loc) (f : fl_hdr) (s s' : makalu) : Prop :=
  arrs_only s s' /\ arr l s' = Some f /\ forall l', other l l' -> arr l' s' = arr l' s.

Lemma arrs_only_trans s1 s2 s3 : arrs_only s1 s2 -> arrs_only s2 s3 -> arrs_only s1 s3.
Proof. intros (H1 & H2 & H3 & H4 & H5 & H6) (K1 & K2 & K3 & K4 & K5 & K6). unfold arrs_only. rewrite K1, K2, K4, K5, K6. split_and!; try done. intros c. by rewrite K3. Qed.

Lemma arr_set_trans l f f' s1 s2 s3 : arr_set l f s1 s2 -> arr_set l f' s2 s3 -> arr_set l f' s1 s3.
Proof. intros (H1 & H2 & H3) (K1 & K2 & K3). split; [by eapply arrs_only_trans|]. split; [done|]. intros l' Hl. by rewrite K3, H3. Qed.

Lemma arr_set_same l f s : arr l s = Some f -> arr_set l f s s.
Proof. done. Qed.

Lemma same_arr s s' l : same s s' -> arr l s' = arr l s.
Proof. intros (Hf & _). unfold arr. by rewrite Hf. Qed.

Lemma arr_set_ok l t x f s : normal_loc l -> fl_table l s = Some t -> t !! Z.to_nat (fl_gran l) = Some x -> arr_set l f s (set_fl_table l (<[Z.to_nat (fl_gran l) := f]> t) s).
Proof.
  intros Hl Ht Hx. apply lookup_lt_Some in Hx. destruct l as [k g|k g]; cbn in Hl; subst k; cbn in Ht, Hx |- *.
  - injection Ht as <-. split; [done|]. unfold arr. cbn. split; [by rewrite list_lookup_insert_eq|]. intros [k g'|k g'] Ho; destruct k as [|[]|]; try done. cbn in *. rewrite list_lookup_insert_ne by lia. done.
  - destruct (my_tlfs s) as [tl|] eqn:E; [|done]. injection Ht as <-. split; [|unfold arr; cbn; split].
    + split_and!; try done. intros []; cbn; [done|by rewrite E].
    + by rewrite list_lookup_insert_eq.
    + intros [k g'|k g'] Ho; destruct k as [|[]|]; try done. cbn in *. rewrite E. cbn. rewrite list_lookup_insert_ne by lia. done.
Qed.

Lemma wp_ld_fl T l s f (Q : fl_hdr -> makalu -> Prop) : arr l s = Some f -> Q f s -> wp T (ld_fl l) s Q.
Proof. unfold arr, wp, ld_fl. by intros ->. Qed.

Lemma wp_upd_fl T l s f g (Q : unit -> makalu -> Prop) : normal_loc l -> arr l s = Some f -> (forall s', arr_set l (g f) s s' -> Q tt s') -> wp T (upd_fl l g) s Q.
Proof.
  intros Hl Hf HQ. unfold arr in Hf. unfold wp, upd_fl. destruct (fl_table l s) as [t|] eqn:Et; [|done]. cbn in Hf. rewrite Hf. apply HQ. by eapply arr_set_ok.
Qed.

Lemma wp_ld_fl_at T l s f a i p (Q : Z -> makalu -> Prop) : arr l s = Some f -> fl f = Some a -> a !! Z.to_nat i = Some p -> Q p s -> wp T (ld_fl_at l i) s Q.
Proof. intros Hf Ha Hp HQ. apply wp_bind. eapply wp_ld_fl; [exact Hf|]. rewrite Ha. cbn. by rewrite Hp. Qed.

Lemma wp_st_fl_at T l s f a i p (Q : unit -> makalu -> Prop) : normal_loc l -> arr l s = Some f -> fl f = Some a -> 0 <= i < Z.of_nat (length a) ->
  (forall s', arr_set l (fl_array (Some (<[Z.to_nat i := p]> a)) f) s s' -> Q tt s') -> wp T (st_fl_at l i p) s Q.
Proof.
  intros Hl Hf Ha Hi HQ. apply wp_bind. eapply wp_ld_fl; [exact Hf|]. rewrite Ha. destruct (Z.leb_spec 0 i); [|lia]. destruct (Z.ltb_spec i (Z.of_nat (length a))); [|lia]. cbn [andb].
  by eapply wp_upd_fl.
Qed.

Lemma based_arrs `{!PersistentMem} own LIM s s' A F t : arrs_only s s' -> based own LIM s A F t -> based own LIM s' A F t.
Proof.
  intros (H1 & H2 & H3 & _) [B1 B2 B3 B4 B5]. split; rewrite ?H1, ?H2; try done. intros c. destruct (B3 c) as (u & Hu & Hl & He). exists u. rewrite H1, H3. done.
Qed.

(** ** Rings *)

Definition ring (f : fl_hdr) (max : Z) (L : list Z) : Prop :=
  exists a, fl f = Some a /\ Z.of_nat (length a) = max /\ 0 <= start_idx f < max /\ count f = Z.of_nat (length L) /\ count f <= max /\
    forall i p, L !! i = Some p -> a !! Z.to_nat ((start_idx f + Z.of_nat i) mod max) = Some p.

Lemma wp_modulo T a b s (Q : Z -> makalu -> Prop) : 0 <= a < 2 ^ 64 -> 0 < b -> Q (a mod b) s -> wp T (cmodulo a b) s Q.
Proof. intros Ha Hb HQ. unfold cmodulo. destruct (Z.eqb_spec b 0); [lia|]. apply wp_ret. by rewrite u64_small. Qed.

(** The object at a place. *)
Lemma ring_at f max L i p : ring f max L -> L !! i = Some p -> exists a, fl f = Some a /\ a !! Z.to_nat ((start_idx f + Z.of_nat i) mod max) = Some p.
Proof. intros (a & Ha & _ & _ & _ & _ & Hx) Hi. exists a. split; [done|by apply Hx]. Qed.

(** Objects leave at the front. *)
Lemma ring_drop f max L n : ring f max L -> (n <= length L)%nat -> ring (fl_start ((start_idx f + Z.of_nat n) mod max) (fl_count (Z.of_nat (length L) - Z.of_nat n) f)) max (drop n L).
Proof.
  intros (a & Ha & Hl & Hs & Hc & Hm & Hx) Hn. exists a. cbn. split; [done|]. split; [done|]. split; [apply Z.mod_pos_bound; lia|]. rewrite length_drop. split; [lia|]. split; [lia|].
  intros i p Hi. rewrite lookup_drop in Hi. rewrite <- (Hx _ _ Hi). do 2 f_equal. rewrite Zplus_mod_idemp_l. f_equal. lia.
Qed.

(** An object leaves at the end. *)
Lemma ring_pop f max L p : ring f max (L ++ [p]) -> ring (fl_count (count f - 1) f) max L /\ count f - 1 = Z.of_nat (length L).
Proof.
  intros (a & Ha & Hl & Hs & Hc & Hm & Hx). rewrite length_app in Hc. cbn in Hc. split; [|lia]. exists a. cbn. split; [done|]. split; [done|]. split; [done|]. split; [lia|]. split; [lia|]. intros i q Hi. apply Hx. by apply lookup_app_l_Some.
Qed.

(** An object joins at the end. *)
Lemma ring_push f max L p a : ring f max L -> fl f = Some a -> Z.of_nat (length L) < max ->
  ring (fl_count (count f + 1) (fl_array (Some (<[Z.to_nat ((start_idx f + count f) mod max) := p]> a)) f)) max (L ++ [p]).
Proof.
  intros (a' & Ha & Hl & Hs & Hc & Hm & Hx) Ha' Hlt. assert (a' = a) as -> by congruence. eexists. cbn. split; [done|]. split; [by rewrite length_insert|]. split; [done|]. rewrite length_app. cbn. split; [lia|]. split; [lia|].
  pose proof (Z.mod_pos_bound (start_idx f + count f) max ltac:(lia)) as Hb. intros i q Hi. destruct (decide (i = length L)) as [->|Hne].
  - rewrite lookup_app_r, Nat.sub_diag in Hi by lia. injection Hi as <-. rewrite <- Hc. apply list_lookup_insert_eq. lia.
  - assert (Hi' : L !! i = Some q). { apply lookup_app_Some in Hi as [?|[Hge Hi]]; [done|]. apply lookup_lt_Some in Hi. cbn in Hi. lia. } pose proof (lookup_lt_Some _ _ _ Hi').
    rewrite list_lookup_insert_ne; [by apply Hx|]. pose proof (Z.mod_pos_bound (start_idx f + Z.of_nat i) max ltac:(lia)). intros He. apply Z2Nat.inj in He as He'; [|apply Hb|lia].
    pose proof (Z.div_mod (start_idx f + count f) max ltac:(lia)). pose proof (Z.div_mod (start_idx f + Z.of_nat i) max ltac:(lia)). rewrite He' in *.
    assert (Hq : count f - Z.of_nat i = max * ((start_idx f + count f) / max - (start_idx f + Z.of_nat i) / max)) by (rewrite Z.mul_sub_distr_l; lia).
    set (k := (_ / max - _ / max)) in Hq. destruct (Z.lt_trichotomy k 0) as [?|[->|?]]; [nia|lia|nia].
Qed.

(** Objects written from the first place on. *)
Lemma ring_fill a max L : Z.of_nat (length a) = max -> Z.of_nat (length L) <= max -> 0 < max -> (forall i p, L !! i = Some p -> a !! i = Some p) ->
  ring (mkFl (Some a) 0 (Z.of_nat (length L))) max L.
Proof.
  intros Hl Hle Hpos Hx. exists a. cbn. split_and!; try done; try lia. intros i p Hi. pose proof (lookup_lt_Some _ _ _ Hi). rewrite Z.mod_small by lia. replace (Z.to_nat (0 + Z.of_nat i)) with i by lia. by apply Hx.
Qed.

(** ** Makalu: giving objects back

    [MAK_truncate_freelist] and [MAK_truncate_fast_fl]: objects at the front of an array go back to
    their blocks. Their mark bits are cleared, a block with enough free objects joins the list of
    its size, and an empty block goes back to the block heap. *)

(** ** Objects and blocks *)

Definition drop_keys (D : gset Z) (O : gmap Z Z) : gmap Z Z := filter (fun kv => kv.1 ∉ D) O.

Lemma lookup_drop_keys D O p z : drop_keys D O !! p = Some z <-> O !! p = Some z /\ p ∉ D.
Proof. unfold drop_keys. rewrite map_lookup_filter_Some. done. Qed.

Lemma drop_keys_keys D D' O : drop_keys D (drop_keys D' O) = drop_keys (D ∪ D') O.
Proof. apply map_eq. intros p. apply option_eq. intros z. rewrite !lookup_drop_keys. set_solver. Qed.

Lemma drop_keys_none O : drop_keys ∅ O = O.
Proof. apply map_eq. intros p. apply option_eq. intros z. rewrite lookup_drop_keys. set_solver. Qed.

(** The objects of a block with the given numbers. *)
Definition objset (n g : Z) (J : gset Z) : gset Z := set_map (fun j => n * HBLKSZ + j * (16 * g)) J.

Lemma elem_objset n g J p : p ∈ objset n g J <-> exists j, p = n * HBLKSZ + j * (16 * g) /\ j ∈ J.
Proof. unfold objset. rewrite elem_of_map. done. Qed.

(** The object number [j] of a block. *)
Lemma obj_addr n g j : 1 <= g <= 128 -> 0 <= j < objs g -> bno (n * HBLKSZ + j * (16 * g)) = n /\ (n * HBLKSZ + j * (16 * g)) mod HBLKSZ = j * (16 * g).
Proof.
  intros Hg Hj. destruct (objs_spec g Hg) as [_ Ho]. assert (Hr : 0 <= j * (16 * g) < HBLKSZ) by nia. unfold bno. split.
  - rewrite Z.div_add_l by done. rewrite (Z.div_small _ _ Hr). lia.
  - rewrite Z.add_comm, Z_mod_plus_full. by apply Z.mod_small.
Qed.

Lemma MARK_BIT_NO_eq g j : 1 <= g <= 128 -> 0 <= j < objs g -> MARK_BIT_NO (j * (16 * g)) = j * g.
Proof.
  intros Hg Hj. pose proof (obj_bit g j Hg Hj). unfold MARK_BIT_NO, BYTES_TO_GRANULES. rewrite u32_small by lia. rewrite Z.shiftr_div_pow2 by lia. change (2 ^ 4) with 16.
  replace (j * (16 * g)) with (j * g * 16) by lia. apply Z.div_mul. lia.
Qed.

Lemma thr_eq g : BLOCK_NEARLY_FULL_THRESHOLD (GRANULES_TO_BYTES g) = thr g.
Proof. unfold thr, GRANULES_TO_BYTES. rewrite Z.shiftl_mul_pow2 by lia. f_equal. lia. Qed.

(** A block of objects of [g] granules. *)
Definition small_run (A : gmap Z arun) (n g : Z) (r : arun) : Prop := A !! n = Some r /\ hb_sz (ar_data r) = 16 * g /\ 1 <= g <= 128.

(** A small object is in such a block. *)
Lemma obj_small A O p g : objs_are A O -> 1 <= g <= 128 -> O !! p = Some (16 * g) ->
  exists r j, small_run A (bno p) g r /\ j ∈ mset (hb_marks (ar_data r)) g /\ p = bno p * HBLKSZ + j * (16 * g).
Proof.
  intros Ho Hg Hp. apply Ho in Hp as (r & Hr & Hs & [[Hx _]|(g' & j & Hg' & He & Hj & Hp)]); [unfold MAXOBJBYTES in Hx; lia|]. assert (g' = g) as -> by lia. by exists r, j.
Qed.

Lemma small_ok A n g r : runs_ok A ∅ -> small_run A n g r -> hb_obj_kind (ar_data r) = NORMAL /\ length (hb_marks (ar_data r)) = 5%nat /\
  hb_n_marks (ar_data r) = Z.of_nat (size (mset (hb_marks (ar_data r)) g)) /\ 0 < hb_n_marks (ar_data r) /\
  (page_reclaim_state (ar_data r) = IN_RECLAIMLIST /\ hb_n_marks (ar_data r) <= thr g \/ page_reclaim_state (ar_data r) = IN_FLOATING /\ thr g < hb_n_marks (ar_data r)).
Proof.
  intros Hr (Hn & Hs & Hg). destruct (Hr n r Hn ltac:(set_solver)) as (Hk & [Hx|(g' & Hg' & Hs' & H1 & H2 & H3)]); [unfold MAXOBJBYTES in Hx; lia|].
  assert (g' = g) as -> by lia. done.
Qed.

(** The objects of the block [n]. *)
Lemma block_objs A O n g r p z : objs_are A O -> small_run A n g r -> bno p = n -> (O !! p = Some z <-> z = 16 * g /\ p ∈ objset n g (mset (hb_marks (ar_data r)) g)).
Proof.
  intros Ho (Hn & Hs & Hg) Hp. rewrite <- (Ho p z), elem_objset. unfold is_obj. rewrite Hp, Hn. split.
  - intros (r' & [= <-] & Hz & [[Hx _]|(g' & j & Hg' & He & Hj & Hpj)]); [unfold MAXOBJBYTES in Hx; lia|]. assert (g' = g) as -> by lia. split; [lia|]. exists j. split; [|done]. by rewrite <- He.
  - intros [-> (j & He & Hj)]. exists r. split; [done|]. split; [done|]. right. exists g, j. done.
Qed.

Lemma objset_bno n g m p : 1 <= g <= 128 -> p ∈ objset n g (mset m g) -> bno p = n.
Proof. intros Hg (j & -> & [Hj _]%elem_mset)%elem_objset. by apply obj_addr. Qed.

(** ** A block loses objects *)

Lemma objs_elsewhere A A' p z n : bno p <> n -> (forall m, m <> n -> A' !! m = A !! m) -> (is_obj A' p z <-> is_obj A p z).
Proof. intros Hp HA. unfold is_obj. by rewrite HA. Qed.

Lemma upd_run_upd f f' n A : upd_run f n (upd_run f' n A) = upd_run (fun x => f (f' x)) n A.
Proof.
  apply map_eq. intros m. destruct (decide (m = n)) as [->|Hne]; [|by rewrite !lookup_upd_run_ne]. unfold upd_run. rewrite !lookup_alter_eq. by destruct (A !! n).
Qed.

Lemma upd_run_at f f' n A r : A !! n = Some r -> f (ar_data r) = f' (ar_data r) -> upd_run f n A = upd_run f' n A.
Proof. intros Hn Hf. rewrite !(upd_run_eq _ _ _ _ Hn). by rewrite Hf. Qed.

Section block.
Context {A : gmap Z arun} {t : list Z} {O : gmap Z Z} (P : pool_ok A t O) {n g : Z} {r : arun} (Hr : small_run A n g r).

(** The header has other marks. *)
Lemma objs_marked f m' : (forall x, hb_sz (f x) = hb_sz x) -> hb_marks (f (ar_data r)) = m' -> mset m' g ⊆ mset (hb_marks (ar_data r)) g ->
  objs_are (upd_run f n A) (drop_keys (objset n g (mset (hb_marks (ar_data r)) g ∖ mset m' g)) O).
Proof.
  intros Hf Hm Hsub p z. rewrite lookup_drop_keys. pose proof Hr as (Hn & Hs & Hg). destruct (decide (bno p = n)) as [Hp|Hp].
  - rewrite (block_objs _ _ _ _ _ _ _ (po_objs _ _ _ P) Hr Hp), !elem_objset. unfold is_obj. rewrite Hp, (lookup_upd_run _ _ _ _ Hn). split.
    + intros (r' & [= <-] & Hz & [[Hx _]|(g' & j & Hg' & He & Hj & Hpj)]); cbn in Hz; rewrite Hf in Hz; [unfold MAXOBJBYTES in Hx; lia|]. assert (g' = g) as -> by lia. cbn in Hj. rewrite Hm in Hj.
      subst z. rewrite Hs in Hpj. split; [split; [done|exists j; set_solver]|]. intros (j' & He' & [_ Hj']%elem_of_difference). apply Hj'. assert (j' = j) as -> by nia. done.
    + intros [[-> (j & He & Hj)] Hnot]. eexists. split; [done|]. cbn. split; [by rewrite Hf|]. right. exists g, j. split; [done|]. split; [done|]. split; [|done]. rewrite Hm.
      destruct (decide (j ∈ mset m' g)) as [|Hx]; [done|]. destruct Hnot. exists j. set_solver.
  - rewrite (objs_elsewhere A _ p z n Hp) by (intros m; apply lookup_upd_run_ne). rewrite (po_objs _ _ _ P p z). split; [|by intros []]. intros Hx. split; [done|].
    intros (j & He & [[Hj _]%elem_mset _]%elem_of_difference)%elem_objset. apply Hp. rewrite He. by apply obj_addr.
Qed.

(** The block is gone. *)
Lemma objs_without : objs_are (delete n A) (drop_keys (objset n g (mset (hb_marks (ar_data r)) g)) O).
Proof.
  intros p z. rewrite lookup_drop_keys. pose proof Hr as (Hn & Hs & Hg). destruct (decide (bno p = n)) as [Hp|Hp].
  - rewrite (block_objs _ _ _ _ _ _ _ (po_objs _ _ _ P) Hr Hp). unfold is_obj. rewrite Hp, lookup_delete_eq. split; [by intros (r' & ? & _)|by intros [[_ ?] ?]].
  - rewrite (objs_elsewhere A _ p z n Hp) by (intros m Hm; by rewrite lookup_delete_ne). rewrite (po_objs _ _ _ P p z). split; [|by intros []]. intros Hx. split; [done|].
    intros Hin%objset_bno; done.
Qed.

Lemma runs_upd f : run_ok (f (ar_data r)) -> runs_ok (upd_run f n A) ∅.
Proof.
  intros Hf m r' Hm _. destruct (decide (m = n)) as [->|Hne].
  - rewrite (lookup_upd_run _ _ _ _ (proj1 Hr)) in Hm. by injection Hm as <-.
  - rewrite lookup_upd_run_ne in Hm by done. apply (po_runs _ _ _ P m r' Hm). set_solver.
Qed.

Lemma runs_without : runs_ok (delete n A) ∅.
Proof. intros m r' [_ Hm]%lookup_delete_Some _. apply (po_runs _ _ _ P m r' Hm). set_solver. Qed.

Definition remark (m : list Z) (x : hdr) : hdr := hdr_marks (Z.of_nat (size (mset m g))) m x.

Context {m' : list Z} (Hlen : length m' = 5%nat) (Hsub : mset m' g ⊆ mset (hb_marks (ar_data r)) g).

Lemma marks_le : Z.of_nat (size (mset m' g)) <= hb_n_marks (ar_data r).
Proof. destruct (small_ok _ _ _ _ (po_runs _ _ _ P) Hr) as (_ & _ & -> & _). apply subseteq_size in Hsub. lia. Qed.

Lemma pool_keep : 0 < Z.of_nat (size (mset m' g)) -> page_reclaim_state (ar_data r) = IN_RECLAIMLIST \/ thr g < Z.of_nat (size (mset m' g)) ->
  pool_ok (upd_run (remark m') n A) t (drop_keys (objset n g (mset (hb_marks (ar_data r)) g ∖ mset m' g)) O).
Proof.
  intros H0 Hst. destruct (small_ok _ _ _ _ (po_runs _ _ _ P) Hr) as (Hk & _ & Hn & Hp & Hc). pose proof marks_le as Hle. destruct Hr as (Hin & Hs & Hg). split.
  - apply runs_upd. split; [exact Hk|]. right. exists g. split; [done|]. split; [done|]. split; [done|]. split; [done|]. split; [done|]. change (page_reclaim_state (remark m' (ar_data r))) with (page_reclaim_state (ar_data r)). change (hb_n_marks (remark m' (ar_data r))) with (Z.of_nat (size (mset m' g))). destruct Hc as [[? ?]|[Hf ?]]; [left; split; [done|lia]|right]. split; [done|]. destruct Hst as [Hx|]; [|done]. rewrite Hf in Hx. done.
  - eapply rl_ext; [|exact (po_rl _ _ _ P)]. intros m _. destruct (decide (m = n)) as [->|Hne]; [by rewrite (lookup_upd_run _ _ _ _ Hin), Hin|by rewrite lookup_upd_run_ne].
  - by apply objs_marked.
Qed.

End block.

(** ** The code *)

Lemma lk_delete A A' n : lk A A' -> lk (delete n A) (delete n A').
Proof. intros Hl. unfold lk. by rewrite !fmap_delete, Hl. Qed.

Lemma delete_upd f n A : delete n (upd_run f n A) = delete n A.
Proof. apply map_eq. intros m. destruct (decide (m = n)) as [->|Hne]; [by rewrite !lookup_delete_eq|]. by rewrite !lookup_delete_ne, lookup_upd_run_ne. Qed.

(** What giving back leaves alone besides the other arrays. *)
Definition keeps (s s' : makalu) : Prop := MAK_size_map s' = MAK_size_map s /\ MAK_is_initialized s' = MAK_is_initialized s /\ never_allocates s' = never_allocates s.

Lemma same_keeps s s' : same s s' -> keeps s s'.
Proof. by intros (_ & H1 & H2 & H3). Qed.

Lemma arrs_keeps s s' : arrs_only s s' -> keeps s s'.
Proof. by intros (_ & _ & _ & H1 & H2 & H3). Qed.

Lemma keeps_trans s1 s2 s3 : keeps s1 s2 -> keeps s2 s3 -> keeps s1 s3.
Proof. intros (H1 & H2 & H3) (K1 & K2 & K3). unfold keeps. rewrite K1, K2, K3. done. Qed.

(** How many objects are given back. *)
Lemma n_cut keep (L : list Z) : 0 <= keep -> Z.of_nat (length L) < 2 ^ 32 ->
  let k := if keep <? u64 (Z.of_nat (length L)) then keep else Z.of_nat (length L) in
  k = Z.of_nat (length L) - Z.of_nat (length L - Z.to_nat keep) /\ (k = Z.of_nat (length L) <-> (length L - Z.to_nat keep = 0)%nat).
Proof. intros Hk Hl. rewrite u64_small by lia. cbn zeta. destruct (Z.ltb_spec keep (Z.of_nat (length L))); lia. Qed.

(** The object that is read in a round. *)
Lemma wp_read_ring {X} T s l f L max i s1 (k : Z -> stM makalu X) (Q : X -> makalu -> Prop) : arr l s = Some f -> ring f max L -> max < 2 ^ 32 -> (i < length L)%nat -> same s s1 -> (forall p, L !! i = Some p -> wp T (k p) s1 Q) ->
  wp T (idx <- cmodulo (start_idx f + Z.of_nat i) max; (p <- ld_fl_at l idx; k p)) s1 Q.
Proof.
  intros Hf Hring Hmax Hi Hsm HQ. destruct (lookup_lt_is_Some_2 L i Hi) as [p Hp]. pose proof Hring as (a & Ha & _ & Hs & Hc & Hm & _). apply wp_bind, wp_modulo; [lia|lia|]. apply wp_bind.
  destruct (ring_at _ _ _ _ _ Hring Hp) as (a' & Ha' & Hat). eapply wp_ld_fl_at; [rewrite (same_arr _ _ _ Hsm); exact Hf|exact Ha'|exact Hat|by apply HQ].
Qed.

Section give.
Context `{!PersistentMem} {own : heap -> gmap Z arun -> gset Z -> Prop} `{!BlockHeap own} {LIM : Z} `{!MemLimit LIM}.
Local Abbreviation based := (based own LIM).

(** What is left when some objects of the block [n] have gone back. *)
Definition gave (s : makalu) (A : gmap Z arun) (n : Z) (D : gset Z) (O : gmap Z Z) (s' : makalu) : Prop :=
  same s s' /\ exists A' F t, based s' A' F t /\ pool_ok A' t (drop_keys D O) /\ lk (delete n A) (delete n A').

(** Some objects have gone back. *)
Definition given (s : makalu) (D : gset Z) (O : gmap Z Z) (s' : makalu) : Prop :=
  same s s' /\ exists A F t, based s' A F t /\ pool_ok A t (drop_keys D O).

(** [n] objects of the array have gone back. *)
Definition truncated (l : fl_loc) (max : Z) (L : list Z) (n : nat) (O : gmap Z Z) (s s' : makalu) : Prop :=
  (exists f, arr l s' = Some f /\ ring f max (drop n L)) /\ (forall l', other l l' -> arr l' s' = arr l' s) /\ keeps s s' /\
  exists A F t, based s' A F t /\ pool_ok A t (drop_keys (list_to_set (take n L)) O).

Lemma wp_cut T l max L n O f s s1 (Q : unit -> makalu -> Prop) : normal_loc l -> arr l s = Some f -> ring f max L -> max < 2 ^ 32 -> (n <= length L)%nat -> given s (list_to_set (take n L)) O s1 ->
  (forall s', truncated l max L n O s s' -> Q tt s') ->
  wp T (upd_fl l (fl_count (Z.of_nat (length L) - Z.of_nat n));; (idx <- cmodulo (start_idx f + Z.of_nat n) max; upd_fl l (fl_start idx))) s1 Q.
Proof.
  intros Hl Hf Hring Hmax Hn (Hsm & A & F & t & B & P) HQ. pose proof Hring as (a & _ & _ & Hs & Hc & Hm & _). rewrite <- (same_arr _ _ _ Hsm) in Hf.
  apply wp_bind. eapply wp_upd_fl; [done|exact Hf|]. intros s2 H2. apply wp_bind, wp_modulo; [lia|lia|]. eapply wp_upd_fl; [done|apply H2|]. intros s3 H3. pose proof (arr_set_trans _ _ _ _ _ _ H2 H3) as (Ho & Ha & Hoth).
  apply HQ. split; [eexists; split; [exact Ha|by apply ring_drop]|]. split; [intros l' Hl'; rewrite Hoth by done; by apply same_arr|]. split; [eapply keeps_trans; [by apply same_keeps|by apply arrs_keeps]|].
  exists A, F, t. split; [by eapply based_arrs|done].
Qed.

(** A block with enough free objects joins its list. *)
Lemma wp_requeue T s A F t O c n g r m' (Q : unit -> makalu -> Prop) : pool_ok A t O -> small_run A n g r -> length m' = 5%nat -> mset m' g ⊆ mset (hb_marks (ar_data r)) g ->
  0 < Z.of_nat (size (mset m' g)) <= thr g -> page_reclaim_state (ar_data r) = IN_FLOATING -> based s (upd_run (remark (g := g) m') n A) F t ->
  (forall s', gave s A n (objset n g (mset (hb_marks (ar_data r)) g ∖ mset m' g)) O s' -> Q tt s') ->
  wp T (link_reclaim c 1 g (ar_hdr r) (n * HBLKSZ)) s Q.
Proof.
  intros P Hr Hlen Hsub Hle Hst B HQ. pose proof Hr as (Hn & Hs & Hg). pose proof (lookup_upd_run (remark (g := g) m') _ _ _ Hn) as Hn1.
  change (ar_hdr r) with (ar_hdr (ar_set (remark (g := g) m' (ar_data r)) r)). eapply (wp_link _ _ _ _ _ ∅ _ g n _ _ B); [|done|exact Hn1|done|set_solver|].
  - apply (rl_except _ _ ∅).
    + intros m g' _ (r' & Hr' & _ & Hst'). split; [set_solver|]. intros [->%elem_of_singleton|?]%elem_of_union; [|done]. rewrite Hn1 in Hr'. injection Hr' as <-. cbn in Hst'. rewrite Hst in Hst'. done.
    + eapply rl_ext; [|exact (po_rl _ _ _ P)]. intros m _. destruct (decide (m = n)) as [->|Hne]; [by rewrite Hn1, Hn|by rewrite lookup_upd_run_ne].
  - intros s' A' t' B' Hsm Hlk Hrl. rewrite upd_run_upd in Hlk. apply HQ. split; [done|]. exists A', F, t'. split; [done|].
    destruct (small_ok _ _ _ _ (po_runs _ _ _ P) Hr) as (Hk & _). split; [split; [|done|]|by rewrite <- (delete_upd (fun x => hdr_reclaim IN_RECLAIMLIST (remark (g := g) m' x)) n A); apply lk_delete].
    + eapply lk_runs; [exact Hlk|]. eapply runs_upd; [exact P|exact Hr|]. split; [exact Hk|]. right. exists g. split; [done|]. split; [done|]. split; [done|]. split; [done|]. split; [apply Hle|]. left. split; [done|apply Hle].
    + eapply lk_objs; [exact Hlk|]. by eapply objs_marked.
Qed.

Context (fuel : nat) (Hfuel : (Z.to_nat LIM < fuel)%nat).

(** An empty block goes back to the block heap. *)
Lemma wp_free_block T s A A1 F t t1 O n g r r1 (Q : unit -> makalu -> Prop) : pool_ok A t O -> small_run A n g r -> based s A1 F t1 -> rl_ok A1 t1 {[n]} -> A1 !! n = Some r1 ->
  lk (delete n A) (delete n A1) -> (forall s', gave s A n (objset n g (mset (hb_marks (ar_data r)) g)) O s' -> Q tt s') ->
  wp T (on_blk (MAK_freehblk fuel (n * HBLKSZ))) s Q.
Proof.
  intros P Hr B Hrl Hn Hlk HQ. apply wp_on_blk. eapply bh_free; [exact (ba_own _ _ _ _ B)|exact Hn|by eapply based_fuel|]. intros b Hb Hl. apply HQ. split; [done|].
  eexists _, _, t1. split; [by eapply based_blk|]. split; [split|by rewrite delete_delete_eq].
  - eapply lk_runs; [exact Hlk|]. by eapply runs_without.
  - apply (rl_except _ _ {[n]}).
    + intros m g' _ (r' & [Hne _]%lookup_delete_Some & _). set_solver.
    + eapply rl_ext; [|exact Hrl]. intros m Hm. by rewrite lookup_delete_ne by set_solver.
  - eapply lk_objs; [exact Hlk|]. by eapply objs_without.
Qed.

(** One object. *)
Lemma wp_truncate_one T s A F t O c g p (Q : unit -> makalu -> Prop) : based s A F t -> pool_ok A t O -> 1 <= g <= 128 -> O !! p = Some (16 * g) ->
  (forall s', gave s A (bno p) {[p]} O s' -> Q tt s') -> wp T (truncate_one fuel c 1 g (thr g) p) s Q.
Proof.
  intros B P Hg Hp HQ. destruct (obj_small _ _ _ _ (po_objs _ _ _ P) Hg Hp) as (r & j & Hr & Hj & Hpj). pose proof Hr as (Hn & Hs & _). pose proof Hj as [Hjr Hbit]%elem_mset.
  destruct (small_ok _ _ _ _ (po_runs _ _ _ P) Hr) as (Hk & Hlen & Hcnt & Hpos & Hst). destruct (obj_bit g j Hg Hjr) as [Hb1 Hb2]. set (n := bno p) in *.
  assert (Hsing : objset n g {[j]} = {[p]}) by (apply leibniz_equiv; intros q; rewrite elem_objset, elem_of_singleton; split; [intros (j' & -> & ->%elem_of_singleton); by rewrite Hpj|intros ->; exists j; set_solver]).
  unfold truncate_one. apply wp_bind. eapply (wp_cache B); [exact Hn|]. intros s1 B1 Hs1. apply wp_bind. eapply (wp_get B1); [exact Hn|].
  destruct (bh_hdr _ _ _ _ _ (ba_own _ _ _ _ B1) Hn) as (_ & -> & _). replace (p - n * HBLKSZ) with (j * (16 * g)) by lia. rewrite MARK_BIT_NO_eq by done. rewrite mark_bit_zero, Hbit by done. cbn [negb].
  set (m' := clear_mark_bit (hb_marks (ar_data r)) (j * g)). assert (Hm' : mset m' g = mset (hb_marks (ar_data r)) g ∖ {[j]}) by (by apply mset_clear).
  assert (Hl' : length m' = 5%nat) by (unfold m', clear_mark_bit; by rewrite length_alter).
  assert (Hc' : Z.of_nat (size (mset m' g)) = hb_n_marks (ar_data r) - 1) by (rewrite Hm', Hcnt; rewrite size_difference, size_singleton by set_solver; rewrite Hcnt in Hpos; lia).
  apply wp_bind. eapply (wp_put B1); [exact Hn|by intros []|]. intros s2 B2 Hs2. apply wp_bind. set (f1 := fun x : hdr => hdr_marks (hb_n_marks x) (clear_mark_bit (hb_marks x) (j * g)) x) in *.
  change (ar_hdr r) with (ar_hdr (ar_set (f1 (ar_data r)) r)) at 1. eapply (wp_put B2); [by apply lookup_upd_run|by intros []|]. intros s3 B3 Hs3. rewrite upd_run_upd in B3.
  rewrite (upd_run_at _ (remark (g := g) m') _ _ _ Hn) in B3.
  2:{ unfold remark. rewrite Hc'. unfold f1. cbn. rewrite u64_small; [done|]. pose proof (mset_size (hb_marks (ar_data r)) g Hg). destruct (objs_spec g Hg) as [Ho _]. lia. }
  assert (Hn3 : upd_run (remark (g := g) m') n A !! n = Some (ar_set (remark (g := g) m' (ar_data r)) r)) by (by apply lookup_upd_run).
  apply wp_bind. change (ar_hdr r) with (ar_hdr (ar_set (remark (g := g) m' (ar_data r)) r)) at 1. eapply (wp_get B3 _ _ _ _ Hn3). cbn [ar_data ar_set remark hdr_marks hb_n_marks page_reclaim_state].
  assert (Hsub : mset m' g ⊆ mset (hb_marks (ar_data r)) g) by set_solver. assert (Hdiff : mset (hb_marks (ar_data r)) g ∖ mset m' g = {[j]}) by (rewrite Hm'; apply diff_twice; set_solver).
  assert (HQ' : forall D s', D = {[j]} -> gave s3 A n (objset n g D) O s' -> Q tt s') by (intros D s' -> [Hx Hy]; apply HQ; rewrite Hsing in Hy; split; [by eauto|exact Hy]).
  destruct (Z.eqb_spec (Z.of_nat (size (mset m' g))) 0) as [H0|H0].
  - assert (Hemp : mset m' g = ∅) by (apply leibniz_equiv, size_empty_iff; lia). pose proof (thr_spec g Hg) as Hthr. destruct Hst as [[Hst _]|[_ Hx]]; [|lia].
    apply wp_bind. change (ar_hdr r) with (ar_hdr (ar_set (remark (g := g) m' (ar_data r)) r)). eapply (wp_unlink _ _ _ _ _ ∅ _ _ _ _ _ B3); [|done|exact Hn3|eexists; split; [exact Hn3|by split]|set_solver|].
    { eapply rl_ext; [|exact (po_rl _ _ _ P)]. intros m _. destruct (decide (m = n)) as [->|Hne]; [by rewrite Hn3, Hn|by rewrite lookup_upd_run_ne]. }
    intros s4 A4 t4 B4 Hs4 Hlk Hrl4. destruct (lk_lookup _ _ _ _ Hlk Hn3) as (r4 & Hr4 & _). eapply wp_free_block; [exact P|exact Hr|exact B4|rewrite (right_id_L ∅ (∪)) in Hrl4; exact Hrl4|exact Hr4| |].
    { rewrite <- (delete_upd (remark (g := g) m') n A). by apply lk_delete. }
    intros s5 [H5 H6]. eapply (HQ' _ s5); [|split; [by eauto|exact H6]]. rewrite <- Hdiff, Hemp. set_solver.
  - destruct (Z.eqb_spec (page_reclaim_state (ar_data r)) IN_FLOATING) as [Hf|Hf]; cbn [andb].
    + destruct (Z.leb_spec (Z.of_nat (size (mset m' g))) (thr g)) as [Hle|Hgt].
      * eapply (wp_requeue _ _ A F t O c n g r m'); [done|done|done|done|split; [lia|exact Hle]|done|done|]. intros s' Hg'. by eapply HQ'.
      * apply wp_ret. eapply HQ'; [exact Hdiff|]. split; [done|]. eexists _, F, t. split; [exact B3|]. split; [|by rewrite delete_upd]. apply pool_keep; [done|done|done|done|lia|by right].
    + apply wp_ret. eapply HQ'; [exact Hdiff|]. split; [done|]. eexists _, F, t. split; [exact B3|]. split; [|by rewrite delete_upd]. apply pool_keep; [done|done|done|done|lia|left]. by destruct Hst as [[]|[]].
Qed.

(** ** One object after the other *)

Section array.
Context (s : makalu) (A : gmap Z arun) (F : gset Z) (t : list Z) (O : gmap Z Z) (l : fl_loc) (f : fl_hdr) (L : list Z) (c : hc_loc) (g keep max : Z).
Context (B : based s A F t) (P : pool_ok A t O) (Hl : normal_loc l) (Hf : arr l s = Some f) (Hring : ring f max L) (Hg : 1 <= g <= 128).
Context (HL : forall p, p ∈ L -> O !! p = Some (16 * g)) (Hnd : NoDup L) (Hkeep : 0 <= keep) (Hmax : max < 2 ^ 32).
Let n := (length L - Z.to_nat keep)%nat.

Lemma nothing_cut : n = 0%nat -> truncated l max L n O s s.
Proof. intros ->. split; [exists f; by rewrite drop_0|]. split; [done|]. split; [done|]. exists A, F, t. cbn. by rewrite drop_keys_none. Qed.

Lemma wp_truncate_freelist T (Q : unit -> makalu -> Prop) : (forall s', truncated l max L n O s s' -> Q tt s') -> wp T (MAK_truncate_freelist fuel c l g 1 keep max) s Q.
Proof.
  intros HQ. unfold MAK_truncate_freelist. apply wp_bind. eapply wp_ld_fl; [exact Hf|]. pose proof Hring as (a & _ & _ & Hs & Hc & Hm & _). rewrite Hc, thr_eq.
  destruct (n_cut keep L Hkeep ltac:(lia)) as [Hk Hz]. fold n in Hk, Hz. set (k := if keep <? _ then _ else _) in *. clearbody k. destruct (Z.eqb_spec k (Z.of_nat (length L))) as [He|Hne].
  { apply wp_ret, HQ, nothing_cut. tauto. }
  subst k. replace (Z.of_nat (length L) - (Z.of_nat (length L) - Z.of_nat n)) with (Z.of_nat n) by lia. apply wp_bind.
  eapply wp_mono; [apply (wp_for _ _ _ (fun l1 s' => given s (list_to_set (take (length l1) L)) O s'))|].
  - split; [done|]. exists A, F, t. cbn. by rewrite drop_keys_none.
  - intros l1 i l2 s1 Hsplit (Hsm & A1 & F1 & t1 & B1 & P1). assert (Hi : i = Z.of_nat (length l1) /\ (length l1 < n)%nat).
    { assert (Hx : seqZ 0 (Z.of_nat n) !! length l1 = Some i) by (rewrite Hsplit; by apply list_lookup_middle). apply lookup_seqZ in Hx as [-> Hx]. lia. }
    destruct Hi as [-> Hi]. eapply wp_read_ring; [exact Hf|exact Hring|done|lia|done|]. intros p Hp. eapply wp_truncate_one; [exact B1|exact P1|done| |].
    + apply lookup_drop_keys. split; [apply HL; by eapply list_elem_of_lookup_2|]. rewrite elem_of_list_to_set. intros (j & Hj & Hjl)%elem_of_take. assert (j = length l1) by (by eapply NoDup_lookup). lia.
    + intros s2 (Hsm2 & A2 & F2 & t2 & B2 & P2 & _). split; [by eauto|]. exists A2, F2, t2. split; [done|]. rewrite drop_keys_keys in P2.
      replace (list_to_set (take (length (l1 ++ [Z.of_nat (length l1)])) L)) with ({[p]} ∪ list_to_set (take (length l1) L) : gset Z); [done|].
      rewrite length_app. cbn [length]. rewrite Nat.add_1_r, (take_S_r _ _ _ Hp), list_to_set_app_L. set_solver.
  - intros [] s1 Hgv. rewrite length_seqZ, Nat2Z.id in Hgv. eapply wp_cut; [done|exact Hf|done|done|lia|done|done].
Qed.

End array.

End give.
