(* ===== verification/MakFast.v ===== *)
(** * Makalu: giving objects back in groups

    [MAK_truncate_fast_fl] collects the objects of a block in an entry of a small table, and gives
    the objects of an entry back together. *)

From S2P Require Import Prelude MakHdr MakBlock MakLib MakIndex MakHeap MakObj MakOwn MakPool MakGive.
From stdpp Require Import sorting.
#[local] Open Scope Z_scope.
#[local] Open Scope cmd_scope.

(** ** The table *)

(** The objects an entry holds. *)
Definition pend (g : Z) (e : trun_tb_e) : gset Z := if te_block e =? 0 then ∅ else objset (te_block e) g (mset (te_marks e) g).

(** An entry in use: a block with some of its marked objects. *)
Record entry_ok (A : gmap Z arun) (g : Z) (e : trun_tb_e) : Prop := {
  en_run : exists r, small_run A (te_block e) g r /\ te_hhdr e = ar_hdr r /\ mset (te_marks e) g ⊆ mset (hb_marks (ar_data r)) g;
  en_len : length (te_marks e) = 5%nat;
  en_cnt : te_mark_count e = Z.of_nat (size (mset (te_marks e) g)) }.

(** The entries from number [k] on: unused, or for a block with that hash. *)
Definition tb_ok (A : gmap Z arun) (g : Z) (k : nat) (tb : list trun_tb_e) : Prop :=
  length tb = 16%nat /\ forall i e, tb !! i = Some e -> (k <= i)%nat ->
    (te_block e = 0 /\ te_marks e = replicate 5 0 /\ te_mark_count e = 0) \/ (te_block e mod 16 = Z.of_nat i /\ 0 < te_block e /\ entry_ok A g e).

Definition waiting (g : Z) (k : nat) (tb : list trun_tb_e) : gset Z := ⋃ (pend g <$> drop k tb).

Lemma waiting_at g k tb e : tb !! k = Some e -> waiting g k tb = pend g e ∪ waiting g (S k) tb.
Proof. intros He. unfold waiting. by rewrite (drop_S _ _ _ He). Qed.

Lemma elem_waiting g tb p : p ∈ waiting g 0 tb <-> exists i e, tb !! i = Some e /\ p ∈ pend g e.
Proof.
  unfold waiting. rewrite drop_0, elem_of_union_list. split.
  - intros (X & (e & -> & (i & Hi)%list_elem_of_lookup)%list_elem_of_fmap & Hp). by exists i, e.
  - intros (i & e & Hi & Hp). exists (pend g e). split; [|done]. apply list_elem_of_fmap. exists e. split; [done|]. by eapply list_elem_of_lookup_2.
Qed.

Lemma waiting_insert g k tb i e : (i < k)%nat -> waiting g k (<[i := e]> tb) = waiting g k tb.
Proof. intros Hi. unfold waiting. by rewrite drop_insert_lt. Qed.

(** A block of another entry is not touched. *)
Lemma entry_other A A' g e n : te_block e <> n -> lk (delete n A) (delete n A') -> entry_ok A g e -> entry_ok A' g e.
Proof.
  intros Hne Hlk [(r & (Hn & Hs & Hg) & Hh & Hsub) Hl Hc]. split; [|done|done]. assert (Hd : delete n A !! te_block e = Some r) by (by rewrite lookup_delete_ne).
  destruct (lk_lookup _ _ _ _ Hlk Hd) as (r' & [_ Hr']%lookup_delete_Some & (_ & H1 & H2 & _ & _ & _ & H3)%core_fields). exists r'. unfold small_run. rewrite H1, H2, H3. done.
Qed.

Lemma tb_other A A' g k n tb : lk (delete n A) (delete n A') -> (forall i e, tb !! i = Some e -> (k <= i)%nat -> te_block e = n -> False) -> tb_ok A g k tb -> tb_ok A' g k tb.
Proof.
  intros Hlk Hne [Hl Ht]. split; [done|]. intros i e Hi Hk. destruct (Ht i e Hi Hk) as [?|(H1 & H2 & H3)]; [by left|right]. split; [done|]. split; [done|]. eapply entry_other; [|exact Hlk|done]. intros He. by eapply Hne.
Qed.

Section fast.
Context `{!PersistentMem} {own : heap -> gmap Z arun -> gset Z -> Prop} `{!BlockHeap own} {LIM : Z} `{!MemLimit LIM}.
Local Abbreviation based := (based own LIM).
Context (fuel : nat) (Hfuel : (Z.to_nat LIM < fuel)%nat).
Local Abbreviation gave := (gave (own := own) (LIM := LIM)).

(** The objects of one entry go back. *)
Lemma wp_give_back T s A F t O c g e (Q : trun_tb_e -> makalu -> Prop) : based s A F t -> pool_ok A t O -> 0 < te_block e -> entry_ok A g e ->
  (forall e' s', gave s A (te_block e) (pend g e) O s' -> Q e' s') -> wp T (give_back_entry fuel c 1 g (thr g) e) s Q.
Proof.
  intros B P Hpos [(r & Hr & Hh & Hsub) Hlen Hcnt] HQ. unfold pend in HQ. unfold give_back_entry. destruct (Z.eqb_spec (te_block e) 0) as [|_]; [lia|]. set (n := te_block e) in *. rewrite Hh.
  pose proof Hr as (Hn & Hs & Hg). destruct (small_ok _ _ _ _ (po_runs _ _ _ P) Hr) as (Hk & Hlm & Hc & Hp0 & Hst). apply wp_bind. eapply (wp_get B); [exact Hn|].
  destruct (bh_hdr _ _ _ _ _ (ba_own _ _ _ _ B) Hn) as (_ & -> & _). apply wp_bind. eapply (wp_put B); [exact Hn|by intros []|]. intros s1 B1 Hs1.
  set (m' := zip_with (fun w v => Z.land w (not64 v)) (hb_marks (ar_data r)) (te_marks e)). assert (Hm' : mset m' g = mset (hb_marks (ar_data r)) g ∖ mset (te_marks e) g) by (by apply mset_minus).
  assert (Hl' : length m' = 5%nat) by (unfold m'; rewrite length_zip_with; lia). set (f1 := fun x : hdr => hdr_marks (u64 (hb_n_marks x - te_mark_count e)) (hb_marks x) x) in *.
  assert (Hc' : u64 (hb_n_marks (ar_data r) - te_mark_count e) = Z.of_nat (size (mset m' g))).
  { rewrite Hm', Hc, Hcnt, size_difference by done. pose proof (subseteq_size _ _ Hsub). rewrite u64_small; [lia|]. pose proof (mset_size (hb_marks (ar_data r)) g Hg). destruct (objs_spec g Hg) as [Ho _]. lia. }
  pose proof (lookup_upd_run f1 _ _ _ Hn) as Hn1. apply wp_bind. change (ar_hdr r) with (ar_hdr (ar_set (f1 (ar_data r)) r)) at 1. eapply (wp_get B1 _ _ _ _ Hn1).
  change (hb_n_marks (ar_data (ar_set (f1 (ar_data r)) r))) with (u64 (hb_n_marks (ar_data r) - te_mark_count e)). rewrite Hc'. change (page_reclaim_state (ar_data (ar_set (f1 (ar_data r)) r))) with (page_reclaim_state (ar_data r)).
  assert (Hsub' : mset m' g ⊆ mset (hb_marks (ar_data r)) g) by set_solver.
  assert (Hdiff : mset (hb_marks (ar_data r)) g ∖ mset m' g = mset (te_marks e) g) by (rewrite Hm'; by apply diff_twice).
  assert (Hrl1 : rl_ok (upd_run f1 n A) t ∅) by (eapply rl_ext; [|exact (po_rl _ _ _ P)]; intros m _; destruct (decide (m = n)) as [->|Hne]; [by rewrite Hn1, Hn|by rewrite lookup_upd_run_ne]).
  destruct (Z.eqb_spec (Z.of_nat (size (mset m' g))) 0) as [H0|H0].
  - assert (Hemp : mset m' g = ∅) by (apply leibniz_equiv, size_empty_iff; lia). assert (Hall : mset (hb_marks (ar_data r)) g = mset (te_marks e) g) by (rewrite <- Hdiff, Hemp; set_solver).
    apply wp_bind. assert (Hlast : forall s2 A2 t2, based s2 A2 F t2 -> same s s2 -> rl_ok A2 t2 {[n]} -> lk (upd_run f1 n A) A2 ->
      wp T (on_blk (MAK_freehblk fuel (n * HBLKSZ));; cret (mkTrun (te_marks e) (te_mark_count e) 0 (ar_hdr r))) s2 Q).
    { intros s2 A2 t2 B2 Hs2 Hrl2 Hlk. destruct (lk_lookup _ _ _ _ Hlk Hn1) as (r2 & Hr2 & _). apply wp_bind. eapply (wp_free_block fuel Hfuel _ _ _ _ _ _ _ _ _ _ _ _ _ P Hr B2 Hrl2 Hr2).
      - rewrite <- (delete_upd f1 n A). by apply lk_delete.
      - intros s3 [H3 H4]. apply wp_ret, HQ. rewrite Hall in H4. split; [by eauto|exact H4]. }
    destruct (Z.eqb_spec (page_reclaim_state (ar_data r)) IN_RECLAIMLIST) as [Hx|Hx].
    + change (ar_hdr r) with (ar_hdr (ar_set (f1 (ar_data r)) r)) at 1. eapply (wp_unlink _ _ _ _ _ ∅ _ _ _ _ _ B1 Hrl1 Hg Hn1); [eexists; split; [exact Hn1|by split]|set_solver|].
      intros s2 A2 t2 B2 Hs2 Hlk Hrl2. rewrite (right_id_L ∅ (∪)) in Hrl2. eapply Hlast; [exact B2|by eauto|done|done].
    + apply wp_ret. eapply Hlast; [exact B1|done| |done]. eapply rl_except; [|exact Hrl1]. intros m g' _ (r' & Hr' & _ & Hst'). split; [set_solver|]. intros ->%elem_of_singleton. rewrite Hn1 in Hr'. injection Hr' as <-. by destruct Hx.
  - apply wp_bind. change (ar_hdr r) with (ar_hdr (ar_set (f1 (ar_data r)) r)) at 1. eapply (wp_put B1 _ _ _ _ _ Hn1); [by intros []|]. intros s2 B2 Hs2. rewrite upd_run_upd in B2.
    rewrite (upd_run_at _ (remark (g := g) m') _ _ _ Hn) in B2 by (unfold f1; cbn; rewrite Hc'; done). apply wp_bind.
    assert (HQ' : forall s', gave s2 A n (objset n g (mset (hb_marks (ar_data r)) g ∖ mset m' g)) O s' -> wp T (cret e) s' Q) by (intros s' [H3 H4]; apply wp_ret, HQ; rewrite Hdiff in H4; split; [by eauto|exact H4]).
    assert (Hkeep : page_reclaim_state (ar_data r) = IN_RECLAIMLIST \/ thr g < Z.of_nat (size (mset m' g)) -> wp T (cret tt) s2 (fun _ s' => wp T (cret e) s' Q)).
    { intros Hx. apply wp_ret, HQ'. split; [done|]. eexists _, F, t. split; [exact B2|]. split; [|by rewrite delete_upd]. apply pool_keep; [done|done|done|done|lia|done]. }
    destruct (Z.eqb_spec (page_reclaim_state (ar_data r)) IN_FLOATING) as [Hf|Hf]; cbn [andb].
    + destruct (Z.leb_spec (Z.of_nat (size (mset m' g))) (thr g)) as [Hle|Hgt]; [|apply Hkeep; by right].
      eapply (wp_requeue _ _ A F t O c n g r m'); [done|done|done|done|lia|done|done|done].
    + apply Hkeep. left. by destruct Hst as [[]|[]].
Qed.

Local Abbreviation given := (given (own := own) (LIM := LIM)).

(** The entry number [i] goes back. *)
Lemma wp_give_entry T s A F t O c g k i tb e (Q : trun_tb_e -> makalu -> Prop) : based s A F t -> pool_ok A t O -> tb_ok A g k tb -> tb !! i = Some e -> (k <= i)%nat ->
  (forall e' s' A' F' t', based s' A' F' t' -> same s s' -> pool_ok A' t' (drop_keys (pend g e) O) ->
     (forall k', (k <= k')%nat -> tb_ok A' g k' (<[i := trun_zero]> tb)) -> Q e' s') ->
  wp T (give_back_entry fuel c 1 g (thr g) e) s Q.
Proof.
  intros B P [Hlen Ht] Hi Hk HQ. assert (Hz : forall A', (forall j e', tb !! j = Some e' -> (k <= j)%nat -> j <> i -> te_block e' <> 0 -> entry_ok A g e' -> entry_ok A' g e') -> forall k', (k <= k')%nat -> tb_ok A' g k' (<[i := trun_zero]> tb)).
  { intros A' HA k' Hk'. split; [by rewrite length_insert|]. intros j e' [(<- & <- & _)|[Hne Hj]]%list_lookup_insert_Some Hkj; [by left|]. destruct (Ht j e' Hj ltac:(lia)) as [?|(H1 & H2 & H3)]; [by left|right].
    split; [done|]. split; [done|]. apply (HA j e'); [done|lia|congruence|lia|done]. }
  destruct (Ht i e Hi Hk) as [(H0 & _)|(Hm & Hp & He)].
  - unfold give_back_entry. rewrite H0. apply wp_ret. eapply HQ; [exact B|done| |by apply Hz]. unfold pend. rewrite H0. cbn. by rewrite drop_keys_none.
  - eapply wp_give_back; [exact B|exact P|done|exact He|]. intros e' s' (Hsm & A' & F' & t' & B' & P' & Hlk). eapply HQ; [exact B'|done|exact P'|]. apply Hz. intros j e2 Hj Hkj Hne Hb2 He2. eapply entry_other; [|exact Hlk|done].
    destruct (Ht j e2 Hj Hkj) as [[]|(Hm2 & _)]; [done|]. intros Hx. rewrite Hx, Hm in Hm2. lia.
Qed.

(** All entries go back. *)
Lemma wp_give_all T s A F t O c g tb D : based s A F t -> pool_ok A t (drop_keys D O) -> tb_ok A g 0 tb ->
  wp T (remove_trun_tb_entry fuel c 1 g (thr g) (seqZ 0 TRUN_TB_SZ) tb) s (fun _ s' => given s (D ∪ waiting g 0 tb) O s').
Proof.
  intros B P Htb. eapply wp_mono; [apply (wp_fold _ _ _ (fun l1 tb' s' => same s s' /\ drop (length l1) tb' = drop (length l1) tb /\ length tb' = 16%nat /\ exists A F t D', based s' A F t /\ pool_ok A t (drop_keys D' O) /\
    tb_ok A g (length l1) tb' /\ D' ∪ waiting g (length l1) tb = D ∪ waiting g 0 tb))|].
  - split; [done|]. split; [done|]. split; [apply Htb|]. by exists A, F, t, D.
  - intros l1 z l2 tb1 s1 Hsplit (Hsm & Hdrop & Hl1 & A1 & F1 & t1 & D1 & B1 & P1 & Htb1 & HD). assert (Hz : z = Z.of_nat (length l1) /\ (length l1 < 16)%nat).
    { assert (Hx : seqZ 0 TRUN_TB_SZ !! length l1 = Some z) by (rewrite Hsplit; by apply list_lookup_middle). apply lookup_seqZ in Hx as [-> Hx]. unfold TRUN_TB_SZ in Hx. lia. }
    destruct Hz as [-> Hlt]. rewrite Nat2Z.id. destruct (lookup_lt_is_Some_2 tb1 (length l1) ltac:(lia)) as [e He]. rewrite He. apply wp_bind. eapply wp_give_entry; [exact B1|exact P1|exact Htb1|exact He|done|].
    intros e' s2 A2 F2 t2 B2 Hs2 P2 Htb2. apply wp_ret. rewrite length_app. cbn [length]. rewrite Nat.add_1_r. assert (Hte : tb !! length l1 = Some e) by (rewrite <- (Nat.add_0_r (length l1)), <- lookup_drop, <- Hdrop, lookup_drop, Nat.add_0_r; done).
    split; [by eauto|]. split; [|split; [by rewrite length_insert|]].
    + rewrite drop_insert_lt by lia. rewrite (drop_S _ _ _ He), (drop_S _ _ _ Hte) in Hdrop. by injection Hdrop.
    + rewrite drop_keys_keys in P2. exists A2, F2, t2, (pend g e ∪ D1). split; [done|]. split; [done|]. split.
      * destruct (Htb2 (S (length l1)) ltac:(lia)) as [_ Hx]. split; [by rewrite length_insert|]. intros j ej Hj Hkj. apply (Hx j ej); [|done]. rewrite list_lookup_insert_ne in Hj |- * by lia. done.
      * rewrite (waiting_at _ _ _ _ Hte) in HD. rewrite <- HD. set_solver.
  - intros tb' s' (Hsm & _ & _ & A' & F' & t' & D' & B' & P' & _ & HD). rewrite length_seqZ in HD. change (Z.to_nat TRUN_TB_SZ) with 16%nat in HD. split; [done|]. exists A', F', t'. split; [done|].
    replace (D ∪ waiting g 0 tb) with D'; [done|]. rewrite <- HD. unfold waiting at 1. rewrite drop_ge by (by destruct Htb as [-> _]). cbn. set_solver.
Qed.

(** One more object for an entry. *)
Definition add_bit (g j n hh : Z) (m : list Z) (k : Z) : trun_tb_e := mkTrun (set_mark_bit m (j * g)) (k + 1) n hh.

Lemma tb_add A g n j r m k i tb : small_run A n g r -> 0 < n -> n mod 16 = Z.of_nat i -> j ∈ mset (hb_marks (ar_data r)) g -> j ∉ mset m g -> length m = 5%nat -> mset m g ⊆ mset (hb_marks (ar_data r)) g -> k = Z.of_nat (size (mset m g)) ->
  tb_ok A g 0 (<[i := trun_zero]> tb) -> tb_ok A g 0 (<[i := add_bit g j n (ar_hdr r) m k]> tb).
Proof.
  intros Hr Hn Hi Hj Hnj Hl Hsub -> [Hlen Ht]. rewrite length_insert in Hlen. split; [by rewrite length_insert|]. pose proof Hr as (_ & _ & Hg). pose proof Hj as [Hjr _]%elem_mset.
  intros i' e' [(<- & <- & _)|[Hne Hi']]%list_lookup_insert_Some _.
  - right. split; [done|]. split; [done|]. assert (Hms : mset (set_mark_bit m (j * g)) g = mset m g ∪ {[j]}) by (by apply mset_set). split; cbn.
    + exists r. split; [done|]. split; [done|]. rewrite Hms. set_solver.
    + unfold set_mark_bit. by rewrite length_alter.
    + rewrite Hms, size_union, size_singleton by set_solver. lia.
  - apply (Ht i' e'); [|lia]. by rewrite list_lookup_insert_ne.
Qed.

Lemma waiting_set g tb i e : (i < length tb)%nat -> waiting g 0 (<[i := e]> tb) = pend g e ∪ waiting g 0 (<[i := trun_zero]> tb).
Proof.
  intros Hi. apply leibniz_equiv. intros p. rewrite elem_of_union, !elem_waiting. split.
  - intros (i' & e' & [(<- & <- & _)|[Hne Hi']]%list_lookup_insert_Some & Hp); [by left|right]. exists i', e'. by rewrite list_lookup_insert_ne.
  - intros [Hp|(i' & e' & [(<- & <- & _)|[Hne Hi']]%list_lookup_insert_Some & Hp)]; [exists i, e; by rewrite list_lookup_insert_eq|by apply not_elem_of_empty in Hp|]. exists i', e'. by rewrite list_lookup_insert_ne.
Qed.

Lemma pend_add g j n hh m k : 1 <= g <= 128 -> 0 < n -> length m = 5%nat -> 0 <= j < objs g -> pend g (add_bit g j n hh m k) = {[n * HBLKSZ + j * (16 * g)]} ∪ objset n g (mset m g).
Proof.
  intros Hg Hn Hl Hj. unfold pend, add_bit. cbn. destruct (Z.eqb_spec n 0); [lia|]. rewrite mset_set by done. apply leibniz_equiv. intros p. rewrite elem_of_union, elem_of_singleton, !elem_objset. split.
  - intros (j' & -> & [?| ->%elem_of_singleton]%elem_of_union); [right; by exists j'|by left].
  - intros [->|(j' & -> & Hj')]; [exists j|exists j']; set_solver.
Qed.

Definition tabled (s : makalu) (g : Z) (O : gmap Z Z) (W : gset Z) (tb : list trun_tb_e) (s' : makalu) : Prop :=
  same s s' /\ exists A F t D, based s' A F t /\ pool_ok A t (drop_keys D O) /\ tb_ok A g 0 tb /\ D ∪ waiting g 0 tb = W.

Lemma wp_fast_one T s0 s c g O W tb p : tabled s0 g O W tb s -> 1 <= g <= 128 -> O !! p = Some (16 * g) -> p ∉ W ->
  wp T (truncate_fast_one fuel c 1 g (thr g) p tb) s (fun tb' s' => tabled s0 g O ({[p]} ∪ W) tb' s').
Proof.
  intros (Hsm & A & F & t & D & B & P & Htb & <-) Hg Hp HW. apply not_elem_of_union in HW as [Hpd HW]. assert (HpD : drop_keys D O !! p = Some (16 * g)) by (by apply lookup_drop_keys).
  destruct (obj_small _ _ _ _ (po_objs _ _ _ P) Hg HpD) as (r & j & Hr & Hj & Hpj). pose proof Hr as (Hn & _ & _). pose proof (run_addr B _ _ Hn) as Hra. pose proof (addr_range p Hra) as Hpr. pose proof Hj as [Hjr _]%elem_mset.
  unfold truncate_fast_one. destruct (shift_block p) as [-> _]. rewrite (block_start p Hpr). replace (p - bno p * HBLKSZ) with (j * (16 * g)) by lia. rewrite MARK_BIT_NO_eq by done. set (n := bno p) in *.
  unfold TRUN_TB_SZ. change (16 - 1) with (Z.ones 4). rewrite Z.land_ones by lia. change (2 ^ 4) with 16. pose proof (Z.mod_pos_bound n 16 ltac:(done)) as Hmod. set (i := Z.to_nat (n mod 16)). assert (Hi : n mod 16 = Z.of_nat i) by lia.
  destruct (lookup_lt_is_Some_2 tb i ltac:(destruct Htb as [-> _]; lia)) as [e He]. rewrite He.
  assert (Hend : forall s2 A2 F2 t2 D2 tb2 m k, based s2 A2 F2 t2 -> same s0 s2 -> pool_ok A2 t2 (drop_keys D2 O) -> tb_ok A2 g 0 (<[i := trun_zero]> tb2) -> p ∉ D2 -> length m = 5%nat -> j ∉ mset m g -> k = Z.of_nat (size (mset m g)) ->
    (forall r2, small_run A2 n g r2 -> mset m g ⊆ mset (hb_marks (ar_data r2)) g) -> D2 ∪ objset n g (mset m g) ∪ waiting g 0 (<[i := trun_zero]> tb2) = D ∪ waiting g 0 tb ->
    forall hh, (forall r2, small_run A2 n g r2 -> hh = ar_hdr r2) -> tabled s0 g O ({[p]} ∪ (D ∪ waiting g 0 tb)) (<[i := add_bit g j n hh m k]> tb2) s2).
  { intros s2 A2 F2 t2 D2 tb2 m k B2 Hs2 P2 Htb2 Hp2 Hlm Hjm Hk Hsub HD hh Hhh. split; [done|]. exists A2, F2, t2, D2. split; [done|]. split; [done|].
    destruct (obj_small _ _ p g (po_objs _ _ _ P2) Hg ltac:(apply lookup_drop_keys; done)) as (r2 & j2 & Hr2 & Hj2 & Hpj2). fold n in Hr2, Hpj2. assert (j2 = j) as -> by nia. rewrite (Hhh r2 Hr2). split; [apply tb_add; auto; lia|].
    destruct Htb2 as [Hl2 _]. rewrite length_insert in Hl2. rewrite waiting_set by (rewrite Hl2; lia). rewrite pend_add by (done || lia). rewrite <- Hpj, <- HD. clear. set_solver. }
  assert (Hnew : forall s2 A2 F2 t2 D2 tb2 r2, based s2 A2 F2 t2 -> same s0 s2 -> pool_ok A2 t2 (drop_keys D2 O) -> tb_ok A2 g 0 (<[i := trun_zero]> tb2) -> p ∉ D2 -> A2 !! n = Some r2 ->
    D2 ∪ waiting g 0 (<[i := trun_zero]> tb2) = D ∪ waiting g 0 tb -> tabled s0 g O ({[p]} ∪ (D ∪ waiting g 0 tb)) (<[i := add_bit g j n (ar_hdr r2) (replicate 5 0) 0]> tb2) s2).
  { intros s2 A2 F2 t2 D2 tb2 r2 B2 Hs2 P2 Htb2 Hp2 Hr2 HD. eapply Hend; [exact B2|done|exact P2|done|done|done|..].
    - rewrite mset_none. apply not_elem_of_empty.
    - by rewrite mset_none.
    - intros r3 _. rewrite mset_none. apply empty_subseteq.
    - rewrite mset_none. unfold objset. rewrite set_map_empty, (right_id_L ∅ (∪)). exact HD.
    - intros r3 (Hr3 & _). congruence. }
  assert (Hold : waiting g 0 tb = pend g e ∪ waiting g 0 (<[i := trun_zero]> tb)) by (rewrite <- waiting_set by (by apply lookup_lt_Some in He); by rewrite list_insert_id).
  assert (Hz0 : tb_ok A g 0 (<[i := trun_zero]> tb)). { destruct Htb as [Hl Ht]. split; [by rewrite length_insert|]. intros i' e' [(<- & <- & _)|[Hne Hi']]%list_lookup_insert_Some _; [by left|]. apply (Ht i' e'); [done|lia]. }
  destruct (proj2 Htb i e He ltac:(lia)) as [(H0 & H1 & H2)|(Hm & Hpos & Hen)].
  - (* a free entry *)
    destruct (Z.eqb_spec (te_block e) n) as [|_]; [lia|]. rewrite H0. cbn [Z.eqb]. apply wp_bind, wp_bind, wp_ret, wp_bind. eapply (wp_cache B); [exact Hn|]. intros s2 B2 Hs2. apply wp_ret, wp_ret.
    rewrite H1, H2. eapply Hnew; [exact B2|by eauto|exact P|exact Hz0|exact Hpd|exact Hn|]. rewrite Hold. unfold pend. rewrite H0. cbn. by rewrite (left_id_L ∅ (∪)).
  - destruct (Z.eqb_spec (te_block e) n) as [Heq|Hne].
    + (* the entry of the block *)
      apply wp_bind, wp_ret, wp_ret. destruct Hen as [(r' & Hr' & Hh & Hsub) Hlm Hcnt]. rewrite Heq in Hr'. rewrite Heq. assert (Hpe : pend g e = objset n g (mset (te_marks e) g)) by (unfold pend; destruct (Z.eqb_spec (te_block e) 0); [lia|by rewrite Heq]).
      eapply Hend; [exact B|done|exact P|exact Hz0|exact Hpd|done| |done|..].
      * intros Hx. apply HW. rewrite Hold. apply elem_of_union. left. rewrite Hpe. apply elem_objset. by exists j.
      * intros r2 (Hr2 & _). destruct Hr' as (Hr' & _). assert (r2 = r') as -> by congruence. done.
      * rewrite Hold, Hpe. by rewrite (assoc_L (∪)).
      * intros r2 (Hr2 & _). destruct Hr' as (Hr' & _). congruence.
    + (* the entry of another block, which goes back first *)
      destruct (Z.eqb_spec (te_block e) 0) as [|_]; [lia|]. apply wp_bind, wp_bind, wp_bind. unfold remove_trun_tb_entry. cbn [cfold]. apply wp_bind. fold i. rewrite He. apply wp_bind.
      eapply wp_give_entry; [exact B|exact P|exact Htb|exact He|lia|]. intros e' s2 A2 F2 t2 B2 Hs2 P2 Htb2. rewrite drop_keys_keys in P2. apply wp_ret, wp_ret, wp_ret.
      assert (Hp2 : p ∉ pend g e ∪ D) by (rewrite Hold in HW; apply not_elem_of_union in HW as [? _]; by apply not_elem_of_union). destruct (obj_small _ _ p g (po_objs _ _ _ P2) Hg ltac:(apply lookup_drop_keys; done)) as (r2 & j2 & (Hr2 & _) & _). fold n in Hr2.
      apply wp_bind. eapply (wp_cache B2); [exact Hr2|]. intros s3 B3 Hs3. apply wp_ret, wp_ret. rewrite list_insert_insert_eq.
      eapply Hnew; [exact B3|by eauto|exact P2|by apply Htb2|done|exact Hr2|]. rewrite Hold. by rewrite (comm_L (∪) (pend g e) D), <- (assoc_L (∪)).
Qed.

Lemma tb_empty A g : tb_ok A g 0 (replicate (Z.to_nat TRUN_TB_SZ) trun_zero) /\ waiting g 0 (replicate (Z.to_nat TRUN_TB_SZ) trun_zero) = ∅.
Proof.
  split; [split; [done|]; intros i e [-> _]%lookup_replicate _; by left|]. apply leibniz_equiv. intros p. rewrite elem_waiting. split; [|by intros ?%not_elem_of_empty].
  by intros (i & e & [-> _]%lookup_replicate & Hp).
Qed.

Lemma wp_truncate_fast T s A F t O l f L c g keep max (Q : unit -> makalu -> Prop) : based s A F t -> pool_ok A t O -> normal_loc l -> arr l s = Some f -> ring f max L -> 1 <= g <= 128 ->
  (forall p, p ∈ L -> O !! p = Some (16 * g)) -> NoDup L -> 0 <= keep -> max < 2 ^ 32 ->
  (forall s', truncated (own := own) (LIM := LIM) l max L (length L - Z.to_nat keep) O s s' -> Q tt s') -> wp T (MAK_truncate_fast_fl fuel c l g 1 keep max) s Q.
Proof.
  intros B P Hl Hf Hring Hg HL Hnd Hkeep Hmax HQ. unfold MAK_truncate_fast_fl. apply wp_bind. eapply wp_ld_fl; [exact Hf|]. pose proof Hring as (a & _ & _ & Hs & Hc & Hm & _). rewrite Hc, thr_eq.
  set (n := (length L - Z.to_nat keep)%nat) in *. destruct (n_cut keep L Hkeep ltac:(lia)) as [Hk Hz]. fold n in Hk, Hz. set (k := if keep <? _ then _ else _) in *. clearbody k.
  destruct (Z.eqb_spec k (Z.of_nat (length L))) as [He|Hne]; [apply wp_ret, HQ; eapply nothing_cut; [exact B|exact P|exact Hf|exact Hring|tauto]|].
  subst k. replace (Z.of_nat (length L) - (Z.of_nat (length L) - Z.of_nat n)) with (Z.of_nat n) by lia. apply wp_bind. destruct (tb_empty A g) as [Ht0 Hw0].
  eapply wp_mono; [apply (wp_fold _ _ _ (fun l1 tb s' => tabled s g O (list_to_set (take (length l1) L)) tb s'))|].
  - split; [done|]. exists A, F, t, ∅. split; [done|]. split; [by rewrite drop_keys_none|]. split; [done|]. by rewrite Hw0.
  - intros l1 i l2 tb s1 Hsplit Htab. assert (Hi : i = Z.of_nat (length l1) /\ (length l1 < n)%nat).
    { assert (Hx : seqZ 0 (Z.of_nat n) !! length l1 = Some i) by (rewrite Hsplit; by apply list_lookup_middle). apply lookup_seqZ in Hx as [-> Hx]. lia. }
    destruct Hi as [-> Hi]. eapply wp_read_ring; [exact Hf|exact Hring|done|lia|apply Htab|]. intros p Hp. eapply wp_mono; [eapply wp_fast_one; [exact Htab|done|apply HL; by eapply list_elem_of_lookup_2|]|].
    + rewrite elem_of_list_to_set. intros (j & Hj & Hjl)%elem_of_take. assert (j = length l1) by (by eapply NoDup_lookup). lia.
    + intros tb' s2 Htab2. rewrite length_app. cbn [length]. rewrite Nat.add_1_r, (take_S_r _ _ _ Hp), list_to_set_app_L. cbn. rewrite (right_id_L ∅ (∪)), (comm_L (∪)). exact Htab2.
  - intros tb s1 (Hsm & A1 & F1 & t1 & D1 & B1 & P1 & Ht1 & HD). rewrite length_seqZ, Nat2Z.id in HD. apply wp_bind. eapply wp_mono; [by eapply wp_give_all|]. intros tb' s2 [Hs2 Hx]. rewrite HD in Hx.
    eapply wp_cut; [done|exact Hf|done|done|lia|split; [by eauto|exact Hx]|done].
Qed.

End fast.
