(* ===== verification/MakStock.v ===== *)
(** * Makalu: taking objects

    The free objects of a block go to an array: [MAK_build_array_fl] for a new block,
    [MAK_build_fl_array_from_mark_bits] and [MAK_reclaim_to_array_generic] for a block of a reclaim
    list. *)

From S2P Require Import Prelude MakHdr MakBlock MakLib MakIndex MakHeap MakAlloc MakObj MakOwn MakPool.
From S2P Require Import MakGive MakSegs.
From stdpp Require Import sorting.
#[local] Open Scope Z_scope.
#[local] Open Scope cmd_scope.

(** ** The free objects of a block *)

(** From number [j] on. *)
Definition free_from (n g : Z) (m : list Z) (j : Z) : list Z :=
  (fun i => n * HBLKSZ + i * (16 * g)) <$> filter (fun i => mbit m (i * g) = false) (seqZ j (objs g - j)).

Lemma free_from_end n g m j : objs g <= j -> free_from n g m j = [].
Proof. intros Hj. unfold free_from. rewrite seqZ_nil by lia. done. Qed.

Lemma free_from_step n g m j : j < objs g -> free_from n g m j = (if mbit m (j * g) then [] else [n * HBLKSZ + j * (16 * g)]) ++ free_from n g m (j + 1).
Proof.
  intros Hj. unfold free_from. rewrite seqZ_cons by lia. replace (Z.pred (objs g - j)) with (objs g - (j + 1)) by lia. replace (Z.succ j) with (j + 1) by lia. rewrite filter_cons.
  destruct (mbit m (j * g)) eqn:E; [by rewrite decide_False|by rewrite decide_True].
Qed.

Lemma free_set n g m : 1 <= g <= 128 -> list_to_set (free_from n g m 0) = objset n g (mset ALL_MARKED g ∖ mset m g).
Proof.
  intros Hg. apply leibniz_equiv. intros p. rewrite elem_of_list_to_set, elem_objset. split.
  - intros (j & -> & [Hb Hj]%list_elem_of_filter)%list_elem_of_fmap. exists j. split; [done|]. rewrite mset_all, elem_of_difference, elem_of_list_to_set, elem_of_seqZ, elem_mset by done. rewrite elem_of_seqZ in Hj. split; [lia|]. intros [_ Hx]. congruence.
  - intros (j & -> & Hj). rewrite mset_all, elem_of_difference, elem_of_list_to_set, elem_of_seqZ, elem_mset in Hj by done. apply list_elem_of_fmap. exists j. split; [done|]. apply list_elem_of_filter. rewrite elem_of_seqZ.
    split; [|lia]. apply not_true_is_false. intros Hx. apply (proj2 Hj). split; [lia|done].
Qed.

Lemma free_nodup n g m j : 1 <= g <= 128 -> NoDup (free_from n g m j).
Proof.
  intros Hg. unfold free_from. apply NoDup_fmap_2_strong; [|apply NoDup_filter, NoDup_seqZ]. intros x y _ _ He. nia.
Qed.

Lemma free_length n g m j : 0 <= j <= objs g -> Z.of_nat (length (free_from n g m j)) <= objs g - j.
Proof. intros Hj. unfold free_from. rewrite length_fmap. pose proof (length_filter (fun i => mbit m (i * g) = false) (seqZ j (objs g - j))). rewrite length_seqZ in H. lia. Qed.

(** ** Writing them to an array *)

(** The objects [L] are at the front of the array, which is otherwise the array [f]. *)
Definition front (f : fl_hdr) (k : nat) (L : list Z) (f' : fl_hdr) : Prop :=
  exists a, fl f' = Some a /\ length a = k /\ start_idx f' = start_idx f /\ count f' = count f /\ forall i p, L !! i = Some p -> a !! i = Some p.

Lemma front_write f k L f' a p : front f k L f' -> fl f' = Some a -> (length L < k)%nat -> front f k (L ++ [p]) (fl_array (Some (<[length L := p]> a)) f').
Proof.
  intros (a' & Ha & Hl & Hs & Hc & Hx) Ha' Hlt. assert (a' = a) as -> by congruence. eexists. split; [done|]. cbn. split; [by rewrite length_insert|]. split; [done|]. split; [done|].
  intros i q Hi. destruct (decide (i = length L)) as [->|Hne].
  - rewrite lookup_app_r, Nat.sub_diag in Hi by lia. injection Hi as <-. apply list_lookup_insert_eq. lia.
  - rewrite list_lookup_insert_ne by done. apply Hx. apply lookup_app_Some in Hi as [?|[Hge Hi]]; [done|]. apply lookup_lt_Some in Hi. cbn in Hi. lia.
Qed.

Lemma wp_front_write T l s f k L f' p (Q : unit -> makalu -> Prop) : normal_loc l -> arr l s = Some f' -> front f k L f' -> (length L < k)%nat ->
  (forall s' f'', arr_set l f'' s s' -> front f k (L ++ [p]) f'' -> Q tt s') -> wp T (st_fl_at l (Z.of_nat (length L)) p) s Q.
Proof.
  intros Hl Hf Hfr Hlt HQ. pose proof Hfr as (a & Ha & Hla & _). eapply wp_st_fl_at; [done|exact Hf|exact Ha|lia|]. intros s' Hs. eapply HQ; [exact Hs|]. rewrite Nat2Z.id. by apply front_write.
Qed.

(** The last place at which an object can start. *)
Lemma scan_test n g j : 1 <= g <= 128 -> 0 <= j -> (n * HBLKSZ + j * (16 * g) <=? n * HBLKSZ + HBLKSZ - 16 * g) = (j <? objs g).
Proof. intros Hg Hj. destruct (objs_spec g Hg) as [_ Ho]. unfold HBLKSZ in *. destruct (Z.ltb_spec j (objs g)), (Z.leb_spec (n * 4096 + j * (16 * g)) (n * 4096 + 4096 - 16 * g)); nia. Qed.

Lemma scan_bit g j : j * g + BYTES_TO_GRANULES (16 * g) = (j + 1) * g.
Proof. unfold BYTES_TO_GRANULES. rewrite Z.shiftr_div_pow2 by lia. change (2 ^ 4) with 16. rewrite (Z.mul_comm 16 g), Z.div_mul by done. lia. Qed.

Lemma wp_mark_bits_scan T l n g m f k (Q : Z -> makalu -> Prop) : normal_loc l -> 1 <= g <= 128 -> (Z.to_nat (objs g) <= k)%nat -> forall fuel j L s f',
  0 <= j <= objs g -> objs g - j < Z.of_nat fuel -> arr l s = Some f' -> front f k L f' -> Z.of_nat (length L) <= j ->
  (forall s' f'', arr_set l f'' s s' -> front f k (L ++ free_from n g m j) f'' -> Q (Z.of_nat (length (L ++ free_from n g m j))) s') ->
  wp T (mark_bits_scan fuel l m (n * HBLKSZ + j * (16 * g)) (n * HBLKSZ + HBLKSZ - 16 * g) (16 * g) (j * g) (Z.of_nat (length L))) s Q.
Proof.
  intros Hl Hg Hk. induction fuel as [|fuel IH]; intros j L s f' Hj Hfu Hf Hfr Hle HQ; [lia|]. cbn [mark_bits_scan]. rewrite scan_test by lia. destruct (Z.ltb_spec j (objs g)) as [Hlt|Hge].
  - rewrite mark_bit_zero by (pose proof (obj_bit g j Hg ltac:(lia)); lia). rewrite (scan_bit g j). replace (n * HBLKSZ + j * (16 * g) + 16 * g) with (n * HBLKSZ + (j + 1) * (16 * g)) by lia. apply wp_bind.
    rewrite free_from_step in HQ by done. destruct (mbit m (j * g)); cbn [negb app] in *.
    + apply wp_ret. eapply IH; [lia|lia|exact Hf|exact Hfr|lia|done].
    + apply wp_bind. eapply wp_front_write; [done|exact Hf|exact Hfr|lia|]. intros s1 f1 Hs1 Hf1. apply wp_ret.
      replace (Z.of_nat (length L) + 1) with (Z.of_nat (length (L ++ [n * HBLKSZ + j * (16 * g)]))) by (rewrite length_app; cbn; lia).
      eapply IH; [lia|lia|apply Hs1|exact Hf1|rewrite length_app; cbn; lia|]. intros s2 f2 Hs2 Hf2. rewrite <- app_assoc in *. eapply HQ; [by eapply arr_set_trans|done].
  - rewrite free_from_end, app_nil_r in HQ by lia. eapply HQ; [by apply arr_set_same|done].
Qed.

Lemma build_scan_eq fuel l p plim sz b idx s : build_scan fuel l p plim sz idx s = mark_bits_scan fuel l (replicate 5 0) p plim sz b idx s.
Proof.
  revert p b idx s. induction fuel as [|fuel IH]; intros p b idx s; [done|]. cbn [build_scan mark_bits_scan]. destruct (p <=? plim); [|done].
  assert (Hb : mark_bit (replicate 5 0) b = 0). { unfold mark_bit. destruct (replicate 5 0 !! _) as [w|] eqn:Ew; cbn; [apply lookup_replicate in Ew as [-> _]|]; by rewrite Z.shiftr_0_l. }
  rewrite Hb. cbn [Z.eqb]. rewrite cbind_assoc. unfold cbind at 1. symmetry. unfold cbind at 1. destruct (st_fl_at l idx p s) as [[[] s']|e]; [|done]. cbn. symmetry. apply IH.
Qed.

(** The scan of a whole block. *)
Lemma wp_whole_block T l n g m f a s (Q : Z -> makalu -> Prop) : normal_loc l -> 1 <= g <= 128 -> objs g <= Z.of_nat (length a) -> arr l s = Some f -> fl f = Some a ->
  (forall s' f', arr_set l f' s s' -> front f (length a) (free_from n g m 0) f' -> Q (Z.of_nat (length (free_from n g m 0))) s') ->
  wp T (mark_bits_scan OBJ_FUEL l m (n * HBLKSZ) (n * HBLKSZ + HBLKSZ - 16 * g) (16 * g) 0 0) s Q.
Proof.
  intros Hl Hg Hcap Hf Ha HQ. destruct (objs_spec g Hg) as [Hob _]. pose proof (wp_mark_bits_scan T l n g m f (length a) Q Hl Hg ltac:(lia) OBJ_FUEL 0 [] s f) as Hw.
  replace (n * HBLKSZ + 0 * (16 * g)) with (n * HBLKSZ) in Hw by lia. rewrite Z.mul_0_l in Hw. change (Z.of_nat (length [])) with 0 in Hw. change (Z.of_nat OBJ_FUEL) with 257 in Hw. apply Hw; [lia|lia|done|by exists a|lia|done].
Qed.

(** ** All objects of a block are in use *)

Definition add_keys (D : gset Z) (z : Z) (O : gmap Z Z) : gmap Z Z := gset_to_gmap z D ∪ O.

Lemma lookup_add_keys D z O p y : add_keys D z O !! p = Some y <-> (p ∈ D /\ y = z) \/ ((p ∉ D) /\ O !! p = Some y).
Proof.
  unfold add_keys. rewrite lookup_union_Some_raw, lookup_gset_to_gmap_Some, lookup_gset_to_gmap_None. naive_solver.
Qed.

Lemma pool_filled A t O n g r f : 1 <= g <= 128 -> runs_ok A {[n]} -> rl_ok A t {[n]} -> A !! n = Some r -> hb_sz (f (ar_data r)) = 16 * g ->
  (forall p z, bno p <> n -> (is_obj A p z <-> O !! p = Some z)) -> (forall p z, bno p = n -> O !! p = Some z -> z = 16 * g /\ p ∈ objset n g (mset ALL_MARKED g)) -> run_ok (f (ar_data r)) -> page_reclaim_state (f (ar_data r)) = IN_FLOATING ->
  mset (hb_marks (f (ar_data r))) g = mset ALL_MARKED g -> pool_ok (upd_run f n A) t (add_keys (objset n g (mset ALL_MARKED g)) (16 * g) O).
Proof.
  intros Hg Hr Hrl Hn Hsz Ho Ho' Hok Hst Hm. pose proof (lookup_upd_run f _ _ _ Hn) as Hn1. split.
  - intros m r' Hm' _. destruct (decide (m = n)) as [->|Hne]; [rewrite Hn1 in Hm'; by injection Hm' as <-|]. rewrite lookup_upd_run_ne in Hm' by done. apply (Hr m r' Hm'). by apply not_elem_of_singleton.
  - apply (rl_except _ _ {[n]}).
    + intros m g' _ (r' & Hr' & _ & Hs'). split; [|by intros ?%not_elem_of_empty]. intros ->%elem_of_singleton. rewrite Hn1 in Hr'. injection Hr' as <-. cbn in Hs'. rewrite Hst in Hs'. done.
    + eapply rl_ext; [|exact Hrl]. intros m Hm'. apply not_elem_of_singleton in Hm'. by rewrite lookup_upd_run_ne.
  - intros p z. rewrite lookup_add_keys. destruct (decide (bno p = n)) as [Hp|Hp].
    + unfold is_obj. rewrite Hp, Hn1. split.
      * intros (r' & [= <-] & Hz & [[Hx _]|(g' & j & Hg' & He & Hj & Hpj)]); cbn in Hz; [unfold MAXOBJBYTES in Hx; lia|]. assert (g' = g) as -> by lia. left. split; [|lia]. apply elem_objset. exists j. cbn in Hj. rewrite <- Hm. split; [lia|done].
      * intros [[Hx ->]|[Hx Hy]]; [|destruct (Ho' p z Hp Hy); done]. apply elem_objset in Hx as (j & Hpj & Hj). eexists. split; [done|]. split; [exact Hsz|]. right. exists g, j. cbn. rewrite Hm. done.
    + rewrite (objs_elsewhere A _ p z n Hp) by (intros m; apply lookup_upd_run_ne). rewrite (Ho p z Hp). split; [intros Hx; right; split; [|done]; intros ?%objset_bno; done|]. intros [[Hx _]|[_ ?]]; [|done]. by apply objset_bno in Hx.
Qed.

(** ** The array gets the objects *)

(** Other arrays stay. *)
Definition moved (l : fl_loc) (s s' : makalu) : Prop := (forall l', other l l' -> arr l' s' = arr l' s) /\ keeps s s'.

Lemma moved_trans l s1 s2 s3 : moved l s1 s2 -> moved l s2 s3 -> moved l s1 s3.
Proof. intros [H1 H2] [H3 H4]. split; [intros l' Hl; by rewrite H3, H1|by eapply keeps_trans]. Qed.

Lemma same_moved l s s' : same s s' -> moved l s s'.
Proof. intros Hs. split; [intros l' _; by apply same_arr|by apply same_keeps]. Qed.

Lemma arr_set_moved l f s s' : arr_set l f s s' -> moved l s s'.
Proof. intros (H1 & _ & H3). split; [done|by apply arrs_keeps]. Qed.

#[local] Hint Resolve moved_trans same_moved arr_set_moved : core.

Section take.
Context `{!PersistentMem} {own : heap -> gmap Z arun -> gset Z -> Prop} `{!BlockHeap own} {LIM : Z} `{!MemLimit LIM}.
Local Abbreviation based := (based own LIM).

(** New objects are in the array, from its first place on. *)
Definition took (l : fl_loc) (g : Z) (k : nat) (O : gmap Z Z) (s s' : makalu) : Prop :=
  moved l s s' /\ exists L f a, L <> [] /\ NoDup L /\ (forall p, p ∈ L -> O !! p = None) /\ Z.of_nat (length L) <= objs g /\ arr l s' = Some f /\ fl f = Some a /\ length a = k /\
    count f = Z.of_nat (length L) /\ (forall i p, L !! i = Some p -> a !! i = Some p) /\ exists A F t, based s' A F t /\ pool_ok A t (add_keys (list_to_set L) (16 * g) O).

(** A block whose free objects have all been written to the array. *)
Lemma took_block l g k O s s1 f f1 n m A F t (Q : unit -> makalu -> Prop) T : normal_loc l -> 1 <= g <= 128 -> moved l s s1 -> arr l s1 = Some f1 -> front f k (free_from n g m 0) f1 ->
  based s1 A F t -> pool_ok A t (add_keys (objset n g (mset ALL_MARKED g)) (16 * g) O) -> (Z.of_nat (size (mset m g)) < objs g) ->
  (forall p z, bno p = n -> (O !! p = Some z <-> z = 16 * g /\ p ∈ objset n g (mset m g))) ->
  (forall s', took l g k O s s' -> Q tt s') -> wp T (upd_fl l (fl_count (Z.of_nat (length (free_from n g m 0))))) s1 Q.
Proof.
  intros Hl Hg Hmv Hf (a & Ha & Hla & _ & _ & Hx) B P Hfree Ho HQ. eapply wp_upd_fl; [done|exact Hf|]. intros s2 H2. apply HQ. split; [by eauto|]. pose proof (free_set n g m Hg) as Hset.
  exists (free_from n g m 0), (fl_count (Z.of_nat (length (free_from n g m 0))) f1), a. destruct (objs_spec g Hg) as [Hob _].
  assert (Hsub : mset m g ⊆ mset ALL_MARKED g) by (rewrite mset_all by done; intros j [Hj _]%elem_mset; apply elem_of_list_to_set, elem_of_seqZ; lia).
  split_and!; try done.
  - intros Hnil. rewrite Hnil in Hset. cbn in Hset. assert (Hd : mset ALL_MARKED g ∖ mset m g = ∅).
    { apply leibniz_equiv. intros j. split; [|by intros ?%not_elem_of_empty]. intros Hj. assert (Hin : n * HBLKSZ + j * (16 * g) ∈ (∅ : gset Z)); [|done]. rewrite Hset. apply elem_objset. by exists j. }
    pose proof (size_all g Hg) as Hall. pose proof (size_difference _ _ Hsub) as Hsd. rewrite Hd, size_empty in Hsd. apply subseteq_size in Hsub. lia.
  - by apply free_nodup.
  - intros p Hp. apply (elem_of_list_to_set (C := gset Z)) in Hp. rewrite Hset in Hp. apply elem_objset in Hp as (j & Hpj & [Hj1 Hj2]%elem_of_difference). pose proof Hj1 as [Hjr _]%elem_mset. destruct (obj_addr n g j Hg Hjr) as [Hb _]. rewrite <- Hpj in Hb.
    destruct (O !! p) as [z|] eqn:E; [|done]. apply (Ho p z Hb) in E as [_ (j' & Hp' & Hj')%elem_objset]. assert (j' = j) as -> by nia. done.
  - pose proof (free_length n g m 0 ltac:(lia)). lia.
  - apply H2.
  - exists A, F, t. split; [eapply based_arrs; [apply H2|done]|]. replace (add_keys _ _ O) with (add_keys (objset n g (mset ALL_MARKED g)) (16 * g) O); [done|]. rewrite Hset.
    apply map_eq. intros p. apply option_eq. intros z. rewrite !lookup_add_keys, !elem_objset. split.
    + intros [[(j & Hpj & Hj) ->]|[Hn HO]]; [|right; split; [|done]; intros (j & Hpj & [Hj _]%elem_of_difference); apply Hn; by exists j].
      destruct (decide (j ∈ mset m g)) as [Hjm|Hjm]; [|left; split; [|done]; exists j; by rewrite elem_of_difference]. right. pose proof Hj as [Hjr _]%elem_mset. split.
      * intros (j' & Hpj' & [_ Hj']%elem_of_difference). assert (j' = j) as -> by nia. done.
      * apply Ho; [rewrite Hpj; by apply obj_addr|]. split; [done|]. apply elem_objset. by exists j.
    + intros [[(j & Hpj & [Hj _]%elem_of_difference) ->]|[Hn HO]]; [left; split; [by exists j|done]|]. destruct (decide (bno p = n)) as [Hb|Hb].
      * pose proof HO as HO'. apply (Ho p z Hb) in HO' as [-> (j & Hpj & Hj)%elem_objset]. left. split; [|done]. exists j. split; [done|by apply Hsub].
      * right. split; [|done]. intros (j & Hpj & [Hj _]%elem_mset). apply Hb. rewrite Hpj. by apply obj_addr.
Qed.

Lemma rl_head A t O g b : pool_ok A t O -> 1 <= g <= 128 -> t !! Z.to_nat g = Some b -> b <> 0 ->
  exists n r, b = n * HBLKSZ /\ small_run A n g r /\ page_reclaim_state (ar_data r) = IN_RECLAIMLIST.
Proof.
  intros P Hg Hb Hb0. destruct (po_rl _ _ _ P g Hg) as (b' & L & Hb' & HL). assert (b' = b) as -> by congruence. pose proof (proj1 HL) as Hd. destruct L as [|a L]; [done|]. destruct Hd as (<- & _).
  destruct (rl_elem _ _ _ _ _ b HL ltac:(left)) as (n & -> & (r & Hr & Hs & Hst) & _). by exists n, r.
Qed.

(** Every object of the block is in use. *)
Lemma in_use_ok x g : 1 <= g <= 128 -> hb_sz x = 16 * g -> hb_obj_kind x = NORMAL -> hb_n_marks x = objs g -> mset (hb_marks x) g = mset ALL_MARKED g -> length (hb_marks x) = 5%nat -> page_reclaim_state x = IN_FLOATING -> run_ok x.
Proof.
  intros Hg Hs Hk Hn Hm Hl Hst. split; [done|]. right. exists g. destruct (objs_spec g Hg) as [Ho _]. pose proof (thr_spec g Hg). rewrite Hm, size_all, Hn by done. split; [done|]. split; [done|]. split; [done|]. split; [done|]. split; [lia|]. right. split; [done|lia].
Qed.

(** The objects of the runs but one. *)
Lemma lk_other A A' O n : lk (delete n A) (delete n A') -> objs_are A O -> forall p z, bno p <> n -> (is_obj A' p z <-> O !! p = Some z).
Proof.
  intros Hlk Ho p z Hp. rewrite <- (Ho p z). rewrite <- (objs_elsewhere A (delete n A) p z n Hp) by (intros m Hm; by rewrite lookup_delete_ne). rewrite <- (objs_elsewhere A' (delete n A') p z n Hp) by (intros m Hm; by rewrite lookup_delete_ne).
  split; apply lk_is_obj; [by apply lk_sym|done].
Qed.

Lemma wp_malloc_many_reclaim T s A F t O g b l c f a (Q : unit -> makalu -> Prop) : based s A F t -> pool_ok A t O -> 1 <= g <= 128 -> t !! Z.to_nat g = Some b -> b <> 0 -> normal_loc l -> arr l s = Some f -> fl f = Some a -> objs g <= Z.of_nat (length a) ->
  (forall s', took l g (length a) O s s' -> Q tt s') -> wp T (malloc_many_reclaim (16 * g) 1 g l c b) s Q.
Proof.
  intros B P Hg Hb Hb0 Hl Hf Ha Hcap HQ. destruct (rl_head _ _ _ _ _ P Hg Hb Hb0) as (n & r & Hbn & Hr & Hst). pose proof Hr as (Hn & Hs & _). destruct (small_ok _ _ _ _ (po_runs _ _ _ P) Hr) as (Hk & Hlm & Hcnt & _ & Hor).
  unfold malloc_many_reclaim. apply wp_bind. eapply (wp_cache B); [rewrite Hbn, bno_addr; exact Hn|]. intros s1 B1 Hs1. apply wp_bind. eapply (wp_get B1); [exact Hn|].
  eapply wp_pop_block; [apply finds_cache|exact B1|exact (po_rl _ _ _ P)|done|exact Hb|done|done|exact Hn|]. intros s2 A2 t2 B2 Hs2 Hlk Hrl. destruct (lk_lookup _ _ _ _ Hlk Hn) as (r2 & Hr2 & (_ & Hh2 & Hsz2 & Hk2 & _ & _ & Hm2)%core_fields).
  rewrite <- Hh2. apply wp_bind. eapply (wp_get B2); [exact Hr2|]. apply wp_bind. eapply (wp_put B2); [exact Hr2|by intros []|]. intros s3 B3 Hs3. apply wp_bind.
  change (ar_hdr r2) with (ar_hdr (ar_set (all_in_use (ar_data r2)) r2)). eapply (wp_put B3); [by apply lookup_upd_run|by intros []|]. intros s4 B4 Hs4. rewrite upd_run_upd in B4. apply wp_bind. rewrite Hm2, Hbn. unfold MAK_build_fl_array_from_mark_bits.
  assert (H04 : same s s4) by (eapply same_trans; [|exact Hs4]; by eauto). rewrite <- (same_arr _ _ _ H04) in Hf. destruct (objs_spec g Hg) as [Hob _].
  eapply (wp_whole_block _ _ n g (hb_marks (ar_data r)) f a _ _ Hl Hg Hcap Hf Ha). intros s5 f5 H5 Hf5.
  eapply (took_block l g (length a) O s); [done|done|by eauto|apply H5|exact Hf5|eapply based_arrs; [apply H5|exact B4]| | |intros p z Hp; by apply (block_objs A O n g r p z (po_objs _ _ _ P) Hr Hp)|done].
  - eapply (pool_filled A2 t2 O n g r2); [done|intros m' r' Hr' _; by eapply (lk_runs A A2 ∅ Hlk (po_runs _ _ _ P) m' r')|done|exact Hr2|by cbn; rewrite Hsz2|eapply lk_other; [by apply lk_delete|apply P]| | |done|done].
    + intros p z Hp HO. apply (block_objs A O n g r p z (po_objs _ _ _ P) Hr Hp) in HO as [-> (j & Hpj & Hj)%elem_objset]. split; [done|]. apply elem_objset. exists j. split; [done|]. rewrite mset_all by done. apply elem_mset in Hj as [Hj _]. apply elem_of_list_to_set, elem_of_seqZ. lia.
    + apply (in_use_ok _ g); try done; cbn; [by rewrite Hsz2|by rewrite Hk2|by rewrite Hsz2, Hs].
  - pose proof (thr_spec g Hg). destruct Hor as [[_ ?]|[Hx _]]; [lia|]. rewrite Hst in Hx. done.
Qed.

(** ** A new block *)

Lemma small_blocks g : 1 <= g <= 128 -> OBJ_SZ_TO_BLOCKS (16 * g) = 1.
Proof. intros Hg. unfold OBJ_SZ_TO_BLOCKS. rewrite divHBLKSZ_eq, u64_small by (unfold HBLKSZ; lia). unfold HBLKSZ. symmetry. apply Z.div_unique with (16 * g - 1); lia. Qed.

(** A run of free blocks is no allocated run. *)
Lemma free_fresh s A F t n k : based s A F t -> run n k ⊆ F -> 0 < k -> A !! n = None.
Proof.
  intros B Hs Hk. destruct (A !! n) as [r|] eqn:E; [|done]. pose proof (bh_wf _ _ _ (ba_own _ _ _ _ B)) as W. assert (Hal : allocated (view A F) !! n = Some (ar_len r)) by (cbn; by rewrite lookup_fmap, E).
  destruct (bw_len _ W _ _ Hal). destruct (bw_avail _ W n _ Hal n); [apply elem_run; lia|]. apply Hs, elem_run. lia.
Qed.

Lemma wp_alloc_run s A F t fuel sz (Q : Z -> makalu -> Prop) : based s A F t -> (Z.to_nat LIM < fuel)%nat -> 0 < sz < 2 ^ 61 -> 
  (forall s', based s' A F t -> same s s' -> (forall n, ~ run n (OBJ_SZ_TO_BLOCKS sz) ⊆ F) -> Q 0 s') ->
  (forall s' n a x F', based s' (<[n := mkRun (OBJ_SZ_TO_BLOCKS sz) a x]> A) F' t -> same s s' -> A !! n = None -> made sz 1 x -> 1 < n -> Q (n * HBLKSZ) s') ->
  wp True (on_blk (MAK_allochblk fuel sz 1 0)) s Q.
Proof.
  intros B Hfu Hsz H0 H1. apply wp_on_blk. eapply bh_alloc; [exact (ba_own _ _ _ _ B)|done|lia|by eapply based_fuel|..].
  - intros b Hb Hl Hno. apply H0; [by eapply based_blk|done|done].
  - intros b n a x Hb Hl Hsub Hmd. assert (B' : based (set_blk b s) (<[n := mkRun (OBJ_SZ_TO_BLOCKS sz) a x]> A) (F ∖ run n (OBJ_SZ_TO_BLOCKS sz)) t) by (by eapply based_blk).
    eapply (H1 _ n a x); [exact B'|done| |done|by apply (run_addr B' n _ (lookup_insert_eq _ _ _))]. eapply free_fresh; [exact B|exact Hsub|]. destruct (blocks_of_size sz Hsz) as (k & -> & Hk & _). lia.
Qed.

(** The objects of a new block. *)
Lemma wp_new_block T s A F t O g n a x l c f ar w (Q : unit -> makalu -> Prop) : based s (<[n := mkRun 1 a x]> A) F t -> pool_ok A t O -> A !! n = None -> made (16 * g) 1 x -> 1 <= g <= 128 -> w * 8 = 16 * g ->
  normal_loc l -> arr l s = Some f -> fl f = Some ar -> objs g <= Z.of_nat (length ar) ->
  (forall s', took l g (length ar) O s s' -> Q tt s') -> wp T (k <- MAK_build_array_fl c l (n * HBLKSZ) w; upd_fl l (fl_count k)) s Q.
Proof.
  intros B P Hnone (Hs & Hk & Hc & Hlm) Hg Hw Hl Hf Ha Hcap HQ. set (A1 := <[n := mkRun 1 a x]> A) in *. assert (Hn : A1 !! n = Some (mkRun 1 a x)) by apply lookup_insert_eq.
  apply wp_bind. unfold MAK_build_array_fl. apply wp_bind. eapply (wp_cache B); [rewrite bno_addr; exact Hn|]. intros s1 B1 Hs1. apply wp_bind. rewrite Hw. unfold wp at 1. rewrite (build_scan_eq _ _ _ _ _ 0).
  apply (wp_whole_block T l n g (replicate 5 0) f ar s1); [done|done|done|by rewrite (same_arr _ _ _ Hs1)|done|]. intros s2 f2 H2 Hf2. pose proof (based_arrs _ _ _ _ _ _ _ (proj1 H2) B1) as B2.
  apply wp_bind. eapply (wp_put B2 _ _ _ _ _ Hn); [by intros []|]. intros s3 B3 Hs3. apply wp_ret.
  eapply (took_block l g (length ar) O s); [done|done|eapply moved_trans; [by apply same_moved|by eauto]|rewrite (same_arr _ _ _ Hs3); apply H2|exact Hf2|exact B3| | | |done].
  - eapply (pool_filled A1 t O n g (mkRun 1 a x)); [done| | |exact Hn|done| | | |done|done].
    + intros m r' [[<- _]|[_ Hr']]%lookup_insert_Some Hm; [by destruct Hm; apply elem_of_singleton|]. by apply (po_runs _ _ _ P m r').
    + eapply rl_ext; [|eapply rl_except; [|exact (po_rl _ _ _ P)]].
      * intros m Hm%not_elem_of_singleton. unfold A1. by rewrite lookup_insert_ne.
      * intros m g' _ (r' & Hr' & _). split; [by intros ?%not_elem_of_empty|]. intros ->%elem_of_singleton. congruence.
    + intros p z Hp. rewrite <- (po_objs _ _ _ P p z). apply (objs_elsewhere A A1 p z n Hp). intros m Hm. unfold A1. by rewrite lookup_insert_ne.
    + intros p z Hp (r' & Hr' & _)%(po_objs _ _ _ P). rewrite Hp in Hr'. congruence.
    + apply (in_use_ok _ g); try done. cbn. by rewrite Hs.
  - rewrite mset_none, size_empty. destruct (objs_spec g Hg) as [Ho _]. lia.
  - intros p z Hp. rewrite mset_none, elem_objset. split; [|by intros (_ & j & _ & ?%not_elem_of_empty)]. intros (r' & Hr' & _)%(po_objs _ _ _ P). rewrite Hp in Hr'. congruence.
Qed.

(** More memory: one block at least. *)
Lemma wp_expand s A F t fuel needed ignore (Q : bool -> makalu -> Prop) : based s A F t -> (Z.to_nat LIM < fuel)%nat -> 0 < needed < 2 ^ 48 ->
  (forall s' n len, based s' A (F ∪ run n len) t -> same s s' -> needed <= len -> Q true s') -> wp True (on_blk (MAK_try_expand_hp fuel needed ignore)) s Q.
Proof.
  intros B Hfu Hn HQ. apply wp_on_blk. eapply bh_expand; [exact (ba_own _ _ _ _ B)|done|by eapply based_fuel|]. intros b n len Hb Hl Hle _. eapply HQ; [by eapply based_blk|done|done].
Qed.

Lemma expanded_run F n len k : k <= len -> run n k ⊆ F ∪ run n len.
Proof. intros Hk m Hm%elem_run. apply elem_of_union_r, elem_run. lia. Qed.

Lemma wp_malloc_many_block s A F t O fuel g l c f ar (Q : unit -> makalu -> Prop) : based s A F t -> pool_ok A t O -> (Z.to_nat LIM < fuel)%nat -> 1 <= g <= 128 ->
  normal_loc l -> arr l s = Some f -> fl f = Some ar -> objs g <= Z.of_nat (length ar) ->
  (forall s', took l g (length ar) O s s' -> Q tt s') -> wp True (malloc_many_block fuel (16 * g) 1 l c) s Q.
Proof.
  intros B P Hfu Hg Hl Hf Ha Hcap HQ. unfold malloc_many_block. assert (Hw : BYTES_TO_WORDS (16 * g) * 8 = 16 * g).
  { unfold BYTES_TO_WORDS. rewrite Z.shiftr_div_pow2 by lia. change (2 ^ 3) with 8. replace (16 * g) with (2 * g * 8) by lia. by rewrite Z.div_mul. }
  assert (Hend : forall s1 F1 n a x, same s s1 -> based s1 (<[n := mkRun (OBJ_SZ_TO_BLOCKS (16 * g)) a x]> A) F1 t -> A !! n = None -> made (16 * g) 1 x -> 1 < n ->
    wp True (if n * HBLKSZ =? 0 then cret tt else k <- MAK_build_array_fl c l (n * HBLKSZ) (BYTES_TO_WORDS (16 * g)); upd_fl l (fl_count k)) s1 Q).
  { intros s1 F1 n a x Hs1 B1 Hnone Hmd Hn1. destruct (Z.eqb_spec (n * HBLKSZ) 0); [unfold HBLKSZ in *; lia|]. rewrite small_blocks in B1 by done. eapply wp_new_block; [exact B1|done|done|done|done|done|done|by rewrite (same_arr _ _ _ Hs1)|done|done|].
    intros s' [Hmv Hx]. apply HQ. split; [by eauto|exact Hx]. }
  apply wp_bind. eapply (wp_alloc_run _ _ _ _ _ _ _ B Hfu); [lia|..].
  - intros s1 B1 Hs1 _. rewrite Z.eqb_refl. apply wp_bind, wp_bind. eapply (wp_expand _ _ _ _ _ _ _ _ B1 Hfu); [lia|]. intros s2 n len B2 Hs2 Hle. apply wp_bind. eapply (wp_alloc_run _ _ _ _ _ _ _ B2 Hfu); [lia|..].
    + intros s3 B3 Hs3 Hno. destruct (Hno n). rewrite small_blocks by done. by apply expanded_run.
    + intros s3 n' a x F' B3 Hs3 Hnone Hmd Hn1. destruct (Z.eqb_spec (n' * HBLKSZ) 0); [unfold HBLKSZ in *; lia|]. apply wp_ret. eapply Hend; [by eauto|exact B3|done|done|done].
  - intros s1 n a x F' B1 Hs1 Hnone Hmd Hn1. apply wp_bind. destruct (Z.eqb_spec (n * HBLKSZ) 0); [unfold HBLKSZ in *; lia|]. apply wp_ret. pose proof (Hend s1 F' n a x Hs1 B1 Hnone Hmd Hn1) as Hx. destruct (Z.eqb_spec (n * HBLKSZ) 0); [lia|exact Hx].
Qed.

(** ** A block of a reclaim list, for an array of the process *)

Definition with_marks (m : list Z) (x : hdr) : hdr := hdr_marks (hb_n_marks x) m x.

Lemma wp_reclaim_scan T l n g m f k A F t r (Q : Z -> makalu -> Prop) : normal_loc l -> 1 <= g <= 128 -> (Z.to_nat (objs g) <= k)%nat -> A !! n = Some r -> forall fuel j L s f' mj,
  0 <= j <= objs g -> objs g - j < Z.of_nat fuel -> arr l s = Some f' -> front f k L f' -> Z.of_nat (length L) <= j ->
  based s (upd_run (with_marks mj) n A) F t -> length mj = 5%nat -> (forall i, 0 <= i < j -> mbit mj (i * g) = true) -> (forall i, j <= i < objs g -> mbit mj (i * g) = mbit m (i * g)) ->
  (forall s' f'' m', moved l s s' -> arr l s' = Some f'' -> front f k (L ++ free_from n g m j) f'' -> based s' (upd_run (with_marks m') n A) F t -> length m' = 5%nat -> mset m' g = mset ALL_MARKED g ->
     Q (Z.of_nat (length (L ++ free_from n g m j))) s') ->
  wp T (reclaim_scan fuel l (ar_hdr r) (n * HBLKSZ + j * (16 * g)) (n * HBLKSZ + HBLKSZ - 16 * g) (16 * g) (j * g) (Z.of_nat (length L))) s Q.
Proof.
  intros Hl Hg Hk Hn. induction fuel as [|fuel IH]; intros j L s f' mj Hj Hfu Hf Hfr Hle B Hlen Hlo Hhi HQ; [lia|]. cbn [reclaim_scan]. rewrite scan_test by lia. destruct (Z.ltb_spec j (objs g)) as [Hlt|Hge].
  - pose proof (obj_bit g j Hg ltac:(lia)) as Hbit. pose proof (lookup_upd_run (with_marks mj) _ _ _ Hn) as Hn1. apply wp_bind. change (ar_hdr r) with (ar_hdr (ar_set (with_marks mj (ar_data r)) r)). eapply (wp_get B _ _ _ _ Hn1). cbn [ar_data ar_set with_marks hdr_marks hb_marks].
    rewrite mark_bit_zero by lia. rewrite (scan_bit g j). replace (n * HBLKSZ + j * (16 * g) + 16 * g) with (n * HBLKSZ + (j + 1) * (16 * g)) by lia. apply wp_bind. rewrite Hhi by lia.
    rewrite free_from_step in HQ by done. destruct (mbit m (j * g)) eqn:Eb; cbn [negb app] in *.
    + apply wp_ret. eapply IH; [lia|lia|exact Hf|exact Hfr|lia|exact B|done| |intros i Hi; apply Hhi; lia|done]. intros i Hi. destruct (decide (i = j)) as [->|]; [by rewrite Hhi by lia|apply Hlo; lia].
    + apply wp_bind. eapply wp_front_write; [done|exact Hf|exact Hfr|lia|]. intros s1 f1 Hs1 Hf1. pose proof (based_arrs _ _ _ _ _ _ _ (proj1 Hs1) B) as B1. apply wp_bind. eapply (wp_put B1 _ _ _ _ _ Hn1); [by intros []|]. intros s2 B2 Hs2. apply wp_ret.
      rewrite upd_run_upd in B2. rewrite (upd_run_at _ (with_marks (set_mark_bit mj (j * g))) _ _ _ Hn) in B2 by done.
      replace (Z.of_nat (length L) + 1) with (Z.of_nat (length (L ++ [n * HBLKSZ + j * (16 * g)]))) by (rewrite length_app; cbn; lia).
      eapply IH; [lia|lia|rewrite (same_arr _ _ _ Hs2); apply Hs1|exact Hf1|rewrite length_app; cbn; lia|exact B2|unfold set_mark_bit; by rewrite length_alter|..].
      * intros i Hi. pose proof (obj_bit g i Hg ltac:(lia)). rewrite mbit_set by lia. destruct (decide (i = j)) as [->|]; [by rewrite bool_decide_true|]. rewrite Hlo by lia. apply orb_true_r.
      * intros i Hi. pose proof (obj_bit g i Hg ltac:(lia)). rewrite mbit_set by lia. rewrite bool_decide_false by nia. apply Hhi. lia.
      * intros s3 f3 m' H3 Hf3 Hfr3 B3 Hlm Hm. rewrite <- app_assoc in *. eapply HQ; [eapply moved_trans; [by eapply arr_set_moved|by eauto]|done|done|done|done|done].
  - rewrite free_from_end, app_nil_r in HQ by lia. apply wp_ret. eapply HQ; [by apply same_moved|exact Hf|done|exact B|done|]. rewrite mset_all by done. apply leibniz_equiv. intros i. rewrite elem_mset, elem_of_list_to_set, elem_of_seqZ. split; [lia|].
    intros Hi. split; [lia|]. apply Hlo. lia.
Qed.

Lemma wp_continue_reclaim T s A F t O fuel g f a (Q : unit -> makalu -> Prop) : let l := FlGlobal 1 g in based s A F t -> pool_ok A t O -> 1 <= g <= 128 -> (0 < fuel)%nat -> arr l s = Some f -> fl f = Some a -> objs g <= Z.of_nat (length a) ->
  (forall s', took l g (length a) O s s' -> Q tt s') -> (forall s', based s' A F t -> same s s' -> Q tt s') -> wp T (MAK_continue_reclaim fuel g 1) s Q.
Proof.
  intros l B P Hg Hfu Hf Ha Hcap HQ HQ0. unfold MAK_continue_reclaim. apply wp_bind, wp_gets. change (Z.to_nat 1) with 1%nat. rewrite (ba_rl _ _ _ _ B). destruct fuel as [|fuel]; [lia|]. cbn [continue_reclaim_loop].
  destruct (po_rl _ _ _ P g Hg) as (b & _ & Hb & _). apply wp_bind. eapply (wp_ld_rl B); [exact Hb|]. destruct (Z.eqb_spec b 0) as [_|Hb0]; [apply wp_ret; by apply HQ0|].
  destruct (rl_head _ _ _ _ _ P Hg Hb Hb0) as (n & r & Hbn & Hr & Hst). pose proof Hr as (Hn & Hs & _). destruct (small_ok _ _ _ _ (po_runs _ _ _ P) Hr) as (Hk & Hlm & Hcnt & _ & Hor).
  apply wp_bind. eapply (wp_cache B); [rewrite Hbn, bno_addr; exact Hn|]. intros s1 B1 Hs1. apply wp_bind. eapply (wp_get B1); [exact Hn|].
  eapply (wp_pop_block (fun p => on_blk (HDR p))); [apply finds_HDR|exact B1|exact (po_rl _ _ _ P)|done|exact Hb|done|done|exact Hn|]. intros s2 A2 t2 B2 Hs2 Hlk Hrl. destruct (lk_lookup _ _ _ _ Hlk Hn) as (r2 & Hr2 & (_ & Hh2 & Hsz2 & Hk2 & _ & _ & Hm2)%core_fields).
  rewrite <- Hh2. apply wp_bind. eapply (wp_put B2); [exact Hr2|by intros []|]. intros s3 B3 Hs3. pose proof (lookup_upd_run (hdr_next 0) _ _ _ Hr2) as Hn3. set (r3 := ar_set (hdr_next 0 (ar_data r2)) r2) in *.
  change (ar_hdr r2) with (ar_hdr r3). apply wp_bind. unfold MAK_reclaim_small_nonempty_block. apply wp_bind. eapply (wp_get B3 _ _ _ _ Hn3). change (hb_obj_kind (ar_data r3)) with (hb_obj_kind (ar_data r2)). change (hb_sz (ar_data r3)) with (hb_sz (ar_data r2)). rewrite Hk2, Hsz2, Hk, Hs.
  assert (Hgr : BYTES_TO_GRANULES (16 * g) = g) by (pose proof (scan_bit g 0); lia). rewrite Hgr. fold l. unfold MAK_reclaim_to_array_generic. apply wp_bind, wp_bind.
  assert (H03 : same s s3) by (by eauto). rewrite <- (same_arr _ _ _ H03) in Hf. destruct (objs_spec g Hg) as [Hob _]. rewrite Hbn.
  assert (HA3 : upd_run (hdr_next 0) n A2 = upd_run (with_marks (hb_marks (ar_data r))) n (upd_run (hdr_next 0) n A2)) by (rewrite (upd_run_eq _ _ _ _ Hn3); cbn; rewrite insert_id; [done|]; rewrite Hn3; unfold r3, ar_set, with_marks; cbn; rewrite <- Hm2; by destruct (ar_data r2)).
  rewrite HA3 in B3. pose proof (wp_reclaim_scan T l n g (hb_marks (ar_data r)) f (length a) (upd_run (hdr_next 0) n A2) F t2 r3) as Hscan.
  specialize (fun Q => Hscan Q ltac:(done) Hg ltac:(lia) Hn3 OBJ_FUEL 0 [] s3 f (hb_marks (ar_data r))). rewrite Z.mul_0_l, Z.add_0_r in Hscan. change (Z.of_nat (length [])) with 0 in Hscan. change (Z.of_nat OBJ_FUEL) with 257 in Hscan. cbn [app] in Hscan.
  apply Hscan; [lia|lia|done|by exists a|lia|done|done|lia|done|]. intros s4 f4 m' H4 Hf4 Hfr4 B4 Hlm' Hm'. apply wp_bind. pose proof (lookup_upd_run (with_marks m') _ _ _ Hn3) as Hn4.
  change (ar_hdr r3) with (ar_hdr (ar_set (with_marks m' (ar_data r3)) r3)). eapply (wp_put B4 _ _ _ _ _ Hn4); [by intros []|]. intros s5 B5 Hs5. apply wp_ret. rewrite upd_run_upd, upd_run_upd in B5.
  eapply (took_block l g (length a) O s); [done|done|eapply moved_trans; [by apply same_moved|by eauto]|rewrite (same_arr _ _ _ Hs5); exact Hf4|exact Hfr4|exact B5| | |intros p z Hp; by apply (block_objs A O n g r p z (po_objs _ _ _ P) Hr Hp)|].
  - eapply (pool_filled A2 t2 O n g r2); [done|intros m1 r' Hr' _; by eapply (lk_runs A A2 ∅ Hlk (po_runs _ _ _ P) m1 r')|done|exact Hr2|by cbn; rewrite Hsz2|eapply lk_other; [by apply lk_delete|apply P]| | |done|done].
    + intros p z Hp HO. apply (block_objs A O n g r p z (po_objs _ _ _ P) Hr Hp) in HO as [-> (j & Hpj & Hj)%elem_objset]. split; [done|]. apply elem_objset. exists j. split; [done|]. rewrite mset_all by done. apply elem_mset in Hj as [Hj _]. apply elem_of_list_to_set, elem_of_seqZ. lia.
    + apply (in_use_ok _ g); try done; cbn; [by rewrite Hsz2|by rewrite Hk2].
  - pose proof (thr_spec g Hg). destruct Hor as [[_ ?]|[Hx _]]; [lia|]. rewrite Hst in Hx. done.
  - intros s6 Htk. pose proof Htk as (_ & L & f6 & a6 & Hne & _ & _ & _ & Hf6 & _ & _ & Hc6 & _). apply wp_bind. eapply wp_ld_fl; [exact Hf6|]. destruct (Z.ltb_spec 0 (count f6)) as [_|Hx]; [apply wp_ret; by apply HQ|]. destruct L; [done|cbn in Hc6; lia].
Qed.

End take.

(** ** Makalu: an object from an array, or from the block heap

    [MAK_allocobj] and [MAK_generic_malloc_many] fill an array that has run out; a large object is
    a run of blocks of its own; [MAK_hc_base_with_hdr] finds the object of a pointer. *)

#[local] Hint Resolve moved_trans same_moved arr_set_moved : core.

(** Objects for an array that has run out. *)
Definition stock (g : Z) (L : list Z) (O : gmap Z Z) (L' : list Z) (O' : gmap Z Z) : Prop :=
  L' <> [] /\ ((L' = L /\ O' = O) \/ (L = [] /\ NoDup L' /\ (forall p, p ∈ L' -> O !! p = None) /\ Z.of_nat (length L') <= objs g /\ O' = add_keys (list_to_set L') (16 * g) O)).

(** ** Runs of one object *)

Lemma large_not_listed A n r g : A !! n = Some r -> MAXOBJBYTES < hb_sz (ar_data r) -> 1 <= g <= 128 -> ~ in_rl A g n.
Proof. intros Hn Hs Hg (r' & Hr' & Hs' & _). assert (r' = r) as -> by congruence. unfold MAXOBJBYTES in *. lia. Qed.

(** A new run for one object. *)
Lemma pool_large A t O n len a x z : pool_ok A t O -> A !! n = None -> made z 1 x -> MAXOBJBYTES < z -> pool_ok (<[n := mkRun len a x]> A) t (<[n * HBLKSZ := z]> O).
Proof.
  intros P Hnone (Hs & Hk & _) Hz. pose proof (lookup_insert_eq A n (mkRun len a x)) as Hn. split.
  - intros m r [[<- <-]|[_ Hr]]%lookup_insert_Some Hm; [|by apply (po_runs _ _ _ P m r)]. split; [exact Hk|]. left. cbn. by rewrite Hs.
  - apply (rl_except _ _ {[n]}).
    + intros m g Hg Hin. split; [|by intros ?%not_elem_of_empty]. intros ->%elem_of_singleton. destruct (large_not_listed _ n _ g Hn ltac:(cbn; by rewrite Hs) Hg Hin).
    + eapply rl_ext; [|eapply rl_except; [|exact (po_rl _ _ _ P)]].
      * intros m Hm%not_elem_of_singleton. by rewrite lookup_insert_ne.
      * intros m g' _ (r' & Hr' & _). split; [by intros ?%not_elem_of_empty|]. intros ->%elem_of_singleton. congruence.
  - intros p y. destruct (decide (bno p = n)) as [Hp|Hp].
    + unfold is_obj. rewrite Hp, Hn. split.
      * intros (r & [= <-] & Hy & [[_ ->]|(g & j & Hg & He & _)]); cbn in Hy; [by rewrite lookup_insert_eq, <- Hy, Hs|]. unfold MAXOBJBYTES in Hz. lia.
      * intros [[<- <-]|[_ (r' & Hr' & _)%(po_objs _ _ _ P)]]%lookup_insert_Some; [|rewrite Hp in Hr'; congruence]. eexists. split; [done|]. cbn. split; [done|]. by left.
    + rewrite (objs_elsewhere A _ p y n Hp) by (intros m Hm; by rewrite lookup_insert_ne). rewrite (po_objs _ _ _ P p y). rewrite lookup_insert_ne; [done|]. intros <-. by rewrite bno_addr in Hp.
Qed.

(** The run of a large object is gone. *)
Lemma pool_unlarge A t O n r : pool_ok A t O -> A !! n = Some r -> MAXOBJBYTES < hb_sz (ar_data r) -> pool_ok (delete n A) t (drop_keys {[n * HBLKSZ]} O).
Proof.
  intros P Hn Hz. split.
  - intros m r' [_ Hm]%lookup_delete_Some _. apply (po_runs _ _ _ P m r' Hm). apply not_elem_of_empty.
  - apply (rl_except _ _ {[n]}).
    + intros m g' _ (r' & [Hne _]%lookup_delete_Some & _). split; [|by intros ?%not_elem_of_empty]. by intros ->%elem_of_singleton.
    + eapply rl_ext; [|eapply rl_except; [|exact (po_rl _ _ _ P)]].
      * intros m Hm%not_elem_of_singleton. by rewrite lookup_delete_ne.
      * intros m g' Hg' Hin. split; [by intros ?%not_elem_of_empty|]. intros ->%elem_of_singleton. destruct (large_not_listed _ _ _ _ Hn Hz Hg' Hin).
  - intros p z. rewrite lookup_drop_keys, not_elem_of_singleton. destruct (decide (bno p = n)) as [Hp|Hp].
    + unfold is_obj at 1. rewrite Hp, lookup_delete_eq. split; [by intros (r' & ? & _)|]. intros [(r' & Hr' & Hs & [[_ He]|(g & j & Hg & Hzg & _)])%(po_objs _ _ _ P) Hne]; [by rewrite Hp in He|]. rewrite Hp in Hr'. assert (r' = r) as -> by congruence. unfold MAXOBJBYTES in Hz. lia.
    + rewrite (objs_elsewhere A _ p z n Hp) by (intros m Hm; by rewrite lookup_delete_ne). rewrite (po_objs _ _ _ P p z). split; [|by intros []]. intros Hx. split; [done|]. intros ->. by rewrite bno_addr in Hp.
Qed.

Section stock.
Context `{!PersistentMem} {own : heap -> gmap Z arun -> gset Z -> Prop} `{!BlockHeap own} {LIM : Z} `{!MemLimit LIM}.
Local Abbreviation based := (based own LIM).
Local Abbreviation took := (took (own := own) (LIM := LIM)).

Definition stocked (l : fl_loc) (g max : Z) (L : list Z) (O : gmap Z Z) (s s' : makalu) : Prop :=
  moved l s s' /\ exists L' O' f A F t, stock g L O L' O' /\ arr l s' = Some f /\ ring f max L' /\ based s' A F t /\ pool_ok A t O'.

(** The first place is the start again. *)
Lemma wp_restart T l g max O s s1 (Q : unit -> makalu -> Prop) : normal_loc l -> 1 <= g <= 128 -> objs g <= max -> took l g (Z.to_nat max) O s s1 ->
  (forall s' , stocked l g max [] O s s' -> Q tt s') -> wp T (upd_fl l (fl_start 0)) s1 Q.
Proof.
  intros Hl Hg Hmax (Hmv & L & f & a & Hne & Hnd & Hnew & Hle & Hf & Ha & Hla & Hc & Hx & A & F & t & B & P) HQ. destruct (objs_spec g Hg) as [Ho _]. eapply wp_upd_fl; [done|exact Hf|]. intros s2 H2. apply HQ. split; [by eauto|].
  exists L, (add_keys (list_to_set L) (16 * g) O), (fl_start 0 f), A, F, t. split; [split; [done|by right]|]. split; [apply H2|]. split; [|split; [eapply based_arrs; [apply H2|done]|done]].
  unfold fl_start. rewrite Ha, Hc. apply ring_fill; [lia|lia|lia|done].
Qed.

(** Where an object is in its first block. *)
Lemma obj_place s A F t p z : based s A F t -> is_obj A p z -> exists r, A !! bno p = Some r /\ hb_sz (ar_data r) = z /\ 0 < z /\ p mod 8 = 0 /\ (p mod HBLKSZ) mod z = 0 /\ (z <= HBLKSZ -> p mod HBLKSZ + z <= HBLKSZ).
Proof.
  intros B (r & Hr & Hs & Hc). exists r. split; [done|]. split; [done|]. destruct (bh_hdr _ _ _ _ _ (ba_own _ _ _ _ B) Hr) as (_ & _ & _ & Hz & _). rewrite Hs in Hz. split; [lia|]. destruct Hc as [[_ Hp]|(g & j & Hg & -> & [Hj _]%elem_mset & Hp)].
  - assert (Hm : p mod HBLKSZ = 0) by (rewrite Hp; apply Z_mod_mult). rewrite Hm, Z.mod_0_l by lia. split; [|lia]. rewrite Hp. unfold HBLKSZ. replace (bno p * 4096) with (bno p * 512 * 8) by lia. apply Z_mod_mult.
  - destruct (obj_addr (bno p) g j Hg Hj) as [_ Hm]. rewrite <- Hp in Hm. rewrite Hm. destruct (objs_spec g Hg) as [_ Ho]. split; [|split; [apply Z_mod_mult|unfold HBLKSZ in *; nia]].
    rewrite Hp. unfold HBLKSZ. replace (bno p * 4096 + j * (16 * g)) with ((bno p * 512 + j * 2 * g) * 8) by lia. apply Z_mod_mult.
Qed.

(** ** Arrays of the process *)

Context (fuel : nat) (Hfuel : (Z.to_nat LIM < fuel)%nat).

Lemma wp_new_hblk s A F t O g f a (Q : unit -> makalu -> Prop) : let l := FlGlobal 1 g in based s A F t -> pool_ok A t O -> 1 <= g <= 128 -> arr l s = Some f -> fl f = Some a -> objs g <= Z.of_nat (length a) ->
  (forall s', took l g (length a) O s s' -> Q tt s') -> (forall s', based s' A F t -> same s s' -> (forall n, ~ run n 1 ⊆ F) -> Q tt s') -> wp True (MAK_new_hblk fuel g 1) s Q.
Proof.
  intros l B P Hg Hf Ha Hcap HQ HQ0. unfold MAK_new_hblk. assert (Hb : GRANULES_TO_BYTES g = 16 * g) by (unfold GRANULES_TO_BYTES; rewrite Z.shiftl_mul_pow2 by lia; lia). rewrite Hb.
  assert (Hw : GRANULES_TO_WORDS g * 8 = 16 * g) by (unfold GRANULES_TO_WORDS; rewrite Z.shiftl_mul_pow2 by lia; lia). apply wp_bind. eapply (wp_alloc_run _ _ _ _ _ _ _ B Hfuel); [lia|..].
  - intros s1 B1 Hs1 Hno. rewrite small_blocks in Hno by done. apply wp_ret. by apply HQ0.
  - intros s1 n a1 x F' B1 Hs1 Hnone Hmd Hn1. destruct (Z.eqb_spec (n * HBLKSZ) 0); [unfold HBLKSZ in *; lia|]. rewrite small_blocks in B1 by done.
    eapply wp_new_block; [exact B1|done|done|done|done|done|done|by rewrite (same_arr _ _ _ Hs1)|done|done|]. intros s' [Hmv Hx]. apply HQ. split; [by eauto|exact Hx].
Qed.

(** An object is there. *)
Lemma took_some l g k O s s' : took l g k O s s' -> exists f, arr l s' = Some f /\ 0 < count f.
Proof. intros (_ & L & f & a & Hne & _ & _ & _ & Hf & _ & _ & Hc & _). exists f. split; [done|]. destruct L; [done|cbn in Hc; lia]. Qed.

(** One round: a new block, or more memory. *)
Lemma wp_allocobj_round k s A F t O g f a (Q : unit -> makalu -> Prop) : let l := FlGlobal 1 g in based s A F t -> pool_ok A t O -> 1 <= g <= 128 -> arr l s = Some f -> fl f = Some a -> count f = 0 -> objs g <= Z.of_nat (length a) ->
  (forall s', took l g (length a) O s s' -> Q tt s') ->
  (forall s' F', (forall n, ~ run n 1 ⊆ F) -> based s' A F' t -> same s s' -> (exists n, run n 1 ⊆ F') -> wp True (allocobj_loop (S k) fuel g 1) s' Q) ->
  wp True (allocobj_loop (S (S k)) fuel g 1) s Q.
Proof.
  intros l B P Hg Hf Ha Hc Hcap HQ Hnext. cbn [allocobj_loop]. apply wp_bind. eapply wp_ld_fl; [exact Hf|]. rewrite Hc. cbn [Z.leb Z.compare]. apply wp_bind. eapply wp_new_hblk; [exact B|exact P|done|done|done|done|..].
  - intros s2 Htk. destruct (took_some _ _ _ _ _ _ Htk) as (f2 & Hf2 & Hc2). apply wp_bind. eapply wp_ld_fl; [exact Hf2|]. destruct (Z.leb_spec (count f2) 0); [lia|]. apply wp_bind, wp_ret, wp_bind. eapply wp_ld_fl; [exact Hf2|].
    destruct (Z.leb_spec (count f2) 0); [lia|]. apply wp_ret. by apply HQ.
  - intros s2 B2 Hs2 Hno. apply wp_bind. eapply wp_ld_fl; [rewrite (same_arr _ _ _ Hs2); exact Hf|]. rewrite Hc. cbn [Z.leb Z.compare]. apply wp_bind. eapply (wp_expand _ _ _ _ _ _ _ _ B2 Hfuel); [lia|].
    intros s3 n len B3 Hs3 Hle. eapply (Hnext s3); [done|exact B3|by eauto|]. exists n. by apply expanded_run.
Qed.

Lemma wp_allocobj_loop s A F t O g f a (Q : unit -> makalu -> Prop) : let l := FlGlobal 1 g in based s A F t -> pool_ok A t O -> 1 <= g <= 128 -> arr l s = Some f -> fl f = Some a -> count f = 0 -> objs g <= Z.of_nat (length a) ->
  (forall s', took l g (length a) O s s' -> Q tt s') -> wp True (allocobj_loop (S EXPAND_FUEL) fuel g 1) s Q.
Proof.
  intros l B P Hg Hf Ha Hc Hcap HQ. eapply wp_allocobj_round; [exact B|exact P|done|done|done|done|done|done|]. intros s1 F1 _ B1 Hs1 [n Hn]. eapply wp_allocobj_round; [exact B1|exact P|done|by rewrite (same_arr _ _ _ Hs1)|done|done|done| |].
  - intros s2 [Hmv Hx]. apply HQ. split; [by eauto|exact Hx].
  - intros s2 F2 Hno _ _ _. by destruct (Hno n).
Qed.

(** The array of the process has an object, which is returned. *)
Lemma wp_allocobj s A F t O g f max L (Q : Z -> makalu -> Prop) : let l := FlGlobal 1 g in based s A F t -> pool_ok A t O -> 1 <= g <= 128 -> arr l s = Some f -> ring f max L -> max = MAK_fl_max_count g -> objs g <= max < 2 ^ 32 ->
  (forall s' L' p O' f' A' F' t', moved l s s' -> stock g L O (L' ++ [p]) O' -> arr l s' = Some f' -> ring f' max (L' ++ [p]) -> based s' A' F' t' -> pool_ok A' t' O' -> Q p s') ->
  wp True (MAK_allocobj fuel g 1) s Q.
Proof.
  intros l B P Hg Hf Hring Hmx Hmax HQ. unfold MAK_allocobj. destruct (Z.eqb_spec g 0); [lia|]. fold l.
  assert (Hend : forall s', stocked l g max L O s s' -> wp True (f <- ld_fl l; if count f <=? 0 then cret 0 else idx <- cmodulo (start_idx f + (count f - 1)) (MAK_fl_max_count g); ld_fl_at l idx) s' Q).
  { intros s' (Hmv & L1 & O1 & f1 & A1 & F1 & t1 & Hst & Hf1 & Hr1 & B1 & P1). apply wp_bind. eapply wp_ld_fl; [exact Hf1|]. destruct L1 as [|p L' _] using rev_ind; [by destruct Hst|]. pose proof Hr1 as (a1 & Ha1 & _ & Hs1 & Hc1 & Hm1 & Hx1).
    rewrite length_app in Hc1. change (length [p]) with 1%nat in Hc1. destruct (Z.leb_spec (count f1) 0); [lia|]. rewrite <- Hmx. apply wp_bind, wp_modulo; [lia|lia|]. eapply wp_ld_fl_at; [exact Hf1|exact Ha1| |by eapply HQ].
    replace (start_idx f1 + (count f1 - 1)) with (start_idx f1 + Z.of_nat (length L')) by lia. apply Hx1. by apply list_lookup_middle. }
  assert (Hend2 : forall s', stocked l g max L O s s' -> wp True ((f <- ld_fl l; (if count f <=? 0 then allocobj_loop (S EXPAND_FUEL) fuel g 1;; upd_fl l (fl_start 0) else cret tt);; (f <- ld_fl l; if count f <=? 0 then cret 0 else idx <- cmodulo (start_idx f + (count f - 1)) (MAK_fl_max_count g); ld_fl_at l idx))) s' Q).
  { intros s' Hst. pose proof Hst as (_ & L1 & O1 & f1 & A1 & F1 & t1 & [Hne _] & Hf1 & (a1 & _ & _ & _ & Hc1 & _) & _). apply wp_bind. eapply wp_ld_fl; [exact Hf1|]. destruct (Z.leb_spec (count f1) 0); [destruct L1; [done|cbn in Hc1; lia]|]. apply wp_bind, wp_ret. by apply Hend. }
  apply wp_bind. eapply wp_ld_fl; [exact Hf|]. pose proof Hring as (a & Ha & Hla & Hs & Hc & Hm & Hx). destruct (Z.leb_spec (count f) 0) as [Hle|Hgt].
  - destruct L; [|cbn in Hc; lia]. cbn in Hc. assert (Hcap : objs g <= Z.of_nat (length a)) by lia. apply wp_bind, wp_bind. eapply (wp_continue_reclaim _ s A F t O); [exact B|exact P|done|lia|exact Hf|done|done|..].
    + intros s1 Htk. eapply (wp_restart _ l g max O s); [done|done|lia|by rewrite <- Hla, Nat2Z.id|exact Hend2].
    + intros s1 B1 Hs1. rewrite <- (same_arr _ _ _ Hs1) in Hf. eapply wp_upd_fl; [done|exact Hf|]. intros s2 H2. pose proof (based_arrs _ _ _ _ _ _ _ (proj1 H2) B1) as B2. apply wp_bind. eapply wp_ld_fl; [apply H2|]. cbn [count fl_start].
      destruct (Z.leb_spec (count f) 0); [|lia]. apply wp_bind, wp_bind. eapply wp_allocobj_loop; [exact B2|exact P|done|apply H2|done|done|done|]. intros s3 [Hmv Htk].
      eapply (wp_restart _ l g max O s); [done|done|lia| |exact Hend]. rewrite <- Hla, Nat2Z.id. split; [eapply moved_trans; [by apply same_moved|by eauto]|exact Htk].
  - apply wp_bind, wp_ret. apply Hend2. split; [by apply same_moved|]. exists L, O, f, A, F, t. split; [|done]. split; [|by left]. intros ->. cbn in Hc. lia.
Qed.

(** ** Arrays of the thread *)

Lemma wp_malloc_many s A F t O g l c f gf a (Q : unit -> makalu -> Prop) : based s A F t -> pool_ok A t O -> 1 <= g <= 128 -> normal_loc l -> arr l s = Some f -> fl f = Some a -> objs g <= Z.of_nat (length a) ->
  arr (FlGlobal 1 g) s = Some gf -> count gf = 0 -> (forall s', took l g (length a) O s s' -> Q tt s') -> wp True (MAK_generic_malloc_many fuel (16 * g) 1 l c) s Q.
Proof.
  intros B P Hg Hl Hf Ha Hcap Hgf Hgc HQ. unfold MAK_generic_malloc_many. assert (Hgr : BYTES_TO_GRANULES (16 * g) = g) by (pose proof (scan_bit g 0); lia). rewrite Hgr.
  destruct (po_rl _ _ _ P g Hg) as (b & _ & Hb & _). apply wp_bind. eapply (wp_ld_rl B); [exact Hb|]. destruct (Z.eqb_spec b 0) as [_|Hb0]; cbn [negb].
  - apply wp_bind. eapply wp_ld_fl; [exact Hgf|]. rewrite Hgc. cbn [Z.ltb Z.compare]. by eapply wp_malloc_many_block.
  - by eapply wp_malloc_many_reclaim.
Qed.

(** ** Large objects *)

Lemma wp_alloc_large s A F t O z (Q : Z -> makalu -> Prop) : based s A F t -> pool_ok A t O -> MAK_is_initialized s = true -> MAXOBJBYTES < z < 2 ^ 59 -> z mod 16 = 0 ->
  (forall s' A' F' n, based s' A' F' t -> same s s' -> pool_ok A' t (<[n * HBLKSZ := z]> O) -> O !! (n * HBLKSZ) = None -> 1 < n -> Q (n * HBLKSZ) s') ->
  wp True (MAK_alloc_large fuel z 1 0) s Q.
Proof.
  intros B P Hi Hz Hm HQ. unfold MAK_alloc_large. assert (Hr : Z.land (u64 (z + GRANULE_BYTES - 1)) (not64 (GRANULE_BYTES - 1)) = z).
  { unfold GRANULE_BYTES, MAXOBJBYTES in *. rewrite u64_small by lia. change (16 - 1) with (2 ^ 4 - 1). rewrite land_not64 by lia. change (2 ^ 4) with 16. pose proof (Z.div_mod z 16 ltac:(done)). pose proof (Z.div_mod (z + 16 - 1) 16 ltac:(done)).
    pose proof (Z.mod_pos_bound (z + 16 - 1) 16 ltac:(done)). lia. }
  rewrite Hr. apply wp_bind, wp_gets. rewrite Hi. cbn [negb]. assert (Hz' : 0 < z < 2 ^ 61) by (unfold MAXOBJBYTES in Hz; lia). destruct (blocks_of_size z Hz') as (k & Hk & Hkr & Hkz).
  assert (Hfresh : forall n A, A !! n = None -> objs_are A O -> O !! (n * HBLKSZ) = None). { intros n A1 Hnone Ho. destruct (O !! (n * HBLKSZ)) as [y|] eqn:E; [|done]. apply Ho in E as (r & Hr' & _). rewrite bno_addr in Hr'. congruence. }
  assert (Hend : forall m s1 F1 n a x, same s s1 -> based s1 (<[n := mkRun (OBJ_SZ_TO_BLOCKS z) a x]> A) F1 t -> A !! n = None -> made z 1 x -> 1 < n -> wp True (alloc_large_loop (S m) fuel z 1 0 (OBJ_SZ_TO_BLOCKS z) (n * HBLKSZ)) s1 Q).
  { intros m s1 F1 n a x Hs1 B1 Hnone Hmd Hn1. cbn [alloc_large_loop]. destruct (Z.eqb_spec (n * HBLKSZ) 0); [unfold HBLKSZ in *; lia|]. apply wp_ret. eapply HQ; [exact B1|done|apply pool_large; [done|done|done|lia]|by eapply Hfresh; [|apply P]|done]. }
  apply wp_bind. eapply (wp_alloc_run _ _ _ _ _ _ _ B Hfuel Hz').
  - intros s1 B1 Hs1 _. cbn [alloc_large_loop EXPAND_FUEL]. rewrite Z.eqb_refl. apply wp_bind. eapply (wp_expand _ _ _ _ _ _ _ _ B1 Hfuel); [unfold HBLKSZ in Hkz; lia|]. intros s2 n len B2 Hs2 Hle. apply wp_bind. eapply (wp_alloc_run _ _ _ _ _ _ _ B2 Hfuel Hz').
    + intros s3 B3 Hs3 Hno. destruct (Hno n). by apply expanded_run.
    + intros s3 n' a x F' B3 Hs3 Hnone Hmd Hn1. apply (Hend 0%nat s3 F' n' a x); [by eauto|done|done|done|done].
  - intros s1 n a x F' B1 Hs1 Hnone Hmd Hn1. by apply (Hend 1%nat s1 F' n a x).
Qed.

(** ** The object of a pointer *)

(** [base_header] goes back to the first block of the run. *)
Lemma wp_base_header T s A F t n r : based s A F t -> A !! n = Some r -> forall fu m rr, n <= m < n + ar_len r -> (Z.to_nat (m - n) < fu)%nat ->
  wp T (base_header fu (m * HBLKSZ) rr (if decide (m = n) then ar_hdr r else forward_count (m - n))) (blk s)
    (fun x b => b = blk s /\ x = (n * HBLKSZ, if decide (m = n) then rr else n * HBLKSZ, ar_hdr r)).
Proof.
  intros B Hn. destruct (bh_range _ _ _ _ _ (ba_own _ _ _ _ B) Hn) as (_ & _ & Hj). induction fu as [|fu IH]; intros m rr Hm Hfu; [lia|]. cbn [base_header]. unfold IS_FORWARDING_ADDR_OR_NIL. case_decide as Hd.
  - subst m. destruct (Z.leb_spec (ar_hdr r) MAX_JUMP); [lia|]. by apply wp_ret.
  - set (k := forward_count (m - n)). assert (Hk : 1 <= k <= MAX_JUMP /\ k <= m - n) by (unfold k, forward_count, MAX_JUMP, HBLKSZ; destruct (Z.ltb_spec (4096 - 1) (m - n)); lia). destruct (Z.leb_spec k MAX_JUMP); [|lia].
    replace (m * HBLKSZ - k * HBLKSZ) with ((m - k) * HBLKSZ) by lia. apply wp_bind. eapply (wp_ok _ _ _ (if decide (m - k = n) then ar_hdr r else forward_count (m - k - n)) (blk s)).
    { case_decide as Hd'; [apply (bh_HDR _ _ _ _ _ _ (ba_own _ _ _ _ B) Hn); by rewrite bno_addr|]. rewrite <- (bno_addr (m - k)) at 2. apply (bh_inner _ _ _ _ _ _ (ba_own _ _ _ _ B) Hn). rewrite bno_addr. lia. }
    eapply wp_mono; [apply (IH (m - k)); lia|]. intros x b [-> ->]. split; [done|]. case_decide as Hd'; [by rewrite Hd'|done].
Qed.

(** The blocks of a run are fewer than the fuel. *)
Lemma run_fuel s A F t n r : based s A F t -> A !! n = Some r -> (Z.to_nat (ar_len r) < fuel)%nat.
Proof.
  intros B Hn. pose proof (based_fuel _ _ _ _ _ B Hfuel) as Hf. assert (Hsub : run n (ar_len r) ⊆ heap_blocks (view A F)).
  { intros m Hm%elem_run. apply elem_heap_blocks. right. exists n, (ar_len r). cbn. by rewrite lookup_fmap, Hn. }
  apply subseteq_size in Hsub. rewrite size_run in Hsub. lia.
Qed.

(** The header of a pointer into a run, and the pointer to go on with. *)
Lemma wp_found T s A F t n r p e (hit : bool) : based s A F t -> A !! n = Some r -> n <= bno p < n + ar_len r -> (hit = true -> exists x, hdrs (blk s) !! hce_hdr e = Some x /\ hb_block x = bno p * HBLKSZ) ->
  wp T (if hit then cret (Some (HBLKPTR p, p, hce_hdr e)) else candidate_hdr <- on_blk (HDR p); if candidate_hdr =? 0 then cret None else '(h, r, candidate_hdr) <- on_blk (base_header fuel (HBLKPTR p) p candidate_hdr);
    x <- get_hdr candidate_hdr; cret (if HBLK_IS_FREE x then None else Some (h, r, candidate_hdr))) s
    (fun found s' => s' = s /\ found = Some (n * HBLKSZ, if decide (bno p = n) then p else n * HBLKSZ, ar_hdr r)).
Proof.
  intros B Hr Hm Hh. pose proof (run_addr B _ _ Hr) as Hra. destruct (bh_range _ _ _ _ _ (ba_own _ _ _ _ B) Hr) as (_ & Htop & Hj). pose proof (addr_range p ltac:(lia)) as Hpr. rewrite (block_start p Hpr). destruct hit.
  - apply wp_ret. split; [done|]. destruct (Hh eq_refl) as (x & Hxe & Hbx). assert (Hb : bno p = n).
    { destruct (Z.eq_dec (bno p) n); [done|]. exfalso. eapply (bh_no_block _ _ _ _ _ _ _ (bno p) (ba_own _ _ _ _ B) Hxe Hbx Hr). lia. }
    rewrite Hb in Hbx |- *. rewrite decide_True by done. by rewrite (bh_block _ _ _ _ _ _ _ (ba_own _ _ _ _ B) Hxe Hbx Hr).
  - set (cand := if decide (bno p = n) then ar_hdr r else forward_count (bno p - n)). assert (Hcand : HDR p (blk s) = Ok (cand, blk s)).
    { unfold cand. case_decide as Hd; [by apply (bh_HDR _ _ _ _ _ _ (ba_own _ _ _ _ B) Hr)|]. apply (bh_inner _ _ _ _ _ _ (ba_own _ _ _ _ B) Hr). lia. }
    assert (Hc0 : cand <> 0) by (unfold cand, forward_count, MAX_JUMP, HBLKSZ in *; case_decide; [lia|]; destruct (Z.ltb_spec (4096 - 1) (bno p - n)); lia).
    assert (Hsame : set_blk (blk s) s = s) by (by destruct s). apply wp_bind, wp_on_blk. eapply wp_ok; [exact Hcand|]. rewrite Hsame. destruct (Z.eqb_spec cand 0); [done|].
    pose proof (run_fuel _ _ _ _ _ _ B Hr) as Hfu. apply wp_bind, wp_on_blk. eapply wp_mono; [apply (wp_base_header T s A F t n r B Hr); lia|]. intros x b [-> ->]. rewrite Hsame. apply wp_bind. eapply (wp_get B); [exact Hr|].
    destruct (bh_hdr _ _ _ _ _ (ba_own _ _ _ _ B) Hr) as (_ & _ & -> & _). by apply wp_ret.
Qed.

(** A pointer into an object. *)
Lemma wp_base T s A F t c q z d (Q : Z * Z -> makalu -> Prop) : based s A F t -> is_obj A q z -> MAK_is_initialized s = true -> 0 <= d < z ->
  (forall s' r, A !! bno q = Some r -> hb_sz (ar_data r) = z -> based s' A F t -> same s s' -> Q (q, ar_hdr r) s') -> wp T (MAK_hc_base_with_hdr fuel c (q + d)) s Q.
Proof.
  intros B Hq Hi Hd HQ. destruct (obj_place _ _ _ _ _ _ B Hq) as (r & Hr & Hs & Hz & H8 & Hmz & Hfit). destruct (bh_hdr _ _ _ _ _ (ba_own _ _ _ _ B) Hr) as (_ & _ & _ & Hlen & _). rewrite Hs in Hlen.
  set (p := q + d) in *. pose proof (run_addr B _ _ Hr) as Hra. destruct (bh_range _ _ _ _ _ (ba_own _ _ _ _ B) Hr) as (_ & Htop & _).
  pose proof (Z.div_mod q HBLKSZ ltac:(done)) as Hqd. pose proof (Z.mod_pos_bound q HBLKSZ ltac:(done)) as Hqm. pose proof (Z.div_mod p HBLKSZ ltac:(done)) as Hpd. pose proof (Z.mod_pos_bound p HBLKSZ ltac:(done)) as Hpm. fold (bno q) in Hqd. fold (bno p) in Hpd.
  assert (Hlarge : z <= HBLKSZ \/ q = bno q * HBLKSZ) by (destruct Hq as (_ & _ & _ & [[_ ?]|(g & _ & Hg & -> & _)]); [by right|left; unfold HBLKSZ; lia]).
  assert (Hin : bno q <= bno p < bno q + ar_len r) by (unfold HBLKSZ in *; lia). pose proof (addr_range p ltac:(lia)) as Hpr. pose proof (addr_range q Hra) as Hqr.
  unfold MAK_hc_base_with_hdr. apply wp_bind, wp_gets. rewrite Hi. cbn [negb]. apply (wp_hit B); [done|lia|]. intros e hit Hh. pose proof (wp_found T s A F t (bno q) r p e hit B Hr Hin Hh) as Hfound.
  set (r0 := if decide (bno p = bno q) then p else bno q * HBLKSZ) in *. set (dd := r0 - q). assert (Hr0 : r0 = q + dd) by (unfold dd; lia). assert (Hdd : 0 <= dd <= d /\ q mod HBLKSZ + dd < HBLKSZ). { unfold dd, r0. case_decide as Hb; [rewrite Hb in Hpd; lia|unfold HBLKSZ in *; lia]. }
  assert (Hr0r : 0 <= r0 < 2 ^ 64) by lia. rewrite Hr0 in *. clearbody dd. clear r0 Hr0.
  apply wp_bind. eapply wp_mono; [exact Hfound|]. clear Hfound. intros found s' [-> ->]. apply wp_bind. eapply (wp_get B); [exact Hr|]. rewrite Hs.
  (* the arithmetic *)
  assert (Hr8 : Z.land (q + dd) (not64 7) = q + dd / 8 * 8). { change 7 with (2 ^ 3 - 1). rewrite land_not64 by lia. change (2 ^ 3) with 8. rewrite (Z.div_mod q 8 ltac:(done)) at 1. rewrite H8, Z.add_0_r. rewrite (Z.mul_comm 8), Z.div_add_l by done.
    pose proof (Z.div_mod q 8 ltac:(done)). lia. }
  pose proof (Z.div_mod dd 8 ltac:(done)) as Hd8. pose proof (Z.mod_pos_bound dd 8 ltac:(done)) as Hm8. rewrite Hr8. set (d' := dd / 8 * 8) in *. assert (Hd' : 0 <= d' <= dd) by (pose proof (Z.div_pos dd 8); lia).
  assert (Hdisp : HBLKDISPL (q + d') = q mod HBLKSZ + d'). { rewrite (proj2 (shift_block _)). symmetry. apply Z.mod_unique with (bno q); [left; unfold HBLKSZ in *; lia|lia]. }
  apply wp_bind. unfold cmodulo. destruct (Z.eqb_spec z 0); [lia|]. apply wp_ret. rewrite Hdisp, u64_small by (unfold HBLKSZ in *; lia). rewrite <- Zplus_mod_idemp_l, Hmz, Z.add_0_l, Z.mod_small by lia. replace (q + d' - d') with q by lia.
  destruct ((bno q * HBLKSZ + HBLKSZ <? q + z) && (z <=? HBLKSZ)) eqn:Ec; [apply andb_true_iff in Ec as [E1%Z.ltb_lt E2%Z.leb_le]; specialize (Hfit E2); lia|]. destruct (Z.leb_spec (q + z) p); [lia|]. apply wp_bind. destruct hit; cbn [negb].
  - apply wp_ret, wp_ret. by apply HQ.
  - unfold MAK_update_hc. apply (wp_st_hce B); [|intros s' B' Hs'; apply wp_ret; by apply HQ]. cbn. destruct (bh_hdr _ _ _ _ _ (ba_own _ _ _ _ B) Hr) as (Hx & _). by eexists.
Qed.

End stock.
