(* ===== verification/MakMalloc.v ===== *)
(** * Makalu: malloc and free

    One thread with arrays of its own allocates and frees objects. [minv] is the invariant of the
    whole allocator; abstractly there is a map from the addresses of live objects to their sizes. *)

From S2P Require Import Prelude MakHdr MakBlock MakLib MakIndex MakHeap MakAlloc MakObj MakOwn MakPool MakGive MakFast MakStock.
From stdpp Require Import sorting.
#[local] Open Scope Z_scope.
#[local] Open Scope cmd_scope.

#[local] Hint Resolve moved_trans same_moved arr_set_moved : core.

(** ** The table of sizes *)

(** An entry is not filled in yet, or is a number of granules that is enough. *)
Definition size_ok (i v : Z) : Prop := v = 0 \/ (1 <= v <= 128 /\ i <= 16 * v /\ (384 < i -> 25 <= v)).

Definition smap_ok (m : list Z) : Prop := length m = 2049%nat /\ forall i v, 0 <= i -> m !! Z.to_nat i = Some v -> size_ok i v.

Lemma smap_entry m i : smap_ok m -> 0 <= i <= 2048 -> exists v, m !! Z.to_nat i = Some v /\ size_ok i v.
Proof. intros [Hl Hm] Hi. destruct (lookup_lt_is_Some_2 m (Z.to_nat i) ltac:(lia)) as [v Hv]. exists v. split; [done|]. apply Hm; [lia|done]. Qed.

Lemma smap_set m j v : smap_ok m -> 0 <= j -> size_ok j v -> smap_ok (<[Z.to_nat j := v]> m).
Proof.
  intros [Hl Hm] Hj Hv. split; [by rewrite length_insert|]. intros i w Hi [(He & <- & _)|[_ Hw]]%list_lookup_insert_Some; [|by apply Hm]. assert (i = j) as -> by lia. done.
Qed.

Lemma wp_ld_size_map T i v s (Q : Z -> makalu -> Prop) : MAK_size_map s !! Z.to_nat i = Some v -> Q v s -> wp T (ld_size_map i) s Q.
Proof. intros Hv HQ. unfold wp, ld_size_map. by rewrite Hv. Qed.

(** [while (MAK_size_map[low_limit] != 0) low_limit++] stops at an entry that is zero. *)
Lemma wp_find_low T s i : smap_ok (MAK_size_map s) -> i <= 2048 -> MAK_size_map s !! Z.to_nat i = Some 0 -> forall fuel low,
  0 <= low <= i -> i - low < Z.of_nat fuel -> wp T (find_low_limit fuel low) s (fun r s' => s' = s /\ low <= r <= i).
Proof.
  intros Hm Hi Hz. induction fuel as [|fuel IH]; intros low Hlow Hfu; [lia|]. cbn [find_low_limit]. destruct (smap_entry _ low Hm ltac:(lia)) as (v & Hv & _). apply wp_bind. eapply wp_ld_size_map; [exact Hv|].
  destruct (Z.eqb_spec v 0) as [->|Hne]; [apply wp_ret; split; [done|lia]|]. assert (low <> i) by congruence. eapply wp_mono; [apply IH; lia|]. intros r s' [-> ?]. split; [done|lia].
Qed.

Lemma rounded_up i : 0 <= i < 2 ^ 60 -> ROUNDED_UP_GRANULES i = (i + 15) / 16.
Proof. intros Hi. unfold ROUNDED_UP_GRANULES, BYTES_TO_GRANULES, GRANULE_BYTES. rewrite u64_small by lia. by rewrite Z.shiftr_div_pow2 by lia. Qed.

(** The number of granules of the objects a new part of the table is for. *)
Definition even_size (g : Z) : Z :=
  let g := Z.land (g + 1) (not64 1) in
  let g := if MAXOBJGRANULES <? g then MAXOBJGRANULES else g in
  Z.land (HBLK_GRANULES / (HBLK_GRANULES / g)) (not64 1).

Lemma even_size_ok g : 1 <= g < 200 -> Z.min g 128 <= even_size g <= 128.
Proof.
  intros Hg. assert (Hall : forallb (fun g => (Z.min g 128 <=? even_size g) && (even_size g <=? 128)) (seqZ 1 200) = true) by (vm_compute; reflexivity).
  rewrite forallb_forall in Hall. specialize (Hall g). rewrite <- list_elem_of_In, elem_of_seqZ in Hall. specialize (Hall ltac:(lia)). apply andb_true_iff in Hall as [H1%Z.leb_le H2%Z.leb_le]. done.
Qed.

(** The entries of a part of the table. *)
Lemma wp_fill_sizes T s low v : smap_ok (MAK_size_map s) -> 0 <= low -> 25 <= v <= 128 ->
  wp T (cfor (seqZ low (16 * v + 1 - low)) (fun j => ld_size_map j;; cmod (fun s => set_size_map (<[Z.to_nat j := v]> (MAK_size_map s)) s))) s
    (fun _ s' => exists m, s' = set_size_map m s /\ smap_ok m /\ forall j, low <= j <= 16 * v -> m !! Z.to_nat j = Some v).
Proof.
  intros Hm Hlow Hv. eapply wp_mono; [apply (wp_for _ _ _ (fun l1 s' => exists m, s' = set_size_map m s /\ smap_ok m /\ forall j, j ∈ l1 -> m !! Z.to_nat j = Some v))|].
  - exists (MAK_size_map s). split; [by destruct s|]. split; [done|]. by intros j ?%not_elem_of_nil.
  - intros l1 j l2 s1 Hs (m & -> & Hok & Hin). assert (Hj : low <= j <= 16 * v) by (assert (Hx : j ∈ seqZ low (16 * v + 1 - low)) by (rewrite Hs; set_solver); apply elem_of_seqZ in Hx; lia).
    destruct (smap_entry m j Hok ltac:(lia)) as (w & Hw & _). apply wp_bind. eapply wp_ld_size_map; [exact Hw|]. apply wp_mod. eexists. split; [done|]. cbn. split.
    + apply smap_set; [done|lia|]. right. lia.
    + intros j' Hj'. destruct (decide (Z.to_nat j' = Z.to_nat j)) as [->|Hne]; [apply list_lookup_insert_eq; apply lookup_lt_Some in Hw; done|]. rewrite list_lookup_insert_ne by done. apply Hin. set_solver.
  - intros [] s' (m & -> & Hok & Hin). exists m. split; [done|]. split; [done|]. intros j Hj. apply Hin, elem_of_seqZ. lia.
Qed.

Lemma wp_extend_size_map T s i : smap_ok (MAK_size_map s) -> 384 < i <= 2048 -> MAK_size_map s !! Z.to_nat i = Some 0 ->
  wp T (MAK_extend_size_map i) s (fun _ s' => exists m v, s' = set_size_map m s /\ smap_ok m /\ m !! Z.to_nat i = Some v /\ v <> 0).
Proof.
  intros Hm Hi Hz. unfold MAK_extend_size_map. rewrite rounded_up by lia. set (o := (i + 15) / 16). assert (Ho : 25 <= o <= 128 /\ i <= 16 * o < i + 16) by (unfold o; pose proof (Z.div_mod (i + 15) 16 ltac:(done)); pose proof (Z.mod_pos_bound (i + 15) 16 ltac:(done)); lia).
  assert (Hb : GRANULES_TO_BYTES o = 16 * o) by (unfold GRANULES_TO_BYTES; rewrite Z.shiftl_mul_pow2 by lia; lia). rewrite Hb. rewrite !Z.shiftr_div_pow2 by lia. change (2 ^ 3) with 8. change (2 ^ 2) with 4.
  replace (16 * o / 8) with (2 * o) by (apply Z.div_unique with 0; lia). replace (16 * o / 4) with (4 * o) by (apply Z.div_unique with 0; lia).
  destruct (smap_entry _ (16 * o - 2 * o) Hm ltac:(lia)) as (v0 & Hv0 & _). apply wp_bind. eapply wp_ld_size_map; [exact Hv0|]. apply wp_bind.
  assert (Hend : forall low g, 0 <= low <= i -> o <= g < 200 -> wp T (cfor (seqZ low (GRANULES_TO_BYTES (even_size g) + 1 - low)) (fun j => ld_size_map j;; cmod (fun s => set_size_map (<[Z.to_nat j := even_size g]> (MAK_size_map s)) s))) s
    (fun _ s' => exists m v, s' = set_size_map m s /\ smap_ok m /\ m !! Z.to_nat i = Some v /\ v <> 0)).
  { intros low g Hlow Hg. pose proof (even_size_ok g ltac:(lia)) as He. assert (Hbe : GRANULES_TO_BYTES (even_size g) = 16 * even_size g) by (unfold GRANULES_TO_BYTES; rewrite Z.shiftl_mul_pow2 by lia; lia). rewrite Hbe.
    eapply wp_mono; [apply wp_fill_sizes; [done|lia|lia]|]. intros [] s' (m & -> & Hok & Hin). exists m, (even_size g). split; [done|]. split; [done|]. split; [apply Hin; lia|lia]. }
  destruct (Z.eqb_spec v0 0) as [_|_].
  - apply wp_bind. eapply wp_mono; [eapply (wp_find_low _ _ i); [done|lia|done|lia|unfold SIZE_FUEL; lia]|]. intros low s' [-> Hlow]. apply wp_ret. apply (Hend low o); lia.
  - apply wp_bind. eapply wp_mono; [eapply (wp_find_low _ _ i); [done|lia|done|lia|unfold SIZE_FUEL; lia]|]. intros low s' [-> Hlow]. apply wp_ret. rewrite rounded_up, Z.shiftr_div_pow2 by lia. change (2 ^ 3) with 8.
    set (g := (low + 15) / 16 + (low + 15) / 16 / 8). assert (Hg : g <= 144) by (unfold g; pose proof (Z.div_lt_upper_bound (low + 15) 16 129 ltac:(done) ltac:(lia)); pose proof (Z.div_lt_upper_bound ((low + 15) / 16) 8 17 ltac:(done) ltac:(lia)); lia).
    apply (Hend low (if g <? o then o else g)); [lia|]. destruct (Z.ltb_spec g o); lia.
Qed.

(** ** The invariant *)

(** The length of the arrays for objects of [g] granules. *)
Definition max_objs (g : Z) : Z := 8192 / (16 * g).

Lemma max_spec g : 1 <= g <= 128 -> objs g < max_objs g <= 512.
Proof.
  intros Hg. destruct (objs_spec g Hg) as [Ho1 Ho2]. unfold max_objs. pose proof (Z.div_le_lower_bound 8192 (16 * g) (2 * objs g) ltac:(lia) ltac:(unfold HBLKSZ in *; lia)).
  pose proof (Z.div_le_upper_bound 8192 (16 * g) 512 ltac:(lia) ltac:(lia)). lia.
Qed.

Lemma fl_max g : 1 <= g <= 128 -> MAK_fl_max_count g = max_objs g /\ MAK_fl_optimal_count g = objs g.
Proof.
  intros Hg. unfold MAK_fl_max_count, MAK_fl_optimal_count. destruct (Z.leb_spec 1 g); [|lia]. destruct (Z.leb_spec g MAXOBJGRANULES); [|unfold MAXOBJGRANULES in *; lia]. cbn [andb].
  unfold max_objs, objs, HBLK_OBJS, FL_MAX_SIZE, FL_OPTIMAL_SIZE, GRANULE_BYTES. rewrite (Z.mul_comm g). done.
Qed.

Lemma tlfs_max g : 1 <= g < 25 -> tlfs_max_count g = max_objs g /\ tlfs_optimal_count g = objs g.
Proof.
  intros Hg. unfold tlfs_max_count, tlfs_optimal_count. destruct (Z.leb_spec 1 g); [|lia]. destruct (Z.ltb_spec g TINY_FREELISTS); [|unfold TINY_FREELISTS in *; lia]. cbn [andb].
  unfold max_objs, objs, HBLK_OBJS, LOCAL_FL_MAX_SIZE, LOCAL_FL_OPTIMAL_SIZE, GRANULE_BYTES. rewrite (Z.mul_comm g). done.
Qed.

(** Which array has the free objects of [g] granules. *)
Definition loc (g : Z) : fl_loc := if g <? 25 then FlLocal 1 g else FlGlobal 1 g.

Lemma loc_normal g : normal_loc (loc g).
Proof. unfold loc. by destruct (g <? 25). Qed.

Lemma loc_local g : g < 25 -> loc g = FlLocal 1 g.
Proof. unfold loc. destruct (Z.ltb_spec g 25); [done|lia]. Qed.

Lemma loc_global g : 25 <= g -> loc g = FlGlobal 1 g.
Proof. unfold loc. destruct (Z.ltb_spec g 25); [lia|done]. Qed.

Lemma loc_other g g' : 1 <= g -> 1 <= g' -> g' <> g -> other (loc g) (loc g').
Proof. intros Hg Hg' Hne. unfold loc. destruct (g <? 25), (g' <? 25); cbn; auto; lia. Qed.

Lemma loc_tiny g g' : 1 <= g -> 0 <= g' < 25 -> other (loc g) (FlGlobal 1 g').
Proof. intros Hg Hg'. unfold loc. destruct (Z.ltb_spec g 25); cbn; auto; lia. Qed.

(** An array with its objects, or one that is not there yet. *)
Definition array_ok (g : Z) (f : fl_hdr) (L : list Z) (O : gmap Z Z) : Prop :=
  (ring f (max_objs g) L /\ Z.of_nat (length L) < max_objs g) \/
  (25 <= g /\ L = [] /\ fl f = None /\ start_idx f = 0 /\ count f = 0 /\ forall p, O !! p <> Some (16 * g)).

Section malloc.
Context `{!PersistentMem} {own : heap -> gmap Z arun -> gset Z -> Prop} `{!BlockHeap own} {LIM : Z} `{!MemLimit LIM}.
Local Abbreviation based := (based own LIM).

(** The objects are the live ones and the ones in the arrays. *)
Record rep (s : makalu) (live : gmap Z Z) (A : gmap Z arun) (F : gset Z) (t : list Z) (O : gmap Z Z) (c : Z -> list Z) : Prop := {
  mi_based : based s A F t;
  mi_pool : pool_ok A t O;
  mi_arr : forall g, 1 <= g <= 128 -> exists f, arr (loc g) s = Some f /\ array_ok g f (c g) O;
  mi_tiny : forall g, 0 <= g < 25 -> exists f, arr (FlGlobal 1 g) s = Some f /\ count f = 0;
  mi_cont : forall g p, 1 <= g <= 128 -> p ∈ c g -> O !! p = Some (16 * g) /\ live !! p = None;
  mi_nodup : forall g, 1 <= g <= 128 -> NoDup (c g);
  mi_live : forall p z, live !! p = Some z -> O !! p = Some z;
  mi_all : forall p z, O !! p = Some z -> live !! p = Some z \/ exists g, 1 <= g <= 128 /\ p ∈ c g;
  mi_gran : forall p z, O !! p = Some z -> z mod 16 = 0;
  mi_sizes : smap_ok (MAK_size_map s);
  mi_init : MAK_is_initialized s = true }.

Definition minv (s : makalu) (live : gmap Z Z) : Prop := exists A F t O c, rep s live A F t O c.

(** Objects of [g] granules change hands. *)
Lemma rep_change s live A F t O c g s' live' A' F' t' O' L' f' : rep s live A F t O c -> 1 <= g <= 128 -> moved (loc g) s s' -> based s' A' F' t' -> pool_ok A' t' O' ->
  arr (loc g) s' = Some f' -> array_ok g f' L' O' -> (forall p z, z <> 16 * g -> (O' !! p = Some z <-> O !! p = Some z)) -> (forall p z, z <> 16 * g -> (live' !! p = Some z <-> live !! p = Some z)) ->
  (forall p, p ∈ L' -> O' !! p = Some (16 * g) /\ live' !! p = None) -> NoDup L' -> (forall p, live' !! p = Some (16 * g) -> O' !! p = Some (16 * g)) ->
  (forall p, O' !! p = Some (16 * g) -> live' !! p = Some (16 * g) \/ p ∈ L') -> minv s' live'.
Proof.
  intros [R1 R2 R3 R4 R5 R6 R7 R8 R9 R10 R11] Hg [Hmv (K1 & K2 & K3)] B' P' Hf' Hok HO Hlive Hcont Hnd Hl Hall. exists A', F', t', O', (fun g' => if decide (g' = g) then L' else c g'). split; [done|done| | | | | | | | |].
  - intros g' Hg'. case_decide as Hd; [subst g'; by exists f'|]. destruct (R3 g' Hg') as (f1 & Hf1 & Ha1). exists f1. rewrite Hmv by (apply loc_other; lia). split; [done|]. destruct Ha1 as [?|(H1 & H2 & H3 & H4 & H5 & H6)]; [by left|right]. split_and!; try done.
    intros p Hp. apply (H6 p). apply HO; [lia|done].
  - intros g' Hg'. rewrite Hmv by (apply loc_tiny; lia). by apply R4.
  - intros g' p Hg'. case_decide as Hd; [subst g'; apply Hcont|]. intros Hp. destruct (R5 g' p Hg' Hp) as [H1 H2]. assert (H1' : O' !! p = Some (16 * g')) by (apply HO; [lia|done]). split; [done|]. destruct (live' !! p) as [z|] eqn:E; [|done].
    destruct (decide (z = 16 * g)) as [->|Hz]; [apply Hl in E; rewrite E in H1'; injection H1'; lia|]. apply Hlive in E; [congruence|done].
  - intros g' Hg'. case_decide; [done|by apply R6].
  - intros p z Hp. destruct (decide (z = 16 * g)) as [->|Hz]; [by apply Hl|]. apply HO; [done|]. apply R7. by apply Hlive.
  - intros p z Hp. destruct (decide (z = 16 * g)) as [->|Hz].
    + destruct (Hall p Hp) as [?|?]; [by left|right]. exists g. split; [done|]. by rewrite decide_True.
    + pose proof Hp as Hp'. apply HO in Hp'; [|done]. destruct (R8 p z Hp') as [?|(g' & Hg' & Hin)]; [left; by apply Hlive|right]. exists g'. split; [done|]. rewrite decide_False; [done|]. intros ->. destruct (R5 g p Hg Hin) as [Hx _]. congruence.
  - intros p z Hp. destruct (decide (z = 16 * g)) as [->|Hz]; [rewrite Z.mul_comm; apply Z_mod_mult|]. apply (R9 p z). by apply HO.
  - by rewrite K1.
  - by rewrite K2.
Qed.

(** An object leaves its array. *)
Lemma rep_take s live A F t O c g s' A' F' t' O' L' p f' : rep s live A F t O c -> 1 <= g <= 128 -> moved (loc g) s s' -> stock g (c g) O (L' ++ [p]) O' -> arr (loc g) s' = Some f' -> ring f' (max_objs g) L' ->
  based s' A' F' t' -> pool_ok A' t' O' -> Z.of_nat (length L') < max_objs g -> minv s' (<[p := 16 * g]> live) /\ live !! p = None.
Proof.
  intros R Hg Hmv [_ Hst] Hf' Hr' B' P' Hlen. assert (Hin : p ∈ L' ++ [p]) by (apply elem_of_app; right; left).
  assert (Hfacts : NoDup (L' ++ [p]) /\ (forall q z, O' !! q = Some z -> O !! q = Some z \/ z = 16 * g /\ q ∈ L' ++ [p]) /\ (forall q z, O !! q = Some z -> O' !! q = Some z) /\ (forall q, q ∈ L' ++ [p] -> O' !! q = Some (16 * g) /\ live !! q = None) /\ (forall q, q ∈ c g -> q ∈ L' ++ [p])).
  { destruct Hst as [[He ->]|(He & Hnd & Hnew & _ & ->)].
    - rewrite He. split; [by apply R|]. split; [intros q z ?; by left|]. split; [done|]. split; [|done]. intros q Hq. by apply R.
    - split; [done|]. split; [|split; [|split]].
      + intros q z [[Hq ->]|[_ ?]]%lookup_add_keys; [right; by rewrite elem_of_list_to_set in Hq|by left].
      + intros q z Hq. apply lookup_add_keys. right. split; [|done]. rewrite elem_of_list_to_set. intros Hx. rewrite (Hnew q Hx) in Hq. done.
      + intros q Hq. split; [apply lookup_add_keys; left; by rewrite elem_of_list_to_set|]. destruct (live !! q) as [z|] eqn:E; [|done]. apply (mi_live _ _ _ _ _ _ _ R) in E. rewrite (Hnew q Hq) in E. done.
      + intros q Hq. rewrite He in Hq. by apply not_elem_of_nil in Hq. }
  destruct Hfacts as (Hnd & HO1 & HO2 & Hc & Hold). destruct (Hc p Hin) as [Hp Hlp]. split; [|done]. apply NoDup_app in Hnd as (Hnd & Hdis & _).
  eapply (rep_change s live A F t O c g s' _ A' F' t' O' L' f'); [done|done|done|done|done|done|by left| | | |done| |].
  - intros q z Hz. split; [intros [?|[-> _]]%HO1; done|apply HO2].
  - intros q z Hz. destruct (decide (q = p)) as [->|Hne]; [|by rewrite lookup_insert_ne]. rewrite lookup_insert_eq, Hlp. split; [intros [=]; congruence|done].
  - intros q Hq. destruct (Hc q ltac:(apply elem_of_app; by left)) as [H1 H2]. split; [done|]. rewrite lookup_insert_ne; [done|]. intros <-. apply (Hdis p Hq). left.
  - intros q [[<- _]|[_ Hq]]%lookup_insert_Some; [done|]. apply HO2. by apply (mi_live _ _ _ _ _ _ _ R).
  - intros q Hq. destruct (decide (q = p)) as [->|Hne]; [left; by rewrite lookup_insert_eq|]. rewrite lookup_insert_ne by done. assert (Hcase : live !! q = Some (16 * g) \/ q ∈ L' ++ [p]).
    { destruct (HO1 q _ Hq) as [Hx|[_ Hx]]; [|by right]. destruct (mi_all _ _ _ _ _ _ _ R q _ Hx) as [?|(g' & Hg' & Hq')]; [by left|right]. destruct (mi_cont _ _ _ _ _ _ _ R g' q Hg' Hq') as [Hy _]. assert (g' = g) as -> by (rewrite Hx in Hy; injection Hy; lia). by apply Hold. }
    destruct Hcase as [?|[?|Hx]%elem_of_app]; [by left|by right|]. apply list_elem_of_singleton in Hx. done.
Qed.

(** An object joins its array, from which some go back to their blocks. *)
Lemma rep_give s live A F t O c g s' A' F' t' n p f' : rep s live A F t O c -> 1 <= g <= 128 -> moved (loc g) s s' -> live !! p = Some (16 * g) -> arr (loc g) s' = Some f' -> ring f' (max_objs g) (drop n (c g ++ [p])) ->
  Z.of_nat (length (drop n (c g ++ [p]))) < max_objs g -> based s' A' F' t' -> pool_ok A' t' (drop_keys (list_to_set (take n (c g ++ [p]))) O) -> minv s' (delete p live).
Proof.
  intros R Hg Hmv Hp Hf' Hr' Hlen B' P'. assert (HpO : O !! p = Some (16 * g)) by (by apply (mi_live _ _ _ _ _ _ _ R)).
  assert (Hnd : NoDup (c g ++ [p])). { apply NoDup_app. split; [by apply R|]. split; [|apply NoDup_singleton]. intros q Hq ->%list_elem_of_singleton. destruct (mi_cont _ _ _ _ _ _ _ R g p Hg Hq). congruence. }
  assert (Hc : forall q, q ∈ c g ++ [p] -> O !! q = Some (16 * g) /\ delete p live !! q = None).
  { intros q [Hq| ->%list_elem_of_singleton]%elem_of_app; [|by rewrite lookup_delete_eq]. destruct (mi_cont _ _ _ _ _ _ _ R g q Hg Hq). split; [done|]. by apply lookup_delete_None; right. }
  pose proof (take_drop n (c g ++ [p])) as Htd. assert (Hdis : forall q, q ∈ take n (c g ++ [p]) -> q ∉ drop n (c g ++ [p])) by (rewrite <- Htd in Hnd; by apply NoDup_app in Hnd as (_ & ? & _)).
  eapply (rep_change s live A F t O c g s' _ A' F' t' _ _ f'); [done|done|done|done|done|done|by left| | | | | |].
  - intros q z Hz. rewrite lookup_drop_keys, elem_of_list_to_set. split; [by intros []|]. intros Hq. split; [done|]. intros Hx%subseteq_take. destruct (Hc q Hx). congruence.
  - intros q z Hz. rewrite lookup_delete_Some. split; [by intros []|]. intros Hq. split; [|done]. intros <-. congruence.
  - intros q Hq. destruct (Hc q ltac:(rewrite <- Htd; apply elem_of_app; by right)) as [H1 H2]. split; [|done]. apply lookup_drop_keys. split; [done|]. rewrite elem_of_list_to_set. intros Hx. by apply (Hdis q Hx).
  - rewrite <- Htd in Hnd. by apply NoDup_app in Hnd as (_ & _ & ?).
  - intros q [Hne Hq]%lookup_delete_Some. apply lookup_drop_keys. split; [by apply (mi_live _ _ _ _ _ _ _ R)|]. rewrite elem_of_list_to_set. intros Hx%subseteq_take. destruct (Hc q Hx) as [_ Hn]. rewrite lookup_delete_ne in Hn by done. congruence.
  - intros q [Hq Hnt]%lookup_drop_keys. rewrite elem_of_list_to_set in Hnt. assert (Hin : q ∈ c g ++ [p] -> q ∈ drop n (c g ++ [p])) by (rewrite <- Htd at 1; intros [?|?]%elem_of_app; done).
    destruct (mi_all _ _ _ _ _ _ _ R q _ Hq) as [Hl|(g' & Hg' & Hq')].
    + destruct (decide (q = p)) as [->|Hne]; [right; apply Hin, elem_of_app; right; left|left; by rewrite lookup_delete_ne].
    + destruct (mi_cont _ _ _ _ _ _ _ R g' q Hg' Hq') as [Hy _]. assert (g' = g) as -> by (rewrite Hq in Hy; injection Hy; lia). right. apply Hin, elem_of_app. by left.
Qed.

(** An object is not the null pointer. *)
Lemma obj_nonzero s A F t O p z : based s A F t -> pool_ok A t O -> O !! p = Some z -> 1 < bno p < 2 ^ 35 /\ p <> 0.
Proof. intros B P (r & Hr & _)%(po_objs _ _ _ P). pose proof (run_addr B _ _ Hr) as Hra. split; [done|]. intros ->. change (bno 0) with 0 in Hra. lia. Qed.

(** Where the object of a live pointer is. *)
Lemma live_obj s live A F t O c p z : rep s live A F t O c -> live !! p = Some z -> is_obj A p z.
Proof. intros R Hp. apply (po_objs _ _ _ (mi_pool _ _ _ _ _ _ _ R)). by apply (mi_live _ _ _ _ _ _ _ R). Qed.

(** Only the block heap and the caches change. *)
Lemma rep_same s live A F t O c s' : rep s live A F t O c -> same s s' -> based s' A F t -> rep s' live A F t O c.
Proof.
  intros [R1 R2 R3 R4 R5 R6 R7 R8 R9 R10 R11] Hsm B'. pose proof (same_arr s s') as Ha. pose proof Hsm as (_ & H2 & H3 & _). split; try done; [| |by rewrite H2|by rewrite H3].
  - intros g Hg. rewrite (Ha _ Hsm). by apply R3.
  - intros g Hg. rewrite (Ha _ Hsm). by apply R4.
Qed.

(** ** Allocation *)

Context (fuel : nat) (Hfuel : (Z.to_nat LIM < fuel)%nat).

(** A new object of at least [n] bytes. *)
Definition allocated_obj (live : gmap Z Z) (n p : Z) (s' : makalu) : Prop := exists z, minv s' (<[p := z]> live) /\ live !! p = None /\ n <= z.

(** The last object of an array that has some. *)
Lemma wp_pop_obj T s live A F t O c g s1 L' p O' f A1 F1 t1 n h (Q : Z -> makalu -> Prop) : rep s live A F t O c -> 1 <= g <= 128 -> n <= 16 * g -> moved (loc g) s s1 -> stock g (c g) O (L' ++ [p]) O' ->
  arr (loc g) s1 = Some f -> ring f (max_objs g) (L' ++ [p]) -> based s1 A1 F1 t1 -> pool_ok A1 t1 O' -> h f = fl_count (count f - 1) f -> (forall s', allocated_obj live n p s' -> Q p s') ->
  wp T (upd_fl (loc g) h;; cret p) s1 Q.
Proof.
  intros R Hg Hn Hmv Hst Hf Hr B P Hh HQ. apply wp_bind. eapply wp_upd_fl; [apply loc_normal|exact Hf|]. rewrite Hh. intros s2 H2. apply wp_ret, HQ. destruct (ring_pop _ _ _ _ Hr) as [Hr' Hc']. pose proof Hr as (_ & _ & _ & _ & Hc & Hm & _).
  destruct (rep_take s live A F t O c g s2 A1 F1 t1 O' L' p _ R Hg ltac:(by eauto) Hst (proj1 (proj2 H2)) Hr' (based_arrs _ _ _ _ _ _ _ (proj1 H2) B) P ltac:(lia)) as [H3 H4]. by exists (16 * g).
Qed.

(** The same after the object has been read. *)
Lemma wp_read_pop T s live A F t O c g s1 max n (Q : Z -> makalu -> Prop) : rep s live A F t O c -> 1 <= g <= 128 -> n <= 16 * g -> max = max_objs g -> stocked (own := own) (LIM := LIM) (loc g) g max (c g) O s s1 ->
  (forall p s', allocated_obj live n p s' -> Q p s') ->
  wp T (f <- ld_fl (loc g); idx <- cmodulo (start_idx f + (count f - 1)) max; (p <- ld_fl_at (loc g) idx; (upd_fl (loc g) (fl_count (count f - 1));; cret p))) s1 Q.
Proof.
  intros R Hg Hn -> (Hmv & L1 & O1 & f1 & A1 & F1 & t1 & Hst & Hf1 & Hr1 & B1 & P1) HQ. apply wp_bind. eapply wp_ld_fl; [exact Hf1|]. destruct L1 as [|p L' _] using rev_ind; [by destruct Hst|]. pose proof Hr1 as (a1 & Ha1 & _ & Hs1 & Hc1 & Hm1 & Hx1).
  rewrite length_app in Hc1. change (length [p]) with 1%nat in Hc1. pose proof (max_spec g Hg). apply wp_bind, wp_modulo; [lia|lia|]. apply wp_bind. eapply wp_ld_fl_at; [exact Hf1|exact Ha1| |].
  - replace (start_idx f1 + (count f1 - 1)) with (start_idx f1 + Z.of_nat (length L')) by lia. apply Hx1. by apply list_lookup_middle.
  - eapply wp_pop_obj; [exact R|done|exact Hn|exact Hmv|exact Hst|exact Hf1|exact Hr1|exact B1|exact P1|done|]. intros s' Hs'. by apply HQ.
Qed.

(** Objects of a few granules. *)
Lemma wp_malloc_tiny s live n (Q : Z -> makalu -> Prop) : minv s live -> 0 < n <= 384 -> (forall p s', allocated_obj live n p s' -> Q p s') -> wp True (MAK_malloc fuel n) s Q.
Proof.
  intros (A & F & t & O & c & R) Hn HQ. unfold MAK_malloc. rewrite rounded_up by lia. set (g := (n + 15) / 16). assert (Hg : 1 <= g < 25 /\ n <= 16 * g) by (unfold g; pose proof (Z.div_mod (n + 15) 16 ltac:(done)); pose proof (Z.mod_pos_bound (n + 15) 16 ltac:(done)); lia). destruct Hg as [Hg Hle].
  apply wp_bind, wp_gets. destruct (ba_hc _ _ _ _ (mi_based _ _ _ _ _ _ _ R) HcLocal) as (u & Hu & _). cbn in Hu. destruct (my_tlfs s) as [tl|]; [|done]. apply wp_bind, wp_gets. rewrite (mi_init _ _ _ _ _ _ _ R). cbn [negb]. unfold TINY_FREELISTS at 1.
  destruct (Z.leb_spec 25 g) as [|_]; [lia|]. destruct (mi_arr _ _ _ _ _ _ _ R g ltac:(lia)) as (f & Hf & [[Hr Hl]|[Hx _]]); [|lia]. assert (Hlo : FlLocal NORMAL g = loc g) by (by rewrite loc_local by lia). rewrite Hlo. clearbody g. apply wp_bind. eapply wp_ld_fl; [exact Hf|].
  destruct (tlfs_max g Hg) as [-> _]. pose proof Hr as (a & Ha & Hla & Hs & Hc & Hm & _). pose proof (max_spec g ltac:(lia)) as Hmx.
  assert (Hend : forall s1, stocked (own := own) (LIM := LIM) (loc g) g (max_objs g) (c g) O s s1 -> wp True (f' <- ld_fl (loc g); if (count f <=? 0) && (count f' =? 0) then cret 0 else idx <- cmodulo (start_idx f' + (count f' - 1)) (max_objs g); (p <- ld_fl_at (loc g) idx; (upd_fl (loc g) (fl_count (count f' - 1));; cret p))) s1 Q).
  { intros s1 Hst. pose proof (wp_read_pop True s live A F t O c g s1 (max_objs g) n Q R ltac:(lia) Hle eq_refl Hst HQ) as Hw. destruct Hst as (_ & L1 & O1 & f1 & _ & _ & _ & [Hne _] & Hf1 & (_ & _ & _ & _ & Hc1 & _) & _). unfold wp, cbind, ld_fl in Hw |- *. unfold arr in Hf1. rewrite Hf1 in Hw |- *.
    assert (Hz : (count f1 =? 0) = false) by (apply Z.eqb_neq; destruct L1; [done|cbn in Hc1; lia]). rewrite Hz, andb_false_r. exact Hw. }
  apply wp_bind. destruct (Z.leb_spec (count f) 0) as [Hle0|Hgt]; [|apply wp_ret, Hend].
  - assert (Hnil : c g = []) by (destruct (c g); [done|cbn in Hc; lia]). destruct (Z.eqb_spec g 0); [lia|]. unfold GRANULE_BYTES. rewrite (Z.mul_comm g). apply wp_bind. destruct (mi_tiny _ _ _ _ _ _ _ R g ltac:(lia)) as (gf & Hgf & Hgc).
    eapply wp_malloc_many; [done|exact (mi_based _ _ _ _ _ _ _ R)|exact (mi_pool _ _ _ _ _ _ _ R)|lia|apply loc_normal|exact Hf|exact Ha|lia|exact Hgf|exact Hgc|]. intros s1 Htk.
    eapply (wp_restart _ (loc g) g (max_objs g) O s); [apply loc_normal|lia|lia|by rewrite <- Hla, Nat2Z.id|]. intros s2 Hst. apply Hend. by rewrite Hnil.
  - split; [by apply same_moved|]. exists (c g), O, f, A, F, t. split; [split; [|by left]|split; [done|split; [done|split; apply R]]]. intros Hnil. rewrite Hnil in Hc. cbn in Hc. lia.
Qed.

Lemma rep_map s live A F t O c m : rep s live A F t O c -> smap_ok m -> rep (set_size_map m s) live A F t O c.
Proof. intros [[B1 B2 B3 B4 B5] R2 R3 R4 R5 R6 R7 R8 R9 R10 R11] Hm. split; try done. Qed.

(** The array is there from now on. *)
Lemma wp_have_array {X} T s live g (k : stM makalu X) (Q : X -> makalu -> Prop) : minv s live -> 25 <= g <= 128 -> (forall s' f, minv s' live -> arr (FlGlobal 1 g) s' = Some f -> fl f <> None -> wp T k s' Q) ->
  wp T (f <- ld_fl (FlGlobal 1 g); (match fl f with Some _ => cret tt | None => upd_fl (FlGlobal 1 g) (fl_array (Some (replicate (Z.to_nat (MAK_fl_max_count g)) 0)));;
    (r <- cgets (fun s => MAK_reclaim_list s !! Z.to_nat 1); match r with Some (Some _) => cret tt | Some None => MAK_alloc_reclaim_list 1 | None => cfail UB_access end) end);; k) s Q.
Proof.
  intros Hi Hg HQ. pose proof Hi as (A & F & t & O & c & R). destruct (mi_arr _ _ _ _ _ _ _ R g ltac:(lia)) as (f & Hf & Hok). rewrite loc_global in Hf by lia. apply wp_bind. eapply wp_ld_fl; [exact Hf|]. apply wp_bind. destruct (fl f) as [a|] eqn:Ea.
  - apply wp_ret. eapply HQ; [exact Hi|exact Hf|congruence].
  - destruct Hok as [[(a & Ha & _) _]|(_ & Hnil & _ & Hs & Hc & Hno)]; [congruence|]. apply wp_bind. eapply wp_upd_fl; [done|exact Hf|]. intros s1 H1. apply wp_bind, wp_gets. pose proof (based_arrs _ _ _ _ _ _ _ (proj1 H1) (mi_based _ _ _ _ _ _ _ R)) as B1.
    change (Z.to_nat 1) with 1%nat. rewrite (ba_rl _ _ _ _ B1). apply wp_ret. eapply HQ; [|apply H1|done]. destruct (fl_max g ltac:(lia)) as [Hmx _]. rewrite Hmx in H1. pose proof (max_spec g ltac:(lia)). destruct (objs_spec g ltac:(lia)) as [Ho _].
    rewrite <- (loc_global g) in H1 by lia. eapply (rep_change s live A F t O c g s1 live A F t O []); [done|lia|by eauto|done|apply R|apply H1| |done|done|by intros p ?%not_elem_of_nil|apply NoDup_nil_2|intros p; apply (mi_live _ _ _ _ _ _ _ R)|intros p Hp; by destruct (Hno p)].
    left. split; [|cbn; lia]. unfold fl_array. rewrite Hs, Hc. apply (ring_fill _ _ []); [rewrite length_replicate; lia|cbn; lia|lia|done].
Qed.

Lemma wp_generic_small s live n (Q : Z -> makalu -> Prop) : minv s live -> 384 < n <= 2048 -> (forall p s', allocated_obj live n p s' -> Q p s') -> wp True (MAK_generic_malloc fuel n 1) s Q.
Proof.
  intros (A & F & t & O & c & R) Hn HQ. unfold MAK_generic_malloc. assert (Hsm : SMALL_OBJ n = true) by (unfold SMALL_OBJ, MAXOBJBYTES; apply orb_true_iff; right; apply Z.leb_le; lia). rewrite Hsm. destruct (smap_entry _ n (mi_sizes _ _ _ _ _ _ _ R) ltac:(lia)) as (v & Hv & Hvo).
  apply wp_bind. eapply wp_ld_size_map; [exact Hv|]. apply wp_bind.
  assert (Hend : forall s1 g, minv s1 live -> size_ok n g -> g <> 0 -> wp True (f <- ld_fl (FlGlobal 1 g); (match fl f with Some _ => cret tt | None => upd_fl (FlGlobal 1 g) (fl_array (Some (replicate (Z.to_nat (MAK_fl_max_count g)) 0)));;
    (r <- cgets (fun s => MAK_reclaim_list s !! Z.to_nat 1); match r with Some (Some _) => cret tt | Some None => MAK_alloc_reclaim_list 1 | None => cfail UB_access end) end);;
    (op <- MAK_allocobj fuel g 1; if op =? 0 then cret op else upd_fl (FlGlobal 1 g) (fun f => fl_count (count f - 1) f);; cret op)) s1 Q).
  { intros s1 g Hi [|(Hg & Hle & Hbig)] Hg0; [done|]. specialize (Hbig ltac:(lia)). eapply wp_have_array; [exact Hi|lia|]. intros s2 f (A2 & F2 & t2 & O2 & c2 & R2) Hf Hfl.
    destruct (mi_arr _ _ _ _ _ _ _ R2 g ltac:(lia)) as (f' & Hf' & Hok). rewrite loc_global in Hf' by lia. assert (f' = f) as -> by congruence. destruct Hok as [[Hr Hl]|(_ & _ & Hx & _)]; [|done].
    pose proof (max_spec g Hg). apply wp_bind. eapply wp_allocobj; [done|exact (mi_based _ _ _ _ _ _ _ R2)|exact (mi_pool _ _ _ _ _ _ _ R2)|done|exact Hf|exact Hr|by destruct (fl_max g Hg)|lia|].
    intros s3 L3 p O3 f3 A3 F3 t3 Hmv Hst Hf3 Hr3 B3 P3. assert (Hp : O3 !! p = Some (16 * g)).
    { assert (Hin : p ∈ L3 ++ [p]) by (apply elem_of_app; right; left). destruct Hst as [_ [[He ->]|(_ & _ & _ & _ & ->)]]; [rewrite He in Hin; by apply (mi_cont _ _ _ _ _ _ _ R2)|]. apply lookup_add_keys. left. by rewrite elem_of_list_to_set. }
    destruct (obj_nonzero _ _ _ _ _ _ _ B3 P3 Hp) as [_ Hp0]. destruct (Z.eqb_spec p 0); [done|]. rewrite <- (loc_global g) in * by lia.
    eapply (wp_pop_obj _ s2 live A2 F2 t2 O2 c2 g s3 L3 p O3 f3 A3 F3 t3 n); [exact R2|done|done|done|done|done|done|done|done|done|]. intros s' Hs'. by apply HQ. }
  destruct (Z.eqb_spec v 0) as [->|Hv0].
  - apply wp_bind, wp_gets. rewrite (mi_init _ _ _ _ _ _ _ R). cbn [negb]. apply wp_bind. eapply wp_mono; [apply (wp_extend_size_map _ s n); [apply R|lia|exact Hv]|]. intros [] s1 (m & w & -> & Hm & Hw & Hw0).
    eapply wp_ld_size_map; [exact Hw|]. apply Hend; [exists A, F, t, O, c; by apply rep_map|apply (proj2 Hm); [lia|done]|done].
  - apply wp_ret, Hend; [by exists A, F, t, O, c|done|done].
Qed.

(** Large objects come and go. *)
Lemma rep_large s live A F t O c s' A' F' O' live' : rep s live A F t O c -> same s s' -> based s' A' F' t -> pool_ok A' t O' ->
  (forall p z, z <= 2048 -> (O' !! p = Some z <-> O !! p = Some z)) -> (forall p z, z <= 2048 -> (live' !! p = Some z <-> live !! p = Some z)) ->
  (forall p z, 2048 < z -> (O' !! p = Some z <-> live' !! p = Some z)) -> (forall p z, 2048 < z -> O' !! p = Some z -> z mod 16 = 0) -> minv s' live'.
Proof.
  intros [R1 R2 R3 R4 R5 R6 R7 R8 R9 R10 R11] Hsm B' P' HO Hl Hbig Hgr. pose proof Hsm as (_ & K1 & K2 & K3). exists A', F', t, O', c. split; [done|done| | | |done| | | | |].
  - intros g Hg. destruct (R3 g Hg) as (f & Hf & Hok). exists f. rewrite (same_arr _ _ _ Hsm). split; [done|]. destruct Hok as [?|(H1 & H2 & H3 & H4 & H5 & H6)]; [by left|right]. split_and!; try done. intros p Hp. apply (H6 p). apply HO; [lia|done].
  - intros g Hg. rewrite (same_arr _ _ _ Hsm). by apply R4.
  - intros g p Hg Hp. destruct (R5 g p Hg Hp) as [H1 H2]. assert (H1' : O' !! p = Some (16 * g)) by (apply HO; [lia|done]). split; [done|]. destruct (live' !! p) as [z|] eqn:E; [|done]. destruct (Z_le_gt_dec z 2048) as [Hz|Hz].
    + apply Hl in E; [congruence|done].
    + apply Hbig in E; [|lia]. rewrite E in H1'. injection H1'. lia.
  - intros p z Hp. destruct (Z_le_gt_dec z 2048) as [Hz|Hz]; [apply HO; [done|]; apply R7; by apply Hl|]. apply Hbig; [lia|done].
  - intros p z Hp. destruct (Z_le_gt_dec z 2048) as [Hz|Hz]; [|left; apply Hbig; [lia|done]]. destruct (R8 p z ltac:(by apply HO)) as [?|?]; [left; by apply Hl|by right].
  - intros p z Hp. destruct (Z_le_gt_dec z 2048) as [Hz|Hz]; [apply (R9 p z); by apply HO|apply (Hgr p); [lia|done]].
  - by rewrite K1.
  - by rewrite K2.
Qed.

(** A large object is live. *)
Lemma rep_big s live A F t O c p z : rep s live A F t O c -> 2048 < z -> (O !! p = Some z <-> live !! p = Some z).
Proof. intros R Hz. split; [|apply (mi_live _ _ _ _ _ _ _ R)]. intros Hp. destruct (mi_all _ _ _ _ _ _ _ R p z Hp) as [?|(g & Hg & Hin)]; [done|]. destruct (mi_cont _ _ _ _ _ _ _ R g p Hg Hin). assert (z = 16 * g) by congruence. lia. Qed.

Lemma granules_bytes g : GRANULES_TO_BYTES g = 16 * g.
Proof. unfold GRANULES_TO_BYTES. rewrite Z.shiftl_mul_pow2 by lia. lia. Qed.

Lemma wp_generic_large s live n (Q : Z -> makalu -> Prop) : minv s live -> 2048 < n < 2 ^ 58 -> (forall p s', allocated_obj live n p s' -> Q p s') -> wp True (MAK_generic_malloc fuel n 1) s Q.
Proof.
  intros (A & F & t & O & c & R) Hn HQ. unfold MAK_generic_malloc. assert (Hsm : SMALL_OBJ n = false) by (unfold SMALL_OBJ, MAXOBJBYTES; apply orb_false_iff; split; apply Z.leb_gt; lia). rewrite Hsm, rounded_up, granules_bytes by lia. set (z := 16 * ((n + 15) / 16)).
  assert (Hz : n <= z < n + 16) by (unfold z; pose proof (Z.div_mod (n + 15) 16 ltac:(done)); pose proof (Z.mod_pos_bound (n + 15) 16 ltac:(done)); lia). assert (Hm : z mod 16 = 0) by (unfold z; rewrite Z.mul_comm; apply Z_mod_mult). clearbody z.
  eapply wp_alloc_large; [done|exact (mi_based _ _ _ _ _ _ _ R)|exact (mi_pool _ _ _ _ _ _ _ R)|apply R|unfold MAXOBJBYTES; lia|done|]. intros s' A' F' m B' Hsm' P' Hnone Hm1. apply HQ. exists z.
  assert (Hnl : live !! (m * HBLKSZ) = None) by (destruct (live !! (m * HBLKSZ)) as [y|] eqn:E; [|done]; apply (mi_live _ _ _ _ _ _ _ R) in E; congruence). split; [|split; [done|lia]].
  eapply rep_large; [exact R|done|exact B'|exact P'|..].
  - intros p y Hy. rewrite lookup_insert_Some. split; [intros [[_ ?]|[_ ?]]; [lia|done]|]. intros Hp. right. split; [|done]. intros <-. congruence.
  - intros p y Hy. rewrite lookup_insert_Some. split; [intros [[_ ?]|[_ ?]]; [lia|done]|]. intros Hp. right. split; [|done]. intros <-. congruence.
  - intros p y Hy. rewrite !lookup_insert_Some, (rep_big _ _ _ _ _ _ _ p y R Hy). done.
  - intros p y Hy [[_ <-]|[_ Hp]]%lookup_insert_Some; [done|]. by apply (mi_gran _ _ _ _ _ _ _ R p).
Qed.

Lemma wp_core_malloc s live n (Q : Z -> makalu -> Prop) : minv s live -> 384 < n < 2 ^ 58 -> (forall p s', allocated_obj live n p s' -> Q p s') -> wp True (MAK_core_malloc fuel n) s Q.
Proof.
  intros Hi Hn HQ. unfold MAK_core_malloc. destruct (SMALL_OBJ n) eqn:Esm; unfold SMALL_OBJ, MAXOBJBYTES in Esm.
  2:{ apply orb_false_iff in Esm as [E1%Z.leb_gt E2%Z.leb_gt]. apply wp_generic_large with live; [done|lia|done]. }
  assert (Hle : n <= 2048) by (apply orb_true_iff in Esm as [E%Z.leb_le|E%Z.leb_le]; lia). pose proof Hi as (A & F & t & O & c & R). destruct (smap_entry _ n (mi_sizes _ _ _ _ _ _ _ R) ltac:(lia)) as (v & Hv & Hvo).
  apply wp_bind. eapply wp_ld_size_map; [exact Hv|]. change (FlGlobal NORMAL v) with (FlGlobal 1 v). destruct Hvo as [->|(Hg & Hnv & Hbig)].
  { destruct (mi_tiny _ _ _ _ _ _ _ R 0 ltac:(lia)) as (f & Hf & Hc). apply wp_bind. eapply wp_ld_fl; [exact Hf|]. rewrite Hc. cbn [Z.eqb]. apply wp_generic_small with live; [done|lia|done]. }
  specialize (Hbig ltac:(lia)). destruct (mi_arr _ _ _ _ _ _ _ R v Hg) as (f & Hf & Hok). pose proof (loc_global v Hbig) as Hlv. rewrite <- Hlv in *. destruct (Z.eq_dec (count f) 0) as [Hc0|Hc0].
  { apply wp_bind. eapply wp_ld_fl; [exact Hf|]. rewrite Hc0. cbn [Z.eqb]. apply wp_generic_small with live; [done|lia|done]. }
  destruct Hok as [[Hr Hl]|(_ & _ & _ & _ & Hx & _)]; [|done]. assert (Hst : stocked (own := own) (LIM := LIM) (loc v) v (max_objs v) (c v) O s s).
  { split; [by apply same_moved|]. exists (c v), O, f, A, F, t. split; [split; [|by left]|split; [done|split; [done|split; apply R]]]. intros Hnil. pose proof Hr as (_ & _ & _ & _ & Hc & _). rewrite Hnil in Hc. done. }
  pose proof (wp_read_pop True s live A F t O c v s (max_objs v) n Q R Hg Hnv eq_refl Hst HQ) as Hw. destruct (fl_max v Hg) as [-> _]. unfold arr in Hf. unfold wp, cbind, ld_fl in Hw |- *. rewrite Hf in Hw |- *. apply Z.eqb_neq in Hc0. rewrite Hc0. exact Hw.
Qed.

(** [MAK_malloc] returns a new object of at least the size asked for, or aborts. *)
Lemma wp_malloc s live n (Q : Z -> makalu -> Prop) : minv s live -> 0 < n < 2 ^ 58 -> (forall p s', allocated_obj live n p s' -> Q p s') -> wp True (MAK_malloc fuel n) s Q.
Proof.
  intros Hi Hn HQ. destruct (Z_le_gt_dec n 384) as [Hle|Hgt]; [apply wp_malloc_tiny with live; [done|lia|done]|]. pose proof Hi as (A & F & t & O & c & R). unfold MAK_malloc. rewrite rounded_up by lia.
  apply wp_bind, wp_gets. destruct (ba_hc _ _ _ _ (mi_based _ _ _ _ _ _ _ R) HcLocal) as (u & Hu & _). cbn in Hu. destruct (my_tlfs s) as [tl|]; [|done]. apply wp_bind, wp_gets. rewrite (mi_init _ _ _ _ _ _ _ R). cbn [negb]. unfold TINY_FREELISTS at 1.
  pose proof (Z.div_le_lower_bound (n + 15) 16 25 ltac:(done) ltac:(lia)) as H25. destruct (Z.leb_spec 25 ((n + 15) / 16)); [|lia]. apply wp_core_malloc with live; [done|lia|done].
Qed.

(** ** Freeing *)

Lemma bytes_granules k : 0 <= k -> BYTES_TO_GRANULES (16 * k) = k.
Proof. intros Hk. unfold BYTES_TO_GRANULES. rewrite Z.shiftr_div_pow2 by lia. change (2 ^ 4) with 16. rewrite Z.mul_comm. by apply Z.div_mul. Qed.

(** The object is written to the array. *)
Lemma wp_push {X} T l s max L p f A F t (k : stM makalu X) (Q : X -> makalu -> Prop) : normal_loc l -> based s A F t -> arr l s = Some f -> ring f max L -> Z.of_nat (length L) < max -> max < 2 ^ 32 ->
  (forall s' f', moved l s s' -> based s' A F t -> arr l s' = Some f' -> ring f' max (L ++ [p]) -> wp T k s' Q) ->
  wp T (idx <- cmodulo (start_idx f + count f) max; (st_fl_at l idx p;; (upd_fl l (fl_count (count f + 1));; k))) s Q.
Proof.
  intros Hl B Hf Hr Hlt Hmax HQ. pose proof Hr as (a & Ha & Hla & Hs & Hc & Hm & _). apply wp_bind, wp_modulo; [lia|lia|]. pose proof (Z.mod_pos_bound (start_idx f + count f) max ltac:(lia)) as Hmod.
  apply wp_bind. eapply wp_st_fl_at; [done|exact Hf|exact Ha|lia|]. intros s1 H1. apply wp_bind. eapply wp_upd_fl; [done|apply H1|]. intros s2 H2. pose proof (arr_set_trans _ _ _ _ _ _ H1 H2) as H3.
  eapply HQ; [by eauto|eapply based_arrs; [apply H3|done]|apply H3|]. by apply ring_push.
Qed.

(** When the array is full, objects go back to their blocks. *)
Lemma wp_pushed T s live A F t O c g p z s2 f2 keep TR (Q : unit -> makalu -> Prop) : rep s live A F t O c -> 1 <= g <= 128 -> live !! p = Some z -> z = 16 * g -> moved (loc g) s s2 -> based s2 A F t ->
  arr (loc g) s2 = Some f2 -> ring f2 (max_objs g) (c g ++ [p]) -> 0 <= keep <= objs g ->
  ((forall q, q ∈ c g ++ [p] -> O !! q = Some (16 * g)) -> NoDup (c g ++ [p]) -> wp T TR s2 (fun _ s' => truncated (own := own) (LIM := LIM) (loc g) (max_objs g) (c g ++ [p]) (length (c g ++ [p]) - Z.to_nat keep) O s2 s')) ->
  (forall s', minv s' (delete p live) -> Q tt s') -> wp T (if max_objs g <=? u64 (Z.of_nat (length (c g)) + 1) then TR else cret tt) s2 Q.
Proof.
  intros R Hg Hp -> Hmv B2 Hf2 Hr2 Hk Htr HQ. pose proof (max_spec g Hg) as Hmx. pose proof Hr2 as (_ & _ & _ & _ & Hc2 & Hm2 & _). rewrite length_app in Hc2. change (length [p]) with 1%nat in Hc2. rewrite u64_small by lia. destruct (Z.leb_spec (max_objs g) (Z.of_nat (length (c g)) + 1)) as [Hfull|Hroom].
  - assert (HpO : O !! p = Some (16 * g)) by (by apply (mi_live _ _ _ _ _ _ _ R)). eapply wp_mono; [apply Htr|].
    + intros q [Hq| ->%list_elem_of_singleton]%elem_of_app; [by apply (mi_cont _ _ _ _ _ _ _ R)|done].
    + apply NoDup_app. split; [by apply R|]. split; [|apply NoDup_singleton]. intros q Hq ->%list_elem_of_singleton. destruct (mi_cont _ _ _ _ _ _ _ R g p Hg Hq). congruence.
    + intros [] s3 ((f3 & Hf3 & Hr3) & Hoth & Hkp & A3 & F3 & t3 & B3 & P3). apply HQ. eapply (rep_give s live A F t O c g s3 A3 F3 t3 _ p f3); [done|done|eapply moved_trans; [exact Hmv|by split]|done|done|done| |done|done].
      rewrite length_drop, length_app. change (length [p]) with 1%nat. lia.
  - apply wp_ret, HQ. eapply (rep_give s live A F t O c g s2 A F t 0 p f2); [done|done|done|done|done|by rewrite drop_0|rewrite drop_0, length_app; cbn; lia|done|]. cbn. rewrite drop_keys_none. apply R.
Qed.

(** An object of the thread's arrays. *)
Lemma free_tiny s live A F t O c s1 g p f (Q : unit -> makalu -> Prop) : rep s live A F t O c -> 1 <= g < 25 -> same s s1 -> based s1 A F t -> live !! p = Some (16 * g) -> arr (loc g) s = Some f ->
  (forall s', minv s' (delete p live) -> Q tt s') ->
  wp False (idx <- cmodulo (start_idx f + count f) (max_objs g); (st_fl_at (loc g) idx p;; (upd_fl (loc g) (fl_count (count f + 1));;
    (if max_objs g <=? u64 (count f + 1) then never <- cgets never_allocates; MAK_truncate_fast_fl fuel HcLocal (loc g) g 1 (if never : bool then 0 else objs g) (max_objs g) else cret tt)))) s1 Q.
Proof.
  intros R Hg Hsm B1 Hp Hf HQ. destruct (mi_arr _ _ _ _ _ _ _ R g ltac:(lia)) as (f' & Hf' & [[Hr Hl]|[Hx _]]); [|lia]. assert (f' = f) as -> by congruence. pose proof (max_spec g ltac:(lia)) as Hmx. destruct (objs_spec g ltac:(lia)) as [Ho _].
  eapply wp_push; [apply loc_normal|exact B1|by rewrite (same_arr _ _ _ Hsm)|exact Hr|done|lia|]. intros s2 f2 Hmv B2 Hf2 Hr2. pose proof Hr as (_ & _ & _ & _ & -> & _ & _).
  eapply (wp_pushed _ s live A F t O c g p (16 * g) s2 f2 (if never_allocates s2 then 0 else objs g)); [done|lia|done|done|eapply moved_trans; [by apply same_moved|done]|done|done|done|destruct (never_allocates s2); lia| |done].
  intros HL Hnd. apply wp_bind, wp_gets. eapply wp_truncate_fast; [done|exact B2|exact (mi_pool _ _ _ _ _ _ _ R)|apply loc_normal|exact Hf2|exact Hr2|lia|done|done|destruct (never_allocates s2); lia|lia|done].
Qed.

(** An object of the arrays of the process. *)
Lemma free_small s live A F t O c s1 g p r (Q : unit -> makalu -> Prop) : rep s live A F t O c -> 25 <= g <= 128 -> same s s1 -> based s1 A F t -> live !! p = Some (16 * g) -> A !! bno p = Some r ->
  (forall s', minv s' (delete p live) -> Q tt s') -> wp False (MAK_core_free fuel p (ar_hdr r) 1 (16 * g) g) s1 Q.
Proof.
  intros R Hg Hsm B1 Hp Hrun HQ. unfold MAK_core_free. apply wp_bind. eapply (wp_get B1); [exact Hrun|]. unfold MAXOBJGRANULES. destruct (Z.leb_spec g 128); [|lia]. rewrite <- (loc_global g) by lia.
  destruct (mi_arr _ _ _ _ _ _ _ R g ltac:(lia)) as (f & Hf & [[Hr Hl]|(_ & _ & _ & _ & _ & Hno)]); [|destruct (Hno p); by apply (mi_live _ _ _ _ _ _ _ R)]. destruct (fl_max g ltac:(lia)) as [-> ->]. pose proof (max_spec g ltac:(lia)) as Hmx. destruct (objs_spec g ltac:(lia)) as [Ho _].
  apply wp_bind. eapply wp_ld_fl; [rewrite (same_arr _ _ _ Hsm); exact Hf|]. eapply wp_push; [apply loc_normal|exact B1|by rewrite (same_arr _ _ _ Hsm)|exact Hr|done|lia|]. intros s2 f2 Hmv B2 Hf2 Hr2. pose proof Hr as (_ & _ & _ & _ & Hc & _ & _). rewrite Hc.
  apply wp_bind. apply (wp_st_hce B2); [destruct (bh_hdr _ _ _ _ _ (ba_own _ _ _ _ B2) Hrun) as (Hx & _); by eexists|]. intros s3 B3 Hs3. assert (Hmv3 : moved (loc g) s s3) by (eapply moved_trans; [by apply same_moved|by eauto]).
  rewrite <- (same_arr _ _ _ Hs3) in Hf2. eapply (wp_pushed _ s live A F t O c g p (16 * g) s3 f2 (objs g)); [done|lia|done|done|done|done|done|done|lia| |done].
  intros HL Hnd. eapply wp_truncate_freelist; [done|exact B3|exact (mi_pool _ _ _ _ _ _ _ R)|apply loc_normal|exact Hf2|exact Hr2|lia|done|done|lia|lia|done].
Qed.

(** A large object. *)
Lemma free_large s live A F t O c s1 z p r (Q : unit -> makalu -> Prop) : rep s live A F t O c -> 2048 < z -> same s s1 -> based s1 A F t -> live !! p = Some z -> A !! bno p = Some r -> hb_sz (ar_data r) = z ->
  (forall s', minv s' (delete p live) -> Q tt s') -> wp False (MAK_core_free fuel p (ar_hdr r) 1 z (BYTES_TO_GRANULES z)) s1 Q.
Proof.
  intros R Hz Hsm B1 Hp Hrun Hsz HQ. unfold MAK_core_free. apply wp_bind. eapply (wp_get B1); [exact Hrun|]. assert (HpO : O !! p = Some z) by (by apply (mi_live _ _ _ _ _ _ _ R)). pose proof (mi_gran _ _ _ _ _ _ _ R p z HpO) as Hm.
  pose proof (Z.div_mod z 16 ltac:(done)) as Hd. assert (Hg : BYTES_TO_GRANULES z = z / 16) by (unfold BYTES_TO_GRANULES; by rewrite Z.shiftr_div_pow2). rewrite Hg. unfold MAXOBJGRANULES. destruct (Z.leb_spec (z / 16) 128); [lia|].
  destruct (bh_hdr _ _ _ _ _ (ba_own _ _ _ _ B1) Hrun) as (_ & -> & _). apply wp_on_blk. eapply bh_free; [exact (ba_own _ _ _ _ B1)|exact Hrun|by eapply based_fuel|]. intros b Hb Hl. apply HQ.
  assert (Hpb : p = bno p * HBLKSZ). { destruct (live_obj _ _ _ _ _ _ _ p z R Hp) as (r' & _ & _ & [[_ ?]|(g & j & Hgr & He & _)]); [done|lia]. } rewrite Hpb in Hp |- *. set (n := bno p) in *. clearbody n.
  eapply (rep_large s live A F t O c); [exact R|by eapply same_trans|by eapply based_blk|eapply pool_unlarge; [apply R|exact Hrun|unfold MAXOBJBYTES; lia]|..].
  - intros q y Hy. rewrite lookup_drop_keys, not_elem_of_singleton. split; [by intros []|]. intros Hq. split; [done|]. intros ->. apply (mi_live _ _ _ _ _ _ _ R) in Hp. assert (y = z) by congruence. lia.
  - intros q y Hy. rewrite lookup_delete_Some. split; [by intros []|]. intros Hq. split; [|done]. intros <-. assert (y = z) by congruence. lia.
  - intros q y Hy. rewrite lookup_drop_keys, lookup_delete_Some, not_elem_of_singleton, (rep_big _ _ _ _ _ _ _ q y R Hy). split; intros []; done.
  - intros q y Hy [Hq _]%lookup_drop_keys. by apply (mi_gran _ _ _ _ _ _ _ R q).
Qed.

(** [MAK_free] of a live object. *)
Lemma wp_free s live p z (Q : unit -> makalu -> Prop) : minv s live -> live !! p = Some z -> (forall s', minv s' (delete p live) -> Q tt s') -> wp False (MAK_free fuel p) s Q.
Proof.
  intros (A & F & t & O & c & R) Hp HQ. unfold MAK_free. apply wp_bind, wp_gets. destruct (ba_hc _ _ _ _ (mi_based _ _ _ _ _ _ _ R) HcLocal) as (u & Hu & _). cbn in Hu. destruct (my_tlfs s) as [tl|]; [|done]. apply wp_bind, wp_gets.
  rewrite (mi_init _ _ _ _ _ _ _ R). cbn [negb]. assert (HpO : O !! p = Some z) by (by apply (mi_live _ _ _ _ _ _ _ R)). destruct (obj_nonzero _ _ _ _ _ _ _ (mi_based _ _ _ _ _ _ _ R) (mi_pool _ _ _ _ _ _ _ R) HpO) as [Hbn Hp0].
  destruct (Z.eqb_spec p 0); [done|]. apply wp_bind. pose proof (live_obj _ _ _ _ _ _ _ p z R Hp) as Hobj. destruct (obj_place _ _ _ _ _ _ (mi_based _ _ _ _ _ _ _ R) Hobj) as (_ & _ & _ & Hz & _).
  replace p with (p + 0) at 1 by lia. eapply wp_base; [done|exact (mi_based _ _ _ _ _ _ _ R)|exact Hobj|apply R|lia|]. intros s1 r Hrun Hsz B1 Hsm. destruct (Z.eqb_spec p 0); [done|]. apply wp_bind. eapply (wp_get B1); [exact Hrun|].
  assert (Hk : hb_obj_kind (ar_data r) = 1) by (destruct (po_runs _ _ _ (mi_pool _ _ _ _ _ _ _ R) _ _ Hrun (not_elem_of_empty _)) as [Hk _]; exact Hk). rewrite Hk, Hsz. unfold TINY_FREELISTS at 1. rewrite orb_false_r.
  destruct Hobj as (r' & Hr' & Hs' & [[Hbig _]|(g & j & Hg & Hzg & _)]); [|assert (Hgz : BYTES_TO_GRANULES z = g) by (rewrite Hzg; apply bytes_granules; lia)].
  - assert (H128 : 25 <= BYTES_TO_GRANULES z) by (unfold BYTES_TO_GRANULES, MAXOBJBYTES in *; rewrite Z.shiftr_div_pow2 by lia; apply Z.div_le_lower_bound; lia). destruct (Z.leb_spec 25 (BYTES_TO_GRANULES z)); [|lia].
    unfold MAXOBJBYTES in Hbig. by eapply (free_large s live A F t O c).
  - rewrite Hgz. destruct (Z.leb_spec 25 g).
    + rewrite Hzg in *. eapply (free_small s live A F t O c); [done|lia|done|done|done|done|done].
    + cbn [orb negb Z.eqb NORMAL PTRFREE]. destruct (tlfs_max g ltac:(lia)) as [-> ->]. rewrite <- (loc_local g) by lia. destruct (mi_arr _ _ _ _ _ _ _ R g Hg) as (f & Hf & _). apply wp_bind. eapply wp_ld_fl; [rewrite (same_arr _ _ _ Hsm); exact Hf|].
      rewrite Hzg in *. eapply (free_tiny s live A F t O c); [done|lia|done|done|done|done|done].
Qed.

End malloc.
