(* ===== verification/MakClient.v ===== *)
(** * Makalu: a program that uses the allocator

    What [MAK_malloc] and [MAK_free] promise a program, and that they keep it: the abstract
    allocator is a map from the addresses of live objects to their sizes. [start_makalu] is the
    allocator as [MAK_start] leaves it. *)

From S2P Require Import Prelude MakHdr MakBlock MakLib MakIndex MakHeap MakAlloc MakStart MakObj MakOwn MakPool MakGive MakFast MakStock MakMalloc.
From stdpp Require Import sorting.
#[local] Open Scope Z_scope.
#[local] Open Scope cmd_scope.

(** ** The abstract allocator *)

Inductive obj_request :=
| ReqMalloc (n : Z)
| ReqObjFree (p : Z).

(** A program frees only what is live, and asks for some bytes. *)
Definition obj_legal (live : gmap Z Z) (q : obj_request) : Prop :=
  match q with
  | ReqMalloc n => 0 < n < 2 ^ 58
  | ReqObjFree p => p = 0 \/ is_Some (live !! p)
  end.

(** The bytes of two objects are apart. *)
Definition apart (p z q y : Z) : Prop := p + z <= q \/ q + y <= p.

Inductive ostep (live : gmap Z Z) : obj_request -> Z -> gmap Z Z -> Prop :=
| os_malloc n p z : p <> 0 -> p mod GRANULE_BYTES = 0 -> n <= z -> (forall q y, live !! q = Some y -> apart p z q y) ->
    ostep live (ReqMalloc n) p (<[p := z]> live)
| os_free p z : live !! p = Some z -> ostep live (ReqObjFree p) 0 (delete p live)
| os_free_null : ostep live (ReqObjFree 0) 0 live.

(** A program: its next request, given the answers so far. *)
Definition obj_program := list Z -> obj_request.

Inductive obj_reach (c : obj_program) (live0 : gmap Z Z) : list Z -> gmap Z Z -> Prop :=
| or_nil : obj_reach c live0 [] live0
| or_step h live r live' : obj_reach c live0 h live -> ostep live (c h) r live' -> obj_reach c live0 (h ++ [r]) live'.

Section client.
Context `{!PersistentMem}.

Definition obj_exec (fuel : nat) (q : obj_request) : stM makalu Z :=
  match q with
  | ReqMalloc n => MAK_malloc fuel n
  | ReqObjFree p => MAK_free fuel p;; cret 0
  end.

Fixpoint obj_play (fuel : nat) (c : obj_program) (k : nat) (h : list Z) : stM makalu (list Z) :=
  match k with
  | O => cret h
  | S k' => r <- obj_exec fuel (c h); obj_play fuel c k' (h ++ [r])
  end.

(** ** The start *)

(** The state before [MAK_start]: all zero. *)
Definition base_makalu (b : heap) : makalu :=
  mkMakalu b (replicate (Z.to_nat (MAXOBJGRANULES + 1)) fl_zero) (replicate (Z.to_nat (MAXOBJGRANULES + 1)) fl_zero) (replicate 16 None) (replicate (Z.to_nat (MAXOBJBYTES + 1)) 0) hc_zero None [] false false.

(** [MAK_start]: the reclaim lists are made before the headers and the first blocks. *)
Definition start_makalu (fuel : nat) : stM makalu unit :=
  MAK_alloc_reclaim_list NORMAL;;
  MAK_alloc_reclaim_list PTRFREE;;
  on_blk (MAK_start fuel);;
  MAK_init_size_map;;
  MAK_set_my_thread_local;;
  cmod (set_initialized true).

(** ** Objects are apart *)

Section apart.
Context {own : heap -> gmap Z arun -> gset Z -> Prop} `{!BlockHeap own} {LIM : Z} `{!MemLimit LIM}.

(** An object is inside its run. *)
Lemma obj_inside s A F t p z : based own LIM s A F t -> is_obj A p z -> exists r, A !! bno p = Some r /\ hb_sz (ar_data r) = z /\ 0 < z /\ bno p * HBLKSZ <= p /\ p + z <= (bno p + ar_len r) * HBLKSZ.
Proof.
  intros B Hp. destruct (obj_place _ _ _ _ _ _ B Hp) as (r & Hr & Hs & Hz & _ & _ & Hfit). exists r. destruct (bh_hdr _ _ _ _ _ (ba_own _ _ _ _ B) Hr) as (_ & _ & _ & Hlen & _). rewrite Hs in Hlen.
  split; [done|]. split; [done|]. split; [done|]. pose proof (Z.div_mod p HBLKSZ ltac:(done)) as Hd. pose proof (Z.mod_pos_bound p HBLKSZ ltac:(done)) as Hm. change (p / HBLKSZ) with (bno p) in Hd. split; [lia|].
  destruct Hp as (_ & _ & _ & [[_ Hpb]|(g & j & Hg & Hzg & _)]); [lia|]. unfold HBLKSZ in *. specialize (Hfit ltac:(lia)). lia.
Qed.

Lemma objs_apart s A F t p z q y : based own LIM s A F t -> is_obj A p z -> is_obj A q y -> p <> q -> apart p z q y.
Proof.
  intros B Hp Hq Hne. destruct (obj_inside _ _ _ _ _ _ B Hp) as (r & Hr & Hs & Hz & H1 & H2). destruct (obj_inside _ _ _ _ _ _ B Hq) as (r' & Hr' & Hs' & Hy & H3 & H4). destruct (decide (bno p = bno q)) as [E|Hbn].
  - rewrite <- E in Hr'. assert (r' = r) as -> by congruence. assert (y = z) as -> by congruence. destruct Hp as (? & _ & _ & Hp), Hq as (? & _ & _ & Hq). unfold apart. destruct Hp as [[Hbig Hp]|(g & j & Hg & Hzg & _ & Hp)], Hq as [[Hbig' Hq]|(g' & j' & Hg' & Hzg' & _ & Hq)]; unfold MAXOBJBYTES in *; try lia.
    assert (j <> j') by (intros ->; rewrite E in Hp; lia). nia.
  - pose proof (bh_wf _ _ _ (ba_own _ _ _ _ B)) as W. assert (Hdis : run (bno p) (ar_len r) ## run (bno q) (ar_len r')).
    { apply (bw_runs _ W); [| |done]; cbn; rewrite lookup_fmap; [by rewrite Hr|by rewrite Hr']. }
    assert (0 < ar_len r /\ 0 < ar_len r') as [Hl Hl'] by (unfold HBLKSZ in *; lia). unfold apart. destruct (Z_lt_ge_dec (bno p) (bno q)).
    + left. destruct (Z_le_gt_dec (bno p + ar_len r) (bno q)); [unfold HBLKSZ in *; lia|]. destruct (Hdis (bno q)); apply elem_run; lia.
    + right. destruct (Z_le_gt_dec (bno q + ar_len r') (bno p)); [unfold HBLKSZ in *; lia|]. destruct (Hdis (bno p)); apply elem_run; lia.
Qed.

Lemma obj_aligned A O t p z : pool_ok A t O -> O !! p = Some z -> p mod 16 = 0.
Proof.
  intros P (r & _ & _ & [[_ ->]|(g & j & _ & -> & _ & ->)])%(po_objs _ _ _ P); unfold HBLKSZ; [replace (bno p * 4096) with (bno p * 256 * 16) by lia|replace (bno p * 4096 + j * (16 * g)) with ((bno p * 256 + j * g) * 16) by lia]; apply Z_mod_mult.
Qed.

(** What the invariant says about live objects. *)
Lemma obj_facts s live p z : minv (own := own) (LIM := LIM) s live -> live !! p = Some z -> p <> 0 /\ p mod 16 = 0 /\ 0 < z /\ forall q y, live !! q = Some y -> q <> p -> apart p z q y.
Proof.
  intros (A & F & t & O & c & R) Hp. pose proof (mi_live _ _ _ _ _ _ _ R) as Hl. pose proof (mi_based _ _ _ _ _ _ _ R) as B. pose proof (mi_pool _ _ _ _ _ _ _ R) as P.
  destruct (obj_nonzero _ _ _ _ _ _ _ B P (Hl _ _ Hp)) as [_ Hp0]. split; [done|]. split; [exact (obj_aligned _ _ _ _ _ P (Hl _ _ Hp))|]. pose proof (live_obj _ _ _ _ _ _ _ _ _ R Hp) as Hobj. destruct (obj_inside _ _ _ _ _ _ B Hobj) as (_ & _ & _ & Hz & _). split; [done|].
  intros q y Hq Hne. pose proof (live_obj _ _ _ _ _ _ _ _ _ R Hq). eapply objs_apart; [exact B|done|done|done].
Qed.

Context (fuel : nat) (Hfuel : (Z.to_nat LIM < fuel)%nat).

Lemma obj_exec_sim s live q : minv (own := own) (LIM := LIM) s live -> obj_legal live q -> wp True (obj_exec fuel q) s (fun r s' => exists live', ostep live q r live' /\ minv (own := own) (LIM := LIM) s' live').
Proof.
  intros Hi Hl. destruct q as [n|p]; cbn [obj_exec obj_legal] in *.
  - apply (wp_malloc fuel Hfuel s live n _ Hi Hl). intros p s' (z & Hi' & Hnew & Hnz). exists (<[p := z]> live). split; [|done]. destruct (obj_facts s' _ p z Hi' (lookup_insert_eq _ _ _)) as (Hp0 & Hal & _ & Hap). constructor; [done|done|done|].
    intros q y Hq. apply Hap; [|congruence]. by rewrite lookup_insert_ne by congruence.
  - apply wp_bind. destruct (live !! p) as [z|] eqn:E.
    + apply wp_weaken. eapply (wp_free fuel Hfuel s live p z); [done|done|]. intros s' Hi'. apply wp_ret. exists (delete p live). split; [by eapply os_free|done].
    + destruct Hl as [->|[? ?]]; [|done]. unfold MAK_free. apply wp_bind, wp_gets. destruct Hi as (A & F & t & O & c & R). apply wp_bind, wp_gets. rewrite (mi_init _ _ _ _ _ _ _ R). cbn [negb]. cbn [Z.eqb]. apply wp_ret, wp_ret. exists live. split; [constructor|]. by exists A, F, t, O, c.
Qed.

End apart.

(** ** The allocator after the start *)

(** The block heap after the start, as its owner sees it. *)
Lemma owned_start s n : heap_rep s (mkBlocks ∅ (run n MINHINCR)) -> owned s ∅ (run n MINHINCR).
Proof.
  intros (E & L & hl & segs & I & Hco & Habs). exists E, L, hl, segs. split; [done|]. split; [done|]. split; [|by rewrite Habs].
  pose proof (view_abs segs) as Hv. rewrite Habs in Hv. unfold view in Hv. injection Hv as Hv. symmetry. apply map_eq. intros m. rewrite lookup_empty. assert (Hm : (ar_len <$> runs_of segs) !! m = None) by (rewrite Hv; apply lookup_empty).
  rewrite lookup_fmap in Hm. by destruct (runs_of segs !! m).
Qed.

Lemma wp_init_size_map T s : MAK_size_map s = replicate (Z.to_nat (MAXOBJBYTES + 1)) 0 -> wp T MAK_init_size_map s (fun _ s' => exists m, s' = set_size_map m s /\ smap_ok m).
Proof.
  intros Hs. assert (H0 : smap_ok (MAK_size_map s)).
  { rewrite Hs. split; [by rewrite length_replicate|]. intros i v _ [-> _]%lookup_replicate. by left. }
  apply wp_bind, wp_mod. eapply wp_mono; [apply (wp_for _ _ _ (fun _ s' => exists m, s' = set_size_map m s /\ smap_ok m))|].
  - eexists. split; [done|]. apply (smap_set _ 0); [done|lia|]. right. lia.
  - intros l1 i l2 s1 Hl (m & -> & Hm). assert (Hi : 1 <= i <= 384) by (assert (Hx : i ∈ seqZ 1 (GRANULES_TO_BYTES (TINY_FREELISTS - 1))) by (rewrite Hl; apply elem_of_app; right; left); apply elem_of_seqZ in Hx; change (GRANULES_TO_BYTES (TINY_FREELISTS - 1)) with 384 in Hx; lia).
    apply wp_mod. eexists. split; [done|]. apply smap_set; [done|lia|]. right. rewrite rounded_up by lia. pose proof (Z.div_mod (i + 15) 16 ltac:(done)). pose proof (Z.mod_pos_bound (i + 15) 16 ltac:(done)). lia.
  - done.
Qed.

(** The arrays of a new thread. *)
Lemma new_lists g : 1 <= g < 25 -> start_lists (normal_freelists new_tlfs) !! Z.to_nat g = Some (new_array g).
Proof.
  intros Hg. unfold start_lists, new_tlfs. cbn [normal_freelists]. rewrite list_lookup_imap, list_lookup_fmap, lookup_seqZ_lt by (unfold TINY_FREELISTS; lia). cbn [fmap option_fmap option_map]. rewrite Z2Nat.id, Z.add_0_l by lia.
  destruct (Nat.eqb_spec (Z.to_nat g) 0); [lia|]. done.
Qed.

Lemma new_array_ok g O : 1 <= g < 25 -> array_ok g (new_array g) [] O.
Proof.
  intros Hg. pose proof (max_spec g ltac:(lia)). destruct (objs_spec g ltac:(lia)) as [Ho _]. left. split; [|cbn; lia]. unfold new_array. destruct (tlfs_max g Hg) as [-> _].
  apply (ring_fill _ _ []); [rewrite length_replicate; lia|cbn; lia|lia|done].
Qed.

Lemma wp_start fuel LIM rs nils : MemLimit LIM -> inside rs nils -> nils <> 0 -> (0 < fuel)%nat -> (forall r, r ∈ rs -> 0 <= r.1 /\ r.1 + r.2 <= LIM * HBLKSZ) ->
  wp True (start_makalu fuel) (base_makalu (base_heap rs nils)) (fun _ s => minv (own := owned) (LIM := LIM) s ∅).
Proof.
  intros Hlim Hin Hn Hfu Hrs. unfold start_makalu. apply wp_bind, wp_mod. apply wp_bind, wp_mod. set (s0 := set_reclaim_list _ _). apply wp_bind, wp_on_blk. change (blk s0) with (base_heap rs nils).
  eapply wp_mono; [apply wp_grows; [apply grows_start|by apply rep_start]|]. intros [] b [[n HR] Hlat]. apply owned_start in HR. apply wp_bind. eapply wp_mono; [by apply wp_init_size_map|].
  intros [] s1 (m & -> & Hm). apply wp_bind. unfold MAK_set_my_thread_local. apply wp_bind. apply (wp_ok _ _ _ new_tlfs (set_size_map m (set_blk b s0))); [done|]. apply wp_mod, wp_mod.
  set (t := replicate (Z.to_nat (MAXOBJGRANULES + 1)) 0). exists ∅, (run n MINHINCR), t, ∅, (fun _ => []). split.
  - split; [exact HR| | |done|done].
    + eapply limited_later; [|exact Hlat]. exact Hrs.
    + intros c. exists hc_zero. split; [by destruct c|]. split; [done|]. intros e [-> _]%elem_of_replicate. by left.
  - split.
    + intros m' r Hr. done.
    + intros g Hg. exists 0, []. split; [apply lookup_replicate; unfold MAXOBJGRANULES; lia|]. split; [done|]. split; [constructor|]. intros a. split; [by intros ?%not_elem_of_nil|]. by intros (? & _ & (? & ? & _) & _).
    + intros p z. rewrite lookup_empty. split; [|done]. by intros (r & Hr & _).
  - intros g Hg. unfold loc. destruct (Z.ltb_spec g 25).
    + exists (new_array g). split; [|apply new_array_ok; lia]. unfold arr. cbn [fl_table set_initialized set_tlfs my_tlfs fmap option_fmap option_map normal_freelists]. apply new_lists. lia.
    + exists fl_zero. split; [unfold arr; cbn [fl_table fl_gran]; apply lookup_replicate_2; unfold MAXOBJGRANULES; lia|]. right. split; [lia|]. repeat (split; [done|]). intros p. by rewrite lookup_empty.
  - intros g Hg. exists fl_zero. split; [unfold arr; cbn [fl_table fl_gran]; apply lookup_replicate_2; unfold MAXOBJGRANULES; lia|done].
  - intros g p Hg Hp. by apply not_elem_of_nil in Hp.
  - intros g Hg. constructor.
  - done.
  - intros p z Hp. by rewrite lookup_empty in Hp.
  - intros p z Hp. by rewrite lookup_empty in Hp.
  - exact Hm.
  - done.
Qed.

(** ** Programs *)

(** The invariant of the allocator over its block heap: [live] are the objects of the program. *)
Definition makalu_inv (LIM : Z) (s : makalu) (live : gmap Z Z) : Prop := minv (own := owned) (LIM := LIM) s live.

Lemma obj_play_sim LIM fuel c live0 k : MemLimit LIM -> (Z.to_nat LIM < fuel)%nat -> (forall h live, obj_reach c live0 h live -> obj_legal live (c h)) -> forall h s live, obj_reach c live0 h live -> makalu_inv LIM s live ->
  wp True (obj_play fuel c k h) s (fun h' s' => exists live', obj_reach c live0 h' live' /\ makalu_inv LIM s' live').
Proof.
  intros Hlim Hfu Hc. induction k as [|k IH]; intros h s live Hr Hi; cbn [obj_play]; [apply wp_ret; by exists live|].
  apply wp_bind. eapply wp_mono; [apply (obj_exec_sim fuel Hfu s live (c h) Hi); by apply Hc|]. intros r s' (live' & Hs & Hi'). eapply IH; [by eapply or_step|done].
Qed.

(** C7: whatever a program of one thread asks of Makalu from its start on, depending on the answers
    it gets, on a machine whose persistent memory ends at block [LIM], as long as it asks for 1 to
    2^58 - 1 bytes at a time and frees null or live objects only: the run either aborts for want of
    memory, or its answers are those of the abstract allocator. Every new object is not null, has
    the alignment of a granule and at least the bytes asked for, and is apart from every object that
    is live; freed objects are not live. No run reads outside the arrays, or misses a header. (A
    request for 0 bytes is excluded, see [malloc_zero_invalid]; the copy of process arrays in
    [MAK_generic_malloc_many], which needs another thread, is not reached.) *)
Theorem makalu_refines LIM fuel rs nils c k :
  MemLimit LIM -> (Z.to_nat LIM < fuel)%nat -> inside rs nils -> nils <> 0 -> (forall r, r ∈ rs -> 0 <= r.1 /\ r.1 + r.2 <= LIM * HBLKSZ) ->
  (forall h live, obj_reach c ∅ h live -> obj_legal live (c h)) ->
  (start_makalu fuel;; obj_play fuel c k []) (base_makalu (base_heap rs nils)) = Err Throw \/
  exists h s live, (start_makalu fuel;; obj_play fuel c k []) (base_makalu (base_heap rs nils)) = Ok (h, s) /\ obj_reach c ∅ h live /\ makalu_inv LIM s live /\
    forall p z q y, live !! p = Some z -> live !! q = Some y -> q <> p -> apart p z q y.
Proof.
  intros Hlim Hfu Hin Hn Hrs Hc. assert (Hw : wp True (start_makalu fuel;; obj_play fuel c k []) (base_makalu (base_heap rs nils)) (fun h s => exists live, obj_reach c ∅ h live /\ makalu_inv LIM s live)).
  { apply wp_bind. eapply wp_mono; [apply (wp_start fuel LIM); [done|done|done|lia|done]|]. intros [] s Hi. eapply obj_play_sim; [done|done|done|constructor|exact Hi]. }
  destruct (wp_abort _ _ _ Hw) as [|(h & s & Hp & live & Hr & Hi)]; [by left|right]. exists h, s, live. split; [done|]. split; [done|]. split; [done|]. intros p z q y Hz Hy. destruct (obj_facts s live p z Hi Hz) as (_ & _ & _ & Hap). by apply Hap.
Qed.

(** C21: freeing a live object always returns, also when the array it goes to is full
    and objects are given back to their blocks, and blocks without objects to the block heap; the
    other objects stay live. *)
Theorem MAK_free_total LIM fuel s live p z : MemLimit LIM -> (Z.to_nat LIM < fuel)%nat -> makalu_inv LIM s live -> live !! p = Some z ->
  exists s', MAK_free fuel p s = Ok (tt, s') /\ makalu_inv LIM s' (delete p live).
Proof.
  intros Hlim Hfu Hi Hp. destruct (wp_total (MAK_free fuel p) s (fun _ s' => makalu_inv LIM s' (delete p live))) as ([] & s' & Hr & Hi'); [|by exists s'].
  apply (wp_free fuel Hfu s live p z _ Hi Hp). done.
Qed.

(** C28: for any pointer into a live object, in whatever block of it,
    [MAK_get_size] returns the size of the object, by way of the header cache or the block index. *)
Theorem MAK_get_size_interior LIM fuel s live p z d : MemLimit LIM -> (Z.to_nat LIM < fuel)%nat -> makalu_inv LIM s live -> live !! p = Some z -> 0 <= d < z ->
  exists s', MAK_get_size fuel (p + d) s = Ok (z, s') /\ makalu_inv LIM s' live.
Proof.
  intros Hlim Hfu (A & F & t & O & c & R) Hp Hd. pose proof (mi_based _ _ _ _ _ _ _ R) as B. destruct (obj_facts s live p z ltac:(by exists A, F, t, O, c) Hp) as (Hp0 & _). pose proof (live_obj _ _ _ _ _ _ _ p z R Hp) as Hobj.
  destruct (obj_inside _ _ _ _ _ _ B Hobj) as (r0 & Hr0 & _ & _ & Hb & _). pose proof (run_addr B _ _ Hr0) as Hra. assert (Hw : wp False (MAK_get_size fuel (p + d)) s (fun x s' => x = z /\ makalu_inv LIM s' live)).
  { unfold MAK_get_size. apply wp_bind, wp_gets. rewrite (mi_init _ _ _ _ _ _ _ R). cbn [negb]. destruct (Z.eqb_spec (p + d) 0); [unfold HBLKSZ in *; lia|]. apply wp_bind. eapply (wp_base fuel Hfu _ s A F t); [exact B|exact Hobj|apply R|done|].
    intros s' r Hr Hs B' Hsm. destruct (Z.eqb_spec p 0); [done|]. apply wp_bind. eapply (wp_get B'); [exact Hr|]. apply wp_ret. split; [done|]. exists A, F, t, O, c. by eapply rep_same. }
  destruct (wp_total _ _ _ Hw) as (x & s' & Hr & -> & Hi). by exists s'.
Qed.

End client.

(** ** Runs on concrete memory *)

Definition base_small : makalu := base_makalu (base_heap [(16384, 65536)] 16384).
Definition answers {A} (x : res (A * makalu)) : res A := match x with Ok (r, _) => Ok r | Err e => Err e end.

(** A program: it allocates a small and a large object and frees the small one, allocates another
    and frees the large one, and then allocates small ones. *)
Definition demo_objs : obj_program := fun h =>
  match h with
  | [] => ReqMalloc 100
  | [_] => ReqMalloc 10000
  | [p; _] => ReqObjFree p
  | [_; _; _] => ReqMalloc 600
  | [_; q; _; _] => ReqObjFree q
  | _ => ReqMalloc 100
  end.

(** The small object that is freed is the next that is allocated. *)
Lemma demo_objs_run : answers ((start_makalu 129;; obj_play 129 demo_objs 7 []) base_small) = Ok [216912; 217088; 0; 232736; 0; 216912; 216800].
Proof. vm_compute. reflexivity. Qed.

(** An allocation of no bytes writes through a null pointer: there is no array for no granules. *)
Example malloc_zero_invalid : answers ((start_makalu 129;; MAK_malloc 129 0) base_small) = Err UB_access.
Proof. vm_compute. reflexivity. Qed.

Lemma or_inv c live0 h r live : obj_reach c live0 (h ++ [r]) live -> exists live1, obj_reach c live0 h live1 /\ ostep live1 (c h) r live.
Proof. intros Hr. inversion Hr as [Hx|h' live1 r' live' Hr' Hs Hx]; [by destruct h|]. apply app_inj_tail in Hx as [-> ->]. by exists live1. Qed.

Lemma or_nil_inv c live0 live : obj_reach c live0 [] live -> live = live0.
Proof. intros Hr. inversion Hr as [|h' live1 r' live' Hr' Hs Hx]; [done|]. by destruct h'. Qed.

Lemma ostep_malloc_inv live n p live' : ostep live (ReqMalloc n) p live' -> exists z, live' = <[p := z]> live /\ n <= z /\ forall q y, live !! q = Some y -> apart p z q y.
Proof. intros Hs. inversion Hs as [n' p' z _ _ Hn Hap| |]; subst. by exists z. Qed.

Lemma demo_two p q live : obj_reach demo_objs ∅ [p; q] live -> exists z y, live = <[q := y]> (<[p := z]> ∅) /\ p <> q.
Proof.
  intros (l1 & Hr & (y & -> & Hy & Hap)%ostep_malloc_inv)%(or_inv _ _ [p] q). apply (or_inv _ _ [] p) in Hr as (l0 & ->%or_nil_inv & (z & -> & Hz & _)%ostep_malloc_inv).
  exists z, y. split; [done|]. intros ->. destruct (Hap q z (lookup_insert_eq _ _ _)); lia.
Qed.

Lemma demo_objs_legal h live : obj_reach demo_objs ∅ h live -> obj_legal live (demo_objs h).
Proof.
  intros Hr. destruct h as [|p [|q [|u [|v [|w h]]]]]; cbn [demo_objs obj_legal]; try lia; right.
  - destruct (demo_two p q live Hr) as (z & y & -> & Hne). rewrite lookup_insert_ne, lookup_insert_eq by done. by eexists.
  - apply (or_inv _ _ [p; q; u] v) in Hr as (l3 & Hr & (z & -> & _ & _)%ostep_malloc_inv). apply (or_inv _ _ [p; q] u) in Hr as (l2 & Hr & Hs). destruct (demo_two p q l2 Hr) as (z' & y & -> & Hne).
    apply lookup_insert_is_Some'. right. inversion Hs; subst; [rewrite lookup_delete_ne by done|]; rewrite lookup_insert_eq; by eexists.
Qed.

Lemma start_ok : answers (start_makalu 129 base_small) = Ok tt.
Proof. vm_compute. reflexivity. Qed.

Lemma makalu_refines_witness : exists s live, (start_makalu 129;; obj_play 129 demo_objs 7 []) base_small = Ok ([216912; 217088; 0; 232736; 0; 216912; 216800], s) /\
  obj_reach demo_objs ∅ [216912; 217088; 0; 232736; 0; 216912; 216800] live /\ forall p z q y, live !! p = Some z -> live !! q = Some y -> q <> p -> apart p z q y.
Proof.
  destruct small_base as [Hin Hrs]. pose proof demo_objs_run as Hrun.
  destruct (makalu_refines 128 129 [(16384, 65536)] 16384 demo_objs 7 small_limit ltac:(lia) Hin ltac:(discriminate) Hrs demo_objs_legal) as [Hx|(h & s & live & Hx & Hr & _ & Hap)]; fold base_small in Hx; rewrite Hx in Hrun; [discriminate Hrun|].
  injection Hrun as ->. exists s, live. split; [exact Hx|]. split; [exact Hr|exact Hap].
Defined.

(** The allocator with one object of ten thousand bytes. *)
Lemma large_eq : answers ((start_makalu 129;; MAK_malloc 129 10000) base_small) = Ok 212992.
Proof. vm_compute. reflexivity. Qed.

Lemma started : exists s, start_makalu 129 base_small = Ok (tt, s) /\ makalu_inv 128 s ∅.
Proof.
  destruct small_base as [Hin Hrs]. assert (Hw : wp True (start_makalu 129) base_small (fun _ s => makalu_inv 128 s ∅)) by exact (wp_start 129 128 [(16384, 65536)] 16384 small_limit Hin ltac:(discriminate) ltac:(lia) Hrs).
  pose proof start_ok as He. destruct (wp_abort _ _ _ Hw) as [Hx|([] & s & Hs & Hi)]; [rewrite Hx in He; discriminate He|]. exists s. split; [exact Hs|exact Hi].
Qed.

Lemma one_large : exists s z, (start_makalu 129;; MAK_malloc 129 10000) base_small = Ok (212992, s) /\ makalu_inv 128 s {[212992 := z]} /\ 10000 <= z.
Proof.
  destruct started as (s & Hs & Hi). pose proof large_eq as He. rewrite (cbind_Ok _ _ _ _ _ Hs) in He |- *.
  destruct (wp_abort _ _ _ (wp_malloc 129 ltac:(lia) s ∅ 10000 (fun p s' => allocated_obj (own := owned) (LIM := 128) ∅ 10000 p s') Hi ltac:(lia) ltac:(done))) as [Hx|(p & s' & Hp & z & Hi' & _ & Hz)]; rewrite ?Hx, ?Hp in He; [discriminate He|].
  injection He as ->. exists s', z. split; [exact Hp|]. split; [exact Hi'|exact Hz].
Qed.

Lemma MAK_free_total_witness : exists s z, (start_makalu 129;; MAK_malloc 129 10000) base_small = Ok (212992, s) /\ exists s', MAK_free 129 212992 s = Ok (tt, s') /\ makalu_inv 128 s' (delete 212992 {[212992 := z]}).
Proof.
  destruct one_large as (s & z & Hs & Hi & _). exists s, z. split; [exact Hs|]. apply (MAK_free_total 128 129 s {[212992 := z]} 212992 z small_limit ltac:(lia) Hi). apply lookup_singleton_eq.
Defined.

Lemma MAK_get_size_interior_witness : exists s z, (start_makalu 129;; MAK_malloc 129 10000) base_small = Ok (212992, s) /\ exists s', MAK_get_size 129 (212992 + 9000) s = Ok (z, s') /\ makalu_inv 128 s' {[212992 := z]}.
Proof.
  destruct one_large as (s & z & Hs & Hi & Hz). exists s, z. split; [exact Hs|]. apply (MAK_get_size_interior 128 129 s {[212992 := z]} 212992 z 9000 small_limit ltac:(lia) Hi); [apply lookup_singleton_eq|lia].
Defined.
